(* ===== verification/_CoqProject ===== *)
-Q . S2P
Prelude.v
Armor.v
Serial.v
Mdblock.v
Sha1.v
Sha1oracle.v
Itree.v
ItreeShape.v
ItreeInsert.v
ItreeDelete.v
ItreeQuery.v
ItreeFree.v
ItreeProps.v
Bits.v
Seqno.v
Bbuddy.v
BbuddyMap.v
BbuddyOps.v
BbuddyProps.v
Mpz.v
MpzSpec.v
MpzOps.v
MpzRaw.v
Pad.v
Suio.v
SuioSpec.v
SuioOps.v
SuioInput.v
SuioProps.v
Stream.v
StreamSend.v
StreamRecv.v
StreamProps.v
Modalg.v
ModalgOps.v
ModalgProps.v
Arc4.v
AxprtCrypt.v
Aes.v
AesOps.v
AesKeys.v
AesProps.v
Ocb.v
Blowfish.v
BlowfishProps.v
Convertint.v
Password.v
NumTheory.v
Bigint.v
Prime.v
PrimeProps.v
Rabin.v
Rsa.v
Homoenc.v
PaillierProps.v
Elgamal.v
Poly.v
Pm.v
Fips186.v
Schnorr.v
Dsa.v
Esign.v
Srp.v
SrpProps.v
Links.v
Ihash.v
IhashProps.v
Qhash.v
Cbuf.v
Dnsparse.v
DnsProps.v
DnsSrv.v
DnsResults.v
Tiger.v
Hashcash.v
Sfspath.v
Asrv.v
AsrvProps.v
Core.v
CoreProps.v
