(* ===== verification/Prelude.v ===== *)
(** * A verification of the core libraries of SFS

    SFS, the self-certifying file system, is a set of daemons and commands on
    top of a few C++ libraries: [src/async] (event-driven programming and its
    data structures), [src/arpc] (packets and RPC on sockets), [src/crypt]
    (cryptography) and [src/sfsmisc] (the protocols).  The daemons are mostly
    input and output; the logic that everything else relies on is in the
    libraries, and this development models it from the data structures
    upwards.

    ** How the parts fit together

    An [axprt_stream] ([arpc/axprt_stream.C]) sends and receives packets on a
    socket.  What it has to send waits in a [suio] ([async/suio++.C]), a queue
    of bytes made of pieces of memory.  [axprt_crypt]
    ([crypt/axprt_crypt.C]) is derived from it and encrypts the packets with
    [arc4] and authenticates them with SHA-1.  The keys of a connection come
    from public-key operations on padded numbers ([crypt/pad.C]); the padding
    uses the random oracle ([crypt/sha1oracle.C]), which runs several SHA-1
    computations ([crypt/sha1.C]) on the blocks that [crypt/mdblock.C]
    collects, and the conversions between numbers and bytes of
    [crypt/mpz_raw.C].  [crypt/modalg.C] is the arithmetic below.  Datagrams
    are protected against replay by [seqcheck] ([crypt/seqno.C]), on the bit
    vectors of [async/bitvec.h].  The intrusive red-black tree
    ([async/itree.C]), the buddy allocator ([async/bbuddy.C]) and the text
    encodings ([async/armor.C], [async/serial.h]) are used throughout.

    Programs are driven by the event loop [amain] ([async/core.C]): they
    register callbacks for times, descriptors, signals, children and idle
    moments, and the loop calls them.  It keeps its timers in an [itree], its children in a hash
    table ([async/ihash.h]) and its idle callbacks in a list ([async/list.h]).  RPC servers
    ([arpc/asrv.C]) take packets from a transport through an [xhinfo], hand calls to
    callbacks and keep answers to repeat them, in hash tables and lists again.
    Answers of name servers are parsed by [async/dnsparse.C]; a server is named
    by a path that holds the hash of its key ([sfsmisc/sfspath.C]) and may ask its clients
    for hash cash ([crypt/hashcash.C]).

    The public-key systems (Rabin and Williams, RSA, Paillier, ElGamal,
    Schnorr, DSA, ESIGN) take their primes from [crypt/random_prime.C] and
    their groups from [crypt/fips186.C].  Users prove that they know a
    password by SRP ([crypt/srp.C]), in which the password is stretched by
    [crypt/password.C] on top of Blowfish.  Private matching ([crypt/pm.C])
    works on any homomorphic system ([crypt/homoenc.h]).

    ** How C++ is modelled

    Code is translated to functions with explicit state.  A word of w bits is
    a [Z] with its wrap-around written out ([u8], [u32], [u64] and masks where
    the code masks); a byte is a [Z] between 0 and 255.  An operation returns
    an [outcome]: [Done], [Panic] for a failed assertion or a call of
    [panic], [Wild] for an access outside of an object or to freed memory, and
    [Spin] when a loop has used the turns the model gives it.  Arrays are
    lists that are read and written by [rd] and [wr] with a check of the
    bounds, so that a theorem with the conclusion [Done] says that no access
    is out of bounds.  Where pointers and aliasing matter the memory is
    explicit: a map of nodes in [Itree.v], blocks of memory with addresses and
    deallocation in [Suio.v], limbs that an operand may share with the result
    in [Mpz.v].

    What is not in the repository is a parameter.  GMP's functions are the
    operations of the type classes [Gmp] and [GmpArith], their documented
    behaviour the laws [GmpOK] and [GmpArithOK]; concrete instances in [MpzRaw.v] and
    [ModalgProps.v] show that the laws can be met.  In the same way
    [GmpNum]/[GmpNumOK] ([Bigint.v]: powers, the Jacobi symbol, the test for
    primes), [GmpStr]/[GmpStrOK] (numbers as text) and [SrpXdr]/[SrpXdrOK]
    (the generated coding of SRP's messages, [Srp.v] and [SrpProps.v]),
    [DnLib]/[DnLibOK] (names in DNS messages, the resolver library),
    [Qsort]/[QsortOK] (the C library's sort, both in [Dnsparse.v]) and [RpcXdr] (the
    coding of RPC messages, [Asrv.v], with an instance for bytes in [AsrvProps.v]).
    [HashKey]/[HashKeyOK] ([Ihash.v]) is what hash tables ask of their keys.
    Random numbers are lists of the blocks of bytes that the generator hands
    out.  [Homoenc]/[HomoencOK] is the interface of homomorphic encryption
    inside the program: [Homoenc.v] (Paillier's) and [Elgamal.v] implement it, [Pm.v] is
    proved against it.  Fresh memory is a
    function [junk] that gives blocks of the right size with any contents.
    The kernel is a list of answers to [read] and [write] (in [Core.v] also of
    times, of what [select] reports, of children that end and of signals that
    arrive), the callbacks of the user a function from what they have seen to
    what they do; the theorems hold for all of them.

    ** The files

    - [Prelude.v]: notations of the C operators, outcomes and their monad,
      arrays, words of 8, 16, 32 and 64 bits, lemmas on bits.
    - [Armor.v]: [async/armor.C], base 32 and base 64.  [Serial.v]:
      [async/serial.h], integers and strings as bytes and as text.
    - [Mdblock.v]: [crypt/mdblock.C], the buffer of hash functions, against
      the interface [Consumer] of the virtual function [consume].  [Sha1.v]:
      [crypt/sha1.C] and HMAC of [crypt/sha1.h], with SHA-1 as the standard
      has it as specification.  [Sha1oracle.v]: [crypt/sha1oracle.C].
    - [Itree.v]: [async/itree.C] and [async/itree.h] on a heap.
      [ItreeShape.v] relates heaps to trees, [ItreeInsert.v],
      [ItreeDelete.v], [ItreeQuery.v] and [ItreeFree.v] hold the proofs,
      [ItreeProps.v] the theorems.
    - [Bits.v]: [async/msb.C], [async/msb.h], [async/bitvec.h].  [Seqno.v]:
      [crypt/seqno.C].
    - [Bbuddy.v]: [async/bbuddy.C].  [BbuddyMap.v] and [BbuddyOps.v] relate it to
      sets of free blocks, [BbuddyProps.v] has growth and the theorems.
    - [Mpz.v]: [crypt/mpz_raw.C], [crypt/mpz_misc.C], [crypt/mpz_xor.C].
      [MpzSpec.v] says which integer the limbs stand for, [MpzOps.v] and
      [MpzRaw.v] hold the proofs and theorems.
    - [Pad.v]: [crypt/pad.C].
    - [Suio.v]: [async/suio++.C].  [SuioSpec.v]: the queue it stands for;
      [SuioOps.v], [SuioInput.v] and [SuioProps.v]: the operations refine it.
    - [Stream.v]: [arpc/axprt_stream.C].  [StreamSend.v], [StreamRecv.v]: the
      two directions; [StreamProps.v]: end to end.
    - [Modalg.v]: [crypt/modalg.C], Barrett and Montgomery arithmetic.
      [ModalgOps.v], [ModalgProps.v]: its correctness.
    - [Arc4.v]: [crypt/arc4.C].  [AxprtCrypt.v]: [crypt/axprt_crypt.C] on
      top of [Stream.v], with its round trip and authenticity.
    - [Aes.v]: [crypt/aes.C] with its tables, and the cipher of FIPS
      197; [AesOps.v], [AesKeys.v]: rounds and key schedules; [AesProps.v]: the
      theorems.  [Ocb.v]: [crypt/ocb.C] on top of it and its
      theorems, proved against the interface [BlockCipher].
    - [Blowfish.v]: [crypt/blowfish.C] and its data; [BlowfishProps.v]: its
      correctness, and that of the chaining [cbc64iv] for any cipher of the
      interface [Block64OK].
    - [Convertint.v]: [async/convertint.C], numbers from text.  [Password.v]:
      [crypt/password.C] and [hashpwd], with its theorems.
    - [NumTheory.v]: congruences, units, Fermat, Euler's criterion, the
      theorem of Pocklington.  [Bigint.v]: the operations of
      [crypt/bigint.h], and primes for examples.
    - [Prime.v]: [crypt/random_prime.C], [crypt/prime.h]; [PrimeProps.v]:
      tests, searches and random numbers.
    - [Rabin.v]: [crypt/rabin.C].  [Rsa.v]: [crypt/rsa.C].
    - [Homoenc.v]: [crypt/homoenc.h] and [crypt/paillier.C]; [PaillierProps.v]: the
      theorems on the latter.  [Elgamal.v]: [crypt/elgamal.C].  [Poly.v]:
      [crypt/poly.C].  [Pm.v]: [crypt/pm.C].
    - [Fips186.v]: [crypt/fips186.C].  [Schnorr.v]: [crypt/schnorr.C].
      [Dsa.v]: [crypt/dsa.C].  [Esign.v]: [crypt/esign.C].
    - [Srp.v], [SrpProps.v]: [crypt/srp.C].
    - [Links.v]: [async/list.h], lists on memory with links that point into
      links.  [Ihash.v], [IhashProps.v]: [async/ihash.h], [async/ihash.C] and
      the hash functions of [async/keyfunc.h] on the same memory.  [Qhash.v]:
      [async/qhash.h] on top of it.  [Cbuf.v]: [async/cbuf.C].
    - [Dnsparse.v]: [async/dnsparse.C].  [DnsProps.v]: reading a record;
      [DnsSrv.v]: the order of [SRV] records; [DnsResults.v]: the results that
      are made of a message.
    - [Tiger.v]: [crypt/tiger.C].  [Hashcash.v]: [crypt/hashcash.C].
      [Sfspath.v]: [sfsmisc/sfspath.C].
    - [Asrv.v]: [arpc/asrv.C] and [arpc/xhinfo.C].  [AsrvProps.v]: the cache of
      replies that servers on datagrams implement.
    - [Core.v]: [async/core.C] and the times of [async/amisc.h].
      [CoreProps.v]: what the event loop promises.

    ** What the theorems show

    - Data structures: the red-black tree implements an ordered sequence
      (insertion and removal with the red-black invariant and the bound on the
      turns of the repair loops; search; the consistency check decides the
      invariant; freeing accesses nothing that is freed).  The buddy allocator
      hands out aligned blocks that are free and disjoint from all others, and
      fails only if there is none; freeing merges buddies; freeing what was
      allocated restores the state.  Any sequence of operations on a [suio]
      behaves as the queue of bytes with callbacks.  Hash tables
      behave as sets of elements with keys, hash maps as finite maps, through
      all growing and down to which memory is freed; lists keep their order under
      any change of links; the circular buffer is a queue.
    - Event loop: for any callbacks and any kernel the loop follows no invalid
      pointer and calls only what is registered, timers not before their time; if
      callbacks register only what is later it completes any number of
      rounds, every timer that is due is called, and no signal is lost.
      The conditions (callbacks remove only what is registered and do not call [acheck])
      are those without which the code does go wrong; an example shows it for [acheck].
    - RPC servers: any sequence of packets and answers on a datagram server
      has the calls and packets of a cache of 16 answers, a call is executed
      at most once while it is in it; on connections a repeated call reads
      through the null pointer.
    - Names: a record of a DNS message is read exactly if it has the format of
      the standards; [SRV] records are permuted in the order of priorities;
      the tables of hosts and mail exchangers hold exactly what the message
      says.  Self-certifying paths are read back as they were made.
    - Transport: what a stream sends under any answers of the kernel are the
      frames of the packets; a receiver that gets these bytes in any pieces
      delivers the packets in order.  An encrypted stream delivers to a peer
      with matching keys all packets in order, and from any other bytes
      nothing but what carries the right authentication code.
    - Cryptography: [transform] and [final] compute SHA-1 as specified for
      messages in any pieces, HMAC and the random oracle are those of their
      definitions; padding and unpadding are inverse, and a signature's padding is
      accepted for another message exactly if the hashes collide; Montgomery
      exponentiation is exponentiation, Barrett reduction ends with a residue;
      [seqcheck] accepts no number twice and accepts all that come in order.
      The tables and unrolled rounds of AES compute FIPS 197; decryption
      undoes encryption for AES, OCB, Blowfish and chained blocks, and OCB
      accepts a tag exactly if encryption gives it.  Hash cash that is paid is
      accepted, and paying ends with the first block that is.  A password is accepted
      against what was stored for it; [strtoi64] gives the number or the
      nearest one of 64 bits, without overflow.
    - Public keys: what was encrypted is decrypted (Rabin, RSA, Paillier), what was
      signed is accepted (Rabin, Schnorr in one and in two parts, DSA, ESIGN);
      the tests for primes accept primes, the test for SRP's primes decides.
      Sums and multiples under Paillier's encryption are sums and multiples of
      the plaintexts, and private matching gives the client the payloads of
      the intersection.  Both ends of SRP agree on a key.
    - Where the code does something else than its comments say or its callers
      expect, a theorem or a lemma says what it does (loops that do not end,
      assertions that fail on allowed input, reads beyond the end).

    ** Bounds and fuel

    Loops that are not structural take a budget.  It is computed by the model
    from the size of the data (the depth of a tree, the number of pieces, the
    length of a key), and the theorems conclude [Done], so it is enough; where
    the caller chooses the budget (the loop of [callgetpkt], sequences of
    reads, the blocks that are tried as hash cash) the theorem names one that is enough.  The loops of the event loop that callbacks may
    extend have a budget of their own: one turn per timer is enough for
    [timecb_check], and for any number of rounds some budget is, if callbacks
    register only what is later; the nesting of callbacks is bounded by the number of
    children.  Sizes that the code keeps in
    32 bits ([pktsize], lengths of iovecs) are bounded in the hypotheses by
    what the type can hold.

    ** What is not modelled

    Vendored and generated code ([async/pcre.c], [sfsmisc/mallock.C],
    [async/callback.h], scanners and parsers of [tame] and [rpcc]);
    processes, sockets and files, whose behaviour is that of the
    operating system; everything that works on types that [rpcc] generates
    from [svc/*.x], which the repository does not hold (the sessions of
    [sfsmisc], the caches of NFS attributes, the daemons).  RPC clients
    ([arpc/aclnt.C]), the XDR routines ([arpc/xdrmisc.C]) and the packets on
    datagram and Unix sockets around the parts that are modelled; the formatted
    output of [async/suio_vuprintf.C], which is the C library's; [crypt/umac.C];
    the gathering of random bytes ([crypt/prng.C], [crypt/rndseed.C]); the
    C library [libsfs].  Memory
    that runs out and exceptions are not modelled, nor the order in which
    reference-counted objects are destroyed, except where a component does it
    explicitly.  Sizes that the code keeps in [size_t] are integers
    without a bound where no program can reach it (the counters of a [suio]). *)
From Stdlib Require Import ZArith Lia Btauto Ascii.
From stdpp Require Import prelude strings.

#[global] Open Scope Z_scope.

(** ** C operators *)
Declare Scope c_scope.
Delimit Scope c_scope with c.
Infix ".<<" := Z.shiftl (at level 51, left associativity) : c_scope.
Infix ".>>" := Z.shiftr (at level 51, left associativity) : c_scope.
Infix ".&" := Z.land (at level 52, left associativity) : c_scope.
Infix ".^" := Z.lxor (at level 53, left associativity) : c_scope.
Infix ".|" := Z.lor (at level 54, left associativity) : c_scope.
#[global] Open Scope c_scope.

(** The bytes of a C string literal, without its terminating NUL. *)
Fixpoint chars (s : string) : list Z :=
  match s with
  | EmptyString => []
  | String c s' => Z.of_N (N_of_ascii c) :: chars s'
  end.

(** ** Outcomes of C code

    [Done a] is a normal return, [Panic] an [assert] that fires or a call
    of [panic], and [Wild] an access outside the object a pointer points
    into (undefined behaviour in C).  [Spin] says that the budget of turns
    the model gives a loop is used up; theorems about loops prove that a
    stated budget is enough, so that the outcome is [Done]. *)
Inductive outcome (A : Type) : Type :=
| Done (a : A)
| Panic
| Wild
| Spin.
Arguments Done {A} a.
Arguments Panic {A}.
Arguments Wild {A}.
Arguments Spin {A}.

#[export] Instance outcome_ret : MRet outcome := fun A a => Done a.
#[export] Instance outcome_bind : MBind outcome := fun A B k m =>
  match m with Done a => k a | Panic => Panic | Wild => Wild | Spin => Spin end.

Definition assertM (b : bool) : outcome unit := if b then Done tt else Panic.

(** [rd l i] is [l[i]], [wr l i v] is [l[i] = v], both checked against
    the extent of the object. *)
Definition rd {A} (l : list A) (i : Z) : outcome A :=
  if 0 <=? i
  then match l !! Z.to_nat i with Some a => Done a | None => Wild end
  else Wild.

Definition wr {A} (l : list A) (i : Z) (v : A) : outcome (list A) :=
  if (0 <=? i) && (i <? Z.of_nat (length l))
  then Done (<[Z.to_nat i := v]> l) else Wild.

(** A constant table indexed by a value known to be in range. *)
Definition tbl (t : list Z) (i : Z) : Z := nth (Z.to_nat i) t 0.

#[global] Arguments tbl : simpl never.

(** ** Machine integers *)
Definition u8 (x : Z) : Z := Z.land x 255.
Definition u16 (x : Z) : Z := Z.land x 65535.
Definition u32 (x : Z) : Z := Z.land x 4294967295.
Definition u64 (x : Z) : Z := Z.land x 18446744073709551615.

#[global] Arguments u8 : simpl never.
#[global] Arguments u16 : simpl never.
#[global] Arguments u32 : simpl never.
#[global] Arguments u64 : simpl never.

Definition is_byte (b : Z) : Prop := 0 <= b < 256.

Lemma u8_mod x : u8 x = x mod 2 ^ 8.
Proof. exact (Z.land_ones x 8 ltac:(lia)). Qed.
Lemma u16_mod x : u16 x = x mod 2 ^ 16.
Proof. exact (Z.land_ones x 16 ltac:(lia)). Qed.
Lemma u32_mod x : u32 x = x mod 2 ^ 32.
Proof. exact (Z.land_ones x 32 ltac:(lia)). Qed.
Lemma u64_mod x : u64 x = x mod 2 ^ 64.
Proof. exact (Z.land_ones x 64 ltac:(lia)). Qed.

Lemma u8_byte x : is_byte (u8 x).
Proof. unfold is_byte. rewrite u8_mod. apply Z.mod_pos_bound. lia. Qed.

Lemma u8_small x : is_byte x -> u8 x = x.
Proof. intros H. rewrite u8_mod. apply Z.mod_small. unfold is_byte in H. lia. Qed.

Lemma u64_small x : 0 <= x < 2 ^ 64 -> u64 x = x.
Proof. intros H. rewrite u64_mod. by apply Z.mod_small. Qed.

Lemma u32_small x : 0 <= x < 2 ^ 32 -> u32 x = x.
Proof. intros H. rewrite u32_mod. by apply Z.mod_small. Qed.

(** ** Reasoning bit by bit *)
Lemma testbit_high x n i : 0 <= x < 2 ^ n -> 0 <= n <= i -> Z.testbit x i = false.
Proof.
  intros Hx Hi. rewrite <- (Z.mod_small x (2 ^ n)) by lia.
  apply Z.mod_pow2_bits_high. lia.
Qed.

Lemma byte_testbit_high x i : is_byte x -> 8 <= i -> Z.testbit x i = false.
Proof. intros Hx Hi. apply (testbit_high x 8); unfold is_byte in Hx; lia. Qed.

Create Rewrite HintDb bits.
#[export] Hint Rewrite Z.lor_spec Z.land_spec Z.lxor_spec Z.ldiff_spec
  Z.testbit_0_l : bits.
#[export] Hint Rewrite Z.shiftl_spec Z.shiftr_spec Z.lnot_spec using lia : bits.
#[export] Hint Rewrite Z.testbit_neg_r using lia : bits.

(** Bits [>= 8] of the bytes of the context are zero. *)
Ltac kill_high_bits :=
  repeat match goal with
  | H : is_byte ?x |- context [Z.testbit ?x ?i] =>
      rewrite (byte_testbit_high x i H) by lia
  end.

(** Evaluates [Z.testbit c i] for numerals and the index arithmetic. *)
Ltac eval_bits :=
  repeat match goal with
  | |- context [Z.testbit (Zpos ?p) ?i] =>
      let b := eval vm_compute in (Z.testbit (Zpos p) i) in
      change (Z.testbit (Zpos p) i) with b
  | |- context [Z.testbit ?x (?a - ?b)] =>
      let c := eval vm_compute in (a - b) in change (a - b) with c
  | |- context [Z.testbit ?x (?a + ?b)] =>
      let c := eval vm_compute in (a + b) in change (a + b) with c
  end.

Lemma bits_byte_ext x y :
  is_byte x -> is_byte y ->
  (forall i, i ∈ [0; 1; 2; 3; 4; 5; 6; 7] -> Z.testbit x i = Z.testbit y i) ->
  x = y.
Proof.
  intros Hx Hy H. apply Z.bits_inj'. intros i Hi.
  destruct (Z.lt_ge_cases i 8).
  - apply H. rewrite !elem_of_cons. lia.
  - by rewrite !byte_testbit_high.
Qed.

(** Proves an equality of bytes by comparing the eight bits. *)
Ltac byte_bits :=
  apply bits_byte_ext;
  [ auto using u8_byte | auto using u8_byte | ];
  let i := fresh "i" in let Hi := fresh "Hi" in
  intros i Hi; rewrite !elem_of_cons in Hi;
  repeat (destruct Hi as [-> | Hi]); try (by apply elem_of_nil in Hi);
  unfold u8;
  repeat (progress (autorewrite with bits; eval_bits));
  kill_high_bits; eval_bits; try btauto.

(** ** Bounds from bits *)
Lemma bits_bound n x :
  0 <= n -> 0 <= x -> (forall i, n <= i -> Z.testbit x i = false) -> 0 <= x < 2 ^ n.
Proof.
  intros Hn Hx H. split; [done|].
  destruct (Z.eq_dec x 0) as [->|]; [by apply Z.pow_pos_nonneg|].
  apply Z.log2_lt_pow2; [lia|].
  destruct (Z.lt_ge_cases (Z.log2 x) n) as [|Hge]; [done|].
  specialize (H _ Hge). rewrite Z.bit_log2 in H; [done|lia].
Qed.

Ltac bits_nonneg :=
  repeat first
    [ apply Z.lor_nonneg; split | apply Z.shiftl_nonneg | apply Z.shiftr_nonneg
    | apply Z.land_nonneg; first [right; lia | left] ];
  unfold is_byte in *; lia.

(** Zeroes the bits of numerals above their leading one. *)
Ltac kill_numeral_bits :=
  repeat match goal with
  | |- context [Z.testbit (Zpos ?p) ?i] =>
      let k := eval vm_compute in (Z.log2 (Zpos p) + 1) in
      rewrite (testbit_high (Zpos p) k i) by lia
  end.

(** Proves [0 <= x < 2 ^ n] for a bit expression over bytes. *)
Ltac bit_bound n :=
  apply (bits_bound n); [lia | bits_nonneg | ];
  let i := fresh "i" in intros i ?;
  autorewrite with bits; kill_high_bits; kill_numeral_bits; try btauto.

(** ** Exhaustive checks over an initial segment of [Z] *)
Lemma forallb_seqZ (n : Z) (P : Z -> bool) v :
  forallb P (seqZ 0 n) = true -> 0 <= v < n -> P v = true.
Proof.
  intros H Hv. rewrite forallb_forall in H. apply H.
  apply list_elem_of_In, elem_of_seqZ. lia.
Qed.

(** ** Lists *)
Lemma length_ind {A} (P : list A -> Prop) :
  (forall l, (forall l', (length l' < length l)%nat -> P l') -> P l) -> forall l, P l.
Proof.
  intros H l. remember (length l) as n eqn:E. revert l E.
  induction (lt_wf n) as [n _ IH]. intros l ->. apply H. eauto.
Qed.

Lemma rd_app_l {A} (l k : list A) i :
  0 <= i < Z.of_nat (length l) -> rd (l ++ k) i = rd l i.
Proof.
  intros Hi. unfold rd. destruct (Z.leb_spec 0 i); [|lia].
  rewrite lookup_app_l by lia. done.
Qed.

Lemma rd_head {A} (x : A) l : rd (x :: l) 0 = Done x.
Proof. done. Qed.

Lemma rd_tail {A} (x : A) l i : 0 < i -> rd (x :: l) i = rd l (i - 1).
Proof.
  intros Hi. unfold rd.
  destruct (Z.leb_spec 0 i); [|lia]. destruct (Z.leb_spec 0 (i - 1)); [|lia].
  by replace (Z.to_nat i) with (S (Z.to_nat (i - 1))) by lia.
Qed.

#[global] Arguments rd : simpl never.

(** Resolves reads at numeral indices of explicit lists. *)
Ltac rd_simpl :=
  repeat first
    [ rewrite rd_head
    | rewrite rd_tail by lia;
      match goal with |- context [rd ?l (?a - 1)] =>
        let c := eval vm_compute in (a - 1) in change (a - 1) with c end ].
