(* ===== verification/Armor.v ===== *)
(** * ASCII armor: [async/armor.C]

    Base-32 ([armor32]) and base-64 ([armor64], [armor64A]) encodings of
    byte strings.  A [const char *] argument is the list of bytes readable
    from it (its terminating NUL included); reading past that list is
    [Wild].  [NULL] results are [None]. *)
From Stdlib Require Import ZArith Lia.
From stdpp Require Import prelude strings.
From S2P Require Import Prelude.

(** ** Base 32 *)
Definition b2a32 : list Z := chars "abcdefghijkmnpqrstuvwxyz23456789".

Definition a2b32 : list Z :=
  replicate 48 (-1) ++
  [-1; -1; 24; 25; 26; 27; 28; 29; 30; 31; -1; -1; -1; -1; -1; -1] ++
  replicate 32 (-1) ++
  [-1; 0; 1; 2; 3; 4; 5; 6; 7; 8; 9; 10; -1; 11; 12; -1;
   13; 14; 15; 16; 17; 18; 19; 20; 21; 22; 23; -1; -1; -1; -1; -1] ++
  replicate 128 (-1).

Definition b2a32rem : list Z := [0; 2; 4; 5; 7].
Definition a2b32rem : list Z := [0; -1; 1; -1; 2; 3; -1; 4].

(** The [switch (rem)] after the loop. *)
Definition armor32_rem (p : list Z) : list Z :=
  match p with
  | [p0; p1; p2; p3] =>
      [tbl b2a32 (p0 .>> 3);
       tbl b2a32 ((p0 .& 7) .<< 2 .| p1 .>> 6);
       tbl b2a32 (p1 .>> 1 .& 31);
       tbl b2a32 ((p1 .& 1) .<< 4 .| p2 .>> 4);
       tbl b2a32 ((p2 .& 15) .<< 1 .| p3 .>> 7);
       tbl b2a32 (p3 .>> 2 .& 31);
       tbl b2a32 ((p3 .& 3) .<< 3)]
  | [p0; p1; p2] =>
      [tbl b2a32 (p0 .>> 3);
       tbl b2a32 ((p0 .& 7) .<< 2 .| p1 .>> 6);
       tbl b2a32 (p1 .>> 1 .& 31);
       tbl b2a32 ((p1 .& 1) .<< 4 .| p2 .>> 4);
       tbl b2a32 ((p2 .& 15) .<< 1)]
  | [p0; p1] =>
      [tbl b2a32 (p0 .>> 3);
       tbl b2a32 ((p0 .& 7) .<< 2 .| p1 .>> 6);
       tbl b2a32 (p1 .>> 1 .& 31);
       tbl b2a32 ((p1 .& 1) .<< 4)]
  | [p0] =>
      [tbl b2a32 (p0 .>> 3);
       tbl b2a32 ((p0 .& 7) .<< 2)]
  | _ => []
  end.

(** The loop [while (p < e)], five bytes to eight characters a turn. *)
Fixpoint armor32_loop (p : list Z) : list Z :=
  match p with
  | p0 :: p1 :: p2 :: p3 :: p4 :: p' =>
      tbl b2a32 (p0 .>> 3) ::
      tbl b2a32 ((p0 .& 7) .<< 2 .| p1 .>> 6) ::
      tbl b2a32 (p1 .>> 1 .& 31) ::
      tbl b2a32 ((p1 .& 1) .<< 4 .| p2 .>> 4) ::
      tbl b2a32 ((p2 .& 15) .<< 1 .| p3 .>> 7) ::
      tbl b2a32 (p3 .>> 2 .& 31) ::
      tbl b2a32 ((p3 .& 3) .<< 3 .| p4 .>> 5) ::
      tbl b2a32 (p4 .& 31) ::
      armor32_loop p'
  | _ => armor32_rem p
  end.

Definition armor32 (dp : list Z) : outcome (list Z) :=
  let dl := Z.of_nat (length dp) in
  let reslen := dl / 5 * 8 + tbl b2a32rem (dl mod 5) in
  let d := armor32_loop dp in
  _ ← assertM (Z.of_nat (length d) =? reslen);
  Done d.

(** Length of the longest prefix of characters of the alphabet. *)
Fixpoint armorlen (a2b : list Z) (s : list Z) : outcome Z :=
  match s with
  | [] => Wild
  | c :: s' =>
      if 0 <=? tbl a2b c
      then n ← armorlen a2b s'; Done (n + 1)
      else Done 0
  end.

Definition armor32len (s : list Z) : outcome Z := armorlen a2b32 s.

Fixpoint dearmor32_loop (n : nat) (s : list Z) : outcome (list Z * list Z) :=
  match n with
  | O => Done ([], s)
  | S n' =>
      match s with
      | s0 :: s1 :: s2 :: s3 :: s4 :: s5 :: s6 :: s7 :: s' =>
          let c0 := tbl a2b32 s0 in
          let c1 := tbl a2b32 s1 in
          let c2 := tbl a2b32 s2 in
          let c3 := tbl a2b32 s3 in
          let c4 := tbl a2b32 s4 in
          let c5 := tbl a2b32 s5 in
          let c6 := tbl a2b32 s6 in
          let c7 := tbl a2b32 s7 in
          '(d, e) ← dearmor32_loop n' s';
          Done (u8 (c0 .<< 3 .| c1 .>> 2) ::
                u8 (c1 .<< 6 .| c2 .<< 1 .| c3 .>> 4) ::
                u8 (c3 .<< 4 .| c4 .>> 1) ::
                u8 (c4 .<< 7 .| c5 .<< 2 .| c6 .>> 3) ::
                u8 (c6 .<< 5 .| c7) :: d, e)
      | _ => Wild
      end
  end.

Definition dearmor32_rem (rem : Z) (s : list Z) : outcome (list Z) :=
  if 1 <=? rem then
    s0 ← rd s 0; s1 ← rd s 1;
    let c0 := tbl a2b32 s0 in
    let c1 := tbl a2b32 s1 in
    let d0 := u8 (c0 .<< 3 .| c1 .>> 2) in
    if 2 <=? rem then
      s2 ← rd s 2; s3 ← rd s 3;
      let c2 := tbl a2b32 s2 in
      let c3 := tbl a2b32 s3 in
      let d1 := u8 (c1 .<< 6 .| c2 .<< 1 .| c3 .>> 4) in
      if 3 <=? rem then
        s4 ← rd s 4;
        let c4 := tbl a2b32 s4 in
        let d2 := u8 (c3 .<< 4 .| c4 .>> 1) in
        if 4 <=? rem then
          s5 ← rd s 5; s6 ← rd s 6;
          let c5 := tbl a2b32 s5 in
          let c6 := tbl a2b32 s6 in
          Done [d0; d1; d2; u8 (c4 .<< 7 .| c5 .<< 2 .| c6 .>> 3)]
        else Done [d0; d1; d2]
      else Done [d0; d1]
    else Done [d0]
  else Done [].

Definition dearmor32 (s : list Z) (len : Z) : outcome (option (list Z)) :=
  len ← (if len <? 0 then armor32len s else Done len);
  let rem := tbl a2b32rem (len .& 7) in
  if rem <? 0 then Done None else
  if len =? 0 then Done (Some []) else
  let binlen := (len .>> 3) * 5 + rem in
  '(d, e) ← dearmor32_loop (Z.to_nat (len .>> 3)) s;
  t ← dearmor32_rem rem e;
  _ ← assertM (Z.of_nat (length (d ++ t)) =? binlen);
  Done (Some (d ++ t)).

(** ** Base 64 *)
Definition b2a64 : list Z :=
  chars "ABCDEFGHIJKLMNOPQRSTUVWXYZabcdefghijklmnopqrstuvwxyz0123456789+/".
Definition b2a64A : list Z :=
  chars "ABCDEFGHIJKLMNOPQRSTUVWXYZabcdefghijklmnopqrstuvwxyz0123456789+-".

Definition a2b64 : list Z :=
  replicate 32 (-1) ++
  [-1; -1; -1; -1; -1; -1; -1; -1; -1; -1; -1; 62; -1; -1; -1; 63;
   52; 53; 54; 55; 56; 57; 58; 59; 60; 61; -1; -1; -1; -1; -1; -1;
   -1; 0; 1; 2; 3; 4; 5; 6; 7; 8; 9; 10; 11; 12; 13; 14;
   15; 16; 17; 18; 19; 20; 21; 22; 23; 24; 25; -1; -1; -1; -1; -1;
   -1; 26; 27; 28; 29; 30; 31; 32; 33; 34; 35; 36; 37; 38; 39; 40;
   41; 42; 43; 44; 45; 46; 47; 48; 49; 50; 51; -1; -1; -1; -1; -1] ++
  replicate 128 (-1).

Definition a2b64A : list Z :=
  replicate 32 (-1) ++
  [-1; -1; -1; -1; -1; -1; -1; -1; -1; -1; -1; 62; -1; 63; -1; -1;
   52; 53; 54; 55; 56; 57; 58; 59; 60; 61; -1; -1; -1; -1; -1; -1;
   -1; 0; 1; 2; 3; 4; 5; 6; 7; 8; 9; 10; 11; 12; 13; 14;
   15; 16; 17; 18; 19; 20; 21; 22; 23; 24; 25; -1; -1; -1; -1; -1;
   -1; 26; 27; 28; 29; 30; 31; 32; 33; 34; 35; 36; 37; 38; 39; 40;
   41; 42; 43; 44; 45; 46; 47; 48; 49; 50; 51; -1; -1; -1; -1; -1] ++
  replicate 128 (-1).

(** The character ['=']. *)
Definition c_eq : Z := 61.

Fixpoint _armor64_loop (b2a : list Z) (p : list Z) : list Z :=
  match p with
  | p0 :: p1 :: p2 :: p' =>
      tbl b2a (p0 .>> 2) ::
      tbl b2a ((p0 .& 3) .<< 4 .| p1 .>> 4) ::
      tbl b2a ((p1 .& 15) .<< 2 .| p2 .>> 6) ::
      tbl b2a (p2 .& 63) ::
      _armor64_loop b2a p'
  | [p0] =>
      [tbl b2a (p0 .>> 2); tbl b2a ((p0 .& 3) .<< 4); c_eq; c_eq]
  | [p0; p1] =>
      [tbl b2a (p0 .>> 2);
       tbl b2a ((p0 .& 3) .<< 4 .| p1 .>> 4);
       tbl b2a ((p1 .& 15) .<< 2);
       c_eq]
  | [] => []
  end.

Definition _armor64 (b2a : list Z) (endpad : bool) (dp : list Z) : outcome (list Z) :=
  let len := Z.of_nat (length dp) in
  let rem := len mod 3 in
  let reslen := (len + 2) / 3 * 4 in
  let d := _armor64_loop b2a dp in
  _ ← assertM (Z.of_nat (length d) =? reslen);
  if negb endpad && negb (rem =? 0)
  then Done (take (Z.to_nat (reslen + rem - 3)) d)
  else Done d.

Definition armor64 (s : list Z) : outcome (list Z) := _armor64 b2a64 true s.
Definition armor64A (s : list Z) : outcome (list Z) := _armor64 b2a64A false s.

(** The loop [for (e = s + len - 4; s < e; s += 4)]: it makes
    [(len - 1) / 4] turns when [len > 0]. *)
Fixpoint _dearmor64_loop (a2b : list Z) (n : nat) (s : list Z)
    : outcome (list Z * list Z) :=
  match n with
  | O => Done ([], s)
  | S n' =>
      match s with
      | s0 :: s1 :: s2 :: s3 :: s' =>
          let c0 := tbl a2b s0 in
          let c1 := tbl a2b s1 in
          let c2 := tbl a2b s2 in
          let c3 := tbl a2b s3 in
          '(d, e) ← _dearmor64_loop a2b n' s';
          Done (u8 (c0 .<< 2 .| c1 .>> 4) ::
                u8 (c1 .<< 4 .| c2 .>> 2) ::
                u8 (c2 .<< 6 .| c3) :: d, e)
      | _ => Wild
      end
  end.

(** The last quantum, which the loop leaves out; characters outside the
    alphabet (the padding, or the NUL behind the string) end it. *)
Definition _dearmor64_last (a2b : list Z) (s : list Z) : outcome (list Z) :=
  s0 ← rd s 0; s1 ← rd s 1;
  let c0 := tbl a2b s0 in
  let c1 := tbl a2b s1 in
  let d0 := u8 (c0 .<< 2 .| c1 .>> 4) in
  s2 ← rd s 2;
  let c2 := tbl a2b s2 in
  if 0 <=? c2 then
    let d1 := u8 (c1 .<< 4 .| c2 .>> 2) in
    s3 ← rd s 3;
    let c3 := tbl a2b s3 in
    if 0 <=? c3 then Done [d0; d1; u8 (c2 .<< 6 .| c3)] else Done [d0; d1]
  else Done [d0].

(** The result buffer holds [len - (len >> 2)] bytes; a decoded byte that
    does not fit is written past its end. *)
Definition _dearmor64 (a2b : list Z) (s : list Z) (len : Z) : outcome (option (list Z)) :=
  if len =? 0 then Done (Some []) else
  let binlen := len - (len .>> 2) in
  '(d, e) ← _dearmor64_loop a2b (Z.to_nat ((len - 1) / 4)) s;
  t ← _dearmor64_last a2b e;
  if Z.of_nat (length (d ++ t)) <=? binlen then Done (Some (d ++ t)) else Wild.

(** [armor64len] also accepts up to two padding characters. *)
Definition armor64len (s : list Z) : outcome Z :=
  n ← armorlen a2b64 s;
  c ← rd s n;
  let n := if c =? c_eq then n + 1 else n in
  c ← rd s n;
  let n := if c =? c_eq then n + 1 else n in
  Done n.

Definition dearmor64 (s : list Z) (len : Z) : outcome (option (list Z)) :=
  len ← (if len <? 0 then armor64len s else Done len);
  if negb (len .& 3 =? 0) then Done None else _dearmor64 a2b64 s len.

Definition armor64Alen (s : list Z) : outcome Z := armorlen a2b64A s.

Definition dearmor64A (s : list Z) (len : Z) : outcome (option (list Z)) :=
  len ← (if len <? 0 then armor64Alen s else Done len);
  _dearmor64 a2b64A s len.

(** ** The tables are inverse to each other *)
Lemma a2b32_b2a32 v : 0 <= v < 32 -> tbl a2b32 (tbl b2a32 v) = v.
Proof.
  intros Hv. apply Z.eqb_eq.
  by apply (forallb_seqZ 32 (fun v => tbl a2b32 (tbl b2a32 v) =? v)).
Qed.

Lemma a2b64_b2a64 v : 0 <= v < 64 -> tbl a2b64 (tbl b2a64 v) = v.
Proof.
  intros Hv. apply Z.eqb_eq.
  by apply (forallb_seqZ 64 (fun v => tbl a2b64 (tbl b2a64 v) =? v)).
Qed.

Lemma a2b64A_b2a64A v : 0 <= v < 64 -> tbl a2b64A (tbl b2a64A v) = v.
Proof.
  intros Hv. apply Z.eqb_eq.
  by apply (forallb_seqZ 64 (fun v => tbl a2b64A (tbl b2a64A v) =? v)).
Qed.

(** Runs the code on a list of known length, leaving the table lookups
    and the bit operations alone. *)
Ltac cbv_armor :=
  lazy -[tbl b2a32 a2b32 b2a64 a2b64 b2a64A a2b64A u8 Z.shiftl Z.shiftr Z.land Z.lor].

Ltac armor64_step :=
  match goal with |- context [Z.to_nat ?e] =>
    let c := eval vm_compute in (Z.to_nat e) in change (Z.to_nat e) with c end;
  cbn -[Z.shiftl Z.shiftr Z.land Z.lor Z.leb];
  unfold _dearmor64_last; cbn [mbind outcome_bind];
  repeat (progress (rd_simpl; cbn [mbind outcome_bind])).

(** Rewrites [a2b (b2a v)] to [v], the index being in range. *)
Ltac dearm lem n :=
  repeat rewrite lem by (bit_bound n).

(** ** Base 32: lengths and round trip *)
Lemma armor32_loop_length p :
  Z.of_nat (length (armor32_loop p)) =
  Z.of_nat (length p) / 5 * 8 + tbl b2a32rem (Z.of_nat (length p) mod 5).
Proof.
  induction p as [p IH] using length_ind.
  destruct p as [|p0 [|p1 [|p2 [|p3 [|p4 p]]]]]; try done.
  cbn [armor32_loop length]. rewrite !Nat2Z.inj_succ, IH by (cbn; lia).
  replace (Z.succ (Z.succ (Z.succ (Z.succ (Z.succ (Z.of_nat (length p)))))))
    with (Z.of_nat (length p) + 1 * 5) by lia.
  rewrite Z.div_add, Z.mod_add by lia. lia.
Qed.

Lemma armor32_done p : armor32 p = Done (armor32_loop p).
Proof. unfold armor32. by rewrite armor32_loop_length, Z.eqb_refl. Qed.

(** The encoded length determines the number of blocks and the rest. *)
Lemma armor32_len_shift n :
  0 <= n ->
  let len := n / 5 * 8 + tbl b2a32rem (n mod 5) in
  len .>> 3 = n / 5 /\ tbl a2b32rem (len .& 7) = n mod 5.
Proof.
  intros Hn len. unfold len.
  assert (Hm : 0 <= n mod 5 < 5) by (apply Z.mod_pos_bound; lia).
  change 7 with (Z.ones 3). rewrite Z.land_ones, Z.shiftr_div_pow2 by lia.
  change (2 ^ 3) with 8.
  assert (Ht : 0 <= tbl b2a32rem (n mod 5) < 8
               /\ tbl a2b32rem (tbl b2a32rem (n mod 5)) = n mod 5).
  { revert Hm. generalize (n mod 5). intros m Hm.
    assert (m = 0 \/ m = 1 \/ m = 2 \/ m = 3 \/ m = 4)
      as [-> | [-> | [-> | [-> | ->]]]] by lia; by vm_compute. }
  destruct Ht as [Ht1 Ht2].
  rewrite Z.add_comm, Z.div_add, Z.mod_add by lia.
  by rewrite Z.div_small, Z.mod_small, Ht2 by lia.
Qed.

Lemma dearmor32_armor32_loop p rest :
  Forall is_byte p ->
  ('(d, e) ← dearmor32_loop (Z.to_nat (Z.of_nat (length p) / 5)) (armor32_loop p ++ rest);
   t ← dearmor32_rem (Z.of_nat (length p) mod 5) e;
   Done (d ++ t)) = Done p.
Proof.
  induction p as [p IH] using length_ind. intros Hp.
  destruct p as [|p0 [|p1 [|p2 [|p3 [|p4 p]]]]];
    repeat match goal with H : Forall is_byte (_ :: _) |- _ =>
      apply Forall_cons in H as [? ?] end.
  1-5: cbv_armor; repeat f_equal; dearm a2b32_b2a32 5; byte_bits.
  cbn [armor32_loop length app].
  rewrite !Nat2Z.inj_succ.
  replace (Z.succ (Z.succ (Z.succ (Z.succ (Z.succ (Z.of_nat (length p)))))))
    with (Z.of_nat (length p) + 1 * 5) by lia.
  rewrite Z.div_add, Z.mod_add by lia.
  replace (Z.to_nat (Z.of_nat (length p) / 5 + 1))
    with (S (Z.to_nat (Z.of_nat (length p) / 5)))
    by (pose proof (Z.div_pos (Z.of_nat (length p)) 5); lia).
  cbn [dearmor32_loop].
  specialize (IH p ltac:(cbn; lia) ltac:(done)).
  destruct (dearmor32_loop _ (armor32_loop p ++ rest)) as [[d e]| | |]; try done.
  cbn in IH |- *. destruct (dearmor32_rem _ e) as [t| | |]; try done.
  cbn in IH |- *. injection IH as IH. rewrite IH.
  repeat f_equal; dearm a2b32_b2a32 5; byte_bits.
Qed.

Lemma armorlen_app a2b l c rest :
  Forall (fun x => 0 <= tbl a2b x) l -> tbl a2b c < 0 ->
  armorlen a2b (l ++ c :: rest) = Done (Z.of_nat (length l)).
Proof.
  intros Hl Hc. induction Hl as [|x l Hx Hl IH]; cbn -[Z.of_nat].
  - by destruct (Z.leb_spec 0 (tbl a2b c)); [lia|].
  - destruct (Z.leb_spec 0 (tbl a2b x)); [|lia].
    rewrite IH. cbn -[Z.of_nat]. f_equal. lia.
Qed.

Lemma b2a32_valid v : 0 <= v < 32 -> 0 <= tbl a2b32 (tbl b2a32 v).
Proof. intros H. rewrite a2b32_b2a32; lia. Qed.

Lemma armor32_loop_valid p :
  Forall is_byte p -> Forall (fun x => 0 <= tbl a2b32 x) (armor32_loop p).
Proof.
  induction p as [p IH] using length_ind. intros Hp.
  destruct p as [|p0 [|p1 [|p2 [|p3 [|p4 p]]]]];
    repeat match goal with H : Forall is_byte (_ :: _) |- _ =>
      apply Forall_cons in H as [? ?] end; cbn [armor32_loop armor32_rem];
    repeat (apply Forall_cons; split); try (apply b2a32_valid; bit_bound 5);
    try apply Forall_nil_2.
  apply IH; [cbn; lia | done].
Qed.

Lemma dearmor32_armor32 p rest :
  Forall is_byte p ->
  dearmor32 (armor32_loop p ++ rest) (Z.of_nat (length (armor32_loop p))) = Done (Some p).
Proof.
  intros Hp. pose proof (armor32_loop_length p) as Hlen.
  pose proof (dearmor32_armor32_loop p rest Hp) as H.
  destruct (armor32_len_shift (Z.of_nat (length p)) ltac:(lia)) as [E1 E2].
  rewrite <- Hlen in E1, E2. unfold dearmor32.
  destruct (Z.ltb_spec (Z.of_nat (length (armor32_loop p))) 0); [lia|].
  cbn -[Z.of_nat dearmor32_loop]. rewrite E1, E2.
  pose proof (Z.mod_pos_bound (Z.of_nat (length p)) 5 ltac:(lia)).
  destruct (Z.ltb_spec (Z.of_nat (length p) mod 5) 0); [lia|].
  destruct (Z.eqb_spec (Z.of_nat (length (armor32_loop p))) 0) as [Hz|_].
  { destruct p as [|p0 [|p1 [|p2 [|p3 [|p4 p]]]]]; done. }
  destruct (dearmor32_loop _ _) as [[d e]| | |]; try done.
  cbn -[Z.of_nat] in H |- *. destruct (dearmor32_rem _ e) as [t| | |]; try done.
  cbn -[Z.of_nat] in H |- *. injection H as ->.
  replace (_ =? _) with true; [done|]. symmetry. apply Z.eqb_eq.
  pose proof (Z.div_mod (Z.of_nat (length p)) 5). lia.
Qed.

(** base-32 armor round-trips.  [armor32] never trips its length
    assertion, and [dearmor32] gives the encoded bytes back, both when it
    is told the length of the text and when it finds the end itself. *)
Lemma armor32_roundtrip_spec p rest :
  Forall is_byte p ->
  exists s, armor32 p = Done s
    /\ dearmor32 (s ++ rest) (Z.of_nat (length s)) = Done (Some p)
    /\ dearmor32 (s ++ 0 :: rest) (-1) = Done (Some p).
Proof.
  intros Hp. exists (armor32_loop p). split; [apply armor32_done|].
  split; [by apply dearmor32_armor32|].
  rewrite <- (dearmor32_armor32 p (0 :: rest) Hp). unfold dearmor32.
  destruct (Z.ltb_spec (Z.of_nat (length (armor32_loop p))) 0); [lia|].
  cbn [Z.ltb Z.compare]. unfold armor32len.
  rewrite armorlen_app; [done | by apply armor32_loop_valid | done].
Qed.

(** ** Base 64: round trip, for both alphabets *)
Section base64.
Context (b2a a2b : list Z).
Hypothesis a2b_b2a : forall v, 0 <= v < 64 -> tbl a2b (tbl b2a v) = v.
Hypothesis a2b_eq : tbl a2b c_eq < 0.

(** The encoding without its padding. *)
Fixpoint armor64_chars (p : list Z) : list Z :=
  match p with
  | p0 :: p1 :: p2 :: p' =>
      tbl b2a (p0 .>> 2) ::
      tbl b2a ((p0 .& 3) .<< 4 .| p1 .>> 4) ::
      tbl b2a ((p1 .& 15) .<< 2 .| p2 .>> 6) ::
      tbl b2a (p2 .& 63) ::
      armor64_chars p'
  | [p0] => [tbl b2a (p0 .>> 2); tbl b2a ((p0 .& 3) .<< 4)]
  | [p0; p1] =>
      [tbl b2a (p0 .>> 2);
       tbl b2a ((p0 .& 3) .<< 4 .| p1 .>> 4);
       tbl b2a ((p1 .& 15) .<< 2)]
  | [] => []
  end.

Definition armor64_pad (n : Z) : list Z :=
  if n mod 3 =? 1 then [c_eq; c_eq] else if n mod 3 =? 2 then [c_eq] else [].

Lemma armor64_loop_pad p :
  _armor64_loop b2a p = armor64_chars p ++ armor64_pad (Z.of_nat (length p)).
Proof.
  induction p as [p IH] using length_ind.
  destruct p as [|p0 [|p1 [|p2 p]]]; try done.
  cbn [_armor64_loop armor64_chars length app].
  rewrite IH by (cbn; lia). unfold armor64_pad.
  replace (Z.of_nat (S (S (S (length p))))) with (Z.of_nat (length p) + 1 * 3) by lia.
  by rewrite Z.mod_add by lia.
Qed.

(** [3 k + j] bytes give [4 k + (0 | 2 | 3)] characters. *)
Lemma armor64_chars_length p :
  let n := Z.of_nat (length p) in
  Z.of_nat (length (armor64_chars p)) =
  n / 3 * 4 + (if n mod 3 =? 0 then 0 else n mod 3 + 1).
Proof.
  cbv zeta. induction p as [p IH] using length_ind.
  destruct p as [|p0 [|p1 [|p2 p]]]; try done.
  cbn [armor64_chars length].
  replace (Z.of_nat (S (S (S (length p))))) with (Z.of_nat (length p) + 1 * 3) by lia.
  rewrite Z.div_add, Z.mod_add by lia.
  specialize (IH p ltac:(cbn; lia)). lia.
Qed.

Lemma armor64_chars_all (Q : Z -> Prop) p :
  (forall v, 0 <= v < 64 -> Q (tbl b2a v)) -> Forall is_byte p -> Forall Q (armor64_chars p).
Proof.
  intros Hv. induction p as [p IH] using length_ind. intros Hp.
  destruct p as [|p0 [|p1 [|p2 p]]];
    repeat match goal with H : Forall is_byte (_ :: _) |- _ =>
      apply Forall_cons in H as [? ?] end; cbn [armor64_chars];
    repeat (apply Forall_cons; split); try (apply Hv; bit_bound 6);
    try apply Forall_nil_2.
  apply IH; [cbn; lia | done].
Qed.

Lemma armor64_chars_valid p :
  Forall is_byte p -> Forall (fun x => 0 <= tbl a2b x) (armor64_chars p).
Proof. apply armor64_chars_all. intros v Hv. rewrite a2b_b2a; lia. Qed.

(** What stops the last quantum: full, or a character outside the
    alphabet behind it. *)
Definition stops (n : Z) (rest : list Z) : Prop :=
  n mod 3 = 0 \/ exists c r, rest = c :: r /\ tbl a2b c < 0.

Lemma dearmor64_armor64_loop p rest :
  Forall is_byte p -> p <> [] -> stops (Z.of_nat (length p)) rest ->
  ('(d, e) ← _dearmor64_loop a2b (Z.to_nat ((Z.of_nat (length p) - 1) / 3))
               (armor64_chars p ++ rest);
   t ← _dearmor64_last a2b e; Done (d ++ t)) = Done p.
Proof using a2b_b2a.
  assert (Hb : forall c, tbl a2b c < 0 -> (0 <=? tbl a2b c) = false)
    by (intros; apply Z.leb_gt; lia).
  assert (Hv : forall v, 0 <= v < 64 -> (0 <=? v) = true)
    by (intros; apply Z.leb_le; lia).
  induction p as [p IH] using length_ind. intros Hp Hne Hs.
  destruct p as [|p0 [|p1 [|p2 p]]]; try done;
    repeat match goal with H : Forall is_byte (_ :: _) |- _ =>
      apply Forall_cons in H as [? ?] end.
  - destruct Hs as [Hs|(c & r & -> & Hc)]; [done|].
    armor64_step.
    rewrite Hb by done. cbn [mbind outcome_bind].
    repeat f_equal; dearm a2b_b2a 6; byte_bits.
  - destruct Hs as [Hs|(c & r & -> & Hc)]; [done|].
    armor64_step.
    rewrite !a2b_b2a by bit_bound 6. rewrite Hv by bit_bound 6.
    rewrite Hb by done. cbn [mbind outcome_bind].
    repeat f_equal; byte_bits.
  - destruct p as [|p3 p].
    + armor64_step.
      rewrite !a2b_b2a by bit_bound 6. rewrite !Hv by bit_bound 6.
      cbn [mbind outcome_bind]. repeat f_equal; byte_bits.
    + remember (p3 :: p) as q eqn:Eq.
      cbn [armor64_chars length app] in Hs |- *.
      replace (Z.of_nat (S (S (S (length q))))) with (Z.of_nat (length q) + 1 * 3) in * by lia.
      replace (Z.of_nat (length q) + 1 * 3 - 1) with (Z.of_nat (length q) - 1 + 1 * 3) by lia.
      rewrite Z.div_add by lia.
      assert (0 < Z.of_nat (length q)) by (subst q; cbn; lia).
      replace (Z.to_nat ((Z.of_nat (length q) - 1) / 3 + 1))
        with (S (Z.to_nat ((Z.of_nat (length q) - 1) / 3)))
        by (pose proof (Z.div_pos (Z.of_nat (length q) - 1) 3); lia).
      cbn [_dearmor64_loop].
      unfold stops in Hs. rewrite Z.mod_add in Hs by lia.
      specialize (IH q ltac:(cbn; lia) ltac:(done) ltac:(by subst) Hs).
      destruct (_dearmor64_loop a2b _ _) as [[d e]| | |]; try done.
      cbn in IH |- *. destruct (_dearmor64_last a2b e) as [t| | |]; try done.
      cbn in IH |- *. injection IH as ->.
      repeat f_equal; dearm a2b_b2a 6; byte_bits.
Qed.

(** A length that leaves the loop [(n - 1) / 3] turns and a buffer that
    fits is enough for [_dearmor64] to give the bytes back. *)
Lemma _dearmor64_armor64 p rest len :
  Forall is_byte p -> p <> [] -> stops (Z.of_nat (length p)) rest ->
  0 < len -> (len - 1) / 4 = (Z.of_nat (length p) - 1) / 3 ->
  Z.of_nat (length p) <= len - (len .>> 2) ->
  _dearmor64 a2b (armor64_chars p ++ rest) len = Done (Some p).
Proof using a2b_b2a.
  intros Hp Hne Hs Hlen Hq Hfit. unfold _dearmor64.
  destruct (Z.eqb_spec len 0); [lia|]. rewrite Hq.
  pose proof (dearmor64_armor64_loop p rest Hp Hne Hs) as H.
  destruct (_dearmor64_loop _ _ _) as [[d e]| | |]; try done.
  cbn in H |- *. destruct (_dearmor64_last _ e) as [t| | |]; try done.
  cbn in H |- *. injection H as ->.
  by rewrite (proj2 (Z.leb_le _ _) Hfit).
Qed.

(** Lengths of the encoding, padded and not. *)
Lemma armor64_padded_length p :
  Z.of_nat (length (_armor64_loop b2a p)) = (Z.of_nat (length p) + 2) / 3 * 4.
Proof.
  rewrite armor64_loop_pad, length_app, Nat2Z.inj_add, armor64_chars_length.
  unfold armor64_pad. set (n := Z.of_nat (length p)).
  pose proof (Z.mod_pos_bound n 3 ltac:(lia)). pose proof (Z.div_mod n 3 ltac:(lia)).
  destruct (Z.eqb_spec (n mod 3) 1); [|destruct (Z.eqb_spec (n mod 3) 2)];
    destruct (Z.eqb_spec (n mod 3) 0); cbn [length]; try lia;
    replace ((n + 2) / 3) with (n / 3 + (if n mod 3 =? 0 then 0 else 1))
      by (destruct (Z.eqb_spec (n mod 3) 0); [|];
          apply (Z.div_unique _ _ _ ((n + 2) - 3 * (n / 3 + (if n mod 3 =? 0 then 0 else 1))));
          destruct (Z.eqb_spec (n mod 3) 0); lia);
    destruct (Z.eqb_spec (n mod 3) 0); lia.
Qed.

Lemma armor64_unpadded p :
  let n := Z.of_nat (length p) in
  let m := Z.of_nat (length (armor64_chars p)) in
  take (Z.to_nat m) (_armor64_loop b2a p) = armor64_chars p.
Proof.
  cbv zeta. rewrite armor64_loop_pad, take_app_le by lia.
  apply take_ge. lia.
Qed.
End base64.

(** [len - (len >> 2)] and [(len - 1) / 4] for the two lengths. *)
Lemma armor64_len_arith n len :
  0 < n ->
  len = (n + 2) / 3 * 4
  \/ len = n / 3 * 4 + (if n mod 3 =? 0 then 0 else n mod 3 + 1) ->
  0 < len /\ (len - 1) / 4 = (n - 1) / 3 /\ n <= len - (len .>> 2).
Proof.
  intros Hn Hlen. rewrite Z.shiftr_div_pow2 by lia. change (2 ^ 2) with 4.
  destruct Hlen as [-> | ->];
    [|destruct (Z.eqb_spec (n mod 3) 0)]; Z.to_euclidean_division_equations; lia.
Qed.

Lemma armor64_done b2a p :
  _armor64 b2a true p = Done (_armor64_loop b2a p).
Proof. unfold _armor64. by rewrite armor64_padded_length, Z.eqb_refl. Qed.

Lemma armor64A_done b2a p :
  _armor64 b2a false p = Done (armor64_chars b2a p).
Proof.
  unfold _armor64. rewrite armor64_padded_length, Z.eqb_refl.
  cbn [assertM mbind outcome_bind negb andb].
  pose proof (armor64_chars_length b2a p) as Hl. cbv zeta in Hl.
  pose proof (armor64_padded_length b2a p) as Hp.
  pose proof (armor64_unpadded b2a p) as Ht. cbv zeta in Ht.
  set (n := Z.of_nat (length p)) in *. pose proof (Z.mod_pos_bound n 3 ltac:(lia)).
  destruct (Z.eqb_spec (n mod 3) 0) as [E|E]; cbn [negb].
  - f_equal. rewrite armor64_loop_pad. unfold armor64_pad. fold n. rewrite E.
    apply app_nil_r.
  - f_equal. rewrite <- Ht. do 2 f_equal. rewrite Hl. fold n in Hp.
    Z.to_euclidean_division_equations; lia.
Qed.

Lemma mul4_land3 k : (k * 4) .& 3 = 0.
Proof.
  change 3 with (Z.ones 2). rewrite Z.land_ones by lia.
  change (2 ^ 2) with 4. apply Z.mod_mul. lia.
Qed.

Lemma dearmor64_armor64 p rest :
  Forall is_byte p ->
  dearmor64 (_armor64_loop b2a64 p ++ rest) (Z.of_nat (length (_armor64_loop b2a64 p)))
  = Done (Some p).
Proof.
  intros Hp. pose proof (armor64_padded_length b2a64 p) as Hl. unfold dearmor64.
  destruct (Z.ltb_spec (Z.of_nat (length (_armor64_loop b2a64 p))) 0); [lia|].
  cbn [mbind outcome_bind]. rewrite Hl at 1. rewrite mul4_land3. cbn [Z.eqb negb].
  destruct (decide (p = [])) as [->|Hne]; [done|].
  assert (0 < Z.of_nat (length p)) by (destruct p; [done|cbn; lia]).
  rewrite armor64_loop_pad, <- app_assoc.
  destruct (armor64_len_arith (Z.of_nat (length p)) _ ltac:(done) (or_introl Hl))
    as (H1 & H2 & H3).
  apply (_dearmor64_armor64 b2a64 a2b64 a2b64_b2a64);
    [done | done | | by rewrite <- armor64_loop_pad ..].
  unfold stops, armor64_pad. pose proof (Z.mod_pos_bound (Z.of_nat (length p)) 3 ltac:(lia)).
  destruct (Z.eqb_spec (Z.of_nat (length p) mod 3) 1); [right; by eexists _, _|].
  destruct (Z.eqb_spec (Z.of_nat (length p) mod 3) 2); [right; by eexists _, _|left; lia].
Qed.

Lemma armor64len_stop p c rest :
  Forall is_byte p -> tbl a2b64 c < 0 -> c <> c_eq ->
  armor64len (_armor64_loop b2a64 p ++ c :: rest)
  = Done (Z.of_nat (length (_armor64_loop b2a64 p))).
Proof.
  intros Hp Hc Hne. assert (Ec : (c =? c_eq) = false) by by apply Z.eqb_neq. pose proof (armor64_chars_valid b2a64 a2b64 a2b64_b2a64 p Hp) as Hv.
  rewrite armor64_loop_pad, <- app_assoc, length_app, Nat2Z.inj_add.
  unfold armor64len.
  assert (Hrd : forall k (x : Z) l, rd (armor64_chars b2a64 p ++ k ++ x :: l)
    (Z.of_nat (length (armor64_chars b2a64 p)) + Z.of_nat (length k)) = Done x).
  { intros k x l. unfold rd. destruct (Z.leb_spec 0 (Z.of_nat (length (armor64_chars b2a64 p))
      + Z.of_nat (length k))); [|lia].
    rewrite app_assoc, lookup_app_r by (rewrite length_app; lia).
    rewrite length_app. by replace (_ - _)%nat with 0%nat by lia. }
  pose proof (fun x l => Hrd [] x l) as Hrd0. pose proof (fun y x l => Hrd [y] x l) as Hrd1.
  cbn -[Z.add Z.of_nat] in Hrd0, Hrd1. change (Z.of_nat 0) with 0 in Hrd0.
  change (Z.of_nat 1) with 1 in Hrd1.
  setoid_rewrite Z.add_0_r in Hrd0.
  unfold armor64_pad.
  destruct (_ =? 1); [|destruct (_ =? 2)]; cbn [app];
    rewrite armorlen_app by done; cbn [mbind outcome_bind];
    rewrite Hrd0; cbn -[Z.add Z.of_nat]; rewrite ?Ec, ?Hrd1, ?Hrd0; cbn -[Z.add Z.of_nat]; rewrite ?Ec;
    f_equal; lia.
Qed.

Lemma armor64len_armor64 p rest :
  Forall is_byte p ->
  armor64len (_armor64_loop b2a64 p ++ 0 :: rest) = Done (Z.of_nat (length (_armor64_loop b2a64 p))).
Proof. intros Hp. by apply armor64len_stop. Qed.

(** The text may be followed by any character that cannot be part of it. *)
Lemma dearmor64_stop p c rest :
  Forall is_byte p -> tbl a2b64 c < 0 -> c <> c_eq -> dearmor64 (_armor64_loop b2a64 p ++ c :: rest) (-1) = Done (Some p).
Proof.
  intros Hp Hc Hne. rewrite <- (dearmor64_armor64 p (c :: rest) Hp). unfold dearmor64.
  destruct (Z.ltb_spec (Z.of_nat (length (_armor64_loop b2a64 p))) 0); [lia|].
  cbn [Z.ltb Z.compare]. by rewrite armor64len_stop.
Qed.

(** base-64 armor round-trips: [dearmor64] inverts [armor64], with the
    length given and with the length found by [armor64len]. *)
Lemma armor64_roundtrip_spec p rest :
  Forall is_byte p ->
  exists s, armor64 p = Done s
    /\ dearmor64 (s ++ rest) (Z.of_nat (length s)) = Done (Some p)
    /\ dearmor64 (s ++ 0 :: rest) (-1) = Done (Some p).
Proof.
  intros Hp. eexists. split; [apply armor64_done|].
  split; [by apply dearmor64_armor64|].
  rewrite <- (dearmor64_armor64 p (0 :: rest) Hp). unfold dearmor64.
  destruct (Z.ltb_spec (Z.of_nat (length (_armor64_loop b2a64 p))) 0); [lia|].
  cbn [Z.ltb Z.compare]. by rewrite armor64len_armor64.
Qed.

Lemma dearmor64A_armor64A p c rest :
  Forall is_byte p -> tbl a2b64A c < 0 ->
  _dearmor64 a2b64A (armor64_chars b2a64A p ++ c :: rest)
    (Z.of_nat (length (armor64_chars b2a64A p))) = Done (Some p)
  /\ armor64Alen (armor64_chars b2a64A p ++ c :: rest)
     = Done (Z.of_nat (length (armor64_chars b2a64A p))).
Proof.
  intros Hp Hc. split.
  - destruct (decide (p = [])) as [->|Hne]; [done|].
    assert (0 < Z.of_nat (length p)) by (destruct p; [done|cbn; lia]).
    destruct (armor64_len_arith (Z.of_nat (length p)) _ ltac:(done)
                (or_intror (armor64_chars_length b2a64A p))) as (H1 & H2 & H3).
    apply (_dearmor64_armor64 b2a64A a2b64A a2b64A_b2a64A); try done.
    right; by eexists _, _.
  - apply armorlen_app; [|done]. by apply (armor64_chars_valid b2a64A a2b64A a2b64A_b2a64A).
Qed.

(** the file-name-safe variant [armor64A] carries no padding, so its
    decoder needs a character outside the alphabet (the NUL of a C string)
    behind the text; with one, [dearmor64A] inverts [armor64A]. *)
Lemma armor64A_roundtrip_spec p c rest :
  Forall is_byte p -> tbl a2b64A c < 0 ->
  exists s, armor64A p = Done s
    /\ dearmor64A (s ++ c :: rest) (Z.of_nat (length s)) = Done (Some p)
    /\ dearmor64A (s ++ c :: rest) (-1) = Done (Some p).
Proof.
  intros Hp Hc. exists (armor64_chars b2a64A p). split; [apply armor64A_done|].
  destruct (dearmor64A_armor64A p c rest Hp Hc) as [H Hlen]. unfold dearmor64A.
  destruct (Z.ltb_spec (Z.of_nat (length (armor64_chars b2a64A p))) 0); [lia|].
  split; [exact H|]. cbn [Z.ltb Z.compare]. by rewrite Hlen.
Qed.

(** Without such a character the last quantum runs on into the text behind
    the given length: it yields one byte more than the result buffer has
    room for, and the byte is written past its end. *)
Lemma dearmor64A_overrun :
  dearmor64A (chars "AAAA" ++ [0]) 2 = Wild.
Proof. reflexivity. Qed.

(** C40: the three encodings round-trip on every byte string.  The encoders
    never trip their length assertions, and each decoder gives the bytes back
    both when it is told the length of the text and when it finds the end
    itself.  The file-name-safe variant [armor64A] carries no padding, so its
    decoder needs a character outside the alphabet (the NUL of a C string)
    behind the text. *)
Theorem armor_roundtrip p c rest :
  Forall is_byte p -> tbl a2b64A c < 0 ->
  (exists s, armor32 p = Done s
     /\ dearmor32 (s ++ rest) (Z.of_nat (length s)) = Done (Some p)
     /\ dearmor32 (s ++ 0 :: rest) (-1) = Done (Some p))
  /\ (exists s, armor64 p = Done s
     /\ dearmor64 (s ++ rest) (Z.of_nat (length s)) = Done (Some p)
     /\ dearmor64 (s ++ 0 :: rest) (-1) = Done (Some p))
  /\ (exists s, armor64A p = Done s
     /\ dearmor64A (s ++ c :: rest) (Z.of_nat (length s)) = Done (Some p)
     /\ dearmor64A (s ++ c :: rest) (-1) = Done (Some p)).
Proof.
  intros Hp Hc. split; [by apply armor32_roundtrip_spec|]. split; [by apply armor64_roundtrip_spec|by apply armor64A_roundtrip_spec].
Qed.

Lemma armor_roundtrip_witness :
  Forall is_byte [102; 111; 255] /\ tbl a2b64A 47 < 0
  /\ exists s, armor64A [102; 111; 255] = Done s
     /\ dearmor64A (s ++ 47 :: [65]) (Z.of_nat (length s)) = Done (Some [102; 111; 255]).
Proof.
  assert (Hb : Forall is_byte [102; 111; 255]) by (repeat constructor; unfold is_byte; lia).
  split; [exact Hb|]. split; [done|].
  destruct (armor_roundtrip [102; 111; 255] 47 [65] Hb ltac:(done)) as (_ & _ & s & E & H & _). by exists s.
Defined.
