(* ===== verification/Serial.v ===== *)
(** * Integers and text as bytes: [async/serial.h]

    Big-endian integers, the [str] versions of the armor functions (a [str]
    is its bytes; [cstr ()] puts a NUL behind them) and base 16. *)
From Stdlib Require Import ZArith Lia Btauto.
From stdpp Require Import prelude.
From S2P Require Import Prelude Armor.

(** ** Big-endian integers *)
Definition putshort (val : Z) : list Z := [u8 (val .>> 8); u8 val].
Definition getshort (dp : list Z) : outcome Z :=
  d0 ← rd dp 0; d1 ← rd dp 1;
  Done (u16 (d0 .<< 8 .| d1)).

Definition putint (val : Z) : list Z :=
  [u8 (val .>> 24); u8 (val .>> 16); u8 (val .>> 8); u8 val].
Definition getint (dp : list Z) : outcome Z :=
  d0 ← rd dp 0; d1 ← rd dp 1; d2 ← rd dp 2; d3 ← rd dp 3;
  Done (u32 (d0 .<< 24 .| d1 .<< 16 .| d2 .<< 8 .| d3)).

Definition puthyper (val : Z) : list Z :=
  [u8 (val .>> 56); u8 (val .>> 48); u8 (val .>> 40); u8 (val .>> 32);
   u8 (val .>> 24); u8 (val .>> 16); u8 (val .>> 8); u8 val].
Definition gethyper (dp : list Z) : outcome Z :=
  d0 ← rd dp 0; d1 ← rd dp 1; d2 ← rd dp 2; d3 ← rd dp 3;
  l ← getint (drop 4 dp);
  Done (u64 (d0 .<< 56) .| u64 (d1 .<< 48) .| u64 (d2 .<< 40) .| u64 (d3 .<< 32) .| l).

(** ** Armor of a [str] *)
Definition armor64_str (bin : list Z) : outcome (list Z) := armor64 bin.
Definition dearmor64_str (asc : list Z) : outcome (option (list Z)) :=
  n ← armor64len (asc ++ [0]);
  if negb (n =? Z.of_nat (length asc)) then Done None
  else dearmor64 (asc ++ [0]) (Z.of_nat (length asc)).

Definition armor64A_str (bin : list Z) : outcome (list Z) := armor64A bin.
Definition dearmor64A_str (asc : list Z) : outcome (option (list Z)) :=
  n ← armor64Alen (asc ++ [0]);
  if negb (n =? Z.of_nat (length asc)) then Done None
  else dearmor64A (asc ++ [0]) (Z.of_nat (length asc)).

Definition armor32_str (bin : list Z) : outcome (list Z) := armor32 bin.
Definition dearmor32_str (asc : list Z) : outcome (option (list Z)) :=
  n ← armor32len (asc ++ [0]);
  if negb (n =? Z.of_nat (length asc)) then Done None
  else dearmor32 (asc ++ [0]) (Z.of_nat (length asc)).

(** ** Base 16 *)
Definition hexconv (c : Z) : option Z :=
  if (48 <=? c) && (c <=? 57) then Some (c - 48)
  else if (97 <=? c) && (c <=? 102) then Some (c - (97 - 10))
  else if (65 <=? c) && (c <=? 70) then Some (c - (65 - 10))
  else None.

Fixpoint hex2bytes_loop (p : list Z) : option (list Z) :=
  match p with
  | p0 :: p1 :: p =>
      h ← hexconv p0; l ← hexconv p1;
      b ← hex2bytes_loop p;
      Some (u8 (h .<< 4 .| l) :: b)
  | _ => Some []
  end.

Definition hex2bytes (asc : list Z) : option (list Z) :=
  if negb ((Z.of_nat (length asc) .& 1) =? 0) then None else hex2bytes_loop asc.

(** [hexdump]: two lower-case digits per byte ([fmt ("%02x")]). *)
Definition hexdigit (n : Z) : Z := if n <? 10 then 48 + n else 97 + (n - 10).
Fixpoint hexdump (buf : list Z) : list Z :=
  match buf with
  | [] => []
  | b :: buf => hexdigit (b .>> 4) :: hexdigit (b .& 15) :: hexdump buf
  end.

(** ** Decoding what was encoded *)
Lemma u8_u32 v i : 0 <= i -> Z.testbit (u8 v) i = (i <? 8) && Z.testbit v i.
Proof.
  intros Hi. unfold u8. rewrite Z.land_spec. change 255 with (Z.ones 8).
  destruct (Z.ltb_spec i 8); [rewrite Z.ones_spec_low by lia; btauto|].
  rewrite Z.ones_spec_high by lia. btauto.
Qed.

Lemma uN_bit mask n v i : mask = Z.ones n -> 0 <= n -> 0 <= i ->
  Z.testbit (v .& mask) i = (i <? n) && Z.testbit v i.
Proof.
  intros -> Hn Hi. rewrite Z.land_spec. destruct (Z.ltb_spec i n).
  - rewrite Z.ones_spec_low by lia. btauto.
  - rewrite Z.ones_spec_high by lia. btauto.
Qed.

Lemma shl_bit x n i : 0 <= n -> 0 <= i -> Z.testbit (x .<< n) i = (n <=? i) && Z.testbit x (i - n).
Proof.
  intros Hn Hi. rewrite Z.shiftl_spec by lia. destruct (Z.leb_spec n i); [done|].
  by rewrite Z.testbit_neg_r by lia.
Qed.

Lemma bit_u8 v i : Z.testbit (u8 v) i = (i <? 8) && Z.testbit v i.
Proof.
  destruct (Z.le_gt_cases 0 i); [by apply u8_u32|].
  by rewrite !(Z.testbit_neg_r _ i), andb_false_r by lia.
Qed.

(** Decides the comparisons of the goal by arithmetic. *)
Ltac decide_cmp :=
  repeat match goal with
  | |- context [?a <? ?b] =>
      first [rewrite (proj2 (Z.ltb_lt a b)) by lia | rewrite (proj2 (Z.ltb_ge a b)) by lia]
  | |- context [?a <=? ?b] =>
      first [rewrite (proj2 (Z.leb_le a b)) by lia | rewrite (proj2 (Z.leb_gt a b)) by lia]
  end; cbn [andb orb].

(** One byte of a big-endian integer: all other terms vanish at bit [i]. *)
Ltac one_byte :=
  decide_cmp; rewrite ?orb_false_r, ?orb_false_l;
  try (rewrite Z.shiftr_spec by lia); try (f_equal; lia); try done.

Lemma getshort_putshort v rest : 0 <= v < 2 ^ 16 -> getshort (putshort v ++ rest) = Done v.
Proof.
  intros Hv. unfold getshort, putshort. cbn [app]. rd_simpl. cbn [mbind outcome_bind]. f_equal.
  apply Z.bits_inj'. intros i Hi. unfold u16.
  rewrite (uN_bit _ 16), Z.lor_spec, shl_bit, !bit_u8 by (done || lia).
  destruct (Z.lt_ge_cases i 8); [one_byte|].
  destruct (Z.lt_ge_cases i 16); [one_byte|].
  rewrite (testbit_high v 16 i) by lia. one_byte.
Qed.

Lemma getint_putint v rest : 0 <= v < 2 ^ 32 -> getint (putint v ++ rest) = Done v.
Proof.
  intros Hv. unfold getint, putint. cbn [app]. rd_simpl. cbn [mbind outcome_bind]. f_equal.
  apply Z.bits_inj'. intros i Hi. unfold u32.
  rewrite (uN_bit _ 32), !Z.lor_spec, !shl_bit, !bit_u8 by (done || lia).
  destruct (Z.lt_ge_cases i 8); [one_byte|].
  destruct (Z.lt_ge_cases i 16); [one_byte|].
  destruct (Z.lt_ge_cases i 24); [one_byte|].
  destruct (Z.lt_ge_cases i 32); [one_byte|].
  rewrite (testbit_high v 32 i) by lia. one_byte.
Qed.

Lemma gethyper_puthyper v rest : 0 <= v < 2 ^ 64 -> gethyper (puthyper v ++ rest) = Done v.
Proof.
  intros Hv. assert (Hlow : getint (drop 4 (puthyper v ++ rest)) = Done (u32 v)).
  { rewrite <- (getint_putint (u32 v) rest).
    - cbn [drop app puthyper]. unfold getint, putint. cbn [app]. rd_simpl.
      cbn [mbind outcome_bind]. do 2 f_equal.
      assert (Hb : forall n, 0 <= n <= 24 -> u8 (u32 v .>> n) = u8 (v .>> n)).
      { intros n Hn. apply Z.bits_inj'. intros i Hi. rewrite !bit_u8.
        destruct (Z.ltb_spec i 8); [|done]. rewrite !Z.shiftr_spec by lia. unfold u32.
        rewrite (uN_bit _ 32) by (done || lia). decide_cmp. done. }
      pose proof (Hb 0 ltac:(lia)) as H0. rewrite !Z.shiftr_0_r in H0.
      by rewrite !Hb, H0 by lia.
    - rewrite u32_mod. apply Z.mod_pos_bound. lia. }
  unfold gethyper. rewrite Hlow. unfold puthyper. cbn [app]. rd_simpl.
  cbn [mbind outcome_bind]. f_equal. apply Z.bits_inj'. intros i Hi. unfold u64, u32.
  rewrite !Z.lor_spec, !(uN_bit _ 64), (uN_bit _ 32), !shl_bit, !bit_u8 by (done || lia).
  destruct (Z.lt_ge_cases i 32); [one_byte|].
  destruct (Z.lt_ge_cases i 40); [one_byte|].
  destruct (Z.lt_ge_cases i 48); [one_byte|].
  destruct (Z.lt_ge_cases i 56); [one_byte|].
  destruct (Z.lt_ge_cases i 64); [one_byte|].
  rewrite (testbit_high v 64 i) by lia. one_byte.
Qed.

Lemma hexconv_digit n : 0 <= n < 16 -> hexconv (hexdigit n) = Some n.
Proof.
  intros Hn. unfold hexdigit. destruct (Z.ltb_spec n 10); unfold hexconv; decide_cmp; f_equal; lia.
Qed.

Lemma hex2bytes_hexdump l : Forall is_byte l -> hex2bytes (hexdump l) = Some l.
Proof.
  intros Hl. unfold hex2bytes.
  assert (Hlen : (Z.of_nat (length (hexdump l)) .& 1) = 0).
  { change 1 with (Z.ones 1). rewrite Z.land_ones by lia. clear Hl.
    assert (E : Z.of_nat (length (hexdump l)) = Z.of_nat (length l) * 2)
      by (induction l as [|b l IH]; cbn [hexdump length]; lia).
    rewrite E. apply Z.mod_mul. lia. }
  rewrite Hlen. cbn [Z.eqb negb]. clear Hlen. induction Hl as [|b l Hb _ IH]; [done|].
  cbn [hexdump hex2bytes_loop]. unfold is_byte in Hb.
  rewrite (hexconv_digit (b .>> 4)) by (rewrite Z.shiftr_div_pow2 by lia; split;
    [apply Z.div_pos; lia|apply Z.div_lt_upper_bound; lia]).
  rewrite (hexconv_digit (b .& 15)) by (change 15 with (Z.ones 4); rewrite Z.land_ones by lia;
    apply Z.mod_pos_bound; lia).
  cbn [mbind option_bind]. rewrite IH. cbn [mbind option_bind]. do 2 f_equal.
  rewrite <- (u8_small b) at 3 by done. byte_bits.
Qed.

(** ** Properties *)

(** 16, 32 and 64-bit integers written big-endian are read back, and
    [hex2bytes] inverts [hexdump]. *)
Theorem serial_roundtrip v16 v32 v64 l rest :
  0 <= v16 < 2 ^ 16 -> 0 <= v32 < 2 ^ 32 -> 0 <= v64 < 2 ^ 64 -> Forall is_byte l ->
  getshort (putshort v16 ++ rest) = Done v16
  /\ getint (putint v32 ++ rest) = Done v32
  /\ gethyper (puthyper v64 ++ rest) = Done v64
  /\ hex2bytes (hexdump l) = Some l.
Proof.
  intros. split_and!; [by apply getshort_putshort | by apply getint_putint
    | by apply gethyper_puthyper | by apply hex2bytes_hexdump].
Qed.

Lemma serial_roundtrip_witness :
  getshort (putshort 258 ++ []) = Done 258
  /\ getint (putint 4026531841 ++ []) = Done 4026531841
  /\ gethyper (puthyper 18446744073709551614 ++ []) = Done 18446744073709551614
  /\ hex2bytes (hexdump [0; 171; 255]) = Some [0; 171; 255].
Proof.
  apply (serial_roundtrip 258 4026531841 18446744073709551614 [0; 171; 255] []); try lia.
  repeat constructor; unfold is_byte; lia.
Defined.

(** for every byte string, the decoders of armored [str]s accept what
    the encoders made of it and give it back, in base 64, in the variant for
    file names, and in base 32. *)
Theorem armor_str_roundtrip p :
  Forall is_byte p ->
  (s ← armor64_str p; dearmor64_str s) = Done (Some p)
  /\ (s ← armor64A_str p; dearmor64A_str s) = Done (Some p)
  /\ (s ← armor32_str p; dearmor32_str s) = Done (Some p).
Proof.
  intros Hp. split_and!.
  - unfold armor64_str. change (armor64 p) with (_armor64 b2a64 true p). rewrite armor64_done.
    cbn [mbind outcome_bind]. unfold dearmor64_str. rewrite armor64len_armor64 by done.
    cbn [mbind outcome_bind]. rewrite Z.eqb_refl. by apply dearmor64_armor64.
  - unfold armor64A_str, armor64A. rewrite armor64A_done. cbn [mbind outcome_bind].
    unfold dearmor64A_str. destruct (dearmor64A_armor64A p 0 [] Hp ltac:(done)) as [H Hlen].
    rewrite Hlen. cbn [mbind outcome_bind]. rewrite Z.eqb_refl. unfold dearmor64A.
    destruct (Z.ltb_spec (Z.of_nat (length (armor64_chars b2a64A p))) 0); [lia|]. exact H.
  - unfold armor32_str. rewrite armor32_done. cbn [mbind outcome_bind]. unfold dearmor32_str.
    unfold armor32len. rewrite armorlen_app by (by try apply armor32_loop_valid).
    cbn [mbind outcome_bind]. rewrite Z.eqb_refl. by apply dearmor32_armor32.
Qed.

Lemma armor_str_roundtrip_witness :
  (s ← armor64_str [1; 2; 254; 3]; dearmor64_str s) = Done (Some [1; 2; 254; 3])
  /\ (s ← armor64A_str [1; 2; 254; 3]; dearmor64A_str s) = Done (Some [1; 2; 254; 3])
  /\ (s ← armor32_str [1; 2; 254; 3]; dearmor32_str s) = Done (Some [1; 2; 254; 3]).
Proof.
  apply (armor_str_roundtrip [1; 2; 254; 3]). repeat constructor; unfold is_byte; lia.
Defined.
