(* ===== verification/Mdblock.v ===== *)
(** * Hashing by blocks: [crypt/mdblock.C] and [crypt/crypthash.h]

    [mdblock] collects bytes in a buffer and hands blocks of 64 bytes to the
    virtual function [consume].  The class [Consumer] below is that function:
    a block comes either from the buffer, which [consume] may change, or
    straight from the caller's data.  [ConsumerOK] says what a consumer
    promises; what [update] and the padding functions do is proved against
    it. *)
From Stdlib Require Import ZArith Lia.
From stdpp Require Import prelude.
From S2P Require Import Prelude.

Definition blocksize : Z := 64.

Class Consumer (S : Type) := {
  consume_buffer : S -> list Z -> outcome (S * list Z);
  consume_data : S -> list Z -> outcome S
}.

Record mdblock (S : Type) := mkmd {
  md_count : Z;
  md_buffer : list Z;
  md_state : S
}.
Arguments mkmd {S}.
Arguments md_count {S}.
Arguments md_buffer {S}.
Arguments md_state {S}.

(** [memcpy (&buf[at], src, length src)] *)
Definition copy_in (buf : list Z) (at_ : Z) (src : list Z) : outcome (list Z) :=
  if (0 <=? at_) && (at_ + Z.of_nat (length src) <=? Z.of_nat (length buf))
  then Done (take (Z.to_nat at_) buf ++ src ++ drop (Z.to_nat at_ + length src) buf)
  else Wild.

Section ops.
Context {S : Type} `{!Consumer S}.

(** [while (len >= blocksize) { consume (&data[i]); ... }] *)
Fixpoint update_loop (fuel : nat) (s : S) (data : list Z) : outcome (S * list Z) :=
  if blocksize <=? Z.of_nat (length data) then
    match fuel with
    | O => Spin
    | Datatypes.S fuel =>
        s ← consume_data s (take 64 data);
        update_loop fuel s (drop 64 data)
    end
  else Done (s, data).

Definition update (md : mdblock S) (data : list Z) : outcome (mdblock S) :=
  let len := Z.of_nat (length data) in
  let bcount := md_count md mod blocksize in
  let count := u64 (md_count md + len) in
  if bcount + len <? blocksize then
    b ← copy_in (md_buffer md) bcount data;
    Done (mkmd count b (md_state md))
  else
    r ← (if negb (bcount =? 0) then
           let j := blocksize - bcount in
           b ← copy_in (md_buffer md) bcount (take (Z.to_nat j) data);
           sb ← consume_buffer (md_state md) b;
           let '(s, b) := sb : S * list Z in
           Done (s, b, drop (Z.to_nat j) data)
         else Done (md_state md, md_buffer md, data));
    let '(s, b, rest) := r : S * list Z * list Z in
    r ← update_loop (length rest) s rest;
    let '(s, rest) := r : S * list Z in
    b ← copy_in b 0 rest;
    Done (mkmd count b s).

Definition updatev (md : mdblock S) (iov : list (list Z)) : outcome (mdblock S) :=
  foldl (fun md data => md ← md; update md data) (Done md) iov.

(** The eight bytes of the bit count, [(count >> n) & 0xff]. *)
Definition count_bytes_be (count : Z) : list Z :=
  (fun n => (count .>> n) .& 0xff) <$> [56; 48; 40; 32; 24; 16; 8; 0].
Definition count_bytes_le (count : Z) : list Z :=
  (fun n => (count .>> n) .& 0xff) <$> [0; 8; 16; 24; 32; 40; 48; 56].

(** [finish_be] and [finish_le] differ in the padding byte and in the order
    of the bytes of the count. *)
Definition finish (padbyte : Z) (count_bytes : Z -> list Z) (md : mdblock S) : outcome (mdblock S) :=
  let bcount := md_count md mod blocksize in
  r ← (if blocksize - 9 <? bcount then
         let tmp := padbyte :: replicate (Z.to_nat (blocksize - bcount) - 1) 0 in
         md ← update md tmp;
         Done (mkmd (u64 (md_count md - (blocksize - bcount))) (md_buffer md) (md_state md), 0)
       else
         b ← copy_in (md_buffer md) bcount [padbyte];
         Done (mkmd (md_count md) b (md_state md), bcount + 1));
  let '(md, dp) := r : mdblock S * Z in
  b ← copy_in (md_buffer md) dp (replicate (Z.to_nat (blocksize - 8 - dp)) 0);
  let count := u64 (md_count md .<< 3) in
  b ← copy_in b (blocksize - 8) (count_bytes count);
  sb ← consume_buffer (md_state md) b;
  let '(s, b) := sb : S * list Z in
  Done (mkmd count b s).

Definition finish_be (md : mdblock S) : outcome (mdblock S) := finish 0x80 count_bytes_be md.
Definition finish_le (md : mdblock S) : outcome (mdblock S) := finish 0x01 count_bytes_le md.

End ops.

(** ** What a consumer promises

    [step] is the effect of a block on the state.  A state that is not
    [direct] takes blocks from the buffer only. *)
Class ConsumerOK (S : Type) `{!Consumer S} (step : S -> list Z -> S) (direct : S -> Prop) := {
  buffer_step s b : length b = 64%nat ->
    exists b', consume_buffer s b = Done (step s b, b') /\ length b' = 64%nat;
  data_step s b : direct s -> length b = 64%nat -> consume_data s b = Done (step s b);
  step_direct s b : direct (step s b)
}.

Section spec.
Context {S : Type} `{HC : !Consumer S} (step : S -> list Z -> S) (direct : S -> Prop).
Context `{!ConsumerOK S step direct}.

(** The effect of the first [n] blocks of a message. *)
Fixpoint absorb (n : nat) (s : S) (msg : list Z) : S :=
  match n with
  | O => s
  | Datatypes.S n => absorb n (step s (take 64 msg)) (drop 64 msg)
  end.

Lemma absorb_add n m s msg :
  absorb (n + m) s msg = absorb m (absorb n s msg) (drop (64 * n) msg).
Proof using.
  revert s msg. induction n as [|n IH]; intros s msg; [done|]. cbn [absorb Nat.add].
  rewrite IH, drop_drop. do 2 f_equal. lia.
Qed.

Lemma absorb_app n s msg more : (64 * n <= length msg)%nat -> absorb n s (msg ++ more) = absorb n s msg.
Proof using.
  revert s msg. induction n as [|n IH]; intros s msg Hl; [done|]. cbn [absorb].
  rewrite take_app_le, drop_app_le by lia. apply IH. rewrite length_drop. lia.
Qed.

(** The state after the bytes [msg] have been given to [update]. *)
Record md_rep (init : S) (md : mdblock S) (msg : list Z) : Prop := {
  rep_count : md_count md = Z.of_nat (length msg);
  rep_small : Z.of_nat (length msg) < 2 ^ 64;
  rep_length : length (md_buffer md) = 64%nat;
  rep_buffer : take (length msg mod 64) (md_buffer md) = drop (64 * (length msg / 64)) msg;
  rep_state : md_state md = absorb (length msg / 64) init msg
}.

Lemma copy_in_spec buf at_ src :
  0 <= at_ -> at_ + Z.of_nat (length src) <= Z.of_nat (length buf) ->
  exists b, copy_in buf at_ src = Done b /\ length b = length buf
    /\ take (Z.to_nat at_ + length src) b = take (Z.to_nat at_) buf ++ src.
Proof using.
  intros H1 H2. unfold copy_in.
  destruct (Z.leb_spec 0 at_), (Z.leb_spec (at_ + Z.of_nat (length src)) (Z.of_nat (length buf))); try lia.
  eexists. split; [reflexivity|]. split.
  - rewrite !length_app, length_take, length_drop. lia.
  - rewrite app_assoc, take_app_length'; [done|]. rewrite length_app, length_take. lia.
Qed.

Lemma update_loop_spec fuel s data :
  direct s \/ (length data < 64)%nat -> (length data <= fuel)%nat ->
  update_loop fuel s data
  = Done (absorb (length data / 64) s data, drop (64 * (length data / 64)) data).
Proof using ConsumerOK0.
  revert s data. induction fuel as [|fuel IH]; intros s data Hd Hf; cbn [update_loop]; unfold blocksize;
    (destruct (Z.leb_spec 64 (Z.of_nat (length data))) as [Hge|Hlt];
     [|rewrite (Nat.div_small (length data)) by lia; done]); [lia|].
  destruct Hd as [Hd|]; [|lia].
  rewrite data_step by (done || (rewrite length_take; lia)). cbn [mbind outcome_bind].
  rewrite IH; [|left; apply step_direct|rewrite length_drop; lia]. rewrite length_drop.
  assert (E : (length data / 64 = Datatypes.S ((length data - 64) / 64))%nat).
  { rewrite <- (Nat.div_add_l 1 64) by lia. f_equal. lia. }
  rewrite E. cbn [absorb]. rewrite drop_drop. do 3 f_equal. lia.
Qed.

Lemma count_mod n : (Z.of_nat n) mod blocksize = Z.of_nat (n mod 64).
Proof using. unfold blocksize. by rewrite Nat2Z.inj_mod. Qed.

Lemma divmod_nat n : (n = 64 * (n / 64) + n mod 64 /\ n mod 64 < 64)%nat.
Proof using. pose proof (Nat.div_mod_eq n 64). pose proof (Nat.mod_upper_bound n 64). lia. Qed.

(** The second half of [update]: from a state that has absorbed the first [q]
    blocks of [msg], with the rest of [msg] still to be read. *)
Lemma update_rest init q s b msg count :
  s = absorb q init msg -> (64 * q <= length msg)%nat -> length b = 64%nat ->
  direct s \/ (length msg - 64 * q < 64)%nat ->
  count = Z.of_nat (length msg) -> Z.of_nat (length msg) < 2 ^ 64 ->
  let rest := drop (64 * q) msg in
  exists md', (r ← update_loop (length rest) s rest;
               let '(s, rest) := r : S * list Z in
               b ← copy_in b 0 rest;
               Done (mkmd count b s)) = Done md' /\ md_rep init md' msg.
Proof using ConsumerOK0.
  intros -> Hq Hb Hd -> Hsm rest. set (N := length msg) in *.
  assert (Hl : length rest = (N - 64 * q)%nat) by (unfold rest; rewrite length_drop; done).
  rewrite update_loop_spec by (rewrite Hl; auto; lia). cbn [mbind outcome_bind].
  assert (Hdiv : (q + (N - 64 * q) / 64 = N / 64)%nat).
  { rewrite <- (Nat.div_add_l q 64) by lia. f_equal. lia. }
  unfold rest at 4. rewrite drop_drop, Hl.
  replace (64 * q + 64 * ((N - 64 * q) / 64))%nat with (64 * (N / 64))%nat by lia.
  unfold rest. rewrite <- absorb_add, Hdiv.
  destruct (divmod_nat N) as [EN HN].
  assert (Hlr : length (drop (64 * (N / 64)) msg) = (N mod 64)%nat) by (rewrite length_drop; fold N; lia).
  destruct (copy_in_spec b 0 (drop (64 * (N / 64)) msg)) as (b' & -> & Lb & Tb); [lia|rewrite Hlr; lia|].
  cbn [mbind outcome_bind]. eexists. split; [reflexivity|].
  split; cbn [md_count md_buffer md_state]; fold N; try done; [lia|]. by rewrite Hlr in Tb.
Qed.

Lemma update_spec init md msg data :
  md_rep init md msg -> Z.of_nat (length (msg ++ data)) < 2 ^ 64 ->
  direct (md_state md) \/ (length msg mod 64 <> 0)%nat \/ (length data < 64)%nat ->
  exists md', update md data = Done md' /\ md_rep init md' (msg ++ data).
Proof using ConsumerOK0.
  intros [Hc _ Hlb Hb Hs] Hsm Hdir. unfold update. rewrite Hc, count_mod.
  destruct (divmod_nat (length msg)) as [En Hr]. set (n := length msg) in *.
  set (q := (n / 64)%nat) in *. set (r := (n mod 64)%nat) in *. rewrite length_app in Hsm. fold n in Hsm.
  rewrite u64_small by lia. unfold blocksize.
  assert (Hdrop : drop (64 * q) (msg ++ data) = drop (64 * q) msg ++ data)
    by (apply drop_app_le; fold n; lia).
  assert (Habs : forall k, (k <= q)%nat -> absorb k init (msg ++ data) = absorb k init msg)
    by (intros k Hk; apply absorb_app; fold n; lia).
  destruct (Z.ltb_spec (Z.of_nat r + Z.of_nat (length data)) 64) as [Hlt|Hge].
  - destruct (copy_in_spec (md_buffer md) (Z.of_nat r) data) as (b & -> & Lb & Tb); [lia|lia|].
    cbn [mbind outcome_bind]. eexists. split; [reflexivity|]. rewrite Nat2Z.id in Tb.
    assert (Hdm : ((n + length data) / 64 = q /\ (n + length data) mod 64 = r + length data)%nat).
    { split; symmetry;
        [apply (Nat.div_unique _ _ _ (r + length data))|apply (Nat.mod_unique _ _ q)]; lia. }
    destruct Hdm as [E1 E2].
    split; cbn [md_count md_buffer md_state]; rewrite ?length_app; fold n; rewrite ?E1, ?E2; try lia.
    + by rewrite Tb, Hb, Hdrop.
    + by rewrite Habs.
  - assert (Hend : forall q' s b, s = absorb q' init (msg ++ data) ->
      (64 * q' <= n + length data)%nat -> length b = 64%nat ->
      direct s \/ (n + length data - 64 * q' < 64)%nat ->
      exists md', (r ← update_loop (length (drop (64 * q') (msg ++ data))) s (drop (64 * q') (msg ++ data));
               let '(s, rest) := r : S * list Z in
               b ← copy_in b 0 rest;
               Done (mkmd (Z.of_nat n + Z.of_nat (length data)) b s)) = Done md'
        /\ md_rep init md' (msg ++ data)).
    { intros q' s b E Hq Hlb' Hd. apply update_rest; rewrite ?length_app; fold n; try done; lia. }
    destruct (Z.eqb_spec (Z.of_nat r) 0) as [Er|Er]; cbn [negb mbind outcome_bind].
    + assert (Ed : data = drop (64 * q) (msg ++ data)).
      { rewrite Hdrop, drop_ge by (fold n; lia). done. }
      destruct (Hend q (md_state md) (md_buffer md)) as (md' & E & R); [by rewrite Habs|lia|done| |].
      { destruct Hdir as [|[|]]; [by left|lia|lia]. }
      rewrite <- Ed in E. by exists md'.
    + set (j := Z.to_nat (64 - Z.of_nat r)). assert (Hj : (length (take j data) = 64 - r)%nat)
        by (rewrite length_take; lia).
      destruct (copy_in_spec (md_buffer md) (Z.of_nat r) (take j data)) as (b & -> & Lb & Tb);
        [lia|rewrite Hj; lia|]. cbn [mbind outcome_bind].
      rewrite Nat2Z.id, Hj, Hb in Tb. replace (r + (64 - r))%nat with 64%nat in Tb by lia.
      rewrite take_ge in Tb by lia.
      assert (Eb : b = take 64 (drop (64 * q) (msg ++ data))).
      { assert (Hln : length (drop (64 * q) msg) = r) by (rewrite length_drop; fold n; lia).
        rewrite Tb, Hdrop, take_app_ge by lia. rewrite Hln. do 2 f_equal. lia. }
      destruct (buffer_step (md_state md) b) as (b' & -> & Lb'); [lia|]. cbn [mbind outcome_bind].
      assert (Es : step (md_state md) b = absorb (q + 1) init (msg ++ data)).
      { rewrite (absorb_add q 1), (Habs q) by lia. cbn [absorb]. by rewrite Hs, <- Eb. }
      assert (Ed : drop j data = drop (64 * (q + 1)) (msg ++ data)).
      { rewrite drop_app_ge by (fold n; lia). fold n. f_equal. lia. }
      rewrite Ed, Es. apply Hend; [done|lia|done|]. left. rewrite <- Es. apply step_direct.
Qed.

Lemma updatev_spec init md msg iov :
  md_rep init md msg -> Z.of_nat (length (msg ++ concat iov)) < 2 ^ 64 ->
  (forall s, direct s) ->
  exists md', updatev md iov = Done md' /\ md_rep init md' (msg ++ concat iov).
Proof using ConsumerOK0.
  intros Hr Hsm Hd. revert md msg Hr Hsm. induction iov as [|d iov IH]; intros md msg Hr Hsm.
  { exists md. by rewrite app_nil_r. }
  cbn [concat] in Hsm. rewrite app_assoc in Hsm.
  destruct (update_spec init md msg d Hr) as (md1 & E1 & R1).
  { rewrite length_app in Hsm. lia. }
  { by left. }
  destruct (IH md1 (msg ++ d) R1 Hsm) as (md2 & E2 & R2).
  exists md2. rewrite <- app_assoc in R2. split; [|exact R2].
  unfold updatev in *. cbn [foldl mbind outcome_bind]. by rewrite E1.
Qed.

(** The message with its padding: a byte, zeros up to eight bytes below the
    end of a block, and the number of bits. *)
Definition padded (padbyte : Z) (count_bytes : Z -> list Z) (msg : list Z) : list Z :=
  msg ++ padbyte :: replicate ((119 - length msg mod 64) mod 64) 0
    ++ count_bytes (u64 (Z.of_nat (length msg) .<< 3)).

Definition absorb_all (init : S) (msg : list Z) : S := absorb (length msg / 64) init msg.

(** The last block: zeros and the count behind what is in the buffer. *)
Lemma finish_block init q s buf pre msg count_bytes count :
  length buf = 64%nat -> take (length pre) buf = pre -> (length pre <= 56)%nat ->
  length (count_bytes count) = 8%nat -> (64 * q = length msg)%nat -> s = absorb q init msg ->
  exists md', (b ← copy_in buf (Z.of_nat (length pre)) (replicate (Z.to_nat (blocksize - 8 - Z.of_nat (length pre))) 0);
     b ← copy_in b (blocksize - 8) (count_bytes count);
     sb ← consume_buffer s b;
     let '(s, b) := sb : S * list Z in
     Done (mkmd count b s)) = Done md'
    /\ md_state md' = absorb_all init (msg ++ pre ++ replicate (56 - length pre) 0 ++ count_bytes count)
    /\ length (md_buffer md') = 64%nat.
Proof using ConsumerOK0.
  intros Hb Hpre Hlp Hcb Hq Hs. unfold blocksize.
  replace (Z.to_nat (64 - 8 - Z.of_nat (length pre))) with (56 - length pre)%nat by lia.
  destruct (copy_in_spec buf (Z.of_nat (length pre)) (replicate (56 - length pre) 0)) as (b1 & -> & L1 & T1);
    [lia|rewrite length_replicate; lia|]. cbn [mbind outcome_bind].
  rewrite Nat2Z.id, length_replicate, Hpre in T1.
  replace (length pre + (56 - length pre))%nat with 56%nat in T1 by lia.
  destruct (copy_in_spec b1 (64 - 8) (count_bytes count)) as (b2 & -> & L2 & T2); [lia|lia|].
  cbn [mbind outcome_bind]. rewrite Hcb in T2. change (Z.to_nat (64 - 8)) with 56%nat in T2.
  rewrite T1, take_ge in T2 by lia. rewrite <- app_assoc in T2.
  destruct (buffer_step s b2) as (b3 & -> & L3); [lia|]. cbn [mbind outcome_bind].
  eexists. split; [reflexivity|]. split; [|exact L3]. cbn [md_state]. unfold absorb_all.
  assert (Hl : length (pre ++ replicate (56 - length pre) 0 ++ count_bytes count) = 64%nat)
    by (rewrite !length_app, length_replicate; lia).
  rewrite <- T2 in Hl |- *. rewrite length_app, Hl.
  replace ((length msg + 64) / 64)%nat with (q + 1)%nat
    by (apply (Nat.div_unique _ _ _ 0); lia).
  rewrite (absorb_add q 1), absorb_app by lia. cbn [absorb].
  rewrite drop_app_ge by lia. replace (64 * q - length msg)%nat with 0%nat by lia.
  by rewrite drop_0, take_ge, Hs by lia.
Qed.

Lemma finish_spec init md msg padbyte count_bytes :
  md_rep init md msg -> Z.of_nat (length msg) + 64 < 2 ^ 64 ->
  (forall c, length (count_bytes c) = 8%nat) ->
  exists md', finish padbyte count_bytes md = Done md'
    /\ md_state md' = absorb_all init (padded padbyte count_bytes msg)
    /\ length (md_buffer md') = 64%nat.
Proof using ConsumerOK0.
  intros Hrep Hsm Hcb. pose proof Hrep as [Hc _ Hlb Hb Hs]. unfold finish, padded.
  rewrite Hc, count_mod. destruct (divmod_nat (length msg)) as [En Hr].
  set (n := length msg) in *. set (q := (n / 64)%nat) in *. set (r := (n mod 64)%nat) in *.
  change (blocksize - 9) with 55. destruct (Z.ltb_spec 55 (Z.of_nat r)) as [Hgt|Hle].
  - (* the padding byte does not leave room for the count *)
    set (tmp := padbyte :: replicate (Z.to_nat (blocksize - Z.of_nat r) - 1) 0).
    assert (Ht : length tmp = (64 - r)%nat)
      by (unfold tmp, blocksize; cbn [length]; rewrite length_replicate; lia).
    destruct (update_spec init md msg tmp Hrep) as (md1 & -> & [C1 _ L1 B1 S1]);
      [rewrite length_app, Ht; fold n; lia | right; left; fold n r; lia |].
    cbn [mbind outcome_bind md_count md_buffer md_state].
    rewrite length_app, Ht in C1, S1. fold n in C1, S1. rewrite C1.
    replace (u64 (Z.of_nat (n + (64 - r)) - (blocksize - Z.of_nat r))) with (Z.of_nat n)
      by (rewrite u64_small; unfold blocksize; lia).
    assert (E64 : ((n + (64 - r)) / 64 = q + 1)%nat) by (symmetry; apply (Nat.div_unique _ _ _ 0); lia).
    destruct (finish_block init (q + 1) (md_state md1) (md_buffer md1) [] (msg ++ tmp) count_bytes
      (u64 (Z.of_nat n .<< 3))) as (md' & E & Hst & Hlen); try done; try (cbn; lia).
    + rewrite length_app, Ht. fold n. lia.
    + by rewrite S1, E64.
    + exists md'. split; [exact E|]. split; [|exact Hlen]. rewrite Hst. f_equal. rewrite <- app_assoc. f_equal.
      unfold tmp. cbn [app length Nat.sub]. f_equal. rewrite app_assoc, <- replicate_add.
      do 2 f_equal. rewrite Nat.mod_small by lia. unfold blocksize. lia.
  - assert (Hpre : length (drop (64 * q) msg ++ [padbyte]) = (r + 1)%nat)
      by (rewrite length_app, length_drop; fold n; cbn [length]; lia).
    destruct (copy_in_spec (md_buffer md) (Z.of_nat r) [padbyte]) as (b & -> & Lb & Tb);
      [lia|cbn; lia|]. cbn [mbind outcome_bind md_count md_buffer md_state].
    rewrite Nat2Z.id, Hb in Tb. cbn [length] in Tb.
    assert (Hmsg : msg = take (64 * q) msg ++ drop (64 * q) msg) by (by rewrite take_drop).
    destruct (finish_block init q (md_state md) b (drop (64 * q) msg ++ [padbyte]) (take (64 * q) msg)
      count_bytes (u64 (Z.of_nat n .<< 3))) as (md' & E & Hst & Hlen); try done; try lia.
    + by rewrite Hpre.
    + rewrite length_take. fold n. lia.
    + rewrite Hs. rewrite Hmsg at 1. apply absorb_app. rewrite length_take. fold n. lia.
    + rewrite Hpre in E, Hst. replace (Z.of_nat (r + 1)) with (Z.of_nat r + 1) in E by lia.
      exists md'. split; [exact E|]. split; [|exact Hlen]. rewrite Hst. f_equal.
      rewrite Hmsg at 3. rewrite <- !app_assoc. do 3 f_equal. cbn [app]. do 3 f_equal.
      assert (E55 : ((119 - r) mod 64 = 55 - r)%nat)
        by (symmetry; apply (Nat.mod_unique _ _ 1); lia).
      rewrite E55. lia.
Qed.

End spec.

Arguments md_rep {S} step.
Arguments absorb_all {S} step.
Arguments absorb {S} step.
