(* ===== verification/Sha1.v ===== *)
(** * SHA-1 and HMAC: [crypt/sha1.C] and [crypt/sha1.h]

    The unrolled rounds of [transform] with their circular window of sixteen
    message words, the hash context, HMAC, and, as specification, the
    algorithm of FIPS 180-1 with its schedule of eighty words and the
    construction of RFC 2104. *)
From Stdlib Require Import ZArith Lia Btauto.
From stdpp Require Import prelude.
From S2P Require Import Prelude Armor Serial Mdblock.

(** ** [transform] *)
Definition hashsize : Z := 20.

Record sha1state := mks1 { h0 : Z; h1 : Z; h2 : Z; h3 : Z; h4 : Z }.

Definition newstate : sha1state :=
  mks1 0x67452301 0xefcdab89 0x98badcfe 0x10325476 0xc3d2e1f0.

(** [rol] on 32-bit words. *)
Definition rol (value bits : Z) : Z := u32 (value .<< bits) .| (value .>> (32 - bits)).

(** The working variables. *)
Inductive reg := RA | RB | RC | RD | RE.
#[export] Instance reg_eq_dec : EqDecision reg.
Proof. solve_decision. Defined.

Definition regs := reg -> Z.
Definition set_reg (g : regs) (r : reg) (v : Z) : regs :=
  fun r' => if bool_decide (r' = r) then v else g r'.

(** The macros [R0] to [R4]. *)
Inductive round_op := R0 | R1 | R2 | R3 | R4.

Definition round_f (op : round_op) (w x y : Z) : Z :=
  match op with
  | R0 | R1 => (w .& (x .^ y)) .^ y
  | R2 => w .^ x .^ y
  | R3 => ((w .| x) .& y) .| (w .& x)
  | R4 => w .^ x .^ y
  end.

Definition round_k (op : round_op) : Z :=
  match op with
  | R0 | R1 => 0x5A827999
  | R2 => 0x6ED9EBA1
  | R3 => 0x8F1BBCDC
  | R4 => 0xCA62C1D6
  end.

Definition tget (tmp : list Z) (i : Z) : Z := nth (Z.to_nat i) tmp 0.
Definition tset (tmp : list Z) (i v : Z) : list Z := <[Z.to_nat i := v]> tmp.

(** [blk0 (i)] and [blk (i)]: the message word and the window with it. *)
Definition blk0 (block tmp : list Z) (i : Z) : outcome (Z * list Z) :=
  v ← getint (drop (Z.to_nat (4 * i)) block);
  Done (v, tset tmp i v).

Definition blk (tmp : list Z) (i : Z) : Z * list Z :=
  let v := rol (tget tmp ((i + 13) .& 15) .^ tget tmp ((i + 8) .& 15)
                .^ tget tmp ((i + 2) .& 15) .^ tget tmp (i .& 15)) 1 in
  (v, tset tmp (i .& 15) v).

Inductive instr := OP (op : round_op) (v w x y z : reg) (i : Z).

Definition run_instr (block : list Z) (gt : regs * list Z) (ins : instr) : outcome (regs * list Z) :=
  let '(g, tmp) := gt in
  match ins with
  | OP op v w x y z i =>
      bt ← (match op with R0 => blk0 block tmp i | _ => Done (blk tmp i) end);
      let '(b, tmp) := bt : Z * list Z in
      let g := set_reg g z
        (u32 (g z + (round_f op (g w) (g x) (g y) + b + round_k op + rol (g v) 5))) in
      let g := set_reg g w (rol (g w) 30) in
      Done (g, tmp)
  end.

Definition run_instrs (block : list Z) (l : list instr) (gt : regs * list Z)
    : outcome (regs * list Z) :=
  foldl (fun gt ins => gt ← gt; run_instr block gt ins) (Done gt) l.

(** The eighty lines of [transform]. *)
Definition sha1_rounds : list instr :=
  [OP R0 RA RB RC RD RE 0; OP R0 RE RA RB RC RD 1; OP R0 RD RE RA RB RC 2;
   OP R0 RC RD RE RA RB 3; OP R0 RB RC RD RE RA 4; OP R0 RA RB RC RD RE 5;
   OP R0 RE RA RB RC RD 6; OP R0 RD RE RA RB RC 7; OP R0 RC RD RE RA RB 8;
   OP R0 RB RC RD RE RA 9; OP R0 RA RB RC RD RE 10; OP R0 RE RA RB RC RD 11;
   OP R0 RD RE RA RB RC 12; OP R0 RC RD RE RA RB 13; OP R0 RB RC RD RE RA 14;
   OP R0 RA RB RC RD RE 15; OP R1 RE RA RB RC RD 16; OP R1 RD RE RA RB RC 17;
   OP R1 RC RD RE RA RB 18; OP R1 RB RC RD RE RA 19; OP R2 RA RB RC RD RE 20;
   OP R2 RE RA RB RC RD 21; OP R2 RD RE RA RB RC 22; OP R2 RC RD RE RA RB 23;
   OP R2 RB RC RD RE RA 24; OP R2 RA RB RC RD RE 25; OP R2 RE RA RB RC RD 26;
   OP R2 RD RE RA RB RC 27; OP R2 RC RD RE RA RB 28; OP R2 RB RC RD RE RA 29;
   OP R2 RA RB RC RD RE 30; OP R2 RE RA RB RC RD 31; OP R2 RD RE RA RB RC 32;
   OP R2 RC RD RE RA RB 33; OP R2 RB RC RD RE RA 34; OP R2 RA RB RC RD RE 35;
   OP R2 RE RA RB RC RD 36; OP R2 RD RE RA RB RC 37; OP R2 RC RD RE RA RB 38;
   OP R2 RB RC RD RE RA 39; OP R3 RA RB RC RD RE 40; OP R3 RE RA RB RC RD 41;
   OP R3 RD RE RA RB RC 42; OP R3 RC RD RE RA RB 43; OP R3 RB RC RD RE RA 44;
   OP R3 RA RB RC RD RE 45; OP R3 RE RA RB RC RD 46; OP R3 RD RE RA RB RC 47;
   OP R3 RC RD RE RA RB 48; OP R3 RB RC RD RE RA 49; OP R3 RA RB RC RD RE 50;
   OP R3 RE RA RB RC RD 51; OP R3 RD RE RA RB RC 52; OP R3 RC RD RE RA RB 53;
   OP R3 RB RC RD RE RA 54; OP R3 RA RB RC RD RE 55; OP R3 RE RA RB RC RD 56;
   OP R3 RD RE RA RB RC 57; OP R3 RC RD RE RA RB 58; OP R3 RB RC RD RE RA 59;
   OP R4 RA RB RC RD RE 60; OP R4 RE RA RB RC RD 61; OP R4 RD RE RA RB RC 62;
   OP R4 RC RD RE RA RB 63; OP R4 RB RC RD RE RA 64; OP R4 RA RB RC RD RE 65;
   OP R4 RE RA RB RC RD 66; OP R4 RD RE RA RB RC 67; OP R4 RC RD RE RA RB 68;
   OP R4 RB RC RD RE RA 69; OP R4 RA RB RC RD RE 70; OP R4 RE RA RB RC RD 71;
   OP R4 RD RE RA RB RC 72; OP R4 RC RD RE RA RB 73; OP R4 RB RC RD RE RA 74;
   OP R4 RA RB RC RD RE 75; OP R4 RE RA RB RC RD 76; OP R4 RD RE RA RB RC 77;
   OP R4 RC RD RE RA RB 78; OP R4 RB RC RD RE RA 79].

(** The working variables at first. *)
Definition regs_of (state : sha1state) : regs := fun r =>
  match r with
  | RA => h0 state | RB => h1 state | RC => h2 state | RD => h3 state | RE => h4 state
  end.

(** [junk] is what the local array [tmp] holds at first. *)
Definition transform_from (junk : list Z) (state : sha1state) (block : list Z) : outcome sha1state :=
  gt ← run_instrs block sha1_rounds (regs_of state, junk);
  let '(g, _) := gt : regs * list Z in
  Done (mks1 (u32 (h0 state + g RA)) (u32 (h1 state + g RB)) (u32 (h2 state + g RC))
             (u32 (h3 state + g RD)) (u32 (h4 state + g RE))).

Definition transform : sha1state -> list Z -> outcome sha1state := transform_from (replicate 16 0).

(** [state2bytes]. *)
Definition state2bytes (s : sha1state) : list Z :=
  concat ((fun v => [u8 (v .>> 24); u8 (v .>> 16); u8 (v .>> 8); u8 v])
          <$> [h0 s; h1 s; h2 s; h3 s; h4 s]).

(** ** The context *)
#[export] Instance sha1_consumer : Consumer sha1state := {
  consume_buffer s b := (s ← transform s b; Done (s, b));
  consume_data s b := transform s b
}.

Definition sha1ctx := mdblock sha1state.

(** The buffer of a new context is not initialised. *)
Definition sha1ctx_new (junk : list Z) : sha1ctx := mkmd 0 junk newstate.
Definition reset (c : sha1ctx) : sha1ctx := mkmd 0 (md_buffer c) newstate.

Definition final (c : sha1ctx) : outcome (list Z * sha1ctx) :=
  c ← finish_be c;
  Done (state2bytes (md_state c), mkmd (md_count c) (md_buffer c) (mks1 0 0 0 0 0)).

Definition sha1_hash (junk data : list Z) : outcome (list Z) :=
  c ← update (sha1ctx_new junk) data;
  d ← final c;
  Done (d.1).

Definition sha1_hashv (junk : list Z) (iov : list (list Z)) : outcome (list Z) :=
  c ← updatev (sha1ctx_new junk) iov;
  d ← final c;
  Done (d.1).

(** ** HMAC *)
Record sha1hmac := mkhm { hm_ctx : sha1ctx; istate : sha1state; ostate : sha1state }.

Definition hmac_reset (h : sha1hmac) : sha1hmac :=
  mkhm (mkmd blocksize (md_buffer (hm_ctx h)) (istate h)) (istate h) (ostate h).

Definition setkey (h : sha1hmac) (kdat : list Z) : outcome sha1hmac :=
  assertM (Z.of_nat (length kdat) <? blocksize) ;;
  let k := ((fun c => u8 (c .^ 0x36)) <$> kdat) ++ replicate (64 - length kdat) 0x36 in
  i ← transform newstate k;
  let k := (fun c => u8 (c .^ (0x36 .^ 0x5c))) <$> k in
  o ← transform newstate k;
  Done (hmac_reset (mkhm (hm_ctx h) i o)).

Definition hmac_update (h : sha1hmac) (data : list Z) : outcome sha1hmac :=
  c ← update (hm_ctx h) data;
  Done (mkhm c (istate h) (ostate h)).

Definition hmac_final (h : sha1hmac) : outcome (list Z * sha1hmac) :=
  c ← finish_be (hm_ctx h);
  let x := state2bytes (md_state c) in
  c ← update (mkmd blocksize (md_buffer c) (ostate h)) x;
  c ← finish_be c;
  Done (state2bytes (md_state c), hmac_reset (mkhm c (istate h) (ostate h))).

(** [junk] is the uninitialised buffer, [js] the uninitialised states. *)
Definition sha1_hmac (junk : list Z) (js : sha1state) (key msg : list Z) : outcome (list Z) :=
  h ← setkey (mkhm (sha1ctx_new junk) js js) key;
  h ← hmac_update h msg;
  d ← hmac_final h;
  Done (d.1).

(** ** FIPS 180-1 *)
Definition fips_f (t : Z) (b c d : Z) : Z :=
  if t <? 20 then (b .& c) .| (Z.lnot b .& d)
  else if t <? 40 then b .^ c .^ d
  else if t <? 60 then (b .& c) .| (b .& d) .| (c .& d)
  else b .^ c .^ d.

Definition fips_k (t : Z) : Z :=
  if t <? 20 then 0x5A827999 else if t <? 40 then 0x6ED9EBA1
  else if t <? 60 then 0x8F1BBCDC else 0xCA62C1D6.

(** The words of a block. *)
Definition be32 (l : list Z) : Z :=
  match l with
  | [b0; b1; b2; b3] => u32 (b0 .<< 24 .| b1 .<< 16 .| b2 .<< 8 .| b3)
  | _ => 0
  end.
Definition block_words (block : list Z) : list Z :=
  (fun t => be32 (take 4 (drop (4 * t) block))) <$> seq 0 16.

Definition at0 (l : list Z) (i : nat) : Z := nth i l 0.

(** The schedule, extended by [n] words. *)
Fixpoint schedule (n : nat) (w : list Z) : list Z :=
  match n with
  | O => w
  | S n =>
      let t := length w in
      schedule n (w ++ [rol (at0 w (t - 3) .^ at0 w (t - 8) .^ at0 w (t - 14) .^ at0 w (t - 16)) 1])
  end.

Definition fips_round (w : list Z) (s : sha1state) (t : nat) : sha1state :=
  let '(mks1 a b c d e) := s in
  mks1 (u32 (rol a 5 + fips_f (Z.of_nat t) b c d + e + at0 w t + fips_k (Z.of_nat t)))
       a (rol b 30) c d.

Definition fips_compress (s : sha1state) (block : list Z) : sha1state :=
  let w := schedule 64 (block_words block) in
  let '(mks1 a b c d e) := foldl (fips_round w) s (seq 0 80) in
  mks1 (u32 (h0 s + a)) (u32 (h1 s + b)) (u32 (h2 s + c)) (u32 (h3 s + d)) (u32 (h4 s + e)).

(** A message, padded, cut into blocks and compressed. *)
Definition fips_pad (msg : list Z) : list Z := padded 0x80 count_bytes_be msg.
Definition fips_sha1 (msg : list Z) : list Z :=
  state2bytes (absorb_all fips_compress newstate (fips_pad msg)).

(** RFC 2104, for keys no longer than a block. *)
Definition xor_key (c : Z) (key : list Z) : list Z :=
  (fun k => u8 (k .^ c)) <$> (key ++ replicate (64 - length key) 0).
Definition rfc_hmac (key msg : list Z) : list Z :=
  fips_sha1 (xor_key 0x5c key ++ fips_sha1 (xor_key 0x36 key ++ msg)).

(** ** The rounds compute FIPS 180-1 *)
Lemma at0_app_l w k i : (i < length w)%nat -> at0 (w ++ k) i = at0 w i.
Proof. intros. unfold at0. by apply app_nth1. Qed.

Lemma schedule_prefix n w i : (i < length w)%nat -> at0 (schedule n w) i = at0 w i.
Proof.
  revert w. induction n as [|n IH]; intros w Hi; [done|]. cbn [schedule].
  rewrite IH by (rewrite length_app; cbn; lia). by apply at0_app_l.
Qed.

Lemma schedule_rec n w t :
  (16 <= length w <= t)%nat -> (t < length w + n)%nat ->
  let s := schedule n w in
  at0 s t = rol (at0 s (t - 3) .^ at0 s (t - 8) .^ at0 s (t - 14) .^ at0 s (t - 16)) 1.
Proof.
  cbv zeta. revert w. induction n as [|n IH]; intros w Hw Ht; [lia|]. cbn [schedule].
  set (v := rol _ 1). destruct (decide (t = length w)) as [->|].
  - rewrite !schedule_prefix by (rewrite length_app; cbn; lia).
    assert (Hlast : at0 (w ++ [v]) (length w) = v)
      by (unfold at0; rewrite app_nth2, Nat.sub_diag by lia; done).
    rewrite Hlast, (at0_app_l w [v] (length w - 3)), (at0_app_l w [v] (length w - 8)),
      (at0_app_l w [v] (length w - 14)), (at0_app_l w [v] (length w - 16)) by lia. done.
  - apply IH; rewrite length_app; cbn; lia.
Qed.

Definition op_of (i : nat) : round_op :=
  if (i <? 16)%nat then R0 else if (i <? 20)%nat then R1 else if (i <? 40)%nat then R2
  else if (i <? 60)%nat then R3 else R4.

(** Rounds from [i] on, with the roles of the variables turning. *)
Fixpoint gen (n i : nat) (v w x y z : reg) : list instr :=
  match n with
  | O => []
  | S n => OP (op_of i) v w x y z (Z.of_nat i) :: gen n (S i) z v w x y
  end.

Lemma sha1_rounds_gen : sha1_rounds = gen 80 0 RA RB RC RD RE.
Proof. vm_compute. reflexivity. Qed.

Lemma round_f_fips i w x y : round_f (op_of i) w x y = fips_f (Z.of_nat i) w x y.
Proof.
  unfold op_of, fips_f.
  destruct (Nat.ltb_spec i 16), (Nat.ltb_spec i 20), (Nat.ltb_spec i 40), (Nat.ltb_spec i 60),
    (Z.ltb_spec (Z.of_nat i) 20), (Z.ltb_spec (Z.of_nat i) 40), (Z.ltb_spec (Z.of_nat i) 60);
    try lia; cbn [round_f]; try done; apply Z.bits_inj'; intros j Hj;
    autorewrite with bits; btauto.
Qed.

Lemma round_k_fips i : round_k (op_of i) = fips_k (Z.of_nat i).
Proof.
  unfold op_of, fips_k.
  destruct (Nat.ltb_spec i 16), (Nat.ltb_spec i 20), (Nat.ltb_spec i 40), (Nat.ltb_spec i 60),
    (Z.ltb_spec (Z.of_nat i) 20), (Z.ltb_spec (Z.of_nat i) 40), (Z.ltb_spec (Z.of_nat i) 60);
    try lia; done.
Qed.

Lemma getint_be32 l : (4 <= length l)%nat -> getint l = Done (be32 (take 4 l)).
Proof.
  intros Hl. destruct l as [|b0 [|b1 [|b2 [|b3 l]]]]; cbn in Hl; try lia.
  unfold getint. rd_simpl. done.
Qed.

Lemma land15 n : n .& 15 = n mod 16.
Proof. change 15 with (Z.ones 4). by rewrite Z.land_ones by lia. Qed.

Lemma set_reg_eq g r v : set_reg g r v r = v.
Proof. unfold set_reg. by rewrite bool_decide_true. Qed.
Lemma set_reg_ne g r r' v : r' <> r -> set_reg g r v r' = g r'.
Proof. intros H. unfold set_reg. by rewrite bool_decide_false. Qed.

Lemma distinct5 (v w x y z : reg) :
  NoDup [v; w; x; y; z] <-> v <> w /\ v <> x /\ v <> y /\ v <> z /\ w <> x /\ w <> y /\ w <> z
    /\ x <> y /\ x <> z /\ y <> z.
Proof.
  rewrite !NoDup_cons, !not_elem_of_cons. pose proof (NoDup_nil_2 (A := reg)).
  assert (forall r : reg, r ∉ []) by (intros r; apply not_elem_of_nil). naive_solver.
Qed.

Section rounds.
Context (block : list Z) (Hblock : length block = 64%nat).
Let W := schedule 64 (block_words block).

Lemma W_first i : (i < 16)%nat -> getint (drop (Z.to_nat (4 * Z.of_nat i)) block) = Done (at0 W i).
Proof using Hblock.
  intros Hi. replace (Z.to_nat (4 * Z.of_nat i)) with (4 * i)%nat by lia.
  rewrite getint_be32 by (rewrite length_drop; lia). f_equal. unfold W.
  assert (Hl : length (block_words block) = 16%nat) by (unfold block_words; by rewrite length_fmap, length_seq).
  rewrite schedule_prefix by lia. unfold at0, block_words. rewrite nth_lookup, list_lookup_fmap.
  by rewrite lookup_seq_lt by lia.
Qed.

(** The last sixteen words are in the window. *)
Definition window (tmp : list Z) (i : nat) : Prop :=
  length tmp = 16%nat
  /\ forall j, (j < i <= j + 16)%nat -> tget tmp (Z.of_nat j .& 15) = at0 W j.

Lemma window_set tmp i : window tmp i -> window (tset tmp (Z.of_nat i .& 15) (at0 W i)) (S i).
Proof using Hblock.
  intros [Hl Hw]. rewrite land15. pose proof (Z.mod_pos_bound (Z.of_nat i) 16 ltac:(lia)).
  split; [unfold tset; by rewrite length_insert|]. intros j Hj. rewrite land15.
  pose proof (Z.mod_pos_bound (Z.of_nat j) 16 ltac:(lia)).
  unfold tget, tset. destruct (decide (j = i)) as [->|Hne].
  - apply nth_lookup_Some, list_lookup_insert_eq. lia.
  - assert (Hm : Z.of_nat i mod 16 <> Z.of_nat j mod 16).
    { pose proof (Z.div_mod (Z.of_nat i) 16). pose proof (Z.div_mod (Z.of_nat j) 16). lia. }
    rewrite nth_lookup, list_lookup_insert_ne by lia. rewrite <- nth_lookup.
    specialize (Hw j ltac:(lia)). by rewrite land15 in Hw.
Qed.

(** The message word of a round, and the window after it. *)
Lemma blk_spec tmp i :
  window tmp i -> (i < 80)%nat ->
  exists tmp', (match op_of i with R0 => blk0 block tmp (Z.of_nat i) | _ => Done (blk tmp (Z.of_nat i)) end)
      = Done (at0 W i, tmp') /\ window tmp' (S i).
Proof using Hblock.
  intros Hw Hi. unfold op_of. destruct (Nat.ltb_spec i 16) as [Hlt|Hge].
  - unfold blk0. rewrite W_first by done. eexists. split; [reflexivity|].
    replace (Z.of_nat i) with (Z.of_nat i .& 15) by (rewrite land15, Z.mod_small; lia).
    by apply window_set.
  - assert (Hb : blk tmp (Z.of_nat i) = (at0 W i, tset tmp (Z.of_nat i .& 15) (at0 W i))).
    { unfold blk. assert (Ev : rol (tget tmp ((Z.of_nat i + 13) .& 15) .^ tget tmp ((Z.of_nat i + 8) .& 15)
                .^ tget tmp ((Z.of_nat i + 2) .& 15) .^ tget tmp (Z.of_nat i .& 15)) 1 = at0 W i); [|by rewrite Ev].
      assert (Hl : length (block_words block) = 16%nat)
        by (unfold block_words; by rewrite length_fmap, length_seq).
      unfold W. rewrite (schedule_rec 64 (block_words block) i) by lia. fold W.
      destruct Hw as [_ Hw].
      assert (Hback : forall k d, 0 <= d < 16 -> (k + Z.to_nat d = 16)%nat -> (0 < k)%nat ->
        tget tmp ((Z.of_nat i + d) .& 15) = at0 W (i - k)).
      { intros k d Hd Hk Hk0. rewrite <- (Hw (i - k)%nat) by lia. f_equal. rewrite !land15.
        rewrite <- (Z.mod_add (Z.of_nat (i - k)) 1 16) by lia. f_equal. lia. }
      rewrite (Hback 3%nat 13), (Hback 8%nat 8), (Hback 14%nat 2) by lia.
      rewrite <- (Hback 16%nat 0), Z.add_0_r by lia. done. }
    assert (Hr : (match (if (i <? 20)%nat then R1 else if (i <? 40)%nat then R2
      else if (i <? 60)%nat then R3 else R4) with R0 => blk0 block tmp (Z.of_nat i)
      | _ => Done (blk tmp (Z.of_nat i)) end) = Done (blk tmp (Z.of_nat i)))
      by (destruct (i <? 20)%nat, (i <? 40)%nat, (i <? 60)%nat; done).
    rewrite Hr, Hb. eexists. split; [reflexivity|]. by apply window_set.
Qed.

Lemma instr_spec g tmp i v w x y z :
  NoDup [v; w; x; y; z] -> window tmp i -> (i < 80)%nat ->
  exists g' tmp', run_instr block (g, tmp) (OP (op_of i) v w x y z (Z.of_nat i)) = Done (g', tmp')
    /\ window tmp' (S i)
    /\ mks1 (g' z) (g' v) (g' w) (g' x) (g' y) = fips_round W (mks1 (g v) (g w) (g x) (g y) (g z)) i.
Proof using Hblock.
  intros Hnd Hw Hi. unfold run_instr.
  destruct (blk_spec tmp i Hw Hi) as (tmp' & -> & Hw'). cbn [mbind outcome_bind].
  eexists _, _. split; [reflexivity|]. split; [done|].
  apply distinct5 in Hnd as (? & ? & ? & ? & ? & ? & ? & ? & ? & ?).
  unfold fips_round. rewrite !set_reg_eq, !(set_reg_ne _ w) by congruence.
  rewrite !set_reg_eq, !(set_reg_ne _ z) by congruence.
  rewrite round_f_fips, round_k_fips. do 2 f_equal. lia.
Qed.

(** The variables in the roles they have after [n] rounds. *)
Fixpoint roles (n : nat) (v w x y z : reg) (g : regs) : sha1state :=
  match n with
  | O => mks1 (g v) (g w) (g x) (g y) (g z)
  | S n => roles n z v w x y g
  end.

Lemma run_gen n g tmp i v w x y z :
  NoDup [v; w; x; y; z] -> window tmp i -> (i + n <= 80)%nat ->
  exists g' tmp', run_instrs block (gen n i v w x y z) (g, tmp) = Done (g', tmp')
    /\ roles n v w x y z g' = foldl (fips_round W) (mks1 (g v) (g w) (g x) (g y) (g z)) (seq i n).
Proof using Hblock.
  revert g tmp i v w x y z. induction n as [|n IH]; intros g tmp i v w x y z Hnd Hw Hi.
  { by exists g, tmp. }
  destruct (instr_spec g tmp i v w x y z Hnd Hw ltac:(lia)) as (g1 & tmp1 & E1 & Hw1 & S1).
  destruct (IH g1 tmp1 (S i) z v w x y) as (g2 & tmp2 & E2 & S2); [|done|lia|].
  { apply distinct5 in Hnd as (? & ? & ? & ? & ? & ? & ? & ? & ? & ?). apply distinct5.
    split_and!; congruence. }
  exists g2, tmp2. split; [|cbn [roles seq foldl]; by rewrite S2, S1].
  unfold run_instrs in *. cbn [gen foldl mbind outcome_bind]. by rewrite E1.
Qed.

Lemma transform_fips junk s :
  length junk = 16%nat -> transform_from junk s block = Done (fips_compress s block).
Proof using Hblock.
  intros Hj. unfold transform_from. rewrite sha1_rounds_gen.
  destruct (run_gen 80 (regs_of s) junk 0 RA RB RC RD RE) as (g & tmp & -> & S).
  - apply distinct5. split_and!; done.
  - split; [done|]. intros j Hlt. lia.
  - lia.
  - cbn [mbind outcome_bind]. unfold fips_compress. fold W.
    change (roles 80 RA RB RC RD RE g) with (mks1 (g RA) (g RB) (g RC) (g RD) (g RE)) in S.
    destruct s as [a b c d e]. cbn [regs_of h0 h1 h2 h3 h4] in *. by rewrite <- S.
Qed.

End rounds.

(** ** The context computes the hash *)
#[export] Instance sha1_consumer_ok : ConsumerOK sha1state fips_compress (fun _ => True).
Proof.
  split.
  - intros s b Hb. exists b. split; [|done].
    assert (E : transform s b = Done (fips_compress s b)) by (by apply transform_fips).
    cbn [consume_buffer sha1_consumer]. by rewrite E.
  - intros s b _ Hb. by apply transform_fips.
  - done.
Qed.

Lemma sha1ctx_new_rep junk :
  length junk = 64%nat -> md_rep fips_compress newstate (sha1ctx_new junk) [].
Proof. intros Hj. split; cbn; try done. Qed.

Lemma count_bytes_be_length c : length (count_bytes_be c) = 8%nat.
Proof. done. Qed.

Lemma final_spec c msg :
  md_rep fips_compress newstate c msg -> Z.of_nat (length msg) + 64 < 2 ^ 64 ->
  exists c', final c = Done (fips_sha1 msg, c').
Proof.
  intros Hr Hsm. unfold final, finish_be.
  destruct (finish_spec fips_compress _ newstate c msg 0x80 count_bytes_be Hr Hsm count_bytes_be_length)
    as (c' & -> & Hs & _).
  eexists. cbn [mbind outcome_bind]. unfold fips_sha1, fips_pad. by rewrite Hs.
Qed.

Lemma state2bytes_length s : length (state2bytes s) = 20%nat.
Proof. done. Qed.

(** ** HMAC computes RFC 2104 *)
Lemma xor_key_length c key : (length key <= 64)%nat -> length (xor_key c key) = 64%nat.
Proof. intros H. unfold xor_key. rewrite length_fmap, length_app, length_replicate. lia. Qed.

Lemma setkey_inner key :
  ((fun c => u8 (c .^ 0x36)) <$> key) ++ replicate (64 - length key) 0x36 = xor_key 0x36 key.
Proof.
  unfold xor_key. rewrite fmap_app. f_equal. by rewrite fmap_replicate.
Qed.

Lemma setkey_outer key :
  (fun c => u8 (c .^ (0x36 .^ 0x5c))) <$> xor_key 0x36 key = xor_key 0x5c key.
Proof.
  unfold xor_key. rewrite <- list_fmap_compose. apply list_fmap_ext. intros i k _. cbn.
  apply Z.bits_inj'. intros j Hj. rewrite !bit_u8.
  destruct (Z.ltb_spec j 8); [|done]. rewrite !Z.lxor_spec, bit_u8, Z.lxor_spec.
  rewrite (proj2 (Z.ltb_lt j 8)) by lia. cbn [andb]. rewrite xorb_assoc. f_equal.
  rewrite <- ?Z.lxor_spec. reflexivity.
Qed.

(** A context that has absorbed one block. *)
Lemma one_block_rep buf block :
  length buf = 64%nat -> length block = 64%nat ->
  md_rep fips_compress newstate (mkmd blocksize buf (fips_compress newstate block)) block.
Proof.
  intros Hb Hl. split; cbn [md_count md_buffer md_state]; rewrite ?Hl; try done.
  - change (64 mod 64)%nat with 0%nat. change (64 * (64 / 64))%nat with 64%nat.
    by rewrite drop_ge by lia.
  - change (64 / 64)%nat with 1%nat. cbn [absorb]. by rewrite take_ge by lia.
Qed.

Lemma fips_sha1_length msg : length (fips_sha1 msg) = 20%nat.
Proof. done. Qed.

Lemma fips_sha1_bytes msg : Forall is_byte (fips_sha1 msg).
Proof.
  unfold fips_sha1, state2bytes. set (s := absorb_all _ _ _). clearbody s.
  cbn [fmap list_fmap concat app]. repeat (constructor; [apply u8_byte|]). constructor.
Qed.

Lemma sha1_hash_ok jb data :
  length jb = 64%nat -> Z.of_nat (length data) + 64 < 2 ^ 64 -> sha1_hash jb data = Done (fips_sha1 data).
Proof.
  intros Hj Hd. unfold sha1_hash.
  destruct (update_spec fips_compress (fun _ => True) newstate _ [] data (sha1ctx_new_rep jb Hj)) as (x & -> & R); [cbn [app]; lia|by left|].
  cbn [mbind outcome_bind app] in *. destruct (final_spec x _ R Hd) as (x' & ->). done.
Qed.

Lemma sha1_hmac_spec junk js key msg :
  length junk = 64%nat -> (length key < 64)%nat -> Z.of_nat (length msg) + 128 < 2 ^ 64 ->
  sha1_hmac junk js key msg = Done (rfc_hmac key msg).
Proof.
  intros Hj Hk Hm. unfold sha1_hmac, setkey.
  rewrite (proj2 (Z.ltb_lt (Z.of_nat (length key)) blocksize)) by (unfold blocksize; lia).
  cbn [assertM mbind outcome_bind]. rewrite setkey_inner.
  pose proof (xor_key_length 0x36 key ltac:(lia)) as L1.
  pose proof (xor_key_length 0x5c key ltac:(lia)) as L2.
  unfold transform. rewrite (transform_fips _ L1) by done. cbn [mbind outcome_bind].
  rewrite setkey_outer, (transform_fips _ L2) by done. cbn [mbind outcome_bind].
  unfold hmac_reset, hmac_update. cbn [hm_ctx istate ostate md_buffer sha1ctx_new].
  pose proof (one_block_rep junk (xor_key 0x36 key) Hj L1) as R1.
  destruct (update_spec fips_compress (fun _ => True) newstate _ _ msg R1) as (c1 & -> & R2).
  { rewrite length_app, L1. lia. }
  { by left. }
  cbn [mbind outcome_bind]. unfold hmac_final. cbn [hm_ctx istate ostate]. unfold finish_be.
  destruct (finish_spec fips_compress _ newstate c1 _ 0x80 count_bytes_be R2) as (c2 & E2 & S2 & B2);
    [rewrite length_app, L1; lia|done|].
  rewrite E2. cbn [mbind outcome_bind]. rewrite S2.
  change (state2bytes (absorb_all fips_compress newstate (padded 0x80 count_bytes_be (xor_key 0x36 key ++ msg))))
    with (fips_sha1 (xor_key 0x36 key ++ msg)).
  pose proof (one_block_rep (md_buffer c2) (xor_key 0x5c key) B2 L2) as R3.
  destruct (update_spec fips_compress (fun _ => True) newstate _ _
    (fips_sha1 (xor_key 0x36 key ++ msg)) R3) as (c3 & -> & R4).
  { rewrite length_app, L2. unfold fips_sha1. rewrite state2bytes_length. lia. }
  { by left. }
  cbn [mbind outcome_bind].
  destruct (finish_spec fips_compress _ newstate c3 _ 0x80 count_bytes_be R4) as (c4 & E4 & S4 & B4).
  { rewrite length_app, L2. unfold fips_sha1. rewrite state2bytes_length. lia. }
  { done. }
  rewrite E4. cbn [mbind outcome_bind fst]. by rewrite S4.
Qed.

(** ** Properties *)

(** C30: the unrolled rounds, in which the five variables change roles
    instead of values and only sixteen message words are kept, compute the
    compression function of FIPS 180-1 on every state and block, whatever the
    uninitialised window held. *)
Theorem sha1_transform_correct junk s block :
  length junk = 16%nat -> length block = 64%nat ->
  transform_from junk s block = Done (fips_compress s block).
Proof. intros Hj Hb. by apply transform_fips. Qed.

Lemma sha1_transform_correct_witness :
  transform_from (replicate 16 99) newstate (replicate 64 1)
  = Done (fips_compress newstate (replicate 64 1)).
Proof. apply (sha1_transform_correct (replicate 16 99) newstate (replicate 64 1)); reflexivity. Defined.

(** [sha1_hashv] gives the SHA-1 of FIPS 180-1 of the concatenation of
    its pieces, however the message is cut into pieces. *)
Theorem sha1_hashv_correct junk iov :
  length junk = 64%nat -> Z.of_nat (length (concat iov)) + 64 < 2 ^ 64 ->
  sha1_hashv junk iov = Done (fips_sha1 (concat iov)).
Proof.
  intros Hj Hsm. unfold sha1_hashv.
  destruct (updatev_spec fips_compress (fun _ => True) newstate _ [] iov (sha1ctx_new_rep junk Hj))
    as (c & -> & R); [cbn [app]; lia|done|].
  cbn [mbind outcome_bind app] in *. destruct (final_spec c _ R Hsm) as (c' & ->). done.
Qed.

Lemma sha1_hashv_correct_witness :
  sha1_hashv (replicate 64 7) [[97]; []; [98; 99]] = Done (fips_sha1 [97; 98; 99]).
Proof.
  apply (sha1_hashv_correct (replicate 64 7) [[97]; []; [98; 99]]); [reflexivity|].
  vm_compute. reflexivity.
Defined.

(** [sha1_hmac] computes the HMAC of RFC 2104 for keys shorter than a
    block. *)
Theorem sha1_hmac_correct junk js key msg :
  length junk = 64%nat -> (length key < 64)%nat -> Z.of_nat (length msg) + 128 < 2 ^ 64 ->
  sha1_hmac junk js key msg = Done (rfc_hmac key msg).
Proof. apply sha1_hmac_spec. Qed.

Lemma sha1_hmac_correct_witness :
  sha1_hmac (replicate 64 7) newstate [1; 2; 3] [97; 98; 99] = Done (rfc_hmac [1; 2; 3] [97; 98; 99]).
Proof.
  apply (sha1_hmac_correct (replicate 64 7) newstate [1; 2; 3] [97; 98; 99]).
  - reflexivity.
  - cbn. lia.
  - cbn. lia.
Defined.
