(* ===== verification/Sha1oracle.v ===== *)
(** * The random oracle: [crypt/sha1oracle.C]

    [sha1oracle] runs several SHA-1 computations side by side on the same
    message, which differ in the first eight bytes only, and concatenates
    their results. *)
From Stdlib Require Import ZArith Lia.
From stdpp Require Import prelude.
From S2P Require Import Prelude Armor Serial Mdblock Sha1.

(** The part of the class behind [consume]. *)
Record orastate := mkora { firstblock : bool; ora_states : list sha1state }.

(** The loop of [consume] for the first block: context [i] gets the block
    with [htonq (i)] in front. *)
Fixpoint consume_first (i : Z) (states : list sha1state) (buffer : list Z)
    : outcome (list sha1state * list Z) :=
  match states with
  | [] => Done ([], buffer)
  | s :: states =>
      buffer ← copy_in buffer 0 (puthyper i);
      s ← transform s buffer;
      r ← consume_first (i + 1) states buffer;
      let '(states, buffer) := r : list sha1state * list Z in
      Done (s :: states, buffer)
  end.

Definition consume_rest (states : list sha1state) (p : list Z) : outcome (list sha1state) :=
  mapM (fun s => transform s p) states.

#[export] Instance oracle_consumer : Consumer orastate := {
  consume_buffer o b :=
    if firstblock o then
      r ← consume_first 0 (ora_states o) b;
      let '(states, b) := r : list sha1state * list Z in
      Done (mkora false states, b)
    else
      states ← consume_rest (ora_states o) b;
      Done (mkora false states, b);
  consume_data o p :=
    if firstblock o then Panic (* assert (p == buffer) *)
    else
      states ← consume_rest (ora_states o) p;
      Done (mkora false states)
}.

Record sha1oracle := mkso {
  hashused : Z;
  nctx : Z;
  ora_md : mdblock orastate;
  ora_idx : Z;
  resultsize : Z
}.

Definition ora_reset (o : sha1oracle) : outcome sha1oracle :=
  let st := mkora true (replicate (Z.to_nat (nctx o)) newstate) in
  md ← update (mkmd 0 (md_buffer (ora_md o)) st) (replicate 8 0 ++ puthyper (ora_idx o));
  Done (mkso (hashused o) (nctx o) md (ora_idx o) (resultsize o)).

Definition sha1oracle_new (junk : list Z) (nbytes idx used : Z) : outcome sha1oracle :=
  if used =? 0 then Wild
  else ora_reset (mkso used (u64 (nbytes + used - 1) / used) (mkmd 0 junk (mkora true [])) idx nbytes).

Definition ora_update (o : sha1oracle) (data : list Z) : outcome sha1oracle :=
  md ← update (ora_md o) data;
  Done (mkso (hashused o) (nctx o) md (ora_idx o) (resultsize o)).

(** [for (; p + hashsize <= end; p += hashused) state2bytes (p, *sp++)] *)
Fixpoint ora_out_loop (fuel : nat) (used end_ : Z) (states : list sha1state) (out : list Z) (p : Z)
    : outcome (list Z * Z * list sha1state) :=
  if p + hashsize <=? end_ then
    match fuel, states with
    | S fuel, s :: states =>
        out ← copy_in out p (state2bytes s);
        ora_out_loop fuel used end_ states out (p + used)
    | O, _ => Spin
    | _, [] => Wild
    end
  else Done (out, p, states).

(** What follows the loop: a whole piece if there is room, then the rest. *)
Definition ora_out_rest (used end_ : Z) (states : list sha1state) (out : list Z) (p : Z)
    : outcome (list Z) :=
  r ← (if p + used <=? end_ then
         match states with
         | s :: states =>
             out ← copy_in out p (take (Z.to_nat used) (state2bytes s));
             Done (out, p + used, states)
         | [] => Wild
         end
       else Done (out, p, states));
  let '(out, p, states) := r : list Z * Z * list sha1state in
  if p <? end_ then
    match states with
    | s :: _ => copy_in out p (take (Z.to_nat (end_ - p)) (state2bytes s))
    | [] => Wild
    end
  else Done out.

(** [junk] is what the caller's buffer holds at first. *)
Definition ora_final (junk : list Z) (o : sha1oracle) : outcome (list Z) :=
  md ← finish_be (ora_md o);
  r ← ora_out_loop (length (ora_states (md_state md))) (hashused o) (resultsize o)
        (ora_states (md_state md)) junk 0;
  let '(out, p, states) := r : list Z * Z * list sha1state in
  ora_out_rest (hashused o) (resultsize o) states out p.

(** [sha1oracle_lookup] of [crypt/pad.C]: one message. *)
Definition oracle_lookup (jb jo : list Z) (idx dstlen used : Z) (msg : list Z) : outcome (list Z) :=
  o ← sha1oracle_new jb dstlen idx used;
  o ← ora_update o msg;
  ora_final jo o.

(** ** Specification *)
(** [SHA1 (<i> || <idx> || M)]. *)
Definition oracle_piece (idx : Z) (msg : list Z) (i : nat) : list Z :=
  fips_sha1 (puthyper (Z.of_nat i) ++ puthyper idx ++ msg).

(** The first [size] bytes of the pieces, of each of which [used] bytes
    count. *)
Definition oracle_spec (used idx size : Z) (msg : list Z) : list Z :=
  take (Z.to_nat size)
    (concat ((fun i => take (Z.to_nat used) (oracle_piece idx msg i))
             <$> seq 0 (Z.to_nat ((size + used - 1) / used)))).

(** ** The contexts side by side *)
Fixpoint first_states (i : Z) (states : list sha1state) (d : list Z) : list sha1state :=
  match states with
  | [] => []
  | s :: states => fips_compress s (puthyper i ++ d) :: first_states (i + 1) states d
  end.

Definition ora_step (o : orastate) (b : list Z) : orastate :=
  mkora false (if firstblock o then first_states 0 (ora_states o) (drop 8 b)
               else (fun s => fips_compress s b) <$> ora_states o).

Lemma transform_ok s b : length b = 64%nat -> transform s b = Done (fips_compress s b).
Proof. intros Hb. by apply transform_fips. Qed.

#[local] Opaque fips_compress transform.

Lemma consume_first_spec i states b :
  length b = 64%nat ->
  exists b', consume_first i states b = Done (first_states i states (drop 8 b), b')
    /\ length b' = 64%nat.
Proof.
  revert i b. induction states as [|s states IH]; intros i b Hb; [by exists b|].
  cbn [consume_first first_states].
  assert (Ec : copy_in b 0 (puthyper i) = Done (puthyper i ++ drop 8 b)).
  { unfold copy_in. change (length (puthyper i)) with 8%nat.
    destruct (Z.leb_spec (0 + Z.of_nat 8) (Z.of_nat (length b))); [|lia]. done. }
  rewrite Ec. cbn [mbind outcome_bind].
  assert (Hl : length (puthyper i ++ drop 8 b) = 64%nat)
    by (rewrite length_app, length_drop; cbn; lia).
  rewrite transform_ok by done. cbn [mbind outcome_bind].
  destruct (IH (i + 1) (puthyper i ++ drop 8 b) Hl) as (b' & E & Lb').
  replace (drop 8 (puthyper i ++ drop 8 b)) with (drop 8 b) in E by done.
  rewrite E. by exists b'.
Qed.

Lemma consume_rest_spec states b :
  length b = 64%nat -> consume_rest states b = Done ((fun s => fips_compress s b) <$> states).
Proof.
  intros Hb. unfold consume_rest. induction states as [|s states IH]; [done|].
  cbn [mapM fmap list_fmap]. rewrite transform_ok by done. cbn [mbind outcome_bind].
  by rewrite IH.
Qed.

#[export] Instance oracle_consumer_ok :
  ConsumerOK orastate ora_step (fun o => firstblock o = false).
Proof.
  split.
  - intros o b Hb. cbn [consume_buffer oracle_consumer]. unfold ora_step. destruct (firstblock o).
    + destruct (consume_first_spec 0 (ora_states o) b Hb) as (b' & -> & Lb). by exists b'.
    + rewrite consume_rest_spec by done. by exists b.
  - intros o b Hd Hb. cbn [consume_data oracle_consumer]. unfold ora_step. rewrite Hd.
    by rewrite consume_rest_spec.
  - done.
Qed.

Lemma first_states_fun (F : Z -> sha1state) i k s d :
  (forall x, fips_compress s (puthyper x ++ d) = F x) ->
  first_states i (replicate k s) d = (fun j => F (i + Z.of_nat j)) <$> seq 0 k.
Proof.
  intros HF. revert i. induction k as [|k IH]; intros i; [done|].
  cbn [replicate first_states]. rewrite HF, IH. cbn [seq]. rewrite fmap_cons, <- fmap_S_seq.
  rewrite <- list_fmap_compose. rewrite Z.add_0_r. f_equal.
  apply list_fmap_ext. intros n j _. cbn [compose]. f_equal. lia.
Qed.

Lemma first_states_replicate k s d :
  first_states 0 (replicate k s) d
  = (fun j => fips_compress s (puthyper (Z.of_nat j) ++ d)) <$> seq 0 k.
Proof. by rewrite (first_states_fun (fun x => fips_compress s (puthyper x ++ d))). Qed.

Lemma absorb_rest n f l P :
  absorb ora_step n (mkora false (f <$> l : list sha1state)) P
  = mkora false ((fun i : nat => absorb fips_compress n (f i) P) <$> l).
Proof.
  revert f P. induction n as [|n IH]; intros f P; [done|]. cbn [absorb].
  unfold ora_step at 2. cbn [firstblock ora_states]. rewrite <- list_fmap_compose.
  change (compose (fun s => fips_compress s (take 64 P)) f)
    with (fun i : nat => fips_compress (f i) (take 64 P)).
  by rewrite IH.
Qed.

(** Context [i] sees the message with [<i>] in place of its first eight
    bytes. *)
Lemma absorb_first n k P :
  (0 < n)%nat -> (8 <= length P)%nat ->
  absorb ora_step n (mkora true (replicate k newstate)) P
  = mkora false ((fun i => absorb fips_compress n newstate (puthyper (Z.of_nat i) ++ drop 8 P))
                 <$> seq 0 k).
Proof.
  intros Hn HP. destruct n as [|n]; [lia|]. cbn [absorb]. unfold ora_step at 2.
  cbn [firstblock ora_states]. rewrite first_states_replicate.
  rewrite absorb_rest. f_equal. apply list_fmap_ext. intros j i _.
  assert (E1 : take 64 (puthyper (Z.of_nat i) ++ drop 8 P) = puthyper (Z.of_nat i) ++ drop 8 (take 64 P)).
  { rewrite take_app_ge by (cbn; lia). change (length (puthyper (Z.of_nat i))) with 8%nat.
    by rewrite take_drop_commute. }
  assert (E2 : drop 64 (puthyper (Z.of_nat i) ++ drop 8 P) = drop 64 P).
  { rewrite drop_app_ge by (cbn; lia). change (length (puthyper (Z.of_nat i))) with 8%nat.
    by rewrite drop_drop. }
  by rewrite E1, E2.
Qed.

(** ** The output *)
Definition cut (used : Z) (states : list sha1state) : list Z :=
  concat ((fun s => take (Z.to_nat used) (state2bytes s)) <$> states).

Section output.
Context (used end_ : Z) (Hused : 10 <= used <= 20) (Hend : 0 <= end_).

(** [out] holds the right bytes up to [p]. *)
Definition filled (out done : list Z) (p : Z) : Prop :=
  Z.of_nat (length out) = end_ /\ 0 <= p <= end_ /\ Z.of_nat (length done) = p
  /\ take (Z.to_nat p) out = done.

Lemma filled_copy out done p src k :
  filled out done p -> 0 <= k <= Z.of_nat (length src) -> p + Z.of_nat (length src) <= end_ ->
  exists out', copy_in out p src = Done out' /\ filled out' (done ++ take (Z.to_nat k) src) (p + k).
Proof using.
  intros (H1 & H2 & H3 & H4) Hk Hl.
  destruct (copy_in_spec out p src) as (out' & E & L & T); [lia|lia|].
  exists out'. split; [done|]. split_and!; [lia|lia|lia| |].
  - rewrite length_app, length_take. lia.
  - rewrite H4 in T. assert (Hpk : Z.to_nat (p + k) = (length done + Z.to_nat k)%nat) by lia.
    rewrite Hpk. assert (E2 : take (length done + Z.to_nat k) out'
      = take (length done + Z.to_nat k) (take (Z.to_nat p + length src) out')).
    { rewrite take_take. f_equal. lia. }
    rewrite E2, T, take_app_ge by lia. do 2 f_equal. lia.
Qed.

Lemma cut_cons s states : cut used (s :: states) = take (Z.to_nat used) (state2bytes s) ++ cut used states.
Proof using. done. Qed.

Lemma ora_out_loop_spec fuel states out done p :
  filled out done p -> (length states <= fuel)%nat -> end_ <= p + used * Z.of_nat (length states) ->
  exists out' p' rest done', ora_out_loop fuel used end_ states out p = Done (out', p', rest)
    /\ filled out' done' p' /\ done ++ cut used states = done' ++ cut used rest
    /\ end_ < p' + 20 /\ end_ <= p' + used * Z.of_nat (length rest).
Proof using Hused.
  revert states out done p. induction fuel as [|fuel IH]; intros states out done p Hf Hl He;
    cbn [ora_out_loop]; unfold hashsize;
    (destruct (Z.leb_spec (p + 20) end_) as [Hle|Hgt];
     [|eexists _, _, _, done; split; [reflexivity|]; split; [exact Hf|]; split; [reflexivity|lia]]).
  { destruct states; cbn in *; lia. }
  destruct states as [|s states]; [cbn in He; lia|].
  destruct (filled_copy out done p (state2bytes s) used Hf) as (out1 & -> & F1);
    [rewrite state2bytes_length; lia|rewrite state2bytes_length; lia|]. cbn [mbind outcome_bind].
  destruct (IH states out1 _ (p + used) F1) as (out2 & p2 & rest & done2 & E & F2 & D & H1 & H2).
  { cbn in Hl. lia. }
  { cbn [length] in He. lia. }
  exists out2, p2, rest, done2. split_and!; try done. by rewrite cut_cons, app_assoc.
Qed.

Lemma ora_out_rest_spec states out done p :
  filled out done p -> end_ < p + 20 -> end_ <= p + used * Z.of_nat (length states) ->
  ora_out_rest used end_ states out p = Done (take (Z.to_nat end_) (done ++ cut used states)).
Proof using Hused Hend.
  intros Hf Hlt He. unfold ora_out_rest.
  (* the last piece, cut off at the end *)
  assert (Hlast : forall states out done p, filled out done p -> end_ < p + used \/ end_ - p <= used ->
    end_ <= p + used * Z.of_nat (length states) ->
    (if p <? end_ then match states with
      | s :: _ => copy_in out p (take (Z.to_nat (end_ - p)) (state2bytes s)) | [] => Wild end
     else Done out) = Done (take (Z.to_nat end_) (done ++ cut used states))).
  { clear states out done p Hf Hlt He. intros states out done p Hf Hd He.
    pose proof Hf as (H1 & H2 & H3 & H4).
    assert (Hfull : forall out' done', filled out' done' end_ -> out' = done')
      by (intros out' done' (L1 & _ & L3 & <-); rewrite take_ge by lia; done).
    destruct (Z.ltb_spec p end_) as [Hpe|Hpe].
    - destruct states as [|s states]; [cbn in He; lia|].
      destruct (filled_copy out done p (take (Z.to_nat (end_ - p)) (state2bytes s)) (end_ - p) Hf)
        as (out1 & -> & F1); try (rewrite length_take, state2bytes_length; lia).
      replace (p + (end_ - p)) with end_ in F1 by lia. f_equal. rewrite (Hfull _ _ F1).
      rewrite take_take, Nat.min_id, cut_cons, take_app_ge by lia. f_equal.
      rewrite take_app_le by (rewrite length_take, state2bytes_length; lia).
      rewrite take_take. f_equal. lia.
    - assert (p = end_) as -> by lia. f_equal. rewrite (Hfull _ _ Hf).
      rewrite take_app_le by lia. by rewrite take_ge by lia. }
  destruct (Z.leb_spec (p + used) end_) as [Hle|Hgt].
  - destruct states as [|s states]; [cbn in He; lia|].
    assert (Ht : length (take (Z.to_nat used) (state2bytes s)) = Z.to_nat used)
      by (rewrite length_take, state2bytes_length; lia).
    destruct (filled_copy out done p (take (Z.to_nat used) (state2bytes s)) used Hf)
      as (out1 & -> & F1); [lia|lia|]. cbn [mbind outcome_bind].
    rewrite take_take, Nat.min_id in F1.
    rewrite (Hlast states out1 _ (p + used) F1); [by rewrite cut_cons, app_assoc|right; lia|].
    cbn [length] in He. lia.
  - cbn [mbind outcome_bind]. apply Hlast; [done|left; lia|done].
Qed.

End output.

(** ** The whole oracle *)
Definition ora_init (k : nat) : orastate := mkora true (replicate k newstate).

Definition ora_head (idx : Z) : list Z := replicate 8 0 ++ puthyper idx.

Lemma ora_head_length idx : length (ora_head idx) = 16%nat.
Proof. done. Qed.

Lemma padded_first i idx msg :
  puthyper i ++ drop 8 (padded 0x80 count_bytes_be (ora_head idx ++ msg))
  = fips_pad (puthyper i ++ puthyper idx ++ msg).
Proof.
  unfold fips_pad, padded. rewrite !(length_app (puthyper _)), (length_app (ora_head idx)).
  change (length (ora_head idx)) with 16%nat. change (length (puthyper idx)) with 8%nat.
  change (length (puthyper i)) with 8%nat.
  replace (8 + (8 + length msg))%nat with (16 + length msg)%nat by lia.
  unfold ora_head. rewrite <- !app_assoc. f_equal.
Qed.

Lemma padded_length padbyte cb (msg : list Z) :
  (forall c, length (cb c) = 8%nat) -> (64 <= length (padded padbyte cb msg))%nat.
Proof.
  intros Hc. unfold padded. rewrite length_app. cbn [length]. rewrite length_app, Hc, length_replicate.
  destruct (divmod_nat (length msg)) as [En Hr]. set (r := (length msg mod 64)%nat) in *.
  destruct (le_lt_dec r 55).
  - replace (119 - r)%nat with (55 - r + 1 * 64)%nat by lia. rewrite Nat.Div0.mod_add, Nat.mod_small; lia.
  - rewrite Nat.mod_small by lia. lia.
Qed.

Lemma ora_absorb_all k idx msg :
  absorb_all ora_step (ora_init k) (padded 0x80 count_bytes_be (ora_head idx ++ msg))
  = mkora false ((fun i => absorb_all fips_compress newstate
                             (fips_pad (puthyper (Z.of_nat i) ++ puthyper idx ++ msg))) <$> seq 0 k).
Proof.
  unfold absorb_all, ora_init.
  pose proof (padded_length 0x80 _ (ora_head idx ++ msg) count_bytes_be_length) as HP.
  set (P := padded _ _ _) in *. assert (0 < length P / 64)%nat by (apply Nat.div_str_pos; lia).
  rewrite absorb_first by lia.
  apply (f_equal (mkora false)), list_fmap_ext. intros j i _. rewrite <- padded_first.
  fold P. rewrite length_app, length_drop. change (length (puthyper (Z.of_nat i))) with 8%nat.
  by replace (8 + (length P - 8))%nat with (length P) by lia.
Qed.

Lemma oracle_states jb size idx used msg :
  length jb = 64%nat -> 0 < used <= 20 -> 0 <= size < 2 ^ 63 -> Z.of_nat (length msg) + 80 < 2 ^ 64 ->
  exists o md, (o ← sha1oracle_new jb size idx used; ora_update o msg) = Done o
    /\ hashused o = used /\ resultsize o = size /\ finish_be (ora_md o) = Done md
    /\ ora_states (md_state md) = (fun i => absorb_all fips_compress newstate
         (fips_pad (puthyper (Z.of_nat i) ++ puthyper idx ++ msg)))
         <$> seq 0 (Z.to_nat ((size + used - 1) / used)).
Proof.
  intros Hj Hu Hs Hm. unfold sha1oracle_new. destruct (Z.eqb_spec used 0); [lia|].
  rewrite u64_small by lia. unfold ora_reset.
  cbn [nctx ora_md md_buffer ora_idx hashused resultsize].
  set (k := Z.to_nat ((size + used - 1) / used)). fold (ora_init k). fold (ora_head idx).
  assert (R0 : md_rep ora_step (ora_init k) (mkmd 0 jb (ora_init k)) []) by (split; cbn; done).
  destruct (update_spec ora_step (fun o => firstblock o = false) _ _ _ (ora_head idx) R0)
    as (md1 & E1 & R1); [cbn; lia|right; right; cbn; lia|].
  rewrite E1. cbn [mbind outcome_bind]. unfold ora_update. cbn [nctx ora_md md_buffer ora_idx hashused resultsize].
  destruct (update_spec ora_step (fun o => firstblock o = false) _ _ _ msg R1)
    as (md2 & E2 & R2).
  { rewrite length_app. cbn [app]. rewrite ora_head_length. lia. }
  { right; left. cbn [app]. rewrite ora_head_length. done. }
  rewrite E2. cbn [mbind outcome_bind app] in *.
  destruct (finish_spec ora_step (fun o => firstblock o = false) _ _ _ 0x80 count_bytes_be R2)
    as (md3 & E3 & S3 & _).
  { rewrite length_app, ora_head_length. lia. }
  { exact count_bytes_be_length. }
  rewrite ora_absorb_all in S3.
  eexists _, md3. split; [reflexivity|]. cbn [nctx ora_md md_buffer ora_idx hashused resultsize].
  rewrite S3. done.
Qed.

Lemma oracle_lookup_spec jb jo idx size used msg :
  length jb = 64%nat -> Z.of_nat (length jo) = size -> 10 <= used <= 20 -> size < 2 ^ 63 ->
  Z.of_nat (length msg) + 80 < 2 ^ 64 ->
  oracle_lookup jb jo idx size used msg = Done (oracle_spec used idx size msg).
Proof.
  intros Hj Hjo Hu Hs Hm. unfold oracle_lookup.
  destruct (oracle_states jb size idx used msg Hj) as (o & md & E & Eu & Er & Ef & Es); [lia|lia|lia|].
  destruct (sha1oracle_new jb size idx used) as [o0| | |]; try done. cbn [mbind outcome_bind] in *.
  rewrite E. cbn [mbind outcome_bind]. unfold ora_final. rewrite Ef. cbn [mbind outcome_bind].
  rewrite Eu, Er, Es. set (k := Z.to_nat ((size + used - 1) / used)).
  set (states := _ <$> seq 0 k).
  assert (Hk : size <= 0 + used * Z.of_nat (length states)).
  { unfold states. rewrite length_fmap, length_seq. unfold k.
    pose proof (Z.div_mod (size + used - 1) used ltac:(lia)).
    pose proof (Z.mod_pos_bound (size + used - 1) used ltac:(lia)).
    rewrite Z2Nat.id by (apply Z.div_pos; lia). lia. }
  assert (Hf : filled size jo [] 0) by (split_and!; cbn; lia || done).
  destruct (ora_out_loop_spec used size Hu (length states) states jo [] 0 Hf)
    as (out & p & rest & done_ & -> & F & D & H1 & H2); [lia|done|].
  cbn [mbind outcome_bind]. rewrite (ora_out_rest_spec used size Hu ltac:(lia) rest out done_ p F H1 H2).
  rewrite <- D. unfold oracle_spec, cut. cbn [app]. fold k. unfold states.
  rewrite <- list_fmap_compose. done.
Qed.

(** ** Theorems *)
(** for a piece length [hashused] of ten to twenty bytes, feeding a
    message to [sha1oracle] yields exactly the documented sequence: the first
    [size] bytes of the concatenation of the first [hashused] bytes of
    [SHA1 (<i> || <index> || M)], [i = 0, 1, ...].  All the contexts share one
    buffer. *)
Theorem sha1oracle_correct jb jo idx size used msg :
  length jb = 64%nat -> Z.of_nat (length jo) = size -> 10 <= used <= 20 -> size < 2 ^ 63 ->
  Z.of_nat (length msg) + 80 < 2 ^ 64 ->
  oracle_lookup jb jo idx size used msg = Done (oracle_spec used idx size msg).
Proof. apply oracle_lookup_spec. Qed.

Lemma sha1oracle_correct_witness :
  oracle_lookup (replicate 64 0) (replicate 50 0) 1 50 20 [97; 98; 99]
  = Done (oracle_spec 20 1 50 [97; 98; 99]).
Proof.
  apply (sha1oracle_correct (replicate 64 0) (replicate 50 0) 1 50 20 [97; 98; 99]);
    cbn; lia || reflexivity.
Defined.

(** for shorter pieces the documented sequence is not what comes out:
    with the eight-byte pieces that the description of the class speaks of
    ([SHA1_64]), a result of nineteen bytes ends in bytes of the second piece
    where the third piece should start, because only one whole piece is
    written after the loop. *)
Theorem sha1oracle_short_pieces :
  oracle_lookup (replicate 64 0) (replicate 19 0) 0 19 8 []
  <> Done (oracle_spec 8 0 19 []).
Proof. vm_compute. discriminate. Qed.
