(* ===== verification/Itree.v ===== *)
(** * Intrusive red-black trees: [async/itree.C] and [async/itree.h]

    The code of the tree, on an explicit heap.  A node is identified by its
    address (a [positive]); the heap maps the addresses of allocated nodes to
    the four fields of their [__itree_entry_private]; [NULL] is [None].
    Dereferencing [NULL] or an address that is not allocated is [Wild].  The
    word [*r] that holds the root of the tree is a field of the state. *)
From Stdlib Require Import ZArith Lia.
From stdpp Require Import prelude gmap.
From S2P Require Import Prelude.

Inductive itree_color := INVALID | BLACK | RED.

#[export] Instance itree_color_eq_dec : EqDecision itree_color.
Proof. solve_decision. Defined.

(** A pointer to an opaque container. *)
Abbreviation oc := (option positive).

Record __itree_entry_private := mkentry {
  rbe_up : oc;
  rbe_left : oc;
  rbe_right : oc;
  rbe_color : itree_color
}.

Record itstate := mkst {
  rb_root : oc;
  hp : gmap positive __itree_entry_private
}.

(** ** State and errors *)
Definition itm (A : Type) : Type := itstate -> outcome (A * itstate).
#[export] Instance itm_ret : MRet itm := fun A a s => Done (a, s).
#[export] Instance itm_bind : MBind itm := fun A B k m s =>
  match m s with
  | Done (a, s') => k a s'
  | Panic => Panic | Wild => Wild | Spin => Spin
  end.

(** The code is written in the notation of this scope:
    [x <- c ; k], [c ;; k]. *)
Declare Scope itm_scope.
Delimit Scope itm_scope with itm.
Notation "x <- c ; k" := (mbind (M := itm) (fun x => k) c)
  (at level 100, c at next level, right associativity) : itm_scope.
Notation "c ;; k" := (mbind (M := itm) (fun _ => k) c)
  (at level 100, k at level 200, right associativity) : itm_scope.
#[local] Open Scope itm_scope.

Definition ret {A} (a : A) : itm A := mret a.
Definition oc2rb (p : oc) : itm __itree_entry_private := fun s =>
  match p with
  | Some x => match hp s !! x with Some e => Done (e, s) | None => Wild end
  | None => Wild
  end.
Definition store (p : oc) (f : __itree_entry_private -> __itree_entry_private)
    : itm unit := fun s =>
  match p with
  | Some x =>
      match hp s !! x with
      | Some e => Done (tt, mkst (rb_root s) (<[x := f e]> (hp s)))
      | None => Wild
      end
  | None => Wild
  end.
Definition get_root : itm oc := fun s => Done (rb_root s, s).
Definition set_root (p : oc) : itm unit := fun s => Done (tt, mkst p (hp s)).
Definition assert_it (b : bool) : itm unit := fun s =>
  if b then Done (tt, s) else Panic.

(** The macros [up], [left], [right], [color] and [lcolor]. *)
Definition up (n : oc) : itm oc := e <- oc2rb n; ret (rbe_up e).
Definition left (n : oc) : itm oc := e <- oc2rb n; ret (rbe_left e).
Definition right (n : oc) : itm oc := e <- oc2rb n; ret (rbe_right e).
Definition color (n : oc) : itm itree_color :=
  match n with
  | Some _ => e <- oc2rb n; ret (rbe_color e)
  | None => ret BLACK
  end.
Definition set_up (n v : oc) : itm unit :=
  store n (fun e => mkentry v (rbe_left e) (rbe_right e) (rbe_color e)).
Definition set_left (n v : oc) : itm unit :=
  store n (fun e => mkentry (rbe_up e) v (rbe_right e) (rbe_color e)).
Definition set_right (n v : oc) : itm unit :=
  store n (fun e => mkentry (rbe_up e) (rbe_left e) v (rbe_color e)).
Definition lcolor (n : oc) (c : itree_color) : itm unit :=
  store n (fun e => mkentry (rbe_up e) (rbe_left e) (rbe_right e) c).

Definition isnull (p : oc) : bool := bool_decide (p = None).
#[global] Arguments isnull : simpl never.
Lemma isnull_Some x : isnull (Some x) = false. Proof. done. Qed.
Lemma isnull_None : isnull None = true. Proof. done. Qed.

(** ** Rotations *)
Definition itree_left_rotate (x : oc) : itm unit :=
  y <- right x;
  v <- left y;
  set_right x v;;
  (if isnull v then ret tt else (v <- left y; set_up v x));;
  ux <- up x;
  set_up y ux;;
  ux <- up x;
  (if isnull ux then set_root y
   else (l <- left ux;
         if bool_decide (x = l) then set_left ux y else set_right ux y));;
  set_left y x;;
  set_up x y.

Definition itree_right_rotate (y : oc) : itm unit :=
  x <- left y;
  v <- right x;
  set_left y v;;
  (if isnull v then ret tt else (v <- right x; set_up v y));;
  uy <- up y;
  set_up x uy;;
  uy <- up y;
  (if isnull uy then set_root x
   else (r <- right uy;
         if bool_decide (y = r) then set_right uy x else set_left uy x));;
  set_right x y;;
  set_up y x.

(** ** Insertion *)
Fixpoint itree_insert_fix_loop (fuel : nat) (x : oc) : itm unit :=
  match fuel with
  | O => fun _ => Spin
  | S fuel =>
      ux <- up x;
      c <- color ux;
      if bool_decide (c = RED) then
        gp <- up ux;
        lgp <- left gp;
        if bool_decide (ux = lgp) then
          y <- right gp;
          cy <- color y;
          if bool_decide (cy = RED) then
            lcolor ux BLACK;;
            lcolor y BLACK;;
            lcolor gp RED;;
            itree_insert_fix_loop fuel gp
          else
            rux <- right ux;
            x <- (if bool_decide (x = rux)
                  then (itree_left_rotate ux;; ret ux) else ret x);
            ux <- up x;
            lcolor ux BLACK;;
            uux <- up ux;
            lcolor uux RED;;
            itree_right_rotate uux;;
            itree_insert_fix_loop fuel x
        else
          y <- left gp;
          cy <- color y;
          if bool_decide (cy = RED) then
            lcolor ux BLACK;;
            lcolor y BLACK;;
            lcolor gp RED;;
            itree_insert_fix_loop fuel gp
          else
            lux <- left ux;
            x <- (if bool_decide (x = lux)
                  then (itree_right_rotate ux;; ret ux) else ret x);
            ux <- up x;
            lcolor ux BLACK;;
            uux <- up ux;
            lcolor uux RED;;
            itree_left_rotate uux;;
            itree_insert_fix_loop fuel x
      else ret tt
  end.

Definition itree_insert_fix (fuel : nat) (x : oc) : itm unit :=
  lcolor x RED;;
  itree_insert_fix_loop fuel x;;
  r <- get_root;
  lcolor r BLACK.

(** The descent [for (x = *r; x; x = cmpres < 0 ? left (x) : right (x))];
    returns the last node visited and the last comparison. *)
Fixpoint itree_insert_descend (fuel : nat) (cmpfn : positive -> positive -> Z)
    (z : positive) (x y : oc) (cmpres : Z) : itm (oc * Z) :=
  match x with
  | None => ret (y, cmpres)
  | Some x' =>
      match fuel with
      | O => fun _ => Spin
      | S fuel =>
          let cmpres := cmpfn z x' in
          n <- (if cmpres <? 0 then left x else right x);
          itree_insert_descend fuel cmpfn z n x cmpres
      end
  end.

Definition itree_insert (fuel : nat) (cmpfn : positive -> positive -> Z)
    (z : positive) : itm unit :=
  set_right (Some z) None;;
  set_left (Some z) None;;
  x <- get_root;
  yc <- itree_insert_descend fuel cmpfn z x None 0;
  let '(y, cmpres) := yc in
  set_up (Some z) y;;
  (if isnull y then set_root (Some z)
   else if cmpres <? 0 then set_left y (Some z)
   else set_right y (Some z));;
  itree_insert_fix fuel (Some z).

(** ** Neighbours *)
Fixpoint itree_minimum (fuel : nat) (x : oc) : itm oc :=
  match fuel with
  | O => fun _ => Spin
  | S fuel =>
      y <- left x;
      if isnull y then ret x else itree_minimum fuel y
  end.

Fixpoint itree_maximum (fuel : nat) (x : oc) : itm oc :=
  match fuel with
  | O => fun _ => Spin
  | S fuel =>
      y <- right x;
      if isnull y then ret x else itree_maximum fuel y
  end.

(** The loop [for (y = up (x); y && x == right (y); y = up (y)) x = y]. *)
Fixpoint itree_successor_climb (fuel : nat) (x y : oc) : itm oc :=
  match y with
  | None => ret y
  | Some _ =>
      match fuel with
      | O => fun _ => Spin
      | S fuel =>
          r <- right y;
          if bool_decide (x = r)
          then (u <- up y; itree_successor_climb fuel y u)
          else ret y
      end
  end.

Definition itree_successor (fuel : nat) (x : oc) : itm oc :=
  y <- right x;
  if isnull y
  then (y <- up x; itree_successor_climb fuel x y)
  else itree_minimum fuel y.

Fixpoint itree_predecessor_climb (fuel : nat) (x y : oc) : itm oc :=
  match y with
  | None => ret y
  | Some _ =>
      match fuel with
      | O => fun _ => Spin
      | S fuel =>
          l <- left y;
          if bool_decide (x = l)
          then (u <- up y; itree_predecessor_climb fuel y u)
          else ret y
      end
  end.

Definition itree_predecessor (fuel : nat) (x : oc) : itm oc :=
  y <- left x;
  if isnull y
  then (y <- up x; itree_predecessor_climb fuel x y)
  else itree_maximum fuel y.

(** ** Deletion *)
Fixpoint itree_delete_fixup_loop (fuel : nat) (x p : oc) : itm oc :=
  r <- get_root;
  c <- color x;
  if negb (bool_decide (x = r)) && bool_decide (c = BLACK) then
    match fuel with
    | O => fun _ => Spin
    | S fuel =>
        p <- (if isnull x then ret p else up x);
        lp <- left p;
        if bool_decide (x = lp) then
          w <- right p;
          cw <- color w;
          w <- (if bool_decide (cw = RED)
                then (lcolor w BLACK;;
                      lcolor p RED;;
                      itree_left_rotate p;;
                      right p)
                else ret w);
          lw <- left w;
          clw <- color lw;
          rw <- right w;
          crw <- color rw;
          if bool_decide (clw = BLACK) && bool_decide (crw = BLACK) then
            lcolor w RED;;
            itree_delete_fixup_loop fuel p p
          else
            w <- (if bool_decide (crw = BLACK)
                  then (lcolor lw BLACK;;
                        lcolor w RED;;
                        itree_right_rotate w;;
                        right p)
                  else ret w);
            cp <- color p;
            lcolor w cp;;
            lcolor p BLACK;;
            rw <- right w;
            lcolor rw BLACK;;
            itree_left_rotate p;;
            x <- get_root;
            itree_delete_fixup_loop fuel x p
        else
          w <- left p;
          cw <- color w;
          w <- (if bool_decide (cw = RED)
                then (lcolor w BLACK;;
                      lcolor p RED;;
                      itree_right_rotate p;;
                      left p)
                else ret w);
          rw <- right w;
          crw <- color rw;
          lw <- left w;
          clw <- color lw;
          if bool_decide (crw = BLACK) && bool_decide (clw = BLACK) then
            lcolor w RED;;
            itree_delete_fixup_loop fuel p p
          else
            w <- (if bool_decide (clw = BLACK)
                  then (lcolor rw BLACK;;
                        lcolor w RED;;
                        itree_left_rotate w;;
                        left p)
                  else ret w);
            cp <- color p;
            lcolor w cp;;
            lcolor p BLACK;;
            lw <- left w;
            lcolor lw BLACK;;
            itree_right_rotate p;;
            x <- get_root;
            itree_delete_fixup_loop fuel x p
    end
  else ret x.

Definition itree_delete_fixup (fuel : nat) (x p : oc) : itm unit :=
  (if isnull x then ret tt
   else (ux <- up x; assert_it (bool_decide (ux = p))));;
  x <- itree_delete_fixup_loop fuel x p;
  if isnull x then ret tt else lcolor x BLACK.

(** Takes [y], which has at most one child [x], out of the tree: [x] takes
    its place below [p]. *)
Definition itree_delete_splice (y p : oc) : itm oc :=
  ly <- left y;
  x <- (if isnull ly then right y else ret ly);
  (if isnull x then ret tt else set_up x p);;
  (if isnull p then set_root x
   else (lp <- left p;
         if bool_decide (y = lp) then set_left p x else set_right p x));;
  ret x.

(** Puts [y] in the place of [z]: the body of [if (y != z)]. *)
Definition itree_delete_replace (z y : oc) : itm unit :=
  pz <- up z;
  (if isnull pz then set_root y
   else (lpz <- left pz;
         if bool_decide (z = lpz) then set_left pz y else set_right pz y));;
  lz <- left z;
  (if isnull lz then ret tt else set_up lz y);;
  rz <- right z;
  (if isnull rz then ret tt else set_up rz y);;
  ez <- oc2rb z;
  store y (fun _ => ez).

Definition itree_delete (fuel : nat) (z : oc) : itm unit :=
  lz <- left z;
  rz <- right z;
  y <- (if negb (isnull lz) && negb (isnull rz)
        then itree_successor fuel z else ret z);
  p <- up y;
  x <- itree_delete_splice y p;
  c <- color y;
  p <- (if bool_decide (y = z) then ret p
        else (itree_delete_replace z y;;
              ret (if bool_decide (p = z) then y else p)));
  if bool_decide (c = BLACK) then itree_delete_fixup fuel x p else ret tt.

(** ** The consistency check [__itree_check] *)
Fixpoint itree_check_node (fuel : nat) (cmpfn : positive -> positive -> Z)
    (x low high : oc) (bd lbd : Z) : itm unit :=
  match fuel with
  | O => fun _ => Spin
  | S fuel =>
      cx <- color x;
      let bd := if bool_decide (cx = BLACK) then bd + 1 else bd in
      match x with
      | None => assert_it (bd =? lbd)
      | Some x' =>
          p <- up x;
          _ <- color p;
          l <- left x;
          cl <- color l;
          r <- right x;
          cr <- color r;
          (if isnull l then ret tt
           else (ul <- up l; assert_it (bool_decide (ul = x))));;
          (if isnull r then ret tt
           else (ur <- up r; assert_it (bool_decide (ur = x))));;
          assert_it (bool_decide (cx = BLACK) || bool_decide (cx = RED));;
          assert_it (bool_decide (cx = BLACK)
                     || bool_decide (cl = BLACK) && bool_decide (cr = BLACK));;
          assert_it (match low with Some k => cmpfn k x' <=? 0 | None => true end);;
          assert_it (match high with Some k => cmpfn x' k <=? 0 | None => true end);;
          itree_check_node fuel cmpfn l low x bd lbd;;
          itree_check_node fuel cmpfn r x high bd lbd
      end
  end.

(** The number of black links down the leftmost path. *)
Fixpoint itree_check_depth (fuel : nat) (x : oc) (lbd : Z) : itm Z :=
  match x with
  | None => ret lbd
  | Some _ =>
      match fuel with
      | O => fun _ => Spin
      | S fuel =>
          x <- left x;
          c <- color x;
          itree_check_depth fuel x (if bool_decide (c = BLACK) then lbd + 1 else lbd)
      end
  end.

Definition __itree_check (fuel : nat) (cmpfn : positive -> positive -> Z) : itm unit :=
  r <- get_root;
  c <- color r;
  assert_it (bool_decide (c = BLACK));;
  lbd <- itree_check_depth fuel r 0;
  (if isnull r then ret tt
   else (u <- up r; assert_it (isnull u)));;
  itree_check_node fuel cmpfn r None None (-1) lbd.

(** ** The template [itree_core] of [itree.h] *)
Definition min_postorder_step (n : oc) : itm oc :=
  nn <- left n;
  if isnull nn then right n else ret nn.

Fixpoint min_postorder (fuel : nat) (n : oc) : itm oc :=
  match n with
  | None => ret n
  | Some _ =>
      match fuel with
      | O => fun _ => Spin
      | S fuel =>
          nn <- min_postorder_step n;
          if isnull nn then ret n else min_postorder fuel nn
      end
  end.

Definition next_postorder (fuel : nat) (n : oc) : itm oc :=
  nn <- up n;
  if isnull nn then ret nn
  else (nnr <- right nn;
        if isnull nnr || bool_decide (n = nnr)
        then ret nn else min_postorder fuel nnr).

(** [delete n]: the node leaves the heap, so that a later access is [Wild]. *)
Definition delete_node (n : oc) : itm unit := fun s =>
  match n with
  | Some x =>
      match hp s !! x with
      | Some _ => Done (tt, mkst (rb_root s) (delete x (hp s)))
      | None => Wild
      end
  | None => Done (tt, s)
  end.

Definition clear : itm unit := set_root None.

Fixpoint deleteall_loop (fuel : nat) (n : oc) : itm unit :=
  match n with
  | None => ret tt
  | Some _ =>
      match fuel with
      | O => fun _ => Spin
      | S fuel =>
          nn <- next_postorder fuel n;
          delete_node n;;
          deleteall_loop fuel nn
      end
  end.

Definition deleteall (fuel : nat) : itm unit :=
  r <- get_root;
  n <- min_postorder fuel r;
  deleteall_loop fuel n;;
  clear.

Fixpoint _deleteall_correct (fuel : nat) (n : oc) : itm unit :=
  match n with
  | None => ret tt
  | Some _ =>
      match fuel with
      | O => fun _ => Spin
      | S fuel =>
          l <- left n;
          _deleteall_correct fuel l;;
          r <- right n;
          _deleteall_correct fuel r;;
          delete_node n
      end
  end.

Definition deleteall_correct (fuel : nat) : itm unit :=
  r <- get_root;
  _deleteall_correct fuel r;;
  clear.

(** The loop [for (n = root (); n && (nn = left (n)); n = nn)]. *)
Definition first (fuel : nat) : itm oc :=
  n <- get_root;
  if isnull n then ret n else itree_minimum fuel n.

Definition next (fuel : nat) (n : oc) : itm oc := itree_successor fuel n.
Definition prev (fuel : nat) (n : oc) : itm oc := itree_predecessor fuel n.
Definition insert (fuel : nat) (cmpfn : positive -> positive -> Z) (n : positive)
    : itm unit := itree_insert fuel cmpfn n.
Definition remove (fuel : nat) (n : oc) : itm unit := itree_delete fuel n.

(** [search (cb)]: [cb n < 0] when the node sought sorts before [n]. *)
Fixpoint search_loop (fuel : nat) (cb : positive -> Z) (n res : oc) : itm oc :=
  match n with
  | None => ret res
  | Some n' =>
      match fuel with
      | O => fun _ => Spin
      | S fuel =>
          let srchres := cb n' in
          if srchres <? 0 then (nn <- left n; search_loop fuel cb nn res)
          else if 0 <? srchres then (nn <- right n; search_loop fuel cb nn res)
          else (nn <- left n; search_loop fuel cb nn n)
      end
  end.

Definition search (fuel : nat) (cb : positive -> Z) : itm oc :=
  n <- get_root;
  search_loop fuel cb n None.

(** [traverse (cb)], as the sequence of nodes [cb] is called with. *)
Fixpoint traverse_loop (fuel : nat) (n : oc) : itm (list positive) :=
  match n with
  | None => ret []
  | Some n' =>
      match fuel with
      | O => fun _ => Spin
      | S fuel =>
          nn <- next fuel n;
          l <- traverse_loop fuel nn;
          ret (n' :: l)
      end
  end.

Definition traverse (fuel : nat) : itm (list positive) :=
  n <- first fuel;
  traverse_loop fuel n.
