(* ===== verification/ItreeShape.v ===== *)
(** * Shape of red-black trees in the heap

    Inductive trees over node addresses, one-hole contexts (zippers) to put
    the focus on a node, and the predicate [rep] that says that a heap state
    holds a tree.  The primitive accesses and the two rotations of
    [itree.C] are specified against [rep]. *)
From Stdlib Require Import ZArith Lia.
From stdpp Require Import prelude gmap.
From S2P Require Import Prelude Itree.

Inductive tree :=
| Leaf
| Node (c : itree_color) (l : tree) (x : positive) (r : tree).

(** The nodes of a tree, in order. *)
Fixpoint nodes (t : tree) : list positive :=
  match t with
  | Leaf => []
  | Node _ l x r => nodes l ++ x :: nodes r
  end.

Definition root_of (t : tree) : oc :=
  match t with Leaf => None | Node _ _ x _ => Some x end.

Definition tcolor (t : tree) : itree_color :=
  match t with Leaf => BLACK | Node c _ _ _ => c end.

(** [FL c y s]: the hole is the left child of [y], whose color is [c] and
    whose right subtree is [s]; [FR c y s]: it is the right child. *)
Inductive frame :=
| FL (c : itree_color) (y : positive) (s : tree)
| FR (c : itree_color) (y : positive) (s : tree).

Definition fnode (f : frame) : positive := match f with FL _ y _ | FR _ y _ => y end.
Definition fcolor (f : frame) : itree_color := match f with FL c _ _ | FR c _ _ => c end.
Definition fsib (f : frame) : tree := match f with FL _ _ s | FR _ _ s => s end.
Definition fillf (f : frame) (t : tree) : tree :=
  match f with FL c y s => Node c t y s | FR c y s => Node c s y t end.

Fixpoint plug (k : list frame) (t : tree) : tree :=
  match k with [] => t | f :: k => plug k (fillf f t) end.

Definition pnode (k : list frame) : oc :=
  match k with [] => None | f :: _ => Some (fnode f) end.

(** Nodes of a context before and behind the hole. *)
Fixpoint lctx (k : list frame) : list positive :=
  match k with
  | [] => []
  | FL _ _ _ :: k => lctx k
  | FR _ y s :: k => lctx k ++ nodes s ++ [y]
  end.
Fixpoint rctx (k : list frame) : list positive :=
  match k with
  | [] => []
  | FL _ y s :: k => y :: nodes s ++ rctx k
  | FR _ _ _ :: k => rctx k
  end.

Lemma nodes_plug k t : nodes (plug k t) = lctx k ++ nodes t ++ rctx k.
Proof.
  revert t. induction k as [|[c y s|c y s] k IH]; intros t; cbn.
  - by rewrite app_nil_r.
  - rewrite IH. cbn. by rewrite <- !app_assoc.
  - rewrite IH. cbn. by rewrite <- !app_assoc.
Qed.

(** ** Trees and contexts in a heap *)
Fixpoint tree_at (h : gmap positive __itree_entry_private) (u : oc) (t : tree) : Prop :=
  match t with
  | Leaf => True
  | Node c l x r =>
      h !! x = Some (mkentry u (root_of l) (root_of r) c)
      /\ tree_at h (Some x) l /\ tree_at h (Some x) r
  end.

(** The entry of a context's innermost node when the hole is filled with
    a tree whose root is [ch]. *)
Definition fentry (f : frame) (k : list frame) (ch : oc) : __itree_entry_private :=
  match f with
  | FL c _ s => mkentry (pnode k) ch (root_of s) c
  | FR c _ s => mkentry (pnode k) (root_of s) ch c
  end.

Fixpoint ctx_at (h : gmap positive __itree_entry_private) (k : list frame) (ch : oc) : Prop :=
  match k with
  | [] => True
  | f :: k =>
      h !! fnode f = Some (fentry f k ch)
      /\ tree_at h (Some (fnode f)) (fsib f) /\ ctx_at h k (Some (fnode f))
  end.

Lemma tree_at_plug h k t :
  tree_at h None (plug k t) <-> ctx_at h k (root_of t) /\ tree_at h (pnode k) t.
Proof.
  revert t. induction k as [|[c y s|c y s] k IH]; intros t; cbn; [tauto| |];
    rewrite IH; cbn; tauto.
Qed.

Lemma tree_at_insert h x e u t :
  x ∉ nodes t -> tree_at (<[x := e]> h) u t <-> tree_at h u t.
Proof.
  revert u. induction t as [|c l IHl y r IHr]; intros u Hx; cbn in *; [done|].
  rewrite elem_of_app, elem_of_cons in Hx.
  rewrite lookup_insert_ne by (intros ->; tauto). rewrite IHl, IHr by tauto. done.
Qed.

Lemma tree_at_delete h x u t :
  x ∉ nodes t -> tree_at (delete x h) u t <-> tree_at h u t.
Proof.
  revert u. induction t as [|c l IHl y r IHr]; intros u Hx; cbn in *; [done|].
  rewrite elem_of_app, elem_of_cons in Hx.
  rewrite lookup_delete_ne by (intros ->; tauto). rewrite IHl, IHr by tauto. done.
Qed.

(** The nodes of a context. *)
Definition ctxnodes (k : list frame) : list positive := lctx k ++ rctx k.

Lemma elem_ctxnodes f k x :
  x ∈ ctxnodes (f :: k) <-> x = fnode f \/ x ∈ nodes (fsib f) \/ x ∈ ctxnodes k.
Proof. unfold ctxnodes. destruct f; cbn; set_solver. Qed.

Lemma ctx_at_insert h x e k ch :
  x ∉ ctxnodes k -> ctx_at (<[x := e]> h) k ch <-> ctx_at h k ch.
Proof.
  revert ch. induction k as [|f k IH]; intros ch Hx; cbn [ctx_at]; [done|].
  rewrite elem_ctxnodes in Hx.
  rewrite lookup_insert_ne by (intros ->; tauto).
  rewrite tree_at_insert by tauto. rewrite IH by tauto. done.
Qed.

Lemma NoDup_plug k t :
  NoDup (nodes (plug k t)) <->
  NoDup (nodes t) /\ NoDup (ctxnodes k) /\ (forall x, x ∈ nodes t -> x ∉ ctxnodes k).
Proof.
  rewrite nodes_plug. unfold ctxnodes. rewrite !NoDup_app. set_solver.
Qed.

Lemma ctxnodes_cons f k :
  ctxnodes (f :: k) ≡ₚ (fnode f :: nodes (fsib f)) ++ ctxnodes k.
Proof.
  unfold ctxnodes. destruct f as [c y s|c y s]; cbn [fnode fsib lctx rctx]; solve_Permutation.
Qed.

Lemma NoDup_ctx_cons f k :
  NoDup (ctxnodes (f :: k)) <->
  ((fnode f ∉ nodes (fsib f)) /\ NoDup (nodes (fsib f))) /\ NoDup (ctxnodes k)
  /\ (forall x, x = fnode f \/ x ∈ nodes (fsib f) -> x ∉ ctxnodes k).
Proof.
  rewrite ctxnodes_cons, NoDup_app, NoDup_cons.
  setoid_rewrite elem_of_cons. tauto.
Qed.

(** ** States that hold a tree *)
Definition rep (s : itstate) (t : tree) : Prop :=
  rb_root s = root_of t /\ tree_at (hp s) None t /\ NoDup (nodes t).

(** Going from [s] to [s'] turns [t] into [t'], keeps the nodes in order
    and touches no node outside of the tree. *)
Definition evolves (s : itstate) (t : tree) (s' : itstate) (t' : tree) : Prop :=
  rep s' t' /\ nodes t' = nodes t
  /\ forall x, x ∉ nodes t -> hp s' !! x = hp s !! x.

Lemma evolves_refl s t : rep s t -> evolves s t s t.
Proof. by split. Qed.

Lemma evolves_trans s t s1 t1 s2 t2 :
  evolves s t s1 t1 -> evolves s1 t1 s2 t2 -> evolves s t s2 t2.
Proof.
  intros (R1 & N1 & F1) (R2 & N2 & F2). split; [done|].
  split; [by rewrite N2|]. intros x Hx. rewrite F2 by (by rewrite N1). auto.
Qed.

(** ** Total correctness of a computation *)
Definition runs {A} (m : itm A) (s : itstate) (Q : A -> itstate -> Prop) : Prop :=
  exists a s', m s = Done (a, s') /\ Q a s'.

Lemma runs_bind {A B} (m : itm A) (k : A -> itm B) s Q :
  runs m s (fun a s' => runs (k a) s' Q) -> runs (mbind k m) s Q.
Proof.
  intros (a & s' & E & b & s'' & E' & HQ). exists b, s''. split; [|done].
  unfold mbind, itm_bind. by rewrite E.
Qed.

Lemma runs_ret {A} (a : A) s (Q : A -> itstate -> Prop) : Q a s -> runs (ret a) s Q.
Proof. intros H. by exists a, s. Qed.

Lemma runs_mono {A} (m : itm A) s (Q Q' : A -> itstate -> Prop) :
  runs m s Q -> (forall a s', Q a s' -> Q' a s') -> runs m s Q'.
Proof. intros (a & s' & E & HQ) H. exists a, s'. auto. Qed.

Lemma runs_get_root s (Q : oc -> itstate -> Prop) : Q (rb_root s) s -> runs get_root s Q.
Proof. intros H. by exists (rb_root s), s. Qed.

Lemma runs_set_root s p (Q : unit -> itstate -> Prop) :
  Q tt (mkst p (hp s)) -> runs (set_root p) s Q.
Proof. intros H. by exists tt, (mkst p (hp s)). Qed.

Lemma runs_assert b s (Q : unit -> itstate -> Prop) :
  b = true -> Q tt s -> runs (assert_it b) s Q.
Proof. intros -> H. by exists tt, s. Qed.

Lemma runs_oc2rb s x e (Q : _ -> itstate -> Prop) :
  hp s !! x = Some e -> Q e s -> runs (oc2rb (Some x)) s Q.
Proof. intros E H. exists e, s. cbn. by rewrite E. Qed.

Lemma runs_store s x e f (Q : unit -> itstate -> Prop) :
  hp s !! x = Some e -> Q tt (mkst (rb_root s) (<[x := f e]> (hp s))) ->
  runs (store (Some x) f) s Q.
Proof. intros E H. eexists _, _. cbn. rewrite E. by split. Qed.

Lemma runs_up s x e (Q : oc -> itstate -> Prop) :
  hp s !! x = Some e -> Q (rbe_up e) s -> runs (up (Some x)) s Q.
Proof. intros E H. apply runs_bind. eapply runs_oc2rb; [done|]. by apply runs_ret. Qed.

Lemma runs_left s x e (Q : oc -> itstate -> Prop) :
  hp s !! x = Some e -> Q (rbe_left e) s -> runs (left (Some x)) s Q.
Proof. intros E H. apply runs_bind. eapply runs_oc2rb; [done|]. by apply runs_ret. Qed.

Lemma runs_right s x e (Q : oc -> itstate -> Prop) :
  hp s !! x = Some e -> Q (rbe_right e) s -> runs (right (Some x)) s Q.
Proof. intros E H. apply runs_bind. eapply runs_oc2rb; [done|]. by apply runs_ret. Qed.

Lemma runs_color s x e (Q : itree_color -> itstate -> Prop) :
  hp s !! x = Some e -> Q (rbe_color e) s -> runs (color (Some x)) s Q.
Proof. intros E H. apply runs_bind. eapply runs_oc2rb; [done|]. by apply runs_ret. Qed.

Lemma runs_color_null s (Q : itree_color -> itstate -> Prop) :
  Q BLACK s -> runs (color None) s Q.
Proof. apply runs_ret. Qed.

(** One step of symbolic execution on an explicit heap. *)
Ltac it_lookup := cbn [hp rb_root]; simplify_map_eq; first [reflexivity | eassumption].
Ltac it_step :=
  match goal with
  | |- runs (mbind _ _) _ _ => apply runs_bind
  | |- runs (ret _) _ _ => apply runs_ret
  | |- runs (mret _) _ _ => apply runs_ret
  | |- runs get_root _ _ => apply runs_get_root
  | |- runs (set_root _) _ _ => apply runs_set_root
  | |- runs (up (Some _)) _ _ => eapply runs_up; [it_lookup|]
  | |- runs (left (Some _)) _ _ => eapply runs_left; [it_lookup|]
  | |- runs (right (Some _)) _ _ => eapply runs_right; [it_lookup|]
  | |- runs (color (Some _)) _ _ => eapply runs_color; [it_lookup|]
  | |- runs (color None) _ _ => apply runs_color_null
  | |- runs (oc2rb (Some _)) _ _ => eapply runs_oc2rb; [it_lookup|]
  | |- runs (set_up (Some _) _) _ _ => unfold set_up; eapply runs_store; [it_lookup|]
  | |- runs (set_left (Some _) _) _ _ => unfold set_left; eapply runs_store; [it_lookup|]
  | |- runs (set_right (Some _) _) _ _ => unfold set_right; eapply runs_store; [it_lookup|]
  | |- runs (lcolor (Some _) _) _ _ => unfold lcolor; eapply runs_store; [it_lookup|]
  | |- runs (store (Some _) _) _ _ => eapply runs_store; [it_lookup|]
  end; cbn [rbe_up rbe_left rbe_right rbe_color hp rb_root fentry].

(** ** Relinking the hole of a context

    The pattern [if (!up (x)) *r = y; else if (x == left (up (x)))
    left (up (x)) = y; else right (up (x)) = y]: after it the context has
    [y] in its hole. *)
Definition relink (h : gmap positive __itree_entry_private) (k : list frame) (ch : oc) :=
  match k with
  | [] => h
  | f :: k' => <[fnode f := fentry f k' ch]> h
  end.

Definition relink_root (k : list frame) (ch old : oc) : oc :=
  match k with [] => ch | _ => old end.

Lemma ctx_at_relink h k ch ch' :
  NoDup (ctxnodes k) -> ctx_at h k ch -> ctx_at (relink h k ch') k ch'.
Proof.
  destruct k as [|f k]; [done|]. rewrite NoDup_ctx_cons.
  intros ((Hf & _) & _ & Hd) (E & Hs & Hk). cbn.
  rewrite lookup_insert_eq, tree_at_insert, ctx_at_insert by eauto. done.
Qed.

Lemma tree_at_relink h k ch u t :
  (forall x, x ∈ nodes t -> x ∉ ctxnodes k) ->
  tree_at (relink h k ch) u t <-> tree_at h u t.
Proof.
  intros Hd. destruct k as [|f k]; [done|]. cbn. apply tree_at_insert.
  intros Hx. apply (Hd _ Hx), elem_ctxnodes. by left.
Qed.

Lemma relink_lookup h k ch x : x ∉ ctxnodes k -> relink h k ch !! x = h !! x.
Proof.
  intros Hx. destruct k as [|f k]; [done|]. cbn. apply lookup_insert_ne.
  intros <-. apply Hx, elem_ctxnodes. by left.
Qed.

Lemma root_of_plug k t :
  root_of (plug k t) = relink_root k (root_of t) (root_of (plug k Leaf)).
Proof.
  destruct k as [|f k]; [done|]. cbn. revert f t.
  induction k as [|g k IH]; intros f t; cbn; [by destruct f|].
  rewrite IH. symmetry. apply IH.
Qed.

Lemma root_of_plug_cons f k t t' :
  root_of (plug (f :: k) t) = root_of (plug (f :: k) t').
Proof. by rewrite (root_of_plug _ t), (root_of_plug _ t'). Qed.

Lemma root_of_elem t x : root_of t = Some x -> x ∈ nodes t.
Proof. destruct t; cbn; [done|]. intros [= ->]. set_solver. Qed.

Lemma sib_root_ne f k x : x ∉ ctxnodes (f :: k) -> Some x <> root_of (fsib f).
Proof.
  intros Hx Heq. apply Hx, elem_ctxnodes. right; left. by apply root_of_elem.
Qed.

Lemma runs_relink_l s k x y (Q : unit -> itstate -> Prop) :
  ctx_at (hp s) k (Some x) -> x ∉ ctxnodes k ->
  Q tt (mkst (relink_root k y (rb_root s)) (relink (hp s) k y)) ->
  runs (if isnull (pnode k) then set_root y
        else mbind (M := itm) (fun l =>
               if bool_decide (Some x = l) then set_left (pnode k) y
               else set_right (pnode k) y) (left (pnode k))) s Q.
Proof.
  intros Hk Hx HQ. destruct k as [|f k]; [by apply runs_set_root|].
  destruct Hk as (E & _ & _). pose proof (sib_root_ne f k x Hx) as Hne.
  cbn [pnode]. rewrite isnull_Some.
  it_step. it_step. destruct f as [c p sb|c p sb]; cbn in *.
  - rewrite bool_decide_true by done. it_step. exact HQ.
  - rewrite bool_decide_false by done. it_step. exact HQ.
Qed.

Lemma runs_relink_r s k x y (Q : unit -> itstate -> Prop) :
  ctx_at (hp s) k (Some x) -> x ∉ ctxnodes k ->
  Q tt (mkst (relink_root k y (rb_root s)) (relink (hp s) k y)) ->
  runs (if isnull (pnode k) then set_root y
        else mbind (M := itm) (fun r =>
               if bool_decide (Some x = r) then set_right (pnode k) y
               else set_left (pnode k) y) (right (pnode k))) s Q.
Proof.
  intros Hk Hx HQ. destruct k as [|f k]; [by apply runs_set_root|].
  destruct Hk as (E & _ & _). pose proof (sib_root_ne f k x Hx) as Hne.
  cbn [pnode]. rewrite isnull_Some.
  it_step. it_step. destruct f as [c p sb|c p sb]; cbn in *.
  - rewrite bool_decide_false by done. it_step. exact HQ.
  - rewrite bool_decide_true by done. it_step. exact HQ.
Qed.

(** Changing the [up] pointer of the root of a subtree. *)
Definition reparent (h : gmap positive __itree_entry_private) (t : tree) (u : oc) :=
  match t with
  | Leaf => h
  | Node c l x r => <[x := mkentry u (root_of l) (root_of r) c]> h
  end.

Lemma tree_at_reparent h t u u' :
  NoDup (nodes t) -> tree_at h u t -> tree_at (reparent h t u') u' t.
Proof.
  destruct t as [|c l x r]; [done|]. cbn. rewrite NoDup_app, NoDup_cons.
  intros (_ & Hd & Hx & _) (E & Hl & Hr).
  rewrite lookup_insert_eq, !tree_at_insert; [done|done|].
  intros Hx'. apply (Hd _ Hx'). set_solver.
Qed.

Lemma tree_at_reparent_other h t u v t' :
  (forall x, x ∈ nodes t -> x ∉ nodes t') ->
  tree_at (reparent h t u) v t' <-> tree_at h v t'.
Proof.
  intros Hd. destruct t as [|c l x r]; [done|]. cbn. apply tree_at_insert.
  apply Hd. cbn. set_solver.
Qed.

Lemma ctx_at_reparent h t u k ch :
  (forall x, x ∈ nodes t -> x ∉ ctxnodes k) ->
  ctx_at (reparent h t u) k ch <-> ctx_at h k ch.
Proof.
  intros Hd. destruct t as [|c l x r]; [done|]. cbn. apply ctx_at_insert.
  apply Hd. cbn. set_solver.
Qed.

Lemma reparent_lookup h t u x : x ∉ nodes t -> reparent h t u !! x = h !! x.
Proof.
  intros Hx. destruct t as [|c l y r]; [done|]. cbn. apply lookup_insert_ne.
  intros <-. apply Hx. cbn. set_solver.
Qed.

Lemma runs_reparent s t u u' (Q : unit -> itstate -> Prop) :
  tree_at (hp s) u t -> Q tt (mkst (rb_root s) (reparent (hp s) t u')) ->
  runs (if isnull (root_of t) then ret tt else set_up (root_of t) u') s Q.
Proof.
  intros Ht HQ. destruct t as [|c l x r]; cbn.
  - apply runs_ret. by destruct s.
  - rewrite isnull_Some. destruct Ht as (E & _ & _). it_step. exact HQ.
Qed.

(** ** Rotations *)
Definition disj (l k : list positive) : Prop := forall x, x ∈ l -> x ∉ k.

(** What the two rotations need to know about the five parts of the tree. *)
Record rot_sep (k : list frame) (a b d : tree) (x y : positive) : Prop := {
  rs_xy : x <> y;
  rs_xa : x ∉ nodes a; rs_xb : x ∉ nodes b; rs_xd : x ∉ nodes d; rs_xk : x ∉ ctxnodes k;
  rs_ya : y ∉ nodes a; rs_yb : y ∉ nodes b; rs_yd : y ∉ nodes d; rs_yk : y ∉ ctxnodes k;
  rs_ba : disj (nodes b) (nodes a); rs_bd : disj (nodes b) (nodes d);
  rs_ak : disj (nodes a) (ctxnodes k); rs_bk : disj (nodes b) (ctxnodes k);
  rs_dk : disj (nodes d) (ctxnodes k);
  rs_a : NoDup (nodes a); rs_b : NoDup (nodes b); rs_d : NoDup (nodes d);
  rs_k : NoDup (ctxnodes k)
}.

Lemma rot_sep_intro k a b d x y t :
  nodes t = nodes a ++ x :: nodes b ++ y :: nodes d ->
  NoDup (nodes (plug k t)) -> rot_sep k a b d x y.
Proof.
  intros Ht. rewrite NoDup_plug, Ht, NoDup_app, NoDup_cons, NoDup_app, NoDup_cons.
  intros ((Ha & Had & Hx & Hb & Hbd & Hy & Hd) & Hk & Hdk).
  assert (Had' : forall z, z ∈ nodes a ->
    ~ (z = x \/ z ∈ nodes b \/ z = y \/ z ∈ nodes d)).
  { intros z Hz Hz'. apply (Had _ Hz). rewrite elem_of_cons, elem_of_app, elem_of_cons. tauto. }
  assert (Hdk' : forall z, z ∈ nodes a \/ z = x \/ z ∈ nodes b \/ z = y \/ z ∈ nodes d ->
    z ∉ ctxnodes k).
  { intros z Hz. apply Hdk. rewrite elem_of_app, elem_of_cons, elem_of_app, elem_of_cons. tauto. }
  assert (Hbd' : forall z, z ∈ nodes b -> ~ (z = y \/ z ∈ nodes d)).
  { intros z Hz Hz'. apply (Hbd _ Hz). rewrite elem_of_cons. tauto. }
  rewrite elem_of_app, elem_of_cons in Hx. clear Had Hdk Hbd.
  split; try done; unfold disj; try (intros ->; tauto);
    intros; first [tauto | apply Hdk'; tauto | intros Hz; first
      [ destruct (Had' _ Hz); tauto | destruct (Hbd' _ Hz); tauto
      | eapply Hbd'; [eassumption|]; tauto ] ].
Qed.

(** A rotation ends in a heap where the entries of [x], [y], the root of
    the middle subtree and the hole of the context have been rewritten. *)
Definition rotated h k (b : tree) (bu : oc) x ex y ey (ch : oc) :=
  <[x := ex]> (<[y := ey]> (relink (reparent h b bu) k ch)).

Lemma rotated_frame h k b bu x ex y ey ch z :
  z <> x -> z <> y -> z ∉ nodes b -> z ∉ ctxnodes k ->
  rotated h k b bu x ex y ey ch !! z = h !! z.
Proof.
  intros. unfold rotated. rewrite !lookup_insert_ne by done.
  by rewrite relink_lookup, reparent_lookup.
Qed.

Lemma tree_at_rotated h k b bu x ex y ey ch u t :
  x ∉ nodes t -> y ∉ nodes t -> disj (nodes b) (nodes t) -> disj (nodes t) (ctxnodes k) ->
  tree_at (rotated h k b bu x ex y ey ch) u t <-> tree_at h u t.
Proof.
  intros. unfold rotated.
  by rewrite !tree_at_insert, tree_at_relink, tree_at_reparent_other.
Qed.

Lemma tree_at_rotated_mid h k a b d bu x ex y ey ch u :
  rot_sep k a b d x y -> tree_at h u b ->
  tree_at (rotated h k b bu x ex y ey ch) bu b.
Proof.
  intros []. intros. unfold rotated.
  rewrite !tree_at_insert, tree_at_relink by done. by eapply tree_at_reparent.
Qed.

Lemma ctx_at_rotated h k a b d bu x ex y ey ch old :
  rot_sep k a b d x y -> ctx_at h k old ->
  ctx_at (rotated h k b bu x ex y ey ch) k ch.
Proof.
  intros []. intros. unfold rotated. rewrite !ctx_at_insert by done.
  eapply ctx_at_relink; [done|]. by apply ctx_at_reparent.
Qed.

(** The state a rotation ends in holds the rotated tree. *)
Lemma rotated_evolves s k b bu x ex y ey t t' a d :
  rep s (plug k t) -> nodes t' = nodes t ->
  nodes t = nodes a ++ x :: nodes b ++ y :: nodes d ->
  (tree_at (rotated (hp s) k b bu x ex y ey (root_of t')) (pnode k) t') ->
  evolves s (plug k t)
    (mkst (relink_root k (root_of t') (rb_root s))
       (rotated (hp s) k b bu x ex y ey (root_of t')))
    (plug k t').
Proof.
  intros (Hr & Ht & Hnd) Hn Hn' Ht'.
  pose proof (rot_sep_intro k a b d x y t Hn' Hnd) as Hsep.
  apply tree_at_plug in Ht as [Hk _].
  split; [split; [|split]|split].
  - cbn. rewrite Hr, (root_of_plug k t), (root_of_plug k t'). by destruct k.
  - apply tree_at_plug. split; [|done]. by eapply ctx_at_rotated.
  - by rewrite nodes_plug, Hn, <- nodes_plug.
  - by rewrite !nodes_plug, Hn.
  - intros z Hz. rewrite nodes_plug, Hn' in Hz. cbn. apply rotated_frame;
      unfold ctxnodes; set_solver.
Qed.

Lemma relink_insert h k ch x e :
  x ∉ ctxnodes k -> relink (<[x := e]> h) k ch = <[x := e]> (relink h k ch).
Proof.
  intros Hx. destruct k as [|f k]; [done|]. cbn. apply insert_insert_ne.
  intros Heq. apply Hx, elem_ctxnodes. by left.
Qed.

Lemma reparent_insert h t u x e :
  x ∉ nodes t -> reparent (<[x := e]> h) t u = <[x := e]> (reparent h t u).
Proof.
  intros Hx. destruct t as [|c l y r]; [done|]. cbn. apply insert_insert_ne.
  intros Heq. apply Hx. cbn. set_solver.
Qed.

(** The heap the code ends in is [rotated]: the intermediate writes to
    [x] and [y] are shadowed by the last ones. *)
Lemma rotated_shadow h k b bu x ex ex' y ey ey' ch :
  x <> y -> x ∉ nodes b -> x ∉ ctxnodes k -> y ∉ ctxnodes k ->
  <[x := ex]> (<[y := ey]> (relink (<[y := ey']> (reparent (<[x := ex']> h) b bu)) k ch))
  = rotated h k b bu x ex y ey ch.
Proof.
  intros. unfold rotated. rewrite reparent_insert, !relink_insert by done.
  rewrite insert_insert_eq, (insert_insert_ne _ y x) by done.
  by rewrite insert_insert_eq.
Qed.

Lemma rotated_sym h k b bu x ex y ey ch :
  x <> y -> rotated h k b bu x ex y ey ch = rotated h k b bu y ey x ex ch.
Proof. intros. unfold rotated. by apply insert_insert_ne. Qed.

(** [if ((right (x) = left (y))) up (left (y)) = x], seen on the heap. *)
Lemma runs_reparent_reread s b (rdv : itm oc) u u' (Q : unit -> itstate -> Prop) :
  tree_at (hp s) u b ->
  (forall P, P (root_of b) s -> runs rdv s P) ->
  Q tt (mkst (rb_root s) (reparent (hp s) b u')) ->
  runs (if isnull (root_of b) then ret tt
        else mbind (M := itm) (fun v => set_up v u') rdv) s Q.
Proof.
  intros Hb Hrd HQ. pose proof (runs_reparent s b u u' Q Hb HQ) as H.
  destruct b as [|c l z r]; cbn [root_of] in *; [done|].
  rewrite isnull_Some in *. apply runs_bind, Hrd, H.
Qed.

Lemma left_rotate_spec s k c a x c' b y d (Q : unit -> itstate -> Prop) :
  rep s (plug k (Node c a x (Node c' b y d))) ->
  (forall s', evolves s (plug k (Node c a x (Node c' b y d)))
                s' (plug k (Node c' (Node c a x b) y d)) -> Q tt s') ->
  runs (itree_left_rotate (Some x)) s Q.
Proof.
  intros Hrep HQ. pose proof Hrep as (Hr & Ht & Hnd).
  pose proof (rot_sep_intro k a b d x y (Node c a x (Node c' b y d)) eq_refl Hnd) as Hsep.
  apply tree_at_plug in Ht as [Hk (Ex & Ha & Ey & Hb & Hd)]. cbn in Hk, Ex, Ey.
  pose proof Hsep as []. unfold itree_left_rotate.
  do 6 it_step. apply runs_bind.
  apply (runs_reparent_reread _ b _ (Some y)).
  { cbn. by apply tree_at_insert. }
  { intros P HP. it_step. exact HP. }
  cbn [hp rb_root].
  assert (E1 : forall e, reparent (<[x := e]> (hp s)) b (Some x) !! x = Some e)
    by (intros; rewrite reparent_lookup by done; apply lookup_insert_eq).
  assert (E2 : forall e, reparent (<[x := e]> (hp s)) b (Some x) !! y
      = Some (mkentry (Some x) (root_of b) (root_of d) c'))
    by (intros; rewrite reparent_lookup by done; by rewrite lookup_insert_ne).
  apply runs_bind. eapply runs_up; [apply E1|]. cbn [rbe_up].
  apply runs_bind. eapply runs_store; [apply E2|]. cbn.
  apply runs_bind. eapply runs_up; [cbn; rewrite lookup_insert_ne by done; apply E1|].
  cbn. apply runs_bind. eapply runs_relink_l; [|done|].
  { cbn. rewrite ctx_at_insert, ctx_at_reparent, ctx_at_insert by done. exact Hk. }
  cbn [hp rb_root]. apply runs_bind. unfold set_left, set_up.
  eapply runs_store; [cbn; rewrite relink_lookup by done; apply lookup_insert_eq|].
  eapply runs_store;
    [cbn; rewrite lookup_insert_ne, relink_lookup, lookup_insert_ne by done; apply E1|].
  cbn. rewrite rotated_shadow by done. apply HQ.
  apply (rotated_evolves s k b _ x _ y _ _ (Node c' (Node c a x b) y d) a d);
    [done | cbn; by rewrite <- app_assoc | done |].
  cbn. split; [unfold rotated; rewrite lookup_insert_ne, lookup_insert_eq by done; done|].
  split; [split; [apply lookup_insert_eq|]|].
  - split; [by apply tree_at_rotated | by eapply tree_at_rotated_mid].
  - by apply tree_at_rotated.
Qed.

Lemma right_rotate_spec s k c a x c' b y d (Q : unit -> itstate -> Prop) :
  rep s (plug k (Node c' (Node c a x b) y d)) ->
  (forall s', evolves s (plug k (Node c' (Node c a x b) y d))
                s' (plug k (Node c a x (Node c' b y d))) -> Q tt s') ->
  runs (itree_right_rotate (Some y)) s Q.
Proof.
  intros Hrep HQ. pose proof Hrep as (Hr & Ht & Hnd).
  pose proof (rot_sep_intro k a b d x y (Node c' (Node c a x b) y d)
    ltac:(cbn; by rewrite <- app_assoc) Hnd) as Hsep.
  apply tree_at_plug in Ht as [Hk (Ey & (Ex & Ha & Hb) & Hd)]. cbn in Hk, Ex, Ey.
  pose proof Hsep as []. unfold itree_right_rotate.
  do 6 it_step. apply runs_bind.
  apply (runs_reparent_reread _ b _ (Some x)).
  { cbn. by apply tree_at_insert. }
  { intros P HP. it_step. exact HP. }
  cbn [hp rb_root].
  assert (E1 : forall e, reparent (<[y := e]> (hp s)) b (Some y) !! y = Some e)
    by (intros; rewrite reparent_lookup by done; apply lookup_insert_eq).
  assert (E2 : forall e, reparent (<[y := e]> (hp s)) b (Some y) !! x
      = Some (mkentry (Some y) (root_of a) (root_of b) c))
    by (intros; rewrite reparent_lookup by done; by rewrite lookup_insert_ne).
  apply runs_bind. eapply runs_up; [apply E1|]. cbn [rbe_up].
  apply runs_bind. eapply runs_store; [apply E2|]. cbn.
  apply runs_bind. eapply runs_up; [cbn; rewrite lookup_insert_ne by done; apply E1|].
  cbn. apply runs_bind. eapply runs_relink_r; [|done|].
  { cbn. rewrite ctx_at_insert, ctx_at_reparent, ctx_at_insert by done. exact Hk. }
  cbn [hp rb_root]. apply runs_bind. unfold set_right, set_up.
  eapply runs_store; [cbn; rewrite relink_lookup by done; apply lookup_insert_eq|].
  eapply runs_store;
    [cbn; rewrite lookup_insert_ne, relink_lookup, lookup_insert_ne by done; apply E1|].
  cbn. rewrite rotated_shadow, rotated_sym by done. apply HQ.
  apply (rotated_evolves s k b _ x _ y _ _ (Node c a x (Node c' b y d)) a d);
    [done | cbn; by rewrite <- app_assoc | cbn; by rewrite <- app_assoc |].
  cbn. split; [apply lookup_insert_eq|].
  split; [by apply tree_at_rotated|].
  split; [unfold rotated; rewrite lookup_insert_ne, lookup_insert_eq by done; done|].
  split; [by eapply tree_at_rotated_mid | by apply tree_at_rotated].
Qed.

(** ** Accesses through [rep] *)
Lemma rep_lookup s k c l x r :
  rep s (plug k (Node c l x r)) ->
  hp s !! x = Some (mkentry (pnode k) (root_of l) (root_of r) c).
Proof. intros (_ & Ht & _). apply tree_at_plug in Ht as [_ [E _]]. exact E. Qed.

Lemma up_at k c l x r s (Q : oc -> itstate -> Prop) :
  rep s (plug k (Node c l x r)) -> Q (pnode k) s -> runs (up (Some x)) s Q.
Proof. intros H HQ. eapply runs_up; [by eapply rep_lookup|]. exact HQ. Qed.

Lemma left_at k c l x r s (Q : oc -> itstate -> Prop) :
  rep s (plug k (Node c l x r)) -> Q (root_of l) s -> runs (left (Some x)) s Q.
Proof. intros H HQ. eapply runs_left; [by eapply rep_lookup|]. exact HQ. Qed.

Lemma right_at k c l x r s (Q : oc -> itstate -> Prop) :
  rep s (plug k (Node c l x r)) -> Q (root_of r) s -> runs (right (Some x)) s Q.
Proof. intros H HQ. eapply runs_right; [by eapply rep_lookup|]. exact HQ. Qed.

Lemma color_at k t s (Q : itree_color -> itstate -> Prop) :
  rep s (plug k t) -> Q (tcolor t) s -> runs (color (root_of t)) s Q.
Proof.
  intros H HQ. destruct t as [|c l x r]; cbn; [by apply runs_ret|].
  apply runs_bind. eapply runs_oc2rb; [by eapply rep_lookup|]. by apply runs_ret.
Qed.

Lemma lcolor_at c' k c l x r s (Q : unit -> itstate -> Prop) :
  rep s (plug k (Node c l x r)) ->
  (forall s', evolves s (plug k (Node c l x r)) s' (plug k (Node c' l x r)) -> Q tt s') ->
  runs (lcolor (Some x) c') s Q.
Proof.
  intros Hrep HQ. pose proof (rep_lookup _ _ _ _ _ _ Hrep) as E.
  destruct Hrep as (Hr & Ht & Hnd). unfold lcolor. eapply runs_store; [exact E|].
  apply HQ. pose proof Hnd as Hnd'. rewrite NoDup_plug in Hnd'. cbn in Hnd'.
  rewrite NoDup_app, NoDup_cons in Hnd'. destruct Hnd' as ((_ & Hl & Hx & _) & _ & Hk).
  assert (x ∉ nodes l) by (intros ?; by eapply Hl; [|left]).
  assert (x ∉ ctxnodes k) by (apply Hk; set_solver).
  apply tree_at_plug in Ht as (Hc & _ & Hl' & Hr').
  split; [split; [|split]|split]; cbn [rb_root hp].
  - rewrite Hr, (root_of_plug k (Node c l x r)), (root_of_plug k (Node c' l x r)). done.
  - apply tree_at_plug. rewrite ctx_at_insert by done. split; [done|].
    cbn. rewrite lookup_insert_eq, !tree_at_insert by done. done.
  - by rewrite nodes_plug in Hnd |- *.
  - by rewrite !nodes_plug.
  - intros z Hz. rewrite nodes_plug in Hz. apply lookup_insert_ne.
    intros ->. apply Hz. cbn. set_solver.
Qed.

(** The node in the hole differs from the sibling. *)
Lemma rep_sib_ne s f k t x :
  rep s (plug (f :: k) t) -> root_of t = Some x -> Some x <> root_of (fsib f).
Proof.
  intros (_ & _ & Hnd) Hx. apply NoDup_plug in Hnd as (_ & _ & Hd).
  apply sib_root_ne with (k := k). apply Hd. by apply root_of_elem.
Qed.

(** Root color and the end of a loop. *)
Lemma rep_root s t : rep s t -> rb_root s = root_of t.
Proof. by intros (? & _). Qed.
