(* ===== verification/ItreeInsert.v ===== *)
(** * Red-black insertion

    The red-black invariant on trees and on contexts, and the proof that
    [itree_insert_fix] re-establishes it on the heap within a number of
    turns bounded by the depth of the new node. *)
From Stdlib Require Import ZArith Lia.
From stdpp Require Import prelude gmap sorting.
From S2P Require Import Prelude Itree ItreeShape.

(** [is_rb t n]: every path from the root of [t] to a leaf has [n] black
    nodes, and no red node has a red child. *)
Fixpoint is_rb (t : tree) (n : nat) : Prop :=
  match t with
  | Leaf => n = 0%nat
  | Node BLACK l _ r =>
      match n with O => False | S m => is_rb l m /\ is_rb r m end
  | Node RED l _ r =>
      tcolor l = BLACK /\ tcolor r = BLACK /\ is_rb l n /\ is_rb r n
  | Node INVALID _ _ _ => False
  end.

Definition rbtree (t : tree) : Prop := tcolor t = BLACK /\ exists n, is_rb t n.

(** The color of the parent of the hole; the missing parent of the root
    counts as red, which makes a root that is red unacceptable. *)
Definition pcolor (k : list frame) : itree_color :=
  match k with [] => RED | f :: _ => fcolor f end.

(** [ctx_ok k n]: a tree of black height [n] can be put in the hole. *)
Fixpoint ctx_ok (k : list frame) (n : nat) : Prop :=
  match k with
  | [] => True
  | f :: k' =>
      is_rb (fsib f) n /\
      match fcolor f with
      | BLACK => ctx_ok k' (S n)
      | RED => tcolor (fsib f) = BLACK /\ pcolor k' = BLACK /\ ctx_ok k' n
      | INVALID => False
      end
  end.

Lemma is_rb_color t n : is_rb t n -> tcolor t = BLACK \/ tcolor t = RED.
Proof. destruct t as [|[] l x r]; cbn; auto; done. Qed.

(** A tree that fits its context makes a red-black tree with it, and every
    subtree of a red-black tree fits its context. *)
Lemma plug_rb k t :
  rbtree (plug k t) <->
  exists n, ctx_ok k n /\ is_rb t n /\ (tcolor t = BLACK \/ pcolor k = BLACK).
Proof.
  revert t. induction k as [|f k IH]; intros t; cbn [plug].
  - unfold rbtree. cbn. naive_solver.
  - rewrite IH. split.
    + intros (n & Hk & Ht & Hc). destruct f as [c y sb|c y sb]; cbn in *;
        destruct c; try done; [destruct n; [done|]; exists n | exists n
          | destruct n; [done|]; exists n | exists n]; naive_solver.
    + intros (n & (Hs & Hk) & Ht & Hc).
      destruct f as [c y sb|c y sb]; cbn in *; destruct c; try done;
        [exists (S n) | exists n | exists (S n) | exists n]; cbn; naive_solver.
Qed.

Definition blacken (t : tree) : tree :=
  match t with Leaf => Leaf | Node _ l x r => Node BLACK l x r end.

Lemma blacken_black t : tcolor t = BLACK -> blacken t = t.
Proof. destruct t; cbn; [done|]. by intros ->. Qed.

(** The state the repair loop ends in: the same nodes in a tree that is
    red-black once its root is black. *)
Definition fixed (s : itstate) (t : tree) (s' : itstate) : Prop :=
  exists t', evolves s t s' t' /\ t' <> Leaf /\ rbtree (blacken t').

Lemma fixed_step s t s1 t1 s' :
  evolves s t s1 t1 -> fixed s1 t1 s' -> fixed s t s'.
Proof.
  intros H (t' & H' & ?). exists t'. split; [by eapply evolves_trans|done].
Qed.

(** ** The repair loop *)
Ltac ev H := let R := fresh "R" in pose proof (proj1 H) as R.

Lemma insert_fix_done fuel k l x r n s :
  rep s (plug k (Node RED l x r)) -> ctx_ok k n -> is_rb (Node RED l x r) n ->
  pnode k = None \/ pcolor k = BLACK ->
  runs (itree_insert_fix_loop (S fuel) (Some x)) s
    (fun _ s' => fixed s (plug k (Node RED l x r)) s').
Proof.
  intros Hrep Hk Ht Hc. cbn [itree_insert_fix_loop].
  apply runs_bind. eapply (up_at k); [exact Hrep|].
  assert (Hend : fixed s (plug k (Node RED l x r)) s).
  { eexists. split; [by apply evolves_refl|]. destruct k as [|f k].
    - split; [done|]. split; [done|]. exists (S n). cbn in *. tauto.
    - destruct Hc as [?|Hc]; [done|].
      assert (Hrb : rbtree (plug (f :: k) (Node RED l x r))).
      { apply plug_rb. exists n. auto. }
      rewrite blacken_black by apply Hrb. split; [|done].
      intros Heq. pose proof (nodes_plug (f :: k) (Node RED l x r)) as Hn.
      rewrite Heq in Hn. cbn in Hn. symmetry in Hn.
      apply app_eq_nil in Hn as [_ Hn]. apply app_eq_nil in Hn as [Hn _].
      by destruct (nodes l). }
  apply runs_bind. destruct k as [|f k]; cbn [pnode].
  - apply runs_color_null. by apply runs_ret.
  - destruct Hc as [?|Hc]; [done|].
    destruct f as [c y sb|c y sb]; cbn in Hc; subst c.
    + apply (color_at k (Node BLACK (Node RED l x r) y sb)); [exact Hrep|].
      by apply runs_ret.
    + apply (color_at k (Node BLACK sb y (Node RED l x r))); [exact Hrep|].
      by apply runs_ret.
Qed.

(** The loop, on the left side of the grandparent; [IH] is the loop on a
    shorter context. *)
Section step.
Context (fuel : nat) (k : list frame).
Context (IH : forall s k' l x r n,
  (length k' < fuel)%nat -> rep s (plug k' (Node RED l x r)) -> ctx_ok k' n ->
  is_rb (Node RED l x r) n ->
  runs (itree_insert_fix_loop fuel (Some x)) s
    (fun _ s' => fixed s (plug k' (Node RED l x r)) s')).

Lemma insert_fix_left f gp u l x r n s :
  (S (length k) < fuel)%nat -> fcolor f = RED ->
  rep s (plug (f :: FL BLACK gp u :: k) (Node RED l x r)) ->
  ctx_ok (f :: FL BLACK gp u :: k) n -> is_rb (Node RED l x r) n ->
  runs (itree_insert_fix_loop (S fuel) (Some x)) s
    (fun _ s' => fixed s (plug (f :: FL BLACK gp u :: k) (Node RED l x r)) s').
Proof using IH.
  intros Hf Hred Hrep Hk Ht. cbn [itree_insert_fix_loop].
  assert (Hp : exists pl pr, fillf f (Node RED l x r) = Node RED pl (fnode f) pr)
    by (destruct f; cbn in *; subst; eauto).
  destruct Hp as (pl & pr & Hp).
  assert (Hrep' : rep s (plug (FL BLACK gp u :: k) (Node RED pl (fnode f) pr)))
    by (rewrite <- Hp; exact Hrep).
  apply runs_bind. eapply (up_at (f :: FL BLACK gp u :: k)); [exact Hrep|].
  cbn [pnode]. apply runs_bind.
  apply (color_at (FL BLACK gp u :: k) (Node RED pl (fnode f) pr)); [exact Hrep'|].
  cbn [tcolor]. rewrite bool_decide_true by done.
  apply runs_bind. eapply (up_at (FL BLACK gp u :: k)); [exact Hrep'|]. cbn [pnode fnode].
  apply runs_bind. eapply (left_at k); [exact Hrep'|]. cbn [root_of].
  rewrite bool_decide_true by done.
  apply runs_bind. eapply (right_at k); [exact Hrep'|].
  apply runs_bind.
  apply (color_at (FR BLACK gp (Node RED pl (fnode f) pr) :: k) u); [exact Hrep'|].
  destruct Hk as (Hsib & Hk). rewrite Hred in Hk.
  destruct Hk as (Hsc & _ & Hu & Hk). cbn in Hu.
  case_bool_decide as Hcu.
  - (* red uncle: recolor and go on at the grandparent *)
    destruct u as [|cu ul uy ur]; [done|]. cbn in Hcu. subst cu. cbn [root_of].
    apply runs_bind. apply (lcolor_at BLACK (FL BLACK gp (Node RED ul uy ur) :: k) _ _ _ _ _ _ Hrep').
    intros s1 E1. ev E1.
    apply runs_bind.
    apply (lcolor_at BLACK (FR BLACK gp (Node BLACK pl (fnode f) pr) :: k) _ _ _ _ _ _ R).
    intros s2 E2. ev E2.
    apply runs_bind. apply (lcolor_at RED k _ _ _ _ _ _ R0). intros s3 E3. ev E3.
    eapply runs_mono; [eapply (IH s3 k _ _ _ (S n)); [lia | exact R1 | exact Hk |]|].
    { assert (is_rb pl n /\ is_rb pr n)
        by (destruct f; cbn [fillf fsib] in *; by simplify_eq).
      cbn in Hu |- *. tauto. }
    intros ? s' Hfix. eapply fixed_step; [|eapply fixed_step; [|eapply fixed_step; [exact E3|exact Hfix]]];
      [|exact E2]. cbn [plug]. rewrite Hp. exact E1.
  - (* black uncle: one or two rotations *)
    assert (Hu' : tcolor u = BLACK) by (destruct (is_rb_color u n Hu); congruence).
    apply runs_bind. eapply (right_at (FL BLACK gp u :: k)); [exact Hrep'|].
    destruct f as [cf p sb|cf p sb]; cbn in Hred; subst cf; cbn [fillf fnode fsib] in *;
      injection Hp as <- <-.
    + (* the node is a left child *)
      rewrite bool_decide_false
        by (apply (rep_sib_ne s (FL RED p sb) (FL BLACK gp u :: k) (Node RED l x r)); done).
      apply runs_bind. apply runs_ret.
      apply runs_bind. eapply (up_at (FL RED p sb :: FL BLACK gp u :: k)); [exact Hrep|].
      cbn [pnode fnode]. apply runs_bind.
      apply (lcolor_at BLACK (FL BLACK gp u :: k) _ _ _ _ _ _ Hrep').
      intros s1 E1. ev E1. apply runs_bind.
      eapply (up_at (FL BLACK gp u :: k)); [exact R|]. cbn [pnode fnode].
      apply runs_bind. apply (lcolor_at RED k _ _ _ _ _ _ R). intros s2 E2. ev E2.
      apply runs_bind. eapply (right_rotate_spec s2 k); [exact R0|]. intros s3 E3. ev E3.
      eapply runs_mono.
      { eapply (IH s3 (FL BLACK p (Node RED sb gp u) :: k) l x r n); [cbn; lia | exact R1 | | done].
        cbn. cbn in Hk. tauto. }
      intros ? s' Hfix. eapply fixed_step; [exact E1|].
      eapply fixed_step; [exact E2|]. eapply fixed_step; [exact E3|]. exact Hfix.
    + (* the node is a right child *)
      cbn [root_of]. rewrite bool_decide_true by done.
      apply runs_bind. apply runs_bind.
      eapply (left_rotate_spec s (FL BLACK gp u :: k)); [exact Hrep'|]. intros s0 E0. ev E0.
      apply runs_ret.
      apply runs_bind.
      eapply (up_at (FL RED x r :: FL BLACK gp u :: k)); [exact R|]. cbn [pnode fnode].
      apply runs_bind. apply (lcolor_at BLACK (FL BLACK gp u :: k) _ _ _ _ _ _ R).
      intros s1 E1. ev E1. apply runs_bind.
      eapply (up_at (FL BLACK gp u :: k)); [exact R0|]. cbn [pnode fnode].
      apply runs_bind. apply (lcolor_at RED k _ _ _ _ _ _ R0). intros s2 E2. ev E2.
      apply runs_bind. eapply (right_rotate_spec s2 k); [exact R1|]. intros s3 E3. ev E3.
      cbn in Ht.
      eapply runs_mono.
      { eapply (IH s3 (FL BLACK x (Node RED r gp u) :: k) sb p l n); [cbn; lia | exact R2 | |].
        - cbn. cbn in Hk. tauto.
        - cbn. tauto. }
      intros ? s' Hfix. eapply fixed_step; [exact E0|]. eapply fixed_step; [exact E1|].
      eapply fixed_step; [exact E2|]. eapply fixed_step; [exact E3|]. exact Hfix.
Qed.
Lemma insert_fix_right f gp u l x r n s :
  (S (length k) < fuel)%nat -> fcolor f = RED ->
  rep s (plug (f :: FR BLACK gp u :: k) (Node RED l x r)) ->
  ctx_ok (f :: FR BLACK gp u :: k) n -> is_rb (Node RED l x r) n ->
  runs (itree_insert_fix_loop (S fuel) (Some x)) s
    (fun _ s' => fixed s (plug (f :: FR BLACK gp u :: k) (Node RED l x r)) s').
Proof using IH.
  intros Hf Hred Hrep Hk Ht. cbn [itree_insert_fix_loop].
  assert (Hp : exists pl pr, fillf f (Node RED l x r) = Node RED pl (fnode f) pr)
    by (destruct f; cbn in *; subst; eauto).
  destruct Hp as (pl & pr & Hp).
  assert (Hrep' : rep s (plug (FR BLACK gp u :: k) (Node RED pl (fnode f) pr)))
    by (rewrite <- Hp; exact Hrep).
  apply runs_bind. eapply (up_at (f :: FR BLACK gp u :: k)); [exact Hrep|].
  cbn [pnode]. apply runs_bind.
  apply (color_at (FR BLACK gp u :: k) (Node RED pl (fnode f) pr)); [exact Hrep'|].
  cbn [tcolor]. rewrite bool_decide_true by done.
  apply runs_bind. eapply (up_at (FR BLACK gp u :: k)); [exact Hrep'|]. cbn [pnode fnode].
  apply runs_bind. eapply (left_at k); [exact Hrep'|]. rewrite bool_decide_false
    by (apply (rep_sib_ne s (FR BLACK gp u) k (Node RED pl (fnode f) pr)); done).
  apply runs_bind. eapply (left_at k); [exact Hrep'|].
  apply runs_bind.
  apply (color_at (FL BLACK gp (Node RED pl (fnode f) pr) :: k) u); [exact Hrep'|].
  destruct Hk as (Hsib & Hk). rewrite Hred in Hk.
  destruct Hk as (Hsc & _ & Hu & Hk). cbn in Hu.
  case_bool_decide as Hcu.
  - (* red uncle: recolor and go on at the grandparent *)
    destruct u as [|cu ul uy ur]; [done|]. cbn in Hcu. subst cu. cbn [root_of].
    apply runs_bind. apply (lcolor_at BLACK (FR BLACK gp (Node RED ul uy ur) :: k) _ _ _ _ _ _ Hrep').
    intros s1 E1. ev E1.
    apply runs_bind.
    apply (lcolor_at BLACK (FL BLACK gp (Node BLACK pl (fnode f) pr) :: k) _ _ _ _ _ _ R).
    intros s2 E2. ev E2.
    apply runs_bind. apply (lcolor_at RED k _ _ _ _ _ _ R0). intros s3 E3. ev E3.
    eapply runs_mono; [eapply (IH s3 k _ _ _ (S n)); [lia | exact R1 | exact Hk |]|].
    { assert (is_rb pl n /\ is_rb pr n)
        by (destruct f; cbn [fillf fsib] in *; by simplify_eq).
      cbn in Hu |- *. tauto. }
    intros ? s' Hfix. eapply fixed_step; [|eapply fixed_step; [|eapply fixed_step; [exact E3|exact Hfix]]];
      [|exact E2]. cbn [plug]. rewrite Hp. exact E1.
  - (* black uncle: one or two rotations *)
    assert (Hu' : tcolor u = BLACK) by (destruct (is_rb_color u n Hu); congruence).
    apply runs_bind. eapply (left_at (FR BLACK gp u :: k)); [exact Hrep'|].
    destruct f as [cf p sb|cf p sb]; cbn in Hred; subst cf; cbn [fillf fnode fsib] in *;
      injection Hp as <- <-.
    all: swap 1 2.
    + (* the node is a right child *)
      rewrite bool_decide_false
        by (apply (rep_sib_ne s (FR RED p sb) (FR BLACK gp u :: k) (Node RED l x r)); done).
      apply runs_bind. apply runs_ret.
      apply runs_bind. eapply (up_at (FR RED p sb :: FR BLACK gp u :: k)); [exact Hrep|].
      cbn [pnode fnode]. apply runs_bind.
      apply (lcolor_at BLACK (FR BLACK gp u :: k) _ _ _ _ _ _ Hrep').
      intros s1 E1. ev E1. apply runs_bind.
      eapply (up_at (FR BLACK gp u :: k)); [exact R|]. cbn [pnode fnode].
      apply runs_bind. apply (lcolor_at RED k _ _ _ _ _ _ R). intros s2 E2. ev E2.
      apply runs_bind. eapply (left_rotate_spec s2 k); [exact R0|]. intros s3 E3. ev E3.
      eapply runs_mono.
      { eapply (IH s3 (FR BLACK p (Node RED u gp sb) :: k) l x r n); [cbn; lia | exact R1 | | done].
        cbn. cbn in Hk. tauto. }
      intros ? s' Hfix. eapply fixed_step; [exact E1|].
      eapply fixed_step; [exact E2|]. eapply fixed_step; [exact E3|]. exact Hfix.
    + (* the node is a left child *)
      cbn [root_of]. rewrite bool_decide_true by done.
      apply runs_bind. apply runs_bind.
      eapply (right_rotate_spec s (FR BLACK gp u :: k)); [exact Hrep'|]. intros s0 E0. ev E0.
      apply runs_ret.
      apply runs_bind.
      eapply (up_at (FR RED x l :: FR BLACK gp u :: k)); [exact R|]. cbn [pnode fnode].
      apply runs_bind. apply (lcolor_at BLACK (FR BLACK gp u :: k) _ _ _ _ _ _ R).
      intros s1 E1. ev E1. apply runs_bind.
      eapply (up_at (FR BLACK gp u :: k)); [exact R0|]. cbn [pnode fnode].
      apply runs_bind. apply (lcolor_at RED k _ _ _ _ _ _ R0). intros s2 E2. ev E2.
      apply runs_bind. eapply (left_rotate_spec s2 k); [exact R1|]. intros s3 E3. ev E3.
      cbn in Ht.
      eapply runs_mono.
      { eapply (IH s3 (FR BLACK x (Node RED u gp l) :: k) r p sb n); [cbn; lia | exact R2 | |].
        - cbn. cbn in Hk. tauto.
        - cbn. tauto. }
      intros ? s' Hfix. eapply fixed_step; [exact E0|]. eapply fixed_step; [exact E1|].
      eapply fixed_step; [exact E2|]. eapply fixed_step; [exact E3|]. exact Hfix.
Qed.
End step.

Lemma insert_fix_loop_spec fuel s k l x r n :
  (length k < fuel)%nat -> rep s (plug k (Node RED l x r)) -> ctx_ok k n ->
  is_rb (Node RED l x r) n ->
  runs (itree_insert_fix_loop fuel (Some x)) s
    (fun _ s' => fixed s (plug k (Node RED l x r)) s').
Proof.
  revert s k l x r n. induction fuel as [|fuel IH]; intros s k l x r n Hf Hrep Hk Ht; [lia|].
  destruct k as [|f k]; [by eapply insert_fix_done; eauto|].
  destruct (fcolor f) eqn:Hc; cbn in Hk; rewrite Hc in Hk; [tauto| |].
  - eapply insert_fix_done; eauto; cbn; rewrite Hc; auto.
  - destruct k as [|g k]; [by destruct Hk as (_ & _ & ? & _)|].
    destruct Hk as (Hs & Hsc & Hg & Hgs & Hk). cbn in Hg. cbn [length] in Hf.
    destruct g as [cg gp u|cg gp u]; cbn in Hg; subst cg.
    + eapply insert_fix_left; eauto; [lia|]. cbn. by rewrite Hc.
    + eapply insert_fix_right; eauto; [lia|]. cbn. by rewrite Hc.
Qed.

Lemma rep_blacken s t :
  rep s t -> t <> Leaf ->
  runs (mbind (M := itm) (fun r => lcolor r BLACK) get_root) s
    (fun _ s' => evolves s t s' (blacken t)).
Proof.
  intros Hrep Hne. destruct t as [|c l x r]; [done|].
  apply runs_bind. apply runs_get_root. rewrite (rep_root _ _ Hrep). cbn [root_of].
  apply (lcolor_at BLACK []) with (c := c) (l := l) (r := r); [exact Hrep|]. done.
Qed.

(** [itree_insert_fix] on a tree with a new leaf node in place. *)
Lemma insert_fix_spec fuel s k c z n :
  (length k < fuel)%nat -> rep s (plug k (Node c Leaf z Leaf)) ->
  ctx_ok k n -> n = 0%nat ->
  runs (itree_insert_fix fuel (Some z)) s (fun _ s' =>
    exists t', evolves s (plug k (Node c Leaf z Leaf)) s' t' /\ rbtree t').
Proof.
  intros Hf Hrep Hk ->. unfold itree_insert_fix.
  apply runs_bind. apply (lcolor_at RED k _ _ _ _ _ _ Hrep). intros s1 E1. ev E1.
  apply runs_bind. eapply runs_mono; [eapply insert_fix_loop_spec; eauto; done|].
  intros ? s2 (t2 & E2 & Hne & Hrb). ev E2.
  eapply runs_mono; [by apply rep_blacken|]. intros ? s3 E3. exists (blacken t2).
  split; [|done]. by eapply evolves_trans, evolves_trans.
Qed.

(** ** The descent *)
Definition path_ok (cmpfn : positive -> positive -> Z) (z : positive) (k : list frame) : Prop :=
  Forall (fun f => match f with
                   | FL _ y _ => cmpfn z y < 0
                   | FR _ y _ => 0 <= cmpfn z y
                   end) k.

(** The last comparison tells on which side of its parent the hole is. *)
Definition last_cmp (k : list frame) (c : Z) : Prop :=
  match k with
  | [] => True
  | FL _ _ _ :: _ => c < 0
  | FR _ _ _ :: _ => 0 <= c
  end.

Lemma descend_spec cmpfn z fuel s k t c :
  (length (nodes t) <= fuel)%nat -> rep s (plug k t) ->
  path_ok cmpfn z k -> last_cmp k c ->
  runs (itree_insert_descend fuel cmpfn z (root_of t) (pnode k) c) s (fun yc s' =>
    s' = s /\ exists k', plug k' Leaf = plug k t /\ yc.1 = pnode k'
      /\ path_ok cmpfn z k' /\ last_cmp k' yc.2
      /\ (length k' <= length k + length (nodes t))%nat).
Proof.
  revert s k t c. induction fuel as [|fuel IH]; intros s k t c Hf Hrep Hp Hl;
    (destruct t as [|ct l x r]; cbn [root_of itree_insert_descend];
     [apply runs_ret; split; [done|]; exists k; cbn; split_and!; auto; lia |]).
  - cbn in Hf. rewrite length_app in Hf. cbn in Hf. lia.
  - cbn in Hf. rewrite length_app in Hf. cbn in Hf.
    apply runs_bind. destruct (Z.ltb_spec (cmpfn z x) 0) as [Hlt|Hge].
    + eapply (left_at k); [exact Hrep|].
      eapply runs_mono; [apply (IH s (FL ct x r :: k) l); [lia | exact Hrep | by constructor | done]|].
      intros yc s' (-> & k' & Hk' & Hy & Hp' & Hl' & Hlen). split; [done|]. exists k'.
      cbn in Hlen |- *. rewrite length_app. cbn. split_and!; auto. lia.
    + eapply (right_at k); [exact Hrep|].
      eapply runs_mono; [apply (IH s (FR ct x l :: k) r); [lia | exact Hrep | by constructor | done]|].
      intros yc s' (-> & k' & Hk' & Hy & Hp' & Hl' & Hlen). split; [done|]. exists k'.
      cbn in Hlen |- *. rewrite length_app. cbn. split_and!; auto. lia.
Qed.

(** Hanging an allocated node in the hole. *)
Lemma rep_link s k z c :
  rep s (plug k Leaf) -> z ∉ nodes (plug k Leaf) ->
  rep (mkst (relink_root k (Some z) (rb_root s))
         (relink (<[z := mkentry (pnode k) None None c]> (hp s)) k (Some z)))
    (plug k (Node c Leaf z Leaf)).
Proof.
  intros (Hr & Ht & Hnd) Hz. rewrite nodes_plug in Hz. cbn in Hz. fold (ctxnodes k) in Hz.
  apply tree_at_plug in Ht as [Hk _]. apply NoDup_plug in Hnd as (_ & Hnd & _).
  split; [|split].
  - cbn. rewrite Hr, (root_of_plug k Leaf), (root_of_plug k (Node _ _ _ _)). by destruct k.
  - apply tree_at_plug. split.
    + eapply ctx_at_relink; [done|]. rewrite ctx_at_insert by done. exact Hk.
    + cbn. rewrite relink_lookup, lookup_insert_eq by done. done.
  - apply NoDup_plug. split_and!; [|done|].
    + cbn. apply NoDup_singleton.
    + cbn. intros x ->%list_elem_of_singleton. done.
Qed.

(** ** Order *)
Class CompareOK (cmpfn : positive -> positive -> Z) : Prop := {
  cmp_flip a b : cmpfn a b < 0 <-> 0 < cmpfn b a;
  cmp_trans a b c : cmpfn a b <= 0 -> cmpfn b c <= 0 -> cmpfn a c <= 0
}.

Definition cmp_le (cmpfn : positive -> positive -> Z) (a b : positive) : Prop :=
  cmpfn a b <= 0.

Definition ordered (cmpfn : positive -> positive -> Z) (t : tree) : Prop :=
  StronglySorted (cmp_le cmpfn) (nodes t).

Lemma sorted_app cmpfn l1 l2 :
  StronglySorted (cmp_le cmpfn) (l1 ++ l2) <->
  StronglySorted (cmp_le cmpfn) l1 /\ StronglySorted (cmp_le cmpfn) l2
  /\ (forall a b, a ∈ l1 -> b ∈ l2 -> cmp_le cmpfn a b).
Proof. rewrite StronglySorted_app. naive_solver. Qed.

Section order.
Context (cmpfn : positive -> positive -> Z) `{!CompareOK cmpfn}.

Lemma cmp_flip_le a b : cmpfn a b <= 0 <-> 0 <= cmpfn b a.
Proof using CompareOK0. pose proof (cmp_flip b a). lia. Qed.

(** In an ordered tree the comparisons on the path place the hole: what
    is before it compares less or equal, what is behind it greater. *)
Lemma path_split z k t :
  path_ok cmpfn z k -> StronglySorted (cmp_le cmpfn) (nodes (plug k t)) ->
  (forall a, a ∈ lctx k -> 0 <= cmpfn z a) /\ (forall a, a ∈ rctx k -> cmpfn z a < 0).
Proof using CompareOK0.
  revert t. induction k as [|f k IH]; intros t Hp Hs; cbn [plug] in *; [set_solver|].
  apply Forall_cons in Hp as [Hf Hp]. specialize (IH _ Hp Hs) as [IHl IHr].
  rewrite nodes_plug in Hs. apply sorted_app in Hs as (_ & Hs & _).
  apply sorted_app in Hs as (Hs & _ & _).
  destruct f as [c y sb|c y sb]; cbn in Hf, Hs |- *; (split; [|done]) || (split; [done|]).
  - apply sorted_app in Hs as (_ & Hs & _). inversion Hs as [|? ? _ Hy]; subst.
    rewrite Forall_forall in Hy.
    intros a [->|[Ha|Ha]%elem_of_app]%elem_of_cons; auto.
    specialize (Hy _ Ha). destruct (Z.lt_ge_cases (cmpfn z a) 0) as [|Hge]; [done|].
    apply cmp_flip_le in Hge. pose proof (cmp_trans y a z Hy Hge) as H.
    apply cmp_flip_le in H. lia.
  - apply sorted_app in Hs as (_ & _ & Hy).
    intros a [Ha|[Ha| ->%list_elem_of_singleton]%elem_of_app]%elem_of_app; auto.
    assert (Hay : cmp_le cmpfn a y) by (apply Hy; set_solver).
    apply cmp_flip_le. eapply cmp_trans; [exact Hay|]. by apply cmp_flip_le.
Qed.

Lemma sorted_insert l1 z l2 :
  StronglySorted (cmp_le cmpfn) (l1 ++ l2) ->
  (forall a, a ∈ l1 -> 0 <= cmpfn z a) -> (forall a, a ∈ l2 -> cmpfn z a < 0) ->
  StronglySorted (cmp_le cmpfn) (l1 ++ z :: l2).
Proof using CompareOK0.
  rewrite !sorted_app. intros (H1 & H2 & H3) Hl Hr. split_and!; [done| |].
  - constructor; [done|]. apply Forall_forall. intros a Ha. specialize (Hr _ Ha).
    unfold cmp_le. lia.
  - intros a b Ha [->|Hb]%elem_of_cons; [|auto]. apply cmp_flip_le. auto.
Qed.
End order.

(** ** Insertion *)
Lemma insert_spec cmpfn fuel s t z e :
  rep s t -> rbtree t -> z ∉ nodes t -> hp s !! z = Some e ->
  (length (nodes t) < fuel)%nat ->
  runs (itree_insert fuel cmpfn z) s (fun _ s' => exists k t',
    plug k Leaf = t /\ path_ok cmpfn z k /\ rep s' t' /\ rbtree t'
    /\ nodes t' = lctx k ++ z :: rctx k
    /\ (forall x, x ∉ z :: nodes t -> hp s' !! x = hp s !! x)).
Proof.
  intros Hrep Hrb Hz Ez Hf. pose proof (rep_root _ _ Hrep) as Hroot.
  destruct s as [r0 h0]. cbn [rb_root hp] in *. subst r0. unfold itree_insert.
  apply runs_bind. unfold set_right. eapply runs_store; [exact Ez|]. cbn.
  apply runs_bind. unfold set_left. eapply runs_store; [apply lookup_insert_eq|]. cbn.
  rewrite insert_insert_eq.
  assert (Hrep0 : forall c, rep (mkst (root_of t) (<[z := c]> h0)) t).
  { intros c. destruct Hrep as (? & ? & ?). split; [done|]. split; [|done].
    cbn. by apply tree_at_insert. }
  apply runs_bind, runs_get_root. cbn [rb_root]. apply runs_bind.
  eapply (runs_mono (itree_insert_descend fuel cmpfn z (root_of t) (pnode []) 0));
    [apply (descend_spec cmpfn z fuel _ [] t 0);
     [lia | apply Hrep0 | apply Forall_nil_2 | done]|].
  intros [y c] ? (-> & k & Hk & Hy & Hp & Hl & Hlen). cbn in Hy, Hl. subst y.
  apply runs_bind. unfold set_up. eapply runs_store; [apply lookup_insert_eq|]. cbn.
  rewrite insert_insert_eq. cbn [plug] in Hk. subst t.
  assert (Hzk : z ∉ ctxnodes k) by (by rewrite nodes_plug in Hz).
  pose proof (rep_link _ k z (rbe_color e) Hrep Hz) as Hlink.
  apply runs_bind. set (s1 := mkst _ _) in Hlink.
  apply (runs_mono _ _ (fun _ s' => s' = s1)).
  { pose proof Hrep as (_ & Hk & _). apply tree_at_plug in Hk as [Hk _].
    destruct k as [|f k]; cbn [pnode].
    - rewrite isnull_None. by apply runs_set_root.
    - rewrite isnull_Some. rewrite elem_ctxnodes in Hzk. destruct Hk as (Ef & _).
      destruct f as [cf p sb|cf p sb]; cbn in Hl, Hzk, Ef.
      + rewrite (proj2 (Z.ltb_lt _ _) Hl). unfold set_left. eapply runs_store.
        * cbn. rewrite lookup_insert_ne by (intros ->; tauto). exact Ef.
        * done.
      + rewrite (proj2 (Z.ltb_ge _ _) Hl). unfold set_right. eapply runs_store.
        * cbn. rewrite lookup_insert_ne by (intros ->; tauto). exact Ef.
        * done. }
  intros ? ? ->. apply plug_rb in Hrb as (n & Hok & Hn & _).
  eapply runs_mono; [eapply insert_fix_spec; [|exact Hlink|exact Hok|exact Hn]|].
  { assert (length k <= length (nodes (plug k Leaf)))%nat; [|lia].
    cbn in Hlen. lia. }
  intros ? s' (t' & (R & Hn' & Hfr) & Hrb'). exists k, t'. split_and!; try done.
  - rewrite Hn', nodes_plug. done.
  - intros x Hx. apply not_elem_of_cons in Hx as [Hx1 Hx2].
    rewrite nodes_plug in Hx2. cbn in Hx2.
    rewrite Hfr by (rewrite nodes_plug; cbn; set_solver).
    unfold s1. cbn. rewrite relink_lookup by exact Hx2. by apply lookup_insert_ne.
Qed.
