(* ===== verification/ItreeDelete.v ===== *)
(** * Red-black deletion

    [itree_delete] on the heap: the node (or its successor) is spliced out,
    the successor takes the place of the node, and the repair loop moves the
    missing black link up until it can be made good. *)
From Stdlib Require Import ZArith Lia.
From stdpp Require Import prelude gmap sorting.
From S2P Require Import Prelude Itree ItreeShape ItreeInsert.

(** A tree that is red-black with black height [n] but for the color of
    its root, which may be red above red children. *)
Definition weak_rb (t : tree) (n : nat) : Prop :=
  match t with
  | Node RED l _ r => is_rb l n /\ is_rb r n
  | _ => is_rb t n
  end.

Lemma weak_rb_of t n : is_rb t n -> weak_rb t n.
Proof. destruct t as [|[] l x r]; cbn; tauto. Qed.

Lemma weak_rb_black t n : weak_rb t n -> tcolor t = BLACK -> is_rb t n.
Proof. destruct t as [|[] l x r]; cbn; done. Qed.

Lemma weak_rb_red t n : weak_rb t n -> tcolor t = RED -> is_rb (blacken t) (S n).
Proof. destruct t as [|[] l x r]; cbn; done. Qed.

Lemma rb_blacken t n : weak_rb t n -> rbtree (blacken t).
Proof.
  intros H. split; [by destruct t|].
  destruct t as [|[] l x r]; cbn in *; [by exists 0%nat | done | by exists n | by exists (S n)].
Qed.

(** [ctx_short k n]: the hole asks for one black link more than a tree of
    black height [n] has. *)
Abbreviation ctx_short k n := (ctx_ok k (S n)).

(** What the repair loop leaves: a focus whose root, once black, makes the
    whole tree red-black. *)
Definition repaired (s : itstate) (t : tree) (x : oc) (s' : itstate) : Prop :=
  exists k' t', evolves s t s' (plug k' t') /\ x = root_of t'
    /\ rbtree (plug k' (blacken t')).

Lemma repaired_step s t s1 t1 x s' :
  evolves s t s1 t1 -> repaired s1 t1 x s' -> repaired s t x s'.
Proof.
  intros H (k' & t' & H' & ? & ?). exists k', t'. split; [by eapply evolves_trans|done].
Qed.

Lemma root_in_ctx f k t : exists w, root_of (plug (f :: k) t) = Some w /\ w ∈ ctxnodes (f :: k).
Proof.
  revert f t. induction k as [|g k IH]; intros f t; cbn [plug].
  - exists (fnode f). split; [by destruct f|]. apply elem_ctxnodes. by left.
  - destruct (IH g (fillf f t)) as (w & Hw & Hin). exists w. split; [exact Hw|].
    apply elem_ctxnodes. right. by right.
Qed.

Lemma focus_not_root s f k t : rep s (plug (f :: k) t) -> root_of t <> rb_root s.
Proof.
  intros (Hr & _ & Hnd) Heq. destruct (root_in_ctx f k t) as (w & Hw & Hin).
  rewrite Hr, Hw in Heq. apply NoDup_plug in Hnd as (_ & _ & Hd).
  apply (Hd w); [by apply root_of_elem | done].
Qed.

(** ** Leaving the loop *)
Lemma fixup_exit_root fuel s t n p :
  rep s t -> weak_rb t n ->
  runs (itree_delete_fixup_loop fuel (root_of t) p) s (fun x s' => repaired s t x s').
Proof.
  intros Hrep Ht. assert (H : repaired s t (root_of t) s).
  { exists [], t. split; [by apply evolves_refl|]. split; [done|]. by eapply rb_blacken. }
  destruct fuel; cbn [itree_delete_fixup_loop];
    (apply runs_bind, runs_get_root; rewrite (rep_root _ _ Hrep);
     apply runs_bind, (color_at []); [exact Hrep|];
     rewrite bool_decide_true by done; cbn [negb andb]; by apply runs_ret).
Qed.

Lemma fixup_exit_red fuel s k t n p :
  rep s (plug k t) -> tcolor t = RED -> weak_rb t n -> ctx_short k n ->
  runs (itree_delete_fixup_loop fuel (root_of t) p) s
    (fun x s' => repaired s (plug k t) x s').
Proof.
  intros Hrep Hc Ht Hk. assert (H : repaired s (plug k t) (root_of t) s).
  { exists k, t. split; [by apply evolves_refl|]. split; [done|].
    apply plug_rb. exists (S n). split; [done|]. split; [by apply weak_rb_red|].
    left. by destruct t. }
  destruct fuel; cbn [itree_delete_fixup_loop];
    (apply runs_bind, runs_get_root; apply runs_bind, (color_at k); [exact Hrep|];
     rewrite Hc, (bool_decide_false (RED = BLACK)), andb_false_r by done; by apply runs_ret).
Qed.

(** A tree that is red-black as a whole ends the loop at its root. *)
Lemma fixup_exit_whole fuel s t p :
  rep s t -> rbtree t ->
  runs (itree_delete_fixup_loop fuel (root_of t) p) s (fun x s' => repaired s t x s').
Proof. intros Hrep [_ [n Hn]]. eapply fixup_exit_root; [done|]. by apply weak_rb_of. Qed.

(** ** One turn, the focus being a left child *)
Section turn.
Context (fuel : nat).

(** The tail of the turn, the sibling being black. *)
Definition left_tail (p : positive) (w : oc) : itm oc :=
  (lw <- left w;
   clw <- color lw;
   rw <- right w;
   crw <- color rw;
   if bool_decide (clw = BLACK) && bool_decide (crw = BLACK) then
     lcolor w RED;;
     itree_delete_fixup_loop fuel (Some p) (Some p)
   else
     w <- (if bool_decide (crw = BLACK)
           then (lcolor lw BLACK;;
                 lcolor w RED;;
                 itree_right_rotate w;;
                 right (Some p))
           else ret w);
     cp <- color (Some p);
     lcolor w cp;;
     lcolor (Some p) BLACK;;
     rw <- right w;
     lcolor rw BLACK;;
     itree_left_rotate (Some p);;
     x <- get_root;
     itree_delete_fixup_loop fuel x (Some p))%itm.

(** The case where the far nephew is red: one rotation ends the repair. *)
Lemma left_tail_far s k' c p t wl w wr n :
  rep s (plug k' (Node c t p (Node BLACK wl w wr))) ->
  is_rb t n -> tcolor t = BLACK -> is_rb wl n -> tcolor wr = RED -> is_rb wr n ->
  (c = BLACK -> ctx_ok k' (S (S n))) -> (c = RED -> pcolor k' = BLACK /\ ctx_ok k' (S n)) ->
  c <> INVALID ->
  runs (cp <- color (Some p);
     lcolor (Some w) cp;;
     lcolor (Some p) BLACK;;
     rw <- right (Some w);
     lcolor rw BLACK;;
     itree_left_rotate (Some p);;
     x <- get_root;
     itree_delete_fixup_loop fuel x (Some p))%itm s
    (fun x s' => repaired s (plug k' (Node c t p (Node BLACK wl w wr))) x s').
Proof using.
  intros Hrep Ht Htc Hwl Hwrc Hwr HkB HkR Hinv.
  destruct wr as [|cr rl r rr]; [done|]. cbn in Hwrc. subst cr.
  apply runs_bind, (color_at k' (Node c t p (Node BLACK wl w (Node RED rl r rr)))); [exact Hrep|].
  cbn [tcolor]. apply runs_bind.
  apply (lcolor_at c (FR c p t :: k') _ _ _ _ _ _ Hrep). intros s1 E1. ev E1.
  apply runs_bind, (lcolor_at BLACK k' _ _ _ _ _ _ R). intros s2 E2. ev E2.
  apply runs_bind. eapply (right_at (FR BLACK p t :: k')); [exact R0|]. cbn [root_of].
  apply runs_bind, (lcolor_at BLACK (FR c w wl :: FR BLACK p t :: k') _ _ _ _ _ _ R0).
  intros s3 E3. ev E3.
  apply runs_bind. eapply (left_rotate_spec s3 k'); [exact R1|]. intros s4 E4. ev E4.
  apply runs_bind, runs_get_root. rewrite (rep_root _ _ R2).
  eapply runs_mono; [apply fixup_exit_whole; [exact R2|]|].
  - apply plug_rb. cbn in Hwr. destruct c; [done| |].
    + exists (S (S n)). cbn. tauto.
    + exists (S n). cbn. destruct HkR; [done|]. cbn. tauto.
  - intros x s' Hfix. eapply repaired_step; [exact E1|]. eapply repaired_step; [exact E2|].
    eapply repaired_step; [exact E3|]. eapply repaired_step; [exact E4|]. exact Hfix.
Qed.

(** [rec k c]: the loop can go on at a parent of color [c]. *)
Definition continues (k : list frame) (c : itree_color) : Prop :=
  forall s t n, rep s (plug k t) -> weak_rb t n -> ctx_short k n -> tcolor t = c ->
  t <> Leaf ->
  runs (itree_delete_fixup_loop fuel (root_of t) (root_of t)) s
    (fun x s' => repaired s (plug k t) x s').

Lemma left_tail_spec s k c p t wl w wr n :
  continues k c ->
  rep s (plug k (Node c t p (Node BLACK wl w wr))) ->
  is_rb t n -> tcolor t = BLACK -> is_rb wl n -> is_rb wr n ->
  (c = BLACK -> ctx_ok k (S (S n))) -> (c = RED -> pcolor k = BLACK /\ ctx_ok k (S n)) ->
  c <> INVALID ->
  runs (left_tail p (Some w)) s
    (fun x s' => repaired s (plug k (Node c t p (Node BLACK wl w wr))) x s').
Proof using.
  intros Hrec Hrep Ht Htc Hwl Hwr HkB HkR Hinv. unfold left_tail.
  apply runs_bind. eapply (left_at (FR c p t :: k)); [exact Hrep|].
  apply runs_bind, (color_at (FL BLACK w wr :: FR c p t :: k) wl); [exact Hrep|].
  apply runs_bind. eapply (right_at (FR c p t :: k)); [exact Hrep|].
  apply runs_bind, (color_at (FR BLACK w wl :: FR c p t :: k) wr); [exact Hrep|].
  destruct (bool_decide (tcolor wl = BLACK) && bool_decide (tcolor wr = BLACK)) eqn:Hb.
  - apply andb_true_iff in Hb as [Hb1%bool_decide_eq_true Hb2%bool_decide_eq_true].
    apply runs_bind, (lcolor_at RED (FR c p t :: k) _ _ _ _ _ _ Hrep). intros s1 E1. ev E1.
    eapply runs_mono.
    { apply (Hrec s1 (Node c t p (Node RED wl w wr)) (if bool_decide (c = RED) then n else S n));
        [exact R| | |done|done]; destruct c; try done; cbn; try tauto; by apply HkR. }
    intros x s' Hfix. by eapply repaired_step.
  - apply andb_false_iff in Hb. rewrite !bool_decide_eq_false in Hb.
    apply runs_bind. case_bool_decide as Hcr.
    + assert (Hl : tcolor wl = RED).
      { destruct (is_rb_color wl n Hwl) as [Hl|]; [|done]. naive_solver. }
      destruct wl as [|cl a v b]; [done|]. cbn in Hl. subst cl. cbn [root_of].
      apply runs_bind, (lcolor_at BLACK (FL BLACK w wr :: FR c p t :: k) _ _ _ _ _ _ Hrep).
      intros s1 E1. ev E1.
      apply runs_bind, (lcolor_at RED (FR c p t :: k) _ _ _ _ _ _ R). intros s2 E2. ev E2.
      apply runs_bind. eapply (right_rotate_spec s2 (FR c p t :: k)); [exact R0|].
      intros s3 E3. ev E3. eapply (right_at k); [exact R1|]. cbn [root_of].
      eapply runs_mono; [eapply (left_tail_far s3 k c p t a v (Node RED b w wr) n); try done|].
      { cbn in Hwl. tauto. }
      { cbn in Hwl |- *. tauto. }
      intros x s' Hfix. eapply repaired_step; [exact E1|]. eapply repaired_step; [exact E2|].
      eapply repaired_step; [exact E3|]. exact Hfix.
    + apply runs_ret. apply (left_tail_far s k c p t wl w wr n); try done.
      by destruct (is_rb_color wr n Hwr).
Qed.

(** A whole turn at a black focus that is a left child. *)
Lemma left_turn s k c p t sw n q :
  continues k c ->
  (forall k' c', c' = RED -> continues k' c') ->
  rep s (plug (FL c p sw :: k) t) -> is_rb t n -> tcolor t = BLACK ->
  ctx_short (FL c p sw :: k) n -> (t = Leaf -> q = Some p) ->
  runs (itree_delete_fixup_loop (S fuel) (root_of t) q) s
    (fun x s' => repaired s (plug (FL c p sw :: k) t) x s').
Proof using.
  intros Hrec Hred Hrep Ht Htc (Hsw & Hk) Hq. cbn in Hsw. cbn [itree_delete_fixup_loop].
  apply runs_bind, runs_get_root.
  apply runs_bind, (color_at (FL c p sw :: k)); [exact Hrep|].
  rewrite bool_decide_false by (by eapply focus_not_root).
  rewrite Htc, bool_decide_true by done. cbn [negb andb].
  apply runs_bind. apply (runs_mono _ _ (fun p' s' => p' = Some p /\ s' = s)).
  { destruct t as [|ct tl x tr]; cbn [root_of].
    - rewrite isnull_None. apply runs_ret. auto.
    - rewrite isnull_Some. eapply (up_at (FL c p sw :: k)); [exact Hrep|]. done. }
  intros ? ? [-> ->]. apply runs_bind. eapply (left_at k); [exact Hrep|].
  rewrite bool_decide_true by done.
  apply runs_bind. eapply (right_at k); [exact Hrep|].
  apply runs_bind, (color_at (FR c p t :: k) sw); [exact Hrep|].
  destruct sw as [|cw wl w wr]; [done|]. cbn [tcolor root_of].
  apply runs_bind. case_bool_decide as Hcw.
  - (* red sibling *)
    subst cw. cbn in Hsw. destruct Hsw as (Hcl & Hcr & Hwl & Hwr).
    destruct c; cbn in Hk; [done| |by destruct Hk as [? _]].
    destruct wl as [|cl a v b]; [done|]. cbn in Hcl. subst cl.
    apply runs_bind, (lcolor_at BLACK (FR BLACK p t :: k) _ _ _ _ _ _ Hrep).
    intros s1 E1. ev E1.
    apply runs_bind, (lcolor_at RED k _ _ _ _ _ _ R). intros s2 E2. ev E2.
    apply runs_bind. eapply (left_rotate_spec s2 k); [exact R0|]. intros s3 E3. ev E3.
    eapply (right_at (FL BLACK w wr :: k)); [exact R1|]. cbn [root_of].
    eapply runs_mono.
    { apply (left_tail_spec s3 (FL BLACK w wr :: k) RED p t a v b n); try done.
      - by apply Hred.
      - cbn in Hwl. tauto.
      - cbn in Hwl. tauto. }
    intros x s' Hfix. eapply repaired_step; [exact E1|]. eapply repaired_step; [exact E2|].
    eapply repaired_step; [exact E3|]. exact Hfix.
  - apply runs_ret. destruct cw; try done. cbn in Hsw.
    apply (left_tail_spec s k c p t wl w wr n); try done; try tauto.
    + intros ->. exact Hk.
    + intros ->. cbn in Hk. tauto.
    + intros ->. cbn in Hk. done.
Qed.

(** ** One turn, the focus being a right child *)
Definition right_tail (p : positive) (w : oc) : itm oc :=
  (rw <- right w;
   crw <- color rw;
   lw <- left w;
   clw <- color lw;
   if bool_decide (crw = BLACK) && bool_decide (clw = BLACK) then
     lcolor w RED;;
     itree_delete_fixup_loop fuel (Some p) (Some p)
   else
     w <- (if bool_decide (clw = BLACK)
           then (lcolor rw BLACK;;
                 lcolor w RED;;
                 itree_left_rotate w;;
                 left (Some p))
           else ret w);
     cp <- color (Some p);
     lcolor w cp;;
     lcolor (Some p) BLACK;;
     lw <- left w;
     lcolor lw BLACK;;
     itree_right_rotate (Some p);;
     x <- get_root;
     itree_delete_fixup_loop fuel x (Some p))%itm.

(** The case where the far nephew is red: one rotation ends the repair. *)
Lemma right_tail_far s k' c p t wl w wr n :
  rep s (plug k' (Node c (Node BLACK wr w wl) p t)) ->
  is_rb t n -> tcolor t = BLACK -> is_rb wl n -> tcolor wr = RED -> is_rb wr n ->
  (c = BLACK -> ctx_ok k' (S (S n))) -> (c = RED -> pcolor k' = BLACK /\ ctx_ok k' (S n)) ->
  c <> INVALID ->
  runs (cp <- color (Some p);
     lcolor (Some w) cp;;
     lcolor (Some p) BLACK;;
     lw <- left (Some w);
     lcolor lw BLACK;;
     itree_right_rotate (Some p);;
     x <- get_root;
     itree_delete_fixup_loop fuel x (Some p))%itm s
    (fun x s' => repaired s (plug k' (Node c (Node BLACK wr w wl) p t)) x s').
Proof using.
  intros Hrep Ht Htc Hwl Hwrc Hwr HkB HkR Hinv.
  destruct wr as [|cr rr r rl]; [done|]. cbn in Hwrc. subst cr.
  apply runs_bind, (color_at k' (Node c (Node BLACK (Node RED rr r rl) w wl) p t)); [exact Hrep|].
  cbn [tcolor]. apply runs_bind.
  apply (lcolor_at c (FL c p t :: k') _ _ _ _ _ _ Hrep). intros s1 E1. ev E1.
  apply runs_bind, (lcolor_at BLACK k' _ _ _ _ _ _ R). intros s2 E2. ev E2.
  apply runs_bind. eapply (left_at (FL BLACK p t :: k')); [exact R0|]. cbn [root_of].
  apply runs_bind, (lcolor_at BLACK (FL c w wl :: FL BLACK p t :: k') _ _ _ _ _ _ R0).
  intros s3 E3. ev E3.
  apply runs_bind. eapply (right_rotate_spec s3 k'); [exact R1|]. intros s4 E4. ev E4.
  apply runs_bind, runs_get_root. rewrite (rep_root _ _ R2).
  eapply runs_mono; [apply fixup_exit_whole; [exact R2|]|].
  - apply plug_rb. cbn in Hwr. destruct c; [done| |].
    + exists (S (S n)). cbn. tauto.
    + exists (S n). cbn. destruct HkR; [done|]. cbn. tauto.
  - intros x s' Hfix. eapply repaired_step; [exact E1|]. eapply repaired_step; [exact E2|].
    eapply repaired_step; [exact E3|]. eapply repaired_step; [exact E4|]. exact Hfix.
Qed.

Lemma right_tail_spec s k c p t wl w wr n :
  continues k c ->
  rep s (plug k (Node c (Node BLACK wr w wl) p t)) ->
  is_rb t n -> tcolor t = BLACK -> is_rb wl n -> is_rb wr n ->
  (c = BLACK -> ctx_ok k (S (S n))) -> (c = RED -> pcolor k = BLACK /\ ctx_ok k (S n)) ->
  c <> INVALID ->
  runs (right_tail p (Some w)) s
    (fun x s' => repaired s (plug k (Node c (Node BLACK wr w wl) p t)) x s').
Proof using.
  intros Hrec Hrep Ht Htc Hwl Hwr HkB HkR Hinv. unfold right_tail.
  apply runs_bind. eapply (right_at (FL c p t :: k)); [exact Hrep|].
  apply runs_bind, (color_at (FR BLACK w wr :: FL c p t :: k) wl); [exact Hrep|].
  apply runs_bind. eapply (left_at (FL c p t :: k)); [exact Hrep|].
  apply runs_bind, (color_at (FL BLACK w wl :: FL c p t :: k) wr); [exact Hrep|].
  destruct (bool_decide (tcolor wl = BLACK) && bool_decide (tcolor wr = BLACK)) eqn:Hb.
  - apply andb_true_iff in Hb as [Hb1%bool_decide_eq_true Hb2%bool_decide_eq_true].
    apply runs_bind, (lcolor_at RED (FL c p t :: k) _ _ _ _ _ _ Hrep). intros s1 E1. ev E1.
    eapply runs_mono.
    { apply (Hrec s1 (Node c (Node RED wr w wl) p t) (if bool_decide (c = RED) then n else S n));
        [exact R| | |done|done]; destruct c; try done; cbn; try tauto; by apply HkR. }
    intros x s' Hfix. by eapply repaired_step.
  - apply andb_false_iff in Hb. rewrite !bool_decide_eq_false in Hb.
    apply runs_bind. case_bool_decide as Hcr.
    + assert (Hl : tcolor wl = RED).
      { destruct (is_rb_color wl n Hwl) as [Hl|]; [|done]. naive_solver. }
      destruct wl as [|cl b v a]; [done|]. cbn in Hl. subst cl. cbn [root_of].
      apply runs_bind, (lcolor_at BLACK (FR BLACK w wr :: FL c p t :: k) _ _ _ _ _ _ Hrep).
      intros s1 E1. ev E1.
      apply runs_bind, (lcolor_at RED (FL c p t :: k) _ _ _ _ _ _ R). intros s2 E2. ev E2.
      apply runs_bind. eapply (left_rotate_spec s2 (FL c p t :: k)); [exact R0|].
      intros s3 E3. ev E3. eapply (left_at k); [exact R1|]. cbn [root_of].
      eapply runs_mono; [eapply (right_tail_far s3 k c p t a v (Node RED wr w b) n); try done|].
      { cbn in Hwl. tauto. }
      { cbn in Hwl |- *. tauto. }
      intros x s' Hfix. eapply repaired_step; [exact E1|]. eapply repaired_step; [exact E2|].
      eapply repaired_step; [exact E3|]. exact Hfix.
    + apply runs_ret. apply (right_tail_far s k c p t wl w wr n); try done.
      by destruct (is_rb_color wr n Hwr).
Qed.

(** A whole turn at a black focus that is a right child. *)
Lemma right_turn s k c p t sw n q :
  continues k c ->
  (forall k' c', c' = RED -> continues k' c') ->
  rep s (plug (FR c p sw :: k) t) -> is_rb t n -> tcolor t = BLACK ->
  ctx_short (FR c p sw :: k) n -> (t = Leaf -> q = Some p) ->
  runs (itree_delete_fixup_loop (S fuel) (root_of t) q) s
    (fun x s' => repaired s (plug (FR c p sw :: k) t) x s').
Proof using.
  intros Hrec Hred Hrep Ht Htc (Hsw & Hk) Hq. cbn in Hsw. cbn [itree_delete_fixup_loop].
  apply runs_bind, runs_get_root.
  apply runs_bind, (color_at (FR c p sw :: k)); [exact Hrep|].
  rewrite bool_decide_false by (by eapply focus_not_root).
  rewrite Htc, bool_decide_true by done. cbn [negb andb].
  apply runs_bind. apply (runs_mono _ _ (fun p' s' => p' = Some p /\ s' = s)).
  { destruct t as [|ct tl x tr]; cbn [root_of].
    - rewrite isnull_None. apply runs_ret. auto.
    - rewrite isnull_Some. eapply (up_at (FR c p sw :: k)); [exact Hrep|]. done. }
  intros ? ? [-> ->]. apply runs_bind. eapply (left_at k); [exact Hrep|].
  rewrite bool_decide_false.
  2: { destruct t as [|ct tl x tr]; cbn [root_of]; [by destruct sw|].
       apply (rep_sib_ne s (FR c p sw) k (Node ct tl x tr)); done. }
  apply runs_bind. eapply (left_at k); [exact Hrep|].
  apply runs_bind, (color_at (FL c p t :: k) sw); [exact Hrep|].
  destruct sw as [|cw wr w wl]; [done|]. cbn [tcolor root_of].
  apply runs_bind. case_bool_decide as Hcw.
  - (* red sibling *)
    subst cw. cbn in Hsw. destruct Hsw as (Hcr & Hcl & Hwr & Hwl).
    destruct c; cbn in Hk; [done| |by destruct Hk as [? _]].
    destruct wl as [|cl b v a]; [done|]. cbn in Hcl. subst cl.
    apply runs_bind, (lcolor_at BLACK (FL BLACK p t :: k) _ _ _ _ _ _ Hrep).
    intros s1 E1. ev E1.
    apply runs_bind, (lcolor_at RED k _ _ _ _ _ _ R). intros s2 E2. ev E2.
    apply runs_bind. eapply (right_rotate_spec s2 k); [exact R0|]. intros s3 E3. ev E3.
    eapply (left_at (FR BLACK w wr :: k)); [exact R1|]. cbn [root_of].
    eapply runs_mono.
    { apply (right_tail_spec s3 (FR BLACK w wr :: k) RED p t a v b n); try done.
      - by apply Hred.
      - cbn in Hwl. tauto.
      - cbn in Hwl. tauto. }
    intros x s' Hfix. eapply repaired_step; [exact E1|]. eapply repaired_step; [exact E2|].
    eapply repaired_step; [exact E3|]. exact Hfix.
  - apply runs_ret. destruct cw; try done. cbn in Hsw.
    apply (right_tail_spec s k c p t wl w wr n); try done; try tauto.
    + intros ->. exact Hk.
    + intros ->. cbn in Hk. tauto.
    + intros ->. cbn in Hk. done.
Qed.
End turn.

(** ** The repair loop *)
Lemma continues_red fuel k c : c = RED -> continues fuel k c.
Proof. intros -> s t n Hrep Ht Hk Hc _. by eapply fixup_exit_red. Qed.

Lemma fixup_loop_spec fuel s k t n p :
  (length k <= fuel)%nat -> rep s (plug k t) -> weak_rb t n -> ctx_short k n ->
  (t = Leaf -> p = pnode k) ->
  runs (itree_delete_fixup_loop fuel (root_of t) p) s
    (fun x s' => repaired s (plug k t) x s').
Proof.
  revert s k t n p. induction fuel as [|fuel IH]; intros s k t n p Hf Hrep Ht Hk Hp.
  - destruct k; [|cbn in Hf; lia]. by eapply fixup_exit_root.
  - destruct (decide (tcolor t = RED)) as [Hc|Hc]; [by eapply fixup_exit_red|].
    destruct k as [|f k]; [by eapply fixup_exit_root|].
    assert (Htc : tcolor t = BLACK).
    { destruct t as [|[] l x r]; cbn in *; done. }
    apply weak_rb_black in Ht; [|done]. cbn in Hf.
    assert (Hrec : forall c, continues fuel k c).
    { intros c s' t' n' Hrep' Ht' Hk' _ Hne. apply (IH s' k t' n' (root_of t')); try done. lia. }
    destruct f as [c y sw|c y sw].
    + apply (left_turn fuel s k c y t sw n p); try done. apply continues_red.
    + apply (right_turn fuel s k c y t sw n p); try done. apply continues_red.
Qed.

Lemma delete_fixup_spec fuel s k t n :
  (length k <= fuel)%nat -> rep s (plug k t) -> weak_rb t n -> ctx_short k n ->
  runs (itree_delete_fixup fuel (root_of t) (pnode k)) s (fun _ s' =>
    exists t', evolves s (plug k t) s' t' /\ rbtree t').
Proof.
  intros Hf Hrep Ht Hk. unfold itree_delete_fixup.
  apply runs_bind. apply (runs_mono _ _ (fun _ s' => s' = s)).
  { destruct t as [|c l x r]; cbn [root_of].
    - rewrite isnull_None. by apply runs_ret.
    - rewrite isnull_Some. apply runs_bind. eapply (up_at k); [exact Hrep|].
      apply runs_assert; [|done]. by apply bool_decide_true. }
  intros ? ? ->. apply runs_bind.
  eapply runs_mono; [by eapply fixup_loop_spec|].
  intros ? s' (k' & t' & E & -> & Hrb). ev E.
  destruct t' as [|c l x r]; cbn [root_of].
  - rewrite isnull_None. apply runs_ret. eexists. by split.
  - rewrite isnull_Some. apply (lcolor_at BLACK k' _ _ _ _ _ _ R). intros s2 E2.
    eexists. split; [by eapply evolves_trans | exact Hrb].
Qed.

(** ** The successor of a node with a right subtree *)
Lemma plug_app k1 k2 t : plug (k1 ++ k2) t = plug k2 (plug k1 t).
Proof. revert t. induction k1 as [|f k1 IH]; intros t; cbn; auto. Qed.

(** A context that goes left all the way. *)
Definition leftmost (k : list frame) : Prop :=
  Forall (fun f => match f with FL _ _ _ => True | FR _ _ _ => False end) k.

Lemma leftmost_lctx k : leftmost k -> lctx k = [].
Proof. induction 1 as [|[] k Hf _ IH]; cbn; done. Qed.

Lemma minimum_spec fuel s k t :
  (length (nodes t) <= fuel)%nat -> t <> Leaf -> rep s (plug k t) ->
  runs (itree_minimum fuel (root_of t)) s (fun y s' => s' = s /\
    exists k2 cy y' ry, y = Some y' /\ t = plug k2 (Node cy Leaf y' ry) /\ leftmost k2).
Proof.
  intros Hf Hne. assert (Hgen : forall k2, leftmost k2 -> rep s (plug (k2 ++ k) t) ->
    runs (itree_minimum fuel (root_of t)) s (fun y s' => s' = s /\
      exists k3 cy y' ry, y = Some y' /\ plug k2 t = plug k3 (Node cy Leaf y' ry)
        /\ leftmost k3)).
  { revert fuel Hf Hne. induction t as [|c l IHl x r _]; intros fuel Hf Hne k2 Hk2 Hrep; [done|].
    cbn in Hf. rewrite length_app in Hf. cbn in Hf. destruct fuel as [|fuel]; [lia|].
    cbn [itree_minimum root_of]. apply runs_bind. eapply (left_at (k2 ++ k)); [exact Hrep|].
    destruct l as [|cl ll lx lr].
    - cbn [root_of]. rewrite isnull_None. apply runs_ret. split; [done|].
      by exists k2, c, x, r.
    - cbn [root_of]. rewrite isnull_Some.
      apply (IHl fuel ltac:(lia) ltac:(done) (FL c x r :: k2)); [by constructor|].
      exact Hrep. }
  intros Hrep. exact (Hgen [] (Forall_nil_2 _) Hrep).
Qed.

(** ** Splicing a node with at most one child out of the tree *)
Definition only_child (a b : tree) : tree := match a with Leaf => b | _ => a end.

Lemma splice_spec s k cy a y b (Q : oc -> itstate -> Prop) :
  rep s (plug k (Node cy a y b)) -> a = Leaf \/ b = Leaf ->
  (forall s', rep s' (plug k (only_child a b)) ->
     (forall x, x ∉ nodes (plug k (only_child a b)) -> hp s' !! x = hp s !! x) ->
     Q (root_of (only_child a b)) s') ->
  runs (itree_delete_splice (Some y) (pnode k)) s Q.
Proof.
  intros Hrep Hab HQ. pose proof Hrep as (Hr & Ht & Hnd).
  apply tree_at_plug in Ht as [Hk (Ey & Ha & Hb)].
  apply NoDup_plug in Hnd as (Hnd & Hndk & Hd). cbn in Hnd, Hd.
  apply NoDup_app in Hnd as (Hnda & Hya & [Hyb Hndb]%NoDup_cons).
  set (t := only_child a b) in *.
  assert (Hnt : NoDup (nodes t)) by (subst t; by destruct a).
  assert (Hdt : forall x, x ∈ nodes t -> x ∉ ctxnodes k).
  { intros x Hx. apply Hd. subst t. destruct a; cbn in *; set_solver. }
  assert (Hyt : y ∉ nodes t).
  { subst t. destruct a; [done|]. intros Hx. apply (Hya _ Hx). by left. }
  assert (Hyk : y ∉ ctxnodes k) by (apply Hd; set_solver).
  assert (Htu : tree_at (hp s) (Some y) t) by (subst t; by destruct a).
  unfold itree_delete_splice. apply runs_bind. eapply runs_left; [exact Ey|]. cbn [rbe_left].
  apply runs_bind. apply (runs_mono _ _ (fun x s' => x = root_of t /\ s' = s)).
  { subst t. destruct a as [|ca al ax ar]; cbn [root_of only_child].
    - rewrite isnull_None. eapply runs_right; [exact Ey|]. done.
    - rewrite isnull_Some. by apply runs_ret. }
  intros ? ? [-> ->]. apply runs_bind. eapply runs_reparent; [exact Htu|].
  apply runs_bind. apply runs_relink_l; [|done|].
  { cbn. rewrite ctx_at_reparent by done. exact Hk. }
  apply runs_ret. cbn [hp rb_root]. apply HQ.
  - split; [|split]; cbn [hp rb_root].
    + rewrite Hr, (root_of_plug k t), (root_of_plug k (Node _ _ _ _)). by destruct k.
    + apply tree_at_plug. split.
      * eapply ctx_at_relink; [done|]. rewrite ctx_at_reparent by done. exact Hk.
      * rewrite tree_at_relink by done. by eapply tree_at_reparent.
    + apply NoDup_plug. auto.
  - intros x Hx. rewrite nodes_plug in Hx. cbn.
    rewrite relink_lookup by (unfold ctxnodes; set_solver).
    apply reparent_lookup. set_solver.
Qed.

(** ** Putting a node in the place of another *)
Lemma swap_in_spec s k c l z r y ey (Q : unit -> itstate -> Prop) :
  rep s (plug k (Node c l z r)) -> y ∉ nodes (plug k (Node c l z r)) ->
  hp s !! y = Some ey ->
  (forall s', rep s' (plug k (Node c l y r)) ->
     (forall x, x ∉ y :: nodes (plug k (Node c l z r)) -> hp s' !! x = hp s !! x) ->
     hp s' !! z = hp s !! z -> Q tt s') ->
  runs (itree_delete_replace (Some z) (Some y)) s Q.
Proof.
  intros Hrep Hy Ey HQ. pose proof Hrep as (Hr & Ht & Hnd).
  apply tree_at_plug in Ht as [Hk (Ez & Hl & Hrr)].
  apply NoDup_plug in Hnd as (Hnd & Hndk & Hd). cbn in Hnd, Hd.
  apply NoDup_app in Hnd as (Hndl & Hzl & [Hzr Hndr]%NoDup_cons).
  rewrite nodes_plug in Hy. cbn in Hy.
  assert (Hyl : y ∉ nodes l) by set_solver. assert (Hyr : y ∉ nodes r) by set_solver.
  assert (Hyk : y ∉ ctxnodes k) by (unfold ctxnodes; set_solver).
  assert (Hyz : y <> z) by set_solver.
  assert (Hzk : z ∉ ctxnodes k) by (apply Hd; set_solver).
  assert (Hzl' : z ∉ nodes l) by (intros H; apply (Hzl _ H); by left).
  assert (Hlr : disj (nodes l) (nodes r)) by (intros x Hx Hx'; apply (Hzl _ Hx); by right).
  assert (Hrl : disj (nodes r) (nodes l)) by (intros x Hx Hx'; by apply (Hlr x)).
  assert (Hlk : disj (nodes l) (ctxnodes k)) by (intros x Hx; apply Hd; set_solver).
  assert (Hrk : disj (nodes r) (ctxnodes k)) by (intros x Hx; apply Hd; set_solver).
  set (h1 := relink (hp s) k (Some y)).
  set (h2 := reparent h1 l (Some y)). set (h3 := reparent h2 r (Some y)).
  assert (E1 : h1 !! z = hp s !! z) by (by apply relink_lookup).
  assert (E2 : h2 !! z = hp s !! z) by (unfold h2; by rewrite reparent_lookup).
  assert (E3 : h3 !! z = hp s !! z) by (unfold h3; by rewrite reparent_lookup).
  unfold itree_delete_replace. apply runs_bind. eapply runs_up; [exact Ez|]. cbn [rbe_up].
  apply runs_bind. apply runs_relink_l; [exact Hk|done|]. fold h1.
  apply runs_bind. eapply runs_left; [cbn; rewrite E1; exact Ez|]. cbn [rbe_left].
  apply runs_bind. eapply (runs_reparent _ l (Some z)).
  { cbn. unfold h1. by rewrite tree_at_relink. }
  cbn [rb_root hp]. fold h2.
  apply runs_bind. eapply runs_right; [cbn; rewrite E2; exact Ez|]. cbn [rbe_right].
  apply runs_bind. eapply (runs_reparent _ r (Some z)).
  { cbn. unfold h2. rewrite tree_at_reparent_other by done. unfold h1. by rewrite tree_at_relink. }
  cbn [rb_root hp]. fold h3.
  apply runs_bind. eapply runs_oc2rb; [cbn; rewrite E3; exact Ez|].
  eapply runs_store.
  { cbn. unfold h3, h2, h1. rewrite !reparent_lookup, relink_lookup by done. exact Ey. }
  cbn [rb_root hp]. apply HQ.
  - split; [|split]; cbn [hp rb_root].
    + rewrite Hr, (root_of_plug k (Node c l z r)), (root_of_plug k (Node c l y r)). by destruct k.
    + apply tree_at_plug. split.
      * rewrite ctx_at_insert by done. unfold h3, h2. rewrite !ctx_at_reparent by done.
        by eapply ctx_at_relink.
      * cbn. rewrite lookup_insert_eq, !tree_at_insert by done. split; [done|]. split.
        -- unfold h3. rewrite tree_at_reparent_other by done. unfold h2.
           eapply tree_at_reparent; [done|]. unfold h1. by rewrite tree_at_relink.
        -- unfold h3. eapply tree_at_reparent; [done|]. unfold h2.
           rewrite tree_at_reparent_other by done. unfold h1. by rewrite tree_at_relink.
    + apply NoDup_plug. split_and!; [|done|].
      * cbn. apply NoDup_app. split; [done|]. split; [|by apply NoDup_cons].
        intros x Hx [->|Hx']%elem_of_cons; [done|]. by apply (Hlr x).
      * cbn. intros x [Hx|[->|Hx]%elem_of_cons]%elem_of_app; auto.
  - intros x Hx. apply not_elem_of_cons in Hx as [Hx1 Hx2].
    rewrite nodes_plug in Hx2. cbn in Hx2.
    cbn. rewrite lookup_insert_ne by done. unfold h3, h2, h1.
    rewrite !reparent_lookup, relink_lookup; [done | unfold ctxnodes; set_solver | set_solver | set_solver].
  - cbn. rewrite lookup_insert_ne by done. exact E3.
Qed.

(** ** Deletion *)
Lemma ctx_ok_rename k2 c z y l k n :
  ctx_ok (k2 ++ FR c z l :: k) n -> ctx_ok (k2 ++ FR c y l :: k) n.
Proof.
  revert n. induction k2 as [|f k2 IH]; intros n; [done|]. cbn.
  assert (Hp : pcolor (k2 ++ FR c y l :: k) = pcolor (k2 ++ FR c z l :: k)) by (by destruct k2).
  rewrite Hp. destruct (fcolor f); naive_solver.
Qed.

Lemma pcolor_rename k2 c z y l k : pcolor (k2 ++ FR c z l :: k) = pcolor (k2 ++ FR c y l :: k).
Proof. by destruct k2. Qed.

Lemma length_ctx k t : (length k <= length (nodes (plug k t)))%nat.
Proof.
  rewrite nodes_plug, !length_app.
  assert (length k <= length (lctx k) + length (rctx k))%nat; [|lia].
  induction k as [|[] k IH]; cbn; rewrite ?length_app; cbn; lia.
Qed.

(** Removing a node with at most one child: either the tree is red-black
    at once, or one black link is missing at the hole. *)
Lemma spliced_rb k cy a y b :
  rbtree (plug k (Node cy a y b)) -> a = Leaf \/ b = Leaf ->
  (cy = RED /\ exists n, ctx_ok k n /\ is_rb (only_child a b) n /\ tcolor (only_child a b) = BLACK)
  \/ (cy = BLACK /\ exists n, ctx_short k n /\ is_rb (only_child a b) n).
Proof.
  rewrite plug_rb. intros (n & Hk & Ht & _) Hab. destruct cy; [done| |].
  - right. split; [done|]. destruct n as [|n]; [done|]. exists n. split; [done|].
    destruct Ht. by destruct a.
  - left. split; [done|]. exists n. split; [done|]. destruct Ht as (? & ? & ? & ?).
    by destruct a.
Qed.

(** The end of [itree_delete]: the tree is repaired if the color of the
    node taken out was black. *)
Lemma delete_finish fuel s k t cy :
  rep s (plug k t) -> (length k <= fuel)%nat ->
  (cy = RED /\ exists n, ctx_ok k n /\ is_rb t n /\ tcolor t = BLACK)
  \/ (cy = BLACK /\ exists n, ctx_short k n /\ is_rb t n) ->
  runs (if bool_decide (cy = BLACK) then itree_delete_fixup fuel (root_of t) (pnode k)
        else ret tt) s
    (fun _ s' => exists t', evolves s (plug k t) s' t' /\ rbtree t').
Proof.
  intros R Hf [(-> & n & Hk & Ht & Hc)|(-> & n & Hk & Ht)].
  - rewrite bool_decide_false by done. apply runs_ret. eexists.
    split; [by apply evolves_refl|]. apply plug_rb. eauto 10.
  - rewrite bool_decide_true by done.
    eapply delete_fixup_spec; [exact Hf | exact R | by apply weak_rb_of | done].
Qed.

Lemma only_child_nodes a b : a = Leaf \/ b = Leaf -> nodes (only_child a b) = nodes a ++ nodes b.
Proof. intros [-> | ->]; [done|]. destruct a; cbn; by rewrite ?app_nil_r. Qed.

Lemma plug_remove_nodes k a b :
  a = Leaf \/ b = Leaf ->
  nodes (plug k (only_child a b)) = (lctx k ++ nodes a) ++ nodes b ++ rctx k.
Proof. intros H. rewrite nodes_plug, only_child_nodes by done. by rewrite <- !app_assoc. Qed.

Lemma plug_remove_notin k c a y b :
  NoDup (nodes (plug k (Node c a y b))) -> a = Leaf \/ b = Leaf ->
  y ∉ nodes (plug k (only_child a b)).
Proof.
  intros Hnd H. rewrite (plug_remove_nodes k a b) by done.
  rewrite nodes_plug in Hnd. cbn in Hnd. rewrite <- !app_assoc in Hnd.
  rewrite app_assoc in Hnd. cbn in Hnd.
  apply NoDup_app in Hnd as (_ & H1 & [H2 _]%NoDup_cons).
  intros [Hy|Hy]%elem_of_app; [|done]. apply (H1 _ Hy). by left.
Qed.

Lemma plug_remove_sub k c a y b x :
  a = Leaf \/ b = Leaf -> x ∈ nodes (plug k (only_child a b)) ->
  x ∈ nodes (plug k (Node c a y b)).
Proof.
  intros H. rewrite (plug_remove_nodes k a b) by done. rewrite nodes_plug. cbn.
  set_solver.
Qed.

Lemma lctx_app k1 k2 : lctx (k1 ++ k2) = lctx k2 ++ lctx k1.
Proof. induction k1 as [|[] k1 IH]; cbn; rewrite ?app_nil_r, ?IH, <- ?app_assoc; done. Qed.
Lemma rctx_app k1 k2 : rctx (k1 ++ k2) = rctx k1 ++ rctx k2.
Proof. induction k1 as [|[] k1 IH]; cbn; rewrite ?IH, <- ?app_assoc; done. Qed.

(** What a deletion establishes. *)
Definition deleted (s : itstate) (t : tree) (l : list positive) (s' : itstate) : Prop :=
  exists t', rep s' t' /\ rbtree t' /\ nodes t' = l
    /\ (forall x, x ∉ nodes t -> hp s' !! x = hp s !! x).

(** A node with at most one child is spliced out itself. *)
Lemma delete_one fuel s k c l z r :
  rep s (plug k (Node c l z r)) -> rbtree (plug k (Node c l z r)) ->
  l = Leaf \/ r = Leaf -> (length k <= fuel)%nat ->
  runs (itree_delete fuel (Some z)) s (fun _ =>
    deleted s (plug k (Node c l z r)) ((lctx k ++ nodes l) ++ nodes r ++ rctx k)).
Proof.
  intros Hrep Hrb Hlr Hf. pose proof Hrep as (_ & _ & Hnd). unfold itree_delete.
  apply runs_bind. eapply (left_at k); [exact Hrep|].
  apply runs_bind. eapply (right_at k); [exact Hrep|].
  assert (Hb : negb (isnull (root_of l)) && negb (isnull (root_of r)) = false)
    by (destruct Hlr as [-> | ->]; [done | apply andb_false_r]).
  rewrite Hb. apply runs_bind, runs_ret.
  apply runs_bind. eapply (up_at k); [exact Hrep|].
  apply runs_bind. eapply splice_spec; [exact Hrep|exact Hlr|]. intros s1 R1 F1.
  apply runs_bind. eapply runs_color.
  { rewrite F1 by (by eapply plug_remove_notin). by eapply rep_lookup. }
  cbn [rbe_color]. apply runs_bind. rewrite bool_decide_true by done. apply runs_ret.
  eapply runs_mono; [by eapply delete_finish, spliced_rb|].
  intros ? s2 (t' & (R2 & N2 & F2) & Hrb'). exists t'. split_and!; [done|done| |].
  - by rewrite N2, (plug_remove_nodes k l r).
  - intros x Hx. assert (x ∉ nodes (plug k (only_child l r)))
      by (intros H; by apply Hx, plug_remove_sub).
    rewrite F2 by done. auto.
Qed.

(** In place of a node with two children comes its successor [y], which is
    spliced out of the right subtree. *)
Lemma delete_two fuel s k c l z k2 cy y ry :
  let r := plug k2 (Node cy Leaf y ry) in
  let t := plug k (Node c l z r) in
  rep s t -> rbtree t -> l <> Leaf -> leftmost k2 -> (length (k2 ++ FR c z l :: k) <= fuel)%nat ->
  (forall Q : oc -> itstate -> Prop, Q (Some y) s -> runs (itree_successor fuel (Some z)) s Q) ->
  runs (itree_delete fuel (Some z)) s (fun _ =>
    deleted s t ((lctx k ++ nodes l) ++ nodes r ++ rctx k)).
Proof.
  intros r t Hrep Hrb Hl Hk2 Hf Hsucc. pose proof Hrep as (_ & _ & Hnd). unfold itree_delete.
  apply runs_bind. eapply (left_at k); [exact Hrep|].
  apply runs_bind. eapply (right_at k); [exact Hrep|].
  assert (Hr : isnull (root_of r) = false).
  { unfold r. rewrite root_of_plug. destruct k2 as [|f k2]; [done|]. cbn [relink_root].
    rewrite (root_of_plug_cons f k2 Leaf (Node cy Leaf y ry)).
    destruct (plug _ _) eqn:E; [|done]. exfalso.
    assert (Hin : y ∈ nodes (plug (f :: k2) (Node cy Leaf y ry)))
      by (rewrite nodes_plug; cbn; set_solver). rewrite E in Hin. by apply elem_of_nil in Hin. }
  rewrite Hr. destruct l as [|cl ll lx lr]; [done|]. cbn [root_of]. rewrite isnull_Some.
  set (l := Node cl ll lx lr) in *. cbn [negb andb].
  apply runs_bind, Hsucc.
  set (K := k2 ++ FR c z l :: k). set (K' := k2 ++ FR c y l :: k).
  assert (Et : t = plug K (Node cy Leaf y ry)) by (unfold t, r, K; by rewrite plug_app).
  rewrite Et in Hrep, Hrb, Hnd.
  apply runs_bind. eapply (up_at K); [exact Hrep|].
  apply runs_bind. eapply splice_spec; [exact Hrep|by left|]. intros s1 R1 F1.
  change (only_child Leaf ry) with ry in *.
  pose proof (plug_remove_notin K cy Leaf y ry Hnd (or_introl eq_refl)) as Hy.
  change (only_child Leaf ry) with ry in Hy.
  assert (Ey : hp s1 !! y = hp s !! y) by (by apply F1).
  apply runs_bind. eapply runs_color; [rewrite Ey; by eapply rep_lookup|]. cbn [rbe_color].
  assert (Hyz : y <> z) by (intros ->; apply Hy; unfold K; rewrite nodes_plug, lctx_app; cbn; set_solver).
  apply runs_bind. rewrite bool_decide_false by congruence. apply runs_bind.
  assert (EK : plug K ry = plug k (Node c l z (plug k2 ry))) by (unfold K; by rewrite plug_app).
  assert (EK' : plug K' ry = plug k (Node c l y (plug k2 ry))) by (unfold K'; by rewrite plug_app).
  eapply swap_in_spec; [rewrite <- EK; exact R1 | by rewrite <- EK
    | rewrite Ey; by eapply rep_lookup |].
  rewrite <- EK, <- EK'. intros s2 R2 F2 Fz. apply runs_ret.
  assert (Hp : (if bool_decide (pnode K = Some z) then Some y else pnode K) = pnode K').
  { unfold K, K'. destruct k2 as [|f k2]; cbn [app pnode fnode].
    - by rewrite bool_decide_true.
    - rewrite bool_decide_false; [done|]. intros [= Hfz]. revert Hnd. unfold K.
      intros Hnd%NoDup_plug. destruct Hnd as (_ & Hnd & _). cbn [app] in Hnd.
      apply NoDup_ctx_cons in Hnd as (_ & _ & Hd). apply (Hd (fnode f)); [by left|].
      unfold ctxnodes. rewrite lctx_app, Hfz. cbn. set_solver. }
  rewrite Hp. eapply runs_mono; [eapply (delete_finish fuel s2 K' ry cy); [exact R2| |]|].
  - unfold K', K in *. rewrite length_app in *. cbn in *. lia.
  - destruct (spliced_rb K cy Leaf y ry Hrb (or_introl eq_refl))
      as [(-> & n & Hk & Ht & Hc)|(-> & n & Hk & Ht)]; [left|right]; (split; [done|]);
      exists n; (split; [by eapply ctx_ok_rename|done]).
  - intros ? s3 (t' & (R3 & N3 & F3) & Hrb'). exists t'. split_and!; [done|done| |].
    + rewrite N3, EK', nodes_plug. cbn [nodes]. unfold r. rewrite !nodes_plug.
      rewrite (leftmost_lctx k2 Hk2). cbn [app nodes]. rewrite <- !app_assoc. cbn [app]. by rewrite <- !app_assoc.
    + intros x Hx. rewrite Et in Hx.
      assert (Hxy : x <> y) by (intros ->; apply Hx; rewrite nodes_plug; cbn; set_solver).
      assert (HxK : x ∉ nodes (plug K ry))
        by (intros H; apply Hx; apply (plug_remove_sub K cy Leaf y ry x); [by left|exact H]).
      rewrite F3, F2, F1; [done|done|set_solver|].
      rewrite EK'. intros H. apply HxK. rewrite EK. rewrite nodes_plug in H |- *. cbn in *. set_solver.
Qed.

Lemma delete_spec fuel s k c l z r :
  let t := plug k (Node c l z r) in
  rep s t -> rbtree t -> (length (nodes t) <= fuel)%nat ->
  runs (itree_delete fuel (Some z)) s (fun _ =>
    deleted s t ((lctx k ++ nodes l) ++ nodes r ++ rctx k)).
Proof.
  intros t Hrep Hrb Hf. unfold t in *.
  assert (Hcase : (l = Leaf \/ r = Leaf) \/ (l <> Leaf /\ r <> Leaf))
    by (destruct l, r; auto; right; done).
  destruct Hcase as [Hlr|[Hl Hr]].
  { apply delete_one; try done. pose proof (length_ctx k (Node c l z r)). lia. }
  assert (Hm : runs (itree_successor fuel (Some z)) s (fun y s' => s' = s /\
    exists k2 cy y' ry, y = Some y' /\ r = plug k2 (Node cy Leaf y' ry) /\ leftmost k2)).
  { unfold itree_successor. apply runs_bind. eapply (right_at k); [exact Hrep|].
    destruct (isnull (root_of r)) eqn:E; [by destruct r|].
    apply (minimum_spec fuel s (FR c z l :: k) r); [|done|exact Hrep].
    rewrite nodes_plug, !length_app in Hf. cbn in Hf. rewrite length_app in Hf. cbn in Hf. lia. }
  destruct Hm as (y0 & s0 & Em & -> & k2 & cy & y & ry & -> & -> & Hk2).
  apply delete_two; try done.
  - etrans; [|exact Hf]. etrans; [apply (length_ctx _ (Node cy Leaf y ry))|].
    by rewrite plug_app.
  - intros Q HQ. eexists _, _. by split; [exact Em|].
Qed.
