(* ===== verification/ItreeQuery.v ===== *)
(** * Walking, searching, checking and freeing red-black trees

    The operations of [itree.h] and [itree.C] that follow the links of a
    tree without changing its shape: neighbours, traversal, search, the
    consistency check [__itree_check], and the two ways of freeing all
    nodes. *)
From Stdlib Require Import ZArith Lia.
From stdpp Require Import prelude gmap sorting.
From S2P Require Import Prelude Itree ItreeShape ItreeInsert ItreeDelete.

(** ** Focusing on a node *)
Lemma focus_elem t x : x ∈ nodes t -> exists k c l r, t = plug k (Node c l x r).
Proof.
  enough (H : forall k, x ∈ nodes t -> exists k' c l r, plug k t = plug k' (Node c l x r))
    by exact (H []).
  induction t as [|c l IHl y r IHr]; intros k Hx; cbn in Hx; [by apply elem_of_nil in Hx|].
  apply elem_of_app in Hx as [Hx|[->|Hx]%elem_of_cons].
  - exact (IHl (FL c y r :: k) Hx).
  - by exists k, c, l, r.
  - exact (IHr (FR c y l :: k) Hx).
Qed.

Lemma nodup_split {A} (x : A) l1 l2 l1' l2' :
  NoDup (l1 ++ x :: l2) -> l1 ++ x :: l2 = l1' ++ x :: l2' -> l1 = l1' /\ l2 = l2'.
Proof.
  revert l1'. induction l1 as [|a l1 IH]; intros [|b l1'] Hnd E; cbn in *; simplify_eq; auto.
  - apply NoDup_cons in Hnd as [Hx _]. set_solver.
  - apply NoDup_cons in Hnd as [Hx _]. set_solver.
  - apply NoDup_cons in Hnd as [_ Hnd]. destruct (IH l1' Hnd) as [-> ->]; auto.
Qed.

Lemma focus t l1 x l2 :
  NoDup (nodes t) -> nodes t = l1 ++ x :: l2 ->
  exists k c l r, t = plug k (Node c l x r)
    /\ l1 = lctx k ++ nodes l /\ l2 = nodes r ++ rctx k.
Proof.
  intros Hnd E. destruct (focus_elem t x) as (k & c & l & r & ->); [rewrite E; set_solver|].
  exists k, c, l, r. split; [done|]. rewrite nodes_plug in E, Hnd. cbn in E, Hnd.
  rewrite <- !app_assoc in E, Hnd. rewrite app_assoc in E, Hnd. cbn in E, Hnd.
  destruct (nodup_split x _ _ _ _ Hnd E) as [-> ->]. done.
Qed.

Lemma length_focus k c l x r :
  (length (nodes l) + length (nodes r) < length (nodes (plug k (Node c l x r))))%nat.
Proof. rewrite nodes_plug, !length_app. cbn. rewrite length_app. cbn. lia. Qed.

(** ** Neighbours *)
Lemma successor_climb_spec fuel s k t x :
  (length k <= fuel)%nat -> rep s (plug k t) -> root_of t = Some x ->
  runs (itree_successor_climb fuel (Some x) (pnode k)) s (fun y s' =>
    s' = s /\ y = head (rctx k)).
Proof.
  revert fuel t x. induction k as [|f k IH]; intros fuel t x Hf Hrep Hx.
  { destruct fuel; by apply runs_ret. }
  destruct fuel as [|fuel]; [cbn in Hf; lia|]. cbn [pnode itree_successor_climb].
  pose proof (rep_sib_ne s f k t x Hrep Hx) as Hne.
  destruct f as [c y sb|c y sb]; cbn [fnode fsib] in *; cbn [plug fillf] in Hrep;
    apply runs_bind; (eapply (right_at k); [exact Hrep|]).
  - rewrite bool_decide_false by done. by apply runs_ret.
  - rewrite bool_decide_true by done. apply runs_bind.
    eapply (up_at k); [exact Hrep|]. eapply IH; [cbn in Hf; lia | exact Hrep | done].
Qed.

Lemma predecessor_climb_spec fuel s k t x :
  (length k <= fuel)%nat -> rep s (plug k t) -> root_of t = Some x ->
  runs (itree_predecessor_climb fuel (Some x) (pnode k)) s (fun y s' =>
    s' = s /\ y = last (lctx k)).
Proof.
  revert fuel t x. induction k as [|f k IH]; intros fuel t x Hf Hrep Hx.
  { destruct fuel; by apply runs_ret. }
  destruct fuel as [|fuel]; [cbn in Hf; lia|]. cbn [pnode itree_predecessor_climb].
  pose proof (rep_sib_ne s f k t x Hrep Hx) as Hne.
  destruct f as [c y sb|c y sb]; cbn [fnode fsib] in *; cbn [plug fillf] in Hrep;
    apply runs_bind; (eapply (left_at k); [exact Hrep|]).
  - rewrite bool_decide_true by done. apply runs_bind.
    eapply (up_at k); [exact Hrep|]. eapply IH; [cbn in Hf; lia | exact Hrep | done].
  - rewrite bool_decide_false by done. apply runs_ret. split; [done|].
    cbn [lctx]. by rewrite app_assoc, last_snoc.
Qed.

(** A context that goes right all the way. *)
Definition rightmost (k : list frame) : Prop :=
  Forall (fun f => match f with FL _ _ _ => False | FR _ _ _ => True end) k.

Lemma rightmost_rctx k : rightmost k -> rctx k = [].
Proof. induction 1 as [|[] k Hf _ IH]; cbn; done. Qed.

Lemma maximum_spec fuel s k t :
  (length (nodes t) <= fuel)%nat -> t <> Leaf -> rep s (plug k t) ->
  runs (itree_maximum fuel (root_of t)) s (fun y s' => s' = s /\
    exists k2 cy y' ly, y = Some y' /\ t = plug k2 (Node cy ly y' Leaf) /\ rightmost k2).
Proof.
  intros Hf Hne. assert (Hgen : forall k2, rightmost k2 -> rep s (plug (k2 ++ k) t) ->
    runs (itree_maximum fuel (root_of t)) s (fun y s' => s' = s /\
      exists k3 cy y' ly, y = Some y' /\ plug k2 t = plug k3 (Node cy ly y' Leaf)
        /\ rightmost k3)).
  { revert fuel Hf Hne. induction t as [|c l _ x r IHr]; intros fuel Hf Hne k2 Hk2 Hrep; [done|].
    cbn in Hf. rewrite length_app in Hf. cbn in Hf. destruct fuel as [|fuel]; [lia|].
    cbn [itree_maximum root_of]. apply runs_bind. eapply (right_at (k2 ++ k)); [exact Hrep|].
    destruct r as [|cr rl rx rr].
    - cbn [root_of]. rewrite isnull_None. apply runs_ret. split; [done|].
      by exists k2, c, x, l.
    - cbn [root_of]. rewrite isnull_Some.
      apply (IHr fuel ltac:(lia) ltac:(done) (FR c x l :: k2)); [by constructor|].
      exact Hrep. }
  intros Hrep. exact (Hgen [] (Forall_nil_2 _) Hrep).
Qed.

Lemma minimum_head fuel s k t :
  (length (nodes t) <= fuel)%nat -> t <> Leaf -> rep s (plug k t) ->
  runs (itree_minimum fuel (root_of t)) s (fun y s' => s' = s /\ y = head (nodes t)).
Proof.
  intros. eapply runs_mono; [by eapply minimum_spec|].
  intros ? ? (-> & k2 & cy & y & ry & -> & -> & Hk2). split; [done|].
  by rewrite nodes_plug, (leftmost_lctx k2 Hk2).
Qed.

Lemma maximum_last fuel s k t :
  (length (nodes t) <= fuel)%nat -> t <> Leaf -> rep s (plug k t) ->
  runs (itree_maximum fuel (root_of t)) s (fun y s' => s' = s /\ y = last (nodes t)).
Proof.
  intros. eapply runs_mono; [by eapply maximum_spec|].
  intros ? ? (-> & k2 & cy & y & ly & -> & -> & Hk2). split; [done|].
  rewrite nodes_plug, (rightmost_rctx k2 Hk2). cbn.
  by rewrite app_nil_r, app_assoc, last_snoc.
Qed.

Lemma successor_spec fuel s t l1 x l2 :
  rep s t -> (length (nodes t) <= fuel)%nat -> nodes t = l1 ++ x :: l2 ->
  runs (itree_successor fuel (Some x)) s (fun y s' => s' = s /\ y = head l2).
Proof.
  intros Hrep Hf E. pose proof Hrep as (_ & _ & Hnd).
  destruct (focus t l1 x l2 Hnd E) as (k & c & l & r & -> & -> & ->).
  pose proof (length_focus k c l x r). pose proof (length_ctx k (Node c l x r)).
  unfold itree_successor. apply runs_bind. eapply (right_at k); [exact Hrep|].
  destruct r as [|cr rl rx rr].
  - cbn [root_of]. rewrite isnull_None. apply runs_bind. eapply (up_at k); [exact Hrep|].
    eapply successor_climb_spec; [lia|exact Hrep|done].
  - cbn [root_of]. rewrite isnull_Some.
    eapply runs_mono; [apply (minimum_head fuel s (FR c x l :: k) (Node cr rl rx rr)); [lia|done|exact Hrep]|].
    intros ? ? [-> ->]. split; [done|]. cbn. by destruct (nodes rl).
Qed.

Lemma predecessor_spec fuel s t l1 x l2 :
  rep s t -> (length (nodes t) <= fuel)%nat -> nodes t = l1 ++ x :: l2 ->
  runs (itree_predecessor fuel (Some x)) s (fun y s' => s' = s /\ y = last l1).
Proof.
  intros Hrep Hf E. pose proof Hrep as (_ & _ & Hnd).
  destruct (focus t l1 x l2 Hnd E) as (k & c & l & r & -> & -> & ->).
  pose proof (length_focus k c l x r). pose proof (length_ctx k (Node c l x r)).
  unfold itree_predecessor. apply runs_bind. eapply (left_at k); [exact Hrep|].
  destruct l as [|cl ll lx lr].
  - cbn [root_of]. rewrite isnull_None. apply runs_bind. eapply (up_at k); [exact Hrep|].
    cbn [nodes]. rewrite app_nil_r. eapply predecessor_climb_spec; [lia|exact Hrep|done].
  - cbn [root_of]. rewrite isnull_Some.
    eapply runs_mono; [apply (maximum_last fuel s (FL c x r :: k) (Node cl ll lx lr)); [lia|done|exact Hrep]|].
    intros ? ? [-> ->]. split; [done|]. rewrite last_app.
    destruct (last (nodes (Node cl ll lx lr))) eqn:El; [done|].
    apply last_None in El. cbn in El. by destruct (nodes ll).
Qed.

(** ** Traversal *)
Lemma first_spec fuel s t :
  rep s t -> (length (nodes t) <= fuel)%nat ->
  runs (first fuel) s (fun y s' => s' = s /\ y = head (nodes t)).
Proof.
  intros Hrep Hf. unfold first. apply runs_bind, runs_get_root.
  rewrite (rep_root _ _ Hrep). destruct t as [|c l x r]; [by apply runs_ret|].
  cbn [root_of]. rewrite isnull_Some. by apply (minimum_head fuel s [] (Node c l x r)).
Qed.

Lemma traverse_loop_spec fuel s t l1 l2 :
  rep s t -> (length l2 + length (nodes t) <= fuel)%nat -> nodes t = l1 ++ l2 ->
  runs (traverse_loop fuel (head l2)) s (fun l s' => s' = s /\ l = l2).
Proof.
  intros Hrep. revert fuel l1. induction l2 as [|x l2 IH]; intros fuel l1 Hf E.
  { destruct fuel; by apply runs_ret. }
  destruct fuel as [|fuel]; [cbn in Hf; lia|]. cbn [head traverse_loop].
  apply runs_bind. eapply runs_mono; [eapply successor_spec; [exact Hrep| |exact E]|].
  { cbn in Hf. lia. }
  intros ? ? [-> ->]. apply runs_bind.
  eapply runs_mono; [apply (IH fuel (l1 ++ [x]))|].
  { cbn in Hf. lia. }
  { by rewrite <- app_assoc. }
  intros ? ? [-> ->]. by apply runs_ret.
Qed.

Lemma traverse_spec fuel s t :
  rep s t -> (2 * length (nodes t) <= fuel)%nat ->
  runs (traverse fuel) s (fun l s' => s' = s /\ l = nodes t).
Proof.
  intros Hrep Hf. unfold traverse. apply runs_bind.
  eapply runs_mono; [apply (first_spec fuel s t); [done|lia]|]. intros ? ? [-> ->].
  apply (traverse_loop_spec fuel s t []); [done|lia|done].
Qed.

(** ** Search *)
(** What [cb] answers does not increase along the list: first the nodes
    before the one sought, then those that match, then those behind it. *)
Definition sign_sorted (cb : positive -> Z) (l : list positive) : Prop :=
  StronglySorted (fun a b => Z.sgn (cb b) <= Z.sgn (cb a)) l.

Abbreviation matches cb l := (filter (fun x : positive => cb x = 0) l).

Lemma matches_nil (cb : positive -> Z) l : (forall x, x ∈ l -> cb x <> 0) -> matches cb l = [].
Proof.
  induction l as [|x l IH]; intros H; [done|].
  rewrite filter_cons_False by (apply H; by left). apply IH. intros y Hy. apply H. by right.
Qed.

Lemma sign_sorted_split cb l1 x l2 :
  sign_sorted cb (l1 ++ x :: l2) ->
  sign_sorted cb l1 /\ sign_sorted cb l2
  /\ (cb x < 0 -> matches cb (x :: l2) = []) /\ (0 < cb x -> matches cb (l1 ++ [x]) = []).
Proof.
  unfold sign_sorted. rewrite StronglySorted_app. intros (Hx & H1 & H2).
  apply StronglySorted_inv in H2 as [H2 H3]. rewrite Forall_forall in H3.
  split_and!; [done|done| |]; intros Hs; apply matches_nil; intros y Hy.
  - apply elem_of_cons in Hy as [->|Hy]; [lia|]. specialize (H3 _ Hy).
    rewrite (Z.sgn_neg (cb x)) in H3 by done. intros E. rewrite E in H3. done.
  - apply elem_of_app in Hy as [Hy| ->%list_elem_of_singleton]; [|lia].
    specialize (Hx y x Hy ltac:(by left)).
    rewrite (Z.sgn_pos (cb x)) in Hx by done. intros E. rewrite E in Hx. done.
Qed.

Definition or_else (a b : oc) : oc := match a with Some _ => a | None => b end.

Lemma head_app {A} (l1 l2 : list A) :
  head (l1 ++ l2) = match head l1 with Some a => Some a | None => head l2 end.
Proof. by destruct l1. Qed.

Lemma search_loop_spec cb fuel s k t res :
  rep s (plug k t) -> (length (nodes t) <= fuel)%nat -> sign_sorted cb (nodes t) ->
  runs (search_loop fuel cb (root_of t) res) s (fun y s' =>
    s' = s /\ y = or_else (head (matches cb (nodes t))) res).
Proof.
  revert fuel k res. induction t as [|c l IHl x r IHr]; intros fuel k res Hrep Hf Hs.
  { destruct fuel; by apply runs_ret. }
  cbn [nodes] in *. rewrite length_app in Hf. cbn in Hf.
  destruct fuel as [|fuel]; [lia|]. cbn [root_of search_loop].
  destruct (sign_sorted_split _ _ _ _ Hs) as (Hl & Hr & Hneg & Hpos).
  assert (HL : forall res, runs (search_loop fuel cb (root_of l) res) s (fun y s' =>
    s' = s /\ y = or_else (head (matches cb (nodes l))) res))
    by (intros; by apply (IHl fuel (FL c x r :: k)); [|lia|]).
  destruct (Z.ltb_spec (cb x) 0) as [Hn|Hn]; [|destruct (Z.ltb_spec 0 (cb x)) as [Hp|Hp]].
  - apply runs_bind. eapply (left_at k); [exact Hrep|].
    rewrite filter_app, (Hneg Hn), app_nil_r. apply HL.
  - apply runs_bind. eapply (right_at k); [exact Hrep|].
    rewrite cons_middle, app_assoc, filter_app, (Hpos Hp). cbn [app].
    apply (IHr fuel (FR c x l :: k)); [done|lia|done].
  - apply runs_bind. eapply (left_at k); [exact Hrep|].
    eapply runs_mono; [apply HL|]. intros ? ? [-> ->]. split; [done|].
    rewrite filter_app, head_app. rewrite filter_cons_True by lia.
    by destruct (head _).
Qed.

(** ** The consistency check *)
(** A computation without effect that returns if [P] and panics otherwise. *)
Definition tests (m : itm unit) (s : itstate) (P : Prop) : Prop :=
  (P /\ m s = Done (tt, s)) \/ (~ P /\ m s = Panic).

#[export] Instance tests_proper m s : Proper (iff ==> iff) (tests m s).
Proof. intros P Q H. unfold tests. tauto. Qed.

Lemma tests_assert b s : tests (assert_it b) s (b = true).
Proof. unfold tests, assert_it. destruct b; auto. Qed.

Lemma tests_ret s : tests (ret tt) s True.
Proof. by left. Qed.

Lemma tests_read {A} (v : A) (m : itm A) k s P :
  runs m s (fun a s' => a = v /\ s' = s) -> tests (k v) s P -> tests (mbind k m) s P.
Proof.
  intros (a & s' & E & -> & ->) H. unfold tests, mbind, itm_bind. rewrite E. exact H.
Qed.

Lemma tests_seq (m1 m2 : itm unit) s (P1 P2 : Prop) :
  tests m1 s P1 -> (P1 -> tests m2 s P2) -> tests (mbind (fun _ => m2) m1) s (P1 /\ P2).
Proof.
  intros [[H E]|[H E]] H2; unfold tests, mbind, itm_bind; rewrite E; [|tauto].
  specialize (H2 H). unfold tests in H2. tauto.
Qed.

(** What the check asks of a subtree. *)
Definition below (cmpfn : positive -> positive -> Z) (x : positive) (high : oc) : bool :=
  match high with Some k => cmpfn x k <=? 0 | None => true end.
Definition above (cmpfn : positive -> positive -> Z) (x : positive) (low : oc) : bool :=
  match low with Some k => cmpfn k x <=? 0 | None => true end.

Fixpoint checked (cmpfn : positive -> positive -> Z) (t : tree) (low high : oc) (bd lbd : Z)
    : Prop :=
  match t with
  | Leaf => bd + 1 = lbd
  | Node c l x r =>
      let bd := if bool_decide (c = BLACK) then bd + 1 else bd in
      (c = BLACK \/ c = RED)
      /\ (c = BLACK \/ tcolor l = BLACK /\ tcolor r = BLACK)
      /\ above cmpfn x low = true /\ below cmpfn x high = true
      /\ checked cmpfn l low (Some x) bd lbd /\ checked cmpfn r (Some x) high bd lbd
  end.

(** Links of a child back to its parent. *)
Lemma tests_parent s k t x (P : Prop) m :
  rep s (plug k t) -> pnode k = Some x -> tests m s P ->
  tests (mbind (M := itm) (fun _ => m)
           (if isnull (root_of t) then ret tt
            else mbind (M := itm) (fun u => assert_it (bool_decide (u = Some x))) (up (root_of t))))
        s P.
Proof.
  intros Hrep Hk Hm. rewrite <- (left_id True and P). apply tests_seq; [|done].
  destruct t as [|c l y r]; cbn [root_of]; [by apply tests_ret|]. rewrite isnull_Some.
  apply (tests_read (Some x)); [by rewrite <- Hk; eapply (up_at k)|].
  rewrite bool_decide_true by done. by left.
Qed.

Lemma or_bool P Q `{!Decision P, !Decision Q} :
  P \/ Q <-> bool_decide P || bool_decide Q = true.
Proof. by rewrite orb_true_iff, !bool_decide_eq_true. Qed.
Lemma and_bool P Q `{!Decision P, !Decision Q} :
  P /\ Q <-> bool_decide P && bool_decide Q = true.
Proof. by rewrite andb_true_iff, !bool_decide_eq_true. Qed.
Lemma bool_decide_bool (b : bool) : bool_decide (b = true) = b.
Proof. by destruct b. Qed.

Definition pcolor (k : list frame) : itree_color := match k with [] => BLACK | f :: _ => fcolor f end.
Lemma pcolor_at k t s (Q : itree_color -> itstate -> Prop) : rep s (plug k t) -> Q (pcolor k) s -> runs (color (pnode k)) s Q.
Proof.
  intros H HQ. destruct k as [|[c y t'|c y t'] k]; [by apply runs_ret|..]; cbn in H.
  - by apply (color_at k (Node c t y t')).
  - by apply (color_at k (Node c t' y t)).
Qed.
Lemma check_node_spec cmpfn fuel s k t low high bd lbd :
  rep s (plug k t) -> (length (nodes t) < fuel)%nat ->
  tests (itree_check_node fuel cmpfn (root_of t) low high bd lbd) s
    (checked cmpfn t low high bd lbd).
Proof.
  revert fuel k low high bd. induction t as [|c l IHl x r IHr];
    intros [|fuel] k low high bd Hrep Hf; cbn in Hf; try lia; cbn [itree_check_node].
  { eapply tests_read; [by apply runs_ret|]. rewrite bool_decide_true by done.
    cbn [checked root_of]. rewrite <- Z.eqb_eq. apply tests_assert. }
  rewrite length_app in Hf. cbn in Hf. cbn [checked].
  eapply tests_read; [by eapply (color_at k (Node c l x r))|].
  cbn [root_of tcolor]. set (bd' := if bool_decide (c = BLACK) then bd + 1 else bd).
  eapply tests_read; [by eapply (up_at k)|].
  eapply tests_read; [by eapply (pcolor_at k)|].
  eapply tests_read; [by eapply (left_at k)|].
  eapply tests_read; [by eapply (color_at (FL c x r :: k))|].
  eapply tests_read; [by eapply (right_at k)|].
  eapply tests_read; [by eapply (color_at (FR c x l :: k))|].
  eapply tests_parent; [by apply (Hrep : rep s (plug (FL c x r :: k) l)) | done |].
  eapply tests_parent; [by apply (Hrep : rep s (plug (FR c x l :: k) r)) | done |].
  rewrite (or_bool (c = BLACK) (c = RED)), (and_bool (tcolor l = BLACK) (tcolor r = BLACK)).
  rewrite (or_bool (c = BLACK)), bool_decide_bool.
  apply tests_seq; [apply tests_assert|intros _].
  apply tests_seq; [apply tests_assert|intros _].
  apply tests_seq; [apply tests_assert|intros _].
  apply tests_seq; [apply tests_assert|intros _].
  apply tests_seq; [|intros _].
  - apply (IHl fuel (FL c x r :: k)); [done|lia].
  - apply (IHr fuel (FR c x l :: k)); [done|lia].
Qed.

(** The black links down the leftmost path of a tree. *)
Fixpoint ldepth (t : tree) (lbd : Z) : Z :=
  match t with
  | Leaf => lbd
  | Node _ l _ _ => ldepth l (if bool_decide (tcolor l = BLACK) then lbd + 1 else lbd)
  end.

Lemma check_depth_spec fuel s k t lbd :
  rep s (plug k t) -> (length (nodes t) <= fuel)%nat ->
  runs (itree_check_depth fuel (root_of t) lbd) s (fun d s' => d = ldepth t lbd /\ s' = s).
Proof.
  revert fuel k lbd. induction t as [|c l IHl x r _]; intros fuel k lbd Hrep Hf.
  { destruct fuel; by apply runs_ret. }
  cbn in Hf. rewrite length_app in Hf. cbn in Hf. destruct fuel as [|fuel]; [lia|].
  cbn [root_of itree_check_depth]. apply runs_bind. eapply (left_at k); [exact Hrep|].
  apply runs_bind. eapply (color_at (FL c x r :: k)); [exact Hrep|].
  eapply (IHl fuel (FL c x r :: k)); [exact Hrep|lia].
Qed.

Lemma ldepth_rb t n lbd :
  is_rb t n -> tcolor t = BLACK -> ldepth t lbd = lbd + Z.of_nat n.
Proof.
  enough (H : forall t n lbd, is_rb t n ->
    ldepth t (if bool_decide (tcolor t = BLACK) then lbd + 1 else lbd) = lbd + Z.of_nat n + 1).
  { intros Hrb Hc. specialize (H t n (lbd - 1) Hrb). rewrite Hc, bool_decide_true in H by done.
    replace (lbd - 1 + 1) with lbd in H by lia. lia. }
  clear. induction t as [|c l IHl x r _]; intros n lbd Hrb;
    [cbn in *; rewrite bool_decide_true by done; lia|].
  cbn [ldepth tcolor]. destruct c; cbn [is_rb] in Hrb; [done| |].
  - destruct n as [|n]; [done|]. destruct Hrb as [Hl _]. rewrite (bool_decide_true (BLACK = _)) by done.
    rewrite (IHl _ _ Hl). lia.
  - destruct Hrb as (_ & _ & Hl & _). rewrite (bool_decide_false (RED = _)) by done.
    by apply IHl.
Qed.

Section checked.
Context (cmpfn : positive -> positive -> Z) `{!CompareOK cmpfn}.

Lemma checked_rb t low high bd lbd :
  checked cmpfn t low high bd lbd -> exists n, is_rb t n /\ lbd = bd + 1 + Z.of_nat n.
Proof using.
  clear CompareOK0. revert low high bd.
  induction t as [|c l IHl x r IHr]; intros low high bd H; cbn in H.
  { exists 0%nat. split; [done|lia]. }
  destruct H as (Hc & Hcc & _ & _ & Hl & Hr).
  apply IHl in Hl as (n & Hl & El). apply IHr in Hr as (m & Hr & Er).
  assert (n = m) as <- by lia.
  destruct c; [by destruct Hc| |].
  - rewrite bool_decide_true in El by done. exists (S n). cbn. split; [done|lia].
  - rewrite bool_decide_false in El by done. exists n. cbn. destruct Hcc as [|[]]; [done|].
    split; [done|lia].
Qed.

(** The nodes of a checked tree are sorted and within the bounds. *)
Lemma checked_sorted t low high bd lbd :
  checked cmpfn t low high bd lbd ->
  ordered cmpfn t
  /\ (forall x, x ∈ nodes t -> above cmpfn x low = true /\ below cmpfn x high = true).
Proof using CompareOK0.
  revert low high bd. induction t as [|c l IHl x r IHr]; intros low high bd H; cbn in H.
  { split; [constructor|]. intros x Hx. by apply elem_of_nil in Hx. }
  destruct H as (_ & _ & Hlo & Hhi & Hl & Hr).
  apply IHl in Hl as [Sl Bl]. apply IHr in Hr as [Sr Br].
  assert (Hlx : forall y, y ∈ nodes l -> cmpfn y x <= 0)
    by (intros y Hy; by apply Z.leb_le, (proj2 (Bl y Hy))).
  assert (Hxr : forall y, y ∈ nodes r -> cmpfn x y <= 0)
    by (intros y Hy; by apply Z.leb_le, (proj1 (Br y Hy))).
  split.
  - unfold ordered. cbn. apply sorted_app. split_and!; [done| |].
    + constructor; [done|]. apply Forall_forall. apply Hxr.
    + intros a b Ha [->|Hb]%elem_of_cons; [by apply Hlx|].
      apply (cmp_trans _ x); auto.
  - cbn. intros y [Hy|[->|Hy]%elem_of_cons]%elem_of_app; [|done|].
    + split; [by apply Bl|]. destruct high as [h|]; [|done]. cbn in *.
      rewrite Z.leb_le in *. apply (cmp_trans _ x); auto.
    + split; [|by apply Br]. destruct low as [h|]; [|done]. cbn in *.
      rewrite Z.leb_le in *. apply (cmp_trans _ x); auto.
Qed.

Lemma rb_checked t low high bd n :
  is_rb t n -> ordered cmpfn t ->
  (forall x, x ∈ nodes t -> above cmpfn x low = true /\ below cmpfn x high = true) ->
  checked cmpfn t low high bd (bd + 1 + Z.of_nat n).
Proof using.
  clear CompareOK0. revert low high bd n.
  induction t as [|c l IHl x r IHr]; intros low high bd n Hrb Hs Hb.
  { cbn in *. subst. lia. }
  unfold ordered in Hs. cbn in Hs. apply sorted_app in Hs as (Sl & Sr & Hlr).
  apply StronglySorted_inv in Sr as [Sr Hx]. rewrite Forall_forall in Hx.
  assert (Hm : exists m, is_rb l m /\ is_rb r m
    /\ (if bool_decide (c = BLACK) then bd + 1 else bd) + 1 + Z.of_nat m = bd + 1 + Z.of_nat n).
  { destruct c; cbn [is_rb] in Hrb; [done| |].
    - destruct n as [|n]; [done|]. destruct Hrb as [? ?]. exists n.
      rewrite bool_decide_true by done. split_and!; [done|done|lia].
    - destruct Hrb as (_ & _ & ? & ?). exists n. rewrite bool_decide_false by done. done. }
  destruct Hm as (m & Hl & Hr & <-). destruct (Hb x) as [Hlo Hhi]; [cbn; set_solver|].
  cbn [checked]. split_and!; [by destruct c; auto| |done|done| |].
  - destruct c; [done|by left|]. right. by destruct Hrb as (? & ? & _).
  - apply IHl; [done|done|]. intros y Hy. split; [by apply Hb; cbn; set_solver|].
    apply Z.leb_le. apply Hlr; [done|by left].
  - apply IHr; [done|done|]. intros y Hy. split; [|by apply Hb; cbn; set_solver].
    apply Z.leb_le. by apply Hx.
Qed.

Lemma checked_iff t :
  tcolor t = BLACK /\ checked cmpfn t None None (-1) (ldepth t 0)
  <-> rbtree t /\ ordered cmpfn t.
Proof using CompareOK0.
  unfold rbtree. split.
  - intros [Hc H]. destruct (checked_rb _ _ _ _ _ H) as (n & Hn & _).
    split; [eauto|]. by eapply checked_sorted.
  - intros [[Hc [n Hn]] Hs]. split; [done|].
    rewrite (ldepth_rb t n) by done.
    replace (0 + Z.of_nat n) with (-1 + 1 + Z.of_nat n) by lia. by apply rb_checked.
Qed.

Lemma check_spec fuel s t :
  rep s t -> (length (nodes t) < fuel)%nat ->
  tests (__itree_check fuel cmpfn) s (rbtree t /\ ordered cmpfn t).
Proof using CompareOK0.
  intros Hrep Hf. rewrite <- checked_iff. unfold __itree_check.
  apply (tests_read (root_of t)); [apply runs_get_root; by rewrite (rep_root _ _ Hrep)|].
  apply (tests_read (tcolor t)); [by eapply (color_at [])|].
  apply (tests_proper _ _ (bool_decide (tcolor t = BLACK) = true
    /\ checked cmpfn t None None (-1) (ldepth t 0))); [by rewrite bool_decide_eq_true|].
  apply tests_seq; [apply tests_assert|intros Hc].
  apply (tests_read (ldepth t 0)); [apply (check_depth_spec fuel s []); [done|lia]|].
  rewrite <- (left_id True and (checked _ _ _ _ _ _)). apply tests_seq.
  - destruct t as [|c l x r]; cbn [root_of]; [by apply tests_ret|]. rewrite isnull_Some.
    apply (tests_read None); [by eapply (up_at [])|]. by left.
  - intros _. by apply (check_node_spec cmpfn fuel s []).
Qed.

End checked.
