(* ===== verification/ItreeFree.v ===== *)
(** * Freeing a whole red-black tree

    [deleteall] of [itree.h] frees the nodes in post-order and finds the
    next node before it frees the current one; [deleteall_correct] recurses.
    Both are shown to free every node exactly once and never to follow a
    link of a node that was freed. *)
From Stdlib Require Import ZArith Lia.
From stdpp Require Import prelude gmap.
From S2P Require Import Prelude Itree ItreeShape ItreeDelete.

(** [frees l s s']: the nodes of [l] have left the heap, the others have not
    changed. *)
Definition frees (l : list positive) (s s' : itstate) : Prop :=
  rb_root s' = rb_root s
  /\ forall y, hp s' !! y = if decide (y ∈ l) then None else hp s !! y.

Lemma frees_nil s : frees [] s s.
Proof. split; [done|]. intros y. rewrite decide_False; [done|apply not_elem_of_nil]. Qed.

Lemma frees_app l1 l2 s s1 s2 :
  frees l1 s s1 -> frees l2 s1 s2 -> frees (l1 ++ l2) s s2.
Proof.
  intros [R1 H1] [R2 H2]. split; [by rewrite R2|]. intros y. rewrite H2, H1.
  repeat case_decide; set_solver.
Qed.

Lemma frees_perm l1 l2 s s' : l1 ≡ₚ l2 -> frees l1 s s' -> frees l2 s s'.
Proof.
  intros Hp [R H]. split; [done|]. intros y. rewrite H.
  assert (y ∈ l1 <-> y ∈ l2) by (by rewrite Hp). repeat case_decide; tauto.
Qed.

Lemma frees_lookup l s s' y : frees l s s' -> y ∉ l -> hp s' !! y = hp s !! y.
Proof. intros [_ H] Hy. rewrite H. by rewrite decide_False. Qed.

Lemma runs_delete_node s x e (Q : unit -> itstate -> Prop) :
  hp s !! x = Some e ->
  (forall s', frees [x] s s' -> Q tt s') -> runs (delete_node (Some x)) s Q.
Proof.
  intros E HQ. eexists _, _. cbn. rewrite E. split; [done|]. apply HQ.
  split; [done|]. intros y. cbn. destruct (decide (x = y)) as [->|Hne].
  - rewrite lookup_delete_eq, decide_True; [done|set_solver].
  - rewrite lookup_delete_ne, decide_False; [done|set_solver|done].
Qed.

Lemma tree_at_ext h h' u t :
  (forall x, x ∈ nodes t -> h' !! x = h !! x) -> tree_at h u t -> tree_at h' u t.
Proof.
  revert u. induction t as [|c l IHl x r IHr]; intros u H; [done|]. cbn in *.
  intros (E & Hl & Hr). split_and!.
  - rewrite H; [done|set_solver].
  - apply IHl; [|done]. intros y Hy. apply H. set_solver.
  - apply IHr; [|done]. intros y Hy. apply H. set_solver.
Qed.

(** ** The recursive version *)
Lemma deleteall_correct_rec fuel s u t :
  tree_at (hp s) u t -> NoDup (nodes t) -> (length (nodes t) <= fuel)%nat ->
  runs (_deleteall_correct fuel (root_of t)) s (fun _ s' => frees (nodes t) s s').
Proof.
  revert fuel s u. induction t as [|c l IHl x r IHr]; intros fuel s u Ht Hnd Hf.
  { destruct fuel; apply runs_ret, frees_nil. }
  cbn in Hf, Hnd, Ht. rewrite length_app in Hf. cbn in Hf. destruct fuel as [|fuel]; [lia|].
  destruct Ht as (Ex & Hl & Hr). apply NoDup_app in Hnd as (Hndl & Hd & [Hxr Hndr]%NoDup_cons).
  cbn [root_of _deleteall_correct nodes].
  apply runs_bind. eapply runs_left; [exact Ex|]. cbn [rbe_left].
  apply runs_bind. eapply runs_mono; [by eapply (IHl fuel); [|done|lia]|]. intros ? s1 F1.
  assert (E1 : hp s1 !! x = hp s !! x).
  { eapply frees_lookup; [exact F1|]. intros H. apply (Hd _ H). by left. }
  apply runs_bind. eapply runs_right; [rewrite E1; exact Ex|]. cbn [rbe_right].
  apply runs_bind. eapply runs_mono; [eapply (IHr fuel s1 (Some x)); [|done|lia]|].
  { eapply tree_at_ext; [|exact Hr]. intros y Hy. eapply frees_lookup; [exact F1|].
    intros H. apply (Hd _ H). by right. }
  intros ? s2 F2. eapply runs_delete_node.
  { rewrite (frees_lookup _ _ _ x F2) by done. rewrite E1. exact Ex. }
  intros s3 F3. eapply frees_perm; [|eapply frees_app; [exact F1|eapply frees_app; [exact F2|exact F3]]].
  solve_Permutation.
Qed.

(** ** What is left while [deleteall] runs

    The part of a tree that has not been freed, seen from the node that is
    freed next: the subtrees to the left of the path are gone, those to its
    right are whole. *)
Fixpoint remains (h : gmap positive __itree_entry_private) (k : list frame) (ch : oc) : Prop :=
  match k with
  | [] => True
  | f :: k =>
      h !! fnode f = Some (fentry f k ch)
      /\ match f with FL _ y s => tree_at h (Some y) s | FR _ _ _ => True end
      /\ remains h k (Some (fnode f))
  end.

Fixpoint remnodes (k : list frame) : list positive :=
  match k with
  | [] => []
  | FL _ y s :: k => nodes s ++ y :: remnodes k
  | FR _ y _ :: k => y :: remnodes k
  end.

Lemma remnodes_app k1 k2 : remnodes (k1 ++ k2) = remnodes k1 ++ remnodes k2.
Proof. induction k1 as [|[] k1 IH]; cbn; rewrite ?IH, <- ?app_assoc; done. Qed.

Lemma remains_ext h h' k ch :
  (forall x, x ∈ remnodes k -> h' !! x = h !! x) -> remains h k ch -> remains h' k ch.
Proof.
  revert ch. induction k as [|[c y s|c y s] k IH]; intros ch H; cbn in *; [done| |];
    intros (E & Hs & Hk).
  - split_and!; [rewrite H; [done|set_solver] | | apply IH; [|done]].
    + eapply tree_at_ext; [|exact Hs]. intros x Hx. apply H. set_solver.
    + intros x Hx. apply H. set_solver.
  - split_and!; [rewrite H; [done|set_solver] | done | apply IH; [|done]].
    intros x Hx. apply H. set_solver.
Qed.

(** A path to the first node in post-order: to the right only where there
    is nothing to the left. *)
Definition firstpost (k : list frame) : Prop :=
  Forall (fun f => match f with FL _ _ _ => True | FR _ _ s => s = Leaf end) k.

Lemma firstpost_nodes k t : firstpost k -> nodes (plug k t) ≡ₚ nodes t ++ remnodes k.
Proof.
  intros H. revert t. induction H as [|[c y s|c y s] k Hf _ IH]; intros t; cbn.
  - by rewrite app_nil_r.
  - rewrite IH. cbn. solve_Permutation.
  - subst s. rewrite IH. cbn. solve_Permutation.
Qed.

Lemma remains_plug h k0 k t :
  firstpost k -> tree_at h (pnode k0) (plug k t) -> remains h k0 (root_of (plug k t)) ->
  remains h (k ++ k0) (root_of t) /\ tree_at h (pnode (k ++ k0)) t.
Proof.
  intros H. revert t. induction H as [|[c y s|c y s] k Hf _ IH]; intros t Ht Hr; [done| |];
    destruct (IH _ Ht Hr) as [Hk (E & H1 & H2)]; done.
Qed.

Lemma min_postorder_spec fuel s u t :
  (length (nodes t) <= fuel)%nat -> t <> Leaf -> tree_at (hp s) u t ->
  runs (min_postorder fuel (root_of t)) s (fun y s' => s' = s /\
    exists k c y', y = Some y' /\ t = plug k (Node c Leaf y' Leaf) /\ firstpost k).
Proof.
  enough (H : forall k, (length (nodes t) <= fuel)%nat -> t <> Leaf -> tree_at (hp s) u t ->
    firstpost k ->
    runs (min_postorder fuel (root_of t)) s (fun y s' => s' = s /\
      exists k' c y', y = Some y' /\ plug k t = plug k' (Node c Leaf y' Leaf) /\ firstpost k'))
    by (intros; by apply (H []); try done; constructor).
  revert fuel u. induction t as [|c l IHl x r IHr]; intros fuel u k Hf Hne Ht Hk; [done|].
  cbn in Hf. rewrite length_app in Hf. cbn in Hf. destruct fuel as [|fuel]; [lia|].
  destruct Ht as (E & Hl & Hr). cbn [root_of min_postorder]. unfold min_postorder_step.
  apply runs_bind, runs_bind. eapply runs_left; [exact E|]. cbn [rbe_left].
  destruct l as [|cl ll lx lr].
  - cbn [root_of]. rewrite isnull_None. eapply runs_right; [exact E|]. cbn [rbe_right].
    destruct r as [|cr rl rx rr].
    + cbn [root_of]. rewrite isnull_None. apply runs_ret. eauto 10.
    + cbn [root_of]. rewrite isnull_Some.
      apply (IHr fuel (Some x) (FR c x Leaf :: k)); [lia|done|done|]. by constructor.
  - cbn [root_of]. rewrite isnull_Some. apply runs_ret. rewrite isnull_Some.
    apply (IHl fuel (Some x) (FL c x r :: k)); [lia|done|done|]. by constructor.
Qed.

(** The next node in post-order, and the path to it. *)
Lemma next_postorder_spec fuel s k x l r c :
  hp s !! x = Some (mkentry (pnode k) l r c) -> remains (hp s) k (Some x) ->
  NoDup (x :: remnodes k) -> (length (remnodes k) <= fuel)%nat ->
  runs (next_postorder fuel (Some x)) s (fun y s' => s' = s /\
    match y with
    | None => k = []
    | Some y => exists k' e, hp s !! y = Some e /\ rbe_up e = pnode k'
        /\ remains (hp s) k' (Some y) /\ remnodes k ≡ₚ y :: remnodes k'
    end).
Proof.
  intros E Hk Hnd Hf. unfold next_postorder. apply runs_bind. eapply runs_up; [exact E|].
  cbn [rbe_up]. destruct k as [|f k]; cbn [pnode]; [by apply runs_ret|].
  rewrite isnull_Some. destruct Hk as (Ef & Hs & Hk). apply runs_bind.
  eapply runs_right; [exact Ef|]. destruct f as [c' y sb|c' y sb]; cbn [fnode fentry rbe_right] in *.
  - assert (Hne : sb <> Leaf -> isnull (root_of sb) || bool_decide (Some x = root_of sb) = false).
    { intros Hsb. destruct sb as [|cs sl sx sr]; [done|]. cbn [root_of]. rewrite isnull_Some.
      cbn [orb]. apply bool_decide_false. intros [= ->]. apply NoDup_cons in Hnd as [Hnd _].
      apply Hnd. cbn. set_solver. }
    destruct (decide (root_of sb = None)) as [Hsb|Hsb].
    + destruct sb; [|done]. cbn [root_of]. rewrite isnull_None. cbn [orb]. apply runs_ret.
      split; [done|]. exists k. eexists. split; [exact Ef|]. done.
    + assert (Hsb' : sb <> Leaf) by (intros ->; done). rewrite (Hne Hsb').
      cbn in Hf. rewrite length_app in Hf. cbn in Hf.
      eapply runs_mono; [eapply min_postorder_spec; [|exact Hsb'|exact Hs]; lia|].
      intros ? ? (-> & k2 & c2 & y2 & -> & -> & Hk2). split; [done|].
      (* the left subtree of [y] is gone: only its link is left *)
      destruct (remains_plug (hp s) (FR c' y (Node c Leaf x Leaf) :: k) k2 _ Hk2 Hs)
        as [Hrem (Ey2 & _ & _)]; [done|].
      eexists _, _. split; [exact Ey2|]. split_and!; [done|exact Hrem|].
      cbn [remnodes]. rewrite (firstpost_nodes k2) by done. rewrite remnodes_app. cbn.
      solve_Permutation.
  - rewrite bool_decide_true by done. rewrite orb_true_r. apply runs_ret. split; [done|].
    exists k. eexists. split; [exact Ef|]. done.
Qed.

Lemma deleteall_loop_spec fuel s k x e :
  hp s !! x = Some e -> rbe_up e = pnode k -> remains (hp s) k (Some x) ->
  NoDup (x :: remnodes k) -> (2 * S (length (remnodes k)) <= fuel)%nat ->
  runs (deleteall_loop fuel (Some x)) s (fun _ s' => frees (x :: remnodes k) s s').
Proof.
  revert s k x e. induction fuel as [|fuel IH]; intros s k x [u l r c] E Hu Hk Hnd Hf; [lia|].
  cbn in Hu. subst u. cbn [deleteall_loop]. apply runs_bind.
  eapply runs_mono; [eapply next_postorder_spec; [exact E|exact Hk|exact Hnd|lia]|].
  intros y s0 [-> Hy]. apply runs_bind. eapply runs_delete_node; [exact E|].
  intros s1 F1. apply NoDup_cons in Hnd as [Hx Hnd].
  destruct y as [y|].
  - destruct Hy as (k' & e & Ey & Hu & Hk' & Hp). rewrite Hp in Hx, Hnd.
    assert (Hkeep : forall z, z ∈ y :: remnodes k' -> hp s1 !! z = hp s !! z).
    { intros z Hz. eapply frees_lookup; [exact F1|]. intros ->%list_elem_of_singleton. done. }
    eapply runs_mono; [eapply (IH s1 k' y e)|].
    + rewrite Hkeep; [exact Ey|by left].
    + exact Hu.
    + eapply remains_ext; [|exact Hk']. intros z Hz. apply Hkeep. by right.
    + exact Hnd.
    + rewrite Hp in Hf. cbn in *. lia.
    + intros ? s2 F2. eapply frees_perm; [|eapply frees_app; [exact F1|exact F2]].
      cbn. by rewrite Hp.
  - subst k. destruct fuel; by apply runs_ret.
Qed.

(** ** Both versions free the tree *)
Definition freed (t : tree) (s s' : itstate) : Prop :=
  rb_root s' = None
  /\ forall y, hp s' !! y = if decide (y ∈ nodes t) then None else hp s !! y.

Lemma frees_clear t l s s' :
  l ≡ₚ nodes t -> frees l s s' -> freed t s (mkst None (hp s')).
Proof. intros Hp H. split; [done|]. by apply (frees_perm _ _ _ _ Hp H). Qed.

Lemma deleteall_spec fuel s t :
  rep s t -> (2 * length (nodes t) <= fuel)%nat ->
  runs (deleteall fuel) s (fun _ s' => freed t s s').
Proof.
  intros (Hr & Ht & Hnd) Hf. unfold deleteall. apply runs_bind, runs_get_root. rewrite Hr.
  destruct (decide (root_of t = None)) as [Hl|Hl].
  { destruct t; [|done]. apply runs_bind. destruct fuel; apply runs_ret, runs_bind, runs_ret;
      apply runs_set_root, (frees_clear Leaf []); auto using frees_nil. }
  apply runs_bind. eapply runs_mono.
  { eapply min_postorder_spec; [|intros ->; done|exact Ht]. lia. }
  intros ? ? (-> & k & c & x & -> & -> & Hk).
  destruct (remains_plug (hp s) [] k _ Hk Ht I) as [Hrem (Ex & _ & _)].
  rewrite app_nil_r in Hrem, Ex.
  pose proof (firstpost_nodes k (Node c Leaf x Leaf) Hk) as Hp. cbn in Hp.
  apply runs_bind. eapply runs_mono; [eapply (deleteall_loop_spec fuel s k); [exact Ex|done|exact Hrem| |]|].
  - by rewrite <- Hp.
  - rewrite Hp in Hf. cbn in Hf. lia.
  - intros ? s1 F1. apply runs_set_root. eapply frees_clear; [|exact F1]. by rewrite Hp.
Qed.

Lemma deleteall_correct_spec fuel s t :
  rep s t -> (length (nodes t) <= fuel)%nat ->
  runs (deleteall_correct fuel) s (fun _ s' => freed t s s').
Proof.
  intros (Hr & Ht & Hnd) Hf. unfold deleteall_correct. apply runs_bind, runs_get_root.
  rewrite Hr. apply runs_bind. eapply runs_mono; [by eapply deleteall_correct_rec|].
  intros ? s1 F1. apply runs_set_root. by eapply frees_clear; [|exact F1].
Qed.
