(* ===== verification/ItreeProps.v ===== *)
(** * The red-black tree implements a sorted sequence

    [holds cmpfn s l] abstracts a state: the heap holds a red-black tree,
    ordered by [cmpfn], whose nodes are the sequence [l].  Each operation of
    the template [itree] of [async/itree.h] is shown to refine an operation
    on sequences, to terminate within a stated budget of loop turns, and to
    leave alone every node that is not in the tree. *)
From Stdlib Require Import ZArith Lia.
From stdpp Require Import prelude gmap sorting.
From S2P Require Import Prelude Itree ItreeShape ItreeInsert ItreeDelete ItreeQuery ItreeFree.

Definition holds (cmpfn : positive -> positive -> Z) (s : itstate) (l : list positive) : Prop :=
  exists t, rep s t /\ rbtree t /\ ordered cmpfn t /\ nodes t = l.

(** Nodes outside [l] have not changed. *)
Definition untouched (l : list positive) (s s' : itstate) : Prop :=
  forall x, x ∉ l -> hp s' !! x = hp s !! x.

(** ** A concrete tree for the witnesses: 1, 2 and 3, and 4 not yet in it *)
Definition cmp_addr (a b : positive) : Z := Zpos a - Zpos b.

#[export] Instance cmp_addr_ok : CompareOK cmp_addr.
Proof. split; unfold cmp_addr; lia. Qed.

Definition sample_tree : tree :=
  Node BLACK (Node RED Leaf 1%positive Leaf) 2%positive (Node RED Leaf 3%positive Leaf).
Definition sample : itstate :=
  mkst (Some 2%positive)
    (<[1%positive := mkentry (Some 2%positive) None None RED]>
    (<[2%positive := mkentry None (Some 1%positive) (Some 3%positive) BLACK]>
    (<[3%positive := mkentry (Some 2%positive) None None RED]>
    (<[4%positive := mkentry None None None INVALID]> ∅)))).

Lemma sample_rep : rep sample sample_tree.
Proof.
  split_and!; try (vm_compute; reflexivity).
  - cbn. split_and!; done.
  - refine (bool_decide_unpack _ _). vm_compute. exact I.
Qed.

Lemma sample_rb : rbtree sample_tree.
Proof. split; [done|]. exists 1%nat. cbn. auto. Qed.

Lemma sample_holds : holds cmp_addr sample [1; 2; 3]%positive.
Proof.
  exists sample_tree. split_and!; [apply sample_rep | apply sample_rb | | done].
  repeat constructor; unfold cmp_le, cmp_addr; lia.
Qed.

(** ** Properties *)

(** C1: [insert] terminates and puts the node behind the nodes it does not
    compare less than and before those it does, so that equal keys keep the
    order of their insertion; the result is again a balanced, ordered tree,
    and no node outside the tree changes.  One loop turn per node of the
    tree, and one more, is enough. *)
Theorem itree_insert_refines cmpfn `{!CompareOK cmpfn} fuel s l z e :
  holds cmpfn s l -> z ∉ l -> hp s !! z = Some e -> (length l < fuel)%nat ->
  exists s' l1 l2, insert fuel cmpfn z s = Done (tt, s')
    /\ l = l1 ++ l2
    /\ (forall a, a ∈ l1 -> 0 <= cmpfn z a) /\ (forall a, a ∈ l2 -> cmpfn z a < 0)
    /\ holds cmpfn s' (l1 ++ z :: l2) /\ untouched (z :: l) s s'.
Proof.
  intros (t & Hrep & Hrb & Ho & <-) Hz Ez Hf.
  destruct (insert_spec cmpfn fuel s t z e Hrep Hrb Hz Ez Hf)
    as ([] & s' & E & k & t' & <- & Hp & Hrep' & Hrb' & Hn & Hu).
  destruct (path_split cmpfn z k Leaf Hp Ho) as [Hl Hr].
  assert (En : nodes (plug k Leaf) = lctx k ++ rctx k) by (by rewrite nodes_plug).
  exists s', (lctx k), (rctx k). split_and!; [exact E|done|done|done| |done].
  exists t'. split_and!; [done|done| |done]. unfold ordered. rewrite Hn.
  apply sorted_insert; [done| |done|done]. by rewrite <- En.
Qed.

Lemma itree_insert_refines_witness :
  exists s' l1 l2, insert 4 cmp_addr 4 sample = Done (tt, s')
    /\ [1; 2; 3]%positive = l1 ++ l2
    /\ (forall a, a ∈ l1 -> 0 <= cmp_addr 4 a) /\ (forall a, a ∈ l2 -> cmp_addr 4 a < 0)
    /\ holds cmp_addr s' (l1 ++ 4%positive :: l2) /\ untouched [4; 1; 2; 3]%positive sample s'.
Proof.
  apply (itree_insert_refines cmp_addr 4 sample [1; 2; 3]%positive 4
    (mkentry None None None INVALID)).
  - exact sample_holds.
  - refine (bool_decide_unpack _ _). vm_compute. exact I.
  - vm_compute. reflexivity.
  - cbn. lia.
Defined.

(** C7: [remove] terminates and takes exactly the given node out of the
    sequence; the tree stays balanced and ordered, the assertion in
    [itree_delete_fixup] holds, and no other node outside the tree changes. *)
Theorem itree_remove_refines cmpfn fuel s l1 z l2 :
  holds cmpfn s (l1 ++ z :: l2) -> (length (l1 ++ z :: l2) <= fuel)%nat ->
  exists s', remove fuel (Some z) s = Done (tt, s')
    /\ holds cmpfn s' (l1 ++ l2) /\ untouched (l1 ++ z :: l2) s s'.
Proof.
  intros (t & Hrep & Hrb & Ho & En) Hf. pose proof Hrep as (_ & _ & Hnd).
  destruct (focus t l1 z l2 Hnd En) as (k & c & l & r & -> & -> & ->).
  rewrite <- En in Hf.
  destruct (delete_spec fuel s k c l z r Hrep Hrb Hf) as ([] & s' & E & t' & R & B & N & U).
  exists s'. split_and!; [exact E| |by rewrite <- En].
  exists t'. split_and!; [done|done| |by rewrite N].
  unfold ordered in *. rewrite N. rewrite En in Ho.
  apply sorted_app in Ho as (S1 & S2 & S3). apply StronglySorted_inv in S2 as [S2 _].
  apply sorted_app. split_and!; [done|done|]. intros a b Ha Hb. apply S3; [done|by right].
Qed.

Lemma itree_remove_refines_witness :
  exists s', remove 3 (Some 2%positive) sample = Done (tt, s')
    /\ holds cmp_addr s' [1; 3]%positive /\ untouched [1; 2; 3]%positive sample s'.
Proof.
  apply (itree_remove_refines cmp_addr 3 sample [1]%positive 2 [3]%positive).
  - exact sample_holds.
  - cbn. lia.
Defined.

(** [next] and [prev] of a node are its neighbours in the sequence, and
    [NULL] at the ends; the state does not change. *)
Theorem itree_neighbours cmpfn fuel s l1 x l2 :
  holds cmpfn s (l1 ++ x :: l2) -> (length (l1 ++ x :: l2) <= fuel)%nat ->
  next fuel (Some x) s = Done (head l2, s) /\ prev fuel (Some x) s = Done (last l1, s).
Proof.
  intros (t & Hrep & _ & _ & En) Hf. rewrite <- En in Hf. split.
  - destruct (successor_spec fuel s t l1 x l2 Hrep Hf En) as (y & s' & E & -> & ->). exact E.
  - destruct (predecessor_spec fuel s t l1 x l2 Hrep Hf En) as (y & s' & E & -> & ->). exact E.
Qed.

Lemma itree_neighbours_witness :
  next 3 (Some 3%positive) sample = Done (None, sample)
  /\ prev 3 (Some 3%positive) sample = Done (Some 2%positive, sample).
Proof.
  apply (itree_neighbours cmp_addr 3 sample [1; 2]%positive 3 []).
  - exact sample_holds.
  - cbn. lia.
Defined.

(** [traverse] calls its argument once with every node, in order. *)
Theorem itree_traverse cmpfn fuel s l :
  holds cmpfn s l -> (2 * length l <= fuel)%nat -> traverse fuel s = Done (l, s).
Proof.
  intros (t & Hrep & _ & _ & <-) Hf.
  destruct (traverse_spec fuel s t Hrep Hf) as (l & s' & E & -> & ->). exact E.
Qed.

Lemma itree_traverse_witness : traverse 6 sample = Done ([1; 2; 3]%positive, sample).
Proof.
  apply (itree_traverse cmp_addr 6 sample [1; 2; 3]%positive).
  - exact sample_holds.
  - cbn. lia.
Defined.

(** [search] returns the first of the nodes the caller's function says
    are the ones sought, and [NULL] if there is none, provided the function
    agrees with the order of the tree. *)
Theorem itree_search cmpfn cb fuel s l :
  holds cmpfn s l -> sign_sorted cb l -> (length l <= fuel)%nat ->
  search fuel cb s = Done (head (filter (fun x => cb x = 0) l), s).
Proof.
  intros (t & Hrep & _ & _ & <-) Hs Hf. unfold search, mbind, itm_bind, get_root.
  rewrite (rep_root _ _ Hrep).
  destruct (search_loop_spec cb fuel s [] t None Hrep Hf Hs) as (y & s' & -> & -> & ->).
  by destruct (head _).
Qed.

Lemma itree_search_witness :
  search 3 (fun x => 3 - Zpos x) sample = Done (Some 3%positive, sample).
Proof.
  apply (itree_search cmp_addr (fun x => 3 - Zpos x) 3 sample [1; 2; 3]%positive).
  - exact sample_holds.
  - repeat constructor; vm_compute; congruence.
  - cbn. lia.
Defined.

(** on a heap that holds a tree, [__itree_check] passes exactly when the
    tree is red-black and ordered, and otherwise panics at an assertion; it
    never runs off the tree. *)
Theorem itree_check_decides cmpfn `{!CompareOK cmpfn} fuel s t :
  rep s t -> (length (nodes t) < fuel)%nat ->
  (__itree_check fuel cmpfn s = Done (tt, s) <-> rbtree t /\ ordered cmpfn t)
  /\ (__itree_check fuel cmpfn s = Panic <-> ~ (rbtree t /\ ordered cmpfn t)).
Proof.
  intros Hrep Hf. destruct (check_spec cmpfn fuel s t Hrep Hf) as [[H ->]|[H ->]];
    split; split; try done; tauto.
Qed.

Lemma itree_check_decides_witness :
  (__itree_check 4 cmp_addr sample = Done (tt, sample)
     <-> rbtree sample_tree /\ ordered cmp_addr sample_tree)
  /\ (__itree_check 4 cmp_addr sample = Panic
     <-> ~ (rbtree sample_tree /\ ordered cmp_addr sample_tree)).
Proof.
  apply (itree_check_decides cmp_addr 4 sample sample_tree).
  - exact sample_rep.
  - cbn. lia.
Defined.

(** C29: [deleteall], which looks up the next node in post-order before it
    frees the current one, frees every node of the tree exactly once, follows
    no link of a freed node and leaves the empty tree, exactly as the
    recursive [deleteall_correct] does. *)
Theorem itree_deleteall_frees fuel s t :
  rep s t -> (2 * length (nodes t) <= fuel)%nat ->
  exists s1 s2, deleteall fuel s = Done (tt, s1) /\ deleteall_correct fuel s = Done (tt, s2)
    /\ s1 = s2 /\ rb_root s1 = None
    /\ forall y, hp s1 !! y = if decide (y ∈ nodes t) then None else hp s !! y.
Proof.
  intros Hrep Hf. destruct (deleteall_spec fuel s t Hrep Hf) as ([] & s1 & E1 & R1 & H1).
  destruct (deleteall_correct_spec fuel s t Hrep ltac:(lia)) as ([] & s2 & E2 & R2 & H2).
  exists s1, s2. split_and!; [done|done| |done|done].
  destruct s1 as [r1 h1], s2 as [r2 h2]. cbn in *. f_equal; [congruence|].
  apply map_eq. intros y. by rewrite H1, H2.
Qed.

Lemma itree_deleteall_frees_witness :
  exists s1 s2, deleteall 6 sample = Done (tt, s1) /\ deleteall_correct 6 sample = Done (tt, s2)
    /\ s1 = s2 /\ rb_root s1 = None
    /\ forall y, hp s1 !! y = if decide (y ∈ nodes sample_tree) then None else hp sample !! y.
Proof.
  apply (itree_deleteall_frees 6 sample sample_tree).
  - exact sample_rep.
  - cbn. lia.
Defined.
