(* ===== verification/Bits.v ===== *)
(** * Bits of machine words and bit vectors

    [async/msb.C] and [async/msb.h]: the most and the least significant bit
    of a word, logarithms; [async/bitvec.h]: vectors of bits packed in
    64-bit words ([map_t] is [unsigned long], 64 bits wide).  The checks the
    class makes when it is compiled with [CHECK_BOUNDS] are part of the
    model, so that a theorem that an operation returns also says that no
    check fires. *)
From Stdlib Require Import ZArith Lia Btauto.
From stdpp Require Import prelude.
From S2P Require Import Prelude.

(** ** [msb.C]: tables *)
Definition bytemsb : list Z :=
  [0; 1; 2; 2; 3; 3; 3; 3; 4; 4; 4; 4; 4; 4; 4; 4; 5; 5; 5; 5; 5; 5; 5; 5; 5;
   5; 5; 5; 5; 5; 5; 5; 6; 6; 6; 6; 6; 6; 6; 6; 6; 6; 6; 6; 6; 6; 6; 6; 6; 6;
   6; 6; 6; 6; 6; 6; 6; 6; 6; 6; 6; 6; 6; 6; 7; 7; 7; 7; 7; 7; 7; 7; 7; 7; 7;
   7; 7; 7; 7; 7; 7; 7; 7; 7; 7; 7; 7; 7; 7; 7; 7; 7; 7; 7; 7; 7; 7; 7; 7; 7;
   7; 7; 7; 7; 7; 7; 7; 7; 7; 7; 7; 7; 7; 7; 7; 7; 7; 7; 7; 7; 7; 7; 7; 7; 7;
   7; 7; 7; 8; 8; 8; 8; 8; 8; 8; 8; 8; 8; 8; 8; 8; 8; 8; 8; 8; 8; 8; 8; 8; 8;
   8; 8; 8; 8; 8; 8; 8; 8; 8; 8; 8; 8; 8; 8; 8; 8; 8; 8; 8; 8; 8; 8; 8; 8; 8;
   8; 8; 8; 8; 8; 8; 8; 8; 8; 8; 8; 8; 8; 8; 8; 8; 8; 8; 8; 8; 8; 8; 8; 8; 8;
   8; 8; 8; 8; 8; 8; 8; 8; 8; 8; 8; 8; 8; 8; 8; 8; 8; 8; 8; 8; 8; 8; 8; 8; 8;
   8; 8; 8; 8; 8; 8; 8; 8; 8; 8; 8; 8; 8; 8; 8; 8; 8; 8; 8; 8; 8; 8; 8; 8; 8;
   8; 8; 8; 8; 8; 8].

Definition bytelsb : list Z :=
  [0; 1; 2; 1; 3; 1; 2; 1; 4; 1; 2; 1; 3; 1; 2; 1; 5; 1; 2; 1; 3; 1; 2; 1; 4;
   1; 2; 1; 3; 1; 2; 1; 6; 1; 2; 1; 3; 1; 2; 1; 4; 1; 2; 1; 3; 1; 2; 1; 5; 1;
   2; 1; 3; 1; 2; 1; 4; 1; 2; 1; 3; 1; 2; 1; 7; 1; 2; 1; 3; 1; 2; 1; 4; 1; 2;
   1; 3; 1; 2; 1; 5; 1; 2; 1; 3; 1; 2; 1; 4; 1; 2; 1; 3; 1; 2; 1; 6; 1; 2; 1;
   3; 1; 2; 1; 4; 1; 2; 1; 3; 1; 2; 1; 5; 1; 2; 1; 3; 1; 2; 1; 4; 1; 2; 1; 3;
   1; 2; 1; 8; 1; 2; 1; 3; 1; 2; 1; 4; 1; 2; 1; 3; 1; 2; 1; 5; 1; 2; 1; 3; 1;
   2; 1; 4; 1; 2; 1; 3; 1; 2; 1; 6; 1; 2; 1; 3; 1; 2; 1; 4; 1; 2; 1; 3; 1; 2;
   1; 5; 1; 2; 1; 3; 1; 2; 1; 4; 1; 2; 1; 3; 1; 2; 1; 7; 1; 2; 1; 3; 1; 2; 1;
   4; 1; 2; 1; 3; 1; 2; 1; 5; 1; 2; 1; 3; 1; 2; 1; 4; 1; 2; 1; 3; 1; 2; 1; 6;
   1; 2; 1; 3; 1; 2; 1; 4; 1; 2; 1; 3; 1; 2; 1; 5; 1; 2; 1; 3; 1; 2; 1; 4; 1;
   2; 1; 3; 1; 2; 1].

(** ** [msb.h] *)
Definition fls32 (v : Z) : Z :=
  if negb ((v .& 0xffff0000) =? 0)
  then if negb ((v .& 0xff000000) =? 0)
       then 24 + tbl bytemsb (v .>> 24)
       else 16 + tbl bytemsb (v .>> 16)
  else if negb ((v .& 0x0000ff00) =? 0)
       then 8 + tbl bytemsb (v .>> 8)
       else tbl bytemsb v.

Definition log2c32 (v : Z) : Z := if negb (v =? 0) then fls32 (v - 1) else -1.

Definition fls64 (v : Z) : Z :=
  let h := u32 (v .>> 32) in
  if negb (h =? 0) then 32 + fls32 h else fls32 (u32 v).

Definition log2c64 (v : Z) : Z := if negb (v =? 0) then fls64 (v - 1) else -1.

Definition ffs32 (v : Z) : Z :=
  if negb ((v .& 0xffff) =? 0) then
    let vv := v .& 0xff in
    if negb (vv =? 0) then tbl bytelsb vv else 8 + tbl bytelsb ((v .>> 8) .& 0xff)
  else
    let vv := v .& 0xff0000 in
    if negb (vv =? 0) then 16 + tbl bytelsb (vv .>> 16)
    else if negb (v =? 0) then 24 + tbl bytelsb ((v .>> 24) .& 0xff)
    else 0.

Definition ffs64 (v : Z) : Z :=
  let l := u32 (v .& 0xffffffff) in
  if negb (l =? 0) then fls32 l
  else let l := u32 (v .>> 32) in
       if negb (l =? 0) then 32 + fls32 l else 0.

(** ** [bitvec.h] *)
Definition mapbits : Z := 64.
Definition sizeof_map_t : Z := 8.

Record bitvec := mkbv { map : list Z; nbits : Z }.

Definition shl64 (x n : Z) : Z := u64 (x .<< n).
Definition not64 (x : Z) : Z := u64 (Z.lnot x).
Definition ones64 : Z := 18446744073709551615.

Definition nbytes (nb : Z) : Z := ((nb + mapbits - 1) / mapbits) * sizeof_map_t.

(** [xrealloc]: the words kept, then words whose contents are not specified;
    [junk i] is what word [i] happens to hold. *)
Definition realloc_words (junk : nat -> Z) (old : list Z) (n : nat) : list Z :=
  take n old ++ (junk <$> seq (length old) (n - length old)).

Definition datalloc (junk : nat -> Z) (m : list Z) (nb : Z) : list Z :=
  if nb =? 0 then [] else realloc_words junk m (Z.to_nat (nbytes nb / sizeof_map_t)).

(** [memset] or [bzero] of [n] whole words from word [a] on. *)
Definition fill_words (m : list Z) (a n v : Z) : outcome (list Z) :=
  if (0 <=? a) && (0 <=? n) && (a + n <=? Z.of_nat (length m))
  then Done (take (Z.to_nat a) m ++ replicate (Z.to_nat n) v ++ drop (Z.to_nat (a + n)) m)
  else Wild.

Definition update (m : list Z) (i : Z) (f : Z -> Z) : outcome (list Z) :=
  w ← rd m i; wr m i (f w).

Definition range_set (m : list Z) (s e : Z) : outcome (list Z) :=
  let sp := s / mapbits in let ep := e / mapbits in
  let sb := s mod mapbits in let eb := e mod mapbits in
  if sp =? ep then
    if negb (eb =? 0)
    then update m sp (fun w => w .| (shl64 ones64 sb .& not64 (shl64 ones64 eb)))
    else Done m
  else
    m ← update m sp (fun w => w .| shl64 ones64 sb);
    m ← (if negb (eb =? 0) then update m ep (fun w => w .| not64 (shl64 ones64 eb)) else Done m);
    fill_words m (sp + 1) (ep - sp - 1) ones64.

Definition range_clr (m : list Z) (s e : Z) : outcome (list Z) :=
  let sp := s / mapbits in let ep := e / mapbits in
  let sb := s mod mapbits in let eb := e mod mapbits in
  if sp =? ep then
    if negb (eb =? 0)
    then update m sp (fun w => w .& (not64 (shl64 ones64 sb) .| shl64 ones64 eb))
    else Done m
  else
    m ← update m sp (fun w => w .& not64 (shl64 ones64 sb));
    m ← (if negb (eb =? 0) then update m ep (fun w => w .& shl64 ones64 eb) else Done m);
    fill_words m (sp + 1) (ep - sp - 1) 0.

Definition bitvec_init : bitvec := mkbv [] 0.

Definition setsize (junk : nat -> Z) (b : bitvec) (n : Z) : bitvec :=
  mkbv (datalloc junk (map b) n) n.

Definition zsetsize (junk : nat -> Z) (b : bitvec) (n : Z) : outcome bitvec :=
  let m := datalloc junk (map b) n in
  m ← (if nbits b <? n then range_clr m (nbits b) n else Done m);
  Done (mkbv m n).

Definition osetsize (junk : nat -> Z) (b : bitvec) (n : Z) : outcome bitvec :=
  let m := datalloc junk (map b) n in
  m ← (if nbits b <? n then range_set m (nbits b) n else Done m);
  Done (mkbv m n).

Definition bcheck (b : bitvec) (n : Z) : outcome unit :=
  assertM ((0 <=? n) && (n <? nbits b)).
Definition rcheck (b : bitvec) (s e : Z) : outcome unit :=
  assertM ((s <=? e) && (e <=? nbits b)).

Definition at_ (b : bitvec) (i : Z) : outcome bool :=
  bcheck b i ;;
  w ← rd (map b) (i / mapbits);
  Done (negb ((w .& shl64 1 (i mod mapbits)) =? 0)).

Definition setbit (b : bitvec) (i : Z) (val : bool) : outcome bitvec :=
  bcheck b i ;;
  m ← (if val then update (map b) (i / mapbits) (fun w => w .| shl64 1 (i mod mapbits))
       else update (map b) (i / mapbits) (fun w => w .& not64 (shl64 1 (i mod mapbits))));
  Done (mkbv m (nbits b)).

(** [b[i] ^= val], by way of [wbit] *)
Definition wbit_xor (b : bitvec) (i : Z) (val : bool) : outcome bitvec :=
  bcheck b i ;;
  m ← update (map b) (i / mapbits) (fun w => w .^ shl64 (Z.b2z val) (i mod mapbits));
  Done (mkbv m (nbits b)).

Definition setrange (b : bitvec) (s e : Z) (v : bool) : outcome bitvec :=
  rcheck b s e ;;
  m ← (if v then range_set (map b) s e else range_clr (map b) s e);
  Done (mkbv m (nbits b)).

(** [operator=]: the words of [v] are copied into a map of the same size. *)
Definition bitvec_assign (junk : nat -> Z) (b v : bitvec) : outcome bitvec :=
  let b := setsize junk b (nbits v) in
  let n := nbytes (nbits b) / sizeof_map_t in
  if (n <=? Z.of_nat (length (map v))) && (n <=? Z.of_nat (length (map b)))
  then Done (mkbv (take (Z.to_nat n) (map v) ++ drop (Z.to_nat n) (map b)) (nbits b))
  else Wild.

(** [swap (a, b)]. *)
Definition swap (a b : bitvec) : bitvec * bitvec :=
  let m := map a in
  let a := mkbv (map b) (nbits a) in
  let b := mkbv m (nbits b) in
  let n := nbits a in
  let a := mkbv (map a) (nbits b) in
  let b := mkbv (map b) n in
  (a, b).

(** [strbuf_cat]: the bits as the characters ['0'] and ['1']. *)
Definition bitvec_cat (v : bitvec) : outcome (list Z) :=
  mapM (fun i => b ← at_ v i; Done (if b : bool then 49 else 48)) (seqZ 0 (nbits v)).

(** ** Most significant bit *)
Lemma land_high_0 v n m :
  0 <= n <= m -> 0 <= v < 2 ^ m -> (v .& (2 ^ m - 2 ^ n)) = 0 <-> v < 2 ^ n.
Proof.
  intros Hn Hv.
  assert (E : 2 ^ m - 2 ^ n = Z.ones (m - n) .<< n).
  { rewrite Z.shiftl_mul_pow2, Z.ones_equiv by lia.
    replace m with ((m - n) + n) at 1 by lia. rewrite Z.pow_add_r by lia. lia. }
  assert (E2 : (v .& (2 ^ m - 2 ^ n)) = (v .>> n) .<< n).
  { rewrite E. apply Z.bits_inj'. intros i Hi. rewrite Z.land_spec, !Z.shiftl_spec by lia.
    destruct (Z.lt_ge_cases i n) as [Hlt|Hge].
    - rewrite !(Z.testbit_neg_r _ (i - n)) by lia. btauto.
    - rewrite Z.shiftr_spec by lia. replace (i - n + n) with i by lia.
      destruct (Z.lt_ge_cases i m).
      + rewrite Z.ones_spec_low by lia. btauto.
      + rewrite (testbit_high v m i) by lia. done. }
  rewrite E2, Z.shiftl_mul_pow2, Z.shiftr_div_pow2 by lia.
  pose proof (Z.div_small_iff v (2 ^ n) ltac:(apply Z.pow_nonzero; lia)).
  pose proof (Z.pow_pos_nonneg 2 n). nia.
Qed.

Lemma high_eqb v n m c :
  0 <= n <= m -> c = 2 ^ m - 2 ^ n -> 0 <= v < 2 ^ m -> ((v .& c) =? 0) = (v <? 2 ^ n).
Proof.
  intros Hn -> Hv. pose proof (land_high_0 v n m Hn Hv).
  destruct (Z.eqb_spec (v .& (2 ^ m - 2 ^ n)) 0), (Z.ltb_spec v (2 ^ n)); tauto || lia.
Qed.

Lemma bytemsb_spec b : 0 < b < 256 -> tbl bytemsb b = Z.log2 b + 1.
Proof.
  intros H. assert (Hc : (b =? 0) || (tbl bytemsb b =? Z.log2 b + 1) = true)
    by (apply (forallb_seqZ 256 (fun b => (b =? 0) || (tbl bytemsb b =? Z.log2 b + 1)));
        [vm_compute; reflexivity | lia]).
  apply orb_true_iff in Hc as [Hc|Hc]; lia.
Qed.

Lemma log2_shift v n : 0 <= n -> 2 ^ n <= v -> 0 < v .>> n /\ n + (Z.log2 (v .>> n) + 1) = Z.log2 v + 1.
Proof.
  intros Hn Hv. pose proof (Z.pow_pos_nonneg 2 n).
  assert (0 < v .>> n) by (rewrite Z.shiftr_div_pow2 by lia; apply Z.div_str_pos; lia).
  assert (n <= Z.log2 v) by (apply Z.log2_le_pow2; lia).
  rewrite Z.log2_shiftr by lia. lia.
Qed.

Lemma shift_lt v n m k : 0 <= n -> 0 <= k -> m = n + k -> 0 <= v < 2 ^ m -> 0 <= v .>> n < 2 ^ k.
Proof.
  intros Hn Hk -> Hv. rewrite Z.shiftr_div_pow2 by lia. rewrite Z.pow_add_r in Hv by lia.
  pose proof (Z.pow_pos_nonneg 2 n). split; [apply Z.div_pos; lia|].
  apply Z.div_lt_upper_bound; lia.
Qed.

Lemma fls32_spec v : 0 < v < 2 ^ 32 -> fls32 v = Z.log2 v + 1.
Proof.
  intros Hv. unfold fls32.
  rewrite (high_eqb v 16 32) by lia. destruct (Z.ltb_spec v (2 ^ 16)); cbn [negb].
  - rewrite (high_eqb v 8 16) by lia. destruct (Z.ltb_spec v (2 ^ 8)); cbn [negb].
    + apply bytemsb_spec. lia.
    + destruct (log2_shift v 8 ltac:(lia) ltac:(lia)).
      rewrite bytemsb_spec; [lia|]. pose proof (shift_lt v 8 16 8). lia.
  - rewrite (high_eqb v 24 32) by lia. destruct (Z.ltb_spec v (2 ^ 24)); cbn [negb].
    + destruct (log2_shift v 16 ltac:(lia) ltac:(lia)).
      rewrite bytemsb_spec; [lia|]. pose proof (shift_lt v 16 24 8). lia.
    + destruct (log2_shift v 24 ltac:(lia) ltac:(lia)).
      rewrite bytemsb_spec; [lia|]. pose proof (shift_lt v 24 32 8). lia.
Qed.

Lemma fls32_0 : fls32 0 = 0.
Proof. reflexivity. Qed.

Lemma fls64_spec v : 0 < v < 2 ^ 64 -> fls64 v = Z.log2 v + 1.
Proof.
  intros Hv. unfold fls64. pose proof (shift_lt v 32 64 32 ltac:(lia) ltac:(lia) ltac:(lia) ltac:(lia)).
  rewrite (u32_small (v .>> 32)) by lia.
  destruct (Z.eqb_spec (v .>> 32) 0) as [E|E]; cbn [negb].
  - assert (v < 2 ^ 32).
    { destruct (Z.lt_ge_cases v (2 ^ 32)) as [|Hge]; [done|].
      destruct (log2_shift v 32 ltac:(lia) Hge). lia. }
    rewrite u32_small by lia. apply fls32_spec. lia.
  - rewrite fls32_spec by lia. apply log2_shift; [lia|].
    destruct (Z.lt_ge_cases v (2 ^ 32)) as [Hlt|]; [|lia].
    exfalso. apply E. rewrite Z.shiftr_div_pow2 by lia. apply Z.div_small. lia.
Qed.

Lemma fls64_0 : fls64 0 = 0.
Proof. reflexivity. Qed.

(** The logarithm rounded up: the least power of two that is enough. *)
Lemma log2c64_spec v : 0 < v < 2 ^ 64 -> log2c64 v = Z.log2_up v.
Proof.
  intros Hv. unfold log2c64. destruct (Z.eqb_spec v 0); [lia|]. cbn [negb].
  destruct (Z.eq_dec v 1) as [->|]; [reflexivity|].
  rewrite fls64_spec by lia. unfold Z.log2_up. destruct (Z.compare_spec 1 v); try lia.
  replace (Z.pred v) with (v - 1) by lia. lia.
Qed.

(** ** Least significant bit *)
Definition is_lsb (v p : Z) : Prop :=
  0 <= p /\ Z.testbit v p = true /\ forall j, 0 <= j < p -> Z.testbit v j = false.

Definition lsb_byte_ok (b : Z) : bool :=
  (b =? 0) || (let p := tbl bytelsb b - 1 in
    (0 <=? p) && (p <? 8) && Z.testbit b p && forallb (fun j => (p <=? j) || negb (Z.testbit b j)) (seqZ 0 8)).

Lemma bytelsb_spec b : 0 < b < 256 -> is_lsb b (tbl bytelsb b - 1) /\ tbl bytelsb b - 1 < 8.
Proof.
  intros H. assert (Hc : lsb_byte_ok b = true)
    by (apply (forallb_seqZ 256 lsb_byte_ok); [vm_compute; reflexivity | lia]).
  unfold lsb_byte_ok in Hc. apply orb_true_iff in Hc as [Hc|Hc]; [lia|].
  rewrite !andb_true_iff in Hc. destruct Hc as (((H1 & H2) & H3) & H4).
  split; [|lia]. split; [lia|]. split; [done|]. intros j Hj.
  pose proof (forallb_seqZ 8 _ j H4 ltac:(lia)) as Hj'.
  apply orb_true_iff in Hj' as [Hj'|Hj']; [lia|]. by destruct (Z.testbit b j).
Qed.

(** The least bit of [v] is that of byte [k] if the lower bytes are zero. *)
Lemma is_lsb_shift v k b p :
  0 <= k -> b = ((v .>> k) .& 0xff) -> (v .& Z.ones k) = 0 -> is_lsb b p -> p < 8 ->
  is_lsb v (k + p).
Proof.
  intros Hk -> Hlow (Hp & Hb & Hl) Hp8.
  assert (Hbit : forall j, 0 <= j < 8 -> Z.testbit v (k + j) = Z.testbit ((v .>> k) .& 0xff) j).
  { intros j Hj. rewrite Z.land_spec, Z.shiftr_spec by lia. change 0xff with (Z.ones 8).
    rewrite Z.ones_spec_low, andb_true_r by lia. f_equal. lia. }
  split; [lia|]. split; [rewrite Hbit by lia; done|]. intros j Hj.
  destruct (Z.lt_ge_cases j k) as [Hjk|Hjk].
  - assert (Z.testbit (v .& Z.ones k) j = false) as Ht by (rewrite Hlow; apply Z.bits_0).
    rewrite Z.land_spec, Z.ones_spec_low, andb_true_r in Ht by lia. exact Ht.
  - replace j with (k + (j - k)) by lia. rewrite Hbit by lia. apply Hl. lia.
Qed.

Lemma land_ones_split v k :
  0 <= k -> (v .& Z.ones k) = 0 -> ((v .>> k) .& 0xff) = 0 -> (v .& Z.ones (k + 8)) = 0.
Proof.
  intros Hk H1 H2. apply Z.bits_inj'. intros i Hi. rewrite Z.bits_0, Z.land_spec.
  destruct (Z.lt_ge_cases i k).
  - assert (Z.testbit (v .& Z.ones k) i = false) as Ht by (rewrite H1; apply Z.bits_0).
    rewrite Z.land_spec, Z.ones_spec_low, andb_true_r in Ht by lia. by rewrite Ht.
  - destruct (Z.lt_ge_cases i (k + 8)); [|rewrite Z.ones_spec_high by lia; btauto].
    assert (Z.testbit ((v .>> k) .& 0xff) (i - k) = false) as Ht by (rewrite H2; apply Z.bits_0).
    rewrite Z.land_spec, Z.shiftr_spec in Ht by lia. change 0xff with (Z.ones 8) in Ht.
    rewrite Z.ones_spec_low, andb_true_r in Ht by lia.
    replace (i - k + k) with i in Ht by lia. by rewrite Ht.
Qed.

Lemma land_ff_range v : 0 <= (v .& 0xff) < 256.
Proof. change 0xff with (Z.ones 8). rewrite Z.land_ones by lia. apply Z.mod_pos_bound. lia. Qed.

Lemma ffs32_spec v : 0 < v < 2 ^ 32 -> is_lsb v (ffs32 v - 1).
Proof.
  intros Hv.
  assert (Hb : forall k, 0 <= k -> (v .& Z.ones k) = 0 -> ((v .>> k) .& 0xff) <> 0 ->
    is_lsb v (k + tbl bytelsb ((v .>> k) .& 0xff) - 1)).
  { intros k Hk Hl Hn. pose proof (land_ff_range (v .>> k)).
    destruct (bytelsb_spec ((v .>> k) .& 0xff)) as [H1 H2]; [lia|].
    rewrite <- Z.add_sub_assoc. by eapply is_lsb_shift. }
  assert (H0 : (v .& Z.ones 0) = 0) by apply Z.land_0_r.
  assert (H8 : (v .& 0xff) = 0 -> (v .& Z.ones 8) = 0) by done.
  unfold ffs32.
  assert (E16 : ((v .>> 16) .& 0xff) = (v .& 0xff0000) .>> 16)
    by (change 0xff with (0xff0000 .>> 16); by rewrite <- Z.shiftr_land).
  destruct (Z.eqb_spec (v .& 0xffff) 0) as [E2|E2]; cbn [negb].
  - destruct (Z.eqb_spec (v .& 0xff0000) 0) as [E3|E3]; cbn [negb].
    + destruct (Z.eqb_spec v 0); [lia|]. cbn [negb].
      assert (H24 : (v .& Z.ones 24) = 0)
        by (apply (land_ones_split v 16); [lia|done|]; rewrite E16, E3; done).
      apply (Hb 24); [lia|done|]. intros E4.
      pose proof (land_ones_split v 24 ltac:(lia) H24 E4) as E5.
      rewrite Z.land_ones, Z.mod_small in E5 by lia. lia.
    + rewrite <- E16. apply (Hb 16); [lia|done|].
      intros E4. apply E3.
      assert (E5 : (v .& Z.ones 24) = 0) by (by apply (land_ones_split v 16)).
      change 0xff0000 with (Z.ones 24 .& 0xff0000). by rewrite Z.land_assoc, E5.
  - destruct (Z.eqb_spec (v .& 0xff) 0) as [E3|E3]; cbn [negb].
    + apply (Hb 8); [lia|by apply H8|]. intros E4. apply E2.
      by apply (land_ones_split v 8).
    + apply (Hb 0); [lia|done|done].
Qed.

(** [ffs64] gives a set bit of its argument. *)
Lemma ffs64_some_bit v :
  0 < v < 2 ^ 64 -> 1 <= ffs64 v <= 64 /\ Z.testbit v (ffs64 v - 1) = true.
Proof.
  intros Hv. unfold ffs64.
  pose proof (shift_lt v 32 64 32 ltac:(lia) ltac:(lia) ltac:(lia) ltac:(lia)) as Hh.
  assert (El : u32 (v .& 0xffffffff) = v mod 2 ^ 32).
  { rewrite u32_mod. change 0xffffffff with (Z.ones 32). rewrite Z.land_ones by lia.
    apply Z.mod_mod. lia. }
  rewrite El, (u32_small (v .>> 32)) by lia.
  pose proof (Z.mod_pos_bound v (2 ^ 32) ltac:(lia)) as Hl.
  assert (Hlog : forall x n, 0 < x < 2 ^ n -> 0 <= n -> 0 <= Z.log2 x < n)
    by (intros x n Hx Hn; split; [apply Z.log2_nonneg|apply Z.log2_lt_pow2; lia]).
  destruct (Z.eqb_spec (v mod 2 ^ 32) 0) as [E|E]; cbn [negb].
  - destruct (Z.eqb_spec (v .>> 32) 0) as [E'|E']; cbn [negb].
    + exfalso. rewrite Z.shiftr_div_pow2 in E' by lia.
      pose proof (Z.div_mod v (2 ^ 32) ltac:(lia)). lia.
    + rewrite fls32_spec by lia. pose proof (Hlog (v .>> 32) 32). split; [lia|].
      replace (32 + (Z.log2 (v .>> 32) + 1) - 1) with (Z.log2 (v .>> 32) + 32) by lia.
      rewrite <- Z.shiftr_spec by lia. apply Z.bit_log2. lia.
  - rewrite fls32_spec by lia. pose proof (Hlog (v mod 2 ^ 32) 32). split; [lia|].
    replace (Z.log2 (v mod 2 ^ 32) + 1 - 1) with (Z.log2 (v mod 2 ^ 32)) by lia.
    rewrite <- (Z.mod_pow2_bits_low v 32) by lia. apply Z.bit_log2. lia.
Qed.

(** ** Bits of a map *)
Definition words (m : list Z) : Prop := Forall (fun w => 0 <= w < 2 ^ 64) m.

Definition word (m : list Z) (j : Z) : Z := nth (Z.to_nat j) m 0.

(** Bit [i] of the map. *)
Definition bit (m : list Z) (i : Z) : bool := Z.testbit (word m (i / 64)) (i mod 64).

Lemma word_range m j : words m -> 0 <= word m j < 2 ^ 64.
Proof.
  intros H. unfold word. destruct (nth_in_or_default (Z.to_nat j) m 0) as [Hin| ->]; [|lia].
  unfold words in H. rewrite Forall_forall in H. apply H. by apply list_elem_of_In.
Qed.

Lemma rd_word m j : 0 <= j < Z.of_nat (length m) -> rd m j = Done (word m j).
Proof.
  intros Hj. unfold rd, word. destruct (Z.leb_spec 0 j); [|lia].
  destruct (m !! Z.to_nat j) as [w|] eqn:E.
  - by rewrite (nth_lookup_Some m _ 0 w E).
  - apply lookup_ge_None in E. lia.
Qed.

Lemma update_word m j f :
  0 <= j < Z.of_nat (length m) ->
  update m j f = Done (<[Z.to_nat j := f (word m j)]> m).
Proof.
  intros Hj. unfold update. rewrite rd_word by done. cbn. unfold wr.
  destruct (Z.leb_spec 0 j), (Z.ltb_spec j (Z.of_nat (length m))); try lia. done.
Qed.

Lemma word_insert m j w q :
  0 <= j < Z.of_nat (length m) -> 0 <= q ->
  word (<[Z.to_nat j := w]> m) q = if q =? j then w else word m q.
Proof.
  intros Hj Hq. unfold word. destruct (Z.eqb_spec q j) as [->|Hne].
  - apply nth_lookup_Some. apply list_lookup_insert_eq. lia.
  - rewrite !nth_lookup, list_lookup_insert_ne by lia. done.
Qed.

Lemma words_insert m j w : words m -> 0 <= w < 2 ^ 64 -> words (<[j := w]> m).
Proof. intros. by apply Forall_insert. Qed.

(** Masks. *)
Lemma shl64_ones_bit n i : 0 <= n -> 0 <= i < 64 -> Z.testbit (shl64 ones64 n) i = (n <=? i).
Proof.
  intros Hn Hi. unfold shl64. rewrite u64_mod, Z.mod_pow2_bits_low, Z.shiftl_spec by lia.
  change ones64 with (Z.ones 64). destruct (Z.leb_spec n i).
  - apply Z.ones_spec_low. lia.
  - apply Z.testbit_neg_r. lia.
Qed.

Lemma ones64_bit i : 0 <= i < 64 -> Z.testbit ones64 i = true.
Proof. intros Hi. apply (Z.ones_spec_low 64 i). lia. Qed.

Lemma shl64_one_bit n i : 0 <= n -> 0 <= i < 64 -> Z.testbit (shl64 1 n) i = (i =? n).
Proof.
  intros Hn Hi. unfold shl64. rewrite u64_mod, Z.mod_pow2_bits_low, Z.shiftl_1_l by lia.
  rewrite Z.pow2_bits_eqb by lia. apply Z.eqb_sym.
Qed.

Lemma not64_bit x i : 0 <= i < 64 -> Z.testbit (not64 x) i = negb (Z.testbit x i).
Proof.
  intros Hi. unfold not64. rewrite u64_mod, Z.mod_pow2_bits_low, Z.lnot_spec by lia. done.
Qed.

Lemma shl64_range x n : 0 <= shl64 x n < 2 ^ 64.
Proof. unfold shl64. rewrite u64_mod. apply Z.mod_pos_bound. lia. Qed.
Lemma not64_range x : 0 <= not64 x < 2 ^ 64.
Proof. unfold not64. rewrite u64_mod. apply Z.mod_pos_bound. lia. Qed.

Lemma lor_range n a b : 0 <= n -> 0 <= a < 2 ^ n -> 0 <= b < 2 ^ n -> 0 <= (a .| b) < 2 ^ n.
Proof.
  intros Hn Ha Hb. apply bits_bound; [lia|apply Z.lor_nonneg; lia|]. intros i Hi.
  rewrite Z.lor_spec, (testbit_high a n), (testbit_high b n) by lia. done.
Qed.

Lemma lxor_range n a b : 0 <= n -> 0 <= a < 2 ^ n -> 0 <= b < 2 ^ n -> 0 <= (a .^ b) < 2 ^ n.
Proof.
  intros Hn Ha Hb. apply bits_bound; [lia|apply Z.lxor_nonneg; lia|]. intros i Hi.
  rewrite Z.lxor_spec, (testbit_high a n), (testbit_high b n) by lia. done.
Qed.

Lemma land_range n a b : 0 <= n -> 0 <= a < 2 ^ n -> 0 <= b -> 0 <= (a .& b) < 2 ^ n.
Proof.
  intros Hn Ha Hb. apply bits_bound; [lia|apply Z.land_nonneg; lia|]. intros i Hi.
  rewrite Z.land_spec, (testbit_high a n) by lia. done.
Qed.

Create HintDb bv.
#[export] Hint Resolve shl64_range not64_range word_range words_insert : bv.
#[export] Hint Extern 5 (0 <= (_ .| _) < 2 ^ 64) => apply lor_range; [lia| |] : bv.
#[export] Hint Extern 5 (0 <= (_ .& _) < 2 ^ 64) => apply land_range; [lia| |] : bv.
#[export] Hint Extern 5 (0 <= shl64 _ _) => apply shl64_range : bv.
#[export] Hint Extern 5 (0 <= not64 _) => apply not64_range : bv.
#[export] Hint Extern 5 (0 <= (_ .| _)) => apply Z.lor_nonneg; split : bv.

Lemma word_app_l m k q : 0 <= q < Z.of_nat (length m) -> word (m ++ k) q = word m q.
Proof. intros. unfold word. apply app_nth1. lia. Qed.

Lemma fill_words_spec m a n v :
  words m -> 0 <= v < 2 ^ 64 -> 0 <= a -> 0 <= n -> a + n <= Z.of_nat (length m) ->
  exists m', fill_words m a n v = Done m' /\ length m' = length m /\ words m'
    /\ forall q, 0 <= q -> word m' q = if (a <=? q) && (q <? a + n) then v else word m q.
Proof.
  intros Hw Hv Ha Hn Hl. unfold fill_words.
  destruct (Z.leb_spec 0 a), (Z.leb_spec 0 n), (Z.leb_spec (a + n) (Z.of_nat (length m))); try lia.
  cbn [andb]. eexists. split; [reflexivity|]. split_and!.
  - rewrite !length_app, length_take, length_replicate, length_drop. lia.
  - unfold words in *. rewrite !Forall_app. split_and!;
      [by apply Forall_take | by apply Forall_replicate | by apply Forall_drop].
  - intros q Hq. unfold word. rewrite !nth_lookup.
    destruct (Z.leb_spec a q); cbn [andb]; [destruct (Z.ltb_spec q (a + n))|].
    + rewrite lookup_app_r by (rewrite length_take; lia). rewrite length_take.
      rewrite lookup_app_l by (rewrite length_replicate; lia).
      by rewrite lookup_replicate_2 by lia.
    + rewrite lookup_app_r by (rewrite length_take; lia). rewrite length_take.
      rewrite lookup_app_r by (rewrite length_replicate; lia). rewrite length_replicate.
      rewrite lookup_drop. f_equal. f_equal. lia.
    + rewrite lookup_app_l by (rewrite length_take; lia).
      rewrite lookup_take_lt by lia. done.
Qed.

(** [i] relates to [s] and [e] as their quotients and remainders do. *)
Lemma divmod64 i : 0 <= i -> i = 64 * (i / 64) + i mod 64 /\ 0 <= i mod 64 < 64 /\ 0 <= i / 64.
Proof.
  intros Hi. pose proof (Z.div_mod i 64). pose proof (Z.mod_pos_bound i 64).
  pose proof (Z.div_pos i 64). lia.
Qed.

(** Compares indices through their quotients and remainders. *)
Ltac bool_lia :=
  repeat match goal with
  | |- context [?a <=? ?b] => destruct (Z.leb_spec a b)
  | |- context [?a <? ?b] => destruct (Z.ltb_spec a b)
  | |- context [?a =? ?b] => destruct (Z.eqb_spec a b)
  end; cbn [andb orb negb]; try lia; try btauto.

(** The two branches of [range_set] and [range_clr]: within one word, and
    across words. *)
Lemma update_bits_spec m j f :
  words m -> 0 <= j < Z.of_nat (length m) -> 0 <= f (word m j) < 2 ^ 64 ->
  exists m', update m j f = Done m' /\ length m' = length m /\ words m'
    /\ forall q, 0 <= q -> word m' q = if q =? j then f (word m q) else word m q.
Proof.
  intros Hm Hj Hf. rewrite update_word by done. eexists. split; [reflexivity|].
  split_and!; [apply length_insert | auto with bv |].
  intros q Hq. rewrite word_insert by lia. by destruct (Z.eqb_spec q j) as [->|].
Qed.

Lemma across_words m sp ep (eb : Z) f g v :
  words m -> 0 <= sp < ep -> ep + (if eb =? 0 then 0 else 1) <= Z.of_nat (length m) ->
  (forall w, 0 <= w < 2 ^ 64 -> 0 <= f w < 2 ^ 64) ->
  (forall w, 0 <= w < 2 ^ 64 -> 0 <= g w < 2 ^ 64) -> 0 <= v < 2 ^ 64 ->
  exists m',
    (m ← update m sp f;
     m ← (if negb (eb =? 0) then update m ep g else Done m);
     fill_words m (sp + 1) (ep - sp - 1) v) = Done m'
    /\ length m' = length m /\ words m'
    /\ forall q, 0 <= q -> word m' q =
         if q =? sp then f (word m q)
         else if (sp <? q) && (q <? ep) then v
         else if (q =? ep) && negb (eb =? 0) then g (word m q) else word m q.
Proof.
  intros Hm Hsp Hep Hf Hg Hv.
  destruct (update_bits_spec m sp f) as (m1 & -> & L1 & W1 & H1);
    [done | destruct (eb =? 0); lia | auto with bv |]. cbn [mbind outcome_bind].
  assert (H2 : exists m2, (if negb (eb =? 0) then update m1 ep g else Done m1) = Done m2
    /\ length m2 = length m /\ words m2
    /\ forall q, 0 <= q -> word m2 q = if (q =? ep) && negb (eb =? 0) then g (word m1 q) else word m1 q).
  { destruct (eb =? 0); cbn [negb].
    - exists m1. split_and!; try done. intros q Hq. by rewrite andb_false_r.
    - destruct (update_bits_spec m1 ep g) as (m2 & -> & L2 & W2 & H2); [done|lia|auto with bv|].
      exists m2. split_and!; [done|lia|done|]. intros q Hq. by rewrite H2, andb_true_r by lia. }
  destruct H2 as (m2 & -> & L2 & W2 & H2). cbn [mbind outcome_bind].
  destruct (fill_words_spec m2 (sp + 1) (ep - sp - 1) v) as (m3 & -> & L3 & W3 & H3);
    [done|done|lia|lia|destruct (eb =? 0); lia|].
  exists m3. split_and!; [done|lia|done|]. intros q Hq. rewrite H3, H2, H1 by lia.
  destruct (Z.eqb_spec q sp), (Z.eqb_spec q ep); bool_lia; destruct (eb =? 0); done || lia.
Qed.

Section ranges.
Context (m : list Z) (s e : Z).
Context (Hm : words m) (Hs : 0 <= s <= e) (He : e <= 64 * Z.of_nat (length m)).

Lemma range_set_spec :
  exists m', range_set m s e = Done m' /\ length m' = length m /\ words m'
    /\ forall i, 0 <= i -> bit m' i = (s <=? i) && (i <? e) || bit m i.
Proof using Hm Hs He.
  unfold range_set, mapbits. destruct (divmod64 s ltac:(lia)) as (Es & Hsb & Hsp).
  destruct (divmod64 e ltac:(lia)) as (Ee & Heb & Hep).
  set (sp := s / 64) in *. set (ep := e / 64) in *. set (sb := s mod 64) in *.
  set (eb := e mod 64) in *.
  destruct (Z.eqb_spec sp ep) as [Eq|Hne].
  - destruct (Z.eqb_spec eb 0) as [E0|E0]; cbn [negb].
    { exists m. split_and!; try done. intros i Hi. bool_lia. }
    destruct (update_bits_spec m sp (fun w => w .| (shl64 ones64 sb .& not64 (shl64 ones64 eb))))
      as (m' & E & L & W & H); [done|lia|auto 6 with bv|].
    exists m'. split_and!; try done. intros i Hi. unfold bit.
    destruct (divmod64 i Hi) as (Ei & Hr & Hq). rewrite H by lia.
    destruct (Z.eqb_spec (i / 64) sp) as [Hn|Hn]; [|bool_lia]. rewrite Hn in *.
    rewrite Z.lor_spec, Z.land_spec, not64_bit, !shl64_ones_bit by lia. bool_lia.
  - destruct (across_words m sp ep eb (fun w => w .| shl64 ones64 sb)
      (fun w => w .| not64 (shl64 ones64 eb)) ones64) as (m' & E & L & W & H);
      [done|lia|destruct (Z.eqb_spec eb 0); lia|auto with bv|auto with bv|unfold ones64; lia|].
    exists m'. split_and!; try done. intros i Hi. unfold bit.
    destruct (divmod64 i Hi) as (Ei & Hr & Hq). rewrite H by lia.
    destruct (Z.eqb_spec (i / 64) sp) as [Esp|Nsp];
      [rewrite Z.lor_spec, shl64_ones_bit by lia; bool_lia|].
    destruct (Z.ltb_spec sp (i / 64)), (Z.ltb_spec (i / 64) ep); cbn [andb];
      try (rewrite ones64_bit by lia; bool_lia);
      destruct (Z.eqb_spec (i / 64) ep), (Z.eqb_spec eb 0); cbn [andb negb]; try lia;
      rewrite ?Z.lor_spec, ?not64_bit, ?shl64_ones_bit by lia; bool_lia.
Qed.

Lemma range_clr_spec :
  exists m', range_clr m s e = Done m' /\ length m' = length m /\ words m'
    /\ forall i, 0 <= i -> bit m' i = negb ((s <=? i) && (i <? e)) && bit m i.
Proof using Hm Hs He.
  unfold range_clr, mapbits. destruct (divmod64 s ltac:(lia)) as (Es & Hsb & Hsp).
  destruct (divmod64 e ltac:(lia)) as (Ee & Heb & Hep).
  set (sp := s / 64) in *. set (ep := e / 64) in *. set (sb := s mod 64) in *.
  set (eb := e mod 64) in *.
  destruct (Z.eqb_spec sp ep) as [Eq|Hne].
  - destruct (Z.eqb_spec eb 0) as [E0|E0]; cbn [negb].
    { exists m. split_and!; try done. intros i Hi. bool_lia. }
    destruct (update_bits_spec m sp (fun w => w .& (not64 (shl64 ones64 sb) .| shl64 ones64 eb)))
      as (m' & E & L & W & H); [done|lia|auto 6 with bv|].
    exists m'. split_and!; try done. intros i Hi. unfold bit.
    destruct (divmod64 i Hi) as (Ei & Hr & Hq). rewrite H by lia.
    destruct (Z.eqb_spec (i / 64) sp) as [Hn|Hn]; [|bool_lia]. rewrite Hn in *.
    rewrite Z.land_spec, Z.lor_spec, not64_bit, !shl64_ones_bit by lia. bool_lia.
  - destruct (across_words m sp ep eb (fun w => w .& not64 (shl64 ones64 sb))
      (fun w => w .& shl64 ones64 eb) 0) as (m' & E & L & W & H);
      [done|lia|destruct (Z.eqb_spec eb 0); lia|auto with bv|auto with bv|lia|].
    exists m'. split_and!; try done. intros i Hi. unfold bit.
    destruct (divmod64 i Hi) as (Ei & Hr & Hq). rewrite H by lia.
    destruct (Z.eqb_spec (i / 64) sp) as [Esp|Nsp];
      [rewrite Z.land_spec, not64_bit, shl64_ones_bit by lia; bool_lia|].
    destruct (Z.ltb_spec sp (i / 64)), (Z.ltb_spec (i / 64) ep); cbn [andb];
      try (rewrite Z.bits_0; bool_lia);
      destruct (Z.eqb_spec (i / 64) ep), (Z.eqb_spec eb 0); cbn [andb negb]; try lia;
      rewrite ?Z.land_spec, ?shl64_ones_bit by lia; bool_lia.
Qed.

End ranges.

(** ** Bit vectors *)
Definition nwords (nb : Z) : Z := (nb + 63) / 64.

Record bv_ok (b : bitvec) : Prop := {
  bv_nbits : 0 <= nbits b;
  bv_words : words (map b);
  bv_length : Z.of_nat (length (map b)) = nwords (nbits b)
}.

Lemma nwords_bounds nb : 0 <= nb -> nb <= 64 * nwords nb < nb + 64.
Proof.
  intros H. unfold nwords. pose proof (Z.div_mod (nb + 63) 64).
  pose proof (Z.mod_pos_bound (nb + 63) 64). lia.
Qed.

Lemma nbytes_words nb : nbytes nb / sizeof_map_t = nwords nb.
Proof. unfold nbytes, sizeof_map_t, mapbits, nwords. rewrite Z.div_mul by lia. f_equal. lia. Qed.

Section allocation.
Context (junk : nat -> Z) (Hjunk : forall i, 0 <= junk i < 2 ^ 64).

Lemma datalloc_spec m nb :
  words m -> 0 <= nb ->
  words (datalloc junk m nb) /\ Z.of_nat (length (datalloc junk m nb)) = nwords nb
  /\ forall q, 0 <= q < nwords nb -> q < Z.of_nat (length m) -> word (datalloc junk m nb) q = word m q.
Proof using Hjunk.
  intros Hm Hnb. unfold datalloc. destruct (Z.eqb_spec nb 0) as [->|Hne].
  { split_and!; [constructor|done|]. intros q Hq. change (nwords 0) with 0 in Hq. lia. }
  rewrite nbytes_words. pose proof (nwords_bounds nb Hnb). unfold realloc_words. split_and!.
  - unfold words in *. rewrite Forall_app. split; [by apply Forall_take|].
    apply Forall_fmap, Forall_forall. intros i _. apply Hjunk.
  - rewrite length_app, length_take, length_fmap, length_seq. lia.
  - intros q Hq Hq'. rewrite word_app_l by (rewrite length_take; lia).
    unfold word. rewrite !nth_lookup, lookup_take_lt by lia. done.
Qed.

Lemma bit_datalloc m nb i :
  words m -> 0 <= i < nb -> i < 64 * Z.of_nat (length m) -> bit (datalloc junk m nb) i = bit m i.
Proof using Hjunk.
  intros Hm Hi Hl. unfold bit. f_equal. destruct (divmod64 i ltac:(lia)) as (Ei & Hr & Hq).
  pose proof (nwords_bounds nb ltac:(lia)). apply datalloc_spec; [done|lia|lia|lia].
Qed.

Lemma zsetsize_spec b n :
  bv_ok b -> 0 <= n ->
  exists b', zsetsize junk b n = Done b' /\ bv_ok b' /\ nbits b' = n
    /\ forall i, 0 <= i < n -> bit (map b') i = (i <? nbits b) && bit (map b) i.
Proof using Hjunk.
  intros [Hnb Hw Hl] Hn. unfold zsetsize.
  destruct (datalloc_spec (map b) n Hw Hn) as (W & L & _).
  pose proof (nwords_bounds n Hn). pose proof (nwords_bounds (nbits b) Hnb).
  assert (Hold : forall i, 0 <= i < n -> i < nbits b -> bit (datalloc junk (map b) n) i = bit (map b) i)
    by (intros; apply bit_datalloc; [done|lia|lia]).
  destruct (Z.ltb_spec (nbits b) n) as [Hlt|Hge].
  - destruct (range_clr_spec (datalloc junk (map b) n) (nbits b) n) as (m & -> & Lm & Wm & Hm);
      [done|lia|lia|].
    eexists. split; [reflexivity|]. split_and!; [split; cbn; lia || done|done|].
    intros i Hi. cbn. rewrite Hm by lia. destruct (Z.ltb_spec i (nbits b)).
    + rewrite Hold by lia. bool_lia.
    + bool_lia.
  - eexists. split; [reflexivity|]. split_and!; [split; cbn; lia || done|done|].
    intros i Hi. cbn. destruct (Z.ltb_spec i (nbits b)); [|lia]. by rewrite Hold by lia.
Qed.

Lemma osetsize_spec b n :
  bv_ok b -> 0 <= n ->
  exists b', osetsize junk b n = Done b' /\ bv_ok b' /\ nbits b' = n
    /\ forall i, 0 <= i < n -> bit (map b') i = (nbits b <=? i) || bit (map b) i.
Proof using Hjunk.
  intros [Hnb Hw Hl] Hn. unfold osetsize.
  destruct (datalloc_spec (map b) n Hw Hn) as (W & L & _).
  pose proof (nwords_bounds n Hn). pose proof (nwords_bounds (nbits b) Hnb).
  assert (Hold : forall i, 0 <= i < n -> i < nbits b -> bit (datalloc junk (map b) n) i = bit (map b) i)
    by (intros; apply bit_datalloc; [done|lia|lia]).
  destruct (Z.ltb_spec (nbits b) n) as [Hlt|Hge].
  - destruct (range_set_spec (datalloc junk (map b) n) (nbits b) n) as (m & -> & Lm & Wm & Hm);
      [done|lia|lia|].
    eexists. split; [reflexivity|]. split_and!; [split; cbn; lia || done|done|].
    intros i Hi. cbn. rewrite Hm by lia. destruct (Z.leb_spec (nbits b) i).
    + bool_lia.
    + rewrite Hold by lia. bool_lia.
  - eexists. split; [reflexivity|]. split_and!; [split; cbn; lia || done|done|].
    intros i Hi. cbn. destruct (Z.leb_spec (nbits b) i); [lia|]. by rewrite Hold by lia.
Qed.

Lemma bitvec_assign_spec b v :
  bv_ok b -> bv_ok v -> bitvec_assign junk b v = Done v.
Proof using Hjunk.
  intros [Hnb Hw Hl] [Hnv Wv Lv]. unfold bitvec_assign. cbn [setsize nbits map].
  rewrite nbytes_words. destruct (datalloc_spec (map b) (nbits v) Hw Hnv) as (W & L & _).
  pose proof (nwords_bounds (nbits v) Hnv).
  destruct (Z.leb_spec (nwords (nbits v)) (Z.of_nat (length (map v)))); [|lia].
  destruct (Z.leb_spec (nwords (nbits v)) (Z.of_nat (length (datalloc junk (map b) (nbits v))))); [|lia].
  cbn [andb]. rewrite take_ge, drop_ge, app_nil_r by lia. by destruct v.
Qed.

End allocation.

Lemma at_spec b i : bv_ok b -> 0 <= i < nbits b -> at_ b i = Done (bit (map b) i).
Proof.
  intros [Hnb Hw Hl] Hi. pose proof (nwords_bounds (nbits b) Hnb).
  destruct (divmod64 i ltac:(lia)) as (Ei & Hr & Hq).
  unfold at_, bcheck, mapbits. destruct (Z.leb_spec 0 i), (Z.ltb_spec i (nbits b)); try lia.
  cbn. rewrite rd_word by lia. cbn. f_equal. unfold bit.
  set (w := word (map b) (i / 64)). set (r := i mod 64) in *.
  assert (E : (w .& shl64 1 r) = if Z.testbit w r then 2 ^ r else 0).
  { apply Z.bits_inj'. intros j Hj. rewrite Z.land_spec.
    destruct (Z.lt_ge_cases j 64) as [Hj64|Hj64].
    - rewrite shl64_one_bit by lia. destruct (Z.eqb_spec j r) as [->|Hne].
      + destruct (Z.testbit w r); [by rewrite Z.pow2_bits_true by lia|by rewrite Z.bits_0].
      + rewrite andb_false_r. destruct (Z.testbit w r); [|by rewrite Z.bits_0].
        by rewrite Z.pow2_bits_false by lia.
    - rewrite (testbit_high (shl64 1 r) 64) by (try apply shl64_range; lia).
      rewrite andb_false_r. destruct (Z.testbit w r); [|by rewrite Z.bits_0].
      by rewrite Z.pow2_bits_false by lia. }
  rewrite E. destruct (Z.testbit w r); [|done].
  pose proof (Z.pow_pos_nonneg 2 r). destruct (Z.eqb_spec (2 ^ r) 0); [lia|done].
Qed.

(** A bit of one word is changed: the others stay. *)
Lemma update_bit_spec b i f (g : bool -> bool) :
  bv_ok b -> 0 <= i < nbits b -> (forall w, 0 <= w < 2 ^ 64 -> 0 <= f w < 2 ^ 64) ->
  (forall w j, 0 <= j < 64 -> Z.testbit (f w) j = if j =? i mod 64 then g (Z.testbit w j) else Z.testbit w j) ->
  exists b', mbind (M := outcome) (fun m => Done (mkbv m (nbits b))) (update (map b) (i / 64) f) = Done b'
    /\ bv_ok b' /\ nbits b' = nbits b /\ length (map b') = length (map b)
    /\ forall j, 0 <= j -> bit (map b') j = if j =? i then g (bit (map b) i) else bit (map b) j.
Proof.
  intros [Hnb Hw Hl] Hi Hf Hb. pose proof (nwords_bounds (nbits b) Hnb).
  destruct (divmod64 i ltac:(lia)) as (Ei & Hr & Hq).
  destruct (update_bits_spec (map b) (i / 64) f) as (m & -> & L & W & Hm);
    [done|lia|auto with bv|].
  eexists. split; [reflexivity|]. split_and!; [split; cbn; lia || done|done|done|].
  intros j Hj. cbn. unfold bit. destruct (divmod64 j Hj) as (Ej & Hrj & Hqj).
  rewrite Hm by lia. destruct (Z.eqb_spec (j / 64) (i / 64)) as [Eq|Eq].
  - rewrite Hb by lia. destruct (Z.eqb_spec (j mod 64) (i mod 64)) as [Em|Em], (Z.eqb_spec j i) as [->|]; lia || done.
  - destruct (Z.eqb_spec j i); [lia|done].
Qed.

Lemma setbit_spec b i val :
  bv_ok b -> 0 <= i < nbits b ->
  exists b', setbit b i val = Done b' /\ bv_ok b' /\ nbits b' = nbits b
    /\ length (map b') = length (map b)
    /\ forall j, 0 <= j -> bit (map b') j = if j =? i then val else bit (map b) j.
Proof.
  intros Hbv Hi. destruct (divmod64 i ltac:(lia)) as (_ & Hr & _).
  unfold setbit, bcheck, mapbits. destruct (Z.leb_spec 0 i), (Z.ltb_spec i (nbits b)); try lia.
  cbn [andb assertM mbind outcome_bind].
  destruct val; [apply (update_bit_spec b i _ (fun _ => true))|apply (update_bit_spec b i _ (fun _ => false))]; try done.
  - auto with bv.
  - intros w j Hj. rewrite Z.lor_spec, shl64_one_bit by lia. bool_lia.
  - auto with bv.
  - intros w j Hj. rewrite Z.land_spec, not64_bit, shl64_one_bit by lia. bool_lia.
Qed.

Lemma wbit_xor_spec b i val :
  bv_ok b -> 0 <= i < nbits b ->
  exists b', wbit_xor b i val = Done b' /\ bv_ok b' /\ nbits b' = nbits b
    /\ length (map b') = length (map b)
    /\ forall j, 0 <= j -> bit (map b') j = if j =? i then xorb (bit (map b) i) val else bit (map b) j.
Proof.
  intros Hbv Hi. destruct (divmod64 i ltac:(lia)) as (_ & Hr & _).
  unfold wbit_xor, bcheck, mapbits. destruct (Z.leb_spec 0 i), (Z.ltb_spec i (nbits b)); try lia.
  cbn [andb assertM mbind outcome_bind].
  apply (update_bit_spec b i _ (fun v => xorb v val)); try done.
  - intros w Hw. apply lxor_range; [lia|done|auto with bv].
  - intros w j Hj. rewrite Z.lxor_spec. destruct val.
    + change (Z.b2z true) with 1. rewrite shl64_one_bit by lia. destruct (j =? i mod 64); [done|apply xorb_false_r].
    + change (shl64 (Z.b2z false) (i mod 64)) with (shl64 0 (i mod 64)).
      assert (E : shl64 0 (i mod 64) = 0) by (unfold shl64; by rewrite Z.shiftl_0_l). rewrite E, Z.bits_0, !xorb_false_r. by destruct (j =? i mod 64).
Qed.

Lemma setrange_spec b s e v :
  bv_ok b -> 0 <= s <= e -> e <= nbits b ->
  exists b', setrange b s e v = Done b' /\ bv_ok b' /\ nbits b' = nbits b
    /\ forall i, 0 <= i -> bit (map b') i = if (s <=? i) && (i <? e) then v else bit (map b) i.
Proof.
  intros [Hnb Hw Hl] Hs He. pose proof (nwords_bounds (nbits b) Hnb).
  unfold setrange, rcheck. destruct (Z.leb_spec s e), (Z.leb_spec e (nbits b)); try lia.
  cbn [andb assertM mbind outcome_bind]. destruct v.
  - destruct (range_set_spec (map b) s e Hw Hs ltac:(lia)) as (m & -> & L & W & Hm).
    eexists. split; [reflexivity|]. split_and!; [split; cbn; lia || done|done|].
    intros i Hi. cbn. rewrite Hm by done. by destruct ((s <=? i) && (i <? e)).
  - destruct (range_clr_spec (map b) s e Hw Hs ltac:(lia)) as (m & -> & L & W & Hm).
    eexists. split; [reflexivity|]. split_and!; [split; cbn; lia || done|done|].
    intros i Hi. cbn. rewrite Hm by done. by destruct ((s <=? i) && (i <? e)).
Qed.

Lemma swap_spec a b : swap a b = (b, a).
Proof. by destruct a, b. Qed.

Lemma bitvec_cat_spec v :
  bv_ok v -> bitvec_cat v = Done ((fun i => if bit (map v) i then 49 else 48) <$> seqZ 0 (nbits v)).
Proof.
  intros Hv. unfold bitvec_cat.
  assert (Hall : forall i, i ∈ seqZ 0 (nbits v) -> 0 <= i < nbits v)
    by (intros i Hi%elem_of_seqZ; lia).
  induction (seqZ 0 (nbits v)) as [|i l IH]; [done|]. cbn.
  rewrite at_spec by (try done; apply Hall; by left). cbn.
  rewrite IH by (intros j Hj; apply Hall; by right). done.
Qed.

(** ** Properties *)

(** [fls64] is the position of the most significant bit, counted from 1
    (0 for 0), and [log2c64] the logarithm rounded up (-1 for 0), for every
    64-bit value. *)
Theorem msb_logarithms v :
  0 <= v < 2 ^ 64 ->
  fls64 v = (if v =? 0 then 0 else Z.log2 v + 1)
  /\ log2c64 v = (if v =? 0 then -1 else Z.log2_up v).
Proof.
  intros Hv. destruct (Z.eqb_spec v 0) as [->|]; [done|].
  split; [apply fls64_spec|apply log2c64_spec]; lia.
Qed.

Lemma msb_logarithms_witness : fls64 65537 = 17 /\ log2c64 65537 = 17.
Proof. apply (msb_logarithms 65537). lia. Defined.

(** [ffs32] is the least significant bit of its argument, but [ffs64],
    said to be the 64-bit version, gives some other bit of it: it looks for
    the most significant bit of the low word, and for 3 it answers 2. *)
Theorem ffs_least_bit :
  (forall v, 0 < v < 2 ^ 32 -> is_lsb v (ffs32 v - 1))
  /\ (forall v, 0 < v < 2 ^ 64 -> Z.testbit v (ffs64 v - 1) = true)
  /\ ~ is_lsb 3 (ffs64 3 - 1).
Proof.
  split; [apply ffs32_spec|]. split; [intros v Hv; by apply ffs64_some_bit|].
  intros (_ & _ & H). specialize (H 0 ltac:(vm_compute; split; congruence)). done.
Qed.

(** [setrange] sets the bits of a range, across any number of words, to
    the value given and leaves all other bits alone; growing a vector with
    [zsetsize] keeps the bits there were and adds zeros, whatever the memory
    held. *)
Theorem bitvec_ranges junk b n s e v :
  (forall i, 0 <= junk i < 2 ^ 64) -> bv_ok b -> nbits b <= n -> 0 <= s <= e -> e <= n ->
  exists b1 b2, zsetsize junk b n = Done b1 /\ setrange b1 s e v = Done b2
    /\ bv_ok b2 /\ nbits b2 = n
    /\ forall i, 0 <= i < n -> at_ b2 i = Done
         (if (s <=? i) && (i <? e) then v else (i <? nbits b) && bit (map b) i).
Proof.
  intros Hj Hb Hn Hs He. pose proof (bv_nbits _ Hb).
  destruct (zsetsize_spec junk Hj b n Hb ltac:(lia)) as (b1 & E1 & H1 & N1 & B1).
  destruct (setrange_spec b1 s e v H1 Hs ltac:(lia)) as (b2 & E2 & H2 & N2 & B2).
  exists b1, b2. split_and!; try done; [lia|]. intros i Hi.
  rewrite at_spec by (done || lia). by rewrite B2, B1 by lia.
Qed.

Lemma bitvec_ranges_witness :
  exists b1 b2, zsetsize (fun _ => 7) bitvec_init 200 = Done b1 /\ setrange b1 60 130 true = Done b2
    /\ bv_ok b2 /\ nbits b2 = 200
    /\ forall i, 0 <= i < 200 -> at_ b2 i = Done
         (if (60 <=? i) && (i <? 130) then true else (i <? 0) && bit [] i).
Proof.
  apply (bitvec_ranges (fun _ => 7) bitvec_init 200 60 130 true).
  - intros i. lia.
  - split; cbn; [lia|constructor|done].
  - cbn. lia.
  - lia.
  - lia.
Defined.
