(* ===== verification/Seqno.v ===== *)
(** * The replay window: [crypt/seqno.C]

    [seqcheck] accepts a sequence number once.  It keeps a lower bound and
    two bit vectors for the numbers right above it; numbers below the bound
    are refused. *)
From Stdlib Require Import ZArith Lia.
From stdpp Require Import prelude sorting.
From S2P Require Import Prelude Bits.

Record seqcheck := mksc {
  bottom : Z;
  sc_nbits : Z;
  bv0 : bitvec;
  bv1 : bitvec
}.

Definition seqcheck_new (junk : nat -> Z) (n : Z) : outcome seqcheck :=
  a ← zsetsize junk bitvec_init n;
  b ← zsetsize junk bitvec_init n;
  Done (mksc 0 n a b).

(** The part of [check] in front of the look-up: the window moves up until
    it covers the number; returns the number relative to the new bound. *)
Definition check_slide (st : seqcheck) (seqno : Z) : outcome (seqcheck * Z) :=
  let n := sc_nbits st in
  if u64 (3 * n) <=? seqno then
    a ← setrange (bv0 st) 0 n false;
    b ← setrange (bv1 st) 0 n false;
    Done (mksc (u64 (bottom st + seqno)) n a b, 0)
  else if u64 (2 * n) <=? seqno then
    let '(a, b) := swap (bv0 st) (bv1 st) in
    b ← setrange b 0 n false;
    Done (mksc (u64 (bottom st + n)) n a b, seqno - n)
  else Done (st, seqno).

Definition check (st : seqcheck) (seqno : Z) : outcome (bool * seqcheck) :=
  if seqno <? bottom st then Done (false, st)
  else
    sq ← check_slide st (seqno - bottom st);
    let '(st, seqno) := sq : seqcheck * Z in
    let n := sc_nbits st in
    if n <=? seqno then
      v ← at_ (bv1 st) (seqno - n);
      if v : bool then Done (false, st)
      else b ← setbit (bv1 st) (seqno - n) true; Done (true, mksc (bottom st) n (bv0 st) b)
    else
      v ← at_ (bv0 st) seqno;
      if v : bool then Done (false, st)
      else a ← setbit (bv0 st) seqno true; Done (true, mksc (bottom st) n a (bv1 st)).

(** A sequence of calls, with the answers. *)
Fixpoint check_all (st : seqcheck) (l : list Z) : outcome (list bool * seqcheck) :=
  match l with
  | [] => Done ([], st)
  | s :: l =>
      r ← check st s;
      let '(v, st) := r : bool * seqcheck in
      rs ← check_all st l;
      let '(vs, st) := rs : list bool * seqcheck in
      Done (v :: vs, st)
  end.

(** ** Specification

    [seen] lists the numbers accepted so far. *)
Definition accepts (bot : Z) (seen : list Z) (s : Z) : Prop := bot <= s /\ s ∉ seen.

#[export] Instance accepts_dec bot seen s : Decision (accepts bot seen s).
Proof. unfold accepts. apply _. Defined.

(** The bit that stands for [s]. *)
Definition recorded (st : seqcheck) (s : Z) : bool :=
  let d := s - bottom st in
  if d <? sc_nbits st then bit (map (bv0 st)) d else bit (map (bv1 st)) (d - sc_nbits st).

Record sc_ok (st : seqcheck) (seen : list Z) : Prop := {
  ok_nbits : 0 < sc_nbits st /\ 3 * sc_nbits st < 2 ^ 64;
  ok_bottom : 0 <= bottom st < 2 ^ 64;
  ok_bv0 : bv_ok (bv0 st) /\ nbits (bv0 st) = sc_nbits st;
  ok_bv1 : bv_ok (bv1 st) /\ nbits (bv1 st) = sc_nbits st;
  ok_seen : forall s, bottom st <= s < bottom st + 2 * sc_nbits st ->
    recorded st s = true <-> s ∈ seen;
  ok_max : forall s, s ∈ seen -> s < bottom st + 2 * sc_nbits st;
  ok_reach : bottom st = 0 \/ exists s, s ∈ seen /\ bottom st <= s
}.

Lemma bitvec_init_ok : bv_ok bitvec_init.
Proof. split; cbn; [lia|constructor|done]. Qed.

Lemma seqcheck_new_ok junk n :
  (forall i, 0 <= junk i < 2 ^ 64) -> 0 < n -> 3 * n < 2 ^ 64 ->
  exists st, seqcheck_new junk n = Done st /\ sc_ok st [] /\ bottom st = 0 /\ sc_nbits st = n.
Proof.
  intros Hj Hn H3. unfold seqcheck_new.
  destruct (zsetsize_spec junk Hj bitvec_init n bitvec_init_ok ltac:(lia))
    as (a & -> & Ha & Na & Ba). cbn [mbind outcome_bind].
  eexists. split; [reflexivity|]. split; [|done]. split; cbn; try done; try lia.
  - intros s Hs. unfold recorded. cbn.
    split; [|by intros ?%elem_of_nil]. destruct (Z.ltb_spec (s - 0) n).
    + rewrite Ba by lia. cbn. destruct (Z.ltb_spec (s - 0) 0); [lia|done].
    + rewrite Ba by lia. cbn. destruct (Z.ltb_spec (s - 0 - n) 0); [lia|done].
  - by intros s ?%elem_of_nil.
Qed.

(** The window has moved: it covers [s], no accepted number is forgotten
    that is still above the bound. *)
Lemma check_slide_spec st seen s :
  sc_ok st seen -> bottom st <= s < 2 ^ 64 ->
  exists st', check_slide st (s - bottom st) = Done (st', s - bottom st')
    /\ bottom st <= bottom st' <= s /\ s < bottom st' + 2 * sc_nbits st'
    /\ sc_nbits st' = sc_nbits st
    /\ (bottom st' = bottom st \/ s ∉ seen)
    /\ (bv_ok (bv0 st') /\ nbits (bv0 st') = sc_nbits st)
    /\ (bv_ok (bv1 st') /\ nbits (bv1 st') = sc_nbits st)
    /\ (forall s', bottom st' <= s' < bottom st' + 2 * sc_nbits st ->
          recorded st' s' = true <-> s' ∈ seen)
    /\ (forall s', s' ∈ seen -> s' < bottom st' + 2 * sc_nbits st).
Proof.
  intros [[Hn H3] Hb [H0 N0] [H1 N1] Hseen Hmax _] Hs. unfold check_slide.
  set (n := sc_nbits st) in *. rewrite !(u64_small (_ * n)) by lia.
  destruct (Z.leb_spec (3 * n) (s - bottom st)).
  - destruct (setrange_spec (bv0 st) 0 n false H0) as (a & -> & Ha & Na & Ba); [lia..|].
    destruct (setrange_spec (bv1 st) 0 n false H1) as (b & -> & Hb' & Nb & Bb); [lia..|].
    cbn [mbind outcome_bind]. rewrite u64_small by lia.
    replace (bottom st + (s - bottom st)) with s by lia.
    eexists. split; [do 2 f_equal; cbn; lia|]. cbn.
    assert (Hns : s ∉ seen) by (intros Hin; specialize (Hmax _ Hin); lia).
    split_and!; try lia; try done; [by right| |].
    + intros s' Hs'. unfold recorded. cbn.
      split; [|intros Hin; specialize (Hmax _ Hin); lia]. fold n.
      destruct (Z.ltb_spec (s' - s) n); [rewrite Ba by lia|rewrite Bb by lia].
      * destruct (Z.leb_spec 0 (s' - s)), (Z.ltb_spec (s' - s) n); cbn; lia || done.
      * destruct (Z.leb_spec 0 (s' - s - n)), (Z.ltb_spec (s' - s - n) n); cbn; lia || done.
    + intros s' Hin. specialize (Hmax _ Hin). lia.
  - destruct (Z.leb_spec (2 * n) (s - bottom st)).
    + rewrite swap_spec.
      destruct (setrange_spec (bv0 st) 0 n false H0) as (b & -> & Hb' & Nb & Bb); [lia..|].
      cbn [mbind outcome_bind]. rewrite u64_small by lia.
      eexists. split; [do 2 f_equal; cbn; lia|]. cbn.
      assert (Hns : s ∉ seen) by (intros Hin; specialize (Hmax _ Hin); lia).
      split_and!; try lia; try done; [by right| |].
      * intros s' Hs'. unfold recorded. cbn. fold n.
        destruct (Z.ltb_spec (s' - (bottom st + n)) n).
        -- rewrite <- Hseen by lia. unfold recorded. fold n.
           destruct (Z.ltb_spec (s' - bottom st) n); [lia|].
           by replace (s' - (bottom st + n)) with (s' - bottom st - n) by lia.
        -- rewrite Bb by lia.
           destruct (Z.leb_spec 0 (s' - (bottom st + n) - n)),
             (Z.ltb_spec (s' - (bottom st + n) - n) n); cbn; try lia.
           split; [done|]. intros Hin. specialize (Hmax _ Hin). lia.
      * intros s' Hin. specialize (Hmax _ Hin). lia.
    + eexists. split; [reflexivity|]. fold n. split_and!; try lia; try done.
Qed.

Lemma seq_check_spec st seen s :
  sc_ok st seen -> 0 <= s < 2 ^ 64 ->
  let v := bool_decide (accepts (bottom st) seen s) in
  exists st', check st s = Done (v, st') /\ sc_ok st' (if v then s :: seen else seen)
    /\ bottom st <= bottom st'.
Proof.
  intros Hok Hs v. unfold check.
  destruct (Z.ltb_spec s (bottom st)) as [Hlt|Hge].
  { assert (Hv : v = false) by (unfold v; apply bool_decide_false; unfold accepts; lia).
    rewrite Hv. exists st. by split_and!. }
  destruct (check_slide_spec st seen s Hok ltac:(lia))
    as (st' & -> & Hbot & Hwin & Hn' & Hmv & [H0 N0] & [H1 N1] & Hrec & Hmax).
  cbn [mbind outcome_bind]. pose proof (ok_nbits _ _ Hok) as [Hn H3].
  pose proof (ok_bottom _ _ Hok).
  set (n := sc_nbits st') in *. set (d := s - bottom st') in *.
  assert (Hvr : v = negb (recorded st' s)).
  { pose proof (Hrec s ltac:(lia)) as Hr. unfold v. destruct (recorded st' s); cbn.
    - apply bool_decide_false. unfold accepts. tauto.
    - apply bool_decide_true. split; [done|]. intros Hin. by apply Hr in Hin. }
  assert (Hkeep : v = false -> sc_ok st' seen).
  { intros Ev. rewrite Ev in Hvr. assert (Hin : s ∈ seen)
      by (apply Hrec; [lia|]; by destruct (recorded st' s)).
    rewrite <- Hn' in *. split; fold n; try done; [lia|].
    right. exists s. split; [done|lia]. }
  (* the state after a bit is set *)
  assert (Hset : forall a b,
    (bv_ok a /\ nbits a = n) -> (bv_ok b /\ nbits b = n) ->
    (forall s', bottom st' <= s' < bottom st' + 2 * n ->
       recorded (mksc (bottom st') n a b) s' = (s' =? s) || recorded st' s') ->
    sc_ok (mksc (bottom st') n a b) (s :: seen)).
  { intros a b Ha Hb Hr. split; cbn [bottom sc_nbits bv0 bv1]; try done; try lia.
    - intros s' Hs'. rewrite Hr by lia. rewrite elem_of_cons, orb_true_iff, Hrec by lia.
      by rewrite Z.eqb_eq.
    - intros s' [->|Hin]%elem_of_cons; [lia|]. specialize (Hmax _ Hin). lia.
    - right. exists s. split; [by left|lia]. }
  unfold recorded in Hvr. fold n d in Hvr.
  destruct (Z.leb_spec n d) as [Hnd|Hnd].
  - destruct (Z.ltb_spec d n); [lia|]. rewrite at_spec by (try done; lia).
    cbn [mbind outcome_bind]. destruct (bit (map (bv1 st')) (d - n)) eqn:Eb; cbn in Hvr.
    { rewrite Hvr. exists st'. split_and!; [done|auto|lia]. }
    destruct (setbit_spec (bv1 st') (d - n) true H1 ltac:(lia)) as (b & -> & Hb & Nb & _ & Bb).
    cbn [mbind outcome_bind]. rewrite Hvr. eexists. split; [reflexivity|]. split; [|cbn; lia].
    apply Hset; [split; congruence|split; congruence|].
    intros s' Hs'. unfold recorded. cbn [bottom sc_nbits bv0 bv1]. fold n.
    destruct (Z.ltb_spec (s' - bottom st') n).
    + destruct (Z.eqb_spec s' s); [lia|done].
    + rewrite Bb by lia. destruct (Z.eqb_spec (s' - bottom st' - n) (d - n)), (Z.eqb_spec s' s); lia || done.
  - destruct (Z.ltb_spec d n); [|lia]. rewrite at_spec by (try done; lia).
    cbn [mbind outcome_bind]. destruct (bit (map (bv0 st')) d) eqn:Eb; cbn in Hvr.
    { rewrite Hvr. exists st'. split_and!; [done|auto|lia]. }
    destruct (setbit_spec (bv0 st') d true H0 ltac:(lia)) as (b & -> & Hb & Nb & _ & Bb).
    cbn [mbind outcome_bind]. rewrite Hvr. eexists. split; [reflexivity|]. split; [|cbn; lia].
    apply Hset; [split; congruence|split; congruence|].
    intros s' Hs'. unfold recorded. cbn [bottom sc_nbits bv0 bv1]. fold n.
    destruct (Z.ltb_spec (s' - bottom st') n).
    + rewrite Bb by lia. destruct (Z.eqb_spec (s' - bottom st') d), (Z.eqb_spec s' s); lia || done.
    + destruct (Z.eqb_spec s' s); [lia|done].
Qed.

(** ** Sequences of calls *)
(** The numbers that were answered with [true]. *)
Fixpoint accepted (l : list Z) (vs : list bool) : list Z :=
  match l, vs with
  | s :: l, v :: vs => if v : bool then s :: accepted l vs else accepted l vs
  | _, _ => []
  end.

Lemma check_all_spec st seen l :
  sc_ok st seen -> Forall (fun s => 0 <= s < 2 ^ 64) l ->
  exists vs st', check_all st l = Done (vs, st') /\ length vs = length l
    /\ sc_ok st' (reverse (accepted l vs) ++ seen)
    /\ NoDup (accepted l vs) /\ (forall s, s ∈ accepted l vs -> s ∉ seen).
Proof.
  intros Hok Hl. revert st seen Hok. induction Hl as [|s l Hs _ IH]; intros st seen Hok.
  { exists [], st. split_and!; try done; [constructor|set_solver]. }
  destruct (seq_check_spec st seen s Hok Hs) as (st1 & E1 & Hok1 & _).
  cbn [check_all]. rewrite E1. cbn [mbind outcome_bind].
  set (v := bool_decide (accepts (bottom st) seen s)) in *.
  destruct (IH st1 _ Hok1) as (vs & st2 & E2 & Hlen & Hok2 & Hnd & Hnew).
  rewrite E2. exists (v :: vs), st2. split; [done|]. split; [cbn; lia|].
  destruct v eqn:Ev; cbn [accepted]; [|by split_and!].
  assert (Hacc : accepts (bottom st) seen s) by (exact (proj1 (bool_decide_eq_true _) Ev)).
  split_and!.
  - by rewrite reverse_cons, <- app_assoc.
  - apply NoDup_cons. split; [|done]. intros Hin. apply (Hnew _ Hin). by left.
  - intros s' [->|Hin]%elem_of_cons; [apply Hacc|]. specialize (Hnew _ Hin). set_solver.
Qed.

(** Numbers in increasing order are all accepted. *)
Lemma check_all_increasing st seen l :
  sc_ok st seen -> Forall (fun s => 0 <= s < 2 ^ 64) l -> StronglySorted Z.lt l ->
  (forall s s', s ∈ l -> s' ∈ seen -> s' < s) ->
  exists st', check_all st l = Done (replicate (length l) true, st').
Proof.
  intros Hok Hl Hsort Hgt. revert st seen Hok Hgt. induction Hl as [|s l Hs _ IH]; intros st seen Hok Hgt.
  { by exists st. }
  apply StronglySorted_inv in Hsort as [Hsort Hlt]. rewrite Forall_forall in Hlt.
  destruct (seq_check_spec st seen s Hok Hs) as (st1 & E1 & Hok1 & _).
  assert (Hacc : bool_decide (accepts (bottom st) seen s) = true).
  { apply bool_decide_true. split.
    - destruct (ok_reach _ _ Hok) as [->|(s' & Hin & Hle)]; [lia|].
      specialize (Hgt s s' ltac:(by left) Hin). lia.
    - intros Hin. specialize (Hgt s s ltac:(by left) Hin). lia. }
  cbn [check_all]. rewrite E1, Hacc in *. cbn [mbind outcome_bind].
  destruct (IH Hsort st1 (s :: seen) Hok1) as (st2 & ->); [|by exists st2].
  intros x y Hx [->|Hy]%elem_of_cons; [by apply Hlt|]. apply Hgt; [by right|done].
Qed.

(** ** Properties *)
Definition sample_junk (i : nat) : Z := Z.of_nat i mod 2 ^ 64.
Lemma sample_junk_word i : 0 <= sample_junk i < 2 ^ 64.
Proof. apply Z.mod_pos_bound. lia. Qed.

(** C20: whatever sequence numbers arrive, in whatever order, each is
    accepted at most once, no call fails, and what the words of the bit
    vectors held before they were cleared does not matter. *)
Theorem seqcheck_no_replay junk n l :
  (forall i, 0 <= junk i < 2 ^ 64) -> 0 < n -> 3 * n < 2 ^ 64 ->
  Forall (fun s => 0 <= s < 2 ^ 64) l ->
  exists st vs st', seqcheck_new junk n = Done st /\ check_all st l = Done (vs, st')
    /\ length vs = length l /\ NoDup (accepted l vs).
Proof.
  intros Hj Hn H3 Hl. destruct (seqcheck_new_ok junk n Hj Hn H3) as (st & E & Hok & _ & _).
  destruct (check_all_spec st [] l Hok Hl) as (vs & st' & E' & Hlen & _ & Hnd & _).
  by exists st, vs, st'.
Qed.

Lemma seqcheck_no_replay_witness :
  exists st vs st', seqcheck_new sample_junk 3 = Done st
    /\ check_all st [4; 0; 4; 100; 5; 100; 101] = Done (vs, st')
    /\ length vs = 7%nat /\ NoDup (accepted [4; 0; 4; 100; 5; 100; 101] vs).
Proof.
  apply (seqcheck_no_replay sample_junk 3 [4; 0; 4; 100; 5; 100; 101]).
  - exact sample_junk_word.
  - lia.
  - lia.
  - repeat constructor; lia.
Defined.

(** numbers that arrive in increasing order, with gaps of any size, are
    all accepted. *)
Theorem seqcheck_in_order junk n l :
  (forall i, 0 <= junk i < 2 ^ 64) -> 0 < n -> 3 * n < 2 ^ 64 ->
  Forall (fun s => 0 <= s < 2 ^ 64) l -> StronglySorted Z.lt l ->
  exists st st', seqcheck_new junk n = Done st
    /\ check_all st l = Done (replicate (length l) true, st').
Proof.
  intros Hj Hn H3 Hl Hs. destruct (seqcheck_new_ok junk n Hj Hn H3) as (st & E & Hok & _ & _).
  destruct (check_all_increasing st [] l Hok Hl Hs) as (st' & E'); [|by exists st, st'].
  by intros s s' _ ?%elem_of_nil.
Qed.

Lemma seqcheck_in_order_witness :
  exists st st', seqcheck_new sample_junk 3 = Done st
    /\ check_all st [0; 2; 7; 1000; 1001] = Done (replicate 5 true, st').
Proof.
  apply (seqcheck_in_order sample_junk 3 [0; 2; 7; 1000; 1001]).
  - exact sample_junk_word.
  - lia.
  - lia.
  - repeat constructor; lia.
  - repeat constructor; lia.
Defined.

(** in a state that has accepted exactly the numbers [seen], a number
    is accepted if and only if it is not below the bound and was not accepted
    before, and the state that follows has accepted it too. *)
Theorem seqcheck_accepts st seen s :
  sc_ok st seen -> 0 <= s < 2 ^ 64 ->
  let v := bool_decide (accepts (bottom st) seen s) in
  exists st', check st s = Done (v, st') /\ sc_ok st' (if v then s :: seen else seen)
    /\ bottom st <= bottom st'.
Proof. apply seq_check_spec. Qed.

Definition sample_sc : seqcheck := mksc 0 3 (mkbv [0] 3) (mkbv [0] 3).
Lemma sample_sc_ok : sc_ok sample_sc [].
Proof.
  assert (Hbv : bv_ok (mkbv [0] 3)) by (split; cbn; [lia|repeat constructor; lia|done]).
  split; cbn; try done; try lia.
  - intros s Hs. unfold recorded. cbn. split; [|by intros ?%elem_of_nil].
    assert (Hb : forall i, bit [0] i = false).
    { intros i. unfold bit, word. destruct (Z.to_nat (i / 64)) as [|[]]; apply Z.bits_0. }
    destruct (s - 0 <? 3); by rewrite Hb.
  - by intros s ?%elem_of_nil.
Qed.

Lemma seqcheck_accepts_witness :
  let v := bool_decide (accepts 0 [] 20) in
  exists st', check sample_sc 20 = Done (v, st') /\ sc_ok st' (if v then [20] else [])
    /\ 0 <= bottom st'.
Proof.
  apply (seqcheck_accepts sample_sc [] 20).
  - exact sample_sc_ok.
  - lia.
Defined.
