(* ===== verification/Bbuddy.v ===== *)
(** * The buddy allocator: [async/bbuddy.C]

    [bbfree] is a bit map of the free blocks of one size, [bbuddy] the
    allocator with a map for each power of two between the least and the
    greatest size.  [size_t] and [off_t] are 64 bits wide, [u_int] is 32;
    shifting the [int] 1 by 31 or more is undefined ([Wild]).  The
    assertions under [CHECK_BOUNDS] are part of the model. *)
From Stdlib Require Import ZArith Lia.
From stdpp Require Import prelude.
From S2P Require Import Prelude Bits.

Definition bytepop : list Z :=
  [0; 1; 1; 2; 1; 2; 2; 3; 1; 2; 2; 3; 2; 3; 3; 4; 1; 2; 2; 3; 2; 3; 3; 4; 2;
   3; 3; 4; 3; 4; 4; 5; 1; 2; 2; 3; 2; 3; 3; 4; 2; 3; 3; 4; 3; 4; 4; 5; 2; 3;
   3; 4; 3; 4; 4; 5; 3; 4; 4; 5; 4; 5; 5; 6; 1; 2; 2; 3; 2; 3; 3; 4; 2; 3; 3;
   4; 3; 4; 4; 5; 2; 3; 3; 4; 3; 4; 4; 5; 3; 4; 4; 5; 4; 5; 5; 6; 2; 3; 3; 4;
   3; 4; 4; 5; 3; 4; 4; 5; 4; 5; 5; 6; 3; 4; 4; 5; 4; 5; 5; 6; 4; 5; 5; 6; 5;
   6; 6; 7; 1; 2; 2; 3; 2; 3; 3; 4; 2; 3; 3; 4; 3; 4; 4; 5; 2; 3; 3; 4; 3; 4;
   4; 5; 3; 4; 4; 5; 4; 5; 5; 6; 2; 3; 3; 4; 3; 4; 4; 5; 3; 4; 4; 5; 4; 5; 5;
   6; 3; 4; 4; 5; 4; 5; 5; 6; 4; 5; 5; 6; 5; 6; 6; 7; 2; 3; 3; 4; 3; 4; 4; 5;
   3; 4; 4; 5; 4; 5; 5; 6; 3; 4; 4; 5; 4; 5; 5; 6; 4; 5; 5; 6; 5; 6; 6; 7; 3;
   4; 4; 5; 4; 5; 5; 6; 4; 5; 5; 6; 5; 6; 6; 7; 4; 5; 5; 6; 5; 6; 6; 7; 5; 6;
   6; 7; 6; 7; 7; 8].

Record bbfree := mkbf {
  bf_bv : bitvec;
  hint : Z;
  cnt : Z;
  nmaps : Z
}.

(** ** [bbfree] *)
Definition bbfree_init (junk : nat -> Z) (bf : bbfree) (nb : Z) : outcome bbfree :=
  assertM (nbits (bf_bv bf) <=? nb) ;;
  let obits := nbits (bf_bv bf) in
  let bv := setsize junk (bf_bv bf) nb in
  let nmaps := (nb + mapbits - 1) / mapbits in
  m ← range_clr (map bv) obits (nmaps * mapbits);
  Done (mkbf (mkbv m (nbits bv)) (hint bf) (cnt bf) nmaps).

(** [bbfree ()], that is [bbfree (0)], as [New bbfree[n]] calls it. *)
Definition bbfree_new (junk : nat -> Z) : outcome bbfree :=
  bbfree_init junk (mkbf bitvec_init 0 0 0) 0.

Definition getsize (bf : bbfree) : Z := nbits (bf_bv bf).

Definition getbit (bf : bbfree) (pos : Z) : outcome bool := at_ (bf_bv bf) pos.

Definition bf_setbit (bf : bbfree) (pos : Z) : outcome bbfree :=
  let mi := pos / mapbits in
  let mask := shl64 1 (pos mod mapbits) in
  assertM (pos <? nbits (bf_bv bf)) ;;
  w ← rd (map (bf_bv bf)) mi;
  assertM ((w .& mask) =? 0) ;;
  m ← wr (map (bf_bv bf)) mi (w .| mask);
  h ← rd m (hint bf);
  Done (mkbf (mkbv m (nbits (bf_bv bf))) (if h =? 0 then mi else hint bf)
          (u64 (cnt bf + 1)) (nmaps bf)).

Definition bf_clrbit (bf : bbfree) (pos : Z) : outcome bbfree :=
  let mi := pos / mapbits in
  let mask := shl64 1 (pos mod mapbits) in
  assertM (pos <? nbits (bf_bv bf)) ;;
  w ← rd (map (bf_bv bf)) mi;
  assertM (negb ((w .& mask) =? 0)) ;;
  m ← wr (map (bf_bv bf)) mi (w .& not64 mask);
  Done (mkbf (mkbv m (nbits (bf_bv bf))) (hint bf) (u64 (cnt bf - 1)) (nmaps bf)).

(** The loop over the words of the map, from word [i] on. *)
Fixpoint findbit_loop (fuel : nat) (bf : bbfree) (i : Z) : outcome (option Z * bbfree) :=
  if i <? nmaps bf then
    match fuel with
    | O => Spin
    | S fuel =>
        v ← rd (map (bf_bv bf)) i;
        if negb (v =? 0)
        then Done (Some (u64 (i * mapbits + ffs64 v - 1)),
                   mkbf (bf_bv bf) i (cnt bf) (nmaps bf))
        else findbit_loop fuel bf (i + 1)
    end
  else Panic.

Definition findbit (bf : bbfree) : outcome (option Z * bbfree) :=
  if (cnt bf =? 0) || (nbits (bf_bv bf) =? 0) then Done (None, bf)
  else
    v ← rd (map (bf_bv bf)) (hint bf);
    if negb (v =? 0) then Done (Some (u64 (hint bf * mapbits + ffs64 v - 1)), bf)
    else findbit_loop (Z.to_nat (nmaps bf)) bf 0.

(** The bytes of the words of a map, least significant first. *)
Definition word_bytes (w : Z) : list Z :=
  (fun k => (w .>> (8 * k)) .& 255) <$> seqZ 0 8.

Definition bf_check (bf : bbfree) : outcome unit :=
  let bytes := take (Z.to_nat (nbytes (nbits (bf_bv bf))))
                 (concat (word_bytes <$> map (bf_bv bf))) in
  let sum := foldl (fun sum b => sum + tbl bytepop b) 0 bytes in
  assertM (sum =? cnt bf).

(** ** [bbuddy] *)
Record bbuddy := mkbb {
  totsize : Z;
  log2minalloc : Z;
  log2maxalloc : Z;
  freemaps : list bbfree;
  spaceleft : Z
}.

(** The [int] expression [1 << n]. *)
Definition shl_int (n : Z) : outcome Z := if n <? 31 then Done (1 .<< n) else Wild.

Definition fm (bb : bbuddy) (sn : Z) : outcome bbfree :=
  assertM ((log2minalloc bb <=? sn) && (sn <=? log2maxalloc bb)) ;;
  rd (freemaps bb) (sn - log2minalloc bb).

(** [fm (sn)] after an operation has changed it. *)
Definition set_fm (bb : bbuddy) (sn : Z) (bf : bbfree) : bbuddy :=
  mkbb (totsize bb) (log2minalloc bb) (log2maxalloc bb)
    (<[Z.to_nat (sn - log2minalloc bb) := bf]> (freemaps bb)) (spaceleft bb).

Definition set_space (bb : bbuddy) (n : Z) : bbuddy :=
  mkbb (totsize bb) (log2minalloc bb) (log2maxalloc bb) (freemaps bb) n.

(** [u_int sn = log2c (n); if (sn < log2minalloc) sn = log2minalloc;] *)
Definition size_class (bb : bbuddy) (n : Z) : Z :=
  let sn := u32 (log2c64 n) in
  if sn <? log2minalloc bb then log2minalloc bb else sn.

(** [do { if (++sni > log2maxalloc) return -1; } while (!fm (sni).findbit (&pos))] *)
Fixpoint alloc_find (fuel : nat) (bb : bbuddy) (sni : Z) : outcome (option (Z * Z) * bbuddy) :=
  let sni := u32 (sni + 1) in
  if log2maxalloc bb <? sni then Done (None, bb)
  else
    match fuel with
    | O => Spin
    | S fuel =>
        bf ← fm bb sni;
        r ← findbit bf;
        let '(p, bf) := r : option Z * bbfree in
        let bb := set_fm bb sni bf in
        match p with
        | Some pos => Done (Some (sni, pos), bb)
        | None => alloc_find fuel bb sni
        end
    end.

(** [while (--sni >= sn) { pos <<= 1; fm (sni).setbit (pos + 1); }] *)
Fixpoint alloc_split (fuel : nat) (bb : bbuddy) (sn sni pos : Z) : outcome (Z * bbuddy) :=
  let sni := u32 (sni - 1) in
  if sn <=? sni then
    match fuel with
    | O => Spin
    | S fuel =>
        let pos := u64 (pos .<< 1) in
        bf ← fm bb sni;
        bf ← bf_setbit bf (pos + 1);
        alloc_split fuel (set_fm bb sni bf) sn sni pos
    end
  else Done (pos, bb).

Definition alloc (bb : bbuddy) (n : Z) : outcome (Z * bbuddy) :=
  let sn := size_class bb n in
  if log2maxalloc bb <? sn then Done (-1, bb)
  else
    bf ← fm bb sn;
    r ← findbit bf;
    let '(p, bf) := r : option Z * bbfree in
    let bb := set_fm bb sn bf in
    match p with
    | Some pos =>
        bf ← bf_clrbit bf pos;
        let bb := set_fm bb sn bf in
        inc ← shl_int sn;
        Done (pos .<< sn, set_space bb (spaceleft bb - inc))
    | None =>
        r ← alloc_find (length (freemaps bb)) bb sn;
        let '(q, bb) := r : option (Z * Z) * bbuddy in
        match q with
        | None => Done (-1, bb)
        | Some (sni, pos) =>
            bf ← fm bb sni;
            bf ← bf_clrbit bf pos;
            r ← alloc_split (length (freemaps bb)) (set_fm bb sni bf) sn sni pos;
            let '(pos, bb) := r : Z * bbuddy in
            inc ← shl_int sn;
            Done (pos .<< sn, set_space bb (spaceleft bb - inc))
        end
    end.

(** [for (sni = sn; sni < log2maxalloc; sni++, pos >>= 1) ...] and the
    [setbit] behind it. *)
Fixpoint dealloc_loop (fuel : nat) (bb : bbuddy) (sni pos : Z) : outcome bbuddy :=
  if sni <? log2maxalloc bb then
    match fuel with
    | O => Spin
    | S fuel =>
        bf ← fm bb sni;
        v ← getbit bf (pos .^ 1);
        if v : bool then
          bf ← bf_clrbit bf (pos .^ 1);
          dealloc_loop fuel (set_fm bb sni bf) (sni + 1) (pos .>> 1)
        else
          bf ← bf_setbit bf pos;
          Done (set_fm bb sni bf)
    end
  else
    bf ← fm bb (log2maxalloc bb);
    bf ← bf_setbit bf pos;
    Done (set_fm bb (log2maxalloc bb) bf).

Definition dealloc (bb : bbuddy) (off len : Z) : outcome bbuddy :=
  let sn := size_class bb len in
  if log2maxalloc bb <? sn then Panic
  else
    let pos := off .>> sn in
    assertM (off =? pos .<< sn) ;;
    inc ← shl_int sn;
    let bb := set_space bb (spaceleft bb + inc) in
    dealloc_loop (length (freemaps bb)) bb sn pos.

(** [for (u_int sn = log2minalloc; sn <= log2maxalloc; sn++) { fm (sn).init (o); o >>= 1; }] *)
Fixpoint init_maps (fuel : nat) (junk : nat -> Z) (bb : bbuddy) (sn o : Z) : outcome bbuddy :=
  if sn <=? log2maxalloc bb then
    match fuel with
    | O => Spin
    | S fuel =>
        bf ← fm bb sn;
        bf ← bbfree_init junk bf o;
        init_maps fuel junk (set_fm bb sn bf) (sn + 1) (o .>> 1)
    end
  else Done bb.

(** The loop that brings [o] to a multiple of the greatest size. *)
Fixpoint grow_align (fuel : nat) (bb : bbuddy) (o : Z) : outcome (Z * bbuddy) :=
  let n := u64 (ffs64 (u64 o) - 1) in
  if log2maxalloc bb <=? n then Done (o, bb)
  else
    match fuel with
    | O => Spin
    | S fuel =>
        inc ← shl_int n;
        bb ← dealloc bb o inc;
        grow_align fuel bb (o + inc)
    end.

(** [while (o < ts) { dealloc (o, maxinc); o += maxinc; }] *)
Fixpoint grow_rest (fuel : nat) (bb : bbuddy) (o ts maxinc : Z) : outcome bbuddy :=
  if o <? ts then
    match fuel with
    | O => Spin
    | S fuel =>
        bb ← dealloc bb o maxinc;
        grow_rest fuel bb (o + maxinc) ts maxinc
    end
  else Done bb.

Definition settotsize (junk : nat -> Z) (bb : bbuddy) (ts : Z) : outcome bbuddy :=
  maxinc ← shl_int (log2maxalloc bb);
  let ts := ts .& Z.lnot (maxinc - 1) in
  assertM (totsize bb <=? ts) ;;
  bb ← init_maps (length (freemaps bb)) junk bb (log2minalloc bb) (ts .>> log2minalloc bb);
  let o := totsize bb in
  bb ← (if o <? ts then
          r ← grow_align 64 bb o;
          let '(o, bb) := r : Z * bbuddy in
          grow_rest (Z.to_nat (ts - o)) bb o ts maxinc
        else Done bb);
  Done (mkbb ts (log2minalloc bb) (log2maxalloc bb) (freemaps bb) (spaceleft bb)).

Definition bbuddy_new (junk : nat -> Z) (ts minalloc maxalloc : Z) : outcome bbuddy :=
  let lmin := u32 (log2c64 minalloc) in
  let lmax := u32 (log2c64 maxalloc) in
  maps ← mapM (fun _ => bbfree_new junk) (seq 0 (Z.to_nat (u32 (1 + lmax - lmin))));
  assertM (lmin <=? lmax) ;;
  settotsize junk (mkbb 0 lmin lmax maps 0) ts.

Definition space (bb : bbuddy) : Z := spaceleft bb.
Definition gettotsize (bb : bbuddy) : Z := totsize bb.
Definition maxalloc (bb : bbuddy) : outcome Z := shl_int (log2maxalloc bb).

(** ** The consistency check *)
Fixpoint _check_pos (fuel : nat) (bb : bbuddy) (sn pos : Z) (set : bool) : outcome bool :=
  match fuel with
  | O => Spin
  | S fuel =>
      bf ← fm bb sn;
      ret ← getbit bf pos;
      (if (ret : bool) && set then Panic else Done tt) ;;
      let set := set || ret in
      (if log2minalloc bb <? sn then
         ret1 ← _check_pos fuel bb (sn - 1) (pos .<< 1) set;
         ret2 ← _check_pos fuel bb (sn - 1) ((pos .<< 1) + 1) set;
         assertM (negb ret1 || negb ret2)
       else Done tt) ;;
      Done ret
  end.

Definition bb_check (bb : bbuddy) : outcome unit :=
  mapM (fun sn => bf ← fm bb sn; bf_check bf)
    (seqZ (log2minalloc bb) (log2maxalloc bb - log2minalloc bb + 1)) ;;
  bf ← fm bb (log2maxalloc bb);
  mapM (fun pos => _check_pos (length (freemaps bb)) bb (log2maxalloc bb) pos false)
    (seqZ 0 (getsize bf)) ;;
  Done tt.
