(* ===== verification/BbuddyMap.v ===== *)
(** * Maps of free blocks

    The class [bbfree] of [async/bbuddy.C] keeps a set of positions: its
    counter is the number of bits set, the bits behind the end of the map are
    clear, and [findbit] finds a position if there is one. *)
From Stdlib Require Import ZArith Lia Btauto.
From stdpp Require Import prelude.
From S2P Require Import Prelude Bits Bbuddy.

(** ** Counting *)
Fixpoint count (f : Z -> bool) (l : list Z) : Z :=
  match l with
  | [] => 0
  | x :: l => (if f x then 1 else 0) + count f l
  end.

Lemma count_nonneg f l : 0 <= count f l.
Proof. induction l as [|x l IH]; cbn; [lia|]. destruct (f x); lia. Qed.

Lemma count_le f l : count f l <= Z.of_nat (length l).
Proof. induction l as [|x l IH]; cbn [count length]; [lia|]. destruct (f x); lia. Qed.

Lemma count_ext f g l : (forall i, i ∈ l -> f i = g i) -> count f l = count g l.
Proof.
  induction l as [|x l IH]; intros H; cbn; [done|].
  rewrite (H x), IH; [done| |by left]. intros i Hi. apply H. by right.
Qed.

Lemma count_app f l1 l2 : count f (l1 ++ l2) = count f l1 + count f l2.
Proof. induction l1 as [|x l1 IH]; cbn; [done|]. rewrite IH. lia. Qed.

Lemma count_0 f l : count f l = 0 <-> forall i, i ∈ l -> f i = false.
Proof.
  induction l as [|x l IH]; cbn; [split; [|done]; intros _ i Hi; by apply elem_of_nil in Hi|].
  pose proof (count_nonneg f l). split.
  - intros E i Hi. destruct (f x) eqn:Ex; [lia|].
    apply elem_of_cons in Hi as [->|Hi]; [done|]. apply IH; [lia|done].
  - intros Hf. rewrite (Hf x) by (by left). apply IH. intros i Hi. apply Hf. by right.
Qed.

Lemma count_flip f g l p :
  NoDup l -> p ∈ l -> f p = false -> g p = true -> (forall i, i ∈ l -> i <> p -> g i = f i) ->
  count g l = count f l + 1.
Proof.
  induction 1 as [|x l Hx _ IH]; intros Hp Hf Hg He; [by apply elem_of_nil in Hp|]. cbn.
  apply elem_of_cons in Hp as [->|Hp].
  - rewrite Hf, Hg, (count_ext g f l); [lia|]. intros i Hi. apply He; [by right|].
    intros ->. done.
  - rewrite IH; [|done..|]. 2:{ intros i Hi. apply He. by right. }
    rewrite (He x); [lia|by left|]. intros ->. done.
Qed.

(** ** Invariant *)
Definition bf_bit (bf : bbfree) (i : Z) : bool := bit (map (bf_bv bf)) i.
Definition bf_nbits (bf : bbfree) : Z := nbits (bf_bv bf).

Record bf_ok (bf : bbfree) : Prop := {
  bf_bv_ok : bv_ok (bf_bv bf);
  bf_small : bf_nbits bf <= 2 ^ 63;
  bf_nmaps : nmaps bf = nwords (bf_nbits bf);
  bf_high : forall i, bf_nbits bf <= i -> bf_bit bf i = false;
  bf_hint : 0 <= hint bf /\ (hint bf = 0 \/ hint bf < nwords (bf_nbits bf));
  bf_cnt : cnt bf = count (bf_bit bf) (seqZ 0 (bf_nbits bf))
}.

Lemma bf_cnt_range bf : bf_ok bf -> 0 <= cnt bf <= bf_nbits bf.
Proof.
  intros H. rewrite (bf_cnt bf H). split; [apply count_nonneg|].
  etrans; [apply count_le|]. rewrite length_seqZ. pose proof (bv_nbits _ (bf_bv_ok _ H)).
  unfold bf_nbits. lia.
Qed.

(** [w & mask] tells whether the bit is set. *)
Lemma mask_test w r :
  0 <= r < 64 -> ((w .& shl64 1 r) =? 0) = negb (Z.testbit w r).
Proof.
  intros Hr. destruct (Z.testbit w r) eqn:E.
  - apply Z.eqb_neq. intros H. assert (Hb : Z.testbit (w .& shl64 1 r) r = false)
      by (rewrite H; apply Z.bits_0).
    rewrite Z.land_spec, E, shl64_one_bit, Z.eqb_refl in Hb by lia. done.
  - apply Z.eqb_eq. apply Z.bits_inj'. intros j Hj. rewrite Z.bits_0, Z.land_spec.
    destruct (Z.lt_ge_cases j 64).
    + rewrite shl64_one_bit by lia. destruct (Z.eqb_spec j r) as [->|]; [by rewrite E|btauto].
    + rewrite (testbit_high (shl64 1 r) 64) by (try apply shl64_range; lia). btauto.
Qed.

Lemma wr_insert {A} (l : list A) i v :
  0 <= i < Z.of_nat (length l) -> wr l i v = Done (<[Z.to_nat i := v]> l).
Proof.
  intros Hi. unfold wr. destruct (Z.leb_spec 0 i), (Z.ltb_spec i (Z.of_nat (length l))); lia || done.
Qed.

(** ** Changing a bit *)
Section bits.
Context (bf : bbfree) (Hok : bf_ok bf) (pos : Z) (Hpos : 0 <= pos < bf_nbits bf).

Lemma bf_pos_word :
  0 <= pos / 64 < Z.of_nat (length (map (bf_bv bf))) /\ 0 <= pos mod 64 < 64.
Proof using Hok Hpos.
  pose proof (bv_length _ (bf_bv_ok _ Hok)) as L. pose proof (nwords_bounds (bf_nbits bf)) as Hw.
  destruct (divmod64 pos ltac:(lia)) as (E & Hr & Hq). unfold bf_nbits in *. lia.
Qed.

(** A map that differs in bit [pos] only, with its counter adjusted. *)
Lemma bf_change w' h' c' :
  0 <= w' < 2 ^ 64 ->
  (forall j, 0 <= j < 64 -> j <> pos mod 64 ->
     Z.testbit w' j = Z.testbit (word (map (bf_bv bf)) (pos / 64)) j) ->
  0 <= h' < nwords (bf_nbits bf) ->
  c' = (if Z.testbit w' (pos mod 64)
        then if bf_bit bf pos then cnt bf else cnt bf + 1
        else if bf_bit bf pos then cnt bf - 1 else cnt bf) ->
  let bf' := mkbf (mkbv (<[Z.to_nat (pos / 64) := w']> (map (bf_bv bf))) (nbits (bf_bv bf)))
               h' c' (nmaps bf) in
  bf_ok bf' /\ forall j, 0 <= j ->
    bf_bit bf' j = if j =? pos then Z.testbit w' (pos mod 64) else bf_bit bf j.
Proof using Hok Hpos.
  intros Hw' Hoth Hh' Hc' bf'. pose proof Hok as [[Hnb Hw Hl] Hsm Hnm Hhi Hh Hc].
  destruct bf_pos_word as [Hwd Hr]. fold (bf_nbits bf) in *.
  assert (Hbit : forall j, 0 <= j ->
    bf_bit bf' j = if j =? pos then Z.testbit w' (pos mod 64) else bf_bit bf j).
  { intros j Hj. unfold bf_bit, bf'. cbn. unfold bit.
    destruct (divmod64 j Hj) as (Ej & Hrj & Hqj). destruct (divmod64 pos ltac:(lia)) as (Ep & _ & _).
    rewrite word_insert by lia. destruct (Z.eqb_spec (j / 64) (pos / 64)) as [Eq|Eq].
    - destruct (Z.eqb_spec j pos) as [->|Hne]; [done|]. rewrite Hoth by lia. by rewrite Eq.
    - destruct (Z.eqb_spec j pos); [subst; lia|done]. }
  split; [|done]. split; try done.
  - split; cbn; [done|by apply words_insert|by rewrite length_insert].
  - intros i Hi. cbn in Hi. change (bf_nbits bf') with (bf_nbits bf) in Hi.
    rewrite Hbit by (unfold bf_nbits in *; lia). destruct (Z.eqb_spec i pos); [lia|auto].
  - change (bf_nbits bf') with (bf_nbits bf). cbn. lia.
  - change (bf_nbits bf') with (bf_nbits bf). cbn [cnt bf'].
    assert (Hin : pos ∈ seqZ 0 (bf_nbits bf)) by (apply elem_of_seqZ; lia).
    assert (Hrng : forall i, i ∈ seqZ 0 (bf_nbits bf) -> 0 <= i)
      by (intros i Hi%elem_of_seqZ; lia).
    assert (Hp' : bf_bit bf' pos = Z.testbit w' (pos mod 64))
      by (rewrite Hbit by lia; by rewrite Z.eqb_refl).
    assert (Ho' : forall i, i ∈ seqZ 0 (bf_nbits bf) -> i <> pos -> bf_bit bf' i = bf_bit bf i).
    { intros i Hi Hne. rewrite Hbit by auto. destruct (Z.eqb_spec i pos); done. }
    rewrite Hc', Hc. destruct (Z.testbit w' (pos mod 64)) eqn:Ew, (bf_bit bf pos) eqn:Eb.
    + apply count_ext. intros i Hi. destruct (Z.eq_dec i pos) as [->|]; [congruence|].
      symmetry. auto.
    + symmetry. apply (count_flip _ _ _ pos); auto using NoDup_seqZ.
    + pose proof (count_flip (bf_bit bf') (bf_bit bf) (seqZ 0 (bf_nbits bf)) pos).
      rewrite H; auto using NoDup_seqZ; [lia|]. intros i Hi Hne. symmetry. auto.
    + apply count_ext. intros i Hi. destruct (Z.eq_dec i pos) as [->|]; [congruence|].
      symmetry. auto.
Qed.

Lemma bf_setbit_spec :
  bf_bit bf pos = false ->
  exists bf', bf_setbit bf pos = Done bf' /\ bf_ok bf' /\ bf_nbits bf' = bf_nbits bf
    /\ cnt bf' = cnt bf + 1
    /\ forall j, 0 <= j -> bf_bit bf' j = (j =? pos) || bf_bit bf j.
Proof using Hok Hpos.
  intros Hbit. destruct bf_pos_word as [Hwd Hr]. pose proof (bf_cnt_range _ Hok) as Hc.
  pose proof (bf_hint _ Hok) as [Hh0 Hh]. pose proof (bv_length _ (bf_bv_ok _ Hok)) as Hl.
  pose proof (bf_small _ Hok). pose proof (bf_bv_ok _ Hok) as [_ Hw _].
  unfold bf_setbit, mapbits. fold (bf_nbits bf) in *.
  destruct (Z.ltb_spec pos (bf_nbits bf)); [|lia]. cbn [assertM mbind outcome_bind].
  rewrite rd_word by lia. cbn [mbind outcome_bind].
  rewrite mask_test by lia. rewrite (Hbit : Z.testbit _ _ = false).
  cbn [negb assertM mbind outcome_bind]. rewrite wr_insert by lia. cbn [mbind outcome_bind].
  rewrite rd_word by (rewrite length_insert; lia). cbn [mbind outcome_bind].
  eexists. split; [reflexivity|].
  set (w' := word _ _ .| _). set (h' := if _ =? 0 then _ else _).
  assert (Hb' : Z.testbit w' (pos mod 64) = true).
  { unfold w'. rewrite Z.lor_spec, shl64_one_bit, Z.eqb_refl by lia. btauto. }
  destruct (bf_change w' h' (u64 (cnt bf + 1))) as [H1 H2].
  - unfold w'. auto with bv.
  - intros j Hj Hne. unfold w'. rewrite Z.lor_spec, shl64_one_bit by lia.
    destruct (Z.eqb_spec j (pos mod 64)); [done|btauto].
  - unfold h'. destruct (_ =? 0); lia.
  - rewrite Hb', Hbit. apply u64_small. lia.
  - split_and!; [exact H1|done|cbn; apply u64_small; lia|]. intros j Hj. rewrite H2 by done.
    rewrite Hb'. by destruct (j =? pos).
Qed.

Lemma bf_clrbit_spec :
  bf_bit bf pos = true ->
  exists bf', bf_clrbit bf pos = Done bf' /\ bf_ok bf' /\ bf_nbits bf' = bf_nbits bf
    /\ cnt bf' = cnt bf - 1
    /\ forall j, 0 <= j -> bf_bit bf' j = negb (j =? pos) && bf_bit bf j.
Proof using Hok Hpos.
  intros Hbit. destruct bf_pos_word as [Hwd Hr]. pose proof (bf_cnt_range _ Hok) as Hc.
  pose proof (bf_hint _ Hok) as [Hh0 Hh]. pose proof (bv_length _ (bf_bv_ok _ Hok)) as Hl.
  pose proof (bf_small _ Hok). pose proof (bf_bv_ok _ Hok) as [_ Hw _].
  unfold bf_clrbit, mapbits. fold (bf_nbits bf) in *.
  destruct (Z.ltb_spec pos (bf_nbits bf)); [|lia]. cbn [assertM mbind outcome_bind].
  rewrite rd_word by lia. cbn [mbind outcome_bind].
  rewrite mask_test by lia. rewrite (Hbit : Z.testbit _ _ = true).
  cbn [negb assertM mbind outcome_bind]. rewrite wr_insert by lia. cbn [mbind outcome_bind].
  eexists. split; [reflexivity|].
  set (w' := word _ _ .& _).
  assert (Hb' : Z.testbit w' (pos mod 64) = false).
  { unfold w'. rewrite Z.land_spec, not64_bit, shl64_one_bit, Z.eqb_refl by lia. btauto. }
  assert (Hpc : 0 < cnt bf).
  { destruct (Z.eq_dec (cnt bf) 0) as [E|]; [|lia]. rewrite (bf_cnt _ Hok) in E.
    rewrite count_0 in E. rewrite E in Hbit; [done|]. apply elem_of_seqZ. lia. }
  destruct (bf_change w' (hint bf) (u64 (cnt bf - 1))) as [H1 H2].
  - unfold w'. auto with bv.
  - intros j Hj Hne. unfold w'. rewrite Z.land_spec, not64_bit, shl64_one_bit by lia.
    destruct (Z.eqb_spec j (pos mod 64)); [done|btauto].
  - lia.
  - rewrite Hb', Hbit. apply u64_small. lia.
  - split_and!; [exact H1|done|cbn; apply u64_small; lia|]. intros j Hj. rewrite H2 by done.
    rewrite Hb'. by destruct (j =? pos).
Qed.

End bits.

(** ** Finding a bit *)
Lemma word_bit m q v : 0 <= q -> word m q = v -> 0 < v < 2 ^ 64 ->
  bit m (q * 64 + ffs64 v - 1) = true /\ 0 <= q * 64 + ffs64 v - 1.
Proof.
  intros Hq E Hv. destruct (ffs64_some_bit v Hv) as [Hr Hb]. split; [|lia]. unfold bit.
  replace (q * 64 + ffs64 v - 1) with (ffs64 v - 1 + q * 64) by lia.
  rewrite Z.div_add, Z.mod_add, Z.div_small, Z.mod_small by lia. by rewrite Z.add_0_l, E.
Qed.

Lemma findbit_at bf q v :
  bf_ok bf -> 0 <= q -> word (map (bf_bv bf)) q = v -> v <> 0 ->
  0 <= u64 (q * 64 + ffs64 v - 1) < bf_nbits bf /\ bf_bit bf (u64 (q * 64 + ffs64 v - 1)) = true.
Proof.
  intros Hok Hq E Hv. pose proof (bf_bv_ok _ Hok) as [_ Hw _].
  pose proof (word_range _ q Hw) as Hr. rewrite E in Hr.
  destruct (word_bit _ q v Hq E ltac:(lia)) as [Hb Hp].
  assert (Hlt : q * 64 + ffs64 v - 1 < bf_nbits bf).
  { destruct (Z.lt_ge_cases (q * 64 + ffs64 v - 1) (bf_nbits bf)) as [|Hge]; [done|].
    pose proof (bf_high _ Hok _ Hge) as Hf. unfold bf_bit in Hf. congruence. }
  pose proof (bf_small _ Hok). rewrite u64_small by lia. split; [lia|exact Hb].
Qed.

Lemma findbit_loop_spec fuel bf i :
  bf_ok bf -> 0 <= i <= nmaps bf -> nmaps bf - i <= Z.of_nat fuel ->
  (exists q, i <= q < nmaps bf /\ word (map (bf_bv bf)) q <> 0) ->
  exists pos bf', findbit_loop fuel bf i = Done (Some pos, bf') /\ bf_ok bf'
    /\ bf_bv bf' = bf_bv bf /\ cnt bf' = cnt bf
    /\ 0 <= pos < bf_nbits bf /\ bf_bit bf pos = true.
Proof.
  intros Hok. revert i. induction fuel as [|fuel IH]; intros i Hi Hf (q & Hq & Hne); [lia|].
  cbn [findbit_loop]. destruct (Z.ltb_spec i (nmaps bf)); [|lia].
  pose proof (bv_length _ (bf_bv_ok _ Hok)) as Hl. pose proof (bf_nmaps _ Hok) as Hn.
  unfold bf_nbits in *. rewrite rd_word by lia. cbn [mbind outcome_bind].
  destruct (Z.eqb_spec (word (map (bf_bv bf)) i) 0) as [E|E]; cbn [negb].
  - apply IH; [lia|lia|]. exists q. split; [|done]. destruct (Z.eq_dec q i); [congruence|lia].
  - destruct (findbit_at bf i _ Hok ltac:(lia) eq_refl E) as [H1 H2].
    eexists _, _. split; [reflexivity|]. split_and!; try done; try apply H1.
    destruct Hok. split; try done. cbn. unfold bf_nbits. cbn. lia.
Qed.

(** A bit that is set is in a word that is not zero. *)
Lemma bit_word_ne m i : bit m i = true -> word m (i / 64) <> 0.
Proof. unfold bit. intros Hb E. rewrite E, Z.bits_0 in Hb. done. Qed.

Lemma findbit_spec bf :
  bf_ok bf ->
  exists p bf', findbit bf = Done (p, bf') /\ bf_ok bf' /\ bf_bv bf' = bf_bv bf /\ cnt bf' = cnt bf
    /\ match p with
       | Some pos => 0 <= pos < bf_nbits bf /\ bf_bit bf pos = true
       | None => forall i, 0 <= i -> bf_bit bf i = false
       end.
Proof.
  intros Hok. unfold findbit. fold (bf_nbits bf).
  pose proof (bv_length _ (bf_bv_ok _ Hok)) as Hl. pose proof (bf_nmaps _ Hok) as Hn.
  fold (bf_nbits bf) in Hl.
  destruct ((cnt bf =? 0) || (bf_nbits bf =? 0)) eqn:E0.
  { exists None, bf. split_and!; try done. intros i Hi.
    destruct (Z.lt_ge_cases i (bf_nbits bf)) as [Hlt|Hge]; [|by apply (bf_high _ Hok)].
    apply orb_true_iff in E0 as [E0|E0]; apply Z.eqb_eq in E0; [|lia].
    rewrite (bf_cnt _ Hok), count_0 in E0. apply E0, elem_of_seqZ. lia. }
  apply orb_false_iff in E0 as [Ec En]. apply Z.eqb_neq in Ec, En.
  destruct (bf_hint _ Hok) as [Hh0 Hh]. pose proof (bv_nbits _ (bf_bv_ok _ Hok)) as Hn0.
  fold (bf_nbits bf) in Hn0. pose proof (nwords_bounds (bf_nbits bf) Hn0).
  rewrite rd_word by lia. cbn [mbind outcome_bind].
  destruct (Z.eqb_spec (word (map (bf_bv bf)) (hint bf)) 0) as [Ew|Ew]; cbn [negb].
  - assert (Hex : exists i, i ∈ seqZ 0 (bf_nbits bf) /\ bf_bit bf i = true).
    { destruct (decide (Forall (fun i => bf_bit bf i = false) (seqZ 0 (bf_nbits bf)))) as [Hall|Hall].
      - exfalso. apply Ec. rewrite (bf_cnt _ Hok). apply count_0. by apply Forall_forall.
      - apply not_Forall_Exists in Hall; [|apply _]. apply Exists_exists in Hall as (i & Hi & Hb).
        exists i. split; [done|]. cbn in Hb. by destruct (bf_bit bf i). }
    destruct Hex as (i & Hi%elem_of_seqZ & Hb).
    destruct (findbit_loop_spec (Z.to_nat (nmaps bf)) bf 0 Hok) as (pos & bf' & -> & Hf).
    + pose proof (nwords_bounds (bf_nbits bf)). lia.
    + lia.
    + exists (i / 64). split; [|by apply bit_word_ne].
      pose proof (nwords_bounds (bf_nbits bf)). destruct (divmod64 i ltac:(lia)). lia.
    + exists (Some pos), bf'. naive_solver.
  - destruct (findbit_at bf (hint bf) _ Hok ltac:(lia) eq_refl Ew) as [H1 H2].
    eexists _, _. split; [reflexivity|]. by split_and!; try apply H1.
Qed.

(** ** Making a map and letting it grow *)
Lemma bbfree_init_spec junk bf nb :
  (forall i, 0 <= junk i < 2 ^ 64) -> bf_ok bf -> bf_nbits bf <= nb <= 2 ^ 63 ->
  exists bf', bbfree_init junk bf nb = Done bf' /\ bf_ok bf' /\ bf_nbits bf' = nb
    /\ cnt bf' = cnt bf /\ forall i, 0 <= i -> bf_bit bf' i = bf_bit bf i.
Proof.
  intros Hj Hok Hnb. pose proof Hok as [[Hn0 Hw Hl] Hsm Hnm Hhi Hh Hc].
  unfold bbfree_init. fold (bf_nbits bf) in *.
  destruct (Z.leb_spec (bf_nbits bf) nb); [|lia]. cbn [assertM mbind outcome_bind].
  cbn [setsize map nbits]. unfold mapbits.
  replace ((nb + 64 - 1) / 64) with (nwords nb) by (unfold nwords; f_equal; lia).
  destruct (datalloc_spec junk Hj (map (bf_bv bf)) nb Hw ltac:(lia)) as (W & L & _).
  pose proof (nwords_bounds nb ltac:(lia)) as Hb. pose proof (nwords_bounds (bf_nbits bf) Hn0).
  destruct (range_clr_spec (datalloc junk (map (bf_bv bf)) nb) (bf_nbits bf) (nwords nb * 64))
    as (m & -> & Lm & Wm & Hm); [done|lia|lia|]. cbn [mbind outcome_bind].
  eexists. split; [reflexivity|].
  assert (Hbit : forall i, 0 <= i -> bit m i = bf_bit bf i).
  { intros i Hi. rewrite Hm by done. destruct (Z.lt_ge_cases i (bf_nbits bf)) as [Hlt|Hge].
    - rewrite bit_datalloc by (done || lia).
      destruct (Z.leb_spec (bf_nbits bf) i); [lia|done].
    - rewrite (Hhi i Hge). destruct (Z.leb_spec (bf_nbits bf) i); [|lia].
      destruct (Z.ltb_spec i (nwords nb * 64)); [done|]. cbn [andb negb].
      assert (E : word (datalloc junk (map (bf_bv bf)) nb) (i / 64) = 0)
        by (unfold word; apply nth_overflow; destruct (divmod64 i Hi); lia).
      unfold bit. by rewrite E, Z.bits_0. }
  split_and!; [|done|done|exact Hbit]. split; try done.
  - split; cbn; [lia|done|lia].
  - cbn. lia.
  - intros i Hi. unfold bf_nbits in Hi. cbn in Hi. unfold bf_bit at 1. cbn. rewrite Hbit by lia.
    apply Hhi. lia.
  - cbn. unfold bf_nbits. cbn. lia.
  - set (bf' := mkbf _ _ _ _). change (bf_nbits bf') with nb. change (cnt bf') with (cnt bf).
    assert (Es : seqZ 0 nb = seqZ 0 (bf_nbits bf) ++ seqZ (bf_nbits bf) (nb - bf_nbits bf))
      by (rewrite <- (seqZ_app 0) by lia; f_equal; lia).
    rewrite Hc, Es, count_app.
    rewrite (proj2 (count_0 _ (seqZ (bf_nbits bf) _))).
    + rewrite Z.add_0_r. apply count_ext. intros i Hi%elem_of_seqZ. symmetry. apply Hbit. lia.
    + intros i Hi%elem_of_seqZ. unfold bf_bit. cbn. rewrite Hbit by lia. apply Hhi. lia.
Qed.

Lemma bf_empty_ok : bf_ok (mkbf bitvec_init 0 0 0).
Proof.
  split; cbn; try done; try lia.
  - split; cbn; [lia|constructor|done].
  - intros i Hi. unfold bf_bit, bit, word. cbn. destruct (Z.to_nat (i / 64)); apply Z.bits_0.
Qed.

Lemma bbfree_new_spec junk :
  (forall i, 0 <= junk i < 2 ^ 64) ->
  exists bf, bbfree_new junk = Done bf /\ bf_ok bf /\ bf_nbits bf = 0 /\ cnt bf = 0
    /\ forall i, 0 <= i -> bf_bit bf i = false.
Proof.
  intros Hj. destruct (bbfree_init_spec junk _ 0 Hj bf_empty_ok) as (bf & E & Hok & Hn & Hc & Hb).
  { unfold bf_nbits. cbn. lia. }
  exists bf. split_and!; try done. intros i Hi. rewrite Hb by done.
  apply (bf_high _ bf_empty_ok). unfold bf_nbits. cbn. lia.
Qed.

(** ** The counter check *)
Definition pops (l : list Z) : Z := foldl (fun sum b => sum + tbl bytepop b) 0 l.

Lemma pops_acc l a : foldl (fun sum b => sum + tbl bytepop b) a l = a + pops l.
Proof.
  unfold pops. revert a. induction l as [|x l IH]; intros a; cbn [foldl]; [lia|].
  rewrite IH, (IH (0 + _)). lia.
Qed.

Lemma pops_app l k : pops (l ++ k) = pops l + pops k.
Proof. unfold pops. rewrite foldl_app. apply pops_acc. Qed.

Lemma bytepop_spec b : 0 <= b < 256 -> tbl bytepop b = count (Z.testbit b) (seqZ 0 8).
Proof.
  intros Hb. apply Z.eqb_eq.
  apply (forallb_seqZ 256 (fun b => tbl bytepop b =? count (Z.testbit b) (seqZ 0 8)));
    [vm_compute; reflexivity | done].
Qed.

Lemma count_shift f k l : count f ((fun i => i + k) <$> l) = count (fun i => f (i + k)) l.
Proof. induction l as [|x l IH]; cbn; [done|]. by rewrite IH. Qed.

Lemma seqZ_shift a k n : seqZ (a + k) n = (fun i => i + k) <$> seqZ a n.
Proof. rewrite Z.add_comm, <- fmap_add_seqZ. apply list_fmap_ext. intros i x _. lia. Qed.

Lemma pops_word w : pops (word_bytes w) = count (Z.testbit w) (seqZ 0 64).
Proof.
  assert (Hk : forall k, 0 <= k -> tbl bytepop ((w .>> (8 * k)) .& 255)
    = count (Z.testbit w) (seqZ (0 + 8 * k) 8)).
  { intros k Hk. rewrite bytepop_spec by apply land_ff_range.
    rewrite seqZ_shift, count_shift. apply count_ext. intros i Hi%elem_of_seqZ.
    rewrite Z.land_spec, Z.shiftr_spec by lia. change 255 with (Z.ones 8).
    rewrite Z.ones_spec_low, andb_true_r by lia. done. }
  unfold word_bytes, pops. change (seqZ 0 8) with [0; 1; 2; 3; 4; 5; 6; 7].
  cbn [fmap list_fmap foldl]. rewrite !Hk by lia.
  change (seqZ 0 64) with (seqZ (0 + 8 * 0) 8 ++ seqZ (0 + 8 * 1) 8 ++ seqZ (0 + 8 * 2) 8
    ++ seqZ (0 + 8 * 3) 8 ++ seqZ (0 + 8 * 4) 8 ++ seqZ (0 + 8 * 5) 8 ++ seqZ (0 + 8 * 6) 8
    ++ seqZ (0 + 8 * 7) 8).
  rewrite !count_app. lia.
Qed.

Lemma pops_map m :
  pops (concat (word_bytes <$> m)) = count (bit m) (seqZ 0 (64 * Z.of_nat (length m))).
Proof.
  induction m as [|w m IH]; [done|]. cbn [fmap list_fmap concat length].
  rewrite pops_app, pops_word. rewrite IH.
  replace (64 * Z.of_nat (S (length m))) with (64 + 64 * Z.of_nat (length m)) by lia.
  rewrite seqZ_app, count_app by lia. apply f_equal2.
  - apply count_ext. intros i Hi%elem_of_seqZ. unfold bit, word.
    by rewrite Z.div_small, Z.mod_small by lia.
  - rewrite (seqZ_shift 0 64), count_shift. apply count_ext. intros i Hi%elem_of_seqZ.
    unfold bit. replace (i + 64) with (i + 1 * 64) by lia.
    rewrite Z.div_add, Z.mod_add by lia. unfold word.
    replace (Z.to_nat (i / 64 + 1)) with (S (Z.to_nat (i / 64))); [done|].
    destruct (divmod64 i ltac:(lia)). lia.
Qed.

Lemma bf_check_spec bf : bf_ok bf -> bf_check bf = Done tt.
Proof.
  intros Hok. pose proof Hok as [[Hn0 Hw Hl] _ _ Hhi _ Hc]. unfold bf_check.
  fold (bf_nbits bf) in *. pose proof (nwords_bounds (bf_nbits bf) Hn0).
  assert (Hlen : length (concat (word_bytes <$> map (bf_bv bf))) = (8 * length (map (bf_bv bf)))%nat).
  { clear. induction (map (bf_bv bf)) as [|w m IH]; [done|].
    assert (length (word_bytes w) = 8%nat) by reflexivity.
    cbn [fmap list_fmap concat]. rewrite length_app. cbn [length] in *. lia. }
  rewrite take_ge.
  2:{ pose proof (nbytes_words (bf_nbits bf)) as E. unfold nbytes, sizeof_map_t, mapbits in *.
      rewrite Z.div_mul in E by lia. lia. }
  fold (pops (concat (word_bytes <$> map (bf_bv bf)))). rewrite pops_map, Hl.
  replace (64 * nwords (bf_nbits bf)) with (bf_nbits bf + (64 * nwords (bf_nbits bf) - bf_nbits bf))
    by lia.
  rewrite seqZ_app, count_app by lia. rewrite (proj2 (count_0 _ (seqZ (0 + _) _))).
  - rewrite Hc, Z.add_0_r. unfold bf_bit. by rewrite Z.eqb_refl.
  - intros i Hi%elem_of_seqZ. apply Hhi. lia.
Qed.

(** * Sets of free blocks

    The abstract view of the allocator: which blocks [(sn, pos)] (block [pos]
    of size [2 ^ sn]) are on the free maps.  A consistent set covers each
    address at most once and holds no two buddies below the greatest size.
    The relation to the maps of [Bbuddy] is at the end of the file. *)
(** ** Addresses and blocks *)
Lemma shr_block a sn pos :
  0 <= sn -> a .>> sn = pos <-> pos * 2 ^ sn <= a < (pos + 1) * 2 ^ sn.
Proof.
  intros Hs. rewrite Z.shiftr_div_pow2 by done. pose proof (Z.pow_pos_nonneg 2 sn).
  pose proof (Z.div_mod a (2 ^ sn)). pose proof (Z.mod_pos_bound a (2 ^ sn)). split.
  - intros <-. lia.
  - intros Hb. nia.
Qed.

Lemma shr_nonneg a n : 0 <= a -> 0 <= a .>> n.
Proof. intros. by apply Z.shiftr_nonneg. Qed.

Lemma testbit_1 i : 0 <= i -> Z.testbit 1 i = (i =? 0).
Proof. intros Hi. change 1 with (2 ^ 0). rewrite Z.pow2_bits_eqb by lia. apply Z.eqb_sym. Qed.

Lemma testbit_low2 k i : 0 <= i -> Z.testbit (2 * k + 1) i = (i =? 0) || Z.testbit (2 * k) i.
Proof.
  intros Hi. destruct (Z.eqb_spec i 0) as [->|]; [by rewrite Z.testbit_odd_0|].
  replace i with (Z.succ (i - 1)) by lia.
  by rewrite Z.testbit_even_succ, Z.testbit_odd_succ by lia.
Qed.

Lemma xor1 pos : 0 <= pos -> (pos .^ 1) = if Z.even pos then pos + 1 else pos - 1.
Proof.
  intros Hp. apply Z.bits_inj'. intros i Hi. rewrite Z.lxor_spec, testbit_1 by done.
  destruct (Z.even pos) eqn:E.
  - apply Z.even_spec in E as [k ->]. rewrite testbit_low2 by done.
    destruct (Z.eqb_spec i 0) as [->|]; [by rewrite Z.testbit_even_0|]. btauto.
  - assert (Ho : Z.odd pos = true) by (rewrite <- Z.negb_even; by rewrite E).
    apply Z.odd_spec in Ho as [k ->]. replace (2 * k + 1 - 1) with (2 * k) by lia.
    rewrite testbit_low2 by done.
    destruct (Z.eqb_spec i 0) as [->|]; [by rewrite Z.testbit_even_0|]. btauto.
Qed.

(** The parts of a block of twice the size. *)
Lemma shr_succ a sn : 0 <= sn -> a .>> (sn + 1) = (a .>> sn) .>> 1.
Proof. intros. by rewrite Z.shiftr_shiftr by lia. Qed.

Lemma shr1_iff x pos : x .>> 1 = pos <-> x = 2 * pos \/ x = 2 * pos + 1.
Proof. rewrite shr_block by lia. lia. Qed.

Lemma xor1_shr x pos :
  0 <= pos -> 0 <= x -> x .>> 1 = pos .>> 1 <-> x = pos \/ x = (pos .^ 1).
Proof.
  intros Hp Hx. rewrite shr1_iff, xor1 by done.
  assert (Hd : exists k, pos .>> 1 = k) by eauto. destruct Hd as [k Hk]. rewrite Hk.
  apply shr1_iff in Hk. destruct (Z.even pos) eqn:E.
  - apply Z.even_spec in E as [j Ej]. lia.
  - assert (Ho : Z.odd pos = true) by (rewrite <- Z.negb_even; by rewrite E).
    apply Z.odd_spec in Ho as [j Ej]. lia.
Qed.

Lemma xor1_nonneg pos : 0 <= pos -> 0 <= (pos .^ 1).
Proof. intros H. apply Z.lxor_nonneg. lia. Qed.

Lemma xor1_ne pos : 0 <= pos -> (pos .^ 1) <> pos.
Proof. intros H. rewrite xor1 by done. destruct (Z.even pos); lia. Qed.

Lemma xor1_invol pos : (pos .^ 1) .^ 1 = pos.
Proof. rewrite Z.lxor_assoc. change (1 .^ 1) with 0. apply Z.lxor_0_r. Qed.

(** ** Consistent sets of blocks *)
Definition covered (fr : Z -> Z -> bool) (a : Z) : Prop :=
  exists sn, fr sn (a .>> sn) = true.

Record blocks_ok (lmin lmax lim : Z) (fr : Z -> Z -> bool) : Prop := {
  b_range : forall sn pos, fr sn pos = true ->
    lmin <= sn <= lmax /\ 0 <= pos /\ (pos + 1) * 2 ^ sn <= lim;
  b_unique : forall a sn sn', 0 <= a -> fr sn (a .>> sn) = true ->
    fr sn' (a .>> sn') = true -> sn = sn';
  b_coalesced : forall sn pos, sn < lmax -> fr sn pos = true -> fr sn (pos .^ 1) = false
}.

Definition fset (fr : Z -> Z -> bool) (sn pos : Z) (v : bool) : Z -> Z -> bool :=
  fun sn' pos' => if (sn' =? sn) && (pos' =? pos) then v else fr sn' pos'.

(** Equal on all blocks. *)
Definition same_blocks (f g : Z -> Z -> bool) : Prop := forall sn pos, f sn pos = g sn pos.

#[export] Instance same_blocks_equiv : Equivalence same_blocks.
Proof. split; unfold same_blocks; [done|intros f g H; by intros|congruence]. Qed.

#[export] Instance covered_proper : Proper (same_blocks ==> eq ==> iff) covered.
Proof.
  intros f g H a ? <-. unfold covered. split; intros [sn E]; exists sn; congruence.
Qed.

#[export] Instance blocks_ok_proper lmin lmax lim : Proper (same_blocks ==> iff) (blocks_ok lmin lmax lim).
Proof.
  assert (Himp : forall f g, same_blocks f g -> blocks_ok lmin lmax lim f -> blocks_ok lmin lmax lim g).
  { intros f g H [H1 H2 H3]. split.
    - intros sn pos. rewrite <- H. auto.
    - intros a sn sn'. rewrite <- !H. eauto.
    - intros sn pos. rewrite <- !H. auto. }
  intros f g H. split; apply Himp; [done|by symmetry].
Qed.

Section blocks.
Context (lmin lmax lim : Z) (Hmin : 0 <= lmin) (fr : Z -> Z -> bool).
Context (Hok : blocks_ok lmin lmax lim fr).

Lemma clr_blocks sn pos :
  fr sn pos = true ->
  blocks_ok lmin lmax lim (fset fr sn pos false)
  /\ forall a, 0 <= a -> covered (fset fr sn pos false) a <-> covered fr a /\ a .>> sn <> pos.
Proof using Hok.
  intros Hp. destruct Hok as [H1 H2 H3].
  assert (Hsub : forall sn' pos', fset fr sn pos false sn' pos' = true -> fr sn' pos' = true).
  { intros sn' pos'. unfold fset. by destruct ((sn' =? sn) && (pos' =? pos)). }
  split; [split|].
  - eauto.
  - eauto.
  - intros sn' pos' Hlt E%Hsub. apply H3 in E; [|done]. unfold fset.
    by destruct ((sn' =? sn) && (pos' .^ 1 =? pos)).
  - intros a Ha. split.
    + intros [sn' E]. split; [exists sn'; auto|]. intros Hsp.
      pose proof (Hsub _ _ E) as E'. rewrite <- Hsp in Hp.
      pose proof (H2 a sn sn' Ha Hp E'). subst sn'. unfold fset in E.
      by rewrite <- Hsp, !Z.eqb_refl in E.
    + intros [[sn' E] Hne]. exists sn'. unfold fset.
      destruct (Z.eqb_spec sn' sn) as [->|]; [|done].
      destruct (Z.eqb_spec (a .>> sn) pos); [done|]. exact E.
Qed.

Lemma set_blocks sn pos :
  lmin <= sn <= lmax -> 0 <= pos -> (pos + 1) * 2 ^ sn <= lim ->
  (forall a, 0 <= a -> a .>> sn = pos -> ~ covered fr a) ->
  (sn < lmax -> fr sn (pos .^ 1) = false) ->
  blocks_ok lmin lmax lim (fset fr sn pos true)
  /\ forall a, 0 <= a -> covered (fset fr sn pos true) a <-> covered fr a \/ a .>> sn = pos.
Proof using Hok Hmin.
  intros Hsn Hpos Hlim Hunc Hbud. destruct Hok as [H1 H2 H3].
  assert (Hcase : forall sn' pos', fset fr sn pos true sn' pos' = true ->
    (sn' = sn /\ pos' = pos) \/ fr sn' pos' = true).
  { intros sn' pos'. unfold fset. destruct (Z.eqb_spec sn' sn), (Z.eqb_spec pos' pos); auto. }
  split; [split|].
  - intros sn' pos' [[-> ->]|E]%Hcase; auto.
  - intros a s s' Ha E E'. apply Hcase in E, E'.
    destruct E as [[-> E]|E], E' as [[-> E']|E']; auto; [| |eauto].
    + exfalso. apply (Hunc a Ha E). by exists s'.
    + exfalso. apply (Hunc a Ha E'). by exists s.
  - intros s p Hlt E. assert (Hne : s = sn -> p .^ 1 = pos -> False).
    { intros -> Hx. apply Hcase in E as [[_ ->]|E].
      - by apply (xor1_ne pos).
      - rewrite <- Hx, xor1_invol in Hbud. rewrite Hbud in E; done. }
    unfold fset. destruct (Z.eqb_spec s sn) as [->|], (Z.eqb_spec (p .^ 1) pos); cbn [andb];
      try (by exfalso; auto).
    + apply Hcase in E as [[_ ->]|E]; auto.
    + apply Hcase in E as [[]|E]; [done|]. auto.
    + apply Hcase in E as [[]|E]; [done|]. auto.
  - intros a Ha. split.
    + intros [s [[-> E]|E]%Hcase]; [by right|]. left. by exists s.
    + intros [[s E]|E]; [exists s|exists sn]; unfold fset.
      * by destruct ((s =? sn) && (a .>> s =? pos)).
      * by rewrite Z.eqb_refl, E, Z.eqb_refl.
Qed.

(** A block all of which is free lies within a block of the set: free
    buddies are joined. *)
Lemma free_block_found sn pos :
  lmin <= sn <= lmax -> 0 <= pos ->
  (forall a, 0 <= a -> a .>> sn = pos -> covered fr a) ->
  exists sn', sn <= sn' <= lmax /\ fr sn' (pos .>> (sn' - sn)) = true.
Proof using Hok Hmin.
  intros Hsn. destruct Hok as [H1 H2 H3].
  assert (Hgen : forall d pos, 0 <= d -> lmin + d <= lmax -> 0 <= pos ->
    (forall a, 0 <= a -> a .>> (lmin + d) = pos -> covered fr a) ->
    exists sn', lmin + d <= sn' <= lmax /\ fr sn' (pos .>> (sn' - (lmin + d))) = true).
  2:{ specialize (Hgen (sn - lmin) pos). replace (lmin + (sn - lmin)) with sn in Hgen by lia.
      intros. apply Hgen; auto; lia. }
  clear pos sn Hsn. intros d pos Hd. revert pos. pattern d. apply Z_of_nat_prop; [|done].
  clear d Hd. induction n as [|n IH]; intros pos Hd Hp Hfree.
  { assert (Ha : (pos * 2 ^ lmin) .>> lmin = pos)
      by (apply shr_block; [lia|]; pose proof (Z.pow_pos_nonneg 2 lmin); lia).
    destruct (Hfree (pos * 2 ^ lmin)) as [sn E].
    { pose proof (Z.pow_pos_nonneg 2 lmin). lia. }
    { by rewrite Z.add_0_r. }
    exists sn. destruct (H1 _ _ E) as (? & _). split; [lia|].
    rewrite <- Ha at 1. rewrite Z.shiftr_shiftr by lia.
    by replace (lmin + (sn - (lmin + Z.of_nat 0))) with sn by lia. }
  (* both halves lie within blocks of the set *)
  assert (Hhalf : forall x, x .>> 1 = pos -> exists sn', lmin + Z.of_nat n <= sn' <= lmax
    /\ fr sn' (x .>> (sn' - (lmin + Z.of_nat n))) = true).
  { intros x Hx. apply IH; [lia|apply shr1_iff in Hx; lia|]. intros a Ha E. apply Hfree; [done|].
    replace (lmin + Z.of_nat (S n)) with (lmin + Z.of_nat n + 1) by lia.
    rewrite shr_succ by lia. by rewrite E. }
  destruct (Hhalf (2 * pos)) as (s1 & Hs1 & E1); [apply shr1_iff; lia|].
  destruct (Hhalf (2 * pos + 1)) as (s2 & Hs2 & E2); [apply shr1_iff; lia|].
  assert (Hup : forall x s, x .>> 1 = pos -> lmin + Z.of_nat n < s ->
    x .>> (s - (lmin + Z.of_nat n)) = pos .>> (s - (lmin + Z.of_nat (S n)))).
  { intros x s <- Hs. rewrite Z.shiftr_shiftr by lia. f_equal. lia. }
  destruct (Z.eq_dec s1 (lmin + Z.of_nat n)) as [->|].
  - destruct (Z.eq_dec s2 (lmin + Z.of_nat n)) as [->|].
    + exfalso. rewrite Z.sub_diag, Z.shiftr_0_r in E1, E2.
      apply H3 in E1; [|lia]. rewrite xor1 in E1 by lia.
      rewrite Z.even_mul in E1. cbn [Z.even orb] in E1. congruence.
    + exists s2. split; [lia|]. rewrite <- (Hup (2 * pos + 1)); [done|apply shr1_iff; lia|lia].
  - exists s1. split; [lia|]. rewrite <- (Hup (2 * pos)); [done|apply shr1_iff; lia|lia].
Qed.

End blocks.
