(* ===== verification/BbuddyOps.v ===== *)
(** * The allocator on sets of blocks

    [alloc], [dealloc], [settotsize] and the consistency check of
    [async/bbuddy.C] are shown to take blocks out of, and put them into, the
    set of free blocks that the maps stand for. *)
From Stdlib Require Import ZArith Lia Btauto.
From stdpp Require Import prelude.
From S2P Require Import Prelude Bits Bbuddy BbuddyMap.

(** ** The blocks on the maps *)
Definition bit_at (maps : list bbfree) (j : nat) (pos : Z) : bool :=
  match maps !! j with Some bf => bf_bit bf pos | None => false end.

Definition fr_of (bb : bbuddy) (sn pos : Z) : bool :=
  (log2minalloc bb <=? sn) && (0 <=? pos)
  && bit_at (freemaps bb) (Z.to_nat (sn - log2minalloc bb)) pos.

(** The space the counters account for; the maps start at size [2 ^ sn]. *)
Fixpoint weight (sn : Z) (maps : list bbfree) : Z :=
  match maps with
  | [] => 0
  | bf :: maps => cnt bf * 2 ^ sn + weight (sn + 1) maps
  end.

Lemma weight_insert sn maps j bf bf' :
  0 <= sn -> maps !! j = Some bf ->
  weight sn (<[j := bf']> maps) = weight sn maps + (cnt bf' - cnt bf) * 2 ^ (sn + Z.of_nat j).
Proof.
  revert sn j. induction maps as [|b maps IH]; intros sn [|j] Hsn E;
    simpl in E; simplify_eq.
  - cbn. rewrite Z.add_0_r. lia.
  - change (<[S j := bf']> (b :: maps)) with (b :: <[j := bf']> maps). cbn [weight].
    rewrite (IH (sn + 1) j) by (lia || done).
    replace (sn + 1 + Z.of_nat j) with (sn + Z.of_nat (S j)) by lia. lia.
Qed.

(** The maps describe the addresses below [lim]. *)
Record bb_maps (bb : bbuddy) (lim : Z) : Prop := {
  m_min : 0 <= log2minalloc bb <= log2maxalloc bb;
  m_max : log2maxalloc bb <= 30;
  m_len : Z.of_nat (length (freemaps bb)) = log2maxalloc bb - log2minalloc bb + 1;
  m_lim : 0 <= lim < 2 ^ 63;
  m_align : lim mod 2 ^ log2maxalloc bb = 0;
  m_maps : forall j bf, freemaps bb !! j = Some bf ->
    bf_ok bf /\ bf_nbits bf = lim .>> (log2minalloc bb + Z.of_nat j)
}.

(** All but the maps and the counter of free space. *)
Definition same_frame (bb bb' : bbuddy) : Prop :=
  totsize bb' = totsize bb /\ log2minalloc bb' = log2minalloc bb
  /\ log2maxalloc bb' = log2maxalloc bb /\ length (freemaps bb') = length (freemaps bb)
  /\ spaceleft bb' = spaceleft bb.

Definition bb_weight (bb : bbuddy) : Z := weight (log2minalloc bb) (freemaps bb).

Section maps.
Context (bb : bbuddy) (lim : Z) (Hm : bb_maps bb lim) (sn : Z).
Context (Hsn : log2minalloc bb <= sn <= log2maxalloc bb).
Let j := Z.to_nat (sn - log2minalloc bb).

Lemma fm_spec :
  exists bf, fm bb sn = Done bf /\ freemaps bb !! j = Some bf /\ bf_ok bf
    /\ bf_nbits bf = lim .>> sn /\ forall pos, 0 <= pos -> bf_bit bf pos = fr_of bb sn pos.
Proof using Hm Hsn.
  pose proof (m_len _ _ Hm) as Hl.
  destruct (lookup_lt_is_Some_2 (freemaps bb) j) as [bf E]; [unfold j; lia|].
  destruct (m_maps _ _ Hm j bf E) as [Hok Hnb].
  replace (log2minalloc bb + Z.of_nat j) with sn in Hnb by (unfold j; lia).
  exists bf. split_and!; try done.
  - unfold fm. destruct (Z.leb_spec (log2minalloc bb) sn), (Z.leb_spec sn (log2maxalloc bb)); try lia.
    cbn. unfold rd. destruct (Z.leb_spec 0 (sn - log2minalloc bb)); [|lia].
    by fold j; rewrite E.
  - intros pos Hp. unfold fr_of, bit_at. fold j. rewrite E.
    destruct (Z.leb_spec (log2minalloc bb) sn), (Z.leb_spec 0 pos); lia || done.
Qed.

Lemma set_fm_spec bf bf' :
  freemaps bb !! j = Some bf -> bf_ok bf' -> bf_nbits bf' = bf_nbits bf ->
  bb_maps (set_fm bb sn bf') lim /\ same_frame bb (set_fm bb sn bf')
  /\ bb_weight (set_fm bb sn bf') = bb_weight bb + (cnt bf' - cnt bf) * 2 ^ sn
  /\ forall s pos, fr_of (set_fm bb sn bf') s pos
       = if (s =? sn) && (0 <=? pos) then bf_bit bf' pos else fr_of bb s pos.
Proof using Hm Hsn.
  intros E Hok' Hnb'. pose proof Hm as [H1 H2 H3 H4 H4' H5]. split_and!.
  - split; cbn; try done; [by rewrite length_insert|]. intros k b Hk.
    apply list_lookup_insert_Some in Hk as [(<- & -> & _)|(_ & Hk)]; [|by apply H5].
    split; [done|]. rewrite Hnb'. by apply H5.
  - unfold same_frame. cbn. by rewrite length_insert.
  - unfold bb_weight. cbn. fold j. rewrite (weight_insert _ _ j bf) by (done || lia).
    by replace (log2minalloc bb + Z.of_nat j) with sn by (unfold j; lia).
  - intros s pos. unfold fr_of, bit_at. cbn. fold j.
    destruct (Z.eqb_spec s sn) as [->|Hne].
    + fold j. rewrite list_lookup_insert_eq by (by eapply lookup_lt_Some).
      destruct (Z.leb_spec (log2minalloc bb) sn); [|lia].
      by destruct (Z.leb_spec 0 pos).
    + destruct (Z.leb_spec (log2minalloc bb) s); [|done]. cbn [andb].
      rewrite list_lookup_insert_ne; [done|]. unfold j. lia.
Qed.

Lemma pos_range pos : 0 <= pos -> (pos + 1) * 2 ^ sn <= lim -> pos < lim .>> sn.
Proof using Hm Hsn.
  intros Hp Hl. pose proof (m_min _ _ Hm). rewrite Z.shiftr_div_pow2 by lia.
  pose proof (Z.pow_pos_nonneg 2 sn). apply Z.lt_le_trans with (pos + 1); [lia|].
  apply Z.div_le_lower_bound; lia.
Qed.

Lemma fr_range pos : fr_of bb sn pos = true -> 0 <= pos /\ (pos + 1) * 2 ^ sn <= lim.
Proof using Hm Hsn.
  intros E. assert (0 <= pos) by (unfold fr_of in E; destruct (Z.leb_spec 0 pos); [done|];
    by rewrite andb_false_r in E). split; [done|].
  destruct fm_spec as (bf & _ & _ & Hok & Hnb & Hb). rewrite <- Hb in E by done.
  destruct (Z.lt_ge_cases pos (bf_nbits bf)) as [Hlt|Hge];
    [|rewrite (bf_high _ Hok pos Hge) in E; done].
  rewrite Hnb, Z.shiftr_div_pow2 in Hlt by (pose proof (m_min _ _ Hm); lia).
  pose proof (m_min _ _ Hm). pose proof (Z.pow_pos_nonneg 2 sn).
  pose proof (Z.mul_div_le lim (2 ^ sn)). nia.
Qed.

(** [fm (sn).setbit (pos)] *)
Lemma op_set pos :
  0 <= pos -> (pos + 1) * 2 ^ sn <= lim -> fr_of bb sn pos = false ->
  exists bf bf', fm bb sn = Done bf /\ bf_setbit bf pos = Done bf'
    /\ bb_maps (set_fm bb sn bf') lim /\ same_frame bb (set_fm bb sn bf')
    /\ bb_weight (set_fm bb sn bf') = bb_weight bb + 2 ^ sn
    /\ same_blocks (fr_of (set_fm bb sn bf')) (fset (fr_of bb) sn pos true).
Proof using Hm Hsn.
  intros Hp Hl Hf. destruct fm_spec as (bf & E & Ej & Hok & Hnb & Hb).
  pose proof (pos_range pos Hp Hl) as Hr. rewrite <- Hb in Hf by done.
  destruct (bf_setbit_spec bf Hok pos ltac:(lia) Hf) as (bf' & E' & Hok' & Hnb' & Hc & Hb').
  destruct (set_fm_spec bf bf' Ej Hok' Hnb') as (M & F & W & Fr).
  exists bf, bf'. split_and!; try done; [rewrite W, Hc; lia|].
  intros s p. rewrite Fr. unfold fset. destruct (Z.eqb_spec s sn) as [->|]; [|done]. cbn [andb].
  destruct (Z.leb_spec 0 p).
  - rewrite Hb' by done. rewrite Hb by done. by destruct (p =? pos).
  - destruct (Z.eqb_spec p pos); [lia|done].
Qed.

(** [fm (sn).clrbit (pos)] *)
Lemma op_clr pos :
  fr_of bb sn pos = true ->
  exists bf bf', fm bb sn = Done bf /\ bf_clrbit bf pos = Done bf'
    /\ bb_maps (set_fm bb sn bf') lim /\ same_frame bb (set_fm bb sn bf')
    /\ bb_weight (set_fm bb sn bf') = bb_weight bb - 2 ^ sn
    /\ same_blocks (fr_of (set_fm bb sn bf')) (fset (fr_of bb) sn pos false).
Proof using Hm Hsn.
  intros Hf. destruct (fr_range pos Hf) as [Hp Hl].
  destruct fm_spec as (bf & E & Ej & Hok & Hnb & Hb).
  pose proof (pos_range pos Hp Hl) as Hr. rewrite <- Hb in Hf by done.
  destruct (bf_clrbit_spec bf Hok pos ltac:(lia) Hf) as (bf' & E' & Hok' & Hnb' & Hc & Hb').
  destruct (set_fm_spec bf bf' Ej Hok' Hnb') as (M & F & W & Fr).
  exists bf, bf'. split_and!; try done; [rewrite W, Hc; lia|].
  intros s p. rewrite Fr. unfold fset. destruct (Z.eqb_spec s sn) as [->|]; [|done]. cbn [andb].
  destruct (Z.leb_spec 0 p).
  - rewrite Hb' by done. rewrite Hb by done. by destruct (p =? pos).
  - destruct (Z.eqb_spec p pos); [lia|done].
Qed.

(** [fm (sn).findbit (&pos)] *)
Lemma op_find :
  exists bf p bf', fm bb sn = Done bf /\ findbit bf = Done (p, bf')
    /\ bb_maps (set_fm bb sn bf') lim /\ same_frame bb (set_fm bb sn bf')
    /\ bb_weight (set_fm bb sn bf') = bb_weight bb
    /\ same_blocks (fr_of (set_fm bb sn bf')) (fr_of bb)
    /\ match p with
       | Some pos => fr_of bb sn pos = true
       | None => forall pos, fr_of bb sn pos = false
       end.
Proof using Hm Hsn.
  destruct fm_spec as (bf & E & Ej & Hok & Hnb & Hb).
  destruct (findbit_spec bf Hok) as (p & bf' & E' & Hok' & Hbv & Hc & Hp).
  assert (Hnb' : bf_nbits bf' = bf_nbits bf) by (unfold bf_nbits; by rewrite Hbv).
  destruct (set_fm_spec bf bf' Ej Hok' Hnb') as (M & F & W & Fr).
  exists bf, p, bf'. split_and!; try done; [rewrite W, Hc; lia| |].
  - intros s q. rewrite Fr. destruct (Z.eqb_spec s sn) as [->|]; [|done]. cbn [andb].
    destruct (Z.leb_spec 0 q); [|done]. rewrite <- Hb by done. unfold bf_bit. by rewrite Hbv.
  - destruct p as [pos|].
    + rewrite <- Hb by lia. apply Hp.
    + intros pos. destruct (Z.lt_ge_cases pos 0).
      * unfold fr_of. destruct (Z.leb_spec 0 pos); [lia|]. by rewrite andb_false_r.
      * rewrite <- Hb by done. auto.
Qed.

End maps.

Lemma same_frame_refl bb : same_frame bb bb.
Proof. done. Qed.

Lemma same_frame_trans a b c : same_frame a b -> same_frame b c -> same_frame a c.
Proof. unfold same_frame. intuition congruence. Qed.

(** ** Invariant of the allocator *)
Record bb_inv (bb : bbuddy) (lim : Z) : Prop := {
  i_maps : bb_maps bb lim;
  i_blocks : blocks_ok (log2minalloc bb) (log2maxalloc bb) lim (fr_of bb)
}.

Record bb_ok (bb : bbuddy) : Prop := {
  ok_inv : bb_inv bb (totsize bb);
  ok_space : spaceleft bb = bb_weight bb
}.

(** An address is free. *)
Definition free (bb : bbuddy) (a : Z) : Prop := covered (fr_of bb) a.

Lemma inv_frame bb bb' lim fr :
  same_frame bb bb' -> bb_maps bb' lim -> same_blocks (fr_of bb') fr ->
  blocks_ok (log2minalloc bb) (log2maxalloc bb) lim fr -> bb_inv bb' lim.
Proof.
  intros (_ & H1 & H2 & _) Hm Hs Hb. split; [done|]. rewrite H1, H2. by rewrite Hs.
Qed.

(** ** Sizes *)
Lemma size_class_pos bb n :
  0 <= log2minalloc bb -> 0 < n < 2 ^ 64 ->
  size_class bb n = Z.max (log2minalloc bb) (Z.log2_up n) /\ n <= 2 ^ size_class bb n.
Proof.
  intros Hm Hn. unfold size_class. rewrite log2c64_spec by done.
  assert (H1 : 0 <= Z.log2_up n <= 64).
  { split; [apply Z.log2_up_nonneg|].
    apply Z.le_trans with (Z.log2_up (2 ^ 64)); [apply Z.log2_up_le_mono; lia|].
    by rewrite Z.log2_up_pow2. }
  rewrite u32_small by lia. assert (E : (if Z.log2_up n <? log2minalloc bb then log2minalloc bb
    else Z.log2_up n) = Z.max (log2minalloc bb) (Z.log2_up n))
    by (destruct (Z.ltb_spec (Z.log2_up n) (log2minalloc bb)); lia).
  rewrite E. split; [done|].
  apply Z.le_trans with (2 ^ Z.log2_up n); [|apply Z.pow_le_mono_r; lia].
  destruct (Z.eq_dec n 1) as [->|]; [done|]. apply Z.log2_up_spec. lia.
Qed.

Lemma size_class_0 bb : log2maxalloc bb <= 30 -> log2minalloc bb <= log2maxalloc bb ->
  size_class bb 0 = 2 ^ 32 - 1.
Proof.
  intros H1 H2. unfold size_class. change (u32 (log2c64 0)) with (2 ^ 32 - 1).
  destruct (Z.ltb_spec (2 ^ 32 - 1) (log2minalloc bb)); lia.
Qed.

Lemma shl_int_spec n : 0 <= n <= 30 -> shl_int n = Done (2 ^ n).
Proof. intros H. unfold shl_int. destruct (Z.ltb_spec n 31); [|lia]. by rewrite Z.shiftl_1_l. Qed.

(** ** Allocation *)
Lemma alloc_find_spec fuel bb lim sni :
  bb_maps bb lim -> log2minalloc bb <= sni <= log2maxalloc bb ->
  log2maxalloc bb - sni <= Z.of_nat fuel ->
  exists q bb', alloc_find fuel bb sni = Done (q, bb') /\ bb_maps bb' lim /\ same_frame bb bb'
    /\ bb_weight bb' = bb_weight bb /\ same_blocks (fr_of bb') (fr_of bb)
    /\ match q with
       | Some (s, pos) => sni < s <= log2maxalloc bb /\ fr_of bb s pos = true
       | None => forall s pos, sni < s <= log2maxalloc bb -> fr_of bb s pos = false
       end.
Proof.
  revert bb sni. induction fuel as [|fuel IH]; intros bb sni Hm Hs Hf; cbn [alloc_find];
    pose proof (m_max _ _ Hm); pose proof (m_min _ _ Hm); rewrite u32_small by lia.
  { destruct (Z.ltb_spec (log2maxalloc bb) (sni + 1)); [|lia].
    eexists _, _. split; [reflexivity|]. split_and!; try done. intros s pos ?. lia. }
  destruct (Z.ltb_spec (log2maxalloc bb) (sni + 1)).
  { eexists _, _. split; [reflexivity|]. split_and!; try done. intros s pos ?. lia. }
  destruct (op_find bb lim Hm (sni + 1) ltac:(lia)) as (bf & p & bf' & -> & E & M & F & W & B & Hp).
  cbn [mbind outcome_bind]. rewrite E. cbn [mbind outcome_bind]. destruct p as [pos|].
  { eexists _, _. split; [reflexivity|]. split_and!; try done; lia. }
  destruct (IH _ (sni + 1) M) as (q & bb' & E' & M' & F' & W' & B' & Hq).
  { cbn. lia. }
  { cbn. lia. }
  exists q, bb'. split_and!; try done.
  - by eapply same_frame_trans.
  - congruence.
  - by rewrite B', B.
  - destruct q as [[s pos]|].
    + destruct Hq as [Hq1 Hq2]. cbn in Hq1. rewrite B in Hq2. split; [lia|done].
    + intros s pos Hsp. destruct (Z.eq_dec s (sni + 1)) as [->|]; [apply Hp|].
      rewrite <- B. apply Hq. cbn. lia.
Qed.

Lemma alloc_split_spec fuel bb lim sn sni pos :
  bb_inv bb lim -> 1 <= sn -> log2minalloc bb <= sn -> sn <= sni <= log2maxalloc bb ->
  sni - sn <= Z.of_nat fuel -> 0 <= pos -> (pos + 1) * 2 ^ sni <= lim ->
  (forall a, 0 <= a -> a .>> sni = pos -> ~ free bb a) ->
  exists pos' bb', alloc_split fuel bb sn sni pos = Done (pos', bb')
    /\ bb_inv bb' lim /\ same_frame bb bb' /\ 0 <= pos' /\ (pos' + 1) * 2 ^ sn <= lim
    /\ pos' .>> (sni - sn) = pos
    /\ bb_weight bb' = bb_weight bb + 2 ^ sni - 2 ^ sn
    /\ (forall a, 0 <= a -> a .>> sn = pos' -> ~ free bb' a)
    /\ (forall a, 0 <= a -> free bb' a \/ a .>> sn = pos' <-> free bb a \/ a .>> sni = pos).
Proof.
  revert bb sni pos. induction fuel as [|fuel IH]; intros bb sni pos [Hm Hb] H1 Hmin Hs Hf Hp Hl Hu;
    cbn [alloc_split]; pose proof (m_max _ _ Hm); pose proof (m_min _ _ Hm);
    rewrite u32_small by lia;
    (destruct (Z.leb_spec sn (sni - 1)) as [Hle|Hgt];
     [|assert (sni = sn) as -> by lia; exists pos, bb; rewrite Z.sub_diag, Z.shiftr_0_r;
       by split_and!; try lia]); [lia|].
  assert (Hpow : 2 ^ sni = 2 * 2 ^ (sni - 1)) by (rewrite <- Z.pow_succ_r by lia; f_equal; lia).
  pose proof (Z.pow_pos_nonneg 2 (sni - 1)). pose proof (m_lim _ _ Hm).
  assert (Epos : u64 (pos .<< 1) = 2 * pos).
  { rewrite Z.shiftl_mul_pow2 by lia. rewrite u64_small by nia. lia. }
  rewrite Epos.
  assert (Hhalf : forall a x, a .>> (sni - 1) = x -> x .>> 1 = pos -> a .>> sni = pos).
  { intros a x <- <-. rewrite <- shr_succ by lia. f_equal. lia. }
  assert (Hodd : (2 * pos + 1) .>> 1 = pos) by (apply shr1_iff; lia).
  assert (Heven : (2 * pos) .>> 1 = pos) by (apply shr1_iff; lia).
  assert (Hnot : forall x, 0 <= x -> x .>> 1 = pos -> fr_of bb (sni - 1) x = false).
  { intros x Hx Ex. destruct (fr_of bb (sni - 1) x) eqn:E; [|done]. exfalso.
    assert (Ea : (x * 2 ^ (sni - 1)) .>> (sni - 1) = x) by (apply shr_block; lia).
    apply (Hu (x * 2 ^ (sni - 1))); [lia|by eapply Hhalf|]. exists (sni - 1). by rewrite Ea. }
  destruct (op_set bb lim Hm (sni - 1) ltac:(lia) (2 * pos + 1)) as (bf & bf' & -> & E & M & F & W & B);
    [lia|nia|apply Hnot; [lia|done]|].
  cbn [mbind outcome_bind]. rewrite E. cbn [mbind outcome_bind].
  destruct (set_blocks _ _ _ (proj1 (m_min _ _ Hm)) _ Hb (sni - 1) (2 * pos + 1)) as [B1 C1]; [lia|lia|nia| | |].
  { intros a Ha Ea. by apply Hu, (Hhalf a (2 * pos + 1)). }
  { intros _. apply Hnot; [by apply xor1_nonneg; lia|].
    rewrite xor1 by lia. rewrite Z.add_comm, Z.even_add_mul_2. cbn [Z.even]. apply shr1_iff. lia. }
  assert (Cov : forall a, 0 <= a -> free (set_fm bb (sni - 1) bf') a
    <-> free bb a \/ a .>> (sni - 1) = 2 * pos + 1).
  { intros a Ha. unfold free. rewrite B. by apply C1. }
  destruct (IH (set_fm bb (sni - 1) bf') (sni - 1) (2 * pos)) as (pos' & bb' & Hres);
    [by eapply inv_frame|done|done|cbn; lia|lia|lia|nia| |].
  { intros a Ha Ea [Hfr|Hfr]%Cov; [|lia|done]. by apply (Hu a Ha); [eapply Hhalf|]. }
  destruct Hres as (E' & I' & F' & Hp' & Hl' & Hsh & W' & U' & C').
  exists pos', bb'. split_and!; try done.
  - by eapply same_frame_trans.
  - replace (sni - sn) with (sni - 1 - sn + 1) by lia. rewrite shr_succ by lia. by rewrite Hsh.
  - rewrite W', W. lia.
  - intros a Ha. rewrite C', Cov by done. split.
    + intros [[?|?]|?]; auto; right; eapply Hhalf; eauto.
    + intros [?|Ea]; [auto|]. replace sni with (sni - 1 + 1) in Ea by lia.
      rewrite shr_succ in Ea by lia. apply shr1_iff in Ea as [?|?]; auto.
Qed.

(** The addresses [r .. r + len) have been taken out of the free ones. *)
Definition taken (bb : bbuddy) (r len : Z) (bb' : bbuddy) : Prop :=
  (forall a, r <= a < r + len -> free bb a)
  /\ (forall a, 0 <= a -> free bb' a <-> free bb a /\ ~ (r <= a < r + len))
  /\ spaceleft bb' = spaceleft bb - len.

(** The result of an allocation at block [pos] of size [2 ^ sn]. *)
Definition placed (bb : bbuddy) (sn r : Z) (bb' : bbuddy) : Prop :=
  0 <= r /\ r mod 2 ^ sn = 0 /\ r + 2 ^ sn <= totsize bb /\ taken bb r (2 ^ sn) bb'.

Definition same_sizes (bb bb' : bbuddy) : Prop :=
  totsize bb' = totsize bb /\ log2minalloc bb' = log2minalloc bb
  /\ log2maxalloc bb' = log2maxalloc bb.

Lemma finish_alloc bb bb' lim sn pos :
  bb_ok bb -> lim = totsize bb -> 0 <= sn -> bb_inv bb' lim -> same_frame bb bb' ->
  0 <= pos -> (pos + 1) * 2 ^ sn <= lim ->
  bb_weight bb' = bb_weight bb - 2 ^ sn ->
  (forall a, 0 <= a -> a .>> sn = pos -> ~ free bb' a) ->
  (forall a, 0 <= a -> free bb' a \/ a .>> sn = pos <-> free bb a) ->
  let bb2 := set_space bb' (spaceleft bb' - 2 ^ sn) in
  bb_ok bb2 /\ same_sizes bb bb2 /\ placed bb sn (pos .<< sn) bb2.
Proof.
  intros Hok -> Hsn [Hm Hb] (F1 & F2 & F3 & F4 & F5) Hp Hl W U C bb2.
  pose proof (Z.pow_pos_nonneg 2 sn).
  assert (Hblk : forall a, pos .<< sn <= a < (pos .<< sn) + 2 ^ sn <-> a .>> sn = pos).
  { intros a. rewrite shr_block, Z.shiftl_mul_pow2 by lia. lia. }
  assert (Hfree : forall a, free bb2 a <-> free bb' a) by done.
  split; [split|].
  - change (totsize bb2) with (totsize bb'). rewrite F1. split; [|exact Hb].
    destruct Hm. by split.
  - change (bb_weight bb2) with (bb_weight bb'). cbn. rewrite F5, (ok_space _ Hok). lia.
  - split; [done|]. rewrite (Z.shiftl_mul_pow2 pos) by lia. split_and!; [nia| |lia|].
    { apply Z.mod_mul. lia. }
    rewrite <- Z.shiftl_mul_pow2 by lia. split_and!.
    + intros a Ha. apply C; [|right; by apply Hblk].
      rewrite Z.shiftl_mul_pow2 in Ha by lia. nia.
    + intros a Ha. rewrite Hblk, Hfree, <- C by done. specialize (U a Ha). tauto.
    + cbn. lia.
Qed.

Lemma alloc_spec bb n :
  bb_ok bb -> 1 <= log2minalloc bb -> 0 <= n < 2 ^ 64 ->
  exists r bb', alloc bb n = Done (r, bb') /\ bb_ok bb' /\ same_sizes bb bb'
    /\ (r = -1 /\ (forall a, 0 <= a -> free bb' a <-> free bb a) /\ spaceleft bb' = spaceleft bb
          /\ (n = 0 \/ 2 ^ log2maxalloc bb < n
              \/ forall pos, 0 <= pos -> ~ forall a, 0 <= a -> a .>> size_class bb n = pos -> free bb a)
        \/ 0 < n <= 2 ^ size_class bb n /\ placed bb (size_class bb n) r bb').
Proof.
  intros Hok Hmin1 Hn. pose proof (ok_inv _ Hok) as [Hm Hb].
  pose proof (m_max _ _ Hm) as H30. pose proof (m_min _ _ Hm) as Hmin. unfold alloc.
  set (sn := size_class bb n).
  destruct (Z.ltb_spec (log2maxalloc bb) sn) as [Hgt|Hle].
  { eexists _, _. split; [reflexivity|]. split_and!; try done. left. split_and!; try done.
    destruct (Z.eq_dec n 0); [by left|]. right. left.
    destruct (size_class_pos bb n ltac:(lia) ltac:(lia)) as [E _]. fold sn in E.
    apply Z.lt_nge. intros Hc. apply Z.log2_up_le_pow2 in Hc; lia. }
  assert (Hn0 : 0 < n).
  { destruct (Z.eq_dec n 0) as [->|]; [|lia]. exfalso. unfold sn in Hle.
    rewrite size_class_0 in Hle by lia. lia. }
  destruct (size_class_pos bb n ltac:(lia) ltac:(lia)) as [Esn Hfit]. fold sn in Esn, Hfit.
  destruct (op_find bb _ Hm sn ltac:(lia)) as (bf & p & bf' & -> & E & M & F & W & B & Hp).
  cbn [mbind outcome_bind]. rewrite E. cbn [mbind outcome_bind].
  set (bb1 := set_fm bb sn bf') in *.
  assert (I1 : bb_inv bb1 (totsize bb)) by (by eapply inv_frame).
  destruct F as (F1 & F2 & F3 & F4 & F5).
  destruct p as [pos|].
  - (* a block of the right size *)
    rewrite <- B in Hp. destruct I1 as [_ B1].
    destruct (op_clr bb1 _ M sn ltac:(lia) pos Hp) as (bf2 & bf3 & E2 & E3 & M2 & Fr2 & W2 & Bl2).
    assert (bf2 = bf') as ->.
    { destruct (fm_spec bb1 _ M sn ltac:(lia)) as (b & Eb & Hl & _). rewrite Eb in E2.
      injection E2 as <-. unfold bb1, set_fm in Hl. cbn in Hl.
      rewrite list_lookup_insert_eq in Hl; [by injection Hl|].
      pose proof (m_len _ _ Hm). lia. }
    rewrite E3. cbn [mbind outcome_bind]. rewrite shl_int_spec by lia. cbn [mbind outcome_bind].
    destruct (fr_range _ _ M sn ltac:(lia) pos Hp) as [Hp0 Hpl].
    destruct (clr_blocks _ _ _ _ B1 sn pos Hp) as [B2 C2].
    set (bb2 := set_fm bb1 sn bf3) in *.
    assert (Hf2 : forall a, 0 <= a -> free bb2 a <-> free bb a /\ a .>> sn <> pos).
    { intros a Ha. unfold free. rewrite Bl2, C2 by done. by rewrite B. }
    assert (Hin : forall a, 0 <= a -> a .>> sn = pos -> free bb a).
    { intros a Ha <-. exists sn. by rewrite <- B. }
    eexists _, _. split; [reflexivity|].
    destruct (finish_alloc bb bb2 (totsize bb) sn pos) as (O & S & P); try done; try lia.
    + by eapply inv_frame.
    + by eapply same_frame_trans.
    + intros a Ha Ea. rewrite Hf2 by done. tauto.
    + intros a Ha. rewrite Hf2 by done. destruct (Z.eq_dec (a .>> sn) pos); naive_solver.
    + split; [done|]. split; [done|]. right. by split.
  - destruct (alloc_find_spec (length (freemaps bb1)) bb1 _ sn M) as
      (q & bb2 & -> & M2 & Fr2 & W2 & Bl2 & Hq); [lia| |].
    { pose proof (m_len _ _ M). lia. }
    cbn [mbind outcome_bind].
    assert (Bl3 : same_blocks (fr_of bb2) (fr_of bb)) by (by rewrite Bl2).
    assert (Hfr : same_frame bb bb2) by (by eapply same_frame_trans).
    assert (I2 : bb_inv bb2 (totsize bb)) by (by eapply inv_frame).
    destruct q as [[sni pos]|].
    + (* a larger block is split *)
      destruct Hq as [Hsni Hpos]. rewrite <- Bl2 in Hpos.
      destruct Fr2 as (G1 & G2 & G3 & G4 & G5).
      destruct (op_clr bb2 _ M2 sni ltac:(lia) pos Hpos) as (bf2 & bf3 & -> & E3 & M3 & Fr3 & W3 & Bl4).
      cbn [mbind outcome_bind]. rewrite E3. cbn [mbind outcome_bind].
      destruct (fr_range _ _ M2 sni ltac:(lia) pos Hpos) as [Hp0 Hpl].
      destruct I2 as [_ B2]. destruct (clr_blocks _ _ _ _ B2 sni pos Hpos) as [B3 C3].
      set (bb3 := set_fm bb2 sni bf3) in *.
      assert (Hf3 : forall a, 0 <= a -> free bb3 a <-> free bb a /\ a .>> sni <> pos).
      { intros a Ha. unfold free. rewrite Bl4, C3 by done. by rewrite Bl3. }
      assert (Hin : forall a, 0 <= a -> a .>> sni = pos -> free bb a).
      { intros a Ha <-. exists sni. by rewrite <- Bl3. }
      destruct (alloc_split_spec (length (freemaps bb2)) bb3 (totsize bb) sn sni pos)
        as (pos' & bb4 & -> & I4 & Fr4 & Hp4 & Hl4 & Hsh & W4 & U4 & C4); try done; try (cbn; lia).
      * by eapply inv_frame.
      * pose proof (m_len _ _ M2). lia.
      * intros a Ha Ea. rewrite Hf3 by done. tauto.
      * cbn [mbind outcome_bind]. rewrite shl_int_spec by lia. cbn [mbind outcome_bind].
        eexists _, _. split; [reflexivity|].
        destruct (finish_alloc bb bb4 (totsize bb) sn pos') as (O & S & P); try done; try lia.
        -- by do 2 (eapply same_frame_trans; [done|]).
        -- intros a Ha. rewrite C4, Hf3 by done. destruct (Z.eq_dec (a .>> sni) pos); naive_solver.
        -- split; [done|]. split; [done|]. right. by split.
    + (* no block is large enough *)
      eexists _, _. split; [reflexivity|]. destruct Hfr as (G1 & G2 & G3 & G4 & G5).
      split_and!; try done.
      { split; [by rewrite G1|]. rewrite G5, (ok_space _ Hok). congruence. }
      left. split_and!; try done.
      { intros a Ha. unfold free. by rewrite Bl3. }
      right. right. intros pos Hpos Hall.
      destruct (free_block_found _ _ _ (proj1 Hmin) _ Hb sn pos ltac:(lia) Hpos Hall)
        as (s & Hs & Ef).
      destruct (Z.eq_dec s sn) as [->|].
      * rewrite Hp in Ef. done.
      * rewrite <- B, Hq in Ef; [done|]. lia.
Qed.

(** ** Deallocation *)
(** Both halves of a block of twice the size are below the limit. *)
Lemma buddy_range bb lim sn pos :
  bb_maps bb lim -> 0 <= sn < log2maxalloc bb -> 0 <= pos -> (pos + 1) * 2 ^ sn <= lim ->
  ((pos .>> 1) + 1) * 2 ^ (sn + 1) <= lim /\ ((pos .^ 1) + 1) * 2 ^ sn <= lim.
Proof.
  intros Hm Hsn Hp Hl. pose proof (m_align _ _ Hm) as Ha. pose proof (m_lim _ _ Hm).
  set (L := log2maxalloc bb) in *. pose proof (Z.pow_pos_nonneg 2 sn).
  assert (Hpow : 2 ^ (sn + 1) = 2 * 2 ^ sn) by (rewrite Z.pow_add_r by lia; lia).
  assert (Hdiv : exists k, lim = k * 2 ^ (sn + 1)).
  { exists (lim / 2 ^ L * 2 ^ (L - (sn + 1))). rewrite <- Z.mul_assoc, <- Z.pow_add_r by lia.
    replace (L - (sn + 1) + (sn + 1)) with L by lia.
    pose proof (Z.div_mod lim (2 ^ L) ltac:(pose proof (Z.pow_pos_nonneg 2 L); lia)). lia. }
  destruct Hdiv as [k ->]. rewrite Hpow in *.
  assert (Hd : exists q, pos .>> 1 = q) by eauto. destruct Hd as [q Hq]. rewrite Hq.
  pose proof (proj1 (shr1_iff _ _) Hq) as Hq'. assert (q + 1 <= k) by nia.
  split; [nia|]. rewrite xor1 by done. destruct (Z.even pos) eqn:E; [|nia].
  apply Z.even_spec in E as [j Ej]. nia.
Qed.

(** A block whose buddy is not free goes on the map of its size. *)
Lemma place_block bb lim sn pos :
  bb_inv bb lim -> log2minalloc bb <= sn <= log2maxalloc bb -> 0 <= pos ->
  (pos + 1) * 2 ^ sn <= lim -> (forall a, 0 <= a -> a .>> sn = pos -> ~ free bb a) ->
  (sn < log2maxalloc bb -> fr_of bb sn (pos .^ 1) = false) ->
  exists bf bf', fm bb sn = Done bf /\ bf_setbit bf pos = Done bf'
    /\ bb_inv (set_fm bb sn bf') lim /\ same_frame bb (set_fm bb sn bf')
    /\ bb_weight (set_fm bb sn bf') = bb_weight bb + 2 ^ sn
    /\ (forall a, 0 <= a -> free (set_fm bb sn bf') a <-> free bb a \/ a .>> sn = pos).
Proof.
  intros [Hm Hb] Hs Hp Hl Hu Hbud. pose proof (m_min _ _ Hm) as Hmin.
  pose proof (Z.pow_pos_nonneg 2 sn).
  assert (Hnot : fr_of bb sn pos = false).
  { destruct (fr_of bb sn pos) eqn:E; [|done]. exfalso.
    assert (Ea : (pos * 2 ^ sn) .>> sn = pos) by (apply shr_block; lia).
    apply (Hu (pos * 2 ^ sn)); [lia|done|]. exists sn. by rewrite Ea. }
  destruct (op_set bb lim Hm sn Hs pos Hp Hl Hnot) as (bf & bf' & E1 & E2 & M & F & W & B).
  destruct (set_blocks _ _ _ (proj1 Hmin) _ Hb sn pos Hs Hp Hl Hu Hbud) as [B1 C1].
  exists bf, bf'. split_and!; try done; [by eapply inv_frame|].
  intros a Ha. unfold free. rewrite B. by apply C1.
Qed.

Lemma dealloc_loop_spec fuel bb lim sni pos :
  bb_inv bb lim -> log2minalloc bb <= sni <= log2maxalloc bb ->
  log2maxalloc bb - sni <= Z.of_nat fuel -> 0 <= pos -> (pos + 1) * 2 ^ sni <= lim ->
  (forall a, 0 <= a -> a .>> sni = pos -> ~ free bb a) ->
  exists bb', dealloc_loop fuel bb sni pos = Done bb' /\ bb_inv bb' lim /\ same_frame bb bb'
    /\ bb_weight bb' = bb_weight bb + 2 ^ sni
    /\ (forall a, 0 <= a -> free bb' a <-> free bb a \/ a .>> sni = pos).
Proof.
  revert bb sni pos. induction fuel as [|fuel IH]; intros bb sni pos [Hm Hb] Hs Hf Hp Hl Hu;
    pose proof (m_min _ _ Hm) as Hmin; cbn [dealloc_loop].
  all: pose proof (place_block bb lim sni pos (Build_bb_inv _ _ Hm Hb) Hs Hp Hl Hu) as Hset.
  all: destruct (Z.ltb_spec sni (log2maxalloc bb)) as [Hlt|Hge]; [try lia|
    assert (sni = log2maxalloc bb) as <- by lia;
    destruct Hset as (bf & bf' & E1 & E2 & H); [lia|]; rewrite E1; cbn [mbind outcome_bind];
    rewrite E2; eexists; split; [reflexivity|exact H]].
  destruct (buddy_range bb lim sni pos Hm ltac:(lia) Hp Hl) as [Hup Hbud].
  pose proof (xor1_nonneg pos Hp) as Hx.
  destruct (fm_spec bb lim Hm sni Hs) as (bf & E & _ & Hok & Hnb & Hbits).
  rewrite E. cbn [mbind outcome_bind].
  assert (Eg : getbit bf (pos .^ 1) = Done (fr_of bb sni (pos .^ 1))).
  { unfold getbit. rewrite <- Hbits by done. apply at_spec; [apply Hok|].
    fold (bf_nbits bf). rewrite Hnb. split; [done|]. by eapply pos_range. }
  rewrite Eg. cbn [mbind outcome_bind].
  destruct (fr_of bb sni (pos .^ 1)) eqn:Efr.
  - destruct (op_clr bb lim Hm sni Hs (pos .^ 1) Efr) as (b1 & bf' & E1 & E2 & M & F & W & B).
    rewrite E in E1. injection E1 as <-. rewrite E2. cbn [mbind outcome_bind].
    destruct (clr_blocks _ _ _ _ Hb sni (pos .^ 1) Efr) as [B1 C1].
    set (bb1 := set_fm bb sni bf') in *.
    assert (Hfree : forall a, 0 <= a -> free bb1 a <-> free bb a /\ a .>> sni <> (pos .^ 1))
      by (intros a Ha; unfold free; rewrite B; by apply C1).
    assert (Hhalf : forall a, 0 <= a -> a .>> (sni + 1) = pos .>> 1
      <-> a .>> sni = pos \/ a .>> sni = (pos .^ 1)).
    { intros a Ha. rewrite shr_succ by lia. apply xor1_shr; [done|by apply shr_nonneg]. }
    destruct (IH bb1 (sni + 1) (pos .>> 1)) as (bb' & E' & I' & F' & W' & C');
      [by eapply inv_frame|cbn; lia|cbn; lia|by apply shr_nonneg|done| |].
    { intros a Ha Ea. apply Hhalf in Ea; [|done]. rewrite Hfree by done.
      destruct Ea as [Ea|Ea]; [|tauto]. specialize (Hu a Ha Ea). tauto. }
    exists bb'. split_and!; try done.
    + by eapply same_frame_trans.
    + rewrite W', W, Z.pow_add_r by lia. lia.
    + intros a Ha. rewrite C', Hfree, Hhalf by done.
      destruct (Z.eq_dec (a .>> sni) (pos .^ 1)) as [Ea|]; [|tauto].
      assert (free bb a) by (exists sni; by rewrite Ea). tauto.
  - destruct (Hset ltac:(done)) as (b1 & bf' & E1 & E2 & H). rewrite E in E1. injection E1 as <-.
    rewrite E2. eexists. by split.
Qed.

(** The addresses [r .. r + len) have been added to the free ones. *)
Definition given (bb : bbuddy) (r len : Z) (bb' : bbuddy) : Prop :=
  (forall a, 0 <= a -> free bb' a <-> free bb a \/ r <= a < r + len)
  /\ spaceleft bb' = spaceleft bb + len.

Lemma dealloc_inv bb lim off len :
  bb_inv bb lim -> 0 < len < 2 ^ 64 ->
  let sn := size_class bb len in
  sn <= log2maxalloc bb -> 0 <= off -> off mod 2 ^ sn = 0 -> off + 2 ^ sn <= lim ->
  (forall a, off <= a < off + 2 ^ sn -> ~ free bb a) ->
  exists bb', dealloc bb off len = Done bb' /\ bb_inv bb' lim /\ same_sizes bb bb'
    /\ given bb off (2 ^ sn) bb' /\ bb_weight bb' = bb_weight bb + 2 ^ sn.
Proof.
  intros [Hm Hb] Hlen sn Hsn Hoff Hal Hl Hu. pose proof (m_min _ _ Hm) as Hmin.
  pose proof (m_max _ _ Hm). unfold dealloc. fold sn.
  destruct (size_class_pos bb len ltac:(lia) Hlen) as [Esn _]. fold sn in Esn.
  destruct (Z.ltb_spec (log2maxalloc bb) sn); [lia|].
  pose proof (Z.pow_pos_nonneg 2 sn).
  assert (Eoff : off = (off .>> sn) * 2 ^ sn).
  { rewrite Z.shiftr_div_pow2 by lia. pose proof (Z.div_mod off (2 ^ sn)). lia. }
  assert (Eq : (off =? (off .>> sn) .<< sn) = true)
    by (apply Z.eqb_eq; rewrite Z.shiftl_mul_pow2 by lia; done).
  rewrite Eq. cbn [assertM mbind outcome_bind]. rewrite shl_int_spec by lia.
  cbn [mbind outcome_bind]. set (pos := off .>> sn) in *.
  assert (Hblk : forall a, a .>> sn = pos <-> off <= a < off + 2 ^ sn)
    by (intros a; rewrite shr_block by lia; lia).
  set (bb1 := set_space bb (spaceleft bb + 2 ^ sn)).
  destruct (dealloc_loop_spec (length (freemaps bb1)) bb1 lim sn pos)
    as (bb' & E & I & (F1 & F2 & F3 & F4 & F5) & W & C).
  - split; [|done]. destruct Hm. by split.
  - cbn. lia.
  - pose proof (m_len _ _ Hm). cbn. lia.
  - by apply shr_nonneg.
  - lia.
  - intros a Ha Ea. apply Hu. by apply Hblk.
  - exists bb'. split_and!; try done. split; [|done]. intros a Ha. rewrite C, Hblk by done. done.
Qed.

Lemma dealloc_spec bb off len :
  bb_ok bb -> 0 < len < 2 ^ 64 ->
  let sn := size_class bb len in
  sn <= log2maxalloc bb -> 0 <= off -> off mod 2 ^ sn = 0 -> off + 2 ^ sn <= totsize bb ->
  (forall a, off <= a < off + 2 ^ sn -> ~ free bb a) ->
  exists bb', dealloc bb off len = Done bb' /\ bb_ok bb' /\ same_sizes bb bb'
    /\ given bb off (2 ^ sn) bb'.
Proof.
  intros [I S] Hlen sn Hsn Hoff Hal Hl Hu.
  destruct (dealloc_inv bb _ off len I Hlen Hsn Hoff Hal Hl Hu) as (bb' & E & I' & F & G & W).
  exists bb'. split_and!; try done. split; [by rewrite (proj1 F)|].
  destruct G as [_ G]. lia.
Qed.
