(* ===== verification/BbuddyProps.v ===== *)
(** * The buddy allocator hands out disjoint blocks

    First the lemmas on making an allocator, its growth and its check, then the
    properties of [async/bbuddy.C]: blocks handed out are free, aligned
    and disjoint from all others; freeing puts them back; an allocation fails
    only when no aligned free block of the size exists; the consistency check
    passes in every reachable state. *)
From Stdlib Require Import ZArith Lia Btauto.
From stdpp Require Import prelude.
From S2P Require Import Prelude Bits Bbuddy BbuddyMap BbuddyOps.

(** ** The consistency check passes *)
Lemma mapM_done {A B} (f : A -> outcome B) (l : list A) :
  (forall x, x ∈ l -> exists b, f x = Done b) -> exists r, mapM f l = Done r.
Proof.
  induction l as [|x l IH]; intros H; [by exists []|].
  destruct (H x) as [b E]; [by left|]. destruct IH as [r Er]; [intros y Hy; apply H; by right|].
  exists (b :: r). cbn. rewrite E. cbn. by rewrite Er.
Qed.

Lemma check_pos_spec fuel bb lim sn pos set :
  bb_inv bb lim -> log2minalloc bb <= sn <= log2maxalloc bb -> sn - log2minalloc bb < Z.of_nat fuel ->
  0 <= pos -> (pos + 1) * 2 ^ sn <= lim ->
  (set = true -> forall a s, 0 <= a -> a .>> sn = pos -> s <= sn -> fr_of bb s (a .>> s) = false) ->
  _check_pos fuel bb sn pos set = Done (fr_of bb sn pos).
Proof.
  intros Hinv. pose proof Hinv as [Hm Hb]. pose proof (m_min _ _ Hm) as Hmin.
  revert sn pos set. induction fuel as [|fuel IH]; intros sn pos set Hs Hf Hp Hl Hset; [lia|].
  cbn [_check_pos]. destruct (fm_spec bb lim Hm sn Hs) as (bf & -> & _ & Hok & Hnb & Hbits).
  cbn [mbind outcome_bind].
  assert (Eg : getbit bf pos = Done (fr_of bb sn pos)).
  { unfold getbit. rewrite <- Hbits by done. apply at_spec; [apply Hok|].
    fold (bf_nbits bf). rewrite Hnb. split; [done|]. by eapply pos_range. }
  rewrite Eg. cbn [mbind outcome_bind]. pose proof (Z.pow_pos_nonneg 2 sn).
  assert (Hx : (pos * 2 ^ sn) .>> sn = pos) by (apply shr_block; lia).
  assert (Hno : fr_of bb sn pos && set = false).
  { destruct set; [|by rewrite andb_false_r]. rewrite andb_true_r, <- Hx.
    apply Hset; [done|lia|done|lia]. }
  rewrite Hno. cbn [mbind outcome_bind].
  destruct (Z.ltb_spec (log2minalloc bb) sn) as [Hlt|Hge]; [|done].
  assert (Hpow : 2 ^ sn = 2 * 2 ^ (sn - 1)) by (rewrite <- Z.pow_succ_r by lia; f_equal; lia).
  assert (Hchild : forall q, q .>> 1 = pos ->
    _check_pos fuel bb (sn - 1) q (set || fr_of bb sn pos) = Done (fr_of bb (sn - 1) q)).
  { intros q Hq. pose proof (proj1 (shr1_iff _ _) Hq) as Hq'.
    apply IH; [lia|lia|lia|nia|]. intros Hs' a s Ha Ea Hle.
    assert (Eup : a .>> sn = pos).
    { replace sn with (sn - 1 + 1) by lia. rewrite shr_succ by lia. congruence. }
    apply orb_true_iff in Hs' as [Hs'|Hs']; [apply (Hset Hs'); [done|done|lia]|].
    destruct (fr_of bb s (a .>> s)) eqn:E; [|done]. rewrite <- Eup in Hs'.
    pose proof (b_unique _ _ _ _ Hb a s sn Ha E Hs'). lia. }
  rewrite Z.shiftl_mul_pow2 by lia. replace (pos * 2 ^ 1) with (2 * pos) by lia.
  rewrite Hchild by (apply shr1_iff; lia). cbn [mbind outcome_bind].
  rewrite Hchild by (apply shr1_iff; lia). cbn [mbind outcome_bind].
  destruct (fr_of bb (sn - 1) (2 * pos)) eqn:E1; [|done].
  apply (b_coalesced _ _ _ _ Hb) in E1; [|lia]. rewrite xor1 in E1 by lia.
  rewrite Z.even_mul in E1. cbn [Z.even orb] in E1. by rewrite E1.
Qed.

Lemma bb_check_spec bb lim : bb_inv bb lim -> bb_check bb = Done tt.
Proof.
  intros Hinv. pose proof Hinv as [Hm Hb]. pose proof (m_min _ _ Hm) as Hmin. unfold bb_check.
  edestruct (mapM_done (fun sn => bf ← fm bb sn; bf_check bf)) as [r1 ->].
  { intros sn Hsn%elem_of_seqZ.
    destruct (fm_spec bb lim Hm sn ltac:(lia)) as (bf & -> & _ & Hok & _). exists tt.
    by apply bf_check_spec. }
  cbn [mbind outcome_bind].
  destruct (fm_spec bb lim Hm (log2maxalloc bb) ltac:(lia)) as (bf & -> & _ & Hok & Hnb & _).
  cbn [mbind outcome_bind].
  edestruct (mapM_done (fun pos => _check_pos (length (freemaps bb)) bb (log2maxalloc bb) pos false))
    as [r2 ->]; [|done].
  intros pos Hp%elem_of_seqZ. eexists. eapply check_pos_spec; [done|lia| |lia| |done].
  - pose proof (m_len _ _ Hm). lia.
  - change (getsize bf) with (bf_nbits bf) in Hp. rewrite Hnb, Z.shiftr_div_pow2 in Hp by lia.
    pose proof (Z.pow_pos_nonneg 2 (log2maxalloc bb)).
    pose proof (Z.mul_div_le lim (2 ^ log2maxalloc bb)). nia.
Qed.

(** ** Growing the maps *)
(** The same positions on a map that may be longer. *)
Definition map_grown (bf bf' : bbfree) : Prop :=
  bf_ok bf' /\ cnt bf' = cnt bf /\ forall i, 0 <= i -> bf_bit bf' i = bf_bit bf i.

Lemma map_grown_trans a b c : map_grown a b -> map_grown b c -> map_grown a c.
Proof.
  intros (_ & H1 & H2) (H3 & H4 & H5). split_and!; [done|congruence|].
  intros i Hi. by rewrite H5, H2.
Qed.

Lemma init_maps_spec fuel junk bb lim sn :
  (forall i, 0 <= junk i < 2 ^ 64) -> 0 <= lim < 2 ^ 63 ->
  0 <= log2minalloc bb <= sn -> sn <= log2maxalloc bb + 1 ->
  log2maxalloc bb + 1 - sn <= Z.of_nat fuel ->
  Z.of_nat (length (freemaps bb)) = log2maxalloc bb - log2minalloc bb + 1 ->
  (forall j bf, freemaps bb !! j = Some bf ->
     bf_ok bf /\ bf_nbits bf <= lim .>> (log2minalloc bb + Z.of_nat j)) ->
  exists bb', init_maps fuel junk bb sn (lim .>> sn) = Done bb' /\ same_frame bb bb'
    /\ forall j bf, freemaps bb !! j = Some bf -> exists bf', freemaps bb' !! j = Some bf'
       /\ map_grown bf bf'
       /\ bf_nbits bf' = if sn <=? log2minalloc bb + Z.of_nat j
                         then lim .>> (log2minalloc bb + Z.of_nat j) else bf_nbits bf.
Proof.
  intros Hj Hlim. revert bb sn. induction fuel as [|fuel IH];
    intros bb sn Hmin Hmax Hf Hlen Hmaps; cbn [init_maps];
    (destruct (Z.leb_spec sn (log2maxalloc bb)) as [Hle|Hgt];
    [|exists bb; split_and!; try done; intros j bf E; exists bf; destruct (Hmaps j bf E);
      split_and!; try done; apply lookup_lt_Some in E;
      destruct (Z.leb_spec sn (log2minalloc bb + Z.of_nat j)); [lia|done]]); [lia|].
  set (k := Z.to_nat (sn - log2minalloc bb)).
  destruct (lookup_lt_is_Some_2 (freemaps bb) k) as [bf E]; [unfold k; lia|].
  destruct (Hmaps k bf E) as [Hok Hnb].
  replace (log2minalloc bb + Z.of_nat k) with sn in Hnb by (unfold k; lia).
  assert (Efm : fm bb sn = Done bf).
  { unfold fm. destruct (Z.leb_spec (log2minalloc bb) sn), (Z.leb_spec sn (log2maxalloc bb)); try lia.
    cbn. unfold rd. destruct (Z.leb_spec 0 (sn - log2minalloc bb)); [|lia]. fold k. by rewrite E. }
  rewrite Efm. cbn [mbind outcome_bind].
  assert (Hsh : lim .>> sn <= 2 ^ 63).
  { rewrite Z.shiftr_div_pow2 by lia. pose proof (Z.pow_pos_nonneg 2 sn).
    apply Z.div_le_upper_bound; nia. }
  destruct (bbfree_init_spec junk bf (lim .>> sn) Hj Hok ltac:(lia)) as (bf' & -> & Hok' & Hnb' & Hc & Hb).
  cbn [mbind outcome_bind]. rewrite <- shr_succ by lia.
  destruct (IH (set_fm bb sn bf') (sn + 1)) as (bb' & E' & F' & H').
  - cbn. lia.
  - cbn. lia.
  - cbn. lia.
  - cbn. by rewrite length_insert.
  - cbn. intros j b Hjb. fold k in Hjb.
    apply list_lookup_insert_Some in Hjb as [(<- & -> & _)|(_ & Hjb)]; [|auto].
    split; [done|]. rewrite Hnb'. apply Z.eq_le_incl. f_equal. unfold k. lia.
  - exists bb'. split; [exact E'|]. split.
    { destruct F' as (F1 & F2 & F3 & F4 & F5). unfold same_frame. cbn in *.
      rewrite length_insert in F4. done. }
    intros j b Ejb. cbn in H'. fold k in H'. destruct (decide (j = k)) as [->|Hne].
    + rewrite E in Ejb. injection Ejb as <-.
      destruct (H' k bf') as (b' & E1 & G & N).
      { apply list_lookup_insert_eq. by eapply lookup_lt_Some. }
      exists b'. split_and!; [done|by eapply map_grown_trans|].
      replace (log2minalloc bb + Z.of_nat k) with sn in * by (unfold k; lia).
      destruct (Z.leb_spec (sn + 1) sn), (Z.leb_spec sn sn); try lia.
    + destruct (H' j b) as (b' & E1 & G & N); [by rewrite list_lookup_insert_ne|].
      exists b'. split_and!; [done|done|]. rewrite N.
      assert (sn <> log2minalloc bb + Z.of_nat j) by (unfold k in Hne; lia).
      destruct (Z.leb_spec (sn + 1) (log2minalloc bb + Z.of_nat j)),
        (Z.leb_spec sn (log2minalloc bb + Z.of_nat j)); lia || done.
Qed.

Lemma weight_ext sn l l' :
  length l' = length l ->
  (forall j bf, l !! j = Some bf -> exists bf', l' !! j = Some bf' /\ cnt bf' = cnt bf) ->
  weight sn l' = weight sn l.
Proof.
  revert sn l'. induction l as [|bf l IH]; intros sn [|bf' l'] Hl H; try done. cbn.
  destruct (H 0%nat bf eq_refl) as (b & [= <-] & ->). f_equal. apply IH; [by injection Hl|].
  intros j b' E. apply (H (S j) b' E).
Qed.

(** The maps of an allocator, made long enough for addresses up to [lim']. *)
Lemma grow_maps junk bb lim lim' :
  (forall i, 0 <= junk i < 2 ^ 64) -> bb_inv bb lim -> lim <= lim' < 2 ^ 63 ->
  lim' mod 2 ^ log2maxalloc bb = 0 ->
  exists bb', init_maps (length (freemaps bb)) junk bb (log2minalloc bb) (lim' .>> log2minalloc bb)
      = Done bb' /\ bb_inv bb' lim' /\ same_frame bb bb' /\ bb_weight bb' = bb_weight bb
    /\ same_blocks (fr_of bb') (fr_of bb).
Proof.
  intros Hj [Hm Hb] Hlim Hal. pose proof Hm as [H1 H2 H3 H4 H5 H6].
  destruct (init_maps_spec (length (freemaps bb)) junk bb lim' (log2minalloc bb))
    as (bb' & E & F & H); try done; try lia.
  { intros j bf Ejb. destruct (H6 j bf Ejb) as [Hok ->]. split; [done|].
    rewrite !Z.shiftr_div_pow2 by lia. apply Z.div_le_mono; [|lia].
    apply Z.pow_pos_nonneg; lia. }
  exists bb'. pose proof F as (F1 & F2 & F3 & F4 & F5).
  assert (Hbl : same_blocks (fr_of bb') (fr_of bb)).
  { intros sn pos. unfold fr_of. rewrite F2.
    destruct (Z.leb_spec (log2minalloc bb) sn), (Z.leb_spec 0 pos); try done. cbn [andb].
    unfold bit_at. destruct (freemaps bb !! _) as [bf|] eqn:Ebf.
    - destruct (H _ bf Ebf) as (bf' & -> & (_ & _ & ->) & _); done.
    - destruct (freemaps bb' !! _) as [bf'|] eqn:Ebf'; [|done].
      apply lookup_lt_Some in Ebf'. apply lookup_ge_None in Ebf. lia. }
  assert (Hm' : bb_maps bb' lim').
  { split; rewrite ?F2, ?F3, ?F4; try done; try lia.
    intros j bf' Ejb. destruct (lookup_lt_is_Some_2 (freemaps bb) j) as [bf Ebf].
    { rewrite <- F4. by eapply lookup_lt_Some. }
    destruct (H j bf Ebf) as (b & Eb & (Hok & _) & N). rewrite Ejb in Eb. injection Eb as <-.
    split; [done|]. rewrite N. destruct (Z.leb_spec (log2minalloc bb) (log2minalloc bb + Z.of_nat j)); lia || done. }
  split_and!; [exact E| |done| |done].
  - eapply (inv_frame bb); [done|done|done|]. destruct Hb as [B1 B2 B3]. split; [|done|done].
    intros sn pos Hs. destruct (B1 sn pos Hs) as (? & ? & ?). split_and!; try done; lia.
  - unfold bb_weight. rewrite F2. apply weight_ext; [done|].
    intros j bf Ebf. destruct (H j bf Ebf) as (b & Eb & (_ & Hc & _) & _). eauto.
Qed.

(** [settotsize] is only called with multiples of the greatest size, so that
    the loop that brings the offset to such a multiple has nothing to do. *)
Lemma grow_align_nothing bb o :
  log2maxalloc bb <= 30 -> 0 <= log2maxalloc bb -> 0 <= o < 2 ^ 63 -> o mod 2 ^ log2maxalloc bb = 0 ->
  grow_align 64 bb o = Done (o, bb).
Proof.
  intros H30 H0 Ho Hal. cbn [grow_align]. rewrite (u64_small o) by lia.
  set (L := log2maxalloc bb) in *.
  destruct (Z.eq_dec o 0) as [->|Hne].
  { change (u64 (ffs64 0 - 1)) with (2 ^ 64 - 1). destruct (Z.leb_spec L (2 ^ 64 - 1)); [done|lia]. }
  destruct (ffs64_some_bit o ltac:(lia)) as [Hr Hbit]. rewrite u64_small by lia.
  destruct (Z.leb_spec L (ffs64 o - 1)) as [|Hlt]; [done|]. exfalso.
  rewrite <- (Z.mod_pow2_bits_low o L) in Hbit by lia. by rewrite Hal, Z.bits_0 in Hbit.
Qed.

Lemma size_class_max bb :
  0 <= log2minalloc bb <= log2maxalloc bb -> log2maxalloc bb <= 30 ->
  size_class bb (2 ^ log2maxalloc bb) = log2maxalloc bb.
Proof.
  intros H1 H2. assert (0 < 2 ^ log2maxalloc bb < 2 ^ 64).
  { split; [apply Z.pow_pos_nonneg; lia|apply Z.pow_lt_mono_r; lia]. }
  destruct (size_class_pos bb (2 ^ log2maxalloc bb) ltac:(lia) ltac:(done)) as [-> _].
  rewrite Z.log2_up_pow2 by lia. lia.
Qed.

Lemma grow_rest_spec fuel bb ts o :
  bb_inv bb ts -> 0 <= o <= ts -> o mod 2 ^ log2maxalloc bb = 0 -> ts - o <= Z.of_nat fuel ->
  (forall a, 0 <= a -> free bb a -> a < o) ->
  exists bb', grow_rest fuel bb o ts (2 ^ log2maxalloc bb) = Done bb' /\ bb_inv bb' ts
    /\ same_sizes bb bb' /\ given bb o (ts - o) bb' /\ bb_weight bb' = bb_weight bb + (ts - o).
Proof.
  revert bb o. induction fuel as [|fuel IH]; intros bb o Hinv Ho Hal Hf Hfree;
    pose proof Hinv as [Hm _]; pose proof (m_min _ _ Hm) as Hmin; pose proof (m_max _ _ Hm);
    cbn [grow_rest]; (destruct (Z.ltb_spec o ts) as [Hlt|Hge];
    [|exists bb; assert (ts - o = 0) as -> by lia; split_and!; try done; try lia;
      split; [|lia]; intros a Ha; split; [by left|intros [|]; [done|lia]]]); [lia|].
  set (L := log2maxalloc bb) in *. pose proof (Z.pow_pos_nonneg 2 L) as HL.
  assert (Hroom : o + 2 ^ L <= ts).
  { pose proof (m_align _ _ Hm) as Hts. fold L in Hts.
    pose proof (Z.div_mod o (2 ^ L) ltac:(lia)) as Eo. rewrite Hal, Z.add_0_r in Eo.
    pose proof (Z.div_mod ts (2 ^ L) ltac:(lia)) as Et. rewrite Hts, Z.add_0_r in Et.
    assert (o / 2 ^ L < ts / 2 ^ L) by nia. nia. }
  assert (Hcl : size_class bb (2 ^ L) = L) by (by apply size_class_max).
  destruct (dealloc_inv bb ts o (2 ^ L)) as (bb1 & -> & I1 & S1 & G1 & W1); rewrite ?Hcl; try done; try lia.
  { split; [lia|]. apply Z.pow_lt_mono_r; lia. }
  { intros a Ha Hfa. specialize (Hfree a ltac:(lia) Hfa). lia. }
  rewrite Hcl in G1, W1. cbn [mbind outcome_bind].
  destruct G1 as [G1 Sp1]. destruct S1 as (T1 & T2 & T3).
  destruct (IH bb1 (o + 2 ^ L)) as (bb2 & E2 & I2 & (U1 & U2 & U3) & [G2 Sp2] & W2); rewrite ?T3; try done.
  { lia. }
  { fold L. rewrite Z.add_mod, Z.mod_same, Hal by lia. by rewrite Z.mod_0_l by lia. }
  { lia. }
  { intros a Ha [Hfa|Hfa]%G1; [|lia|done]. specialize (Hfree a Ha Hfa). lia. }
  rewrite T3 in E2. fold L in E2. exists bb2. rewrite E2. split_and!; try done.
  - split_and!; congruence.
  - split; [|lia]. intros a Ha. rewrite G2, G1 by done. split; [intros [[|]|]|intros [|]]; try tauto.
    + right. lia.
    + right. lia.
    + destruct (Z.lt_ge_cases a (o + 2 ^ L)); [left; right; lia|right; lia].
  - lia.
Qed.

Lemma round_down ts n : 0 <= n -> (ts .& Z.lnot (2 ^ n - 1)) = ts / 2 ^ n * 2 ^ n.
Proof.
  intros Hn. rewrite <- Z.ldiff_land. replace (2 ^ n - 1) with (Z.ones n)
    by (rewrite Z.ones_equiv; lia).
  rewrite Z.ldiff_ones_r by done. by rewrite Z.shiftl_mul_pow2, Z.shiftr_div_pow2 by done.
Qed.

Lemma settotsize_spec junk bb ts :
  (forall i, 0 <= junk i < 2 ^ 64) -> bb_ok bb -> ts < 2 ^ 63 ->
  let ts' := ts / 2 ^ log2maxalloc bb * 2 ^ log2maxalloc bb in
  totsize bb <= ts' ->
  exists bb', settotsize junk bb ts = Done bb' /\ bb_ok bb' /\ totsize bb' = ts'
    /\ log2minalloc bb' = log2minalloc bb /\ log2maxalloc bb' = log2maxalloc bb
    /\ given bb (totsize bb) (ts' - totsize bb) bb'.
Proof.
  intros Hj [Hinv Hsp] Hts ts' Hle. pose proof Hinv as [Hm Hb].
  pose proof (m_min _ _ Hm) as Hmin. pose proof (m_max _ _ Hm). pose proof (m_lim _ _ Hm).
  unfold settotsize. rewrite shl_int_spec by lia. cbn [mbind outcome_bind].
  rewrite round_down by lia. fold ts'. set (L := log2maxalloc bb) in *.
  pose proof (Z.pow_pos_nonneg 2 L) as HL.
  assert (Hts' : ts' <= ts) by (unfold ts'; pose proof (Z.mul_div_le ts (2 ^ L)); lia).
  assert (Hal : ts' mod 2 ^ L = 0) by (apply Z.mod_mul; lia).
  destruct (Z.leb_spec (totsize bb) ts'); [|lia]. cbn [assertM mbind outcome_bind].
  destruct (grow_maps junk bb (totsize bb) ts' Hj Hinv ltac:(lia) Hal)
    as (bb1 & -> & I1 & (F1 & F2 & F3 & F4 & F5) & W1 & B1).
  cbn [mbind outcome_bind]. rewrite F1.
  assert (Hfree1 : forall a, free bb1 a <-> free bb a) by (intros a; unfold free; by rewrite B1).
  assert (Hbelow : forall a, 0 <= a -> free bb1 a -> a < totsize bb).
  { intros a Ha Hfa%Hfree1. destruct Hfa as [sn Efr]. destruct (b_range _ _ _ _ Hb _ _ Efr) as (R1 & R2 & R3).
    assert (Hx : a .>> sn = a .>> sn) by done. rewrite shr_block in Hx by lia. lia. }
  assert (Hrest : exists bb2,
    (if totsize bb <? ts' then r ← grow_align 64 bb1 (totsize bb);
       let '(o, bb) := r : Z * bbuddy in grow_rest (Z.to_nat (ts' - o)) bb o ts' (2 ^ L)
     else Done bb1) = Done bb2 /\ bb_inv bb2 ts' /\ same_sizes bb1 bb2
    /\ given bb1 (totsize bb) (ts' - totsize bb) bb2
    /\ bb_weight bb2 = bb_weight bb1 + (ts' - totsize bb)).
  { destruct (Z.ltb_spec (totsize bb) ts').
    - rewrite grow_align_nothing by (rewrite ?F3; fold L; try lia; apply (m_align _ _ Hm)).
      cbn [mbind outcome_bind].
      assert (EL : L = log2maxalloc bb1) by done. rewrite EL. apply grow_rest_spec; try done; try lia.
      rewrite F3. apply (m_align _ _ Hm).
    - exists bb1. assert (ts' - totsize bb = 0) as -> by lia. split_and!; try done; try lia.
      split; [|lia]. intros a Ha. split; [by left|intros [|]; [done|lia]]. }
  destruct Hrest as (bb2 & -> & I2 & (T1 & T2 & T3) & [G2 Sp2] & W2). cbn [mbind outcome_bind].
  eexists. split; [reflexivity|].
  split_and!; [|done|cbn; congruence|cbn; by rewrite T3, F3|].
  - split; [|cbn; unfold bb_weight in *; cbn; lia].
    destruct I2 as [M2 B2]. split; [destruct M2; by split|exact B2].
  - split; [|cbn; lia]. intros a Ha. unfold free. cbn.
    change (covered (fr_of bb2) a <-> covered (fr_of bb) a \/ totsize bb <= a < totsize bb + (ts' - totsize bb)).
    rewrite <- (Hfree1 a : covered _ _ <-> covered _ _). by apply G2.
Qed.

Lemma mapM_const {A} (m : outcome A) a (l : list nat) :
  m = Done a -> mapM (fun _ => m) l = Done (replicate (length l) a).
Proof. intros ->. induction l as [|x l IH]; [done|]. cbn. by rewrite IH. Qed.

Lemma weight_zero sn n bf : cnt bf = 0 -> weight sn (replicate n bf) = 0.
Proof. intros H. revert sn. induction n as [|n IH]; intros sn; cbn; [done|]. rewrite IH, H. lia. Qed.

Lemma bbuddy_new_spec junk ts minalloc maxalloc :
  (forall i, 0 <= junk i < 2 ^ 64) -> 0 <= ts < 2 ^ 63 ->
  0 < minalloc -> minalloc <= maxalloc <= 2 ^ 30 ->
  let lmax := Z.log2_up maxalloc in
  let ts' := ts / 2 ^ lmax * 2 ^ lmax in
  exists bb, bbuddy_new junk ts minalloc maxalloc = Done bb /\ bb_ok bb
    /\ totsize bb = ts' /\ log2minalloc bb = Z.log2_up minalloc /\ log2maxalloc bb = lmax
    /\ spaceleft bb = ts' /\ forall a, 0 <= a -> free bb a <-> a < ts'.
Proof.
  intros Hj Hts Hmin Hmax lmax ts'. unfold bbuddy_new.
  rewrite !log2c64_spec by lia.
  assert (Hlm : Z.log2_up minalloc <= lmax) by (apply Z.log2_up_le_mono; lia).
  assert (Hl0 : 0 <= Z.log2_up minalloc) by apply Z.log2_up_nonneg.
  assert (H30 : lmax <= 30) by (apply Z.log2_up_le_pow2; lia).
  fold lmax. rewrite (u32_small lmax), (u32_small (Z.log2_up minalloc)), (u32_small (_ - _)) by lia.
  set (lmin := Z.log2_up minalloc) in *.
  destruct (bbfree_new_spec junk Hj) as (bf & E & Hok & Hnb & Hc & Hbits).
  rewrite (mapM_const _ bf) by done. cbn [mbind outcome_bind].
  destruct (Z.leb_spec lmin lmax); [|lia]. cbn [assertM mbind outcome_bind].
  rewrite length_seq. set (bb0 := mkbb 0 lmin lmax _ 0).
  assert (Hfr0 : forall sn pos, fr_of bb0 sn pos = false).
  { intros sn pos. unfold fr_of, bit_at. cbn.
    destruct (Z.leb_spec 0 pos); [|by rewrite andb_false_r].
    destruct (_ !! _) as [b|] eqn:Eb; [|by rewrite andb_false_r].
    apply lookup_replicate in Eb as [-> _]. by rewrite Hbits, andb_false_r. }
  assert (Hok0 : bb_ok bb0).
  { split; [split|].
    - split; cbn; try lia; try done; [rewrite length_replicate; lia|].
      intros j b Eb. apply lookup_replicate in Eb as [-> _]. split; [done|].
      by rewrite Hnb, Z.shiftr_0_l.
    - split; intros *; rewrite ?Hfr0; done.
    - unfold bb_weight. cbn. by rewrite weight_zero. }
  destruct (settotsize_spec junk bb0 ts Hj Hok0 ltac:(lia)) as (bb & Eb & O & T & L1 & L2 & [G Sp]).
  { cbn. pose proof (Z.pow_pos_nonneg 2 lmax). pose proof (Z.div_pos ts (2 ^ lmax)). nia. }
  exists bb. cbn in *. fold ts' in T, G, Sp. split_and!; try done; try lia.
  intros a Ha. rewrite G by done. split; [|lia].
  intros [[sn Efr]|]; [|lia]. by rewrite Hfr0 in Efr.
Qed.

(** * What the allocator promises *)
(** ** A concrete allocator for the witnesses: 1024 bytes, blocks of 64 to 256 *)
Definition bb_junk (i : nat) : Z := 12345.
Lemma bb_junk_word i : 0 <= bb_junk i < 2 ^ 64.
Proof. unfold bb_junk. lia. Qed.

Definition sample_map (w n c : Z) : bbfree := mkbf (mkbv [w] n) 0 c 1.
Definition sample_bb : bbuddy :=
  mkbb 1024 6 8 [sample_map 0 16 0; sample_map 0 8 0; sample_map 15 4 4] 1024.

Lemma sample_bb_new : bbuddy_new bb_junk 1100 64 256 = Done sample_bb.
Proof. vm_compute. reflexivity. Qed.

Lemma sample_bb_facts : bb_ok sample_bb /\ forall a, 0 <= a -> free sample_bb a <-> a < 1024.
Proof.
  destruct (bbuddy_new_spec bb_junk 1100 64 256 bb_junk_word ltac:(lia) ltac:(lia) ltac:(lia))
    as (bb & E & O & _ & _ & _ & _ & H).
  rewrite sample_bb_new in E. injection E as <-. by split.
Qed.

(** The same after the block at 768 of size 64 has been handed out. *)
Definition sample_bb_used : bbuddy :=
  mkbb 1024 6 8 [sample_map 8192 16 1; sample_map 128 8 1; sample_map 7 4 3] 960.

Lemma sample_bb_alloc : alloc sample_bb 64 = Done (768, sample_bb_used).
Proof. vm_compute. reflexivity. Qed.

Lemma sample_bb_used_facts :
  bb_ok sample_bb_used /\ forall a, 768 <= a < 832 -> ~ free sample_bb_used a.
Proof.
  destruct (alloc_spec sample_bb 64 (proj1 sample_bb_facts) ltac:(cbn; lia) ltac:(lia))
    as (r & bb & E & O & _ & H).
  rewrite sample_bb_alloc in E. injection E as <- <-. split; [done|]. intros a Ha Hf.
  destruct H as [(H & _)|(_ & _ & _ & _ & _ & H & _)]; [done|].
  change (2 ^ size_class sample_bb 64) with 64 in H. apply H in Hf; lia.
Qed.

(** ** Properties *)

(** C13: for an allocator whose smallest blocks have two bytes or more ([log2minalloc >= 1]),
    [alloc (n)] either hands out a block whose size is the least power
    of two that is enough, aligned to its size, within the store, all of whose
    addresses were free and are not free any more, while all other addresses
    keep their state; or it returns -1, changes nothing, and then no aligned
    block of that size is free (or [n] is 0 or too large).  No assertion fires
    and no access is out of bounds. *)
Theorem bbuddy_alloc_correct bb n :
  bb_ok bb -> 1 <= log2minalloc bb -> 0 <= n < 2 ^ 64 ->
  exists r bb', alloc bb n = Done (r, bb') /\ bb_ok bb' /\ same_sizes bb bb'
    /\ (r = -1 /\ (forall a, 0 <= a -> free bb' a <-> free bb a) /\ spaceleft bb' = spaceleft bb
          /\ (n = 0 \/ 2 ^ log2maxalloc bb < n
              \/ forall pos, 0 <= pos -> ~ forall a, 0 <= a -> a .>> size_class bb n = pos -> free bb a)
        \/ 0 < n <= 2 ^ size_class bb n /\ placed bb (size_class bb n) r bb').
Proof. apply alloc_spec. Qed.

Lemma bbuddy_alloc_correct_witness :
  exists r bb', alloc sample_bb 100 = Done (r, bb') /\ bb_ok bb' /\ same_sizes sample_bb bb'
    /\ (r = -1 /\ (forall a, 0 <= a -> free bb' a <-> free sample_bb a)
          /\ spaceleft bb' = spaceleft sample_bb
          /\ (100 = 0 \/ 2 ^ log2maxalloc sample_bb < 100
              \/ forall pos, 0 <= pos -> ~ forall a, 0 <= a ->
                   a .>> size_class sample_bb 100 = pos -> free sample_bb a)
        \/ 0 < 100 <= 2 ^ size_class sample_bb 100
           /\ placed sample_bb (size_class sample_bb 100) r bb').
Proof.
  apply (bbuddy_alloc_correct sample_bb 100).
  - exact (proj1 sample_bb_facts).
  - cbn. lia.
  - lia.
Defined.

(** C36: [dealloc] of an aligned block none of whose addresses is free makes
    exactly its addresses free, joins it with its buddies as far as possible,
    accounts for its space, and fails no assertion. *)
Theorem bbuddy_dealloc_correct bb off len :
  bb_ok bb -> 0 < len < 2 ^ 64 -> size_class bb len <= log2maxalloc bb ->
  0 <= off -> off mod 2 ^ size_class bb len = 0 ->
  off + 2 ^ size_class bb len <= totsize bb ->
  (forall a, off <= a < off + 2 ^ size_class bb len -> ~ free bb a) ->
  exists bb', dealloc bb off len = Done bb' /\ bb_ok bb' /\ same_sizes bb bb'
    /\ given bb off (2 ^ size_class bb len) bb'.
Proof. apply dealloc_spec. Qed.

Lemma bbuddy_dealloc_correct_witness :
  exists bb', dealloc sample_bb_used 768 64 = Done bb' /\ bb_ok bb' /\ same_sizes sample_bb_used bb'
    /\ given sample_bb_used 768 (2 ^ size_class sample_bb_used 64) bb'.
Proof.
  apply (bbuddy_dealloc_correct sample_bb_used 768 64).
  - exact (proj1 sample_bb_used_facts).
  - lia.
  - vm_compute. congruence.
  - lia.
  - vm_compute. reflexivity.
  - vm_compute. congruence.
  - exact (proj2 sample_bb_used_facts).
Defined.

(** a block handed out can be given back, and afterwards exactly the
    addresses are free that were free before, and as much space is left. *)
Theorem bbuddy_alloc_dealloc bb n r bb1 :
  bb_ok bb -> 1 <= log2minalloc bb -> 0 <= n < 2 ^ 64 -> alloc bb n = Done (r, bb1) -> r <> -1 ->
  exists bb2, dealloc bb1 r n = Done bb2 /\ bb_ok bb2 /\ spaceleft bb2 = spaceleft bb
    /\ forall a, 0 <= a -> free bb2 a <-> free bb a.
Proof.
  intros Hok Hmin Hn Ha Hr.
  destruct (alloc_spec bb n Hok Hmin Hn) as (r' & bb' & E & O & (S1 & S2 & S3) & H).
  rewrite Ha in E. injection E as <- <-.
  destruct H as [(? & _)|(Hn' & Hr0 & Hal & Hl & Hin & Hout & Hsp)]; [done|].
  assert (Hsc : size_class bb1 n = size_class bb n) by (unfold size_class; by rewrite S2).
  destruct (dealloc_spec bb1 r n O ltac:(lia)) as (bb2 & E2 & O2 & _ & [G Sp]);
    rewrite ?Hsc, ?S1, ?S3; try done.
  - (* the size was not too large *)
    destruct (Z.le_gt_cases (size_class bb n) (log2maxalloc bb)) as [|Hgt]; [done|].
    unfold alloc in Ha. destruct (Z.ltb_spec (log2maxalloc bb) (size_class bb n)); [|lia].
    by injection Ha as <- _.
  - intros a Hra. rewrite Hout by lia. tauto.
  - rewrite Hsc in *. exists bb2. split_and!; [done|done|lia|]. intros a Ha0. rewrite G, Hout by done.
    split; [intros [[]|Hra]; [done|by apply Hin]|].
    intros Hf. destruct (decide (r <= a < r + 2 ^ size_class bb n)); [by right|by left].
Qed.

Lemma bbuddy_alloc_dealloc_witness :
  exists bb2, dealloc sample_bb_used 768 64 = Done bb2 /\ bb_ok bb2
    /\ spaceleft bb2 = spaceleft sample_bb
    /\ forall a, 0 <= a -> free bb2 a <-> free sample_bb a.
Proof.
  apply (bbuddy_alloc_dealloc sample_bb 64 768 sample_bb_used).
  - exact (proj1 sample_bb_facts).
  - cbn. lia.
  - lia.
  - exact sample_bb_alloc.
  - lia.
Defined.

(** a new allocator is consistent and all of its store, rounded down to
    a multiple of the greatest size, is free, whatever the memory of the maps
    held before. *)
Theorem bbuddy_new_all_free junk ts minalloc maxalloc :
  (forall i, 0 <= junk i < 2 ^ 64) -> 0 <= ts < 2 ^ 63 ->
  0 < minalloc -> minalloc <= maxalloc <= 2 ^ 30 ->
  let lmax := Z.log2_up maxalloc in
  let ts' := ts / 2 ^ lmax * 2 ^ lmax in
  exists bb, bbuddy_new junk ts minalloc maxalloc = Done bb /\ bb_ok bb
    /\ totsize bb = ts' /\ log2minalloc bb = Z.log2_up minalloc /\ log2maxalloc bb = lmax
    /\ spaceleft bb = ts' /\ forall a, 0 <= a -> free bb a <-> a < ts'.
Proof. apply bbuddy_new_spec. Qed.

Lemma bbuddy_new_all_free_witness :
  let lmax := Z.log2_up 256 in
  let ts' := 1100 / 2 ^ lmax * 2 ^ lmax in
  exists bb, bbuddy_new bb_junk 1100 64 256 = Done bb /\ bb_ok bb
    /\ totsize bb = ts' /\ log2minalloc bb = Z.log2_up 64 /\ log2maxalloc bb = lmax
    /\ spaceleft bb = ts' /\ forall a, 0 <= a -> free bb a <-> a < ts'.
Proof.
  apply (bbuddy_new_all_free bb_junk 1100 64 256).
  - exact bb_junk_word.
  - lia.
  - lia.
  - lia.
Defined.

(** [settotsize] adds exactly the new addresses to the free ones and
    keeps the allocator consistent; the consistency check [_check] passes
    then, as it does in every consistent state. *)
Theorem bbuddy_settotsize_grows junk bb ts :
  (forall i, 0 <= junk i < 2 ^ 64) -> bb_ok bb -> ts < 2 ^ 63 ->
  totsize bb <= ts / 2 ^ log2maxalloc bb * 2 ^ log2maxalloc bb ->
  exists bb', settotsize junk bb ts = Done bb' /\ bb_ok bb' /\ bb_check bb' = Done tt
    /\ given bb (totsize bb) (totsize bb' - totsize bb) bb'
    /\ totsize bb' = ts / 2 ^ log2maxalloc bb * 2 ^ log2maxalloc bb.
Proof.
  intros Hj Hok Hts Hle.
  destruct (settotsize_spec junk bb ts Hj Hok Hts Hle) as (bb' & E & O & T & _ & _ & G).
  exists bb'. rewrite T. split_and!; try done. apply (bb_check_spec bb' (totsize bb')), O.
Qed.

Lemma bbuddy_settotsize_grows_witness :
  exists bb', settotsize bb_junk sample_bb_used 2050 = Done bb' /\ bb_ok bb' /\ bb_check bb' = Done tt
    /\ given sample_bb_used (totsize sample_bb_used) (totsize bb' - totsize sample_bb_used) bb'
    /\ totsize bb' = 2050 / 2 ^ 8 * 2 ^ 8.
Proof.
  apply (bbuddy_settotsize_grows bb_junk sample_bb_used 2050).
  - exact bb_junk_word.
  - exact (proj1 sample_bb_used_facts).
  - lia.
  - vm_compute. congruence.
Defined.

(** with a least size of 1 the loop that splits a block,
    [while (--sni >= sn)], runs past 0, as [sni] is unsigned: the first
    [alloc (1)] of a consistent new allocator fails an assertion. *)
Theorem bbuddy_minalloc_one_panics :
  exists bb, bbuddy_new bb_junk 16 1 4 = Done bb /\ bb_check bb = Done tt /\ alloc bb 1 = Panic.
Proof.
  destruct (bbuddy_new bb_junk 16 1 4) as [bb| | |] eqn:E; [|by vm_compute in E..].
  exists bb. vm_compute in E. injection E as <-. split_and!; vm_compute; reflexivity.
Qed.
