(* ===== verification/Mpz.v ===== *)
(** * Big integers by their limbs: [crypt/mpz_raw.C], [crypt/mpz_misc.C] and
    [crypt/mpz_xor.C]

    The functions of the library that work on the limbs of GMP's integers
    directly.  Limbs have 64 bits, the machine is little-endian, and sizes
    are not truncated to [int]. *)
From Stdlib Require Import ZArith Lia Btauto.
From stdpp Require Import prelude.
From S2P Require Import Prelude Mdblock Bits.

(** ** Data *)
(** [MP_INT]; [_mp_alloc] is the length of the array of limbs. *)
Record mpz := mkmpz { mp_size : Z; mp_d : list Z }.

Definition GMP_LIMB_SIZE : Z := 8.
Definition mpz_bitsperlimb : Z := GMP_LIMB_SIZE * 8.

(** The functions of GMP that the code calls. *)
Class Gmp := {
  mpz_realloc : mpz -> Z -> mpz;
  (** [mpz_tdiv_r_2exp (r, a, b)], with the old value of [r]. *)
  mpz_tdiv_r_2exp : mpz -> mpz -> Z -> mpz
}.

(** An operand is an integer of its own or the one that the result goes to. *)
Inductive operand := Own (m : mpz) | Same.
Definition deref (r : mpz) (o : operand) : mpz := match o with Own m => m | Same => r end.
(** Its limbs, when those of the result are [d] by now. *)
Definition src (o : operand) (d : list Z) : list Z := match o with Own m => mp_d m | Same => d end.

(** ** [mpz_misc.C] *)
Fixpoint sizeinbase2_loop (i : nat) (d : list Z) : outcome Z :=
  match i with
  | O => Done 0
  | S i =>
      v ← rd d (Z.of_nat i);
      if v =? 0 then sizeinbase2_loop i d
      else Done (8 * GMP_LIMB_SIZE * Z.of_nat i + fls64 v)
  end.
Definition mpz_sizeinbase2 (m : mpz) : outcome Z :=
  sizeinbase2_loop (Z.to_nat (Z.abs (mp_size m))) (mp_d m).

(** [while (ep > sp && !ep[-1]) ep--]: how many limbs are left of the first
    [n]. *)
Fixpoint trim (n : nat) (d : list Z) : outcome nat :=
  match n with
  | O => Done O
  | S n' => v ← rd d (Z.of_nat n'); if v =? 0 then trim n' d else Done n
  end.

Definition mpz_fixsize (r : mpz) : outcome mpz :=
  n ← trim (Z.to_nat (Z.abs (mp_size r))) (mp_d r);
  Done (mkmpz (if mp_size r <? 0 then - Z.of_nat n else Z.of_nat n) (mp_d r)).

(** A loop that stores a limb in each turn: at most [n] turns from [i] on;
    the body computes the limb, the new values of the variables, and whether
    to leave the loop. *)
Fixpoint for_limbs {St} (n : nat) (body : Z -> list Z -> St -> outcome (Z * St * bool))
    (i : Z) (r : list Z) (st : St) : outcome (Z * list Z * St) :=
  match n with
  | O => Done (i, r, st)
  | S n =>
      x ← body i r st;
      let '(v, st, brk) := x : Z * St * bool in
      r ← wr r i v;
      if brk : bool then Done (i + 1, r, st) else for_limbs n body (i + 1) r st
  end.

Section gmp.
Context `{!Gmp}.

Definition grow (r : mpz) (n : Z) : mpz :=
  if Z.of_nat (length (mp_d r)) <? n then mpz_realloc r n else r.

(** [mpz_umod_2exp (r, a, b)]. *)
Definition mpz_umod_2exp (r : mpz) (o : operand) (b : Z) : outcome mpz :=
  if 0 <=? mp_size (deref r o) then Done (mpz_tdiv_r_2exp r (deref r o) b)
  else
    let nlimbs := (b + (8 * GMP_LIMB_SIZE - 1)) / (8 * GMP_LIMB_SIZE) in
    let r := grow r nlimbs in
    let a := deref r o in
    let ae := Z.min (Z.abs (mp_size a)) nlimbs in
    x ← for_limbs (Z.to_nat ae)
          (fun i d (_ : bool) => v ← rd (src o d) i; let v := u64 (- v) in
             Done (v, negb (v =? 0), negb (v =? 0))) 0 (mp_d r) false;
    let '(i, d, nocarry) := x : Z * list Z * bool in
    if negb nocarry then Done (mkmpz 0 d)
    else
      x ← for_limbs (Z.to_nat (ae - i))
            (fun i d (_ : unit) => v ← rd (src o d) i; Done (not64 v, tt, false)) i d tt;
      let '(i, d, _) := x : Z * list Z * unit in
      x ← for_limbs (Z.to_nat (nlimbs - i))
            (fun i d (_ : unit) => Done (ones64, tt, false)) i d tt;
      let '(_, d, _) := x : Z * list Z * unit in
      top ← rd d (nlimbs - 1);
      d ← wr d (nlimbs - 1) (top .& (ones64 .>> ((8 * GMP_LIMB_SIZE - b) mod (8 * GMP_LIMB_SIZE))));
      mpz_fixsize (mkmpz nlimbs d).

Fixpoint any_limb (n : nat) (i : Z) (d : list Z) : outcome bool :=
  match n with
  | O => Done false
  | S n => v ← rd d i; if v =? 0 then any_limb n (i + 1) d else Done true
  end.

Definition mpz_getbit (m : mpz) (bit : Z) : outcome Z :=
  let limb := bit / mpz_bitsperlimb in
  let nlimbs := mp_size m in
  if 0 <=? mp_size m then
    if nlimbs <=? limb then Done 0
    else
      v ← rd (mp_d m) limb;
      Done ((v .>> (bit mod mpz_bitsperlimb)) .& 1)
  else
    let nlimbs := - nlimbs in
    if nlimbs <=? limb then Done 1
    else
      any ← any_limb (Z.to_nat limb) 0 (mp_d m);
      let carry := if any : bool then 0 else 1 in
      v ← rd (mp_d m) limb;
      Done ((u64 (not64 v + carry) .>> (bit mod mpz_bitsperlimb)) .& 1).

(** ** [mpz_xor.C] *)
Fixpoint setlen1_carry (n : nat) (lp : Z) (d : list Z) : outcome (option Z * list Z) :=
  match n with
  | O => Done (None, d) (* carryout *)
  | S n =>
      v ← rd d lp;
      let lv := u64 (v + 1) in
      d ← wr d lp lv;
      if lv =? 0 then setlen1_carry n (lp + 1) d else Done (Some (lp + 1), d)
  end.

Fixpoint setlen1_scan (n : nat) (lp nz : Z) (d : list Z) : outcome Z :=
  match n with
  | O => Done nz
  | S n => v ← rd d lp; setlen1_scan n (lp + 1) (if v =? 0 then nz else lp + 1) d
  end.

Definition setlen1 (r : mpz) (max : Z) : outcome mpz :=
  x ← setlen1_carry (Z.to_nat max) 0 (mp_d r);
  match x : option Z * list Z with
  | (Some lp, d) =>
      nz ← setlen1_scan (Z.to_nat (max - lp)) lp lp d;
      Done (mkmpz (- nz) d)
  | (None, d) =>
      let r := grow (mkmpz (- (max + 1)) d) (max + 1) in
      d ← wr (mp_d r) max 1;
      Done (mkmpz (mp_size r) d)
  end.

Definition next_szr (v i szr : Z) : Z := if v =? 0 then szr else i + 1.
Definition next_borrow (al borrow : Z) : Z := if al =? 0 then borrow else 0.

(** The four cases of [mpz_xor]: both operands not negative, only the first,
    only the second, none. *)
Definition xor_pp (r : mpz) (oa ob : operand) (sza szb : Z) : outcome mpz :=
  x ← for_limbs (Z.to_nat szb) (fun i d szr =>
        al ← rd (src oa d) i; bl ← rd (src ob d) i;
        let v := al .^ bl in Done (v, next_szr v i szr, false)) 0 (mp_d r) 0;
  let '(i, d, szr) := x : Z * list Z * Z in
  x ← for_limbs (Z.to_nat (sza - i)) (fun i d szr =>
        al ← rd (src oa d) i; Done (al, next_szr al i szr, false)) i d szr;
  let '(_, d, szr) := x : Z * list Z * Z in
  Done (mkmpz szr d).

Definition xor_pn (r : mpz) (oa ob : operand) (sza szb : Z) : outcome mpz :=
  x ← for_limbs (Z.to_nat szb) (fun i d (_ : unit) =>
        bl ← rd (src ob d) i; al ← rd (src oa d) i;
        Done (al .^ u64 (bl - 1), tt, negb (bl =? 0))) 0 (mp_d r) tt;
  let '(i, d, _) := x : Z * list Z * unit in
  x ← for_limbs (Z.to_nat (szb - i)) (fun i d (_ : unit) =>
        al ← rd (src oa d) i; bl ← rd (src ob d) i; Done (al .^ bl, tt, false)) i d tt;
  let '(i, d, _) := x : Z * list Z * unit in
  x ← for_limbs (Z.to_nat (sza - i)) (fun i d (_ : unit) =>
        al ← rd (src oa d) i; Done (al, tt, false)) i d tt;
  let '(_, d, _) := x : Z * list Z * unit in
  setlen1 (mkmpz (mp_size r) d) sza.

Definition xor_np (r : mpz) (oa ob : operand) (sza szb : Z) : outcome mpz :=
  x ← for_limbs (Z.to_nat szb) (fun i d borrow =>
        al ← rd (src oa d) i; bl ← rd (src ob d) i;
        Done (u64 (al - borrow) .^ bl, next_borrow al borrow, false)) 0 (mp_d r) 1;
  let '(i, d, borrow) := x : Z * list Z * Z in
  x ← for_limbs (Z.to_nat (sza - i)) (fun i d borrow =>
        al ← rd (src oa d) i;
        Done (u64 (al - borrow), next_borrow al borrow, false)) i d borrow;
  let '(_, d, _) := x : Z * list Z * Z in
  setlen1 (mkmpz (mp_size r) d) sza.

Definition xor_nn (r : mpz) (oa ob : operand) (sza szb : Z) : outcome mpz :=
  x ← for_limbs (Z.to_nat szb) (fun i d (st : Z * Z) =>
        al ← rd (src oa d) i; bl ← rd (src ob d) i;
        let v := u64 (al - st.2) .^ u64 (bl - 1) in
        Done (v, (next_szr v i (st.1), next_borrow al (st.2)), negb (bl =? 0))) 0 (mp_d r) (0, 1);
  let '(i, d, st) := x : Z * list Z * (Z * Z) in
  x ← for_limbs (Z.to_nat (szb - i)) (fun i d (st : Z * Z) =>
        al ← rd (src oa d) i; bl ← rd (src ob d) i;
        let v := u64 (al - st.2) .^ bl in
        Done (v, (next_szr v i (st.1), next_borrow al (st.2)), false)) i d st;
  let '(i, d, st) := x : Z * list Z * (Z * Z) in
  x ← for_limbs (Z.to_nat (sza - i)) (fun i d (st : Z * Z) =>
        al ← rd (src oa d) i;
        let v := u64 (al - st.2) in
        Done (v, (next_szr v i (st.1), next_borrow al (st.2)), false)) i d st;
  let '(_, d, st) := x : Z * list Z * (Z * Z) in
  Done (mkmpz (st.1) d).

(** [mpz_xor] after the operands have been put in order. *)
Definition xor_ordered (r : mpz) (oa ob : operand) (sza szb : Z) : outcome mpz :=
  let r := grow r sza in
  let a := deref r oa in
  let b := deref r ob in
  if (0 <=? mp_size a) && (0 <=? mp_size b) then xor_pp r oa ob sza szb
  else if 0 <=? mp_size a then xor_pn r oa ob sza szb
  else if 0 <=? mp_size b then xor_np r oa ob sza szb
  else xor_nn r oa ob sza szb.

Definition mpz_xor (r : mpz) (a b : operand) : outcome mpz :=
  let sza := Z.abs (mp_size (deref r a)) in
  let szb := Z.abs (mp_size (deref r b)) in
  if sza <? szb then xor_ordered r b a szb sza else xor_ordered r a b sza szb.

(** ** [mpz_raw.C] *)
Definition LSWAP (n : Z) : Z := (n .& (- GMP_LIMB_SIZE)) + GMP_LIMB_SIZE - 1 - n mod GMP_LIMB_SIZE.
Definition LE_POS (n : Z) : Z := n.
Definition BE_POS (n : Z) : Z := LSWAP n.

(** The bytes of a limb in memory. *)
Definition limb_bytes (v : Z) : list Z := (fun k => u8 (v .>> (8 * k))) <$> seqZ 0 8.
Definition bytes_limb (l : list Z) : Z := foldr (fun b v => b .| v .<< 8) 0 l.

(** [COPYLIMB] from a limb and to a limb. *)
Definition copylimb_from (SW : Z -> Z) (v : Z) : list Z :=
  (fun n => tbl (limb_bytes v) (SW n)) <$> seqZ 0 8.
Definition copylimb_to (SW : Z -> Z) (buf : list Z) (bp : Z) : outcome Z :=
  l ← mapM (fun n => rd buf (bp + SW n)) (seqZ 0 8);
  Done (bytes_limb l).

Definition mpz_rawsize (m : mpz) : outcome Z :=
  nbits ← mpz_sizeinbase2 m;
  Done (if nbits =? 0 then 0 else (nbits .>> 3) + 1).

Fixpoint get_le_loop (n : nat) (d : list Z) (sp : Z) (buf : list Z) (bp : Z)
    : outcome (Z * list Z * Z) :=
  match n with
  | O => Done (sp, buf, bp)
  | S n =>
      v ← rd d sp;
      buf ← copy_in buf bp (copylimb_from LE_POS v);
      get_le_loop n d (sp + 1) buf (bp + GMP_LIMB_SIZE)
  end.

(** [for (e = bp + n; bp < e; v >>= 8) *bp++ = v] *)
Fixpoint get_le_bytes (n : nat) (v : Z) (buf : list Z) (bp : Z) : outcome (list Z) :=
  match n with
  | O => Done buf
  | S n => buf ← wr buf bp (u8 v); get_le_bytes n (v .>> 8) buf (bp + 1)
  end.

(** [buf] is the caller's buffer of [size] bytes. *)
Definition mpz_get_rawmag_le (buf : list Z) (m : mpz) : outcome (list Z) :=
  let size := Z.of_nat (length buf) in
  let ep := Z.min (size / GMP_LIMB_SIZE) (Z.abs (mp_size m)) in
  x ← get_le_loop (Z.to_nat ep) (mp_d m) 0 buf 0;
  let '(sp, buf, bp) := x : Z * list Z * Z in
  let n := size - bp in
  if (n <? GMP_LIMB_SIZE) && (sp <? Z.abs (mp_size m)) then
    v ← rd (mp_d m) sp;
    get_le_bytes (Z.to_nat n) v buf bp
  else copy_in buf bp (replicate (Z.to_nat n) 0).

Fixpoint get_be_loop (n : nat) (d : list Z) (sp : Z) (buf : list Z) (bp : Z)
    : outcome (Z * list Z * Z) :=
  match n with
  | O => Done (sp, buf, bp)
  | S n =>
      v ← rd d sp;
      buf ← copy_in buf (bp - GMP_LIMB_SIZE) (copylimb_from BE_POS v);
      get_be_loop n d (sp + 1) buf (bp - GMP_LIMB_SIZE)
  end.

(** [for (; bp > buf; v >>= 8) *--bp = v] *)
Fixpoint get_be_bytes (n : nat) (v : Z) (buf : list Z) : outcome (list Z) :=
  match n with
  | O => Done buf
  | S n => buf ← wr buf (Z.of_nat n) (u8 v); get_be_bytes n (v .>> 8) buf
  end.

Definition mpz_get_rawmag_be (buf : list Z) (m : mpz) : outcome (list Z) :=
  let size := Z.of_nat (length buf) in
  let ep := Z.min (size / GMP_LIMB_SIZE) (Z.abs (mp_size m)) in
  x ← get_be_loop (Z.to_nat ep) (mp_d m) 0 buf size;
  let '(sp, buf, bp) := x : Z * list Z * Z in
  let n := bp in
  if (n <? GMP_LIMB_SIZE) && (sp <? Z.abs (mp_size m)) then
    v ← rd (mp_d m) sp;
    get_be_bytes (Z.to_nat n) v buf
  else copy_in buf 0 (replicate (Z.to_nat n) 0).

(** [mpz_init (neg)] gives a zero. *)
Definition mpz_get_raw (buf : list Z) (m : mpz) : outcome (list Z) :=
  if mp_size m <? 0 then
    neg ← mpz_umod_2exp (mkmpz 0 []) (Own m) (u64 (Z.of_nat (length buf) * 8));
    mpz_get_rawmag_be buf neg
  else mpz_get_rawmag_be buf m.

(** [v = buf[--ebp]; while (bp < ebp) v = v << 8 | buf[--ebp]] for the [n]
    bytes from [bp] on. *)
Fixpoint set_le_bytes (n : nat) (buf : list Z) (bp v : Z) : outcome Z :=
  match n with
  | O => Done v
  | S n => c ← rd buf (bp + Z.of_nat n); set_le_bytes n buf bp (u64 (v .<< 8) .| c)
  end.

Definition mpz_set_rawmag_le (m : mpz) (buf : list Z) : outcome mpz :=
  let size := Z.of_nat (length buf) in
  let nlimbs := (size + GMP_LIMB_SIZE) / GMP_LIMB_SIZE in
  let m := grow (mkmpz nlimbs (mp_d m)) nlimbs in
  x ← for_limbs (Z.to_nat (size / GMP_LIMB_SIZE)) (fun i _ (bp : Z) =>
        v ← copylimb_to LE_POS buf bp; Done (v, bp + GMP_LIMB_SIZE, false)) 0 (mp_d m) 0;
  let '(sp, d, bp) := x : Z * list Z * Z in
  x ← (if bp <? size then
         v ← rd buf (size - 1);
         v ← set_le_bytes (Z.to_nat (size - 1 - bp)) buf bp v;
         d ← wr d sp v;
         Done (sp + 1, d)
       else Done (sp, d));
  let '(sp, d) := x : Z * list Z in
  n ← trim (Z.to_nat sp) d;
  Done (mkmpz (Z.of_nat n) d).

(** [v = *buf++; while (bp > buf) { v <<= 8; v |= *buf++; }] *)
Fixpoint set_be_bytes (n : nat) (buf : list Z) (p v : Z) : outcome Z :=
  match n with
  | O => Done v
  | S n => c ← rd buf p; set_be_bytes n buf (p + 1) (u64 (v .<< 8) .| c)
  end.

Definition mpz_set_rawmag_be (m : mpz) (buf : list Z) : outcome mpz :=
  let size := Z.of_nat (length buf) in
  let nlimbs := (size + GMP_LIMB_SIZE) / GMP_LIMB_SIZE in
  let m := grow (mkmpz nlimbs (mp_d m)) nlimbs in
  x ← for_limbs (Z.to_nat (size / GMP_LIMB_SIZE)) (fun i _ (bp : Z) =>
        let bp := bp - GMP_LIMB_SIZE in
        v ← copylimb_to BE_POS buf bp; Done (v, bp, false)) 0 (mp_d m) size;
  let '(sp, d, bp) := x : Z * list Z * Z in
  x ← (if 0 <? bp then
         v ← rd buf 0;
         v ← set_be_bytes (Z.to_nat (bp - 1)) buf 1 v;
         d ← wr d sp v;
         Done (sp + 1, d)
       else Done (sp, d));
  let '(sp, d) := x : Z * list Z in
  n ← trim (Z.to_nat sp) d;
  Done (mkmpz (Z.of_nat n) d).

Definition mpz_set_raw (m : mpz) (buf : list Z) : outcome mpz :=
  m ← mpz_set_rawmag_be m buf;
  c ← rd buf 0;
  if c .& 0x80 =? 0 then Done m
  else
    let m := mkmpz (- mp_size m) (mp_d m) in
    m ← mpz_umod_2exp m Same (u64 (8 * Z.of_nat (length buf)));
    Done (mkmpz (- mp_size m) (mp_d m)).

End gmp.
