(* ===== verification/MpzSpec.v ===== *)
(** * What the limbs of an integer are

    [mpz_rep m x] says that [m] is the integer [x] in GMP's form.  The
    lemmas of this file give the limbs of negations, complements and
    remainders, and the specifications of the loops over limbs. *)
From Stdlib Require Import ZArith Lia Btauto.
From stdpp Require Import prelude.
From S2P Require Import Prelude Mdblock Bits Mpz.

(** ** Limbs *)
Definition limb (x : Z) (i : nat) : Z := u64 (x .>> (64 * Z.of_nat i)).
Definition limbs (x : Z) (n : nat) : list Z := limb x <$> seq 0 n.
Definition lpow (i : nat) : Z := 2 ^ (64 * Z.of_nat i).

Lemma lpow_pos i : 0 < lpow i.
Proof. apply Z.pow_pos_nonneg; lia. Qed.
Lemma lpow_S i : lpow (S i) = lpow i * 2 ^ 64.
Proof. unfold lpow. rewrite <- Z.pow_add_r by lia. f_equal. lia. Qed.
Lemma lpow_mono i j : (i <= j)%nat -> lpow i <= lpow j.
Proof. intros H. apply Z.pow_le_mono_r; lia. Qed.

Lemma limb_bit x i j : 0 <= j -> Z.testbit (limb x i) j = (j <? 64) && Z.testbit x (64 * Z.of_nat i + j).
Proof.
  intros Hj. unfold limb. rewrite u64_mod. destruct (Z.ltb_spec j 64).
  - rewrite Z.mod_pow2_bits_low, Z.shiftr_spec by lia. cbn [andb]. f_equal. lia.
  - by rewrite Z.mod_pow2_bits_high by lia.
Qed.

Lemma limb_range x i : 0 <= limb x i < 2 ^ 64.
Proof. unfold limb. rewrite u64_mod. apply Z.mod_pos_bound. lia. Qed.

Lemma limb_div x i : limb x i = (x / lpow i) mod 2 ^ 64.
Proof. unfold limb, lpow. by rewrite u64_mod, Z.shiftr_div_pow2 by lia. Qed.

Lemma limb_lxor x y i : limb (x .^ y) i = limb x i .^ limb y i.
Proof.
  apply Z.bits_inj'. intros j Hj. rewrite limb_bit, Z.lxor_spec, Z.lxor_spec, !limb_bit by lia.
  destruct (j <? 64); cbn; [done|]. by destruct (_ : bool).
Qed.

Lemma limb_lnot x i : limb (Z.lnot x) i = not64 (limb x i).
Proof.
  apply Z.bits_inj'. intros j Hj. unfold not64. rewrite u64_mod, limb_bit by lia.
  destruct (Z.ltb_spec j 64).
  - rewrite Z.mod_pow2_bits_low, !Z.lnot_spec, limb_bit by lia. destruct (Z.ltb_spec j 64); [done|lia].
  - by rewrite Z.mod_pow2_bits_high by lia.
Qed.

Lemma limb_small x i n : 0 <= x < lpow n -> (n <= i)%nat -> limb x i = 0.
Proof.
  intros Hx Hi. rewrite limb_div, Z.div_small; [done|]. pose proof (lpow_mono n i Hi). lia.
Qed.

(** The split of [x] below and from limb [i] on. *)
Lemma limb_split x i : exists q r, x = q * lpow i + r /\ 0 <= r < lpow i
  /\ x / lpow i = q /\ x mod lpow i = r.
Proof.
  pose proof (lpow_pos i). exists (x / lpow i), (x mod lpow i).
  pose proof (Z.div_mod x (lpow i) ltac:(lia)). pose proof (Z.mod_pos_bound x (lpow i) ltac:(lia)).
  split_and!; lia.
Qed.

Lemma mod_lpow_S x i : x mod lpow (S i) = x mod lpow i + lpow i * limb x i.
Proof. rewrite lpow_S, limb_div, Z.rem_mul_r; [lia| |lia]. pose proof (lpow_pos i). lia. Qed.

Lemma low_zero_S x i : x mod lpow (S i) = 0 <-> x mod lpow i = 0 /\ limb x i = 0.
Proof.
  rewrite mod_lpow_S. pose proof (Z.mod_pos_bound x (lpow i) (lpow_pos i)). pose proof (limb_range x i).
  pose proof (lpow_pos i). nia.
Qed.

Definition borrow_at (x : Z) (i : nat) : Z := if x mod lpow i =? 0 then 1 else 0.

Lemma borrow_0 x : borrow_at x 0 = 1.
Proof. unfold borrow_at. change (lpow 0) with 1. by rewrite Z.mod_1_r. Qed.

Lemma borrow_S x i : borrow_at x (S i) = if limb x i =? 0 then borrow_at x i else 0.
Proof.
  unfold borrow_at. pose proof (low_zero_S x i).
  destruct (Z.eqb_spec (x mod lpow (S i)) 0), (Z.eqb_spec (limb x i) 0), (Z.eqb_spec (x mod lpow i) 0);
    tauto || lia.
Qed.

Lemma limb_pred x i : limb (x - 1) i = u64 (limb x i - borrow_at x i).
Proof.
  rewrite u64_mod, !limb_div. pose proof (lpow_pos i).
  destruct (limb_split x i) as (q & r & Hx & Hr & Hq & Hm). unfold borrow_at. rewrite Hm, Hq.
  destruct (Z.eqb_spec r 0).
  - replace ((x - 1) / lpow i) with (q - 1).
    + by rewrite Zminus_mod_idemp_l.
    + apply Z.div_unique with (lpow i - 1); lia.
  - replace ((x - 1) / lpow i) with q by (apply Z.div_unique with (r - 1); lia).
    by rewrite Z.sub_0_r, Z.mod_mod.
Qed.

Lemma not64_pred v : u64 (- v) = not64 (u64 (v - 1)).
Proof.
  apply Z.bits_inj'. intros j Hj. unfold not64. rewrite !u64_mod.
  destruct (Z.lt_ge_cases j 64).
  - rewrite !Z.mod_pow2_bits_low, Z.lnot_spec, Z.mod_pow2_bits_low, <- Z.lnot_spec by lia. f_equal.
    unfold Z.lnot. lia.
  - by rewrite !Z.mod_pow2_bits_high by lia.
Qed.

Lemma limb_opp x i : limb (- x) i = if x mod lpow i =? 0 then u64 (- limb x i) else not64 (limb x i).
Proof.
  replace (- x) with (Z.lnot (x - 1)) by (unfold Z.lnot; lia). rewrite limb_lnot, limb_pred.
  unfold borrow_at. destruct (Z.eqb_spec (x mod lpow i) 0).
  - by rewrite not64_pred.
  - rewrite Z.sub_0_r. f_equal. apply u64_small, limb_range.
Qed.

Lemma limb_succ x i : limb (x + 1) i = u64 (limb x i + borrow_at (x + 1) i).
Proof.
  pose proof (limb_pred (x + 1) i) as H. replace (x + 1 - 1) with x in H by lia. rewrite H, !u64_mod.
  rewrite Zplus_mod_idemp_l. replace (limb (x + 1) i - borrow_at (x + 1) i + borrow_at (x + 1) i)
    with (limb (x + 1) i) by lia.
  symmetry. apply Z.mod_small, limb_range.
Qed.

(** ** Lists of limbs *)
Lemma limbs_length x n : length (limbs x n) = n.
Proof. unfold limbs. by rewrite length_fmap, length_seq. Qed.

Lemma limbs_S x n : limbs x (S n) = limbs x n ++ [limb x n].
Proof. unfold limbs. rewrite seq_S, fmap_app. done. Qed.

Lemma limbs_take x n k : (k <= n)%nat -> take k (limbs x n) = limbs x k.
Proof. intros H. unfold limbs. rewrite <- fmap_take, take_seq. do 2 f_equal. lia. Qed.

Lemma limbs_lookup x n i : (i < n)%nat -> limbs x n !! i = Some (limb x i).
Proof. intros H. unfold limbs. rewrite list_lookup_fmap, lookup_seq_lt by lia. done. Qed.

Lemma limbs_ext x y n : (forall i, (i < n)%nat -> limb x i = limb y i) -> limbs x n = limbs y n.
Proof.
  intros H. unfold limbs. apply list_fmap_ext. intros i k Hk. apply lookup_seq in Hk. apply H. lia.
Qed.

Lemma limbs_mod x y n : limbs x n = limbs y n -> x mod lpow n = y mod lpow n.
Proof.
  induction n as [|n IH]; intros H; [by rewrite !Z.mod_1_r|].
  rewrite !limbs_S in H. apply app_inj_tail in H as [H1 H2]. by rewrite !mod_lpow_S, IH, H2.
Qed.

Lemma take_limbs_at d x n i : take n d = limbs x n -> (i < n)%nat -> rd d (Z.of_nat i) = Done (limb x i).
Proof.
  intros H Hi. unfold rd. destruct (Z.leb_spec 0 (Z.of_nat i)); [|lia]. rewrite Nat2Z.id.
  rewrite <- (lookup_take_lt d n i) by lia. by rewrite H, limbs_lookup.
Qed.

Lemma take_limbs_le d x n k : take n d = limbs x n -> (k <= n)%nat -> take k d = limbs x k.
Proof.
  intros H Hk. rewrite <- (limbs_take x n k Hk), <- H, take_take. f_equal. lia.
Qed.

(** ** Integers *)
Definition msize (m : mpz) : nat := Z.to_nat (Z.abs (mp_size m)).

Record mpz_rep (m : mpz) (x : Z) : Prop := {
  mr_alloc : (msize m <= length (mp_d m))%nat;
  mr_limbs : take (msize m) (mp_d m) = limbs (Z.abs x) (msize m);
  mr_bound : Z.abs x < lpow (msize m);
  mr_top : (0 < msize m)%nat -> limb (Z.abs x) (msize m - 1) <> 0;
  mr_sign : mp_size m < 0 <-> x < 0
}.

Lemma mpz_rep_inj m x y : mpz_rep m x -> mpz_rep m y -> x = y.
Proof.
  intros [_ L1 B1 _ S1] [_ L2 B2 _ S2]. rewrite L1 in L2. apply limbs_mod in L2.
  rewrite !Z.mod_small in L2 by lia. lia.
Qed.

Lemma mpz_rep_read m x i : mpz_rep m x -> (i < msize m)%nat -> rd (mp_d m) (Z.of_nat i) = Done (limb (Z.abs x) i).
Proof. intros H Hi. by apply (take_limbs_at _ _ (msize m)); [apply H|]. Qed.

(** [k] limbs of the first [n] of [X] count. *)
Definition sz_ok (X : Z) (n k : nat) : Prop :=
  (k <= n)%nat /\ (forall i, (k <= i < n)%nat -> limb X i = 0) /\ ((0 < k)%nat -> limb X (k - 1) <> 0).

Lemma sz_bound X n k : 0 <= X < lpow n -> sz_ok X n k -> X < lpow k.
Proof.
  intros HX (Hk & Hz & _). rewrite <- (Z.mod_small X (lpow n)) by lia.
  assert (E : X mod lpow n = X mod lpow k).
  { clear HX. revert Hz. induction Hk as [|n Hk IH]; intros Hz; [done|].
    rewrite mod_lpow_S, (Hz n) by lia. rewrite Z.mul_0_r, Z.add_0_r. apply IH.
    intros i Hi. apply Hz. lia. }
  rewrite E. apply Z.mod_pos_bound, lpow_pos.
Qed.

Lemma rep_nonneg d X n k :
  take n d = limbs X n -> (n <= length d)%nat -> 0 <= X < lpow n -> sz_ok X n k ->
  mpz_rep (mkmpz (Z.of_nat k) d) X.
Proof.
  intros Ht Hl HX Hs. pose proof (sz_bound X n k HX Hs). destruct Hs as (Hk & Hz & Hn).
  assert (Em : msize (mkmpz (Z.of_nat k) d) = k) by (unfold msize; cbn; lia).
  split; rewrite ?Em; cbn [mp_d mp_size]; rewrite ?(Z.abs_eq X) by lia; auto; try lia.
  by apply (take_limbs_le _ _ n).
Qed.

Lemma rep_neg d X n k :
  take n d = limbs X n -> (n <= length d)%nat -> 0 < X < lpow n -> sz_ok X n k ->
  mpz_rep (mkmpz (- Z.of_nat k) d) (- X).
Proof.
  intros Ht Hl HX Hs. pose proof (sz_bound X n k ltac:(lia) Hs). destruct Hs as (Hk & Hz & Hn).
  assert (Em : msize (mkmpz (- Z.of_nat k) d) = k) by (unfold msize; cbn; lia).
  split; rewrite ?Em; cbn [mp_d mp_size]; rewrite ?(Z.abs_neq (- X)), ?Z.opp_involutive by lia; auto; try lia.
  - by apply (take_limbs_le _ _ n).
  - destruct k; [change (lpow 0) with 1 in *; lia|]. lia.
Qed.

Lemma sz_ok_0 X : sz_ok X 0 0.
Proof. split_and!; intros; lia. Qed.

Lemma sz_ok_S X n k : sz_ok X n k -> sz_ok X (S n) (if limb X n =? 0 then k else S n).
Proof.
  intros (H1 & H2 & H3). destruct (Z.eqb_spec (limb X n) 0) as [E|E].
  - split_and!; [lia| |done]. intros i Hi. destruct (decide (i = n)) as [->|]; [done|]. apply H2. lia.
  - split_and!; [lia|lia|]. intros _. by replace (S n - 1)%nat with n by lia.
Qed.

Lemma trim_spec d X n : take n d = limbs X n -> exists k, trim n d = Done k /\ sz_ok X n k.
Proof.
  induction n as [|n IH]; intros Ht; [by eexists; split; [|apply sz_ok_0]|]. cbn [trim].
  rewrite (take_limbs_at d X (S n) n) by (done || lia). cbn [mbind outcome_bind].
  destruct (Z.eqb_spec (limb X n) 0) as [E|E].
  - destruct IH as (k & -> & Hk); [by apply (take_limbs_le _ _ (S n)); [|lia]|].
    exists k. split; [done|]. pose proof (sz_ok_S X n k Hk) as Hs. by rewrite E in Hs.
  - exists (S n). split; [done|]. split_and!; [lia|lia|]. intros _. by replace (S n - 1)%nat with n by lia.
Qed.

(** ** What is assumed of GMP *)
Class GmpOK `{!Gmp} := {
  realloc_ok m n : Z.of_nat (length (mp_d m)) <= n ->
    length (mp_d (mpz_realloc m n)) = Z.to_nat n
    /\ take (length (mp_d m)) (mp_d (mpz_realloc m n)) = mp_d m
    /\ mp_size (mpz_realloc m n) = mp_size m;
  tdiv_ok r a b x : mpz_rep a x -> 0 <= b ->
    mpz_rep (mpz_tdiv_r_2exp r a b) (Z.rem x (2 ^ b))
}.

Section gmp.
Context `{HG : !Gmp} `{HGok : !GmpOK}.

Lemma grow_spec r n : exists d, grow r n = mkmpz (mp_size r) d
  /\ n <= Z.of_nat (length d) /\ (length (mp_d r) <= length d)%nat
  /\ take (length (mp_d r)) d = mp_d r.
Proof using HGok.
  unfold grow. destruct (Z.ltb_spec (Z.of_nat (length (mp_d r))) n) as [H|H].
  - destruct (realloc_ok r n ltac:(lia)) as (L & T & S). destruct (mpz_realloc r n) as [s d]. cbn in *.
    exists d. subst s. split_and!; lia || done.
  - exists (mp_d r). split_and!; try lia; [by destruct r|]. by rewrite take_ge.
Qed.

Lemma mpz_rep_grow r n x : mpz_rep r x -> mpz_rep (grow r n) x.
Proof using HGok.
  intros [A L B T S]. destruct (grow_spec r n) as (d & -> & H1 & H2 & H3).
  assert (E : msize (mkmpz (mp_size r) d) = msize r) by done.
  split; rewrite ?E; cbn [mp_d mp_size]; auto; [lia|]. rewrite <- L, <- H3, take_take. f_equal. lia.
Qed.

(** ** Loops that store limbs *)
Lemma wr_prefix (d : list Z) X i :
  take i d = limbs X i -> (i < length d)%nat ->
  exists d', wr d (Z.of_nat i) (limb X i) = Done d' /\ length d' = length d
    /\ take (S i) d' = limbs X (S i) /\ drop (S i) d' = drop (S i) d.
Proof using.
  intros Ht Hi. unfold wr.
  destruct (Z.leb_spec 0 (Z.of_nat i)), (Z.ltb_spec (Z.of_nat i) (Z.of_nat (length d))); try lia.
  cbn [andb]. rewrite Nat2Z.id. eexists. split; [reflexivity|]. split; [by rewrite length_insert|]. split.
  - rewrite (take_S_r _ _ (limb X i)) by (by rewrite list_lookup_insert_eq). rewrite take_insert_ge by lia.
    by rewrite Ht, limbs_S.
  - by rewrite drop_insert_lt by lia.
Qed.

Lemma drop_weaken {A} (d d' : list A) i k : (i <= k)%nat -> drop i d' = drop i d -> drop k d' = drop k d.
Proof using.
  intros Hk H. replace k with (i + (k - i))%nat by lia. by rewrite <- !drop_drop, H.
Qed.

Lemma for_limbs_spec {St} (body : Z -> list Z -> St -> outcome (Z * St * bool))
    (Inv : nat -> St -> bool -> Prop) (X : Z) n i d st :
  (i + n <= length d)%nat -> take i d = limbs X i -> Inv i st false ->
  (forall j d' st, (i <= j < i + n)%nat -> length d' = length d -> drop j d' = drop j d -> Inv j st false ->
     exists st' brk, body (Z.of_nat j) d' st = Done (limb X j, st', brk) /\ Inv (S j) st' brk) ->
  exists k d' st' brk, for_limbs n body (Z.of_nat i) d st = Done (Z.of_nat k, d', st')
    /\ (i <= k <= i + n)%nat /\ (brk = false -> k = i + n)%nat /\ length d' = length d
    /\ take k d' = limbs X k /\ drop k d' = drop k d /\ Inv k st' brk.
Proof using.
  revert i d st. induction n as [|n IH]; intros i d st Hl Ht HI Hb.
  { exists i, d, st, false. split_and!; done || lia. }
  cbn [for_limbs]. destruct (Hb i d st) as (st1 & brk & -> & HI1); [lia|done|done|done|].
  cbn [mbind outcome_bind]. destruct (wr_prefix d X i Ht ltac:(lia)) as (d1 & -> & L1 & T1 & D1).
  cbn [mbind outcome_bind]. replace (Z.of_nat i + 1) with (Z.of_nat (S i)) by lia. destruct brk.
  - exists (S i), d1, st1, true. split_and!; done || lia.
  - destruct (IH (S i) d1 st1) as (k & d2 & st2 & brk & E & H1 & H2 & H3 & H4 & H5 & H6);
      [lia|done|done| |].
    + intros j d' st' Hj Hl' Hd' HI'. apply Hb; [lia|lia| |done]. rewrite Hd'.
      by apply (drop_weaken _ _ (S i)); [lia|].
    + exists k, d2, st2, brk. split_and!; try done; try lia.
      * intros Hbrk. rewrite H2 by done. lia.
      * rewrite H5. by apply (drop_weaken _ _ (S i)); [lia|].
Qed.

(** The same for a loop that is not left before its end. *)
Lemma for_limbs_all {St} (body : Z -> list Z -> St -> outcome (Z * St * bool))
    (Inv : nat -> St -> Prop) (X : Z) n i d st :
  (i + n <= length d)%nat -> take i d = limbs X i -> Inv i st ->
  (forall j d' st, (i <= j < i + n)%nat -> length d' = length d -> drop j d' = drop j d -> Inv j st ->
     exists st', body (Z.of_nat j) d' st = Done (limb X j, st', false) /\ Inv (S j) st') ->
  exists d' st', for_limbs n body (Z.of_nat i) d st = Done (Z.of_nat (i + n), d', st')
    /\ length d' = length d /\ take (i + n) d' = limbs X (i + n) /\ drop (i + n) d' = drop (i + n) d
    /\ Inv (i + n)%nat st'.
Proof using.
  intros Hl Ht HI Hb.
  destruct (for_limbs_spec body (fun j st brk => brk = false /\ Inv j st) X n i d st Hl Ht (conj eq_refl HI))
    as (k & d' & st' & brk & E & _ & Hk & L & T & D & -> & HI').
  - intros j d' st1 Hj Hl' Hd' [_ HI1]. destruct (Hb j d' st1 Hj Hl' Hd' HI1) as (st2 & E & H2).
    exists st2, false. done.
  - rewrite (Hk eq_refl) in *. exists d', st'. done.
Qed.

(** ** Operands *)
(** The limbs of an operand that are still needed are not overwritten. *)
Lemma op_read r o x d' j :
  mpz_rep (deref r o) x -> (j < msize (deref r o))%nat ->
  length d' = length (mp_d r) -> drop j d' = drop j (mp_d r) ->
  rd (src o d') (Z.of_nat j) = Done (limb (Z.abs x) j).
Proof using.
  intros Hr Hj Hl Hd. rewrite <- (mpz_rep_read _ _ _ Hr Hj). destruct o as [m|]; [done|].
  cbn [src deref]. unfold rd. destruct (Z.leb_spec 0 (Z.of_nat j)); [|lia]. rewrite Nat2Z.id.
  pose proof (f_equal (lookup 0%nat) Hd) as Hh. rewrite !lookup_drop, Nat.add_0_r in Hh. by rewrite Hh.
Qed.

Lemma deref_grow r o x n : mpz_rep (deref r o) x -> mpz_rep (deref (grow r n) o) x.
Proof using HGok. intros H. destruct o as [m|]; [done|]. by apply mpz_rep_grow. Qed.

End gmp.

(** Applies the specification of a loop to the loop over [n] limbs that
    starts at limb [i] of [d]. *)
Tactic Notation "run_loop" constr(n) constr(Inv) constr(X) constr(i) constr(d) "as" simple_intropattern(p) :=
  lazymatch goal with
  | |- context [for_limbs n ?body ?z d ?st] =>
      change (for_limbs n body z d st) with (for_limbs n body (Z.of_nat i) d st);
      destruct (for_limbs_all body Inv X n i d st) as p
  end.
Tactic Notation "run_loop_brk" constr(n) constr(Inv) constr(X) constr(i) constr(d) "as" simple_intropattern(p) :=
  lazymatch goal with
  | |- context [for_limbs n ?body ?z d ?st] =>
      change (for_limbs n body z d st) with (for_limbs n body (Z.of_nat i) d st);
      destruct (for_limbs_spec body Inv X n i d st) as p
  end.
