(* ===== verification/MpzOps.v ===== *)
(** * The operations on limbs compute what their names say

    Remainders by powers of two, bits, sizes and exclusive or, on integers of
    either sign, with operands that may be the result itself. *)
From Stdlib Require Import ZArith Lia Btauto.
From stdpp Require Import prelude.
From S2P Require Import Prelude Mdblock Bits Mpz MpzSpec.

Lemma top_limb X n : 0 <= X < lpow (S n) -> limb X n = X / lpow n.
Proof.
  intros HX. rewrite limb_div. apply Z.mod_small. pose proof (lpow_pos n). rewrite lpow_S in HX.
  split; [apply Z.div_pos; lia|]. apply Z.div_lt_upper_bound; lia.
Qed.

Lemma limb_shift64 z i : limb z i = u64 (z .>> (64 * Z.of_nat i)).
Proof. done. Qed.

(** ** [mpz_sizeinbase2] *)
Lemma sizeinbase2_spec m x :
  mpz_rep m x -> mpz_sizeinbase2 m = Done (if x =? 0 then 0 else Z.log2 (Z.abs x) + 1).
Proof.
  intros Hr. unfold mpz_sizeinbase2. fold (msize m). pose proof (mpz_rep_read m x) as Hrd.
  destruct Hr as [A L B T S] eqn:E. clear E. destruct (msize m) as [|n].
  { cbn [sizeinbase2_loop]. change (lpow 0) with 1 in B. destruct (Z.eqb_spec x 0); [done|lia]. }
  cbn [sizeinbase2_loop]. rewrite Hrd by (done || lia). cbn [mbind outcome_bind].
  specialize (T ltac:(lia)). replace (Datatypes.S n - 1)%nat with n in T by lia.
  destruct (Z.eqb_spec (limb (Z.abs x) n) 0); [done|].
  destruct (Z.eqb_spec x 0) as [->|Hx].
  { exfalso. apply T. unfold limb. by rewrite Z.shiftr_0_l. }
  pose proof (limb_range (Z.abs x) n). rewrite fls64_spec by lia. f_equal.
  rewrite top_limb in * by lia. unfold lpow in *. rewrite <- Z.shiftr_div_pow2 in * by lia.
  rewrite Z.log2_shiftr by lia. unfold GMP_LIMB_SIZE.
  destruct (Z.lt_ge_cases (Z.log2 (Z.abs x)) (64 * Z.of_nat n)) as [Hlt|Hge]; [|lia].
  exfalso. apply T. apply Z.shiftr_eq_0; lia.
Qed.

(** ** [mpz_umod_2exp] *)
Lemma limb_mod_low z b i : 0 <= b -> 64 * Z.of_nat (S i) <= b -> limb (z mod 2 ^ b) i = limb z i.
Proof.
  intros Hb Hi. apply Z.bits_inj'. intros j Hj. rewrite !limb_bit by lia. destruct (Z.ltb_spec j 64); [|done].
  cbn [andb]. apply Z.mod_pow2_bits_low. lia.
Qed.

Lemma limb_mod_top z b i :
  64 * Z.of_nat i < b <= 64 * Z.of_nat (S i) ->
  limb (z mod 2 ^ b) i = limb z i .& (ones64 .>> ((64 - b) mod 64)).
Proof.
  intros Hb. replace ((64 - b) mod 64) with (64 * Z.of_nat (S i) - b).
  2:{ apply Z.mod_unique with (- Z.of_nat i); lia. }
  apply Z.bits_inj'. intros j Hj. rewrite Z.land_spec, Z.shiftr_spec, !limb_bit by lia.
  change ones64 with (Z.ones 64). rewrite Z.testbit_ones by lia.
  destruct (Z.ltb_spec j 64); [|done]. cbn [andb]. rewrite Z.testbit_mod_pow2 by lia.
  destruct (Z.ltb_spec (64 * Z.of_nat i + j) b), (Z.ltb_spec (j + (64 * Z.of_nat (S i) - b)) 64),
    (Z.leb_spec 0 (j + (64 * Z.of_nat (S i) - b))); try lia; cbn [andb]; by rewrite ?andb_true_r, ?andb_false_r.
Qed.

Lemma limb_opp_high y i n : 0 < y < lpow n -> (n <= i)%nat -> limb (- y) i = ones64.
Proof.
  intros Hy Hi. rewrite limb_opp. pose proof (lpow_mono n i Hi). rewrite Z.mod_small by lia.
  destruct (Z.eqb_spec y 0); [lia|]. by rewrite (limb_small y i n) by (done || lia).
Qed.

Section gmp.
Context `{HG : !Gmp} `{HGok : !GmpOK}.

(** What is left to do when the first limb that is not zero is negated. *)
Lemma umod_nocarry r o x N i d :
  let y := Z.abs x in
  mpz_rep (deref r o) x -> x < 0 -> (N <= length (mp_d r))%nat -> length d = length (mp_d r) ->
  take i d = limbs (- y) i -> drop i d = drop i (mp_d r) -> y mod lpow i <> 0 ->
  (i <= Nat.min (msize (deref r o)) N)%nat ->
  exists d', (x ← for_limbs (Z.to_nat (Z.min (Z.abs (mp_size (deref r o))) (Z.of_nat N) - Z.of_nat i))
            (fun i d (_ : unit) => v ← rd (src o d) i; Done (not64 v, tt, false)) (Z.of_nat i) d tt;
      let '(i, d, _) := x : Z * list Z * unit in
      for_limbs (Z.to_nat (Z.of_nat N - i)) (fun i d (_ : unit) => Done (ones64, tt, false)) i d tt)
    = Done (Z.of_nat N, d', tt) /\ length d' = length d /\ take N d' = limbs (- y) N.
Proof using.
  intros y Hr Hx HN Hl Ht Hd Hy Hi. assert (Hy0 : 0 < y < lpow (msize (deref r o))).
  { split; [lia|]. apply Hr. }
  assert (Hlow : forall j, (i <= j)%nat -> y mod lpow j <> 0).
  { intros j Hj. induction Hj as [|j Hj IH]; [done|]. rewrite low_zero_S. tauto. }
  replace (Z.to_nat (Z.min (Z.abs (mp_size (deref r o))) (Z.of_nat N) - Z.of_nat i))
    with (Nat.min (msize (deref r o)) N - i)%nat by (unfold msize; lia).
  set (k := Nat.min (msize (deref r o)) N) in *.
  destruct (for_limbs_all (fun i d (_ : unit) => v ← rd (src o d) i; Done (not64 v, tt, false))
      (fun _ _ => True) (- y) (k - i) i d tt) as (d1 & [] & -> & L1 & T1 & D1 & _); [lia|done|done| |].
  { intros j d' [] Hj Hl' Hd' _. exists tt. split; [|done].
    rewrite (op_read r o x d' j) by
      (done || lia || (rewrite Hd'; by apply (drop_weaken _ _ i); [lia|])).
    cbn [mbind outcome_bind]. fold y. rewrite limb_opp. destruct (Z.eqb_spec (y mod lpow j) 0) as [E|]; [|done].
    by apply Hlow in E; [|lia]. }
  cbn [mbind outcome_bind]. replace (i + (k - i))%nat with k in * by lia.
  replace (Z.to_nat (Z.of_nat N - Z.of_nat k)) with (N - k)%nat by lia.
  destruct (for_limbs_all (fun i d (_ : unit) => Done (ones64, tt, false))
      (fun _ _ => True) (- y) (N - k) k d1 tt) as (d2 & [] & -> & L2 & T2 & D2 & _); [lia|done|done| |].
  { intros j d' [] Hj _ _ _. exists tt. split; [|done]. by rewrite (limb_opp_high y j (msize (deref r o))) by lia. }
  replace (k + (N - k))%nat with N in * by lia. exists d2. split_and!; [done|lia|done].
Qed.

(** The first loop: limbs up to the first one that is not zero. *)
Lemma umod_first r o x n :
  let y := Z.abs x in
  mpz_rep (deref r o) x -> x < 0 -> (n <= length (mp_d r))%nat -> (n <= msize (deref r o))%nat ->
  exists k d1 brk, for_limbs n (fun i d (_ : bool) => v ← rd (src o d) i;
        Done (u64 (- v), negb (u64 (- v) =? 0), negb (u64 (- v) =? 0))) 0 (mp_d r) false
      = Done (Z.of_nat k, d1, brk)
    /\ (k <= n)%nat /\ (brk = false -> k = n)%nat /\ length d1 = length (mp_d r)
    /\ take k d1 = limbs (- y) k /\ drop k d1 = drop k (mp_d r) /\ (brk = true <-> y mod lpow k <> 0).
Proof using.
  intros y Hr Hx Hl Hn.
  run_loop_brk n (fun j st brk => st = brk /\ (brk = true <-> y mod lpow j <> 0)) (- y) 0%nat (mp_d r)
    as (k & d1 & st & brk & E1 & Hk & Hk' & L1 & T1 & D1 & -> & Hbrk); [lia|done| | |].
  { change (lpow 0) with 1. rewrite Z.mod_1_r. done. }
  { intros j d' st Hj Hl' Hd [_ Hz]. rewrite (op_read r o x d' j) by (done || lia). cbn [mbind outcome_bind].
    fold y. assert (y mod lpow j = 0) as Hz0 by (destruct (Z.eq_dec (y mod lpow j) 0); [done|intuition congruence]).
    assert (Ev : u64 (- limb y j) = limb (- y) j) by (by rewrite limb_opp, Hz0).
    rewrite Ev. do 2 eexists. split; [reflexivity|]. split; [done|]. rewrite low_zero_S.
    assert (limb (- y) j = 0 <-> limb y j = 0) as Hiff.
    { rewrite <- Ev, u64_mod. pose proof (limb_range y j).
      split; [intros H0; apply Z.mod_divide in H0 as [c Hc]; lia|intros ->; done]. }
    destruct (Z.eqb_spec (limb (- y) j) 0); cbn [negb]; intuition congruence. }
  exists k, d1, brk. rewrite E1. split_and!; try done; lia.
Qed.

(** The last steps: the mask for the top limb and the size. *)
Lemma umod_mask z b N d :
  64 * Z.of_nat N < b <= 64 * Z.of_nat (S N) -> (S N <= length d)%nat -> take (S N) d = limbs z (S N) ->
  exists r', (top ← rd d (Z.of_nat N);
      d ← wr d (Z.of_nat N) (top .& (ones64 .>> ((64 - b) mod 64)));
      mpz_fixsize (mkmpz (Z.of_nat (S N)) d)) = Done r' /\ mpz_rep r' (z mod 2 ^ b).
Proof using.
  intros Hb Hl Ht. rewrite (take_limbs_at d z (S N) N) by (done || lia). cbn [mbind outcome_bind].
  rewrite <- limb_mod_top by lia.
  destruct (wr_prefix d (z mod 2 ^ b) N) as (d3 & -> & L3 & T3 & _); [|lia|].
  { rewrite (take_limbs_le _ _ _ N Ht) by lia. apply limbs_ext. intros i Hi.
    symmetry. apply limb_mod_low; lia. }
  cbn [mbind outcome_bind]. unfold mpz_fixsize. cbn [mp_size mp_d].
  replace (Z.to_nat (Z.abs (Z.of_nat (S N)))) with (S N) by lia.
  destruct (trim_spec _ _ _ T3) as (kk & -> & Hkk). cbn [mbind outcome_bind].
  destruct (Z.ltb_spec (Z.of_nat (S N)) 0); [lia|]. eexists. split; [reflexivity|].
  apply (rep_nonneg d3 _ (S N)); [done|lia| |done].
  pose proof (Z.mod_pos_bound z (2 ^ b) ltac:(lia)). split; [lia|].
  apply Z.lt_le_trans with (2 ^ b); [lia|]. apply Z.pow_le_mono_r; lia.
Qed.

(** If the limbs that count are all zero, so is the remainder. *)
Lemma umod_zero y N b : 0 <= b <= 64 * Z.of_nat N -> y mod lpow N = 0 -> (- y) mod 2 ^ b = 0.
Proof using.
  intros Hb Hz. apply Z.mod_divide in Hz as [c Hc]; [|pose proof (lpow_pos N); lia].
  rewrite Hc. replace (lpow N) with (2 ^ (64 * Z.of_nat N - b) * 2 ^ b).
  - rewrite Z.mul_assoc, <- Z.mul_opp_l. apply Z.mod_mul. lia.
  - unfold lpow. rewrite <- Z.pow_add_r by lia. f_equal. lia.
Qed.

Lemma umod_2exp_spec r o x b :
  mpz_rep (deref r o) x -> 0 <= b ->
  exists r', mpz_umod_2exp r o b = Done r' /\ mpz_rep r' (x mod 2 ^ b).
Proof using HGok.
  intros Hr0 Hb. unfold mpz_umod_2exp. cbv zeta. destruct (Z.leb_spec 0 (mp_size (deref r o))) as [Hs|Hs].
  { eexists. split; [reflexivity|]. pose proof (mr_sign _ _ Hr0). rewrite <- Z.rem_mod_nonneg by lia.
    by apply tdiv_ok. }
  assert (Hx : x < 0) by (by apply (mr_sign _ _ Hr0)).
  change (8 * GMP_LIMB_SIZE) with 64. change (64 - 1) with 63. set (N := Z.to_nat ((b + 63) / 64)).
  assert (HNz : (b + 63) / 64 = Z.of_nat N) by (unfold N; rewrite Z2Nat.id; [done|apply Z.div_pos; lia]). rewrite HNz.
  assert (HN : 64 * Z.of_nat N < b + 64 /\ b <= 64 * Z.of_nat N)
    by (rewrite <- HNz; pose proof (Z.div_mod (b + 63) 64); pose proof (Z.mod_pos_bound (b + 63) 64); lia).
  pose proof (deref_grow r o x (Z.of_nat N) Hr0) as Hr.
  destruct (grow_spec r (Z.of_nat N)) as (dg & Eg & Hg & _). set (rg := grow r (Z.of_nat N)) in *.
  assert (Hlg : (N <= length (mp_d rg))%nat) by (rewrite Eg; cbn; lia).
  set (n := Nat.min (msize (deref rg o)) N).
  replace (Z.to_nat (Z.min (Z.abs (mp_size (deref rg o))) (Z.of_nat N))) with n by (unfold n, msize; lia).
  destruct (umod_first rg o x n Hr Hx) as (k & d1 & brk & -> & Hk & Hk' & L1 & T1 & D1 & Hbrk); [lia|lia|].
  cbn [mbind outcome_bind]. set (y := Z.abs x) in *. assert (Hmod : x = - y) by lia. rewrite Hmod.
  destruct brk; cbn [negb].
  - destruct (umod_nocarry rg o x N k d1) as (d2 & E2 & L2 & T2); try done; try (by apply Hbrk); try (subst n; lia).
    destruct (for_limbs (Z.to_nat (_ - Z.of_nat k)) _ _ _ _) as [[[i2 d2'] []]| | |]; try done.
    cbn [mbind outcome_bind] in *. rewrite E2. cbn [mbind outcome_bind]. destruct N as [|N'].
    { exfalso. assert (k = 0)%nat as -> by lia. change (lpow 0) with 1 in Hbrk. rewrite Z.mod_1_r in Hbrk.
      by apply Hbrk. }
    replace (Z.of_nat (S N') - 1) with (Z.of_nat N') by lia. apply umod_mask; done || lia.
  - eexists. split; [reflexivity|].
    assert (y mod lpow k = 0) as Hz by (destruct (Z.eq_dec (y mod lpow k) 0); [done|intuition congruence]).
    assert (k = N) as ->.
    { destruct (decide (k = N)); [done|]. exfalso. assert (Hkm : k = msize (deref rg o)) by (specialize (Hk' eq_refl); lia).
      rewrite Hkm in Hz. pose proof (mr_bound _ _ Hr) as HB. fold y in HB. rewrite Z.mod_small in Hz; lia. }
    rewrite (umod_zero y N b) by (done || lia).
    apply (rep_nonneg d1 0 0 0); [done|lia|change (lpow 0) with 1; lia|apply sz_ok_0].
Qed.

(** ** [mpz_getbit] *)
Lemma bit_of_shift v k : 0 <= k -> (v .>> k) .& 1 = Z.b2z (Z.testbit v k).
Proof using.
  intros Hk. change 1 with (Z.ones 1). rewrite Z.land_ones, Z.shiftr_div_pow2, Z.testbit_spec' by lia. done.
Qed.

Lemma any_limb_spec d Y n i k :
  take k d = limbs Y k -> (i + n <= k)%nat -> Y mod lpow i = 0 ->
  any_limb n (Z.of_nat i) d = Done (negb (Y mod lpow (i + n) =? 0)).
Proof using.
  revert i. induction n as [|n IH]; intros i Ht Hi Hz.
  { rewrite Nat.add_0_r, Hz. done. }
  cbn [any_limb]. rewrite (take_limbs_at d Y k i) by (done || lia). cbn [mbind outcome_bind].
  destruct (Z.eqb_spec (limb Y i) 0) as [E|E].
  - replace (Z.of_nat i + 1) with (Z.of_nat (S i)) by lia. rewrite IH by (done || lia || by apply low_zero_S).
    by replace (i + S n)%nat with (S i + n)%nat by lia.
  - destruct (Z.eqb_spec (Y mod lpow (i + S n)) 0) as [E2|]; [|done]. exfalso. apply E.
    assert (Hlow : forall m, Y mod lpow (S i + m) = 0 -> Y mod lpow (S i) = 0).
    { intros m. induction m as [|m IHm]; [by rewrite Nat.add_0_r|]. rewrite Nat.add_succ_r. intros H.
      apply low_zero_S in H as [H _]. by apply IHm. }
    apply (low_zero_S Y i), (Hlow n). rewrite <- E2. do 2 f_equal. lia.
Qed.

Lemma bit_in_limb x bit :
  0 <= bit -> Z.testbit (limb x (Z.to_nat (bit / 64))) (bit mod 64) = Z.testbit x bit.
Proof using.
  intros Hb. pose proof (Z.mod_pos_bound bit 64 ltac:(lia)). pose proof (Z.div_mod bit 64 ltac:(lia)).
  rewrite limb_bit by lia. destruct (Z.ltb_spec (bit mod 64) 64); [|lia]. cbn [andb]. f_equal.
  rewrite Z2Nat.id by (apply Z.div_pos; lia). lia.
Qed.

Lemma getbit_spec m x bit :
  mpz_rep m x -> 0 <= bit -> mpz_getbit m bit = Done (Z.b2z (Z.testbit x bit)).
Proof using.
  intros Hr Hb. unfold mpz_getbit. change mpz_bitsperlimb with 64. cbv zeta.
  pose proof (Z.mod_pos_bound bit 64 ltac:(lia)). pose proof (Z.div_pos bit 64 Hb ltac:(lia)) as Hd.
  rewrite <- (bit_in_limb x bit Hb). set (i := Z.to_nat (bit / 64)).
  assert (Hi : bit / 64 = Z.of_nat i) by lia. rewrite Hi.
  pose proof (mr_sign _ _ Hr) as Hsg. pose proof (mr_bound _ _ Hr) as HB.
  destruct (Z.leb_spec 0 (mp_size m)) as [Hs|Hs].
  - rewrite (Z.abs_eq x) in HB by lia. destruct (Z.leb_spec (mp_size m) (Z.of_nat i)) as [Hge|Hlt].
    + rewrite (limb_small x i (msize m)) by (unfold msize in *; lia). by rewrite Z.bits_0.
    + rewrite (mpz_rep_read m x i Hr) by (unfold msize; lia). cbn [mbind outcome_bind].
      rewrite bit_of_shift by lia. by rewrite (Z.abs_eq x) by lia.
  - assert (Hx : x < 0) by tauto. set (y := Z.abs x) in *. assert (Exy : x = - y) by lia. rewrite Exy at 1.
    destruct (Z.leb_spec (- mp_size m) (Z.of_nat i)) as [Hge|Hlt].
    + rewrite (limb_opp_high y i (msize m)) by (unfold msize in *; lia).
      change ones64 with (Z.ones 64). by rewrite Z.ones_spec_low by lia.
    + assert (Hin : (i < msize m)%nat) by (unfold msize; lia).
      rewrite (any_limb_spec _ y i 0 (msize m)) by (apply Hr || (change (lpow 0) with 1; apply Z.mod_1_r) || lia).
      cbn [mbind outcome_bind Nat.add]. rewrite (mpz_rep_read m x i Hr Hin). fold y. cbn [mbind outcome_bind].
      rewrite bit_of_shift by lia. rewrite limb_opp. do 3 f_equal. pose proof (limb_range y i).
      destruct (Z.eqb_spec (y mod lpow i) 0); cbn [negb].
      * unfold not64. rewrite !u64_mod, Zplus_mod_idemp_l. f_equal. unfold Z.lnot. lia.
      * rewrite Z.add_0_r. unfold not64. rewrite !u64_mod. by rewrite Z.mod_mod.
Qed.

(** ** [mpz_xor] *)
Lemma setlen1_carry_spec Y n lp d :
  let len := (lp + n)%nat in
  (len <= length d)%nat -> take lp d = limbs (Y + 1) lp ->
  (forall j, (lp <= j < len)%nat -> rd d (Z.of_nat j) = Done (limb Y j)) -> (Y + 1) mod lpow lp = 0 ->
  exists res d', setlen1_carry n (Z.of_nat lp) d = Done (res, d') /\ length d' = length d
    /\ take len d' = limbs (Y + 1) len
    /\ match res with
       | Some k => exists k', k = Z.of_nat k' /\ (lp < k' <= len)%nat /\ limb (Y + 1) (k' - 1) <> 0
       | None => (Y + 1) mod lpow len = 0
       end.
Proof using.
  revert lp d. induction n as [|n IH]; intros lp d len Hl Ht Hrd Hz; unfold len in *.
  { rewrite Nat.add_0_r in *. by exists None, d. }
  cbn [setlen1_carry]. rewrite Hrd by lia. cbn [mbind outcome_bind].
  assert (Ev : u64 (limb Y lp + 1) = limb (Y + 1) lp) by (rewrite limb_succ; unfold borrow_at; by rewrite Hz).
  rewrite Ev. destruct (wr_prefix d (Y + 1) lp Ht ltac:(lia)) as (d1 & -> & L1 & T1 & D1).
  cbn [mbind outcome_bind]. replace (Z.of_nat lp + 1) with (Z.of_nat (S lp)) by lia.
  assert (Hrd1 : forall j, (S lp <= j < lp + S n)%nat -> rd d1 (Z.of_nat j) = Done (limb Y j)).
  { intros j Hj. rewrite <- Hrd by lia. unfold rd. destruct (Z.leb_spec 0 (Z.of_nat j)); [|done].
    rewrite Nat2Z.id. pose proof (f_equal (lookup (j - S lp)%nat) D1) as Hd. rewrite !lookup_drop in Hd.
    replace (S lp + (j - S lp))%nat with j in Hd by lia. by rewrite Hd. }
  destruct (Z.eqb_spec (limb (Y + 1) lp) 0) as [E|E].
  - destruct (IH (S lp) d1) as (res & d2 & -> & L2 & T2 & R2);
      [lia|done|intros j Hj; apply Hrd1; lia|by apply low_zero_S|].
    replace (S lp + n)%nat with (lp + S n)%nat in * by lia.
    exists res, d2. split_and!; try done; [lia|]. destruct res as [k|]; [|done].
    destruct R2 as (k' & -> & Hk & Hne). exists k'. split_and!; done || lia.
  - exists (Some (Z.of_nat (S lp))), d1. split_and!; try done.
    + clear IH Hl Hrd. revert Hrd1. assert (Hs : forall m, (m <= n)%nat ->
        (forall j, (S lp <= j < lp + S n)%nat -> rd d1 (Z.of_nat j) = Done (limb Y j)) ->
        take (S lp + m) d1 = limbs (Y + 1) (S lp + m)); [|intros H; rewrite Nat.add_succ_r, <- Nat.add_succ_l; by apply Hs].
      intros m Hm Hrd. induction m as [|m IHm]; [by rewrite Nat.add_0_r|].
      rewrite Nat.add_succ_r, limbs_S, <- IHm by lia.
      assert (Hb : borrow_at (Y + 1) (S lp + m) = 0).
      { clear -E. induction m as [|m IHm]; [rewrite Nat.add_0_r, borrow_S|rewrite Nat.add_succ_r, borrow_S].
        - destruct (Z.eqb_spec (limb (Y + 1) lp) 0); [done|done].
        - rewrite IHm. by destruct (_ =? 0). }
      rewrite limb_succ, Hb, Z.add_0_r, u64_small by apply limb_range.
      specialize (Hrd (S lp + m)%nat ltac:(lia)). unfold rd in Hrd.
      destruct (Z.leb_spec 0 (Z.of_nat (S lp + m))); [|done]. rewrite Nat2Z.id in Hrd.
      destruct (d1 !! (S lp + m)%nat) as [v|] eqn:Ev1; [|done]. injection Hrd as ->.
      by apply take_S_r.
    + exists (S lp). split_and!; [done|lia|lia|]. by replace (S lp - 1)%nat with lp by lia.
Qed.

Lemma setlen1_scan_spec d X n lp nz :
  take (lp + n) d = limbs X (lp + n) -> sz_ok X lp nz ->
  exists k, setlen1_scan n (Z.of_nat lp) (Z.of_nat nz) d = Done (Z.of_nat k) /\ sz_ok X (lp + n) k.
Proof using.
  revert lp nz. induction n as [|n IH]; intros lp nz Ht Hs.
  { rewrite Nat.add_0_r in *. by exists nz. }
  cbn [setlen1_scan]. rewrite (take_limbs_at d X (lp + S n) lp) by (done || lia). cbn [mbind outcome_bind].
  replace (lp + S n)%nat with (S lp + n)%nat in * by lia.
  replace (Z.of_nat lp + 1) with (Z.of_nat (S lp)) by lia.
  replace (if limb X lp =? 0 then Z.of_nat nz else Z.of_nat (S lp))
    with (Z.of_nat (if limb X lp =? 0 then nz else S lp)) by (by destruct (_ =? 0)).
  apply IH; [done|]. by apply sz_ok_S.
Qed.

Lemma setlen1_spec s d n Y :
  take n d = limbs Y n -> (n <= length d)%nat -> 0 <= Y < lpow n ->
  exists r', setlen1 (mkmpz s d) (Z.of_nat n) = Done r' /\ mpz_rep r' (Z.lnot Y).
Proof using HGok.
  intros Ht Hl HY. unfold setlen1. cbn [mp_d]. rewrite Nat2Z.id.
  replace (Z.lnot Y) with (- (Y + 1)) by (unfold Z.lnot; lia).
  destruct (setlen1_carry_spec Y n 0 d) as (res & d1 & E & L1 & T1 & R1); [cbn; lia|done| | |].
  { intros j Hj. by apply (take_limbs_at _ _ n); [|lia]. }
  { change (lpow 0) with 1. apply Z.mod_1_r. }
  change (Z.of_nat 0) with 0 in E. rewrite E. cbn [mbind outcome_bind Nat.add] in *. destruct res as [lp|].
  - destruct R1 as (k & -> & Hk & Hne). replace (Z.to_nat (Z.of_nat n - Z.of_nat k)) with (n - k)%nat by lia.
    destruct (setlen1_scan_spec d1 (Y + 1) (n - k) k k) as (nz & -> & Hs).
    { by replace (k + (n - k))%nat with n by lia. }
    { split_and!; [lia|lia|done]. }
    replace (k + (n - k))%nat with n in Hs by lia. cbn [mbind outcome_bind]. eexists. split; [reflexivity|].
    apply (rep_neg d1 (Y + 1) n nz); [done|lia| |done]. split; [lia|].
    destruct (Z.eq_dec (Y + 1) (lpow n)) as [Ee|]; [|lia]. exfalso.
    apply Hne. apply (low_zero_S (Y + 1) (k - 1)). replace (S (k - 1)) with k by lia. rewrite Ee.
    unfold lpow. replace (64 * Z.of_nat n) with (64 * Z.of_nat (n - k) + 64 * Z.of_nat k) by lia.
    rewrite Z.pow_add_r by lia. apply Z.mod_mul. lia.
  - destruct (grow_spec (mkmpz (- (Z.of_nat n + 1)) d1) (Z.of_nat n + 1)) as (d2 & -> & G1 & G2 & G3).
    cbn [mp_d mp_size] in *. assert (Hfull : Y + 1 = lpow n).
    { apply Z.mod_divide in R1 as [c Hc]; [|pose proof (lpow_pos n); lia]. pose proof (lpow_pos n).
      assert (0 < c) by nia. assert (c < 2) by nia. assert (c = 1) as -> by lia. lia. }
    assert (Hone : limb (Y + 1) n = 1).
    { rewrite limb_div, Hfull, Z.div_same by (pose proof (lpow_pos n); lia). done. }
    destruct (wr_prefix d2 (Y + 1) n) as (d3 & E3 & L3 & T3 & _).
    { rewrite <- T1, <- G3, take_take. f_equal. lia. }
    { lia. }
    rewrite Hone in E3. rewrite E3. cbn [mbind outcome_bind]. eexists. split; [reflexivity|].
    replace (- (Z.of_nat n + 1)) with (- Z.of_nat (S n)) by lia.
    apply (rep_neg d3 (Y + 1) (S n)); [done|lia| |].
    + rewrite lpow_S. pose proof (lpow_pos n). lia.
    + split_and!; [lia|lia|]. intros _. replace (S n - 1)%nat with n by lia. by rewrite Hone.
Qed.

(** A variable that holds the number of limbs that count. *)
Definition szr_ok (X : Z) (j : nat) (s : Z) : Prop := exists k, s = Z.of_nat k /\ sz_ok X j k.

Lemma szr_ok_0 X : szr_ok X 0 0.
Proof using. exists 0%nat. split; [done|apply sz_ok_0]. Qed.

Lemma szr_ok_S X j s : szr_ok X j s -> szr_ok X (S j) (next_szr (limb X j) (Z.of_nat j) s).
Proof using.
  intros (k & -> & Hk). apply sz_ok_S in Hk. eexists. split; [|exact Hk]. unfold next_szr.
  destruct (_ =? 0); lia.
Qed.

Lemma rep_szr d X n s :
  take n d = limbs X n -> (n <= length d)%nat -> 0 <= X < lpow n -> szr_ok X n s -> mpz_rep (mkmpz s d) X.
Proof using. intros Ht Hl HX (k & -> & Hk). by apply (rep_nonneg d X n k). Qed.

Lemma next_borrow_S x j : next_borrow (limb x j) (borrow_at x j) = borrow_at x (S j).
Proof using. by rewrite borrow_S. Qed.

Lemma lxor_bound x y n : 0 <= x < lpow n -> 0 <= y < lpow n -> 0 <= x .^ y < lpow n.
Proof using.
  intros Hx Hy. unfold lpow in *. apply bits_bound; [lia|apply Z.lxor_nonneg; lia|].
  intros i Hi. rewrite Z.lxor_spec, (testbit_high x (64 * Z.of_nat n)), (testbit_high y (64 * Z.of_nat n)) by lia.
  done.
Qed.

Lemma lxor_lnot_r x y : x .^ Z.lnot y = Z.lnot (x .^ y).
Proof using. apply Z.bits_inj'. intros i Hi. rewrite Z.lnot_spec, !Z.lxor_spec, Z.lnot_spec by lia. by destruct (Z.testbit x i), (Z.testbit y i). Qed.

(** Reading an operand in a loop that started with the limbs [d]. *)
Lemma op_read_at r o x d i d' j :
  mpz_rep (deref r o) x -> (i <= j < msize (deref r o))%nat ->
  length d = length (mp_d r) -> drop i d = drop i (mp_d r) ->
  length d' = length d -> drop j d' = drop j d ->
  rd (src o d') (Z.of_nat j) = Done (limb (Z.abs x) j).
Proof using.
  intros Hr Hj Hl Hd Hl' Hd'. apply (op_read r); [done|lia|lia|]. rewrite Hd'.
  by apply (drop_weaken _ _ i); [lia|].
Qed.

Section xor.
Context (r : mpz) (oa ob : operand) (x y : Z).
Context (Ha : mpz_rep (deref r oa) x) (Hb : mpz_rep (deref r ob) y).
Let na := msize (deref r oa).
Let nb := msize (deref r ob).
Context (Hnb : (nb <= na)%nat) (Hna : (na <= length (mp_d r))%nat).

Lemma abs_bounds : 0 <= Z.abs x < lpow na /\ 0 <= Z.abs y < lpow nb /\ lpow nb <= lpow na.
Proof using Ha Hb Hnb Hna.
  pose proof (mr_bound _ _ Ha). pose proof (mr_bound _ _ Hb). pose proof (lpow_mono nb na Hnb).
  unfold na, nb in *. lia.
Qed.

(** Reads a limb of an operand in the body of a loop. *)
Ltac read_op o v d i d' j :=
  rewrite (op_read_at r o v d i d' j) by (done || (unfold na, nb in *; lia)); cbn [mbind outcome_bind].

Lemma xor_pp_spec :
  0 <= x -> 0 <= y ->
  exists r', xor_pp r oa ob (Z.of_nat na) (Z.of_nat nb) = Done r' /\ mpz_rep r' (x .^ y).
Proof using Ha Hb Hnb Hna.
  intros Hx Hy. pose proof abs_bounds as HB. unfold xor_pp. rewrite Nat2Z.id. cbv zeta.
  rewrite !Z.abs_eq in HB by lia. set (X := x .^ y).
  run_loop nb (szr_ok X) X 0%nat (mp_d r) as (d1 & s1 & -> & L1 & T1 & D1 & I1);
    [lia|done|apply szr_ok_0| |].
  { intros j d' s Hj Hl Hd HI. read_op oa x (mp_d r) 0%nat d' j. read_op ob y (mp_d r) 0%nat d' j.
    rewrite !Z.abs_eq, <- limb_lxor by lia. eexists. split; [reflexivity|]. by apply szr_ok_S. }
  cbn [mbind outcome_bind Nat.add] in *. replace (Z.to_nat (Z.of_nat na - Z.of_nat nb)) with (na - nb)%nat by lia.
  run_loop (na - nb)%nat (szr_ok X) X nb d1 as (d2 & s2 & -> & L2 & T2 & D2 & I2); [lia|done|done| |].
  { intros j d' s Hj Hl Hd HI. read_op oa x d1 nb d' j. rewrite Z.abs_eq by lia.
    assert (Ej : limb x j = limb X j) by (unfold X; rewrite limb_lxor, (limb_small y j nb), Z.lxor_0_r by lia; done).
    rewrite Ej. eexists. split; [reflexivity|]. by apply szr_ok_S. }
  cbn [mbind outcome_bind]. replace (nb + (na - nb))%nat with na in * by lia. eexists. split; [reflexivity|].
  apply (rep_szr d2 _ na); [done|lia| |done]. apply lxor_bound; lia.
Qed.

(** The limbs of [|y| - 1]. *)
Lemma pred_bound : y < 0 -> 0 <= Z.abs y - 1 < lpow nb.
Proof using Ha Hb Hnb Hna. pose proof abs_bounds. lia. Qed.

Lemma pred_limb j : borrow_at (Z.abs y) j = 0 -> limb (Z.abs y - 1) j = limb (Z.abs y) j.
Proof using. intros H. rewrite limb_pred, H, Z.sub_0_r. apply u64_small, limb_range. Qed.

Lemma xor_pn_spec :
  0 <= x -> y < 0 ->
  exists r', xor_pn r oa ob (Z.of_nat na) (Z.of_nat nb) = Done r' /\ mpz_rep r' (x .^ y).
Proof using HGok Ha Hb Hnb Hna.
  intros Hx Hy. pose proof abs_bounds as HB. pose proof (pred_bound Hy) as HP.
  unfold xor_pn. rewrite Nat2Z.id. cbv zeta.
  rewrite (Z.abs_eq x) in HB by lia. set (y1 := Z.abs y - 1) in *. set (X := x .^ y1).
  replace (x .^ y) with (Z.lnot X)
    by (unfold X; rewrite <- lxor_lnot_r; f_equal; unfold Z.lnot; lia).
  run_loop_brk nb (fun j (_ : unit) brk => borrow_at (Z.abs y) j = if brk : bool then 0 else 1) X 0%nat (mp_d r)
    as (k & d1 & [] & brk & -> & Hk & Hk' & L1 & T1 & D1 & I1); [lia|done|apply borrow_0| |].
  { intros j d' [] Hj Hl Hd HI. read_op ob y (mp_d r) 0%nat d' j. read_op oa x (mp_d r) 0%nat d' j.
    rewrite Z.abs_eq by lia. rewrite <- HI, <- limb_pred, <- limb_lxor. do 2 eexists. split; [reflexivity|].
    rewrite borrow_S, HI. by destruct (_ =? 0). }
  cbn [mbind outcome_bind Nat.add] in *. replace (Z.to_nat (Z.of_nat nb - Z.of_nat k)) with (nb - k)%nat by lia.
  run_loop (nb - k)%nat (fun j (_ : unit) => (j < nb)%nat -> borrow_at (Z.abs y) j = 0) X k d1
    as (d2 & [] & -> & L2 & T2 & D2 & I2); [lia|done| | |].
  { intros Hlt. destruct brk; [done|]. rewrite Hk' in Hlt by done. lia. }
  { intros j d' [] Hj Hl Hd HI. read_op oa x d1 k d' j. read_op ob y d1 k d' j.
    specialize (HI ltac:(lia)). rewrite Z.abs_eq, <- pred_limb, <- limb_lxor by (done || lia).
    eexists. split; [reflexivity|]. intros _. rewrite borrow_S, HI. by destruct (_ =? 0). }
  cbn [mbind outcome_bind]. replace (k + (nb - k))%nat with nb in * by lia.
  assert (D2' : drop nb d2 = drop nb (mp_d r)) by (rewrite D2; by apply (drop_weaken _ _ k); [lia|]).
  replace (Z.to_nat (Z.of_nat na - Z.of_nat nb)) with (na - nb)%nat by lia.
  run_loop (na - nb)%nat (fun (_ : nat) (_ : unit) => True) X nb d2 as (d3 & [] & -> & L3 & T3 & D3 & _); [lia|done|done| |].
  { intros j d' [] Hj Hl Hd _. read_op oa x d2 nb d' j. rewrite Z.abs_eq by lia.
    assert (Ej : limb x j = limb X j) by (unfold X; rewrite limb_lxor, (limb_small y1 j nb), Z.lxor_0_r by lia; done).
    rewrite Ej. by eexists. }
  cbn [mbind outcome_bind]. replace (nb + (na - nb))%nat with na in * by lia.
  apply setlen1_spec; [done|lia|]. apply lxor_bound; lia.
Qed.

Lemma xor_np_spec :
  x < 0 -> 0 <= y ->
  exists r', xor_np r oa ob (Z.of_nat na) (Z.of_nat nb) = Done r' /\ mpz_rep r' (x .^ y).
Proof using HGok Ha Hb Hnb Hna.
  intros Hx Hy. pose proof abs_bounds as HB. unfold xor_np. rewrite Nat2Z.id. cbv zeta.
  rewrite (Z.abs_eq y) in HB by lia. set (x1 := Z.abs x - 1) in *. set (X := x1 .^ y).
  replace (x .^ y) with (Z.lnot X)
    by (unfold X; rewrite Z.lxor_comm, <- lxor_lnot_r, Z.lxor_comm; f_equal; unfold Z.lnot; lia).
  run_loop nb (fun j s => s = borrow_at (Z.abs x) j) X 0%nat (mp_d r)
    as (d1 & s1 & -> & L1 & T1 & D1 & I1); [lia|done|by rewrite borrow_0| |].
  { intros j d' s Hj Hl Hd ->. read_op oa x (mp_d r) 0%nat d' j. read_op ob y (mp_d r) 0%nat d' j.
    rewrite (Z.abs_eq y), <- limb_pred, <- limb_lxor, next_borrow_S by lia. by eexists. }
  cbn [mbind outcome_bind Nat.add] in *. replace (Z.to_nat (Z.of_nat na - Z.of_nat nb)) with (na - nb)%nat by lia.
  run_loop (na - nb)%nat (fun j s => s = borrow_at (Z.abs x) j) X nb d1
    as (d2 & s2 & -> & L2 & T2 & D2 & I2); [lia|done|done| |].
  { intros j d' s Hj Hl Hd ->. read_op oa x d1 nb d' j. rewrite <- limb_pred, next_borrow_S.
    fold x1. assert (Ej : limb x1 j = limb X j) by (unfold X; rewrite limb_lxor, (limb_small y j nb), Z.lxor_0_r by lia; done).
    rewrite Ej. by eexists. }
  cbn [mbind outcome_bind]. replace (nb + (na - nb))%nat with na in * by lia.
  apply setlen1_spec; [done|lia|]. apply lxor_bound; lia.
Qed.

Lemma xor_nn_spec :
  x < 0 -> y < 0 ->
  exists r', xor_nn r oa ob (Z.of_nat na) (Z.of_nat nb) = Done r' /\ mpz_rep r' (x .^ y).
Proof using Ha Hb Hnb Hna.
  intros Hx Hy. pose proof abs_bounds as HB. pose proof (pred_bound Hy) as HP.
  unfold xor_nn. rewrite Nat2Z.id. cbv zeta.
  set (y1 := Z.abs y - 1) in *. set (x1 := Z.abs x - 1). set (X := x1 .^ y1).
  replace (x .^ y) with X.
  2:{ unfold X. rewrite <- (Z.lnot_involutive (x1 .^ y1)), <- lxor_lnot_r, Z.lxor_comm, <- lxor_lnot_r, Z.lxor_comm.
      f_equal; unfold Z.lnot; lia. }
  set (St := fun j (st : Z * Z) => szr_ok X j (st.1) /\ st.2 = borrow_at (Z.abs x) j).
  assert (HSt : forall j st, St j st ->
    St (S j) (next_szr (limb X j) (Z.of_nat j) (st.1), next_borrow (limb (Z.abs x) j) (st.2))).
  { intros j st [H1 H2]. split; cbn [fst snd]; [by apply szr_ok_S|]. by rewrite H2, next_borrow_S. }
  run_loop_brk nb (fun j st brk => St j st /\ borrow_at (Z.abs y) j = if brk : bool then 0 else 1) X 0%nat (mp_d r)
    as (k & d1 & s1 & brk & -> & Hk & Hk' & L1 & T1 & D1 & I1 & B1); [lia|done| | |].
  { split; [|apply borrow_0]. split; [apply szr_ok_0|]. by rewrite borrow_0. }
  { intros j d' s Hj Hl Hd [HI HB1]. read_op oa x (mp_d r) 0%nat d' j. read_op ob y (mp_d r) 0%nat d' j.
    pose proof HI as [_ Es]. specialize (HSt j s HI).
    rewrite Es, <- HB1, <- !limb_pred, <- limb_lxor in *. do 2 eexists. split; [reflexivity|].
    split; [exact HSt|]. rewrite borrow_S, HB1. by destruct (_ =? 0). }
  cbn [mbind outcome_bind Nat.add] in *. replace (Z.to_nat (Z.of_nat nb - Z.of_nat k)) with (nb - k)%nat by lia.
  run_loop (nb - k)%nat (fun j st => St j st /\ ((j < nb)%nat -> borrow_at (Z.abs y) j = 0)) X k d1
    as (d2 & s2 & -> & L2 & T2 & D2 & I2 & _); [lia|done| | |].
  { split; [done|]. intros Hlt. destruct brk; [done|]. rewrite Hk' in Hlt by done. lia. }
  { intros j d' s Hj Hl Hd [HI HB1]. read_op oa x d1 k d' j. read_op ob y d1 k d' j.
    specialize (HB1 ltac:(lia)). pose proof HI as [_ Es]. specialize (HSt j s HI).
    rewrite Es, <- limb_pred, <- pred_limb, <- limb_lxor in * by done.
    eexists. split; [reflexivity|]. split; [exact HSt|]. intros _. rewrite borrow_S, HB1. by destruct (_ =? 0). }
  cbn [mbind outcome_bind]. replace (k + (nb - k))%nat with nb in * by lia.
  assert (D2' : drop nb d2 = drop nb (mp_d r)) by (rewrite D2; by apply (drop_weaken _ _ k); [lia|]).
  replace (Z.to_nat (Z.of_nat na - Z.of_nat nb)) with (na - nb)%nat by lia.
  run_loop (na - nb)%nat St X nb d2 as (d3 & s3 & -> & L3 & T3 & D3 & I3); [lia|done|done| |].
  { intros j d' s Hj Hl Hd HI. read_op oa x d2 nb d' j. pose proof HI as [_ Es]. specialize (HSt j s HI).
    rewrite Es, <- limb_pred in *. fold x1.
    assert (Ej : limb x1 j = limb X j) by (unfold X; rewrite limb_lxor, (limb_small y1 j nb), Z.lxor_0_r by lia; done).
    rewrite Ej. by eexists. }
  cbn [mbind outcome_bind]. replace (nb + (na - nb))%nat with na in * by lia. eexists. split; [reflexivity|].
  apply (rep_szr d3 _ na); [done|lia| |apply I3]. apply lxor_bound; lia.
Qed.

End xor.

Lemma xor_ordered_spec r oa ob x y :
  mpz_rep (deref r oa) x -> mpz_rep (deref r ob) y ->
  (msize (deref r ob) <= msize (deref r oa))%nat ->
  exists r', xor_ordered r oa ob (Z.abs (mp_size (deref r oa))) (Z.abs (mp_size (deref r ob))) = Done r'
    /\ mpz_rep r' (x .^ y).
Proof using HGok.
  intros Ha Hb Hs. unfold xor_ordered. cbv zeta.
  assert (Em : forall o, Z.abs (mp_size (deref r o)) = Z.of_nat (msize (deref r o))) by (intros o; unfold msize; lia).
  rewrite !Em. set (n := Z.of_nat (msize (deref r oa))).
  destruct (grow_spec r n) as (d & Eg & Hg & _).
  assert (Es : forall o, msize (deref (grow r n) o) = msize (deref r o)) by (intros []; [done|]; cbn; by rewrite Eg).
  apply (deref_grow r oa x n) in Ha. apply (deref_grow r ob y n) in Hb.
  pose proof (mr_sign _ _ Ha). pose proof (mr_sign _ _ Hb). rewrite <- !Es in Hs.
  assert (Hl : (msize (deref (grow r n) oa) <= length (mp_d (grow r n)))%nat).
  { rewrite Es. rewrite Eg. cbn [mp_d]. lia. }
  assert (En : n = Z.of_nat (msize (deref (grow r n) oa))) by (by rewrite Es).
  rewrite <- (Es ob). set (g := grow r n) in *. clearbody g n. rewrite En.
  destruct (Z.leb_spec 0 (mp_size (deref g oa))), (Z.leb_spec 0 (mp_size (deref g ob))); cbn [andb].
  - apply xor_pp_spec; done || lia.
  - apply xor_pn_spec; done || lia.
  - apply xor_np_spec; done || lia.
  - apply xor_nn_spec; done || lia.
Qed.

Lemma mpz_xor_spec r oa ob x y :
  mpz_rep (deref r oa) x -> mpz_rep (deref r ob) y ->
  exists r', mpz_xor r oa ob = Done r' /\ mpz_rep r' (x .^ y).
Proof using HGok.
  intros Ha Hb. unfold mpz_xor. cbv zeta.
  destruct (Z.ltb_spec (Z.abs (mp_size (deref r oa))) (Z.abs (mp_size (deref r ob)))).
  - rewrite Z.lxor_comm. apply xor_ordered_spec; try done. unfold msize. lia.
  - apply xor_ordered_spec; try done. unfold msize. lia.
Qed.

End gmp.
