(* ===== verification/MpzRaw.v ===== *)
(** * Integers as strings of bytes

    The conversions of [crypt/mpz_raw.C] between integers and byte strings of
    a given length, least or most significant byte first, and in two's
    complement. *)
From Stdlib Require Import ZArith Lia Btauto.
From stdpp Require Import prelude.
From S2P Require Import Prelude Mdblock Bits Mpz MpzSpec MpzOps.

(** ** Bytes of an integer *)
Definition byte (x : Z) (i : nat) : Z := u8 (x .>> (8 * Z.of_nat i)).
Definition bytes (x : Z) (n : nat) : list Z := byte x <$> seq 0 n.
(** The value of a string, least significant byte first. *)
Definition le_val (buf : list Z) : Z := foldr (fun b v => b + 256 * v) 0 buf.

Lemma byte_bit x i j : 0 <= j -> Z.testbit (byte x i) j = (j <? 8) && Z.testbit x (8 * Z.of_nat i + j).
Proof.
  intros Hj. unfold byte. rewrite u8_mod. destruct (Z.ltb_spec j 8).
  - rewrite Z.mod_pow2_bits_low, Z.shiftr_spec by lia. cbn [andb]. f_equal. lia.
  - by rewrite Z.mod_pow2_bits_high by lia.
Qed.

Lemma byte_is_byte x i : is_byte (byte x i).
Proof. apply u8_byte. Qed.

Lemma bytes_length x n : length (bytes x n) = n.
Proof. unfold bytes. by rewrite length_fmap, length_seq. Qed.

Lemma bytes_Forall x n : Forall is_byte (bytes x n).
Proof. unfold bytes. apply Forall_fmap, Forall_forall. intros i _. apply byte_is_byte. Qed.

Lemma bytes_add x n k : bytes x (n + k) = bytes x n ++ ((fun i => byte x (n + i)) <$> seq 0 k).
Proof.
  unfold bytes. rewrite seq_app, fmap_app. f_equal. cbn [Nat.add].
  rewrite <- (Nat.add_0_r n) at 1. rewrite <- fmap_add_seq, <- list_fmap_compose. done.
Qed.

Lemma bytes_S x n : bytes x (S n) = bytes x n ++ [byte x n].
Proof. rewrite <- Nat.add_1_r, bytes_add. cbn. by rewrite Nat.add_0_r. Qed.

Lemma bytes_lookup x n i : (i < n)%nat -> bytes x n !! i = Some (byte x i).
Proof. intros H. unfold bytes. rewrite list_lookup_fmap, lookup_seq_lt by lia. done. Qed.

Lemma bytes_ext x y n : (forall i, (i < n)%nat -> byte x i = byte y i) -> bytes x n = bytes y n.
Proof.
  intros H. unfold bytes. apply list_fmap_ext. intros i k Hk. apply lookup_seq in Hk. apply H. lia.
Qed.

Lemma byte_high x i n : 0 <= x < 2 ^ n -> 0 <= n <= 8 * Z.of_nat i -> byte x i = 0.
Proof.
  intros Hx Hn. apply Z.bits_inj'. intros j Hj. rewrite byte_bit, Z.bits_0, (testbit_high x n) by lia.
  apply andb_false_r.
Qed.

Lemma bytes_high x m k n :
  0 <= x < 2 ^ n -> 0 <= n <= 8 * Z.of_nat m -> bytes x (m + k) = bytes x m ++ replicate k 0.
Proof.
  intros Hx Hn. rewrite bytes_add. f_equal. induction k as [|k IH]; [done|].
  rewrite seq_S, fmap_app, IH, replicate_S_end. f_equal. cbn. by rewrite (byte_high x _ n) by lia.
Qed.

Lemma byte_limb x i k : (k < 8)%nat -> byte (limb x i) k = byte x (8 * i + k).
Proof.
  intros Hk. apply Z.bits_inj'. intros j Hj. rewrite !byte_bit by lia.
  destruct (Z.ltb_spec j 8); [|done]. cbn [andb]. rewrite limb_bit by lia.
  destruct (Z.ltb_spec (8 * Z.of_nat k + j) 64); [|lia]. cbn [andb]. f_equal. lia.
Qed.

Lemma limb_bytes_limb x i : limb_bytes (limb x i) = (fun k => byte x (8 * i + k)) <$> seq 0 8.
Proof.
  trans (byte (limb x i) <$> seq 0 8); [done|]. apply list_fmap_ext. intros k k' Hk.
  apply lookup_seq in Hk as [-> Hk]. apply byte_limb. lia.
Qed.

Lemma limb_bytes_length v : length (limb_bytes v) = 8%nat.
Proof. done. Qed.

Lemma bytes_limb_step x i : bytes x (8 * i + 8) = bytes x (8 * i) ++ limb_bytes (limb x i).
Proof. by rewrite limb_bytes_limb, bytes_add. Qed.

Lemma copylimb_le v : copylimb_from LE_POS v = limb_bytes v.
Proof. done. Qed.
Lemma copylimb_be v : copylimb_from BE_POS v = reverse (limb_bytes v).
Proof. done. Qed.

Lemma byte_div x i : byte x i = (x / 2 ^ (8 * Z.of_nat i)) mod 2 ^ 8.
Proof. unfold byte. by rewrite u8_mod, Z.shiftr_div_pow2 by lia. Qed.

(** The value of a string and its bytes. *)
Lemma le_val_cons b buf : le_val (b :: buf) = b + 256 * le_val buf.
Proof. done. Qed.

Lemma le_val_bound buf : Forall is_byte buf -> 0 <= le_val buf < 2 ^ (8 * Z.of_nat (length buf)).
Proof.
  induction 1 as [|b buf Hb _ IH]; [cbn; lia|]. cbn [le_val foldr length] in *.
  fold (le_val buf). unfold is_byte in Hb.
  replace (8 * Z.of_nat (S (length buf))) with (8 + 8 * Z.of_nat (length buf)) by lia.
  rewrite Z.pow_add_r by lia. change (2 ^ 8) with 256. unfold le_val in *. lia.
Qed.

Lemma bytes_le_val buf : Forall is_byte buf -> bytes (le_val buf) (length buf) = buf.
Proof.
  induction 1 as [|b buf Hb Hf IH]; [done|]. cbn [length]. unfold is_byte in Hb.
  pose proof (bytes_add (le_val (b :: buf)) 1 (length buf)) as E. cbn [Nat.add] in E. rewrite E.
  trans ([b] ++ buf); [f_equal|done].
  - unfold bytes. cbn [seq fmap list_fmap]. f_equal. rewrite byte_div. change (2 ^ (8 * Z.of_nat 0)) with 1. rewrite Z.div_1_r.
    rewrite le_val_cons. change (2 ^ 8) with 256. symmetry. apply Z.mod_unique with (le_val buf); lia.
  - rewrite <- IH at 2. unfold bytes. apply list_fmap_ext. intros i k _. change (1 + k)%nat with (S k).
    cbn beta. assert (E8 : 8 * Z.of_nat (S k) = 8 + 8 * Z.of_nat k) by lia.
    rewrite !byte_div, E8, Z.pow_add_r, <- Z.div_div, le_val_cons by lia. do 2 f_equal.
    change (2 ^ 8) with 256. symmetry. apply Z.div_unique with b; lia.
Qed.

Lemma le_val_bytes x n : le_val (bytes x n) = x mod 2 ^ (8 * Z.of_nat n).
Proof.
  apply Z.bits_inj'. intros j Hj. pose proof (le_val_bound _ (bytes_Forall x n)) as HB.
  rewrite bytes_length in HB. rewrite Z.testbit_mod_pow2 by lia. destruct (Z.ltb_spec j (8 * Z.of_nat n)).
  - cbn [andb]. pose proof (bytes_le_val _ (bytes_Forall x n)) as E. rewrite bytes_length in E.
    assert (Ej : byte (le_val (bytes x n)) (Z.to_nat (j / 8)) = byte x (Z.to_nat (j / 8))).
    { assert ((Z.to_nat (j / 8)) < n)%nat as Hlt.
      { assert (j / 8 < Z.of_nat n) by (apply Z.div_lt_upper_bound; lia).
        pose proof (Z.div_pos j 8 Hj ltac:(lia)). lia. }
      pose proof (f_equal (fun l => l !! Z.to_nat (j / 8)) E) as E2. cbn beta in E2.
      rewrite !bytes_lookup in E2 by done. by injection E2. }
    apply (f_equal (fun v => Z.testbit v (j mod 8))) in Ej.
    pose proof (Z.mod_pos_bound j 8 ltac:(lia)). pose proof (Z.div_mod j 8 ltac:(lia)).
    pose proof (Z.div_pos j 8 Hj ltac:(lia)). rewrite !byte_bit in Ej by lia.
    destruct (Z.ltb_spec (j mod 8) 8); [|lia]. cbn [andb] in Ej.
    by replace (8 * Z.of_nat (Z.to_nat (j / 8)) + j mod 8) with j in Ej by lia.
  - by rewrite (testbit_high _ (8 * Z.of_nat n)) by lia.
Qed.

(** ** [mpz_get_rawmag_le] and [mpz_get_rawmag_be] *)
Lemma get_le_loop_spec d Y n sp buf :
  take (sp + n) d = limbs Y (sp + n) -> (8 * (sp + n) <= length buf)%nat ->
  take (8 * sp) buf = bytes Y (8 * sp) ->
  exists buf', get_le_loop n d (Z.of_nat sp) buf (8 * Z.of_nat sp)
      = Done (Z.of_nat (sp + n), buf', 8 * Z.of_nat (sp + n))
    /\ length buf' = length buf /\ take (8 * (sp + n)) buf' = bytes Y (8 * (sp + n)).
Proof.
  revert sp buf. induction n as [|n IH]; intros sp buf Hd Hl Ht.
  { rewrite Nat.add_0_r in *. by exists buf. }
  cbn [get_le_loop]. rewrite (take_limbs_at d Y (sp + S n) sp) by (done || lia). cbn [mbind outcome_bind].
  rewrite copylimb_le.
  destruct (copy_in_spec buf (8 * Z.of_nat sp) (limb_bytes (limb Y sp))) as (b & -> & Lb & Tb);
    [lia|rewrite limb_bytes_length; lia|]. cbn [mbind outcome_bind].
  replace (8 * Z.of_nat sp + GMP_LIMB_SIZE) with (8 * Z.of_nat (S sp)) by (unfold GMP_LIMB_SIZE; lia).
  replace (Z.of_nat sp + 1) with (Z.of_nat (S sp)) by lia.
  replace (sp + S n)%nat with (S sp + n)%nat in * by lia.
  destruct (IH (S sp) b) as (b' & E & L & T); [done|lia| |].
  { replace (Z.to_nat (8 * Z.of_nat sp) + length (limb_bytes (limb Y sp)))%nat with (8 * S sp)%nat in Tb by (rewrite limb_bytes_length; lia).
    replace (Z.to_nat (8 * Z.of_nat sp)) with (8 * sp)%nat in Tb by lia.
    rewrite Tb, Ht. replace (8 * S sp)%nat with (8 * sp + 8)%nat by lia. by rewrite bytes_limb_step. }
  exists b'. split_and!; try done. lia.
Qed.

Lemma get_le_bytes_spec Y i n k buf :
  (k + n <= 8)%nat -> (8 * i + k + n = length buf)%nat -> take (8 * i + k) buf = bytes Y (8 * i + k) ->
  get_le_bytes n (limb Y i .>> (8 * Z.of_nat k)) buf (Z.of_nat (8 * i + k)) = Done (bytes Y (length buf)).
Proof.
  revert k buf. induction n as [|n IH]; intros k buf Hk Hl Ht; cbn [get_le_bytes].
  { f_equal. rewrite <- Hl, Nat.add_0_r, <- Ht. rewrite take_ge by lia. done. }
  fold (byte (limb Y i) k). rewrite byte_limb by lia.
  unfold wr. destruct (Z.leb_spec 0 (Z.of_nat (8 * i + k))), (Z.ltb_spec (Z.of_nat (8 * i + k)) (Z.of_nat (length buf))); try lia.
  cbn [andb mbind outcome_bind]. rewrite Nat2Z.id, Z.shiftr_shiftr by lia.
  replace (8 * Z.of_nat k + 8) with (8 * Z.of_nat (S k)) by lia.
  replace (Z.of_nat (8 * i + k) + 1) with (Z.of_nat (8 * i + S k)) by lia. rewrite IH.
  - by rewrite length_insert.
  - lia.
  - rewrite length_insert. lia.
  - rewrite Nat.add_succ_r, (take_S_r _ _ (byte Y (8 * i + k))), take_insert_ge, Ht, bytes_S; [done|lia|].
    apply list_lookup_insert_eq. lia.
Qed.

Lemma rep_mag_bytes m x : mpz_rep m x -> 0 <= Z.abs x < 2 ^ (8 * Z.of_nat (8 * msize m)).
Proof.
  intros Hr. pose proof (mr_bound _ _ Hr) as H. unfold lpow in H.
  replace (8 * Z.of_nat (8 * msize m)) with (64 * Z.of_nat (msize m)) by lia. lia.
Qed.

Lemma get_rawmag_le_spec buf m x :
  mpz_rep m x -> mpz_get_rawmag_le buf m = Done (bytes (Z.abs x) (length buf)).
Proof.
  intros Hr. unfold mpz_get_rawmag_le. cbv zeta. set (L := length buf). set (Y := Z.abs x).
  set (n := Nat.min (L / 8) (msize m)).
  pose proof (Nat.div_mod L 8 ltac:(lia)) as HL. pose proof (Nat.mod_upper_bound L 8 ltac:(lia)) as HL'.
  replace (Z.to_nat (Z.min (Z.of_nat L / GMP_LIMB_SIZE) (Z.abs (mp_size m)))) with n.
  2:{ unfold n, msize, GMP_LIMB_SIZE. change 8 with (Z.of_nat 8). rewrite <- Nat2Z.inj_div. lia. }
  destruct (get_le_loop_spec (mp_d m) Y n 0 buf) as (b & E & Lb & Tb).
  { cbn [Nat.add]. apply (take_limbs_le _ _ (msize m)); [apply Hr|lia]. }
  { fold L. lia. }
  { done. }
  change (8 * Z.of_nat 0) with 0 in E. change (Z.of_nat 0) with 0 in E. rewrite E. clear E.
  cbn [mbind outcome_bind Nat.add] in *. unfold GMP_LIMB_SIZE.
  assert (Hz : n = msize m -> bytes Y L = bytes Y (8 * n) ++ replicate (L - 8 * n) 0).
  { intros Hn. rewrite <- (bytes_high Y (8 * n) (L - 8 * n) (8 * Z.of_nat (8 * n))); [f_equal; lia| |lia].
    rewrite Hn. by apply rep_mag_bytes. }
  destruct (Z.ltb_spec (Z.of_nat L - 8 * Z.of_nat n) 8), (Z.ltb_spec (Z.of_nat n) (Z.abs (mp_size m))); cbn [andb].
  { rewrite (mpz_rep_read m x n Hr) by (unfold msize; lia). cbn [mbind outcome_bind]. fold Y.
    pose proof (get_le_bytes_spec Y n (L - 8 * n) 0 b) as Hg. rewrite Nat.add_0_r in Hg.
    replace (Z.to_nat (Z.of_nat L - 8 * Z.of_nat n)) with (L - 8 * n)%nat by lia.
    replace (8 * Z.of_nat n) with (Z.of_nat (8 * n)) by lia.
    change (limb Y n .>> (8 * Z.of_nat 0)) with (limb Y n .>> 0) in Hg. rewrite Z.shiftr_0_r in Hg.
    rewrite Hg; [by rewrite Lb|lia|rewrite Lb; fold L; lia|done]. }
  all: destruct (copy_in_spec b (8 * Z.of_nat n) (replicate (Z.to_nat (Z.of_nat L - 8 * Z.of_nat n)) 0)) as (b' & -> & Lb' & Tb');
    [lia|rewrite length_replicate, Lb; fold L; lia|]; rewrite length_replicate, take_ge in Tb' by lia;
    f_equal; rewrite Tb', Hz by (unfold msize in *; lia);
    replace (Z.to_nat (8 * Z.of_nat n)) with (8 * n)%nat by lia; rewrite Tb; do 2 f_equal; lia.
Qed.

Lemma copy_in_drop buf at_ src :
  0 <= at_ -> at_ + Z.of_nat (length src) <= Z.of_nat (length buf) ->
  exists b, copy_in buf at_ src = Done b /\ length b = length buf
    /\ drop (Z.to_nat at_) b = src ++ drop (Z.to_nat at_ + length src) buf.
Proof.
  intros H1 H2. unfold copy_in.
  destruct (Z.leb_spec 0 at_), (Z.leb_spec (at_ + Z.of_nat (length src)) (Z.of_nat (length buf))); try lia.
  eexists. split; [reflexivity|]. split.
  - rewrite !length_app, length_take, length_drop. lia.
  - rewrite drop_app_length'; [done|]. rewrite length_take. lia.
Qed.

Lemma get_be_loop_spec d Y n sp buf :
  take (sp + n) d = limbs Y (sp + n) -> (8 * (sp + n) <= length buf)%nat ->
  drop (length buf - 8 * sp) buf = reverse (bytes Y (8 * sp)) ->
  exists buf', get_be_loop n d (Z.of_nat sp) buf (Z.of_nat (length buf - 8 * sp))
      = Done (Z.of_nat (sp + n), buf', Z.of_nat (length buf - 8 * (sp + n)))
    /\ length buf' = length buf
    /\ drop (length buf - 8 * (sp + n)) buf' = reverse (bytes Y (8 * (sp + n))).
Proof.
  revert sp buf. induction n as [|n IH]; intros sp buf Hd Hl Ht.
  { rewrite Nat.add_0_r in *. by exists buf. }
  cbn [get_be_loop]. rewrite (take_limbs_at d Y (sp + S n) sp) by (done || lia). cbn [mbind outcome_bind].
  rewrite copylimb_be.
  replace (Z.of_nat (length buf - 8 * sp) - GMP_LIMB_SIZE) with (Z.of_nat (length buf - 8 * S sp)) by (unfold GMP_LIMB_SIZE; lia).
  destruct (copy_in_drop buf (Z.of_nat (length buf - 8 * S sp)) (reverse (limb_bytes (limb Y sp)))) as (b & -> & Lb & Tb);
    [lia|rewrite length_reverse, limb_bytes_length; lia|]. cbn [mbind outcome_bind].
  replace (Z.of_nat sp + 1) with (Z.of_nat (S sp)) by lia.
  replace (sp + S n)%nat with (S sp + n)%nat in * by lia.
  destruct (IH (S sp) b) as (b' & E & L & T); [done|lia| |].
  { rewrite Lb. rewrite Nat2Z.id in Tb. rewrite Tb.
    replace (length buf - 8 * S sp + length (reverse (limb_bytes (limb Y sp))))%nat with (length buf - 8 * sp)%nat
      by (change (length (reverse (limb_bytes (limb Y sp)))) with 8%nat; lia).
    rewrite Ht, <- reverse_app. f_equal. replace (8 * S sp)%nat with (8 * sp + 8)%nat by lia.
    by rewrite bytes_limb_step. }
  rewrite Lb in *. exists b'. split_and!; try done.
Qed.

Lemma get_be_bytes_spec Y i n k buf :
  (k + n <= 8)%nat -> (8 * i + k + n = length buf)%nat -> drop n buf = reverse (bytes Y (8 * i + k)) ->
  get_be_bytes n (limb Y i .>> (8 * Z.of_nat k)) buf = Done (reverse (bytes Y (length buf))).
Proof.
  revert k buf. induction n as [|n IH]; intros k buf Hk Hl Ht; cbn [get_be_bytes].
  { rewrite drop_0 in Ht. rewrite Ht at 1. do 3 f_equal. lia. }
  fold (byte (limb Y i) k). rewrite byte_limb by lia.
  unfold wr. destruct (Z.leb_spec 0 (Z.of_nat n)), (Z.ltb_spec (Z.of_nat n) (Z.of_nat (length buf))); try lia.
  cbn [andb mbind outcome_bind]. rewrite Nat2Z.id, Z.shiftr_shiftr by lia.
  replace (8 * Z.of_nat k + 8) with (8 * Z.of_nat (S k)) by lia. rewrite IH.
  - by rewrite length_insert.
  - lia.
  - rewrite length_insert. lia.
  - rewrite (drop_S _ (byte Y (8 * i + k)) n) by (apply list_lookup_insert_eq; lia).
    rewrite drop_insert_lt by lia. rewrite Ht. rewrite Nat.add_succ_r, bytes_S, reverse_app. done.
Qed.

Lemma get_rawmag_be_spec buf m x :
  mpz_rep m x -> mpz_get_rawmag_be buf m = Done (reverse (bytes (Z.abs x) (length buf))).
Proof.
  intros Hr. unfold mpz_get_rawmag_be. cbv zeta. set (L := length buf). set (Y := Z.abs x).
  set (n := Nat.min (L / 8) (msize m)).
  pose proof (Nat.div_mod L 8 ltac:(lia)) as HL. pose proof (Nat.mod_upper_bound L 8 ltac:(lia)) as HL'.
  replace (Z.to_nat (Z.min (Z.of_nat L / GMP_LIMB_SIZE) (Z.abs (mp_size m)))) with n.
  2:{ unfold n, msize, GMP_LIMB_SIZE. change 8 with (Z.of_nat 8). rewrite <- Nat2Z.inj_div. lia. }
  destruct (get_be_loop_spec (mp_d m) Y n 0 buf) as (b & E & Lb & Tb).
  { cbn [Nat.add]. apply (take_limbs_le _ _ (msize m)); [apply Hr|lia]. }
  { fold L. lia. }
  { rewrite Nat.mul_0_r, Nat.sub_0_r, drop_all. done. }
  fold L in E, Tb, Lb. rewrite Nat.mul_0_r, Nat.sub_0_r in E. change (Z.of_nat 0) with 0 in E. rewrite E. clear E.
  cbn [mbind outcome_bind Nat.add] in *. unfold GMP_LIMB_SIZE.
  assert (Hz : n = msize m -> bytes Y L = bytes Y (8 * n) ++ replicate (L - 8 * n) 0).
  { intros Hn. rewrite <- (bytes_high Y (8 * n) (L - 8 * n) (8 * Z.of_nat (8 * n))); [f_equal; lia| |lia].
    rewrite Hn. by apply rep_mag_bytes. }
  rewrite !Nat2Z.id.
  destruct (Z.ltb_spec (Z.of_nat (L - 8 * n)) 8), (Z.ltb_spec (Z.of_nat n) (Z.abs (mp_size m))); cbn [andb].
  { rewrite (mpz_rep_read m x n Hr) by (unfold msize; lia). cbn [mbind outcome_bind]. fold Y.
    pose proof (get_be_bytes_spec Y n (L - 8 * n) 0 b) as Hg. rewrite Nat.add_0_r in Hg.
    change (limb Y n .>> (8 * Z.of_nat 0)) with (limb Y n .>> 0) in Hg. rewrite Z.shiftr_0_r in Hg.
    rewrite Hg; [by rewrite Lb|lia|rewrite Lb; lia|done]. }
  all: destruct (copy_in_drop b 0 (replicate (L - 8 * n) 0)) as (b' & -> & Lb' & Tb');
    [lia|rewrite length_replicate, Lb; lia|]; rewrite length_replicate, drop_0 in Tb';
    f_equal; rewrite Tb', Hz by (unfold msize in *; lia);
    change (Z.to_nat 0 + (L - 8 * n))%nat with (L - 8 * n)%nat;
    rewrite Tb, reverse_app, reverse_replicate; done.
Qed.

(** ** [mpz_set_rawmag_le] and [mpz_set_rawmag_be] *)
Lemma lor_shift8 b v : is_byte b -> b .| v .<< 8 = b + 256 * v.
Proof.
  intros Hb. replace (256 * v) with (v .<< 8) by (rewrite Z.shiftl_mul_pow2 by lia; lia).
  rewrite <- Z.add_lor_land. replace (b .& (v .<< 8)) with 0; [lia|].
  apply Z.bits_inj'. intros j Hj. rewrite Z.bits_0, Z.land_spec, Z.shiftl_spec by lia.
  destruct (Z.lt_ge_cases j 8).
  - rewrite (Z.testbit_neg_r v) by lia. by rewrite andb_false_r.
  - by rewrite (byte_testbit_high b) by (done || lia).
Qed.

Lemma bytes_limb_le_val l : Forall is_byte l -> bytes_limb l = le_val l.
Proof.
  induction 1 as [|b l Hb _ IH]; [done|]. rewrite le_val_cons, <- IH. by apply lor_shift8.
Qed.

Lemma bytes_limb_bytes v : 0 <= v < 2 ^ 64 -> bytes_limb (bytes v 8) = v.
Proof.
  intros Hv. rewrite bytes_limb_le_val, le_val_bytes by apply bytes_Forall. by apply Z.mod_small.
Qed.

Lemma copylimb_to_spec SW buf bp v :
  0 <= v < 2 ^ 64 ->
  (forall k, (k < 8)%nat -> rd buf (bp + SW (Z.of_nat k)) = Done (byte v k)) ->
  copylimb_to SW buf bp = Done v.
Proof.
  intros Hv H. unfold copylimb_to. change (seqZ 0 8) with (Z.of_nat <$> seq 0 8).
  assert (E : mapM (fun n => rd buf (bp + SW n)) (Z.of_nat <$> seq 0 8) = Done (bytes v 8)).
  { unfold bytes. assert (Hs : Forall (fun k => (k < 8)%nat) (seq 0 8)) by (apply Forall_forall; intros k Hk; apply elem_of_seq in Hk; lia).
    induction Hs as [|k l Hk _ IH]; [done|]. cbn [fmap list_fmap mapM]. rewrite H by done.
    cbn [mbind outcome_bind]. cbn [fmap list_fmap] in IH. by rewrite IH. }
  rewrite E. cbn [mbind outcome_bind]. by rewrite bytes_limb_bytes.
Qed.

Lemma feed_byte q : 0 <= q < 2 ^ 64 -> u64 ((q .>> 8) .<< 8) .| u8 q = q.
Proof.
  intros Hq. rewrite u64_small.
  - rewrite Z.lor_comm, lor_shift8 by apply u8_byte. rewrite u8_mod, Z.shiftr_div_pow2 by lia.
    change (2 ^ 8) with 256. pose proof (Z.div_mod q 256). lia.
  - rewrite Z.shiftl_mul_pow2, Z.shiftr_div_pow2 by lia. change (2 ^ 8) with 256.
    pose proof (Z.div_mod q 256 ltac:(lia)). pose proof (Z.mod_pos_bound q 256 ltac:(lia)). lia.
Qed.

Lemma shift_bound X a len : 0 <= X < 2 ^ (8 * Z.of_nat len) -> (len <= a + 8)%nat -> 0 <= X .>> (8 * Z.of_nat a) < 2 ^ 64.
Proof.
  intros HX Ha. rewrite Z.shiftr_div_pow2 by lia. split; [apply Z.div_pos; lia|].
  apply Z.div_lt_upper_bound; [lia|]. rewrite <- Z.pow_add_r by lia.
  apply Z.lt_le_trans with (2 ^ (8 * Z.of_nat len)); [lia|]. apply Z.pow_le_mono_r; lia.
Qed.

(** One more byte below those that have been read. *)
Lemma feed_byte_at X a len :
  0 <= X < 2 ^ (8 * Z.of_nat len) -> (len <= a + 8)%nat ->
  u64 ((X .>> (8 * Z.of_nat (S a))) .<< 8) .| byte X a = X .>> (8 * Z.of_nat a).
Proof.
  intros HX Ha. pose proof (shift_bound X a len HX Ha) as Hq. rewrite <- (feed_byte _ Hq).
  unfold byte. rewrite Z.shiftr_shiftr by lia. do 4 f_equal. lia.
Qed.

Lemma top_byte X len a :
  0 <= X < 2 ^ (8 * Z.of_nat len) -> (a = len - 1)%nat -> (0 < len)%nat -> X .>> (8 * Z.of_nat a) = byte X (len - 1).
Proof.
  intros HX -> Hl. unfold byte. symmetry. apply u8_small. unfold is_byte.
  rewrite Z.shiftr_div_pow2 by lia. split; [apply Z.div_pos; lia|].
  apply Z.div_lt_upper_bound; [lia|]. change 256 with (2 ^ 8). rewrite <- Z.pow_add_r by lia.
  replace (8 * Z.of_nat (len - 1) + 8) with (8 * Z.of_nat len) by lia. lia.
Qed.

Section value.
Context (buf : list Z) (X : Z).
Let len := length buf.
Context (HX : 0 <= X < 2 ^ (8 * Z.of_nat len)).

Lemma set_le_bytes_spec a n :
  (forall i, (i < len)%nat -> rd buf (Z.of_nat i) = Done (byte X i)) ->
  (a + n <= len)%nat -> (len <= a + 8)%nat ->
  set_le_bytes n buf (Z.of_nat a) (X .>> (8 * Z.of_nat (a + n))) = Done (X .>> (8 * Z.of_nat a)).
Proof using HX.
  intros Hrd. induction n as [|n IH]; intros Hn Ha; cbn [set_le_bytes]; [by rewrite Nat.add_0_r|].
  rewrite <- Nat2Z.inj_add, Hrd by lia. cbn [mbind outcome_bind]. rewrite Nat.add_succ_r.
  rewrite (feed_byte_at X (a + n) len) by (done || lia). apply IH; lia.
Qed.

Lemma set_be_bytes_spec n a :
  (forall i, (i < len)%nat -> rd buf (Z.of_nat i) = Done (byte X (len - 1 - i))) ->
  (n <= a)%nat -> (a <= len)%nat -> (len <= a - n + 8)%nat ->
  set_be_bytes n buf (Z.of_nat (len - a)) (X .>> (8 * Z.of_nat a)) = Done (X .>> (8 * Z.of_nat (a - n))).
Proof using HX.
  intros Hrd. revert a. induction n as [|n IH]; intros a Hn Ha Hl; cbn [set_be_bytes]; [by rewrite Nat.sub_0_r|].
  rewrite Hrd by lia. cbn [mbind outcome_bind]. destruct a as [|a]; [lia|].
  replace (len - 1 - (len - S a))%nat with a by lia. rewrite (feed_byte_at X a len) by (done || lia).
  replace (Z.of_nat (len - S a) + 1) with (Z.of_nat (len - a)) by lia. rewrite IH by lia. done.
Qed.

End value.

Section gmp.
Context `{HG : !Gmp} `{HGok : !GmpOK}.

(** The part after the loop: the limb that is not full, and the size. *)
Lemma set_finish (d : list Z) (X : Z) (len n : nat) (last : outcome Z) (c : bool) :
  0 <= X < 2 ^ (8 * Z.of_nat len) -> (8 * n <= len < 8 * n + 8)%nat ->
  (n < length d)%nat -> take n d = limbs X n ->
  (c = true -> last = Done (limb X n)) -> (c = false -> len = 8 * n)%nat ->
  exists m, (x ← (if c then v ← last; d ← wr d (Z.of_nat n) v; Done (Z.of_nat n + 1, d) else Done (Z.of_nat n, d));
      let '(sp, d) := x : Z * list Z in
      n ← trim (Z.to_nat sp) d;
      Done (mkmpz (Z.of_nat n) d)) = Done m /\ mpz_rep m X.
Proof using.
  intros HX Hn Hl Ht Hc1 Hc2. destruct c.
  - rewrite Hc1 by done. cbn [mbind outcome_bind]. destruct (wr_prefix d X n Ht Hl) as (d1 & -> & L1 & T1 & _).
    cbn [mbind outcome_bind]. replace (Z.to_nat (Z.of_nat n + 1)) with (S n) by lia.
    destruct (trim_spec _ _ _ T1) as (k & -> & Hk). cbn [mbind outcome_bind]. eexists. split; [reflexivity|].
    apply (rep_nonneg d1 X (S n)); [done|lia| |done]. split; [lia|].
    apply Z.lt_le_trans with (2 ^ (8 * Z.of_nat len)); [lia|]. unfold lpow. apply Z.pow_le_mono_r; lia.
  - cbn [mbind outcome_bind]. rewrite Nat2Z.id. destruct (trim_spec _ _ _ Ht) as (k & -> & Hk).
    cbn [mbind outcome_bind]. eexists. split; [reflexivity|].
    apply (rep_nonneg d X n); [done|lia| |done]. rewrite (Hc2 eq_refl) in HX. unfold lpow.
    by replace (64 * Z.of_nat n) with (8 * Z.of_nat (8 * n)) by lia.
Qed.

Lemma limb_shift_top X n len :
  0 <= X < 2 ^ (8 * Z.of_nat len) -> (len <= 8 * n + 8)%nat -> X .>> (8 * Z.of_nat (8 * n)) = limb X n.
Proof using.
  intros HX Hl. pose proof (shift_bound X (8 * n) len HX Hl). unfold limb.
  replace (64 * Z.of_nat n) with (8 * Z.of_nat (8 * n)) by lia. by rewrite u64_small.
Qed.

Lemma set_rawmag_le_spec m buf :
  Forall is_byte buf -> exists m', mpz_set_rawmag_le m buf = Done m' /\ mpz_rep m' (le_val buf).
Proof using HGok.
  intros Hb. unfold mpz_set_rawmag_le. cbv zeta. unfold GMP_LIMB_SIZE. set (len := length buf). set (X := le_val buf).
  pose proof (le_val_bound buf Hb) as HX. fold len X in HX.
  assert (Hrd : forall i, (i < len)%nat -> rd buf (Z.of_nat i) = Done (byte X i)).
  { intros i Hi. unfold rd. destruct (Z.leb_spec 0 (Z.of_nat i)); [|lia]. rewrite Nat2Z.id.
    rewrite <- (bytes_le_val buf Hb). fold len X. by rewrite bytes_lookup. }
  set (n := (len / 8)%nat). pose proof (Nat.div_mod len 8 ltac:(lia)) as Hd.
  pose proof (Nat.mod_upper_bound len 8 ltac:(lia)) as Hm. fold n in Hd.
  replace (Z.of_nat len / 8) with (Z.of_nat n) by (unfold n; by rewrite Nat2Z.inj_div).
  replace ((Z.of_nat len + 8) / 8) with (Z.of_nat (S n)).
  2:{ apply Z.div_unique with (Z.of_nat (len mod 8)); lia. }
  destruct (grow_spec (mkmpz (Z.of_nat (S n)) (mp_d m)) (Z.of_nat (S n))) as (dg & -> & Hg & _). cbn [mp_d].
  rewrite Nat2Z.id. run_loop n (fun j bp => bp = 8 * Z.of_nat j) X 0%nat dg
    as (d1 & bp & -> & L1 & T1 & _ & ->); [lia|done|done| |].
  { intros j d' bp Hj _ _ ->. rewrite (copylimb_to_spec _ _ _ (limb X j)).
    - cbn [mbind outcome_bind]. eexists. split; [reflexivity|]. lia.
    - apply limb_range.
    - intros k Hk. unfold LE_POS. rewrite byte_limb by done.
      replace (8 * Z.of_nat j + Z.of_nat k) with (Z.of_nat (8 * j + k)) by lia. apply Hrd. lia. }
  cbn [mbind outcome_bind Nat.add].
  destruct (Z.ltb_spec (8 * Z.of_nat n) (Z.of_nat len)) as [Hlt|Hge].
  - replace (Z.of_nat len - 1) with (Z.of_nat (len - 1)) by lia. rewrite Hrd by lia. cbn [mbind outcome_bind].
    replace (byte X (len - 1)) with (X .>> (8 * Z.of_nat (8 * n + (len - 1 - 8 * n))))
      by (apply top_byte; done || lia).
    replace (8 * Z.of_nat n) with (Z.of_nat (8 * n)) by lia.
    replace (Z.to_nat (Z.of_nat (len - 1) - Z.of_nat (8 * n))) with (len - 1 - 8 * n)%nat by lia.
    rewrite set_le_bytes_spec, (limb_shift_top X n len) by (done || lia).
    apply (set_finish d1 X len n (Done (limb X n)) true); done || lia.
  - apply (set_finish d1 X len n Wild false); done || lia.
Qed.

Lemma set_rawmag_be_spec m buf :
  Forall is_byte buf -> exists m', mpz_set_rawmag_be m buf = Done m' /\ mpz_rep m' (le_val (reverse buf)).
Proof using HGok.
  intros Hb. unfold mpz_set_rawmag_be. cbv zeta. unfold GMP_LIMB_SIZE. set (len := length buf).
  set (X := le_val (reverse buf)). assert (Hb' : Forall is_byte (reverse buf)) by (by apply Forall_reverse).
  pose proof (le_val_bound _ Hb') as HX. rewrite length_reverse in HX. fold len X in HX.
  assert (Hrd : forall i, (i < len)%nat -> rd buf (Z.of_nat i) = Done (byte X (len - 1 - i))).
  { intros i Hi. unfold rd. destruct (Z.leb_spec 0 (Z.of_nat i)); [|lia]. rewrite Nat2Z.id.
    rewrite <- (reverse_involutive buf) at 1. pose proof (bytes_le_val _ Hb') as E. rewrite length_reverse in E.
    fold len X in E. rewrite <- E. rewrite reverse_lookup by (rewrite bytes_length; lia). rewrite bytes_length.
    rewrite bytes_lookup by lia. do 2 f_equal. lia. }
  set (n := (len / 8)%nat). pose proof (Nat.div_mod len 8 ltac:(lia)) as Hd.
  pose proof (Nat.mod_upper_bound len 8 ltac:(lia)) as Hm. fold n in Hd.
  replace (Z.of_nat len / 8) with (Z.of_nat n) by (unfold n; by rewrite Nat2Z.inj_div).
  replace ((Z.of_nat len + 8) / 8) with (Z.of_nat (S n)).
  2:{ apply Z.div_unique with (Z.of_nat (len mod 8)); lia. }
  destruct (grow_spec (mkmpz (Z.of_nat (S n)) (mp_d m)) (Z.of_nat (S n))) as (dg & -> & Hg & _). cbn [mp_d].
  rewrite Nat2Z.id. run_loop n (fun j bp => bp = Z.of_nat len - 8 * Z.of_nat j) X 0%nat dg
    as (d1 & bp & -> & L1 & T1 & _ & ->); [lia|done|lia| |].
  { intros j d' bp Hj _ _ ->. rewrite (copylimb_to_spec _ _ _ (limb X j)).
    - cbn [mbind outcome_bind]. eexists. split; [reflexivity|]. lia.
    - apply limb_range.
    - intros k Hk. rewrite byte_limb by done.
      assert (Epos : BE_POS (Z.of_nat k) = 7 - Z.of_nat k) by (do 8 (destruct k as [|k]; [done|]); lia).
      rewrite Epos. replace (Z.of_nat len - 8 * Z.of_nat j - 8 + (7 - Z.of_nat k)) with (Z.of_nat (len - 1 - (8 * j + k))) by lia.
      rewrite Hrd by lia. do 2 f_equal. lia. }
  cbn [mbind outcome_bind Nat.add].
  destruct (Z.ltb_spec 0 (Z.of_nat len - 8 * Z.of_nat n)) as [Hlt|Hge].
  - change 0 with (Z.of_nat 0) at 1. rewrite Hrd by lia. cbn [mbind outcome_bind].
    replace (byte X (len - 1 - 0)) with (X .>> (8 * Z.of_nat (len - 1)))
      by (rewrite Nat.sub_0_r; apply top_byte; done || lia).
    pose proof (set_be_bytes_spec buf X HX (Z.to_nat (Z.of_nat len - 8 * Z.of_nat n - 1)) (len - 1) Hrd) as E.
    fold len in E. replace (Z.of_nat (len - (len - 1))) with 1 in E by lia. rewrite E by lia. clear E.
    replace (len - 1 - Z.to_nat (Z.of_nat len - 8 * Z.of_nat n - 1))%nat with (8 * n)%nat by lia.
    rewrite (limb_shift_top X n len) by (done || lia).
    apply (set_finish d1 X len n (Done (limb X n)) true); done || lia.
  - apply (set_finish d1 X len n Wild false); done || lia.
Qed.

(** ** Two's complement *)
(** The value of a string, most significant byte first, with a sign. *)
Definition be_signed (buf : list Z) : Z :=
  let v := le_val (reverse buf) in
  if v <? 2 ^ (8 * Z.of_nat (length buf) - 1) then v else v - 2 ^ (8 * Z.of_nat (length buf)).

Lemma byte_mod x n i : (i < n)%nat -> byte (x mod 2 ^ (8 * Z.of_nat n)) i = byte x i.
Proof using.
  intros Hi. apply Z.bits_inj'. intros j Hj. rewrite !byte_bit by lia. destruct (Z.ltb_spec j 8); [|done].
  cbn [andb]. apply Z.mod_pow2_bits_low. lia.
Qed.

Lemma get_raw_spec buf m x :
  mpz_rep m x -> Z.of_nat (length buf) < 2 ^ 60 -> mpz_get_raw buf m = Done (reverse (bytes x (length buf))).
Proof using HGok.
  intros Hr Hl. unfold mpz_get_raw. pose proof (mr_sign _ _ Hr). destruct (Z.ltb_spec (mp_size m) 0).
  - rewrite u64_small by lia. replace (Z.of_nat (length buf) * 8) with (8 * Z.of_nat (length buf)) by lia.
    destruct (umod_2exp_spec (mkmpz 0 []) (Own m) x (8 * Z.of_nat (length buf)) Hr) as (neg & -> & Hn); [lia|].
    cbn [mbind outcome_bind]. rewrite (get_rawmag_be_spec _ _ _ Hn). do 2 f_equal. apply bytes_ext.
    intros i Hi. rewrite Z.abs_eq by (apply Z.mod_pos_bound; lia). by apply byte_mod.
  - rewrite (get_rawmag_be_spec _ _ _ Hr), Z.abs_eq by lia. done.
Qed.

(** The first byte has the sign. *)
Lemma sign_bit X n :
  0 <= X < 2 ^ (8 * Z.of_nat n) -> (0 < n)%nat ->
  (byte X (n - 1) .& 0x80 =? 0) = (X <? 2 ^ (8 * Z.of_nat n - 1)).
Proof using.
  intros HX Hn. assert (Ht : Z.testbit (byte X (n - 1)) 7 = negb (X <? 2 ^ (8 * Z.of_nat n - 1))).
  { rewrite byte_bit by lia. cbn [Z.ltb Z.compare andb]. change (7 <? 8) with true. cbn [andb].
    replace (8 * Z.of_nat (n - 1) + 7) with (8 * Z.of_nat n - 1) by lia.
    destruct (Z.ltb_spec X (2 ^ (8 * Z.of_nat n - 1))).
    - by rewrite (testbit_high X (8 * Z.of_nat n - 1)) by lia.
    - apply Z.testbit_true; [lia|]. replace (X / 2 ^ (8 * Z.of_nat n - 1)) with 1; [done|].
      apply Z.div_unique with (X - 2 ^ (8 * Z.of_nat n - 1)); [|lia]. left.
      replace (8 * Z.of_nat n) with (1 + (8 * Z.of_nat n - 1)) in HX at 1 by lia.
      rewrite Z.pow_add_r in HX by lia. lia. }
  replace (byte X (n - 1) .& 0x80) with (if Z.testbit (byte X (n - 1)) 7 then 0x80 else 0).
  - rewrite Ht. by destruct (X <? _).
  - apply Z.bits_inj'. intros j Hj. rewrite Z.land_spec. change 0x80 with (2 ^ 7).
    destruct (Z.eq_dec j 7) as [->|Hne].
    + rewrite Z.pow2_bits_true by lia. rewrite andb_true_r. by destruct (Z.testbit _ 7).
    + rewrite (Z.pow2_bits_false 7 j) by lia. rewrite andb_false_r. destruct (Z.testbit _ 7); [|by rewrite Z.bits_0].
      apply Z.pow2_bits_false. lia.
Qed.

Lemma rep_flip m x : mpz_rep m x -> x <> 0 -> mpz_rep (mkmpz (- mp_size m) (mp_d m)) (- x).
Proof using.
  intros [A L B T S] Hx. assert (E : msize (mkmpz (- mp_size m) (mp_d m)) = msize m) by (unfold msize; cbn; lia).
  split; rewrite ?E, ?Z.abs_opp; cbn [mp_size mp_d]; auto. split; intros; [lia|].
  destruct (Z.lt_trichotomy (mp_size m) 0) as [|[H0|]]; [lia| |lia].
  assert (msize m = 0%nat) as Em by (unfold msize; lia). rewrite Em in B. change (lpow 0) with 1 in B. lia.
Qed.

Lemma set_raw_spec m buf :
  Forall is_byte buf -> buf <> [] -> Z.of_nat (length buf) < 2 ^ 60 ->
  exists m', mpz_set_raw m buf = Done m' /\ mpz_rep m' (be_signed buf).
Proof using HGok.
  intros Hb Hne Hl. unfold mpz_set_raw, be_signed. destruct (set_rawmag_be_spec m buf Hb) as (m1 & -> & R1).
  cbn [mbind outcome_bind]. assert (Hb' : Forall is_byte (reverse buf)) by (by apply Forall_reverse).
  pose proof (le_val_bound _ Hb') as HX. pose proof (bytes_le_val _ Hb') as Ebuf. rewrite length_reverse in *.
  set (X := le_val (reverse buf)) in *. set (n := length buf) in *.
  assert (Hn : (0 < n)%nat) by (unfold n; destruct buf; [done|cbn; lia]).
  assert (Hrd : rd buf 0 = Done (byte X (n - 1))).
  { unfold rd. change (0 <=? 0) with true. cbn iota. change (Z.to_nat 0) with 0%nat.
    rewrite <- (reverse_involutive buf), <- Ebuf, reverse_lookup by (rewrite bytes_length; lia).
    rewrite bytes_length, bytes_lookup by lia. by replace (n - 1)%nat with (n - S 0)%nat by lia. }
  rewrite Hrd. cbn [mbind outcome_bind]. rewrite (sign_bit X n HX Hn).
  destruct (Z.ltb_spec X (2 ^ (8 * Z.of_nat n - 1))) as [Hlt|Hge]; [by exists m1|].
  assert (0 < 2 ^ (8 * Z.of_nat n - 1)) by (apply Z.pow_pos_nonneg; lia).
  apply rep_flip in R1; [|lia]. rewrite u64_small by lia.
  destruct (umod_2exp_spec (mkmpz (- mp_size m1) (mp_d m1)) Same (- X) (8 * Z.of_nat n) R1) as (m2 & -> & R2); [lia|].
  cbn [mbind outcome_bind]. eexists. split; [reflexivity|].
  assert (Em : (- X) mod 2 ^ (8 * Z.of_nat n) = 2 ^ (8 * Z.of_nat n) - X).
  { symmetry. apply Z.mod_unique with (-1); lia. }
  rewrite Em in R2. apply rep_flip in R2; [|lia].
  by replace (- (2 ^ (8 * Z.of_nat n) - X)) with (X - 2 ^ (8 * Z.of_nat n)) in R2 by lia.
Qed.

Lemma be_signed_bytes x n :
  (0 < n)%nat -> - 2 ^ (8 * Z.of_nat n - 1) <= x < 2 ^ (8 * Z.of_nat n - 1) ->
  be_signed (reverse (bytes x n)) = x.
Proof using.
  intros Hn Hx. unfold be_signed. rewrite reverse_involutive, le_val_bytes, length_reverse, bytes_length.
  set (M := 2 ^ (8 * Z.of_nat n - 1)) in *.
  assert (E : 2 ^ (8 * Z.of_nat n) = 2 * M).
  { unfold M. rewrite <- Z.pow_succ_r by lia. f_equal. lia. }
  rewrite E. destruct (Z.lt_ge_cases x 0).
  - replace (x mod (2 * M)) with (x + 2 * M) by (apply Z.mod_unique with (-1); lia).
    destruct (Z.ltb_spec (x + 2 * M) M); lia.
  - rewrite Z.mod_small by lia. destruct (Z.ltb_spec x M); lia.
Qed.

Lemma rawsize_spec m x :
  mpz_rep m x -> mpz_rawsize m = Done (if x =? 0 then 0 else (Z.log2 (Z.abs x) + 1) / 8 + 1).
Proof using.
  intros Hr. unfold mpz_rawsize. rewrite (sizeinbase2_spec m x Hr). cbn [mbind outcome_bind].
  destruct (Z.eqb_spec x 0); [done|]. pose proof (Z.log2_nonneg (Z.abs x)).
  destruct (Z.eqb_spec (Z.log2 (Z.abs x) + 1) 0); [lia|]. by rewrite Z.shiftr_div_pow2 by lia.
Qed.

(** [mpz_rawsize] bytes are enough for the value and its sign. *)
Lemma rawsize_enough m x n :
  mpz_rep m x -> x <> 0 -> mpz_rawsize m = Done n ->
  0 < n /\ - 2 ^ (8 * n - 1) <= x < 2 ^ (8 * n - 1).
Proof using.
  intros Hr Hx. rewrite (rawsize_spec m x Hr). destruct (Z.eqb_spec x 0); [done|]. intros [= <-].
  set (L := Z.log2 (Z.abs x)). pose proof (Z.log2_nonneg (Z.abs x)) as HL.
  pose proof (Z.log2_spec (Z.abs x) ltac:(lia)) as [_ Hs]. fold L in HL, Hs.
  pose proof (Z.div_mod (L + 1) 8 ltac:(lia)). pose proof (Z.mod_pos_bound (L + 1) 8 ltac:(lia)).
  pose proof (Z.pow_le_mono_r 2 (Z.succ L) (8 * ((L + 1) / 8 + 1) - 1) ltac:(lia) ltac:(lia)).
  split; [|lia]. pose proof (Z.div_pos (L + 1) 8). lia.
Qed.

End gmp.

(** * Theorems on big integers

    With them comes a concrete version of the functions of GMP that the code
    calls, which shows that the assumptions on them can be met. *)
(** ** A model of GMP *)
Definition limbs_val (l : list Z) : Z := foldr (fun v acc => v + 2 ^ 64 * acc) 0 l.
Definition mpz_val (m : mpz) : Z :=
  let v := limbs_val (take (msize m) (mp_d m)) in if mp_size m <? 0 then - v else v.
Definition nlimbs (x : Z) : nat := if x =? 0 then O else S (Z.to_nat (Z.log2 (Z.abs x) / 64)).
Definition mpz_of_Z (x : Z) : mpz :=
  mkmpz (if x <? 0 then - Z.of_nat (nlimbs x) else Z.of_nat (nlimbs x)) (limbs (Z.abs x) (nlimbs x)).

Definition gmp_model : Gmp := {|
  mpz_realloc m n := mkmpz (mp_size m) (mp_d m ++ replicate (Z.to_nat n - length (mp_d m)) 7);
  mpz_tdiv_r_2exp _ a b := mpz_of_Z (Z.rem (mpz_val a) (2 ^ b))
|}.

Lemma limbs_val_mod x n : limbs_val (limbs x n) = x mod lpow n.
Proof.
  assert (H : forall l v, limbs_val (l ++ [v]) = limbs_val l + lpow (length l) * v).
  { induction l as [|w l IH]; intros v; [cbn; change (lpow 0) with 1; lia|].
    cbn [app limbs_val foldr length]. fold (limbs_val l) (limbs_val (l ++ [v])). rewrite IH, lpow_S.
    unfold limbs_val. lia. }
  induction n as [|n IH]; [by rewrite Z.mod_1_r|].
  rewrite limbs_S, H, IH, limbs_length, mod_lpow_S. done.
Qed.

Lemma mpz_val_rep m x : mpz_rep m x -> mpz_val m = x.
Proof.
  intros [A L B T S]. unfold mpz_val. rewrite L, limbs_val_mod, Z.mod_small by lia.
  destruct (Z.ltb_spec (mp_size m) 0); lia.
Qed.

Lemma mpz_of_Z_rep x : mpz_rep (mpz_of_Z x) x.
Proof.
  assert (Em : msize (mpz_of_Z x) = nlimbs x) by (unfold msize, mpz_of_Z; cbn; destruct (x <? 0); lia).
  split; rewrite ?Em; unfold mpz_of_Z; cbn [mp_d mp_size].
  - by rewrite limbs_length.
  - by rewrite limbs_take.
  - unfold nlimbs. destruct (Z.eqb_spec x 0) as [->|Hx]; [done|]. unfold lpow.
    pose proof (Z.log2_spec (Z.abs x) ltac:(lia)) as [_ Hs]. pose proof (Z.log2_nonneg (Z.abs x)).
    pose proof (Z.div_mod (Z.log2 (Z.abs x)) 64 ltac:(lia)). pose proof (Z.mod_pos_bound (Z.log2 (Z.abs x)) 64 ltac:(lia)).
    eapply Z.lt_le_trans; [exact Hs|]. apply Z.pow_le_mono_r; lia.
  - unfold nlimbs. destruct (Z.eqb_spec x 0) as [->|Hx]; [lia|]. intros _.
    set (L := Z.log2 (Z.abs x)). pose proof (Z.log2_nonneg (Z.abs x)) as HL. fold L in HL.
    pose proof (Z.div_mod L 64 ltac:(lia)). pose proof (Z.mod_pos_bound L 64 ltac:(lia)).
    pose proof (Z.div_pos L 64 HL ltac:(lia)). rewrite Nat.sub_1_r. cbn [Nat.pred]. intros HZ0.
    apply (f_equal (fun v => Z.testbit v (L mod 64))) in HZ0. rewrite limb_bit, Z.bits_0 in HZ0 by lia.
    destruct (Z.ltb_spec (L mod 64) 64); [|lia]. cbn [andb] in HZ0. rewrite Z2Nat.id in HZ0 by lia.
    replace (64 * (L / 64) + L mod 64) with L in HZ0 by lia. unfold L in HZ0. rewrite Z.bit_log2 in HZ0; [done|lia].
  - unfold nlimbs. destruct (Z.ltb_spec x 0), (Z.eqb_spec x 0); lia.
Qed.

#[export] Instance gmp_model_ok : @GmpOK gmp_model.
Proof.
  split.
  - intros m n Hn. cbn. rewrite length_app, length_replicate, take_app_length. split_and!; lia || done.
  - intros r a b x Ha Hb. cbn. rewrite (mpz_val_rep a x Ha). apply mpz_of_Z_rep.
Qed.

(** ** Theorems *)
Section gmp.
Context `{HG : !Gmp} `{HGok : !GmpOK}.

(** [mpz_xor] computes the exclusive or of integers of any signs, as if
    they were two's complement numbers of infinite length, also when the
    result is one of the operands or both are the same. *)
Theorem mpz_xor_correct r a b x y :
  mpz_rep (deref r a) x -> mpz_rep (deref r b) y ->
  exists r', mpz_xor r a b = Done r' /\ mpz_rep r' (Z.lxor x y).
Proof using HGok. apply mpz_xor_spec. Qed.

(** [mpz_umod_2exp] gives the remainder that is not negative, of
    integers of any sign and also in place; [mpz_getbit] gives the bits of the
    two's complement form and [mpz_sizeinbase2] the number of bits of the
    magnitude. *)
Theorem mpz_bits_correct r o x b :
  mpz_rep (deref r o) x -> 0 <= b ->
  (exists r', mpz_umod_2exp r o b = Done r' /\ mpz_rep r' (x mod 2 ^ b))
  /\ mpz_getbit (deref r o) b = Done (Z.b2z (Z.testbit x b))
  /\ mpz_sizeinbase2 (deref r o) = Done (if x =? 0 then 0 else Z.log2 (Z.abs x) + 1).
Proof using HGok.
  intros Hr Hb. split_and!; [by apply umod_2exp_spec|by apply getbit_spec|by apply sizeinbase2_spec].
Qed.

(** [mpz_get_raw] writes the two's complement form of [x] in as many
    bytes as it is given, most significant byte first, and if the bytes are
    enough, which [mpz_rawsize] of them are, [mpz_set_raw] reads [x] back. *)
Theorem mpz_raw_roundtrip m m0 x buf size :
  mpz_rep m x -> mpz_rawsize m = Done size -> x <> 0 ->
  size <= Z.of_nat (length buf) < 2 ^ 60 ->
  exists raw m', mpz_get_raw buf m = Done raw /\ length raw = length buf
    /\ mpz_set_raw m0 raw = Done m' /\ mpz_rep m' x.
Proof using HGok.
  intros Hr Hs Hx Hl. destruct (rawsize_enough m x size Hr Hx Hs) as [Hp Hb].
  exists (reverse (bytes x (length buf))). rewrite (get_raw_spec buf m x Hr) by lia.
  assert (Hlen : length (reverse (bytes x (length buf))) = length buf) by (by rewrite length_reverse, bytes_length).
  destruct (set_raw_spec m0 (reverse (bytes x (length buf)))) as (m' & E & R).
  - apply Forall_reverse, bytes_Forall.
  - intros H0. rewrite H0 in Hlen. cbn in Hlen. lia.
  - rewrite Hlen. lia.
  - exists m'. split_and!; try done. rewrite be_signed_bytes in R; [done|lia|].
    pose proof (Z.pow_le_mono_r 2 (8 * size - 1) (8 * Z.of_nat (length buf) - 1) ltac:(lia) ltac:(lia)). lia.
Qed.

(** the magnitude conversions with the least significant byte first are
    inverse to each other on strings of any length: reading a string and
    writing as many bytes gives the string back, and a number that fits is
    read back. *)
Theorem mpz_rawmag_roundtrip m0 buf buf' m x :
  Forall is_byte buf -> length buf' = length buf ->
  mpz_rep m x -> 0 <= x < 2 ^ (8 * Z.of_nat (length buf)) ->
  (exists m', mpz_set_rawmag_le m0 buf = Done m' /\ mpz_get_rawmag_le buf' m' = Done buf)
  /\ exists raw m', mpz_get_rawmag_le buf m = Done raw /\ mpz_set_rawmag_le m0 raw = Done m' /\ mpz_rep m' x.
Proof using HGok.
  intros Hb Hl Hr Hx. split.
  - destruct (set_rawmag_le_spec m0 buf Hb) as (m' & E & R). exists m'. split; [done|].
    rewrite (get_rawmag_le_spec buf' m' _ R), Hl, Z.abs_eq by (apply le_val_bound; done). by rewrite bytes_le_val.
  - rewrite (get_rawmag_le_spec buf m x Hr), Z.abs_eq by lia.
    destruct (set_rawmag_le_spec m0 (bytes x (length buf)) (bytes_Forall _ _)) as (m' & E & R).
    do 2 eexists. split_and!; [reflexivity|exact E|]. by rewrite le_val_bytes, Z.mod_small in R.
Qed.

End gmp.

(** ** Witnesses *)
Lemma mpz_xor_correct_witness :
  exists r', @mpz_xor gmp_model (mpz_of_Z (- 2 ^ 64)) Same (Own (mpz_of_Z 5)) = Done r'
    /\ mpz_rep r' (Z.lxor (- 2 ^ 64) 5).
Proof.
  apply (@mpz_xor_correct gmp_model gmp_model_ok (mpz_of_Z (- 2 ^ 64)) Same (Own (mpz_of_Z 5)));
    apply mpz_of_Z_rep.
Defined.

Lemma mpz_bits_correct_witness :
  (exists r', @mpz_umod_2exp gmp_model (mpz_of_Z (-3)) Same 70 = Done r' /\ mpz_rep r' ((-3) mod 2 ^ 70))
  /\ mpz_getbit (mpz_of_Z (-3)) 70 = Done 1 /\ mpz_sizeinbase2 (mpz_of_Z (-3)) = Done 2.
Proof.
  apply (@mpz_bits_correct gmp_model gmp_model_ok (mpz_of_Z (-3)) Same (-3) 70); [apply mpz_of_Z_rep|lia].
Defined.

Lemma mpz_raw_roundtrip_witness :
  exists raw m', @mpz_get_raw gmp_model (replicate 4 0) (mpz_of_Z (-1000)) = Done raw /\ length raw = 4%nat
    /\ @mpz_set_raw gmp_model (mpz_of_Z 0) raw = Done m' /\ mpz_rep m' (-1000).
Proof.
  apply (@mpz_raw_roundtrip gmp_model gmp_model_ok (mpz_of_Z (-1000)) (mpz_of_Z 0) (-1000) (replicate 4 0) 2);
    [apply mpz_of_Z_rep|reflexivity|lia|cbn; lia].
Defined.

Lemma mpz_rawmag_roundtrip_witness :
  (exists m', @mpz_set_rawmag_le gmp_model (mpz_of_Z 0) [1; 2; 3] = Done m'
     /\ mpz_get_rawmag_le [9; 9; 9] m' = Done [1; 2; 3])
  /\ exists raw m', mpz_get_rawmag_le [1; 2; 3] (mpz_of_Z 77) = Done raw
     /\ @mpz_set_rawmag_le gmp_model (mpz_of_Z 0) raw = Done m' /\ mpz_rep m' 77.
Proof.
  apply (@mpz_rawmag_roundtrip gmp_model gmp_model_ok (mpz_of_Z 0) [1; 2; 3] [9; 9; 9] (mpz_of_Z 77) 77).
  - repeat constructor; unfold is_byte; lia.
  - reflexivity.
  - apply mpz_of_Z_rep.
  - cbn. lia.
Defined.

(** [mpz_set_raw] looks at the first byte of the string even if the
    string is empty, as the encoding of zero is. *)
Theorem mpz_set_raw_empty :
  mpz_rawsize (mpz_of_Z 0) = Done 0 /\ @mpz_set_raw gmp_model (mpz_of_Z 0) [] = Wild.
Proof. split; reflexivity. Qed.
