(* ===== verification/Pad.v ===== *)
(** * Padding for encryption and signatures: [crypt/pad.C]

    [pre_encrypt] and [post_decrypt] are the padding of public-key
    encryption, [pre_sign] and [post_verify] that of signatures, the versions
    with [_r] that of signatures from which the message is recovered. *)
From Stdlib Require Import ZArith Lia Btauto.
From stdpp Require Import prelude.
From S2P Require Import Prelude Armor Serial Mdblock Sha1 Sha1oracle Bits Mpz MpzSpec MpzOps MpzRaw.

Definition enc_zbytes : Z := 16.
Definition enc_minpad : Z := 16.
Definition enc_gidx : Z := 1.
Definition enc_hidx : Z := 2.
Definition sig_rndbytes : Z := 16.
Definition sig_minpad : Z := 16.
Definition sig_gidx : Z := 3.
Definition sigr_gidx : Z := 4.

(** [for (i = 0; i < len; i++) p[i] ^= q[i]] for the bytes of [q]. *)
Fixpoint xor_into (p q : list Z) : outcome (list Z) :=
  match q, p with
  | [], _ => Done p
  | b :: q, a :: p => r ← xor_into p q; Done (u8 (a .^ b) :: r)
  | _ :: _, [] => Wild
  end.

(** [p[size-1] &= mask] *)
Definition mask_last (p : list Z) (mask : Z) : outcome (list Z) :=
  c ← rd p (Z.of_nat (length p) - 1);
  wr p (Z.of_nat (length p) - 1) (c .& mask).

Definition msbmask (nbits : Z) : Z := 0xff .>> ((- nbits) .& 7).

Definition dec_eqb (p q : list Z) : bool := bool_decide (p = q).

Section pad.
Context `{HG : !Gmp}.
(** What is in memory that is not initialised. *)
Context (junk : Z -> list Z).

Definition sha1oracle_lookup (idx dstlen : Z) (src : list Z) : outcome (list Z) :=
  oracle_lookup (junk 64) (junk dstlen) idx dstlen hashsize src.

Definition bigint_zero : mpz := mkmpz 0 [].

(** [rnd n] are the [n] bytes that the random number generator gives. *)
Definition pre_encrypt (rnd : Z -> list Z) (msg : list Z) (nbits : Z) : outcome mpz :=
  let len := Z.of_nat (length msg) in
  if nbits / 8 <? len + enc_zbytes + enc_minpad then Done bigint_zero
  else
    let mask := msbmask nbits in
    let msgzlen := len + enc_zbytes in
    let padsize := (nbits + 7) / 8 - msgzlen in
    hp ← mask_last (rnd padsize) mask;
    mp ← sha1oracle_lookup enc_gidx msgzlen hp;
    mp ← xor_into mp msg;
    h ← sha1oracle_lookup enc_hidx padsize mp;
    hp ← xor_into hp h;
    hp ← mask_last hp mask;
    mpz_set_rawmag_le bigint_zero (mp ++ hp).

Definition post_decrypt (m : mpz) (msglen nbits : Z) : outcome (option (list Z)) :=
  let msgzlen := u32 (msglen + enc_zbytes) in
  let padsize := (nbits + 7) / 8 - msgzlen in
  let mask := msbmask nbits in
  if nbits / 8 <? msglen + enc_zbytes + enc_minpad then Done None
  else
    msg ← mpz_get_rawmag_le (junk ((nbits + 7) / 8)) m;
    let mp := take (Z.to_nat msgzlen) msg in
    let hp := drop (Z.to_nat (msglen + enc_zbytes)) msg in
    h ← sha1oracle_lookup enc_hidx padsize mp;
    hp ← xor_into hp h;
    hp ← mask_last hp mask;
    g ← sha1oracle_lookup enc_gidx msgzlen hp;
    mp ← xor_into mp g;
    let zp := take (Z.to_nat enc_zbytes) (drop (Z.to_nat msglen) mp) in
    if forallb (fun c => c =? 0) zp then Done (Some (take (Z.to_nat msglen) mp))
    else Done None.

Definition pre_sign (rnd : Z -> list Z) (sc : sha1ctx) (nbits : Z) : outcome mpz :=
  if nbits / 8 <? sig_minpad + sig_rndbytes + hashsize then Done bigint_zero
  else
    let r := rnd sig_rndbytes in
    let size := (nbits + 7) / 8 in
    sc ← Mdblock.update sc r;
    d ← final sc;
    let mp := d.1 in
    let padsize := size - hashsize in
    hp ← sha1oracle_lookup sig_gidx padsize mp;
    hp ← mask_last hp (msbmask nbits);
    hp ← xor_into hp r;
    mpz_set_rawmag_le bigint_zero (mp ++ hp).

Definition post_verify (sc : sha1ctx) (s : mpz) (nbits : Z) : outcome bool :=
  if nbits / 8 <? sig_minpad + sig_rndbytes + hashsize then Done false
  else
    let size := (nbits + 7) / 8 in
    m ← mpz_get_rawmag_le (junk size) s;
    let mp := take (Z.to_nat hashsize) m in
    let hp := drop (Z.to_nat hashsize) m in
    let padsize := size - hashsize in
    g ← sha1oracle_lookup sig_gidx padsize mp;
    g ← mask_last g (msbmask nbits);
    if negb (dec_eqb (drop (Z.to_nat sig_rndbytes) hp) (drop (Z.to_nat sig_rndbytes) g))
    then Done false
    else
      r ← xor_into (take (Z.to_nat sig_rndbytes) hp) (take (Z.to_nat sig_rndbytes) g);
      sc ← Mdblock.update sc r;
      d ← final sc;
      Done (dec_eqb (d.1) mp).

Definition pre_sign_r (rnd : Z -> list Z) (msg : list Z) (nbits : Z) : outcome mpz :=
  let len := Z.of_nat (length msg) in
  if nbits / 8 <? sig_rndbytes + hashsize + Z.max sig_minpad len then Done bigint_zero
  else
    let r := rnd sig_rndbytes in
    let size := (nbits + 7) / 8 in
    sc ← Mdblock.update (sha1ctx_new (junk 64)) msg;
    sc ← Mdblock.update sc r;
    d ← final sc;
    let mp := d.1 in
    let padsize := size - hashsize in
    hp ← sha1oracle_lookup sigr_gidx padsize mp;
    hp ← mask_last hp (msbmask nbits);
    hp ← xor_into hp r;
    t ← xor_into (drop (Z.to_nat sig_rndbytes) hp) msg;
    let hp := take (Z.to_nat sig_rndbytes) hp ++ t in
    mpz_set_rawmag_le bigint_zero (mp ++ hp).

Definition post_verify_r (s : mpz) (msglen nbits : Z) : outcome (option (list Z)) :=
  if nbits / 8 <? sig_rndbytes + hashsize + Z.max sig_minpad msglen then Done None
  else
    let size := (nbits + 7) / 8 in
    m ← mpz_get_rawmag_le (junk size) s;
    let mp := take (Z.to_nat hashsize) m in
    let hp := drop (Z.to_nat hashsize) m in
    let padsize := size - hashsize in
    g ← sha1oracle_lookup sigr_gidx padsize mp;
    g ← mask_last g (msbmask nbits);
    hp ← xor_into hp g;
    if negb (forallb (fun c => c =? 0) (drop (Z.to_nat (sig_rndbytes + msglen)) hp)) then Done None
    else
      let body := take (Z.to_nat msglen) (drop (Z.to_nat sig_rndbytes) hp) in
      sc ← Mdblock.update (sha1ctx_new (junk 64)) body;
      sc ← Mdblock.update sc (take (Z.to_nat sig_rndbytes) hp);
      d ← final sc;
      if negb (dec_eqb (d.1) mp) then Done None else Done (Some body).

End pad.

(** ** Exclusive or of strings *)
Fixpoint bxor (p q : list Z) : list Z :=
  match p, q with
  | a :: p, b :: q => u8 (a .^ b) :: bxor p q
  | p, [] => p
  | [], _ => []
  end.

Lemma xor_into_spec p q : (length q <= length p)%nat -> xor_into p q = Done (bxor p q).
Proof.
  revert p. induction q as [|b q IH]; intros p Hl; [by destruct p|].
  destruct p as [|a p]; [cbn in Hl; lia|]. cbn [xor_into bxor]. by rewrite IH by (cbn in Hl; lia).
Qed.

Lemma bxor_length p q : length (bxor p q) = length p.
Proof. revert q. induction p as [|a p IH]; intros [|b q]; cbn; auto. Qed.

Lemma bxor_bytes p q : Forall is_byte p -> Forall is_byte (bxor p q).
Proof.
  intros H. revert q. induction H as [|a p Ha Hp IH]; intros [|b q]; cbn; auto.
  constructor; [apply u8_byte|apply IH].
Qed.

Lemma u8_bit x j : 0 <= j -> Z.testbit (u8 x) j = (j <? 8) && Z.testbit x j.
Proof.
  intros Hj. rewrite u8_mod. destruct (Z.ltb_spec j 8).
  - by rewrite Z.mod_pow2_bits_low by lia.
  - by rewrite Z.mod_pow2_bits_high by lia.
Qed.

(** Proves an equality of bytes, bit by bit. *)
Ltac by_bits :=
  apply Z.bits_inj'; let j := fresh "j" in intros j ?;
  repeat (rewrite ?u8_bit, ?Z.lxor_spec, ?Z.land_spec by lia);
  destruct (Z.ltb_spec j 8);
  [|repeat match goal with H : is_byte ?a |- context [Z.testbit ?a j] => rewrite (byte_testbit_high a j H) by lia end];
  cbn [andb]; rewrite ?Z.bits_0; try btauto.

Lemma xor_back a b : is_byte a -> u8 (u8 (a .^ b) .^ b) = a.
Proof. intros Ha. by_bits. Qed.
Lemma xor_swap a b : is_byte b -> u8 (u8 (a .^ b) .^ a) = b.
Proof. intros Ha. by_bits. Qed.
Lemma xor_mask_back c h m : is_byte c -> is_byte m -> u8 ((u8 ((c .& m) .^ h) .& m) .^ h) .& m = c .& m.
Proof. intros Hc Hm. by_bits. Qed.

Lemma bxor_back p q : Forall is_byte p -> bxor (bxor p q) q = p.
Proof.
  intros H. revert q. induction H as [|a p Ha Hp IH]; intros [|b q]; cbn; auto.
  by rewrite xor_back, IH.
Qed.

(** A pad with a message in it, undone with the pad. *)
Lemma bxor_cancel g msg :
  (length msg <= length g)%nat -> Forall is_byte msg ->
  bxor (bxor g msg) g = msg ++ replicate (length g - length msg) 0.
Proof.
  revert msg. induction g as [|a g IH]; intros [|b msg] Hl Hb; cbn [bxor length app] in *; try done; try lia.
  - rewrite Z.lxor_nilpotent. cbn. f_equal.
    pose proof (IH [] ltac:(cbn; lia) ltac:(done)) as E. cbn [length app] in E. rewrite Nat.sub_0_r in E.
    destruct g; [done|exact E].
  - inversion Hb as [|? ? H1 H2]; subst. rewrite xor_swap by done. by rewrite IH by (done || lia).
Qed.

Lemma bxor_app p q p' q' : length p = length p' -> bxor (p ++ q) (p' ++ q') = bxor p p' ++ bxor q q'.
Proof.
  revert p'. induction p as [|a p IH]; intros [|b p'] Hl; cbn in *; try done.
  by rewrite IH by lia.
Qed.

Lemma bxor_nil_l q : bxor [] q = [].
Proof. by destruct q. Qed.
Lemma bxor_nil_r p : bxor p [] = p.
Proof. by destruct p. Qed.

Lemma bxor_drop p q n : drop n (bxor p q) = bxor (drop n p) (drop n q).
Proof.
  revert n q. induction p as [|a p IH]; intros n q; [by rewrite bxor_nil_l, drop_nil, bxor_nil_l|].
  destruct n; [done|]. destruct q as [|b q]; cbn [bxor drop]; [by rewrite bxor_nil_r|]. apply IH.
Qed.

Lemma bxor_take p q n : take n (bxor p q) = bxor (take n p) (take n q).
Proof.
  revert n q. induction p as [|a p IH]; intros n q; [by rewrite bxor_nil_l, take_nil, bxor_nil_l|].
  destruct n; [done|]. destruct q as [|b q]; cbn [bxor take]; [done|]. f_equal. apply IH.
Qed.

Lemma snoc_view (l : list Z) : (0 < length l)%nat -> exists l' c, l = l' ++ [c].
Proof.
  intros H. destruct l as [|c l _] using rev_ind; [cbn in H; lia|]. by exists l, c.
Qed.

(** The list with its last byte masked. *)
Fixpoint maskl (p : list Z) (m : Z) : list Z :=
  match p with
  | [] => []
  | [c] => [c .& m]
  | c :: p => c :: maskl p m
  end.

Lemma maskl_snoc l c m : maskl (l ++ [c]) m = l ++ [c .& m].
Proof.
  induction l as [|b l IH]; [done|]. cbn [app maskl]. destruct (l ++ [c]) eqn:E; [by destruct l|]. by rewrite IH.
Qed.

Lemma maskl_length p m : length (maskl p m) = length p.
Proof.
  destruct p as [|c l _] using rev_ind; [done|]. rewrite maskl_snoc, !length_app. done.
Qed.

Lemma mask_last_spec p m : (0 < length p)%nat -> mask_last p m = Done (maskl p m).
Proof.
  intros H. destruct (snoc_view p H) as (l & c & ->). clear H. rewrite maskl_snoc.
  unfold mask_last. rewrite length_app. cbn [length].
  replace (Z.of_nat (length l + 1) - 1) with (Z.of_nat (length l)) by lia.
  unfold rd, wr. rewrite length_app. cbn [length]. rewrite Nat2Z.id.
  destruct (Z.leb_spec 0 (Z.of_nat (length l))), (Z.ltb_spec (Z.of_nat (length l)) (Z.of_nat (length l + 1))); try lia.
  rewrite lookup_app_r, Nat.sub_diag by lia. cbn [lookup list_lookup mbind outcome_bind andb].
  rewrite insert_app_r_alt, Nat.sub_diag by lia. done.
Qed.

Lemma land_byte c m : is_byte c -> is_byte (c .& m).
Proof. intros Hc. assert (c .& m = u8 (c .& m)) as -> by by_bits. apply u8_byte. Qed.

Lemma maskl_bytes p m : Forall is_byte p -> Forall is_byte (maskl p m).
Proof.
  intros H. destruct p as [|c l _] using rev_ind; [done|]. rewrite maskl_snoc. apply Forall_app in H as [H1 H2].
  apply Forall_app. split; [done|]. rewrite Forall_singleton in *. by apply land_byte.
Qed.

(** Masked strings in and out of a pad. *)
Lemma maskl_bxor_back p h m :
  Forall is_byte p -> is_byte m -> length h = length p ->
  maskl (bxor (maskl (bxor (maskl p m) h) m) h) m = maskl p m.
Proof.
  intros Hp Hm Hl. destruct (decide (p = [])) as [->|Hne]; [by destruct h|].
  destruct (snoc_view p) as (l & c & ->); [destruct p; [done|cbn; lia]|].
  rewrite length_app in Hl. cbn [length] in Hl. destruct (snoc_view h) as (hl & hc & ->); [lia|].
  rewrite length_app in Hl. cbn [length] in Hl. apply Forall_app in Hp as [H1 H2]. rewrite Forall_singleton in H2.
  rewrite maskl_snoc, bxor_app by lia. cbn [bxor]. rewrite maskl_snoc, bxor_app by (rewrite bxor_length; lia).
  cbn [bxor]. rewrite maskl_snoc, bxor_back, xor_mask_back by done. done.
Qed.

Lemma msbmask_byte nbits : is_byte (msbmask nbits).
Proof.
  unfold msbmask, is_byte. assert (0 <= (- nbits) .& 7 < 8) by (change 7 with (Z.ones 3); rewrite Z.land_ones by lia; apply Z.mod_pos_bound; lia).
  rewrite Z.shiftr_div_pow2 by lia. split; [apply Z.div_pos; lia|].
  apply Z.div_lt_upper_bound; [lia|]. pose proof (Z.pow_le_mono_r 2 0 ((- nbits) .& 7) ltac:(lia) ltac:(lia)). lia.
Qed.

(** ** The oracle as a function *)
Definition O (idx size : Z) (src : list Z) : list Z := oracle_spec hashsize idx size src.

Lemma O_length idx size src : 0 <= size -> length (O idx size src) = Z.to_nat size.
Proof.
  intros Hs. unfold O, oracle_spec. rewrite length_take. unfold hashsize.
  set (k := Z.to_nat ((size + 20 - 1) / 20)).
  assert (Hc : forall l : list nat, length (concat ((fun i => take (Z.to_nat 20) (oracle_piece idx src i)) <$> l)) = (20 * length l)%nat).
  { induction l as [|i l IH]; [done|]. rewrite fmap_cons. cbn [concat length].
    rewrite length_app, IH, length_take. unfold oracle_piece. rewrite fips_sha1_length. lia. }
  rewrite Hc, length_seq. unfold k. pose proof (Z.div_mod (size + 20 - 1) 20 ltac:(lia)).
  pose proof (Z.mod_pos_bound (size + 20 - 1) 20 ltac:(lia)). lia.
Qed.

Lemma O_bytes idx size src : Forall is_byte (O idx size src).
Proof.
  unfold O, oracle_spec. apply Forall_take, Forall_concat, Forall_fmap, Forall_forall.
  intros i _. unfold compose, oracle_piece. apply Forall_take, fips_sha1_bytes.
Qed.

#[local] Opaque O oracle_spec fips_sha1.

Section correct.
Context `{HG : !Gmp} `{HGok : !GmpOK}.
Context (junk : Z -> list Z) (Hjunk : forall n, 0 <= n -> length (junk n) = Z.to_nat n).

Lemma lookup_spec idx size src :
  0 <= size < 2 ^ 63 -> Z.of_nat (length src) + 80 < 2 ^ 64 ->
  sha1oracle_lookup junk idx size src = Done (O idx size src).
Proof using Hjunk.
  intros Hs Hl. unfold sha1oracle_lookup. apply oracle_lookup_spec; rewrite ?Hjunk by lia; try lia; done || unfold hashsize; lia.
Qed.

(** The integer that stands for a string of bytes. *)
Lemma set_get m0 buf size :
  Forall is_byte buf -> Z.of_nat (length buf) = size ->
  exists m, mpz_set_rawmag_le m0 buf = Done m /\ mpz_rep m (le_val buf)
    /\ mpz_get_rawmag_le (junk size) m = Done buf.
Proof using HGok Hjunk.
  intros Hb <-. destruct (set_rawmag_le_spec m0 buf Hb) as (m & E & R). exists m. split_and!; try done.
  pose proof (le_val_bound buf Hb). rewrite (get_rawmag_le_spec _ m _ R), Hjunk, Nat2Z.id, Z.abs_eq by lia.
  by rewrite bytes_le_val.
Qed.

(** A masked last byte keeps the value below [2 ^ nbits]. *)
Lemma masked_bound p nbits :
  0 <= nbits -> Forall is_byte p -> (0 < length p)%nat -> Z.of_nat (length p) = (nbits + 7) / 8 ->
  0 <= le_val (maskl p (msbmask nbits)) < 2 ^ nbits.
Proof using.
  intros Hn Hp H0 Hlen. destruct (snoc_view p H0) as (l & c & ->). rewrite length_app in Hlen. cbn [length] in Hlen.
  apply Forall_app in Hp as [Hl Hc]. rewrite Forall_singleton in Hc. clear H0. rewrite maskl_snoc.
  assert (Hk : exists k, (- nbits) .& 7 = k /\ 0 <= k < 8 /\ nbits = 8 * Z.of_nat (length l + 1) - k).
  { eexists. split; [reflexivity|]. change 7 with (Z.ones 3) at 1 2 3. rewrite Z.land_ones by lia. change (2 ^ 3) with 8.
    rewrite Hlen. pose proof (Z.mod_pos_bound (- nbits) 8 ltac:(lia)).
    pose proof (Z.div_mod (- nbits) 8 ltac:(lia)). pose proof (Z.div_mod (nbits + 7) 8 ltac:(lia)).
    pose proof (Z.mod_pos_bound (nbits + 7) 8 ltac:(lia)). lia. }
  destruct Hk as (k & Ek & Hk & En). unfold msbmask. rewrite Ek.
  assert (Hd : 0 <= c .& (0xff .>> k) < 2 ^ (8 - k)).
  { change 0xff with (Z.ones 8). assert (Eo : Z.ones 8 .>> k = Z.ones (8 - k)).
    { rewrite Z.ones_div_pow2 || rewrite Z.shiftr_div_pow2 by lia. apply Z.ones_div_pow2. lia. }
    rewrite Eo, Z.land_ones by lia. apply Z.mod_pos_bound. lia. }
  set (d := c .& (0xff .>> k)) in *. clearbody d.
  assert (Happ : forall l, Forall is_byte l -> le_val (l ++ [d]) = le_val l + 2 ^ (8 * Z.of_nat (length l)) * d).
  { clear. induction 1 as [|b l Hb _ IH]; [cbn; lia|]. cbn [app length]. rewrite !le_val_cons, IH.
    replace (8 * Z.of_nat (S (length l))) with (8 + 8 * Z.of_nat (length l)) by lia.
    rewrite Z.pow_add_r by lia. change (2 ^ 8) with 256. lia. }
  rewrite (Happ l Hl). pose proof (le_val_bound l Hl). rewrite En.
  replace (8 * Z.of_nat (length l + 1) - k) with (8 * Z.of_nat (length l) + (8 - k)) by lia.
  rewrite Z.pow_add_r by lia. nia.
Qed.

Lemma pad_sizes nbits len :
  0 <= nbits -> 0 <= len -> len <= nbits / 8 -> len <= (nbits + 7) / 8 /\ 8 * ((nbits + 7) / 8) < nbits + 8.
Proof using.
  intros Hn Hl H. pose proof (Z.div_mod nbits 8 ltac:(lia)). pose proof (Z.mod_pos_bound nbits 8 ltac:(lia)).
  pose proof (Z.div_mod (nbits + 7) 8 ltac:(lia)). pose proof (Z.mod_pos_bound (nbits + 7) 8 ltac:(lia)). lia.
Qed.

Lemma maskl_app q p m : (0 < length p)%nat -> maskl (q ++ p) m = q ++ maskl p m.
Proof using.
  intros H. destruct (snoc_view p H) as (l & c & ->). by rewrite app_assoc, !maskl_snoc, app_assoc.
Qed.

(** *** Encryption *)
Definition enc_mp (hp msg : list Z) : list Z := bxor (O 1 (Z.of_nat (length msg) + 16) hp) msg.
Definition enc_hp (hp mp : list Z) (nbits : Z) : list Z :=
  maskl (bxor hp (O 2 (Z.of_nat (length hp)) mp)) (msbmask nbits).

Section encryption.
Context (len nbits : Z) (Hn : 0 <= nbits < 2 ^ 32) (Hlen : 0 <= len) (Hfit : len + 32 <= nbits / 8).
Let size := (nbits + 7) / 8.
Let pad := size - (len + 16).

Lemma enc_sizes : 16 <= pad /\ size = pad + (len + 16) /\ size < 2 ^ 32.
Proof using Hn Hlen Hfit. destruct (pad_sizes nbits (len + 32)) as [H1 H2]; unfold pad, size; lia. Qed.

Lemma pre_encrypt_spec rnd msg :
  Z.of_nat (length msg) = len -> length (rnd pad) = Z.to_nat pad ->
  pre_encrypt junk rnd msg nbits
  = let hp := maskl (rnd pad) (msbmask nbits) in
    let mp := enc_mp hp msg in
    mpz_set_rawmag_le bigint_zero (mp ++ enc_hp hp mp nbits).
Proof using Hjunk Hn Hlen Hfit.
  intros Hm Lr. destruct enc_sizes as (H1 & H2 & H3).
  unfold pre_encrypt, enc_zbytes, enc_minpad, enc_gidx, enc_hidx. rewrite Hm. cbv zeta. fold size. fold pad.
  destruct (Z.ltb_spec (nbits / 8) (len + 16 + 16)) as [|_]; [lia|].
  rewrite mask_last_spec by lia. cbn [mbind outcome_bind]. set (hp := maskl (rnd pad) (msbmask nbits)).
  assert (Lhp : length hp = Z.to_nat pad) by (unfold hp; by rewrite maskl_length).
  assert (Lg : length (O 1 (len + 16) hp) = Z.to_nat (len + 16)) by (apply O_length; lia).
  rewrite lookup_spec by lia. cbn [mbind outcome_bind]. rewrite xor_into_spec by lia. cbn [mbind outcome_bind].
  assert (Emp : bxor (O 1 (len + 16) hp) msg = enc_mp hp msg) by (unfold enc_mp; by rewrite Hm).
  rewrite Emp. assert (Lmp : length (enc_mp hp msg) = Z.to_nat (len + 16)) by (rewrite <- Emp; by rewrite bxor_length).
  assert (Lh : length (O 2 pad (enc_mp hp msg)) = Z.to_nat pad) by (apply O_length; lia).
  rewrite lookup_spec by lia. cbn [mbind outcome_bind]. rewrite xor_into_spec by lia. cbn [mbind outcome_bind].
  rewrite mask_last_spec by (rewrite bxor_length; lia). cbn [mbind outcome_bind].
  unfold enc_hp. rewrite Lhp, Z2Nat.id by lia. done.
Qed.

Lemma post_decrypt_spec m mp hp :
  mpz_get_rawmag_le (junk size) m = Done (mp ++ hp) ->
  length mp = Z.to_nat (len + 16) -> length hp = Z.to_nat pad ->
  post_decrypt junk m len nbits
  = let p := bxor mp (O 1 (len + 16) (maskl (bxor hp (O 2 pad mp)) (msbmask nbits))) in
    Done (if forallb (fun c => c =? 0) (take 16 (drop (Z.to_nat len) p)) then Some (take (Z.to_nat len) p) else None).
Proof using Hjunk Hn Hlen Hfit.
  intros Gm Lmp Lhp. destruct enc_sizes as (H1 & H2 & H3).
  unfold post_decrypt, enc_zbytes, enc_minpad, enc_gidx, enc_hidx. cbv zeta.
  rewrite (u32_small (len + 16)) by lia. fold size. fold pad.
  destruct (Z.ltb_spec (nbits / 8) (len + 16 + 16)) as [|_]; [lia|].
  rewrite Gm. cbn [mbind outcome_bind]. rewrite take_app_length', drop_app_length' by lia.
  assert (Lh : length (O 2 pad mp) = Z.to_nat pad) by (apply O_length; lia).
  rewrite lookup_spec by lia. cbn [mbind outcome_bind]. rewrite xor_into_spec by lia. cbn [mbind outcome_bind].
  rewrite mask_last_spec by (rewrite bxor_length; lia). cbn [mbind outcome_bind].
  set (hp' := maskl _ _). assert (Lhp' : length hp' = Z.to_nat pad) by (unfold hp'; by rewrite maskl_length, bxor_length).
  assert (Lg : length (O 1 (len + 16) hp') = Z.to_nat (len + 16)) by (apply O_length; lia).
  rewrite lookup_spec by lia. cbn [mbind outcome_bind]. rewrite xor_into_spec by lia. cbn [mbind outcome_bind].
  change (Z.to_nat 16) with 16%nat. by destruct (forallb _ _).
Qed.

Lemma encrypt_spec rnd msg :
  (forall n, 0 <= n -> length (rnd n) = Z.to_nat n /\ Forall is_byte (rnd n)) ->
  Forall is_byte msg -> Z.of_nat (length msg) = len ->
  exists m x, pre_encrypt junk rnd msg nbits = Done m /\ mpz_rep m x /\ 0 <= x < 2 ^ nbits
    /\ post_decrypt junk m len nbits = Done (Some msg).
Proof using HGok Hjunk Hn Hlen Hfit.
  intros Hrnd Hmsg Hl. destruct enc_sizes as (H1 & H2 & H3). destruct (Hrnd pad ltac:(lia)) as [Lr Br].
  rewrite (pre_encrypt_spec rnd msg Hl Lr). cbv zeta. set (hp := maskl (rnd pad) (msbmask nbits)).
  set (mp := enc_mp hp msg). set (hp2 := enc_hp hp mp nbits).
  assert (Lhp : length hp = Z.to_nat pad) by (unfold hp; by rewrite maskl_length).
  assert (Lg : length (O 1 (len + 16) hp) = Z.to_nat (len + 16)) by (apply O_length; lia).
  assert (Lmp : length mp = Z.to_nat (len + 16)) by (unfold mp, enc_mp; by rewrite Hl, bxor_length).
  assert (Lhp2 : length hp2 = Z.to_nat pad) by (unfold hp2, enc_hp; by rewrite maskl_length, bxor_length).
  assert (Bmp : Forall is_byte mp) by (apply bxor_bytes, O_bytes).
  assert (Bhp : Forall is_byte hp) by (by apply maskl_bytes).
  destruct (set_get bigint_zero (mp ++ hp2) size) as (m & Em & Rm & Gm).
  { apply Forall_app. split; [done|]. by apply maskl_bytes, bxor_bytes. }
  { rewrite length_app. lia. }
  exists m, (le_val (mp ++ hp2)). split_and!; [done|done| | |].
  1, 2: unfold hp2, enc_hp; rewrite <- maskl_app by (rewrite bxor_length; lia); apply masked_bound;
    [lia|apply Forall_app; split; [done|by apply bxor_bytes]|rewrite length_app, bxor_length; lia|].
  1, 2: fold size; rewrite length_app, bxor_length; lia.
  assert (Eh : maskl (bxor hp2 (O 2 pad mp)) (msbmask nbits) = hp).
  { unfold hp2, enc_hp. rewrite Lhp, Z2Nat.id by lia.
    assert (Lh : length (O 2 pad mp) = length (rnd pad)) by (rewrite O_length by lia; lia).
    unfold hp. apply maskl_bxor_back; [done|apply msbmask_byte|done]. }
  rewrite (post_decrypt_spec m mp hp2 Gm Lmp Lhp2), Eh. cbv zeta.
  unfold mp, enc_mp. rewrite Hl, bxor_cancel by (done || lia).
  replace (Z.to_nat len) with (length msg) by lia. rewrite drop_app_length, take_app_length.
  rewrite Lg. replace (Z.to_nat (len + 16) - length msg)%nat with 16%nat by lia. done.
Qed.

End encryption.
(** *** Signatures *)
(** The context has been given the bytes [M]. *)
Definition ctx_holds (sc : sha1ctx) (M : list Z) : Prop := md_rep fips_compress newstate sc M.

Lemma hash_more sc M r :
  ctx_holds sc M -> Z.of_nat (length (M ++ r)) + 64 < 2 ^ 64 ->
  exists sc1 sc2, Mdblock.update sc r = Done sc1 /\ ctx_holds sc1 (M ++ r)
    /\ final sc1 = Done (fips_sha1 (M ++ r), sc2).
Proof using.
  intros Hr Hs. destruct (Mdblock.update_spec fips_compress (fun _ => True) newstate sc M r Hr) as (sc1 & E & R); [lia|by left|].
  destruct (final_spec sc1 _ R Hs) as (sc2 & F). by exists sc1, sc2.
Qed.

Lemma bxor_maskl g r m : (length r < length g)%nat -> bxor (maskl g m) r = maskl (bxor g r) m.
Proof using.
  intros Hl. destruct (snoc_view g) as (l & c & ->); [lia|]. rewrite length_app in Hl. cbn [length] in Hl.
  rewrite maskl_snoc. rewrite <- (app_nil_r r).
  assert (Hb : forall c, bxor (l ++ [c]) (r ++ []) = bxor l r ++ [c]).
  { clear -Hl. revert l Hl. induction r as [|b r IH]; intros l Hl c; [cbn; destruct l; done|].
    destruct l as [|a l]; [cbn in Hl; lia|]. cbn [app bxor length] in *. by rewrite IH by lia. }
  by rewrite !Hb, maskl_snoc.
Qed.

Lemma hash_two M r :
  Z.of_nat (length M) + 80 < 2 ^ 64 -> length r = 16%nat ->
  exists sc1 sc2 sc3, Mdblock.update (sha1ctx_new (junk 64)) M = Done sc1 /\ Mdblock.update sc1 r = Done sc2
    /\ final sc2 = Done (fips_sha1 (M ++ r), sc3).
Proof using Hjunk.
  intros Hs Hr. assert (H0 : ctx_holds (sha1ctx_new (junk 64)) []) by (apply sha1ctx_new_rep; by rewrite Hjunk).
  destruct (hash_more _ [] M H0) as (sc1 & _ & E1 & R1 & _); [cbn [app]; lia|].
  destruct (hash_more sc1 M r R1) as (sc2 & sc3 & E2 & _ & F); [rewrite length_app; lia|].
  by exists sc1, sc2, sc3.
Qed.

Section signatures.
Context (nbits : Z) (Hn : 0 <= nbits < 2 ^ 32).
Let size := (nbits + 7) / 8.
Let pad := size - 20.

Definition sig_g (idx : Z) (mp : list Z) : list Z := maskl (O idx pad mp) (msbmask nbits).

Lemma sig_g_length idx mp : 0 <= pad -> length (sig_g idx mp) = Z.to_nat pad.
Proof using. intros H. unfold sig_g. by rewrite maskl_length, O_length. Qed.

Lemma sig_sizes k : 0 <= k -> k <= nbits / 8 -> k <= size /\ size < 2 ^ 32.
Proof using Hn. intros H1 H2. destruct (pad_sizes nbits k) as [H3 H4]; unfold size; lia. Qed.

(** The pad of [G] that both sides compute. *)
Lemma sig_g_spec idx mp :
  20 < size < 2 ^ 32 -> length mp = 20%nat ->
  (g ← sha1oracle_lookup junk idx pad mp; mask_last g (msbmask nbits)) = Done (sig_g idx mp).
Proof using Hjunk.
  intros Hs Hm. rewrite lookup_spec by (unfold pad; lia). cbn [mbind outcome_bind].
  apply mask_last_spec. rewrite O_length by (unfold pad; lia). unfold pad. lia.
Qed.

Lemma pre_sign_spec rnd sc M :
  52 <= nbits / 8 -> ctx_holds sc M -> length (rnd 16) = 16%nat -> Z.of_nat (length (M ++ rnd 16)) + 64 < 2 ^ 64 ->
  pre_sign junk rnd sc nbits
  = let mp := fips_sha1 (M ++ rnd 16) in
    mpz_set_rawmag_le bigint_zero (mp ++ bxor (sig_g 3 mp) (rnd 16)).
Proof using Hjunk Hn.
  intros Hb Hsc Lr Hs. destruct (sig_sizes 52) as [H1 H2]; [lia|done|].
  unfold pre_sign, sig_minpad, sig_rndbytes, hashsize, sig_gidx. cbv zeta. fold size. fold pad.
  destruct (Z.ltb_spec (nbits / 8) (16 + 16 + 20)) as [|_]; [lia|].
  destruct (hash_more sc M (rnd 16) Hsc Hs) as (sc1 & sc2 & -> & _ & F). cbn [mbind outcome_bind].
  rewrite F. cbn [mbind outcome_bind fst]. set (mp := fips_sha1 _).
  pose proof (sig_g_spec 3 mp ltac:(lia) (fips_sha1_length _)) as G.
  destruct (sha1oracle_lookup junk 3 pad mp) as [g| | |]; try done. cbn [mbind outcome_bind] in *. rewrite G.
  cbn [mbind outcome_bind]. rewrite xor_into_spec; [done|]. rewrite sig_g_length; unfold pad; lia.
Qed.

Lemma post_verify_spec sc M s mp hp :
  52 <= nbits / 8 -> ctx_holds sc M -> Z.of_nat (length M) + 80 < 2 ^ 64 ->
  mpz_get_rawmag_le (junk size) s = Done (mp ++ hp) -> length mp = 20%nat -> length hp = Z.to_nat pad ->
  post_verify junk sc s nbits
  = Done (dec_eqb (drop 16 hp) (drop 16 (sig_g 3 mp))
          && dec_eqb (fips_sha1 (M ++ bxor (take 16 hp) (take 16 (sig_g 3 mp)))) mp).
Proof using Hjunk Hn.
  intros Hb Hsc Hs Gm Lmp Lhp. destruct (sig_sizes 52) as [H1 H2]; [lia|done|].
  unfold post_verify, sig_minpad, sig_rndbytes, hashsize, sig_gidx. cbv zeta. fold size. fold pad.
  destruct (Z.ltb_spec (nbits / 8) (16 + 16 + 20)) as [|_]; [lia|].
  rewrite Gm. cbn [mbind outcome_bind]. change (Z.to_nat 20) with 20%nat. change (Z.to_nat 16) with 16%nat.
  rewrite take_app_length', drop_app_length' by lia.
  pose proof (sig_g_spec 3 mp ltac:(lia) Lmp) as G.
  destruct (sha1oracle_lookup junk 3 pad mp) as [g| | |]; try done. cbn [mbind outcome_bind] in *. rewrite G.
  cbn [mbind outcome_bind]. assert (Lg : length (sig_g 3 mp) = Z.to_nat pad) by (apply sig_g_length; unfold pad; lia).
  destruct (dec_eqb (drop 16 hp) _); cbn [negb andb]; [|done].
  rewrite xor_into_spec by (rewrite !length_take; lia). cbn [mbind outcome_bind].
  set (r := bxor _ _). assert (Lr : length r = 16%nat) by (unfold r; rewrite bxor_length, length_take; unfold pad in *; lia).
  destruct (hash_more sc M r Hsc) as (sc1 & sc2 & -> & _ & F); [rewrite length_app; lia|]. cbn [mbind outcome_bind].
  by rewrite F.
Qed.

Lemma sign_spec rnd sc M :
  52 <= nbits / 8 -> ctx_holds sc M -> length (rnd 16) = 16%nat -> Forall is_byte (rnd 16) ->
  Z.of_nat (length M) + 80 < 2 ^ 64 ->
  exists m x, pre_sign junk rnd sc nbits = Done m /\ mpz_rep m x /\ 0 <= x < 2 ^ nbits
    /\ forall sc' M', ctx_holds sc' M' -> Z.of_nat (length M') + 80 < 2 ^ 64 ->
       post_verify junk sc' m nbits = Done (dec_eqb (fips_sha1 (M' ++ rnd 16)) (fips_sha1 (M ++ rnd 16))).
Proof using HGok Hjunk Hn.
  intros Hb Hsc Lr Br Hs. destruct (sig_sizes 52) as [H1 H2]; [lia|done|].
  rewrite (pre_sign_spec rnd sc M) by (done || rewrite length_app; lia). cbv zeta.
  set (mp := fips_sha1 (M ++ rnd 16)). set (g := sig_g 3 mp). set (hp := bxor g (rnd 16)).
  assert (Lmp : length mp = 20%nat) by apply fips_sha1_length.
  assert (Bmp : Forall is_byte mp) by apply fips_sha1_bytes.
  assert (Lg : length g = Z.to_nat pad) by (apply sig_g_length; unfold pad; lia).
  assert (Lhp : length hp = Z.to_nat pad) by (unfold hp; by rewrite bxor_length).
  assert (Ehp : mp ++ hp = maskl (mp ++ bxor (O 3 pad mp) (rnd 16)) (msbmask nbits)).
  { unfold g, sig_g in Lg. rewrite maskl_length in Lg.
    rewrite maskl_app by (rewrite bxor_length; unfold pad in *; lia). unfold hp, g, sig_g.
    by rewrite bxor_maskl by (unfold pad in *; lia). }
  assert (Bi : Forall is_byte (mp ++ bxor (O 3 pad mp) (rnd 16)))
    by (apply Forall_app; split; [done|apply bxor_bytes, O_bytes]).
  destruct (set_get bigint_zero (mp ++ hp) size) as (m & Em & Rm & Gm).
  { rewrite Ehp. by apply maskl_bytes. }
  { rewrite length_app. unfold pad in *. lia. }
  exists m, (le_val (mp ++ hp)). split; [done|]. split; [done|]. split.
  { rewrite Ehp. unfold g, sig_g in Lg. rewrite maskl_length in Lg.
    apply masked_bound; [lia|done| |]; rewrite length_app, bxor_length; unfold pad, size in *; lia. }
  intros sc' M' Hsc' Hs'. rewrite (post_verify_spec sc' M' m mp hp) by done. fold g. f_equal.
  assert (E1 : drop 16 hp = drop 16 g).
  { unfold hp. rewrite bxor_drop, (drop_ge (rnd 16)) by lia. apply bxor_nil_r. }
  assert (E2 : bxor (take 16 hp) (take 16 g) = rnd 16).
  { unfold hp. rewrite bxor_take, (take_ge (rnd 16)) by lia. rewrite bxor_cancel by (done || rewrite length_take; unfold pad in *; lia).
    rewrite length_take. replace (_ - _)%nat with 0%nat by lia. apply app_nil_r. }
  rewrite E1, E2. unfold dec_eqb. by rewrite bool_decide_true by done.
Qed.

(** *** Signatures with message recovery *)
Lemma pre_sign_r_spec rnd msg :
  36 + Z.max 16 (Z.of_nat (length msg)) <= nbits / 8 -> length (rnd 16) = 16%nat ->
  pre_sign_r junk rnd msg nbits
  = let mp := fips_sha1 (msg ++ rnd 16) in
    mpz_set_rawmag_le bigint_zero (mp ++ bxor (sig_g 4 mp) (rnd 16 ++ msg)).
Proof using Hjunk Hn.
  intros Hb Lr. destruct (sig_sizes (36 + Z.max 16 (Z.of_nat (length msg)))) as [H1 H2]; [lia|done|].
  unfold pre_sign_r, sig_minpad, sig_rndbytes, hashsize, sigr_gidx. cbv zeta. fold size. fold pad.
  destruct (Z.ltb_spec (nbits / 8) (16 + 20 + Z.max 16 (Z.of_nat (length msg)))) as [|_]; [lia|].
  destruct (hash_two msg (rnd 16)) as (sc1 & sc2 & sc3 & -> & E2 & F); [lia|done|]. cbn [mbind outcome_bind].
  rewrite E2. cbn [mbind outcome_bind]. rewrite F. cbn [mbind outcome_bind fst]. set (mp := fips_sha1 _).
  pose proof (sig_g_spec 4 mp ltac:(lia) (fips_sha1_length _)) as G.
  destruct (sha1oracle_lookup junk 4 pad mp) as [g| | |]; try done. cbn [mbind outcome_bind] in *. rewrite G.
  assert (Lg : length (sig_g 4 mp) = Z.to_nat pad) by (apply sig_g_length; unfold pad; lia).
  cbn [mbind outcome_bind]. rewrite xor_into_spec by (unfold pad in *; lia). cbn [mbind outcome_bind].
  change (Z.to_nat 16) with 16%nat.
  rewrite xor_into_spec by (rewrite length_drop, bxor_length; unfold pad in *; lia). cbn [mbind outcome_bind].
  do 2 f_equal. rewrite <- (take_drop 16 (sig_g 4 mp)) at 3.
  rewrite bxor_app by (rewrite length_take; unfold pad in *; lia). f_equal.
  - rewrite bxor_take, (take_ge (rnd 16)) by lia. done.
  - rewrite bxor_drop, (drop_ge (rnd 16)), bxor_nil_r by lia. done.
Qed.

(** The value is in range even if the message reaches the masked byte: then
    the mask is all ones. *)
Lemma sign_r_bound mp q :
  length mp = 20%nat -> Forall is_byte mp -> (length q <= Z.to_nat pad)%nat ->
  (Z.of_nat (length q) = pad -> nbits mod 8 = 0) -> 20 < size ->
  0 <= le_val (mp ++ bxor (sig_g 4 mp) q) < 2 ^ nbits.
Proof using Hn.
  intros Lmp Bmp Hq Hm Hs. assert (Lg : length (sig_g 4 mp) = Z.to_nat pad) by (apply sig_g_length; unfold pad; lia).
  assert (LO : length (O 4 pad mp) = Z.to_nat pad) by (apply O_length; unfold pad; lia).
  destruct (decide (Z.of_nat (length q) = pad)) as [E|Ne].
  - assert (Bg : Forall is_byte (mp ++ bxor (sig_g 4 mp) q))
      by (apply Forall_app; split; [done|apply bxor_bytes, maskl_bytes, O_bytes]).
    pose proof (le_val_bound _ Bg) as H. rewrite length_app, bxor_length in H.
    replace nbits with (8 * Z.of_nat (length mp + length (sig_g 4 mp))); [done|].
    specialize (Hm E). unfold pad, size in *. pose proof (Z.div_mod nbits 8 ltac:(lia)).
    assert ((nbits + 7) / 8 = nbits / 8) by (symmetry; apply Z.div_unique with 7; lia). lia.
  - unfold sig_g. rewrite bxor_maskl by (unfold pad in *; lia).
    rewrite <- maskl_app by (rewrite bxor_length; unfold pad in *; lia).
    apply masked_bound; [lia| | |].
    + apply Forall_app. split; [done|]. apply bxor_bytes, O_bytes.
    + rewrite length_app. lia.
    + rewrite length_app, bxor_length. unfold pad, size in *. lia.
Qed.

Lemma post_verify_r_spec s msglen mp hp :
  0 <= msglen -> 36 + Z.max 16 msglen <= nbits / 8 ->
  mpz_get_rawmag_le (junk size) s = Done (mp ++ hp) -> length mp = 20%nat -> length hp = Z.to_nat pad ->
  post_verify_r junk s msglen nbits
  = let p := bxor hp (sig_g 4 mp) in
    let body := take (Z.to_nat msglen) (drop 16 p) in
    Done (if forallb (fun c => c =? 0) (drop (16 + Z.to_nat msglen) p)
             && dec_eqb (fips_sha1 (body ++ take 16 p)) mp then Some body else None).
Proof using Hjunk Hn.
  intros Hl Hb Gm Lmp Lhp. destruct (sig_sizes (36 + Z.max 16 msglen)) as [H1 H2]; [lia|done|].
  unfold post_verify_r, sig_minpad, sig_rndbytes, hashsize, sigr_gidx. cbv zeta. fold size. fold pad.
  destruct (Z.ltb_spec (nbits / 8) (16 + 20 + Z.max 16 msglen)) as [|_]; [lia|].
  rewrite Gm. cbn [mbind outcome_bind]. change (Z.to_nat 20) with 20%nat. change (Z.to_nat 16) with 16%nat.
  rewrite take_app_length', drop_app_length' by lia.
  pose proof (sig_g_spec 4 mp ltac:(lia) Lmp) as G.
  destruct (sha1oracle_lookup junk 4 pad mp) as [g| | |]; try done. cbn [mbind outcome_bind] in *. rewrite G.
  cbn [mbind outcome_bind]. assert (Lg : length (sig_g 4 mp) = Z.to_nat pad) by (apply sig_g_length; unfold pad; lia).
  rewrite xor_into_spec by lia. cbn [mbind outcome_bind]. set (p := bxor _ _).
  assert (Lp : length p = Z.to_nat pad) by (unfold p; by rewrite bxor_length).
  replace (Z.to_nat (16 + msglen)) with (16 + Z.to_nat msglen)%nat by lia.
  destruct (forallb _ _); cbn [negb andb]; [|done].
  destruct (hash_two (take (Z.to_nat msglen) (drop 16 p)) (take 16 p)) as (sc1 & sc2 & sc3 & -> & E2 & F).
  { rewrite length_take. unfold pad in *. lia. }
  { rewrite length_take. unfold pad in *. lia. }
  cbn [mbind outcome_bind]. rewrite E2. cbn [mbind outcome_bind]. rewrite F. cbn [mbind outcome_bind fst].
  by destruct (dec_eqb _ _).
Qed.

Lemma sign_r_spec rnd msg :
  36 + Z.max 16 (Z.of_nat (length msg)) <= nbits / 8 -> length (rnd 16) = 16%nat ->
  Forall is_byte (rnd 16) -> Forall is_byte msg ->
  exists m x, pre_sign_r junk rnd msg nbits = Done m /\ mpz_rep m x /\ 0 <= x < 2 ^ nbits
    /\ post_verify_r junk m (Z.of_nat (length msg)) nbits = Done (Some msg).
Proof using HGok Hjunk Hn.
  intros Hb Lr Br Bm. destruct (sig_sizes (36 + Z.max 16 (Z.of_nat (length msg)))) as [H1 H2]; [lia|done|].
  rewrite (pre_sign_r_spec rnd msg) by done. cbv zeta. set (mp := fips_sha1 (msg ++ rnd 16)).
  set (g := sig_g 4 mp). set (q := rnd 16 ++ msg). set (hp := bxor g q).
  assert (Lmp : length mp = 20%nat) by apply fips_sha1_length.
  assert (Bmp : Forall is_byte mp) by apply fips_sha1_bytes.
  assert (Lg : length g = Z.to_nat pad) by (apply sig_g_length; unfold pad; lia).
  assert (Lhp : length hp = Z.to_nat pad) by (unfold hp; by rewrite bxor_length).
  assert (Lq : length q = (16 + length msg)%nat) by (unfold q; rewrite length_app; lia).
  destruct (set_get bigint_zero (mp ++ hp) size) as (m & Em & Rm & Gm).
  { apply Forall_app. split; [done|]. apply bxor_bytes, maskl_bytes, O_bytes. }
  { rewrite length_app. unfold pad in *. lia. }
  exists m, (le_val (mp ++ hp)). split; [done|]. split; [done|]. split.
  { apply sign_r_bound; [done|done|unfold pad in *; lia| |lia]. rewrite Lq. unfold pad, size in *. intros E.
    pose proof (Z.div_mod nbits 8 ltac:(lia)). pose proof (Z.mod_pos_bound nbits 8 ltac:(lia)).
    pose proof (Z.div_mod (nbits + 7) 8 ltac:(lia)). pose proof (Z.mod_pos_bound (nbits + 7) 8 ltac:(lia)). lia. }
  rewrite (post_verify_r_spec m _ mp hp) by (done || lia). cbv zeta. fold g.
  assert (Ep : bxor hp g = q ++ replicate (length g - length q) 0).
  { unfold hp. apply bxor_cancel; [unfold pad in *; lia|]. by apply Forall_app. }
  rewrite Ep, Nat2Z.id.
  assert (E1 : drop (16 + length msg) (q ++ replicate (length g - length q) 0) = replicate (length g - length q) 0)
    by (by rewrite drop_app_length').
  assert (E2 : take (length msg) (drop 16 (q ++ replicate (length g - length q) 0)) = msg).
  { unfold q at 1. rewrite <- app_assoc, drop_app_length', take_app_length by done. done. }
  assert (E3 : take 16 (q ++ replicate (length g - length q) 0) = rnd 16).
  { unfold q at 1. rewrite <- app_assoc, take_app_length' by done. done. }
  assert (Hz : forall n, forallb (fun c => c =? 0) (replicate n 0) = true) by (intros n; by induction n).
  rewrite E1, E2, E3, Hz. fold mp. unfold dec_eqb. by rewrite bool_decide_true by done.
Qed.

End signatures.
End correct.

(** ** Theorems *)
Section theorems.
Context `{HG : !Gmp} `{HGok : !GmpOK}.
Context (junk : Z -> list Z) (Hjunk : forall n, 0 <= n -> length (junk n) = Z.to_nat n).
Context (rnd : Z -> list Z) (Hrnd : forall n, 0 <= n -> length (rnd n) = Z.to_nat n /\ Forall is_byte (rnd n)).

(** C17: a padded message is an integer of at most [nbits] bits, from which
    [post_decrypt] recovers the message, whatever the random bytes were; this
    for every number of bits, also if it is not a multiple of 8, and every
    message that is not too long. *)
Theorem pad_encrypt_roundtrip msg nbits :
  Forall is_byte msg -> 0 <= nbits < 2 ^ 32 -> Z.of_nat (length msg) + 32 <= nbits / 8 ->
  exists m x, pre_encrypt junk rnd msg nbits = Done m /\ mpz_rep m x /\ 0 <= x < 2 ^ nbits
    /\ post_decrypt junk m (Z.of_nat (length msg)) nbits = Done (Some msg).
Proof using HGok Hjunk Hrnd. intros. apply encrypt_spec; done || lia. Qed.

(** C25: [post_verify] accepts what [pre_sign] made, and for a context with
    another message it accepts exactly if the hashes of the two messages, with
    the random bytes, collide. *)
Theorem pad_sign_verify sc M nbits :
  52 <= nbits / 8 -> nbits < 2 ^ 32 -> ctx_holds sc M -> Z.of_nat (length M) + 80 < 2 ^ 64 ->
  exists m x, pre_sign junk rnd sc nbits = Done m /\ mpz_rep m x /\ 0 <= x < 2 ^ nbits
    /\ forall sc' M', ctx_holds sc' M' -> Z.of_nat (length M') + 80 < 2 ^ 64 ->
       post_verify junk sc' m nbits = Done (dec_eqb (fips_sha1 (M' ++ rnd 16)) (fips_sha1 (M ++ rnd 16))).
Proof using HGok Hjunk Hrnd.
  intros Hb Hn Hsc Hs. destruct (Hrnd 16 ltac:(lia)) as [H1 H2].
  apply sign_spec; try done. pose proof (Z.div_mod nbits 8 ltac:(lia)). pose proof (Z.mod_pos_bound nbits 8 ltac:(lia)). lia.
Qed.

(** [post_verify_r] recovers the message from what [pre_sign_r] made. *)
Theorem pad_sign_recover msg nbits :
  Forall is_byte msg -> nbits < 2 ^ 32 -> 36 + Z.max 16 (Z.of_nat (length msg)) <= nbits / 8 ->
  exists m x, pre_sign_r junk rnd msg nbits = Done m /\ mpz_rep m x /\ 0 <= x < 2 ^ nbits
    /\ post_verify_r junk m (Z.of_nat (length msg)) nbits = Done (Some msg).
Proof using HGok Hjunk Hrnd.
  intros Hm Hn Hb. destruct (Hrnd 16 ltac:(lia)) as [H1 H2].
  apply sign_r_spec; try done. pose proof (Z.div_mod nbits 8 ltac:(lia)). pose proof (Z.mod_pos_bound nbits 8 ltac:(lia)). lia.
Qed.

End theorems.

(** ** Witnesses *)
Definition sample_bytes (n : Z) : list Z := replicate (Z.to_nat n) 5.
Lemma sample_bytes_ok n : 0 <= n -> length (sample_bytes n) = Z.to_nat n /\ Forall is_byte (sample_bytes n).
Proof. intros _. split; [apply length_replicate|]. apply Forall_replicate. unfold is_byte. lia. Qed.

Lemma pad_encrypt_roundtrip_witness :
  exists m x, @pre_encrypt gmp_model sample_bytes sample_bytes [104; 105] 290 = Done m /\ mpz_rep m x
    /\ 0 <= x < 2 ^ 290 /\ post_decrypt sample_bytes m 2 290 = Done (Some [104; 105]).
Proof.
  apply (@pad_encrypt_roundtrip gmp_model gmp_model_ok sample_bytes (fun n H => proj1 (sample_bytes_ok n H))
           sample_bytes sample_bytes_ok [104; 105] 290).
  - repeat constructor; unfold is_byte; lia.
  - lia.
  - change (290 / 8) with 36. cbn. lia.
Defined.

Lemma pad_sign_verify_witness :
  exists m x, @pre_sign gmp_model sample_bytes sample_bytes (sha1ctx_new (replicate 64 0)) 421 = Done m /\ mpz_rep m x
    /\ 0 <= x < 2 ^ 421 /\ forall sc' M', ctx_holds sc' M' -> Z.of_nat (length M') + 80 < 2 ^ 64 ->
       post_verify sample_bytes sc' m 421
       = Done (dec_eqb (fips_sha1 (M' ++ sample_bytes 16)) (fips_sha1 ([] ++ sample_bytes 16))).
Proof.
  apply (@pad_sign_verify gmp_model gmp_model_ok sample_bytes (fun n H => proj1 (sample_bytes_ok n H))
           sample_bytes sample_bytes_ok (sha1ctx_new (replicate 64 0)) [] 421).
  - change (421 / 8) with 52. lia.
  - lia.
  - apply sha1ctx_new_rep. reflexivity.
  - cbn. lia.
Defined.

Lemma pad_sign_recover_witness :
  exists m x, @pre_sign_r gmp_model sample_bytes sample_bytes [104; 105] 421 = Done m /\ mpz_rep m x
    /\ 0 <= x < 2 ^ 421 /\ post_verify_r sample_bytes m 2 421 = Done (Some [104; 105]).
Proof.
  apply (@pad_sign_recover gmp_model gmp_model_ok sample_bytes (fun n H => proj1 (sample_bytes_ok n H))
           sample_bytes sample_bytes_ok [104; 105] 421).
  - repeat constructor; unfold is_byte; lia.
  - lia.
  - change (421 / 8) with 52. cbn. lia.
Defined.
