(* ===== verification/Suio.v ===== *)
(** * Scatter/gather buffers: [async/suio++.C] and [async/suio++.h]

    A [suio] is a queue of bytes kept as a list of pieces of memory.  Short
    data is copied into a scratch block, long data is only pointed to.
    Memory is a map from blocks to their bytes; the object's own small buffer
    [defbuf] is block [0].  Blocks that filled up are freed by callbacks in
    the same list as the callbacks of the user, when the bytes before them
    have left the queue. *)
From Stdlib Require Import ZArith Lia.
From stdpp Require Import prelude gmap.
From S2P Require Import Prelude Mdblock.

Definition smallbufsize : Z := 0x80.
Definition suio_blocksize : Z := 0x2000.
Definition MALLOCRESV : Z := 16.

Definition ptr : Type := nat * Z.
Record iovec := mkiov { iov_blk : nat; iov_off : Z; iov_len : Z }.

(** A callback frees a block or is the user's. *)
Inductive uiofn := Dealloc (b : nat) | Call (k : nat).
Record uiocb := mkcb { cb_nbytes : Z; cb_fn : uiofn }.

Record suio := mksuio {
  iovs : list iovec;
  uiocbs : list uiocb;
  uiobytes : Z;
  nrembytes : Z;
  nremiov : Z;
  lastiovend : option ptr;
  scratch_buf : nat;
  scratch_pos : Z;
  scratch_lim : Z
}.

(** Memory, the next block that [allocator] returns, and the user's
    callbacks that have been called. *)
Record world := mkw { heap : gmap nat (list Z); fresh_blk : nat; called : list nat }.

Definition defbuf : nat := 0.

Definition suio_new : suio := mksuio [] [] 0 0 0 None defbuf 0 smallbufsize.

(** ** Memory *)
Definition load (w : world) (b : nat) (off len : Z) : outcome (list Z) :=
  match heap w !! b with
  | Some blk =>
      if (0 <=? off) && (0 <=? len) && (off + len <=? Z.of_nat (length blk))
      then Done (take (Z.to_nat len) (drop (Z.to_nat off) blk)) else Wild
  | None => Wild
  end.

Definition store (w : world) (b : nat) (off : Z) (data : list Z) : outcome world :=
  match heap w !! b with
  | Some blk => blk ← copy_in blk off data; Done (mkw (<[b := blk]> (heap w)) (fresh_blk w) (called w))
  | None => Wild
  end.

Definition free (w : world) (b : nat) : outcome world :=
  match heap w !! b with
  | Some _ => Done (mkw (delete b (heap w)) (fresh_blk w) (called w))
  | None => Wild
  end.

(** A callback is called. *)
Definition call (w : world) (f : uiofn) : outcome world :=
  match f with
  | Dealloc b => free w b
  | Call k => Done (mkw (heap w) (fresh_blk w) (called w ++ [k]))
  end.

Section suio.
(** What new memory holds. *)
Context (junk : Z -> list Z).

Definition allocator (w : world) (n : Z) : nat * world :=
  (fresh_blk w, mkw (<[fresh_blk w := junk n]> (heap w)) (S (fresh_blk w)) (called w)).

Definition set_cbs (s : suio) (l : list uiocb) : suio :=
  mksuio (iovs s) l (uiobytes s) (nrembytes s) (nremiov s) (lastiovend s)
         (scratch_buf s) (scratch_pos s) (scratch_lim s).

Fixpoint makeuiocbs_loop (l : list uiocb) (rem : Z) (w : world) : outcome (list uiocb * world) :=
  match l with
  | c :: l' =>
      if cb_nbytes c <=? rem then w ← call w (cb_fn c); makeuiocbs_loop l' rem w
      else Done (l, w)
  | [] => Done ([], w)
  end.

Definition makeuiocbs (w : world) (s : suio) : outcome (world * suio) :=
  r ← makeuiocbs_loop (uiocbs s) (nrembytes s) w;
  let '(l, w) := r : list uiocb * world in
  Done (w, set_cbs s l).

Definition iovcb (w : world) (s : suio) (f : uiofn) : outcome (world * suio) :=
  if uiobytes s =? 0 then w ← call w f; Done (w, s)
  else Done (w, set_cbs s (uiocbs s ++ [mkcb (nrembytes s + uiobytes s) f])).

Definition breakiov (s : suio) : suio :=
  mksuio (iovs s) (uiocbs s) (uiobytes s) (nrembytes s) (nremiov s) None
         (scratch_buf s) (scratch_pos s) (scratch_lim s).

(** [iovs.back ().iov_len += len] *)
Fixpoint extend_back (l : list iovec) (len : Z) : outcome (list iovec) :=
  match l with
  | [] => Wild
  | [v] => Done [mkiov (iov_blk v) (iov_off v) (iov_len v + len)]
  | v :: l => l ← extend_back l len; Done (v :: l)
  end.

(** The pieces and [lastiovend] with one more piece. *)
Definition push_iovs (s : suio) (base : ptr) (len : Z) : outcome (list iovec * option ptr) :=
  if bool_decide (lastiovend s = Some base) then
    l ← extend_back (iovs s) len;
    Done (l, Some (base.1, base.2 + len))
  else if negb (len =? 0) then
    Done (iovs s ++ [mkiov (base.1) (base.2) len], Some (base.1, base.2 + len))
  else Done (iovs s, lastiovend s).

Definition pushiov (s : suio) (base : ptr) (len : Z) : outcome suio :=
  r ← push_iovs s base len;
  let '(l, last) := r : list iovec * option ptr in
  let s := mksuio l (uiocbs s) (uiobytes s + len) (nrembytes s) (nremiov s) last
                  (scratch_buf s) (scratch_pos s) (scratch_lim s) in
  if bool_decide (base = (scratch_buf s, scratch_pos s)) then
    let pos := scratch_pos s + len in
    assertM (pos <=? scratch_lim s) ;;
    Done (mksuio l (uiocbs s) (uiobytes s) (nrembytes s) (nremiov s) last
                 (scratch_buf s) pos (scratch_lim s))
  else Done s.

Definition scratch_ptr (s : suio) : ptr := (scratch_buf s, scratch_pos s).

Definition morescratch (w : world) (s : suio) (size : Z) : outcome (world * suio) :=
  let size := ((size + MALLOCRESV + (suio_blocksize - 1)) .& Z.lnot (suio_blocksize - 1)) - MALLOCRESV in
  ws ← (if bool_decide (scratch_buf s = defbuf) then Done (w, s)
        else iovcb w s (Dealloc (scratch_buf s)));
  let '(w, s) := ws : world * suio in
  let '(b, w) := allocator w size in
  Done (w, mksuio (iovs s) (uiocbs s) (uiobytes s) (nrembytes s) (nremiov s) (lastiovend s) b 0 size).

Definition getspace (w : world) (s : suio) (n : Z) : outcome (ptr * world * suio) :=
  if n <=? scratch_lim s - scratch_pos s then Done (scratch_ptr s, w, s)
  else
    ws ← morescratch w s n;
    let '(w, s) := ws : world * suio in
    Done (scratch_ptr s, w, s).

(** Data written at [scratch_pos] and appended. *)
Definition put_scratch (w : world) (s : suio) (data : list Z) : outcome (world * suio) :=
  w ← store w (scratch_buf s) (scratch_pos s) data;
  s ← pushiov s (scratch_ptr s) (Z.of_nat (length data));
  Done (w, s).

Definition slowcopy (w : world) (s : suio) (buf : list Z) : outcome (world * suio) :=
  let n := scratch_lim s - scratch_pos s in
  if Z.of_nat (length buf) <=? n then put_scratch w s buf
  else
    x ← (if (smallbufsize <=? n) || bool_decide (lastiovend s = Some (scratch_ptr s)) then
           ws ← put_scratch w s (take (Z.to_nat n) buf);
           let '(w, s) := ws : world * suio in
           Done (w, s, drop (Z.to_nat n) buf)
         else Done (w, s, buf));
    let '(w, s, buf) := x : world * suio * list Z in
    ws ← morescratch w s (Z.of_nat (length buf));
    let '(w, s) := ws : world * suio in
    put_scratch w s buf.

Definition copy (w : world) (s : suio) (buf : list Z) : outcome (world * suio) :=
  if Z.of_nat (length buf) <=? scratch_lim s - scratch_pos s then put_scratch w s buf
  else slowcopy w s buf.

(** [slowfill] writes the same bytes with [memset]. *)
Definition slowfill (w : world) (s : suio) (c len : Z) : outcome (world * suio) :=
  let n := scratch_lim s - scratch_pos s in
  if len <=? n then put_scratch w s (replicate (Z.to_nat len) c)
  else
    x ← (if (smallbufsize <=? n) || bool_decide (lastiovend s = Some (scratch_ptr s)) then
           ws ← put_scratch w s (replicate (Z.to_nat n) c);
           let '(w, s) := ws : world * suio in
           Done (w, s, len - n)
         else Done (w, s, len));
    let '(w, s, len) := x : world * suio * Z in
    ws ← morescratch w s len;
    let '(w, s) := ws : world * suio in
    put_scratch w s (replicate (Z.to_nat len) c).

Definition fill (w : world) (s : suio) (c n : Z) : outcome (world * suio) :=
  if n <=? 0 then Done (w, s)
  else if n <=? scratch_lim s - scratch_pos s then put_scratch w s (replicate (Z.to_nat n) c)
  else slowfill w s c n.

Definition print (w : world) (s : suio) (buf : ptr) (len : Z) : outcome (world * suio) :=
  if (len <=? smallbufsize) && negb (bool_decide (buf = scratch_ptr s)) then
    data ← load w (buf.1) (buf.2) len;
    copy w s data
  else
    s ← pushiov s buf len;
    Done (w, s).

(** ** [iovmgr]

    The pieces of the caller, by their bytes. *)
Record iovmgr := mkiom { cur : list Z; iom_rest : list (list Z) }.

Definition iovmgr_new (v : list (list Z)) : iovmgr :=
  match v with
  | c :: v => mkiom c v
  | [] => mkiom [] []
  end.

Fixpoint skip_loop (n : Z) (v : list (list Z)) : Z * list (list Z) :=
  match v with
  | c :: v' => if Z.of_nat (length c) <=? n then skip_loop (n - Z.of_nat (length c)) v' else (n, v)
  | [] => (n, [])
  end.

Definition iom_skip (m : iovmgr) (n : Z) : outcome iovmgr :=
  if n <? Z.of_nat (length (cur m)) then Done (mkiom (drop (Z.to_nat n) (cur m)) (iom_rest m))
  else
    let n := n - Z.of_nat (length (cur m)) in
    let '(n, v) := skip_loop n (iom_rest m) in
    if negb (n =? 0) then
      match v with
      | c :: v => if Z.of_nat (length c) <? n then Panic else Done (mkiom (drop (Z.to_nat n) c) v)
      | [] => Panic
      end
    else Done (mkiom [] v).

(** Whole pieces as long as they fit; the bytes, the room left, the rest. *)
Fixpoint copyout_loop (room : Z) (v : list (list Z)) : list Z * Z * list (list Z) :=
  match v with
  | c :: v' =>
      if Z.of_nat (length c) <=? room then
        let '(out, room, v) := copyout_loop (room - Z.of_nat (length c)) v' in
        (c ++ out, room, v)
      else ([], room, v)
  | [] => ([], room, [])
  end.

(** The bytes that are copied to a buffer of [len] bytes. *)
Definition iom_copyout (m : iovmgr) (len : Z) : list Z * iovmgr :=
  if len <? Z.of_nat (length (cur m)) then
    (take (Z.to_nat len) (cur m), mkiom (drop (Z.to_nat len) (cur m)) (iom_rest m))
  else
    let '(out, room, v) := copyout_loop (len - Z.of_nat (length (cur m))) (iom_rest m) in
    match v with
    | [] => (cur m ++ out, mkiom [] [])
    | c :: v =>
        if 0 <? room then
          (cur m ++ out ++ take (Z.to_nat room) c, mkiom (drop (Z.to_nat room) c) v)
        else (cur m ++ out, mkiom c v)
    end.

Definition iom_size (m : iovmgr) : Z :=
  Z.of_nat (length (cur m)) + foldr (fun c n => Z.of_nat (length c) + n) 0 (iom_rest m).

Definition iovsize (v : list (list Z)) : Z := foldl (fun n c => n + Z.of_nat (length c)) 0 v.

Definition copyv (w : world) (s : suio) (iov : list (list Z)) (skip : Z) : outcome (world * suio) :=
  iom ← iom_skip (iovmgr_new iov) skip;
  let n := scratch_lim s - scratch_pos s in
  x ← (if bool_decide (lastiovend s = Some (scratch_ptr s)) || (smallbufsize <=? n) then
         let '(data, iom) := iom_copyout iom n in
         ws ← (if 0 <? Z.of_nat (length data) then put_scratch w s data else Done (w, s));
         let '(w, s) := ws : world * suio in
         Done (w, s, iom)
       else Done (w, s, iom));
  let '(w, s, iom) := x : world * suio * iovmgr in
  let n := iom_size iom in
  if 0 <? n then
    ws ← morescratch w s n;
    let '(w, s) := ws : world * suio in
    put_scratch w s ((iom_copyout iom n).1)
  else Done (w, s).

(** ** Taking bytes from the front *)
(** The loop of [rembytes]: how many bytes and which pieces are left, and how
    many pieces were passed. *)
Fixpoint rem_loop (l : list iovec) (n : Z) : Z * list iovec * Z :=
  match l with
  | v :: l' =>
      if iov_len v <=? n then
        let '(n, l, k) := rem_loop l' (n - iov_len v) in (n, l, k + 1)
      else (n, l, 0)
  | [] => (n, [], 0)
  end.

Definition rembytes (w : world) (s : suio) (n : Z) : outcome (world * suio) :=
  assertM (n <=? uiobytes s) ;;
  let '(k, l, niov) := rem_loop (iovs s) n in
  l ← (if 0 <? k then
         match l with
         | v :: l => Done (mkiov (iov_blk v) (iov_off v + k) (iov_len v - k) :: l)
         | [] => Panic
         end
       else Done l);
  let empty := bool_decide (l = []) in
  makeuiocbs w
    (mksuio l (uiocbs s) (uiobytes s - n) (nrembytes s + n) (nremiov s + niov)
            (if empty then None else lastiovend s) (scratch_buf s)
            (if empty then 0 else scratch_pos s) (scratch_lim s)).

Definition clear (w : world) (s : suio) : outcome (world * suio) :=
  ws ← rembytes w s (uiobytes s);
  let '(w, s) := ws : world * suio in
  w ← (if bool_decide (scratch_buf s = defbuf) then Done w else free w (scratch_buf s));
  Done (w, mksuio [] [] (uiobytes s) (nrembytes s) (nremiov s) (lastiovend s) defbuf 0 smallbufsize).

(** [memcpy] of the pieces to a buffer of [len] bytes. *)
Fixpoint copyout_iovs (w : world) (l : list iovec) (len : Z) : outcome (list Z) :=
  match l with
  | [] => Done []
  | v :: l =>
      if iov_len v <=? len then
        d ← load w (iov_blk v) (iov_off v) (iov_len v);
        r ← copyout_iovs w l (len - iov_len v);
        Done (d ++ r)
      else load w (iov_blk v) (iov_off v) len
  end.
Definition copyout (w : world) (s : suio) (len : Z) : outcome (list Z) := copyout_iovs w (iovs s) len.

(** The number of bytes up to the first newline, or [0]. *)
Fixpoint memchr (c : Z) (l : list Z) : option Z :=
  match l with
  | [] => None
  | x :: l => if x =? c then Some 0 else match memchr c l with Some i => Some (i + 1) | None => None end
  end.
Fixpoint linelen_iovs (w : world) (l : list iovec) (n : Z) : outcome Z :=
  match l with
  | [] => Done 0
  | v :: l =>
      d ← load w (iov_blk v) (iov_off v) (iov_len v);
      match memchr 10 d with
      | Some i => Done (n + i + 1)
      | None => linelen_iovs w l (n + iov_len v)
      end
  end.
Definition linelen (w : world) (s : suio) : outcome Z := linelen_iovs w (iovs s) 0.

(** ** Input and output *)
(** What the kernel answers to a [writev]: it takes that many bytes (at least
    one of those it is given), or none now, or fails. *)
Inductive wres := Wrote (n : Z) | Again | Werr.

Definition UIO_MAXIOV : Z := 1024.

(** The loops of [output]: [cnt] pieces at most, or all of them; the bytes
    that the kernel took.  The answers run out like [EAGAIN]. *)
Fixpoint output_loop (ks : list wres) (maxiovno : option Z) (w : world) (s : suio)
    : outcome (bool * list Z * list wres * world * suio) :=
  let more := match maxiovno with None => negb (bool_decide (iovs s = [])) | Some m => nremiov s <? m end in
  if more then
    let k := Z.min (match maxiovno with None => Z.of_nat (length (iovs s)) | Some m => m - nremiov s end) UIO_MAXIOV in
    data ← copyout_iovs w (take (Z.to_nat k) (iovs s)) (uiobytes s);
    match ks with
    | Wrote n :: ks =>
        let n := Z.min (Z.max 1 n) (Z.of_nat (length data)) in
        ws ← rembytes w s n;
        let '(w, s) := ws : world * suio in
        r ← output_loop ks maxiovno w s;
        let '(err, out, ks, w, s) := r : bool * list Z * list wres * world * suio in
        Done (err, take (Z.to_nat n) data ++ out, ks, w, s)
    | Werr :: ks => Done (true, [], ks, w, s)
    | Again :: ks => Done (false, [], ks, w, s)
    | [] => Done (false, [], [], w, s)
    end
  else Done (false, [], ks, w, s).

(** The result is [-1] for an error, else whether anything was written. *)
Definition output (ks : list wres) (cnt : option Z) (w : world) (s : suio)
    : outcome (Z * list Z * list wres * world * suio) :=
  (match cnt with
   | Some c => assertM (c <=? Z.of_nat (length (iovs s)))
   | None => Done tt
   end) ;;
  r ← output_loop ks (match cnt with Some c => Some (nremiov s + c) | None => None end) w s;
  let '(err, out, ks, w, s') := r : bool * list Z * list wres * world * suio in
  Done (if err : bool then -1 else if nrembytes s <? nrembytes s' then 1 else 0, out, ks, w, s').

(** [input]: [data] is what the kernel has to read, [None] an error; at most
    [len] bytes of it are read. *)
Definition input (data : option (list Z)) (len : Z) (w : world) (s : suio)
    : outcome (Z * world * suio) :=
  let space := scratch_lim s - scratch_pos s in
  if (len <=? space) || (space =? 0) then
    x ← getspace w s len;
    let '(buf, w, s) := x : ptr * world * suio in
    match data with
    | None => Done (-1, w, s)
    | Some d =>
        let d := take (Z.to_nat len) d in
        w ← store w (buf.1) (buf.2) d;
        if 0 <? Z.of_nat (length d) then
          s ← pushiov s buf (Z.of_nat (length d)); Done (Z.of_nat (length d), w, s)
        else Done (0, w, s)
    end
  else
    let size := ((len - space + MALLOCRESV + (suio_blocksize - 1)) .& Z.lnot (suio_blocksize - 1)) - MALLOCRESV in
    let '(buf, w) := allocator w size in
    match data with
    | None => w ← free w buf; Done (-1, w, s)
    | Some d =>
        let d := take (Z.to_nat len) d in
        let n := Z.of_nat (length d) in
        w ← store w (scratch_buf s) (scratch_pos s) (take (Z.to_nat space) d);
        w ← store w buf 0 (drop (Z.to_nat space) d);
        if space <? n then
          s ← pushiov s (scratch_ptr s) space;
          assertM (scratch_pos s =? scratch_lim s) ;;
          ws ← (if bool_decide (scratch_buf s = defbuf) then Done (w, s)
                else iovcb w s (Dealloc (scratch_buf s)));
          let '(w, s) := ws : world * suio in
          let s := mksuio (iovs s) (uiocbs s) (uiobytes s) (nrembytes s) (nremiov s) (lastiovend s) buf 0 size in
          s ← pushiov s (scratch_ptr s) (n - space);
          Done (n, w, s)
        else
          s ← (if 0 <? n then pushiov s (scratch_ptr s) n else Done s);
          w ← free w buf;
          Done (n, w, s)
    end.

(** [iovscrub], with a budget of turns: the loop does not move on. *)
Fixpoint iovscrub (fuel : nat) (w : world) (l : list iovec) : outcome world :=
  match fuel, l with
  | _, [] => Done w
  | O, _ => Spin
  | S fuel, v :: _ =>
      w ← store w (iov_blk v) (iov_off v) (replicate (Z.to_nat (iov_len v)) 0);
      iovscrub fuel w l
  end.

End suio.
