(* ===== verification/SuioSpec.v ===== *)
(** * A [suio] is a queue of bytes

    The invariant of the structure, and the queue it stands for. *)
From Stdlib Require Import ZArith Lia Sorting.Sorted.
From stdpp Require Import prelude gmap.
From S2P Require Import Prelude Mdblock Suio.

(** ** What the pieces hold *)
Definition iov_ok (h : gmap nat (list Z)) (v : iovec) : Prop :=
  0 < iov_len v /\ 0 <= iov_off v
  /\ exists blk, h !! iov_blk v = Some blk /\ iov_off v + iov_len v <= Z.of_nat (length blk).

Definition iov_bytes (h : gmap nat (list Z)) (v : iovec) : list Z :=
  match h !! iov_blk v with
  | Some blk => take (Z.to_nat (iov_len v)) (drop (Z.to_nat (iov_off v)) blk)
  | None => []
  end.

Definition content (h : gmap nat (list Z)) (l : list iovec) : list Z := concat (iov_bytes h <$> l).
Definition sizes (l : list iovec) : Z := foldr (fun v n => iov_len v + n) 0 l.

Lemma content_app h l k : content h (l ++ k) = content h l ++ content h k.
Proof. unfold content. by rewrite fmap_app, concat_app. Qed.

Lemma content_cons h v l : content h (v :: l) = iov_bytes h v ++ content h l.
Proof. done. Qed.

Lemma sizes_app l k : sizes (l ++ k) = sizes l + sizes k.
Proof. induction l as [|v l IH]; [done|]. cbn [app sizes foldr] in *. unfold sizes in *. lia. Qed.

Lemma iov_bytes_length h v : iov_ok h v -> Z.of_nat (length (iov_bytes h v)) = iov_len v.
Proof.
  intros (H1 & H2 & blk & E & Hb). unfold iov_bytes. rewrite E, length_take, length_drop. lia.
Qed.

Lemma content_length h l : Forall (iov_ok h) l -> Z.of_nat (length (content h l)) = sizes l.
Proof.
  induction 1 as [|v l Hv _ IH]; [done|]. rewrite content_cons, length_app, Nat2Z.inj_add, (iov_bytes_length h v Hv), IH.
  done.
Qed.

Lemma sizes_nonneg h l : Forall (iov_ok h) l -> 0 <= sizes l.
Proof. intros H. rewrite <- (content_length h l H). lia. Qed.

Lemma content_nil_iff h l : Forall (iov_ok h) l -> content h l = [] -> l = [].
Proof.
  intros H E. destruct H as [|v l Hv Hl]; [done|]. pose proof (iov_bytes_length h v Hv) as L.
  rewrite content_cons in E. apply app_nil in E as [E _]. rewrite E in L. destruct Hv. cbn in L. lia.
Qed.

(** Memory that the pieces do not use may change. *)
Definition agree (h h' : gmap nat (list Z)) (v : iovec) : Prop :=
  forall blk, h !! iov_blk v = Some blk -> iov_off v + iov_len v <= Z.of_nat (length blk) ->
  exists blk', h' !! iov_blk v = Some blk' /\ length blk' = length blk
    /\ take (Z.to_nat (iov_off v + iov_len v)) blk' = take (Z.to_nat (iov_off v + iov_len v)) blk.

Lemma agree_ok h h' v : iov_ok h v -> agree h h' v -> iov_ok h' v /\ iov_bytes h' v = iov_bytes h v.
Proof.
  intros (H1 & H2 & blk & E & Hb) Ha. destruct (Ha blk E Hb) as (blk' & E' & L & T). split.
  - split; [done|]. split; [done|]. exists blk'. split; [done|]. lia.
  - unfold iov_bytes. rewrite E, E', !take_drop_commute.
    replace (Z.to_nat (iov_off v) + Z.to_nat (iov_len v))%nat with (Z.to_nat (iov_off v + iov_len v)) by lia.
    by rewrite T.
Qed.

Lemma agree_content h h' l :
  Forall (iov_ok h) l -> Forall (agree h h') l -> Forall (iov_ok h') l /\ content h' l = content h l.
Proof.
  intros H1 H2. induction l as [|v l IH]; [done|]. inversion H1; inversion H2; subst.
  destruct (agree_ok h h' v) as [A B]; [done|done|]. destruct IH as [C D]; [done|done|].
  split; [by constructor|]. by rewrite !content_cons, B, D.
Qed.

Lemma agree_eq h h' v : h' !! iov_blk v = h !! iov_blk v -> agree h h' v.
Proof. intros E blk Hb _. exists blk. by rewrite E. Qed.

(** ** The queue *)
(** Its bytes, the callbacks of the user that wait, each with the number of
    bytes it waits for, and those that were called. *)
Record queue := mkq { q_bytes : list Z; q_pend : list (Z * nat); q_log : list nat }.

Definition q_len (q : queue) : Z := Z.of_nat (length (q_bytes q)).
Definition q_append (q : queue) (d : list Z) : queue := mkq (q_bytes q ++ d) (q_pend q) (q_log q).

(** The callbacks that wait for no more than [n] bytes come first. *)
Fixpoint fire (n : Z) (l : list (Z * nat)) : list nat * list (Z * nat) :=
  match l with
  | (p, k) :: l' => if p <=? n then let '(f, r) := fire n l' in (k :: f, r) else ([], l)
  | [] => ([], [])
  end.

Definition q_rem (q : queue) (n : Z) : queue :=
  let '(f, r) := fire n (q_pend q) in
  mkq (drop (Z.to_nat n) (q_bytes q)) (prod_map (fun p => p - n) id <$> r) (q_log q ++ f).

Definition q_cb (q : queue) (k : nat) : queue :=
  if q_len q =? 0 then mkq (q_bytes q) (q_pend q) (q_log q ++ [k])
  else mkq (q_bytes q) (q_pend q ++ [(q_len q, k)]) (q_log q).

(** ** The invariant *)
Definition ucbs (rem : Z) (l : list uiocb) : list (Z * nat) :=
  omap (fun c => match cb_fn c with Call k => Some (cb_nbytes c - rem, k) | Dealloc _ => None end) l.
Definition dcbs (l : list uiocb) : list nat :=
  omap (fun c => match cb_fn c with Call _ => None | Dealloc b => Some b end) l.

(** Block [b] is not needed any more once [nb] bytes are gone. *)
Definition done_by (rem : Z) (l : list iovec) (b : nat) (nb : Z) : Prop :=
  forall pre v post, l = pre ++ v :: post -> iov_blk v = b -> rem + sizes pre + iov_len v <= nb.

Record suio_ok (w : world) (s : suio) : Prop := {
  ok_iovs : Forall (iov_ok (heap w)) (iovs s);
  ok_bytes : uiobytes s = sizes (iovs s);
  ok_last : forall p, lastiovend s = Some p ->
    exists pre v, iovs s = pre ++ [v] /\ p = (iov_blk v, iov_off v + iov_len v);
  ok_scr : exists sb, heap w !! scratch_buf s = Some sb /\ Z.of_nat (length sb) = scratch_lim s;
  ok_pos : 0 <= scratch_pos s <= scratch_lim s;
  ok_behind : Forall (fun v => iov_blk v = scratch_buf s -> iov_off v + iov_len v <= scratch_pos s) (iovs s);
  ok_def : exists d, heap w !! defbuf = Some d /\ Z.of_nat (length d) = smallbufsize;
  ok_sorted : StronglySorted (fun c d => cb_nbytes c <= cb_nbytes d) (uiocbs s);
  ok_range : Forall (fun c => nrembytes s < cb_nbytes c <= nrembytes s + uiobytes s) (uiocbs s);
  ok_dealloc : Forall (fun c => match cb_fn c with
      | Call _ => True
      | Dealloc b => b <> defbuf /\ b <> scratch_buf s /\ is_Some (heap w !! b)
                     /\ done_by (nrembytes s) (iovs s) b (cb_nbytes c)
      end) (uiocbs s);
  ok_once : NoDup (dcbs (uiocbs s));
  ok_fresh : forall b, is_Some (heap w !! b) -> (b < fresh_blk w)%nat
}.

Record rep (w : world) (s : suio) (q : queue) : Prop := {
  rep_ok : suio_ok w s;
  rep_bytes : content (heap w) (iovs s) = q_bytes q;
  rep_pend : ucbs (nrembytes s) (uiocbs s) = q_pend q;
  rep_log : called w = q_log q
}.

Lemma rep_len w s q : rep w s q -> uiobytes s = q_len q.
Proof.
  intros [O B _ _]. unfold q_len. rewrite <- B, (content_length _ _ (ok_iovs _ _ O)). apply O.
Qed.

Lemma ucbs_app r l k : ucbs r (l ++ k) = ucbs r l ++ ucbs r k.
Proof. unfold ucbs. apply omap_app. Qed.
Lemma dcbs_app l k : dcbs (l ++ k) = dcbs l ++ dcbs k.
Proof. unfold dcbs. apply omap_app. Qed.

Lemma sorted_snoc (l : list uiocb) c :
  StronglySorted (fun c d => cb_nbytes c <= cb_nbytes d) l -> Forall (fun d => cb_nbytes d <= cb_nbytes c) l ->
  StronglySorted (fun c d => cb_nbytes c <= cb_nbytes d) (l ++ [c]).
Proof.
  induction 1 as [|d l Hs IH Hd]; intros Hf; [repeat constructor|]. inversion Hf; subst. cbn. constructor; [auto|].
  apply Forall_app. split; [done|]. by constructor.
Qed.

(** ** Appending a piece *)
Lemma extend_back_snoc l v len :
  extend_back (l ++ [v]) len = Done (l ++ [mkiov (iov_blk v) (iov_off v) (iov_len v + len)]).
Proof.
  induction l as [|u l IH]; [done|]. cbn [app]. destruct (l ++ [v]) eqn:E; [by destruct l|].
  cbn [extend_back] in *. rewrite IH. done.
Qed.

(** The pieces after [pushiov]. *)
Definition pushed (s : suio) (base : ptr) (len : Z) : list iovec :=
  if bool_decide (lastiovend s = Some base) then
    match last (iovs s) with
    | Some v => removelast (iovs s) ++ [mkiov (iov_blk v) (iov_off v) (iov_len v + len)]
    | None => []
    end
  else iovs s ++ [mkiov (base.1) (base.2) len].

Lemma pushed_cases w s base len :
  suio_ok w s ->
  (exists pre v, iovs s = pre ++ [v] /\ base = (iov_blk v, iov_off v + iov_len v)
     /\ lastiovend s = Some base /\ pushed s base len = pre ++ [mkiov (iov_blk v) (iov_off v) (iov_len v + len)])
  \/ (lastiovend s <> Some base /\ pushed s base len = iovs s ++ [mkiov (base.1) (base.2) len]).
Proof.
  intros O. unfold pushed. case_bool_decide as E; [left|right; split; done].
  destruct (ok_last _ _ O _ E) as (pre & v & Ei & Ep). exists pre, v. rewrite Ei, last_snoc, removelast_last. done.
Qed.

Lemma pushed_spec w s base len :
  suio_ok w s -> 0 < len -> iov_ok (heap w) (mkiov (base.1) (base.2) len) ->
  Forall (iov_ok (heap w)) (pushed s base len)
  /\ content (heap w) (pushed s base len) = content (heap w) (iovs s) ++ iov_bytes (heap w) (mkiov (base.1) (base.2) len)
  /\ sizes (pushed s base len) = sizes (iovs s) + len
  /\ exists pre v, pushed s base len = pre ++ [v] /\ iov_blk v = base.1 /\ iov_off v + iov_len v = base.2 + len.
Proof.
  intros O Hl Hb. pose proof (ok_iovs _ _ O) as Hf.
  destruct (pushed_cases w s base len O) as [(pre & v & Ei & -> & _ & ->)|[_ ->]].
  - rewrite Ei in *. apply Forall_app in Hf as [Hp Hv]. rewrite Forall_singleton in Hv.
    destruct Hv as (V1 & V2 & blk & V3 & V4). destruct Hb as (_ & _ & blk' & B1 & B2). cbn [fst snd iov_blk iov_off iov_len] in *.
    rewrite V3 in B1. injection B1 as <-. split_and!.
    + apply Forall_app. split; [done|]. apply Forall_singleton. split; cbn; [lia|]. split; [lia|]. exists blk. split; [done|lia].
    + rewrite !content_app, <- app_assoc. f_equal. unfold content. cbn [fmap list_fmap concat]. rewrite !app_nil_r.
      unfold iov_bytes. cbn [iov_blk iov_off iov_len]. rewrite V3.
      replace (Z.to_nat (iov_len v + len)) with (Z.to_nat (iov_len v) + Z.to_nat len)%nat by lia.
      rewrite <- take_take_drop, drop_drop. do 3 f_equal. lia.
    + rewrite !sizes_app. cbn. lia.
    + eexists pre, _. split; [done|]. cbn. split; [done|lia].
  - split_and!.
    + apply Forall_app. split; [done|]. by apply Forall_singleton.
    + rewrite content_app. f_equal. unfold content. cbn [fmap list_fmap concat]. apply app_nil_r.
    + rewrite sizes_app. cbn. lia.
    + eexists _, _. split; [done|]. done.
Qed.

Lemma done_by_init rem l k b nb : done_by rem (l ++ k) b nb -> done_by rem l b nb.
Proof. intros H pre v post E. apply (H pre v (post ++ k)). by rewrite E, <- app_assoc. Qed.

Lemma done_by_snoc rem l v b nb : done_by rem l b nb -> iov_blk v <> b -> done_by rem (l ++ [v]) b nb.
Proof.
  intros H Hne pre u post E Hu. destruct post as [|x post _] using rev_ind.
  - apply app_inj_tail in E as [-> ->]. done.
  - rewrite app_comm_cons, app_assoc in E. apply app_inj_tail in E as [-> _]. by apply (H pre u post).
Qed.

Lemma pushed_done_by w s base len b nb :
  suio_ok w s -> done_by (nrembytes s) (iovs s) b nb -> base.1 <> b ->
  done_by (nrembytes s) (pushed s base len) b nb.
Proof.
  intros O H Hne. destruct (pushed_cases w s base len O) as [(pre & v & Ei & -> & _ & ->)|[_ ->]].
  - rewrite Ei in H. apply done_by_init in H. by apply done_by_snoc.
  - by apply done_by_snoc.
Qed.

Lemma dcbs_in b c l : c ∈ l -> cb_fn c = Dealloc b -> b ∈ dcbs l.
Proof. intros Hc Hb. apply list_elem_of_omap. exists c. by rewrite Hb. Qed.

(** Where a piece may be that is appended: at the place in the scratch block
    that is not used yet, or in memory that the structure does not write
    to. *)
Definition may_push (s : suio) (base : ptr) (len : Z) : Prop :=
  (base.1 ∉ dcbs (uiocbs s))
  /\ (base = scratch_ptr s /\ scratch_pos s + len <= scratch_lim s \/ base.1 <> scratch_buf s).

Definition pushed_suio (s : suio) (base : ptr) (len : Z) : suio :=
  mksuio (pushed s base len) (uiocbs s) (uiobytes s + len) (nrembytes s) (nremiov s)
    (Some (base.1, base.2 + len)) (scratch_buf s)
    (if bool_decide (base = scratch_ptr s) then scratch_pos s + len else scratch_pos s) (scratch_lim s).

Lemma pushed_suio_ok w s base len :
  suio_ok w s -> 0 < len -> iov_ok (heap w) (mkiov (base.1) (base.2) len) -> may_push s base len ->
  suio_ok w (pushed_suio s base len).
Proof.
  intros O Hl Hb [Hd Hm]. destruct (pushed_spec w s base len O Hl Hb) as (P1 & _ & P3 & pre & v & P4 & P5 & P6).
  pose proof (ok_pos _ _ O) as Hp.
  assert (Hpos : scratch_pos s <= scratch_pos (pushed_suio s base len) <= scratch_lim s).
  { cbn. case_bool_decide as E; [|lia]. destruct Hm as [[_ Hm]|Hm]; [lia|]. by rewrite E in Hm. }
  pose proof O as O'. destruct O as [O1 O2 O3 O4 O5 O6 O7 O8 O9 O10 O11 O12].
  split; cbn [pushed_suio iovs uiocbs uiobytes nrembytes lastiovend scratch_buf scratch_lim]; try done.
  - lia.
  - intros p [= <-]. exists pre, v. rewrite P4, P5, P6. done.
  - cbn in Hpos. cbn. lia.
  - assert (Hn : forall u, iov_blk u = scratch_buf s -> iov_blk u = base.1 -> iov_off u + iov_len u = base.2 + len ->
      iov_off u + iov_len u <= scratch_pos (pushed_suio s base len)).
    { intros u Hu1 Hu2 Hu3. destruct Hm as [[-> _]|Hm]; [|congruence]. cbn. rewrite bool_decide_true by done. cbn in Hu3. lia. }
    destruct (pushed_cases w s base len O') as [(pre' & v' & Ei & Eb & _ & E)|[_ E]]; rewrite E in *.
    + apply app_inj_tail in P4 as [-> <-]. rewrite Ei in O6. apply Forall_app in O6 as [O6 _].
      apply Forall_app. split; [|apply Forall_singleton; intros; by apply (Hn _ ltac:(done) P5 P6)].
      eapply Forall_impl; [exact O6|]. cbn beta. intros u Hu Eu. specialize (Hu Eu). lia.
    + apply app_inj_tail in P4 as [_ <-]. apply Forall_app. split; [|apply Forall_singleton; intros; by apply (Hn _ ltac:(done) P5 P6)].
      eapply Forall_impl; [exact O6|]. cbn beta. intros u Hu Eu. specialize (Hu Eu). lia.
  - eapply Forall_impl; [exact O9|]. cbn beta. intros c Hc. lia.
  - apply Forall_forall. intros c Hc. rewrite Forall_forall in O10. specialize (O10 c Hc).
    destruct (cb_fn c) as [b|k] eqn:Ec; [|done]. destruct O10 as (D1 & D2 & D3 & D4). split_and!; try done.
    apply (pushed_done_by w); [done|done|]. intros <-. apply Hd. by apply (dcbs_in _ c).
Qed.

Lemma pushiov_spec w s base len :
  suio_ok w s -> 0 < len -> iov_ok (heap w) (mkiov (base.1) (base.2) len) -> may_push s base len ->
  pushiov s base len = Done (pushed_suio s base len).
Proof.
  intros O Hl Hb Hm. pose proof (ok_pos _ _ (pushed_suio_ok w s base len O Hl Hb Hm)) as Hp. unfold pushiov.
  assert (E : push_iovs s base len = Done (pushed s base len, Some (base.1, base.2 + len))).
  { unfold push_iovs. destruct (pushed_cases w s base len O) as [(pre & v & Ei & _ & El & ->)|[Hn ->]].
    - case_bool_decide; [|done]. by rewrite Ei, extend_back_snoc.
    - case_bool_decide; [done|]. by destruct (Z.eqb_spec len 0); [lia|]. }
  rewrite E. cbn [mbind outcome_bind scratch_buf scratch_pos scratch_lim uiocbs uiobytes nrembytes nremiov].
  unfold pushed_suio in *. cbn [scratch_pos scratch_lim] in Hp. fold (scratch_ptr s). case_bool_decide as Eb; [|done].
  destruct (Z.leb_spec (scratch_pos s + len) (scratch_lim s)); [done|lia].
Qed.

(** Appending nothing. *)
Lemma pushiov_0 w s base :
  suio_ok w s -> exists s', pushiov s base 0 = Done s' /\ s' = s.
Proof.
  intros O. unfold pushiov. pose proof (ok_pos _ _ O). eexists. split; [|reflexivity].
  assert (E : push_iovs s base 0 = Done (iovs s, lastiovend s)).
  { unfold push_iovs. case_bool_decide as El; [|done]. destruct (ok_last _ _ O _ El) as (pre & v & Ei & ->).
    rewrite Ei, extend_back_snoc, El. cbn. rewrite !Z.add_0_r. by destruct v. }
  rewrite E. cbn [mbind outcome_bind scratch_buf scratch_pos scratch_lim uiocbs uiobytes nrembytes nremiov].
  rewrite !Z.add_0_r. case_bool_decide; [|by destruct s].
  destruct (Z.leb_spec (scratch_pos s) (scratch_lim s)); [by destruct s|lia].
Qed.

(** ** Writing to the scratch block *)
Lemma store_scratch w s data :
  suio_ok w s -> Z.of_nat (length data) <= scratch_lim s - scratch_pos s ->
  exists w', store w (scratch_buf s) (scratch_pos s) data = Done w' /\ suio_ok w' s
    /\ content (heap w') (iovs s) = content (heap w) (iovs s)
    /\ iov_bytes (heap w') (mkiov (scratch_buf s) (scratch_pos s) (Z.of_nat (length data))) = data
    /\ called w' = called w /\ fresh_blk w' = fresh_blk w
    /\ (forall b, b <> scratch_buf s -> heap w' !! b = heap w !! b).
Proof.
  intros O Hl. destruct (ok_scr _ _ O) as (sb & Es & Ls). pose proof (ok_pos _ _ O) as Hp. unfold store. rewrite Es.
  unfold copy_in. destruct (Z.leb_spec 0 (scratch_pos s)); [|lia].
  destruct (Z.leb_spec (scratch_pos s + Z.of_nat (length data)) (Z.of_nat (length sb))); [|lia].
  cbn [andb mbind outcome_bind]. set (sb' := take _ _ ++ _). set (h' := <[scratch_buf s := sb']> (heap w)).
  assert (Ls' : length sb' = length sb) by (unfold sb'; rewrite !length_app, length_take, length_drop; lia).
  assert (Hag : Forall (agree (heap w) h') (iovs s)).
  { apply Forall_forall. intros v Hv. destruct (decide (iov_blk v = scratch_buf s)) as [E|E].
    - intros blk Hb Hr. rewrite E, Es in Hb. injection Hb as <-. exists sb'.
      pose proof (ok_behind _ _ O) as Hbh. rewrite Forall_forall in Hbh. specialize (Hbh v Hv E).
      unfold h'. rewrite E, lookup_insert_eq. split_and!; [done|done|]. unfold sb'.
      rewrite take_app_le by (rewrite length_take; lia). rewrite take_take. f_equal. lia.
    - apply agree_eq. unfold h'. by rewrite lookup_insert_ne. }
  destruct (agree_content _ _ _ (ok_iovs _ _ O) Hag) as [Hi Hc].
  assert (Hlive : forall b, is_Some (h' !! b) <-> is_Some (heap w !! b)).
  { intros b. unfold h'. destruct (decide (b = scratch_buf s)) as [->|]; [rewrite lookup_insert_eq, Es|by rewrite lookup_insert_ne].
    split; eauto. }
  eexists. split; [reflexivity|]. split_and!; try done.
  - destruct O as [O1 O2 O3 O4 O5 O6 O7 O8 O9 O10 O11 O12]. split; cbn [heap fresh_blk]; fold h'; try done.
    + exists sb'. unfold h'. rewrite lookup_insert_eq. split; [done|lia].
    + destruct O7 as (d & Ed & Ld). unfold h'. destruct (decide (defbuf = scratch_buf s)) as [E|E].
      * rewrite E, lookup_insert_eq. exists sb'. split; [done|]. rewrite E, Es in Ed. injection Ed as <-. lia.
      * rewrite lookup_insert_ne by done. by exists d.
    + eapply Forall_impl; [exact O10|]. cbn beta. intros c Hd. destruct (cb_fn c) as [b|k]; [|done].
      by rewrite Hlive.
    + intros b Hb. rewrite Hlive in Hb. auto.
  - unfold iov_bytes. cbn [heap iov_blk iov_off iov_len]. fold h'. unfold h'. rewrite lookup_insert_eq, Nat2Z.id. unfold sb'.
    rewrite drop_app_length', take_app_length; [done|]. rewrite length_take. lia.
  - intros b Hb. cbn [heap]. fold h'. unfold h'. by rewrite lookup_insert_ne.
Qed.

Lemma put_scratch_spec w s q data :
  rep w s q -> Z.of_nat (length data) <= scratch_lim s - scratch_pos s ->
  exists w' s', put_scratch w s data = Done (w', s') /\ rep w' s' (q_append q data)
    /\ scratch_buf s' = scratch_buf s /\ scratch_lim s' = scratch_lim s
    /\ scratch_pos s' = scratch_pos s + Z.of_nat (length data).
Proof.
  intros [O B P L] Hl. unfold put_scratch.
  destruct (store_scratch w s data O Hl) as (w' & -> & O' & C' & D' & L' & _). cbn [mbind outcome_bind].
  destruct data as [|x data].
  - destruct (pushiov_0 w' s (scratch_ptr s) O') as (s' & E & ->). change (Z.of_nat (length (@nil Z))) with 0. rewrite E. cbn [mbind outcome_bind].
    exists w', s. split; [done|]. split.
    + split; [done| |done|by rewrite L']. cbn. by rewrite app_nil_r, C'.
    + split_and!; [done|done|lia].
  - set (len := Z.of_nat (length (x :: data))) in *. assert (0 < len) by (unfold len; cbn [length]; lia).
    destruct (ok_scr _ _ O') as (sb & Es & Ls). pose proof (ok_pos _ _ O') as Hp.
    assert (Hio : iov_ok (heap w') (mkiov (scratch_buf s) (scratch_pos s) len)).
    { split; [done|]. split; [cbn; lia|]. exists sb. cbn. split; [done|lia]. }
    assert (Hmp : may_push s (scratch_ptr s) len).
    { split; [|left; split; [done|lia]]. intros Hin. apply list_elem_of_omap in Hin as (c & Hc & E).
      pose proof (ok_dealloc _ _ O') as Hd. rewrite Forall_forall in Hd. specialize (Hd c Hc).
      destruct (cb_fn c) as [b|k]; [|done]. injection E as ->. by destruct Hd as (_ & ? & _). }
    rewrite (pushiov_spec w' s (scratch_ptr s) len O') by done. cbn [mbind outcome_bind].
    do 2 eexists. split; [reflexivity|]. split.
    + split; [by apply pushed_suio_ok| |done|by rewrite L']. cbn [pushed_suio iovs].
      destruct (pushed_spec w' s (scratch_ptr s) len O' ltac:(done) Hio) as (_ & -> & _). cbn [scratch_ptr fst snd].
      rewrite D', C', B. done.
    + cbn. rewrite bool_decide_true by done. done.
Qed.

(** ** A new scratch block *)
Record suio_core (w : world) (s : suio) : Prop := {
  core_iovs : Forall (iov_ok (heap w)) (iovs s);
  core_bytes : uiobytes s = sizes (iovs s);
  core_last : forall p, lastiovend s = Some p ->
    exists pre v, iovs s = pre ++ [v] /\ p = (iov_blk v, iov_off v + iov_len v);
  core_def : exists d, heap w !! defbuf = Some d /\ Z.of_nat (length d) = smallbufsize;
  core_sorted : StronglySorted (fun c d => cb_nbytes c <= cb_nbytes d) (uiocbs s);
  core_range : Forall (fun c => nrembytes s < cb_nbytes c <= nrembytes s + uiobytes s) (uiocbs s);
  core_dealloc : Forall (fun c => match cb_fn c with
      | Call _ => True
      | Dealloc b => b <> defbuf /\ is_Some (heap w !! b) /\ done_by (nrembytes s) (iovs s) b (cb_nbytes c)
      end) (uiocbs s);
  core_once : NoDup (dcbs (uiocbs s));
  core_fresh : forall b, is_Some (heap w !! b) -> (b < fresh_blk w)%nat
}.

Lemma ok_core w s : suio_ok w s -> suio_core w s.
Proof.
  intros [O1 O2 O3 O4 O5 O6 O7 O8 O9 O10 O11 O12]. split; try done. eapply Forall_impl; [exact O10|].
  cbn beta. intros c. destruct (cb_fn c); [|done]. tauto.
Qed.

Lemma defbuf_not_fresh w s : suio_core w s -> fresh_blk w <> defbuf.
Proof.
  intros C E. destruct (core_def _ _ C) as (d & Ed & _). pose proof (core_fresh _ _ C defbuf) as H.
  rewrite Ed, E in H. specialize (H ltac:(eauto)). lia.
Qed.

Lemma done_by_all h rem l b : Forall (iov_ok h) l -> done_by rem l b (rem + sizes l).
Proof.
  intros H pre v post -> _. rewrite sizes_app. apply Forall_app in H as [_ H]. inversion H; subst.
  pose proof (sizes_nonneg h post ltac:(done)). cbn [sizes foldr] in *. unfold sizes in *. lia.
Qed.

Lemma scratch_not_freed w s : suio_ok w s -> scratch_buf s ∉ dcbs (uiocbs s).
Proof.
  intros O Hin. apply list_elem_of_omap in Hin as (c & Hc & E).
  pose proof (ok_dealloc _ _ O) as Hd. rewrite Forall_forall in Hd. specialize (Hd c Hc).
  destruct (cb_fn c) as [b|k]; [|done]. injection E as ->. by destruct Hd as (_ & ? & _).
Qed.

(** Without bytes there are no pieces and no callbacks. *)
Lemma empty_nothing w s : suio_ok w s -> uiobytes s = 0 -> iovs s = [] /\ uiocbs s = [].
Proof.
  intros O E. split.
  - apply (content_nil_iff (heap w)); [apply O|]. pose proof (content_length _ _ (ok_iovs _ _ O)) as H.
    rewrite <- (ok_bytes _ _ O), E in H. destruct (content _ _); [done|cbn in H; lia].
  - pose proof (ok_range _ _ O) as H. destruct H as [|c l Hc _]; [done|lia].
Qed.

Lemma iovcb_dealloc_core w s :
  suio_ok w s -> scratch_buf s <> defbuf ->
  exists w' s', iovcb w s (Dealloc (scratch_buf s)) = Done (w', s') /\ suio_core w' s'
    /\ content (heap w') (iovs s') = content (heap w) (iovs s) /\ called w' = called w
    /\ ucbs (nrembytes s') (uiocbs s') = ucbs (nrembytes s) (uiocbs s).
Proof.
  intros O Hnd. unfold iovcb. destruct (Z.eqb_spec (uiobytes s) 0) as [E|E].
  - destruct (empty_nothing w s O E) as [Ei Ec]. destruct (ok_scr _ _ O) as (sb & Es & _). cbn [call]. unfold free.
    rewrite Es. cbn [mbind outcome_bind]. do 2 eexists. split; [reflexivity|].
    destruct O as [O1 O2 O3 O4 O5 O6 O7 O8 O9 O10 O11 O12]. rewrite Ei, Ec in *. split_and!; try done.
    split; rewrite ?Ei, ?Ec; try done; cbn [heap fresh_blk].
    + destruct O7 as (d & Ed & Ld). exists d. by rewrite lookup_delete_ne.
    + intros b Hb. apply O12. destruct (decide (b = scratch_buf s)) as [->|]; [by rewrite Es|].
      by rewrite lookup_delete_ne in Hb.
  - do 2 eexists. split; [reflexivity|]. pose proof (ok_core _ _ O) as C. pose proof (scratch_not_freed w s O) as Hsf.
    destruct (ok_scr _ _ O) as (sb & Es & _).
    assert (Hp : 0 < uiobytes s).
    { pose proof (sizes_nonneg _ _ (core_iovs _ _ C)). rewrite (core_bytes _ _ C) in *. lia. }
    destruct C as [C1 C2 C3 C4 C5 C6 C7 C8 C9]. split_and!; try done.
    + split; cbn [set_cbs iovs uiobytes lastiovend uiocbs nrembytes]; try done.
      * apply sorted_snoc; [done|]. eapply Forall_impl; [exact C6|]. cbn. intros c Hc. lia.
      * apply Forall_app. split; [done|]. apply Forall_singleton. cbn. lia.
      * apply Forall_app. split; [done|]. apply Forall_singleton. cbn. split_and!; [done|by rewrite Es|].
        rewrite C2. by apply (done_by_all (heap w)).
      * rewrite dcbs_app. apply NoDup_app. split_and!; [done| |repeat constructor; set_solver].
        intros x Hx Hx2. cbn in Hx2. apply list_elem_of_singleton in Hx2 as ->. done.
    + cbn [set_cbs uiocbs nrembytes]. rewrite ucbs_app. cbn. by rewrite app_nil_r.
Qed.

Lemma morescratch_size size :
  0 < size -> size <= ((size + MALLOCRESV + (suio_blocksize - 1)) .& Z.lnot (suio_blocksize - 1)) - MALLOCRESV.
Proof.
  intros Hs. unfold MALLOCRESV, suio_blocksize. change (0x2000 - 1) with (Z.ones 13).
  replace (_ .& Z.lnot (Z.ones 13)) with (Z.ldiff (size + 16 + Z.ones 13) (Z.ones 13)) by apply Z.ldiff_land.
  rewrite Z.ldiff_ones_r by lia. rewrite Z.shiftr_div_pow2, Z.shiftl_mul_pow2 by lia.
  change (Z.ones 13) with 8191. change (2 ^ 13) with 8192.
  pose proof (Z.div_mod (size + 16 + 8191) 8192 ltac:(lia)). pose proof (Z.mod_pos_bound (size + 16 + 8191) 8192 ltac:(lia)).
  lia.
Qed.

Section suio.
Context (junk : Z -> list Z) (Hjunk : forall n, 0 <= n -> Z.of_nat (length (junk n)) = n).

(** A fresh block is nobody's. *)
Lemma alloc_ok w s size :
  suio_core w s -> 0 <= size ->
  let '(b, w') := allocator junk w size in
  suio_ok w' (mksuio (iovs s) (uiocbs s) (uiobytes s) (nrembytes s) (nremiov s) (lastiovend s) b 0 size)
  /\ content (heap w') (iovs s) = content (heap w) (iovs s) /\ called w' = called w.
Proof using Hjunk.
  intros C Hs. cbn [allocator]. set (b := fresh_blk w). set (h' := <[b := junk size]> (heap w)).
  assert (Hb : heap w !! b = None).
  { destruct (heap w !! b) as [x|] eqn:E; [|done]. exfalso. pose proof (core_fresh _ _ C b ltac:(eauto)). unfold b in *. lia. }
  assert (Hne : forall c, is_Some (heap w !! c) -> c <> b) by (intros c [x Hx] ->; congruence).
  assert (Hnv : forall v, v ∈ iovs s -> iov_blk v <> b).
  { intros v Hv. apply Hne. pose proof (core_iovs _ _ C) as Hi. rewrite Forall_forall in Hi.
    destruct (Hi v Hv) as (_ & _ & blk & -> & _). eauto. }
  assert (Hag : Forall (agree (heap w) h') (iovs s)).
  { apply Forall_forall. intros v Hv. apply agree_eq. unfold h'. rewrite lookup_insert_ne; [done|]. intros E. by apply (Hnv v Hv). }
  destruct (agree_content _ _ _ (core_iovs _ _ C) Hag) as [Hi Hc].
  pose proof (defbuf_not_fresh w s C) as Hdf. split_and!; [|done|done].
  destruct C as [C1 C2 C3 C4 C5 C6 C7 C8 C9]. split; cbn; fold h'; try done.
  - exists (junk size). unfold h'. rewrite lookup_insert_eq. split; [done|]. by apply Hjunk.
  - apply Forall_forall. intros v Hv E. by apply Hnv in E.
  - destruct C4 as (d & Ed & Ld). exists d. unfold h'. rewrite lookup_insert_ne by (unfold b; done). done.
  - eapply Forall_impl; [exact C7|]. cbn beta. intros c. destruct (cb_fn c) as [x|k]; [|done].
    intros (D1 & D2 & D3). split_and!; try done; [by apply Hne|]. unfold h'. rewrite lookup_insert_ne; [done|].
    intros E. by apply (Hne x).
  - intros c Hcc. unfold h' in Hcc. destruct (decide (c = b)) as [->|]; [unfold b; lia|].
    rewrite lookup_insert_ne in Hcc by done. specialize (C9 c Hcc). lia.
Qed.

Lemma morescratch_spec w s q size :
  rep w s q -> 0 < size ->
  exists w' s', morescratch junk w s size = Done (w', s') /\ rep w' s' q
    /\ scratch_pos s' = 0 /\ size <= scratch_lim s'.
Proof using Hjunk.
  intros [O B P L] Hs. unfold morescratch. pose proof (morescratch_size size Hs) as Hz. set (sz := _ - MALLOCRESV) in *.
  assert (Hc : exists w1 s1, (if bool_decide (scratch_buf s = defbuf) then Done (w, s) else iovcb w s (Dealloc (scratch_buf s)))
      = Done (w1, s1) /\ suio_core w1 s1 /\ content (heap w1) (iovs s1) = content (heap w) (iovs s) /\ called w1 = called w
      /\ ucbs (nrembytes s1) (uiocbs s1) = ucbs (nrembytes s) (uiocbs s)).
  { case_bool_decide as E; [|by apply iovcb_dealloc_core]. exists w, s. split_and!; try done. by apply ok_core. }
  destruct Hc as (w1 & s1 & -> & C & E1 & E2 & E3). cbn [mbind outcome_bind].
  pose proof (alloc_ok w1 s1 sz C ltac:(lia)) as Ha. destruct (allocator junk w1 sz) as [b w2].
  destruct Ha as (O2 & E4 & E5). do 2 eexists. split; [reflexivity|]. split; [|done].
  split; [done| | |]; cbn [iovs nrembytes uiocbs]; congruence.
Qed.

End suio.
