(* ===== verification/SuioOps.v ===== *)
(** * The operations of a [suio] are those of the queue *)
From Stdlib Require Import ZArith Lia Sorting.Sorted.
From stdpp Require Import prelude gmap.
From S2P Require Import Prelude Mdblock Suio SuioSpec.

Lemma q_append_app q d e : q_append (q_append q d) e = q_append q (d ++ e).
Proof. unfold q_append. cbn. by rewrite app_assoc. Qed.

Lemma q_append_nil q : q_append q [] = q.
Proof. destruct q. unfold q_append. cbn. by rewrite app_nil_r. Qed.

(** ** Copying in *)
Section suio.
Context (junk : Z -> list Z) (Hjunk : forall n, 0 <= n -> Z.of_nat (length (junk n)) = n).

(** A new block and data for it. *)
Lemma more_put w s q data :
  rep w s q -> (0 < length data)%nat ->
  exists w' s', (ws ← morescratch junk w s (Z.of_nat (length data));
      let '(w, s) := ws : world * suio in put_scratch w s data) = Done (w', s') /\ rep w' s' (q_append q data).
Proof using Hjunk.
  intros R Hd. destruct (morescratch_spec junk Hjunk w s q (Z.of_nat (length data)) R) as (w1 & s1 & -> & R1 & P1 & L1); [lia|].
  cbn [mbind outcome_bind]. destruct (put_scratch_spec w1 s1 q data R1) as (w2 & s2 & E & R2 & _); [lia|]. by exists w2, s2.
Qed.

Lemma slowcopy_spec w s q data :
  rep w s q -> exists w' s', slowcopy junk w s data = Done (w', s') /\ rep w' s' (q_append q data).
Proof using Hjunk.
  intros R. unfold slowcopy. set (n := scratch_lim s - scratch_pos s).
  assert (0 <= n) by (pose proof (ok_pos _ _ (rep_ok _ _ _ R)); lia).
  destruct (Z.leb_spec (Z.of_nat (length data)) n).
  { destruct (put_scratch_spec w s q data R) as (w1 & s1 & E & R1 & _); [done|]. by exists w1, s1. }
  destruct (_ || _).
  - destruct (put_scratch_spec w s q (take (Z.to_nat n) data) R) as (w1 & s1 & -> & R1 & _); [rewrite length_take; lia|].
    cbn [mbind outcome_bind]. destruct (more_put w1 s1 _ (drop (Z.to_nat n) data) R1) as (w2 & s2 & E & R2).
    { rewrite length_drop. lia. }
    exists w2, s2. split; [exact E|]. by rewrite q_append_app, take_drop in R2.
  - cbn [mbind outcome_bind]. apply more_put; [done|]. lia.
Qed.

Lemma copy_spec w s q data :
  rep w s q -> exists w' s', copy junk w s data = Done (w', s') /\ rep w' s' (q_append q data).
Proof using Hjunk.
  intros R. unfold copy. destruct (Z.leb_spec (Z.of_nat (length data)) (scratch_lim s - scratch_pos s)).
  - destruct (put_scratch_spec w s q data R) as (w1 & s1 & E & R1 & _); [done|]. by exists w1, s1.
  - by apply slowcopy_spec.
Qed.

Lemma fill_spec w s q c n :
  rep w s q -> exists w' s', fill junk w s c n = Done (w', s') /\ rep w' s' (q_append q (replicate (Z.to_nat n) c)).
Proof using Hjunk.
  intros R. unfold fill. destruct (Z.leb_spec n 0).
  { exists w, s. split; [done|]. replace (Z.to_nat n) with 0%nat by lia. by rewrite q_append_nil. }
  set (m := scratch_lim s - scratch_pos s).
  assert (0 <= m) by (pose proof (ok_pos _ _ (rep_ok _ _ _ R)); lia).
  assert (Hput : n <= m -> exists w' s', put_scratch w s (replicate (Z.to_nat n) c) = Done (w', s')
    /\ rep w' s' (q_append q (replicate (Z.to_nat n) c))).
  { intros Hm. destruct (put_scratch_spec w s q (replicate (Z.to_nat n) c) R) as (w1 & s1 & E & R1 & _);
      [rewrite length_replicate; lia|]. by exists w1, s1. }
  destruct (Z.leb_spec n m); [by apply Hput|]. unfold slowfill. fold m. destruct (Z.leb_spec n m); [lia|].
  destruct (_ || _).
  - destruct (put_scratch_spec w s q (replicate (Z.to_nat m) c) R) as (w1 & s1 & -> & R1 & _); [rewrite length_replicate; lia|].
    cbn [mbind outcome_bind]. destruct (more_put w1 s1 _ (replicate (Z.to_nat (n - m)) c) R1) as (w2 & s2 & E & R2).
    { rewrite length_replicate. lia. }
    rewrite length_replicate, Z2Nat.id in E by lia. exists w2, s2. split; [exact E|].
    rewrite q_append_app, <- replicate_add in R2. by replace (Z.to_nat m + Z.to_nat (n - m))%nat with (Z.to_nat n) in R2 by lia.
  - cbn [mbind outcome_bind]. destruct (more_put w s q (replicate (Z.to_nat n) c) R) as (w2 & s2 & E & R2).
    { rewrite length_replicate. lia. }
    rewrite length_replicate, Z2Nat.id in E by lia. by exists w2, s2.
Qed.

(** Memory of the caller, or what the caller wrote at [scratch_pos]. *)
Lemma load_ok w b off len data :
  load w b off len = Done data -> 0 < len ->
  iov_ok (heap w) (mkiov b off len) /\ iov_bytes (heap w) (mkiov b off len) = data.
Proof using.
  unfold load, iov_ok, iov_bytes. cbn [iov_blk iov_off iov_len]. destruct (heap w !! b) as [blk|]; [|done].
  destruct (Z.leb_spec 0 off), (Z.leb_spec 0 len), (Z.leb_spec (off + len) (Z.of_nat (length blk))); cbn [andb]; try done.
  intros [= <-] Hl. split; [|done]. split_and!; try done. by exists blk.
Qed.

Lemma print_spec w s q buf len data :
  rep w s q -> load w (buf.1) (buf.2) len = Done data -> may_push s buf len ->
  exists w' s', print junk w s buf len = Done (w', s') /\ rep w' s' (q_append q data).
Proof using Hjunk.
  intros R Hd Hm. unfold print. destruct (_ && _).
  { rewrite Hd. cbn [mbind outcome_bind]. by apply copy_spec. }
  assert (Hlen : Z.of_nat (length data) = len).
  { unfold load in Hd. destruct (heap w !! buf.1) as [blk|]; [|done].
    destruct (Z.leb_spec 0 (buf.2)), (Z.leb_spec 0 len), (Z.leb_spec (buf.2 + len) (Z.of_nat (length blk))); cbn [andb] in Hd; try done.
    injection Hd as <-. rewrite length_take, length_drop. lia. }
  destruct (Z.eq_dec len 0) as [->|Hne].
  - destruct (pushiov_0 w s buf (rep_ok _ _ _ R)) as (s' & E & ->). rewrite E. cbn [mbind outcome_bind].
    exists w, s. split; [done|]. destruct data; [|cbn in Hlen; lia]. by rewrite q_append_nil.
  - assert (0 < len) by lia. destruct (load_ok _ _ _ _ _ Hd ltac:(done)) as [Hio Hby]. destruct R as [O B P L].
    rewrite (pushiov_spec w s buf len O) by done. cbn [mbind outcome_bind]. do 2 eexists. split; [reflexivity|].
    split; [by apply pushed_suio_ok| |done|done]. cbn [pushed_suio iovs].
    destruct (pushed_spec w s buf len O ltac:(done) Hio) as (_ & -> & _). by rewrite Hby, B.
Qed.

(** ** [iovmgr] *)
Definition iom_bytes (m : iovmgr) : list Z := cur m ++ concat (iom_rest m).

Lemma skip_loop_spec n v :
  0 <= n -> let '(n', v') := skip_loop n v in
  0 <= n' /\ drop (Z.to_nat n) (concat v) = drop (Z.to_nat n') (concat v')
  /\ n - Z.of_nat (length (concat v)) = n' - Z.of_nat (length (concat v'))
  /\ match v' with c :: _ => n' < Z.of_nat (length c) | [] => True end.
Proof using.
  revert n. induction v as [|c v IH]; intros n Hn; cbn [skip_loop]; [done|].
  destruct (Z.leb_spec (Z.of_nat (length c)) n) as [Hle|Hlt].
  - specialize (IH (n - Z.of_nat (length c)) ltac:(lia)). destruct (skip_loop _ v) as [n' v'].
    destruct IH as (H1 & H2 & H3 & H4). split_and!; try done.
    + cbn [concat]. rewrite drop_app_ge by lia. rewrite <- H2. f_equal. lia.
    + cbn [concat]. rewrite length_app. lia.
  - split_and!; done.
Qed.

Lemma iom_skip_spec v n :
  0 <= n ->
  (n <= Z.of_nat (length (concat v)) -> exists m, iom_skip (iovmgr_new v) n = Done m
     /\ iom_bytes m = drop (Z.to_nat n) (concat v))
  /\ (Z.of_nat (length (concat v)) < n -> iom_skip (iovmgr_new v) n = Panic).
Proof using.
  intros Hn. set (m := iovmgr_new v). assert (Em : concat v = cur m ++ concat (iom_rest m)) by (by destruct v).
  rewrite Em, length_app. clearbody m. clear Em v. unfold iom_skip.
  destruct (Z.ltb_spec n (Z.of_nat (length (cur m)))).
  { split; [|lia]. intros _. eexists. split; [reflexivity|]. unfold iom_bytes. cbn. by rewrite drop_app_le by lia. }
  pose proof (skip_loop_spec (n - Z.of_nat (length (cur m))) (iom_rest m) ltac:(lia)) as Hs.
  destruct (skip_loop _ _) as [n' v']. destruct Hs as (H1 & H2 & H3 & H4).
  assert (Hd : drop (Z.to_nat n) (cur m ++ concat (iom_rest m)) = drop (Z.to_nat n') (concat v')).
  { rewrite drop_app_ge by lia. rewrite <- H2. f_equal. lia. }
  rewrite Hd. destruct (Z.eqb_spec n' 0) as [->|Hne]; cbn [negb].
  - split; [|intros Hlt; lia].
    + intros _. eexists. split; [reflexivity|]. done.
  - destruct v' as [|c v'].
    + split; [|done]. cbn [concat length] in *. intros. lia.
    + destruct (Z.ltb_spec (Z.of_nat (length c)) n'); [lia|]. split; [|cbn [concat] in *; rewrite length_app in *; lia].
      intros _. eexists. split; [reflexivity|]. unfold iom_bytes. cbn. rewrite drop_app_le by lia. done.
Qed.

Lemma copyout_loop_spec room v :
  0 <= room -> let '(out, room', v') := copyout_loop room v in
  0 <= room' /\ concat v = out ++ concat v' /\ room = room' + Z.of_nat (length out)
  /\ match v' with c :: _ => room' < Z.of_nat (length c) | [] => True end.
Proof using.
  revert room. induction v as [|c v IH]; intros room Hr; cbn [copyout_loop]; [by split_and!; [|done|cbn; lia|]|].
  destruct (Z.leb_spec (Z.of_nat (length c)) room) as [Hle|Hlt].
  - specialize (IH (room - Z.of_nat (length c)) ltac:(lia)). destruct (copyout_loop _ v) as [[out room'] v'].
    destruct IH as (H1 & H2 & H3 & H4). split_and!; try done.
    + cbn [concat]. by rewrite H2, app_assoc.
    + rewrite length_app. lia.
  - split_and!; try done. cbn. lia.
Qed.

Lemma iom_copyout_spec m len :
  0 <= len -> let '(out, m') := iom_copyout m len in
  out = take (Z.to_nat len) (iom_bytes m) /\ iom_bytes m' = drop (Z.to_nat len) (iom_bytes m).
Proof using.
  intros Hl. unfold iom_copyout, iom_bytes. destruct (Z.ltb_spec len (Z.of_nat (length (cur m)))).
  { cbn. by rewrite take_app_le, drop_app_le by lia. }
  pose proof (copyout_loop_spec (len - Z.of_nat (length (cur m))) (iom_rest m) ltac:(lia)) as Hs.
  destruct (copyout_loop _ _) as [[out room] v]. destruct Hs as (H1 & H2 & H3 & H4). rewrite H2.
  rewrite take_app_ge, drop_app_ge by lia. destruct v as [|c v].
  - cbn [concat cur iom_rest app]. rewrite app_nil_r. by rewrite take_ge, drop_ge by lia.
  - destruct (Z.ltb_spec 0 room); cbn [cur iom_rest]; cbn [concat].
    + rewrite take_app_ge, drop_app_ge by lia. rewrite take_app_le, drop_app_le by lia.
      replace (Z.to_nat len - length (cur m) - length out)%nat with (Z.to_nat room) by lia. done.
    + rewrite take_app_length', drop_app_length' by lia. done.
Qed.

Lemma iom_size_spec m : iom_size m = Z.of_nat (length (iom_bytes m)).
Proof using.
  unfold iom_size, iom_bytes. rewrite length_app, Nat2Z.inj_add. f_equal.
  induction (iom_rest m) as [|c v IH]; [done|]. cbn [foldr concat]. rewrite length_app. lia.
Qed.

Lemma copyv_spec w s q iov skip :
  rep w s q -> 0 <= skip <= Z.of_nat (length (concat iov)) ->
  exists w' s', copyv junk w s iov skip = Done (w', s')
    /\ rep w' s' (q_append q (drop (Z.to_nat skip) (concat iov))).
Proof using Hjunk.
  intros R Hs. unfold copyv. destruct (iom_skip_spec iov skip ltac:(lia)) as [Hi _].
  destruct (Hi ltac:(lia)) as (m & -> & <-). cbn [mbind outcome_bind]. set (n := scratch_lim s - scratch_pos s).
  assert (0 <= n) by (pose proof (ok_pos _ _ (rep_ok _ _ _ R)); lia).
  assert (Hrest : forall w s m q', rep w s q' ->
    exists w' s', (let n := iom_size m in if 0 <? n then
        ws ← morescratch junk w s n; let '(w, s) := ws : world * suio in put_scratch w s ((iom_copyout m n).1)
      else Done (w, s)) = Done (w', s') /\ rep w' s' (q_append q' (iom_bytes m))).
  { clear - Hjunk. intros w s m q' R. cbv zeta. rewrite iom_size_spec. destruct (Z.ltb_spec 0 (Z.of_nat (length (iom_bytes m)))).
    - pose proof (iom_copyout_spec m (Z.of_nat (length (iom_bytes m))) ltac:(lia)) as Hc.
      destruct (iom_copyout m _) as [out m']. destruct Hc as [-> _]. cbn [fst]. rewrite Nat2Z.id, take_ge by lia.
      apply more_put; [done|lia].
    - exists w, s. split; [done|]. destruct (iom_bytes m); [by rewrite q_append_nil|cbn in *; lia]. }
  destruct (_ || _).
  - pose proof (iom_copyout_spec m n ltac:(lia)) as Hc. destruct (iom_copyout m n) as [out m']. destruct Hc as [-> Hm'].
    assert (Hp : exists w1 s1, (if 0 <? Z.of_nat (length (take (Z.to_nat n) (iom_bytes m))) then
        put_scratch w s (take (Z.to_nat n) (iom_bytes m)) else Done (w, s)) = Done (w1, s1)
      /\ rep w1 s1 (q_append q (take (Z.to_nat n) (iom_bytes m)))).
    { destruct (Z.ltb_spec 0 (Z.of_nat (length (take (Z.to_nat n) (iom_bytes m))))).
      - destruct (put_scratch_spec w s q (take (Z.to_nat n) (iom_bytes m)) R) as (w1 & s1 & E & R1 & _);
          [rewrite length_take; lia|]. by exists w1, s1.
      - exists w, s. split; [done|]. destruct (take _ _); [by rewrite q_append_nil|cbn in *; lia]. }
    destruct Hp as (w1 & s1 & -> & R1). cbn [mbind outcome_bind].
    destruct (Hrest w1 s1 m' _ R1) as (w2 & s2 & E & R2). exists w2, s2. split; [exact E|].
    by rewrite q_append_app, Hm', take_drop in R2.
  - cbn [mbind outcome_bind]. by apply Hrest.
Qed.

End suio.

(** ** Callbacks *)
Lemma iovcb_spec w s q k :
  rep w s q -> exists w' s', iovcb w s (Call k) = Done (w', s') /\ rep w' s' (q_cb q k).
Proof.
  intros R. pose proof (rep_len _ _ _ R) as Hlen. unfold iovcb, q_cb. rewrite <- Hlen. destruct R as [O B P L].
  destruct (Z.eqb_spec (uiobytes s) 0) as [E|E].
  - do 2 eexists. split; [reflexivity|]. split; [|done|done|cbn; by rewrite L].
    destruct O as [O1 O2 O3 O4 O5 O6 O7 O8 O9 O10 O11 O12]. by split.
  - do 2 eexists. split; [reflexivity|]. assert (0 < uiobytes s).
    { rewrite Hlen in *. unfold q_len in *. lia. }
    split; [|done| |done].
    + destruct O as [O1 O2 O3 O4 O5 O6 O7 O8 O9 O10 O11 O12]. split; cbn; try done.
      * apply sorted_snoc; [done|]. eapply Forall_impl; [exact O9|]. cbn. intros c Hc. lia.
      * apply Forall_app. split; [done|]. apply Forall_singleton. cbn. lia.
      * apply Forall_app. split; [done|]. by apply Forall_singleton.
      * rewrite dcbs_app. cbn. by rewrite app_nil_r.
    + cbn [set_cbs uiocbs nrembytes q_pend]. rewrite ucbs_app, P. cbn. do 3 f_equal. lia.
Qed.

Definition users (l : list uiocb) : list nat :=
  omap (fun c => match cb_fn c with Call k => Some k | Dealloc _ => None end) l.

(** The callbacks that are due are called, in order, and the others stay. *)
Lemma makeuiocbs_loop_spec l rem w :
  Forall (fun b => is_Some (heap w !! b)) (dcbs l) -> NoDup (dcbs l) ->
  exists f r w', l = f ++ r /\ makeuiocbs_loop l rem w = Done (r, w')
    /\ Forall (fun c => cb_nbytes c <= rem) f
    /\ match r with c :: _ => rem < cb_nbytes c | [] => True end
    /\ called w' = called w ++ users f /\ fresh_blk w' = fresh_blk w
    /\ (forall b, b ∈ dcbs f -> heap w' !! b = None)
    /\ (forall b, b ∉ dcbs f -> heap w' !! b = heap w !! b).
Proof.
  revert w. induction l as [|c l IH]; intros w Hl Hn; cbn [makeuiocbs_loop].
  { exists [], [], w. split_and!; try done; [by rewrite app_nil_r|set_solver]. }
  destruct (Z.leb_spec (cb_nbytes c) rem) as [Hle|Hgt].
  2:{ exists [], (c :: l), w. split_and!; try done; [by rewrite app_nil_r|set_solver]. }
  destruct c as [nb [b|k]]; cbn [cb_fn cb_nbytes call] in *.
  - cbn in Hl, Hn. inversion Hl as [|? ? [blk Hb] Hl']; subst. inversion Hn as [|? ? Hni Hn']; subst. unfold free.
    rewrite Hb. cbn [mbind outcome_bind].
    destruct (IH (mkw (delete b (heap w)) (fresh_blk w) (called w))) as (f & r & w' & -> & E & F & G & H1 & H2 & H3 & H4); [|done|].
    { apply Forall_forall. intros x Hx. rewrite Forall_forall in Hl'. cbn. rewrite lookup_delete_ne; [auto|].
      intros ->. done. }
    exists (mkcb nb (Dealloc b) :: f), r, w'. split_and!; try done.
    + by constructor.
    + intros x Hx. cbn in Hx. destruct (decide (x ∈ dcbs f)) as [Hi|Hi]; [by apply H3|].
      rewrite (H4 x Hi). apply elem_of_cons in Hx as [->|Hx]; [|done]. cbn. by rewrite lookup_delete_eq.
    + intros x Hx. cbn in Hx. apply not_elem_of_cons in Hx as [Hx1 Hx2]. rewrite (H4 x Hx2). cbn. by rewrite lookup_delete_ne.
  - cbn [mbind outcome_bind]. destruct (IH (mkw (heap w) (fresh_blk w) (called w ++ [k])))
      as (f & r & w' & -> & E & F & G & H1 & H2 & H3 & H4); [done|done|].
    exists (mkcb nb (Call k) :: f), r, w'. split_and!; try done; [by constructor|]. rewrite H1. cbn.
    by rewrite <- app_assoc.
Qed.

Lemma fire_split rem n f r :
  Forall (fun c => cb_nbytes c <= rem + n) f ->
  Forall (fun c => rem + n < cb_nbytes c) r ->
  fire n (ucbs rem (f ++ r)) = (users f, ucbs rem r).
Proof.
  intros Hf Hr. induction Hf as [|c f Hc Hf IH].
  - cbn [app users omap list_omap]. destruct Hr as [|c r Hc Hr]; [done|]. clear - Hc Hr.
    assert (H : Forall (fun c => rem + n < cb_nbytes c) (c :: r)) by (by constructor). revert H. clear.
    induction (c :: r) as [|d l IH]; intros H; [done|]. inversion H; subst. destruct d as [nb [b|k]]; cbn in *; [by apply IH|].
    destruct (Z.leb_spec (nb - rem) n); [lia|done].
  - destruct c as [nb [b|k]]; cbn in *; [done|]. destruct (Z.leb_spec (nb - rem) n); [|lia]. unfold ucbs in IH. rewrite IH. done.
Qed.

Lemma ucbs_shift rem n l : ucbs (rem + n) l = prod_map (fun p => p - n) id <$> ucbs rem l.
Proof.
  induction l as [|[nb [b|k]] l IH]; [done|done|]. cbn. unfold ucbs in IH. rewrite IH. do 2 f_equal. lia.
Qed.

(** ** Removing bytes *)
(** The pieces after [n] bytes. *)
Definition cut_front (l : list iovec) (k : Z) : list iovec :=
  match l with
  | v :: l' => if 0 <? k then mkiov (iov_blk v) (iov_off v + k) (iov_len v - k) :: l' else l
  | [] => []
  end.

Lemma rem_loop_spec h l n :
  Forall (iov_ok h) l -> 0 <= n <= sizes l ->
  exists pre k l', l = pre ++ l' /\ rem_loop l n = (k, l', Z.of_nat (length pre)) /\ n = sizes pre + k /\ 0 <= k
    /\ match l' with v :: _ => k < iov_len v | [] => k = 0 end.
Proof.
  revert n. induction l as [|v l IH]; intros n Hf Hn; cbn [rem_loop].
  { exists [], n, []. cbn in *. split_and!; done || lia. }
  inversion Hf as [|? ? Hv Hf']; subst. cbn [sizes foldr] in Hn. fold (sizes l) in Hn.
  destruct (Z.leb_spec (iov_len v) n) as [Hle|Hlt].
  - destruct (IH (n - iov_len v) Hf' ltac:(lia)) as (pre & k & l' & -> & E & En & Hk & Hm). rewrite E.
    exists (v :: pre), k, l'. split_and!; try done.
    + do 2 f_equal. cbn [length]. lia.
    + cbn [sizes foldr]. fold (sizes pre). lia.
  - exists [], n, (v :: l). split_and!; try done; lia.
Qed.

Lemma cut_front_ok h l k :
  Forall (iov_ok h) l -> 0 <= k -> match l with v :: _ => k < iov_len v | [] => k = 0 end ->
  Forall (iov_ok h) (cut_front l k) /\ content h (cut_front l k) = drop (Z.to_nat k) (content h l)
  /\ sizes (cut_front l k) = sizes l - k.
Proof.
  intros Hf Hk Hm. destruct Hf as [|v l Hv Hf]; cbn [cut_front].
  { subst k. split_and!; [done|done|cbn; lia]. }
  destruct (Z.ltb_spec 0 k) as [Hp|Hz].
  - destruct Hv as (V1 & V2 & blk & V3 & V4). split_and!.
    + constructor; [|done]. split; cbn; [lia|]. split; [lia|]. exists blk. split; [done|lia].
    + rewrite !content_cons. rewrite drop_app_le.
      * f_equal. unfold iov_bytes. cbn [iov_blk iov_off iov_len]. rewrite V3.
        rewrite skipn_firstn_comm, drop_drop. f_equal; [lia|]. f_equal. lia.
      * unfold iov_bytes. rewrite V3, length_take, length_drop. lia.
    + cbn. lia.
  - assert (k = 0) as -> by lia. rewrite drop_0. split_and!; [by constructor|done|lia].
Qed.

(** What is in front stays in front. *)
Lemma cut_front_done_by rem pre l k b nb :
  0 <= k -> done_by rem (pre ++ l) b nb -> done_by (rem + (sizes pre + k)) (cut_front l k) b nb.
Proof.
  intros Hk H p v post E Hb. destruct l as [|u l]; cbn [cut_front] in E; [by destruct p|].
  destruct (Z.ltb_spec 0 k) as [Hp|Hz].
  - destruct p as [|x p].
    + injection E as <- <-. cbn in *. specialize (H pre u l eq_refl Hb). lia.
    + injection E as <- ->. specialize (H (pre ++ u :: p) v post ltac:(by rewrite <- app_assoc) Hb).
      rewrite sizes_app in H. cbn [sizes foldr iov_len] in *. unfold sizes in *. lia.
  - specialize (H (pre ++ p) v post ltac:(by rewrite E, app_assoc) Hb). rewrite sizes_app in H. lia.
Qed.

Lemma cut_front_last l v k :
  exists pre v', cut_front (l ++ [v]) k = pre ++ [v'] /\ iov_blk v' = iov_blk v
    /\ iov_off v' + iov_len v' = iov_off v + iov_len v.
Proof.
  destruct l as [|u l]; cbn [app cut_front]; destruct (0 <? k).
  - eexists [], _. split; [reflexivity|]. cbn. split; [done|lia].
  - by exists [], v.
  - eexists (_ :: l), v. done.
  - by exists (u :: l), v.
Qed.

Lemma cut_front_Forall (P : nat -> Z -> Prop) l k :
  Forall (fun v => P (iov_blk v) (iov_off v + iov_len v)) l ->
  Forall (fun v => P (iov_blk v) (iov_off v + iov_len v)) (cut_front l k).
Proof.
  intros H. destruct H as [|v l Hv Hl]; [done|]. cbn [cut_front]. destruct (0 <? k); constructor; try done. cbn.
  by replace (iov_off v + k + (iov_len v - k)) with (iov_off v + iov_len v) by lia.
Qed.

Lemma cut_front_nil l k : match l with v :: _ => k < iov_len v | [] => k = 0 end -> cut_front l k = [] -> l = [].
Proof. destruct l; [done|]. cbn. by destruct (0 <? k). Qed.

Lemma sorted_suffix f r :
  StronglySorted (fun c d => cb_nbytes c <= cb_nbytes d) (f ++ r) ->
  StronglySorted (fun c d => cb_nbytes c <= cb_nbytes d) r.
Proof. induction f as [|c f IH]; [done|]. cbn. intros H. inversion H; subst. auto. Qed.

Lemma late_rest rem r :
  StronglySorted (fun c d => cb_nbytes c <= cb_nbytes d) r -> match r with c :: _ => rem < cb_nbytes c | [] => True end ->
  Forall (fun c => rem < cb_nbytes c) r.
Proof.
  intros H Hm. destruct H as [|c r Hs Hf]; [done|]. constructor; [done|]. eapply Forall_impl; [exact Hf|].
  cbn. intros d Hd. lia.
Qed.

(** No piece that is left is in a block that is freed. *)
Lemma freed_unused h rem n l f :
  Forall (iov_ok h) l -> Forall (fun c => cb_nbytes c <= rem + n) f ->
  Forall (fun c => match cb_fn c with Call _ => True | Dealloc b => done_by (rem + n) l b (cb_nbytes c) end) f ->
  forall v, v ∈ l -> iov_blk v ∉ dcbs f.
Proof.
  intros Hl Hf Hd v Hv Hin. apply list_elem_of_omap in Hin as (c & Hc & E).
  rewrite Forall_forall in Hf, Hd. specialize (Hf c Hc). specialize (Hd c Hc). destruct (cb_fn c) as [b|k]; [|done].
  injection E as ->. apply list_elem_of_split in Hv as (p & post & ->). specialize (Hd p v post eq_refl eq_refl).
  apply Forall_app in Hl as [Hp Hl]. inversion Hl as [|? ? Hv' _]; subst. pose proof (sizes_nonneg h p Hp).
  destruct Hv' as [? _]. lia.
Qed.

Section rem.
Context (w : world) (s : suio) (pre l : list iovec) (k n : Z).
Context (O : suio_ok w s) (Hi : iovs s = pre ++ l) (Hn : n = sizes pre + k) (Hk : 0 <= k).
Context (Hm : match l with v :: _ => k < iov_len v | [] => k = 0 end).
Let l2 := cut_front l k.
Context (f r : list uiocb) (w' : world).
Context (Hsplit : uiocbs s = f ++ r) (Hf : Forall (fun c => cb_nbytes c <= nrembytes s + n) f).
Context (Hr : match r with c :: _ => nrembytes s + n < cb_nbytes c | [] => True end).
Context (Hfr : fresh_blk w' = fresh_blk w).
Context (Hgone : forall b, b ∈ dcbs f -> heap w' !! b = None).
Context (Hkeep : forall b, b ∉ dcbs f -> heap w' !! b = heap w !! b).

Lemma rem_agree : Forall (agree (heap w) (heap w')) l2 /\ Forall (iov_ok (heap w)) l2
  /\ content (heap w) l2 = drop (Z.to_nat n) (content (heap w) (iovs s)) /\ sizes l2 = uiobytes s - n.
Proof using O Hi Hn Hk Hm Hsplit Hf Hfr Hkeep.
  pose proof (ok_iovs _ _ O) as Ho. rewrite Hi in Ho. apply Forall_app in Ho as [Hp Hl].
  destruct (cut_front_ok (heap w) l k Hl Hk Hm) as (C1 & C2 & C3). fold l2 in C1, C2, C3.
  pose proof (content_length _ _ Hp) as Lp. pose proof (sizes_nonneg _ _ Hp). split_and!; try done.
  - apply Forall_forall. intros v Hv. apply agree_eq, Hkeep.
    apply (freed_unused (heap w) (nrembytes s) n l2 f); try done.
    pose proof (ok_dealloc _ _ O) as Hd. rewrite Hsplit in Hd. apply Forall_app in Hd as [Hd _].
    eapply Forall_impl; [exact Hd|]. cbn beta. intros c. destruct (cb_fn c) as [b|]; [|done]. intros (_ & _ & _ & Hdb).
    rewrite Hi in Hdb. rewrite Hn. by apply cut_front_done_by.
  - rewrite C2, Hi, content_app, drop_app_ge by lia. f_equal. lia.
  - rewrite C3, (ok_bytes _ _ O), Hi, sizes_app. lia.
Qed.

Lemma rem_ok niov :
  suio_ok w' (mksuio l2 r (uiobytes s - n) (nrembytes s + n) niov
    (if bool_decide (l2 = []) then None else lastiovend s) (scratch_buf s)
    (if bool_decide (l2 = []) then 0 else scratch_pos s) (scratch_lim s)).
Proof using O Hi Hn Hk Hm Hsplit Hf Hr Hfr Hgone Hkeep.
  destruct rem_agree as (A1 & A2 & _ & A4). destruct (agree_content _ _ _ A2 A1) as [A5 _].
  pose proof (scratch_not_freed w s O) as Hsf.
  destruct O as [O1 O2 O3 O4 O5 O6 O7 O8 O9 O10 O11 O12]. rewrite Hsplit, ?dcbs_app in *.
  apply Forall_app in O10 as [D1 D2]. apply Forall_app in O9 as [_ R2]. apply sorted_suffix in O8.
  pose proof (late_rest _ _ O8 Hr) as Hlate. apply NoDup_app in O11 as (_ & N2 & N3).
  split; cbn [iovs uiocbs uiobytes nrembytes lastiovend scratch_buf scratch_pos scratch_lim]; try done.
  - intros p. case_bool_decide as El; [done|]. intros Hp. destruct (O3 p Hp) as (pre0 & v0 & E0 & ->).
    rewrite Hi in E0. destruct l as [|x l' _] using rev_ind; [by destruct El|].
    rewrite app_assoc in E0. apply app_inj_tail in E0 as [_ ->].
    destruct (cut_front_last l' v0 k) as (pre' & v' & E' & B1 & B2). exists pre', v'. unfold l2. rewrite E', B1, B2. done.
  - destruct O4 as (sb & Es & Ls). exists sb. rewrite Hkeep by set_solver. done.
  - case_bool_decide; lia.
  - case_bool_decide as El; [by rewrite El|]. rewrite Hi in O6. apply Forall_app in O6 as [_ O6].
    exact (cut_front_Forall (fun b e => b = scratch_buf s -> e <= scratch_pos s) l k O6).
  - destruct O7 as (d & Ed & Ld). exists d. rewrite Hkeep; [done|]. intros Hin. apply list_elem_of_omap in Hin as (c & Hc & E).
    rewrite Forall_forall in D1. specialize (D1 c Hc). destruct (cb_fn c); [|done]. injection E as ->. by destruct D1.
  - apply Forall_forall. intros c Hc. rewrite Forall_forall in R2, Hlate. specialize (R2 c Hc). specialize (Hlate c Hc). lia.
  - apply Forall_forall. intros c Hc. rewrite Forall_forall in D2. specialize (D2 c Hc).
    destruct (cb_fn c) as [b|] eqn:Ec; [|done]. destruct D2 as (E1 & E2 & E3 & E4). split_and!; try done.
    + rewrite Hkeep; [done|]. intros Hin. apply (N2 b Hin). by apply (dcbs_in _ c).
    + rewrite Hi in E4. rewrite Hn. by apply cut_front_done_by.
  - intros b Hb. rewrite Hfr. destruct (decide (b ∈ dcbs f)) as [Hin|Hin].
    + rewrite (Hgone b Hin) in Hb. by destruct Hb.
    + rewrite (Hkeep b Hin) in Hb. by apply O12.
Qed.

End rem.

Lemma rembytes_spec w s q n :
  rep w s q -> 0 <= n ->
  (n <= q_len q -> exists w' s', rembytes w s n = Done (w', s') /\ rep w' s' (q_rem q n)
     /\ nrembytes s' = nrembytes s + n)
  /\ (q_len q < n -> rembytes w s n = Panic).
Proof.
  intros R Hn. pose proof (rep_len _ _ _ R) as Hlen. unfold rembytes. destruct R as [O B P L].
  rewrite Hlen. destruct (Z.leb_spec n (q_len q)) as [Hle|Hgt]; cbn [assertM mbind outcome_bind]; [|by split; [lia|]].
  split; [|lia]. intros _.
  destruct (rem_loop_spec (heap w) (iovs s) n (ok_iovs _ _ O)) as (pre & k & l & Hi & -> & En & Hk & Hm).
  { rewrite <- (ok_bytes _ _ O). lia. }
  assert (Ecut : (if 0 <? k then match l with v :: l => Done (mkiov (iov_blk v) (iov_off v + k) (iov_len v - k) :: l) | [] => Panic end
    else Done l) = Done (cut_front l k)).
  { destruct l as [|v l]; [subst k; done|]. cbn. by destruct (0 <? k). }
  rewrite Ecut. cbn [mbind outcome_bind]. unfold makeuiocbs. cbn [uiocbs nrembytes].
  destruct (makeuiocbs_loop_spec (uiocbs s) (nrembytes s + n) w) as (f & r & w' & Hs & -> & Hf & Hr & Hc & Hfr & Hg & Hkp).
  { apply Forall_forall. intros b Hin. apply list_elem_of_omap in Hin as (c & Hcc & E).
    pose proof (ok_dealloc _ _ O) as Hd. rewrite Forall_forall in Hd. specialize (Hd c Hcc).
    destruct (cb_fn c); [|done]. injection E as ->. tauto. }
  { apply O. }
  cbn [mbind outcome_bind]. do 2 eexists. split; [reflexivity|]. split; [|done].
  pose proof (rem_ok w s pre l k n O Hi En Hk Hm f r w' Hs Hf Hr Hfr Hg Hkp (nremiov s + Z.of_nat (length pre))) as Hok.
  rewrite Hlen in Hok.
  destruct (rem_agree w s pre l k n O Hi En Hk Hm f r w' Hs Hf Hfr Hkp) as (A1 & A2 & A3 & _).
  destruct (agree_content _ _ _ A2 A1) as [_ A5].
  assert (Hlate : Forall (fun c => nrembytes s + n < cb_nbytes c) r).
  { apply late_rest; [|done]. pose proof (ok_sorted _ _ O) as Hso. rewrite Hs in Hso. by apply sorted_suffix in Hso. }
  pose proof (fire_split (nrembytes s) n f r Hf Hlate) as Efire. rewrite <- Hs, P in Efire.
  unfold q_rem. rewrite Efire. split; cbn [set_cbs iovs uiocbs nrembytes q_bytes q_pend q_log].
  - exact Hok.
  - by rewrite A5, A3, B.
  - by rewrite ucbs_shift.
  - by rewrite Hc, L.
Qed.

(** ** A new [suio], and an emptied one *)
Lemma suio_new_rep w d :
  heap w !! defbuf = Some d -> Z.of_nat (length d) = smallbufsize ->
  (forall b, is_Some (heap w !! b) -> (b < fresh_blk w)%nat) ->
  rep w suio_new (mkq [] [] (called w)).
Proof.
  intros Hd Hl Hf. split; try done. split; cbn; try done; try (by constructor); eauto.
Qed.

Lemma fire_all n (l : list (Z * nat)) : Forall (fun c => c.1 <= n) l -> fire n l = (l.*2, []).
Proof.
  induction 1 as [|[p k] l Hp _ IH]; [done|]. cbn in *. destruct (Z.leb_spec p n); [|lia]. by rewrite IH.
Qed.

Lemma pend_range w s q : rep w s q -> Forall (fun c => 0 < c.1 <= q_len q) (q_pend q).
Proof.
  intros R. pose proof (rep_len _ _ _ R) as Hlen. destruct R as [O B P L]. rewrite <- P, <- Hlen.
  apply Forall_forall. intros [p k] Hin. apply list_elem_of_omap in Hin as (c & Hc & E).
  pose proof (ok_range _ _ O) as Hr. rewrite Forall_forall in Hr. specialize (Hr c Hc).
  destruct (cb_fn c); [done|]. injection E as <- <-. cbn. lia.
Qed.

(** [clear] calls all the callbacks that wait. *)
Lemma clear_spec w s q :
  rep w s q -> exists w' s', clear w s = Done (w', s') /\ rep w' s' (mkq [] [] (q_log q ++ (q_pend q).*2)).
Proof.
  intros R. pose proof (rep_len _ _ _ R) as Hlen. pose proof (pend_range _ _ _ R) as Hp. unfold clear. rewrite Hlen.
  assert (0 <= q_len q) by (unfold q_len; lia).
  destruct (rembytes_spec w s q (q_len q) R ltac:(lia)) as [Hre _]. destruct (Hre ltac:(lia)) as (w1 & s1 & -> & R1 & _).
  cbn [mbind outcome_bind]. unfold q_rem in R1. rewrite fire_all in R1 by (eapply Forall_impl; [exact Hp|]; cbn; lia).
  cbn [fmap list_fmap] in R1. rewrite drop_ge in R1 by (unfold q_len; lia).
  pose proof (rep_len _ _ _ R1) as Hl1. cbn in Hl1. destruct R1 as [O1 B1 P1 L1].
  destruct (empty_nothing w1 s1 O1 Hl1) as [Ei Ec]. destruct (ok_scr _ _ O1) as (sb & Es & _).
  assert (Elast : lastiovend s1 = None).
  { destruct (lastiovend s1) as [p|] eqn:E; [|done]. destruct (ok_last _ _ O1 p E) as (pre & v & E2 & _).
    rewrite Ei in E2. by destruct pre. }
  destruct O1 as [O1 O2 O3 O4 O5 O6 O7 O8 O9 O10 O11 O12]. rewrite Ec, Ei in *.
  case_bool_decide as Hd; cbn [mbind outcome_bind].
  - do 2 eexists. split; [reflexivity|]. by split.
  - unfold free. rewrite Es. cbn [mbind outcome_bind]. do 2 eexists. split; [reflexivity|]. split; cbn; try done.
    destruct O7 as (d & Ed & Ld). split; cbn; try done; try (by rewrite Elast).
    + exists d. by rewrite lookup_delete_ne.
    + exists d. by rewrite lookup_delete_ne.
    + intros b Hb. apply O12. destruct (decide (b = scratch_buf s1)) as [->|]; [by rewrite Es|].
      by rewrite lookup_delete_ne in Hb.
Qed.

(** ** Copying and writing out *)
Lemma copyout_iovs_spec w l len :
  Forall (iov_ok (heap w)) l -> 0 <= len -> copyout_iovs w l len = Done (take (Z.to_nat len) (content (heap w) l)).
Proof.
  intros H. revert len. induction H as [|v l Hv Hl IH]; intros len Hlen; [cbn; by rewrite take_nil|].
  pose proof (iov_bytes_length _ _ Hv) as Lb. destruct Hv as (V1 & V2 & blk & V3 & V4).
  assert (Hload : forall m, 0 <= m <= iov_len v ->
    load w (iov_blk v) (iov_off v) m = Done (take (Z.to_nat m) (iov_bytes (heap w) v))).
  { intros m Hm. unfold load, iov_bytes. rewrite V3.
    destruct (Z.leb_spec 0 (iov_off v)), (Z.leb_spec 0 m), (Z.leb_spec (iov_off v + m) (Z.of_nat (length blk))); try lia.
    cbn [andb]. rewrite take_take. do 2 f_equal. lia. }
  cbn [copyout_iovs]. rewrite content_cons. destruct (Z.leb_spec (iov_len v) len).
  - rewrite Hload by lia. cbn [mbind outcome_bind]. rewrite IH by lia. cbn [mbind outcome_bind].
    rewrite take_ge, take_app_ge by lia. do 3 f_equal. lia.
  - rewrite Hload, take_app_le by lia. done.
Qed.

Lemma copyout_spec w s q len :
  rep w s q -> 0 <= len -> copyout w s len = Done (take (Z.to_nat len) (q_bytes q)).
Proof.
  intros [O B _ _] Hl. unfold copyout. rewrite copyout_iovs_spec by (apply O || done). by rewrite B.
Qed.

Lemma rem_loop_count l n :
  let '(k, l', c) := rem_loop l n in Z.of_nat (length l) = c + Z.of_nat (length l').
Proof.
  revert n. induction l as [|v l IH]; intros n; cbn [rem_loop]; [done|]. destruct (_ <=? _); [|done].
  specialize (IH (n - iov_len v)). destruct (rem_loop l _) as [[k l'] c]. cbn [length]. lia.
Qed.

Lemma rembytes_count w s n w' s' :
  rembytes w s n = Done (w', s') -> nremiov s' + Z.of_nat (length (iovs s')) = nremiov s + Z.of_nat (length (iovs s)).
Proof.
  unfold rembytes. destruct (assertM _); try done. cbn [mbind outcome_bind].
  pose proof (rem_loop_count (iovs s) n) as Hc. destruct (rem_loop (iovs s) n) as [[k l] c].
  assert (Hl : forall l2, (if 0 <? k then match l with v :: l => Done (mkiov (iov_blk v) (iov_off v + k) (iov_len v - k) :: l) | [] => Panic end
    else Done l) = Done l2 -> length l2 = length l).
  { intros l2. destruct (0 <? k); [|by intros [= <-]]. destruct l; [done|]. by intros [= <-]. }
  destruct (if 0 <? k then _ else _) as [l2| | |]; try done. specialize (Hl l2 eq_refl). cbn [mbind outcome_bind].
  unfold makeuiocbs. destruct (makeuiocbs_loop _ _ _) as [[r w1]| | |]; try done. cbn [mbind outcome_bind].
  intros [= _ <-]. cbn. lia.
Qed.

(** What the kernel is given to write is a front part of the queue. *)
Lemma output_data (mx : option Z) w s q :
  rep w s q -> (forall m, mx = Some m -> m <= nremiov s + Z.of_nat (length (iovs s))) ->
  (match mx with None => negb (bool_decide (iovs s = [])) | Some m => nremiov s <? m end) = true ->
  exists data rest, copyout_iovs w (take (Z.to_nat (Z.min (match mx with
      None => Z.of_nat (length (iovs s)) | Some m => m - nremiov s end) UIO_MAXIOV)) (iovs s)) (uiobytes s) = Done data
    /\ (0 < length data)%nat /\ q_bytes q = data ++ rest.
Proof.
  intros R Hmx Emore. pose proof (rep_ok _ _ _ R) as O. pose proof (rep_len _ _ _ R) as Hlen. set (kk := Z.min _ UIO_MAXIOV).
  assert (Hkk : 1 <= kk /\ (0 < length (iovs s))%nat).
  { unfold kk, UIO_MAXIOV. destruct mx as [m|].
    - apply Z.ltb_lt in Emore. specialize (Hmx m eq_refl). lia.
    - destruct (iovs s); [done|]. cbn [length] in *. lia. }
  assert (Hf : Forall (iov_ok (heap w)) (take (Z.to_nat kk) (iovs s))) by (apply Forall_take, O).
  assert (Hq : q_bytes q = content (heap w) (take (Z.to_nat kk) (iovs s)) ++ content (heap w) (drop (Z.to_nat kk) (iovs s)))
    by (by rewrite <- content_app, take_drop, (rep_bytes _ _ _ R)).
  rewrite copyout_iovs_spec by (done || rewrite Hlen; unfold q_len; lia).
  rewrite take_ge by (rewrite Hlen; unfold q_len; rewrite Hq, length_app; lia).
  do 2 eexists. split_and!; [reflexivity| |exact Hq].
  destruct (decide (length (content (heap w) (take (Z.to_nat kk) (iovs s))) = 0%nat)) as [E|]; [|lia].
  apply length_zero_iff_nil in E. apply (content_nil_iff (heap w)) in E; [|done].
  apply (f_equal length) in E. rewrite length_take in E. cbn in E. lia.
Qed.

(** The bytes written are taken from the front, in the portions the kernel
    took. *)
Lemma output_loop_spec ks mx w s q :
  rep w s q -> (forall m, mx = Some m -> m <= nremiov s + Z.of_nat (length (iovs s))) ->
  exists err out ks' w' s' ns, output_loop ks mx w s = Done (err, out, ks', w', s')
    /\ rep w' s' (foldl q_rem q ns) /\ q_bytes q = out ++ q_bytes (foldl q_rem q ns)
    /\ nrembytes s' = nrembytes s + Z.of_nat (length out).
Proof.
  revert w s q. induction ks as [|k0 ks IH]; intros w s q R Hmx; cbn [output_loop].
  { destruct (match mx with None => _ | Some m => nremiov s <? m end) eqn:Emore.
    - destruct (output_data mx w s q R Hmx Emore) as (data & rest & -> & _). cbn [mbind outcome_bind].
      eexists false, [], [], w, s, []. split_and!; [done|done|done|cbn; lia].
    - eexists false, [], [], w, s, []. split_and!; [done|done|done|cbn; lia]. }
  destruct (match mx with None => _ | Some m => nremiov s <? m end) eqn:Emore.
  2:{ eexists false, [], _, w, s, []. split_and!; [done|done|done|cbn; lia]. }
  destruct (output_data mx w s q R Hmx Emore) as (data & rest & -> & Hd & Hq). cbn [mbind outcome_bind].
  destruct k0 as [n| |].
  2:{ eexists false, [], ks, w, s, []. split_and!; [done|done|done|cbn; lia]. }
  2:{ eexists true, [], ks, w, s, []. split_and!; [done|done|done|cbn; lia]. }
  set (n' := Z.min (Z.max 1 n) (Z.of_nat (length data))). assert (Hn' : 1 <= n' <= Z.of_nat (length data)) by lia.
  destruct (rembytes_spec w s q n' R ltac:(lia)) as [Hrem _].
  destruct Hrem as (w1 & s1 & E1 & R1 & N1); [unfold q_len; rewrite Hq, length_app; lia|]. rewrite E1. cbn [mbind outcome_bind].
  apply rembytes_count in E1. destruct (IH w1 s1 (q_rem q n') R1) as (err & out & ks' & w2 & s2 & ns & -> & R2 & B2 & N2).
  { intros m Hm. specialize (Hmx m Hm). lia. }
  cbn [mbind outcome_bind]. eexists err, _, ks', w2, s2, (n' :: ns). split; [reflexivity|]. split; [exact R2|]. split.
  - cbn [foldl]. rewrite <- app_assoc, <- B2. unfold q_rem. destruct (fire n' (q_pend q)). cbn [q_bytes].
    rewrite Hq, drop_app_le by lia. by rewrite app_assoc, take_drop.
  - rewrite N2, N1, length_app, length_take. lia.
Qed.

Lemma output_spec ks cnt w s q :
  rep w s q -> (forall c, cnt = Some c -> c <= Z.of_nat (length (iovs s))) ->
  exists res out ks' w' s' ns, output ks cnt w s = Done (res, out, ks', w', s')
    /\ rep w' s' (foldl q_rem q ns) /\ q_bytes q = out ++ q_bytes (foldl q_rem q ns)
    /\ (res = 1 -> out <> []) /\ (res = 0 -> out = []).
Proof.
  intros R Hc. unfold output. assert (Ha : (match cnt with Some c => assertM (c <=? Z.of_nat (length (iovs s))) | None => Done tt end) = Done tt).
  { destruct cnt as [c|]; [|done]. specialize (Hc c eq_refl). by destruct (Z.leb_spec c (Z.of_nat (length (iovs s)))); [|lia]. }
  rewrite Ha. cbn [mbind outcome_bind].
  destruct (output_loop_spec ks (match cnt with Some c => Some (nremiov s + c) | None => None end) w s q R)
    as (err & out & ks' & w' & s' & ns & -> & R' & B' & N').
  { intros m. destruct cnt as [c|]; [|done]. intros [= <-]. specialize (Hc c eq_refl). lia. }
  cbn [mbind outcome_bind]. do 6 eexists. split; [reflexivity|]. split_and!; [exact R'|exact B'| |].
  - destruct err; [done|]. destruct (Z.ltb_spec (nrembytes s) (nrembytes s')); [|done]. intros _ ->. cbn in N'. lia.
  - destruct err; [done|]. destruct (Z.ltb_spec (nrembytes s) (nrembytes s')); [done|]. intros _.
    destruct out; [done|]. cbn [length] in N'. lia.
Qed.
