(* ===== verification/SuioInput.v ===== *)
(** * Reading into a [suio]

    [input] reads into the rest of the scratch block and into a new block at
    once; the new block becomes the scratch block when it was needed, and is
    freed otherwise. *)
From Stdlib Require Import ZArith Lia Sorting.Sorted.
From stdpp Require Import prelude gmap.
From S2P Require Import Prelude Mdblock Suio SuioSpec SuioOps.

(** A block that the structure does not know. *)
Definition unused (s : suio) (b : nat) : Prop :=
  b <> scratch_buf s /\ b <> defbuf /\ (forall v, v ∈ iovs s -> iov_blk v <> b) /\ b ∉ dcbs (uiocbs s).

Lemma fresh_unused w s : suio_ok w s -> unused s (fresh_blk w).
Proof.
  intros O. pose proof (ok_fresh _ _ O) as Hf.
  assert (Hne : forall c, is_Some (heap w !! c) -> c <> fresh_blk w) by (intros c Hc ->; specialize (Hf _ Hc); lia).
  split_and!.
  - destruct (ok_scr _ _ O) as (sb & Es & _). intros E. symmetry in E. revert E. apply Hne. eauto.
  - apply (defbuf_not_fresh w s (ok_core _ _ O)).
  - intros v Hv. apply Hne. pose proof (ok_iovs _ _ O) as Hi. rewrite Forall_forall in Hi.
    destruct (Hi v Hv) as (_ & _ & blk & -> & _). eauto.
  - intros Hin. apply list_elem_of_omap in Hin as (c & Hc & E). pose proof (ok_dealloc _ _ O) as Hd.
    rewrite Forall_forall in Hd. specialize (Hd c Hc). destruct (cb_fn c) as [b|]; [|done]. injection E as ->.
    destruct Hd as (_ & _ & Hd & _). by apply (Hne _ Hd).
Qed.

(** Memory of an unused block may change. *)
Lemma rep_frame w w' s q b :
  rep w s q -> unused s b -> (forall c, c <> b -> heap w' !! c = heap w !! c) -> called w' = called w ->
  (fresh_blk w <= fresh_blk w')%nat -> (is_Some (heap w' !! b) -> (b < fresh_blk w')%nat) -> rep w' s q.
Proof.
  intros [O B P L] (U1 & U2 & U3 & U4) Hh Hc Hf Hb.
  assert (Hag : Forall (agree (heap w) (heap w')) (iovs s)).
  { apply Forall_forall. intros v Hv. by apply agree_eq, Hh, U3. }
  destruct (agree_content _ _ _ (ok_iovs _ _ O) Hag) as [Hi Hco]. split; [|congruence|done|congruence].
  destruct O as [O1 O2 O3 O4 O5 O6 O7 O8 O9 O10 O11 O12]. split; try done.
  - by rewrite Hh.
  - by rewrite Hh.
  - apply Forall_forall. intros c Hcin. rewrite Forall_forall in O10. specialize (O10 c Hcin).
    destruct (cb_fn c) as [x|] eqn:Ec; [|done]. rewrite Hh; [done|]. intros ->. apply U4. by apply (dcbs_in _ c).
  - intros c Hcin. destruct (decide (c = b)) as [->|]; [by apply Hb|]. rewrite Hh in Hcin by done. specialize (O12 c Hcin). lia.
Qed.

(** Bytes that are at [scratch_pos] already. *)
Lemma scratch_append w s q data :
  rep w s q -> load w (scratch_buf s) (scratch_pos s) (Z.of_nat (length data)) = Done data ->
  exists s', pushiov s (scratch_ptr s) (Z.of_nat (length data)) = Done s' /\ rep w s' (q_append q data)
    /\ scratch_buf s' = scratch_buf s /\ scratch_lim s' = scratch_lim s
    /\ scratch_pos s' = scratch_pos s + Z.of_nat (length data)
    /\ (forall b, unused s b -> unused s' b).
Proof.
  intros R Hload. pose proof (rep_ok _ _ _ R) as O. destruct data as [|x data].
  { destruct (pushiov_0 w s (scratch_ptr s) O) as (s' & E & ->). exists s. split; [exact E|]. rewrite q_append_nil.
    split_and!; try done. cbn. lia. }
  set (d := x :: data) in *. assert (Hl : 0 < Z.of_nat (length d)) by (unfold d; cbn [length]; lia). clearbody d.
  destruct (load_ok _ _ _ _ _ Hload Hl) as [Hio Hby]. destruct (ok_scr _ _ O) as (sb & Es & Ls).
  assert (Hmp : may_push s (scratch_ptr s) (Z.of_nat (length d))).
  { split; [by apply (scratch_not_freed w)|]. left. split; [done|].
    destruct Hio as (_ & _ & blk & Eb & Hb). cbn in Eb, Hb. rewrite Es in Eb. injection Eb as <-. lia. }
  exists (pushed_suio s (scratch_ptr s) (Z.of_nat (length d))). split; [by apply (pushiov_spec w)|].
  destruct (pushed_spec w s (scratch_ptr s) _ O Hl Hio) as (_ & Hc & _). split; [|split_and!; try done].
  - destruct R as [_ B P L]. split; [by apply pushed_suio_ok| |done|done]. cbn [pushed_suio iovs].
    rewrite Hc, B. cbn [scratch_ptr fst snd]. by rewrite Hby.
  - cbn. by rewrite bool_decide_true.
  - intros b (U1 & U2 & U3 & U4). split_and!; try done. intros v. cbn [pushed_suio iovs].
    destruct (pushed_cases w s (scratch_ptr s) (Z.of_nat (length d)) O) as [(pre & u & Ei & Eb & _ & ->)|[_ ->]];
      rewrite elem_of_app, list_elem_of_singleton; intros [Hv| ->]; cbn; try done.
    + apply U3. rewrite Ei. apply elem_of_app. by left.
    + injection Eb as Eb _. by rewrite <- Eb.
    + by apply U3.
Qed.

(** The scratch block changes to a block that is there. *)
Lemma switch_ok w s b blk :
  suio_core w s -> heap w !! b = Some blk -> b <> defbuf -> (forall v, v ∈ iovs s -> iov_blk v <> b) -> b ∉ dcbs (uiocbs s) ->
  suio_ok w (mksuio (iovs s) (uiocbs s) (uiobytes s) (nrembytes s) (nremiov s) (lastiovend s) b 0 (Z.of_nat (length blk))).
Proof.
  intros [C1 C2 C3 C4 C5 C6 C7 C8 C9] Hb U2 U3 U4. split; cbn; try done.
  - by exists blk.
  - lia.
  - apply Forall_forall. intros v Hv E. by apply U3 in E.
  - apply Forall_forall. intros c Hc. rewrite Forall_forall in C7. specialize (C7 c Hc).
    destruct (cb_fn c) as [x|] eqn:Ec; [|done]. destruct C7 as (D1 & D2 & D3). split_and!; try done.
    intros ->. apply U4. by apply (dcbs_in _ c).
Qed.

(** What was stored is read back. *)
Lemma load_store w b off data w' :
  store w b off data = Done w' -> load w' b off (Z.of_nat (length data)) = Done data.
Proof.
  unfold store, load, copy_in. destruct (heap w !! b) as [blk|]; [|done].
  destruct (Z.leb_spec 0 off), (Z.leb_spec (off + Z.of_nat (length data)) (Z.of_nat (length blk))); cbn [andb mbind outcome_bind]; try done.
  intros [= <-]. cbn [heap]. rewrite lookup_insert_eq.
  destruct (Z.leb_spec 0 off), (Z.leb_spec 0 (Z.of_nat (length data))); try lia.
  replace (_ <=? _) with true.
  2:{ symmetry. apply Z.leb_le. rewrite !length_app, length_take, length_drop. lia. }
  cbn [andb]. rewrite drop_app_length' by (rewrite length_take; lia). by rewrite Nat2Z.id, take_app_length.
Qed.

Lemma load_frame w w' b off len : heap w' !! b = heap w !! b -> load w' b off len = load w b off len.
Proof. unfold load. by intros ->. Qed.

Lemma store_block w b blk off data :
  heap w !! b = Some blk -> 0 <= off -> off + Z.of_nat (length data) <= Z.of_nat (length blk) ->
  exists w' blk', store w b off data = Done w' /\ heap w' !! b = Some blk' /\ length blk' = length blk
    /\ (forall c, c <> b -> heap w' !! c = heap w !! c) /\ called w' = called w /\ fresh_blk w' = fresh_blk w.
Proof.
  intros Hb Ho Hl. unfold store, copy_in. rewrite Hb.
  destruct (Z.leb_spec 0 off), (Z.leb_spec (off + Z.of_nat (length data)) (Z.of_nat (length blk))); try lia.
  cbn [andb mbind outcome_bind]. do 2 eexists. split; [reflexivity|]. cbn [heap called fresh_blk].
  split_and!; [by rewrite lookup_insert_eq| | |done|done].
  - rewrite !length_app, length_take, length_drop. lia.
  - intros c Hc. by rewrite lookup_insert_ne.
Qed.

Section suio.
Context (junk : Z -> list Z) (Hjunk : forall n, 0 <= n -> Z.of_nat (length (junk n)) = n).

Lemma getspace_spec w s q n :
  rep w s q -> 0 <= n ->
  exists w' s', getspace junk w s n = Done (scratch_ptr s', w', s') /\ rep w' s' q
    /\ n <= scratch_lim s' - scratch_pos s'.
Proof using Hjunk.
  intros R Hn. unfold getspace. destruct (Z.leb_spec n (scratch_lim s - scratch_pos s)).
  { by exists w, s. }
  pose proof (ok_pos _ _ (rep_ok _ _ _ R)).
  destruct (morescratch_spec junk Hjunk w s q n R ltac:(lia)) as (w1 & s1 & -> & R1 & P1 & L1).
  cbn [mbind outcome_bind]. exists w1, s1. split_and!; [done|done|lia].
Qed.

(** Data at [scratch_pos], and what was read is appended if there is any. *)
Lemma read_scratch w s q d :
  rep w s q -> Z.of_nat (length d) <= scratch_lim s - scratch_pos s ->
  exists w' s', (w ← store w (scratch_buf s) (scratch_pos s) d;
      if 0 <? Z.of_nat (length d) then
        s ← pushiov s (scratch_ptr s) (Z.of_nat (length d)); Done (Z.of_nat (length d), w, s)
      else Done (0, w, s)) = Done (Z.of_nat (length d), w', s') /\ rep w' s' (q_append q d).
Proof using.
  intros R Hl. destruct (put_scratch_spec w s q d R Hl) as (w1 & s1 & E & R1 & _). unfold put_scratch in E.
  destruct (store w _ _ d) as [w2| | |] eqn:Est; try done. cbn [mbind outcome_bind] in *.
  destruct (pushiov s (scratch_ptr s) _) as [s2| | |] eqn:Ep; try done. cbn [mbind outcome_bind] in *. injection E as -> ->.
  destruct (Z.ltb_spec 0 (Z.of_nat (length d))); [by exists w1, s1|].
  destruct d; [|cbn in *; lia]. destruct (store_scratch w s [] (rep_ok _ _ _ R) Hl) as (w' & E' & O' & _).
  rewrite Est in E'. injection E' as <-. destruct (pushiov_0 w1 s (scratch_ptr s) O') as (s' & Ep' & ->).
  change (Z.of_nat (length (@nil Z))) with 0 in *. rewrite Ep in Ep'. injection Ep' as ->. by exists w1, s.
Qed.

(** The old scratch block is freed when its bytes are gone, and the block that
    was read into becomes the scratch block. *)
Lemma switch_spec w s q b blk :
  rep w s q -> unused s b -> heap w !! b = Some blk ->
  exists w' s', (if bool_decide (scratch_buf s = defbuf) then Done (w, s) else iovcb w s (Dealloc (scratch_buf s))) = Done (w', s')
    /\ rep w' (mksuio (iovs s') (uiocbs s') (uiobytes s') (nrembytes s') (nremiov s') (lastiovend s') b 0 (Z.of_nat (length blk))) q
    /\ heap w' !! b = heap w !! b.
Proof using.
  intros [O B P L] U Hb. pose proof U as (U1 & U2 & U3 & U4). case_bool_decide as Hd.
  - exists w, s. split; [done|]. split; [|done]. split; try done. apply switch_ok; try done. by apply ok_core.
  - destruct (iovcb_dealloc_core w s O Hd) as (w' & s' & E & C & H1 & H2 & H3). exists w', s'. split; [done|].
    unfold iovcb in E. destruct (Z.eqb_spec (uiobytes s) 0) as [E0|E0].
    + cbn [call] in E. unfold free in E. destruct (ok_scr _ _ O) as (sb & Es & _). rewrite Es in E. cbn [mbind outcome_bind] in E.
      injection E as <- <-. assert (Hk : delete (scratch_buf s) (heap w) !! b = heap w !! b) by (by rewrite lookup_delete_ne).
      split; [|done]. split; cbn [heap called iovs nrembytes uiocbs] in *; try congruence.
      apply switch_ok; try done. cbn. congruence.
    + injection E as <- <-. split; [|done]. split; cbn [set_cbs iovs nrembytes uiocbs] in *; try congruence.
      apply (switch_ok w (set_cbs s (uiocbs s ++ [mkcb (nrembytes s + uiobytes s) (Dealloc (scratch_buf s))]))); try done.
      cbn. rewrite dcbs_app, elem_of_app. intros [|Hin]; [done|]. cbn in Hin. apply list_elem_of_singleton in Hin. done.
Qed.

(** The result of a read of at most [len] bytes. *)
Definition read_result (data : option (list Z)) (len : Z) : list Z :=
  match data with Some d => take (Z.to_nat len) d | None => [] end.
Definition read_count (data : option (list Z)) (len : Z) : Z :=
  match data with Some d => Z.of_nat (length (take (Z.to_nat len) d)) | None => -1 end.

(** Two pieces are read into. *)
Lemma input_two w s q d size (space := scratch_lim s - scratch_pos s) b w0 :
  rep w s q -> 0 <= size -> space < Z.of_nat (length d) <= space + size ->
  allocator junk w size = (b, w0) ->
  exists w' s', (w ← store w0 (scratch_buf s) (scratch_pos s) (take (Z.to_nat space) d);
      w ← store w b 0 (drop (Z.to_nat space) d);
      s ← pushiov s (scratch_ptr s) space;
      assertM (scratch_pos s =? scratch_lim s) ;;
      ws ← (if bool_decide (scratch_buf s = defbuf) then Done (w, s) else iovcb w s (Dealloc (scratch_buf s)));
      let '(w, s) := ws : world * suio in
      let s := mksuio (iovs s) (uiocbs s) (uiobytes s) (nrembytes s) (nremiov s) (lastiovend s) b 0 size in
      s ← pushiov s (scratch_ptr s) (Z.of_nat (length d) - space);
      Done (Z.of_nat (length d), w, s)) = Done (Z.of_nat (length d), w', s') /\ rep w' s' (q_append q d).
Proof using Hjunk.
  intros R Hsz Hn. unfold allocator. intros [= <- <-]. set (b := fresh_blk w).
  pose proof (rep_ok _ _ _ R) as O. pose proof (ok_pos _ _ O) as Hpos. pose proof (fresh_unused w s O) as U. fold b in U.
  set (w0 := mkw (<[b := junk size]> (heap w)) (S b) (called w)).
  assert (R0 : rep w0 s q).
  { apply (rep_frame w w0 s q b R U); try done; cbn; [|lia|unfold b; lia]. intros c Hc. by rewrite lookup_insert_ne. }
  set (d1 := take (Z.to_nat space) d). assert (L1 : Z.of_nat (length d1) = space) by (unfold d1; rewrite length_take; lia).
  set (d2 := drop (Z.to_nat space) d). assert (L2 : Z.of_nat (length d2) = Z.of_nat (length d) - space) by (unfold d2; rewrite length_drop; lia).
  destruct (store_scratch w0 s d1 (rep_ok _ _ _ R0) ltac:(lia)) as (w1 & E1 & O1 & C1 & _ & K1 & F1 & H1). rewrite E1.
  assert (R1 : rep w1 s q). { destruct R0 as [_ B P L]. split; try done; congruence. }
  cbn [mbind outcome_bind].
  assert (Hb1 : heap w1 !! b = Some (junk size)).
  { rewrite H1 by (by destruct U). cbn. by rewrite lookup_insert_eq. }
  destruct (store_block w1 b (junk size) 0 d2 Hb1 ltac:(lia)) as (w2 & blk & E2 & Hb2 & Hlen & H2 & K2 & F2).
  { rewrite Hjunk by lia. lia. }
  rewrite E2. cbn [mbind outcome_bind].
  assert (R2 : rep w2 s q).
  { apply (rep_frame w1 w2 s q b R1 U); try done; [lia|]. intros _. rewrite F2, F1. cbn. lia. }
  destruct (scratch_append w2 s q d1 R2) as (s1 & Ep & R3 & S1 & S2 & S3 & S4).
  { rewrite (load_frame w1) by (apply H2, not_eq_sym, (proj1 U)). by apply (load_store w0). }
  rewrite L1 in Ep, S3. rewrite Ep. cbn [mbind outcome_bind].
  destruct (Z.eqb_spec (scratch_pos s1) (scratch_lim s1)) as [_|Hne]; [|unfold space in *; lia]. cbn [assertM mbind outcome_bind].
  destruct (switch_spec w2 s1 _ b blk R3 (S4 b U) Hb2) as (w3 & s2 & -> & R4 & H3). cbn [mbind outcome_bind].
  assert (Hsize : Z.of_nat (length blk) = size) by (rewrite Hlen; by apply Hjunk). rewrite Hsize in R4.
  destruct (scratch_append w3 _ _ d2 R4) as (s3 & Ep3 & R5 & _).
  { cbn [scratch_buf scratch_pos]. rewrite (load_frame w2) by done. by apply (load_store w1). }
  rewrite <- L2, Ep3. cbn [mbind outcome_bind]. exists w3, s3. split; [done|].
  by rewrite q_append_app in R5; unfold d1, d2 in R5; rewrite take_drop in R5.
Qed.

Lemma input_spec data len w s q :
  rep w s q -> 0 <= len ->
  exists w' s', input junk data len w s = Done (read_count data len, w', s')
    /\ rep w' s' (q_append q (read_result data len)).
Proof using Hjunk.
  intros R Hlen. unfold input. pose proof (rep_ok _ _ _ R) as O. pose proof (ok_pos _ _ O) as Hpos.
  destruct ((len <=? scratch_lim s - scratch_pos s) || (scratch_lim s - scratch_pos s =? 0)) eqn:Ecase.
  { destruct (getspace_spec w s q len R Hlen) as (w1 & s1 & -> & R1 & Hroom). cbn [mbind outcome_bind].
    destruct data as [d|]; cbn [read_result read_count].
    - apply read_scratch; [done|]. rewrite length_take. lia.
    - exists w1, s1. by rewrite q_append_nil. }
  apply orb_false_iff in Ecase as [Ec _]. apply Z.leb_gt in Ec.
  pose proof (morescratch_size (len - (scratch_lim s - scratch_pos s)) ltac:(lia)) as Hz.
  set (size := _ - MALLOCRESV) in *. cbv zeta. destruct (allocator junk w size) as [b w0] eqn:Ea.
  pose proof Ea as Ea'. unfold allocator in Ea'. injection Ea' as Eb Ew0. pose proof (fresh_unused w s O) as U. rewrite Eb in U.
  assert (R0 : rep w0 s q).
  { apply (rep_frame w w0 s q b R U); try (by subst w0); subst w0 b; cbn; [|lia|lia]. intros c Hc. by rewrite lookup_insert_ne. }
  assert (Hb0 : heap w0 !! b = Some (junk size)) by (subst w0 b; cbn; by rewrite lookup_insert_eq).
  assert (Hfree : forall w1 s1 q1 blk, rep w1 s1 q1 -> unused s1 b -> heap w1 !! b = Some blk ->
    exists w2, free w1 b = Done w2 /\ rep w2 s1 q1).
  { intros w1 s1 q1 blk Rx Ux Hx. unfold free. rewrite Hx. eexists. split; [reflexivity|].
    apply (rep_frame w1 _ s1 q1 b Rx Ux); try done; cbn.
    - intros c Hc. by rewrite lookup_delete_ne.
    - rewrite lookup_delete_eq. by intros [? ?]. }
  destruct data as [d|]; cbn [read_result read_count].
  2:{ destruct (Hfree w0 s q _ R0 U Hb0) as (w1 & -> & R1). cbn [mbind outcome_bind]. exists w1, s. by rewrite q_append_nil. }
  set (d' := take (Z.to_nat len) d). assert (Ld : Z.of_nat (length d') <= len) by (unfold d'; rewrite length_take; lia).
  destruct (Z.ltb_spec (scratch_lim s - scratch_pos s) (Z.of_nat (length d'))) as [Hlt|Hge].
  { apply (input_two w s q d' size b w0 R); [lia| |done]. lia. }
  rewrite (take_ge d') by lia. rewrite (drop_ge d') by lia.
  destruct (store_scratch w0 s d' (rep_ok _ _ _ R0) ltac:(lia)) as (w1 & E1 & O1 & C1 & _ & K1 & F1 & H1). rewrite E1.
  assert (R1 : rep w1 s q). { destruct R0 as [_ B P L]. split; try done; congruence. }
  cbn [mbind outcome_bind].
  assert (Hb1 : heap w1 !! b = Some (junk size)) by (rewrite H1; [done|by destruct U]).
  destruct (store_block w1 b (junk size) 0 [] Hb1 ltac:(lia)) as (w2 & blk & E2 & Hb2 & _ & H2 & K2 & F2).
  { cbn [length]. lia. }
  rewrite E2. cbn [mbind outcome_bind].
  assert (R2 : rep w2 s q).
  { apply (rep_frame w1 w2 s q b R1 U); try done; [lia|]. intros _. rewrite F2, F1. subst w0 b. cbn. lia. }
  destruct (scratch_append w2 s q d' R2) as (s1 & Ep & R3 & _ & _ & _ & S4).
  { rewrite (load_frame w1) by (apply H2, not_eq_sym, (proj1 U)). by apply (load_store w0). }
  assert (Ep' : (if 0 <? Z.of_nat (length d') then pushiov s (scratch_ptr s) (Z.of_nat (length d')) else Done s) = Done s1).
  { destruct (Z.ltb_spec 0 (Z.of_nat (length d'))) as [|Hz0]; [done|]. destruct d'; [|cbn in *; lia].
    destruct (pushiov_0 w2 s (scratch_ptr s) (rep_ok _ _ _ R2)) as (s' & E' & ->). change (Z.of_nat (length (@nil Z))) with 0 in Ep. congruence. }
  rewrite Ep'. cbn [mbind outcome_bind]. destruct (Hfree w2 s1 _ blk R3 (S4 b U) Hb2) as (w3 & -> & R4).
  cbn [mbind outcome_bind]. by exists w3, s1.
Qed.

End suio.
