(* ===== verification/SuioProps.v ===== *)
(** * What a [suio] promises

    Any sequence of operations on a new [suio] behaves like the queue of
    bytes with its callbacks: it fails exactly where the queue has no answer,
    it never touches memory that is not there, and every byte comes out in the
    order it went in. *)
From Stdlib Require Import ZArith Lia.
From stdpp Require Import prelude gmap.
From S2P Require Import Prelude Mdblock Suio SuioSpec SuioOps SuioInput.

(** ** Sequences of operations *)
Inductive op :=
| OCopy (d : list Z)
| OFill (c n : Z)
| OCopyv (iov : list (list Z)) (skip : Z)
| OInput (data : option (list Z)) (len : Z)
| OCb (k : nat)
| OBreak
| ORem (n : Z)
| OClear.

(** The arguments of type [size_t] are not negative. *)
Definition op_args (o : op) : Prop :=
  match o with
  | OCopyv _ n | OInput _ n | ORem n => 0 <= n
  | _ => True
  end.

Definition run_op (junk : Z -> list Z) (w : world) (s : suio) (o : op) : outcome (world * suio) :=
  match o with
  | OCopy d => copy junk w s d
  | OFill c n => fill junk w s c n
  | OCopyv iov skip => copyv junk w s iov skip
  | OInput data len => r ← input junk data len w s; Done (r.1.2, r.2)
  | OCb k => iovcb w s (Call k)
  | OBreak => Done (w, breakiov s)
  | ORem n => rembytes w s n
  | OClear => clear w s
  end.

Fixpoint run_ops (junk : Z -> list Z) (w : world) (s : suio) (l : list op) : outcome (world * suio) :=
  match l with
  | [] => Done (w, s)
  | o :: l => ws ← run_op junk w s o; run_ops junk (ws.1) (ws.2) l
  end.

(** The same on the queue. *)
Definition queue_op (q : queue) (o : op) : option queue :=
  match o with
  | OCopy d => Some (q_append q d)
  | OFill c n => Some (q_append q (replicate (Z.to_nat n) c))
  | OCopyv iov skip =>
      if skip <=? Z.of_nat (length (concat iov)) then Some (q_append q (drop (Z.to_nat skip) (concat iov))) else None
  | OInput data len => Some (q_append q (read_result data len))
  | OCb k => Some (q_cb q k)
  | OBreak => Some q
  | ORem n => if n <=? q_len q then Some (q_rem q n) else None
  | OClear => Some (mkq [] [] (q_log q ++ (q_pend q).*2))
  end.

Fixpoint queue_ops (q : queue) (l : list op) : option queue :=
  match l with
  | [] => Some q
  | o :: l => match queue_op q o with Some q => queue_ops q l | None => None end
  end.

Lemma breakiov_spec w s q : rep w s q -> rep w (breakiov s) q.
Proof.
  intros [O B P L]. split; try done. destruct O as [O1 O2 O3 O4 O5 O6 O7 O8 O9 O10 O11 O12]. by split.
Qed.

Lemma copyv_panic junk w s iov skip :
  Z.of_nat (length (concat iov)) < skip -> copyv junk w s iov skip = Panic.
Proof.
  intros H. unfold copyv. destruct (iom_skip_spec iov skip ltac:(lia)) as [_ Hp]. by rewrite Hp.
Qed.

Section suio.
Context (junk : Z -> list Z) (Hjunk : forall n, 0 <= n -> Z.of_nat (length (junk n)) = n).

Lemma run_op_spec w s q o :
  rep w s q -> op_args o ->
  match queue_op q o with
  | Some q' => exists w' s', run_op junk w s o = Done (w', s') /\ rep w' s' q'
  | None => run_op junk w s o = Panic
  end.
Proof using Hjunk.
  intros R Ha. destruct o as [d|c n|iov skip|data len|k| |n|]; cbn [queue_op run_op op_args] in *.
  - by apply copy_spec.
  - by apply fill_spec.
  - destruct (Z.leb_spec skip (Z.of_nat (length (concat iov)))); [by apply copyv_spec|by apply copyv_panic].
  - destruct (input_spec junk Hjunk data len w s q R Ha) as (w' & s' & -> & R'). by exists w', s'.
  - by apply iovcb_spec.
  - eexists _, _. split; [reflexivity|]. by apply breakiov_spec.
  - destruct (rembytes_spec w s q n R Ha) as [H1 H2]. destruct (Z.leb_spec n (q_len q)) as [Hle|]; [|by apply H2].
    destruct (H1 Hle) as (w' & s' & E & R' & _). by exists w', s'.
  - by apply clear_spec.
Qed.

Lemma run_ops_spec w s q l :
  rep w s q -> Forall op_args l ->
  match queue_ops q l with
  | Some q' => exists w' s', run_ops junk w s l = Done (w', s') /\ rep w' s' q'
  | None => run_ops junk w s l = Panic
  end.
Proof using Hjunk.
  intros R Hl. revert w s q R. induction Hl as [|o l Ho Hl IH]; intros w s q R; cbn [queue_ops run_ops]; [by exists w, s|].
  pose proof (run_op_spec w s q o R Ho) as H. destruct (queue_op q o) as [q'|]; [|by rewrite H].
  destruct H as (w' & s' & -> & R'). cbn [mbind outcome_bind fst snd]. by apply IH.
Qed.
End suio.

(** Memory of a program that has just made a [suio]. *)
Definition start (blk : list Z) : world := mkw {[ defbuf := blk ]} 1 [].

Lemma start_rep blk : Z.of_nat (length blk) = smallbufsize -> rep (start blk) suio_new (mkq [] [] []).
Proof.
  intros Hl. apply (suio_new_rep (start blk) blk); try done. intros b. cbn. intros [x Hx].
  apply lookup_singleton_Some in Hx as [<- _]. unfold defbuf. lia.
Qed.

(** ** Lines *)
Fixpoint first_line (l : list Z) : Z :=
  match l with
  | [] => 0
  | x :: l => if x =? 10 then 1 else let n := first_line l in if n =? 0 then 0 else n + 1
  end.

Lemma first_line_memchr l : first_line l = match memchr 10 l with Some i => i + 1 | None => 0 end
  /\ (forall i, memchr 10 l = Some i -> 0 <= i).
Proof.
  induction l as [|x l [IH1 IH2]]; [done|]. cbn [first_line memchr]. destruct (x =? 10); [by split; [|intros ? [= <-]]|].
  rewrite IH1. destruct (memchr 10 l) as [i|]; [|done]. specialize (IH2 i eq_refl).
  destruct (Z.eqb_spec (i + 1) 0); [lia|]. split; [done|]. intros ? [= <-]. lia.
Qed.

Lemma memchr_app c l k :
  memchr c (l ++ k) = match memchr c l with
    | Some i => Some i
    | None => match memchr c k with Some i => Some (Z.of_nat (length l) + i) | None => None end
    end.
Proof.
  induction l as [|x l IH]; cbn [app memchr]; [by destruct (memchr c k)|]. destruct (x =? c); [done|]. rewrite IH.
  destruct (memchr c l); [done|]. destruct (memchr c k); [|done]. f_equal. cbn [length]. lia.
Qed.

Lemma linelen_iovs_spec w l n :
  Forall (iov_ok (heap w)) l ->
  linelen_iovs w l n = Done (match memchr 10 (content (heap w) l) with Some i => n + i + 1 | None => 0 end).
Proof.
  intros H. revert n. induction H as [|v l Hv Hl IH]; intros n; [done|]. cbn [linelen_iovs].
  pose proof (iov_bytes_length _ _ Hv) as Lb.
  assert (El : load w (iov_blk v) (iov_off v) (iov_len v) = Done (iov_bytes (heap w) v)).
  { destruct Hv as (V1 & V2 & blk & V3 & V4). unfold load, iov_bytes. rewrite V3.
    destruct (Z.leb_spec 0 (iov_off v)), (Z.leb_spec 0 (iov_len v)), (Z.leb_spec (iov_off v + iov_len v) (Z.of_nat (length blk))); done || lia. }
  rewrite El. cbn [mbind outcome_bind]. rewrite content_cons, memchr_app. destruct (memchr 10 (iov_bytes _ _)); [done|].
  rewrite IH. destruct (memchr 10 (content _ _)); [|done]. f_equal. lia.
Qed.

Lemma linelen_spec w s q : rep w s q -> linelen w s = Done (first_line (q_bytes q)).
Proof.
  intros [O B _ _]. unfold linelen. rewrite linelen_iovs_spec by apply O. rewrite B.
  destruct (first_line_memchr (q_bytes q)) as [-> _]. by destruct (memchr 10 (q_bytes q)).
Qed.

(** ** Properties *)
(** C21: Any sequence of [copy], [fill], [copyv], [input], [iovcb], [breakiov],
    [rembytes] and [clear] on a new [suio] behaves like the queue of bytes:
    it succeeds exactly if the queue does (the only failure is the panic of
    skipping or removing more than there is), and then the length, what
    [copyout] returns, the length of the first line and the callbacks called
    so far are those of the queue. *)
Theorem suio_refines_queue junk blk l :
  (forall n, 0 <= n -> Z.of_nat (length (junk n)) = n) -> Z.of_nat (length blk) = smallbufsize -> Forall op_args l ->
  match queue_ops (mkq [] [] []) l with
  | Some q => exists w s, run_ops junk (start blk) suio_new l = Done (w, s)
      /\ uiobytes s = q_len q /\ called w = q_log q /\ linelen w s = Done (first_line (q_bytes q))
      /\ forall len, 0 <= len -> copyout w s len = Done (take (Z.to_nat len) (q_bytes q))
  | None => run_ops junk (start blk) suio_new l = Panic
  end.
Proof.
  intros Hj Hb Hl. pose proof (run_ops_spec junk Hj _ _ _ l (start_rep blk Hb) Hl) as H.
  destruct (queue_ops _ l) as [q|]; [|done]. destruct H as (w & s & E & R). exists w, s.
  split_and!; [done|by apply (rep_len w)|apply R|by apply linelen_spec|]. intros len Hlen. by apply copyout_spec.
Qed.

Definition zeros (n : Z) : list Z := replicate (Z.to_nat n) 0.
Lemma zeros_length n : 0 <= n -> Z.of_nat (length (zeros n)) = n.
Proof. intros H. unfold zeros. rewrite length_replicate. lia. Qed.

Definition sample_ops : list op :=
  [OCopy [1; 2; 3]; OCb 7; OFill 9 200; OCb 8; ORem 5; OCopyv [[10; 11]; [12]] 1; OInput (Some [5; 6]) 8192].

Definition sample_queue : queue :=
  mkq (replicate 198 9 ++ [11; 12; 5; 6]) [(198, 8%nat)] [7%nat].

Lemma suio_refines_queue_witness :
  queue_ops (mkq [] [] []) sample_ops = Some sample_queue
  /\ exists w s, run_ops zeros (start (zeros 128)) suio_new sample_ops = Done (w, s) /\ called w = [7%nat]
    /\ copyout w s 1 = Done [9].
Proof.
  assert (E : queue_ops (mkq [] [] []) sample_ops = Some sample_queue) by (vm_compute; reflexivity). split; [exact E|].
  assert (Ha : Forall op_args sample_ops) by (repeat constructor; cbv; discriminate).
  pose proof (suio_refines_queue zeros (zeros 128) sample_ops zeros_length eq_refl Ha) as H. rewrite E in H.
  destruct H as (w & s & Er & _ & C & _ & Ho). exists w, s. split; [exact Er|]. split; [exact C|]. exact (Ho 1 ltac:(done)).
Defined.

(** [output] on a [suio] that stands for a queue never fails (whatever
    the kernel answers), what it writes is a front part of the queue and the
    rest stays, every callback whose bytes are written is called; the result
    says whether anything was written. *)
Theorem suio_output_writes_prefix ks cnt w s q :
  rep w s q -> (forall c, cnt = Some c -> c <= Z.of_nat (length (iovs s))) ->
  exists res out ks' w' s' ns, output ks cnt w s = Done (res, out, ks', w', s')
    /\ rep w' s' (foldl q_rem q ns) /\ q_bytes q = out ++ q_bytes (foldl q_rem q ns)
    /\ (res = 1 -> out <> []) /\ (res = 0 -> out = []).
Proof. apply output_spec. Qed.

Lemma suio_output_writes_prefix_witness :
  exists w s q, rep w s q /\ q_bytes q = replicate 130 9
    /\ exists res out ks' w' s' ns, output [Wrote 3; Wrote 100; Again] None w s = Done (res, out, ks', w', s')
      /\ rep w' s' (foldl q_rem q ns) /\ q_bytes q = out ++ q_bytes (foldl q_rem q ns).
Proof.
  pose proof (run_ops_spec zeros zeros_length _ _ _ [OFill 9 130] (start_rep (zeros 128) eq_refl) ltac:(by repeat constructor)) as H.
  cbn [queue_ops queue_op] in H. destruct H as (w & s & _ & R). exists w, s. eexists. split; [exact R|]. split; [reflexivity|].
  destruct (suio_output_writes_prefix [Wrote 3; Wrote 100; Again] None w s _ R) as (a & b & c & d & e & f & H1 & H2 & H3 & _);
    [done|]. by exists a, b, c, d, e, f.
Defined.

Lemma iovscrub_spins fuel w v l : iov_ok (heap w) v -> iovscrub fuel w (v :: l) = Spin.
Proof.
  revert w. induction fuel as [|fuel IH]; intros w (H1 & H2 & blk & Hb & Hl); [done|]. cbn [iovscrub].
  destruct (store_block w (iov_blk v) blk (iov_off v) (replicate (Z.to_nat (iov_len v)) 0) Hb H2) as (w' & blk' & -> & Hb' & L' & _).
  { rewrite length_replicate. lia. }
  cbn [mbind outcome_bind]. apply IH. split; [done|]. split; [done|]. exists blk'. split; [done|lia].
Qed.

(** [iovscrub] of one piece of memory or more does not end: however many
    turns the loop is given, it is not done, since it clears the first piece
    again and again. *)
Theorem iovscrub_never_ends fuel w v l : iov_ok (heap w) v -> iovscrub fuel w (v :: l) = Spin.
Proof. apply iovscrub_spins. Qed.

Lemma iovscrub_never_ends_witness :
  iovscrub 1000 (start (zeros 128)) [mkiov 0 5 10; mkiov 0 20 2] = Spin.
Proof.
  apply iovscrub_never_ends. split; [done|]. split; [done|]. by exists (zeros 128).
Defined.
