(* ===== verification/Stream.v ===== *)
(** * Packets on a byte stream: [arpc/axprt_stream.C] and [arpc/axprt.h]

    A packet travels as a four-byte header, which is its length with the top
    bit set, and its bytes.  What the kernel does not take at once waits in a
    [suio]; what arrives collects in a buffer until a packet is complete.
    The kernel is a list of answers to [writev] and the bytes that have
    arrived; the file descriptor is whether it is open. *)
From Stdlib Require Import ZArith Lia.
From stdpp Require Import prelude gmap.
From S2P Require Import Prelude Mdblock Serial Suio.

(** Calls of the receive callback. *)
Inductive event := Pkt (d : list Z) | Eof.

Record rx := mkrx {
  ingetpkt : bool;
  cb : bool;                     (* a receive callback is set *)
  selread : bool;                (* [input] is called when bytes arrive *)
  pktlen : Z;
  pktbuf : option (list Z);
  bytes_recv : Z;
  sock : list Z;                 (* bytes that have arrived *)
  events : list event
}.

Record tx := mktx {
  syncpts : list Z;
  out : suio;
  wcbset : bool;                 (* [output] is called when there is room *)
  raw_bytes_sent : Z;
  bytes_sent : Z;
  mem : world;
  kern : list wres;              (* what [writev] will answer *)
  wire : list Z                  (* bytes that [writev] took *)
}.

Record axprt_stream := mkax { destroyed : bool; fd : bool; rcv : rx; snd_ : tx }.

Definition set_rcv (a : axprt_stream) (r : rx) : axprt_stream := mkax (destroyed a) (fd a) r (snd_ a).
Definition set_snd (a : axprt_stream) (t : tx) : axprt_stream := mkax (destroyed a) (fd a) (rcv a) t.

Definition set_cb (r : rx) (c : bool) : rx :=
  mkrx (ingetpkt r) c (selread r) (pktlen r) (pktbuf r) (bytes_recv r) (sock r) (events r).
Definition set_selread (r : rx) (b : bool) : rx :=
  mkrx (ingetpkt r) (cb r) b (pktlen r) (pktbuf r) (bytes_recv r) (sock r) (events r).
Definition set_ingetpkt (r : rx) (b : bool) : rx :=
  mkrx b (cb r) (selread r) (pktlen r) (pktbuf r) (bytes_recv r) (sock r) (events r).
Definition set_pkt (r : rx) (n : Z) (b : option (list Z)) : rx :=
  mkrx (ingetpkt r) (cb r) (selread r) n b (bytes_recv r) (sock r) (events r).
Definition add_event (r : rx) (e : event) : rx :=
  mkrx (ingetpkt r) (cb r) (selread r) (pktlen r) (pktbuf r) (bytes_recv r) (sock r) (events r ++ [e]).
Definition set_out (t : tx) (w : world) (o : suio) : tx :=
  mktx (syncpts t) o (wcbset t) (raw_bytes_sent t) (bytes_sent t) w (kern t) (wire t).
Definition set_wcb (t : tx) (b : bool) : tx :=
  mktx (syncpts t) (out t) b (raw_bytes_sent t) (bytes_sent t) (mem t) (kern t) (wire t).

(** Bytes of a buffer. *)
Definition slice (buf : list Z) (off len : Z) : outcome (list Z) :=
  if (0 <=? off) && (0 <=? len) && (off + len <=? Z.of_nat (length buf))
  then Done (take (Z.to_nat len) (drop (Z.to_nat off) buf)) else Wild.

Section stream.
(** The packet and buffer sizes, what new memory holds, and whether the
    user's receive callback, after these calls, leaves itself set (or calls
    [setrcb (NULL)]). *)
Context (pktsize bufsize : Z) (junk : Z -> list Z) (react : list event -> bool).

Definition ateof (a : axprt_stream) : bool := negb (fd a).

(** The first bytes of [out] and the world it lives in are new. *)
Definition axprt_stream_new (w : world) (ks : list wres) : axprt_stream :=
  mkax false true (mkrx false false false 0 None 0 [] []) (mktx [] suio_new false 0 0 w ks []).

(** A call of the receive callback. *)
Definition call_cb (e : event) (a : axprt_stream) : axprt_stream :=
  let r := add_event (rcv a) e in
  if react (events r) then set_rcv a r
  else set_rcv a (let r := set_cb r false in if fd a then set_selread r false else r).

Definition wrsync (t : tx) : tx :=
  let iovno := nremiov (out t) + Z.of_nat (length (iovs (out t))) in
  if bool_decide (last (syncpts t) = Some iovno) then t
  else mktx (syncpts t ++ [iovno]) (breakiov (out t)) (wcbset t) (raw_bytes_sent t) (bytes_sent t) (mem t) (kern t) (wire t).

Definition fail (a : axprt_stream) : outcome axprt_stream :=
  let a := if fd a then mkax (destroyed a) false (set_selread (rcv a) false) (set_wcb (snd_ a) false) else a in
  if destroyed a then Done a
  else
    let a := if cb (rcv a) && negb (ingetpkt (rcv a)) then call_cb Eof a else a in
    wo ← clear (mem (snd_ a)) (out (snd_ a));
    let '(w, o) := wo : world * suio in
    Done (set_snd a (set_out (snd_ a) w o)).

(** The file descriptor goes to the caller. *)
Definition reclaim (a : axprt_stream) : outcome (bool * axprt_stream) :=
  let rfd := fd a in
  let a := if fd a then mkax (destroyed a) false (set_selread (rcv a) false) (set_wcb (snd_ a) false) else a in
  a ← fail a;
  Done (rfd, a).

(** [getsockname] gives the local internet address or none. *)
Definition sockcheck (sockname : option Z) (ifchg_addrs : list Z) (a : axprt_stream) : outcome axprt_stream :=
  if negb (fd a) then Done a
  else match sockname with
       | Some ip => if bool_decide (ip ∈ ifchg_addrs) then Done a else fail a
       | None => Done a
       end.

(** ** Sending *)
Fixpoint pop_syncpts (iovno : Z) (l : list Z) : list Z :=
  match l with
  | p :: l' => if p <=? iovno then pop_syncpts iovno l' else l
  | [] => []
  end.

(** [dowritev] until it does not write. *)
Fixpoint output_rounds (fuel : nat) (t : tx) : outcome (Z * tx) :=
  match fuel with
  | O => Spin
  | S fuel =>
      let pts := pop_syncpts (nremiov (out t)) (syncpts t) in
      let cnt := match pts with [] => None | p :: _ => Some (p - nremiov (out t)) end in
      r ← Suio.output (kern t) cnt (mem t) (out t);
      let '(n, d, ks, w, o) := r : Z * list Z * list wres * world * suio in
      let t := mktx pts o (wcbset t) (raw_bytes_sent t) (bytes_sent t) w ks (wire t ++ d) in
      if 0 <? n then output_rounds fuel t else Done (n, t)
  end.

Definition st_output (a : axprt_stream) : outcome axprt_stream :=
  r ← output_rounds (S (length (kern (snd_ a)))) (snd_ a);
  let '(n, t) := r : Z * tx in
  let a := set_snd a t in
  let resid := negb (uiobytes (out t) =? 0) in
  if n <? 0 then fail a
  else if resid && negb (wcbset t) then Done (set_snd a (set_wcb t true))
  else if negb resid && wcbset t then Done (set_snd a (set_wcb t false))
  else Done a.

Definition destroy (a : axprt_stream) : outcome axprt_stream :=
  let a := mkax true (fd a) (rcv a) (snd_ a) in
  a ← (if fd a && negb (uiobytes (out (snd_ a)) =? 0) then st_output a else Done a);
  a ← fail a;
  wo ← clear (mem (snd_ a)) (out (snd_ a));
  let '(w, o) := wo : world * suio in
  Done (set_rcv (set_snd a (set_out (snd_ a) w o)) (set_pkt (rcv a) (pktlen (rcv a)) None)).

Definition setwcb (k : nat) (a : axprt_stream) : outcome axprt_stream :=
  assertM (negb (destroyed a)) ;;
  let t := snd_ a in
  wo ← (if negb (uiobytes (out t) =? 0) then iovcb (mem t) (out t) (Call k)
        else w ← call (mem t) (Call k); Done (w, out t));
  let '(w, o) := wo : world * suio in
  Done (set_snd a (set_out t w o)).

(** The four zero bytes are copied, as [print] does with short data. *)
Definition sendbreak (k : option nat) (a : axprt_stream) : outcome axprt_stream :=
  let t := snd_ a in
  wo ← copy junk (mem t) (out t) [0; 0; 0; 0];
  let '(w, o) := wo : world * suio in
  wo ← (match k with Some k => iovcb w o (Call k) | None => Done (w, o) end);
  let '(w, o) := wo : world * suio in
  st_output (set_snd a (wrsync (set_out t w o))).

(** The attempt to write [data] at once: the bytes that the kernel took, or
    [None] after an error. *)
Definition writev (ks : list wres) (data : list Z) : option Z * list wres :=
  match ks with
  | Wrote n :: ks => (Some (Z.min (Z.max 1 n) (Z.of_nat (length data))), ks)
  | Again :: ks => (Some 0, ks)
  | Werr :: ks => (None, ks)
  | [] => (Some 0, [])
  end.

Definition sendv (iov : list (list Z)) (a : axprt_stream) : outcome axprt_stream :=
  assertM (negb (destroyed a)) ;;
  let len := u32 (iovsize iov) in
  if negb (fd a) then Panic
  else if pktsize <? len then fail a
  else
    let t := snd_ a in
    let sent := u64 (bytes_sent t + len) in
    let raw := u64 (raw_bytes_sent t + (len + 4)) in
    let hdr := putint (0x80000000 .| len) in
    if (uiobytes (out t) =? 0) && (Z.of_nat (length iov) <? Z.min 16 UIO_MAXIOV) then
      let niov := hdr :: iov in
      let '(skip, ks) := writev (kern t) (concat niov) in
      match skip with
      | None => fail (set_snd a (mktx (syncpts t) (out t) (wcbset t) raw sent (mem t) ks (wire t)))
      | Some skip =>
          wo ← copyv junk (mem t) (out t) niov skip;
          let '(w, o) := wo : world * suio in
          st_output (set_snd a (mktx (syncpts t) o (wcbset t) raw sent w ks
                                     (wire t ++ take (Z.to_nat skip) (concat niov))))
      end
    else
      wo ← copy junk (mem t) (out t) hdr;
      let '(w, o) := wo : world * suio in
      wo ← copyv junk w o iov 0;
      let '(w, o) := wo : world * suio in
      st_output (set_snd a (mktx (syncpts t) o (wcbset t) raw sent w (kern t) (wire t))).

(** ** Receiving *)
Definition recvbreak (a : axprt_stream) : outcome axprt_stream := fail a.

(** The header is taken as unsigned, which has the same bits. *)
Definition checklen (len : Z) (a : axprt_stream) : outcome (option Z * axprt_stream) :=
  if (len .& 0x80000000) =? 0 then a ← fail a; Done (None, a)
  else
    let len := len .& 0x7fffffff in
    if pktsize <? len then a ← fail a; Done (None, a)
    else Done (Some len, a).

(** The packet at [cp], with the bytes up to [eom]. *)
Definition getpkt (a : axprt_stream) (cp eom : Z) : outcome (bool * Z * axprt_stream) :=
  if negb (cb (rcv a)) || (eom - cp <? 4) then Done (false, cp, a)
  else match pktbuf (rcv a) with
  | None => Wild
  | Some buf =>
      hdr ← slice buf cp 4;
      len ← getint hdr;
      if len =? 0 then a ← recvbreak a; Done (true, cp + 4, a)
      else
        r ← checklen len a;
        let '(len, a) := r : option Z * axprt_stream in
        match len with
        | None => Done (false, cp, a)
        | Some len =>
            if eom - (cp + 4) <? len then Done (false, cp, a)
            else d ← slice buf (cp + 4) len; Done (true, cp + 4 + len, call_cb (Pkt d) a)
        end
  end.

Fixpoint getpkts (fuel : nat) (a : axprt_stream) (cp eom : Z) : outcome (Z * axprt_stream) :=
  if cb (rcv a) then
    match fuel with
    | O => Spin
    | S fuel =>
        r ← getpkt a cp eom;
        let '(more, cp, a) := r : bool * Z * axprt_stream in
        if more : bool then getpkts fuel a cp eom else Done (cp, a)
    end
  else Done (cp, a).

(** Each turn that goes on takes four bytes or more. *)
Definition callgetpkt (a : axprt_stream) : outcome axprt_stream :=
  if ingetpkt (rcv a) then Done a
  else
    let a := set_rcv a (set_ingetpkt (rcv a) true) in
    let eom := pktlen (rcv a) in
    r ← getpkts (S (Z.to_nat eom)) a 0 eom;
    let '(cp, a) := r : Z * axprt_stream in
    a ← (if ateof a then Done (if cb (rcv a) then call_cb Eof a else a)
         else
           buf ← (match pktbuf (rcv a) with
                  | Some buf =>
                      if negb (cp =? 0) then d ← slice buf cp (eom - cp); b ← copy_in buf 0 d; Done (Some b)
                      else Done (Some buf)
                  | None => Done None
                  end);
           let n := u32 (pktlen (rcv a) - cp) in
           let r := set_pkt (rcv a) n (if n =? 0 then None else buf) in
           assertM (n <? pktsize) ;;
           Done (set_rcv a r));
    Done (set_rcv a (set_ingetpkt (rcv a) false)).

Definition setrcb (c : bool) (a : axprt_stream) : outcome axprt_stream :=
  assertM (negb (destroyed a)) ;;
  let a := set_rcv a (set_cb (rcv a) c) in
  if fd a then
    if c then
      let a := set_rcv a (set_selread (rcv a) true) in
      if negb (pktlen (rcv a) =? 0) then callgetpkt a else Done a
    else Done (set_rcv a (set_selread (rcv a) false))
  else if c then Done (call_cb Eof a)
  else Done a.

(** [bufsize] bytes, where [xmalloc] gives new memory. *)
Definition need_pktbuf (r : rx) : list Z :=
  match pktbuf r with Some buf => buf | None => junk bufsize end.

Definition ungetpkt (pkt : list Z) (a : axprt_stream) : outcome axprt_stream :=
  let len := Z.of_nat (length pkt) in
  assertM (len <=? pktsize) ;;
  assertM (pktlen (rcv a) =? 0) ;;
  let buf := need_pktbuf (rcv a) in
  buf ← copy_in buf 0 (putint (0x80000000 .| len));
  buf ← copy_in buf 4 pkt;
  let a := set_rcv a (set_pkt (rcv a) (u32 (len + 4)) (Some buf)) in
  if cb (rcv a) then callgetpkt a else Done a.

(** What [read] answers: some of the bytes that have arrived (none means that
    there are none now), the end of the stream or an error. *)
Inductive rres := Got (n : Z) | Rend | Rerr.

Definition st_input (k : rres) (a : axprt_stream) : outcome axprt_stream :=
  if negb (fd a) then Done a
  else
    let r := rcv a in
    let buf := need_pktbuf r in
    let a := set_rcv a (set_pkt r (pktlen r) (Some buf)) in
    let maxlen := bufsize - pktlen r in
    match k with
    | Rend | Rerr => fail a
    | Got n =>
        if bool_decide (sock r = []) then Done a
        else
          let d := take (Z.to_nat (Z.min (Z.max 1 n) maxlen)) (sock r) in
          if Z.of_nat (length d) <=? 0 then fail a
          else
            buf ← copy_in buf (pktlen r) d;
            callgetpkt (set_rcv a (mkrx (ingetpkt r) (cb r) (selread r) (u32 (pktlen r + Z.of_nat (length d))) (Some buf)
                                        (u64 (bytes_recv r + Z.of_nat (length d))) (drop (length d) (sock r)) (events r)))
    end.

(** [fdwait] says whether there is something to read. *)
Definition poll (readable : bool) (k : rres) (a : axprt_stream) : outcome axprt_stream :=
  assertM (cb (rcv a)) ;;
  assertM (negb (ateof a)) ;;
  if ingetpkt (rcv a) then Panic
  else if negb (wcbset (snd_ a)) || readable then st_input k a
  else st_output a.

End stream.
