(* ===== verification/StreamSend.v ===== *)
(** * Sending packets on a stream

    Whatever the kernel takes at a time, the bytes on the wire and those that
    still wait are the frames of the packets that were sent. *)
From Stdlib Require Import ZArith Lia.
From stdpp Require Import prelude gmap.
From S2P Require Import Prelude Mdblock Serial Suio SuioSpec SuioOps SuioProps Stream.

(** ** The number of pieces that were ever in a [suio] does not go down *)
Definition pieces (s : suio) : Z := nremiov s + Z.of_nat (length (iovs s)).

Lemma extend_back_length l len l' : extend_back l len = Done l' -> length l' = length l.
Proof.
  revert l'. induction l as [|v [|u l] IH]; intros l'; [done|by intros [= <-]|].
  change (extend_back (v :: u :: l) len) with (l ← extend_back (u :: l) len; Done (v :: l)).
  destruct (extend_back (u :: l) len) as [k| | |]; try done. intros [= <-]. cbn [length]. by rewrite (IH k eq_refl).
Qed.

Lemma push_iovs_length s base len l last :
  push_iovs s base len = Done (l, last) -> (length (iovs s) <= length l)%nat.
Proof.
  unfold push_iovs. destruct (bool_decide _).
  - destruct (extend_back (iovs s) len) as [k| | |] eqn:E; try done. apply extend_back_length in E. intros [= <- _]. lia.
  - destruct (negb _); intros [= <- _]; rewrite ?length_app; lia.
Qed.

Lemma pushiov_pieces s base len s' : pushiov s base len = Done s' -> pieces s <= pieces s'.
Proof.
  unfold pushiov. destruct (push_iovs s base len) as [[l last]| | |] eqn:E; try done. apply push_iovs_length in E.
  cbn [mbind outcome_bind]. unfold pieces.
  case_bool_decide; [destruct (_ <=? _); cbn [assertM mbind outcome_bind]; [|done]|]; intros [= <-]; cbn [nremiov iovs]; lia.
Qed.

Lemma put_scratch_pieces w s d w' s' : put_scratch w s d = Done (w', s') -> pieces s <= pieces s'.
Proof.
  unfold put_scratch. destruct (store _ _ _ _); try done. cbn [mbind outcome_bind].
  destruct (pushiov s _ _) as [s1| | |] eqn:E; try done. intros [= _ <-]. by apply pushiov_pieces in E.
Qed.

Lemma iovcb_pieces w s f w' s' : iovcb w s f = Done (w', s') -> pieces s' = pieces s.
Proof. unfold iovcb. destruct (_ =? _); [destruct (call w f); try done|]; by intros [= _ <-]. Qed.

Section pieces.
Context (junk : Z -> list Z).

Lemma morescratch_pieces w s n w' s' : morescratch junk w s n = Done (w', s') -> pieces s' = pieces s.
Proof using.
  unfold morescratch. case_bool_decide; cbn [mbind outcome_bind]; [by intros [= _ <-]|].
  destruct (iovcb w s _) as [[w1 s1]| | |] eqn:E; try done. cbn. apply iovcb_pieces in E. by intros [= _ <-].
Qed.

Lemma more_put_pieces w s n d w' s' :
  (ws ← morescratch junk w s n; let '(w, s) := ws : world * suio in put_scratch w s d) = Done (w', s') -> pieces s <= pieces s'.
Proof using.
  destruct (morescratch junk w s n) as [[w1 s1]| | |] eqn:E; try done. cbn [mbind outcome_bind]. intros E2.
  apply morescratch_pieces in E. apply put_scratch_pieces in E2. lia.
Qed.

Lemma slowcopy_pieces w s d w' s' : slowcopy junk w s d = Done (w', s') -> pieces s <= pieces s'.
Proof using.
  unfold slowcopy. destruct (_ <=? _); [by apply put_scratch_pieces|]. destruct (_ || _).
  - destruct (put_scratch w s _) as [[w1 s1]| | |] eqn:E; try done. cbn [mbind outcome_bind]. intros E2.
    apply put_scratch_pieces in E. apply more_put_pieces in E2. lia.
  - cbn [mbind outcome_bind]. by apply more_put_pieces.
Qed.

Lemma copy_pieces w s d w' s' : copy junk w s d = Done (w', s') -> pieces s <= pieces s'.
Proof using. unfold copy. destruct (_ <=? _); [apply put_scratch_pieces|apply slowcopy_pieces]. Qed.

Lemma copyv_pieces w s iov skip w' s' : copyv junk w s iov skip = Done (w', s') -> pieces s <= pieces s'.
Proof using.
  unfold copyv. destruct (iom_skip _ _) as [m| | |]; try done. cbn [mbind outcome_bind].
  assert (Hrest : forall w s m, (let n := iom_size m in if 0 <? n then
        ws ← morescratch junk w s n; let '(w, s) := ws : world * suio in put_scratch w s ((iom_copyout m n).1)
      else Done (w, s)) = Done (w', s') -> pieces s <= pieces s').
  { intros w0 s0 m0. cbv zeta. destruct (_ <? _); [by apply more_put_pieces|]. by intros [= _ <-]. }
  destruct (_ || _).
  - destruct (iom_copyout m _) as [data m']. destruct (0 <? Z.of_nat (length data)).
    + destruct (put_scratch w s data) as [[w1 s1]| | |] eqn:E; try done. cbn [mbind outcome_bind]. intros E2.
      apply put_scratch_pieces in E. specialize (Hrest w1 s1 m' E2). lia.
    + cbn [mbind outcome_bind]. apply Hrest.
  - cbn [mbind outcome_bind]. apply Hrest.
Qed.
End pieces.

(** ** [suio::output] *)
(** It keeps the number of pieces, uses up an answer for each success, and
    fails only if the kernel does. *)
Lemma output_loop_use ks mx w s err d ks' w' s' :
  output_loop ks mx w s = Done (err, d, ks', w', s') ->
  pieces s' = pieces s /\ (exists used, ks = used ++ ks' /\ (err = true -> Werr ∈ used) /\ (d <> [] -> used <> [])).
Proof.
  revert w s err d ks' w' s'. induction ks as [|k ks IH]; intros w s err d ks' w' s'; cbn [output_loop].
  { destruct (match mx with None => _ | Some m => _ end); [destruct (copyout_iovs _ _ _); try done; cbn [mbind outcome_bind]|];
      intros [= <- <- <- <- <-]; split; [done| |done|]; by exists []. }
  destruct (match mx with None => _ | Some m => _ end); [|by intros [= <- <- <- <- <-]; split; [|exists []]].
  destruct (copyout_iovs _ _ _) as [data| | |]; try done. cbn [mbind outcome_bind]. destruct k as [n| |].
  - destruct (rembytes w s _) as [[w1 s1]| | |] eqn:E; try done. cbn [mbind outcome_bind].
    destruct (output_loop ks mx w1 s1) as [[[[[err1 d1] ks1] w2] s2]| | |] eqn:E2; try done. intros [= <- <- <- <- <-].
    apply rembytes_count in E. destruct (IH _ _ _ _ _ _ _ E2) as [H1 (used & -> & H2 & H3)]. unfold pieces in *. split; [lia|].
    exists (Wrote n :: used). split; [done|]. split; [|done]. intros Hd. apply elem_of_cons. right. by apply H2.
  - intros [= <- <- <- <- <-]. split; [done|]. exists [Again]. split; [done|]. done.
  - intros [= <- <- <- <- <-]. split; [done|]. exists [Werr]. split; [done|]. split; [set_solver|done].
Qed.

Lemma output_use ks cnt w s res d ks' w' s' :
  Suio.output ks cnt w s = Done (res, d, ks', w', s') ->
  pieces s' = pieces s /\ (exists used, ks = used ++ ks' /\ (res < 0 -> Werr ∈ used) /\ (d <> [] -> used <> [])) /\ res <= 1.
Proof.
  unfold Suio.output. destruct (match cnt with Some c => assertM (c <=? Z.of_nat (length (iovs s))) | None => Done tt end); try done. cbn [mbind outcome_bind].
  destruct (output_loop ks _ w s) as [[[[[err d1] ks1] w1] s1]| | |] eqn:E; try done. intros [= <- <- <- <- <-].
  apply output_loop_use in E as [H1 (used & H2 & H3 & H4)]. split; [done|]. split; [|by destruct err; [|destruct (_ <? _)]].
  exists used. split; [done|]. split; [|done]. destruct err; [by intros _; apply H3|]. destruct (_ <? _); lia.
Qed.

(** ** The sending half *)
Definition tx_ok (t : tx) (q : queue) : Prop :=
  rep (mem t) (out t) q /\ Forall (fun p => p <= pieces (out t)) (syncpts t).

Lemma pop_syncpts_spec n l :
  Forall (fun p => p ∈ l) (pop_syncpts n l) /\ match pop_syncpts n l with p :: _ => n < p | [] => True end.
Proof.
  induction l as [|p l [IH1 IH2]]; [done|]. cbn [pop_syncpts]. destruct (Z.leb_spec p n) as [|Hlt].
  - split; [|done]. eapply Forall_impl; [exact IH1|]. intros x Hx. apply elem_of_cons. by right.
  - split; [|done]. by apply Forall_forall.
Qed.

(** The rounds come to an end, and take the bytes from the queue to the
    wire. *)
Lemma output_rounds_spec fuel t q :
  tx_ok t q -> (length (kern t) < fuel)%nat ->
  exists n t' q' d used, output_rounds fuel t = Done (n, t') /\ tx_ok t' q' /\ n <= 0
    /\ wire t' = wire t ++ d /\ q_bytes q = d ++ q_bytes q' /\ wcbset t' = wcbset t
    /\ kern t = used ++ kern t' /\ (n < 0 -> Werr ∈ used).
Proof.
  revert t q. induction fuel as [|fuel IH]; intros t q [R Hs] Hf; [lia|]. cbn [output_rounds].
  set (pts := pop_syncpts _ _). destruct (pop_syncpts_spec (nremiov (out t)) (syncpts t)) as [P1 P2]. fold pts in P1, P2.
  assert (Hpts : Forall (fun p => p <= pieces (out t)) pts).
  { eapply Forall_impl; [exact P1|]. cbn beta. intros p Hp. rewrite Forall_forall in Hs. by apply Hs. }
  set (cnt := match pts with [] => None | p :: _ => Some (p - nremiov (out t)) end).
  destruct (output_spec (kern t) cnt (mem t) (out t) q R) as (res & d & ks' & w' & o' & ns & E & R' & B' & H1 & H0).
  { intros c. unfold cnt. destruct Hpts as [|p l Hp _]; [done|]. intros [= <-]. unfold pieces in Hp. lia. }
  rewrite E. cbn [mbind outcome_bind]. apply output_use in E as [Hpc [(used & Hu & He & Hd) Hle]].
  set (t1 := mktx _ _ _ _ _ _ _ _).
  assert (T1 : tx_ok t1 (foldl q_rem q ns)).
  { split; [exact R'|]. cbn. by rewrite Hpc. }
  destruct (Z.ltb_spec 0 res) as [Hr|Hr].
  - assert (Hnil : used <> []) by (apply Hd, H1; lia).
    destruct (IH t1 _ T1) as (n & t' & q' & d' & used' & -> & T' & Hn & W & B & Wc & U & He').
    { cbn. apply (f_equal length) in Hu. rewrite length_app in Hu. destruct used; [done|]. cbn in Hu. lia. }
    exists n, t', q', (d ++ d'), (used ++ used'). split_and!; try done.
    + rewrite W. cbn. by rewrite app_assoc.
    + by rewrite B', B, app_assoc.
    + rewrite Hu. cbn in U. by rewrite U, app_assoc.
    + intros Hlt. apply elem_of_app. right. by apply He'.
  - exists res, t1, (foldl q_rem q ns), d, used. split_and!; done || lia.
Qed.

(** ** Frames *)
Definition frame (p : list Z) : list Z := putint (0x80000000 .| Z.of_nat (length p)) ++ p.

Lemma iovsize_concat iov : iovsize iov = Z.of_nat (length (concat iov)).
Proof.
  unfold iovsize. assert (H : forall n, foldl (fun n c => n + Z.of_nat (length c)) n iov = n + Z.of_nat (length (concat iov))).
  { induction iov as [|c iov IH]; intros n; cbn [foldl concat]; [cbn; lia|]. rewrite IH, length_app. lia. }
  rewrite H. lia.
Qed.

Lemma writev_spec ks data :
  0 < Z.of_nat (length data) ->
  exists skip ks', writev ks data = (skip, ks')
    /\ (exists used, ks = used ++ ks' /\ (skip = None -> Werr ∈ used))
    /\ forall n, skip = Some n -> 0 <= n <= Z.of_nat (length data).
Proof.
  intros Hd. unfold writev. destruct ks as [|[n| |] ks]; do 2 eexists; (split; [reflexivity|]); split; try done.
  - by exists [].
  - intros n [= <-]. lia.
  - by exists [Wrote n].
  - intros m E. injection E as E. lia.
  - by exists [Again].
  - intros m [= <-]. lia.
  - exists [Werr]. split; [done|]. set_solver.
Qed.

Section send.
Context (pktsize bufsize : Z) (junk : Z -> list Z) (react : list event -> bool).
Context (Hjunk : forall n, 0 <= n -> Z.of_nat (length (junk n)) = n).

(** What was accepted is on the wire or waits; [output] will be called if and
    only if something waits.  A connection that failed has sent a part. *)
Definition sending (a : axprt_stream) (all : list Z) : Prop :=
  destroyed a = false /\
  if fd a then exists q, tx_ok (snd_ a) q /\ wire (snd_ a) ++ q_bytes q = all
                 /\ wcbset (snd_ a) = negb (bool_decide (q_bytes q = []))
  else exists rest q, wire (snd_ a) ++ rest = all /\ rep (mem (snd_ a)) (out (snd_ a)) q.

Lemma call_cb_snd e a : snd_ (call_cb react e a) = snd_ a /\ fd (call_cb react e a) = fd a
  /\ destroyed (call_cb react e a) = destroyed a.
Proof using. unfold call_cb. by destruct (react _). Qed.

Lemma fail_spec a q :
  destroyed a = false -> rep (mem (snd_ a)) (out (snd_ a)) q ->
  exists a', fail react a = Done a' /\ fd a' = false /\ destroyed a' = false /\ wire (snd_ a') = wire (snd_ a)
    /\ kern (snd_ a') = kern (snd_ a)
    /\ exists q', rep (mem (snd_ a')) (out (snd_ a')) q' /\ q_bytes q' = [].
Proof using.
  intros Hd R. unfold fail. set (a1 := if fd a then _ else a).
  assert (H1 : destroyed a1 = false /\ fd a1 = false /\ mem (snd_ a1) = mem (snd_ a) /\ out (snd_ a1) = out (snd_ a)
    /\ wire (snd_ a1) = wire (snd_ a) /\ kern (snd_ a1) = kern (snd_ a)).
  { unfold a1. destruct (fd a) eqn:E; [done|]. by rewrite Hd, E. }
  destruct H1 as (D1 & F1 & M1 & O1 & W1 & K1). rewrite D1. set (a2 := if cb (rcv a1) && _ then _ else a1).
  assert (H2 : snd_ a2 = snd_ a1 /\ fd a2 = false /\ destroyed a2 = false).
  { unfold a2. destruct (_ && _); [|done]. destruct (call_cb_snd Eof a1) as (-> & -> & ->). done. }
  destruct H2 as (S2 & F2 & D2). rewrite S2, M1, O1.
  destruct (clear_spec _ _ _ R) as (w & o & -> & R'). cbn [mbind outcome_bind]. eexists. split; [reflexivity|].
  cbn [fd destroyed snd_ set_snd set_out wire kern mem out]. split_and!; try done; try congruence. by eexists.
Qed.

Lemma st_output_spec a q all :
  destroyed a = false -> fd a = true -> tx_ok (snd_ a) q -> wire (snd_ a) ++ q_bytes q = all ->
  exists a', st_output react a = Done a' /\ sending a' all
    /\ exists used, kern (snd_ a) = used ++ kern (snd_ a') /\ (fd a' = false -> Werr ∈ used).
Proof using.
  intros Hd Hfd T Hall. unfold st_output.
  destruct (output_rounds_spec (S (length (kern (snd_ a)))) (snd_ a) q T ltac:(lia))
    as (n & t' & q' & d & used & -> & T' & Hn & W & B & Wc & U & He). cbn [mbind outcome_bind].
  assert (Hall' : wire t' ++ q_bytes q' = all) by (rewrite W, <- app_assoc, <- B; done).
  assert (Hres : (uiobytes (out t') =? 0) = bool_decide (q_bytes q' = [])).
  { rewrite (rep_len _ _ _ (proj1 T')). unfold q_len. destruct (q_bytes q'); [done|]. cbn [length]. rewrite bool_decide_false by done.
    destruct (Z.eqb_spec (Z.of_nat (S (length l))) 0); [lia|done]. }
  destruct (Z.ltb_spec n 0) as [Hlt|Hge].
  - destruct (fail_spec (set_snd a t') q') as (a' & -> & F' & D' & W' & K' & q2 & R2 & _); [done|by apply T'|].
    exists a'. split; [done|]. split; [|exists used; split; [by rewrite K'|by intros; apply He]].
    split; [done|]. rewrite F'. exists (q_bytes q'), q2. rewrite W'. done.
  - rewrite Hres.
    assert (Hok : forall b, b = negb (bool_decide (q_bytes q' = [])) -> sending (set_snd a (set_wcb t' b)) all).
    { intros b ->. split; [done|]. cbn [fd set_snd]. rewrite Hfd. exists q'. split; [exact T'|]. split; [done|]. done. }
    assert (Hu : forall b, exists used0, kern (snd_ a) = used0 ++ kern (snd_ (set_snd a (set_wcb t' b)))
      /\ (fd (set_snd a (set_wcb t' b)) = false -> Werr ∈ used0)).
    { intros b. exists used. split; [exact U|]. cbn. by rewrite Hfd. }
    assert (Eself : set_snd a t' = set_snd a (set_wcb t' (wcbset t'))) by (by destruct t').
    destruct (bool_decide (q_bytes q' = [])), (wcbset t') eqn:Ew; cbn [negb andb] in *; (eexists; split; [reflexivity|]);
      try (split; [by apply Hok|by apply Hu]); rewrite Eself; (split; [by apply Hok|by apply Hu]).
Qed.

Lemma tx_push t q w o q' pts wc raw sent ks wr :
  tx_ok t q -> rep w o q' -> pieces (out t) <= pieces o -> pts = syncpts t ->
  tx_ok (mktx pts o wc raw sent w ks wr) q'.
Proof using.
  intros [_ Hs] R Hp ->. split; [done|]. cbn. eapply Forall_impl; [exact Hs|]. cbn. intros p Hp'. lia.
Qed.

(** A packet goes behind what was sent before. *)
Lemma sendv_spec iov a all :
  0 <= pktsize < 2 ^ 31 -> Z.of_nat (length (concat iov)) <= pktsize ->
  sending a all -> fd a = true ->
  exists a', sendv pktsize junk react iov a = Done a' /\ sending a' (all ++ frame (concat iov))
    /\ exists used, kern (snd_ a) = used ++ kern (snd_ a') /\ (fd a' = false -> Werr ∈ used).
Proof using Hjunk.
  intros Hps Hlen [Hd Hs] Hfd. rewrite Hfd in Hs. destruct Hs as (q & T & Hall & _). unfold sendv. rewrite Hd, Hfd.
  cbn [assertM negb mbind outcome_bind]. rewrite iovsize_concat, u32_small by lia.
  destruct (Z.ltb_spec pktsize (Z.of_nat (length (concat iov)))); [lia|]. set (hdr := putint _).
  assert (Hfr : frame (concat iov) = hdr ++ concat iov) by done. rewrite Hfr. destruct T as [R Hsy].
  destruct ((uiobytes (out (snd_ a)) =? 0) && _) eqn:Efast.
  - apply andb_true_iff in Efast as [E0 _]. apply Z.eqb_eq in E0. rewrite (rep_len _ _ _ R) in E0.
    assert (Hq : q_bytes q = []) by (unfold q_len in E0; destruct (q_bytes q); [done|cbn in E0; lia]).
    rewrite Hq, app_nil_r in Hall. change (concat (hdr :: iov)) with (hdr ++ concat iov). set (data := hdr ++ concat iov).
    assert (Hdata : 0 < Z.of_nat (length data)) by (unfold data; rewrite length_app; unfold hdr, putint; cbn [length]; lia).
    pose proof (writev_spec (kern (snd_ a)) data Hdata) as Hw.
    destruct Hw as (skip & ks' & -> & (used & Hu & He) & Hskip). destruct skip as [n|].
    + specialize (Hskip n eq_refl).
      destruct (copyv_spec junk Hjunk (mem (snd_ a)) (out (snd_ a)) q (hdr :: iov) n R Hskip) as (w & o & E & R').
      rewrite E. cbn [mbind outcome_bind]. apply copyv_pieces in E. change (concat (hdr :: iov)) with data in R'.
      set (a1 := set_snd a _).
      destruct (st_output_spec a1 (q_append q (drop (Z.to_nat n) data)) (all ++ data)) as (a' & -> & S' & used' & U' & He').
      * done.
      * done.
      * apply (tx_push (snd_ a) q); done.
      * cbn. rewrite Hq, Hall, <- app_assoc. cbn [app]. by rewrite take_drop.
      * exists a'. split; [done|]. split; [done|]. exists (used ++ used'). cbn in U'. split; [by rewrite Hu, U', app_assoc|].
        intros Hx. apply elem_of_app. right. by apply He'.
    + destruct (fail_spec (set_snd a (mktx (syncpts (snd_ a)) (out (snd_ a)) (wcbset (snd_ a))
        (u64 (raw_bytes_sent (snd_ a) + (Z.of_nat (length (concat iov)) + 4)))
        (u64 (bytes_sent (snd_ a) + Z.of_nat (length (concat iov)))) (mem (snd_ a)) ks' (wire (snd_ a)))) q)
        as (a' & -> & F' & D' & W' & K' & q2 & R2 & _); [done|done|].
      exists a'. split; [done|]. split; [|exists used; split; [by rewrite K'|by intros; apply He]].
      split; [done|]. rewrite F'. exists data, q2. rewrite W'. cbn. by rewrite Hall.
  - destruct (copy_spec junk Hjunk (mem (snd_ a)) (out (snd_ a)) q hdr R) as (w1 & o1 & E1 & R1). rewrite E1. cbn [mbind outcome_bind].
    destruct (copyv_spec junk Hjunk w1 o1 _ iov 0 R1 ltac:(lia)) as (w2 & o2 & E2 & R2). rewrite E2. cbn [mbind outcome_bind].
    apply copy_pieces in E1. apply copyv_pieces in E2. set (a1 := set_snd a _).
    destruct (st_output_spec a1 _ (all ++ hdr ++ concat iov) Hd Hfd (tx_push (snd_ a) q _ _ _ _ _ _ _ _ _ (conj R Hsy) R2 ltac:(lia) eq_refl))
      as (a' & -> & S' & used & U' & He').
    + cbn [a1 snd_ set_snd wire q_append q_bytes]. change (Z.to_nat 0) with 0%nat. by rewrite <- Hall, drop_0, !app_assoc.
    + exists a'. split; [done|]. split; [done|]. by exists used.
Qed.

Lemma wrsync_spec t q : tx_ok t q -> tx_ok (wrsync t) q /\ wire (wrsync t) = wire t /\ kern (wrsync t) = kern t.
Proof using.
  intros [R Hs]. unfold wrsync. case_bool_decide; [done|]. split; [|done]. split; cbn.
  - by apply breakiov_spec.
  - apply Forall_app. split; [done|]. apply Forall_singleton. done.
Qed.

Lemma sendbreak_spec k a all :
  sending a all -> fd a = true ->
  exists a', sendbreak junk react k a = Done a' /\ sending a' (all ++ putint 0)
    /\ exists used, kern (snd_ a) = used ++ kern (snd_ a') /\ (fd a' = false -> Werr ∈ used).
Proof using Hjunk.
  intros [Hd Hs] Hfd. rewrite Hfd in Hs. destruct Hs as (q & [R Hsy] & Hall & _). unfold sendbreak.
  destruct (copy_spec junk Hjunk (mem (snd_ a)) (out (snd_ a)) q [0; 0; 0; 0] R) as (w1 & o1 & E1 & R1). rewrite E1.
  cbn [mbind outcome_bind]. apply copy_pieces in E1.
  assert (Hk : exists w2 o2 q2, (match k with Some k => iovcb w1 o1 (Call k) | None => Done (w1, o1) end) = Done (w2, o2)
    /\ rep w2 o2 q2 /\ q_bytes q2 = q_bytes q ++ [0; 0; 0; 0] /\ pieces o1 <= pieces o2).
  { destruct k as [k|].
    - destruct (iovcb_spec w1 o1 _ k R1) as (w2 & o2 & E & R2). exists w2, o2, (q_cb (q_append q [0; 0; 0; 0]) k).
      split; [done|]. apply iovcb_pieces in E. split_and!; [done| |lia]. unfold q_cb. by destruct (_ =? _).
    - exists w1, o1, (q_append q [0; 0; 0; 0]). done. }
  destruct Hk as (w2 & o2 & q2 & -> & R2 & B2 & P2). cbn [mbind outcome_bind].
  destruct (wrsync_spec (set_out (snd_ a) w2 o2) q2) as (T3 & W3 & K3).
  { apply (tx_push (snd_ a) q); try done. lia. }
  destruct (st_output_spec (set_snd a (wrsync (set_out (snd_ a) w2 o2))) q2 (all ++ putint 0)) as (a' & -> & S' & used & U' & He').
  - done.
  - done.
  - done.
  - cbn [snd_ set_snd]. rewrite W3, B2, <- Hall. cbn [set_out wire]. by rewrite app_assoc.
  - exists a'. split; [done|]. split; [done|]. exists used. cbn [snd_ set_snd] in U'. rewrite K3 in U'. done.
Qed.
End send.
