(* ===== verification/StreamRecv.v ===== *)
(** * Receiving packets from a stream

    However the bytes are cut into reads, the receive callback is called with
    the packets that were framed, in order. *)
From Stdlib Require Import ZArith Lia.
From stdpp Require Import prelude gmap.
From S2P Require Import Prelude Mdblock Serial Suio SuioSpec SuioOps Stream StreamSend.

(** ** The header *)
Lemma header_add n : 0 <= n < 2 ^ 31 -> 0x80000000 .| n = 2 ^ 31 + n.
Proof.
  intros Hn. assert (Hd : 0x80000000 .& n = 0).
  { apply Z.bits_inj'. intros i Hi. rewrite Z.land_spec, Z.testbit_0_l. change 0x80000000 with (2 ^ 31).
    rewrite Z.pow2_bits_eqb by lia. destruct (Z.eqb_spec 31 i) as [<-|]; [|done]. cbn [andb]. apply (testbit_high n 31); lia. }
  rewrite <- Z.lxor_lor by done. rewrite <- Z.add_nocarry_lxor by done. done.
Qed.

Lemma header_len n : 0 <= n < 2 ^ 31 -> (2 ^ 31 + n) .& 0x7fffffff = n.
Proof.
  intros Hn. change 0x7fffffff with (Z.ones 31). rewrite Z.land_ones by lia.
  rewrite <- (Z.mul_1_l (2 ^ 31)) at 1. rewrite Z.add_comm, Z.mod_add by lia. by apply Z.mod_small.
Qed.

Lemma header_top n : 0 <= n < 2 ^ 31 -> ((2 ^ 31 + n) .& 0x80000000 =? 0) = false.
Proof.
  intros Hn. apply Z.eqb_neq. intros E. apply (f_equal (fun x => Z.testbit x 31)) in E.
  rewrite Z.land_spec, <- header_add, Z.lor_spec in E by done. by rewrite Z.testbit_0_l in E.
Qed.

Lemma frame_length p : length (frame p) = (4 + length p)%nat.
Proof. done. Qed.

(** A front part of a frame, not all of it. *)
Definition partial (pktsize : Z) (tl : list Z) : Prop :=
  tl = [] \/ exists p rest, Z.of_nat (length p) <= pktsize /\ frame p = tl ++ rest /\ rest <> [].

(** ** Streams of frames *)
Definition frames (ps : list (list Z)) : list Z := concat (frame <$> ps).

Lemma frames_app ps qs : frames (ps ++ qs) = frames ps ++ frames qs.
Proof. unfold frames. by rewrite fmap_app, concat_app. Qed.

(** A front part of a stream of frames is some frames and a part of one. *)
Lemma split_frames pktsize ps x y :
  Forall (fun p => Z.of_nat (length p) <= pktsize) ps -> x ++ y = frames ps ->
  exists k tl, x = frames (take k ps) ++ tl /\ tl ++ y = frames (drop k ps) /\ (k <= length ps)%nat
    /\ (tl = [] \/ exists p rest, p ∈ ps /\ Z.of_nat (length p) <= pktsize /\ frame p = tl ++ rest /\ rest <> []).
Proof.
  intros Hps. revert x. induction Hps as [|p ps Hp Hps IH]; intros x E.
  { exists 0%nat, []. cbn in E. apply app_nil in E as [-> ->]. split_and!; try done. by left. }
  change (frames (p :: ps)) with (frame p ++ frames ps) in E.
  destruct (Nat.le_gt_cases (length (frame p)) (length x)) as [Hle|Hgt].
  - assert (E1 : x = frame p ++ drop (length (frame p)) x).
    { rewrite <- (take_drop (length (frame p)) x) at 1. f_equal.
      apply (f_equal (take (length (frame p)))) in E. rewrite take_app_le in E by done.
      rewrite E. by rewrite take_app_length. }
    set (x' := drop _ x) in *. clearbody x'. subst x. rewrite <- app_assoc in E. apply app_inv_head in E.
    destruct (IH x' E) as (k & tl & -> & E2 & Hk & Ht). exists (S k), tl. cbn [take drop length].
    change (frames (p :: take k ps)) with (frame p ++ frames (take k ps)). rewrite <- app_assoc. split_and!; try done; [lia|].
    destruct Ht as [Ht|(p0 & rest & H1 & H2)]; [by left|right]. exists p0, rest. split; [|done]. apply elem_of_cons. by right.
  - exists 0%nat, x. cbn [take drop]. change (frames []) with (@nil Z). cbn [app]. split_and!; [done|done|lia|].
    right. exists p, (drop (length x) (frame p)). split; [apply elem_of_cons; by left|]. split; [done|]. split.
    + rewrite <- (take_drop (length x) (frame p)) at 1. f_equal.
      apply (f_equal (take (length x))) in E. rewrite take_app_length, (take_app_le (frame p)) in E by lia. done.
    + intros Hn. apply (f_equal length) in Hn. rewrite length_drop in Hn. cbn [length] in Hn. lia.
Qed.

Lemma frames_nil_partial pktsize ps tl :
  partial pktsize tl -> tl = frames ps -> Forall (fun p => 0 <= pktsize < 2 ^ 31 /\ Z.of_nat (length p) <= pktsize) ps -> ps = [].
Proof.
  intros Ht E Hps. destruct Hps as [|p ps [Hb Hp] _]; [done|]. exfalso.
  change (frames (p :: ps)) with (frame p ++ frames ps) in E. destruct Ht as [->|(p0 & rest & Hp0 & E0 & Hr)].
  { apply (f_equal length) in E. rewrite length_app, frame_length in E. cbn in E. lia. }
  rewrite E in E0. assert (Eh : putint (0x80000000 .| Z.of_nat (length p0)) = putint (0x80000000 .| Z.of_nat (length p))).
  { apply (f_equal (take 4)) in E0. done. }
  pose proof (getint_putint (0x80000000 .| Z.of_nat (length p0)) [] ltac:(rewrite header_add; lia)) as G0.
  pose proof (getint_putint (0x80000000 .| Z.of_nat (length p)) [] ltac:(rewrite header_add; lia)) as G1.
  rewrite Eh, G1 in G0. injection G0 as G0. rewrite !header_add in G0 by lia.
  apply (f_equal length) in E0. rewrite !length_app, !frame_length in E0. destruct rest; [done|]. cbn [length] in E0. lia.
Qed.

Lemma slice_done buf off len :
  0 <= off -> 0 <= len -> off + len <= Z.of_nat (length buf) ->
  slice buf off len = Done (take (Z.to_nat len) (drop (Z.to_nat off) buf)).
Proof.
  intros H1 H2 H3. unfold slice. by destruct (Z.leb_spec 0 off), (Z.leb_spec 0 len), (Z.leb_spec (off + len) (Z.of_nat (length buf))); try lia.
Qed.

Section recv.
Context (pktsize : Z) (junk : Z -> list Z) (react : list event -> bool).
Context (Hreact : forall l, react l = true) (Hps : 0 <= pktsize < 2 ^ 31).

(** The bytes of the buffer from [cp] to [eom]. *)
Definition window (buf : list Z) (cp eom : Z) : list Z := take (Z.to_nat (eom - cp)) (drop (Z.to_nat cp) buf).

Lemma window_slice buf cp eom n :
  0 <= cp -> 0 <= n <= eom - cp -> eom <= Z.of_nat (length buf) ->
  slice buf cp n = Done (take (Z.to_nat n) (window buf cp eom)).
Proof using.
  intros H1 H2 H3. rewrite slice_done by lia. unfold window. rewrite take_take. do 2 f_equal. lia.
Qed.

Lemma window_length buf cp eom :
  0 <= cp <= eom -> eom <= Z.of_nat (length buf) -> Z.of_nat (length (window buf cp eom)) = eom - cp.
Proof using. intros H1 H2. unfold window. rewrite length_take, length_drop. lia. Qed.

Lemma window_drop buf cp eom n :
  0 <= cp -> 0 <= n <= eom - cp -> window buf (cp + n) eom = drop (Z.to_nat n) (window buf cp eom).
Proof using.
  intros H1 H2. unfold window. rewrite skipn_firstn_comm, drop_drop. f_equal; [lia|]. f_equal. lia.
Qed.

(** A whole packet is delivered. *)
Lemma getpkt_packet a buf cp eom p rest :
  cb (rcv a) = true -> pktbuf (rcv a) = Some buf -> 0 <= cp <= eom -> eom <= Z.of_nat (length buf) ->
  Z.of_nat (length p) <= pktsize -> window buf cp eom = frame p ++ rest ->
  getpkt pktsize react a cp eom = Done (true, cp + 4 + Z.of_nat (length p), call_cb react (Pkt p) a).
Proof using Hps.
  clear Hreact. intros Hcb Hbuf Hcp Heom Hp Hw. pose proof (window_length buf cp eom ltac:(lia) Heom) as Hl.
  rewrite Hw, length_app, frame_length in Hl. unfold getpkt. rewrite Hcb, Hbuf.
  destruct (Z.ltb_spec (eom - cp) 4); [lia|]. cbn [negb orb]. rewrite (window_slice buf cp eom) by lia.
  rewrite Hw. cbn [mbind outcome_bind].
  change (take (Z.to_nat 4) (frame p ++ rest)) with (putint (0x80000000 .| Z.of_nat (length p))).
  pose proof (getint_putint (0x80000000 .| Z.of_nat (length p)) []) as G. rewrite app_nil_r in G.
  rewrite header_add in * by lia. rewrite G by lia. cbn [mbind outcome_bind].
  destruct (Z.eqb_spec (2 ^ 31 + Z.of_nat (length p)) 0); [lia|].
  unfold checklen. rewrite header_top, header_len by lia. destruct (Z.ltb_spec pktsize (Z.of_nat (length p))); [lia|].
  cbn [mbind outcome_bind]. destruct (Z.ltb_spec (eom - (cp + 4)) (Z.of_nat (length p))); [lia|].
  rewrite (window_slice buf (cp + 4) eom) by lia. rewrite window_drop, Hw by lia. cbn [mbind outcome_bind].
  change (drop (Z.to_nat 4) (frame p ++ rest)) with (p ++ rest). by rewrite Nat2Z.id, take_app_length.
Qed.

(** A part of a packet is left alone. *)
Lemma getpkt_partial a buf cp eom :
  cb (rcv a) = true -> pktbuf (rcv a) = Some buf -> 0 <= cp <= eom -> eom <= Z.of_nat (length buf) ->
  partial pktsize (window buf cp eom) -> getpkt pktsize react a cp eom = Done (false, cp, a).
Proof using Hps.
  clear Hreact. intros Hcb Hbuf Hcp Heom Hw. pose proof (window_length buf cp eom ltac:(lia) Heom) as Hl.
  unfold getpkt. rewrite Hcb, Hbuf. destruct (Z.ltb_spec (eom - cp) 4) as [|Hge]; [done|]. cbn [negb orb].
  rewrite (window_slice buf cp eom) by lia. destruct Hw as [Hw|(p & rest & Hp & Hw & Hr)]; [rewrite Hw in Hl; cbn in Hl; lia|].
  assert (Hlen : (length (frame p) = length (window buf cp eom) + length rest)%nat) by (rewrite Hw; apply length_app).
  assert (length rest <> 0%nat) by (by destruct rest). rewrite frame_length in Hlen.
  assert (Eh : take (Z.to_nat 4) (window buf cp eom) = putint (0x80000000 .| Z.of_nat (length p))).
  { apply (f_equal (take 4)) in Hw. rewrite take_app_le in Hw by lia. change (Z.to_nat 4) with 4%nat. rewrite <- Hw. done. }
  rewrite Eh. cbn [mbind outcome_bind].
  pose proof (getint_putint (0x80000000 .| Z.of_nat (length p)) []) as G. rewrite app_nil_r in G.
  rewrite header_add in * by lia. rewrite G by lia. cbn [mbind outcome_bind].
  destruct (Z.eqb_spec (2 ^ 31 + Z.of_nat (length p)) 0); [lia|].
  unfold checklen. rewrite header_top, header_len by lia. destruct (Z.ltb_spec pktsize (Z.of_nat (length p))); [lia|].
  cbn [mbind outcome_bind]. destruct (Z.ltb_spec (eom - (cp + 4)) (Z.of_nat (length p))); [done|lia].
Qed.

Definition add_events (r : rx) (l : list event) : rx :=
  mkrx (ingetpkt r) (cb r) (selread r) (pktlen r) (pktbuf r) (bytes_recv r) (sock r) (events r ++ l).

Lemma getpkts_spec fuel a buf cp eom ps tl :
  cb (rcv a) = true -> pktbuf (rcv a) = Some buf -> 0 <= cp <= eom -> eom <= Z.of_nat (length buf) ->
  Forall (fun p => Z.of_nat (length p) <= pktsize) ps -> partial pktsize tl ->
  window buf cp eom = frames ps ++ tl -> (length ps < fuel)%nat ->
  getpkts pktsize react fuel a cp eom
    = Done (cp + Z.of_nat (length (frames ps)), set_rcv a (add_events (rcv a) (Pkt <$> ps))).
Proof using Hps Hreact.
  intros Hcb Hbuf Hcp Heom Hall Htl. revert fuel a cp Hcb Hbuf Hcp.
  induction Hall as [|p ps Hp Hall IH]; intros fuel a cp Hcb Hbuf Hcp Hw Hf; (destruct fuel as [|fuel]; [cbn in Hf; lia|]);
    cbn [getpkts]; rewrite Hcb.
  - rewrite (getpkt_partial a buf) by (try done; rewrite Hw; done). cbn [mbind outcome_bind].
    change (Z.of_nat (length (frames []))) with 0. rewrite Z.add_0_r. unfold add_events. cbn [fmap list_fmap].
    rewrite app_nil_r. by destruct a as [? ? [] ?].
  - change (frames (p :: ps)) with (frame p ++ frames ps) in *. rewrite <- app_assoc in Hw.
    rewrite (getpkt_packet a buf cp eom p (frames ps ++ tl)) by done. cbn [mbind outcome_bind].
    pose proof (window_length buf cp eom ltac:(lia) Heom) as Hl. rewrite Hw, length_app, frame_length in Hl.
    assert (Ec : call_cb react (Pkt p) a = set_rcv a (add_event (rcv a) (Pkt p))) by (unfold call_cb; by rewrite Hreact).
    rewrite Ec, IH; try done; [|lia| |cbn in Hf; lia].
    + rewrite length_app, frame_length. do 2 f_equal; [lia|]. unfold add_event, add_events, set_rcv. cbn. by rewrite <- app_assoc.
    + rewrite <- Z.add_assoc, window_drop, Hw by lia. rewrite drop_app_length'; [done|]. rewrite frame_length. lia.
Qed.

(** ** Between reads *)
Record rx_ok (bufsize : Z) (r : rx) (tl : list Z) : Prop := {
  rx_in : ingetpkt r = false;
  rx_cb : cb r = true;
  rx_len : pktlen r = Z.of_nat (length tl);
  rx_buf : match pktbuf r with
           | None => tl = []
           | Some buf => Z.of_nat (length buf) = bufsize /\ take (length tl) buf = tl
           end;
  rx_max : Z.of_nat (length tl) <= bufsize
}.

Lemma frames_count ps : (4 * length ps <= length (frames ps))%nat.
Proof using.
  clear. induction ps as [|p ps IH]; [done|]. change (frames (p :: ps)) with (frame p ++ frames ps).
  rewrite length_app, frame_length. cbn [length]. lia.
Qed.

(** All complete packets are delivered; a part that is too long for the
    [assert] stops the program. *)
Lemma callgetpkt_spec bufsize a ps tl :
  bufsize < 2 ^ 32 -> fd a = true -> rx_ok bufsize (rcv a) (frames ps ++ tl) ->
  Forall (fun p => Z.of_nat (length p) <= pktsize) ps -> partial pktsize tl -> frames ps ++ tl <> [] ->
  (Z.of_nat (length tl) < pktsize ->
     exists a', callgetpkt pktsize react a = Done a' /\ fd a' = true /\ snd_ a' = snd_ a /\ destroyed a' = destroyed a
       /\ sock (rcv a') = sock (rcv a)
       /\ events (rcv a') = events (rcv a) ++ (Pkt <$> ps) /\ rx_ok bufsize (rcv a') tl)
  /\ (pktsize <= Z.of_nat (length tl) -> callgetpkt pktsize react a = Panic).
Proof using Hps Hreact.
  intros Hbs Hfd [R1 R2 R3 R4 R5] Hall Htl Hne. destruct (pktbuf (rcv a)) as [buf|] eqn:Eb; [|done]. destruct R4 as [Lb Tb].
  unfold callgetpkt. rewrite R1. set (a1 := set_rcv a _). set (all := frames ps ++ tl) in *.
  assert (Hlen : length all = (length (frames ps) + length tl)%nat) by apply length_app.
  assert (Ew : window buf 0 (pktlen (rcv a1)) = frames ps ++ tl).
  { unfold window. cbn [a1 rcv set_rcv set_ingetpkt pktlen]. rewrite R3. change (Z.to_nat 0) with 0%nat.
    rewrite drop_0, Z.sub_0_r, Nat2Z.id. exact Tb. }
  pose proof (frames_count ps) as Hc.
  rewrite (getpkts_spec _ a1 buf 0 _ ps tl); try done; cbn [a1 rcv set_rcv set_ingetpkt pktlen cb pktbuf] in *; try done; try lia.
  cbn [mbind outcome_bind]. unfold ateof. cbn [fd set_rcv a1]. rewrite Hfd. cbn [negb].
  cbn [rcv set_rcv add_events pktbuf set_ingetpkt pktlen]. rewrite Eb, R3, Z.add_0_l.
  rewrite u32_small by lia.
  replace (Z.of_nat (length all) - Z.of_nat (length (frames ps))) with (Z.of_nat (length tl)) by lia.
  set (n := Z.of_nat (length (frames ps))) in *. unfold a1 in *. clear a1.
  assert (Hb : exists buf', (if negb (n =? 0) then d ← slice buf n (Z.of_nat (length tl)); b ← copy_in buf 0 d; Done (Some b)
      else Done (Some buf)) = Done (Some buf') /\ length buf' = length buf /\ take (length tl) buf' = tl).
  { destruct (Z.eqb_spec n 0) as [E0|E0]; cbn [negb].
    - exists buf. split; [done|]. split; [done|].
      assert (Ef : frames ps = []) by (destruct (frames ps); [done|unfold n in E0; cbn in E0; lia]).
      unfold all in Tb. rewrite Ef in Tb. done.
    - rewrite slice_done by lia. cbn [mbind outcome_bind]. unfold n. rewrite !Nat2Z.id.
      assert (Ed : take (length tl) (drop (length (frames ps)) buf) = tl).
      { rewrite take_drop_commute. rewrite <- Hlen, Tb. unfold all. by rewrite drop_app_length. }
      rewrite Ed. unfold copy_in. cbn [Z.leb]. destruct (Z.leb_spec (0 + Z.of_nat (length tl)) (Z.of_nat (length buf))); [|lia].
      cbn [andb mbind outcome_bind]. eexists. split; [reflexivity|]. change (Z.to_nat 0) with 0%nat. rewrite take_0. cbn [app].
      split; [rewrite !length_app, ?length_take, length_drop; lia|]. by rewrite take_app_length. }
  destruct Hb as (buf' & -> & Lb' & Tb'). cbn [mbind outcome_bind]. split; intros Hlt.
  - destruct (Z.ltb_spec (Z.of_nat (length tl)) pktsize); [|lia]. cbn [assertM mbind outcome_bind].
    eexists. split; [reflexivity|]. cbn. split_and!; try done. split; cbn; try done; [|lia].
    destruct (Z.eqb_spec (Z.of_nat (length tl)) 0); [by destruct tl|]. split; [lia|done].
  - destruct (Z.ltb_spec (Z.of_nat (length tl)) pktsize); [lia|]. done.
Qed.

(** A read. *)
Lemma st_input_spec n a tl ps (bufsize := pktsize + 4) rest :
  (forall n, 0 <= n -> Z.of_nat (length (junk n)) = n) ->
  fd a = true -> rx_ok bufsize (rcv a) tl -> partial pktsize tl -> Z.of_nat (length tl) < pktsize ->
  Forall (fun p => Z.of_nat (length p) <= pktsize - 4) ps -> tl ++ sock (rcv a) ++ rest = frames ps ->
  exists a' k tl', st_input pktsize bufsize junk react (Got n) a = Done a' /\ fd a' = true /\ snd_ a' = snd_ a
    /\ destroyed a' = destroyed a
    /\ rx_ok bufsize (rcv a') tl' /\ partial pktsize tl' /\ Z.of_nat (length tl') < pktsize
    /\ events (rcv a') = events (rcv a) ++ (Pkt <$> take k ps)
    /\ tl' ++ sock (rcv a') ++ rest = frames (drop k ps)
    /\ (length (sock (rcv a')) <= length (sock (rcv a)) - 1)%nat.
Proof using Hps Hreact.
  intros Hjunk Hfd R Ht Hlt Hall E. unfold st_input. rewrite Hfd. cbn [negb].
  set (buf := need_pktbuf bufsize junk (rcv a)). destruct R as [R1 R2 R3 R4 R5].
  assert (Hb : Z.of_nat (length buf) = bufsize /\ take (length tl) buf = tl).
  { unfold buf, need_pktbuf. destruct (pktbuf (rcv a)) as [b|]; [done|]. subst tl. split; [apply Hjunk; unfold bufsize; lia|done]. }
  destruct Hb as [Lb Tb]. case_bool_decide as Es.
  { eexists _, 0%nat, tl. split; [reflexivity|]. cbn [rcv set_rcv set_pkt events sock]. rewrite Es. cbn [take drop fmap list_fmap length].
    rewrite app_nil_r. rewrite Es in E. split_and!; try done; by split. }
  set (d := take _ (sock (rcv a))).
  assert (Hd : (0 < length d)%nat /\ Z.of_nat (length d) <= bufsize - Z.of_nat (length tl)).
  { unfold d. rewrite length_take. destruct (sock (rcv a)); [done|]. cbn [length]. unfold bufsize in *. rewrite R3. lia. }
  destruct (Z.leb_spec (Z.of_nat (length d)) 0); [lia|]. rewrite R3. unfold copy_in.
  destruct (Z.leb_spec 0 (Z.of_nat (length tl))); [|lia].
  destruct (Z.leb_spec (Z.of_nat (length tl) + Z.of_nat (length d)) (Z.of_nat (length buf))); [|lia].
  cbn [andb mbind outcome_bind]. rewrite Nat2Z.id, Tb. set (buf2 := tl ++ d ++ _).
  assert (Hsock : sock (rcv a) = d ++ drop (length d) (sock (rcv a))).
  { unfold d. rewrite length_take, <- (take_drop (Z.to_nat (Z.min (Z.max 1 n) (bufsize - pktlen (rcv a)))) (sock (rcv a))) at 1.
    f_equal. destruct (Nat.le_ge_cases (Z.to_nat (Z.min (Z.max 1 n) (bufsize - pktlen (rcv a)))) (length (sock (rcv a)))).
    - f_equal. lia.
    - rewrite !drop_ge by lia. done. }
  destruct (split_frames pktsize ps (tl ++ d) (drop (length d) (sock (rcv a)) ++ rest)) as (k & tl' & Ex & Ey & Hk & Hpart).
  { eapply Forall_impl; [exact Hall|]. cbn. intros. lia. }
  { rewrite <- app_assoc, (app_assoc d), <- Hsock. done. }
  assert (Hpt : partial pktsize tl' /\ Z.of_nat (length tl') < pktsize).
  { destruct Hpart as [->|(p & r & Hin & Hp & Ef & Hr)]; [split; [by left|]; cbn; lia|].
    split; [right; by exists p, r|]. rewrite Forall_forall in Hall. specialize (Hall p Hin). cbn in Hall.
    apply (f_equal length) in Ef. rewrite frame_length, length_app in Ef. destruct r; [done|]. cbn [length] in Ef. lia. }
  destruct Hpt as [Hpart' Hlt'].
  set (a2 := set_rcv _ _). assert (R' : rx_ok bufsize (rcv a2) (frames (take k ps) ++ tl')).
  { rewrite <- Ex. split; cbn; try done; rewrite ?length_app; [|split|lia].
    - rewrite u32_small by (unfold bufsize in *; lia). lia.
    - unfold buf2. rewrite !length_app, length_drop. lia.
    - unfold buf2. rewrite app_assoc, <- length_app. by rewrite take_app_length. }
  destruct (callgetpkt_spec bufsize a2 (take k ps) tl') as [Hgo _]; try done.
  { unfold bufsize. lia. }
  { apply Forall_take. eapply Forall_impl; [exact Hall|]. cbn. intros. lia. }
  { rewrite <- Ex. intros En. apply (f_equal length) in En. rewrite length_app in En. cbn in En. lia. }
  destruct (Hgo Hlt') as (a' & Ec & F' & S' & D' & K' & V' & R2').
  exists a', k, tl'. rewrite K'. cbn [a2 rcv set_rcv sock events] in *. split_and!; try done. rewrite length_drop. lia.
Qed.
End recv.
