(* ===== verification/StreamProps.v ===== *)
(** * What a packet stream promises

    A sender and a receiver that are joined by a byte stream: whatever the
    kernels take and give at a time, the receiver's callback gets the packets
    that were sent, whole and in order. *)
From Stdlib Require Import ZArith Lia.
From stdpp Require Import prelude gmap.
From S2P Require Import Prelude Mdblock Serial Suio SuioSpec SuioOps SuioProps Stream StreamSend StreamRecv.

(** ** A sender *)
(** The program sends a packet, or the socket has become writable. *)
Inductive send_op := Send (iov : list (list Z)) | Writable.

Definition packets (l : list send_op) : list (list Z) :=
  omap (fun o => match o with Send iov => Some (concat iov) | Writable => None end) l.

(** The program does not send after the end of the connection, and [output]
    is only called while it is registered. *)
Fixpoint run_sender (pktsize : Z) (junk : Z -> list Z) (react : list event -> bool) (l : list send_op) (a : axprt_stream)
    : outcome axprt_stream :=
  match l with
  | [] => Done a
  | o :: l =>
      a ← (match o with
           | Send iov => if fd a then sendv pktsize junk react iov a else Done a
           | Writable => if fd a && wcbset (snd_ a) then st_output react a else Done a
           end);
      run_sender pktsize junk react l a
  end.

Lemma sending_more a all d : sending a all -> fd a = false -> sending a (all ++ d).
Proof.
  intros [Hd Hs] Hf. split; [done|]. rewrite Hf in *. destruct Hs as (rest & q & <- & R). exists (rest ++ d), q.
  by rewrite app_assoc.
Qed.

Lemma run_sender_spec pktsize junk react l a all :
  (forall n, 0 <= n -> Z.of_nat (length (junk n)) = n) -> 0 <= pktsize < 2 ^ 31 ->
  Forall (fun p => Z.of_nat (length p) <= pktsize) (packets l) -> sending a all ->
  exists a', run_sender pktsize junk react l a = Done a' /\ sending a' (all ++ frames (packets l))
    /\ exists used, kern (snd_ a) = used ++ kern (snd_ a') /\ (fd a = true -> fd a' = false -> Werr ∈ used).
Proof.
  intros Hj Hps. revert a all. induction l as [|o l IH]; intros a all Hl Hs; cbn [run_sender].
  { exists a. split; [done|]. cbn. rewrite app_nil_r. split; [done|]. exists []. split; [done|]. congruence. }
  assert (Hstep : forall all' , frames (packets (o :: l)) = all' ++ frames (packets l) ->
    forall m, (exists a1 used, m = Done a1 /\ sending a1 (all ++ all') /\ kern (snd_ a) = used ++ kern (snd_ a1)
      /\ (fd a = true -> fd a1 = false -> Werr ∈ used)) -> Forall (fun p => Z.of_nat (length p) <= pktsize) (packets l) ->
    exists a', (a ← m; run_sender pktsize junk react l a) = Done a' /\ sending a' (all ++ frames (packets (o :: l)))
      /\ exists used, kern (snd_ a) = used ++ kern (snd_ a') /\ (fd a = true -> fd a' = false -> Werr ∈ used)).
  { intros all' E m (a1 & used & -> & S1 & K1 & F1) Hl'. cbn [mbind outcome_bind].
    destruct (IH a1 _ Hl' S1) as (a' & -> & S' & used' & K' & F'). exists a'. split; [done|]. rewrite E, app_assoc. split; [done|].
    exists (used ++ used'). split; [by rewrite K1, K', app_assoc|]. intros Ha Hb. apply elem_of_app.
    destruct (fd a1) eqn:Ea1; [right; by apply F'|left; by apply F1]. }
  destruct o as [iov|].
  - change (packets (Send iov :: l)) with (concat iov :: packets l) in *. inversion Hl as [|? ? Hp Hl']; subst.
    apply (Hstep (frame (concat iov))); [done| |done]. destruct (fd a) eqn:Ef.
    + destruct (sendv_spec pktsize junk react Hj iov a all Hps Hp Hs Ef) as (a1 & -> & S1 & used & K1 & F1).
      by exists a1, used.
    + exists a, []. split_and!; try done. by apply sending_more.
  - apply (Hstep []); [done| |done]. rewrite app_nil_r. destruct (fd a && wcbset (snd_ a)) eqn:Ef.
    + apply andb_true_iff in Ef as [Ef _]. pose proof Hs as [Hd Hq]. rewrite Ef in Hq. destruct Hq as (q & T & Hall & _).
      destruct (st_output_spec react a q all Hd Ef T Hall) as (a1 & -> & S1 & used & K1 & F1).
      by exists a1, used.
    + exists a, []. split_and!; try done; congruence.
Qed.

Lemma new_sending blk ks :
  Z.of_nat (length blk) = smallbufsize -> sending (axprt_stream_new (start blk) ks) [].
Proof.
  intros Hb. split; [done|]. cbn. exists (mkq [] [] []). split; [|done]. split; [by apply start_rep|by constructor].
Qed.

(** ** A receiver *)
(** Bytes arrive, or [input] is called and the kernel gives that many. *)
Inductive recv_op := Arrive (d : list Z) | Read (n : Z).

Definition arrive (d : list Z) (a : axprt_stream) : axprt_stream :=
  let r := rcv a in
  set_rcv a (mkrx (ingetpkt r) (cb r) (selread r) (pktlen r) (pktbuf r) (bytes_recv r) (sock r ++ d) (events r)).

Fixpoint run_receiver (pktsize : Z) (junk : Z -> list Z) (react : list event -> bool) (l : list recv_op) (a : axprt_stream)
    : outcome axprt_stream :=
  match l with
  | [] => Done a
  | Arrive d :: l => run_receiver pktsize junk react l (arrive d a)
  | Read n :: l => a ← st_input pktsize (pktsize + 4) junk react (Got n) a; run_receiver pktsize junk react l a
  end.

Definition arrived (l : list recv_op) : list Z :=
  concat (omap (fun o => match o with Arrive d => Some d | Read _ => None end) l).
Definition reads (l : list recv_op) : nat := length (omap (fun o => match o with Arrive _ => None | Read n => Some n end) l).

(** A receiver waits for the packets [ps]; [rest] has not arrived yet. *)
Definition receiving (pktsize : Z) (a : axprt_stream) (ps : list (list Z)) (rest : list Z) : Prop :=
  fd a = true /\ exists tl, rx_ok (pktsize + 4) (rcv a) tl /\ partial pktsize tl /\ Z.of_nat (length tl) < pktsize
    /\ tl ++ sock (rcv a) ++ rest = frames ps.

Definition always (l : list event) : bool := true.

Lemma run_receiver_spec pktsize junk l a ps rest :
  (forall n, 0 <= n -> Z.of_nat (length (junk n)) = n) -> 0 <= pktsize < 2 ^ 31 ->
  Forall (fun p => Z.of_nat (length p) <= pktsize - 4) ps -> receiving pktsize a ps (arrived l ++ rest) ->
  exists a' k, run_receiver pktsize junk always l a = Done a' /\ receiving pktsize a' (drop k ps) rest
    /\ events (rcv a') = events (rcv a) ++ (Pkt <$> take k ps)
    /\ ((forall d, Arrive d ∉ l) -> (length (sock (rcv a')) <= length (sock (rcv a)) - reads l)%nat).
Proof.
  intros Hj Hps. revert a ps. induction l as [|[d|n] l IH]; intros a ps Hall Hr; cbn [run_receiver].
  - exists a, 0%nat. split; [done|]. split; [done|]. rewrite app_nil_r. split; [done|]. cbn. lia.
  - destruct (IH (arrive d a) ps Hall) as (a' & k & E & R' & V' & _).
    { destruct Hr as (F & tl & H1 & H2 & H3 & H4). split; [done|]. exists tl. split; [by destruct H1; split|]. split_and!; try done.
      cbn. rewrite <- app_assoc, (app_assoc d). exact H4. }
    exists a', k. split_and!; try done. intros Hn. exfalso. apply (Hn d). apply elem_of_cons. by left.
  - destruct Hr as (F & tl & H1 & H2 & H3 & H4).
    destruct (st_input_spec pktsize junk always (fun _ => eq_refl) Hps n a tl ps (arrived l ++ rest) Hj F H1 H2 H3 Hall H4)
      as (a1 & k1 & tl1 & E1 & F1 & _ & _ & R1 & P1 & L1 & V1 & B1 & S1).
    cbv zeta in E1. rewrite E1. cbn [mbind outcome_bind].
    destruct (IH a1 (drop k1 ps)) as (a' & k & E & R' & V' & S'); [by apply Forall_drop|split; [done|]; by exists tl1|].
    exists a', (k1 + k)%nat. split; [done|]. rewrite <- drop_drop. split; [done|]. split.
    + rewrite V', V1, <- app_assoc, <- fmap_app. do 2 f_equal. by rewrite take_take_drop.
    + intros Hn. assert (Hn' : forall d, Arrive d ∉ l) by (intros d Hd; apply (Hn d), elem_of_cons; by right).
      specialize (S' Hn'). change (reads (Read n :: l)) with (S (reads l)). lia.
Qed.

Lemma run_receiver_app pktsize junk react l k a :
  run_receiver pktsize junk react (l ++ k) a = (a ← run_receiver pktsize junk react l a; run_receiver pktsize junk react k a).
Proof.
  revert a. induction l as [|[d|n] l IH]; intros a; [done|apply IH|]. cbn [app run_receiver].
  destruct (st_input _ _ _ _ _ a); try done. cbn [mbind outcome_bind]. apply IH.
Qed.

(** A new connection whose receive callback is set. *)
Definition receiver (pktsize : Z) (react : list event -> bool) (w : world) : outcome axprt_stream :=
  setrcb pktsize react true (axprt_stream_new w []).

Lemma receiver_ready pktsize react w ps :
  4 <= pktsize ->
  exists a, receiver pktsize react w = Done a /\ receiving pktsize a ps (frames ps) /\ events (rcv a) = [] /\ sock (rcv a) = [].
Proof.
  intros Hp. eexists. split; [reflexivity|]. split; [|done]. split; [done|]. exists [].
  split; [by split; try done; cbn; lia|]. split; [by left|]. cbn. split; [lia|done].
Qed.

Lemma arrived_reads ns : arrived (Read <$> ns) = [] /\ reads (Read <$> ns) = length ns /\ forall d, Arrive d ∉ Read <$> ns.
Proof.
  induction ns as [|n ns (IH1 & IH2 & IH3)]; [split_and!; [done|done|]; intros d; apply not_elem_of_nil|]. cbn [fmap list_fmap].
  split_and!; [exact IH1|by change (S (reads (Read <$> ns)) = S (length ns)); f_equal|].
  intros d. rewrite elem_of_cons. intros [?|Hd]; [done|]. by apply (IH3 d).
Qed.

(** Everything that has arrived is read after enough reads. *)
Lemma drain pktsize junk a ps ns :
  (forall n, 0 <= n -> Z.of_nat (length (junk n)) = n) -> 0 <= pktsize < 2 ^ 31 ->
  Forall (fun p => Z.of_nat (length p) <= pktsize - 4) ps -> receiving pktsize a ps [] ->
  (length (sock (rcv a)) <= length ns)%nat ->
  exists a', run_receiver pktsize junk always (Read <$> ns) a = Done a' /\ events (rcv a') = events (rcv a) ++ (Pkt <$> ps).
Proof.
  intros Hj Hps Hall Hr Hn. destruct (arrived_reads ns) as (N1 & N2 & N3).
  destruct (run_receiver_spec pktsize junk (Read <$> ns) a ps [] Hj Hps Hall) as (a' & k & E & (F & tl & R & P & L & B) & V & S').
  { by rewrite N1. }
  specialize (S' N3). exists a'. split; [done|].
  assert (Es : sock (rcv a') = []) by (destruct (sock (rcv a')); [done|cbn in S'; lia]).
  rewrite Es in B. cbn [app] in B. rewrite app_nil_r in B.
  assert (Ed : drop k ps = []).
  { apply (frames_nil_partial pktsize _ tl P B). apply Forall_drop. eapply Forall_impl; [exact Hall|]. cbn. intros. lia. }
  rewrite V. f_equal. f_equal. apply (f_equal length) in Ed. rewrite length_drop in Ed. cbn in Ed. by rewrite take_ge by lia.
Qed.

(** ** Properties *)
(** C37: A new stream sends any packets of at most [pktsize] bytes, in any
    pieces, with [output] called whenever the socket is writable: whatever
    the kernel takes at a time no operation fails, and the bytes on the wire
    followed by those that wait are the frames of all packets in order.
    While the connection is open [output] stays registered exactly as long as
    bytes wait; the connection ends only after an error of [writev], and then
    a front part has been sent. *)
Theorem stream_sends_frames pktsize junk react blk ks l :
  (forall n, 0 <= n -> Z.of_nat (length (junk n)) = n) -> 0 <= pktsize < 2 ^ 31 -> Z.of_nat (length blk) = smallbufsize ->
  Forall (fun p => Z.of_nat (length p) <= pktsize) (packets l) ->
  exists a, run_sender pktsize junk react l (axprt_stream_new (start blk) ks) = Done a
    /\ (exists rest, wire (snd_ a) ++ rest = frames (packets l)
        /\ (fd a = true -> copyout (mem (snd_ a)) (out (snd_ a)) (uiobytes (out (snd_ a))) = Done rest
              /\ wcbset (snd_ a) = negb (bool_decide (rest = []))))
    /\ (fd a = false -> Werr ∈ ks).
Proof.
  intros Hj Hps Hb Hl.
  destruct (run_sender_spec pktsize junk react l _ [] Hj Hps Hl (new_sending blk ks Hb)) as (a & E & [_ Hs] & used & K & F).
  exists a. split; [done|]. split.
  - destruct (fd a) eqn:Ef.
    + destruct Hs as (q & [R _] & Hall & Hw). exists (q_bytes q). split; [done|]. intros _. split; [|done].
      rewrite (rep_len _ _ _ R), (copyout_spec _ _ q) by (done || unfold q_len; lia). f_equal. apply take_ge. unfold q_len. lia.
    + destruct Hs as (rest & q & Hall & _). by exists rest.
  - intros Ef. cbn in K. rewrite K. apply elem_of_app. left. by apply F.
Qed.

Lemma stream_sends_frames_witness :
  exists a, run_sender 100 zeros always [Send [[1; 2]; [3]]; Send [[4]]; Writable]
      (axprt_stream_new (start (zeros 128)) [Wrote 5; Again; Wrote 3; Again]) = Done a
    /\ exists rest, wire (snd_ a) ++ rest = frames [[1; 2; 3]; [4]].
Proof.
  destruct (stream_sends_frames 100 zeros always (zeros 128) [Wrote 5; Again; Wrote 3; Again]
    [Send [[1; 2]; [3]]; Send [[4]]; Writable] zeros_length ltac:(lia) eq_refl) as (a & E & (rest & H & _) & _).
  { repeat constructor; cbn; lia. }
  exists a. split; [exact E|]. exists rest. exact H.
Defined.

(** C10: Two streams joined by their bytes: the sender sends packets of at
    most [pktsize - 4] bytes, the kernels take and give any number of bytes at
    a time, and the bytes arrive in any portions.  The receiver's callback is
    called with the packets that were sent, whole and in order, a part of
    them as long as bytes are missing; once everything is sent and has
    arrived, enough reads deliver all of them. *)
Theorem stream_end_to_end pktsize junk react blk ks l :
  (forall n, 0 <= n -> Z.of_nat (length (junk n)) = n) -> 4 <= pktsize < 2 ^ 31 -> Z.of_nat (length blk) = smallbufsize ->
  Forall (fun p => Z.of_nat (length p) <= pktsize - 4) (packets l) ->
  exists s, run_sender pktsize junk react l (axprt_stream_new (start blk) ks) = Done s
    /\ forall w k rest, arrived k ++ rest = wire (snd_ s) ->
      exists r n, (a ← receiver pktsize always w; run_receiver pktsize junk always k a) = Done r
        /\ fd r = true /\ events (rcv r) = Pkt <$> take n (packets l)
        /\ (fd s = true -> wcbset (snd_ s) = false -> rest = [] ->
            forall ns, (length (wire (snd_ s)) <= length ns)%nat ->
            exists r', run_receiver pktsize junk always (Read <$> ns) r = Done r' /\ events (rcv r') = Pkt <$> packets l).
Proof.
  intros Hj Hps Hb Hl.
  destruct (run_sender_spec pktsize junk react l _ [] Hj ltac:(lia) ltac:(eapply Forall_impl; [exact Hl|]; cbn; intros; lia) (new_sending blk ks Hb))
    as (s & E & [_ Hs] & _).
  exists s. split; [done|]. intros w k rest Hk. cbn [app] in Hs.
  assert (Hx : exists x, wire (snd_ s) ++ x = frames (packets l) /\ (fd s = true -> wcbset (snd_ s) = false -> x = [])).
  { destruct (fd s).
    - destruct Hs as (q & _ & H & Hw). exists (q_bytes q). split; [done|]. intros _. rewrite Hw. by case_bool_decide.
    - destruct Hs as (x & q & H & _). by exists x. }
  destruct Hx as (x & Hx & Hdone). destruct (receiver_ready pktsize always w (packets l) ltac:(lia)) as (a & Ea & Ra & Va & Sa).
  rewrite Ea. cbn [mbind outcome_bind].
  destruct (run_receiver_spec pktsize junk k a (packets l) (rest ++ x) Hj ltac:(lia) Hl) as (r & n & Er & Rr & Vr & _).
  { by rewrite app_assoc, Hk, Hx. }
  exists r, n. split; [done|]. split; [by destruct Rr|]. rewrite Va in Vr. split; [done|].
  intros Hf Hw -> ns Hns. specialize (Hdone Hf Hw) as ->. cbn [app] in Rr.
  destruct (drain pktsize junk r (drop n (packets l)) ns Hj ltac:(lia) ltac:(by apply Forall_drop) Rr) as (r' & E' & V').
  { destruct Rr as (_ & tl & _ & _ & _ & B). apply (f_equal length) in B. rewrite !length_app in B.
    rewrite app_nil_r in Hx. rewrite Hx in Hns. rewrite <- (take_drop n (packets l)), frames_app, length_app in Hns. lia. }
  exists r'. split; [done|]. rewrite V', Vr. cbn [app]. by rewrite <- fmap_app, take_drop.
Qed.

Lemma stream_end_to_end_witness :
  exists s, run_sender 100 zeros always [Send [[1; 2]; [3]]; Send [[4]]; Writable]
      (axprt_stream_new (start (zeros 128)) [Wrote 5; Again; Wrote 3; Wrote 90]) = Done s
    /\ wire (snd_ s) = frames [[1; 2; 3]; [4]]
    /\ exists r, (a ← receiver 100 always (start []);
          run_receiver 100 zeros always [Arrive (take 6 (wire (snd_ s))); Read 2; Read 9; Arrive (drop 6 (wire (snd_ s)))] a) = Done r
        /\ exists r', run_receiver 100 zeros always (Read <$> replicate 12 1) r = Done r' /\ events (rcv r') = [Pkt [1; 2; 3]; Pkt [4]].
Proof.
  destruct (stream_end_to_end 100 zeros always (zeros 128) [Wrote 5; Again; Wrote 3; Wrote 90]
    [Send [[1; 2]; [3]]; Send [[4]]; Writable] zeros_length ltac:(lia) eq_refl) as (s & E & H).
  { repeat constructor; cbn; lia. }
  assert (Es : run_sender 100 zeros always [Send [[1; 2]; [3]]; Send [[4]]; Writable]
      (axprt_stream_new (start (zeros 128)) [Wrote 5; Again; Wrote 3; Wrote 90]) = Done s) by exact E.
  assert (Hv : wire (snd_ s) = frames [[1; 2; 3]; [4]] /\ fd s = true /\ wcbset (snd_ s) = false).
  { vm_compute in E. injection E as <-. split; [|split]; reflexivity. }
  destruct Hv as (Hw & Hf & Hc). exists s. split; [exact Es|]. split; [exact Hw|].
  destruct (H (start []) [Arrive (take 6 (wire (snd_ s))); Read 2; Read 9; Arrive (drop 6 (wire (snd_ s)))] []) as (r & n & Er & _ & _ & Hd).
  { rewrite Hw. reflexivity. }
  exists r. split; [exact Er|]. destruct (Hd Hf Hc eq_refl (replicate 12 1)) as (r' & E' & V').
  { rewrite Hw. cbn. lia. }
  exists r'. split; [exact E'|]. exact V'.
Defined.

(** A packet that the sender may send and the receiver's header check
    accepts, of more than [pktsize - 4] bytes, stops the receiver when the
    kernel first gives only the header and a part: the [assert] that less than
    [pktsize] bytes are left over fails, although the buffer has room. *)
Theorem stream_partial_packet_panics pktsize junk react w p :
  (forall n, 0 <= n -> Z.of_nat (length (junk n)) = n) -> 4 <= pktsize < 2 ^ 31 -> (forall l, react l = true) ->
  pktsize - 4 < Z.of_nat (length p) <= pktsize ->
  (a ← receiver pktsize react w; run_receiver pktsize junk react [Arrive (frame p); Read pktsize] a) = Panic.
Proof.
  intros Hj Hps Hr Hp.
  change (receiver pktsize react w) with
    (Done (mkax false true (mkrx false true true 0 None 0 [] []) (mktx [] suio_new false 0 0 w [] []))).
  cbn [mbind outcome_bind run_receiver]. set (a := arrive _ _). pose proof (frame_length p) as Lf.
  unfold st_input. cbn [a arrive fd set_rcv rcv sock pktlen set_cb set_selread need_pktbuf pktbuf set_pkt negb app].
  rewrite bool_decide_false by (intros E; apply (f_equal length) in E; rewrite Lf in E; cbn in E; lia).
  set (d := take _ (frame p)). assert (Ld : Z.of_nat (length d) = pktsize) by (unfold d; rewrite length_take, Lf; lia).
  destruct (Z.leb_spec (Z.of_nat (length d)) 0); [lia|]. unfold copy_in. pose proof (Hj (pktsize + 4) ltac:(lia)) as Lj.
  change (0 <=? 0) with true. destruct (Z.leb_spec (0 + Z.of_nat (length d)) (Z.of_nat (length (junk (pktsize + 4))))); [|lia].
  cbn [andb mbind outcome_bind].
  change (Z.to_nat 0) with 0%nat. rewrite take_0. cbn [app].
  match goal with |- context [callgetpkt _ _ ?x] => set (a2 := x) end.
  assert (R : rx_ok (pktsize + 4) (rcv a2) (frames [] ++ d)).
  { split; cbn [a2 rcv set_rcv ingetpkt cb pktlen pktbuf a arrive set_pkt frames fmap list_fmap concat app]; try done.
    - rewrite Z.add_0_l, u32_small; lia.
    - split; [|by rewrite take_app_length].
      rewrite length_app, length_drop. lia.
    - lia. }
  destruct (callgetpkt_spec pktsize react Hr ltac:(lia) (pktsize + 4) a2 [] d) as [_ Hpan]; try done; try lia.
  - right. exists p, (drop (length d) (frame p)). split; [lia|]. split.
    + rewrite <- (take_drop (length d) (frame p)) at 1. f_equal. unfold d. rewrite length_take. f_equal. rewrite Lf. lia.
    + intros E. apply (f_equal length) in E. rewrite length_drop, Lf in E. cbn in E. lia.
  - intros E. apply (f_equal length) in E. cbn in E. lia.
  - rewrite Hpan by lia. done.
Qed.

Lemma stream_partial_packet_panics_witness :
  (a ← receiver 8 always (start []); run_receiver 8 zeros always [Arrive (frame [1; 2; 3; 4; 5; 6; 7; 8]); Read 8] a) = Panic.
Proof. apply (stream_partial_packet_panics 8 zeros always); [exact zeros_length|lia|done|cbn; lia]. Defined.
