(* ===== verification/Modalg.v ===== *)
(** * Modular arithmetic: [crypt/modalg.C] and [crypt/modalg.h]

    Barrett reduction, and Montgomery reduction, multiplication and
    exponentiation on the limbs of GMP's integers.  The functions of GMP that
    the code calls are operations of the class [GmpArith]. *)
From Stdlib Require Import ZArith Lia Znumtheory.
From stdpp Require Import prelude.
From S2P Require Import Prelude Mdblock Bits Mpz MpzSpec MpzOps MpzRaw.

(** Functions with a result parameter [r] are given its old value. *)
Class GmpArith := {
  mpz_set : mpz -> mpz -> mpz;
  mpz_set_ui : mpz -> Z -> mpz;
  mpz_get_ui : mpz -> Z;
  mpz_setbit : mpz -> Z -> mpz;
  mpz_add : mpz -> mpz -> mpz -> mpz;
  mpz_sub : mpz -> mpz -> mpz -> mpz;
  mpz_mul : mpz -> mpz -> mpz -> mpz;
  mpz_mul_2exp : mpz -> mpz -> Z -> mpz;
  mpz_tdiv_q : mpz -> mpz -> mpz -> mpz;
  mpz_mod : mpz -> mpz -> mpz -> mpz;
  mpz_invert : mpz -> mpz -> mpz -> mpz;
  (** The greatest common divisor and the factor of the first operand. *)
  mpz_gcdext : mpz -> mpz -> mpz * mpz;
  mpz_tdiv_q_2exp : mpz -> mpz -> Z -> mpz;
  mpz_cmp : mpz -> mpz -> Z;
  (** [mpn_addmul_1 ({r, n}, {s, n}, n, v)] and
      [mpn_add_1 ({r, n}, {r, n}, n, v)]: the new limbs and the carry. *)
  mpn_addmul_1 : list Z -> list Z -> Z -> list Z * Z;
  mpn_add_1 : list Z -> Z -> list Z * Z
}.

Definition mpz_null : mpz := mkmpz 0 [].
Definition mpz_sgn (m : mpz) : Z := Z.sgn (mp_size m).

(** The limbs from [off] on, and limbs put there. *)
Definition sub_limbs (d : list Z) (off len : Z) : outcome (list Z) :=
  if (0 <=? off) && (0 <=? len) && (off + len <=? Z.of_nat (length d))
  then Done (take (Z.to_nat len) (drop (Z.to_nat off) d)) else Wild.

Section gmp.
Context `{HG : !Gmp} `{HA : !GmpArith}.

Definition bigint_ui (n : Z) : mpz := mpz_set_ui mpz_null n.

(** [invert (a, b)] of [bigint.h]: zero if there is no inverse. *)
Definition _invert0 (a b : mpz) : outcome mpz :=
  let '(gcd, r) := mpz_gcdext a b in
  one ← (if negb (mp_size gcd =? 1) then Done false else d0 ← rd (mp_d gcd) 0; Done (d0 =? 1));
  Done (if negb one then mkmpz 0 (mp_d r)
        else if mp_size r <? 0 then mpz_add r r b else r).

(** ** Barrett reduction *)
Record barrett := mkbarrett { b_mp : mpz; b_k : Z; b_bk1 : mpz; b_u : mpz }.

Definition barrett_set (m : mpz) : outcome barrett :=
  assertM (0 <? mpz_sgn m) ;;
  b0 ← mpz_getbit m 0;
  assertM (negb (b0 =? 0)) ;;
  nbits ← mpz_sizeinbase2 m;
  let k := (nbits + mpz_bitsperlimb - 1) / mpz_bitsperlimb in
  let bk1 := mpz_setbit (bigint_ui 0) ((k + 1) * mpz_bitsperlimb) in
  let u := mpz_setbit (bigint_ui 0) (2 * mpz_bitsperlimb * k) in
  let u := mpz_tdiv_q u u m in
  Done (mkbarrett m k bk1 u).

(** [while (mpz_cmp (r, mp) > 0) mpz_sub (r, r, mp)] *)
Fixpoint reduce_loop (fuel : nat) (r m : mpz) : outcome mpz :=
  if 0 <? mpz_cmp r m then
    match fuel with
    | O => Spin
    | S fuel => reduce_loop fuel (mpz_sub r r m) m
    end
  else Done r.

(** Two turns of the loop are enough. *)
Definition barrett_reduce (t : barrett) (r a : mpz) : outcome mpz :=
  let k := b_k t in
  assertM ((0 <=? mp_size a) && (mp_size a <=? 2 * k)) ;;
  let q := mpz_tdiv_q_2exp mpz_null a ((k - 1) * mpz_bitsperlimb) in
  let q := mpz_mul q q (b_u t) in
  let q := mpz_tdiv_q_2exp q q ((k + 1) * mpz_bitsperlimb) in
  let r1 := mpz_tdiv_r_2exp mpz_null a ((k + 1) * mpz_bitsperlimb) in
  let r2 := mpz_mul mpz_null q (b_mp t) in
  let r2 := mpz_tdiv_r_2exp r2 r2 ((k + 1) * mpz_bitsperlimb) in
  let r := mpz_sub r r1 r2 in
  let r := if mpz_sgn r <? 0 then mpz_add r r (b_bk1 t) else r in
  reduce_loop 2 r (b_mp t).

(** ** Montgomery reduction *)
Definition montgom_b : mpz := mpz_mul_2exp mpz_null (bigint_ui 1) mpz_bitsperlimb.

Record montgom := mkmontgom {
  mg_mp : mpz;       (* the modulus *)
  mg_mi : Z;         (* minus its inverse, for one limb *)
  mg_n : Z;          (* its number of limbs *)
  mg_r : mpz;
  mg_rm : mpz;
  mg_ri : mpz;
  mg_r2 : mpz;
  mg_mr : mpz
}.

Definition montgom_set (m : mpz) : outcome montgom :=
  b0 ← (if 0 <? mpz_sgn m then mpz_getbit m 0 else Done 0);
  assertM (negb (b0 =? 0)) ;;
  let b := montgom_b in
  let mitmp := mpz_invert mpz_null m b in
  let mitmp := mpz_sub mitmp b mitmp in
  let mi := mpz_get_ui mitmp in
  let n := mp_size m in
  let r := mpz_setbit (bigint_ui 0) (n * mpz_bitsperlimb) in
  let rm := mpz_mod mpz_null r m in
  ri ← _invert0 rm m;
  let r2 := mpz_setbit (bigint_ui 0) (n * 2 * mpz_bitsperlimb) in
  let r2 := mpz_mod r2 r2 m in
  let mr := mpz_mul mpz_null m r in
  Done (mkmontgom m mi n r rm ri r2 mr).

(** [u = mpn_addmul_1 (ap + i, s, sn, v); mpn_add_1 (ap + sn + i, ap + sn + i, len, u);] *)
Definition addmul_at (ap : list Z) (i : Z) (s : list Z) (sn v len : Z) : outcome (list Z) :=
  seg ← sub_limbs ap i sn;
  sl ← sub_limbs s 0 sn;
  let '(seg, u) := mpn_addmul_1 seg sl v in
  ap ← copy_in ap i seg;
  seg ← sub_limbs ap (sn + i) len;
  let '(seg, _) := mpn_add_1 seg u in
  copy_in ap (sn + i) seg.

Fixpoint mreduce_loop (fuel : nat) (t : montgom) (i : Z) (ap : list Z) : outcome (list Z) :=
  if i <? mg_n t then
    match fuel with
    | O => Spin
    | S fuel =>
        api ← rd ap i;
        let u := u64 (api * mg_mi t) in
        ap ← addmul_at ap i (mp_d (mg_mp t)) (mg_n t) u (mg_n t - i + 1);
        mreduce_loop fuel t (i + 1) ap
    end
  else Done ap.

(** The end of both functions: the size of the [sa] limbs, the division and
    the last subtraction. *)
Definition mg_finish (t : montgom) (a : mpz) (ap : list Z) (sa : Z) : outcome mpz :=
  sz ← trim (Z.to_nat sa) ap;
  let a := mkmpz (Z.of_nat sz) ap in
  let a := mpz_tdiv_q_2exp a a (mg_n t * mpz_bitsperlimb) in
  Done (if 0 <=? mpz_cmp a (mg_mp t) then mpz_sub a a (mg_mp t) else a).

Definition mpz_mreduce (t : montgom) (a x : mpz) : outcome mpz :=
  let n := mg_n t in
  assertM ((0 <=? mp_size x) && (mp_size x <=? 2 * n)) ;;
  assertM (mpz_cmp x (mg_mr t) <? 0) ;;
  let sa := 2 * n + 1 in
  let a := grow a sa in
  let a := mpz_set a x in
  ap ← copy_in (mp_d a) (mp_size a) (replicate (Z.to_nat (sa - mp_size a)) 0);
  ap ← mreduce_loop (Z.to_nat n) t 0 ap;
  mg_finish t a ap sa.

Fixpoint mmul_loop (fuel : nat) (t : montgom) (x y : mpz) (sa i : Z) (ap : list Z) : outcome (list Z) :=
  if i <? mg_n t then
    match fuel with
    | O => Spin
    | S fuel =>
        xi ← (if i <? mp_size x then rd (mp_d x) i else Done 0);
        api ← rd ap i;
        y0 ← rd (mp_d y) 0;
        let u := u64 ((api + xi * y0) * mg_mi t) in
        ap ← addmul_at ap i (mp_d (mg_mp t)) (mg_n t) u (mg_n t - i + 1);
        ap ← addmul_at ap i (mp_d y) (mp_size y) xi (sa - mp_size y - i);
        mmul_loop fuel t x y sa (i + 1) ap
    end
  else Done ap.

(** [rp] is where the result is computed: [a], or the workspace [mmr] when [a]
    is an operand. *)
Definition mpz_mmul (t : montgom) (rp x y : mpz) : outcome mpz :=
  let n := mg_n t in
  assertM ((0 <=? mp_size x) && (mp_size x <=? n)) ;;
  assertM ((0 <=? mp_size y) && (mp_size y <=? n)) ;;
  if (mp_size x =? 0) || (mp_size y =? 0) then Done (mkmpz 0 (mp_d rp))
  else
    let sa := 2 * n + 1 in
    let rp := grow rp sa in
    ap ← copy_in (mp_d rp) 0 (replicate (Z.to_nat sa) 0);
    ap ← mmul_loop (Z.to_nat n) t x y sa 0 ap;
    mg_finish t rp ap sa.

(** The loop over the bits of [e], from bit [i - 1] down. *)
Fixpoint powm_loop (i : nat) (t : montgom) (mmr gm e a : mpz) : outcome mpz :=
  match i with
  | O => Done a
  | S i =>
      a ← mpz_mmul t mmr a a;
      bit ← mpz_getbit e (Z.of_nat i);
      a ← (if negb (bit =? 0) then mpz_mmul t mmr a gm else Done a);
      powm_loop i t mmr gm e a
  end.

(** [mmr] and [gm] are the workspaces. *)
Definition montgom_powm (t : montgom) (mmr gm a g e : mpz) : outcome mpz :=
  gm ← mpz_mmul t gm g (mg_r2 t);
  let a := mpz_set a (mg_rm t) in
  nb ← mpz_sizeinbase2 e;
  a ← powm_loop (Z.to_nat nb) t mmr gm e a;
  mpz_mreduce t a a.

End gmp.

(** * What GMP's functions are documented to do, and carries in arrays of
    limbs *)
Definition limbs_ok (l : list Z) : Prop := Forall (fun v => 0 <= v < 2 ^ 64) l.

(** ** The functions of GMP *)
Class GmpArithOK `{!GmpArith} := {
  set_ok r x X : mpz_rep x X -> mpz_rep (mpz_set r x) X
    /\ (length (mp_d r) <= length (mp_d (mpz_set r x)))%nat;
  set_ui_ok r n : 0 <= n < 2 ^ 64 -> mpz_rep (mpz_set_ui r n) n;
  get_ui_ok x X : mpz_rep x X -> 0 <= X -> mpz_get_ui x = u64 X;
  setbit_ok x X n : mpz_rep x X -> 0 <= X -> 0 <= n -> mpz_rep (mpz_setbit x n) (Z.setbit X n);
  add_ok r x y X Y : mpz_rep x X -> mpz_rep y Y -> mpz_rep (mpz_add r x y) (X + Y);
  sub_ok r x y X Y : mpz_rep x X -> mpz_rep y Y -> mpz_rep (mpz_sub r x y) (X - Y);
  mul_ok r x y X Y : mpz_rep x X -> mpz_rep y Y -> mpz_rep (mpz_mul r x y) (X * Y);
  mul_2exp_ok r x X n : mpz_rep x X -> 0 <= n -> mpz_rep (mpz_mul_2exp r x n) (X * 2 ^ n);
  tdiv_q_ok r x y X Y : mpz_rep x X -> mpz_rep y Y -> Y <> 0 -> mpz_rep (mpz_tdiv_q r x y) (Z.quot X Y);
  mod_ok r x y X Y : mpz_rep x X -> mpz_rep y Y -> 0 < Y -> mpz_rep (mpz_mod r x y) (X mod Y);
  invert_ok r x y X Y : mpz_rep x X -> mpz_rep y Y -> 1 < Y -> Z.gcd X Y = 1 ->
    exists I, mpz_rep (mpz_invert r x y) I /\ 0 <= I < Y /\ (X * I) mod Y = 1;
  gcdext_ok x y X Y : mpz_rep x X -> mpz_rep y Y ->
    exists s t, mpz_rep ((mpz_gcdext x y).1) (Z.gcd X Y) /\ mpz_rep ((mpz_gcdext x y).2) s /\ X * s + Y * t = Z.gcd X Y;
  tdiv_q_2exp_ok r x X n : mpz_rep x X -> 0 <= n -> mpz_rep (mpz_tdiv_q_2exp r x n) (Z.quot X (2 ^ n));
  cmp_ok x y X Y : mpz_rep x X -> mpz_rep y Y -> Z.sgn (mpz_cmp x y) = Z.sgn (X - Y);
  addmul_1_ok r s v : limbs_ok r -> limbs_ok s -> length s = length r -> 0 <= v < 2 ^ 64 ->
    limbs_ok ((mpn_addmul_1 r s v).1) /\ length ((mpn_addmul_1 r s v).1) = length r /\ 0 <= (mpn_addmul_1 r s v).2 < 2 ^ 64
    /\ limbs_val ((mpn_addmul_1 r s v).1) + lpow (length r) * (mpn_addmul_1 r s v).2 = limbs_val r + limbs_val s * v;
  add_1_ok r v : limbs_ok r -> (0 < length r)%nat -> 0 <= v < 2 ^ 64 ->
    limbs_ok ((mpn_add_1 r v).1) /\ length ((mpn_add_1 r v).1) = length r
    /\ limbs_val ((mpn_add_1 r v).1) + lpow (length r) * (mpn_add_1 r v).2 = limbs_val r + v
}.

(** ** Values of arrays of limbs *)
Lemma limbs_val_cons v l : limbs_val (v :: l) = v + 2 ^ 64 * limbs_val l.
Proof. done. Qed.

Lemma limbs_val_app l k : limbs_val (l ++ k) = limbs_val l + lpow (length l) * limbs_val k.
Proof.
  induction l as [|v l IH].
  - change (limbs_val [] + lpow (length (@nil Z)) * limbs_val k) with (0 + 1 * limbs_val k). cbn [app]. lia.
  - cbn [app length]. rewrite !limbs_val_cons, IH, lpow_S. lia.
Qed.

Lemma limbs_val_bound l : limbs_ok l -> 0 <= limbs_val l < lpow (length l).
Proof.
  induction 1 as [|v l Hv _ IH]; [by change (0 <= 0 < 1)|]. cbn [length]. rewrite limbs_val_cons, lpow_S. lia.
Qed.

Lemma limbs_val_zero n : limbs_val (replicate n 0) = 0.
Proof. induction n as [|n IH]; [done|]. cbn [replicate]. rewrite limbs_val_cons. lia. Qed.

Lemma limbs_limbs_ok x n : limbs_ok (limbs x n).
Proof. apply Forall_forall. intros v Hv. apply list_elem_of_fmap in Hv as (i & -> & _). apply limb_range. Qed.

Lemma limb_add_high x y i : limb (x + lpow i * (2 ^ 64 * y)) i = limb x i.
Proof.
  rewrite !limb_div, (Z.mul_comm (lpow i)), Z.div_add by (pose proof (lpow_pos i); lia).
  by rewrite (Z.mul_comm (2 ^ 64)), Z.mod_add by lia.
Qed.

(** The limbs of the value are the array. *)
Lemma limbs_limbs_val l : limbs_ok l -> limbs (limbs_val l) (length l) = l.
Proof.
  induction l as [|v l IH] using rev_ind; intros H; [done|]. apply Forall_app in H as [Hl Hv]. rewrite Forall_singleton in Hv.
  rewrite length_app. cbn [length]. rewrite Nat.add_1_r, limbs_S, limbs_val_app, limbs_val_cons. change (limbs_val []) with 0.
  pose proof (limbs_val_bound l Hl) as Hb. f_equal.
  - etransitivity; [|exact (IH Hl)]. apply limbs_ext. intros i Hi.
    replace (lpow (length l) * (v + 2 ^ 64 * 0)) with (lpow i * (2 ^ 64 * (lpow (length l - S i) * v))); [apply limb_add_high|].
    replace (lpow (length l)) with (lpow i * 2 ^ 64 * lpow (length l - S i)); [ring|].
    unfold lpow. rewrite <- !Z.pow_add_r by lia. f_equal. lia.
  - f_equal. rewrite limb_div, Z.mul_0_r, Z.add_0_r.
    rewrite Z.mul_comm, Z.div_add, (Z.div_small (limbs_val l)) by lia. rewrite Z.add_0_l. by apply Z.mod_small.
Qed.

Lemma val_take_limbs m x : mpz_rep m x -> limbs_val (take (msize m) (mp_d m)) = Z.abs x.
Proof. intros [A L B T S]. rewrite L, limbs_val_mod. apply Z.mod_small. lia. Qed.

Lemma rep_limbs_ok m x : mpz_rep m x -> limbs_ok (take (msize m) (mp_d m)).
Proof. intros [A L B T S]. rewrite L. apply limbs_limbs_ok. Qed.

Lemma sub_limbs_spec d off len :
  (off + len <= length d)%nat -> sub_limbs d (Z.of_nat off) (Z.of_nat len) = Done (take len (drop off d)).
Proof.
  intros H. unfold sub_limbs. destruct (Z.leb_spec 0 (Z.of_nat off)), (Z.leb_spec 0 (Z.of_nat len)),
    (Z.leb_spec (Z.of_nat off + Z.of_nat len) (Z.of_nat (length d))); try lia. cbn [andb]. by rewrite !Nat2Z.id.
Qed.

Lemma copy_in_limbs d off seg :
  (off + length seg <= length d)%nat ->
  copy_in d (Z.of_nat off) seg = Done (take off d ++ seg ++ drop (off + length seg) d).
Proof.
  intros H. unfold copy_in. destruct (Z.leb_spec 0 (Z.of_nat off)),
    (Z.leb_spec (Z.of_nat off + Z.of_nat (length seg)) (Z.of_nat (length d))); try lia. cbn [andb].
  by rewrite Nat2Z.id.
Qed.

Section gmp.
Context `{HA : !GmpArith} `{HAok : !GmpArithOK}.

(** Adding a product at limb [i] and the carry behind it: the value of the
    first [sa] limbs goes up by the product, if it fits, and the rest of the
    array stays. *)
Lemma addmul_at_spec ap i s sn v sa :
  limbs_ok (take sa ap) -> (sa <= length ap)%nat -> limbs_ok (take sn s) -> (sn <= length s)%nat -> (sn + i < sa)%nat ->
  0 <= v < 2 ^ 64 -> limbs_val (take sa ap) + lpow i * (limbs_val (take sn s) * v) < lpow sa ->
  exists ap', addmul_at ap (Z.of_nat i) s (Z.of_nat sn) v (Z.of_nat sa - Z.of_nat sn - Z.of_nat i) = Done ap'
    /\ limbs_ok (take sa ap') /\ length ap' = length ap
    /\ limbs_val (take sa ap') = limbs_val (take sa ap) + lpow i * (limbs_val (take sn s) * v).
Proof using HAok.
  intros Hap Hl Hs Hsl Hi Hv Hfit. unfold addmul_at.
  rewrite (sub_limbs_spec ap i sn) by lia. cbn [mbind outcome_bind].
  pose proof (sub_limbs_spec s 0 sn ltac:(lia)) as E0. change (Z.of_nat 0) with 0 in E0. rewrite E0, drop_0. cbn [mbind outcome_bind].
  (* the array in four pieces *)
  set (a := take i ap). set (seg := take sn (drop i ap)). set (b := take (sa - sn - i) (drop (sn + i) ap)). set (z := drop sa ap).
  assert (La : length a = i) by (unfold a; rewrite length_take; lia).
  assert (Lseg : length seg = sn) by (unfold seg; rewrite length_take, length_drop; lia).
  assert (Lb : length b = (sa - sn - i)%nat) by (unfold b; rewrite length_take, length_drop; lia).
  assert (Eap : ap = a ++ seg ++ b ++ z).
  { unfold a, seg, b, z. rewrite <- (take_drop i ap) at 1. f_equal. rewrite <- (take_drop sn (drop i ap)) at 1. f_equal.
    rewrite drop_drop. replace (i + sn)%nat with (sn + i)%nat by lia.
    rewrite <- (take_drop (sa - sn - i) (drop (sn + i) ap)) at 1. f_equal. rewrite drop_drop. f_equal. lia. }
  assert (Esa : take sa ap = a ++ seg ++ b).
  { rewrite Eap, !app_assoc. apply take_app_length'. rewrite !length_app. lia. }
  rewrite Esa in Hap, Hfit. rewrite Esa. unfold limbs_ok in Hap. rewrite !Forall_app in Hap. destruct Hap as (Ha & Hseg & Hb).
  destruct (addmul_1_ok seg (take sn s) v Hseg Hs ltac:(rewrite length_take; lia) Hv) as (M1 & M2 & M3 & M4).
  destruct (mpn_addmul_1 seg (take sn s) v) as [seg' u]. cbn [fst snd] in *.
  rewrite copy_in_limbs by lia. cbn [mbind outcome_bind]. fold a.
  assert (Ed : drop (i + length seg') ap = b ++ z).
  { rewrite Eap, app_assoc. apply drop_app_length'. rewrite length_app. lia. }
  rewrite Ed. replace (Z.of_nat sn + Z.of_nat i) with (Z.of_nat (sn + i)) by lia.
  replace (Z.of_nat sa - Z.of_nat sn - Z.of_nat i) with (Z.of_nat (sa - sn - i)) by lia.
  rewrite sub_limbs_spec by (rewrite !length_app; lia). cbn [mbind outcome_bind].
  assert (Eb : take (sa - sn - i) (drop (sn + i) (a ++ seg' ++ b ++ z)) = b).
  { rewrite (app_assoc a), drop_app_length' by (rewrite length_app; lia). by apply take_app_length'. }
  rewrite Eb. destruct (add_1_ok b u Hb ltac:(lia) M3) as (A1 & A2 & A3). destruct (mpn_add_1 b u) as [b' c]. cbn [fst snd] in *.
  rewrite copy_in_limbs by (rewrite !length_app; lia). cbn [mbind outcome_bind].
  assert (Et : take (sn + i) (a ++ seg' ++ b ++ z) = a ++ seg').
  { rewrite app_assoc. apply take_app_length'. rewrite length_app. lia. }
  assert (Ez : drop (sn + i + length b') (a ++ seg' ++ b ++ z) = z).
  { rewrite !app_assoc. apply drop_app_length'. rewrite !length_app. lia. }
  rewrite Et, Ez. eexists. split; [reflexivity|].
  assert (Et2 : take sa ((a ++ seg') ++ b' ++ z) = a ++ seg' ++ b').
  { rewrite app_assoc, take_app_length' by (rewrite !length_app; lia). by rewrite app_assoc. }
  rewrite Et2. split; [unfold limbs_ok; rewrite !Forall_app; done|]. split.
  { rewrite Eap, !length_app. lia. }
  pose proof (limbs_val_bound (a ++ seg' ++ b') ltac:(unfold limbs_ok; rewrite !Forall_app; done)) as Hbound.
  rewrite !length_app in Hbound. replace (length a + (length seg' + length b'))%nat with sa in Hbound by lia.
  rewrite !limbs_val_app in *. rewrite La, M2, Lseg, Lb in *.
  assert (Hc : (limbs_val a + lpow i * (limbs_val seg' + lpow sn * limbs_val b')) + lpow sa * c
    = limbs_val a + lpow i * (limbs_val seg + lpow sn * limbs_val b) + lpow i * (limbs_val (take sn s) * v)).
  { replace (lpow sa) with (lpow i * (lpow sn * lpow (sa - sn - i))).
    2:{ unfold lpow. rewrite <- !Z.pow_add_r by lia. f_equal. lia. }
    nia. }
  assert (c = 0); [|subst c; lia]. pose proof (lpow_pos sa).
  assert (0 <= limbs_val a + lpow i * (limbs_val seg + lpow sn * limbs_val b) + lpow i * (limbs_val (take sn s) * v)).
  { pose proof (limbs_val_bound a Ha). pose proof (limbs_val_bound seg Hseg). pose proof (limbs_val_bound b Hb).
    pose proof (limbs_val_bound (take sn s) Hs). pose proof (lpow_pos i). pose proof (lpow_pos sn). nia. }
  nia.
Qed.

(** The end of both functions. *)
Lemma mg_finish_spec t a ap sa n Q M :
  mg_n t = Z.of_nat n -> mpz_rep (mg_mp t) M -> 0 <= Q < 2 * M ->
  limbs_ok (take sa ap) -> (sa <= length ap)%nat -> limbs_val (take sa ap) = lpow n * Q ->
  exists r, mg_finish t a ap (Z.of_nat sa) = Done r /\ mpz_rep r (if M <=? Q then Q - M else Q).
Proof using HAok.
  intros Hn HM HQ Hok Hl Hval. unfold mg_finish. rewrite Nat2Z.id. set (V := limbs_val (take sa ap)) in *.
  assert (Hlimbs : take sa ap = limbs V sa).
  { rewrite <- (limbs_limbs_val (take sa ap) Hok). f_equal. rewrite length_take. lia. }
  pose proof (limbs_val_bound _ Hok) as Hb. rewrite length_take in Hb. replace (min sa (length ap)) with sa in Hb by lia. fold V in Hb.
  destruct (trim_spec ap V sa Hlimbs) as (k & -> & Hk). cbn [mbind outcome_bind].
  pose proof (rep_nonneg ap V sa k Hlimbs Hl ltac:(lia) Hk) as R.
  pose proof (tdiv_q_2exp_ok (mkmpz (Z.of_nat k) ap) _ _ (mg_n t * mpz_bitsperlimb) R) as R2.
  rewrite Hn in R2. change mpz_bitsperlimb with 64 in R2. specialize (R2 ltac:(lia)).
  replace (Z.of_nat n * 64) with (64 * Z.of_nat n) in R2 by lia. fold (lpow n) in R2.
  clearbody V. subst V. rewrite (Z.mul_comm (lpow n)), Z.quot_mul in R2 by (pose proof (lpow_pos n); lia).
  rewrite Hn. change mpz_bitsperlimb with 64. replace (Z.of_nat n * 64) with (64 * Z.of_nat n) by lia.
  eexists. split; [reflexivity|]. pose proof (cmp_ok _ _ _ _ R2 HM) as Hc.
  destruct (Z.leb_spec 0 (mpz_cmp (mpz_tdiv_q_2exp (mkmpz (Z.of_nat k) ap) (mkmpz (Z.of_nat k) ap) (64 * Z.of_nat n)) (mg_mp t))),
    (Z.leb_spec M Q); try done; [by apply sub_ok|exfalso; lia|exfalso; lia].
Qed.
End gmp.
