(* ===== verification/ModalgOps.v ===== *)
(** * Montgomery multiplication and exponentiation are correct *)
From Stdlib Require Import ZArith Lia Znumtheory.
From stdpp Require Import prelude.
From S2P Require Import Prelude Mdblock Bits Mpz MpzSpec MpzOps MpzRaw Modalg.

(** ** Integers and their sizes *)
Lemma rep_size m x k : mpz_rep m x -> 0 <= x < lpow k -> 0 <= mp_size m <= Z.of_nat k /\ (msize m <= k)%nat
  /\ mp_size m = Z.of_nat (msize m).
Proof.
  intros [A L B T S] Hx. assert (Hs : 0 <= mp_size m) by lia.
  assert (Hm : mp_size m = Z.of_nat (msize m)) by (unfold msize; lia).
  assert ((msize m <= k)%nat); [|split_and!; lia]. destruct (Nat.le_gt_cases (msize m) k); [done|]. exfalso.
  apply T; [lia|]. apply (limb_small _ _ k); lia.
Qed.

Lemma rep_pos_size m x : mpz_rep m x -> 0 < x -> (0 < msize m)%nat.
Proof.
  intros [A L B T S] Hx. destruct (msize m); [|lia]. change (lpow 0) with 1 in B. lia.
Qed.

Lemma rep_zero m x : mpz_rep m x -> 0 <= x -> (mp_size m =? 0) = (x =? 0).
Proof.
  intros R Hx. destruct (Z.eqb_spec (mp_size m) 0) as [E|E], (Z.eqb_spec x 0) as [E2|E2]; try done; exfalso.
  - pose proof (rep_pos_size m x R ltac:(lia)). unfold msize in *. lia.
  - subst x. destruct (rep_size m 0 0 R) as [? _]; [change (lpow 0) with 1; lia|]. lia.
Qed.

Lemma rep_0 d : mpz_rep (mkmpz 0 d) 0.
Proof. split; change (msize (mkmpz 0 d)) with 0%nat; try done; lia. Qed.

(** ** One step of Montgomery's reduction *)
(** The multiple of [M] clears limb [i]. *)
Lemma mont_step V i M mi E e :
  V mod lpow i = 0 -> (mi * M + 1) mod 2 ^ 64 = 0 -> e mod 2 ^ 64 = E mod 2 ^ 64 ->
  (V + lpow i * (M * u64 ((limb V i + e) * mi)) + lpow i * E) mod lpow (S i) = 0.
Proof.
  intros HV Hmi He. pose proof (lpow_pos i) as Hp. apply Z.mod_divide in HV; [|lia]. destruct HV as [q ->].
  rewrite limb_div, Z.div_mul by lia. set (B := 2 ^ 64) in *. rewrite u64_mod. fold B. assert (0 < B) by done.
  pose proof (Z.div_mod q B ltac:(lia)) as Eq. set (k2 := q / B) in *.
  pose proof (Z.div_mod ((q mod B + e) * mi) B ltac:(lia)) as Eu. set (k1 := (q mod B + e) * mi / B) in *.
  set (u := ((q mod B + e) * mi) mod B) in *.
  pose proof (Z.div_mod e B ltac:(lia)) as E1. pose proof (Z.div_mod E B ltac:(lia)) as E2.
  set (k3 := E / B - e / B). assert (Ee : e = E - B * k3) by (unfold k3; lia).
  apply Z.mod_divide in Hmi; [|lia]. destruct Hmi as [k4 Hk4].
  rewrite lpow_S. fold B.
  replace (q * lpow i + lpow i * (M * u) + lpow i * E) with (((q + E) * k4 - M * mi * (k2 + k3) - M * k1) * (lpow i * B)).
  2:{ transitivity (lpow i * (q + M * u + E)); [|ring].
      replace (q mod B) with (q - B * k2) in Eu by lia. replace u with ((q - B * k2 + e) * mi - B * k1) by lia. rewrite Ee.
      transitivity (lpow i * (B * ((q + E) * k4) - B * (M * mi * (k2 + k3) + M * k1))); [ring|]. f_equal.
      replace (B * ((q + E) * k4)) with ((q + E) * (mi * M + 1)) by (rewrite Hk4; ring). ring. }
  apply Z.mod_mul. pose proof (lpow_pos i). lia.
Qed.

(** Odd moduli are prime to powers of two. *)
Lemma odd_rel_prime M k : Z.odd M = true -> 0 <= k -> Z.gcd M (2 ^ k) = 1.
Proof.
  intros Ho Hk. apply Z.coprime_pow_r; [done|]. unfold Z.coprime. rewrite <- Z.gcd_mod_l, Zmod_odd, Ho. done.
Qed.

Lemma mod_cancel M k x y :
  Z.odd M = true -> 0 < M -> 0 <= k -> (x * 2 ^ k) mod M = (y * 2 ^ k) mod M -> x mod M = y mod M.
Proof.
  intros Ho HM Hk E. pose proof (odd_rel_prime M k Ho Hk) as Hg.
  assert (Hd : (M | 2 ^ k * (x - y))).
  { apply Z.mod_divide; [lia|]. replace (2 ^ k * (x - y)) with (x * 2 ^ k - y * 2 ^ k) by ring.
    rewrite Zminus_mod, E, Z.sub_diag. by apply Z.mod_0_l; lia. }
  apply Z.gauss in Hd; [|done]. destruct Hd as [q Hq]. replace x with (y + q * M) by lia. by rewrite Z.mod_add by lia.
Qed.

(** ** The precomputed values *)
Record mg_ok (t : montgom) (M : Z) (n : nat) : Prop := {
  mgo_odd : Z.odd M = true;
  mgo_pos : 0 < M < lpow n;
  mgo_n : mg_n t = Z.of_nat n;
  mgo_mp : mpz_rep (mg_mp t) M;
  mgo_size : msize (mg_mp t) = n;
  mgo_mi : (mg_mi t * M + 1) mod 2 ^ 64 = 0;
  mgo_rm : mpz_rep (mg_rm t) (lpow n mod M);
  mgo_r2 : mpz_rep (mg_r2 t) ((lpow n * lpow n) mod M);
  mgo_mr : mpz_rep (mg_mr t) (M * lpow n)
}.

Section ops.
Context `{HG : !Gmp} `{HGok : !GmpOK} `{HA : !GmpArith} `{HAok : !GmpArithOK}.
Context (t : montgom) (M : Z) (n : nat) (T : mg_ok t M n).

(** The array holds [S] plus a multiple of the modulus, and its low [i] limbs
    are zero. *)
Definition mont_inv (i : nat) (ap : list Z) (S0 : Z) : Prop :=
  limbs_ok (take (2 * n + 1) ap) /\ (2 * n + 1 <= length ap)%nat
  /\ limbs_val (take (2 * n + 1) ap) mod lpow i = 0
  /\ exists U, limbs_val (take (2 * n + 1) ap) = S0 + U * M /\ 0 <= U < lpow i.

Lemma inv_read i ap S0 : mont_inv i ap S0 -> (i < 2 * n + 1)%nat ->
  rd ap (Z.of_nat i) = Done (limb (limbs_val (take (2 * n + 1) ap)) i).
Proof using.
  clear. intros (H1 & H2 & _) Hi. apply (take_limbs_at _ _ (2 * n + 1)); [|done].
  rewrite <- (limbs_limbs_val (take (2 * n + 1) ap) H1) at 1. f_equal. rewrite length_take. lia.
Qed.

(** Adding the multiple of [M] for limb [i], and then [E * 2^(64 i)]. *)
Lemma mont_add i ap S0 u : mont_inv i ap S0 -> (i < n)%nat -> 0 <= u < 2 ^ 64 ->
  limbs_val (take (2 * n + 1) ap) + lpow i * (M * u) < lpow (2 * n + 1) ->
  exists ap', addmul_at ap (Z.of_nat i) (mp_d (mg_mp t)) (mg_n t) u (mg_n t - Z.of_nat i + 1) = Done ap'
    /\ limbs_ok (take (2 * n + 1) ap') /\ length ap' = length ap
    /\ limbs_val (take (2 * n + 1) ap') = limbs_val (take (2 * n + 1) ap) + lpow i * (M * u).
Proof using T HAok.
  intros (H1 & H2 & _) Hi Hu Hfit. pose proof (mgo_mp _ _ _ T) as Rm. pose proof (mgo_size _ _ _ T) as Em.
  pose proof (val_take_limbs _ _ Rm) as Vm. pose proof (rep_limbs_ok _ _ Rm) as Om. rewrite Em in Vm, Om.
  pose proof (mgo_pos _ _ _ T) as HM. rewrite Z.abs_eq in Vm by lia. pose proof (mr_alloc _ _ Rm) as Al. rewrite Em in Al.
  rewrite (mgo_n _ _ _ T).
  destruct (addmul_at_spec ap i (mp_d (mg_mp t)) n u (2 * n + 1) H1 H2 Om Al ltac:(lia) Hu) as (ap' & E & A1 & A2 & A3).
  { rewrite Vm. done. }
  exists ap'. split_and!; try done.
  - rewrite <- E. f_equal. lia.
  - by rewrite A3, Vm.
Qed.

Lemma lpow_add i j : lpow (i + j) = lpow i * lpow j.
Proof using. clear. unfold lpow. rewrite <- Z.pow_add_r by lia. f_equal. lia. Qed.

Lemma mreduce_loop_spec i ap S0 fuel :
  0 <= S0 < M * lpow n -> mont_inv i ap S0 -> (i <= n)%nat -> (n - i <= fuel)%nat ->
  exists ap', mreduce_loop fuel t (Z.of_nat i) ap = Done ap' /\ mont_inv n ap' S0.
Proof using T HAok.
  intros HS. revert i ap. induction fuel as [|fuel IH]; intros i ap Hinv Hi Hf; cbn [mreduce_loop]; rewrite (mgo_n _ _ _ T).
  { destruct (Z.ltb_spec (Z.of_nat i) (Z.of_nat n)); [lia|]. replace i with n in Hinv by lia. by exists ap. }
  destruct (Z.ltb_spec (Z.of_nat i) (Z.of_nat n)) as [Hlt|]; [|replace i with n in Hinv by lia; by exists ap].
  rewrite (inv_read i ap S0 Hinv) by lia. cbn [mbind outcome_bind].
  set (V := limbs_val (take (2 * n + 1) ap)). set (u := u64 (limb V i * mg_mi t)).
  assert (Hu : 0 <= u < 2 ^ 64) by (unfold u; rewrite u64_mod; apply Z.mod_pos_bound; lia).
  pose proof (mgo_pos _ _ _ T) as HM. pose proof Hinv as (_ & Hl & Hz & U & HV & HU). fold V in Hz, HV.
  assert (HU' : 0 <= U + lpow i * u < lpow (S i)) by (rewrite lpow_S; pose proof (lpow_pos i); nia).
  pose proof (lpow_mono (S i) n ltac:(lia)) as Hmono. pose proof (lpow_pos n) as Hp.
  assert (Hfit : V + lpow i * (M * u) < lpow (2 * n + 1)).
  { replace (V + lpow i * (M * u)) with (S0 + (U + lpow i * u) * M) by (rewrite HV; ring).
    replace (2 * n + 1)%nat with (n + n + 1)%nat by lia. rewrite !lpow_add. change (lpow 1) with (2 ^ 64). nia. }
  destruct (mont_add i ap S0 u Hinv ltac:(lia) Hu Hfit) as (ap' & E & A1 & A2 & A3).
  rewrite <- (mgo_n _ _ _ T), E. cbn [mbind outcome_bind]. fold V in A3.
  replace (Z.of_nat i + 1) with (Z.of_nat (S i)) by lia. apply IH; [|lia|lia]. split_and!; [done|lia| |].
  - pose proof (mont_step V i M (mg_mi t) 0 0 Hz (mgo_mi _ _ _ T) eq_refl) as Hm.
    rewrite Z.add_0_r, Z.mul_0_r, Z.add_0_r in Hm. fold u in Hm. by rewrite A3.
  - exists (U + lpow i * u). split; [rewrite A3, HV; ring|done].
Qed.

(** The end: one subtraction gives the residue. *)
Lemma mont_end a ap S0 :
  0 <= S0 < M * lpow n -> mont_inv n ap S0 ->
  exists r R, mg_finish t a ap (2 * mg_n t + 1) = Done r /\ mpz_rep r R /\ 0 <= R < M /\ (R * lpow n) mod M = S0 mod M.
Proof using T HAok.
  intros HS (H1 & H2 & H3 & U & HV & HU). pose proof (mgo_pos _ _ _ T) as HM. pose proof (lpow_pos n) as Hp.
  apply Z.mod_divide in H3; [|lia]. destruct H3 as [Q HQ].
  assert (HQb : 0 <= Q < 2 * M) by nia.
  destruct (mg_finish_spec t a ap (2 * n + 1) n Q M (mgo_n _ _ _ T) (mgo_mp _ _ _ T) HQb H1 H2 ltac:(lia)) as (r & E & R).
  exists r, (if M <=? Q then Q - M else Q). rewrite (mgo_n _ _ _ T).
  replace (2 * Z.of_nat n + 1) with (Z.of_nat (2 * n + 1)) by lia. split_and!; [done|done|destruct (Z.leb_spec M Q); lia|destruct (Z.leb_spec M Q); lia|].
  assert (E1 : (Q * lpow n) mod M = S0 mod M) by (rewrite <- HQ, HV; apply Z.mod_add; lia).
  destruct (Z.leb_spec M Q); [|done]. rewrite <- E1. replace ((Q - M) * lpow n) with (Q * lpow n + (- lpow n) * M) by ring.
  apply Z.mod_add. lia.
Qed.

(** [mpz_mreduce] divides by [2^(64 n)] modulo [M]. *)
Lemma mreduce_spec a x X :
  mpz_rep x X -> 0 <= X < M * lpow n ->
  exists r R, mpz_mreduce t a x = Done r /\ mpz_rep r R /\ 0 <= R < M /\ (R * lpow n) mod M = X mod M.
Proof using T HAok HGok.
  intros Hx HX. unfold mpz_mreduce. pose proof (mgo_pos _ _ _ T) as HM. pose proof (lpow_pos n) as Hp.
  destruct (rep_size x X (2 * n) Hx) as (S1 & S2 & S3).
  { replace (2 * n)%nat with (n + n)%nat by lia. rewrite lpow_add. nia. }
  rewrite (mgo_n _ _ _ T). destruct (Z.leb_spec 0 (mp_size x)), (Z.leb_spec (mp_size x) (2 * Z.of_nat n)); try lia.
  cbn [andb assertM mbind outcome_bind]. pose proof (cmp_ok _ _ _ _ Hx (mgo_mr _ _ _ T)) as Hc.
  destruct (Z.ltb_spec (mpz_cmp x (mg_mr t)) 0); [|exfalso; lia]. cbn [assertM mbind outcome_bind].
  set (a1 := grow a (2 * Z.of_nat n + 1)).
  assert (La : 2 * Z.of_nat n + 1 <= Z.of_nat (length (mp_d a1))).
  { unfold a1. destruct (grow_spec a (2 * Z.of_nat n + 1)) as (d & -> & Hd & _). exact Hd. }
  destruct (set_ok a1 x X Hx) as [R1 L1]. set (a2 := mpz_set a1 x) in *.
  destruct (rep_size a2 X (2 * n) R1) as (T1 & T2 & T3).
  { replace (2 * n)%nat with (n + n)%nat by lia. rewrite lpow_add. nia. }
  rewrite T3. rewrite copy_in_limbs by (rewrite length_replicate; lia). cbn [mbind outcome_bind].
  set (ap := take (msize a2) (mp_d a2) ++ _).
  assert (Etake : take (2 * n + 1) ap = take (msize a2) (mp_d a2) ++ replicate (2 * n + 1 - msize a2) 0).
  { unfold ap. rewrite app_assoc. replace (Z.to_nat (2 * Z.of_nat n + 1 - Z.of_nat (msize a2))) with (2 * n + 1 - msize a2)%nat by lia.
    apply take_app_length'. rewrite length_app, length_take, length_replicate. lia. }
  assert (Hinv : mont_inv 0 ap X).
  { split_and!; rewrite ?Etake.
    - apply Forall_app. split; [by apply (rep_limbs_ok a2 X)|]. apply Forall_replicate. lia.
    - unfold ap. rewrite !length_app, length_take, length_replicate, length_drop. lia.
    - by rewrite Z.mod_1_r.
    - exists 0. rewrite limbs_val_app, limbs_val_zero, (val_take_limbs a2 X R1). change (lpow 0) with 1. split; lia. }
  rewrite Nat2Z.id. destruct (mreduce_loop_spec 0 ap X n HX Hinv ltac:(lia) ltac:(lia)) as (ap' & E & Hinv').
  change (Z.of_nat 0) with 0 in E. rewrite E. cbn [mbind outcome_bind].
  destruct (mont_end a2 ap' X HX Hinv') as (r & R & Er & Hr & HR & Hm). rewrite (mgo_n _ _ _ T) in Er. by exists r, R.
Qed.

(** ** Multiplication *)
Section mul.
Context (x y : mpz) (X Y : Z) (Hx : mpz_rep x X) (Hy : mpz_rep y Y).
Context (HX : 0 < X < lpow n) (HY : 0 < Y < lpow n).

Lemma mmul_digit i : (i < n)%nat ->
  (if Z.of_nat i <? mp_size x then rd (mp_d x) (Z.of_nat i) else Done 0) = Done (limb X i).
Proof using Hx HX.
  clear - Hx HX. intros Hi. destruct (rep_size x X n Hx ltac:(lia)) as (S1 & S2 & S3). rewrite S3.
  destruct (Z.ltb_spec (Z.of_nat i) (Z.of_nat (msize x))) as [Hlt|Hge].
  - rewrite (mpz_rep_read x X i Hx) by lia. by rewrite Z.abs_eq by lia.
  - f_equal. symmetry. apply (limb_small X i (msize x)); [|lia]. pose proof (mr_bound _ _ Hx). lia.
Qed.

Lemma mmul_first : rd (mp_d y) 0 = Done (limb Y 0).
Proof using Hy HY.
  clear - Hy HY. pose proof (rep_pos_size y Y Hy ltac:(lia)). pose proof (mpz_rep_read y Y 0 Hy ltac:(lia)) as E.
  change (Z.of_nat 0) with 0 in E. by rewrite E, Z.abs_eq by lia.
Qed.

Lemma mmul_loop_spec i ap fuel :
  mont_inv i ap ((X mod lpow i) * Y) -> (i <= n)%nat -> (n - i <= fuel)%nat ->
  exists ap', mmul_loop fuel t x y (2 * Z.of_nat n + 1) (Z.of_nat i) ap = Done ap' /\ mont_inv n ap' (X * Y).
Proof using T HAok Hx Hy HX HY.
  revert i ap. induction fuel as [|fuel IH]; intros i ap Hinv Hi Hf; cbn [mmul_loop]; rewrite (mgo_n _ _ _ T).
  { destruct (Z.ltb_spec (Z.of_nat i) (Z.of_nat n)); [lia|]. replace i with n in Hinv by lia.
    rewrite Z.mod_small in Hinv by lia. by exists ap. }
  destruct (Z.ltb_spec (Z.of_nat i) (Z.of_nat n)) as [Hlt|].
  2:{ replace i with n in Hinv by lia. rewrite Z.mod_small in Hinv by lia. by exists ap. }
  rewrite mmul_digit by lia. cbn [mbind outcome_bind]. rewrite (inv_read i ap _ Hinv) by lia. cbn [mbind outcome_bind].
  rewrite mmul_first. cbn [mbind outcome_bind]. set (V := limbs_val (take (2 * n + 1) ap)).
  set (xi := limb X i). set (u := u64 _).
  assert (Hu : 0 <= u < 2 ^ 64) by (unfold u; rewrite u64_mod; apply Z.mod_pos_bound; lia).
  pose proof (limb_range X i) as Hxi. fold xi in Hxi.
  pose proof (mgo_pos _ _ _ T) as HM. pose proof Hinv as (_ & Hl & Hz & U & HV & HU). fold V in Hz, HV.
  pose proof (lpow_pos i) as Hpi. pose proof (lpow_pos n) as Hp. pose proof (lpow_mono (S i) n ltac:(lia)) as Hmono.
  pose proof (mod_lpow_S X i) as Emod. fold xi in Emod. pose proof (Z.mod_pos_bound X (lpow i) Hpi) as HXi.
  pose proof (Z.mod_pos_bound X (lpow (S i)) (lpow_pos (S i))) as HXS.
  assert (HU' : 0 <= U + lpow i * u < lpow (S i)) by (rewrite lpow_S; nia).
  assert (Hbig : forall w, w <= lpow (S i) * Y + lpow (S i) * M -> w < lpow (2 * n + 1)).
  { intros w Hw. eapply Z.le_lt_trans; [exact Hw|]. replace (2 * n + 1)%nat with (n + n + 1)%nat by lia. rewrite !lpow_add.
    change (lpow 1) with (2 ^ 64). assert (lpow (S i) * Y + lpow (S i) * M <= 2 * (lpow n * lpow n)) by nia. nia. }
  assert (HV1 : V + lpow i * (M * u) = (X mod lpow i) * Y + (U + lpow i * u) * M) by (rewrite HV; ring).
  destruct (mont_add i ap _ u Hinv ltac:(lia) Hu) as (ap1 & E1 & A1 & A2 & A3).
  { fold V. apply Hbig. rewrite HV1. nia. }
  rewrite <- (mgo_n _ _ _ T), E1. cbn [mbind outcome_bind]. fold V in A3.
  destruct (rep_size y Y n Hy ltac:(lia)) as (S1 & S2 & S3). pose proof (mr_alloc _ _ Hy) as Ay.
  pose proof (val_take_limbs y Y Hy) as Vy. rewrite Z.abs_eq in Vy by lia.
  assert (Hfit : limbs_val (take (2 * n + 1) ap1) + lpow i * (limbs_val (take (msize y) (mp_d y)) * xi) < lpow (2 * n + 1)).
  { rewrite A3, Vy, HV1. apply Hbig. nia. }
  destruct (addmul_at_spec ap1 i (mp_d y) (msize y) xi (2 * n + 1) A1 ltac:(lia) (rep_limbs_ok y Y Hy) Ay ltac:(lia) Hxi Hfit)
    as (ap2 & E2 & B1 & B2 & B3).
  rewrite S3, (mgo_n _ _ _ T).
  replace (2 * Z.of_nat n + 1 - Z.of_nat (msize y) - Z.of_nat i) with (Z.of_nat (2 * n + 1) - Z.of_nat (msize y) - Z.of_nat i) by lia.
  rewrite E2. cbn [mbind outcome_bind]. replace (Z.of_nat i + 1) with (Z.of_nat (S i)) by lia.
  rewrite A3, Vy in B3. apply IH; [|lia|lia]. split_and!; [done|lia| |].
  - rewrite B3. replace (V + lpow i * (M * u) + lpow i * (Y * xi)) with (V + lpow i * (M * u) + lpow i * (xi * Y)) by ring.
    apply mont_step; [done|apply T|]. rewrite limb_div. change (lpow 0) with 1. rewrite Z.div_1_r.
    by rewrite Zmult_mod_idemp_r.
  - exists (U + lpow i * u). split; [|done]. rewrite B3, HV1, Emod. ring.
Qed.
End mul.

(** [mpz_mmul] multiplies and divides by [2^(64 n)] modulo [M]. *)
Lemma mmul_spec rp x y X Y :
  mpz_rep x X -> mpz_rep y Y -> 0 <= X < lpow n -> 0 <= Y < lpow n -> X * Y < M * lpow n ->
  exists r R, mpz_mmul t rp x y = Done r /\ mpz_rep r R /\ 0 <= R < M /\ (R * lpow n) mod M = (X * Y) mod M.
Proof using T HAok HGok.
  intros Hx Hy HX HY HXY. unfold mpz_mmul. pose proof (mgo_pos _ _ _ T) as HM.
  destruct (rep_size x X n Hx HX) as (S1 & _). destruct (rep_size y Y n Hy HY) as (S2 & _). rewrite (mgo_n _ _ _ T).
  destruct (Z.leb_spec 0 (mp_size x)), (Z.leb_spec (mp_size x) (Z.of_nat n)); try lia.
  destruct (Z.leb_spec 0 (mp_size y)), (Z.leb_spec (mp_size y) (Z.of_nat n)); try lia. cbn [andb assertM mbind outcome_bind].
  rewrite (rep_zero x X Hx), (rep_zero y Y Hy) by lia.
  destruct ((X =? 0) || (Y =? 0)) eqn:E0.
  { eexists _, 0. split; [reflexivity|]. split; [apply rep_0|]. split; [lia|]. rewrite Z.mul_0_l.
    apply orb_true_iff in E0 as [E0|E0]; apply Z.eqb_eq in E0; subst; by rewrite ?Z.mul_0_l, ?Z.mul_0_r. }
  apply orb_false_iff in E0 as [E1 E2]. apply Z.eqb_neq in E1, E2.
  destruct (grow_spec rp (2 * Z.of_nat n + 1)) as (d & -> & Hd & _). cbn [mp_d].
  pose proof (copy_in_limbs d 0 (replicate (Z.to_nat (2 * Z.of_nat n + 1)) 0)) as Ec. rewrite length_replicate in Ec.
  change (Z.of_nat 0) with 0 in Ec. rewrite Ec by lia. cbn [mbind outcome_bind]. rewrite take_0. cbn [app].
  set (ap := replicate _ 0 ++ _).
  assert (Etake : take (2 * n + 1) ap = replicate (2 * n + 1) 0).
  { unfold ap. replace (Z.to_nat (2 * Z.of_nat n + 1)) with (2 * n + 1)%nat by lia. apply take_app_length'. by rewrite length_replicate. }
  assert (Hinv : mont_inv 0 ap ((X mod lpow 0) * Y)).
  { split_and!; rewrite ?Etake, ?limbs_val_zero; [apply Forall_replicate; lia| |done|].
    - unfold ap. rewrite length_app, length_replicate, length_drop. lia.
    - exists 0. change (lpow 0) with 1. rewrite Z.mod_1_r. lia. }
  destruct (mmul_loop_spec x y X Y Hx Hy ltac:(lia) ltac:(lia) 0 ap n Hinv ltac:(lia) ltac:(lia)) as (ap' & E & Hinv').
  change (Z.of_nat 0) with 0 in E. rewrite Nat2Z.id, E. cbn [mbind outcome_bind].
  destruct (mont_end (mkmpz (mp_size rp) d) ap' (X * Y) ltac:(nia) Hinv') as (r & R & Er & Hr). rewrite (mgo_n _ _ _ T) in Er. by exists r, R.
Qed.

(** ** Exponentiation *)
(** [a] is [v] in Montgomery's form. *)
Definition mform (a : mpz) (v : Z) : Prop := exists A, mpz_rep a A /\ 0 <= A < M /\ A mod M = (v * lpow n) mod M.

Lemma mform_eq a v w : mform a v -> v mod M = w mod M -> mform a w.
Proof using. clear. intros (A & R & HA & E) Hv. exists A. split_and!; try done; try lia.
  rewrite E, <- Zmult_mod_idemp_l, Hv. by rewrite Zmult_mod_idemp_l. Qed.

Lemma mmul_mform rp a b v w :
  mform a v -> mform b w -> exists r, mpz_mmul t rp a b = Done r /\ mform r (v * w).
Proof using T HAok HGok.
  intros (A & Ra & HA' & Ea) (B & Rb & HB & Eb). pose proof (mgo_pos _ _ _ T) as HM.
  destruct (mmul_spec rp a b A B Ra Rb ltac:(lia) ltac:(lia) ltac:(nia)) as (r & R & E & Hr & HR & Hm).
  exists r. split; [done|]. exists R. split_and!; try done; try lia.
  apply (mod_cancel M (64 * Z.of_nat n)); [apply T|lia|lia|]. fold (lpow n). rewrite Hm, Zmult_mod, Ea, Eb, <- Zmult_mod.
  f_equal. ring.
Qed.

Lemma powm_loop_spec i mmr gm e a g E v :
  mform gm g -> mpz_rep e E -> 0 <= E -> mform a v -> v mod M = g ^ (E .>> Z.of_nat i) mod M ->
  exists r, powm_loop i t mmr gm e a = Done r /\ mform r (g ^ E).
Proof using T HAok HGok.
  intros Hgm He HE. revert a v. induction i as [|i IH]; intros a v Ha Hv; cbn [powm_loop].
  { exists a. split; [done|]. by apply (mform_eq a v). }
  destruct (mmul_mform mmr a a v v Ha Ha) as (a1 & -> & Ha1). cbn [mbind outcome_bind].
  rewrite (getbit_spec e E (Z.of_nat i) He) by lia. cbn [mbind outcome_bind].
  assert (Hs : E .>> Z.of_nat i = 2 * (E .>> Z.of_nat (S i)) + Z.b2z (Z.testbit E (Z.of_nat i))).
  { rewrite !Z.shiftr_div_pow2 by lia. rewrite Nat2Z.inj_succ, Z.pow_succ_r, (Z.mul_comm 2 (2 ^ Z.of_nat i)), <- Z.div_div by lia.
    rewrite Z.testbit_spec' by lia. apply Z.div_mod. lia. }
  assert (Hn : 0 <= E .>> Z.of_nat (S i)) by (by apply Z.shiftr_nonneg).
  assert (Hvv : (v * v) mod M = g ^ (2 * (E .>> Z.of_nat (S i))) mod M).
  { rewrite Zmult_mod, Hv, <- Zmult_mod, <- Z.pow_add_r by lia. do 2 f_equal. lia. }
  destruct (Z.testbit E (Z.of_nat i)) eqn:Eb; cbn [Z.b2z Z.eqb negb] in *.
  - destruct (mmul_mform mmr a1 gm (v * v) g Ha1 Hgm) as (a2 & -> & Ha2). cbn [mbind outcome_bind].
    apply (IH a2 _ Ha2). rewrite Hs, Z.pow_add_r, Z.pow_1_r by lia. by rewrite Zmult_mod, Hvv, <- Zmult_mod.
  - cbn [mbind outcome_bind]. apply (IH a1 _ Ha1). by rewrite Hs, Z.add_0_r.
Qed.

Lemma powm_spec mmr gm a g e G E :
  mpz_rep g G -> 0 <= G < lpow n -> mpz_rep e E -> 0 <= E ->
  exists r, montgom_powm t mmr gm a g e = Done r /\ mpz_rep r (G ^ E mod M).
Proof using T HAok HGok.
  intros Hg HGb He HE. unfold montgom_powm. pose proof (mgo_pos _ _ _ T) as HM. pose proof (lpow_pos n) as Hp.
  pose proof (Z.mod_pos_bound (lpow n * lpow n) M ltac:(lia)) as Hr2. pose proof (Z.mod_pos_bound (lpow n) M ltac:(lia)) as Hrm.
  destruct (mmul_spec gm g (mg_r2 t) G _ Hg (mgo_r2 _ _ _ T) HGb ltac:(lia) ltac:(nia)) as (gm1 & R & -> & Rg & HR & Hm).
  cbn [mbind outcome_bind].
  assert (Fg : mform gm1 G).
  { exists R. split_and!; try done; try lia. apply (mod_cancel M (64 * Z.of_nat n)); [apply T|lia|lia|]. fold (lpow n).
    rewrite Hm, Zmult_mod_idemp_r. f_equal. ring. }
  destruct (set_ok a (mg_rm t) _ (mgo_rm _ _ _ T)) as [Ra _].
  assert (Fa : mform (mpz_set a (mg_rm t)) 1).
  { exists (lpow n mod M). split_and!; try done; try lia. by rewrite Z.mod_mod, Z.mul_1_l by lia. }
  rewrite (sizeinbase2_spec e E He). cbn [mbind outcome_bind]. set (nb := if E =? 0 then 0 else _).
  destruct (powm_loop_spec (Z.to_nat nb) mmr gm1 e _ G E 1 Fg He HE Fa) as (a1 & -> & A & RA & HA' & EA).
  { f_equal. rewrite <- (Z.pow_0_r G). f_equal. symmetry. unfold nb. destruct (Z.eqb_spec E 0) as [->|Hne]; [apply Z.shiftr_0_l|].
    pose proof (Z.log2_nonneg (Z.abs E)). rewrite Z2Nat.id by lia. apply Z.shiftr_eq_0; [lia|].
    rewrite Z.abs_eq by lia. lia. }
  cbn [mbind outcome_bind]. destruct (mreduce_spec a1 a1 A RA ltac:(nia)) as (r & R' & -> & Rr & HR' & Hm').
  exists r. split; [done|]. replace (G ^ E mod M) with R'; [done|]. rewrite <- (Z.mod_small R' M) by lia.
  apply (mod_cancel M (64 * Z.of_nat n)); [apply T|lia|lia|]. fold (lpow n). by rewrite Hm'.
Qed.
End ops.
