(* ===== verification/ModalgProps.v ===== *)
(** * Theorems on modular arithmetic

    With them comes a concrete version of the functions of GMP that the code
    calls, which shows that the assumptions on them can be met. *)
From Stdlib Require Import ZArith Lia.
From stdpp Require Import prelude.
From S2P Require Import Prelude Mdblock Bits Mpz MpzSpec MpzOps MpzRaw Modalg ModalgOps.

Lemma setbit_0 n : 0 <= n -> Z.setbit 0 n = 2 ^ n.
Proof. intros Hn. by rewrite Z.setbit_spec', Z.lor_0_l. Qed.

Section gmp.
Context `{HG : !Gmp} `{HGok : !GmpOK} `{HA : !GmpArith} `{HAok : !GmpArithOK}.

Lemma power_ok n : 0 <= n -> mpz_rep (mpz_setbit (bigint_ui 0) n) (2 ^ n).
Proof using HAok.
  intros Hn. rewrite <- setbit_0 by done. apply setbit_ok; [|lia|done]. apply set_ui_ok. lia.
Qed.

Lemma invert0_done a b A B : mpz_rep a A -> mpz_rep b B -> exists r, _invert0 a b = Done r.
Proof using HAok.
  intros Ha Hb. unfold _invert0. destruct (gcdext_ok a b A B Ha Hb) as (s & t & R1 & R2 & _).
  destruct (mpz_gcdext a b) as [g r]. cbn [fst snd] in *.
  destruct (Z.eqb_spec (mp_size g) 1) as [E|E]; cbn [negb]; [|cbn; eauto].
  pose proof (mpz_rep_read g _ 0 R1) as Hr. change (Z.of_nat 0) with 0 in Hr. rewrite Hr by (unfold msize; lia). cbn. eauto.
Qed.

Lemma odd_bit M : Z.odd M = true -> Z.testbit M 0 = true.
Proof using. clear. intros H. by rewrite Z.bit0_odd. Qed.

(** ** Montgomery's method *)
Lemma montgom_set_spec m M :
  mpz_rep m M -> 0 < M -> Z.odd M = true -> exists t, montgom_set m = Done t /\ mg_ok t M (msize m).
Proof using HAok.
  intros Hm HM Ho. unfold montgom_set. pose proof (rep_pos_size m M Hm HM) as Hsz.
  assert (Hmp : mp_size m = Z.of_nat (msize m)) by (pose proof (mr_sign _ _ Hm); unfold msize in *; lia).
  unfold mpz_sgn. destruct (Z.ltb_spec 0 (Z.sgn (mp_size m))); [|lia].
  rewrite (getbit_spec m M 0 Hm), (odd_bit M Ho) by lia. cbn [mbind outcome_bind Z.b2z Z.eqb negb assertM].
  change mpz_bitsperlimb with 64. set (n := msize m) in *. rewrite Hmp.
  assert (Rb : mpz_rep montgom_b (2 ^ 64)) by (apply (mul_2exp_ok mpz_null (bigint_ui 1) 1); [apply set_ui_ok; lia|done]).
  pose proof (power_ok (Z.of_nat n * 64) ltac:(lia)) as Rr.
  pose proof (power_ok (Z.of_nat n * 2 * 64) ltac:(lia)) as Rr2.
  replace (2 ^ (Z.of_nat n * 64)) with (lpow n) in Rr by (unfold lpow; f_equal; lia).
  replace (2 ^ (Z.of_nat n * 2 * 64)) with (lpow n * lpow n) in Rr2 by (unfold lpow; rewrite <- Z.pow_add_r by lia; f_equal; lia).
  pose proof (mod_ok mpz_null _ _ _ _ Rr Hm HM) as Rm.
  destruct (invert0_done _ m _ M Rm Hm) as (ri & ->). cbn [mbind outcome_bind].
  eexists. split; [reflexivity|]. pose proof (mr_bound _ _ Hm) as Hb. fold n in Hb. split; cbn [mg_n mg_mp mg_mi mg_rm mg_r2 mg_mr]; try done.
  - lia.
  - destruct (invert_ok mpz_null m _ M _ Hm Rb ltac:(lia) (odd_rel_prime M 64 Ho ltac:(lia))) as (I & RI & HI & EI).
    pose proof (sub_ok (mpz_invert mpz_null m montgom_b) _ _ _ _ Rb RI) as Rs.
    rewrite (get_ui_ok _ _ Rs) by lia. rewrite u64_mod.
    rewrite <- Zplus_mod_idemp_l, Zmult_mod_idemp_l, Zplus_mod_idemp_l.
    pose proof (Z.div_mod (M * I) (2 ^ 64) ltac:(lia)) as Ed. rewrite EI in Ed.
    replace ((2 ^ 64 - I) * M + 1) with ((M - M * I / 2 ^ 64) * 2 ^ 64) by lia. apply Z.mod_mul. lia.
  - by apply mod_ok.
  - apply mul_ok; done.
Qed.

(** ** Barrett's method *)
Record barrett_ok (t : barrett) (M : Z) (k : nat) : Prop := {
  bo_k : b_k t = Z.of_nat (S k);
  bo_mp : mpz_rep (b_mp t) M;
  bo_M : lpow k <= M < lpow (S k);
  bo_bk1 : mpz_rep (b_bk1 t) (lpow (S (S k)));
  bo_u : mpz_rep (b_u t) (lpow (S k + S k) / M)
}.

Lemma barrett_set_spec m M :
  mpz_rep m M -> 0 < M -> Z.odd M = true -> exists t k, barrett_set m = Done t /\ barrett_ok t M k.
Proof using HAok.
  intros Hm HM Ho. unfold barrett_set. pose proof (rep_pos_size m M Hm HM) as Hsz.
  assert (Hmp : mp_size m = Z.of_nat (msize m)) by (pose proof (mr_sign _ _ Hm); unfold msize in *; lia).
  unfold mpz_sgn. destruct (Z.ltb_spec 0 (Z.sgn (mp_size m))); [|lia]. cbn [assertM mbind outcome_bind].
  rewrite (getbit_spec m M 0 Hm), (odd_bit M Ho) by lia. cbn [mbind outcome_bind Z.b2z Z.eqb negb assertM].
  rewrite (sizeinbase2_spec m M Hm). destruct (Z.eqb_spec M 0); [lia|]. cbn [mbind outcome_bind]. rewrite Z.abs_eq by lia.
  change mpz_bitsperlimb with 64. pose proof (Z.log2_nonneg M). pose proof (Z.log2_spec M HM) as [L1 L2].
  set (k := Z.to_nat (Z.log2 M / 64)).
  assert (Hk : (Z.log2 M + 1 + 64 - 1) / 64 = Z.of_nat (S k)).
  { replace (Z.log2 M + 1 + 64 - 1) with (Z.log2 M + 1 * 64) by lia. rewrite Z.div_add by lia.
    pose proof (Z.div_pos (Z.log2 M) 64 ltac:(lia) ltac:(lia)). unfold k. lia. }
  rewrite Hk. exists (mkbarrett m (Z.of_nat (S k)) (mpz_setbit (bigint_ui 0) ((Z.of_nat (S k) + 1) * 64))
    (mpz_tdiv_q (mpz_setbit (bigint_ui 0) (2 * 64 * Z.of_nat (S k))) (mpz_setbit (bigint_ui 0) (2 * 64 * Z.of_nat (S k))) m)), k.
  split; [done|]. pose proof (Z.div_mod (Z.log2 M) 64 ltac:(lia)) as Ed. pose proof (Z.mod_pos_bound (Z.log2 M) 64 ltac:(lia)).
  pose proof (Z.div_pos (Z.log2 M) 64 ltac:(lia) ltac:(lia)).
  split; cbn [b_k b_mp b_bk1 b_u]; try done.
  - unfold lpow. split.
    + eapply Z.le_trans; [|exact L1]. apply Z.pow_le_mono_r; unfold k; lia.
    + eapply Z.lt_le_trans; [exact L2|]. apply Z.pow_le_mono_r; unfold k; lia.
  - pose proof (power_ok ((Z.of_nat (S k) + 1) * 64) ltac:(lia)) as R. unfold lpow.
    by replace (64 * Z.of_nat (S (S k))) with ((Z.of_nat (S k) + 1) * 64) by lia.
  - pose proof (power_ok (2 * 64 * Z.of_nat (S k)) ltac:(lia)) as R.
    replace (2 ^ (2 * 64 * Z.of_nat (S k))) with (lpow (S k + S k)) in R by (unfold lpow; f_equal; lia).
    rewrite <- Z.quot_div_nonneg by (pose proof (lpow_pos (S k + S k)); lia). apply tdiv_q_ok; [done|done|lia].
Qed.

(** The estimate of the quotient is at most two too small. *)
Lemma barrett_estimate P W M x mu q3 a :
  0 < P -> 0 < W -> P <= M -> 0 <= a < P * W -> 0 <= x -> x * P <= a < (x + 1) * P ->
  mu * M <= P * W < (mu + 1) * M -> q3 * W <= x * mu < (q3 + 1) * W ->
  0 <= a - q3 * M < 3 * M.
Proof using.
  clear. intros HP HW HM Ha Hx0 Hx Hmu Hq.
  assert (Hmu0 : 0 <= mu) by (destruct (Z.lt_ge_cases mu 0); [nia|done]). split.
  - assert (H1 : (x * P) * (mu * M) <= a * (P * W)) by (apply Z.mul_le_mono_nonneg; nia).
    assert (H2 : (q3 * W) * (M * P) <= (x * mu) * (M * P)) by (apply Z.mul_le_mono_nonneg_r; nia).
    assert (q3 * M <= a); [|lia]. apply (Z.mul_le_mono_pos_r _ _ (P * W)); nia.
  - assert (Hxw : x < W) by (apply (Z.mul_lt_mono_pos_r P); lia).
    assert (H1 : x * (P * W - M + 1) <= x * (mu * M)) by (apply Z.mul_le_mono_nonneg_l; lia).
    assert (H2 : (x * mu) * M <= ((q3 + 1) * W - 1) * M) by (apply Z.mul_le_mono_nonneg_r; lia).
    assert (H3 : a * W < (x + 1) * P * W) by (apply Z.mul_lt_mono_pos_r; lia).
    assert (H4 : x * M <= (W - 1) * M) by (apply Z.mul_le_mono_nonneg_r; lia).
    assert (H5 : P * W <= M * W) by (apply Z.mul_le_mono_nonneg_r; lia).
    assert (a < (q3 + 3) * M); [|lia]. apply (Z.mul_lt_mono_pos_r W); [done|]. lia.
Qed.

Lemma reduce_loop_spec fuel r m R M :
  mpz_rep r R -> mpz_rep m M -> 0 < M -> 0 <= R <= (Z.of_nat fuel + 1) * M ->
  exists r' R', reduce_loop fuel r m = Done r' /\ mpz_rep r' R' /\ 0 <= R' <= M /\ R' mod M = R mod M
    /\ (R <= M -> R' = R).
Proof using HAok.
  intros Hr Hm HM. revert r R Hr. induction fuel as [|fuel IH]; intros r R Hr HR; cbn [reduce_loop];
    pose proof (cmp_ok r m R M Hr Hm) as Hc; destruct (Z.ltb_spec 0 (mpz_cmp r m)) as [Hgt|Hle].
  - exfalso. lia.
  - exists r, R. split_and!; done || lia.
  - destruct (IH (mpz_sub r r m) (R - M)) as (r' & R' & E & H1 & H2 & H3 & _); [by apply sub_ok|lia|].
    exists r', R'. split_and!; try done; try lia. rewrite H3. replace (R - M) with (R + (-1) * M) by ring. apply Z.mod_add. lia.
  - exists r, R. split_and!; done || lia.
Qed.

(** The value that the reduction computes before its loop. *)
Lemma barrett_reduce_value t M k r a A :
  barrett_ok t M k -> mpz_rep a A -> 0 <= A < lpow (S k + S k) ->
  exists r1, barrett_reduce t r a = reduce_loop 2 r1 (b_mp t)
    /\ mpz_rep r1 (A - ((A / lpow k) * (lpow (S k + S k) / M) / lpow (S (S k))) * M)
    /\ 0 <= A - ((A / lpow k) * (lpow (S k + S k) / M) / lpow (S (S k))) * M < 3 * M.
Proof using HAok HGok.
  intros [K1 K2 K3 K4 K5] Ha HA'. unfold barrett_reduce. rewrite K1. change mpz_bitsperlimb with 64.
  destruct (rep_size a A (S k + S k) Ha HA') as (S1 & _).
  destruct (Z.leb_spec 0 (mp_size a)), (Z.leb_spec (mp_size a) (2 * Z.of_nat (S k))); try lia. cbn [andb assertM mbind outcome_bind].
  pose proof (lpow_pos k) as Pk. pose proof (lpow_pos (S (S k))) as Pw. pose proof (lpow_pos (S k + S k)) as P2.
  assert (HM : 0 < M) by lia.
  assert (E1 : 2 ^ ((Z.of_nat (S k) - 1) * 64) = lpow k) by (unfold lpow; f_equal; lia).
  assert (E2 : 2 ^ ((Z.of_nat (S k) + 1) * 64) = lpow (S (S k))) by (unfold lpow; f_equal; lia).
  pose proof (tdiv_q_2exp_ok mpz_null a A ((Z.of_nat (S k) - 1) * 64) Ha ltac:(lia)) as Rq1.
  rewrite E1, Z.quot_div_nonneg in Rq1 by lia. set (q1 := mpz_tdiv_q_2exp mpz_null a _) in *. set (x := A / lpow k) in *.
  pose proof (mul_ok q1 _ _ _ _ Rq1 K5) as Rq2. set (q2 := mpz_mul q1 q1 (b_u t)) in *. set (mu := lpow (S k + S k) / M) in *.
  assert (Hx : 0 <= x) by (apply Z.div_pos; lia). assert (Hmu : 0 <= mu) by (apply Z.div_pos; lia).
  pose proof (tdiv_q_2exp_ok q2 q2 _ ((Z.of_nat (S k) + 1) * 64) Rq2 ltac:(lia)) as Rq3.
  rewrite E2, Z.quot_div_nonneg in Rq3 by nia. set (q3v := x * mu / lpow (S (S k))) in *. set (q3 := mpz_tdiv_q_2exp q2 q2 _) in *.
  pose proof (tdiv_ok mpz_null a ((Z.of_nat (S k) + 1) * 64) A Ha ltac:(lia)) as Rr1. rewrite E2, Z.rem_mod_nonneg in Rr1 by lia.
  assert (Hq3 : 0 <= q3v) by (apply Z.div_pos; nia).
  pose proof (mul_ok mpz_null q3 _ _ _ Rq3 K2) as Rr2.
  pose proof (tdiv_ok (mpz_mul mpz_null q3 (b_mp t)) _ ((Z.of_nat (S k) + 1) * 64) _ Rr2 ltac:(lia)) as Rr3.
  rewrite E2, Z.rem_mod_nonneg in Rr3 by nia.
  pose proof (sub_ok r _ _ _ _ Rr1 Rr3) as Rr. set (r1 := mpz_sub r _ _) in *. set (W := lpow (S (S k))) in *.
  assert (Hest : 0 <= A - q3v * M < 3 * M).
  { apply (barrett_estimate (lpow k) W M x mu q3v A); try done; try lia.
    - unfold W. rewrite <- lpow_add. by replace (k + S (S k))%nat with (S k + S k)%nat by lia.
    - unfold x. pose proof (Z.div_mod A (lpow k) ltac:(lia)). pose proof (Z.mod_pos_bound A (lpow k) Pk). lia.
    - unfold mu, W. rewrite <- lpow_add. replace (k + S (S k))%nat with (S k + S k)%nat by lia.
      pose proof (Z.div_mod (lpow (S k + S k)) M ltac:(lia)). pose proof (Z.mod_pos_bound (lpow (S k + S k)) M HM). lia.
    - unfold q3v. pose proof (Z.div_mod (x * mu) W ltac:(lia)). pose proof (Z.mod_pos_bound (x * mu) W Pw). lia. }
  assert (HW : 3 * M < W) by (unfold W; rewrite lpow_S; lia).
  assert (Hmod : (A mod W - (q3v * M) mod W) mod W = A - q3v * M) by (rewrite <- Zminus_mod; apply Z.mod_small; lia).
  pose proof (Z.mod_pos_bound A W Pw). pose proof (Z.mod_pos_bound (q3v * M) W Pw).
  eexists. split; [reflexivity|]. split; [|done]. unfold mpz_sgn. pose proof (mr_sign _ _ Rr) as Hs.
  destruct (Z.ltb_spec (Z.sgn (mp_size r1)) 0).
  - assert (Hneg : A mod W - (q3v * M) mod W < 0) by (apply Hs; lia).
    assert (E : (A mod W - (q3v * M) mod W) mod W = A mod W - (q3v * M) mod W + W).
    { rewrite <- (Z.mod_add _ 1 W) by lia. rewrite Z.mod_small; lia. }
    rewrite <- Hmod, E. by apply add_ok.
  - assert (Hpos : 0 <= A mod W - (q3v * M) mod W).
    { destruct (Z.lt_ge_cases (A mod W - (q3v * M) mod W) 0) as [Hlt|]; [|done]. apply Hs in Hlt. lia. }
    rewrite <- Hmod, Z.mod_small by lia. done.
Qed.

Lemma barrett_reduce_spec t M k r a A :
  barrett_ok t M k -> mpz_rep a A -> 0 <= A < lpow (S k + S k) ->
  exists r' R, barrett_reduce t r a = Done r' /\ mpz_rep r' R /\ 0 <= R <= M /\ R mod M = A mod M.
Proof using HAok HGok.
  intros B Ha HA'. destruct (barrett_reduce_value t M k r a A B Ha HA') as (r1 & -> & R1 & Hb).
  pose proof (bo_M _ _ _ B) as HM. pose proof (lpow_pos k).
  destruct (reduce_loop_spec 2 r1 _ _ M R1 (bo_mp _ _ _ B) ltac:(lia) ltac:(lia)) as (r' & R & E & H1 & H2 & H3 & _).
  exists r', R. split_and!; try done; try lia. rewrite H3.
  set (q := _ / _). replace (A - q * M) with (A + (- q) * M) by ring. apply Z.mod_add. lia.
Qed.

Lemma barrett_reduce_M t M k r m :
  barrett_ok t M k -> mpz_rep m M -> Z.odd M = true -> 1 < M ->
  exists r', barrett_reduce t r m = Done r' /\ mpz_rep r' M.
Proof using HAok HGok.
  intros B Hm Ho HM. pose proof (bo_M _ _ _ B) as Hb. pose proof (lpow_pos k) as Pk. pose proof (lpow_mono (S k) (S k + S k) ltac:(lia)).
  destruct (barrett_reduce_value t M k r m M B Hm ltac:(lia)) as (r1 & E & R1 & Hr). rewrite E.
  set (mu := lpow (S k + S k) / M) in *. set (x := M / lpow k) in *. set (W := lpow (S (S k))) in *.
  assert (HPW : lpow (S k + S k) = lpow k * W) by (unfold W; rewrite <- lpow_add; f_equal; lia).
  assert (Hmu : mu * M < lpow (S k + S k)).
  { unfold mu. pose proof (Z.div_mod (lpow (S k + S k)) M ltac:(lia)) as Ed. pose proof (Z.mod_pos_bound (lpow (S k + S k)) M ltac:(lia)).
    destruct (Z.eq_dec (lpow (S k + S k) mod M) 0) as [E0|]; [|lia]. exfalso. apply Z.mod_divide in E0; [|lia].
    pose proof (odd_rel_prime M (64 * Z.of_nat (S k + S k)) Ho ltac:(lia)) as Hg. fold (lpow (S k + S k)) in Hg.
    assert (Hd : (M | Z.gcd M (lpow (S k + S k)))) by (apply Z.gcd_greatest; [apply Z.divide_refl|done]).
    rewrite Hg in Hd. apply Z.divide_1_r in Hd. lia. }
  assert (Hx : 0 <= x /\ x * lpow k <= M).
  { unfold x. split; [apply Z.div_pos; lia|]. rewrite Z.mul_comm. apply Z.mul_div_le. lia. }
  assert (Hmu0 : 0 <= mu) by (apply Z.div_pos; lia).
  assert (Hq : x * mu / W = 0) by (apply Z.div_small; nia).
  rewrite Hq in R1. replace (M - 0 * M) with M in R1 by lia.
  destruct (reduce_loop_spec 2 r1 _ _ M R1 (bo_mp _ _ _ B) ltac:(lia) ltac:(lia)) as (r' & R & E' & H1 & _ & _ & H4).
  exists r'. split; [done|]. by rewrite (H4 ltac:(lia)) in H1.
Qed.

(** ** Theorems *)
(** C18: [montgom] for an odd modulus [M > 0] exponentiates correctly:
    [powm (g, e)] ends without failing an assertion and gives [g^e mod M], for
    every [g] of no more limbs than [M] and every exponent [e >= 0], with the
    limbs, carries and intermediate results within their arrays. *)
Theorem montgom_powm_correct m M mmr gm a g e G E :
  mpz_rep m M -> 0 < M -> Z.odd M = true -> mpz_rep g G -> 0 <= G < lpow (msize m) -> mpz_rep e E -> 0 <= E ->
  exists t r, montgom_set m = Done t /\ montgom_powm t mmr gm a g e = Done r /\ mpz_rep r (G ^ E mod M).
Proof using HAok HGok.
  intros Hm HM Ho Hg HGb He HE. destruct (montgom_set_spec m M Hm HM Ho) as (t & Et & T).
  destruct (powm_spec t M (msize m) T mmr gm a g e G E Hg HGb He HE) as (r & Er & R). by exists t, r.
Qed.

(** Montgomery multiplication of [x] and [y], below [2^(64 n)] with
    [x y < M 2^(64 n)] where [n] is the number of limbs of [M], gives the one
    number [r] below [M] with [r 2^(64 n) = x y] modulo [M]; reduction of [z]
    below [M 2^(64 n)] gives the one with [r 2^(64 n) = z]. *)
Theorem montgom_mmul_bounds m M rp x y X Y z W :
  mpz_rep m M -> 0 < M -> Z.odd M = true -> mpz_rep x X -> mpz_rep y Y -> mpz_rep z W ->
  0 <= X < lpow (msize m) -> 0 <= Y < lpow (msize m) -> X * Y < M * lpow (msize m) -> 0 <= W < M * lpow (msize m) ->
  exists t, montgom_set m = Done t
    /\ (exists r R, mpz_mmul t rp x y = Done r /\ mpz_rep r R /\ 0 <= R < M /\ (R * lpow (msize m)) mod M = (X * Y) mod M)
    /\ (exists r R, mpz_mreduce t rp z = Done r /\ mpz_rep r R /\ 0 <= R < M /\ (R * lpow (msize m)) mod M = W mod M).
Proof using HAok HGok.
  intros Hm HM Ho Hx Hy Hz HX HY HXY HW. destruct (montgom_set_spec m M Hm HM Ho) as (t & Et & T).
  exists t. split; [done|]. split; [by apply (mmul_spec t M (msize m) T rp x y X Y)|by apply (mreduce_spec t M (msize m) T rp z W)].
Qed.

(** C38: [barrett] for an odd modulus [M > 0]: the reduction of any [a] of at
    most twice as many limbs ends, its loop turning at most twice, and gives a
    number between [0] and [M], both included, that is [a] modulo [M]. *)
Theorem barrett_reduce_bounds m M r a A :
  mpz_rep m M -> 0 < M -> Z.odd M = true -> mpz_rep a A -> 0 <= A < lpow (2 * msize m) ->
  exists t r' R, barrett_set m = Done t /\ barrett_reduce t r a = Done r' /\ mpz_rep r' R /\ 0 <= R <= M /\ R mod M = A mod M.
Proof using HAok HGok.
  intros Hm HM Ho Ha HA'. destruct (barrett_set_spec m M Hm HM Ho) as (t & k & Et & B).
  assert (Hk : msize m = S k).
  { pose proof (bo_M _ _ _ B) as [B1 B2]. destruct (rep_size m M (S k) Hm ltac:(lia)) as (_ & S2 & _).
    destruct (Nat.le_gt_cases (msize m) k) as [Hle|]; [|lia]. pose proof (mr_bound _ _ Hm). pose proof (lpow_mono _ _ Hle). lia. }
  rewrite Hk in HA'. replace (2 * S k)%nat with (S k + S k)%nat in HA' by lia.
  destruct (barrett_reduce_spec t M k r a A B Ha HA') as (r' & R & E & H). by exists t, r', R.
Qed.

(** Barrett reduction of the modulus itself, for every odd [M > 1], gives
    [M] and not [0]: the loop stops at [r = M]. *)
Theorem barrett_reduce_of_modulus m M r :
  mpz_rep m M -> 1 < M -> Z.odd M = true ->
  exists t r', barrett_set m = Done t /\ barrett_reduce t r m = Done r' /\ mpz_rep r' M.
Proof using HAok HGok.
  intros Hm HM Ho. destruct (barrett_set_spec m M Hm ltac:(lia) Ho) as (t & k & Et & B).
  destruct (barrett_reduce_M t M k r m B Hm Ho HM) as (r' & E & R). by exists t, r'.
Qed.

End gmp.

(** ** A model of GMP *)
Definition gmp_arith_model : GmpArith := {|
  mpz_set r x := mkmpz (mp_size x) (mp_d x ++ replicate (length (mp_d r)) 0);
  mpz_set_ui _ n := mpz_of_Z n;
  mpz_get_ui x := u64 (mpz_val x);
  mpz_setbit x n := mpz_of_Z (Z.setbit (mpz_val x) n);
  mpz_add _ x y := mpz_of_Z (mpz_val x + mpz_val y);
  mpz_sub _ x y := mpz_of_Z (mpz_val x - mpz_val y);
  mpz_mul _ x y := mpz_of_Z (mpz_val x * mpz_val y);
  mpz_mul_2exp _ x n := mpz_of_Z (mpz_val x * 2 ^ n);
  mpz_tdiv_q _ x y := mpz_of_Z (Z.quot (mpz_val x) (mpz_val y));
  mpz_mod _ x y := mpz_of_Z (mpz_val x mod mpz_val y);
  mpz_invert _ x y := mpz_of_Z (Z.invmod (mpz_val x) (mpz_val y));
  mpz_gcdext x y := let '(u, v, d) := Z.extgcd (mpz_val x) (mpz_val y) in (mpz_of_Z d, mpz_of_Z u);
  mpz_tdiv_q_2exp _ x n := mpz_of_Z (Z.quot (mpz_val x) (2 ^ n));
  mpz_cmp x y := mpz_val x - mpz_val y;
  mpn_addmul_1 r s v := let x := limbs_val r + limbs_val s * v in (limbs x (length r), x / lpow (length r));
  mpn_add_1 r v := let x := limbs_val r + v in (limbs x (length r), x / lpow (length r))
|}.

Lemma limbs_div_mod x n : limbs_val (limbs x n) + lpow n * (x / lpow n) = x.
Proof. rewrite limbs_val_mod. pose proof (Z.div_mod x (lpow n) ltac:(pose proof (lpow_pos n); lia)). lia. Qed.

#[export] Instance gmp_arith_model_ok : @GmpArithOK gmp_arith_model.
Proof.
  split; cbn [mpz_set mpz_set_ui mpz_get_ui mpz_setbit mpz_add mpz_sub mpz_mul mpz_mul_2exp mpz_tdiv_q mpz_mod mpz_invert mpz_gcdext
    mpz_tdiv_q_2exp mpz_cmp mpn_addmul_1 mpn_add_1 gmp_arith_model fst snd].
  - intros r x X [A L B T S]. cbn [mp_d]. rewrite length_app, length_replicate. split; [|lia].
    split; change (msize (mkmpz (mp_size x) (mp_d x ++ replicate (length (mp_d r)) 0))) with (msize x); cbn [mp_d mp_size]; try done.
    + rewrite length_app. lia.
    + by rewrite take_app_le.
  - intros. apply mpz_of_Z_rep.
  - intros x X R HX. by rewrite (mpz_val_rep x X R).
  - intros x X n R _ _. rewrite (mpz_val_rep x X R). apply mpz_of_Z_rep.
  - intros r x y X Y Rx Ry. rewrite (mpz_val_rep x X Rx), (mpz_val_rep y Y Ry). apply mpz_of_Z_rep.
  - intros r x y X Y Rx Ry. rewrite (mpz_val_rep x X Rx), (mpz_val_rep y Y Ry). apply mpz_of_Z_rep.
  - intros r x y X Y Rx Ry. rewrite (mpz_val_rep x X Rx), (mpz_val_rep y Y Ry). apply mpz_of_Z_rep.
  - intros r x X n Rx _. rewrite (mpz_val_rep x X Rx). apply mpz_of_Z_rep.
  - intros r x y X Y Rx Ry _. rewrite (mpz_val_rep x X Rx), (mpz_val_rep y Y Ry). apply mpz_of_Z_rep.
  - intros r x y X Y Rx Ry _. rewrite (mpz_val_rep x X Rx), (mpz_val_rep y Y Ry). apply mpz_of_Z_rep.
  - intros r x y X Y Rx Ry HY Hg. rewrite (mpz_val_rep x X Rx), (mpz_val_rep y Y Ry). eexists. split; [apply mpz_of_Z_rep|].
    split; [rewrite <- Z.mod_invmod; apply Z.mod_pos_bound; lia|]. rewrite Z.mul_comm. apply Z.invmod_coprime; [lia|done].
  - intros x y X Y Rx Ry. rewrite (mpz_val_rep x X Rx), (mpz_val_rep y Y Ry).
    destruct (Z.extgcd X Y) as [[u v] d] eqn:E. apply Z.extgcd_correct in E as [E1 ->]. cbn [fst snd]. exists u, v.
    split; [apply mpz_of_Z_rep|]. split; [apply mpz_of_Z_rep|lia].
  - intros r x X n Rx _. rewrite (mpz_val_rep x X Rx). apply mpz_of_Z_rep.
  - intros x y X Y Rx Ry. by rewrite (mpz_val_rep x X Rx), (mpz_val_rep y Y Ry).
  - intros r s v Hr Hs Hl Hv. split; [apply limbs_limbs_ok|]. split; [apply limbs_length|]. split; [|apply limbs_div_mod].
    pose proof (limbs_val_bound r Hr). pose proof (limbs_val_bound s Hs) as Hsb. rewrite Hl in Hsb. pose proof (lpow_pos (length r)).
    split; [apply Z.div_pos; nia|]. apply Z.div_lt_upper_bound; nia.
  - intros r v Hr _ Hv. split; [apply limbs_limbs_ok|]. split; [apply limbs_length|apply limbs_div_mod].
Qed.

(** ** Witnesses *)
#[local] Existing Instance gmp_model.
#[local] Existing Instance gmp_arith_model.

Lemma montgom_powm_correct_witness :
  exists t r, montgom_set (mpz_of_Z 1000003) = Done t
    /\ montgom_powm t mpz_null mpz_null mpz_null (mpz_of_Z 12345) (mpz_of_Z 77) = Done r /\ mpz_rep r (12345 ^ 77 mod 1000003).
Proof.
  apply (montgom_powm_correct (mpz_of_Z 1000003) 1000003 mpz_null mpz_null mpz_null (mpz_of_Z 12345) (mpz_of_Z 77) 12345 77);
    try apply mpz_of_Z_rep; try reflexivity; try (split; reflexivity || discriminate); try discriminate.
Defined.

Lemma montgom_mmul_bounds_witness :
  exists t, montgom_set (mpz_of_Z 15) = Done t
    /\ (exists r R, mpz_mmul t mpz_null (mpz_of_Z 7) (mpz_of_Z 9) = Done r /\ mpz_rep r R /\ 0 <= R < 15 /\ (R * 2 ^ 64) mod 15 = 63 mod 15)
    /\ (exists r R, mpz_mreduce t mpz_null (mpz_of_Z 100) = Done r /\ mpz_rep r R /\ 0 <= R < 15 /\ (R * 2 ^ 64) mod 15 = 100 mod 15).
Proof.
  apply (montgom_mmul_bounds (mpz_of_Z 15) 15 mpz_null (mpz_of_Z 7) (mpz_of_Z 9) 7 9 (mpz_of_Z 100) 100);
    try apply mpz_of_Z_rep; try reflexivity; try (split; reflexivity || discriminate).
Defined.

Lemma barrett_reduce_bounds_witness :
  exists t r' R, barrett_set (mpz_of_Z 15) = Done t /\ barrett_reduce t mpz_null (mpz_of_Z 1000) = Done r' /\ mpz_rep r' R
    /\ 0 <= R <= 15 /\ R mod 15 = 1000 mod 15.
Proof.
  apply (barrett_reduce_bounds (mpz_of_Z 15) 15 mpz_null (mpz_of_Z 1000) 1000);
    try apply mpz_of_Z_rep; try reflexivity; try (split; reflexivity || discriminate).
Defined.

Lemma barrett_reduce_of_modulus_witness :
  exists t r', barrett_set (mpz_of_Z 3) = Done t /\ barrett_reduce t mpz_null (mpz_of_Z 3) = Done r' /\ mpz_rep r' 3.
Proof.
  apply (barrett_reduce_of_modulus (mpz_of_Z 3) 3 mpz_null); try apply mpz_of_Z_rep; reflexivity.
Defined.
