(* ===== verification/Arc4.v ===== *)
(** * The stream cipher: [crypt/arc4.C] and [crypt/arc4.h] *)
From Stdlib Require Import ZArith Lia.
From stdpp Require Import prelude strings.
From S2P Require Import Prelude Mdblock.

Record arc4 := mkarc4 { a_i : Z; a_j : Z; a_s : list Z }.

Definition arc4_reset : arc4 := mkarc4 0xff 0 (seqZ 0 256).

(** Exchanges [s[i]], which is [si], and [s[j]]. *)
Definition exchange (s : list Z) (i j si : Z) : outcome (list Z) :=
  sj ← rd s j;
  s ← wr s i sj;
  wr s j si.

(** The key is the memory from its address on. *)
Fixpoint setkey_loop (n : nat) (key : list Z) (keylen keypos : Z) (a : arc4) : outcome arc4 :=
  match n with
  | O => Done a
  | S n =>
      let keypos := if keylen <=? keypos then 0 else keypos in
      let i := (a_i a + 1) .& 0xff in
      si ← rd (a_s a) i;
      k ← rd key keypos;
      let j := (a_j a + si + k) .& 0xff in
      s ← exchange (a_s a) i j si;
      setkey_loop n key keylen (keypos + 1) (mkarc4 i j s)
  end.
Definition _setkey (key : list Z) (keylen : Z) (a : arc4) : outcome arc4 := setkey_loop 256 key keylen 0 a.

(** [while (len > 128)]; each turn takes 128 off. *)
Fixpoint setkey_blocks (fuel : nat) (key : list Z) (len : Z) (a : arc4) : outcome (list Z * Z * arc4) :=
  if 128 <? len then
    match fuel with
    | O => Spin
    | S fuel =>
        let len := len - 128 in
        let key := drop 128 key in
        a ← _setkey key 128 a;
        setkey_blocks fuel key len a
    end
  else Done (key, len, a).

Definition arc4_setkey (key : list Z) (a : arc4) : outcome arc4 :=
  r ← setkey_blocks (length key) key (Z.of_nat (length key)) a;
  let '(key, len, a) := r : list Z * Z * arc4 in
  a ← (if 0 <? len then _setkey key len a else Done a);
  Done (mkarc4 (a_i a) (a_i a) (a_s a)).

Definition getbyte (a : arc4) : outcome (Z * arc4) :=
  let i := (a_i a + 1) .& 0xff in
  si ← rd (a_s a) i;
  let j := (a_j a + si) .& 0xff in
  sj ← rd (a_s a) j;
  s ← wr (a_s a) i sj;
  s ← wr s j si;
  v ← rd s ((si + sj) .& 0xff);
  Done (v, mkarc4 i j s).

Fixpoint getbytes (n : nat) (a : arc4) : outcome (list Z * arc4) :=
  match n with
  | O => Done ([], a)
  | S n =>
      r ← getbyte a;
      let '(v, a) := r : Z * arc4 in
      r ← getbytes n a;
      let '(l, a) := r : list Z * arc4 in
      Done (v :: l, a)
  end.

(** ** The state is always a permutation *)
Record arc4_ok (a : arc4) : Prop := {
  ao_i : is_byte (a_i a);
  ao_j : is_byte (a_j a);
  ao_perm : a_s a ≡ₚ seqZ 0 256
}.

Lemma mask_byte x : is_byte (x .& 0xff).
Proof. exact (u8_byte x). Qed.

Lemma perm_byte s v : s ≡ₚ seqZ 0 256 -> v ∈ s -> is_byte v.
Proof. intros Hp Hv. rewrite Hp in Hv. apply elem_of_seqZ in Hv. unfold is_byte. lia. Qed.

(** Reading the array anywhere gives a byte. *)
Lemma perm_read s i : s ≡ₚ seqZ 0 256 -> is_byte i -> exists v, rd s i = Done v /\ s !! Z.to_nat i = Some v /\ is_byte v.
Proof.
  intros Hp Hi. assert (Hl : length s = 256%nat) by (by rewrite Hp). unfold is_byte in Hi.
  destruct (lookup_lt_is_Some_2 s (Z.to_nat i)) as [v Hv]; [lia|]. exists v. unfold rd.
  destruct (Z.leb_spec 0 i); [|lia]. rewrite Hv. split_and!; [done|done|].
  apply (perm_byte s); [done|]. by apply list_elem_of_lookup_2 in Hv.
Qed.

Lemma exchange_spec s i j si :
  s ≡ₚ seqZ 0 256 -> is_byte i -> is_byte j -> s !! Z.to_nat i = Some si ->
  exists sj s', rd s j = Done sj /\ is_byte sj /\ wr s i sj = Done (<[Z.to_nat i := sj]> s)
    /\ wr (<[Z.to_nat i := sj]> s) j si = Done s' /\ exchange s i j si = Done s' /\ s' ≡ₚ seqZ 0 256.
Proof.
  intros Hp Hi Hj Hsi. assert (Hl : length s = 256%nat) by (by rewrite Hp).
  destruct (perm_read s j Hp Hj) as (sj & E & Hsj & Hb). unfold is_byte in Hi, Hj.
  assert (E1 : wr s i sj = Done (<[Z.to_nat i := sj]> s)).
  { unfold wr. destruct (Z.leb_spec 0 i), (Z.ltb_spec i (Z.of_nat (length s))); done || lia. }
  assert (E2 : wr (<[Z.to_nat i := sj]> s) j si = Done (<[Z.to_nat j := si]> (<[Z.to_nat i := sj]> s))).
  { unfold wr. rewrite length_insert. destruct (Z.leb_spec 0 j), (Z.ltb_spec j (Z.of_nat (length s))); done || lia. }
  exists sj, (<[Z.to_nat j := si]> (<[Z.to_nat i := sj]> s)). split_and!; try done.
  - unfold exchange. rewrite E. cbn [mbind outcome_bind]. rewrite E1. cbn [mbind outcome_bind]. exact E2.
  - rewrite <- Hp. by apply Permutation_insert_swap.
Qed.

Lemma reset_ok : arc4_ok arc4_reset.
Proof. by split. Qed.

(** Each byte that is read is a byte, and the state keeps its type. *)
Lemma getbyte_ok a : arc4_ok a -> exists v a', getbyte a = Done (v, a') /\ is_byte v /\ arc4_ok a'.
Proof.
  intros [Hi Hj Hp]. unfold getbyte. set (i := (a_i a + 1) .& 0xff). assert (Bi : is_byte i) by apply mask_byte.
  destruct (perm_read (a_s a) i Hp Bi) as (si & -> & Hsi & Bsi). cbn [mbind outcome_bind].
  set (j := (a_j a + si) .& 0xff). assert (Bj : is_byte j) by apply mask_byte.
  destruct (exchange_spec (a_s a) i j si Hp Bi Bj Hsi) as (sj & s' & -> & Bsj & E1 & E2 & _ & Hp'). cbn [mbind outcome_bind].
  rewrite E1. cbn [mbind outcome_bind]. rewrite E2. cbn [mbind outcome_bind].
  destruct (perm_read s' ((si + sj) .& 0xff) Hp' (mask_byte _)) as (v & -> & _ & Bv). cbn [mbind outcome_bind].
  exists v, (mkarc4 i j s'). split_and!; [done|done|]. by split.
Qed.

Lemma getbytes_ok n a :
  arc4_ok a -> exists l a', getbytes n a = Done (l, a') /\ length l = n /\ Forall is_byte l /\ arc4_ok a'.
Proof.
  revert a. induction n as [|n IH]; intros a Ha; cbn [getbytes]; [by exists [], a|].
  destruct (getbyte_ok a Ha) as (v & a1 & -> & Hv & Ha1). cbn [mbind outcome_bind].
  destruct (IH a1 Ha1) as (l & a2 & -> & Hl & Hb & Ha2). cbn [mbind outcome_bind].
  exists (v :: l), a2. split_and!; [done|by cbn; f_equal|by constructor|done].
Qed.

Lemma getbytes_app n m a :
  getbytes (n + m) a = (r ← getbytes n a; let '(l, a) := r : list Z * arc4 in
                        r ← getbytes m a; let '(k, a) := r : list Z * arc4 in Done (l ++ k, a)).
Proof.
  revert a. induction n as [|n IH]; intros a; cbn [getbytes Nat.add].
  { cbn [mbind outcome_bind]. by destruct (getbytes m a) as [[k a']| | |]. }
  destruct (getbyte a) as [[v a1]| | |]; try done. cbn [mbind outcome_bind]. rewrite IH.
  destruct (getbytes n a1) as [[l a2]| | |]; try done. cbn [mbind outcome_bind].
  by destruct (getbytes m a2) as [[k a3]| | |].
Qed.

Lemma setkey_loop_ok n key keylen keypos a :
  arc4_ok a -> 0 < keylen <= Z.of_nat (length key) -> 0 <= keypos ->
  exists a', setkey_loop n key keylen keypos a = Done a' /\ arc4_ok a'.
Proof.
  intros Ha Hk. revert keypos a Ha. induction n as [|n IH]; intros keypos a Ha Hpos; cbn [setkey_loop]; [by exists a|].
  set (kp := if keylen <=? keypos then 0 else keypos).
  assert (Hkp : 0 <= kp < keylen) by (unfold kp; destruct (Z.leb_spec keylen keypos); lia).
  destruct Ha as [Hi Hj Hp]. set (i := (a_i a + 1) .& 0xff). assert (Bi : is_byte i) by apply mask_byte.
  destruct (perm_read (a_s a) i Hp Bi) as (si & -> & Hsi & Bsi). cbn [mbind outcome_bind].
  destruct (lookup_lt_is_Some_2 key (Z.to_nat kp)) as [k Ek]; [lia|].
  assert (Er : rd key kp = Done k) by (unfold rd; destruct (Z.leb_spec 0 kp); [by rewrite Ek|lia]). rewrite Er. cbn [mbind outcome_bind].
  set (j := (a_j a + si + k) .& 0xff). assert (Bj : is_byte j) by apply mask_byte.
  destruct (exchange_spec (a_s a) i j si Hp Bi Bj Hsi) as (sj & s' & _ & _ & _ & _ & -> & Hp'). cbn [mbind outcome_bind].
  apply IH; [by split|lia].
Qed.

(** A read beyond the key. *)
Lemma setkey_loop_short n key keylen keypos a :
  arc4_ok a -> Z.of_nat (length key) < keylen -> 0 <= keypos <= Z.of_nat (length key) -> (length key - Z.to_nat keypos < n)%nat ->
  setkey_loop n key keylen keypos a = Wild.
Proof.
  intros Ha Hk. revert keypos a Ha. induction n as [|n IH]; intros keypos a Ha Hpos Hn; [lia|]. cbn [setkey_loop].
  destruct (Z.leb_spec keylen keypos); [lia|].
  destruct Ha as [Hi Hj Hp]. set (i := (a_i a + 1) .& 0xff). assert (Bi : is_byte i) by apply mask_byte.
  destruct (perm_read (a_s a) i Hp Bi) as (si & -> & Hsi & Bsi). cbn [mbind outcome_bind].
  destruct (Z.eq_dec keypos (Z.of_nat (length key))) as [->|Hne].
  { unfold rd. destruct (Z.leb_spec 0 (Z.of_nat (length key))); [|lia]. rewrite Nat2Z.id, lookup_ge_None_2 by lia. done. }
  destruct (lookup_lt_is_Some_2 key (Z.to_nat keypos)) as [k Ek]; [lia|].
  assert (Er : rd key keypos = Done k) by (unfold rd; destruct (Z.leb_spec 0 keypos); [by rewrite Ek|lia]). rewrite Er. cbn [mbind outcome_bind].
  set (j := (a_j a + si + k) .& 0xff). assert (Bj : is_byte j) by apply mask_byte.
  destruct (exchange_spec (a_s a) i j si Hp Bi Bj Hsi) as (sj & s' & _ & _ & _ & _ & -> & Hp'). cbn [mbind outcome_bind].
  apply IH; [by split|lia|lia].
Qed.

Lemma setkey_ok key a :
  arc4_ok a -> (length key <= 128)%nat -> exists a', arc4_setkey key a = Done a' /\ arc4_ok a'.
Proof.
  intros Ha Hk. unfold arc4_setkey. assert (E : setkey_blocks (length key) key (Z.of_nat (length key)) a = Done (key, Z.of_nat (length key), a)).
  { destruct (length key) eqn:El; cbn [setkey_blocks]; [done|]. destruct (Z.ltb_spec 128 (Z.of_nat (S n))); [lia|done]. }
  rewrite E. cbn [mbind outcome_bind]. destruct (Z.ltb_spec 0 (Z.of_nat (length key))).
  - destruct (setkey_loop_ok 256 key (Z.of_nat (length key)) 0 a Ha ltac:(lia) ltac:(lia)) as (a' & E' & Ha').
    unfold _setkey. rewrite E'. cbn [mbind outcome_bind]. eexists. split; [done|]. destruct Ha'. by split.
  - cbn [mbind outcome_bind]. eexists. split; [done|]. destruct Ha. by split.
Qed.

Lemma setkey_blocks_long fuel key len a :
  arc4_ok a -> (length key <= fuel)%nat -> len = Z.of_nat (length key) -> 128 < len -> len mod 128 <> 0 ->
  setkey_blocks fuel key len a = Wild.
Proof.
  revert key len a. induction fuel as [|fuel IH]; intros key len a Ha Hf Hlen Hbig Hmod; [lia|]. cbn [setkey_blocks].
  destruct (Z.ltb_spec 128 len); [|lia]. set (key' := drop 128 key).
  assert (Lk : length key' = (length key - 128)%nat) by (unfold key'; apply length_drop).
  assert (Hm : (len - 128) mod 128 <> 0).
  { replace (len - 128) with (len + (-1) * 128) by lia. by rewrite Z.mod_add by lia. }
  destruct (Z.lt_ge_cases 128 (len - 128)) as [Hl|Hl].
  - destruct (setkey_loop_ok 256 key' 128 0 a Ha ltac:(lia) ltac:(lia)) as (a' & E & Ha'). unfold _setkey. rewrite E.
    cbn [mbind outcome_bind]. apply IH; try done; lia.
  - assert (len - 128 <> 128) by (intros E; by rewrite E in Hm).
    unfold _setkey. rewrite setkey_loop_short; [done|done|lia|lia|lia].
Qed.

(** ** Properties *)
(** C39: After [reset], [setkey] with a key of at most 128 bytes and any
    number of calls of [getbyte], the cipher's table is a permutation of the
    bytes, its indices are bytes, no access is outside the table or the key,
    and every byte that is produced is a byte. *)
Theorem arc4_state_typed key n :
  (length key <= 128)%nat ->
  exists a l a', arc4_setkey key arc4_reset = Done a /\ getbytes n a = Done (l, a')
    /\ length l = n /\ Forall is_byte l /\ is_byte (a_i a') /\ is_byte (a_j a') /\ a_s a' ≡ₚ seqZ 0 256.
Proof.
  intros Hk. destruct (setkey_ok key arc4_reset reset_ok Hk) as (a & E & Ha).
  destruct (getbytes_ok n a Ha) as (l & a' & E' & Hl & Hb & [H1 H2 H3]). by exists a, l, a'.
Qed.

Lemma arc4_state_typed_witness :
  exists a l a', arc4_setkey [75; 101; 121] arc4_reset = Done a /\ getbytes 3 a = Done (l, a') /\ length l = 3%nat
    /\ a_s a' ≡ₚ seqZ 0 256.
Proof.
  destruct (arc4_state_typed [75; 101; 121] 3 ltac:(cbn; lia)) as (a & l & a' & E1 & E2 & E3 & _ & _ & _ & E4).
  exists a, l, a'. exact (conj E1 (conj E2 (conj E3 E4))).
Defined.

(** [setkey] with a key of more than 128 bytes whose length is not a
    multiple of 128 reads beyond the end of the key: the pointer moves on
    before the first 128 bytes are used, and then 128 bytes are read where
    fewer are left. *)
Theorem arc4_long_key_overrun key :
  128 < Z.of_nat (length key) -> Z.of_nat (length key) mod 128 <> 0 -> arc4_setkey key arc4_reset = Wild.
Proof.
  intros Hk Hm. unfold arc4_setkey. rewrite setkey_blocks_long; [done|apply reset_ok|lia|done|done|done].
Qed.

Lemma arc4_long_key_overrun_witness : arc4_setkey (replicate 200 7) arc4_reset = Wild.
Proof. apply arc4_long_key_overrun; vm_compute; [reflexivity|discriminate]. Defined.

(** The key stream for the key "Key".  The cipher that the header describes
    starts from indices 0 and 0 after the key is set and gives EB 9F 77 81;
    this code starts from 255 and 255. *)
Example arc4_key_stream :
  match (a ← arc4_setkey (chars "Key") arc4_reset; getbytes 4 a) with
  | Done (l, _) => l = [0x44; 0x4D; 0x75; 0x3F]
  | _ => False
  end.
Proof. vm_compute. reflexivity. Qed.
