(* ===== verification/AxprtCrypt.v ===== *)
(** * Encrypted packet streams: [crypt/axprt_crypt.C] and [crypt/axprt_crypt.h]

    Each packet is followed by a message authentication code, and header,
    packet and code are encrypted with the key stream of [arc4]. *)
From Stdlib Require Import ZArith Lia.
From stdpp Require Import prelude gmap.
From S2P Require Import Prelude Serial Mdblock Sha1 Pad Suio SuioSpec SuioOps SuioInput SuioProps Stream StreamSend StreamRecv StreamProps Arc4.

Definition macsize : Z := 16.

(** The members of [axprt_crypt] beside those of [axprt_stream]. *)
Record axprt_crypt := mkcrypt {
  cbase : axprt_stream;
  ctx_send : arc4;
  ctx_recv : arc4;
  cryptsend : bool;
  cryptrecv : bool;
  macset : bool;
  mackey1 : list Z;
  mackey2 : list Z;
  lenpad : Z
}.

Definition set_base (c : axprt_crypt) (a : axprt_stream) : axprt_crypt :=
  mkcrypt a (ctx_send c) (ctx_recv c) (cryptsend c) (cryptrecv c) (macset c) (mackey1 c) (mackey2 c) (lenpad c).

(** Bytes combined with the key stream. *)
Definition xor_bytes (l k : list Z) : list Z := zip_with Z.lxor l k.

Section crypt.
Context (pktsize : Z) (junk : Z -> list Z) (react : list event -> bool).

Definition axprt_crypt_new (w : world) (ks : list wres) : axprt_crypt :=
  mkcrypt (axprt_stream_new w ks) arc4_reset arc4_reset false false false (junk 16) (junk 16) 0.

(** [svcnum]: RPCs are being served. *)
Definition encrypt (sendkey recvkey : list Z) (svcnum : bool) (c : axprt_crypt) : outcome axprt_crypt :=
  if svcnum then a ← fail react (cbase c); Done (set_base c a)
  else
    s ← arc4_setkey sendkey (ctx_send c);
    r ← arc4_setkey recvkey (ctx_recv c);
    Done (mkcrypt (cbase c) s r true true (macset c) (mackey1 c) (mackey2 c) (lenpad c)).

(** The keys of the next packet that arrives.  The four bytes of [lenpad] are
    taken in the order they are written in. *)
Definition set_mackeys (c : axprt_crypt) : outcome axprt_crypt :=
  if macset c then Done c
  else
    r ← getbytes 16 (ctx_recv c);
    let '(k1, ctx) := r : list Z * arc4 in
    r ← getbytes 16 ctx;
    let '(k2, ctx) := r : list Z * arc4 in
    r ← getbytes 4 ctx;
    let '(p, ctx) := r : list Z * arc4 in
    b0 ← rd p 0; b1 ← rd p 1; b2 ← rd p 2; b3 ← rd p 3;
    Done (mkcrypt (cbase c) (ctx_send c) ctx (cryptsend c) (cryptrecv c) true k1 k2
                  (u32 (b0 .<< 24 .| b1 .<< 16 .| b2 .<< 8 .| b3))).

(** The code over the pieces. *)
Definition mac_of (pieces : list (list Z)) : outcome (list Z) :=
  sc ← updatev (sha1ctx_new (junk 64)) pieces;
  d ← final sc;
  Done (take (Z.to_nat macsize) (d.1)).

Definition crypt_getpkt (c : axprt_crypt) (cp eom : Z) : outcome (bool * Z * axprt_crypt) :=
  if negb (cryptrecv c) then
    r ← getpkt pktsize react (cbase c) cp eom;
    let '(more, cp, a) := r : bool * Z * axprt_stream in
    Done (more, cp, set_base c a)
  else
    c ← set_mackeys c;
    let a := cbase c in
    if negb (cb (rcv a)) || (eom - cp <? 4) then Done (false, cp, c)
    else match pktbuf (rcv a) with
    | None => Wild
    | Some buf =>
        hdr ← slice buf cp 4;
        h ← getint hdr;
        let len := h .^ lenpad c in
        if len =? 0 then a ← fail react a; Done (true, cp + 4, set_base c a)
        else
          let rawlen := putint len in
          r ← checklen pktsize react len a;
          let '(len, a) := r : option Z * axprt_stream in
          match len with
          | None => Done (false, cp, set_base c a)
          | Some len =>
              let pktlim := cp + 4 + len + macsize in
              if eom <? pktlim then Done (false, cp, c)
              else
                enc ← slice buf (cp + 4) (len + macsize);
                r ← getbytes (Z.to_nat (len + macsize)) (ctx_recv c);
                let '(ks, ctx) := r : list Z * arc4 in
                let dec := xor_bytes enc ks in
                buf ← copy_in buf (cp + 4) dec;
                let a := set_rcv a (set_pkt (rcv a) (pktlen (rcv a)) (Some buf)) in
                let d := take (Z.to_nat len) dec in
                mac ← mac_of [mackey1 c; rawlen; d; mackey2 c];
                let c := mkcrypt a (ctx_send c) ctx (cryptsend c) (cryptrecv c) false (mackey1 c) (mackey2 c) (lenpad c) in
                if negb (bool_decide (mac = drop (Z.to_nat len) dec)) then
                  a ← fail react a; Done (false, cp, set_base c a)
                else Done (true, pktlim, set_base c (call_cb react (Pkt d) a))
          end
    end.

(** The loop of [callgetpkt] with this [getpkt]. *)
Fixpoint crypt_getpkts (fuel : nat) (c : axprt_crypt) (cp eom : Z) : outcome (Z * axprt_crypt) :=
  if cb (rcv (cbase c)) then
    match fuel with
    | 0%nat => Spin
    | S fuel =>
        r ← crypt_getpkt c cp eom;
        let '(more, cp, c) := r : bool * Z * axprt_crypt in
        if more : bool then crypt_getpkts fuel c cp eom else Done (cp, c)
    end
  else Done (cp, c).

Definition crypt_sendv (iov : list (list Z)) (c : axprt_crypt) : outcome axprt_crypt :=
  let a := cbase c in
  if negb (fd a) then Panic
  else if negb (cryptsend c) then a ← sendv pktsize junk react iov a; Done (set_base c a)
  else
    let t := snd_ a in
    let blocked := negb (uiobytes (out t) =? 0) in
    let len := u32 (iovsize iov) in
    if pktsize <? len then a ← fail react a; Done (set_base c a)
    else
      r ← getbytes 16 (ctx_send c);
      let '(mk1, ctx) := r : list Z * arc4 in
      r ← getbytes 16 ctx;
      let '(mk2, ctx) := r : list Z * arc4 in
      x ← getspace junk (mem t) (out t) (len + macsize + 4);
      let '(msgbuf, w, o) := x : ptr * world * suio in
      let plain := putint (0x80000000 .| len) ++ concat iov in
      mac ← mac_of [mk1; plain; mk2];
      r ← getbytes (Z.to_nat (len + 4)) ctx;
      let '(ks, ctx) := r : list Z * arc4 in
      r ← getbytes (Z.to_nat macsize) ctx;
      let '(ks2, ctx) := r : list Z * arc4 in
      let enc := xor_bytes plain ks ++ xor_bytes mac ks2 in
      w ← store w (msgbuf.1) (msgbuf.2) enc;
      assertM (Z.of_nat (length enc) =? len + macsize + 4) ;;
      wo ← print junk w o msgbuf (Z.of_nat (length enc));
      let '(w, o) := wo : world * suio in
      let t := mktx (syncpts t) o (wcbset t) (u64 (raw_bytes_sent t + Z.of_nat (length enc))) (bytes_sent t) w (kern t) (wire t) in
      let c := mkcrypt (set_snd a t) ctx (ctx_recv c) (cryptsend c) (cryptrecv c) (macset c) (mackey1 c) (mackey2 c) (lenpad c) in
      if negb blocked then a ← st_output react (cbase c); Done (set_base c a)
      else Done c.

(** The destructor leaves no keys behind. *)
Definition crypt_destroy (c : axprt_crypt) : outcome axprt_crypt :=
  a ← destroy react (cbase c);
  Done (mkcrypt a arc4_reset arc4_reset (cryptsend c) (cryptrecv c) (macset c) (mackey1 c) (mackey2 c) 0).

End crypt.

(** * Encrypted streams deliver what was sent, and nothing that was changed *)
(** ** Bytes and exclusive or *)
Lemma xor_bytes_length l k : length k = length l -> length (xor_bytes l k) = length l.
Proof. intros H. unfold xor_bytes. rewrite length_zip_with. lia. Qed.

Lemma xor_bytes_twice l k : length k = length l -> xor_bytes (xor_bytes l k) k = l.
Proof.
  revert k. induction l as [|x l IH]; intros [|y k] H; try done. cbn. f_equal; [|apply IH; cbn in H; lia].
  by rewrite Z.lxor_assoc, Z.lxor_nilpotent, Z.lxor_0_r.
Qed.

Lemma xor_bytes_app l1 l2 k1 k2 :
  length k1 = length l1 -> xor_bytes (l1 ++ l2) (k1 ++ k2) = xor_bytes l1 k1 ++ xor_bytes l2 k2.
Proof. intros H. unfold xor_bytes. by apply zip_with_app. Qed.

Lemma lxor_byte x y : is_byte x -> is_byte y -> is_byte (x .^ y).
Proof.
  intros Hx Hy. assert (E : u8 (x .^ y) = x .^ y); [|rewrite <- E; apply u8_byte].
  apply Z.bits_inj'. intros i Hi. rewrite bit_u8, Z.lxor_spec. destruct (Z.ltb_spec i 8); [done|].
  by rewrite !byte_testbit_high.
Qed.

(** The bits of four bytes read as an integer. *)
Lemma be_bits d0 d1 d2 d3 i : is_byte d0 -> is_byte d1 -> is_byte d2 -> is_byte d3 -> 0 <= i ->
  Z.testbit (u32 (d0 .<< 24 .| d1 .<< 16 .| d2 .<< 8 .| d3)) i
  = if i <? 8 then Z.testbit d3 i else if i <? 16 then Z.testbit d2 (i - 8)
    else if i <? 24 then Z.testbit d1 (i - 16) else if i <? 32 then Z.testbit d0 (i - 24) else false.
Proof.
  intros H0 H1 H2 H3 Hi. unfold u32. rewrite (uN_bit 4294967295 32) by (done || lia). rewrite !Z.lor_spec, !shl_bit by lia.
  destruct (Z.ltb_spec i 8); [|destruct (Z.ltb_spec i 16); [|destruct (Z.ltb_spec i 24); [|destruct (Z.ltb_spec i 32); [|done]]]];
    destruct (Z.ltb_spec i 32); try lia; destruct (Z.leb_spec 24 i), (Z.leb_spec 16 i), (Z.leb_spec 8 i); try lia; cbn [andb orb];
    rewrite ?orb_false_r, ?orb_false_l; rewrite ?(byte_testbit_high d3 i), ?(byte_testbit_high d2 (i - 8)), ?(byte_testbit_high d1 (i - 16))
      by (done || lia); rewrite ?orb_false_r; done.
Qed.

Lemma getint_4 d0 d1 d2 d3 : getint [d0; d1; d2; d3] = Done (u32 (d0 .<< 24 .| d1 .<< 16 .| d2 .<< 8 .| d3)).
Proof. done. Qed.

(** Decrypting the four bytes of a header at once. *)
Lemma header_xor v k0 k1 k2 k3 :
  0 <= v < 2 ^ 32 -> is_byte k0 -> is_byte k1 -> is_byte k2 -> is_byte k3 ->
  exists h, getint (xor_bytes (putint v) [k0; k1; k2; k3]) = Done h
    /\ h .^ u32 (k0 .<< 24 .| k1 .<< 16 .| k2 .<< 8 .| k3) = v.
Proof.
  intros Hv H0 H1 H2 H3. unfold xor_bytes, putint. cbn [zip_with]. rewrite getint_4. eexists. split; [reflexivity|].
  pose proof (getint_putint v [] Hv) as G. unfold putint in G. cbn [app] in G. rewrite getint_4 in G. injection G as G.
  rewrite <- G at 5. apply Z.bits_inj'. intros i Hi. rewrite Z.lxor_spec, !be_bits by (try apply lxor_byte; try apply u8_byte; done).
  destruct (i <? 8); [|destruct (i <? 16); [|destruct (i <? 24); [|destruct (i <? 32); [|done]]]];
    rewrite Z.lxor_spec, xorb_assoc, xorb_nilpotent, xorb_false_r; done.
Qed.

Lemma copy_in_at buf off seg :
  0 <= off -> off + Z.of_nat (length seg) <= Z.of_nat (length buf) ->
  copy_in buf off seg = Done (take (Z.to_nat off) buf ++ seg ++ drop (Z.to_nat off + length seg) buf).
Proof.
  intros H1 H2. unfold copy_in. by destruct (Z.leb_spec 0 off), (Z.leb_spec (off + Z.of_nat (length seg)) (Z.of_nat (length buf))); try lia.
Qed.

(** The parts of a result, left as they are. *)
Lemma done_inj {A} (a b : A) : Done a = Done b -> a = b.
Proof. by injection 1. Qed.

Lemma done_pair_inj {A B} (x u : A) (y v : B) : Done (x, y) = Done (u, v) -> x = u /\ y = v.
Proof. intros H. by injection H. Qed.

Section crypt.
Context (pktsize : Z) (junk : Z -> list Z) (Hjunk : forall n, 0 <= n -> Z.of_nat (length (junk n)) = n).

(** ** The frame of a packet *)
(** What RFC-style text says of the code: the first 16 bytes of the hash of
    the two keys around header and packet. *)
Definition packet_mac (mk1 mk2 p : list Z) : list Z :=
  take 16 (fips_sha1 (mk1 ++ putint (0x80000000 .| Z.of_nat (length p)) ++ p ++ mk2)).

(** The frame of [p] and the state of the cipher behind it. *)
Definition crypt_frame (a : arc4) (p : list Z) : outcome (list Z * arc4) :=
  r ← getbytes 16 a;
  let '(mk1, a) := r : list Z * arc4 in
  r ← getbytes 16 a;
  let '(mk2, a) := r : list Z * arc4 in
  r ← getbytes (20 + length p) a;
  let '(ks, a) := r : list Z * arc4 in
  Done (xor_bytes (putint (0x80000000 .| Z.of_nat (length p)) ++ p ++ packet_mac mk1 mk2 p) ks, a).

Fixpoint crypt_frames (a : arc4) (ps : list (list Z)) : outcome (list Z * arc4) :=
  match ps with
  | [] => Done ([], a)
  | p :: ps =>
      r ← crypt_frame a p;
      let '(f, a) := r : list Z * arc4 in
      r ← crypt_frames a ps;
      let '(l, a) := r : list Z * arc4 in
      Done (f ++ l, a)
  end.

Lemma mac_of_spec pieces :
  Z.of_nat (length (concat pieces)) + 64 < 2 ^ 64 -> mac_of junk pieces = Done (take 16 (fips_sha1 (concat pieces))).
Proof using Hjunk.
  intros Hs. unfold mac_of. assert (Hj : length (junk 64) = 64%nat) by (specialize (Hjunk 64); lia).
  destruct (updatev_spec fips_compress (fun _ => True) newstate _ [] pieces (sha1ctx_new_rep (junk 64) Hj))
    as (c & -> & R); [cbn [app]; lia|done|].
  cbn [mbind outcome_bind app] in *. destruct (final_spec c _ R Hs) as (c' & ->). done.
Qed.

Lemma packet_mac_length mk1 mk2 p : length (packet_mac mk1 mk2 p) = 16%nat.
Proof using. unfold packet_mac. rewrite length_take, fips_sha1_length. done. Qed.

(** The key stream of one packet, in the pieces that the code takes. *)
Lemma frame_split a p :
  arc4_ok a ->
  exists mk1 mk2 kh kp km a1 a2 a3 a4 a5, getbytes 16 a = Done (mk1, a1) /\ getbytes 16 a1 = Done (mk2, a2)
    /\ getbytes 4 a2 = Done (kh, a3) /\ getbytes (length p) a3 = Done (kp, a4) /\ getbytes 16 a4 = Done (km, a5) /\ arc4_ok a5
    /\ length mk1 = 16%nat /\ length mk2 = 16%nat /\ length kh = 4%nat /\ length kp = length p /\ length km = 16%nat
    /\ Forall is_byte kh
    /\ crypt_frame a p = Done (xor_bytes (putint (0x80000000 .| Z.of_nat (length p))) kh
                              ++ xor_bytes p kp ++ xor_bytes (packet_mac mk1 mk2 p) km, a5).
Proof using.
  clear. intros Ha. destruct (getbytes_ok 16 a Ha) as (mk1 & a1 & E1 & L1 & _ & A1).
  destruct (getbytes_ok 16 a1 A1) as (mk2 & a2 & E2 & L2 & _ & A2). destruct (getbytes_ok 4 a2 A2) as (kh & a3 & E3 & L3 & B3 & A3).
  destruct (getbytes_ok (length p) a3 A3) as (kp & a4 & E4 & L4 & _ & A4). destruct (getbytes_ok 16 a4 A4) as (km & a5 & E5 & L5 & _ & A5).
  exists mk1, mk2, kh, kp, km, a1, a2, a3, a4, a5. split_and!; try done.
  unfold crypt_frame. rewrite E1. cbn [mbind outcome_bind]. rewrite E2. cbn [mbind outcome_bind].
  replace (20 + length p)%nat with (4 + (length p + 16))%nat by lia. rewrite getbytes_app, E3. cbn [mbind outcome_bind].
  rewrite getbytes_app, E4. cbn [mbind outcome_bind]. rewrite E5. cbn [mbind outcome_bind].
  rewrite xor_bytes_app by done. by rewrite xor_bytes_app.
Qed.

Lemma parts_length v (p mac kh kp km : list Z) :
  length kh = 4%nat -> length kp = length p -> length mac = 16%nat -> length km = 16%nat ->
  length (xor_bytes (putint v) kh ++ xor_bytes p kp ++ xor_bytes mac km) = (20 + length p)%nat.
Proof using.
  intros H1 H2 H3 H4. rewrite !length_app, !xor_bytes_length by (done || lia). change (length (putint v)) with 4%nat. lia.
Qed.

Lemma crypt_frame_ok a p : arc4_ok a -> exists f a', crypt_frame a p = Done (f, a') /\ length f = (20 + length p)%nat /\ arc4_ok a'.
Proof using.
  clear. intros Ha. destruct (frame_split a p Ha) as (mk1 & mk2 & kh & kp & km & a1 & a2 & a3 & a4 & a5 & _ & _ & _ & _ & _ & A5 & _ & _ & L3 & L4 & L5 & _ & E).
  do 2 eexists. split; [exact E|]. split; [|done]. by apply parts_length.
Qed.

(** ** Receiving *)
(** The receiver's cipher is where the sender's was; its keys for the next
    packet may have been taken already. *)
Definition synced (c : axprt_crypt) (a : arc4) : Prop :=
  cryptrecv c = true /\ arc4_ok a /\
  if macset c then
    exists a1 a2 kh a3, getbytes 16 a = Done (mackey1 c, a1) /\ getbytes 16 a1 = Done (mackey2 c, a2)
      /\ getbytes 4 a2 = Done (kh, a3) /\ ctx_recv c = a3
      /\ exists k0 k1 k2 k3, kh = [k0; k1; k2; k3] /\ lenpad c = u32 (k0 .<< 24 .| k1 .<< 16 .| k2 .<< 8 .| k3)
  else ctx_recv c = a.

Lemma set_mackeys_spec c a :
  synced c a -> exists c', set_mackeys c = Done c' /\ macset c' = true /\ synced c' a /\ cbase c' = cbase c.
Proof using.
  clear. intros (H1 & H2 & H3). unfold set_mackeys. destruct (macset c) eqn:Em.
  { exists c. split_and!; try done. unfold synced. by rewrite Em. }
  subst a. destruct (frame_split (ctx_recv c) [] H2) as (mk1 & mk2 & kh & kp & km & a1 & a2 & a3 & a4 & a5 & E1 & E2 & E3 & _ & _ & _ & _ & _ & L3 & _).
  rewrite E1. cbn [mbind outcome_bind]. rewrite E2. cbn [mbind outcome_bind]. rewrite E3. cbn [mbind outcome_bind].
  destruct kh as [|k0 [|k1 [|k2 [|k3 [|? ?]]]]]; cbn in L3; try lia. cbn [mbind outcome_bind rd].
  change (rd [k0; k1; k2; k3] 0) with (Done k0). change (rd [k0; k1; k2; k3] 1) with (Done k1).
  change (rd [k0; k1; k2; k3] 2) with (Done k2). change (rd [k0; k1; k2; k3] 3) with (Done k3). cbn [mbind outcome_bind].
  eexists. split; [reflexivity|]. split; [done|]. split; [|done]. split; [done|]. split; [done|]. cbn [macset mackey1 mackey2 ctx_recv lenpad].
  exists a1, a2, [k0; k1; k2; k3], a3. split_and!; try done. by exists k0, k1, k2, k3.
Qed.

#[local] Opaque packet_mac xor_bytes fips_sha1 putint.

Context (react : list event -> bool) (Hps : 0 <= pktsize < 2 ^ 31).

Lemma frame_window buf cp eom (p f rest : list Z) :
  0 <= cp <= eom -> eom <= Z.of_nat (length buf) -> length f = (20 + length p)%nat -> window buf cp eom = f ++ rest ->
  Z.of_nat (20 + length p) <= eom - cp /\ slice buf cp 4 = Done (take 4 f)
  /\ slice buf (cp + 4) (Z.of_nat (length p) + 16) = Done (drop 4 f).
Proof using.
  clear. intros Hcp Heom Lf Hw. pose proof (window_length buf cp eom ltac:(lia) Heom) as Hl. rewrite Hw, length_app in Hl.
  split; [lia|]. rewrite (window_slice buf cp eom 4) by lia. rewrite (window_slice buf (cp + 4) eom) by lia.
  rewrite window_drop, Hw by lia. rewrite take_app_le by (change (Z.to_nat 4) with 4%nat; lia). split; [done|].
  change (Z.to_nat 4) with 4%nat. rewrite drop_app_le by lia. rewrite take_app_length'; [done|]. rewrite length_drop. lia.
Qed.

(** A whole frame is decrypted, its code is right, and the packet is
    delivered. *)
Lemma crypt_getpkt_packet c a buf cp eom p f a' rest :
  synced c a -> cb (rcv (cbase c)) = true -> pktbuf (rcv (cbase c)) = Some buf -> 0 <= cp <= eom -> eom <= Z.of_nat (length buf) ->
  Z.of_nat (length p) <= pktsize -> crypt_frame a p = Done (f, a') -> window buf cp eom = f ++ rest ->
  exists c' buf', crypt_getpkt pktsize junk react c cp eom = Done (true, cp + Z.of_nat (length f), c')
    /\ cbase c' = call_cb react (Pkt p) (set_rcv (cbase c) (set_pkt (rcv (cbase c)) (pktlen (rcv (cbase c))) (Some buf')))
    /\ synced c' a' /\ length buf' = length buf /\ window buf' (cp + Z.of_nat (length f)) eom = rest.
Proof using Hjunk Hps.
  intros Hs Hcb Hbuf Hcp Heom Hp Hf Hw. unfold crypt_getpkt. pose proof Hs as (Hcr & Hok & _). rewrite Hcr. cbn [negb].
  destruct (set_mackeys_spec c a Hs) as (c1 & -> & Hm & Hs1 & Hb1). cbn [mbind outcome_bind]. rewrite Hb1, Hcb, Hbuf.
  destruct (frame_split a p Hok) as (mk1 & mk2 & kh & kp & km & a1 & a2 & a3 & a4 & a5 & E1 & E2 & E3 & E4 & E5 & A5 & L1 & L2 & L3 & L4 & L5 & B3 & E).
  rewrite E in Hf. apply done_pair_inj in Hf as [Ef Ea']. set (hdr := putint _) in *.
  destruct Hs1 as (Hcr1 & _ & Hmac). rewrite Hm in Hmac. destruct Hmac as (b1 & b2 & kh' & b3 & G1 & G2 & G3 & G4 & k0 & k1 & k2 & k3 & Ekh & Elp).
  rewrite E1 in G1. apply done_pair_inj in G1 as [-> <-]. rewrite E2 in G2. apply done_pair_inj in G2 as [-> <-].
  rewrite E3 in G3. apply done_pair_inj in G3 as [-> <-]. subst kh'.
  assert (Lh : length hdr = 4%nat) by done.
  assert (Lf : length f = (20 + length p)%nat).
  { rewrite <- Ef. by apply parts_length. }
  destruct (frame_window buf cp eom p f rest ltac:(lia) Heom Lf Hw) as (Hroom & S4 & Sp).
  destruct (Z.ltb_spec (eom - cp) 4); [lia|]. cbn [negb orb]. rewrite S4. cbn [mbind outcome_bind].
  assert (Et4 : take 4 f = xor_bytes hdr [k0; k1; k2; k3]) by (rewrite <- Ef; apply take_app_length'; by rewrite xor_bytes_length).
  assert (Ed4 : drop 4 f = xor_bytes p kp ++ xor_bytes (packet_mac (mackey1 c1) (mackey2 c1) p) km)
    by (rewrite <- Ef; apply drop_app_length'; by rewrite xor_bytes_length).
  rewrite !Forall_cons in B3. destruct B3 as (K0 & K1 & K2 & K3 & _).
  destruct (header_xor (0x80000000 .| Z.of_nat (length p)) k0 k1 k2 k3 ltac:(rewrite header_add; lia) K0 K1 K2 K3) as (h & Eh & Hx).
  fold hdr in Eh. rewrite Et4, Eh. cbn [mbind outcome_bind].
  rewrite Elp, Hx. fold hdr. rewrite header_add by lia. destruct (Z.eqb_spec (2 ^ 31 + Z.of_nat (length p)) 0); [lia|].
  unfold checklen. rewrite header_top, header_len by lia. destruct (Z.ltb_spec pktsize (Z.of_nat (length p))); [lia|]. cbn [mbind outcome_bind].
  unfold macsize. destruct (Z.ltb_spec eom (cp + 4 + Z.of_nat (length p) + 16)); [lia|]. rewrite Sp. cbn [mbind outcome_bind].
  replace (Z.to_nat (Z.of_nat (length p) + 16)) with (length p + 16)%nat by lia.
  rewrite G4, getbytes_app, E4. cbn [mbind outcome_bind]. rewrite E5. cbn [mbind outcome_bind].
  assert (Edec : xor_bytes (drop 4 f) (kp ++ km) = p ++ packet_mac (mackey1 c1) (mackey2 c1) p).
  { rewrite Ed4, xor_bytes_app by (by rewrite xor_bytes_length). rewrite !xor_bytes_twice; rewrite ?packet_mac_length; done. }
  rewrite Edec. set (mac := packet_mac _ _ _). assert (Lm : length mac = 16%nat) by apply packet_mac_length.
  rewrite copy_in_at by (rewrite ?length_app; lia). cbn [mbind outcome_bind]. set (buf' := take _ buf ++ _).
  rewrite Nat2Z.id, take_app_length, drop_app_length. rewrite mac_of_spec.
  2:{ cbn [concat]. rewrite !length_app. cbn [length]. rewrite L1, L2, Lh. lia. }
  cbn [mbind outcome_bind concat]. rewrite app_nil_r.
  change (take 16 (fips_sha1 (mackey1 c1 ++ hdr ++ p ++ mackey2 c1))) with mac.
  rewrite bool_decide_true by done. cbn [negb].
  assert (Lb : length buf' = length buf).
  { unfold buf'. rewrite !length_app, length_take, length_drop. lia. }
  match goal with |- context [Done (true, _, ?x)] => exists x, buf' end. split; [rewrite Lf; do 3 f_equal; lia|].
  split; [done|]. split; [by subst a'|]. split; [done|].
  assert (Er : window buf (cp + Z.of_nat (length f)) eom = rest).
  { rewrite window_drop, Hw by lia. rewrite Nat2Z.id. apply drop_app_length. }
  rewrite <- Er. unfold window. f_equal. unfold buf'. rewrite app_assoc, drop_app_ge by (rewrite !length_app, length_take, Lf; lia).
  rewrite drop_drop. f_equal. rewrite !length_app, length_take, Lf. lia.
Qed.

(** A part of a frame, not all of it. *)
Definition cpartial (a : arc4) (tl : list Z) : Prop :=
  tl = [] \/ exists p f a' rest, Z.of_nat (length p) <= pktsize /\ crypt_frame a p = Done (f, a') /\ f = tl ++ rest /\ rest <> [].

Lemma crypt_getpkt_partial c a buf cp eom :
  synced c a -> cb (rcv (cbase c)) = true -> pktbuf (rcv (cbase c)) = Some buf -> 0 <= cp <= eom -> eom <= Z.of_nat (length buf) ->
  cpartial a (window buf cp eom) ->
  exists c', crypt_getpkt pktsize junk react c cp eom = Done (false, cp, c') /\ cbase c' = cbase c /\ synced c' a.
Proof using Hps.
  clear Hjunk. intros Hs Hcb Hbuf Hcp Heom Hw. unfold crypt_getpkt. pose proof Hs as (Hcr & Hok & _). rewrite Hcr. cbn [negb].
  destruct (set_mackeys_spec c a Hs) as (c1 & -> & Hm & Hs1 & Hb1). cbn [mbind outcome_bind]. rewrite Hb1, Hcb, Hbuf.
  pose proof (window_length buf cp eom ltac:(lia) Heom) as Hl. destruct (Z.ltb_spec (eom - cp) 4) as [|Hge]; cbn [negb orb]; [by exists c1|].
  destruct Hw as [Hw|(p & f & a' & rest & Hp & Hf & Hw & Hr)]; [rewrite Hw in Hl; cbn in Hl; lia|].
  destruct (frame_split a p Hok) as (mk1 & mk2 & kh & kp & km & a1 & a2 & a3 & a4 & a5 & E1 & E2 & E3 & E4 & E5 & A5 & L1 & L2 & L3 & L4 & L5 & B3 & E).
  rewrite E in Hf. apply done_pair_inj in Hf as [Ef Ea']. set (hdr := putint _) in *.
  pose proof Hs1 as (Hcr1 & _ & Hmac). rewrite Hm in Hmac. destruct Hmac as (b1 & b2 & kh' & b3 & G1 & G2 & G3 & G4 & k0 & k1 & k2 & k3 & Ekh & Elp).
  rewrite E1 in G1. apply done_pair_inj in G1 as [-> <-]. rewrite E2 in G2. apply done_pair_inj in G2 as [-> <-].
  rewrite E3 in G3. apply done_pair_inj in G3 as [-> <-]. subst kh'.
  assert (Lh : length hdr = 4%nat) by done.
  assert (Lf : length f = (20 + length p)%nat) by (rewrite <- Ef; by apply parts_length).
  assert (Hlen : length f = (length (window buf cp eom) + length rest)%nat) by (rewrite Hw; apply length_app).
  assert (length rest <> 0%nat) by (by destruct rest).
  rewrite (window_slice buf cp eom 4) by lia. change (Z.to_nat 4) with 4%nat.
  assert (Et4 : take 4 (window buf cp eom) = xor_bytes hdr [k0; k1; k2; k3]).
  { transitivity (take 4 f); [rewrite Hw; by rewrite take_app_le by lia|]. rewrite <- Ef. apply take_app_length'. by rewrite xor_bytes_length. }
  rewrite !Forall_cons in B3. destruct B3 as (K0 & K1 & K2 & K3 & _).
  destruct (header_xor (0x80000000 .| Z.of_nat (length p)) k0 k1 k2 k3 ltac:(rewrite header_add; lia) K0 K1 K2 K3) as (h & Eh & Hx).
  fold hdr in Eh. rewrite Et4. cbn [mbind outcome_bind]. rewrite Eh. cbn [mbind outcome_bind].
  rewrite Elp, Hx. fold hdr. rewrite header_add by lia. destruct (Z.eqb_spec (2 ^ 31 + Z.of_nat (length p)) 0); [lia|].
  unfold checklen. rewrite header_top, header_len by lia. destruct (Z.ltb_spec pktsize (Z.of_nat (length p))); [lia|]. cbn [mbind outcome_bind].
  unfold macsize. destruct (Z.ltb_spec eom (cp + 4 + Z.of_nat (length p) + 16)); [|lia]. by exists c1.
Qed.

(** All whole frames of the buffer are delivered. *)
Lemma crypt_getpkts_spec (Hreact : forall l, react l = true) fuel ps c a buf cp eom bytes a' tl :
  synced c a -> cb (rcv (cbase c)) = true -> pktbuf (rcv (cbase c)) = Some buf -> 0 <= cp <= eom -> eom <= Z.of_nat (length buf) ->
  Forall (fun p => Z.of_nat (length p) <= pktsize) ps -> crypt_frames a ps = Done (bytes, a') -> cpartial a' tl ->
  window buf cp eom = bytes ++ tl -> (length ps < fuel)%nat ->
  exists c' buf', crypt_getpkts pktsize junk react fuel c cp eom = Done (cp + Z.of_nat (length bytes), c')
    /\ synced c' a' /\ fd (cbase c') = fd (cbase c) /\ events (rcv (cbase c')) = events (rcv (cbase c)) ++ (Pkt <$> ps)
    /\ pktbuf (rcv (cbase c')) = Some buf' /\ window buf' (cp + Z.of_nat (length bytes)) eom = tl.
Proof using Hps Hjunk.
  intros Hs Hcb Hbuf Hcp Heom Hall Hfr Htl. revert fuel c a buf cp bytes Hs Hcb Hbuf Hcp Heom Hfr.
  induction Hall as [|p ps Hp Hall IH]; intros fuel c a buf cp bytes Hs Hcb Hbuf Hcp Heom Hfr Hw Hf; (destruct fuel as [|fuel]; [cbn in Hf; lia|]);
    cbn [crypt_getpkts]; rewrite Hcb.
  - cbn in Hfr. apply done_pair_inj in Hfr as [<- <-]. cbn [app] in Hw.
    destruct (crypt_getpkt_partial c a buf cp eom Hs Hcb Hbuf Hcp Heom) as (c' & -> & Hb & Hs'); [by rewrite Hw|].
    cbn [mbind outcome_bind]. exists c', buf. rewrite Hb. cbn [fmap list_fmap length]. rewrite app_nil_r, Z.add_0_r. by split_and!.
  - cbn [crypt_frames] in Hfr. destruct Hs as (Hcr & Hok & Hrest). destruct (crypt_frame_ok a p Hok) as (f & a1 & Ef & Lf & Hok1).
    assert (Hs : synced c a) by (by split_and!). rewrite Ef in Hfr. cbn [mbind outcome_bind] in Hfr.
    destruct (crypt_frames a1 ps) as [[l a2]| | |] eqn:El; try done. cbn [mbind outcome_bind] in Hfr.
    apply done_pair_inj in Hfr as [<- <-]. rewrite <- app_assoc in Hw.
    destruct (crypt_getpkt_packet c a buf cp eom p f a1 (l ++ tl) Hs Hcb Hbuf Hcp Heom Hp Ef Hw) as (c1 & buf1 & E1 & B1 & S1 & L1 & W1).
    rewrite E1. cbn [mbind outcome_bind].
    pose proof (window_length buf cp eom ltac:(lia) Heom) as Hl. rewrite Hw, !length_app in Hl.
    assert (Ecb : cbase c1 = set_rcv (cbase c) (add_event (set_pkt (rcv (cbase c)) (pktlen (rcv (cbase c))) (Some buf1)) (Pkt p))).
    { rewrite B1. unfold call_cb. by rewrite Hreact. }
    destruct (IH fuel c1 a1 buf1 (cp + Z.of_nat (length f)) l S1) as (c' & buf' & E' & S' & F' & V' & P' & W'); try done.
    + by rewrite Ecb.
    + by rewrite Ecb.
    + lia.
    + lia.
    + cbn in Hf. lia.
    + exists c', buf'. rewrite length_app. split_and!; try done.
      * rewrite E'. do 2 f_equal. lia.
      * by rewrite F', Ecb.
      * rewrite V', Ecb. cbn. by rewrite <- app_assoc.
      * rewrite <- W'. f_equal. lia.
Qed.
End crypt.

(** ** Sending *)
Section sender.
Context (pktsize : Z) (junk : Z -> list Z) (Hjunk : forall n, 0 <= n -> Z.of_nat (length (junk n)) = n).
Context (react : list event -> bool) (Hps : 0 <= pktsize < 2 ^ 31).

Lemma getspace_pieces w s n p w' s' : getspace junk w s n = Done (p, w', s') -> pieces s' = pieces s.
Proof using.
  clear. unfold getspace. destruct (_ <=? _); [by intros [= _ _ <-]|].
  destruct (morescratch junk w s n) as [[w1 s1]| | |] eqn:E; try done. apply morescratch_pieces in E. by intros [= _ _ <-].
Qed.

(** Bytes written into the space that [getspace] gave, and printed. *)
Lemma space_print w s q d :
  rep w s q -> (0 < length d)%nat ->
  exists p w1 s1 w2 w3 s3, getspace junk w s (Z.of_nat (length d)) = Done (p, w1, s1) /\ store w1 (p.1) (p.2) d = Done w2
    /\ print junk w2 s1 p (Z.of_nat (length d)) = Done (w3, s3) /\ rep w3 s3 (q_append q d) /\ pieces s <= pieces s3.
Proof using Hjunk.
  intros R Hd. destruct (getspace_spec junk Hjunk w s q (Z.of_nat (length d)) R ltac:(lia)) as (w1 & s1 & E1 & R1 & Hroom).
  pose proof (getspace_pieces _ _ _ _ _ _ E1) as P1.
  destruct (store_scratch w1 s1 d (rep_ok _ _ _ R1) Hroom) as (w2 & E2 & O2 & C2 & _ & K2 & _).
  assert (R2 : rep w2 s1 q) by (destruct R1 as [_ B P L]; split; try done; congruence).
  destruct (scratch_append w2 s1 q d R2 (load_store _ _ _ _ _ E2)) as (s3 & E3 & R3 & _).
  exists (scratch_ptr s1), w1, s1, w2, w2, s3. split_and!; try done.
  - unfold print. rewrite bool_decide_true by done. cbn [negb]. rewrite andb_false_r, E3. done.
  - apply pushiov_pieces in E3. lia.
Qed.

Definition csending (c : axprt_crypt) (a : arc4) (all : list Z) : Prop :=
  sending (cbase c) all /\ cryptsend c = true /\ ctx_send c = a /\ arc4_ok a.

Lemma crypt_sendv_spec iov c a all f a' :
  csending c a all -> fd (cbase c) = true -> Z.of_nat (length (concat iov)) <= pktsize -> crypt_frame a (concat iov) = Done (f, a') ->
  exists c', crypt_sendv pktsize junk react iov c = Done c' /\ csending c' a' (all ++ f)
    /\ exists used, kern (snd_ (cbase c)) = used ++ kern (snd_ (cbase c')) /\ (fd (cbase c') = false -> Werr ∈ used).
Proof using Hjunk Hps.
  intros ((Hd & Hs) & Hcs & Hctx & Hok) Hfd Hlen Hf. rewrite Hfd in Hs. destruct Hs as (q & [R Hsy] & Hall & Hwc).
  set (p := concat iov) in *. unfold crypt_sendv. rewrite Hfd, Hcs, Hctx. cbn [negb]. rewrite iovsize_concat. fold p.
  rewrite u32_small by lia. destruct (Z.ltb_spec pktsize (Z.of_nat (length p))); [lia|].
  destruct (frame_split a p Hok) as (mk1 & mk2 & kh & kp & km & a1 & a2 & a3 & a4 & a5 & E1 & E2 & E3 & E4 & E5 & A5 & L1 & L2 & L3 & L4 & L5 & B3 & E).
  rewrite E in Hf. apply done_pair_inj in Hf as [Ef <-]. rewrite E1. cbn [mbind outcome_bind]. rewrite E2. cbn [mbind outcome_bind].
  assert (Lf : length f = (20 + length p)%nat) by (rewrite <- Ef; by apply parts_length).
  destruct (space_print (mem (snd_ (cbase c))) (out (snd_ (cbase c))) q f R ltac:(lia)) as (b & w1 & s1 & w2 & w3 & s3 & G1 & G2 & G3 & R3 & P3).
  replace (Z.of_nat (length p) + macsize + 4) with (Z.of_nat (length f)) by (unfold macsize; lia). rewrite G1. cbn [mbind outcome_bind].
  set (hdr := putint _) in *. assert (Lh : length hdr = 4%nat) by done.
  rewrite (mac_of_spec junk Hjunk) by (cbn [concat]; rewrite !length_app; cbn [length]; lia). cbn [mbind outcome_bind concat].
  rewrite app_nil_r. replace (mk1 ++ (hdr ++ p) ++ mk2) with (mk1 ++ hdr ++ p ++ mk2) by (by rewrite <- !app_assoc).
  change (take 16 (fips_sha1 (mk1 ++ hdr ++ p ++ mk2))) with (packet_mac mk1 mk2 p).
  replace (Z.to_nat (Z.of_nat (length p) + 4)) with (4 + length p)%nat by lia. rewrite getbytes_app, E3. cbn [mbind outcome_bind].
  rewrite E4. cbn [mbind outcome_bind]. change (Z.to_nat macsize) with 16%nat. rewrite E5. cbn [mbind outcome_bind].
  rewrite xor_bytes_app by lia. rewrite <- app_assoc, Ef, G2. cbn [mbind outcome_bind]. rewrite Z.eqb_refl. cbn [assertM mbind outcome_bind].
  rewrite G3. cbn [mbind outcome_bind cbase]. set (t := mktx _ _ _ _ _ _ _ _).
  assert (T : tx_ok t (q_append q f)) by (apply (tx_push (snd_ (cbase c)) q); done).
  assert (Hall' : wire t ++ q_bytes (q_append q f) = all ++ f) by (cbn; rewrite <- Hall; by rewrite app_assoc).
  destruct (uiobytes (out (snd_ (cbase c))) =? 0) eqn:Eblk; cbn [negb].
  - destruct (st_output_spec react (set_snd (cbase c) t) (q_append q f) (all ++ f) Hd Hfd T Hall') as (a0 & -> & S0 & used & U & He).
    cbn [mbind outcome_bind]. eexists. split; [reflexivity|]. split; [by split_and!|]. by exists used.
  - eexists. split; [reflexivity|]. split; [split_and!; try done|].
    + split; [done|]. cbn [cbase fd set_snd]. rewrite Hfd. exists (q_append q f). split; [done|]. split; [done|]. cbn.
      rewrite Hwc, !bool_decide_false; [done| |].
      * intros En. apply app_nil in En as [_ En]. rewrite En in Lf. cbn in Lf. lia.
      * intros En. rewrite (rep_len _ _ _ R) in Eblk. unfold q_len in Eblk. by rewrite En in Eblk.
    + exists []. split; [done|]. cbn. by rewrite Hfd.
Qed.

(** The packets, one after the other, as long as the connection is open. *)
Fixpoint crypt_sends (l : list (list (list Z))) (c : axprt_crypt) : outcome axprt_crypt :=
  match l with
  | [] => Done c
  | iov :: l => c ← (if fd (cbase c) then crypt_sendv pktsize junk react iov c else Done c); crypt_sends l c
  end.

Lemma crypt_sends_closed l c : fd (cbase c) = false -> crypt_sends l c = Done c.
Proof using. clear. intros H. induction l as [|iov l IH]; [done|]. cbn [crypt_sends]. rewrite H. cbn [mbind outcome_bind]. done. Qed.

Lemma crypt_sends_spec l c a all bytes a' :
  csending c a all -> fd (cbase c) = true -> Forall (fun iov => Z.of_nat (length (concat iov)) <= pktsize) l ->
  crypt_frames a (@concat Z <$> l) = Done (bytes, a') ->
  exists c', crypt_sends l c = Done c' /\ sending (cbase c') (all ++ bytes)
    /\ exists used, kern (snd_ (cbase c)) = used ++ kern (snd_ (cbase c')) /\ (fd (cbase c') = false -> Werr ∈ used).
Proof using Hjunk Hps.
  intros Hs Hfd Hl. revert c a all bytes Hs Hfd. induction Hl as [|iov l Hp Hl IH]; intros c a all bytes Hs Hfd Hfr.
  { cbn in Hfr. apply done_pair_inj in Hfr as [<- <-]. exists c. rewrite app_nil_r. split; [done|]. split; [apply Hs|].
    exists []. split; [done|]. congruence. }
  cbn [fmap list_fmap crypt_frames] in Hfr. pose proof Hs as (_ & _ & _ & Hok).
  destruct (crypt_frame_ok a (concat iov) Hok) as (f & a1 & Ef & _ & Hok1). rewrite Ef in Hfr. cbn [mbind outcome_bind] in Hfr.
  destruct (crypt_frames a1 (@concat Z <$> l)) as [[b a2]| | |] eqn:Eb; try done. cbn [mbind outcome_bind] in Hfr.
  apply done_pair_inj in Hfr as [<- <-]. cbn [crypt_sends]. rewrite Hfd.
  destruct (crypt_sendv_spec iov c a all f a1 Hs Hfd Hp Ef) as (c1 & -> & S1 & used & U & He). cbn [mbind outcome_bind].
  destruct (fd (cbase c1)) eqn:Ef1.
  - destruct (IH c1 a1 (all ++ f) b S1 Ef1 Eb) as (c' & -> & S' & used' & U' & He'). exists c'. rewrite app_assoc.
    split; [done|]. split; [done|]. exists (used ++ used'). split; [by rewrite U, U', app_assoc|].
    intros Hx. apply elem_of_app. right. by apply He'.
  - rewrite crypt_sends_closed by done. exists c1. split; [done|]. split.
    + destruct S1 as ((Hd1 & Hq) & _). split; [done|]. rewrite Ef1 in *. destruct Hq as (rest & q & Hw & Hq).
      exists (rest ++ b), q. split; [|done]. by rewrite app_assoc, Hw, <- app_assoc.
    + exists used. split; [done|]. intros _. by apply He.
Qed.
End sender.

(** ** Properties *)
Lemma crypt_frames_done a ps : arc4_ok a -> exists bytes a', crypt_frames a ps = Done (bytes, a') /\ arc4_ok a'.
Proof.
  revert a. induction ps as [|p ps IH]; intros a Ha; cbn [crypt_frames]; [by exists [], a|].
  destruct (crypt_frame_ok a p Ha) as (f & a1 & -> & _ & H1). cbn [mbind outcome_bind].
  destruct (IH a1 H1) as (b & a2 & -> & H2). cbn [mbind outcome_bind]. by exists (f ++ b), a2.
Qed.

(** C14: Two encrypted streams whose keys match (one's sending key, of at most
    128 bytes, is the other's receiving key).  The sender sends packets of at
    most [pktsize] bytes with any answers of the kernel: no operation fails,
    and the bytes on the wire followed by those that wait are the encrypted
    frames of all packets.  A receiver whose buffer holds these bytes
    delivers exactly the packets, in order, with the right codes. *)
Theorem crypt_stream_roundtrip pktsize junk react blk ks key other l :
  (forall n, 0 <= n -> Z.of_nat (length (junk n)) = n) -> 0 <= pktsize < 2 ^ 31 -> Z.of_nat (length blk) = smallbufsize ->
  (length key <= 128)%nat -> (length other <= 128)%nat -> Forall (fun iov => Z.of_nat (length (concat iov)) <= pktsize) l ->
  exists s s' bytes, encrypt react key other false (axprt_crypt_new junk (start blk) ks) = Done s
    /\ crypt_sends pktsize junk react l s = Done s'
    /\ (exists rest, wire (snd_ (cbase s')) ++ rest = bytes
         /\ (fd (cbase s') = true -> copyout (mem (snd_ (cbase s'))) (out (snd_ (cbase s'))) (uiobytes (out (snd_ (cbase s')))) = Done rest)
         /\ (fd (cbase s') = false -> Werr ∈ ks))
    /\ forall c r buf, (forall e, react e = true) -> cb (rcv (cbase c)) = true -> pktbuf (rcv (cbase c)) = Some buf ->
         macset c = false -> ctx_recv c = arc4_reset -> encrypt react other key false c = Done r ->
         window buf 0 (Z.of_nat (length bytes)) = bytes -> Z.of_nat (length bytes) <= Z.of_nat (length buf) ->
         exists r', crypt_getpkts pktsize junk react (S (length l)) r 0 (Z.of_nat (length bytes)) = Done (Z.of_nat (length bytes), r')
           /\ events (rcv (cbase r')) = events (rcv (cbase c)) ++ (Pkt <$> (@concat Z <$> l)) /\ fd (cbase r') = fd (cbase c).
Proof.
  intros Hj Hps Hb Hk Ho Hl. destruct (setkey_ok key arc4_reset reset_ok Hk) as (a & Ek & Ha).
  destruct (setkey_ok other arc4_reset reset_ok Ho) as (a0 & Eo & _).
  destruct (crypt_frames_done a (@concat Z <$> l) Ha) as (bytes & a' & Ef & _).
  eexists. assert (Es : encrypt react key other false (axprt_crypt_new junk (start blk) ks)
    = Done (mkcrypt (axprt_stream_new (start blk) ks) a a0 true true false (junk 16) (junk 16) 0)).
  { unfold encrypt. cbn [axprt_crypt_new ctx_send ctx_recv]. rewrite Ek. cbn [mbind outcome_bind]. by rewrite Eo. }
  destruct (crypt_sends_spec pktsize junk Hj react Hps l (mkcrypt (axprt_stream_new (start blk) ks) a a0 true true false (junk 16) (junk 16) 0)
    a [] bytes a') as (s' & E' & S' & used & U & He); try done.
  { split; [by apply new_sending|done]. }
  exists s', bytes. split; [exact Es|]. split; [exact E'|]. split.
  - destruct S' as [_ Hq]. cbn [app] in Hq. destruct (fd (cbase s')) eqn:Efd.
    + destruct Hq as (q & [R _] & Hall & _). exists (q_bytes q). split; [done|]. split; [|done]. intros _.
      rewrite (rep_len _ _ _ R), (copyout_spec _ _ q) by (done || unfold q_len; lia). f_equal. apply take_ge. unfold q_len. lia.
    + destruct Hq as (rest & q & Hall & _). exists rest. split; [done|]. split; [done|]. intros _. cbn in U. rewrite U.
      apply elem_of_app. left. by apply He.
  - intros c r buf Hr Hcb Hbuf Hm Hc Er Hw Hlen. unfold encrypt in Er. rewrite Hc, Ek in Er.
    destruct (arc4_setkey other (ctx_send c)) as [x| | |]; try done. cbn [mbind outcome_bind] in Er. injection Er as <-.
    destruct (crypt_getpkts_spec pktsize junk Hj react Hps Hr (S (length l)) (@concat Z <$> l)
      (mkcrypt (cbase c) x a true true (macset c) (mackey1 c) (mackey2 c) (lenpad c)) a buf 0 (Z.of_nat (length bytes)) bytes a' [])
      as (r' & buf' & E2 & _ & F2 & V2 & _); try done.
    + split; [done|]. split; [done|]. cbn. by rewrite Hm.
    + lia.
    + by apply Forall_fmap.
    + by left.
    + by rewrite app_nil_r.
    + rewrite length_fmap. lia.
    + exists r'. split; [exact E2|]. split; [exact V2|exact F2].
Qed.

(** A receiver for the witness: its buffer holds the bytes. *)
Definition crypt_receiver (bytes : list Z) : axprt_crypt :=
  mkcrypt (mkax false true (mkrx true true true (Z.of_nat (length bytes)) (Some bytes) 0 [] [])
                (mktx [] suio_new false 0 0 (start []) [] []))
          arc4_reset arc4_reset false false false [] [] 0.

Lemma encrypt_receiver react sk rk bytes :
  (length sk <= 128)%nat -> (length rk <= 128)%nat -> exists r, encrypt react sk rk false (crypt_receiver bytes) = Done r.
Proof.
  intros Hs Hr. destruct (setkey_ok sk arc4_reset reset_ok Hs) as (x & Ex & _).
  destruct (setkey_ok rk arc4_reset reset_ok Hr) as (y & Ey & _). eexists. unfold encrypt.
  cbn [crypt_receiver ctx_send ctx_recv]. rewrite Ex. cbn [mbind outcome_bind]. rewrite Ey. cbn [mbind outcome_bind]. reflexivity.
Qed.

Lemma crypt_stream_roundtrip_witness :
  exists s s' bytes, encrypt always [1; 2; 3] [9] false (axprt_crypt_new zeros (start (zeros 128)) [Wrote 30; Again]) = Done s
    /\ crypt_sends 100 zeros always [[[65; 66]; [67]]; [[1]]] s = Done s'
    /\ exists r r', encrypt always [9] [1; 2; 3] false (crypt_receiver bytes) = Done r
      /\ crypt_getpkts 100 zeros always 3 r 0 (Z.of_nat (length bytes)) = Done (Z.of_nat (length bytes), r')
      /\ events (rcv (cbase r')) = [Pkt [65; 66; 67]; Pkt [1]].
Proof.
  destruct (crypt_stream_roundtrip 100 zeros always (zeros 128) [Wrote 30; Again] [1; 2; 3] [9] [[[65; 66]; [67]]; [[1]]]
    zeros_length ltac:(lia) eq_refl ltac:(cbn; lia) ltac:(cbn; lia)) as (s & s' & bytes & E1 & E2 & _ & H).
  { repeat constructor; cbn; lia. }
  exists s, s', bytes. split; [exact E1|]. split; [exact E2|].
  destruct (encrypt_receiver always [9] [1; 2; 3] bytes) as [r Er]; [cbn; lia|cbn; lia|].
  destruct (H (crypt_receiver bytes) r bytes (fun _ => eq_refl) eq_refl eq_refl eq_refl eq_refl Er) as (r' & E3 & V & _).
  { unfold window. rewrite Z.sub_0_r, Nat2Z.id. change (Z.to_nat 0) with 0%nat. rewrite drop_0. apply take_ge. lia. }
  { lia. }
  exists r, r'. split; [exact Er|]. split; [exact E3|exact V].
Defined.

(** ** Forged packets *)
Lemma fail_events react a a' :
  fail react a = Done a' -> events (rcv a') = events (rcv a) \/ events (rcv a') = events (rcv a) ++ [Eof].
Proof.
  unfold fail. set (a1 := if fd a then _ else a). assert (E1 : events (rcv a1) = events (rcv a)) by (unfold a1; by destruct (fd a)).
  destruct (destroyed a1); [intros [= <-]; by left|]. set (a2 := if cb (rcv a1) && _ then _ else a1).
  destruct (clear _ _) as [[w o]| | |]; try done. intros [= <-]. cbn [set_snd rcv]. unfold a2.
  destruct (_ && _); [|by left]. right. rewrite <- E1. unfold call_cb. destruct (react _); [done|]. by destruct (fd a1).
Qed.

Lemma call_cb_events react e a : events (rcv (call_cb react e a)) = events (rcv a) ++ [e].
Proof. unfold call_cb. destruct (react _); [done|]. cbn. by destruct (fd a). Qed.

(** A header that passes the checks is that of a packet. *)
Lemma header_inv len :
  0 <= len < 2 ^ 32 -> (len .& 0x80000000 =? 0) = false -> len = 0x80000000 .| (len .& 0x7fffffff).
Proof.
  intros Hl Ht. assert (Hb : Z.testbit len 31 = true).
  { destruct (Z.testbit len 31) eqn:E; [done|]. exfalso. apply Z.eqb_neq in Ht. apply Ht. apply Z.bits_inj'. intros i Hi.
    rewrite Z.land_spec, Z.testbit_0_l. change 0x80000000 with (2 ^ 31). rewrite Z.pow2_bits_eqb by lia.
    destruct (Z.eqb_spec 31 i) as [<-|]; [by rewrite E|by rewrite andb_false_r]. }
  apply Z.bits_inj'. intros i Hi. rewrite Z.lor_spec, Z.land_spec. change 0x80000000 with (2 ^ 31). change 0x7fffffff with (Z.ones 31).
  rewrite Z.pow2_bits_eqb by lia. destruct (Z.lt_total i 31) as [H|[->|H]].
  - rewrite Z.ones_spec_low by lia. destruct (Z.eqb_spec 31 i); [lia|]. by rewrite andb_true_r.
  - by rewrite Hb.
  - rewrite Z.ones_spec_high by lia. destruct (Z.eqb_spec 31 i); [lia|]. rewrite (testbit_high len 32) by lia. by rewrite andb_false_r.
Qed.

Lemma u32_range x : 0 <= u32 x < 2 ^ 32.
Proof. rewrite u32_mod. apply Z.mod_pos_bound. lia. Qed.

Lemma lxor_u32 x y : 0 <= x < 2 ^ 32 -> 0 <= y < 2 ^ 32 -> 0 <= x .^ y < 2 ^ 32.
Proof.
  intros Hx Hy. assert (E : u32 (x .^ y) = x .^ y); [|rewrite <- E; apply u32_range].
  apply Z.bits_inj'. intros i Hi. unfold u32. rewrite (uN_bit 4294967295 32) by (done || lia). rewrite Z.lxor_spec.
  destruct (Z.ltb_spec i 32); [done|]. by rewrite !(testbit_high _ 32) by lia.
Qed.

Lemma getint_range l h : getint l = Done h -> 0 <= h < 2 ^ 32.
Proof.
  unfold getint. destruct (rd l 0); try done. cbn [mbind outcome_bind]. destruct (rd l 1); try done. cbn [mbind outcome_bind].
  destruct (rd l 2); try done. cbn [mbind outcome_bind]. destruct (rd l 3); try done. cbn [mbind outcome_bind].
  intros H. injection H as <-. apply u32_range.
Qed.

Section forged.
Context (pktsize : Z) (junk : Z -> list Z) (react : list event -> bool).

Lemma getpkt_authentic c a cp eom more cp' c' :
  (forall n, 0 <= n -> Z.of_nat (length (junk n)) = n) -> 0 <= pktsize < 2 ^ 31 -> synced c a ->
  crypt_getpkt pktsize junk react c cp eom = Done (more, cp', c') ->
  events (rcv (cbase c')) = events (rcv (cbase c)) \/ events (rcv (cbase c')) = events (rcv (cbase c)) ++ [Eof]
  \/ exists c1 buf d enc ks ctx, events (rcv (cbase c')) = events (rcv (cbase c)) ++ [Pkt d] /\ set_mackeys c = Done c1
       /\ pktbuf (rcv (cbase c)) = Some buf /\ slice buf (cp + 4) (Z.of_nat (length d) + macsize) = Done enc
       /\ getbytes (length d + 16) (ctx_recv c1) = Done (ks, ctx)
       /\ xor_bytes enc ks = d ++ packet_mac (mackey1 c1) (mackey2 c1) d.
Proof using.
  intros Hj Hps Hs. unfold crypt_getpkt. pose proof Hs as (Hcr & Hok & _). rewrite Hcr. cbn [negb].
  destruct (set_mackeys_spec c a Hs) as (c1 & Ec1 & Hm & Hs1 & Hb1). rewrite Ec1. cbn [mbind outcome_bind]. rewrite Hb1.
  destruct (negb (cb (rcv (cbase c))) || (eom - cp <? 4)); [intros H; injection H as _ _ <-; left; by rewrite Hb1|].
  destruct (pktbuf (rcv (cbase c))) as [buf|] eqn:Ebuf; [|done].
  destruct (slice buf cp 4) as [hdr| | |]; try done. cbn [mbind outcome_bind].
  destruct (getint hdr) as [h| | |] eqn:Eh; try done. cbn [mbind outcome_bind]. apply getint_range in Eh.
  assert (Hlp : 0 <= lenpad c1 < 2 ^ 32).
  { destruct Hs1 as (_ & _ & Hx). rewrite Hm in Hx. destruct Hx as (? & ? & ? & ? & _ & _ & _ & _ & ? & ? & ? & ? & _ & ->). apply u32_range. }
  pose proof (lxor_u32 h (lenpad c1) Eh Hlp) as Hlen. set (len := h .^ lenpad c1) in *. clearbody len.
  assert (Hfail : forall (m0 : bool) (k0 : Z) x (cc : axprt_crypt), events (rcv x) = events (rcv (cbase c)) ->
    (a0 ← fail react x; Done (m0, k0, set_base cc a0)) = Done (more, cp', c') ->
    events (rcv (cbase c')) = events (rcv (cbase c)) \/ events (rcv (cbase c')) = events (rcv (cbase c)) ++ [Eof]).
  { intros m0 k0 x cc Hx. destruct (fail react x) as [a0| | |] eqn:Ef; try done. intros H. injection H as _ _ <-. cbn.
    rewrite <- Hx. by apply (fail_events react). }
  destruct (len =? 0); [intros H; destruct (Hfail _ _ _ _ eq_refl H); auto|].
  unfold checklen. destruct (len .& 0x80000000 =? 0) eqn:Etop.
  { destruct (fail react (cbase c)) as [a0| | |] eqn:Ef; try done. cbn [mbind outcome_bind]. intros H. injection H as _ _ <-.
    apply fail_events in Ef. cbn. destruct Ef; auto. }
  destruct (Z.ltb_spec pktsize (len .& 0x7fffffff)) as [Hbig|Hfit].
  { destruct (fail react (cbase c)) as [a0| | |] eqn:Ef; try done. cbn [mbind outcome_bind]. intros H. injection H as _ _ <-.
    apply fail_events in Ef. cbn. destruct Ef; auto. }
  cbn [mbind outcome_bind]. pose proof (header_inv len Hlen Etop) as Einv. set (n := len .& 0x7fffffff) in *.
  assert (Hn : 0 <= n) by (apply Z.land_nonneg; lia). clearbody n.
  destruct (eom <? _); [intros H; injection H as _ _ <-; left; by rewrite Hb1|].
  destruct (slice buf (cp + 4) (n + macsize)) as [enc| | |] eqn:Esl; try done. cbn [mbind outcome_bind].
  destruct (getbytes (Z.to_nat (n + macsize)) (ctx_recv c1)) as [[ks ctx]| | |] eqn:Ek; try done. cbn [mbind outcome_bind].
  set (dec := xor_bytes enc ks) in *. destruct (copy_in buf (cp + 4) dec) as [buf'| | |]; try done. cbn [mbind outcome_bind].
  assert (Lenc : length enc = Z.to_nat (n + macsize)).
  { unfold slice in Esl. destruct (Z.leb_spec 0 (cp + 4)), (Z.leb_spec 0 (n + macsize)),
      (Z.leb_spec (cp + 4 + (n + macsize)) (Z.of_nat (length buf))); cbn [andb] in Esl; try done.
    injection Esl as <-. rewrite length_take, length_drop. lia. }
  assert (Lks : length ks = Z.to_nat (n + macsize)).
  { destruct Hs1 as (_ & _ & Hx). rewrite Hm in Hx. destruct Hx as (b1 & b2 & kh & b3 & G1 & G2 & G3 & G4 & _).
    destruct (getbytes_ok 16 a Hok) as (? & ? & F1 & _ & _ & O1). rewrite G1 in F1. apply done_pair_inj in F1 as [_ <-].
    destruct (getbytes_ok 16 b1 O1) as (? & ? & F2 & _ & _ & O2). rewrite G2 in F2. apply done_pair_inj in F2 as [_ <-].
    destruct (getbytes_ok 4 b2 O2) as (? & ? & F3 & _ & _ & O3). rewrite G3 in F3. apply done_pair_inj in F3 as [_ <-].
    rewrite G4 in Ek. destruct (getbytes_ok (Z.to_nat (n + macsize)) b3 O3) as (? & ? & F4 & L4 & _). rewrite Ek in F4.
    apply done_pair_inj in F4 as [<- _]. done. }
  assert (Ldec : length dec = Z.to_nat (n + macsize)) by (unfold dec; rewrite xor_bytes_length; lia).
  set (d := take (Z.to_nat n) dec). assert (Ld : length d = Z.to_nat n) by (unfold d, macsize in *; rewrite length_take; lia).
  destruct (mac_of junk _) as [mac| | |] eqn:Emac; try done. cbn [mbind outcome_bind].
  case_bool_decide as Eq; cbn [negb].
  2:{ intros H. apply Hfail in H; [destruct H; auto|done]. }
  intros H. injection H as _ _ <-. right. right. exists c1, buf, d, enc, ks, ctx. cbn [cbase set_base]. rewrite call_cb_events.
  split_and!; try done.
  - rewrite Ld, Z2Nat.id by lia. done.
  - rewrite <- Ek. f_equal. unfold macsize. lia.
  - fold dec. rewrite <- (take_drop (Z.to_nat n) dec) at 1. fold d. f_equal. rewrite <- Eq.
    assert (Lk12 : length (mackey1 c1) = 16%nat /\ length (mackey2 c1) = 16%nat).
    { destruct Hs1 as (_ & _ & Hx). rewrite Hm in Hx. destruct Hx as (b1 & b2 & kh & b3 & G1 & G2 & _).
      destruct (getbytes_ok 16 a Hok) as (? & ? & F1 & LL1 & _ & O1). rewrite G1 in F1. apply done_pair_inj in F1 as [<- <-].
      destruct (getbytes_ok 16 b1 O1) as (? & ? & F2 & LL2 & _ & O2). rewrite G2 in F2. apply done_pair_inj in F2 as [<- _]. done. }
    destruct Lk12 as [K1 K2]. rewrite (mac_of_spec junk Hj) in Emac.
    2:{ cbn [concat]. rewrite !length_app, K1, K2. change (length (putint len)) with 4%nat. cbn [length]. lia. }
    apply done_inj in Emac. rewrite <- Emac. cbn [concat]. rewrite app_nil_r, Einv. unfold packet_mac. by rewrite Ld, Z2Nat.id by lia.
Qed.
End forged.

(** C26: An encrypted stream delivers no forged packet: whatever bytes arrive,
    [getpkt] of a receiver whose cipher is in step calls the callback with
    nothing, with the end of the connection, or with a packet whose decrypted
    bytes are followed by the authentication code that the two keys of this
    packet give to its header and contents. *)
Theorem crypt_delivers_only_authentic pktsize junk react c a cp eom more cp' c' :
  (forall n, 0 <= n -> Z.of_nat (length (junk n)) = n) -> 0 <= pktsize < 2 ^ 31 -> synced c a ->
  crypt_getpkt pktsize junk react c cp eom = Done (more, cp', c') ->
  events (rcv (cbase c')) = events (rcv (cbase c)) \/ events (rcv (cbase c')) = events (rcv (cbase c)) ++ [Eof]
  \/ exists c1 buf d enc ks ctx, events (rcv (cbase c')) = events (rcv (cbase c)) ++ [Pkt d] /\ set_mackeys c = Done c1
       /\ pktbuf (rcv (cbase c)) = Some buf /\ slice buf (cp + 4) (Z.of_nat (length d) + macsize) = Done enc
       /\ getbytes (length d + 16) (ctx_recv c1) = Done (ks, ctx)
       /\ xor_bytes enc ks = d ++ packet_mac (mackey1 c1) (mackey2 c1) d.
Proof. apply getpkt_authentic. Qed.

(** Thirty bytes that no sender made: the callback gets the end of the connection. *)
Lemma crypt_delivers_only_authentic_witness :
  let c := mkcrypt (cbase (crypt_receiver (zeros 30))) arc4_reset arc4_reset true true false [] [] 0 in
  exists more cp c', crypt_getpkt 100 zeros always c 0 30 = Done (more, cp, c')
    /\ (events (rcv (cbase c')) = [] \/ events (rcv (cbase c')) = [Eof]
        \/ exists c1 buf d enc ks ctx, events (rcv (cbase c')) = [Pkt d] /\ set_mackeys c = Done c1
             /\ pktbuf (rcv (cbase c)) = Some buf /\ slice buf (0 + 4) (Z.of_nat (length d) + macsize) = Done enc
             /\ getbytes (length d + 16) (ctx_recv c1) = Done (ks, ctx)
             /\ xor_bytes enc ks = d ++ packet_mac (mackey1 c1) (mackey2 c1) d).
Proof.
  intros c. destruct (crypt_getpkt 100 zeros always c 0 30) as [[[more cp] c']| | |] eqn:E; [|exfalso; vm_compute in E; discriminate E ..].
  exists more, cp, c'. split; [reflexivity|].
  exact (crypt_delivers_only_authentic 100 zeros always c arc4_reset 0 30 more cp c' zeros_length ltac:(lia)
           (conj eq_refl (conj reset_ok eq_refl)) E).
Defined.
