(* ===== verification/AesOps.v ===== *)
(** * The tables of AES are those of the standard, and words are columns *)
From Stdlib Require Import ZArith Lia Btauto.
From stdpp Require Import prelude.
From S2P Require Import Prelude Serial Aes.

(** ** Bytes *)
Lemma all_bytes (P : Z -> bool) : forallb P (seqZ 0 256) = true -> forall x, is_byte x -> P x = true.
Proof.
  intros H x Hx. rewrite forallb_forall in H. apply H. apply list_elem_of_In, elem_of_seqZ. unfold is_byte in Hx. lia.
Qed.

Lemma all_bytes_eq (f g : Z -> Z) :
  forallb (fun x => f x =? g x) (seqZ 0 256) = true -> forall x, is_byte x -> f x = g x.
Proof. intros H x Hx. apply Z.eqb_eq. exact (all_bytes _ H x Hx). Qed.

(** A function whose values on bytes are bytes. *)
Lemma all_bytes_range (f : Z -> Z) :
  forallb (fun x => (0 <=? f x) && (f x <? 256)) (seqZ 0 256) = true -> forall x, is_byte x -> is_byte (f x).
Proof. intros H x Hx. pose proof (all_bytes _ H x Hx) as E. cbn in E. unfold is_byte. lia. Qed.

Lemma byte_u8 x : is_byte x -> u8 x = x.
Proof.
  intros Hx. unfold is_byte in Hx. unfold u8. change 255 with (Z.ones 8). rewrite Z.land_ones by lia. apply Z.mod_small. lia.
Qed.

Lemma xor_byte x y : is_byte x -> is_byte y -> is_byte (x .^ y).
Proof.
  intros Hx Hy. enough (u8 (x .^ y) = x .^ y) as <- by apply u8_byte. rewrite <- (byte_u8 x Hx), <- (byte_u8 y Hy) at 2.
  apply Z.bits_inj'. intros i Hi. unfold u8. rewrite Z.lxor_spec, !Z.land_spec, Z.lxor_spec. btauto.
Qed.

Lemma zero_byte : is_byte 0.
Proof. by unfold is_byte. Qed.

(** ** The field *)
Lemma xtime_byte x : is_byte x -> is_byte (xtime x).
Proof. apply all_bytes_range. vm_compute. reflexivity. Qed.

Lemma xtime_xor x y : is_byte x -> is_byte y -> xtime (x .^ y) = xtime x .^ xtime y.
Proof.
  intros Hx Hy. unfold xtime. rewrite Z.lxor_spec, Z.shiftl_lxor.
  destruct (Z.testbit x 7), (Z.testbit y 7); cbn [xorb]; apply Z.bits_inj'; intros; rewrite !Z.lxor_spec; btauto.
Qed.

Lemma gmul_loop_byte n i a b : is_byte b -> is_byte (gmul_loop n i a b).
Proof.
  revert i b. induction n as [|n IH]; intros i b Hb; cbn [gmul_loop]; [apply zero_byte|].
  apply xor_byte; [destruct (Z.testbit a i); [done|apply zero_byte]|]. apply IH. by apply xtime_byte.
Qed.

Lemma gmul_byte a b : is_byte b -> is_byte (gmul a b).
Proof. apply gmul_loop_byte. Qed.

Lemma lxor_swap a b c d : (a .^ b) .^ (c .^ d) = (a .^ c) .^ (b .^ d).
Proof. apply Z.bits_inj'. intros. rewrite !Z.lxor_spec. btauto. Qed.

Lemma gmul_xor a b c : is_byte b -> is_byte c -> gmul a (b .^ c) = gmul a b .^ gmul a c.
Proof.
  unfold gmul. generalize 8%nat, 0. intros n i Hb Hc. revert i b c Hb Hc. induction n as [|n IH]; intros i b c Hb Hc; cbn [gmul_loop]; [done|].
  rewrite xtime_xor, IH, (lxor_swap (if Z.testbit a i then b else 0)) by (done || by apply xtime_byte).
  by destruct (Z.testbit a i).
Qed.

(** The values of the two substitutions, computed once. *)
Definition sbox : list Z := Eval vm_compute in sub_byte <$> seqZ 0 256.
Definition inv_sbox : list Z := Eval vm_compute in inv_sub_byte <$> seqZ 0 256.

Lemma sub_byte_tbl x : is_byte x -> sub_byte x = tbl sbox x.
Proof. apply all_bytes_eq. vm_compute. reflexivity. Qed.

Lemma inv_sub_byte_tbl x : is_byte x -> inv_sub_byte x = tbl inv_sbox x.
Proof. apply all_bytes_eq. vm_compute. reflexivity. Qed.

Lemma sub_byte_byte x : is_byte x -> is_byte (sub_byte x).
Proof. intros Hx. rewrite sub_byte_tbl by done. revert x Hx. apply all_bytes_range. vm_compute. reflexivity. Qed.

Lemma inv_sub_byte_byte x : is_byte x -> is_byte (inv_sub_byte x).
Proof. intros Hx. rewrite inv_sub_byte_tbl by done. revert x Hx. apply all_bytes_range. vm_compute. reflexivity. Qed.

Lemma inv_sub_sub x : is_byte x -> inv_sub_byte (sub_byte x) = x.
Proof.
  intros Hx. rewrite inv_sub_byte_tbl, sub_byte_tbl by (done || by apply sub_byte_byte). revert x Hx.
  apply (all_bytes_eq (fun x => tbl inv_sbox (tbl sbox x)) id). vm_compute. reflexivity.
Qed.

(** ** Words of four bytes *)
Definition pack (a b c d : Z) : Z := a .<< 24 .| b .<< 16 .| c .<< 8 .| d.

Lemma aes_byte_high x i : is_byte x -> 8 <= i -> Z.testbit x i = false.
Proof. intros Hx Hi. apply (testbit_high x 8); [exact Hx|lia]. Qed.

Lemma pack_bit a b c d i :
  is_byte a -> is_byte b -> is_byte c -> is_byte d -> 0 <= i ->
  Z.testbit (pack a b c d) i
  = if i <? 8 then Z.testbit d i else if i <? 16 then Z.testbit c (i - 8)
    else if i <? 24 then Z.testbit b (i - 16) else Z.testbit a (i - 24).
Proof.
  intros Ha Hb Hc Hd Hi. unfold pack. rewrite !Z.lor_spec, !Z.shiftl_spec by lia.
  destruct (Z.ltb_spec i 8); [|destruct (Z.ltb_spec i 16); [|destruct (Z.ltb_spec i 24)]].
  - by rewrite !(Z.testbit_neg_r _ (i - _)) by lia.
  - rewrite (aes_byte_high d) by (done || lia). rewrite !(Z.testbit_neg_r _ (i - 24)), !(Z.testbit_neg_r _ (i - 16)) by lia. cbn. by rewrite orb_false_r.
  - rewrite (aes_byte_high d), (aes_byte_high c) by (done || lia). rewrite (Z.testbit_neg_r _ (i - 24)) by lia. cbn. by rewrite !orb_false_r.
  - rewrite (aes_byte_high d), (aes_byte_high c), (aes_byte_high b) by (done || lia). by rewrite !orb_false_r.
Qed.

Lemma pack_xor a b c d a' b' c' d' :
  is_byte a -> is_byte b -> is_byte c -> is_byte d -> is_byte a' -> is_byte b' -> is_byte c' -> is_byte d' ->
  pack a b c d .^ pack a' b' c' d' = pack (a .^ a') (b .^ b') (c .^ c') (d .^ d').
Proof.
  intros. apply Z.bits_inj'. intros i Hi. rewrite Z.lxor_spec, !pack_bit by (done || by apply xor_byte).
  repeat case_match; by rewrite Z.lxor_spec.
Qed.

Lemma pack_range a b c d :
  is_byte a -> is_byte b -> is_byte c -> is_byte d -> 0 <= pack a b c d < 2 ^ 32.
Proof.
  intros Ha Hb Hc Hd. assert (E : u32 (pack a b c d) = pack a b c d).
  { apply Z.bits_inj'. intros i Hi. unfold u32. rewrite (uN_bit 4294967295 32) by (done || lia).
    destruct (Z.ltb_spec i 32); [done|]. rewrite pack_bit by done.
    destruct (Z.ltb_spec i 8), (Z.ltb_spec i 16), (Z.ltb_spec i 24); try lia. by rewrite aes_byte_high by (done || lia). }
  rewrite <- E. unfold u32. change 4294967295 with (Z.ones 32). rewrite Z.land_ones by lia. apply Z.mod_pos_bound. lia.
Qed.

Lemma pack_byte0 a b c d : is_byte a -> is_byte b -> is_byte c -> is_byte d -> pack a b c d .>> 24 = a.
Proof.
  intros. apply Z.bits_inj'. intros i Hi. rewrite Z.shiftr_spec, pack_bit by (done || lia).
  destruct (Z.ltb_spec (i + 24) 8), (Z.ltb_spec (i + 24) 16), (Z.ltb_spec (i + 24) 24); try lia. f_equal. lia.
Qed.

(** A byte below the first. *)
Lemma pack_byte_at (k : Z) v a b c d :
  is_byte a -> is_byte b -> is_byte c -> is_byte d -> (k, v) ∈ [(16, b); (8, c); (0, d)] -> (pack a b c d .>> k) .& 0xff = v.
Proof.
  intros Ha Hb Hc Hd Hk. assert (Hv : 0 <= k <= 16 /\ is_byte v) by (set_unfold; naive_solver lia).
  apply Z.bits_inj'. intros i Hi. change 0xff with (Z.ones 8).
  rewrite Z.land_spec, Z.shiftr_spec, pack_bit by (done || lia). destruct (Z.lt_ge_cases i 8).
  - rewrite Z.ones_spec_low, andb_true_r by lia.
    destruct (Z.ltb_spec (i + k) 8), (Z.ltb_spec (i + k) 16), (Z.ltb_spec (i + k) 24); set_unfold; naive_solver (f_equal; lia) || lia.
  - rewrite Z.ones_spec_high, andb_false_r by lia. symmetry. apply aes_byte_high; [apply Hv|lia].
Qed.

Definition packl (w : list Z) : Z := match w with [a; b; c; d] => pack a b c d | _ => 0 end.
Definition is_word (w : list Z) : Prop := length w = 4%nat /\ Forall is_byte w.

Lemma word_cases w : is_word w -> exists a b c d, w = [a; b; c; d] /\ is_byte a /\ is_byte b /\ is_byte c /\ is_byte d.
Proof.
  intros [Hl Hb]. destruct w as [|a [|b [|c [|d [|]]]]]; try done. exists a, b, c, d.
  rewrite !Forall_cons in Hb. naive_solver.
Qed.

Lemma is_word_4 a b c d : is_byte a -> is_byte b -> is_byte c -> is_byte d -> is_word [a; b; c; d].
Proof. intros. split; [done|]. by repeat apply Forall_cons_2. Qed.

Lemma xorl_bytes l k : Forall is_byte l -> Forall is_byte k -> Forall is_byte (xorl l k).
Proof.
  intros Hl. revert k. induction Hl as [|x l Hx Hl IH]; intros k Hk; [constructor|]. destruct Hk as [|y k Hy Hk]; [constructor|].
  cbn. constructor; [by apply xor_byte|by apply IH].
Qed.

Lemma xorl_length l k : length (xorl l k) = min (length l) (length k).
Proof. apply length_zip_with. Qed.

Lemma xorl_word l k : is_word l -> is_word k -> is_word (xorl l k).
Proof. intros [L1 H1] [L2 H2]. split; [rewrite xorl_length; lia|by apply xorl_bytes]. Qed.

Lemma packl_xor l k : is_word l -> is_word k -> packl l .^ packl k = packl (xorl l k).
Proof.
  intros Hl Hk. destruct (word_cases l Hl) as (a & b & c & d & -> & ? & ? & ? & ?).
  destruct (word_cases k Hk) as (a' & b' & c' & d' & -> & ? & ? & ? & ?). by apply pack_xor.
Qed.

Lemma sub_word_word w : is_word w -> is_word (sub_word w).
Proof.
  intros [Hl Hb]. split; [by unfold sub_word; rewrite length_fmap|]. apply Forall_fmap.
  apply (Forall_impl _ _ _ Hb). exact sub_byte_byte.
Qed.

(** Words in memory. *)
Lemma put_packl w : is_word w -> putint (packl w) = w.
Proof.
  intros Hw. destruct (word_cases w Hw) as (a & b & c & d & -> & Ha & Hb & Hc & Hd). unfold putint, packl.
  rewrite pack_byte0, byte_u8 by done. unfold u8.
  rewrite (pack_byte_at 16 b a b c d), (pack_byte_at 8 c a b c d) by (done || set_solver).
  pose proof (pack_byte_at 0 d a b c d Ha Hb Hc Hd ltac:(set_solver)) as E. rewrite Z.shiftr_0_r in E. by rewrite E.
Qed.

Lemma get_packl w rest : is_word w -> getint (w ++ rest) = Done (packl w).
Proof.
  intros Hw. rewrite <- (put_packl w Hw) at 1. apply getint_putint.
  destruct (word_cases w Hw) as (a & b & c & d & -> & ? & ? & ? & ?). by apply pack_range.
Qed.

(** ** Tables *)
(** Four tables that hold the multiples of [f x] in the columns of a matrix. *)
Record tables (t0 t1 t2 t3 : list Z) (f : Z -> Z) (p q r t : Z) : Prop := {
  tb_0 : forall x, is_byte x -> tbl t0 x = pack (gmul p (f x)) (gmul t (f x)) (gmul r (f x)) (gmul q (f x));
  tb_1 : forall x, is_byte x -> tbl t1 x = pack (gmul q (f x)) (gmul p (f x)) (gmul t (f x)) (gmul r (f x));
  tb_2 : forall x, is_byte x -> tbl t2 x = pack (gmul r (f x)) (gmul q (f x)) (gmul p (f x)) (gmul t (f x));
  tb_3 : forall x, is_byte x -> tbl t3 x = pack (gmul t (f x)) (gmul r (f x)) (gmul q (f x)) (gmul p (f x))
}.

Lemma tables_ext t0 t1 t2 t3 f g p q r t :
  (forall x, is_byte x -> f x = g x) -> tables t0 t1 t2 t3 g p q r t -> tables t0 t1 t2 t3 f p q r t.
Proof. intros E [H0 H1 H2 H3]. split; intros x Hx; rewrite E by done; auto. Qed.

Lemma enc_tables : tables Te0 Te1 Te2 Te3 sub_byte 2 3 1 1.
Proof. apply (tables_ext _ _ _ _ _ _ _ _ _ _ sub_byte_tbl). split; apply all_bytes_eq; vm_compute; reflexivity. Qed.

Lemma dec_tables : tables Td0 Td1 Td2 Td3 inv_sub_byte 14 11 13 9.
Proof. apply (tables_ext _ _ _ _ _ _ _ _ _ _ inv_sub_byte_tbl). split; apply all_bytes_eq; vm_compute; reflexivity. Qed.

(** A table whose masked entries are the values of [f]. *)
Record last_table (u : list Z) (f : Z -> Z) : Prop := {
  lt_0 : forall x, is_byte x -> tbl u x .& 0xff000000 = pack (f x) 0 0 0;
  lt_1 : forall x, is_byte x -> tbl u x .& 0x00ff0000 = pack 0 (f x) 0 0;
  lt_2 : forall x, is_byte x -> tbl u x .& 0x0000ff00 = pack 0 0 (f x) 0;
  lt_3 : forall x, is_byte x -> tbl u x .& 0x000000ff = pack 0 0 0 (f x)
}.

Lemma last_table_ext u f g : (forall x, is_byte x -> f x = g x) -> last_table u g -> last_table u f.
Proof. intros E [H0 H1 H2 H3]. split; intros x Hx; rewrite E by done; auto. Qed.

Ltac check_last u :=
  split; [apply (all_bytes_eq (fun x => tbl u x .& 0xff000000)) | apply (all_bytes_eq (fun x => tbl u x .& 0x00ff0000))
    | apply (all_bytes_eq (fun x => tbl u x .& 0x0000ff00)) | apply (all_bytes_eq (fun x => tbl u x .& 0x000000ff))];
    vm_compute; reflexivity.

Lemma enc_last_table : last_table Te4 sub_byte.
Proof. apply (last_table_ext _ _ _ sub_byte_tbl). check_last Te4. Qed.

Lemma dec_last_table : last_table Td4 inv_sub_byte.
Proof. apply (last_table_ext _ _ _ inv_sub_byte_tbl). check_last Td4. Qed.

Create HintDb aes.
#[export] Hint Resolve zero_byte xor_byte gmul_byte sub_byte_byte inv_sub_byte_byte : aes.

(** The bytes of packed words. *)
Ltac unpack :=
  rewrite ?pack_byte0 by auto with aes;
  repeat match goal with
  | |- context [pack ?a ?b ?c ?d .>> 16 .& 255] => rewrite (pack_byte_at 16 b a b c d) by (auto with aes || set_solver)
  | |- context [pack ?a ?b ?c ?d .>> 8 .& 255] => rewrite (pack_byte_at 8 c a b c d) by (auto with aes || set_solver)
  | |- context [pack ?a ?b ?c ?d .& 255] =>
      rewrite <- (Z.shiftr_0_r (pack a b c d)); rewrite (pack_byte_at 0 d a b c d) by (auto with aes || set_solver)
  end.

Section subst.
Context (f : Z -> Z) (Hf : forall x, is_byte x -> is_byte (f x)).

Lemma sub4_spec t0 t1 t2 t3 p q r t a0 a1 a2 a3 b0 b1 b2 b3 c0 c1 c2 c3 d0 d1 d2 d3 :
  tables t0 t1 t2 t3 f p q r t -> is_word [a0; a1; a2; a3] -> is_word [b0; b1; b2; b3] -> is_word [c0; c1; c2; c3] -> is_word [d0; d1; d2; d3] ->
  sub4 t0 t1 t2 t3 (pack a0 a1 a2 a3) (pack b0 b1 b2 b3) (pack c0 c1 c2 c3) (pack d0 d1 d2 d3)
  = packl (mix_column p q r t (f a0) (f b1) (f c2) (f d3)).
Proof using Hf.
  intros [T0 T1 T2 T3] [_ Ha] [_ Hb] [_ Hc] [_ Hd]. rewrite !Forall_cons in Ha, Hb, Hc, Hd. destruct_and!.
  unfold sub4. unpack. rewrite T0, T1, T2, T3 by done. rewrite !pack_xor by auto 7 with aes. done.
Qed.

Lemma last4_spec u a0 a1 a2 a3 b0 b1 b2 b3 c0 c1 c2 c3 d0 d1 d2 d3 :
  last_table u f -> is_word [a0; a1; a2; a3] -> is_word [b0; b1; b2; b3] -> is_word [c0; c1; c2; c3] -> is_word [d0; d1; d2; d3] ->
  last4 u (pack a0 a1 a2 a3) (pack b0 b1 b2 b3) (pack c0 c1 c2 c3) (pack d0 d1 d2 d3) = pack (f a0) (f b1) (f c2) (f d3).
Proof using Hf.
  intros [T0 T1 T2 T3] [_ Ha] [_ Hb] [_ Hc] [_ Hd]. rewrite !Forall_cons in Ha, Hb, Hc, Hd. destruct_and!.
  unfold last4. unpack. rewrite T0, T1, T2, T3 by done. rewrite !pack_xor by auto 7 with aes.
  by rewrite !Z.lxor_0_l, !Z.lxor_0_r.
Qed.
End subst.

#[local] Opaque sub_byte inv_sub_byte gmul tbl pack Z.mul Z.of_nat.

(** ** States *)
Definition is_state (s : list Z) : Prop := length s = 16%nat /\ Forall is_byte s.

Definition words (s : list Z) : block :=
  (packl (take 4 s), packl (take 4 (drop 4 s)), packl (take 4 (drop 8 s)), packl (take 4 (drop 12 s))).

Lemma state_cases s :
  is_state s -> exists a b c d, s = a ++ b ++ c ++ d /\ is_word a /\ is_word b /\ is_word c /\ is_word d.
Proof.
  intros [Hl Hb]. exists (take 4 s), (take 4 (drop 4 s)), (take 4 (drop 8 s)), (drop 12 s).
  assert (forall n, (n <= 12)%nat -> is_word (take 4 (drop n s))).
  { intros n Hn. split; [rewrite length_take, length_drop; lia|]. by apply Forall_take, Forall_drop. }
  split_and!; [|exact (H 0%nat ltac:(lia))|by apply H; lia|by apply H; lia|].
  - rewrite <- (take_drop 4 s) at 1. f_equal. rewrite <- (take_drop 4 (drop 4 s)) at 1. f_equal.
    rewrite drop_drop. rewrite <- (take_drop 4 (drop (4 + 4) s)) at 1. f_equal. by rewrite drop_drop.
  - split; [rewrite length_drop; lia|]. by apply Forall_drop.
Qed.

(** The sixteen bytes of a state. *)
Ltac state_bytes H :=
  let a := fresh "a" in let b := fresh "b" in let c := fresh "c" in let d := fresh "d" in
  let Ha := fresh in let Hb := fresh in let Hc := fresh in let Hd := fresh in
  destruct (state_cases _ H) as (a & b & c & d & -> & Ha & Hb & Hc & Hd);
  destruct (word_cases a Ha) as (? & ? & ? & ? & -> & ? & ? & ? & ?);
  destruct (word_cases b Hb) as (? & ? & ? & ? & -> & ? & ? & ? & ?);
  destruct (word_cases c Hc) as (? & ? & ? & ? & -> & ? & ? & ? & ?);
  destruct (word_cases d Hd) as (? & ? & ? & ? & -> & ? & ? & ? & ?).

Lemma words_app a b c d :
  is_word a -> is_word b -> is_word c -> is_word d -> words (a ++ b ++ c ++ d) = (packl a, packl b, packl c, packl d).
Proof.
  intros Ha Hb Hc Hd. destruct (word_cases a Ha) as (? & ? & ? & ? & -> & _), (word_cases b Hb) as (? & ? & ? & ? & -> & _),
    (word_cases c Hc) as (? & ? & ? & ? & -> & _), (word_cases d Hd) as (? & ? & ? & ? & -> & _). done.
Qed.

Lemma state_app a b c d : is_word a -> is_word b -> is_word c -> is_word d -> is_state (a ++ b ++ c ++ d).
Proof. intros [? ?] [? ?] [? ?] [? ?]. split; [rewrite !length_app; lia|]. by rewrite !Forall_app. Qed.

Lemma load_block_spec s rest : is_state s -> load_block (s ++ rest) = Done (words s).
Proof.
  intros Hs. destruct (state_cases s Hs) as (a & b & c & d & -> & Ha & Hb & Hc & Hd). unfold load_block.
  rewrite words_app by done. rewrite <- !app_assoc, get_packl by done. cbn [mbind outcome_bind].
  assert (La : length a = 4%nat) by apply Ha. assert (Lb : length b = 4%nat) by apply Hb. assert (Lc : length c = 4%nat) by apply Hc.
  rewrite (drop_app_ge _ _ 4), (drop_app_ge _ _ 8), (drop_app_ge _ _ 12) by lia. rewrite La. cbn [Nat.sub]. rewrite drop_0.
  rewrite get_packl by done. cbn [mbind outcome_bind]. rewrite (drop_app_ge b _ 4), (drop_app_ge b _ 8) by lia. rewrite Lb. cbn [Nat.sub].
  rewrite drop_0, get_packl by done. cbn [mbind outcome_bind]. rewrite (drop_app_ge c _ 4) by lia. rewrite Lc. cbn [Nat.sub].
  by rewrite drop_0, get_packl by done.
Qed.

Lemma put_block_spec s : is_state s -> put_block (words s) = s.
Proof.
  intros Hs. destruct (state_cases s Hs) as (a & b & c & d & -> & Ha & Hb & Hc & Hd). rewrite words_app by done.
  unfold put_block. by rewrite !put_packl.
Qed.

Lemma mix_column_word p q r t a b c d :
  is_byte a -> is_byte b -> is_byte c -> is_byte d -> is_word (mix_column p q r t a b c d).
Proof. intros. apply is_word_4; auto 6 with aes. Qed.

Lemma xorl_state s k : is_state s -> is_state k -> is_state (xorl s k).
Proof. intros [? ?] [? ?]. split; [rewrite xorl_length; lia|by apply xorl_bytes]. Qed.

Lemma fmap_state f s : (forall x, is_byte x -> is_byte (f x)) -> is_state s -> is_state (f <$> s).
Proof. intros Hf [Hl Hb]. split; [by rewrite length_fmap|]. apply Forall_fmap. by apply (Forall_impl _ _ _ Hb). Qed.

Ltac solve_state := split; [reflexivity|]; repeat apply Forall_cons_2; auto with aes; apply Forall_nil_2.

Lemma shift_rows_state s : is_state s -> is_state (shift_rows s).
Proof. intros Hs. state_bytes Hs. solve_state. Qed.

Lemma inv_shift_rows_state s : is_state s -> is_state (inv_shift_rows s).
Proof. intros Hs. state_bytes Hs. solve_state. Qed.

Lemma columns_state p q r t s : is_state s -> is_state (columns (mix_column p q r t) s).
Proof. intros Hs. state_bytes Hs. cbn [app columns]. apply state_app; by apply mix_column_word || (rewrite app_nil_r; by apply mix_column_word). Qed.

(** ** Adding a round key *)
Definition keys_at (rk : list Z) (w : list (list Z)) (n : nat) : Prop :=
  forall i, (i < n)%nat -> is_word (word_at w i) /\ rd rk (Z.of_nat i) = Done (packl (word_at w i)).

Lemma round_key_state rk w n r : keys_at rk w n -> (4 * r + 3 < n)%nat -> is_state (round_key w r).
Proof. intros H Hr. apply state_app; apply H; lia. Qed.

Lemma add_key_spec rk w n r p s :
  keys_at rk w n -> (4 * r + 3 < n)%nat -> is_state s -> p = Z.of_nat (4 * r) ->
  add_key rk p (words s) = Done (words (xorl s (round_key w r))).
Proof.
  intros Hk Hr Hs ->. destruct (state_cases s Hs) as (a & b & c & d & -> & Ha & Hb & Hc & Hd). rewrite words_app by done.
  unfold add_key, round_key. destruct (Hk (4 * r)%nat ltac:(lia)) as [W0 ->], (Hk (4 * r + 1)%nat ltac:(lia)) as [W1 E1],
    (Hk (4 * r + 2)%nat ltac:(lia)) as [W2 E2], (Hk (4 * r + 3)%nat ltac:(lia)) as [W3 E3]. cbn [mbind outcome_bind].
  rewrite Nat2Z.inj_add in E1, E2, E3. change (Z.of_nat 1) with 1 in E1. change (Z.of_nat 2) with 2 in E2. change (Z.of_nat 3) with 3 in E3.
  rewrite E1. cbn [mbind outcome_bind]. rewrite E2. cbn [mbind outcome_bind]. rewrite E3. cbn [mbind outcome_bind]. f_equal.
  rewrite !packl_xor by done. symmetry. unfold xorl.
  rewrite !zip_with_app by (etrans; [apply Ha || apply Hb || apply Hc|]; symmetry; apply W0 || apply W1 || apply W2).
  apply words_app; by apply xorl_word.
Qed.

(** ** Rounds *)
Lemma enc_round_spec rk w n r p s :
  keys_at rk w n -> (4 * r + 3 < n)%nat -> is_state s -> p = Z.of_nat (4 * r) ->
  enc_round rk p (words s) = Done (words (fips_round w s r)) /\ is_state (fips_round w s r).
Proof.
  intros Hk Hr Hs Hp. assert (Hm : is_state (mix_columns (shift_rows (sub_byte <$> s)))).
  { apply columns_state, shift_rows_state, fmap_state; [exact sub_byte_byte|done]. }
  split; [|apply xorl_state; [exact Hm|by apply (round_key_state rk w n)]].
  unfold fips_round. rewrite <- (add_key_spec rk w n r p) by done. revert Hm. state_bytes Hs. intros Hm.
  rewrite words_app by done. unfold enc_round. cbn [packl]. rewrite !(sub4_spec sub_byte sub_byte_byte _ _ _ _ 2 3 1 1) by (apply enc_tables || done).
  reflexivity.
Qed.

Lemma enc_last_spec rk w n r p s :
  keys_at rk w n -> (4 * r + 3 < n)%nat -> is_state s -> p = Z.of_nat (4 * r) ->
  enc_last rk p (words s) = Done (words (xorl (shift_rows (sub_byte <$> s)) (round_key w r))).
Proof.
  intros Hk Hr Hs Hp. assert (Hm : is_state (shift_rows (sub_byte <$> s))).
  { apply shift_rows_state, fmap_state; [exact sub_byte_byte|done]. }
  rewrite <- (add_key_spec rk w n r p) by done. revert Hm. state_bytes Hs. intros Hm. rewrite words_app by done.
  unfold enc_last. cbn [packl]. by rewrite !(last4_spec sub_byte sub_byte_byte) by (apply enc_last_table || done).
Qed.

Lemma mix_column_xor p q r t a b c d a' b' c' d' :
  is_byte a -> is_byte b -> is_byte c -> is_byte d -> is_byte a' -> is_byte b' -> is_byte c' -> is_byte d' ->
  mix_column p q r t (a .^ a') (b .^ b') (c .^ c') (d .^ d') = xorl (mix_column p q r t a b c d) (mix_column p q r t a' b' c' d').
Proof.
  intros. unfold mix_column, xorl. cbn [zip_with]. rewrite !gmul_xor by done.
  assert (X : forall x1 x2 x3 x4 y1 y2 y3 y4, (x1 .^ y1) .^ (x2 .^ y2) .^ (x3 .^ y3) .^ (x4 .^ y4) = (x1 .^ x2 .^ x3 .^ x4) .^ (y1 .^ y2 .^ y3 .^ y4)).
  { intros. apply Z.bits_inj'. intros i Hi. rewrite !Z.lxor_spec. btauto. }
  by rewrite !X.
Qed.

Lemma inv_mix_columns_xor s k :
  is_state s -> is_state k -> inv_mix_columns (xorl s k) = xorl (inv_mix_columns s) (inv_mix_columns k).
Proof.
  intros Hs Hk. state_bytes Hs. state_bytes Hk. unfold inv_mix_columns. unfold xorl at 1. cbn [app zip_with columns].
  rewrite !mix_column_xor by done. unfold xorl. by rewrite !zip_with_app by done.
Qed.

(** The keys of the inverse cipher: in reverse order, and those between the
    first and the last multiplied like the columns of a state. *)
Definition inverse_keys (nr : nat) (w dw : list (list Z)) : Prop :=
  round_key dw 0 = round_key w nr /\ round_key dw nr = round_key w 0
  /\ forall j, (0 < j < nr)%nat -> round_key dw j = inv_mix_columns (round_key w (nr - j)).

Lemma dec_round_spec rk ek nr w dw r p s :
  keys_at rk dw (4 * (nr + 1)) -> keys_at ek w (4 * (nr + 1)) -> inverse_keys nr w dw -> (0 < r < nr)%nat -> is_state s ->
  p = Z.of_nat (4 * (nr - r)) ->
  dec_round rk p (words s) = Done (words (fips_inv_round w s r)) /\ is_state (fips_inv_round w s r).
Proof.
  intros Hk He (_ & _ & Hi) Hr Hs Hp. specialize (Hi (nr - r)%nat ltac:(lia)). replace (nr - (nr - r))%nat with r in Hi by lia.
  assert (Hrk : is_state (round_key w r)) by (apply (round_key_state ek w (4 * (nr + 1))); [done|lia]).
  assert (Hsub : is_state (inv_sub_byte <$> inv_shift_rows s)).
  { apply fmap_state; [exact inv_sub_byte_byte|]. by apply inv_shift_rows_state. }
  assert (Hm : is_state (inv_mix_columns (inv_sub_byte <$> inv_shift_rows s))) by by apply columns_state.
  split; [|apply columns_state; by apply xorl_state].
  unfold fips_inv_round. rewrite inv_mix_columns_xor, <- Hi by done. rewrite <- (add_key_spec rk dw (4 * (nr + 1)) (nr - r) p) by (done || lia).
  clear Hsub Hi Hrk. revert Hm. state_bytes Hs. intros Hm.
  rewrite words_app by done. unfold dec_round. cbn [packl].
  rewrite !(sub4_spec inv_sub_byte inv_sub_byte_byte _ _ _ _ 14 11 13 9) by (apply dec_tables || done).
  reflexivity.
Qed.

Lemma dec_last_spec rk ek nr w dw s :
  keys_at rk dw (4 * (nr + 1)) -> keys_at ek w (4 * (nr + 1)) -> inverse_keys nr w dw -> is_state s ->
  dec_last rk (Z.of_nat (4 * nr)) (words s) = Done (words (xorl (inv_sub_byte <$> inv_shift_rows s) (round_key w 0))).
Proof.
  intros Hk He (_ & Hi & _) Hs. assert (Hm : is_state (inv_sub_byte <$> inv_shift_rows s)).
  { apply fmap_state; [exact inv_sub_byte_byte|]. by apply inv_shift_rows_state. }
  rewrite <- Hi. rewrite <- (add_key_spec rk dw (4 * (nr + 1)) nr (Z.of_nat (4 * nr))) by (done || lia).
  revert Hm. state_bytes Hs. intros Hm. rewrite words_app by done.
  unfold dec_last. cbn [packl]. by rewrite !(last4_spec inv_sub_byte inv_sub_byte_byte) by (apply dec_last_table || done).
Qed.
