(* ===== verification/AesKeys.v ===== *)
(** * The key schedules of AES are those of the standard *)
From Stdlib Require Import ZArith Lia Btauto.
From stdpp Require Import prelude.
From S2P Require Import Prelude Serial Aes AesOps.

#[local] Opaque sub_byte inv_sub_byte gmul tbl pack Z.mul Z.of_nat.

(** ** The array of round keys while it is filled *)
Record filled (rk : list Z) (w : list (list Z)) : Prop := {
  fi_len : length rk = 60%nat;
  fi_fits : (length w <= 60)%nat;
  fi_keys : keys_at rk w (length w)
}.

Lemma word_at_app_l w v i : (i < length w)%nat -> word_at (w ++ v) i = word_at w i.
Proof. intros. unfold word_at. by apply app_nth1. Qed.

Lemma word_at_last w x : word_at (w ++ [x]) (length w) = x.
Proof. unfold word_at. by rewrite nth_middle. Qed.

Lemma rd_Done {A} (l : list A) i v : l !! i = Some v -> rd l (Z.of_nat i) = Done v.
Proof. intros H. unfold rd. destruct (Z.leb_spec 0 (Z.of_nat i)); [|lia]. by rewrite Nat2Z.id, H. Qed.

Lemma filled_store rk w x q :
  filled rk w -> (length w < 60)%nat -> is_word x -> q = Z.of_nat (length w) ->
  exists rk', wr rk q (packl x) = Done rk' /\ filled rk' (w ++ [x]).
Proof.
  intros [Hl Hf Hk] Hn Hx ->. exists (<[length w := packl x]> rk). split.
  { unfold wr. destruct (Z.leb_spec 0 (Z.of_nat (length w))), (Z.ltb_spec (Z.of_nat (length w)) (Z.of_nat (length rk))); try lia.
    by rewrite Nat2Z.id. }
  split; [by rewrite length_insert|rewrite length_app; cbn; lia|]. intros i Hi. rewrite length_app in Hi. cbn in Hi.
  destruct (decide (i = length w)) as [->|Hne].
  - rewrite word_at_last. split; [done|]. apply rd_Done. apply list_lookup_insert_eq. lia.
  - rewrite word_at_app_l by lia. destruct (Hk i ltac:(lia)) as [Hw Hr]. split; [done|]. rewrite <- Hr. unfold rd.
    destruct (Z.leb_spec 0 (Z.of_nat i)); [|done]. by rewrite Nat2Z.id, list_lookup_insert_ne by done.
Qed.

Lemma filled_read rk w i q :
  filled rk w -> (i < length w)%nat -> q = Z.of_nat i -> rd rk q = Done (packl (word_at w i)) /\ is_word (word_at w i).
Proof. intros [_ _ Hk] Hi ->. destruct (Hk i Hi). done. Qed.

(** ** The key itself *)
Lemma key_words_spec n key :
  length key = (4 * n)%nat -> Forall is_byte key ->
  length (key_words key) = n /\ Forall is_word (key_words key) /\ concat (key_words key) = key.
Proof.
  revert key. induction n as [|n IH]; intros key Hl Hb.
  { destruct key; [|cbn in Hl; lia]. by repeat constructor. }
  destruct key as [|a [|b [|c [|d key]]]]; try (cbn in Hl; lia). rewrite !Forall_cons in Hb. destruct_and!.
  destruct (IH key) as (L & W & C); [cbn in Hl; lia|done|]. cbn [key_words length concat app]. rewrite L, C. split; [done|].
  split; [|done]. constructor; [by apply is_word_4|done].
Qed.

Lemma drop_concat_words (ws : list (list Z)) i x :
  Forall is_word ws -> ws !! i = Some x -> exists rest, drop (4 * i) (concat ws) = x ++ rest.
Proof.
  revert ws. induction i as [|i IH]; intros ws Hw Hx; destruct ws as [|y ws]; try done; apply Forall_cons in Hw as [Hy Hw]; cbn in Hx.
  - injection Hx as ->. cbn [concat]. exists (concat ws). by rewrite drop_0.
  - destruct (IH ws Hw Hx) as [rest E]. exists rest. rewrite <- E. cbn [concat]. destruct Hy as [Ly _].
    rewrite drop_app_ge by lia. f_equal. lia.
Qed.

Lemma load_word_spec ws rk i q :
  Forall is_word ws -> filled rk (take i ws) -> (i < length ws <= 60)%nat -> q = Z.of_nat i ->
  exists rk', load_word (concat ws) rk q = Done rk' /\ filled rk' (take (S i) ws).
Proof.
  intros Hw Hf Hi ->. destruct (lookup_lt_is_Some_2 ws i) as [x Hx]; [lia|]. destruct (drop_concat_words ws i x Hw Hx) as [rest E].
  assert (Wx : is_word x) by (by eapply Forall_lookup_1 in Hx).
  unfold load_word. replace (Z.to_nat (4 * Z.of_nat i)) with (4 * i)%nat by lia. rewrite E, get_packl by done. cbn [mbind outcome_bind].
  destruct (filled_store rk (take i ws) x (Z.of_nat i) Hf) as (rk' & -> & F'); [rewrite length_take; lia|done|rewrite length_take; lia|].
  exists rk'. split; [done|]. by rewrite (take_S_r _ _ x).
Qed.

(** ** One more word *)
Lemma rot4_spec w : is_word w -> rot4 (packl w) = packl (sub_word (rot_word w)).
Proof.
  intros Hw. destruct (word_cases w Hw) as (a & b & c & d & -> & Ha & Hb & Hc & Hd). destruct enc_last_table as [T0 T1 T2 T3].
  unfold rot4. cbn [packl rot_word sub_word fmap list_fmap app]. unpack. rewrite T0, T1, T2, T3 by done. rewrite !pack_xor by auto 7 with aes.
  by rewrite !Z.lxor_0_l, !Z.lxor_0_r.
Qed.

Lemma sub4_word w : is_word w -> last4 Te4 (packl w) (packl w) (packl w) (packl w) = packl (sub_word w).
Proof.
  intros Hw. destruct (word_cases w Hw) as (a & b & c & d & -> & Ha & Hb & Hc & Hd). cbn [packl].
  rewrite (last4_spec sub_byte sub_byte_byte Te4) by (apply enc_last_table || done). done.
Qed.

Lemma rcon_spec i : (i < 10)%nat -> rd rcon (Z.of_nat i) = Done (packl [gpow 2 i; 0; 0; 0]) /\ is_byte (gpow 2 i).
Proof. intros Hi. do 10 (destruct i as [|i]; [split; [vm_compute; reflexivity|split; vm_compute; done]|]). lia. Qed.

Lemma mod_at nk m k : (k < nk)%nat -> ((nk * m + k) mod nk = k)%nat.
Proof. intros. rewrite Nat.add_comm, Nat.mul_comm, Nat.Div0.mod_add. by apply Nat.mod_small. Qed.

Section step.
Context (nk : nat) (Hnk : (0 < nk)%nat).

(** The word behind a whole number of keys. *)
Lemma rot_step rk w m q a b :
  filled rk w -> length w = (nk * m)%nat -> (0 < m <= 10)%nat -> (nk * m < 60)%nat ->
  q = Z.of_nat (length w) -> a = Z.of_nat (length w - nk) -> b = Z.of_nat (length w - 1) ->
  exists temp k c rk', rd rk b = Done temp /\ rd rk a = Done k /\ rd rcon (Z.of_nat (m - 1)) = Done c
    /\ wr rk q (k .^ rot4 temp .^ c) = Done rk' /\ filled rk' (w ++ [next_word nk w]).
Proof using Hnk.
  intros Hf Hl Hm Hn -> -> ->. destruct (filled_read rk w (length w - 1) _ Hf ltac:(lia) eq_refl) as [-> Wt].
  destruct (filled_read rk w (length w - nk) _ Hf ltac:(nia) eq_refl) as [-> Wk]. destruct (rcon_spec (m - 1)) as [-> Hc]; [lia|].
  do 3 eexists. assert (Wr : is_word (sub_word (rot_word (word_at w (length w - 1))))).
  { apply sub_word_word. destruct (word_cases _ Wt) as (? & ? & ? & ? & -> & ? & ? & ? & ?). by apply is_word_4. }
  assert (Wc : is_word [gpow 2 (m - 1); 0; 0; 0]) by (apply is_word_4; auto with aes).
  assert (En : next_word nk w = xorl (word_at w (length w - nk)) (xorl (sub_word (rot_word (word_at w (length w - 1)))) [gpow 2 (m - 1); 0; 0; 0])).
  { assert (Em : (length w mod nk = 0)%nat) by (rewrite Hl, <- (Nat.add_0_r (nk * m)); by apply mod_at).
    assert (Ed : (length w / nk = m)%nat) by (rewrite Hl, (Nat.mul_comm nk m); apply Nat.div_mul; lia).
    unfold next_word. by rewrite Em, Ed. }
  destruct (filled_store rk w (next_word nk w) (Z.of_nat (length w))) as (rk' & E & F); [done|lia| |done|].
  2:{ exists rk'. do 3 (split; [reflexivity|]). split; [|exact F].
      by rewrite rot4_spec, Z.lxor_assoc, !packl_xor, <- En by (done || by apply xorl_word). }
  rewrite En. apply xorl_word; [done|by apply xorl_word].
Qed.

Lemma xor_step rk w m k q a b :
  filled rk w -> length w = (nk * m + k)%nat -> (0 < k < nk)%nat -> (0 < m)%nat -> (nk * m + k < 60)%nat -> ((nk <= 6)%nat \/ k <> 4%nat) ->
  q = Z.of_nat (length w) -> a = Z.of_nat (length w - nk) -> b = Z.of_nat (length w - 1) ->
  exists rk', xor_to rk q a b = Done rk' /\ filled rk' (w ++ [next_word nk w]).
Proof using Hnk.
  intros Hf Hl Hk Hm Hn Hx -> -> ->. unfold xor_to. destruct (filled_read rk w (length w - nk) _ Hf ltac:(nia) eq_refl) as [-> Wk].
  destruct (filled_read rk w (length w - 1) _ Hf ltac:(lia) eq_refl) as [-> Wt]. cbn [mbind outcome_bind].
  assert (En : next_word nk w = xorl (word_at w (length w - nk)) (word_at w (length w - 1))).
  { assert (Em : (length w mod nk = k)%nat) by (rewrite Hl; apply mod_at; lia). unfold next_word. rewrite Em. destruct (Nat.eqb_spec k 0); [lia|].
    destruct (Nat.ltb_spec 6 nk), (Nat.eqb_spec k 4); cbn [andb]; try done. lia. }
  rewrite packl_xor, <- En by done. apply filled_store; [done|lia| |done]. rewrite En. by apply xorl_word.
Qed.

Lemma sub_step rk w m q a b :
  filled rk w -> length w = (nk * m + 4)%nat -> (6 < nk)%nat -> (0 < m)%nat -> (nk * m + 4 < 60)%nat ->
  q = Z.of_nat (length w) -> a = Z.of_nat (length w - nk) -> b = Z.of_nat (length w - 1) ->
  exists temp k rk', rd rk b = Done temp /\ rd rk a = Done k
    /\ wr rk q (k .^ last4 Te4 temp temp temp temp) = Done rk' /\ filled rk' (w ++ [next_word nk w]).
Proof using Hnk.
  intros Hf Hl Hk Hm Hn -> -> ->. destruct (filled_read rk w (length w - 1) _ Hf ltac:(lia) eq_refl) as [-> Wt].
  destruct (filled_read rk w (length w - nk) _ Hf ltac:(nia) eq_refl) as [-> Wk]. do 2 eexists.
  assert (En : next_word nk w = xorl (word_at w (length w - nk)) (sub_word (word_at w (length w - 1)))).
  { assert (Em : (length w mod nk = 4)%nat) by (rewrite Hl; apply mod_at; lia). unfold next_word. rewrite Em. cbn [Nat.eqb]. destruct (Nat.ltb_spec 6 nk); [done|lia]. }
  destruct (filled_store rk w (next_word nk w) (Z.of_nat (length w))) as (rk' & E & F); [done|lia| |done|].
  2:{ exists rk'. do 2 (split; [reflexivity|]). split; [|exact F].
      by rewrite sub4_word, packl_xor, <- En by (done || by apply sub_word_word). }
  rewrite En. apply xorl_word; [done|by apply sub_word_word].
Qed.
End step.

(** ** The three loops *)
Lemma expand_add a b nk w : expand (a + b) nk w = expand b nk (expand a nk w).
Proof. revert w. induction a as [|a IH]; intros w; cbn [expand Nat.add]; [done|]. apply IH. Qed.

Lemma length_expand n nk w : length (expand n nk w) = (n + length w)%nat.
Proof. revert w. induction n as [|n IH]; intros w; cbn [expand]; [done|]. rewrite IH, length_app. cbn. lia. Qed.

(** The array after [n] more words. *)
Definition grown (nk n : nat) (w : list (list Z)) (rk : list Z) : Prop := filled rk (expand n nk w).

Lemma grown_step n nk w rk : filled rk (expand n nk w ++ [next_word nk (expand n nk w)]) -> grown nk (S n) w rk.
Proof. intros H. unfold grown. replace (S n) with (n + 1)%nat by lia. by rewrite expand_add. Qed.

(** Word [k] behind [m] whole keys is the sum of two words. *)
Ltac next_xor nk m k :=
  match goal with F : grown nk ?n ?w ?rk |- _ =>
    let rk' := fresh "rk" in let F' := fresh "F" in
    edestruct (xor_step nk ltac:(lia) rk (expand n nk w) m k) as (rk' & -> & F');
      [exact F|rewrite length_expand; lia|lia|lia|lia|lia|rewrite length_expand; lia|rewrite length_expand; lia|rewrite length_expand; lia|];
    apply grown_step in F'; cbn [mbind outcome_bind]; clear F
  end.

(** The first word behind [i + 1] whole keys. *)
Ltac next_rot nk z z1 i rk w :=
  let Er := fresh "Er" in let Ec := fresh "Ec" in let Ew := fresh "Ew" in let F := fresh "F" in
  destruct (rot_step nk ltac:(lia) rk w (i + 1) (Z.of_nat (nk * i) + z) (Z.of_nat (nk * i)) (Z.of_nat (nk * i) + z1)) as (? & ? & ? & ? & Er & -> & Ec & Ew & F);
    [eassumption|lia|lia|lia|lia|lia|lia|];
  rewrite Er; replace (i + 1 - 1)%nat with i in Ec by lia; cbn [mbind outcome_bind]; rewrite Ec; cbn [mbind outcome_bind];
  rewrite Ew; cbn [mbind outcome_bind]; apply (grown_step 0) in F; clear Er Ec Ew.

(** The turns that are left. *)
Ltac next_turn IH i nk fuel n w :=
  match goal with F : grown nk nk w ?rk |- _ =>
    let rk' := fresh "rk" in let E := fresh "E" in let F' := fresh "F" in
    destruct (IH (i + 1)%nat rk (expand nk nk w) F) as (rk' & E & F'); [rewrite length_expand; lia|lia|lia|];
    exists rk'; rewrite <- expand_add in F'; replace (nk + n fuel)%nat with (n (S fuel)) in F' by lia; split; [|exact F'];
    rewrite <- E; f_equal; lia
  end.

Lemma setkey16_loop_spec fuel i rk w :
  filled rk w -> length w = (4 * (i + 1))%nat -> (i + fuel = 10)%nat -> (0 < fuel)%nat ->
  exists rk', setkey16_loop fuel (Z.of_nat i) (Z.of_nat (4 * i)) rk = Done rk' /\ filled rk' (expand (4 * fuel) 4 w).
Proof.
  revert i rk w. induction fuel as [|fuel IH]; intros i rk w Hf Hl Hi Hpos; [lia|]. cbn [setkey16_loop].
  next_rot 4%nat 4 3 i rk w. next_xor 4%nat (i + 1)%nat 1%nat. next_xor 4%nat (i + 1)%nat 2%nat. next_xor 4%nat (i + 1)%nat 3%nat.
  destruct (Z.eqb_spec (Z.of_nat i + 1) 10) as [Ei|Ei]; [replace fuel with 0%nat by lia; by eexists|].
  next_turn IH i 4%nat fuel (fun f => 4 * f)%nat w.
Qed.

Lemma setkey24_loop_spec fuel i rk w :
  filled rk w -> length w = (6 * (i + 1))%nat -> (i + fuel = 8)%nat -> (0 < fuel)%nat ->
  exists rk', setkey24_loop fuel (Z.of_nat i) (Z.of_nat (6 * i)) rk = Done rk' /\ filled rk' (expand (6 * fuel - 2) 6 w).
Proof.
  revert i rk w. induction fuel as [|fuel IH]; intros i rk w Hf Hl Hi Hpos; [lia|]. cbn [setkey24_loop].
  next_rot 6%nat 6 5 i rk w. next_xor 6%nat (i + 1)%nat 1%nat. next_xor 6%nat (i + 1)%nat 2%nat. next_xor 6%nat (i + 1)%nat 3%nat.
  destruct (Z.eqb_spec (Z.of_nat i + 1) 8) as [Ei|Ei]; [replace fuel with 0%nat by lia; by eexists|].
  next_xor 6%nat (i + 1)%nat 4%nat. next_xor 6%nat (i + 1)%nat 5%nat.
  next_turn IH i 6%nat fuel (fun f => 6 * f - 2)%nat w.
Qed.

Lemma setkey32_loop_spec fuel i rk w :
  filled rk w -> length w = (8 * (i + 1))%nat -> (i + fuel = 7)%nat -> (0 < fuel)%nat ->
  exists rk', setkey32_loop fuel (Z.of_nat i) (Z.of_nat (8 * i)) rk = Done rk' /\ filled rk' (expand (8 * fuel - 4) 8 w).
Proof.
  revert i rk w. induction fuel as [|fuel IH]; intros i rk w Hf Hl Hi Hpos; [lia|]. cbn [setkey32_loop].
  next_rot 8%nat 8 7 i rk w. next_xor 8%nat (i + 1)%nat 1%nat. next_xor 8%nat (i + 1)%nat 2%nat. next_xor 8%nat (i + 1)%nat 3%nat.
  destruct (Z.eqb_spec (Z.of_nat i + 1) 7) as [Ei|Ei]; [replace fuel with 0%nat by lia; by eexists|].
  match goal with F : grown 8%nat 4%nat w ?r |- _ =>
    destruct (sub_step 8 ltac:(lia) r (expand 4 8 w) (i + 1) (Z.of_nat (8 * i) + 12) (Z.of_nat (8 * i) + 4) (Z.of_nat (8 * i) + 11))
      as (? & ? & ? & -> & Ek & Ew & F4);
      [exact F|rewrite length_expand; lia|lia|lia|lia|rewrite length_expand; lia|rewrite length_expand; lia|rewrite length_expand; lia|]; clear F
  end.
  apply grown_step in F4. cbn [mbind outcome_bind]. rewrite Ek. cbn [mbind outcome_bind]. rewrite Ew. cbn [mbind outcome_bind]. clear Ek Ew.
  next_xor 8%nat (i + 1)%nat 5%nat. next_xor 8%nat (i + 1)%nat 6%nat. next_xor 8%nat (i + 1)%nat 7%nat.
  next_turn IH i 8%nat fuel (fun f => 8 * f - 4)%nat w.
Qed.

(** ** The schedule of the cipher *)
Lemma filled_nil rk : length rk = 60%nat -> filled rk [].
Proof. intros Hl. split; [done|cbn; lia|]. intros i Hi. cbn in Hi. lia. Qed.

Ltac load_words ws Hw i :=
  match goal with F : filled ?rk (take i ws) |- _ =>
    let rk' := fresh "rk" in let F' := fresh "F" in
    edestruct (load_word_spec ws rk i) as (rk' & -> & F'); [exact Hw|exact F|lia|lia|]; cbn [mbind outcome_bind]; clear F
  end.

Definition key_length (key : list Z) : Prop := length key = 16%nat \/ length key = 24%nat \/ length key = 32%nat.

Definition key_rounds (key : list Z) : nat := rounds (length key / 4).
Definition schedule (key : list Z) : list (list Z) := key_expansion (length key / 4) (key_rounds key) key.

Lemma setkey_e_spec key a :
  key_length key -> Forall is_byte key -> length (e_key a) = 60%nat ->
  exists rk, setkey_e key (Z.of_nat (length key)) a = Done (mkaes (Z.of_nat (key_rounds key)) rk (d_key a))
    /\ length rk = 60%nat /\ keys_at rk (schedule key) (4 * (key_rounds key + 1)).
Proof.
  intros Hk Hb Ha. set (ws := key_words key).
  assert (exists n, length key = (4 * n)%nat /\ (n = 4 \/ n = 6 \/ n = 8)%nat) as (n & Hn & Hc).
  { destruct Hk as [E|[E|E]]; rewrite E; [exists 4%nat|exists 6%nat|exists 8%nat]; lia. }
  destruct (key_words_spec n key Hn Hb) as (Lw & Hw & Ew). fold ws in Lw, Hw, Ew.
  assert (F0 : filled (e_key a) (take 0 ws)) by by apply filled_nil.
  assert (Ers : schedule key = expand (4 * (n + 6 + 1) - n) n ws).
  { unfold schedule, key_expansion, key_rounds, rounds. rewrite Hn, (Nat.mul_comm 4 n), Nat.div_mul by lia. done. }
  assert (Er : key_rounds key = (n + 6)%nat) by (unfold key_rounds, rounds; rewrite Hn, (Nat.mul_comm 4 n), Nat.div_mul by lia; done).
  assert (Fin : forall rk, filled rk (expand (4 * (n + 6 + 1) - n) n ws) -> length rk = 60%nat /\ keys_at rk (schedule key) (4 * (n + 6 + 1))).
  { intros rk [F1 _ F3]. split; [done|]. rewrite length_expand, Lw in F3. rewrite Ers. intros i Hi. apply F3. lia. }
  rewrite Er, Hn. clear Er Ers. generalize dependent (schedule key). intros sc Fin. unfold setkey_e. rewrite <- Ew. load_words ws Hw 0%nat. load_words ws Hw 1%nat. load_words ws Hw 2%nat. load_words ws Hw 3%nat.
  destruct Hc as [->|[->| ->]].
  - change (Z.of_nat (4 * 4) =? 16) with true. cbn [mbind outcome_bind].
    match goal with F : filled ?rk (take _ ws) |- _ =>
      rewrite take_ge in F by lia; destruct (setkey16_loop_spec 10 0 rk ws F) as (rk' & E & F'); [lia|lia|lia|] end.
    change (Z.of_nat (4 * 0)) with 0 in E. change (Z.of_nat 0) with 0 in E. rewrite E. cbn [mbind outcome_bind]. exists rk'. split; [done|by apply Fin].
  - change (Z.of_nat (4 * 6) =? 16) with false. change (Z.of_nat (4 * 6) =? 24) with true. cbv iota. load_words ws Hw 4%nat. load_words ws Hw 5%nat.
    match goal with F : filled ?rk (take _ ws) |- _ =>
      rewrite take_ge in F by lia; destruct (setkey24_loop_spec 8 0 rk ws F) as (rk' & E & F'); [lia|lia|lia|] end.
    change (Z.of_nat (6 * 0)) with 0 in E. change (Z.of_nat 0) with 0 in E. rewrite E. cbn [mbind outcome_bind]. exists rk'. split; [done|by apply Fin].
  - change (Z.of_nat (4 * 8) =? 16) with false. change (Z.of_nat (4 * 8) =? 24) with false. change (Z.of_nat (4 * 8) =? 32) with true. cbv iota.
    load_words ws Hw 4%nat. load_words ws Hw 5%nat. load_words ws Hw 6%nat. load_words ws Hw 7%nat.
    match goal with F : filled ?rk (take _ ws) |- _ =>
      rewrite take_ge in F by lia; destruct (setkey32_loop_spec 7 0 rk ws F) as (rk' & E & F'); [lia|lia|lia|] end.
    change (Z.of_nat (8 * 0)) with 0 in E. change (Z.of_nat 0) with 0 in E. rewrite E. cbn [mbind outcome_bind]. exists rk'. split; [done|by apply Fin].
Qed.

(** ** The schedule of the inverse cipher *)
Lemma rd_wr {A} (l l' : list A) i v q :
  wr l i v = Done l' -> length l' = length l /\ rd l' q = if q =? i then Done v else rd l q.
Proof.
  unfold wr. destruct (Z.leb_spec 0 i), (Z.ltb_spec i (Z.of_nat (length l))); cbn [andb]; try done. intros [= <-].
  split; [apply length_insert|]. unfold rd. destruct (Z.eqb_spec q i) as [->|Hne].
  - destruct (Z.leb_spec 0 i); [|lia]. rewrite list_lookup_insert_eq by lia. done.
  - destruct (Z.leb_spec 0 q); [|done]. by rewrite list_lookup_insert_ne by lia.
Qed.

Lemma rd_wr_ok {A} (l : list A) i v : 0 <= i < Z.of_nat (length l) -> exists l', wr l i v = Done l'.
Proof. intros Hi. unfold wr. destruct (Z.leb_spec 0 i), (Z.ltb_spec i (Z.of_nat (length l))); try lia. by eexists. Qed.

Lemma rd_ok {A} (l : list A) i : 0 <= i < Z.of_nat (length l) -> exists v, rd l i = Done v.
Proof.
  intros Hi. destruct (lookup_lt_is_Some_2 l (Z.to_nat i)) as [v Hv]; [lia|]. exists v. unfold rd. destruct (Z.leb_spec 0 i); [|lia]. by rewrite Hv.
Qed.

Lemma swap_words_spec rk i j :
  0 <= i < Z.of_nat (length rk) -> 0 <= j < Z.of_nat (length rk) ->
  exists rk', swap_words rk i j = Done rk' /\ length rk' = length rk
    /\ forall q, rd rk' q = if q =? j then rd rk i else if q =? i then rd rk j else rd rk q.
Proof.
  intros Hi Hj. unfold swap_words. destruct (rd_ok rk i Hi) as [x Ex], (rd_ok rk j Hj) as [y Ey]. rewrite Ex. cbn [mbind outcome_bind].
  rewrite Ey. cbn [mbind outcome_bind]. destruct (rd_wr_ok rk i y Hi) as [r1 E1]. rewrite E1. cbn [mbind outcome_bind].
  destruct (rd_wr rk r1 i y 0 E1) as [L1 _]. destruct (rd_wr_ok r1 j x) as [r2 E2]; [lia|]. destruct (rd_wr r1 r2 j x 0 E2) as [L2 _].
  exists r2. split; [done|]. split; [lia|]. intros q. destruct (rd_wr r1 r2 j x q E2) as [_ ->]. destruct (Z.eqb_spec q j); [done|].
  destruct (rd_wr rk r1 i y q E1) as [_ ->]. by destruct (Z.eqb_spec q i).
Qed.

Ltac cmp_cases := repeat match goal with |- context [if ?a =? ?b then _ else _] => destruct (Z.eqb_spec a b); try lia end.

(** Two rows of four words exchanged. *)
Lemma swap_rows rk i j :
  0 <= i -> i + 4 <= j -> j + 4 <= Z.of_nat (length rk) ->
  exists rk', (rk ← swap_words rk i j; rk ← swap_words rk (i + 1) (j + 1); rk ← swap_words rk (i + 2) (j + 2); swap_words rk (i + 3) (j + 3)) = Done rk'
    /\ length rk' = length rk
    /\ forall q, rd rk' q = if (i <=? q) && (q <? i + 4) then rd rk (q - i + j) else if (j <=? q) && (q <? j + 4) then rd rk (q - j + i) else rd rk q.
Proof.
  intros Hi Hij Hj. destruct (swap_words_spec rk i j) as (r1 & -> & L1 & S1); [lia|lia|]. cbn [mbind outcome_bind].
  destruct (swap_words_spec r1 (i + 1) (j + 1)) as (r2 & -> & L2 & S2); [lia|lia|]. cbn [mbind outcome_bind].
  destruct (swap_words_spec r2 (i + 2) (j + 2)) as (r3 & -> & L3 & S3); [lia|lia|]. cbn [mbind outcome_bind].
  destruct (swap_words_spec r3 (i + 3) (j + 3)) as (r4 & -> & L4 & S4); [lia|lia|]. exists r4. split; [done|]. split; [lia|].
  assert (R : forall q k, (k < 4)%nat -> q = i + Z.of_nat k -> rd r4 q = rd rk (q - i + j)).
  { intros q k Hk ->. do 4 (destruct k as [|k]; [rewrite S4, !S3, !S2, !S1; clear S1 S2 S3 S4; cmp_cases; f_equal; lia|]). lia. }
  assert (R' : forall q k, (k < 4)%nat -> q = j + Z.of_nat k -> rd r4 q = rd rk (q - j + i)).
  { intros q k Hk ->. do 4 (destruct k as [|k]; [rewrite S4, !S3, !S2, !S1; clear S1 S2 S3 S4; cmp_cases; f_equal; lia|]). lia. }
  intros q. destruct (Z.leb_spec i q), (Z.ltb_spec q (i + 4)); cbn [andb]; [apply (R q (Z.to_nat (q - i))); lia| | |];
  destruct (Z.leb_spec j q), (Z.ltb_spec q (j + 4)); cbn [andb]; try (apply (R' q (Z.to_nat (q - j))); lia);
    rewrite S4, !S3, !S2, !S1; cmp_cases; done.
Qed.

(** The words are moved to the rows at the same distance from the other end. *)
Lemma invert_loop_spec fuel i j rk :
  0 <= i -> i <= j + 4 -> j + 4 <= Z.of_nat (length rk) -> i mod 4 = 0 -> j mod 4 = 0 -> j - i <= 4 * Z.of_nat fuel ->
  exists rk', invert_loop fuel i j rk = Done rk' /\ length rk' = length rk
    /\ forall q, rd rk' q = if (i <=? q) && (q <? j + 4) then rd rk (i + j - q + 2 * (q mod 4)) else rd rk q.
Proof.
  revert i j rk. induction fuel as [|fuel IH]; intros i j rk Hi Hij Hj Mi Mj Hf; cbn [invert_loop].
  { destruct (Z.ltb_spec i j); [lia|]. exists rk. split; [done|]. split; [done|]. intros q.
    destruct (Z.leb_spec i q), (Z.ltb_spec q (j + 4)); cbn [andb]; try done. f_equal. pose proof (Z.div_mod q 4). pose proof (Z.div_mod i 4).
    pose proof (Z.mod_pos_bound q 4). pose proof (Z.div_mod j 4). lia. }
  destruct (Z.ltb_spec i j) as [Hlt|Hge].
  2:{ exists rk. split; [done|]. split; [done|]. intros q.
    destruct (Z.leb_spec i q), (Z.ltb_spec q (j + 4)); cbn [andb]; try done. f_equal. pose proof (Z.div_mod q 4). pose proof (Z.div_mod i 4).
    pose proof (Z.mod_pos_bound q 4). pose proof (Z.div_mod j 4). lia. }
  assert (i + 4 <= j) by (pose proof (Z.div_mod i 4); pose proof (Z.div_mod j 4); lia).
  destruct (swap_rows rk i j) as (r1 & E1 & L1 & S1); [lia|lia|lia|].
  assert (Hb : forall k : list Z -> outcome (list Z), (rk ← swap_words rk i j; rk ← swap_words rk (i + 1) (j + 1); rk ← swap_words rk (i + 2) (j + 2);
    rk ← swap_words rk (i + 3) (j + 3); k rk) = k r1).
  { intros k. revert E1. destruct (swap_words rk i j) as [x1| | |]; try done. cbn [mbind outcome_bind].
    destruct (swap_words x1 _ _) as [x2| | |]; try done. cbn [mbind outcome_bind].
    destruct (swap_words x2 _ _) as [x3| | |]; try done. cbn [mbind outcome_bind]. intros ->. done. }
  rewrite Hb. destruct (IH (i + 4) (j - 4) r1) as (r2 & E2 & L2 & S2); [lia|lia|lia| | |lia|].
  { rewrite <- Z.add_mod_idemp_r, Z_mod_same_full, Z.add_0_r by lia. done. }
  { rewrite <- Zminus_mod_idemp_r, Z_mod_same_full, Z.sub_0_r by lia. done. }
  exists r2. split; [done|]. split; [lia|]. intros q. rewrite S2. replace (j - 4 + 4) with j by lia.
  pose proof (Z.div_mod q 4). pose proof (Z.div_mod i 4). pose proof (Z.div_mod j 4). pose proof (Z.mod_pos_bound q 4).
  destruct (Z.leb_spec i q), (Z.leb_spec (i + 4) q), (Z.ltb_spec q j), (Z.ltb_spec q (j + 4)); cbn [andb]; try lia; rewrite S1;
  repeat match goal with |- context [?a <=? ?b] => destruct (Z.leb_spec a b) | |- context [?a <? ?b] => destruct (Z.ltb_spec a b) end;
    cbn [andb]; try done; try lia; f_equal; lia.
Qed.

Lemma inv_mix_at_spec rk p :
  0 <= p < Z.of_nat (length rk) ->
  exists rk', inv_mix_at rk p = Done rk' /\ length rk' = length rk
    /\ forall q, rd rk' q = if q =? p then (x ← rd rk q; Done (inv_mix x)) else rd rk q.
Proof.
  intros Hp. unfold inv_mix_at. destruct (rd_ok rk p Hp) as [x Ex]. rewrite Ex. cbn [mbind outcome_bind].
  destruct (rd_wr_ok rk p (inv_mix x) Hp) as [r E]. rewrite E. exists r. split; [done|]. split; [by apply (rd_wr rk r p (inv_mix x) 0)|].
  intros q. destruct (rd_wr rk r p (inv_mix x) q E) as [_ ->]. destruct (Z.eqb_spec q p) as [->|]; [|done]. by rewrite Ex.
Qed.

Lemma inv_mix_loop_spec n p rk :
  0 <= p -> p + 4 + 4 * Z.of_nat n <= Z.of_nat (length rk) ->
  exists rk', inv_mix_loop n p rk = Done rk' /\ length rk' = length rk
    /\ forall q, rd rk' q = if (p + 4 <=? q) && (q <? p + 4 + 4 * Z.of_nat n) then (x ← rd rk q; Done (inv_mix x)) else rd rk q.
Proof.
  revert p rk. induction n as [|n IH]; intros p rk Hp Hn; cbn [inv_mix_loop].
  { exists rk. split; [done|]. split; [done|]. intros q. destruct (Z.leb_spec (p + 4) q), (Z.ltb_spec q (p + 4 + 4 * Z.of_nat 0)); cbn [andb]; try done. lia. }
  destruct (inv_mix_at_spec rk (p + 4)) as (r1 & -> & L1 & S1); [lia|]. cbn [mbind outcome_bind].
  destruct (inv_mix_at_spec r1 (p + 4 + 1)) as (r2 & -> & L2 & S2); [lia|]. cbn [mbind outcome_bind].
  destruct (inv_mix_at_spec r2 (p + 4 + 2)) as (r3 & -> & L3 & S3); [lia|]. cbn [mbind outcome_bind].
  destruct (inv_mix_at_spec r3 (p + 4 + 3)) as (r4 & -> & L4 & S4); [lia|]. cbn [mbind outcome_bind].
  destruct (IH (p + 4) r4) as (r5 & -> & L5 & S5); [lia|lia|]. exists r5. split; [done|]. split; [lia|]. intros q. rewrite S5.
  replace (p + 4 + 4 * Z.of_nat (S n)) with (p + 4 + 4 + 4 * Z.of_nat n) by lia.
  rewrite !S4, !S3, !S2, !S1. clear S1 S2 S3 S4 S5.
  destruct (Z.leb_spec (p + 4 + 4) q), (Z.ltb_spec q (p + 4 + 4 + 4 * Z.of_nat n)), (Z.leb_spec (p + 4) q); cbn [andb]; try lia; cmp_cases; try done; lia.
Qed.
