(* ===== verification/AesProps.v ===== *)
(** * The code computes AES, and deciphering undoes enciphering *)
From Stdlib Require Import ZArith Lia Btauto.
From stdpp Require Import prelude.
From S2P Require Import Prelude Serial Aes AesOps AesKeys.

#[local] Opaque sub_byte inv_sub_byte gmul tbl pack Z.mul Z.of_nat.

(** ** The keys of the inverse cipher *)
Definition mix_word (w : list Z) : list Z := match w with [a; b; c; d] => mix_column 14 11 13 9 a b c d | _ => [] end.

Lemma mix_word_word w : is_word w -> is_word (mix_word w).
Proof. intros Hw. destruct (word_cases w Hw) as (? & ? & ? & ? & -> & ? & ? & ? & ?). by apply mix_column_word. Qed.

(** [Te4] and [Td0] to [Td3] one after the other. *)
Lemma inv_mix_spec w : is_word w -> inv_mix (packl w) = packl (mix_word w).
Proof.
  intros Hw. destruct (word_cases w Hw) as (a & b & c & d & -> & Ha & Hb & Hc & Hd). unfold inv_mix. cbn [packl]. unpack.
  assert (E : forall x, is_byte x -> tbl Te4 x .& 0xff = sub_byte x).
  { intros x Hx. rewrite (lt_3 _ _ enc_last_table x Hx). rewrite <- (Z.lor_0_l (sub_byte x)) at 2. reflexivity. }
  rewrite !E by done. destruct dec_tables as [T0 T1 T2 T3]. rewrite T0, T1, T2, T3 by by apply sub_byte_byte. rewrite !inv_sub_sub by done.
  rewrite !pack_xor by auto 7 with aes. done.
Qed.

Definition dec_word (nr : nat) (w : list (list Z)) (i : nat) : list Z :=
  let x := word_at w (4 * (nr - i / 4) + i mod 4) in
  if (4 <=? i)%nat && (i <? 4 * nr)%nat then mix_word x else x.
Definition dec_schedule (nr : nat) (w : list (list Z)) : list (list Z) := dec_word nr w <$> seq 0 (4 * (nr + 1)).

Lemma dec_schedule_at nr w i : (i < 4 * (nr + 1))%nat -> word_at (dec_schedule nr w) i = dec_word nr w i.
Proof.
  intros Hi. unfold word_at, dec_schedule. apply nth_lookup_Some. rewrite list_lookup_fmap, lookup_seq_lt by lia. done.
Qed.

Lemma row_col r c : (c < 4)%nat -> ((4 * r + c) / 4 = r /\ (4 * r + c) mod 4 = c)%nat.
Proof.
  intros Hc. rewrite Nat.mul_comm, Nat.add_comm. split; [rewrite Nat.div_add, Nat.div_small by lia; lia|].
  rewrite Nat.Div0.mod_add. by apply Nat.mod_small.
Qed.

Lemma dec_word_at nr w r c :
  (c < 4)%nat -> (r <= nr)%nat ->
  dec_word nr w (4 * r + c) = let x := word_at w (4 * (nr - r) + c) in if (0 <? r)%nat && (r <? nr)%nat then mix_word x else x.
Proof.
  intros Hc Hr. unfold dec_word. destruct (row_col r c Hc) as [-> ->].
  destruct (Nat.leb_spec 4 (4 * r + c)), (Nat.ltb_spec (4 * r + c) (4 * nr)), (Nat.ltb_spec 0 r), (Nat.ltb_spec r nr); cbn [andb]; done || lia.
Qed.

Lemma dec_inverse_keys rk nr w :
  (0 < nr)%nat -> keys_at rk w (4 * (nr + 1)) -> inverse_keys nr w (dec_schedule nr w).
Proof.
  intros Hnr Hk. assert (R : forall r, (r <= nr)%nat -> round_key (dec_schedule nr w) r
    = if (0 <? r)%nat && (r <? nr)%nat then inv_mix_columns (round_key w (nr - r)) else round_key w (nr - r)).
  { intros r Hr. unfold round_key at 1. rewrite !dec_schedule_at by lia. rewrite <- (Nat.add_0_r (4 * r)) at 1. rewrite !dec_word_at by lia.
    cbv zeta. rewrite Nat.add_0_r. destruct ((0 <? r)%nat && (r <? nr)%nat); [|done]. unfold round_key.
    destruct (word_cases _ (proj1 (Hk (4 * (nr - r))%nat ltac:(lia)))) as (? & ? & ? & ? & -> & _).
    destruct (word_cases _ (proj1 (Hk (4 * (nr - r) + 1)%nat ltac:(lia)))) as (? & ? & ? & ? & -> & _).
    destruct (word_cases _ (proj1 (Hk (4 * (nr - r) + 2)%nat ltac:(lia)))) as (? & ? & ? & ? & -> & _).
    destruct (word_cases _ (proj1 (Hk (4 * (nr - r) + 3)%nat ltac:(lia)))) as (? & ? & ? & ? & -> & _). reflexivity. }
  split; [rewrite R by lia; by rewrite Nat.sub_0_r|]. split; [rewrite R by lia|].
  - destruct (Nat.ltb_spec nr nr); [lia|]. rewrite andb_false_r. by rewrite Nat.sub_diag.
  - intros j Hj. rewrite R by lia. destruct (Nat.ltb_spec 0 j), (Nat.ltb_spec j nr); done || lia.
Qed.

Lemma setkey_d_spec a nr w :
  nrounds a = Z.of_nat nr -> (0 < nr)%nat -> (4 * (nr + 1) <= 60)%nat -> length (e_key a) = 60%nat -> keys_at (e_key a) w (4 * (nr + 1)) ->
  exists rk, setkey_d a = Done (mkaes (nrounds a) (e_key a) rk) /\ keys_at rk (dec_schedule nr w) (4 * (nr + 1)).
Proof.
  intros Hn Hpos Hfit Hl Hk. unfold setkey_d. rewrite Hn.
  destruct (invert_loop_spec (Z.to_nat (Z.of_nat nr)) 0 (4 * Z.of_nat nr) (e_key a)) as (r1 & -> & L1 & S1);
    [lia|lia|lia|done|by rewrite Z.mul_comm, Z_mod_mult|lia|]. cbn [mbind outcome_bind].
  destruct (inv_mix_loop_spec (Z.to_nat (Z.of_nat nr - 1)) 0 r1) as (r2 & -> & L2 & S2); [lia|lia|]. cbn [mbind outcome_bind].
  exists r2. split; [done|]. intros i Hi. rewrite dec_schedule_at by done. pose proof (Nat.div_mod i 4 ltac:(lia)) as Ed.
  pose proof (Nat.mod_upper_bound i 4 ltac:(lia)) as Hc. set (r := (i / 4)%nat) in *. set (c := (i mod 4)%nat) in *.
  assert (Hr : (r <= nr)%nat) by lia. destruct (Hk (4 * (nr - r) + c)%nat ltac:(lia)) as [Hw Er].
  assert (Em : Z.of_nat i mod 4 = Z.of_nat c) by (unfold c; by rewrite Nat2Z.inj_mod).
  assert (E1 : rd r1 (Z.of_nat i) = Done (packl (word_at w (4 * (nr - r) + c)))).
  { rewrite S1, <- Er, Em. destruct (Z.leb_spec 0 (Z.of_nat i)), (Z.ltb_spec (Z.of_nat i) (4 * Z.of_nat nr + 4)); try lia. cbn [andb]. f_equal. lia. }
  rewrite S2, E1. cbn [mbind outcome_bind]. unfold dec_word. fold r c.
  destruct (Nat.leb_spec 4 i), (Nat.ltb_spec i (4 * nr)), (Z.leb_spec (0 + 4) (Z.of_nat i)),
    (Z.ltb_spec (Z.of_nat i) (0 + 4 + 4 * Z.of_nat (Z.to_nat (Z.of_nat nr - 1)))); cbn [andb]; try lia; split; try done.
  - by apply mix_word_word.
  - by rewrite inv_mix_spec.
Qed.

(** ** The code is the cipher *)
(** One round of the code, at place [p] of the keys, which is round [r]. *)
Ltac enc_step Hk r p :=
  match goal with |- context [enc_round _ p (words ?s)] =>
    let E := fresh "E" in let H := fresh "H" in
    destruct (enc_round_spec _ _ _ r p s Hk ltac:(lia) ltac:(assumption) ltac:(reflexivity)) as [E H];
    rewrite E; cbn [mbind outcome_bind]; clear E
  end.

Ltac enc_steps Hk :=
  enc_step Hk 1%nat 4; enc_step Hk 2%nat 8; enc_step Hk 3%nat 12; enc_step Hk 4%nat 16; enc_step Hk 5%nat 20;
  enc_step Hk 6%nat 24; enc_step Hk 7%nat 28; enc_step Hk 8%nat 32; enc_step Hk 9%nat 36.

Lemma encipher_spec a nr w s :
  nrounds a = Z.of_nat nr -> (nr = 10 \/ nr = 12 \/ nr = 14)%nat -> keys_at (e_key a) w (4 * (nr + 1)) -> is_state s ->
  encipher_bytes a s = Done (fips_cipher nr w s) /\ is_state (fips_cipher nr w s).
Proof.
  intros Hn Hnr Hk Hs. assert (K : forall r, (r <= nr)%nat -> is_state (round_key w r)).
  { intros r Hr. apply (round_key_state _ _ _ r Hk). lia. }
  unfold encipher_bytes. rewrite Hn. rewrite <- (app_nil_r s) at 1. rewrite load_block_spec by done. cbn [mbind outcome_bind].
  rewrite (add_key_spec _ w _ 0 _ _ Hk) by (done || lia). cbn [mbind outcome_bind]. unfold fips_cipher.
  set (s0 := xorl s (round_key w 0)). assert (H0 : is_state s0) by (apply xorl_state; [done|apply K; lia]). clearbody s0.
  assert (Hlast : forall t, is_state t -> is_state (xorl (shift_rows (sub_byte <$> t)) (round_key w nr))).
  { intros t Ht. apply xorl_state; [|apply K; lia]. apply shift_rows_state, fmap_state; [exact sub_byte_byte|done]. }
  assert (Hfin : forall t, is_state t -> (s ← enc_last (e_key a) (Z.of_nat nr .<< 2) (words t); Done (put_block s))
    = Done (xorl (shift_rows (sub_byte <$> t)) (round_key w nr)) /\ is_state (xorl (shift_rows (sub_byte <$> t)) (round_key w nr))).
  { intros t Ht. rewrite (enc_last_spec _ w _ nr _ _ Hk) by (done || lia || rewrite Z.shiftl_mul_pow2 by lia; lia). cbn [mbind outcome_bind].
    split; [|by apply Hlast]. f_equal. apply put_block_spec. by apply Hlast. }
  destruct Hnr as [->|[->| ->]]; cbn [Nat.sub seq fold_left].
  - enc_steps Hk. change (10 <? Z.of_nat 10) with false. cbn [mbind outcome_bind]. by apply Hfin.
  - enc_steps Hk. change (10 <? Z.of_nat 12) with true. change (12 <? Z.of_nat 12) with false. cbv iota.
    enc_step Hk 10%nat 40. enc_step Hk 11%nat 44. by apply Hfin.
  - enc_steps Hk. change (10 <? Z.of_nat 14) with true. change (12 <? Z.of_nat 14) with true. cbv iota.
    enc_step Hk 10%nat 40. enc_step Hk 11%nat 44. enc_step Hk 12%nat 48. enc_step Hk 13%nat 52. by apply Hfin.
Qed.

(** Place [p] of the inverse cipher's keys is round [r], counted from the end. *)
Ltac dec_step Hd Hk Hi r p :=
  match goal with |- context [dec_round _ p (words ?s)] =>
    let E := fresh "E" in let H := fresh "H" in
    destruct (dec_round_spec _ _ _ _ _ r p s Hd Hk Hi ltac:(lia) ltac:(assumption) ltac:(reflexivity)) as [E H];
    rewrite E; cbn [mbind outcome_bind]; clear E
  end.

Lemma decipher_spec a nr w s :
  nrounds a = Z.of_nat nr -> (nr = 10 \/ nr = 12 \/ nr = 14)%nat -> keys_at (e_key a) w (4 * (nr + 1)) ->
  keys_at (d_key a) (dec_schedule nr w) (4 * (nr + 1)) -> is_state s ->
  decipher_bytes a s = Done (fips_inv_cipher nr w s).
Proof.
  intros Hn Hnr Hk Hd Hs. assert (K : forall r, (r <= nr)%nat -> is_state (round_key w r)).
  { intros r Hr. apply (round_key_state _ _ _ r Hk). lia. }
  assert (Hi : inverse_keys nr w (dec_schedule nr w)) by (apply (dec_inverse_keys (e_key a)); [lia|done]).
  unfold decipher_bytes. rewrite Hn. rewrite <- (app_nil_r s) at 1. rewrite load_block_spec by done. cbn [mbind outcome_bind].
  rewrite (add_key_spec _ (dec_schedule nr w) _ 0 _ _ Hd) by (done || lia). cbn [mbind outcome_bind]. unfold fips_inv_cipher.
  rewrite (proj1 Hi). set (s0 := xorl s (round_key w nr)). assert (H0 : is_state s0) by (apply xorl_state; [done|apply K; lia]). clearbody s0.
  assert (Hfin : forall t, is_state t -> (s ← dec_last (d_key a) (Z.of_nat nr .<< 2) (words t); Done (put_block s))
    = Done (xorl (inv_sub_byte <$> inv_shift_rows t) (round_key w 0))).
  { intros t Ht. replace (Z.of_nat nr .<< 2) with (Z.of_nat (4 * nr)) by (rewrite Z.shiftl_mul_pow2 by lia; lia).
    rewrite (dec_last_spec _ _ nr _ _ _ Hd Hk Hi Ht). cbn [mbind outcome_bind]. f_equal. apply put_block_spec.
    apply xorl_state; [|apply K; lia]. apply fmap_state; [exact inv_sub_byte_byte|by apply inv_shift_rows_state]. }
  destruct Hnr as [->|[->| ->]]; cbn [Nat.sub seq].
  - change (reverse [1;2;3;4;5;6;7;8;9]%nat) with [9;8;7;6;5;4;3;2;1]%nat. cbn [fold_left].
    dec_step Hd Hk Hi 9%nat 4. dec_step Hd Hk Hi 8%nat 8. dec_step Hd Hk Hi 7%nat 12. dec_step Hd Hk Hi 6%nat 16. dec_step Hd Hk Hi 5%nat 20.
    dec_step Hd Hk Hi 4%nat 24. dec_step Hd Hk Hi 3%nat 28. dec_step Hd Hk Hi 2%nat 32. dec_step Hd Hk Hi 1%nat 36.
    change (10 <? Z.of_nat 10) with false. cbn [mbind outcome_bind]. by apply Hfin.
  - change (reverse [1;2;3;4;5;6;7;8;9;10;11]%nat) with [11;10;9;8;7;6;5;4;3;2;1]%nat. cbn [fold_left].
    dec_step Hd Hk Hi 11%nat 4. dec_step Hd Hk Hi 10%nat 8. dec_step Hd Hk Hi 9%nat 12. dec_step Hd Hk Hi 8%nat 16. dec_step Hd Hk Hi 7%nat 20.
    dec_step Hd Hk Hi 6%nat 24. dec_step Hd Hk Hi 5%nat 28. dec_step Hd Hk Hi 4%nat 32. dec_step Hd Hk Hi 3%nat 36.
    change (10 <? Z.of_nat 12) with true. change (12 <? Z.of_nat 12) with false. cbv iota.
    dec_step Hd Hk Hi 2%nat 40. dec_step Hd Hk Hi 1%nat 44. by apply Hfin.
  - change (reverse [1;2;3;4;5;6;7;8;9;10;11;12;13]%nat) with [13;12;11;10;9;8;7;6;5;4;3;2;1]%nat. cbn [fold_left].
    dec_step Hd Hk Hi 13%nat 4. dec_step Hd Hk Hi 12%nat 8. dec_step Hd Hk Hi 11%nat 12. dec_step Hd Hk Hi 10%nat 16. dec_step Hd Hk Hi 9%nat 20.
    dec_step Hd Hk Hi 8%nat 24. dec_step Hd Hk Hi 7%nat 28. dec_step Hd Hk Hi 6%nat 32. dec_step Hd Hk Hi 5%nat 36.
    change (10 <? Z.of_nat 14) with true. change (12 <? Z.of_nat 14) with true. cbv iota.
    dec_step Hd Hk Hi 4%nat 40. dec_step Hd Hk Hi 3%nat 44. dec_step Hd Hk Hi 2%nat 48. dec_step Hd Hk Hi 1%nat 52. by apply Hfin.
Qed.

(** ** The inverse cipher undoes the cipher *)
Lemma xorl_twice l k : length l = length k -> xorl (xorl l k) k = l.
Proof.
  revert k. induction l as [|x l IH]; intros [|y k] Hl; try done. unfold xorl. cbn [zip_with]. f_equal; [|apply IH; cbn in Hl; lia].
  by rewrite Z.lxor_assoc, Z.lxor_nilpotent, Z.lxor_0_r.
Qed.

Lemma state_xorl_twice s k : is_state s -> is_state k -> xorl (xorl s k) k = s.
Proof. intros [L1 _] [L2 _]. apply xorl_twice. lia. Qed.

Lemma inv_shift_shift s : is_state s -> inv_shift_rows (shift_rows s) = s.
Proof. intros Hs. state_bytes Hs. reflexivity. Qed.

Lemma inv_sub_sub_list s : Forall is_byte s -> inv_sub_byte <$> (sub_byte <$> s) = s.
Proof. intros Hs. rewrite <- list_fmap_compose. induction Hs as [|x s Hx Hs IH]; [done|]. rewrite fmap_cons, IH. cbn. by rewrite inv_sub_sub. Qed.

(** Two matrices whose product is the identity, checked column by column. *)
Section matrices.
Context (p q r t p' q' r' t' : Z).

Definition mul_word (w : list Z) : list Z := match w with [a; b; c; d] => mix_column p' q' r' t' a b c d | _ => [] end.

Definition matrix_check : bool :=
  forallb (fun x => bool_decide (mul_word (mix_column p q r t x 0 0 0) = [x; 0; 0; 0]) && bool_decide (mul_word (mix_column p q r t 0 x 0 0) = [0; x; 0; 0])
    && bool_decide (mul_word (mix_column p q r t 0 0 x 0) = [0; 0; x; 0]) && bool_decide (mul_word (mix_column p q r t 0 0 0 x) = [0; 0; 0; x])) (seqZ 0 256).

Context (Hm : matrix_check = true).

Lemma inverse_matrix x : is_byte x ->
  mul_word (mix_column p q r t x 0 0 0) = [x; 0; 0; 0] /\ mul_word (mix_column p q r t 0 x 0 0) = [0; x; 0; 0]
  /\ mul_word (mix_column p q r t 0 0 x 0) = [0; 0; x; 0] /\ mul_word (mix_column p q r t 0 0 0 x) = [0; 0; 0; x].
Proof using Hm.
  intros Hx. pose proof (all_bytes _ Hm x Hx) as E. rewrite !andb_true_iff, !bool_decide_eq_true in E. tauto.
Qed.

Lemma mul_word_xor u v : is_word u -> is_word v -> mul_word (xorl u v) = xorl (mul_word u) (mul_word v).
Proof using.
  intros Hu Hv. destruct (word_cases u Hu) as (? & ? & ? & ? & -> & ? & ? & ? & ?).
  destruct (word_cases v Hv) as (? & ? & ? & ? & -> & ? & ? & ? & ?). by apply mix_column_xor.
Qed.

Lemma inv_mix_column a b c d :
  is_byte a -> is_byte b -> is_byte c -> is_byte d -> mul_word (mix_column p q r t a b c d) = [a; b; c; d].
Proof using Hm.
  intros Ha Hb Hc Hd. assert (Z0 := zero_byte).
  assert (E : mix_column p q r t a b c d = xorl (xorl (mix_column p q r t a 0 0 0) (mix_column p q r t 0 b 0 0))
                                               (xorl (mix_column p q r t 0 0 c 0) (mix_column p q r t 0 0 0 d))).
  { rewrite <- !mix_column_xor by auto with aes. by rewrite !Z.lxor_0_l, !Z.lxor_0_r. }
  rewrite E, !mul_word_xor by (repeat apply xorl_word; by apply mix_column_word).
  rewrite (proj1 (inverse_matrix a Ha)), (proj1 (proj2 (inverse_matrix b Hb))), (proj1 (proj2 (proj2 (inverse_matrix c Hc)))),
    (proj2 (proj2 (proj2 (inverse_matrix d Hd)))). unfold xorl. cbn [zip_with]. by rewrite !Z.lxor_0_l, !Z.lxor_0_r.
Qed.

Lemma columns_inverse s : is_state s -> columns (mix_column p' q' r' t') (columns (mix_column p q r t) s) = s.
Proof using Hm.
  intros Hs. state_bytes Hs. cbn [app columns].
  assert (E : forall a b c d rest, is_byte a -> is_byte b -> is_byte c -> is_byte d ->
    columns (mix_column p' q' r' t') (mix_column p q r t a b c d ++ rest) = [a; b; c; d] ++ columns (mix_column p' q' r' t') rest).
  { intros a b c d rest Ha Hb Hc Hd. rewrite <- (inv_mix_column a b c d Ha Hb Hc Hd) at 1. reflexivity. }
  rewrite !E by done. reflexivity.
Qed.
End matrices.

Lemma inv_mix_mix s : is_state s -> inv_mix_columns (mix_columns s) = s.
Proof. apply columns_inverse. vm_compute. reflexivity. Qed.

Lemma mix_inv_mix s : is_state s -> mix_columns (inv_mix_columns s) = s.
Proof. apply columns_inverse. vm_compute. reflexivity. Qed.

Lemma shift_inv_shift s : is_state s -> shift_rows (inv_shift_rows s) = s.
Proof. intros Hs. state_bytes Hs. reflexivity. Qed.

Lemma sub_inv_sub x : is_byte x -> sub_byte (inv_sub_byte x) = x.
Proof.
  intros Hx. rewrite sub_byte_tbl, inv_sub_byte_tbl by (done || by apply inv_sub_byte_byte). revert x Hx.
  apply (all_bytes_eq (fun x => tbl sbox (tbl inv_sbox x)) id). vm_compute. reflexivity.
Qed.

Lemma sub_inv_sub_list s : Forall is_byte s -> sub_byte <$> (inv_sub_byte <$> s) = s.
Proof. intros Hs. rewrite <- list_fmap_compose. induction Hs as [|x s Hx Hs IH]; [done|]. rewrite fmap_cons, IH. cbn. by rewrite sub_inv_sub. Qed.

Section inverse.
Context (w : list (list Z)) (nr : nat) (K : forall r, (r <= nr)%nat -> is_state (round_key w r)).

Lemma sub_shift_state s : is_state s -> is_state (shift_rows (sub_byte <$> s)).
Proof using. intros Hs. apply shift_rows_state, fmap_state; [exact sub_byte_byte|done]. Qed.

Lemma inv_sub_shift s : is_state s -> inv_sub_byte <$> inv_shift_rows (shift_rows (sub_byte <$> s)) = s.
Proof using.
  intros Hs. rewrite inv_shift_shift by (apply fmap_state; [exact sub_byte_byte|done]). apply inv_sub_sub_list, Hs.
Qed.

Lemma round_state s r : (r <= nr)%nat -> is_state s -> is_state (fips_round w s r).
Proof using K. intros Hr Hs. apply xorl_state; [|by apply K]. apply columns_state. by apply sub_shift_state. Qed.

Lemma inv_round_round s r :
  (r <= nr)%nat -> is_state s -> fips_inv_round w (shift_rows (sub_byte <$> fips_round w s r)) r = shift_rows (sub_byte <$> s).
Proof using K.
  intros Hr Hs. unfold fips_inv_round. rewrite inv_sub_shift by by apply round_state. unfold fips_round.
  rewrite state_xorl_twice by (apply columns_state, sub_shift_state, Hs) || apply K, Hr. apply inv_mix_mix. by apply sub_shift_state.
Qed.

Lemma inv_rounds l s :
  Forall (fun r => (r <= nr)%nat) l -> is_state s ->
  is_state (fold_left (fips_round w) l s)
  /\ fold_left (fips_inv_round w) (reverse l) (shift_rows (sub_byte <$> fold_left (fips_round w) l s)) = shift_rows (sub_byte <$> s).
Proof using K.
  intros Hl. revert s. induction Hl as [|r l Hr Hl IH]; intros s Hs; [done|]. cbn [fold_left].
  destruct (IH (fips_round w s r)) as [IH1 IH2]; [by apply round_state|]. split; [done|].
  rewrite reverse_cons, fold_left_app, IH2. cbn [fold_left]. by apply inv_round_round.
Qed.

Lemma inv_cipher_cipher s : (0 < nr)%nat -> is_state s -> fips_inv_cipher nr w (fips_cipher nr w s) = s.
Proof using K.
  intros Hnr Hs. unfold fips_inv_cipher, fips_cipher. set (s0 := xorl s (round_key w 0)).
  assert (H0 : is_state s0) by (apply xorl_state; [done|apply K; lia]).
  destruct (inv_rounds (seq 1 (nr - 1)) s0) as [H1 H2]; [|done|].
  { apply Forall_forall. intros r Hr. apply elem_of_seq in Hr. lia. }
  rewrite state_xorl_twice by (by apply sub_shift_state) || (apply K; lia). rewrite H2, inv_sub_shift by done.
  apply state_xorl_twice; [done|apply K; lia].
Qed.

(** The other way round. *)
Lemma inv_shift_sub_state s : is_state s -> is_state (inv_sub_byte <$> inv_shift_rows s).
Proof using. intros Hs. apply fmap_state; [exact inv_sub_byte_byte|by apply inv_shift_rows_state]. Qed.

Lemma sub_shift_inv s : is_state s -> shift_rows (sub_byte <$> (inv_sub_byte <$> inv_shift_rows s)) = s.
Proof using.
  intros Hs. rewrite sub_inv_sub_list by apply (inv_shift_rows_state s Hs). by apply shift_inv_shift.
Qed.

Lemma inv_round_state s r : (r <= nr)%nat -> is_state s -> is_state (fips_inv_round w s r).
Proof using K. intros Hr Hs. apply columns_state, xorl_state; [by apply inv_shift_sub_state|by apply K]. Qed.

(** The state in front of round [r] that the inverse round has in its middle. *)
Lemma round_inv_round s r :
  (r <= nr)%nat -> is_state s ->
  fips_round w (inv_sub_byte <$> inv_shift_rows (fips_inv_round w s r)) r = inv_sub_byte <$> inv_shift_rows s.
Proof using K.
  intros Hr Hs. unfold fips_round. rewrite sub_shift_inv by by apply inv_round_state. unfold fips_inv_round.
  rewrite mix_inv_mix by (apply xorl_state; [by apply inv_shift_sub_state|by apply K]).
  apply state_xorl_twice; [by apply inv_shift_sub_state|by apply K].
Qed.

Lemma rounds_inv l s :
  Forall (fun r => (r <= nr)%nat) l -> is_state s ->
  is_state (fold_left (fips_inv_round w) l s)
  /\ fold_left (fips_round w) (reverse l) (inv_sub_byte <$> inv_shift_rows (fold_left (fips_inv_round w) l s)) = inv_sub_byte <$> inv_shift_rows s.
Proof using K.
  intros Hl. revert s. induction Hl as [|r l Hr Hl IH]; intros s Hs; [done|]. cbn [fold_left].
  destruct (IH (fips_inv_round w s r)) as [IH1 IH2]; [by apply inv_round_state|]. split; [done|].
  rewrite reverse_cons, fold_left_app, IH2. cbn [fold_left]. by apply round_inv_round.
Qed.

Lemma cipher_inv_cipher s :
  (0 < nr)%nat -> is_state s -> is_state (fips_inv_cipher nr w s) /\ fips_cipher nr w (fips_inv_cipher nr w s) = s.
Proof using K.
  intros Hnr Hs. unfold fips_inv_cipher, fips_cipher. set (s0 := xorl s (round_key w nr)).
  assert (H0 : is_state s0) by (apply xorl_state; [done|apply K; lia]).
  destruct (rounds_inv (reverse (seq 1 (nr - 1))) s0) as [H1 H2]; [|done|].
  { apply Forall_forall. intros r Hr. rewrite elem_of_reverse in Hr. apply elem_of_seq in Hr. lia. }
  split; [apply xorl_state; [by apply inv_shift_sub_state|apply K; lia]|].
  rewrite state_xorl_twice by (by apply inv_shift_sub_state) || (apply K; lia). rewrite reverse_involutive in H2. rewrite H2, sub_shift_inv by done.
  apply state_xorl_twice; [done|apply K; lia].
Qed.
End inverse.

(** ** Properties *)
Lemma key_rounds_cases key : key_length key -> (key_rounds key = 10 \/ key_rounds key = 12 \/ key_rounds key = 14)%nat.
Proof. intros [E|[E|E]]; unfold key_rounds, rounds; rewrite E; auto. Qed.

(** A cipher whose memory holds anything, with the key set. *)
Lemma setkey_spec key a :
  key_length key -> Forall is_byte key -> length (e_key a) = 60%nat ->
  exists a', aes_setkey key (Z.of_nat (length key)) a = Done a' /\ nrounds a' = Z.of_nat (key_rounds key)
    /\ keys_at (e_key a') (schedule key) (4 * (key_rounds key + 1))
    /\ keys_at (d_key a') (dec_schedule (key_rounds key) (schedule key)) (4 * (key_rounds key + 1)).
Proof.
  intros Hk Hb Ha. destruct (setkey_e_spec key a Hk Hb Ha) as (rk & E & L & K). unfold aes_setkey. rewrite E. cbn [mbind outcome_bind].
  pose proof (key_rounds_cases key Hk) as Hc.
  destruct (setkey_d_spec (mkaes (Z.of_nat (key_rounds key)) rk (d_key a)) (key_rounds key) (schedule key)) as (rk' & -> & K'); try done; [lia|lia|].
  by eexists.
Qed.

(** C16: [setkey] and [encipher_bytes] compute AES as the standard defines it,
    for every key of 16, 24 or 32 bytes and every block, and [decipher_bytes]
    the standard's inverse cipher; the memory the cipher was made in does not
    matter, and no access is out of bounds. *)
Theorem aes_is_fips197 key a block :
  key_length key -> Forall is_byte key -> length (e_key a) = 60%nat -> length block = 16%nat -> Forall is_byte block ->
  exists a', aes_setkey key (Z.of_nat (length key)) a = Done a'
    /\ encipher_bytes a' block = Done (fips_aes key block) /\ decipher_bytes a' block = Done (fips_aes_inv key block).
Proof.
  intros Hk Hb Ha Hl Hbl. destruct (setkey_spec key a Hk Hb Ha) as (a' & E & N & K & D). exists a'. split; [exact E|].
  pose proof (key_rounds_cases key Hk) as Hc.
  destruct (encipher_spec a' (key_rounds key) (schedule key) block N Hc K (conj Hl Hbl)) as [E1 _]. split; [exact E1|].
  exact (decipher_spec a' (key_rounds key) (schedule key) block N Hc K D (conj Hl Hbl)).
Qed.

Lemma aes_is_fips197_witness :
  exists a, aes_setkey (seqZ 0 24) 24 (mkaes 0 (replicate 60 7) (replicate 60 7)) = Done a
    /\ encipher_bytes a (seqZ 100 16) = Done (fips_aes (seqZ 0 24) (seqZ 100 16)).
Proof.
  destruct (aes_is_fips197 (seqZ 0 24) (mkaes 0 (replicate 60 7) (replicate 60 7)) (seqZ 100 16)) as (a & E & E1 & _);
    [right; left; reflexivity|apply Forall_seqZ; unfold is_byte; lia|reflexivity|reflexivity|apply Forall_seqZ; unfold is_byte; lia|].
  exists a. split; [exact E|exact E1].
Defined.

(** ** The interface of a block cipher with its key set *)
Class BlockCipher (k : aes) (E D : list Z -> list Z) : Prop := {
  bc_encipher : forall b, is_state b -> encipher_bytes k b = Done (E b) /\ is_state (E b);
  bc_decipher : forall b, is_state b -> decipher_bytes k b = Done (D b) /\ is_state (D b);
  bc_inverse : forall b, is_state b -> D (E b) = b;
  bc_inverse' : forall b, is_state b -> E (D b) = b
}.

Lemma aes_block_cipher key a :
  key_length key -> Forall is_byte key -> length (e_key a) = 60%nat ->
  exists a' E D, aes_setkey key (Z.of_nat (length key)) a = Done a' /\ BlockCipher a' E D.
Proof.
  intros Hk Hb Ha. destruct (setkey_spec key a Hk Hb Ha) as (a' & E & N & K & D).
  pose proof (key_rounds_cases key Hk) as Hc. assert (KS : forall r, (r <= key_rounds key)%nat -> is_state (round_key (schedule key) r)).
  { intros r Hr. apply (round_key_state _ _ _ r K). lia. }
  exists a', (fips_cipher (key_rounds key) (schedule key)), (fips_inv_cipher (key_rounds key) (schedule key)). split; [exact E|]. split; intros b Hs.
  - by apply encipher_spec.
  - split; [by apply decipher_spec|]. apply cipher_inv_cipher; done || lia.
  - apply inv_cipher_cipher; done || lia.
  - apply cipher_inv_cipher; done || lia.
Qed.

(** [decipher_bytes] and [encipher_bytes] undo each other: for every key
    of 16, 24 or 32 bytes and every block. *)
Theorem aes_roundtrip key a block :
  key_length key -> Forall is_byte key -> length (e_key a) = 60%nat -> length block = 16%nat -> Forall is_byte block ->
  exists a' c d, aes_setkey key (Z.of_nat (length key)) a = Done a'
    /\ encipher_bytes a' block = Done c /\ length c = 16%nat /\ decipher_bytes a' c = Done block
    /\ decipher_bytes a' block = Done d /\ length d = 16%nat /\ encipher_bytes a' d = Done block.
Proof.
  intros Hk Hb Ha Hl Hbl. destruct (aes_block_cipher key a Hk Hb Ha) as (a' & E & D & Es & [He Hd Hde Hed]).
  pose proof (conj Hl Hbl : is_state block) as Hs. destruct (He block Hs) as [E1 S1], (Hd block Hs) as [D1 S2].
  exists a', (E block), (D block). split_and!; try done; [apply S1| |apply S2|].
  - rewrite (proj1 (Hd _ S1)). f_equal. by apply Hde.
  - rewrite (proj1 (He _ S2)). f_equal. by apply Hed.
Qed.

Lemma aes_roundtrip_witness :
  exists a c, aes_setkey (seqZ 0 16) 16 (mkaes 0 (replicate 60 7) (replicate 60 7)) = Done a
    /\ encipher_bytes a (seqZ 100 16) = Done c /\ decipher_bytes a c = Done (seqZ 100 16).
Proof.
  destruct (aes_roundtrip (seqZ 0 16) (mkaes 0 (replicate 60 7) (replicate 60 7)) (seqZ 100 16)) as (a & c & d & E & E1 & _ & E2 & _);
    [left; reflexivity|apply Forall_seqZ; unfold is_byte; lia|reflexivity|reflexivity|apply Forall_seqZ; unfold is_byte; lia|].
  exists a, c. split; [exact E|]. split; [exact E1|exact E2].
Defined.

(** The code on an example of the standard. *)
Example aes_example :
  match (a ← aes_setkey (seqZ 0 16) 16 (mkaes 0 (replicate 60 0) (replicate 60 0)); encipher_bytes a ((fun i => i * 0x11) <$> seqZ 0 16)) with
  | Done c => c = [0x69; 0xc4; 0xe0; 0xd8; 0x6a; 0x7b; 0x04; 0x30; 0xd8; 0xcd; 0xb7; 0x80; 0x70; 0xb4; 0xc5; 0x5a]
  | _ => False
  end.
Proof. vm_compute. reflexivity. Qed.
