(* ===== verification/Ocb.v ===== *)
(** * Offset codebook mode: [crypt/ocb.C] and [crypt/ocb.h]

    Authenticated encryption with AES.  A block is the list of its sixteen
    bytes; the [signed char]s of the code are the same bytes, negative when
    bit 7 is set.  [size_t] and [long] have 64 bits, so that [ffs] and
    [log2c] of [async/msb.h] are [ffs64] and [log2c64]. *)
From Stdlib Require Import ZArith Lia.
From stdpp Require Import prelude.
From S2P Require Import Prelude Serial Bits Aes AesOps AesKeys AesProps.

Definition nc : Z := 16.

Definition blkclear : list Z := replicate 16 0.
Definition blkxor (s1 s2 : list Z) : list Z := zip_with Z.lxor s1 s2.

(** From the last byte to the first; the carry out of the bytes that follow. *)
Fixpoint lshift_loop (s : list Z) : list Z * Z :=
  match s with
  | [] => ([], 0)
  | x :: s =>
      let '(d, carryin) := lshift_loop s in
      let carryout := if Z.testbit x 7 then 1 else 0 in
      (u8 (x .<< 1) .| carryin :: d, carryout)
  end.

Definition lshift (s : list Z) : outcome (list Z) :=
  let '(d, carryin) := lshift_loop s in
  if negb (carryin =? 0) then x ← rd d (nc - 1); wr d (nc - 1) (x .^ 0x87) else Done d.

Fixpoint rshift_loop (s : list Z) (carryin : Z) : list Z * Z :=
  match s with
  | [] => ([], carryin)
  | x :: s =>
      let carryout := (x .& 1) .<< 7 in
      let '(d, c) := rshift_loop s carryout in
      ((x .>> 1) .| carryin :: d, c)
  end.

Definition rshift (s : list Z) : outcome (list Z) :=
  let '(d, carryin) := rshift_loop s 0 in
  if negb (carryin =? 0) then
    x ← rd d 0; d ← wr d 0 (x .^ 0x80);
    y ← rd d (nc - 1); wr d (nc - 1) (y .^ 0x43)
  else Done d.

Definition calc_l_size (mms : Z) : Z :=
  let r := u32 (log2c64 mms) in
  if 4 <? r then r - 4 else 1.

(** [l] of the code points to the second block of the array. *)
Record ocb := mkocb { maxmsg_size : Z; l_size : Z; ocb_k : aes; ocb_l : list (list Z) }.

Definition ocb_get (o : ocb) (i : Z) : outcome (list Z) := rd (ocb_l o) (i + 1).
Definition ocb_put (o : ocb) (i : Z) (b : list Z) : outcome ocb :=
  l ← wr (ocb_l o) (i + 1) b; Done (mkocb (maxmsg_size o) (l_size o) (ocb_k o) l).

(** [junk] is what the memory of the blocks and the cipher holds. *)
Definition ocb_new (junk : Z -> list Z) (k : aes) (mms : Z) : ocb :=
  mkocb mms (calc_l_size mms) k (replicate (Z.to_nat (calc_l_size mms + 2)) (junk 16)).

Fixpoint setkey_shifts (n : nat) (i : Z) (o : ocb) : outcome ocb :=
  match n with
  | O => Done o
  | S n =>
      s ← ocb_get o i;
      d ← lshift s;
      o ← ocb_put o (i + 1) d;
      setkey_shifts n (i + 1) o
  end.

Definition ocb_setkey (key : list Z) (o : ocb) : outcome ocb :=
  k ← aes_setkey key (Z.of_nat (length key)) (ocb_k o);
  let o := mkocb (maxmsg_size o) (l_size o) k (ocb_l o) in
  b ← encipher_bytes k blkclear;
  o ← ocb_put o 0 b;
  d ← rshift b;
  o ← ocb_put o (-1) d;
  setkey_shifts (Z.to_nat (l_size o)) 0 o.

(** [r] before the first block. *)
Definition ocb_start (o : ocb) (nonce : Z) : outcome (list Z) :=
  l0 ← ocb_get o 0;
  encipher_bytes (ocb_k o) (blkxor (replicate 8 0 ++ puthyper nonce) l0).

(** [blkxor (&r, l[ffs (i) - 1])] *)
Definition next_offset (o : ocb) (i : Z) (r : list Z) : outcome (list Z) :=
  li ← ocb_get o (ffs64 i - 1);
  Done (blkxor r li).

(** The loop over the blocks but the last; the ciphertext so far, the rest of
    the plaintext and the values of [r], [s] and [i]. *)
Fixpoint encrypt_loop (fuel : nat) (o : ocb) (ptext ctext r s : list Z) (i : Z)
  : outcome (list Z * list Z * list Z * list Z * Z) :=
  if nc <? Z.of_nat (length ptext) then
    match fuel with
    | O => Spin
    | S fuel =>
        let tmp := take 16 ptext in
        let s := blkxor s tmp in
        r ← next_offset o i r;
        tmp ← encipher_bytes (ocb_k o) (blkxor tmp r);
        let tmp := blkxor tmp r in
        encrypt_loop fuel o (drop 16 ptext) (ctext ++ tmp) r s (i + 1)
    end
  else Done (ptext, ctext, r, s, i).

(** [blkxor (&tmp, l[-1], r)], then the length in the last byte. *)
Definition last_pad (o : ocb) (r : list Z) (len : Z) : outcome (list Z) :=
  lm ← ocb_get o (-1);
  let tmp := blkxor lm r in
  x ← rd tmp (nc - 1);
  tmp ← wr tmp (nc - 1) (x .^ u8 (len .<< 3));
  encipher_bytes (ocb_k o) tmp.

(** [c[b]] is combined with the first bytes. *)
Definition xor_prefix (s c : list Z) : list Z := blkxor (take (length c) s) c ++ drop (length c) s.

Definition ocb_encrypt (o : ocb) (nonce : Z) (ptext : list Z) : outcome (list Z * list Z) :=
  r ← ocb_start o nonce;
  x ← encrypt_loop (length ptext) o ptext [] r blkclear 1;
  let '(ptext, ctext, r, s, i) := x : list Z * list Z * list Z * list Z * Z in
  r ← next_offset o i r;
  tmp ← last_pad o r (Z.of_nat (length ptext));
  let s := blkxor s tmp in
  let c := blkxor (take (length ptext) tmp) ptext in
  let s := xor_prefix s c in
  tag ← encipher_bytes (ocb_k o) (blkxor s r);
  Done (ctext ++ c, tag).

Fixpoint decrypt_loop (fuel : nat) (o : ocb) (ctext ptext r s : list Z) (i : Z)
  : outcome (list Z * list Z * list Z * list Z * Z) :=
  if nc <? Z.of_nat (length ctext) then
    match fuel with
    | O => Spin
    | S fuel =>
        r ← next_offset o i r;
        tmp ← decipher_bytes (ocb_k o) (blkxor (take 16 ctext) r);
        let tmp := blkxor tmp r in
        let s := blkxor s tmp in
        decrypt_loop fuel o (drop 16 ctext) (ptext ++ tmp) r s (i + 1)
    end
  else Done (ctext, ptext, r, s, i).

Definition ocb_decrypt (o : ocb) (nonce : Z) (ctext tag : list Z) : outcome (list Z * bool) :=
  r ← ocb_start o nonce;
  x ← decrypt_loop (length ctext) o ctext [] r blkclear 1;
  let '(ctext, ptext, r, s, i) := x : list Z * list Z * list Z * list Z * Z in
  r ← next_offset o i r;
  tmp ← last_pad o r (Z.of_nat (length ctext));
  let s := blkxor s tmp in
  let s := xor_prefix s ctext in
  let p := blkxor (take (length ctext) tmp) ctext in
  tmp ← encipher_bytes (ocb_k o) (blkxor s r);
  Done (ptext ++ p, bool_decide (tag = tmp)).

(** * What offset codebook mode promises, and a weakness of its offsets *)
#[local] Opaque sub_byte inv_sub_byte gmul tbl pack Z.mul Z.of_nat Z.testbit.

(** ** Shifts of blocks *)
Lemma shift_carry_byte x c : is_byte c -> is_byte (u8 x .| c).
Proof.
  intros Hc. enough (u8 (u8 x .| c) = u8 x .| c) as <- by apply u8_byte.
  assert (E : forall a b, u8 (a .| b) = u8 a .| u8 b) by (intros; apply Z.land_lor_distr_l).
  by rewrite E, (byte_u8 (u8 x) (u8_byte x)), (byte_u8 c Hc).
Qed.

Lemma lshift_loop_bytes s : 
  length (lshift_loop s).1 = length s /\ Forall is_byte (lshift_loop s).1 /\ ((lshift_loop s).2 = 0 \/ (lshift_loop s).2 = 1).
Proof.
  induction s as [|x s IH]; cbn [lshift_loop]; [by auto|]. destruct (lshift_loop s) as [d c]. destruct IH as (L & B & C). cbn in *.
  split; [lia|]. split; [|by destruct (Z.testbit x 7); auto]. constructor; [|done]. apply shift_carry_byte. unfold is_byte. lia.
Qed.

Lemma rshift_loop_bytes s carry :
  Forall is_byte s -> carry = 0 \/ carry = 128 ->
  length (rshift_loop s carry).1 = length s /\ Forall is_byte (rshift_loop s carry).1
  /\ ((rshift_loop s carry).2 = 0 \/ (rshift_loop s carry).2 = 128).
Proof.
  intros Hs. revert carry. induction Hs as [|x s Hx Hs IH]; intros carry Hc; cbn [rshift_loop]; [by auto|].
  assert (C : (x .& 1) .<< 7 = 0 \/ (x .& 1) .<< 7 = 128).
  { change 1 with (Z.ones 1). rewrite Z.land_ones by lia. pose proof (Z.mod_pos_bound x (2 ^ 1) ltac:(lia)).
    assert (x mod 2 ^ 1 = 0 \/ x mod 2 ^ 1 = 1) as [-> | ->] by lia; auto. }
  destruct (IH _ C) as (L & B & C'). destruct (rshift_loop s _) as [d c]. cbn in *. split; [lia|]. split; [|done]. constructor; [|done].
  assert (Bx : is_byte (x .>> 1)).
  { unfold is_byte in *. rewrite Z.shiftr_div_pow2 by lia. split; [apply Z.div_pos; lia|apply Z.div_lt_upper_bound; lia]. }
  rewrite <- (byte_u8 (x .>> 1)) by done. apply shift_carry_byte. unfold is_byte. lia.
Qed.

Lemma state_rd s i : is_state s -> 0 <= i < 16 -> exists x, rd s i = Done x /\ is_byte x.
Proof.
  intros [L B] Hi. destruct (rd_ok s i) as [x E]; [lia|]. exists x. split; [done|]. unfold rd in E. destruct (0 <=? i); [|done].
  destruct (s !! Z.to_nat i) as [y|] eqn:Ey; [|done]. injection E as <-. by eapply Forall_lookup_1 in Ey.
Qed.

Lemma state_wr s i x : is_state s -> 0 <= i < 16 -> is_byte x -> exists s', wr s i x = Done s' /\ is_state s'.
Proof.
  intros [L B] Hi Hx. unfold wr. destruct (Z.leb_spec 0 i), (Z.ltb_spec i (Z.of_nat (length s))); try lia. eexists. split; [done|].
  split; [by rewrite length_insert|]. by apply Forall_insert.
Qed.

Lemma lshift_ok s : is_state s -> exists d, lshift s = Done d /\ is_state d.
Proof.
  intros [L B]. unfold lshift. destruct (lshift_loop_bytes s) as (L1 & B1 & C). destruct (lshift_loop s) as [d c]. cbn in *.
  assert (Sd : is_state d) by (split; [lia|done]). destruct (c =? 0); cbn [negb]; [by exists d|].
  destruct (state_rd d (nc - 1) Sd) as (x & -> & Bx); [done|]. cbn [mbind outcome_bind].
  apply state_wr; [done|done|]. apply xor_byte; [done|by unfold is_byte].
Qed.

Lemma rshift_ok s : is_state s -> exists d, rshift s = Done d /\ is_state d.
Proof.
  intros [L B]. unfold rshift. destruct (rshift_loop_bytes s 0 B) as (L1 & B1 & C); [by left|]. destruct (rshift_loop s 0) as [d c]. cbn in *.
  assert (Sd : is_state d) by (split; [lia|done]). destruct (c =? 0); cbn [negb]; [by exists d|].
  destruct (state_rd d 0 Sd) as (x & -> & Bx); [done|]. cbn [mbind outcome_bind].
  destruct (state_wr d 0 (x .^ 0x80) Sd) as (d' & -> & Sd'); [done|apply xor_byte; [done|by unfold is_byte]|]. cbn [mbind outcome_bind].
  destruct (state_rd d' (nc - 1) Sd') as (y & -> & By); [done|]. cbn [mbind outcome_bind].
  apply state_wr; [done|done|]. apply xor_byte; [done|by unfold is_byte].
Qed.

(** ** The table of offsets *)
Definition has_blocks (o : ocb) (n : Z) : Prop := forall j, -1 <= j < n -> exists b, ocb_get o j = Done b /\ is_state b.

(** A mode with its key set, for messages of up to [2 ^ l_size] blocks. *)
Record ready (o : ocb) (E D : list Z -> list Z) : Prop := {
  rd_cipher : BlockCipher (ocb_k o) E D;
  rd_size : 0 < l_size o < 64;
  rd_blocks : has_blocks o (l_size o + 1)
}.

Lemma ocb_put_spec o i b :
  -1 <= i -> i + 1 < Z.of_nat (length (ocb_l o)) ->
  exists o', ocb_put o i b = Done o' /\ ocb_k o' = ocb_k o /\ l_size o' = l_size o /\ length (ocb_l o') = length (ocb_l o)
    /\ forall j, ocb_get o' j = if j =? i then Done b else ocb_get o j.
Proof.
  intros Hi Hl. unfold ocb_put. destruct (rd_wr_ok (ocb_l o) (i + 1) b) as [l E]; [lia|]. rewrite E. cbn [mbind outcome_bind].
  eexists. split; [done|]. cbn. split; [done|]. split; [done|]. split; [by apply (rd_wr (ocb_l o) l (i + 1) b 0)|].
  intros j. unfold ocb_get. cbn. destruct (rd_wr (ocb_l o) l (i + 1) b (j + 1) E) as [_ ->].
  destruct (Z.eqb_spec (j + 1) (i + 1)), (Z.eqb_spec j i); done || lia.
Qed.

Lemma setkey_shifts_spec n i o :
  0 <= i -> has_blocks o (i + 1) -> Z.of_nat (length (ocb_l o)) = i + Z.of_nat n + 2 ->
  exists o', setkey_shifts n i o = Done o' /\ ocb_k o' = ocb_k o /\ l_size o' = l_size o /\ has_blocks o' (i + Z.of_nat n + 1).
Proof.
  revert i o. induction n as [|n IH]; intros i o Hi Hb Hl; cbn [setkey_shifts].
  { exists o. split_and!; try done. by replace (i + Z.of_nat 0 + 1) with (i + 1) by lia. }
  destruct (Hb i) as (s & -> & Hs); [lia|]. cbn [mbind outcome_bind]. destruct (lshift_ok s Hs) as (d & -> & Hd). cbn [mbind outcome_bind].
  destruct (ocb_put_spec o (i + 1) d) as (o1 & -> & K1 & L1 & N1 & G1); [lia|lia|]. cbn [mbind outcome_bind].
  destruct (IH (i + 1) o1) as (o2 & -> & K2 & L2 & B2); [lia| |lia|].
  { intros j Hj. rewrite G1. destruct (Z.eqb_spec j (i + 1)); [by exists d|]. apply Hb. lia. }
  exists o2. split; [done|]. split; [congruence|]. split; [congruence|]. by replace (i + Z.of_nat (S n) + 1) with (i + 1 + Z.of_nat n + 1) by lia.
Qed.

Lemma log2_up_bound m : 0 < m -> m <= 2 ^ Z.log2_up m.
Proof. intros Hm. destruct (Z.eq_dec m 1) as [->|]; [done|]. apply Z.log2_up_spec. lia. Qed.

Lemma calc_l_size_spec mms : 0 < mms < 2 ^ 63 -> 0 < calc_l_size mms < 64 /\ mms <= 16 * 2 ^ calc_l_size mms.
Proof.
  intros Hm. unfold calc_l_size. rewrite log2c64_spec by lia. pose proof (Z.log2_up_nonneg mms).
  assert (Z.log2_up mms <= 63) by (apply (Z.log2_up_le_mono mms (2 ^ 63)); lia).
  rewrite u32_mod, Z.mod_small by lia. destruct (Z.ltb_spec 4 (Z.log2_up mms)).
  - split; [lia|]. replace 16 with (2 ^ 4) by done. rewrite <- Z.pow_add_r by lia. replace (4 + _) with (Z.log2_up mms) by lia.
    apply log2_up_bound; lia.
  - split; [lia|]. assert (mms <= 2 ^ 4); [|change (2 ^ 4) with 16 in *; lia].
    etrans; [apply log2_up_bound; lia|]. apply Z.pow_le_mono_r; lia.
Qed.

Lemma ocb_setkey_spec key junk k mms :
  key_length key -> Forall is_byte key -> length (e_key k) = 60%nat -> 0 < mms < 2 ^ 63 ->
  exists o E D, ocb_setkey key (ocb_new junk k mms) = Done o /\ ready o E D /\ mms <= 16 * 2 ^ l_size o.
Proof.
  intros Hk Hb Hl Hm. destruct (calc_l_size_spec mms Hm) as [Hs Hms]. unfold ocb_setkey, ocb_new. cbn [ocb_k maxmsg_size l_size ocb_l].
  destruct (aes_block_cipher key k Hk Hb Hl) as (k' & E & D & -> & BC). cbn [mbind outcome_bind].
  destruct (bc_encipher blkclear) as [-> S0]; [split; [done|by repeat apply Forall_cons_2]|]. cbn [mbind outcome_bind].
  set (o0 := mkocb _ _ _ _). assert (L0 : Z.of_nat (length (ocb_l o0)) = calc_l_size mms + 2) by (cbn; rewrite length_replicate; lia).
  assert (Z0 : l_size o0 = calc_l_size mms) by done. assert (K0 : ocb_k o0 = k') by done. clearbody o0.
  destruct (ocb_put_spec o0 0 (E blkclear)) as (o1 & -> & K1 & Z1 & N1 & G1); [lia|lia|]. cbn [mbind outcome_bind].
  destruct (rshift_ok (E blkclear) S0) as (d & -> & Sd). cbn [mbind outcome_bind].
  destruct (ocb_put_spec o1 (-1) d) as (o2 & -> & K2 & Z2 & N2 & G2); [lia|lia|]. cbn [mbind outcome_bind].
  destruct (setkey_shifts_spec (Z.to_nat (l_size o2)) 0 o2) as (o3 & -> & K3 & Z3 & B3); [lia| |lia|].
  { intros j Hj. rewrite G2, G1. destruct (Z.eqb_spec j (-1)); [by exists d|]. destruct (Z.eqb_spec j 0); [by eexists|lia]. }
  exists o3, E, D. split; [done|]. assert (Z3' : l_size o3 = calc_l_size mms) by congruence. split; [|by rewrite Z3'].
  split; [by replace (ocb_k o3) with k' by congruence|lia|]. by replace (l_size o3 + 1) with (0 + Z.of_nat (Z.to_nat (l_size o2)) + 1) by lia.
Qed.

Lemma blkxor_twice s k : is_state s -> is_state k -> blkxor (blkxor s k) k = s.
Proof. apply state_xorl_twice. Qed.

Lemma blkxor_state s k : is_state s -> is_state k -> is_state (blkxor s k).
Proof. apply xorl_state. Qed.

Lemma split_block (p : list Z) : (16 <= length p)%nat -> exists b q, p = b ++ q /\ length b = 16%nat.
Proof. intros Hl. exists (take 16 p), (drop 16 p). rewrite take_drop. split; [done|]. rewrite length_take. lia. Qed.

(** ** The loops run in step *)
Section mode.
Context (o : ocb) (E D : list Z -> list Z) (R : ready o E D).

#[local] Instance mode_cipher : BlockCipher (ocb_k o) E D := rd_cipher o E D R.

Lemma next_offset_ok i r :
  0 < i <= 2 ^ l_size o -> is_state r -> exists r', next_offset o i r = Done r' /\ is_state r'.
Proof using R.
  intros Hi Hr. pose proof (rd_size o E D R) as Hs. pose proof (rd_blocks o E D R) as Hb. unfold next_offset.
  assert (H64 : 2 ^ l_size o < 2 ^ 64) by (apply Z.pow_lt_mono_r; lia).
  destruct (ffs64_some_bit i) as [H1 H2]; [lia|].
  assert (2 ^ (ffs64 i - 1) <= i).
  { destruct (Z.le_gt_cases (2 ^ (ffs64 i - 1)) i); [done|]. rewrite (testbit_high i (ffs64 i - 1)) in H2 by lia. done. }
  assert (ffs64 i - 1 <= l_size o) by (apply (Z.pow_le_mono_r_iff 2); lia).
  destruct (Hb (ffs64 i - 1)) as (b & -> & Sb); [lia|]. cbn [mbind outcome_bind]. eexists. split; [done|]. by apply xorl_state.
Qed.

(** The plaintext, the ciphertext and the values of [r], [s] and [i] before
    and after the whole blocks. *)
Inductive steps : list Z -> list Z -> list Z -> list Z -> Z -> list Z -> list Z -> Z -> Prop :=
| steps_nil r s i : steps [] [] r s i r s i
| steps_cons b p c r s i r1 r' s' i' :
    is_state b -> next_offset o i r = Done r1 -> is_state r1 ->
    steps p c r1 (blkxor s b) (i + 1) r' s' i' ->
    steps (b ++ p) (blkxor (E (blkxor b r1)) r1 ++ c) r s i r' s' i'.

Lemma take_drop_app {A} (b p : list A) : length b = 16%nat -> take 16 (b ++ p) = b /\ drop 16 (b ++ p) = p.
Proof using. intros Hl. rewrite <- Hl. by rewrite take_app_length, drop_app_length. Qed.

(** What follows the whole blocks: at most a block, and nothing only if there
    is nothing else. *)
Definition tail_of (p rest : list Z) : Prop := (length rest <= 16)%nat /\ (p = [] \/ (0 < length rest)%nat).

Lemma steps_encrypt p c r s i r' s' i' rest ctext fuel :
  steps p c r s i r' s' i' -> tail_of p rest -> (length p <= fuel)%nat ->
  encrypt_loop fuel o (p ++ rest) ctext r s i = Done (rest, ctext ++ c, r', s', i').
Proof using R.
  intros Hst [Hrest Ht] Hf. revert ctext fuel Hf. induction Hst as [r s i|b p c r s i r1 r' s' i' Hb Hn Hr1 Hst IH]; intros ctext fuel Hf.
  { cbn [app]. destruct fuel; cbn [encrypt_loop]; destruct (Z.ltb_spec nc (Z.of_nat (length rest))); unfold nc in *; try lia; by rewrite app_nil_r. }
  assert (Lb : length b = 16%nat) by apply Hb. rewrite !length_app in Hf. destruct fuel as [|fuel]; [lia|]. cbn [encrypt_loop].
  destruct Ht as [Ht|Ht]; [by destruct b|]. rewrite <- app_assoc. rewrite length_app, Lb, length_app.
  destruct (Z.ltb_spec nc (Z.of_nat (16 + (length p + length rest)))); [|unfold nc in *; lia].
  destruct (take_drop_app b (p ++ rest) Lb) as [-> ->]. rewrite Hn. cbn [mbind outcome_bind].
  destruct (bc_encipher (blkxor b r1)) as [-> SE]; [by apply xorl_state|]. cbn [mbind outcome_bind].
  rewrite IH by (by right) || lia. by rewrite app_assoc.
Qed.

Lemma steps_decrypt p c r s i r' s' i' rest ptext fuel :
  steps p c r s i r' s' i' -> tail_of c rest -> (length c <= fuel)%nat ->
  decrypt_loop fuel o (c ++ rest) ptext r s i = Done (rest, ptext ++ p, r', s', i').
Proof using R.
  intros Hst [Hrest Ht] Hf. revert ptext fuel Hf. induction Hst as [r s i|b p c r s i r1 r' s' i' Hb Hn Hr1 Hst IH]; intros ptext fuel Hf.
  { cbn [app]. destruct fuel; cbn [decrypt_loop]; destruct (Z.ltb_spec nc (Z.of_nat (length rest))); unfold nc in *; try lia; by rewrite app_nil_r. }
  assert (Sx : is_state (blkxor b r1)) by by apply xorl_state. destruct (bc_encipher _ Sx) as [_ SE].
  assert (Sc : is_state (blkxor (E (blkxor b r1)) r1)) by by apply xorl_state.
  assert (Lb : length (blkxor (E (blkxor b r1)) r1) = 16%nat) by apply Sc. rewrite !length_app in Hf. destruct fuel as [|fuel]; [lia|]. cbn [decrypt_loop].
  assert (Ht' : (0 < length rest)%nat).
  { destruct Ht as [Ht|Ht]; [|done]. apply (f_equal length) in Ht. rewrite length_app, Lb in Ht. done. }
  rewrite <- app_assoc. rewrite length_app, Lb, length_app.
  destruct (Z.ltb_spec nc (Z.of_nat (16 + (length c + length rest)))); [|unfold nc in *; lia].
  destruct (take_drop_app _ (c ++ rest) Lb) as [-> ->]. rewrite Hn. cbn [mbind outcome_bind].
  rewrite (blkxor_twice (E (blkxor b r1)) r1 SE Hr1). destruct (bc_decipher _ SE) as [-> _]. cbn [mbind outcome_bind].
  rewrite (bc_inverse _ Sx), (blkxor_twice b r1 Hb Hr1). rewrite IH by (by right) || lia. by rewrite app_assoc.
Qed.

(** Every plaintext, and every ciphertext, splits into whole blocks and a rest. *)
Lemma encrypt_steps n p r s i :
  length p = (16 * n)%nat -> Forall is_byte p -> is_state r -> is_state s -> 0 < i -> i + Z.of_nat n <= 2 ^ l_size o ->
  exists c r' s', steps p c r s i r' s' (i + Z.of_nat n) /\ length c = length p /\ Forall is_byte c /\ is_state r' /\ is_state s'.
Proof using R.
  revert p r s i. induction n as [|n IH]; intros p r s i Hl Hp Hr Hs Hi Hn.
  { destruct p; [|cbn in Hl; lia]. exists [], r, s. replace (i + Z.of_nat 0) with i by lia. split; [constructor|done]. }
  destruct (split_block p ltac:(lia)) as (b & p' & -> & Lb). apply Forall_app in Hp as [Hb Hp'].
  rewrite length_app in Hl. assert (Sb : is_state b) by (split; done). destruct (next_offset_ok i r) as (r1 & E1 & S1); [lia|done|].
  destruct (IH p' r1 (blkxor s b) (i + 1)) as (c & r' & s' & Hst & Lc & Bc & Sr & Ss); try done; [lia|by apply blkxor_state|lia|lia|].
  assert (Sx : is_state (blkxor b r1)) by by apply blkxor_state. destruct (bc_encipher _ Sx) as [_ SE].
  destruct (blkxor_state _ _ SE S1) as [Lx Bx].
  exists (blkxor (E (blkxor b r1)) r1 ++ c), r', s'. replace (i + Z.of_nat (S n)) with (i + 1 + Z.of_nat n) by lia.
  split; [by apply steps_cons|]. split; [rewrite !length_app; lia|]. split; [by apply Forall_app|done].
Qed.

Lemma decrypt_steps n c r s i :
  length c = (16 * n)%nat -> Forall is_byte c -> is_state r -> is_state s -> 0 < i -> i + Z.of_nat n <= 2 ^ l_size o ->
  exists p r' s', steps p c r s i r' s' (i + Z.of_nat n) /\ length p = length c /\ Forall is_byte p /\ is_state r' /\ is_state s'.
Proof using R.
  revert c r s i. induction n as [|n IH]; intros c r s i Hl Hc Hr Hs Hi Hn.
  { destruct c; [|cbn in Hl; lia]. exists [], r, s. replace (i + Z.of_nat 0) with i by lia. split; [constructor|done]. }
  destruct (split_block c ltac:(lia)) as (cb & c' & -> & Lb). apply Forall_app in Hc as [Hcb Hc'].
  rewrite length_app in Hl. assert (Sb : is_state cb) by (split; done). destruct (next_offset_ok i r) as (r1 & E1 & S1); [lia|done|].
  assert (Sx : is_state (blkxor cb r1)) by by apply blkxor_state. destruct (bc_decipher _ Sx) as [_ SD].
  set (b := blkxor (D (blkxor cb r1)) r1). assert (Sb' : is_state b) by by apply blkxor_state.
  destruct (IH c' r1 (blkxor s b) (i + 1)) as (p & r' & s' & Hst & Lp & Bp & Sr & Ss); try done; [lia|by apply blkxor_state|lia|lia|].
  exists (b ++ p), r', s'. replace (i + Z.of_nat (S n)) with (i + 1 + Z.of_nat n) by lia. split.
  - replace cb with (blkxor (E (blkxor b r1)) r1); [by apply steps_cons|]. unfold b. rewrite (blkxor_twice _ _ SD S1), (bc_inverse' _ Sx).
    by apply blkxor_twice.
  - destruct Sb' as [Lb' Bb']. split; [rewrite !length_app; lia|]. split; [by apply Forall_app|done].
Qed.

(** ** The last block and the tag *)
Lemma ocb_start_ok nonce : exists r, ocb_start o nonce = Done r /\ is_state r.
Proof using R.
  destruct (rd_blocks o E D R 0) as (l0 & E0 & S0); [pose proof (rd_size o E D R); lia|]. unfold ocb_start. rewrite E0. cbn [mbind outcome_bind].
  destruct (bc_encipher (blkxor (replicate 8 0 ++ puthyper nonce) l0)) as [-> S]; [|by eexists].
  apply blkxor_state; [|done]. split; [done|]. cbn [replicate app puthyper]. repeat apply Forall_cons_2; apply zero_byte || apply u8_byte || apply Forall_nil_2.
Qed.

Lemma last_pad_ok r len : is_state r -> exists t, last_pad o r len = Done t /\ is_state t.
Proof using R.
  intros Hr. destruct (rd_blocks o E D R (-1)) as (lm & E0 & S0); [pose proof (rd_size o E D R); lia|]. unfold last_pad. rewrite E0. cbn [mbind outcome_bind].
  assert (Sx : is_state (blkxor lm r)) by by apply blkxor_state. destruct (state_rd _ (nc - 1) Sx) as (x & -> & Bx); [done|]. cbn [mbind outcome_bind].
  destruct (state_wr _ (nc - 1) (x .^ u8 (len .<< 3)) Sx) as (t & -> & St); [done|apply xor_byte; [done|apply u8_byte]|]. cbn [mbind outcome_bind].
  destruct (bc_encipher t St) as [-> S]. by eexists.
Qed.

Lemma xor_prefix_state s c : is_state s -> (length c <= 16)%nat -> Forall is_byte c -> is_state (xor_prefix s c).
Proof using.
  intros [L B] Hc Bc. unfold xor_prefix, blkxor. split.
  - rewrite length_app, length_zip_with, length_take, length_drop. lia.
  - apply Forall_app. split; [|by apply Forall_drop]. apply xorl_bytes; [by apply Forall_take|done].
Qed.

Lemma blkxor_self k x : length x = length k -> blkxor k (blkxor k x) = x.
Proof using.
  revert x. induction k as [|y k IH]; intros [|z x] Hl; try done. unfold blkxor. cbn [zip_with]. f_equal; [|apply IH; cbn in Hl; lia].
  by rewrite <- Z.lxor_assoc, Z.lxor_nilpotent, Z.lxor_0_l.
Qed.

Lemma split_tail (p : list Z) :
  Z.of_nat (length p) <= 16 * 2 ^ l_size o ->
  exists n h t, p = h ++ t /\ length h = (16 * n)%nat /\ tail_of h t /\ 1 + Z.of_nat n <= 2 ^ l_size o.
Proof using R.
  intros Hl. assert (0 < 2 ^ l_size o) by (pose proof (rd_size o E D R); apply Z.pow_pos_nonneg; lia).
  exists ((length p - 1) / 16)%nat, (take (16 * ((length p - 1) / 16)) p), (drop (16 * ((length p - 1) / 16)) p). rewrite take_drop.
  pose proof (Nat.div_mod (length p - 1) 16 ltac:(lia)). pose proof (Nat.mod_upper_bound (length p - 1) 16 ltac:(lia)).
  split; [done|]. split; [rewrite length_take; lia|]. split; [|lia]. split; [rewrite length_drop; lia|].
  destruct p as [|x p]; [left; done|]. right. rewrite length_drop. cbn [length] in *. lia.
Qed.

(** What is the same on both sides. *)
Definition coded (nonce : Z) (p c tag : list Z) : Prop :=
  ocb_encrypt o nonce p = Done (c, tag) /\ forall tag', ocb_decrypt o nonce c tag' = Done (p, bool_decide (tag' = tag)).

Lemma coded_steps nonce r0 hp hc r s i r1 pad tp tc :
  ocb_start o nonce = Done r0 -> steps hp hc r0 blkclear 1 r s i -> length hc = length hp -> is_state s ->
  next_offset o i r = Done r1 -> is_state r1 -> last_pad o r1 (Z.of_nat (length tp)) = Done pad -> is_state pad ->
  tail_of hp tp -> length tc = length tp -> Forall is_byte tc -> tc = blkxor (take (length tp) pad) tp -> tp = blkxor (take (length tc) pad) tc ->
  exists tag, coded nonce (hp ++ tp) (hc ++ tc) tag.
Proof using R.
  intros E0 Hst Lh Ss E1 S1 E2 Sp Ht Lt Bt Etc Etp. pose proof Ht as [Hrest _]. set (s1 := xor_prefix (blkxor s pad) tc).
  assert (Ss1 : is_state s1) by (apply xor_prefix_state; [by apply blkxor_state|lia|done]).
  destruct (bc_encipher (blkxor s1 r1)) as [Etag Stag]; [by apply blkxor_state|]. exists (E (blkxor s1 r1)). split.
  - unfold ocb_encrypt. rewrite E0. cbn [mbind outcome_bind]. rewrite (steps_encrypt hp hc r0 blkclear 1 r s i tp [] _ Hst Ht) by (rewrite length_app; lia).
    cbn [mbind outcome_bind]. rewrite E1. cbn [mbind outcome_bind]. rewrite E2. cbn [mbind outcome_bind]. rewrite <- Etc. fold s1. rewrite Etag. done.
  - intros tag'. unfold ocb_decrypt. rewrite E0. cbn [mbind outcome_bind].
    assert (Ht' : tail_of hc tc). { split; [lia|]. destruct Ht as [_ [->|?]]; [left; by destruct hc|right; lia]. }
    rewrite (steps_decrypt hp hc r0 blkclear 1 r s i tc [] _ Hst Ht') by (rewrite length_app; lia).
    cbn [mbind outcome_bind]. rewrite E1. cbn [mbind outcome_bind]. rewrite Lt at 1. rewrite E2. cbn [mbind outcome_bind]. fold s1. rewrite Etag.
    cbn [mbind outcome_bind]. by rewrite <- Etp.
Qed.

Lemma blkclear_state : is_state blkclear.
Proof using. split; [done|]. by repeat apply Forall_cons_2. Qed.

Lemma take_pad pad n : is_state pad -> (n <= 16)%nat -> length (take n pad) = n /\ Forall is_byte (take n pad).
Proof using. intros [L B] Hn. split; [rewrite length_take; lia|by apply Forall_take]. Qed.

Lemma encrypt_coded nonce p :
  Forall is_byte p -> Z.of_nat (length p) <= 16 * 2 ^ l_size o -> exists c tag, coded nonce p c tag /\ length c = length p /\ Forall is_byte c.
Proof using R.
  intros Bp Hl. destruct (split_tail p Hl) as (n & h & t & -> & Lh & Ht & Hn). apply Forall_app in Bp as [Bh Bt].
  destruct (ocb_start_ok nonce) as (r0 & E0 & S0).
  destruct (encrypt_steps n h r0 blkclear 1 Lh Bh S0 blkclear_state) as (hc & r & s & Hst & Lc & Bc & Sr & Ss); [lia|lia|].
  destruct (next_offset_ok (1 + Z.of_nat n) r) as (r1 & E1 & S1); [lia|done|].
  destruct (last_pad_ok r1 (Z.of_nat (length t)) S1) as (pad & E2 & Sp). pose proof Ht as [Hr _].
  destruct (take_pad pad (length t) Sp Hr) as [Lx Bx]. set (tc := blkxor (take (length t) pad) t).
  assert (Lt : length tc = length t) by (unfold tc, blkxor; rewrite length_zip_with; lia). assert (Btc : Forall is_byte tc) by by apply xorl_bytes.
  destruct (coded_steps nonce r0 h hc r s (1 + Z.of_nat n) r1 pad t tc) as [tag Hc]; try done.
  { rewrite Lt. unfold tc. symmetry. apply blkxor_self. lia. }
  exists (hc ++ tc), tag. split; [done|]. rewrite !length_app. split; [lia|by apply Forall_app].
Qed.

Lemma decrypt_coded nonce c :
  Forall is_byte c -> Z.of_nat (length c) <= 16 * 2 ^ l_size o -> exists p tag, coded nonce p c tag /\ length p = length c /\ Forall is_byte p.
Proof using R.
  intros Bc Hl. destruct (split_tail c Hl) as (n & h & t & -> & Lh & Ht & Hn). apply Forall_app in Bc as [Bh Bt].
  destruct (ocb_start_ok nonce) as (r0 & E0 & S0).
  destruct (decrypt_steps n h r0 blkclear 1 Lh Bh S0 blkclear_state) as (hp & r & s & Hst & Lp & Bp & Sr & Ss); [lia|lia|].
  destruct (next_offset_ok (1 + Z.of_nat n) r) as (r1 & E1 & S1); [lia|done|].
  destruct (last_pad_ok r1 (Z.of_nat (length t)) S1) as (pad & E2 & Sp). pose proof Ht as [Hr He].
  destruct (take_pad pad (length t) Sp Hr) as [Lx Bx]. set (tp := blkxor (take (length t) pad) t).
  assert (Lt : length tp = length t) by (unfold tp, blkxor; rewrite length_zip_with; lia). assert (Btp : Forall is_byte tp) by by apply xorl_bytes.
  destruct (coded_steps nonce r0 hp h r s (1 + Z.of_nat n) r1 pad tp t) as [tag Hc]; try done.
  { by rewrite Lt. }
  { split; [lia|]. destruct He as [->|?]; [left; by destruct hp|right; lia]. }
  { rewrite Lt. unfold tp. symmetry. apply blkxor_self. lia. }
  exists (hp ++ tp), tag. split; [done|]. rewrite !length_app. split; [lia|by apply Forall_app].
Qed.

(** ** Offsets that come back *)
(** [ffs64] gives the most significant bit: 1 for 1, and 2 for 2 and for 3. *)
Lemma offset_back r r1 r2 :
  is_state r -> next_offset o 1 r = Done r1 -> next_offset o 2 r1 = Done r2 -> next_offset o 3 r2 = Done r1.
Proof using R.
  intros Hr. unfold next_offset. change (ffs64 1 - 1) with 0. change (ffs64 2 - 1) with 1. change (ffs64 3 - 1) with 1.
  pose proof (rd_size o E D R). destruct (rd_blocks o E D R 0) as (b0 & -> & S0); [lia|]. destruct (rd_blocks o E D R 1) as (b1 & -> & S1); [lia|].
  cbn [mbind outcome_bind]. intros E1 E2. injection E1 as <-. injection E2 as <-. f_equal. apply blkxor_twice; [by apply blkxor_state|done].
Qed.

Lemma steps_same_block b b2 p c r i' r' s' :
  is_state b -> is_state b2 -> is_state r -> steps (b ++ b2 ++ b ++ p) c r blkclear 1 r' s' i' -> take 16 c = take 16 (drop 32 c).
Proof using R.
  intros Sb Sb2 Sr Hst. assert (Lb : length b = 16%nat) by apply Sb. assert (Lb2 : length b2 = 16%nat) by apply Sb2.
  assert (Inv : forall b q c r s i r' s' i', length b = 16%nat -> steps (b ++ q) c r s i r' s' i' ->
    exists r1 c1, next_offset o i r = Done r1 /\ is_state r1 /\ steps q c1 r1 (blkxor s b) (i + 1) r' s' i' /\ c = blkxor (E (blkxor b r1)) r1 ++ c1).
  { clear. intros b q c r s i r' s' i' Lb H. inversion H as [|b' p' c' ? ? ? r1 ? ? ? Sb' Hn Sr1 Hst Eb]; [destruct b; done|]. subst.
    apply app_inj_1 in Eb as [-> ->]; [|by rewrite Lb, (proj1 Sb')]. by exists r1, c'. }
  destruct (Inv _ _ _ _ _ _ _ _ _ Lb Hst) as (r1 & c1 & N1 & S1 & Hst1 & ->).
  destruct (Inv _ _ _ _ _ _ _ _ _ Lb2 Hst1) as (r2 & c2 & N2 & S2 & Hst2 & ->).
  destruct (Inv _ _ _ _ _ _ _ _ _ Lb Hst2) as (r3 & c3 & N3 & S3 & Hst3 & ->).
  assert (r3 = r1) as -> by (pose proof (offset_back r r1 r2 Sr N1 N2) as H; change (1 + 1 + 1) with 3 in N3; rewrite H in N3; by injection N3).
  assert (L : forall x, is_state x -> length (blkxor (E (blkxor x r1)) r1) = 16%nat /\ length (blkxor (E (blkxor x r2)) r2) = 16%nat).
  { intros x Sx. split; apply blkxor_state; try done; apply bc_encipher; by apply blkxor_state. }
  destruct (L b Sb) as [L1 _], (L b2 Sb2) as [_ L2].
  rewrite (proj1 (take_drop_app _ _ L1)). change 32%nat with (16 + 16)%nat. rewrite <- drop_drop, (proj2 (take_drop_app _ _ L1)), (proj2 (take_drop_app _ _ L2)).
  by rewrite (proj1 (take_drop_app _ _ L1)).
Qed.

Lemma encrypt_same_block nonce b b2 rest c tag :
  is_state b -> is_state b2 -> Forall is_byte rest -> rest <> [] -> Z.of_nat (length (b ++ b2 ++ b ++ rest)) <= 16 * 2 ^ l_size o ->
  ocb_encrypt o nonce (b ++ b2 ++ b ++ rest) = Done (c, tag) -> take 16 c = take 16 (drop 32 c).
Proof using R.
  intros Sb Sb2 Br Hne Hl Henc. pose proof Sb as [Lb Bb]. pose proof Sb2 as [Lb2 Bb2].
  assert (1 <= Z.of_nat (length rest)) by (destruct rest; [done|cbn [length]; lia]). rewrite !length_app, Lb, Lb2 in Hl.
  destruct (split_tail rest) as (n & h & t & -> & Lh & Ht & _); [lia|]. apply Forall_app in Br as [Bh Bt]. rewrite length_app in Hl.
  assert (Htt : (0 < length t <= 16)%nat). { destruct Ht as [? [->|?]]; [|lia]. cbn in *. lia. }
  destruct (ocb_start_ok nonce) as (r0 & E0 & S0).
  destruct (encrypt_steps (3 + n) (b ++ b2 ++ b ++ h) r0 blkclear 1) as (hc & r & s & Hst & Lc & Bc & Sr & Ss); try done.
  { rewrite !length_app. lia. } { by rewrite !Forall_app. } { apply blkclear_state. } { lia. }
  unfold ocb_encrypt in Henc. rewrite E0 in Henc. cbn [mbind outcome_bind] in Henc.
  replace (b ++ b2 ++ b ++ h ++ t) with ((b ++ b2 ++ b ++ h) ++ t) in Henc by by rewrite <- !app_assoc.
  rewrite (steps_encrypt _ hc r0 blkclear 1 r s _ t [] _ Hst) in Henc; [|split; [lia|right; lia]|rewrite !length_app; lia].
  cbn [mbind outcome_bind app] in Henc. destruct (next_offset o _ r) as [r1| | |]; try done. cbn [mbind outcome_bind] in Henc.
  destruct (last_pad o r1 _) as [pad| | |]; try done. cbn [mbind outcome_bind] in Henc.
  destruct (encipher_bytes (ocb_k o) _) as [tg| | |]; try done. cbn [mbind outcome_bind] in Henc. injection Henc as <- <-.
  pose proof (steps_same_block b b2 h hc r0 _ r s Sb Sb2 S0 Hst) as E3. rewrite !length_app, Lb, Lb2 in Lc.
  rewrite take_app_le, drop_app_le, take_app_le by (rewrite ?length_drop; lia). exact E3.
Qed.
End mode.

(** ** Properties *)
(** C22: After [setkey], [encrypt] and [decrypt] of messages of up to
    [max_msg_size] bytes end without an access out of bounds.  [decrypt] gives
    back the plaintext and accepts the tag of [encrypt]; and whatever
    ciphertext and tag it is given, the plaintext it returns is the only one
    that [encrypt] turns into that ciphertext, and it accepts exactly if the
    tag is the one [encrypt] gives. *)
Theorem ocb_decrypt_inverts_encrypt key junk k mms nonce :
  key_length key -> Forall is_byte key -> length (e_key k) = 60%nat -> 0 < mms < 2 ^ 63 ->
  exists o, ocb_setkey key (ocb_new junk k mms) = Done o
    /\ (forall p, Forall is_byte p -> Z.of_nat (length p) <= mms ->
          exists c tag, ocb_encrypt o nonce p = Done (c, tag) /\ length c = length p /\ ocb_decrypt o nonce c tag = Done (p, true))
    /\ (forall c tag, Forall is_byte c -> Z.of_nat (length c) <= mms ->
          exists p tag', ocb_decrypt o nonce c tag = Done (p, bool_decide (tag = tag')) /\ ocb_encrypt o nonce p = Done (c, tag')).
Proof.
  intros Hk Hb Hl Hm. destruct (ocb_setkey_spec key junk k mms Hk Hb Hl Hm) as (o & E & D & Es & R & Hms). exists o. split; [exact Es|]. split.
  - intros p Bp Lp. destruct (encrypt_coded o E D R nonce p Bp ltac:(lia)) as (c & tag & [H1 H2] & Lc & _). exists c, tag.
    split; [exact H1|]. split; [exact Lc|]. rewrite H2. by rewrite bool_decide_true.
  - intros c tag Bc Lc. destruct (decrypt_coded o E D R nonce c Bc ltac:(lia)) as (p & tag' & [H1 H2] & _). exists p, tag'.
    split; [apply H2|exact H1].
Qed.

Lemma ocb_decrypt_inverts_encrypt_witness :
  exists o c tag, ocb_setkey (seqZ 0 16) (ocb_new (fun n => replicate (Z.to_nat n) 5) (mkaes 0 (replicate 60 7) (replicate 60 7)) 100) = Done o
    /\ ocb_encrypt o 42 (seqZ 100 40) = Done (c, tag) /\ ocb_decrypt o 42 c tag = Done (seqZ 100 40, true).
Proof.
  destruct (ocb_decrypt_inverts_encrypt (seqZ 0 16) (fun n => replicate (Z.to_nat n) 5) (mkaes 0 (replicate 60 7) (replicate 60 7)) 100 42)
    as (o & Eo & H & _); [left; reflexivity|apply Forall_seqZ; unfold is_byte; lia|reflexivity|lia|].
  destruct (H (seqZ 100 40)) as (c & tag & E1 & _ & E2); [apply Forall_seqZ; unfold is_byte; lia|rewrite length_seqZ; lia|].
  exists o, c, tag. split; [exact Eo|]. split; [exact E1|exact E2].
Defined.

(** The offsets of the blocks are not all different: [ffs] of a [size_t]
    gives the most significant bit, so block 3 gets the offset of block 1.  A
    message of more than 48 bytes whose first and third blocks are equal has a
    ciphertext whose first and third blocks are equal, for every key and nonce. *)
Theorem ocb_equal_blocks_show key junk k mms nonce b b2 rest :
  key_length key -> Forall is_byte key -> length (e_key k) = 60%nat -> 0 < mms < 2 ^ 63 ->
  length b = 16%nat -> Forall is_byte b -> length b2 = 16%nat -> Forall is_byte b2 -> Forall is_byte rest -> rest <> [] ->
  Z.of_nat (length (b ++ b2 ++ b ++ rest)) <= mms ->
  exists o c tag, ocb_setkey key (ocb_new junk k mms) = Done o /\ ocb_encrypt o nonce (b ++ b2 ++ b ++ rest) = Done (c, tag)
    /\ take 16 c = take 16 (drop 32 c).
Proof.
  intros Hk Hb Hl Hm Lb Bb Lb2 Bb2 Br Hne Hlen. destruct (ocb_setkey_spec key junk k mms Hk Hb Hl Hm) as (o & E & D & Es & R & Hms).
  destruct (encrypt_coded o E D R nonce (b ++ b2 ++ b ++ rest)) as (c & tag & [H1 _] & _); [by rewrite !Forall_app|lia|].
  exists o, c, tag. split; [exact Es|]. split; [exact H1|]. apply (encrypt_same_block o E D R nonce b b2 rest c tag); try done. lia.
Qed.

Lemma ocb_equal_blocks_show_witness :
  exists o c tag, ocb_setkey (seqZ 0 16) (ocb_new (fun n => replicate (Z.to_nat n) 5) (mkaes 0 (replicate 60 7) (replicate 60 7)) 100) = Done o
    /\ ocb_encrypt o 42 (seqZ 0 16 ++ seqZ 50 16 ++ seqZ 0 16 ++ [1; 2; 3]) = Done (c, tag) /\ take 16 c = take 16 (drop 32 c).
Proof.
  apply ocb_equal_blocks_show; try reflexivity; try discriminate; try lia; try (apply Forall_seqZ; unfold is_byte; lia).
  - left; reflexivity.
  - repeat apply Forall_cons_2; try apply Forall_nil_2; unfold is_byte; lia.
Defined.
