(* ===== verification/BlowfishProps.v ===== *)
(** * Blowfish and cipher block chaining can be undone *)
From Stdlib Require Import ZArith Lia.
From stdpp Require Import prelude strings.
From S2P Require Import Prelude Armor Mdblock Serial Sha1 AesOps Blowfish.

(** ** Words *)
Definition is_u32 (x : Z) : Prop := 0 <= x < 2 ^ 32.

Lemma u32_id x : is_u32 x -> u32 x = x.
Proof. intros Hx. rewrite u32_mod. by apply Z.mod_small. Qed.

Lemma u32_is x : is_u32 (u32 x).
Proof. rewrite u32_mod. apply Z.mod_pos_bound. lia. Qed.

Lemma xor_u32 x y : is_u32 x -> is_u32 y -> is_u32 (x .^ y).
Proof.
  intros Hx Hy. enough (u32 (x .^ y) = x .^ y) as <- by apply u32_is. rewrite <- (u32_id x Hx), <- (u32_id y Hy) at 2.
  apply Z.bits_inj'. intros i Hi. unfold u32. rewrite Z.lxor_spec, !Z.land_spec, Z.lxor_spec.
  by destruct (Z.testbit x i), (Z.testbit y i), (Z.testbit 4294967295 i).
Qed.

Lemma lor_u32 x y : is_u32 x -> is_u32 y -> is_u32 (x .| y).
Proof.
  intros Hx Hy. enough (u32 (x .| y) = x .| y) as <- by apply u32_is.
  assert (E : u32 (x .| y) = u32 x .| u32 y) by apply Z.land_lor_distr_l. by rewrite E, !u32_id.
Qed.

Lemma xor_cancel x p : (x .^ p) .^ p = x.
Proof. by rewrite Z.lxor_assoc, Z.lxor_nilpotent, Z.lxor_0_r. Qed.

Lemma byte_index x : 0 <= x .& 0xff < 256.
Proof. change 0xff with (Z.ones 8). rewrite Z.land_ones by lia. apply Z.mod_pos_bound. lia. Qed.

Lemma top_index x : is_u32 x -> 0 <= x .>> 24 < 256.
Proof. intros Hx. unfold is_u32 in Hx. rewrite Z.shiftr_div_pow2 by lia. split; [apply Z.div_pos; lia|apply Z.div_lt_upper_bound; lia]. Qed.

(** ** The state of the cipher *)
Record bf_ok (c : blowfish) : Prop := {
  bo_P : length (bf_P c) = 18%nat /\ Forall is_u32 (bf_P c);
  bo_S : length (bf_S c) = 4%nat /\ Forall (fun row => length row = 256%nat /\ Forall is_u32 row) (bf_S c)
}.

Lemma rd_Forall {A} (Q : A -> Prop) (l : list A) i :
  Forall Q l -> 0 <= i < Z.of_nat (length l) -> exists x, rd l i = Done x /\ Q x.
Proof.
  intros Hl Hi. destruct (lookup_lt_is_Some_2 l (Z.to_nat i)) as [x Ex]; [lia|]. exists x. unfold rd.
  destruct (Z.leb_spec 0 i); [|lia]. rewrite Ex. split; [done|]. by eapply Forall_lookup_1 in Ex.
Qed.

Lemma wr_Forall {A} (Q : A -> Prop) (l : list A) i x :
  Forall Q l -> 0 <= i < Z.of_nat (length l) -> Q x -> exists l', wr l i x = Done l' /\ Forall Q l' /\ length l' = length l.
Proof.
  intros Hl Hi Hx. unfold wr. destruct (Z.leb_spec 0 i), (Z.ltb_spec i (Z.of_nat (length l))); try lia. eexists. split; [done|].
  split; [by apply Forall_insert|apply length_insert].
Qed.

Section cipher.
Context (c : blowfish) (Hc : bf_ok c).

Lemma rd_P i : 0 <= i < 18 -> exists p, rd (bf_P c) i = Done p /\ is_u32 p.
Proof using Hc. destruct Hc as [[L B] _]. intros Hi. apply rd_Forall; [done|lia]. Qed.

Lemma sbox_ok i j : 0 <= i < 4 -> 0 <= j < 256 -> exists s, sbox_at c i j = Done s /\ is_u32 s.
Proof using Hc.
  destruct Hc as [_ [L B]]. intros Hi Hj. unfold sbox_at. destruct (rd_Forall _ (bf_S c) i B) as (row & -> & Lr & Br); [lia|].
  cbn [mbind outcome_bind]. apply rd_Forall; [done|lia].
Qed.

Lemma bf_F_ok x : is_u32 x -> exists f, bf_F c x = Done f /\ is_u32 f.
Proof using Hc.
  intros Hx. unfold bf_F. destruct (sbox_ok 0 (x .>> 24)) as (s0 & -> & _); [lia|by apply top_index|]. cbn [mbind outcome_bind].
  destruct (sbox_ok 1 ((x .>> 16) .& 0xff)) as (s1 & -> & _); [lia|apply byte_index|]. cbn [mbind outcome_bind].
  destruct (sbox_ok 2 ((x .>> 8) .& 0xff)) as (s2 & -> & _); [lia|apply byte_index|]. cbn [mbind outcome_bind].
  destruct (sbox_ok 3 (x .& 0xff)) as (s3 & -> & _); [lia|apply byte_index|]. cbn [mbind outcome_bind].
  eexists. split; [done|]. apply u32_is.
Qed.

(** Two rounds of enciphering and the two rounds that undo them: the halves
    are exchanged between them. *)
Definition two_rounds (i j Xl Xr : Z) : outcome (Z * Z) :=
  p ← rd (bf_P c) i; let Xl := Xl .^ p in f ← bf_F c Xl; let Xr := Xr .^ f in
  p ← rd (bf_P c) j; let Xr := Xr .^ p in f ← bf_F c Xr; let Xl := Xl .^ f in Done (Xl, Xr).

Lemma two_rounds_ok i j Xl Xr :
  0 <= i < 18 -> 0 <= j < 18 -> is_u32 Xl -> is_u32 Xr ->
  exists Yl Yr, two_rounds i j Xl Xr = Done (Yl, Yr) /\ is_u32 Yl /\ is_u32 Yr.
Proof using Hc.
  intros Hi Hj Hl Hr. unfold two_rounds. destruct (rd_P i Hi) as (p & -> & Hp). cbn [mbind outcome_bind].
  destruct (bf_F_ok (Xl .^ p)) as (f & -> & Hf); [by apply xor_u32|]. cbn [mbind outcome_bind].
  destruct (rd_P j Hj) as (q & -> & Hq). cbn [mbind outcome_bind].
  destruct (bf_F_ok (Xr .^ f .^ q)) as (g & -> & Hg); [by repeat apply xor_u32|]. cbn [mbind outcome_bind].
  eexists _, _. split; [done|]. split; by repeat apply xor_u32.
Qed.
End cipher.

Lemma encipher_loop_step fuel c i Xl Xr :
  i < BF_N -> bf_encipher_loop (S fuel) c i Xl Xr
  = (x ← two_rounds c i (i + 1) Xl Xr; let '(Xl, Xr) := x : Z * Z in bf_encipher_loop fuel c (i + 2) Xl Xr).
Proof.
  intros Hi. unfold two_rounds. cbn [bf_encipher_loop]. destruct (Z.ltb_spec i BF_N); [|lia].
  destruct (rd (bf_P c) i); try done. cbn [mbind outcome_bind]. destruct (bf_F c _); try done. cbn [mbind outcome_bind].
  destruct (rd (bf_P c) (i + 1)); try done. cbn [mbind outcome_bind]. by destruct (bf_F c _).
Qed.

Lemma decipher_loop_step fuel c i Xl Xr :
  1 < i -> bf_decipher_loop (S fuel) c i Xl Xr
  = (x ← two_rounds c i (i - 1) Xl Xr; let '(Xl, Xr) := x : Z * Z in bf_decipher_loop fuel c (i - 2) Xl Xr).
Proof.
  intros Hi. unfold two_rounds. cbn [bf_decipher_loop]. destruct (Z.ltb_spec 1 i); [|lia].
  destruct (rd (bf_P c) i); try done. cbn [mbind outcome_bind]. destruct (bf_F c _); try done. cbn [mbind outcome_bind].
  destruct (rd (bf_P c) (i - 1)); try done. cbn [mbind outcome_bind]. by destruct (bf_F c _).
Qed.

(** ** The Feistel network *)
Section feistel.
Context (F : Z -> Z).

(** A round with the halves exchanged behind it. *)
Definition fround (k : Z) (s : Z * Z) : Z * Z := let l := s.1 .^ k in (s.2 .^ F l, l).

(** The rounds with the keys [p i], [p (i + 1)], ... *)
Fixpoint frounds (n : nat) (p : nat -> Z) (i : nat) (s : Z * Z) : Z * Z :=
  match n with O => s | S n => frounds n p (S i) (fround (p i) s) end.

Definition feistel (n : nat) (p : nat -> Z) (s : Z * Z) : Z * Z :=
  let x := frounds n p 0 s in (x.2 .^ p (S n), x.1 .^ p n).

Lemma frounds_end n p i s : frounds (S n) p i s = fround (p (i + n)%nat) (frounds n p i s).
Proof.
  revert i s. induction n as [|n IH]; intros i s; cbn [frounds]; [by rewrite Nat.add_0_r|].
  change (frounds n p (S (S i)) (fround (p (S i)) (fround (p i) s))) with (frounds (S n) p (S i) (fround (p i) s)). rewrite IH.
  cbn [frounds]. do 2 f_equal. lia.
Qed.

(** Undoing [m] of the rounds, with the keys in the opposite order. *)
Lemma feistel_undo n p s m :
  (m <= n)%nat ->
  frounds m (fun i => p (S n - i)%nat) 0 ((frounds n p 0 s).2 .^ p (S n), (frounds n p 0 s).1 .^ p n)
  = ((frounds (n - m) p 0 s).2 .^ p (S (n - m)), (frounds (n - m) p 0 s).1 .^ p (n - m)%nat).
Proof.
  induction m as [|m IH]; intros Hm; [by rewrite Nat.sub_0_r|]. rewrite frounds_end, IH by lia. clear IH.
  replace (n - m)%nat with (S (n - S m)) by lia. rewrite frounds_end. set (e := frounds (n - S m) p 0 s). cbn [Nat.add].
  replace (S n - m)%nat with (S (S (n - S m))) by lia. unfold fround at 1 2. cbn [fst snd]. rewrite xor_cancel. unfold fround. cbn [fst snd].
  f_equal. rewrite <- (xor_cancel (e.2) (F (e.1 .^ p (n - S m)%nat))) at 2.
  rewrite !Z.lxor_assoc. do 2 f_equal. apply Z.lxor_comm.
Qed.

Lemma feistel_inverse n p s : feistel n (fun i => p (S n - i)%nat) (feistel n p s) = s.
Proof.
  unfold feistel. rewrite feistel_undo by lia. rewrite Nat.sub_diag. cbn [frounds fst snd].
  replace (S n - S n)%nat with 0%nat by lia. replace (S n - n)%nat with 1%nat by lia. rewrite !xor_cancel. by destruct s.
Qed.
End feistel.

(** ** Blowfish is this network *)
Section network.
Context (c : blowfish) (Hc : bf_ok c).

Definition pkey (i : nat) : Z := match rd (bf_P c) (Z.of_nat i) with Done p => p | _ => 0 end.
Definition ffun (x : Z) : Z := match bf_F c x with Done f => f | _ => 0 end.

Lemma rd_pkey i z : (i < 18)%nat -> z = Z.of_nat i -> rd (bf_P c) z = Done (pkey i) /\ is_u32 (pkey i).
Proof using Hc. intros Hi ->. unfold pkey. destruct (rd_P c Hc (Z.of_nat i)) as (p & -> & Hp); [lia|]. done. Qed.

Lemma F_ffun x : is_u32 x -> bf_F c x = Done (ffun x) /\ is_u32 (ffun x).
Proof using Hc. intros Hx. unfold ffun. destruct (bf_F_ok c Hc x Hx) as (f & -> & Hf). done. Qed.

Definition is_pair (s : Z * Z) : Prop := is_u32 s.1 /\ is_u32 s.2.

Lemma fround_pair k s : is_u32 k -> is_pair s -> is_pair (fround ffun k s).
Proof using Hc.
  intros Hk [H1 H2]. assert (is_u32 (s.1 .^ k)) by by apply xor_u32. split; cbn; [apply xor_u32; [done|by apply F_ffun]|done].
Qed.

Lemma two_rounds_spec i j zi zj s :
  (i < 18)%nat -> (j < 18)%nat -> zi = Z.of_nat i -> zj = Z.of_nat j -> is_pair s ->
  two_rounds c zi zj s.1 s.2 = Done (fround ffun (pkey j) (fround ffun (pkey i) s)).
Proof using Hc.
  intros Hi Hj Ei Ej Hs. pose proof Hs as [H1 H2]. unfold two_rounds. destruct (rd_pkey i zi Hi Ei) as [-> Pi]. cbn [mbind outcome_bind].
  destruct (F_ffun (s.1 .^ pkey i)) as [-> Uf]; [by apply xor_u32|]. cbn [mbind outcome_bind].
  destruct (rd_pkey j zj Hj Ej) as [-> Pj]. cbn [mbind outcome_bind].
  destruct (F_ffun (s.2 .^ ffun (s.1 .^ pkey i) .^ pkey j)) as [-> Ug]; [by repeat apply xor_u32|]. done.
Qed.

Lemma encipher_loop_spec n i s :
  (i + 2 * n = 16)%nat -> is_pair s ->
  bf_encipher_loop n c (Z.of_nat i) s.1 s.2 = Done (frounds ffun (2 * n) pkey i s) /\ is_pair (frounds ffun (2 * n) pkey i s).
Proof using Hc.
  revert i s. induction n as [|n IH]; intros i s Hi Hs.
  { cbn [bf_encipher_loop]. destruct (Z.ltb_spec (Z.of_nat i) BF_N); [unfold BF_N in *; lia|]. cbn. by destruct s. }
  rewrite encipher_loop_step by (unfold BF_N; lia). rewrite (two_rounds_spec i (S i)) by (done || lia). cbn [mbind outcome_bind].
  replace (2 * S n)%nat with (S (S (2 * n))) by lia. cbn [frounds].
  destruct (rd_pkey i _ ltac:(lia) eq_refl) as [_ Pi]. destruct (rd_pkey (S i) _ ltac:(lia) eq_refl) as [_ Pj].
  pose proof (fround_pair _ _ Pj (fround_pair _ _ Pi Hs)) as Hp. destruct (IH (S (S i)) _ ltac:(lia) Hp) as [E1 E2]. split; [|exact E2].
  rewrite <- E1. replace (Z.of_nat i + 2) with (Z.of_nat (S (S i))) by lia. by destruct (fround ffun (pkey (S i)) (fround ffun (pkey i) s)).
Qed.

Lemma decipher_loop_spec n i s :
  (i + 2 * n = 16)%nat -> is_pair s ->
  bf_decipher_loop n c (17 - Z.of_nat i) s.1 s.2 = Done (frounds ffun (2 * n) (fun i => pkey (17 - i)) i s)
  /\ is_pair (frounds ffun (2 * n) (fun i => pkey (17 - i)) i s).
Proof using Hc.
  revert i s. induction n as [|n IH]; intros i s Hi Hs.
  { cbn [bf_decipher_loop]. destruct (Z.ltb_spec 1 (17 - Z.of_nat i)); [lia|]. cbn. by destruct s. }
  rewrite decipher_loop_step by lia. rewrite (two_rounds_spec (17 - i) (17 - S i)) by (done || lia). cbn [mbind outcome_bind].
  replace (2 * S n)%nat with (S (S (2 * n))) by lia. cbn [frounds].
  destruct (rd_pkey (17 - i) _ ltac:(lia) eq_refl) as [_ Pi]. destruct (rd_pkey (17 - S i) _ ltac:(lia) eq_refl) as [_ Pj].
  pose proof (fround_pair _ _ Pj (fround_pair _ _ Pi Hs)) as Hp. destruct (IH (S (S i)) _ ltac:(lia) Hp) as [E1 E2]. split; [|exact E2].
  rewrite <- E1. replace (17 - Z.of_nat i - 2) with (17 - Z.of_nat (S (S i))) by lia.
  by destruct (fround ffun (pkey (17 - S i)) (fround ffun (pkey (17 - i)) s)).
Qed.

Lemma encipher_network l r :
  is_u32 l -> is_u32 r -> bf_encipher c l r = Done (feistel ffun 16 pkey (l, r)) /\ is_pair (feistel ffun 16 pkey (l, r)).
Proof using Hc.
  intros Hl Hr. destruct (encipher_loop_spec 8 0 (l, r)) as [E H]; [lia|by split|]. unfold bf_encipher. cbn [fst snd] in E. change 0 with (Z.of_nat 0) at 1.
  rewrite E. cbn [mbind outcome_bind]. unfold feistel. change (2 * 8)%nat with 16%nat in *. destruct (frounds ffun 16 pkey 0 (l, r)) as [Xl Xr].
  destruct (rd_pkey 16 BF_N ltac:(lia) eq_refl) as [-> P1]. cbn [mbind outcome_bind]. destruct (rd_pkey 17 (BF_N + 1) ltac:(lia) eq_refl) as [-> P2].
  destruct H as [H1 H2]. cbn in H1, H2. split; [done|]. split; cbn [fst snd]; by apply xor_u32.
Qed.

Lemma decipher_network l r :
  is_u32 l -> is_u32 r -> bf_decipher c l r = Done (feistel ffun 16 (fun i => pkey (17 - i)) (l, r))
  /\ is_pair (feistel ffun 16 (fun i => pkey (17 - i)) (l, r)).
Proof using Hc.
  intros Hl Hr. destruct (decipher_loop_spec 8 0 (l, r)) as [E H]; [lia|by split|]. unfold bf_decipher. cbn [fst snd] in E.
  change (BF_N + 1) with (17 - Z.of_nat 0). rewrite E. cbn [mbind outcome_bind]. unfold feistel. change (2 * 8)%nat with 16%nat in *.
  destruct (frounds ffun 16 _ 0 (l, r)) as [Xl Xr].
  destruct (rd_pkey 1 1 ltac:(lia) eq_refl) as [-> P1]. cbn [mbind outcome_bind]. destruct (rd_pkey 0 0 ltac:(lia) eq_refl) as [-> P2].
  destruct H as [H1 H2]. cbn in H1, H2. split; [done|]. split; cbn [fst snd]; by apply xor_u32.
Qed.

Lemma bf_inverse l r :
  is_u32 l -> is_u32 r -> exists l' r', bf_encipher c l r = Done (l', r') /\ is_u32 l' /\ is_u32 r' /\ bf_decipher c l' r' = Done (l, r).
Proof using Hc.
  intros Hl Hr. destruct (encipher_network l r Hl Hr) as [-> [H1 H2]]. pose proof (feistel_inverse ffun 16 pkey (l, r)) as Inv.
  destruct (feistel ffun 16 pkey (l, r)) as [l' r']. cbn in H1, H2. exists l', r'. split_and!; try done.
  destruct (decipher_network l' r' H1 H2) as [-> _]. by rewrite Inv.
Qed.

Lemma bf_inverse' l r :
  is_u32 l -> is_u32 r -> exists l' r', bf_decipher c l r = Done (l', r') /\ is_u32 l' /\ is_u32 r' /\ bf_encipher c l' r' = Done (l, r).
Proof using Hc.
  intros Hl Hr. destruct (decipher_network l r Hl Hr) as [-> [H1 H2]].
  pose proof (feistel_inverse ffun 16 (fun i => pkey (17 - i)) (l, r)) as Inv.
  destruct (feistel ffun 16 (fun i => pkey (17 - i)) (l, r)) as [l' r'] eqn:Ed. cbn in H1, H2. exists l', r'. split_and!; try done.
  destruct (encipher_network l' r' H1 H2) as [-> _]. rewrite <- Inv. reflexivity.
Qed.
End network.

(** ** The key schedule keeps the state in shape *)
Lemma initstate_ok : bf_ok initstate.
Proof.
  assert (Hp : Forall is_u32 pihex).
  { assert (H : forallb (fun x => (0 <=? x) && (x <? 2 ^ 32)) pihex = true) by (vm_compute; reflexivity). rewrite forallb_forall in H.
    apply Forall_forall. intros x Hx. apply list_elem_of_In, H in Hx. unfold is_u32. lia. }
  assert (Hl : length pihex = 1251%nat) by (vm_compute; reflexivity). unfold initstate. generalize dependent pihex. intros l Hp Hl. split; cbn [bf_P bf_S].
  - split; [rewrite length_take; lia|by apply Forall_take].
  - split; [done|]. apply Forall_fmap, Forall_forall. intros i Hi. apply elem_of_seq in Hi. cbn. split; [rewrite length_take, length_drop; lia|].
    by apply Forall_take, Forall_drop.
Qed.

Lemma key_word_ok n key keypos data :
  Forall is_byte key -> 0 <= keypos < Z.of_nat (length key) -> is_u32 data ->
  exists d k, key_word n key keypos data = Done (d, k) /\ is_u32 d /\ 0 <= k < Z.of_nat (length key).
Proof.
  intros Hb. revert keypos data. induction n as [|n IH]; intros keypos data Hk Hd; cbn [key_word]; [by exists data, keypos|].
  destruct (rd_Forall _ key keypos Hb Hk) as (b & -> & Bb). cbn [mbind outcome_bind]. apply IH.
  - destruct (Z.leb_spec (Z.of_nat (length key)) (keypos + 1)); lia.
  - apply lor_u32; [apply u32_is|]. unfold is_byte in Bb. unfold is_u32. lia.
Qed.

Lemma key_xor_ok n key i keypos c :
  Forall is_byte key -> 0 <= keypos < Z.of_nat (length key) -> 0 <= i -> i + Z.of_nat n <= 18 -> bf_ok c ->
  exists c', key_xor n key i keypos c = Done c' /\ bf_ok c'.
Proof.
  intros Hb. revert i keypos c. induction n as [|n IH]; intros i keypos c Hk Hi Hn Hc; cbn [key_xor]; [by exists c|].
  destruct (key_word_ok 4 key keypos 0 Hb Hk) as (d & k & -> & Ud & Hk'); [unfold is_u32; lia|]. cbn [mbind outcome_bind].
  destruct (rd_P c Hc i) as (p & -> & Up); [lia|]. cbn [mbind outcome_bind]. destruct Hc as [[LP BP] HS].
  destruct (wr_Forall is_u32 (bf_P c) i (p .^ d) BP) as (P & -> & BP' & LP'); [lia|by apply xor_u32|]. cbn [mbind outcome_bind].
  apply IH; try lia. split; [cbn; split; [lia|done]|done].
Qed.

Definition salt_ok (s : option salter) : Prop :=
  match s with None => True | Some s => Forall is_byte (sr_salt s) /\ (0 < length (sr_salt s))%nat /\ 0 <= sr_pos s end.

Lemma salt_byte_ok s : salt_ok (Some s) -> exists b s', salt_byte s = Done (b, s') /\ is_byte b /\ salt_ok (Some s').
Proof.
  intros (Hb & Hl & Hp). unfold salt_byte. set (pos := if Z.of_nat (length (sr_salt s)) <=? sr_pos s then 0 else sr_pos s).
  assert (Hpos : 0 <= pos < Z.of_nat (length (sr_salt s))) by (unfold pos; destruct (Z.leb_spec (Z.of_nat (length (sr_salt s))) (sr_pos s)); lia).
  destruct (rd_Forall _ (sr_salt s) pos Hb Hpos) as (b & -> & Bb). cbn [mbind outcome_bind]. eexists _, _. split; [done|]. split; [done|].
  split_and!; cbn; [done|done|lia].
Qed.

Lemma getword_ok s : salt_ok (Some s) -> exists w s', getword s = Done (w, s') /\ is_u32 w /\ salt_ok (Some s').
Proof.
  intros H. unfold getword. destruct (salt_byte_ok s H) as (b0 & s0 & -> & _ & H0). cbn [mbind outcome_bind].
  destruct (salt_byte_ok s0 H0) as (b1 & s1 & -> & _ & H1). cbn [mbind outcome_bind].
  destruct (salt_byte_ok s1 H1) as (b2 & s2 & -> & _ & H2). cbn [mbind outcome_bind].
  destruct (salt_byte_ok s2 H2) as (b3 & s3 & -> & _ & H3). cbn [mbind outcome_bind]. eexists _, _. split; [done|]. split; [apply u32_is|done].
Qed.

Definition sched_ok (x : sched) : Prop :=
  let '(dl, dr, s, c) := x in is_u32 dl /\ is_u32 dr /\ salt_ok s /\ bf_ok c.

Lemma salt_words_ok s dl dr :
  salt_ok s -> is_u32 dl -> is_u32 dr ->
  exists dl' dr' s', salt_words s dl dr = Done (dl', dr', s') /\ is_u32 dl' /\ is_u32 dr' /\ salt_ok s'.
Proof.
  intros Hs Hl Hr. destruct s as [s|]; cbn [salt_words]; [|by eexists _, _, _].
  destruct (getword_ok s Hs) as (w & s1 & -> & Hw & H1). cbn [mbind outcome_bind].
  destruct (getword_ok s1 H1) as (w' & s2 & -> & Hw' & H2). cbn [mbind outcome_bind]. eexists _, _, _. split; [done|].
  split_and!; [by apply xor_u32|by apply xor_u32|done..].
Qed.

(** The part of a step before the words are stored. *)
Lemma sched_step dl dr s c :
  sched_ok (dl, dr, s, c) -> exists dl1 dr1 s1 dl2 dr2, salt_words s dl dr = Done (dl1, dr1, s1) /\ bf_encipher c dl1 dr1 = Done (dl2, dr2)
    /\ is_u32 dl2 /\ is_u32 dr2 /\ salt_ok s1.
Proof.
  intros (Hl & Hr & Hs & Hc). destruct (salt_words_ok s dl dr Hs Hl Hr) as (dl1 & dr1 & s1 & E1 & H1 & H2 & H3).
  destruct (bf_inverse c Hc dl1 dr1 H1 H2) as (dl2 & dr2 & E2 & H4 & H5 & _). by exists dl1, dr1, s1, dl2, dr2.
Qed.

Lemma sched_P_ok n i x : sched_ok x -> 0 <= i -> i + 2 * Z.of_nat n <= 18 -> exists x', sched_P n i x = Done x' /\ sched_ok x'.
Proof.
  revert i x. induction n as [|n IH]; intros i x Hx Hi Hn; cbn [sched_P]; [by exists x|]. destruct x as [[[dl dr] s] c].
  destruct (sched_step dl dr s c Hx) as (dl1 & dr1 & s1 & dl2 & dr2 & -> & E2 & H1 & H2 & H3). cbn [mbind outcome_bind]. rewrite E2. cbn [mbind outcome_bind].
  destruct Hx as (_ & _ & _ & [[LP BP] HS]). unfold store_P.
  destruct (wr_Forall is_u32 (bf_P c) i dl2 BP) as (P1 & -> & B1 & L1); [lia|done|]. cbn [mbind outcome_bind].
  destruct (wr_Forall is_u32 P1 (i + 1) dr2 B1) as (P2 & -> & B2 & L2); [lia|done|]. cbn [mbind outcome_bind].
  apply IH; [|lia|lia]. split_and!; try done. split; [cbn; split; [lia|done]|done].
Qed.

Lemma sched_row_ok n i j x :
  sched_ok x -> 0 <= i < 4 -> 0 <= j -> j + 2 * Z.of_nat n <= 256 -> exists x', sched_row n i j x = Done x' /\ sched_ok x'.
Proof.
  revert j x. induction n as [|n IH]; intros j x Hx Hi Hj Hn; cbn [sched_row]; [by exists x|]. destruct x as [[[dl dr] s] c].
  destruct (sched_step dl dr s c Hx) as (dl1 & dr1 & s1 & dl2 & dr2 & -> & E2 & H1 & H2 & H3). cbn [mbind outcome_bind]. rewrite E2. cbn [mbind outcome_bind].
  destruct Hx as (_ & _ & _ & [HP [LS BS]]). unfold store_S.
  destruct (rd_Forall _ (bf_S c) i BS) as (row & -> & Lr & Br); [lia|]. cbn [mbind outcome_bind].
  destruct (wr_Forall is_u32 row j dl2 Br) as (r1 & -> & B1 & L1); [lia|done|]. cbn [mbind outcome_bind].
  destruct (wr_Forall is_u32 r1 (j + 1) dr2 B1) as (r2 & -> & B2 & L2); [lia|done|]. cbn [mbind outcome_bind].
  destruct (wr_Forall _ (bf_S c) i r2 BS) as (S' & -> & B3 & L3); [lia|split; [lia|done]|]. cbn [mbind outcome_bind].
  apply IH; [|done|lia|lia]. split_and!; try done. split; [done|cbn; split; [lia|done]].
Qed.

Lemma sched_S_ok n i x : sched_ok x -> 0 <= i -> i + Z.of_nat n <= 4 -> exists x', sched_S n i x = Done x' /\ sched_ok x'.
Proof.
  revert i x. induction n as [|n IH]; intros i x Hx Hi Hn; [by exists x|]. change (sched_S (S n) i x) with (x ← sched_row 128 i 0 x; sched_S n (i + 1) x).
  destruct (sched_row_ok 128 i 0 x Hx) as (x1 & -> & H1); [lia|lia|lia|]. cbn [mbind outcome_bind]. apply IH; [done|lia|lia].
Qed.

Lemma schedule_all_ok key s c :
  Forall is_byte key -> salt_ok s -> bf_ok c -> exists c', schedule_all key s c = Done c' /\ bf_ok c'.
Proof.
  intros Hk Hs Hc. unfold schedule_all.
  assert (exists c1, (if 0 <? Z.of_nat (length key) then key_xor 18 key 0 0 c else Done c) = Done c1 /\ bf_ok c1) as (c1 & -> & H1).
  { destruct (Z.ltb_spec 0 (Z.of_nat (length key))); [apply key_xor_ok; done || lia|by exists c]. }
  cbn [mbind outcome_bind]. destruct (sched_P_ok 9 0 (0, 0, s, c1)) as (x & -> & Hx); [by split_and!|lia|lia|]. cbn [mbind outcome_bind].
  destruct (sched_S_ok 4 0 x Hx) as (x2 & -> & Hx2); [lia|lia|]. cbn [mbind outcome_bind]. destruct x2 as [[[dl dr] s2] c2].
  eexists. split; [done|]. apply Hx2.
Qed.

Lemma eks_rounds_ok n key salt c :
  Forall is_byte key -> Forall is_byte salt -> bf_ok c -> exists c', eks_rounds n key salt c = Done c' /\ bf_ok c'.
Proof.
  intros Hk Hs. revert c. induction n as [|n IH]; intros c Hc; cbn [eks_rounds]; [by exists c|]. unfold keysched.
  destruct (schedule_all_ok key None c Hk I Hc) as (c1 & -> & H1). cbn [mbind outcome_bind].
  destruct (schedule_all_ok salt None c1 Hs I H1) as (c2 & -> & H2). cbn [mbind outcome_bind]. by apply IH.
Qed.

Lemma bf_setkey_ok key c : Forall is_byte key -> exists c', bf_setkey key c = Done c' /\ bf_ok c'.
Proof. intros Hk. exact (schedule_all_ok key None initstate Hk I initstate_ok). Qed.

Lemma eksetkey_ok cost key salt :
  Forall is_byte key -> Forall is_byte salt -> (0 < length salt)%nat -> cost <= 32 -> exists c, eksetkey cost key salt = Done c /\ bf_ok c.
Proof.
  intros Hk Hs Hl Hc. unfold eksetkey, eksched. destruct (Z.leb_spec cost 32); [|lia]. cbn [assertM mbind outcome_bind].
  destruct (Z.ltb_spec 0 (Z.of_nat (length salt))); [|lia]. cbn [assertM mbind outcome_bind].
  destruct (schedule_all_ok key (Some (mksalter salt 0)) initstate Hk) as (c & -> & Hok); [by split_and!|apply initstate_ok|]. cbn [mbind outcome_bind].
  by apply eks_rounds_ok.
Qed.

(** ** What a cipher with blocks of 64 bits promises *)
Class Block64OK (C : Type) `{!block64cipher C} (ok : C -> Prop) : Prop := {
  b64_setkey_ok : forall key c, Forall is_byte key -> exists c', b64_setkey key c = Done c' /\ ok c';
  b64_inverse : forall c l r, ok c -> is_u32 l -> is_u32 r ->
    exists l' r', b64_encipher c l r = Done (l', r') /\ is_u32 l' /\ is_u32 r' /\ b64_decipher c l' r' = Done (l, r);
  b64_inverse' : forall c l r, ok c -> is_u32 l -> is_u32 r ->
    exists l' r', b64_decipher c l r = Done (l', r') /\ is_u32 l' /\ is_u32 r' /\ b64_encipher c l' r' = Done (l, r)
}.

#[export] Instance blowfish_block64 : Block64OK blowfish bf_ok.
Proof.
  split; [exact bf_setkey_ok| |]; intros c l r Hc; [by apply (bf_inverse c Hc)|by apply (bf_inverse' c Hc)].
Qed.

Section chaining.
Context {C : Type} `{!block64cipher C} (ok : C -> Prop) `{!Block64OK C ok}.

Lemma getint_u32 dp :
  (4 <= length dp)%nat -> Forall is_byte dp -> exists v, getint dp = Done v /\ is_u32 v /\ putint v = take 4 dp.
Proof using.
  intros Hl Hb. destruct dp as [|a [|b [|c [|d dp]]]]; cbn [length] in Hl; try lia. rewrite !Forall_cons in Hb. destruct_and!.
  assert (Hw : is_word [a; b; c; d]) by by apply is_word_4. exists (packl [a; b; c; d]).
  split; [exact (get_packl [a; b; c; d] dp Hw)|]. split; [by apply pack_range|by apply put_packl].
Qed.

Lemma getint_put v rest : is_u32 v -> getint (putint v ++ rest) = Done v.
Proof using. apply getint_putint. Qed.

Lemma drop_put a b rest : drop 4 (putint a ++ rest) = rest /\ drop 8 (putint a ++ putint b ++ rest) = rest.
Proof using. done. Qed.

Lemma cbc_loops n c dp l r :
  ok c -> length dp = (8 * n)%nat -> Forall is_byte dp -> is_u32 l -> is_u32 r ->
  exists ct l' r', cbc_encipher_bytes_loop n c dp l r = Done (ct, l', r') /\ length ct = length dp /\ is_u32 l' /\ is_u32 r'
    /\ cbc_decipher_bytes_loop n c ct l r = Done (dp, l', r').
Proof using Block64OK0.
  intros Hc. revert dp l r. induction n as [|n IH]; intros dp l r Hl Hb Ul Ur; cbn [cbc_encipher_bytes_loop].
  { destruct dp; [|cbn in Hl; lia]. exists [], l, r. done. }
  destruct (getint_u32 dp) as (d0 & -> & U0 & P0); [lia|done|]. cbn [mbind outcome_bind].
  destruct (getint_u32 (drop 4 dp)) as (d1 & -> & U1 & P1); [rewrite length_drop; lia|by apply Forall_drop|]. cbn [mbind outcome_bind].
  destruct (b64_inverse c (l .^ d0) (r .^ d1) Hc) as (x & y & -> & Ux & Uy & Ed); [by apply xor_u32|by apply xor_u32|]. cbn [mbind outcome_bind].
  destruct (IH (drop 8 dp) x y) as (ct & l' & r' & -> & Lc & Ul' & Ur' & IHd); [rewrite length_drop; lia|by apply Forall_drop|done|done|].
  cbn [mbind outcome_bind]. exists (putint x ++ putint y ++ ct), l', r'. split; [done|]. split.
  { rewrite !length_app, Lc, length_drop. change (length (putint x)) with 4%nat. change (length (putint y)) with 4%nat. lia. }
  split; [done|]. split; [done|]. cbn [cbc_decipher_bytes_loop]. rewrite getint_put by done. cbn [mbind outcome_bind].
  rewrite (proj1 (drop_put x y (putint y ++ ct))), getint_put by done. cbn [mbind outcome_bind]. rewrite Ed. cbn [mbind outcome_bind].
  rewrite (proj2 (drop_put x y ct)), IHd. cbn [mbind outcome_bind].
  rewrite (Z.lxor_comm l d0), (Z.lxor_comm r d1), !xor_cancel, P0, P1. do 3 f_equal.
  rewrite <- (take_drop 4 dp) at 4. f_equal. rewrite <- (take_drop 4 (drop 4 dp)) at 2. by rewrite drop_drop.
Qed.

Lemma cbc_word_loops n c dp l r :
  ok c -> length dp = (2 * n)%nat -> Forall is_u32 dp -> is_u32 l -> is_u32 r ->
  exists ct l' r', cbc_encipher_loop c dp l r = Done (ct, l', r') /\ length ct = length dp
    /\ cbc_decipher_loop c ct l r = Done (dp, l', r').
Proof using Block64OK0.
  intros Hc. revert dp l r. induction n as [|n IH]; intros dp l r Hl Hb Ul Ur.
  { destruct dp; [|cbn in Hl; lia]. by exists [], l, r. }
  destruct dp as [|d0 [|d1 dp]]; [cbn in Hl; lia..|]. apply Forall_cons in Hb as [U0 [U1 Hb]%Forall_cons]. cbn [cbc_encipher_loop].
  destruct (b64_inverse c (l .^ d0) (r .^ d1) Hc) as (x & y & -> & Ux & Uy & Ed); [by apply xor_u32|by apply xor_u32|]. cbn [mbind outcome_bind].
  destruct (IH dp x y) as (ct & l' & r' & -> & Lc & IHd); [cbn [length] in Hl; lia|done|done|done|].
  cbn [mbind outcome_bind]. exists (x :: y :: ct), l', r'. split; [done|]. split; [cbn [length]; by rewrite Lc|].
  cbn [cbc_decipher_loop]. rewrite Ed. cbn [mbind outcome_bind]. rewrite IHd. cbn [mbind outcome_bind].
  by rewrite (Z.lxor_comm l d0), (Z.lxor_comm r d1), !xor_cancel.
Qed.

Lemma cbc_words_inverse (v : cbc64iv C) ws :
  ok (cbc_c v) -> is_u32 (ivl v) -> is_u32 (ivr v) -> Forall is_u32 ws -> Nat.Even (length ws) ->
  exists ct v', encipher_words v ws = Done (ct, v') /\ length ct = length ws /\ decipher_words v ct = Done (ws, v').
Proof using Block64OK0.
  intros Hc Ul Ur Hw [n Hn]. destruct (cbc_word_loops n (cbc_c v) ws (ivl v) (ivr v) Hc Hn Hw Ul Ur) as (ct & l & r & E & L & D).
  assert (Ha : ((4 * Z.of_nat (length ws)) .& 7 =? 0) = true).
  { change 7 with (Z.ones 3). rewrite Z.land_ones by lia. apply Z.eqb_eq. rewrite Hn. replace (4 * _) with (Z.of_nat n * 2 ^ 3) by lia.
    by apply Z.mod_mul. }
  exists ct, (mkcbc (cbc_c v) l r). unfold encipher_words, decipher_words. rewrite L, Ha, E, D. done.
Qed.

Lemma len_mod8 n : Z.of_nat n .& 7 = Z.of_nat (n mod 8).
Proof using. change 7 with (Z.ones 3). rewrite Z.land_ones by lia. by rewrite Nat2Z.inj_mod. Qed.

Lemma block_bytes_inverse c b :
  ok c -> length b = 8%nat -> Forall is_byte b ->
  exists e, bf_encipher_bytes c b = Done e /\ length e = 8%nat /\ Forall is_byte e /\ bf_decipher_bytes c e = Done b.
Proof using Block64OK0.
  intros Hc Hl Hb. unfold bf_encipher_bytes. destruct (getint_u32 b) as (d0 & -> & U0 & P0); [lia|done|]. cbn [mbind outcome_bind].
  destruct (getint_u32 (drop 4 b)) as (d1 & -> & U1 & P1); [rewrite length_drop; lia|by apply Forall_drop|]. cbn [mbind outcome_bind].
  destruct (b64_inverse c d0 d1 Hc U0 U1) as (x & y & -> & Ux & Uy & Ed). cbn [mbind outcome_bind]. eexists. split; [done|]. split; [done|]. split.
  { cbn [putint app]. repeat apply Forall_cons_2; apply u8_byte || apply Forall_nil_2. }
  unfold bf_decipher_bytes. rewrite getint_put by done. cbn [mbind outcome_bind]. rewrite (proj1 (drop_put x y (putint y))).
  rewrite <- (app_nil_r (putint y)), getint_put by done. cbn [mbind outcome_bind]. rewrite Ed. cbn [mbind outcome_bind]. rewrite P0, P1. f_equal.
  rewrite (take_ge (drop 4 b)) by (rewrite length_drop; lia). apply take_drop.
Qed.
End chaining.

Lemma setkey_sha1_spec {C : Type} `{!block64cipher C} junk key (c : C) :
  length junk = 64%nat -> Z.of_nat (length key) + 64 < 2 ^ 64 -> setkey_sha1 junk key c = b64_setkey (fips_sha1 key ++ key) c.
Proof.
  intros Hj Hk. unfold setkey_sha1.
  destruct (update_spec fips_compress (fun _ => True) newstate _ [] key (sha1ctx_new_rep junk Hj)) as (x & -> & R); [cbn [app]; lia|by left|].
  cbn [mbind outcome_bind app] in *. destruct (final_spec x _ R Hk) as (x' & ->). done.
Qed.

(** ** Properties *)
(** Blowfish with any key, set by [setkey] or by [setkey_sha1] (which puts
    the key's SHA-1 hash in front of it): no access is out of bounds, and
    [decipher_bytes] undoes [encipher_bytes] on every block of eight bytes. *)
Theorem blowfish_roundtrip junk key c0 b :
  Forall is_byte key -> length junk = 64%nat -> Z.of_nat (length key) + 64 < 2 ^ 64 -> length b = 8%nat -> Forall is_byte b ->
  (exists c e, bf_setkey key c0 = Done c /\ bf_encipher_bytes c b = Done e /\ length e = 8%nat /\ bf_decipher_bytes c e = Done b)
  /\ (exists c e, setkey_sha1 junk key c0 = Done c /\ bf_setkey (fips_sha1 key ++ key) c0 = Done c
        /\ bf_encipher_bytes c b = Done e /\ length e = 8%nat /\ bf_decipher_bytes c e = Done b).
Proof.
  intros Hk Hj Hl Lb Hb. assert (Hs : forall k, Forall is_byte k -> exists c e, bf_setkey k c0 = Done c
    /\ bf_encipher_bytes c b = Done e /\ length e = 8%nat /\ bf_decipher_bytes c e = Done b).
  { intros k Hk'. destruct (bf_setkey_ok k c0 Hk') as (c & E & Hc). destruct (block_bytes_inverse bf_ok c b Hc Lb Hb) as (e & E1 & L1 & _ & E2).
    by exists c, e. }
  split; [by apply Hs|]. destruct (Hs (fips_sha1 key ++ key)) as (c & e & E & E1 & L1 & E2).
  { apply Forall_app. split; [apply fips_sha1_bytes|done]. }
  exists c, e. rewrite (setkey_sha1_spec junk key c0 Hj Hl). cbn [b64_setkey blowfish_cipher]. rewrite E. done.
Qed.

Lemma blowfish_roundtrip_witness :
  exists c e, bf_setkey [1; 2; 3] initstate = Done c /\ bf_encipher_bytes c [8; 7; 6; 5; 4; 3; 2; 1] = Done e
    /\ bf_decipher_bytes c e = Done [8; 7; 6; 5; 4; 3; 2; 1].
Proof.
  destruct (blowfish_roundtrip (replicate 64 0) [1; 2; 3] initstate [8; 7; 6; 5; 4; 3; 2; 1]) as [(c & e & E & E1 & _ & E2) _];
    [repeat apply Forall_cons_2; try apply Forall_nil_2; unfold is_byte; lia|reflexivity|cbn [length]; lia|reflexivity
    |repeat apply Forall_cons_2; try apply Forall_nil_2; unfold is_byte; lia|].
  exists c, e. split; [exact E|]. split; [exact E1|exact E2].
Defined.

(** Cipher block chaining with any cipher that keeps the promises of
    [block64cipher].  A message whose length is a multiple of eight is
    enciphered to as many bytes, and [decipher_bytes] from the same
    initialization vector gives it back and leaves the vector where
    [encipher_bytes] left it, so that the next messages agree too; other
    lengths fail the assertion.  The functions on words invert each other in
    the same way. *)
Theorem cbc_roundtrip {C : Type} `{!block64cipher C} (ok : C -> Prop) `{!Block64OK C ok} (v : cbc64iv C) data words :
  ok (cbc_c v) -> is_u32 (ivl v) -> is_u32 (ivr v) -> Forall is_byte data -> Forall is_u32 words -> Nat.Even (length words) ->
  (exists ct v', encipher_words v words = Done (ct, v') /\ length ct = length words /\ decipher_words v ct = Done (words, v'))
  /\ if (length data mod 8 =? 0)%nat then
    exists ct v', cbc_encipher_bytes v data = Done (ct, v') /\ length ct = length data /\ cbc_decipher_bytes v ct = Done (data, v')
      /\ cbc_c v' = cbc_c v /\ is_u32 (ivl v') /\ is_u32 (ivr v')
  else cbc_encipher_bytes v data = Panic /\ cbc_decipher_bytes v data = Panic.
Proof.
  intros Hc Hl Hr Hb Hw He. split; [by apply (cbc_words_inverse ok)|]. unfold cbc_encipher_bytes, cbc_decipher_bytes. rewrite len_mod8. destruct (Nat.eqb_spec (length data mod 8) 0) as [E|E].
  - rewrite E. cbn [assertM mbind outcome_bind Z.eqb Z.of_nat]. set (n := (length data / 8)%nat).
    assert (Hn : length data = (8 * n)%nat) by (unfold n; pose proof (Nat.div_mod (length data) 8 ltac:(lia)); lia).
    assert (En : Z.to_nat (Z.of_nat (length data) / 8) = n) by (unfold n; rewrite <- (Nat2Z.inj_div _ 8); apply Nat2Z.id).
    destruct (cbc_loops ok n (cbc_c v) data (ivl v) (ivr v) Hc Hn Hb Hl Hr) as (ct & l' & r' & E1 & L1 & U1 & U2 & E2). rewrite En, E1.
    cbn [mbind outcome_bind]. exists ct, (mkcbc (cbc_c v) l' r'). split; [done|]. split; [done|]. rewrite len_mod8, L1, E.
    cbn [assertM mbind outcome_bind Z.eqb Z.of_nat]. rewrite En, E2. done.
  - destruct (Z.eqb_spec (Z.of_nat (length data mod 8)) 0); [lia|]. done.
Qed.

Lemma cbc_roundtrip_witness :
  exists c ct v', bf_setkey [1; 2; 3] initstate = Done c /\ cbc_encipher_bytes (mkcbc c 5 6) (seqZ 0 16) = Done (ct, v')
    /\ cbc_decipher_bytes (mkcbc c 5 6) ct = Done (seqZ 0 16, v').
Proof.
  destruct (bf_setkey_ok [1; 2; 3] initstate) as (c & E & Hc); [repeat apply Forall_cons_2; try apply Forall_nil_2; unfold is_byte; lia|].
  destruct (cbc_roundtrip bf_ok (mkcbc c 5 6) (seqZ 0 16) [7; 8] Hc) as [_ (ct & v' & E1 & _ & E2 & _)];
    [unfold is_u32; cbn [ivl]; lia|unfold is_u32; cbn [ivr]; lia|apply Forall_seqZ; unfold is_byte; lia|repeat constructor; lia|by exists 1%nat|].
  exists c, ct, v'. split; [exact E|]. split; [exact E1|exact E2].
Defined.
