(* ===== verification/Convertint.v ===== *)
(** * Numbers from text: [async/convertint.C] and [convertint] of [async/parseopt.h]

    A [char *] is the list of the characters from there on.  Arithmetic on
    [int64_t] that overflows is undefined, so its result is [Wild]. *)
From Stdlib Require Import ZArith Lia.
From stdpp Require Import prelude strings.
From S2P Require Import Prelude.

Definition max64 : Z := 0x7fffffffffffffff.
Definition chk64 (x : Z) : outcome Z := if (- max64 - 1 <=? x) && (x <=? max64) then Done x else Wild.

Definition isspace (c : Z) : bool := ((9 <=? c) && (c <=? 13)) || (c =? 32).
Definition isdigit (c : Z) : bool := (48 <=? c) && (c <=? 57).
Definition isupper (c : Z) : bool := (65 <=? c) && (c <=? 90).
Definition isalpha (c : Z) : bool := isupper c || ((97 <=? c) && (c <=? 122)).

(** [*s++] *)
Definition next_char (s : list Z) : outcome (Z * list Z) := match s with c :: s => Done (c, s) | [] => Wild end.

Fixpoint skip_space (s : list Z) : outcome (Z * list Z) :=
  match s with
  | [] => Wild
  | c :: s => if isspace c then skip_space s else Done (c, s)
  end.

(** The value of a digit or letter. *)
Definition digit (c : Z) : option Z :=
  if isdigit c then Some (c - 48)
  else if isalpha c then Some (c - (if isupper c then 65 - 10 else 97 - 10))
  else None.

(** [any] is 0, 1 or -1; the place where the loop stops is returned. *)
Fixpoint strtoi64_loop (s : list Z) (c base cutoff cutlim : Z) (neg : bool) (any acc : Z) : outcome (Z * Z * list Z) :=
  match digit c with
  | None => Done (acc, any, c :: s)
  | Some d =>
      if base <=? d then Done (acc, any, c :: s)
      else
        r ← (if any <? 0 then Done (acc, any)
             else if neg then
               if (acc <? cutoff) || ((acc =? cutoff) && (cutlim <? d)) then Done (- max64 - 1, -1)
               else a ← chk64 (acc * base); a ← chk64 (a - d); Done (a, 1)
             else
               if (cutoff <? acc) || ((acc =? cutoff) && (cutlim <? d)) then Done (max64, -1)
               else a ← chk64 (acc * base); a ← chk64 (a + d); Done (a, 1));
        let '(acc, any) := r : Z * Z in
        match s with
        | [] => Wild
        | c :: s => strtoi64_loop s c base cutoff cutlim neg any acc
        end
  end.

(** The number and what follows it ([*endptr]). *)
Definition strtoi64 (nptr : list Z) (base : Z) : outcome (Z * list Z) :=
  x ← skip_space nptr;
  let '(c, s) := x : Z * list Z in
  x ← (if c =? 45 then y ← next_char s; Done (y, true)
       else y ← (if c =? 43 then next_char s else Done (c, s)); Done (y, false));
  let '((c, s), neg) := x : (Z * list Z) * bool in
  x ← (if ((base =? 0) || (base =? 16)) && (c =? 48) then
         y ← rd s 0;
         if (y =? 120) || (y =? 88) then z ← rd s 1; Done (z, drop 2 s, 16) else Done (c, s, base)
       else Done (c, s, base));
  let '(c, s, base) := x : Z * list Z * Z in
  let base := if base =? 0 then (if c =? 48 then 8 else 10) else base in
  let cutoff := if neg : bool then - max64 - 1 else max64 in
  let cutlim := Z.rem cutoff base in
  let cutoff := Z.quot cutoff base in
  let '(cutlim, cutoff) :=
    if neg : bool then
      let '(cutlim, cutoff) := if 0 <? cutlim then (cutlim - base, cutoff + 1) else (cutlim, cutoff) in (- cutlim, cutoff)
    else (cutlim, cutoff) in
  r ← strtoi64_loop s c base cutoff cutlim neg 0 0;
  let '(acc, any, e) := r : Z * Z * list Z in
  Done (acc, if any =? 0 then nptr else e).

(** [convertint] for [int64_t]; the text ends with a NUL. *)
Definition convertint (cp : list Z) : outcome (option Z) :=
  c ← rd cp 0;
  if c =? 0 then Done None
  else
    r ← strtoi64 cp 0;
    let '(res, e) := r : Z * list Z in
    c ← rd e 0;
    if negb (c =? 0) then Done None else Done (Some res).

(** ** The value of a string of digits *)
Definition digits_in (base : Z) (cs : list Z) : Prop := Forall (fun c => exists d, digit c = Some d /\ 0 <= d < base) cs.
Definition digit_val (c : Z) : Z := default 0 (digit c).
Definition value (base acc : Z) (cs : list Z) : Z := fold_left (fun a c => a * base + digit_val c) cs acc.

(** [x] ends a number in [base]. *)
Definition ends (base x : Z) : Prop := match digit x with None => True | Some d => base <= d end.

Definition clamp64 (x : Z) : Z := Z.max (- max64 - 1) (Z.min max64 x).

Lemma value_mono base acc cs : 0 < base -> 0 <= acc -> digits_in base cs -> acc <= value base acc cs.
Proof.
  intros Hb. revert acc. induction cs as [|c cs IH]; intros acc Ha Hd; [done|]. apply Forall_cons in Hd as [(d & E & Hd) Hds].
  change (value base acc (c :: cs)) with (value base (acc * base + digit_val c) cs).
  assert (Ed : digit_val c = d) by (unfold digit_val; by rewrite E). rewrite Ed.
  assert (acc <= acc * base + d) by nia. pose proof (IH (acc * base + d) ltac:(lia) Hds). lia.
Qed.

Lemma chk64_ok x : - max64 - 1 <= x <= max64 -> chk64 x = Done x.
Proof. intros Hx. unfold chk64. destruct (Z.leb_spec (- max64 - 1) x), (Z.leb_spec x max64); try lia. done. Qed.

(** After an overflow the digits are skipped. *)
Lemma loop_overflow cs x rest c base cutoff cutlim neg acc :
  digits_in base (c :: cs) -> ends base x ->
  strtoi64_loop (cs ++ x :: rest) c base cutoff cutlim neg (-1) acc = Done (acc, -1, x :: rest).
Proof.
  intros Hd Hx. revert c Hd. induction cs as [|c' cs IH]; intros c Hd; apply Forall_cons in Hd as [(d & E & Hd) Hds].
  - cbn [app strtoi64_loop]. rewrite E. destruct (Z.leb_spec base d); [lia|]. cbn [Z.ltb Z.compare mbind outcome_bind].
    destruct rest as [|y rest]; cbn [strtoi64_loop]; unfold ends in Hx; destruct (digit x) as [dx|]; try done;
      destruct (Z.leb_spec base dx); done || lia.
  - cbn [app strtoi64_loop]. rewrite E. destruct (Z.leb_spec base d); [lia|]. cbn [Z.ltb Z.compare mbind outcome_bind]. by apply IH.
Qed.

Lemma loop_end x rest base cutoff cutlim neg any acc :
  ends base x -> strtoi64_loop rest x base cutoff cutlim neg any acc = Done (acc, any, x :: rest).
Proof.
  intros Hx. unfold ends in Hx. destruct rest; cbn [strtoi64_loop]; destruct (digit x) as [d|]; try done; destruct (Z.leb_spec base d); done || lia.
Qed.

(** The bound that a further digit may not pass. *)
Lemma cutoff_spec m base acc d :
  0 < base -> 0 <= m -> 0 <= acc -> 0 <= d < base ->
  ((m / base <? acc) || ((acc =? m / base) && (m mod base <? d))) = (m <? acc * base + d).
Proof.
  intros Hb Hm Ha Hd. pose proof (Z.div_mod m base ltac:(lia)). pose proof (Z.mod_pos_bound m base Hb).
  destruct (Z.ltb_spec (m / base) acc), (Z.eqb_spec acc (m / base)), (Z.ltb_spec (m mod base) d), (Z.ltb_spec m (acc * base + d)); cbn [orb andb]; try done; nia.
Qed.

Lemma loop_pos cs x rest c base any acc :
  2 <= base -> digits_in base (c :: cs) -> ends base x -> 0 <= acc <= max64 -> 0 <= any ->
  exists any', strtoi64_loop (cs ++ x :: rest) c base (max64 / base) (max64 mod base) false any acc
    = Done (Z.min max64 (value base acc (c :: cs)), any', x :: rest) /\ any' <> 0.
Proof.
  intros Hb Hd Hx. revert c any acc Hd. induction cs as [|c' cs IH]; intros c any acc Hd Ha Hany; pose proof Hd as Hd'; apply Forall_cons in Hd as [(d & E & Hd) Hds].
  - cbn [app strtoi64_loop]. rewrite E. destruct (Z.leb_spec base d); [lia|]. destruct (Z.ltb_spec any 0); [lia|].
    rewrite cutoff_spec by (done || lia). cbn [value fold_left]. assert (Ed : digit_val c = d) by (unfold digit_val; by rewrite E). rewrite Ed.
    destruct (Z.ltb_spec max64 (acc * base + d)).
    + cbn [mbind outcome_bind]. rewrite loop_end by done. exists (-1). split; [|lia]. do 3 f_equal. lia.
    + rewrite chk64_ok by nia. cbn [mbind outcome_bind]. rewrite chk64_ok by nia. cbn [mbind outcome_bind]. rewrite loop_end by done. exists 1.
      split; [|lia]. do 3 f_equal. lia.
  - cbn [app strtoi64_loop]. rewrite E. destruct (Z.leb_spec base d); [lia|]. destruct (Z.ltb_spec any 0); [lia|].
    rewrite cutoff_spec by (done || lia). change (value base acc (c :: c' :: cs)) with (value base (acc * base + digit_val c) (c' :: cs)).
    assert (Ed : digit_val c = d) by (unfold digit_val; by rewrite E). rewrite Ed. destruct (Z.ltb_spec max64 (acc * base + d)).
    + cbn [mbind outcome_bind]. rewrite loop_overflow by done. exists (-1). split; [|lia]. do 3 f_equal.
      pose proof (value_mono base (acc * base + d) (c' :: cs) ltac:(lia) ltac:(nia) Hds). lia.
    + rewrite chk64_ok by nia. cbn [mbind outcome_bind]. rewrite chk64_ok by nia. cbn [mbind outcome_bind]. apply IH; [done|nia|lia].
Qed.

Lemma loop_neg cs x rest c base any acc :
  2 <= base -> digits_in base (c :: cs) -> ends base x -> 0 <= acc <= max64 + 1 -> 0 <= any ->
  exists any', strtoi64_loop (cs ++ x :: rest) c base (- ((max64 + 1) / base)) ((max64 + 1) mod base) true any (- acc)
    = Done (- Z.min (max64 + 1) (value base acc (c :: cs)), any', x :: rest) /\ any' <> 0.
Proof.
  assert (Hmax : 0 < max64) by done. intros Hb Hd Hx. revert c any acc Hd. induction cs as [|c' cs IH]; intros c any acc Hd Ha Hany; apply Forall_cons in Hd as [(d & E & Hd) Hds];
    assert (Ed : digit_val c = d) by (unfold digit_val; by rewrite E);
    assert (Ecut : ((- acc <? - ((max64 + 1) / base)) || ((- acc =? - ((max64 + 1) / base)) && ((max64 + 1) mod base <? d))) = (max64 + 1 <? acc * base + d))
      by (rewrite <- cutoff_spec by (done || lia); f_equal; [|f_equal];
          [destruct (Z.ltb_spec (- acc) (- ((max64 + 1) / base))), (Z.ltb_spec ((max64 + 1) / base) acc); done || lia
          |destruct (Z.eqb_spec (- acc) (- ((max64 + 1) / base))), (Z.eqb_spec acc ((max64 + 1) / base)); done || lia]).
  - cbn [app strtoi64_loop]. rewrite E. destruct (Z.leb_spec base d); [lia|]. destruct (Z.ltb_spec any 0); [lia|]. rewrite Ecut.
    cbn [value fold_left]. rewrite Ed. destruct (Z.ltb_spec (max64 + 1) (acc * base + d)).
    + cbn [mbind outcome_bind]. rewrite loop_end by done. exists (-1). split; [|lia]. do 3 f_equal. lia.
    + assert (0 <= acc * base) by nia. rewrite chk64_ok by lia. cbn [mbind outcome_bind]. rewrite chk64_ok by lia. cbn [mbind outcome_bind]. rewrite loop_end by done. exists 1.
      split; [|lia]. do 3 f_equal. lia.
  - cbn [app strtoi64_loop]. rewrite E. destruct (Z.leb_spec base d); [lia|]. destruct (Z.ltb_spec any 0); [lia|]. rewrite Ecut.
    change (value base acc (c :: c' :: cs)) with (value base (acc * base + digit_val c) (c' :: cs)). rewrite Ed.
    destruct (Z.ltb_spec (max64 + 1) (acc * base + d)).
    + cbn [mbind outcome_bind]. rewrite loop_overflow by done. exists (-1). split; [|lia]. do 3 f_equal.
      pose proof (value_mono base (acc * base + d) (c' :: cs) ltac:(lia) ltac:(nia) Hds). lia.
    + assert (0 <= acc * base) by nia. rewrite chk64_ok by lia. cbn [mbind outcome_bind]. rewrite chk64_ok by lia. cbn [mbind outcome_bind].
      replace (- acc * base - d) with (- (acc * base + d)) by lia. apply IH; [done|nia|lia].
Qed.

(** ** The whole function *)
(** White space, a sign or none. *)
Definition sign_chars (neg : bool) (sg : list Z) : Prop := sg = (if neg then [45] else []) \/ (neg = false /\ sg = [43]).

Lemma skip_space_app ws c s : Forall (fun c => isspace c = true) ws -> isspace c = false -> skip_space (ws ++ c :: s) = Done (c, s).
Proof. intros Hw Hc. induction Hw as [|w ws Hw Hws IH]; cbn [app skip_space]; [by rewrite Hc|by rewrite Hw]. Qed.

Lemma digit_char c d : digit c = Some d -> isspace c = false /\ c <> 45 /\ c <> 43.
Proof.
  unfold digit, isspace, isalpha, isdigit, isupper. intros H. repeat case_match; try done; split_and!; try lia;
    repeat match goal with H : context [?a <=? ?b] |- _ => destruct (Z.leb_spec a b) end; cbn in *; try done; lia.
Qed.

Lemma cutoffs_pos base : 2 <= base -> Z.rem max64 base = max64 mod base /\ Z.quot max64 base = max64 / base.
Proof. intros Hb. split; [apply Z.rem_mod_nonneg|apply Z.quot_div_nonneg]; done || lia. Qed.

Lemma cutoffs_neg base :
  2 <= base -> Z.rem (- max64 - 1) base = - ((max64 + 1) mod base) /\ Z.quot (- max64 - 1) base = - ((max64 + 1) / base).
Proof.
  intros Hb. replace (- max64 - 1) with (- (max64 + 1)) by lia. rewrite Z.rem_opp_l, Z.quot_opp_l by lia.
  split; f_equal; [apply Z.rem_mod_nonneg|apply Z.quot_div_nonneg]; done || lia.
Qed.

(** The base that is used for a base argument [b]. *)
Definition base_for (b : Z) (cs : list Z) (x base : Z) : Prop :=
  (b = base /\ (base = 16 -> cs = [48] -> x <> 120 /\ x <> 88)) \/ (b = 0 /\ base = 10 /\ hd 0 cs <> 48)
  \/ (b = 0 /\ base = 8 /\ hd 0 cs = 48 /\ (cs = [48] -> x <> 120 /\ x <> 88)).

Lemma strtoi64_digits ws sg neg cs x rest b base :
  Forall (fun c => isspace c = true) ws -> sign_chars neg sg -> cs <> [] -> 2 <= base -> base_for b cs x base ->
  digits_in base cs -> ends base x ->
  strtoi64 (ws ++ sg ++ cs ++ x :: rest) b = Done (clamp64 (if neg then - value base 0 cs else value base 0 cs), x :: rest).
Proof.
  intros Hw Hs Hne Hb Hbase Hd Hx. destruct cs as [|c cs]; [done|]. pose proof Hd as Hd0. apply Forall_cons in Hd as [(d & E & Hd) Hds].
  destruct (digit_char c d E) as (N1 & N2 & N3).
  assert (E1 : (y ← skip_space (ws ++ sg ++ (c :: cs) ++ x :: rest); let '(c, s) := y : Z * list Z in
      (if c =? 45 then y ← next_char s; Done (y, true) else y ← (if c =? 43 then next_char s else Done (c, s)); Done (y, false)))
    = Done ((c, cs ++ x :: rest), neg)).
  { destruct Hs as [->|[-> ->]]; [destruct neg|]; cbn [app].
    - by rewrite skip_space_app.
    - rewrite skip_space_app by done. cbn [mbind outcome_bind]. destruct (Z.eqb_spec c 45), (Z.eqb_spec c 43); done.
    - by rewrite skip_space_app. }
  unfold strtoi64. destruct (skip_space _) as [[c0 s0]| | |]; try done. cbn [mbind outcome_bind] in E1 |- *. rewrite E1. cbn [mbind outcome_bind]. clear E1.
  assert (E2 : (if ((b =? 0) || (b =? 16)) && (c =? 48) then y ← rd (cs ++ x :: rest) 0;
      if (y =? 120) || (y =? 88) then z ← rd (cs ++ x :: rest) 1; Done (z, drop 2 (cs ++ x :: rest), 16) else Done (c, cs ++ x :: rest, b)
      else Done (c, cs ++ x :: rest, b)) = Done (c, cs ++ x :: rest, b)).
  { assert (Hnox : base <= 16 -> (cs = [] -> x <> 120 /\ x <> 88) ->
      (y ← rd (cs ++ x :: rest) 0; if (y =? 120) || (y =? 88) then z ← rd (cs ++ x :: rest) 1; Done (z, drop 2 (cs ++ x :: rest), 16)
       else Done (c, cs ++ x :: rest, b)) = Done (c, cs ++ x :: rest, b)).
    { intros Hle H. destruct cs as [|c2 cs]; cbn [app]; rewrite rd_head; cbn [mbind outcome_bind].
      - destruct (H eq_refl). destruct (Z.eqb_spec x 120); [done|]. by destruct (Z.eqb_spec x 88).
      - apply Forall_cons in Hds as [(d2 & Ed2 & Hd2) _]. destruct (Z.eqb_spec c2 120) as [->|]; [cbn in Ed2; injection Ed2 as <-; lia|].
        destruct (Z.eqb_spec c2 88) as [->|]; [cbn in Ed2; injection Ed2 as <-; lia|]. done. }
    destruct Hbase as [[-> H16]|[(-> & -> & H10)|(-> & -> & H8 & H8')]].
    - destruct (Z.eqb_spec base 0); [lia|]. destruct (Z.eqb_spec base 16) as [E16|]; [|done]. destruct (Z.eqb_spec c 48) as [->|]; [|done]. cbn [orb andb].
      apply Hnox; [lia|]. intros ->. by apply H16.
    - cbn in H10. destruct (Z.eqb_spec c 48); [done|]. done.
    - cbn in H8. subst c. cbn [Z.eqb orb andb Pos.eqb]. apply Hnox; [lia|]. intros ->. by apply H8'. }
  rewrite E2. cbn [mbind outcome_bind]. clear E2.
  assert (E3 : (if b =? 0 then if c =? 48 then 8 else 10 else b) = base).
  { destruct Hbase as [[-> _]|[(-> & -> & H10)|(-> & -> & H8 & _)]]; [destruct (Z.eqb_spec base 0); [lia|done]| |cbn in H8; by subst c].
    cbn in H10. by destruct (Z.eqb_spec c 48). }
  rewrite E3. clear E3. pose proof (value_mono base 0 (c :: cs) ltac:(lia) ltac:(lia) Hd0) as Hv. assert (Hmax : 0 < max64) by done.
  destruct neg.
  - destruct (cutoffs_neg base Hb) as [-> ->]. pose proof (Z.mod_pos_bound (max64 + 1) base ltac:(lia)).
    destruct (Z.ltb_spec 0 (- ((max64 + 1) mod base))); [lia|]. rewrite Z.opp_involutive.
    destruct (loop_neg cs x rest c base 0 0 Hb Hd0 Hx) as (any & El & Hany); [lia|lia|]. change (- 0) with 0 in El. rewrite El. cbn [mbind outcome_bind].
    destruct (Z.eqb_spec any 0); [done|]. do 2 f_equal. unfold clamp64. lia.
  - destruct (cutoffs_pos base Hb) as [-> ->]. destruct (loop_pos cs x rest c base 0 0 Hb Hd0 Hx) as (any & El & Hany); [lia|lia|]. rewrite El.
    cbn [mbind outcome_bind]. destruct (Z.eqb_spec any 0); [done|]. do 2 f_equal. unfold clamp64. lia.
Qed.

(** ** Properties *)
(** [strtoi64] reads white space, a sign and all the digits that follow
    and gives the number, or the nearest number of 64 bits when it does not
    fit; the intermediate results do not overflow.  It returns the place behind
    the digits.  With base argument 0, digits that start with 0 are octal and others
    decimal. *)
Theorem strtoi64_saturates ws sg neg cs x rest b base :
  Forall (fun c => isspace c = true) ws -> sign_chars neg sg -> cs <> [] -> 2 <= base -> base_for b cs x base ->
  digits_in base cs -> ends base x ->
  strtoi64 (ws ++ sg ++ cs ++ x :: rest) b = Done (clamp64 (if neg then - value base 0 cs else value base 0 cs), x :: rest).
Proof. apply strtoi64_digits. Qed.

(** Eighty nines, with a sign. *)
Lemma strtoi64_saturates_witness :
  strtoi64 ([32; 9] ++ [45] ++ replicate 80 57 ++ 0 :: []) 0 = Done (-9223372036854775808, [0]).
Proof.
  rewrite (strtoi64_saturates [32; 9] [45] true (replicate 80 57) 0 [] 0 10); [vm_compute; reflexivity|by repeat constructor|by left|done|lia| | |done].
  - right. left. split_and!; done.
  - repeat (apply Forall_cons_2; [exists 9; split; [reflexivity|lia]|]). apply Forall_nil_2.
Defined.

(** ** Printing and reading back *)
Fixpoint decimal_loop (fuel : nat) (n : Z) (acc : list Z) : list Z :=
  let acc := 48 + n mod 10 :: acc in
  if n <? 10 then acc else match fuel with O => acc | S fuel => decimal_loop fuel (n / 10) acc end.

(** A number that is not negative and has at most twenty digits, printed. *)
Definition decimal (n : Z) : list Z := decimal_loop 20 n [].

Lemma digit_48 k : 0 <= k < 10 -> digit (48 + k) = Some k.
Proof. intros Hk. unfold digit, isdigit. destruct (Z.leb_spec 48 (48 + k)), (Z.leb_spec (48 + k) 57); try lia. cbn [andb]. f_equal. lia. Qed.

Lemma decimal_loop_spec fuel n acc :
  0 <= n < 10 * 10 ^ Z.of_nat fuel -> digits_in 10 acc ->
  digits_in 10 (decimal_loop fuel n acc) /\ value 10 0 (decimal_loop fuel n acc) = value 10 n acc
  /\ (decimal_loop fuel n acc <> []) /\ (n <> 0 -> hd 0 (decimal_loop fuel n acc) <> 48).
Proof.
  revert n acc. induction fuel as [|fuel IH]; intros n acc Hn Ha; cbn [decimal_loop]; pose proof (Z.mod_pos_bound n 10 ltac:(lia)) as Hm.
  { assert (n mod 10 = n) by (apply Z.mod_small; cbn in Hn; lia).
    assert (Hdg : digits_in 10 (48 + n mod 10 :: acc)) by (apply Forall_cons; split; [exists (n mod 10); split; [by apply digit_48|done]|done]).
    destruct (n <? 10); (split; [done|]); (split; [|split; [done|cbn [hd]; lia]]); cbn [value fold_left]; unfold digit_val at 2;
      rewrite digit_48 by done; unfold value; f_equal; cbn; lia. }
  assert (Hdg : digits_in 10 (48 + n mod 10 :: acc)) by (apply Forall_cons; split; [exists (n mod 10); split; [by apply digit_48|done]|done]).
  pose proof (Z.div_mod n 10 ltac:(lia)) as Hdm.
  destruct (Z.ltb_spec n 10).
  - assert (n mod 10 = n) by (apply Z.mod_small; lia). split; [done|]. split; [|split; [done|cbn [hd]; lia]].
    cbn [value fold_left]. unfold digit_val at 2. rewrite digit_48 by done. unfold value. f_equal. cbn. lia.
  - destruct (IH (n / 10) (48 + n mod 10 :: acc)) as (I1 & I2 & I3 & I4); [|done|].
    { split; [apply Z.div_pos; lia|]. apply Z.div_lt_upper_bound; [lia|]. rewrite Nat2Z.inj_succ, Z.pow_succ_r in Hn by lia. lia. }
    split; [done|]. split; [|split; [done|intros _; apply I4; assert (1 <= n / 10) by (apply Z.div_le_lower_bound; lia); lia]].
    rewrite I2. cbn [value fold_left]. unfold digit_val at 2. rewrite digit_48 by done. unfold value. f_equal. cbn. lia.
Qed.

Lemma strtoi64_decimal n x rest :
  0 <= n <= max64 -> ends 10 x -> x <> 120 -> x <> 88 -> ends 8 x -> strtoi64 (decimal n ++ x :: rest) 0 = Done (n, x :: rest).
Proof.
  intros Hn Hx N1 N2 H8. destruct (decimal_loop_spec 20 n []) as (D1 & D2 & D3 & D4); [cbn; unfold max64 in *; lia|constructor|].
  fold (decimal n) in *. destruct (Z.eq_dec n 0) as [->|Hne].
  - apply (strtoi64_digits [] [] false [48] x rest 0 8); [constructor|by left|done|lia| | |done].
    + right. right. by split_and!.
    + apply Forall_cons. split; [exists 0; split; [done|lia]|constructor].
  - pose proof (strtoi64_digits [] [] false (decimal n) x rest 0 10 ltac:(constructor) ltac:(by left) D3 ltac:(lia)) as E. cbn [app] in E. rewrite E; [|right; left|done|done].
    + rewrite D2. cbn [value fold_left]. do 2 f_equal. unfold clamp64, max64 in *. lia.
    + split_and!; [done|done|by apply D4].
Qed.
