(* ===== verification/Password.v ===== *)
(** * Hashed passwords: [crypt/password.C], and [hashpwd] of [crypt/blowfish.C]

    A [str] is its bytes.  The match with the regular expression [saltrx] is
    written out for that expression.  [jb] and [jo] are the memory of the hash
    functions and of the result, random bytes are arguments. *)
From Stdlib Require Import ZArith Lia.
From stdpp Require Import prelude strings.
From S2P Require Import Prelude Armor Serial Mdblock Sha1 Sha1oracle Pad Blowfish BlowfishProps Convertint.

Definition dollar : Z := 36.

(** ** [password.C] *)
Definition hashptext (jb jo : list Z) (src : list Z) : outcome (list Z) :=
  oracle_lookup jb jo 0 (Z.of_nat (length jo)) hashsize src.

(** A [u_int] printed as an [int]. *)
Definition print_int (n : Z) : list Z := if n <? 2 ^ 31 then decimal n else 45 :: decimal (2 ^ 32 - n).

Definition pw_armorsalt (cost : Z) (bsalt ptext : list Z) : outcome (list Z) :=
  a ← armor64_str bsalt;
  Done (print_int cost ++ [dollar] ++ a ++ [dollar] ++ ptext).

Definition is_a64 (c : Z) : bool := isalpha c || isdigit c || (c =? 43) || (c =? 47).

(** The longest prefix whose characters satisfy [f], and the rest. *)
Fixpoint span (f : Z -> bool) (s : list Z) : list Z * list Z :=
  match s with
  | [] => ([], [])
  | c :: s' => if f c then let '(a, b) := span f s' in (c :: a, b) else ([], s)
  end.

(** At most [n] equal signs. *)
Fixpoint span_eq (n : nat) (s : list Z) : list Z * list Z :=
  match n, s with
  | S n, c :: s' => if c =? c_eq then let '(a, b) := span_eq n s' in (c :: a, b) else ([], s)
  | _, _ => ([], s)
  end.

(** The last group and the end of the text: no newline, but for one at the
    end, which is not part of the match. *)
Definition match_rest (s : list Z) : option (list Z) :=
  let '(a, b) := span (fun c => negb (c =? 10)) s in
  match b with [] | [_] => Some a | _ => None end.

(** Digits, a dollar sign, characters of base 64 with at most two equal signs,
    a dollar sign, and the rest: the three groups of the match. *)
Definition saltrx (s : list Z) : option (list Z * list Z * list Z) :=
  let '(g1, s) := span isdigit s in
  match g1, s with
  | _ :: _, c :: s =>
      if c =? dollar then
        let '(a, s) := span is_a64 s in
        let '(e, s) := span_eq 2 s in
        match a, s with
        | _ :: _, c :: s => if c =? dollar then g3 ← match_rest s; Some (g1, a ++ e, g3) else None
        | _, _ => None
        end
      else None
  | _, _ => None
  end.

Definition pw_dearmorsalt (armor : list Z) : outcome (option (Z * list Z * list Z)) :=
  match saltrx armor with
  | None => Done None
  | Some (g1, g2, g3) =>
      s ← dearmor64_str g2;
      match s with
      | None => Done None
      | Some s =>
          c ← strtoi64 (g1 ++ [0]) 0;
          Done (Some (u32 c.1, s, g3))
      end
  end.

Fixpoint rawcrypt_loop (n : nat) (eksb : blowfish) (m : list Z) : outcome (list Z) :=
  match n with
  | 0%nat => Done m
  | S n =>
      x ← cbc_encipher_bytes (setiv (mkcbc eksb 0 0) 0 0) m;
      rawcrypt_loop n eksb (x.1)
  end.

(** [outsize + 7 & ~7] *)
Definition round8 (n : Z) : Z := 8 * ((n + 7) / 8).

Definition pw_dorawcrypt (jb : list Z) (junk : Z -> list Z) (ptext : list Z) (outsize : Z) (eksb : blowfish) : outcome (list Z) :=
  m ← hashptext jb (junk (round8 outsize)) ptext;
  rawcrypt_loop 64 eksb m.

Definition pw_rawcrypt (jb : list Z) (junk : Z -> list Z) (cost : Z) (pwd bsalt ptext : list Z) (outsize : Z) : outcome (list Z) :=
  let maxlen := 56 in
  let outsize := if outsize =? 0 then Z.of_nat (length ptext) else outsize in
  pwd ← (if maxlen <? Z.of_nat (length pwd) then
           h1 ← sha1_hash jb pwd;
           h2 ← sha1_hash jb h1;
           Done (h1 ++ h2)
         else Done pwd);
  eksb ← eksetkey cost pwd bsalt;
  pw_dorawcrypt jb junk ptext outsize eksb.

Definition pw_gensalt (rnd : list Z) (cost : Z) (ptext : list Z) : outcome (list Z) := pw_armorsalt cost rnd ptext.

Definition pw_getptext (salt : list Z) : option (list Z) := g ← saltrx salt; Some (g.2).

Definition pw_crypt (jb : list Z) (junk : Z -> list Z) (pwd salt : list Z) (outsize : Z) : outcome (option (list Z)) :=
  r ← pw_dearmorsalt salt;
  match r with
  | None => Done None
  | Some (cost, bsalt, ptext) => r ← pw_rawcrypt jb junk cost pwd bsalt ptext outsize; Done (Some r)
  end.

(** ** [eksblowfish::hashpwd] *)
Definition cryptmsg : list Z := chars "OrpheanBeholderScryDoubt".

(** What [hashpwd] finds in [saltstr]: the cost, and a salt if there is one of
    sixteen bytes.  [strtol] is [strtoi64] with base 10.  A [str] that is
    [NULL] has no length. *)
Definition parse_salt (saltstr : list Z) : outcome (Z * option (list Z)) :=
  r ← strtoi64 (saltstr ++ [0]) 10;
  let '(v, p) := r : Z * list Z in
  let c := u32 v in
  if bool_decide (p <> saltstr ++ [0]) && (c <=? 16) then
    x ← rd p 0;
    if x =? dollar then
      salt ← dearmor64 (drop 1 p) (-1);
      match salt with
      | None => Wild
      | Some salt => Done (c, if negb (Z.of_nat (length salt) =? 16) then None else Some salt)
      end
    else Done (c, None)
  else Done (5, None).

Fixpoint hash_loop (n : nat) (c : blowfish) (hpw : list Z) : outcome (list Z) :=
  match n with
  | 0%nat => Done hpw
  | S n =>
      a ← bf_encipher_bytes c (take 8 hpw);
      b ← bf_encipher_bytes c (take 8 (drop 8 hpw));
      d ← bf_encipher_bytes c (drop 16 hpw);
      hash_loop n c (a ++ b ++ d)
  end.

Definition hashpwd (rnd pwd : list Z) (saltstr : option (list Z)) : outcome (list Z) :=
  r ← match saltstr with None => Done (5, None) | Some s => parse_salt s end;
  let '(cost, salt) := r : Z * option (list Z) in
  let salt := default rnd salt in
  c ← eksetkey cost pwd salt;
  hpw ← hash_loop 64 c cryptmsg;
  a ← armor64_str salt;
  h ← armor64_str hpw;
  Done (decimal cost ++ [dollar] ++ a ++ [dollar] ++ h).

(** * Passwords are checked against what was stored *)
(** ** The text of a salt *)
Lemma span_stop f l c r : Forall (fun x => f x = true) l -> f c = false -> span f (l ++ c :: r) = (l, c :: r).
Proof. intros Hl Hc. induction Hl as [|x l Hx Hl IH]; cbn [app span]; [by rewrite Hc|by rewrite Hx, IH]. Qed.

Lemma span_all f l : Forall (fun x => f x = true) l -> span f l = (l, []).
Proof. intros Hl. induction Hl as [|x l Hx Hl IH]; cbn [span]; [done|by rewrite Hx, IH]. Qed.

Lemma armor64_text p : Forall is_byte p -> armor64_str p = Done (armor64_chars b2a64 p ++ armor64_pad (Z.of_nat (length p))).
Proof. intros Hp. unfold armor64_str, armor64. by rewrite armor64_done, armor64_loop_pad. Qed.

Lemma chars_a64 p : Forall is_byte p -> Forall (fun x => is_a64 x = true) (armor64_chars b2a64 p).
Proof.
  apply armor64_chars_all. intros v Hv.
  assert (H : forallb (fun v => is_a64 (tbl b2a64 v)) (seqZ 0 64) = true) by (vm_compute; reflexivity).
  rewrite forallb_forall in H. apply H, list_elem_of_In, elem_of_seqZ. lia.
Qed.

Lemma span_pad n r : span_eq 2 (armor64_pad n ++ dollar :: r) = (armor64_pad n, dollar :: r).
Proof. unfold armor64_pad. destruct (n mod 3 =? 1); [done|]. by destruct (n mod 3 =? 2). Qed.

Lemma digits_isdigit cs : digits_in 10 cs -> Forall (fun x => isdigit x = true) cs.
Proof.
  intros Hd. apply (Forall_impl _ _ _ Hd). intros c (d & E & Hr). unfold digit in E. destruct (isdigit c); [done|].
  unfold isalpha, isupper in E. destruct (Z.leb_spec 65 c), (Z.leb_spec c 90), (Z.leb_spec 97 c), (Z.leb_spec c 122); cbn in E; injection E as <- || done; lia.
Qed.

Lemma decimal_spec n : 0 <= n < 2 ^ 63 -> digits_in 10 (decimal n) /\ decimal n <> [].
Proof. intros Hn. destruct (decimal_loop_spec 20 n []) as (H1 & _ & H3 & _); [cbn; lia|constructor|]. done. Qed.

Lemma match_rest_line s : Forall (fun c => c <> 10) s -> match_rest s = Some s.
Proof.
  intros Hs. unfold match_rest. rewrite span_all; [done|]. apply (Forall_impl _ _ _ Hs). intros c Hc. by destruct (Z.eqb_spec c 10).
Qed.

Lemma chars_nonempty p : p <> [] -> armor64_chars b2a64 p <> [].
Proof. by destruct p as [|a [|b [|c p]]]. Qed.

Lemma saltrx_text n p s :
  0 <= n < 2 ^ 63 -> Forall is_byte p -> p <> [] -> Forall (fun c => c <> 10) s ->
  saltrx (decimal n ++ [dollar] ++ (armor64_chars b2a64 p ++ armor64_pad (Z.of_nat (length p))) ++ [dollar] ++ s)
  = Some (decimal n, armor64_chars b2a64 p ++ armor64_pad (Z.of_nat (length p)), s).
Proof.
  intros Hn Hp Hne Hs. destruct (decimal_spec n Hn) as [Hd Hdn]. unfold saltrx. cbn [app]. rewrite span_stop by (by apply digits_isdigit) || done.
  destruct (decimal n) as [|d0 ds]; [done|]. rewrite <- app_assoc. cbn [Z.eqb dollar Pos.eqb]. 
  assert (Ha : forall q r, span is_a64 (armor64_chars b2a64 p ++ armor64_pad q ++ dollar :: r) = (armor64_chars b2a64 p, armor64_pad q ++ dollar :: r)).
  { intros q r. unfold armor64_pad. destruct (q mod 3 =? 1); [|destruct (q mod 3 =? 2)]; cbn [app]; by apply span_stop; [apply chars_a64|]. }
  rewrite Ha, span_pad. pose proof (chars_nonempty p Hne). destruct (armor64_chars b2a64 p) as [|a0 al]; [done|].
  rewrite match_rest_line by done. done.
Qed.

Lemma dearmor64_str_text p :
  Forall is_byte p -> dearmor64_str (armor64_chars b2a64 p ++ armor64_pad (Z.of_nat (length p))) = Done (Some p).
Proof.
  intros Hp. rewrite <- armor64_loop_pad. unfold dearmor64_str. rewrite armor64len_armor64 by done. cbn [mbind outcome_bind].
  rewrite Z.eqb_refl. cbn [negb]. by apply dearmor64_armor64.
Qed.

Lemma dearmorsalt_armorsalt cost bsalt ptext :
  0 <= cost < 2 ^ 31 -> Forall is_byte bsalt -> bsalt <> [] -> Forall (fun c => c <> 10) ptext ->
  exists s, pw_armorsalt cost bsalt ptext = Done s /\ pw_dearmorsalt s = Done (Some (cost, bsalt, ptext)).
Proof.
  intros Hc Hb Hne Hp. unfold pw_armorsalt, print_int. rewrite armor64_text by done. cbn [mbind outcome_bind].
  destruct (Z.ltb_spec cost (2 ^ 31)); [|lia]. eexists. split; [done|]. unfold pw_dearmorsalt. rewrite saltrx_text by (done || lia).
  rewrite dearmor64_str_text by done. cbn [mbind outcome_bind]. rewrite strtoi64_decimal by (done || (unfold max64; lia)). cbn [mbind outcome_bind fst].
  rewrite u32_id by (unfold is_u32; lia). done.
Qed.

(** ** Hashing *)
Lemma putint_bytes v : Forall is_byte (putint v).
Proof. unfold putint. repeat apply Forall_cons_2; apply u8_byte || apply Forall_nil_2. Qed.

Lemma cbc_loop_bytes {C : Type} `{!block64cipher C} n (c : C) dp l r ct l' r' :
  cbc_encipher_bytes_loop n c dp l r = Done (ct, l', r') -> Forall is_byte ct.
Proof.
  revert dp l r ct l' r'. induction n as [|n IH]; intros dp l r ct l' r'; cbn [cbc_encipher_bytes_loop]; [intros [= <- _ _]; constructor|].
  destruct (getint dp); try done. cbn [mbind outcome_bind]. destruct (getint (drop 4 dp)); try done. cbn [mbind outcome_bind].
  destruct (b64_encipher c _ _) as [[x y]| | |]; try done. cbn [mbind outcome_bind].
  destruct (cbc_encipher_bytes_loop n c (drop 8 dp) x y) as [[[d l1] r1]| | |] eqn:E; try done. cbn [mbind outcome_bind].
  intros H. assert (ct = putint x ++ putint y ++ d) as -> by congruence. rewrite !Forall_app. split_and!; [apply putint_bytes|apply putint_bytes|by apply (IH _ _ _ _ _ _ E)].
Qed.

Lemma cbc_step c m k :
  bf_ok c -> length m = (8 * k)%nat -> Forall is_byte m ->
  exists m' v, cbc_encipher_bytes (mkcbc c 0 0) m = Done (m', v) /\ length m' = (8 * k)%nat /\ Forall is_byte m'.
Proof.
  intros Hc Hl Hm. unfold cbc_encipher_bytes. cbn [cbc_c ivl ivr]. rewrite len_mod8, Hl, Nat.mul_comm, Nat.Div0.mod_mul.
  cbn [assertM mbind outcome_bind Z.eqb Z.of_nat]. replace (Z.to_nat (Z.of_nat (k * 8) / 8)) with k by (rewrite Nat2Z.inj_mul, Z.div_mul by lia; lia).
  destruct (cbc_loops bf_ok k c m 0 0 Hc Hl Hm) as (ct & l' & r' & E & L & _); [unfold is_u32; lia|unfold is_u32; lia|]. rewrite E.
  cbn [mbind outcome_bind]. eexists ct, _. split; [done|]. split; [lia|]. by apply cbc_loop_bytes in E.
Qed.

Lemma rawcrypt_loop_ok n c m k :
  bf_ok c -> length m = (8 * k)%nat -> Forall is_byte m ->
  exists m', rawcrypt_loop n c m = Done m' /\ length m' = (8 * k)%nat /\ Forall is_byte m'.
Proof.
  intros Hc. revert m. induction n as [|n IH]; intros m Hl Hm; cbn [rawcrypt_loop]; [by exists m|]. unfold setiv. cbn [cbc_c].
  destruct (cbc_step c m k Hc Hl Hm) as (m1 & v & -> & L1 & B1). cbn [mbind outcome_bind fst]. by apply IH.
Qed.

Lemma block_step c b : bf_ok c -> length b = 8%nat -> Forall is_byte b -> exists e, bf_encipher_bytes c b = Done e /\ length e = 8%nat /\ Forall is_byte e.
Proof. intros Hc Hl Hb. destruct (block_bytes_inverse bf_ok c b Hc Hl Hb) as (e & E & L & B & _). by exists e. Qed.

Lemma hash_loop_ok n c m :
  bf_ok c -> length m = 24%nat -> Forall is_byte m -> exists m', hash_loop n c m = Done m' /\ length m' = 24%nat /\ Forall is_byte m'.
Proof.
  intros Hc. revert m. induction n as [|n IH]; intros m Hl Hm; cbn [hash_loop]; [by exists m|].
  destruct (block_step c (take 8 m) Hc) as (a & -> & La & Ba); [rewrite length_take; lia|by apply Forall_take|]. cbn [mbind outcome_bind].
  destruct (block_step c (take 8 (drop 8 m)) Hc) as (b & -> & Lb & Bb); [rewrite length_take, length_drop; lia|by apply Forall_take, Forall_drop|]. cbn [mbind outcome_bind].
  destruct (block_step c (drop 16 m) Hc) as (d & -> & Ld & Bd); [rewrite length_drop; lia|by apply Forall_drop|]. cbn [mbind outcome_bind].
  apply IH; [rewrite !length_app; lia|by rewrite !Forall_app].
Qed.

Lemma round8_spec n : 0 <= n -> exists k, round8 n = Z.of_nat (8 * k) /\ n <= round8 n < n + 8.
Proof.
  intros Hn. exists (Z.to_nat ((n + 7) / 8)). unfold round8. pose proof (Z.div_mod (n + 7) 8 ltac:(lia)). pose proof (Z.mod_pos_bound (n + 7) 8 ltac:(lia)).
  split; [|lia]. assert (0 <= (n + 7) / 8) by (apply Z.div_pos; lia). lia.
Qed.

Lemma pw_rawcrypt_ok jb junk cost pwd bsalt ptext outsize :
  length jb = 64%nat -> (forall n, 0 <= n -> Z.of_nat (length (junk n)) = n) -> cost <= 32 -> Forall is_byte pwd -> Forall is_byte bsalt ->
  bsalt <> [] -> Z.of_nat (length pwd) < 2 ^ 62 -> Z.of_nat (length ptext) < 2 ^ 62 -> 0 <= outsize < 2 ^ 62 ->
  exists r, pw_rawcrypt jb junk cost pwd bsalt ptext outsize = Done r
    /\ Z.of_nat (length r) = round8 (if outsize =? 0 then Z.of_nat (length ptext) else outsize).
Proof.
  intros Hj Hjunk Hc Hp Hb Hne Lp Lt Ho. unfold pw_rawcrypt. set (os := if outsize =? 0 then _ else outsize).
  assert (Hos : 0 <= os < 2 ^ 62) by (unfold os; destruct (outsize =? 0); lia). clearbody os.
  assert (exists p, (if 56 <? Z.of_nat (length pwd) then h1 ← sha1_hash jb pwd; h2 ← sha1_hash jb h1; Done (h1 ++ h2) else Done pwd) = Done p /\ Forall is_byte p) as (p & -> & Bp).
  { destruct (Z.ltb_spec 56 (Z.of_nat (length pwd))); [|by exists pwd]. rewrite sha1_hash_ok by (done || lia). cbn [mbind outcome_bind].
    rewrite sha1_hash_ok by (done || rewrite fips_sha1_length; lia). cbn [mbind outcome_bind]. eexists. split; [done|].
    apply Forall_app; split; apply fips_sha1_bytes. }
  cbn [mbind outcome_bind]. destruct (eksetkey_ok cost p bsalt Bp Hb) as (c & -> & Hok); [by destruct bsalt; [done|cbn; lia]|done|]. cbn [mbind outcome_bind].
  unfold pw_dorawcrypt, hashptext. destruct (round8_spec os) as (k & Ek & Hk); [lia|].
  assert (Lj : Z.of_nat (length (junk (round8 os))) = round8 os) by (apply Hjunk; lia).
  rewrite (oracle_lookup_spec jb (junk (round8 os)) 0 _ hashsize ptext Hj eq_refl) by (unfold hashsize; lia). cbn [mbind outcome_bind]. rewrite Lj.
  pose proof (O_length 0 (round8 os) ptext ltac:(lia)) as LO. pose proof (O_bytes 0 (round8 os) ptext) as BO. unfold O in LO, BO.
  destruct (rawcrypt_loop_ok 64 c (oracle_spec hashsize 0 (round8 os) ptext) k Hok) as (m & -> & Lm & _); [lia|done|]. exists m. split; [done|lia].
Qed.

(** ** [hashpwd] *)
Lemma strtoi64_dollar n rest : 0 <= n <= 16 -> strtoi64 (decimal n ++ dollar :: rest) 10 = Done (n, dollar :: rest).
Proof.
  intros Hn. destruct (decimal_loop_spec 20 n []) as (D1 & D2 & D3 & _); [cbn; lia|constructor|]. fold (decimal n) in *.
  pose proof (strtoi64_digits [] [] false (decimal n) dollar rest 10 10 ltac:(constructor) ltac:(by left) D3 ltac:(lia)) as E. cbn [app] in E.
  rewrite E; [|left; by split|done|done]. rewrite D2. cbn [value fold_left]. do 2 f_equal. unfold clamp64, max64. lia.
Qed.

Lemma parse_stored cost salt rest :
  0 <= cost <= 16 -> length salt = 16%nat -> Forall is_byte salt ->
  parse_salt (decimal cost ++ [dollar] ++ (armor64_chars b2a64 salt ++ armor64_pad (Z.of_nat (length salt))) ++ [dollar] ++ rest) = Done (cost, Some salt).
Proof.
  intros Hc Hl Hb. unfold parse_salt. rewrite <- !app_assoc. cbn [app]. rewrite strtoi64_dollar by done. cbn [mbind outcome_bind].
  rewrite u32_id by (unfold is_u32; lia). destruct (decimal_spec cost) as [_ Hne]; [lia|]. rewrite bool_decide_true.
  2:{ intros E. apply (f_equal length) in E. rewrite length_app in E. destruct (decimal cost); [done|cbn in E; lia]. }
  destruct (Z.leb_spec cost 16); [|lia]. cbn [andb]. rewrite rd_head. cbn [mbind outcome_bind Z.eqb dollar Pos.eqb]. rewrite skipn_cons, drop_0.
  rewrite app_assoc, <- armor64_loop_pad, dearmor64_stop by done. cbn [mbind outcome_bind]. by rewrite Hl.
Qed.

(** What [hashpwd] returns starts with the cost and the salt it used. *)
Lemma hashpwd_ok rnd pwd saltstr :
  length rnd = 16%nat -> Forall is_byte rnd -> Forall is_byte pwd ->
  (forall s, saltstr = Some s -> exists cost salt, parse_salt s = Done (cost, salt) /\ (forall x, salt = Some x -> Forall is_byte x)) ->
  exists h, hashpwd rnd pwd saltstr = Done h /\ forall rnd', hashpwd rnd' pwd (Some h) = Done h.
Proof.
  intros Lr Br Bp Hs.
  assert (exists cost salt, match saltstr with None => Done (5, None) | Some s => parse_salt s end = Done (cost, salt)
    /\ 0 <= cost <= 16 /\ length (default rnd salt) = 16%nat /\ Forall is_byte (default rnd salt)) as (cost & salt & E & Hc & Ls & Bs).
  { destruct saltstr as [s|]; [|exists 5, None; split_and!; done || lia]. destruct (Hs s eq_refl) as (cost & salt & E & Bx). exists cost, salt. split; [done|].
    unfold parse_salt in E. destruct (strtoi64 _ _) as [[v p]| | |]; try done. cbn [mbind outcome_bind] in E.
    destruct (bool_decide _); cbn [andb] in E; [|injection E as <- <-; split_and!; done || lia].
    destruct (Z.leb_spec (u32 v) 16); [|injection E as <- <-; split_and!; done || lia]. pose proof (u32_is v) as Hu. unfold is_u32 in Hu.
    destruct (rd p 0) as [x| | |]; try done. cbn [mbind outcome_bind] in E. destruct (x =? dollar); [|injection E as <- <-; split_and!; done || lia].
    destruct (dearmor64 _ _) as [[y|]| | |]; try done. cbn [mbind outcome_bind] in E.
    destruct (Z.eqb_spec (Z.of_nat (length y)) 16); cbn [negb] in E; injection E as <- <-; split_and!; try done; try lia; cbn; [lia|by apply Bx]. }
  unfold hashpwd. rewrite E. cbn [mbind outcome_bind]. set (sl := default rnd salt) in *. clearbody sl.
  destruct (eksetkey_ok cost pwd sl Bp Bs) as (c & Ec & Hok); [lia|lia|]. rewrite Ec. cbn [mbind outcome_bind].
  destruct (hash_loop_ok 64 c cryptmsg Hok) as (m & Em & Lm & Bm); [done|by repeat apply Forall_cons_2|]. rewrite Em. cbn [mbind outcome_bind].
  rewrite !armor64_text by done. cbn [mbind outcome_bind]. eexists. split; [done|]. intros rnd'.
  rewrite parse_stored by done. cbn [mbind outcome_bind default from_option id]. rewrite Ec. cbn [mbind outcome_bind]. rewrite Em. cbn [mbind outcome_bind].
  by rewrite !armor64_text by done.
Qed.

Lemma dearmor64_loop_bytes a2b n s d e : _dearmor64_loop a2b n s = Done (d, e) -> Forall is_byte d.
Proof.
  revert s d e. induction n as [|n IH]; intros s d e; cbn [_dearmor64_loop]; [intros [= <- _]; constructor|].
  destruct s as [|s0 [|s1 [|s2 [|s3 s]]]]; try done. destruct (_dearmor64_loop a2b n s) as [[d1 e1]| | |] eqn:E; try done. cbn [mbind outcome_bind].
  intros [= <- _]. repeat (apply Forall_cons_2; [apply u8_byte|]). by apply IH in E.
Qed.

Lemma dearmor64_last_bytes a2b s t : _dearmor64_last a2b s = Done t -> Forall is_byte t.
Proof.
  unfold _dearmor64_last. destruct (rd s 0); try done. cbn [mbind outcome_bind]. destruct (rd s 1); try done. cbn [mbind outcome_bind].
  destruct (rd s 2); try done. cbn [mbind outcome_bind].
  destruct (0 <=? _); [destruct (rd s 3); try done; cbn [mbind outcome_bind]; destruct (0 <=? _)|]; intros [= <-];
    repeat (apply Forall_cons_2; [apply u8_byte|]); apply Forall_nil_2.
Qed.

Lemma dearmor64_bytes s len y : dearmor64 s len = Done (Some y) -> Forall is_byte y.
Proof.
  unfold dearmor64. destruct (if len <? 0 then _ else _) as [n| | |]; try done. cbn [mbind outcome_bind]. destruct (negb _); [done|].
  unfold _dearmor64. destruct (n =? 0); [intros [= <-]; constructor|].
  destruct (_dearmor64_loop _ _ s) as [[d e]| | |] eqn:E1; try done. cbn [mbind outcome_bind].
  destruct (_dearmor64_last _ e) as [t| | |] eqn:E2; try done. cbn [mbind outcome_bind]. destruct (_ <=? _); [|done]. intros [= <-].
  apply Forall_app. split; [by apply dearmor64_loop_bytes in E1|by apply dearmor64_last_bytes in E2].
Qed.

Lemma parse_salt_bytes s cost salt : parse_salt s = Done (cost, Some salt) -> Forall is_byte salt.
Proof.
  unfold parse_salt. destruct (strtoi64 _ _) as [[v p]| | |]; try done. cbn [mbind outcome_bind].
  destruct (_ && _); [|done]. destruct (rd p 0) as [x| | |]; try done. cbn [mbind outcome_bind]. destruct (x =? dollar); [|done].
  destruct (dearmor64 _ _) as [[y|]| | |] eqn:E; try done. cbn [mbind outcome_bind]. apply dearmor64_bytes in E.
  destruct (negb _); [done|]. by intros [= _ <-].
Qed.

(** ** Properties *)
(** A password is accepted against what [hashpwd] stored for it: whatever
    [hashpwd] returns for a password (with a salt it was given, or a random
    one), [hashpwd] of the same password with that as its salt returns the same
    text again. *)
Theorem hashpwd_verifies rnd pwd saltstr :
  length rnd = 16%nat -> Forall is_byte rnd -> Forall is_byte pwd ->
  (forall s, saltstr = Some s -> exists r, parse_salt s = Done r) ->
  exists h, hashpwd rnd pwd saltstr = Done h /\ forall rnd', hashpwd rnd' pwd (Some h) = Done h.
Proof.
  intros Lr Br Bp Hs. apply hashpwd_ok; try done. intros s Es. destruct (Hs s Es) as [[cost salt] E]. exists cost, salt. split; [exact E|].
  intros x ->. by apply parse_salt_bytes in E.
Qed.

Lemma hashpwd_verifies_witness :
  exists h, hashpwd (seqZ 0 16) [112; 119] None = Done h /\ hashpwd (replicate 16 9) [112; 119] (Some h) = Done h.
Proof.
  destruct (hashpwd_verifies (seqZ 0 16) [112; 119] None) as (h & E & H);
    [reflexivity|apply Forall_seqZ; unfold is_byte; lia|repeat apply Forall_cons_2; try apply Forall_nil_2; unfold is_byte; lia|discriminate|].
  exists h. split; [exact E|apply H].
Defined.

(** The text of a salt holds what it was made from: [pw_dearmorsalt] gives
    the cost, the salt and the plaintext back that [pw_armorsalt] was given, so
    [pw_crypt] computes [pw_rawcrypt] of them, which ends and gives as many
    bytes as were asked for, rounded up to blocks of eight. *)
Theorem pw_crypt_of_salt jb junk cost pwd bsalt ptext outsize :
  length jb = 64%nat -> (forall n, 0 <= n -> Z.of_nat (length (junk n)) = n) -> 0 <= cost <= 32 -> Forall is_byte pwd -> Forall is_byte bsalt ->
  bsalt <> [] -> Forall (fun c => c <> 10) ptext -> Z.of_nat (length pwd) < 2 ^ 62 -> Z.of_nat (length ptext) < 2 ^ 62 -> 0 <= outsize < 2 ^ 62 ->
  exists s r, pw_armorsalt cost bsalt ptext = Done s /\ pw_dearmorsalt s = Done (Some (cost, bsalt, ptext))
    /\ pw_rawcrypt jb junk cost pwd bsalt ptext outsize = Done r /\ pw_crypt jb junk pwd s outsize = Done (Some r)
    /\ Z.of_nat (length r) = round8 (if outsize =? 0 then Z.of_nat (length ptext) else outsize).
Proof.
  intros Hj Hjunk Hc Bp Bb Hne Ht Lp Lt Ho. destruct (dearmorsalt_armorsalt cost bsalt ptext) as (s & E1 & E2); [lia|done|done|done|].
  destruct (pw_rawcrypt_ok jb junk cost pwd bsalt ptext outsize) as (r & E3 & L3); try done; [lia|]. exists s, r. split_and!; try done.
  unfold pw_crypt. rewrite E2. cbn [mbind outcome_bind]. by rewrite E3.
Qed.

Lemma pw_crypt_of_salt_witness :
  exists s r, pw_armorsalt 2 [1; 2; 3] [65; 66] = Done s
    /\ pw_crypt (replicate 64 0) (fun n => replicate (Z.to_nat n) 0) [112; 119] s 20 = Done (Some r) /\ Z.of_nat (length r) = 24.
Proof.
  destruct (pw_crypt_of_salt (replicate 64 0) (fun n => replicate (Z.to_nat n) 0) 2 [112; 119] [1; 2; 3] [65; 66] 20) as (s & r & E1 & _ & _ & E4 & E5);
    try reflexivity; try discriminate; try lia; try (cbn [length]; lia); try (repeat apply Forall_cons_2; try apply Forall_nil_2; unfold is_byte; lia).
  - intros n Hn. rewrite length_replicate. lia.
  - exists s, r. split; [exact E1|]. split; [exact E4|exact E5].
Defined.

(** A salt that is not a multiple of four characters long is the [NULL] string,
    and its length is taken. *)
Example hashpwd_null_salt : hashpwd (seqZ 0 16) [112] (Some (chars "5$A")) = Wild.
Proof. vm_compute. reflexivity. Qed.
