(* ===== verification/NumTheory.v ===== *)
(** * Number theory for the public-key systems

    Congruences as a relation that can be rewritten with, Fermat's theorem,
    square roots of one, the Chinese remainder theorem, and the quadratic
    character of two (which Rabin's system relies on: [J(2, pq) = -1]). *)
From Stdlib Require Import ZArith Lia Znumtheory ZmodInv Zcong Permutation.
From stdpp Require Import prelude.
From S2P Require Import Prelude.

(** ** Congruence *)
Definition congr (n a b : Z) : Prop := a mod n = b mod n.
Notation "a =[ n ]= b" := (congr n a b) (at level 70, n at level 65, format "a  =[ n ]=  b").

#[export] Instance congr_equiv n : Equivalence (congr n).
Proof. split; [done| |]; unfold congr; intros ?; intros; congruence. Qed.
#[export] Instance congr_add n : Proper (congr n ==> congr n ==> congr n) Z.add.
Proof. unfold congr. intros a a' Ha b b' Hb. by rewrite Zplus_mod, Ha, Hb, <- Zplus_mod. Qed.
#[export] Instance congr_sub n : Proper (congr n ==> congr n ==> congr n) Z.sub.
Proof. unfold congr. intros a a' Ha b b' Hb. by rewrite Zminus_mod, Ha, Hb, <- Zminus_mod. Qed.
#[export] Instance congr_mul n : Proper (congr n ==> congr n ==> congr n) Z.mul.
Proof. unfold congr. intros a a' Ha b b' Hb. by rewrite Zmult_mod, Ha, Hb, <- Zmult_mod. Qed.
#[export] Instance congr_opp n : Proper (congr n ==> congr n) Z.opp.
Proof. intros a a' Ha. rewrite <- !Z.sub_0_l. by rewrite Ha. Qed.
#[export] Instance congr_pow n : Proper (congr n ==> eq ==> congr n) Z.pow.
Proof.
  intros a a' Ha e ? <-. destruct (Z.neg_nonneg_cases e); [by rewrite !Z.pow_neg_r|].
  revert e H. apply natlike_ind; [done|]. intros e He IH. by rewrite !Z.pow_succ_r, IH, Ha by lia.
Qed.

Lemma congr_mod n a : a mod n =[n]= a.
Proof. unfold congr. destruct (Z.eq_dec n 0) as [->|]; [by rewrite !Z.mod_0_r|]. by rewrite Z.mod_mod. Qed.
Lemma congr_divide n a b : 0 < n -> a =[n]= b <-> (n | a - b).
Proof.
  intros Hn. split; intros H.
  - apply Z.mod_divide; [lia|]. by rewrite Zminus_mod, H, Z.sub_diag.
  - destruct H as [k Hk]. unfold congr. replace a with (b + k * n) by lia. apply Z_mod_plus_full.
Qed.
Lemma congr_multiple n k : k * n =[n]= 0.
Proof. unfold congr. by rewrite Z_mod_mult, Zmod_0_l. Qed.
Lemma congr_small n a b : a =[n]= b -> 0 <= a < n -> 0 <= b < n -> a = b.
Proof. unfold congr. intros H Ha Hb. by rewrite !Z.mod_small in H. Qed.
Lemma congr_eq n a b : a =[n]= b -> 0 <= b < n -> a mod n = b.
Proof. unfold congr. intros -> Hb. by apply Z.mod_small. Qed.
Lemma congr_of_divide m n a b : 0 < m -> 0 < n -> (m | n) -> a =[n]= b -> a =[m]= b.
Proof. intros Hm Hn Hd H. apply congr_divide; [done|]. apply congr_divide in H; [|done]. by etrans. Qed.

(** GMP's remainder has the sign of its first operand. *)
Lemma rem_congr n a : n <> 0 -> Z.rem a n =[n]= a.
Proof.
  intros Hn. unfold congr. rewrite (Z.quot_rem' a n) at 2. rewrite Z.add_comm, Z.mul_comm. symmetry. apply Z_mod_plus_full.
Qed.
Lemma rem_pos n a : 0 < n -> 0 <= a -> Z.rem a n = a mod n.
Proof. intros. by rewrite Z.rem_mod_nonneg by lia. Qed.

(** ** Units *)
Lemma congr_cancel n c a b : 0 < n -> Z.gcd c n = 1 -> c * a =[n]= c * b -> a =[n]= b.
Proof.
  intros Hn Hg H. apply congr_divide; [done|]. apply congr_divide in H; [|done].
  rewrite <- Z.mul_sub_distr_l in H. apply (Z.gauss n c); [done|by rewrite Z.gcd_comm].
Qed.
Lemma congr_gcd n a b : 0 < n -> a =[n]= b -> Z.gcd a n = Z.gcd b n.
Proof. intros Hn H. rewrite !(Z.gcd_comm _ n), <- (Z.gcd_mod a n), <- (Z.gcd_mod b n) by lia. unfold congr in H. by rewrite H. Qed.
Lemma unit_inverse n a i : 0 < n -> a * i =[n]= 1 -> Z.gcd a n = 1.
Proof.
  intros Hn H. apply congr_divide in H; [|done]. destruct H as [k Hk].
  apply Z.bezout_1_gcd. exists i, (- k). lia.
Qed.
Lemma gcd_mul_1 a b n : Z.gcd a n = 1 -> Z.gcd b n = 1 -> Z.gcd (a * b) n = 1.
Proof. apply Z.coprime_mul_l. Qed.
Lemma gcd_mul_r a p q : Z.gcd a (p * q) = 1 -> Z.gcd a p = 1 /\ Z.gcd a q = 1.
Proof.
  intros (x & y & H)%Z.Bezout_coprime. split; apply Z.bezout_1_gcd; [exists x, (y * q)|exists x, (y * p)]; lia.
Qed.

Lemma gcd_2_odd n : Z.odd n = true -> Z.gcd 2 n = 1.
Proof.
  intros Ho. apply Z.bezout_1_gcd. exists (- (n / 2)), 1. pose proof (Z.div_mod n 2 ltac:(lia)) as H. rewrite Zmod_odd, Ho in H. lia.
Qed.

Lemma crt p q a b : 0 < p -> 0 < q -> Z.gcd p q = 1 -> a =[p]= b -> a =[q]= b -> a =[p * q]= b.
Proof.
  intros Hp Hq Hg Ha Hb. apply congr_divide in Ha as [k Hk]; [|done]. apply congr_divide in Hb; [|done].
  apply congr_divide; [lia|]. rewrite Hk in Hb |- *. rewrite Z.mul_comm in Hb.
  apply Z.gauss in Hb; [|by rewrite Z.gcd_comm]. destruct Hb as [j ->]. exists j. lia.
Qed.

Lemma congr_mul_eq n a b : a = b -> a =[n]= b.
Proof. by intros ->. Qed.

(** ** Primes *)
Lemma prime_unit p a : Z.prime p -> ~ (p | a) -> Z.gcd a p = 1.
Proof. intros Hp H. rewrite Z.gcd_comm. by apply Z.coprime_prime_l. Qed.
Lemma unit_not_0 p a : Z.prime p -> Z.gcd a p = 1 -> a mod p <> 0.
Proof.
  intros Hp Hg H. pose proof (Z.prime_ge_2 p Hp). apply Z.mod_divide in H; [|lia].
  assert (D : (p | Z.gcd a p)) by (apply Z.gcd_greatest; [done|by exists 1; lia]). rewrite Hg in D. apply Z.divide_1_r_nonneg in D; lia.
Qed.
Lemma small_unit p a : Z.prime p -> 0 < a < p -> Z.gcd a p = 1.
Proof. intros Hp Ha. rewrite Z.gcd_comm. apply Z.coprime_prime_small; [done|lia]. Qed.

Lemma fermat p a : Z.prime p -> Z.gcd a p = 1 -> a ^ (p - 1) =[p]= 1.
Proof.
  intros Hp Hg. unfold congr. rewrite Z.fermat_nz by (done || by apply unit_not_0).
  pose proof (Z.prime_ge_2 p Hp). by rewrite Z.mod_small by lia.
Qed.

Lemma pow_order n g q e : 0 <= q -> 0 <= e -> g ^ q =[n]= 1 -> g ^ (q * e) =[n]= 1.
Proof. intros Hq He H. rewrite Z.pow_mul_r by lia. rewrite H. by rewrite Z.pow_1_l by lia. Qed.
(** Exponents count modulo the order. *)
Lemma pow_mod_order n g q e : 0 < q -> 0 <= e -> g ^ q =[n]= 1 -> g ^ (e mod q) =[n]= g ^ e.
Proof.
  intros Hq He H. pose proof (Z.mod_pos_bound e q Hq). pose proof (Z.div_pos e q He Hq). rewrite (Z.div_mod e q) at 2 by lia.
  by rewrite Z.pow_add_r, (pow_order n g q), Z.mul_1_l by (done || nia).
Qed.
Lemma pow_congr_order n g q e f : 0 < q -> 0 <= e -> 0 <= f -> g ^ q =[n]= 1 -> e =[q]= f -> g ^ e =[n]= g ^ f.
Proof. intros Hq He Hf H Hef. rewrite <- (pow_mod_order n g q e), <- (pow_mod_order n g q f) by done. unfold congr in Hef. by rewrite Hef. Qed.

Lemma sqrt_one p x : Z.prime p -> x * x =[p]= 1 -> x =[p]= 1 \/ x =[p]= -1.
Proof.
  intros Hp H. pose proof (Z.prime_ge_2 p Hp). apply congr_divide in H; [|lia]. replace (x * x - 1) with ((x - 1) * (x - -1)) in H by lia.
  apply Z.divide_prime_mul in H; [|done]. destruct H as [H|H]; [left|right]; apply congr_divide; (done || lia).
Qed.
Lemma one_not_minus_one p : 2 < p -> ~ 1 =[p]= -1.
Proof. intros Hp H. apply congr_divide in H as [k Hk]; [|lia]. assert (k = 1 \/ k <= 0 \/ 2 <= k) as [->|[|]] by lia; nia. Qed.

(** ** The quadratic character of two (Gauss)

    The product of the even numbers up to [p - 1] is [2^h h!] with
    [h = (p - 1) / 2]; those above [h] are the negatives of the odd numbers up
    to [h], so the product is also [h!] with a sign for each of them. *)
Fixpoint facts (n : nat) : Z := match n with O => 1 | S k => (Z.of_nat k + 1) * facts k end.
Fixpoint evens (n : nat) : Z := match n with O => 1 | S k => 2 * (Z.of_nat k + 1) * evens k end.
Fixpoint odds (n : nat) : Z := match n with O => 1 | S i => (2 * Z.of_nat i + 1) * odds i end.
Fixpoint tops (h : nat) (n : nat) : Z := match n with O => 1 | S i => 2 * (Z.of_nat h - Z.of_nat i) * tops h i end.

Lemma evens_facts n : evens n = 2 ^ Z.of_nat n * facts n.
Proof. induction n as [|n IH]; [done|]. cbn [evens facts]. rewrite IH, Nat2Z.inj_succ, Z.pow_succ_r by lia. ring. Qed.
Lemma facts_evens_odds c : facts (2 * c) = evens c * odds c /\ facts (S (2 * c)) = evens c * odds (S c).
Proof.
  induction c as [|c [IH1 IH2]]; [done|]. assert (H : facts (2 * S c) = evens (S c) * odds (S c)).
  { replace (2 * S c)%nat with (S (S (2 * c))) by lia. change (facts (S (S (2 * c)))) with ((Z.of_nat (S (2 * c)) + 1) * facts (S (2 * c))).
    rewrite IH2. cbn [evens]. replace (Z.of_nat (S (2 * c)) + 1) with (2 * (Z.of_nat c + 1)) by lia. ring. }
  split; [done|]. change (facts (S (2 * S c))) with ((Z.of_nat (2 * S c) + 1) * facts (2 * S c)). rewrite H.
  change (odds (S (S c))) with ((2 * Z.of_nat (S c) + 1) * odds (S c)). replace (Z.of_nat (2 * S c)) with (2 * Z.of_nat (S c)) by lia. ring.
Qed.
Lemma evens_tops h m : (m <= h)%nat -> evens h = evens (h - m) * tops h m.
Proof.
  induction m as [|m IH]; intros Hm; [rewrite Nat.sub_0_r; cbn; ring|]. rewrite IH by lia. replace (h - m)%nat with (S (h - S m)) by lia.
  cbn [evens tops]. replace (Z.of_nat (h - S m) + 1) with (Z.of_nat h - Z.of_nat m) by lia. ring.
Qed.
Lemma tops_odds h m : tops h m =[2 * Z.of_nat h + 1]= (-1) ^ Z.of_nat m * odds m.
Proof.
  induction m as [|m IH]; [done|]. cbn [tops odds]. rewrite IH. rewrite Nat2Z.inj_succ, Z.pow_succ_r by lia.
  assert (E : 2 * (Z.of_nat h - Z.of_nat m) =[2 * Z.of_nat h + 1]= - (2 * Z.of_nat m + 1)).
  { apply congr_divide; [lia|]. exists 1. lia. }
  rewrite E. apply congr_mul_eq. ring.
Qed.
Lemma facts_unit p n : Z.prime p -> Z.of_nat n < p -> Z.gcd (facts n) p = 1.
Proof.
  intros Hp. induction n as [|n IH]; intros Hn; [apply Z.gcd_1_l|]. cbn [facts]. apply gcd_mul_1; [|apply IH; lia].
  apply small_unit; [done|lia].
Qed.

Lemma two_character (h : nat) : Z.prime (2 * Z.of_nat h + 1) ->
  2 ^ Z.of_nat h =[2 * Z.of_nat h + 1]= (-1) ^ Z.of_nat (h - h / 2).
Proof.
  set (p := 2 * Z.of_nat h + 1). intros Hp. set (c := (h / 2)%nat). set (m := (h - c)%nat).
  assert (Hc : h = (2 * c)%nat /\ m = c \/ h = S (2 * c) /\ m = S c).
  { pose proof (Nat.div_mod h 2 ltac:(lia)). pose proof (Nat.mod_upper_bound h 2 ltac:(lia)). unfold m, c in *. lia. }
  apply (congr_cancel p (facts h)); [lia|apply facts_unit; [done|lia]|]. rewrite Z.mul_comm, <- evens_facts.
  rewrite (evens_tops h m) by lia. replace (h - m)%nat with c by lia. rewrite (tops_odds h m). apply congr_mul_eq.
  destruct (facts_evens_odds c) as [E1 E2]. clearbody m c p. destruct Hc as [[-> ->]|[-> ->]]; rewrite ?E1, ?E2; ring.
Qed.

Lemma two_3_mod_8 p : Z.prime p -> p mod 8 = 3 -> 2 ^ ((p - 1) / 2) =[p]= -1.
Proof.
  intros Hp H8. pose proof (Z.prime_ge_2 p Hp). pose proof (Z.div_mod p 8 ltac:(lia)). set (k := p / 8) in *.
  assert (Hk : 0 <= k) by (apply Z.div_pos; lia). pose proof (two_character (Z.to_nat (4 * k + 1))) as H'.
  rewrite !Z2Nat.id in H' by lia. replace (2 * (4 * k + 1) + 1) with p in H' by lia. specialize (H' Hp).
  replace ((p - 1) / 2) with (4 * k + 1) by (apply Z.div_unique_exact; lia). rewrite H'. apply congr_mul_eq.
  replace (Z.of_nat _) with (2 * k + 1); [rewrite Z.pow_add_r, Z.pow_mul_r by lia; cbn; by rewrite Z.pow_1_l by lia|].
  rewrite Nat2Z.inj_sub by (apply Nat.Div0.div_le_upper_bound; lia). rewrite Nat2Z.inj_div, Z2Nat.id by lia.
  replace (4 * k + 1) with (1 + 2 * k * Z.of_nat 2) at 2 by lia. rewrite Z.div_add by lia. change (1 `div` Z.of_nat 2) with 0 || change (3 `div` Z.of_nat 2) with 1. lia.
Qed.
Lemma two_7_mod_8 p : Z.prime p -> p mod 8 = 7 -> 2 ^ ((p - 1) / 2) =[p]= 1.
Proof.
  intros Hp H8. pose proof (Z.prime_ge_2 p Hp). pose proof (Z.div_mod p 8 ltac:(lia)). set (k := p / 8) in *.
  assert (Hk : 0 <= k) by (apply Z.div_pos; lia). pose proof (two_character (Z.to_nat (4 * k + 3))) as H'.
  rewrite !Z2Nat.id in H' by lia. replace (2 * (4 * k + 3) + 1) with p in H' by lia. specialize (H' Hp).
  replace ((p - 1) / 2) with (4 * k + 3) by (apply Z.div_unique_exact; lia). rewrite H'. apply congr_mul_eq.
  replace (Z.of_nat _) with (2 * (k + 1)); [rewrite Z.pow_mul_r by lia; cbn; by rewrite Z.pow_1_l by lia|].
  rewrite Nat2Z.inj_sub by (apply Nat.Div0.div_le_upper_bound; lia). rewrite Nat2Z.inj_div, Z2Nat.id by lia.
  replace (4 * k + 3) with (3 + 2 * k * Z.of_nat 2) at 2 by lia. rewrite Z.div_add by lia. change (1 `div` Z.of_nat 2) with 0 || change (3 `div` Z.of_nat 2) with 1. lia.
Qed.

(** ** Divisors *)
Lemma prime_divisor n : 1 < n -> exists p, Z.prime p /\ (p | n).
Proof.
  intros Hn. assert (H : 0 <= n) by lia. revert Hn. pattern n. apply Z_lt_induction; [|done]. clear n H. intros n IH Hn.
  destruct (prime_dec n) as [Hp|Hp]; [exists n; split; [by apply prime_alt|exists 1; lia]|].
  destruct (not_prime_divide n Hn Hp) as (d & Hd & D). destruct (IH d ltac:(lia) ltac:(lia)) as (p & Pp & Dp). exists p. split; [done|by etrans].
Qed.

(** Pocklington's criterion: a prime factor [q] of [n - 1] that is large enough
    and a number [a] that shows that [n] is prime. *)
Lemma pocklington q n a : Z.prime q -> 1 < n <= q * q -> (q | n - 1) -> a ^ (n - 1) =[n]= 1 -> Z.gcd (a ^ ((n - 1) / q) - 1) n = 1 -> Z.prime n.
Proof.
  intros Hq Hn [c Hc] Hf Hg. pose proof (Z.prime_ge_2 q Hq). destruct (prime_dec n) as [Hp|Hp]; [by apply prime_alt|exfalso].
  destruct (not_prime_divide n ltac:(lia) Hp) as (d & Hd & [e He]).
  assert (Hs : exists f, 1 < f <= q /\ (f | n)).
  { destruct (Z.le_gt_cases d q); [exists d; split; [lia|by exists e]|]. exists e. split; [nia|exists d; lia]. }
  destruct Hs as (f & Hf1 & Hf2). destruct (prime_divisor f ltac:(lia)) as (p & Pp & Dp). pose proof (Z.prime_ge_2 p Pp).
  assert (Hpf : p <= f) by (apply Z.divide_pos_le; [lia|done]). assert (Dn : (p | n)) by (by etrans).
  rewrite Hc, Z.div_mul in Hg by lia. assert (0 < c) by nia.
  assert (Ha : a ^ (c * q) =[p]= 1) by (rewrite <- Hc; apply (congr_of_divide p n); [lia|lia|done|done]).
  assert (Ua : Z.gcd (a ^ c) p = 1).
  { rewrite Z.pow_mul_r in Ha by lia. apply (unit_inverse p _ ((a ^ c) ^ (q - 1))); [lia|]. etrans; [|exact Ha]. apply congr_mul_eq.
    rewrite <- Z.pow_succ_r by lia. f_equal. lia. }
  assert (Hac : a ^ c =[p]= 1).
  { destruct (Z.eq_dec p 2) as [->|Hp2].
    - pose proof (unit_not_0 2 _ Pp Ua) as U. unfold congr. rewrite Zmod_odd in U |- *. by destruct (Z.odd (a ^ c)).
    - set (m := p - 1). assert (Hm : 2 <= m) by lia. assert (G : Z.gcd q m = 1) by (apply Z.coprime_prime_small; [done|lia]).
      set (u := Z.invmod q m). assert (Hu : u * q mod m = 1) by (by apply Z.invmod_coprime).
      assert (Hu0 : 0 <= u) by (unfold u; rewrite <- Z.mod_invmod; apply Z.mod_pos_bound; lia).
      assert (E : (a ^ c) ^ (u * q) =[p]= (a ^ c) ^ 1).
      { apply (pow_congr_order p _ m); [lia|nia|lia|by apply fermat|]. unfold congr. rewrite Hu, Z.mod_small by lia. done. }
      rewrite Z.pow_1_r in E. rewrite <- E, (Z.mul_comm u q), Z.pow_mul_r, <- (Z.pow_mul_r a), Ha by nia. by rewrite Z.pow_1_l by lia. }
  apply congr_divide in Hac; [|lia]. assert (D : (p | Z.gcd (a ^ c - 1) n)) by (by apply Z.gcd_greatest). rewrite Hg in D.
  apply Z.divide_1_r_nonneg in D; lia.
Qed.

(** The case [n = 2q + 1], as the comment on [srpprime_test] has it. *)
Lemma pocklington_srp q n : Z.prime q -> 2 < q -> n = 2 * q + 1 -> ~ (3 | n) -> 2 ^ (n - 1) =[n]= 1 -> Z.prime n.
Proof.
  intros Hq H2 En H3 Hf. apply (pocklington q n 2); [done|nia|exists 2; lia|done|]. replace (n - 1) with (2 * q) by lia. rewrite Z.div_mul by lia.
  change (2 ^ 2 - 1) with 3. rewrite Z.gcd_comm. by apply prime_unit; [apply Z.prime_3|].
Qed.
