(* ===== verification/Bigint.v ===== *)
(** * Big integers as the public-key systems use them: [crypt/bigint.h]

    A [bigint] is the integer it holds: [+], [-], [*] and the comparisons are
    those of [Z], [%] is GMP's [mpz_tdiv_r] ([Z.rem]), [>>] is
    [mpz_tdiv_q_2exp], [mod] is [mpz_mod].  What GMP computes beyond that is
    the class [GmpNum] with the laws [GmpNumOK]; [num_model] meets them. *)
From Stdlib Require Import ZArith Lia Znumtheory Zcong.
From stdpp Require Import prelude.
From S2P Require Import Prelude NumTheory.

Class GmpNum := {
  (** [mpz_powm (r, b, e, m)] *)
  powm : Z -> Z -> Z -> Z;
  (** [mpz_gcdext (g, s, NULL, a, b)]: [g] and [s] *)
  gcdext : Z -> Z -> Z * Z;
  (** [mpz_jacobi (a, b)] *)
  jacobi : Z -> Z -> Z;
  (** [mpz_probab_prime_p (n, reps)] *)
  probab_prime : Z -> Z -> bool
}.

(** [mpz_sizeinbase2] *)
Definition nbits (x : Z) : Z := if x =? 0 then 0 else Z.log2 (Z.abs x) + 1.
(** [mpz_tdiv_q_2exp] *)
Definition tdiv_2exp (x n : Z) : Z := Z.quot x (2 ^ n).
(** [mpz_get_ui] *)
Definition getui (x : Z) : Z := u64 (Z.abs x).

(** [_invert0], by which [invert] is defined *)
Definition invert `{!GmpNum} (a b : Z) : Z :=
  let '(gcd, r) := gcdext a b in
  if negb (gcd =? 1) then 0
  else if r <? 0 then r + b
  else r.

(** Legendre's symbol, by his definition. *)
Definition legendre (a p : Z) : Z :=
  let x := a ^ ((p - 1) / 2) mod p in
  if x =? 0 then 0 else if x =? 1 then 1 else -1.

(** What GMP documents of its functions. *)
Class GmpNumOK `{!GmpNum} : Prop := {
  powm_ok b e m : 0 <= e -> 0 < m -> powm b e m = b ^ e mod m;
  powm_neg b e m : 0 < e -> 1 < m -> Z.gcd b m = 1 -> b ^ e * powm b (- e) m =[m]= 1;
  powm_neg_bound b e m : 0 < e -> 1 < m -> Z.gcd b m = 1 -> 0 <= powm b (- e) m < m;
  gcdext_gcd a b : 1 < b -> (gcdext a b).1 = Z.gcd a b;
  gcdext_ok a b : 1 < b -> a * (gcdext a b).2 =[b]= Z.gcd a b;
  gcdext_bound a b : 1 < b -> Z.abs ((gcdext a b).2) < b;
  jacobi_ok a p q : Z.prime p -> Z.prime q -> 2 < p -> 2 < q -> p <> q -> jacobi a (p * q) = legendre a p * legendre a q;
  probab_prime_ok n reps : Z.prime n -> probab_prime n reps = true
}.

Section laws.
Context `{HN : !GmpNum} `{HNok : !GmpNumOK}.

Lemma powm_bound b e m : 0 <= e -> 0 < m -> 0 <= powm b e m < m.
Proof using HNok. intros He Hm. rewrite powm_ok by done. by apply Z.mod_pos_bound. Qed.
Lemma powm_congr b e m : 0 <= e -> 0 < m -> powm b e m =[m]= b ^ e.
Proof using HNok. intros He Hm. rewrite powm_ok by done. apply congr_mod. Qed.
Lemma powm_unique b e m x : 0 <= e -> 0 < m -> b ^ e =[m]= x -> 0 <= x < m -> powm b e m = x.
Proof using HNok. intros He Hm H Hx. rewrite powm_ok by done. by apply congr_eq. Qed.

Lemma invert_congr a m : 1 < m -> Z.gcd a m = 1 -> a * invert a m =[m]= 1.
Proof using HNok.
  intros Hm Hg. pose proof (gcdext_gcd a m Hm) as G. pose proof (gcdext_ok a m Hm) as O. unfold invert.
  destruct (gcdext a m) as [g s]. cbn [fst snd] in *. subst g. rewrite Hg in *. cbn [Z.eqb negb Pos.eqb].
  destruct (s <? 0); [|done]. rewrite Z.mul_add_distr_l, O. rewrite (congr_multiple m a). done.
Qed.
Lemma invert_bound a m : 1 < m -> 0 <= invert a m < m.
Proof using HNok.
  intros Hm. pose proof (gcdext_bound a m Hm) as B. unfold invert. destruct (gcdext a m) as [g s]. cbn [fst snd] in *.
  destruct (negb (g =? 1)); [lia|]. destruct (Z.ltb_spec s 0); lia.
Qed.
Lemma invert_unit a m : 1 < m -> Z.gcd a m = 1 -> Z.gcd (invert a m) m = 1.
Proof using HNok. intros Hm Hg. apply (unit_inverse m _ a); [lia|]. rewrite Z.mul_comm. by apply invert_congr. Qed.
(** Without an inverse the result is zero. *)
Lemma invert_none a m : 1 < m -> Z.gcd a m <> 1 -> invert a m = 0.
Proof using HNok.
  intros Hm Hg. pose proof (gcdext_gcd a m Hm) as G. unfold invert. destruct (gcdext a m) as [g s]. cbn [fst snd] in *.
  subst g. by destruct (Z.eqb_spec (Z.gcd a m) 1).
Qed.
End laws.

Lemma nbits_bound x : 0 <= x -> x < 2 ^ nbits x.
Proof.
  intros Hx. unfold nbits. destruct (Z.eqb_spec x 0) as [->|]; [lia|]. rewrite Z.abs_eq by done.
  pose proof (Z.log2_spec x ltac:(lia)). rewrite Z.add_1_r. lia.
Qed.
Lemma nbits_low x : 0 < x -> 2 ^ (nbits x - 1) <= x.
Proof.
  intros Hx. unfold nbits. destruct (Z.eqb_spec x 0) as [->|]; [lia|]. rewrite Z.abs_eq by lia.
  rewrite Z.add_simpl_r. apply Z.log2_spec. lia.
Qed.
Lemma nbits_pos x : 0 < x -> 0 < nbits x.
Proof. intros Hx. unfold nbits. destruct (Z.eqb_spec x 0); [lia|]. pose proof (Z.log2_nonneg (Z.abs x)). lia. Qed.
Lemma nbits_nonneg x : 0 <= nbits x.
Proof. unfold nbits. destruct (x =? 0); [lia|]. pose proof (Z.log2_nonneg (Z.abs x)). lia. Qed.
Lemma tdiv_2exp_pos x n : 0 <= x -> 0 <= n -> tdiv_2exp x n = x / 2 ^ n.
Proof. intros Hx Hn. unfold tdiv_2exp. by rewrite Z.quot_div_nonneg by lia. Qed.
Lemma tdiv_2exp_exact x n : 0 <= n -> tdiv_2exp (x * 2 ^ n) n = x.
Proof. intros Hn. unfold tdiv_2exp. apply Z.quot_mul. lia. Qed.

(** ** A model of GMP's number theory *)
Fixpoint powm_pos (b : Z) (e : positive) (m : Z) : Z :=
  match e with
  | xH => b mod m
  | xO e => let r := powm_pos b e m in r * r mod m
  | xI e => let r := powm_pos b e m in (r * r mod m) * b mod m
  end.
Definition is_prime (n : Z) : bool := (1 <? n) && forallb (fun d => negb (n mod d =? 0)) (seqZ 2 (Z.sqrt n - 1)).
Definition least_factor (n : Z) : Z := default n (List.find (fun d => n mod d =? 0) (seqZ 2 (Z.sqrt n - 1))).

Definition num_model : GmpNum := {|
  powm b e m := match e with Zpos e => powm_pos b e m | Z0 => 1 mod m | Zneg e => powm_pos (fst (fst (Z.extgcd b m))) e m end;
  gcdext a b := (Z.gcd a b, fst (fst (Z.extgcd a b)) mod b);
  jacobi a n := let d := least_factor n in legendre a d * legendre a (n / d);
  probab_prime n _ := is_prime n
|}.

Lemma powm_pos_spec b e m : 0 < m -> powm_pos b e m = b ^ Zpos e mod m.
Proof.
  intros Hm. induction e as [e IH|e IH|]; cbn [powm_pos].
  - rewrite IH, <- Zmult_mod, Z.mul_mod_idemp_l by lia. f_equal. rewrite Pos2Z.inj_xI, Z.pow_add_r, Z.mul_comm, (Z.mul_comm 2), Z.pow_mul_r by lia.
    rewrite Z.pow_2_r. rewrite Z.pow_1_r. lia.
  - rewrite IH, <- Zmult_mod. f_equal. rewrite Pos2Z.inj_xO, (Z.mul_comm 2), Z.pow_mul_r by lia. by rewrite Z.pow_2_r.
  - by rewrite Z.pow_1_r.
Qed.

Lemma is_prime_spec n : is_prime n = true <-> Z.prime n.
Proof.
  unfold is_prime, Z.prime. rewrite andb_true_iff, Z.ltb_lt, forallb_forall. split; intros [H1 H2]; (split; [done|]); intros d Hd.
  - intros [k Hk]. pose proof (Z.sqrt_spec n ltac:(lia)) as Hs. assert (He : exists e f, n = e * f /\ 2 <= f <= Z.sqrt n).
    { cbv zeta in Hs. destruct (Z.le_gt_cases d (Z.sqrt n)); [exists k, d; lia|]. exists d, k. assert (1 < k) by nia. nia. }
    destruct He as (e & f & He & Hf). specialize (H2 f). rewrite <- list_elem_of_In, elem_of_seqZ in H2. specialize (H2 ltac:(lia)).
    rewrite He, Z_mod_mult in H2. done.
  - rewrite <- list_elem_of_In, elem_of_seqZ in Hd. pose proof (Z.sqrt_lt_lin n ltac:(lia)). specialize (H2 d ltac:(lia)). destruct (Z.eqb_spec (n mod d) 0) as [E|]; [|done].
    destruct H2. apply Z.mod_divide; [lia|done].
Qed.

Lemma least_factor_pq p q : Z.prime p -> Z.prime q -> least_factor (p * q) = p \/ least_factor (p * q) = q.
Proof.
  intros Hp Hq. pose proof (Z.prime_ge_2 p Hp). pose proof (Z.prime_ge_2 q Hq). unfold least_factor.
  pose proof (Z.sqrt_spec (p * q) ltac:(nia)) as Hs. cbv zeta in Hs. pose proof (Z.sqrt_lt_lin (p * q) ltac:(nia)).
  destruct (List.find _ _) as [d|] eqn:E; cbn [default]; unfold id.
  - apply List.find_some in E as [Hd Hm]. rewrite <- list_elem_of_In, elem_of_seqZ in Hd. apply Z.eqb_eq, Z.mod_divide in Hm; [|lia].
    destruct Hm as [k Hk].
    assert (D : (p | k * d)) by (exists q; lia). apply Z.divide_prime_mul in D; [|done]. destruct D as [[j Hj]|[j Hj]].
    + right. assert (q = j * d) by nia. assert (D : (d | q)) by (by exists j). apply Z.divide_prime_r in D; [|done]. lia.
    + left. assert (q = k * j) by nia. assert (D : (j | q)) by (by exists k). apply Z.divide_prime_r in D; [|done].
      assert (j = 1 \/ j = q) as [->| ->] by lia; nia.
  - exfalso. pose proof (List.find_none _ _ E p) as F. pose proof (List.find_none _ _ E q) as G. cbv beta in F, G.
    rewrite <- list_elem_of_In, elem_of_seqZ, Z_mod_mult in G. rewrite <- list_elem_of_In, elem_of_seqZ, (Z.mul_comm p q), Z_mod_mult in F.
    rewrite (Z.mul_comm q p) in F. cbn [Z.eqb] in F, G. destruct (Z.le_gt_cases p (Z.sqrt (p * q))); [specialize (F ltac:(lia)); done|].
    specialize (G ltac:(nia)). done.
Qed.

#[export] Instance num_model_ok : @GmpNumOK num_model.
Proof.
  split.
  - intros b [|e|e] m He Hm; cbn; [done|by apply powm_pos_spec|lia].
  - intros b [|e|e] m He Hm Hg; try lia. change (powm b (- Zpos e) m) with (powm_pos (fst (fst (Z.extgcd b m))) e m). rewrite powm_pos_spec by lia. rewrite congr_mod.
    destruct (Z.extgcd b m) as [[u v] d] eqn:E. apply Z.extgcd_correct in E as [E1 E2]. cbn [fst].
    rewrite <- Z.pow_mul_l. assert (U : b * u =[m]= 1) by (apply congr_divide; [lia|]; exists (- v); lia). rewrite U. by rewrite Z.pow_1_l.
  - intros b [|e|e] m He Hm _; try lia. change (powm b (- Zpos e) m) with (powm_pos (fst (fst (Z.extgcd b m))) e m). rewrite powm_pos_spec by lia. apply Z.mod_pos_bound. lia.
  - done.
  - intros a b Hb. cbn [gcdext num_model snd]. rewrite congr_mod. destruct (Z.extgcd a b) as [[u v] d] eqn:E.
    apply Z.extgcd_correct in E as [E1 E2]. cbn [fst]. rewrite <- E2, <- E1. apply congr_divide; [lia|]. exists (- v). lia.
  - intros a b Hb. cbn [gcdext num_model snd]. pose proof (Z.mod_pos_bound (fst (fst (Z.extgcd a b))) b ltac:(lia)). lia.
  - intros a p q Hp Hq ? ? Hne. cbn [jacobi num_model]. destruct (least_factor_pq p q Hp Hq) as [-> | ->].
    + by rewrite (Z.mul_comm p q), Z.div_mul by lia.
    + rewrite Z.div_mul by lia. lia.
  - intros n reps Hn. cbn. by apply is_prime_spec.
Qed.

(** ** Certificates of primes *)
Definition pock (q n a : Z) : bool :=
  (1 <? n) && (n <=? q * q) && ((n - 1) mod q =? 0) && (powm (GmpNum := num_model) a (n - 1) n =? 1)
  && (Z.gcd (powm (GmpNum := num_model) a ((n - 1) / q) n - 1) n =? 1).

Lemma pock_prime q n a : Z.prime q -> pock q n a = true -> Z.prime n.
Proof.
  intros Hq. unfold pock. rewrite !andb_true_iff, Z.ltb_lt, Z.leb_le, !Z.eqb_eq. intros ((((H1 & H2) & H3) & H4) & H5).
  pose proof (Z.prime_ge_2 q Hq). apply Z.mod_divide in H3; [|lia]. assert (0 <= (n - 1) / q) by (apply Z.div_pos; lia).
  rewrite powm_ok in H4, H5 by lia. apply (pocklington q n a); [done|done|done| |].
  - unfold congr. rewrite H4, Z.mod_small by lia. done.
  - etrans; [|exact H5]. apply congr_gcd; [lia|]. by rewrite congr_mod.
Qed.

(** * Primes for the examples

    Two primes of 214 bits, 11 and 23 modulo 24, with Pocklington's
    certificates. *)
Definition sample_p : Z := 17425160836021356138954375640811492748956641883996319879939071027.
Lemma sample_p_prime : Z.prime sample_p.
Proof.
  apply (pock_prime 591885017554047663579771354288631 sample_p 2); [|vm_compute; reflexivity].
  apply (pock_prime 53886859633521133 591885017554047663579771354288631 2); [|vm_compute; reflexivity].
  apply (pock_prime 951446117 53886859633521133 2); [|vm_compute; reflexivity].
  apply (pock_prime 96731 951446117 2); [|vm_compute; reflexivity].
  apply is_prime_spec. vm_compute. reflexivity.
Qed.

Definition sample_q : Z := 22815711642678721107210573696488888421005727606851459654519359967.
Lemma sample_q_prime : Z.prime sample_q.
Proof.
  apply (pock_prime 447253850979396410684541886989233 sample_q 2); [|vm_compute; reflexivity].
  apply (pock_prime 37098916393560017 447253850979396410684541886989233 2); [|vm_compute; reflexivity].
  apply (pock_prime 739260923 37098916393560017 2); [|vm_compute; reflexivity].
  apply (pock_prime 99017 739260923 2); [|vm_compute; reflexivity].
  apply is_prime_spec. vm_compute. reflexivity.
Qed.
