(* ===== verification/PrimeProps.v ===== *)
(** * Theorems on random numbers and primes

    The tests never reject a prime, [srpprime_test] decides primality of
    [n = 2q + 1] when [q] is prime (the argument of Pocklington that its comment
    gives), and [prime_search] returns a candidate that passes the tests
    or 0 if the range has no prime. *)
From Stdlib Require Import ZArith Lia Znumtheory.
From stdpp Require Import prelude.
From S2P Require Import Prelude Bits Mpz MpzSpec MpzRaw Pad NumTheory Bigint Prime.

(** ** [fermat2_test] *)
Lemma fermat2_loop_spec i n t : 0 < n -> 0 <= t ->
  0 <= fermat2_loop i n t /\ fermat2_loop i n t =[n]= t ^ (2 ^ Z.of_nat i) * 2 ^ (n mod 2 ^ Z.of_nat i).
Proof.
  intros Hn. revert t. induction i as [|i IH]; intros t Ht; cbn [fermat2_loop].
  { split; [done|]. cbn. by rewrite Z.pow_1_r, Z.mod_1_r, Z.mul_1_r. }
  set (t1 := if (nlimbs n <? nlimbs (t * t))%nat then Z.rem (t * t) n else t * t).
  assert (H1 : 0 <= t1 /\ t1 =[n]= t * t).
  { unfold t1. destruct (_ <? _)%nat; [|split; [nia|done]]. split; [apply Z.rem_nonneg; nia|]. apply rem_congr. lia. }
  clearbody t1. destruct H1 as [P1 C1]. rewrite Nat2Z.inj_succ. set (I := Z.of_nat i).
  assert (E : n mod 2 ^ Z.succ I = n mod 2 ^ I + 2 ^ I * (if Z.testbit n I then 1 else 0)).
  { unfold I. rewrite Z.pow_succ_r by lia. rewrite (Z.mul_comm 2), Z.rem_mul_r by lia. f_equal. f_equal.
    rewrite Z.testbit_eqb by lia. pose proof (Z.mod_pos_bound (n / 2 ^ Z.of_nat i) 2 ltac:(lia)). destruct (Z.eqb_spec ((n / 2 ^ Z.of_nat i) mod 2) 1); lia. }
  pose proof (Z.mod_pos_bound n (2 ^ I) ltac:(lia)).
  destruct (IH (if Z.testbit n I then t1 * 2 else t1)) as [Q1 Q2]; [destruct (Z.testbit n I); lia|]. split; [done|]. rewrite Q2. fold I. rewrite E.
  rewrite Z.pow_succ_r, Z.pow_mul_r, Z.pow_2_r by lia. destruct (Z.testbit n I).
  - rewrite Z.pow_mul_l, Z.pow_add_r, C1 by lia. apply congr_mul_eq. rewrite Z.mul_1_r. ring.
  - rewrite C1. apply congr_mul_eq. by rewrite Z.mul_0_r, Z.add_0_r.
Qed.

Lemma fermat2_test_spec n : 2 < n -> fermat2_test n = (2 ^ n mod n =? 2).
Proof.
  intros Hn. unfold fermat2_test. destruct (fermat2_loop_spec (Z.to_nat (nbits n)) n 1) as [P C]; [lia|lia|].
  pose proof (nbits_nonneg n). pose proof (nbits_bound n ltac:(lia)).
  rewrite Z2Nat.id, Z.pow_1_l, Z.mul_1_l, (Z.mod_small n) in C by lia.
  set (t := fermat2_loop _ _ _) in *. clearbody t. unfold congr in C. rewrite <- C. destruct (Z.ltb_spec n t).
  - by rewrite rem_pos by lia.
  - destruct (Z.eq_dec t n) as [->|]; [rewrite Z.mod_same by lia; destruct (Z.eqb_spec n 2); [lia|done]|]. by rewrite Z.mod_small by lia.
Qed.

Lemma fermat2_odd n : 2 < n -> Z.odd n = true -> fermat2_test n = true <-> 2 ^ (n - 1) =[n]= 1.
Proof.
  intros Hn Ho. rewrite fermat2_test_spec, Z.eqb_eq by done. assert (E : 2 ^ n = 2 * 2 ^ (n - 1)) by (rewrite <- Z.pow_succ_r by lia; f_equal; lia).
  pose proof (gcd_2_odd n Ho) as G.
  rewrite E. split; intros H.
  - apply (congr_cancel n 2); [lia|done|]. unfold congr. rewrite H, Z.mod_small by lia. done.
  - apply congr_eq; [|lia]. by rewrite H.
Qed.

(** ** The test of Miller and Rabin *)
Lemma scan1_spec x : 0 < x -> 0 <= scan1 x /\ exists r, x = r * 2 ^ scan1 x /\ Z.odd r = true.
Proof.
  intros Hx. destruct x as [|p|p]; [lia| |lia]. clear Hx. cbn [scan1]. induction p as [p IH|p (IH0 & r & IH1 & IH2)|]; cbn [scan1_pos].
  - split; [done|]. exists (Zpos p~1). by rewrite Z.mul_1_r.
  - split; [lia|]. exists r. split; [|done]. rewrite Z.pow_add_r by lia. rewrite Pos2Z.inj_xO, IH1. lia.
  - split; [done|]. by exists 1.
Qed.

Lemma square_loop_prime j n y : Z.prime n -> 0 <= y < n -> y <> 1 -> y ^ (2 ^ (Z.of_nat j + 1)) =[n]= 1 -> square_loop j n y = true.
Proof.
  intros Hn. pose proof (Z.prime_ge_2 n Hn).
  assert (Hr : forall x, 0 <= x < n -> x <> 1 -> x * x =[n]= 1 -> x = n - 1).
  { intros x Hx Hx1 Hxx. destruct (sqrt_one n x Hn Hxx) as [Hs|Hs].
    - apply congr_small in Hs; lia.
    - apply (congr_small n); [|lia|lia]. rewrite Hs. apply congr_divide; [lia|]. exists (-1). lia. }
  revert y. induction j as [|j IH]; intros y Hy Hy1 Hp; cbn [square_loop]; destruct (Z.eqb_spec y (n - 1)) as [|Hne]; try done.
  - destruct Hne. apply Hr; [done|done|]. by rewrite Z.pow_2_r in Hp.
  - destruct (Z.eqb_spec (y * y mod n) 1) as [E|E].
    + destruct Hne. apply Hr; [done|done|]. unfold congr. rewrite E, Z.mod_small by lia. done.
    + apply IH; [apply Z.mod_pos_bound; lia|done|]. rewrite congr_mod, <- Z.pow_2_r, <- Z.pow_mul_r by lia.
      rewrite <- Z.pow_succ_r by lia. etrans; [|exact Hp]. apply congr_mul_eq. f_equal. f_equal. lia.
Qed.

Section tests.
Context `{HG : !Gmp} `{HGok : !GmpOK} `{HN : !GmpNum} `{HNok : !GmpNumOK}.

(** The number that a block of random bytes stands for in [prime_test]. *)
Definition draw (n : Z) (b : list Z) : Z :=
  let a := limbs_of_bytes (nlimbs n) b in
  limbs_val (take (length a - 1) a ++ ((fun x => x .& ((2 ^ 64 - 1) .>> ((- nbits n) .& 63))) <$> drop (length a - 1) a)).
Definition usable (n : Z) (b : list Z) : bool := negb ((n - 1 <=? draw n b) || (draw n b <=? 1)).
(** How many of the blocks [prime_test] can use. *)
Definition draws (n : Z) (rnd : list (list Z)) : Z := Z.of_nat (length (List.filter (usable n) rnd)).

Lemma witness_loop_spec n rnd : 1 <= draws n rnd ->
  exists a rnd', witness_loop n ((2 ^ 64 - 1) .>> ((- nbits n) .& 63)) rnd = Done (a, rnd') /\ 2 <= a <= n - 2 /\ draws n rnd' = draws n rnd - 1.
Proof using.
  induction rnd as [|b rnd IH]; unfold draws in *; cbn [List.filter length witness_loop]; [cbn; lia|].
  cbv zeta. fold (draw n b). change (negb ((n - 1 <=? draw n b) || (draw n b <=? 1))) with (usable n b).
  assert (U : usable n b = negb ((n - 1 <=? draw n b) || (draw n b <=? 1))) by done. rewrite U.
  destruct (Z.leb_spec (n - 1) (draw n b)), (Z.leb_spec (draw n b) 1); cbn [orb negb]; try exact IH. intros _.
  exists (draw n b), rnd. split; [done|]. cbn [length]. lia.
Qed.

Lemma rounds_prime iter n s r rnd : Z.prime n -> 1 <= s -> 0 <= r -> n - 1 = r * 2 ^ s -> Z.of_nat iter <= draws n rnd ->
  exists rnd', rounds iter n s r ((2 ^ 64 - 1) .>> ((- nbits n) .& 63)) rnd = Done (true, rnd').
Proof using HNok.
  intros Hn Hs Hr E. revert rnd. induction iter as [|iter IH]; intros rnd Hd; cbn [rounds]; [by exists rnd|].
  destruct (witness_loop_spec n rnd) as (a & rnd' & -> & Ha & Hd'); [lia|]. cbn [mbind outcome_bind].
  pose proof (Z.prime_ge_2 n Hn). pose proof (powm_bound a r n Hr ltac:(lia)) as Hb.
  destruct (Z.eqb_spec (powm a r n) 1); cbn [negb andb]; [apply IH; lia|].
  rewrite square_loop_prime; [cbn [negb]; apply IH; lia|done|done|done|]. rewrite Z2Nat.id, Z.sub_add, powm_congr by lia.
  rewrite <- Z.pow_mul_r, <- E by lia. apply fermat; [done|]. apply small_unit; [done|lia].
Qed.

Lemma prime_odd n : Z.prime n -> 2 < n -> Z.odd n = true.
Proof using.
  intros [_ Hn] H2. destruct (Z.odd n) eqn:E; [done|]. destruct (Hn 2 ltac:(lia)). apply Z.mod_divide; [lia|]. by rewrite Zmod_odd, E.
Qed.

Lemma prime_test_prime n iter rnd : Z.prime n -> 0 <= iter <= draws n rnd -> exists rnd', prime_test n iter rnd = Done (true, rnd').
Proof using HNok.
  intros Hn Hi. pose proof (Z.prime_ge_2 n Hn). unfold prime_test. destruct (Z.leb_spec n 7).
  { destruct (Z.leb_spec n 0); [lia|]. exists rnd. unfold getui. rewrite Z.abs_eq, u64_small by lia. repeat f_equal.
    assert (n <> 4) by (intros ->; destruct Hn as [_ Hn]; apply (Hn 2); [lia|by exists 2]).
    assert (n <> 6) by (intros ->; destruct Hn as [_ Hn]; apply (Hn 2); [lia|by exists 3]).
    destruct (Z.eqb_spec n 1), (Z.eqb_spec n 4), (Z.eqb_spec n 6); lia || done. }
  pose proof (prime_odd n Hn ltac:(lia)) as Ho. rewrite Z.bit0_odd, Ho. cbn [negb].
  destruct (scan1_spec (n - 1)) as (Hs & r & Er & Hr); [lia|]. assert (0 < r) by (pose proof (Z.pow_pos_nonneg 2 (scan1 (n - 1)) ltac:(lia) Hs); nia).
  apply rounds_prime; [done| | | |lia].
  - destruct (Z.eq_dec (scan1 (n - 1)) 0) as [E|]; [|lia]. rewrite E, Z.mul_1_r in Er.
    rewrite <- Er, Z.odd_sub, Ho in Hr. done.
  - rewrite Er at 1. rewrite tdiv_2exp_exact by done. lia.
  - rewrite Er at 2. by rewrite tdiv_2exp_exact.
Qed.

Lemma small_primes_range : Forall (fun sp => 1 < sp <= 17881) (take (Z.to_nat num_small_primes) small_primes).
Proof using.
  apply Forall_forall. intros x Hx. assert (H : forallb (fun sp => (1 <? sp) && (sp <=? 17881)) (take (Z.to_nat num_small_primes) small_primes) = true)
    by (vm_compute; reflexivity).
  rewrite forallb_forall in H. apply list_elem_of_In in Hx. specialize (H x Hx). apply andb_true_iff in H. lia.
Qed.

Lemma srpprime_test_decides n iter rnd : Z.prime (n / 2) -> 17881 < n / 2 -> Z.odd n = true -> 0 <= iter <= draws (n / 2) rnd ->
  exists b rnd', srpprime_test n iter rnd = Done (b, rnd') /\ (b = true <-> Z.prime n).
Proof using HNok.
  intros Hq Hs Ho Hi. set (q := n / 2) in *. assert (En : n = 2 * q + 1).
  { pose proof (Z.div_mod n 2 ltac:(lia)) as E. rewrite Zmod_odd, Ho in E. unfold q. lia. }
  unfold srpprime_test. rewrite Z.bit0_odd, Ho. cbn [negb orb]. destruct (Z.ltb_spec n 5); [lia|]. unfold quickmod.
  assert (Hf : fermat2_test n = true <-> 2 ^ (n - 1) =[n]= 1) by (apply fermat2_odd; [lia|done]).
  destruct (Z.eqb_spec (n mod 3) 0) as [E3|E3]; cbn [orb].
  { exists false, rnd. split; [done|]. split; [done|]. intros [_ Hn]. destruct (Hn 3 ltac:(lia)). apply Z.mod_divide; [lia|done]. }
  destruct (fermat2_test n); cbn [negb].
  2:{ exists false, rnd. split; [done|]. split; [done|]. intros Hn. apply Hf, fermat; [done|]. by apply gcd_2_odd. }
  rewrite tdiv_2exp_pos by lia. change (2 ^ 1) with 2. fold q.
  replace (existsb _ _) with false.
  2:{ symmetry. apply not_true_iff_false. rewrite existsb_exists. intros (sp & Hin & E). apply list_elem_of_In in Hin.
      pose proof (proj1 (Forall_forall _ _) small_primes_range sp Hin) as Hr. cbv beta in Hr. apply Z.eqb_eq, Z.mod_divide in E; [|lia].
      destruct Hq as [_ Hq]. destruct (Hq sp ltac:(lia)). done. }
  destruct (prime_test_prime q iter rnd Hq Hi) as (rnd' & ->). exists true, rnd'. split; [done|]. split; [intros _|done].
  apply (pocklington_srp q); [done|lia|done| |by apply Hf]. intros D. apply E3. by apply Z.mod0_divide.
Qed.
End tests.

(** ** The sieve *)
Definition sps : list Z := take (Z.to_nat nprimes) small_primes.
Definition small_factor (x : Z) : Prop := exists sp, sp ∈ sps /\ (sp | x).

(** [sieve[pos]] is the distance to the next number that is in [R] modulo
    the size of the sieve. *)
Definition sieve_for (sieve : list Z) (R : Z -> bool) : Prop :=
  let L := Z.of_nat (length sieve) in
  0 < L <= 2 ^ 20 /\
  forall pos, 0 <= pos < L -> exists step, rd sieve pos = Done step /\ 1 <= step <= L /\ R ((pos + step) mod L) = true
    /\ forall d, 0 < d < step -> R ((pos + d) mod L) = false.

Lemma i32_small x : - 2 ^ 31 <= x < 2 ^ 31 -> i32 x = x.
Proof. intros H. unfold i32. rewrite Z.mod_small by lia. lia. Qed.

(** What an entry of [mods] says. *)
Definition mod_ok (p inc sp m : Z) : Prop := m =[sp]= p /\ 0 <= m + inc /\ m < sp.

Lemma mods_loop_spec fuel sp p inc m :
  1 < sp <= 17881 -> 0 <= inc < 2 ^ 30 + 2 ^ 20 -> m =[sp]= p -> 0 < m + inc -> m < sp -> m + inc < Z.of_nat fuel ->
  exists m' hit, mods_loop fuel sp inc m = Done (m', hit) /\ mod_ok p inc sp m' /\ (if hit : bool then (sp | p + inc) else ~ (sp | p + inc)).
Proof.
  intros Hsp Hinc. revert m. induction fuel as [|fuel IH]; intros m Hm H0 Hlt Hf; [lia|]. cbn [mods_loop].
  assert (D : forall k, k =[sp]= p -> (sp | p + inc) <-> (sp | k + inc)).
  { intros k Hk. assert (E : p + inc =[sp]= k + inc) by (by rewrite Hk). apply congr_divide in E; [|lia]. split; intros X.
    - replace (k + inc) with (p + inc - (p + inc - (k + inc))) by lia. by apply Z.divide_sub_r.
    - replace (p + inc) with (k + inc + (p + inc - (k + inc))) by lia. by apply Z.divide_add_r. }
  rewrite i32_small by lia. destruct (Z.leb_spec sp (m + inc)).
  - assert (C : m - sp =[sp]= p) by (rewrite <- Hm; apply congr_divide; [lia|]; exists (-1); lia).
    destruct (Z.eqb_spec (m - sp + inc) 0) as [E|E].
    + exists (m - sp), true. split; [done|]. split; [split; [done|lia]|]. apply (D _ C). rewrite E. apply Z.divide_0_r.
    + apply IH; [done|lia|lia|lia].
  - exists m, false. split; [done|]. split; [split; [done|lia]|]. rewrite (D _ Hm). intros X. apply Z.divide_pos_le in X; lia.
Qed.

Lemma sieve_mods_spec l mods p inc :
  Forall (fun sp => 1 < sp <= 17881) l -> 0 <= inc < 2 ^ 30 + 2 ^ 20 ->
  Forall2 (fun sp m => m =[sp]= p /\ 0 < m + inc /\ m < sp) l mods -> forall rest,
  exists mods' hit, sieve_mods (l ++ rest) mods inc = Done (mods', hit) /\ Forall2 (mod_ok p inc) l mods'
    /\ (if hit : bool then exists sp, sp ∈ l /\ (sp | p + inc) else forall sp, sp ∈ l -> ~ (sp | p + inc)).
Proof.
  intros Hl Hinc H rest. induction H as [|sp m l mods (Hm & H0 & Hlt) H IH]; cbn [app sieve_mods].
  { exists [], false. split; [by destruct rest|]. split; [done|]. intros sp Hsp. by apply elem_of_nil in Hsp. }
  apply Forall_cons in Hl as [Hsp Hl]. specialize (IH Hl).
  destruct (mods_loop_spec (S (Z.to_nat (m + inc))) sp p inc m) as (m' & hit & -> & Hok & Hh); try done; [lia|].
  cbn [mbind outcome_bind]. destruct hit.
  - exists (m' :: mods), true. split; [done|]. split; [|exists sp; split; [apply list_elem_of_here|done]]. constructor; [done|].
    eapply Forall2_impl; [exact H|]. intros x y (A & B & C). split; [done|]. lia.
  - destruct IH as (mods' & hit & -> & Hok' & Hh'). cbn [mbind outcome_bind]. exists (m' :: mods'), hit. split; [done|].
    split; [by constructor|]. destruct hit.
    + destruct Hh' as (x & Hx & Dx). exists x. split; [by apply list_elem_of_further|done].
    + intros x Hx. apply elem_of_cons in Hx as [->|Hx]; [done|by apply Hh'].
Qed.

Record pf_ok (R : Z -> bool) (pf : prime_finder) : Prop := {
  po_sieve : sieve_for (pf_sieve pf) R;
  po_pos : pf_sievepos pf = (pf_p pf + pf_inc pf) mod Z.of_nat (length (pf_sieve pf));
  po_inc : 0 <= pf_inc pf < pf_maxinc pf;
  po_max : pf_maxinc pf <= 2 ^ 30;
  po_mods : Forall2 (mod_ok (pf_p pf) (pf_inc pf)) sps (pf_mods pf)
}.

(** A number between [lo] and [hi] that the sieve lets through has a small
    factor. *)
Definition skipped (R : Z -> bool) (L lo hi : Z) : Prop := forall x, lo < x < hi -> R (x mod L) = true -> small_factor x.

Lemma skipped_step R sieve p lo step : sieve_for sieve R -> 0 <= lo -> rd sieve ((p + lo) mod Z.of_nat (length sieve)) = Done step ->
  skipped R (Z.of_nat (length sieve)) (p + lo) (p + lo + step) /\ 1 <= step <= Z.of_nat (length sieve) /\ R ((p + lo + step) mod Z.of_nat (length sieve)) = true.
Proof.
  intros [HL Hs] Hlo Hr. set (L := Z.of_nat (length sieve)) in *. pose proof (Z.mod_pos_bound (p + lo) L ltac:(lia)) as Hb.
  destruct (Hs _ Hb) as (st & Hst & H1 & H2 & H3). rewrite Hst in Hr. injection Hr as ->. split; [|split; [done|]].
  - intros x Hx HR. replace x with (p + lo + (x - (p + lo))) in HR by lia. rewrite <- Zplus_mod_idemp_l, H3 in HR by lia. done.
  - by rewrite Zplus_mod_idemp_l in H2.
Qed.

Lemma skipped_join R L a b c : skipped R L a b -> small_factor b \/ R (b mod L) = false -> skipped R L b c -> skipped R L a c.
Proof.
  intros H1 Hb H2 x Hx HR. destruct (Z.lt_trichotomy x b) as [?|[->|?]]; [apply H1; (done || lia)| |apply H2; (done || lia)].
  destruct Hb as [|Hb]; [done|]. by rewrite HR in Hb.
Qed.

Lemma small_primes_split : small_primes = sps ++ drop (Z.to_nat nprimes) small_primes.
Proof. unfold sps. by rewrite take_drop. Qed.
Lemma sps_range : Forall (fun sp => 1 < sp <= 17881) sps.
Proof. exact small_primes_range. Qed.

Definition weak_ok (R : Z -> bool) (pf : prime_finder) (w : Z) (pf' : prime_finder) : Prop :=
  let L := Z.of_nat (length (pf_sieve pf)) in
  pf_p pf' = pf_p pf /\ pf_sieve pf' = pf_sieve pf /\ pf_maxinc pf' = pf_maxinc pf /\
  (w = 0 /\ skipped R L (pf_p pf + pf_inc pf) (pf_p pf + pf_maxinc pf)
   \/ w = pf_p pf + pf_inc pf' /\ pf_inc pf < pf_inc pf' /\ R (w mod L) = true /\ ~ small_factor w /\ pf_ok R pf'
      /\ skipped R L (pf_p pf + pf_inc pf) w).

Lemma u32_pos x : 0 <= x < 2 ^ 31 -> u32 x = x.
Proof. intros. apply u32_small. lia. Qed.

Lemma next_weak_spec R fuel pf : pf_ok R pf -> pf_maxinc pf - pf_inc pf <= Z.of_nat fuel ->
  exists w pf', next_weak fuel pf = Done (w, pf') /\ weak_ok R pf w pf'.
Proof.
  revert pf. induction fuel as [|fuel IH]; intros pf [Hs Hp Hi Hm Hmods] Hf; [lia|]. cbn [next_weak].
  pose proof Hs as [HL Hrd]. set (L := Z.of_nat (length (pf_sieve pf))) in *.
  pose proof (Z.mod_pos_bound (pf_p pf + pf_inc pf) L ltac:(lia)) as Hb. destruct (Hrd (pf_sievepos pf) ltac:(lia)) as (step & Est & Hst & HR & _).
  rewrite Est. cbn [mbind outcome_bind]. rewrite Hp in Est.
  destruct (skipped_step R (pf_sieve pf) (pf_p pf) (pf_inc pf) step Hs ltac:(lia) Est) as (Hsk & _ & HR').
  cbn [pf_p pf_sieve pf_sievepos pf_inc pf_maxinc pf_mods]. fold L in Hsk, HR' |- *.
  rewrite (i32_small (pf_inc pf + step)) by lia. rewrite !u32_pos by lia. set (inc := pf_inc pf + step) in *.
  assert (Epos : (pf_sievepos pf + step) mod L = (pf_p pf + inc) mod L) by (rewrite Hp, Zplus_mod_idemp_l; unfold inc; f_equal; lia).
  rewrite Epos. replace (pf_p pf + pf_inc pf + step) with (pf_p pf + inc) in Hsk, HR' by (unfold inc; lia).
  destruct (Z.leb_spec (pf_maxinc pf) inc) as [Hge|Hlt].
  { eexists _, _. split; [done|]. unfold weak_ok. cbn [pf_p pf_sieve pf_maxinc pf_inc]. do 3 (split; [done|]). left. split; [done|].
    intros x Hx. apply Hsk. lia. }
  destruct (Z.ltb_spec inc 0); [lia|]. cbn [pf_p pf_sieve pf_sievepos pf_inc pf_maxinc pf_mods]. rewrite small_primes_split.
  destruct (sieve_mods_spec sps (pf_mods pf) (pf_p pf) inc sps_range) with (rest := drop (Z.to_nat nprimes) small_primes) as (mods' & hit & -> & Hok & Hh); [lia| |].
  { eapply Forall2_impl; [exact Hmods|]. intros x y (A & B & C). split; [done|]. lia. }
  cbn [mbind outcome_bind]. destruct hit.
  - set (pf1 := mkpf _ _ _ _ _ _). assert (Ok1 : pf_ok R pf1) by (split; cbn; try done; lia).
    destruct (IH pf1 Ok1) as (w & pf' & E & W); [cbn; lia|]. exists w, pf'. split; [exact E|].
    destruct W as (W1 & W2 & W3 & W). cbn [pf1 pf_p pf_sieve pf_maxinc pf_inc] in *. fold L in W. do 3 (split; [done|]).
    destruct W as [[-> W]|(-> & W4 & W5 & W6 & W7 & W)]; [left|right].
    + split; [done|]. eapply skipped_join; [exact Hsk|by left|done].
    + split; [done|]. split; [lia|]. do 3 (split; [done|]). eapply skipped_join; [exact Hsk|by left|done].
  - eexists _, _. split; [done|]. unfold weak_ok. cbn [pf_p pf_sieve pf_maxinc pf_inc]. fold L. do 3 (split; [done|]). right. split; [done|].
    split; [lia|]. split; [done|]. split; [intros (sp & Hsp & D); exact (Hh sp Hsp D)|]. split; [|done]. split; cbn; try done; lia.
Qed.

Lemma weak_loop_spec R fuel pf pvec : pf_ok R pf -> 0 < pf_p pf -> pf_maxinc pf - pf_inc pf <= Z.of_nat fuel ->
  exists v, weak_loop fuel pf pvec = Done v /\ (Z.of_nat (length v) <= Z.of_nat (length pvec) + (pf_maxinc pf - pf_inc pf))
    /\ forall x, x ∈ v <-> x ∈ pvec \/ (pf_p pf + pf_inc pf < x < pf_p pf + pf_maxinc pf /\ R (x mod Z.of_nat (length (pf_sieve pf))) = true /\ ~ small_factor x).
Proof.
  revert pf pvec. induction fuel as [|fuel IH]; intros pf pvec Hok Hp Hf; [destruct Hok; lia|]. cbn [weak_loop]. pose proof (po_inc _ _ Hok).
  destruct (next_weak_spec R (Z.to_nat (pf_maxinc pf)) pf Hok) as (w & pf' & -> & W1 & W2 & W3 & W); [lia|]. cbn [mbind outcome_bind].
  destruct W as [[-> W]|(Ew & W4 & W5 & W6 & W7 & W)].
  - cbn [Z.eqb]. exists pvec. split; [done|]. split; [lia|]. intros x. split; [by left|]. intros [|(H1 & H2 & H3)]; [done|].
    destruct H3. by apply W.
  - destruct (Z.eqb_spec w 0); [lia|]. destruct (IH pf' (pvec ++ [w]) W7) as (v & -> & Lv & Hv); [lia|lia|]. exists v. split; [done|].
    rewrite length_app in Lv. cbn [length] in Lv. split; [lia|]. intros x. rewrite Hv, elem_of_app, list_elem_of_singleton, W1, W2, W3. pose proof (po_inc _ _ W7).
    split.
    + intros [[Hx| ->]|(H1 & H2 & H3)]; [by left|right|right]; (split; [lia|done]).
    + intros [|(H1 & H2 & H3)]; [by left; left|]. destruct (Z.lt_trichotomy x w) as [Hx|[->|Hx]].
      * destruct H3. apply W; [lia|done].
      * left. by right.
      * right. split; [lia|done].
Qed.

(** Taking out the element at [i] and moving the last one into its place. *)
Lemma swap_out (v : list Z) i a : v !! i = Some a ->
  exists v', wr v (Z.of_nat i) (default 0 (last v)) = Done v' /\ length v' = length v
    /\ (forall x, x ∈ take (length v' - 1) v' -> x ∈ v) /\ forall x, x ∈ v -> x = a \/ x ∈ take (length v' - 1) v'.
Proof.
  intros Hi. pose proof (lookup_lt_Some _ _ _ Hi) as Hlt. unfold wr. destruct (Z.leb_spec 0 (Z.of_nat i)); [|lia].
  destruct (Z.ltb_spec (Z.of_nat i) (Z.of_nat (length v))); [|lia]. cbn [andb]. eexists. split; [done|]. rewrite Nat2Z.id, length_insert. split; [done|].
  assert (El : v !! (length v - 1)%nat = Some (default 0 (last v))).
  { rewrite last_lookup. replace (Nat.pred (length v)) with (length v - 1)%nat by lia.
    destruct (lookup_lt_is_Some_2 v (length v - 1)) as [y ->]; [lia|done]. }
  split; intros x Hx.
  - apply list_elem_of_lookup in Hx as [j Hj]. apply lookup_take_Some in Hj as [Hj _].
    apply list_lookup_insert_Some in Hj as [(<- & <- & _)|[_ Hj]]; by eapply list_elem_of_lookup_2.
  - apply list_elem_of_lookup in Hx as [j Hj]. destruct (decide (i = j)) as [->|Hne]; [left; congruence|right].
    pose proof (lookup_lt_Some _ _ _ Hj). destruct (decide (j = (length v - 1)%nat)) as [->|Hne'].
    + rewrite El in Hj. injection Hj as <-. apply (list_elem_of_lookup_2 _ i). rewrite lookup_take_lt by lia. by apply list_lookup_insert_eq.
    + apply (list_elem_of_lookup_2 _ j). rewrite lookup_take_lt by lia. by rewrite list_lookup_insert_ne.
Qed.

Section search.
Context `{HN : !GmpNum} `{HNok : !GmpNumOK}.

Definition passes (iter x : Z) : bool := fermat2_test x && probab_prime x iter.

Lemma pick_loop_spec fuel iter pvec words : (length pvec < fuel)%nat -> (length pvec <= length words)%nat -> Forall (fun w => 0 <= w) words ->
  exists x, pick_loop fuel iter pvec words = Done x
    /\ (x ∈ pvec /\ passes iter x = true \/ x = 0 /\ forall y, y ∈ pvec -> passes iter y = false).
Proof using.
  revert pvec words. induction fuel as [|fuel IH]; intros pvec words Hf Hw Hpos; [lia|]. destruct pvec as [|a pvec]; cbn [pick_loop].
  { exists 0. split; [done|]. right. split; [done|]. intros y Hy. by apply elem_of_nil in Hy. }
  set (v := a :: pvec) in *. destruct words as [|w words]; [cbn in Hw; lia|]. apply Forall_cons in Hpos as [Hw0 Hpos].
  assert (Lv : length v = S (length pvec)) by done. pose proof (Z.mod_pos_bound w (Z.of_nat (length v)) ltac:(lia)) as Hb.
  set (i := Z.to_nat (w mod Z.of_nat (length v))). replace (w mod Z.of_nat (length v)) with (Z.of_nat i) by (unfold i; lia).
  destruct (lookup_lt_is_Some_2 v i) as [pp Hpp]; [lia|]. unfold rd. destruct (Z.leb_spec 0 (Z.of_nat i)); [|lia]. rewrite Nat2Z.id, Hpp. cbn [mbind outcome_bind].
  fold (passes iter pp). destruct (passes iter pp) eqn:E.
  { exists pp. split; [done|]. left. split; [by eapply list_elem_of_lookup_2|done]. }
  destruct (swap_out v i pp Hpp) as (v' & -> & Lv' & S1 & S2). cbn [mbind outcome_bind].
  assert (Lt : length (take (length v' - 1) v') = length pvec) by (rewrite length_take; lia).
  destruct (IH (take (length v' - 1) v') words) as (x & -> & Hx); [lia|rewrite Lt; cbn in Hw; lia|done|]. exists x. split; [done|].
  destruct Hx as [[Hx1 Hx2]|[-> Hx]]; [left; split; [by apply S1|done]|right]. split; [done|]. intros y Hy.
  apply S2 in Hy as [->|Hy]; [done|by apply Hx].
Qed.

Lemma small_factor_prime y : Z.prime y -> 17881 < y -> ~ small_factor y.
Proof using.
  intros [_ Hy] H (sp & Hsp & D). pose proof (proj1 (Forall_forall _ _) sps_range sp Hsp) as Hr. cbv beta in Hr. by apply (Hy sp ltac:(lia)).
Qed.
Lemma passes_prime iter y : Z.prime y -> 2 < y -> passes iter y = true.
Proof using HNok.
  intros Hy H2. unfold passes. rewrite probab_prime_ok, andb_true_r by done. pose proof (prime_odd y Hy H2) as Ho.
  apply fermat2_odd; [done|done|]. apply fermat; [done|]. by apply gcd_2_odd.
Qed.

Lemma prime_search_spec R start range sieve iter words :
  sieve_for sieve R -> 0 < start -> 0 < range <= 2 ^ 30 -> range <= Z.of_nat (length words) -> Forall (fun w => 0 <= w) words ->
  exists x, prime_search start range sieve iter words = Done x
    /\ (x <> 0 -> start < x < start + range /\ R (x mod Z.of_nat (length sieve)) = true /\ passes iter x = true /\ ~ small_factor x)
    /\ (x = 0 -> forall y, start < y < start + range -> 17881 < y -> R (y mod Z.of_nat (length sieve)) = true -> ~ Z.prime y).
Proof using HNok.
  intros Hs Hst Hr Hw Hpos. unfold prime_search, prime_finder_new. destruct (Z.ltb_spec 0 start); [|lia]. cbn [assertM mbind outcome_bind].
  unfold setmax, calcmods. cbn [pf_p pf_sieve pf_sievepos pf_inc pf_maxinc pf_mods Z.eqb negb]. destruct (Z.ltb_spec 0 range); [|lia].
  cbn [andb assertM mbind outcome_bind Pos.eqb]. change (u32 0) with 0. rewrite Z.add_0_r. set (pf := mkpf _ _ _ _ _ _).
  assert (Ok : pf_ok R pf).
  { split; cbn; [done|by rewrite Z.add_0_r|lia|lia|]. fold sps. apply Forall2_same_length_lookup_2; [by rewrite length_fmap|].
    intros i sp m H1 H2. rewrite list_lookup_fmap, H1 in H2. cbn in H2. injection H2 as <-. unfold quickmod, mod_ok.
    pose proof (proj1 (Forall_lookup _ _) sps_range i sp H1) as Hsp. cbv beta in Hsp. split; [apply congr_mod|].
    pose proof (Z.mod_pos_bound start sp ltac:(lia)). lia. }
  cbn [negb Z.eqb Pos.eqb andb assertM mbind outcome_bind].
  destruct (weak_loop_spec R (Z.to_nat range) pf [] Ok) as (v & -> & Lv & Hv); [cbn; lia|cbn; lia|]. cbn [mbind outcome_bind].
  cbn [pf pf_p pf_inc pf_maxinc pf_sieve length] in Lv, Hv. rewrite Z.add_0_r in Hv.
  destruct (pick_loop_spec (S (length v)) iter v words) as (x & -> & Hx); [lia|lia|done|]. exists x. split; [done|]. split.
  - intros Hx0. destruct Hx as [[Hx1 Hx2]|[-> _]]; [|done]. apply Hv in Hx1 as [Hx1|(H1 & H2 & H3)]; [by apply elem_of_nil in Hx1|].
    split_and!; (done || lia).
  - intros -> y Hy Hy' HR Hp. destruct Hx as [[Hx1 _]|[_ Hx]].
    + apply Hv in Hx1 as [Hx1|(H1 & _)]; [by apply elem_of_nil in Hx1|lia].
    + assert (Y : passes iter y = false); [|by rewrite passes_prime in Y by (done || lia)]. apply Hx, Hv. right. split; [lia|]. split; [done|].
      by apply small_factor_prime.
Qed.
End search.

(** ** Properties *)
Section properties.
Context `{HG : !Gmp} `{HN : !GmpNum} `{HNok : !GmpNumOK}.

(** [srpprime_test] decides whether [n] is prime when [(n - 1) / 2] is: if
    that is a prime beyond the table of small primes, the test ends (given
    enough random numbers in range) and its answer is whether [n] is prime, by
    the argument of Pocklington that the comment on it gives. *)
Theorem srpprime_decides n iter rnd : Z.prime (n / 2) -> 17881 < n / 2 -> Z.odd n = true -> 0 <= iter <= draws (n / 2) rnd ->
  exists b rnd', srpprime_test n iter rnd = Done (b, rnd') /\ (b = true <-> Z.prime n).
Proof using HNok. apply srpprime_test_decides. Qed.

(** [prime_search] ends and returns a number of the range that the sieve
    admits, that has no small factor and passes the tests; if it returns 0
    there is no prime (beyond the table of small primes) that the sieve
    admits in the range. *)
Theorem prime_search_correct R start range sieve iter words :
  sieve_for sieve R -> 0 < start -> 0 < range <= 2 ^ 30 -> range <= Z.of_nat (length words) -> Forall (fun w => 0 <= w) words ->
  exists x, prime_search start range sieve iter words = Done x
    /\ (x <> 0 -> start < x < start + range /\ R (x mod Z.of_nat (length sieve)) = true /\ passes iter x = true /\ ~ small_factor x)
    /\ (x = 0 -> forall y, start < y < start + range -> 17881 < y -> R (y mod Z.of_nat (length sieve)) = true -> ~ Z.prime y).
Proof using HNok. apply prime_search_spec. Qed.
End properties.

Lemma srpprime_decides_witness : exists b rnd', @srpprime_test num_model 35879 1 [[7; 1; 0; 0; 0; 0; 0; 0]] = Done (b, rnd') /\ (b = true <-> Z.prime 35879).
Proof.
  apply (srpprime_decides 35879 1 [[7; 1; 0; 0; 0; 0; 0; 0]]).
  - apply is_prime_spec. vm_compute. reflexivity.
  - vm_compute. reflexivity.
  - reflexivity.
  - vm_compute. split; discriminate.
Defined.

Lemma odd_sieve_for : sieve_for odd_sieve (fun x => x =? 1).
Proof.
  split; [cbn; lia|]. intros pos Hpos. change (Z.of_nat (length odd_sieve)) with 2 in *. assert (pos = 0 \/ pos = 1) as [-> | ->] by lia.
  - exists 1. split_and!; try done. intros d Hd. lia.
  - exists 2. split_and!; try done. intros d Hd. assert (d = 1) as -> by lia. done.
Qed.

Lemma prime_search_correct_witness :
  exists x, @prime_search num_model 1000000 20 odd_sieve 5 (replicate 20 0) = Done x /\ (x <> 0 -> passes (HN := num_model) 5 x = true).
Proof.
  destruct (prime_search_correct (HN := num_model) (fun x => x =? 1) 1000000 20 odd_sieve 5 (replicate 20 0) odd_sieve_for) as (x & E & H & _);
    [lia|lia|vm_compute; discriminate|apply Forall_replicate; lia|].
  exists x. split; [exact E|]. intros Hx. apply H. exact Hx.
Defined.

(** * Random numbers: [random_bigint] and [random_zn] of [crypt/random_prime.C] *)
(** A block of random bytes of the right size for [bits] bits. *)
Definition block_ok (bits : Z) (b : list Z) : Prop := Z.of_nat (length b) = (bits + 7) / 8 /\ Forall is_byte b.

Section random.
Context `{HG : !Gmp} `{HGok : !GmpOK}.

(** The first byte is masked and the bytes are read as a number. *)
Lemma masked_be bits b : 0 < bits -> block_ok bits b ->
  exists c b' m, rd b 0 = Done c /\ wr b 0 (c .& (0xff .>> ((- bits) .& 7))) = Done b'
    /\ mpz_set_rawmag_be (mkmpz 0 []) b' = Done m /\ 0 <= mpz_val m < 2 ^ bits.
Proof using HGok.
  intros Hbits [Hl Hb]. pose proof (Z.div_mod (bits + 7) 8 ltac:(lia)). pose proof (Z.mod_pos_bound (bits + 7) 8 ltac:(lia)).
  destruct b as [|c b]; [cbn in Hl; lia|]. fold (msbmask bits). apply Forall_cons in Hb as [Hc Hb].
  assert (Hm : is_byte (c .& msbmask bits)).
  { pose proof (msbmask_byte bits) as M. unfold is_byte in *. split; [apply Z.land_nonneg; lia|].
    rewrite <- (Z.mod_small c (2 ^ 8)), <- Z.land_ones, <- Z.land_assoc, (Z.land_comm (Z.ones 8)), Z.land_assoc, Z.land_ones by lia.
    pose proof (Z.mod_pos_bound (c .& msbmask bits) (2 ^ 8) ltac:(lia)). lia. }
  exists c, ((c .& msbmask bits) :: b). destruct (set_rawmag_be_spec (mkmpz 0 []) ((c .& msbmask bits) :: b)) as (m & E & R); [by constructor|].
  exists m. split; [done|]. split. { unfold wr. cbn [length Z.leb]. destruct (Z.ltb_spec 0 (Z.of_nat (S (length b)))); [done|lia]. }
  split; [done|]. rewrite (mpz_val_rep _ _ R), reverse_cons, <- maskl_snoc. apply masked_bound; [lia| |rewrite length_app; cbn; lia|].
  - apply Forall_app. split; [by apply Forall_reverse|by constructor].
  - rewrite length_app, length_reverse. cbn [length] in *. lia.
Qed.

Lemma nbits_unique x n : 0 < n -> 2 ^ (n - 1) <= x < 2 ^ n -> nbits x = n.
Proof using.
  intros Hn Hx. assert (0 < 2 ^ (n - 1)) by (apply Z.pow_pos_nonneg; lia). unfold nbits. destruct (Z.eqb_spec x 0); [lia|]. rewrite Z.abs_eq by lia.
  rewrite (Z.log2_unique x (n - 1)); [lia|lia|]. rewrite <- Z.add_1_r, Z.sub_add. lia.
Qed.

(** [random_bigint] gives a number of exactly [bits] bits. *)
Lemma random_bigint_spec bits b rnd : 0 < bits -> block_ok bits b ->
  exists x, random_bigint bits (b :: rnd) = Done (x, rnd) /\ 2 ^ (bits - 1) <= x < 2 ^ bits.
Proof using HGok.
  intros Hbits Hb. destruct (masked_be bits b Hbits Hb) as (c & b' & m & E1 & E2 & E3 & Hm). unfold random_bigint.
  destruct (Z.eqb_spec bits 0); [lia|]. cbn [rnd_getbytes mbind outcome_bind]. rewrite E1. cbn [mbind outcome_bind]. rewrite E2. cbn [mbind outcome_bind].
  rewrite E3. cbn [mbind outcome_bind]. set (x := Z.setbit (mpz_val m) (bits - 1)).
  assert (Hx : 2 ^ (bits - 1) <= x < 2 ^ bits).
  { assert (P : 0 < 2 ^ (bits - 1)) by (apply Z.pow_pos_nonneg; lia). assert (E : 2 ^ bits = 2 * 2 ^ (bits - 1)) by (rewrite <- Z.pow_succ_r by lia; f_equal; lia).
    unfold x, Z.setbit. rewrite Z.shiftl_1_l. rewrite (Z.div_mod (mpz_val m) (2 ^ (bits - 1))) by lia. set (r := _ mod _).
    assert (Hr : 0 <= r < 2 ^ (bits - 1)) by (apply Z.mod_pos_bound; lia).
    assert (Hl : r .& 2 ^ (bits - 1) = 0).
    { apply Z.bits_inj'. intros i Hi. rewrite Z.land_spec, Z.pow2_bits_eqb, Z.bits_0 by lia. destruct (Z.eqb_spec (bits - 1) i) as [<-|]; [|by rewrite andb_false_r].
      rewrite (testbit_high r (bits - 1)) by lia. done. }
    assert (Hq : mpz_val m / 2 ^ (bits - 1) = 0 \/ mpz_val m / 2 ^ (bits - 1) = 1).
    { pose proof (Z.div_pos (mpz_val m) (2 ^ (bits - 1)) ltac:(lia) P). assert (mpz_val m / 2 ^ (bits - 1) < 2); [|lia]. apply Z.div_lt_upper_bound; lia. }
    destruct Hq as [-> | ->].
    - rewrite Z.mul_0_r, Z.add_0_l, <- Z.lxor_lor, <- Z.add_nocarry_lxor by done. lia.
    - rewrite Z.mul_1_r, (Z.add_comm _ r), Z.add_nocarry_lxor, Z.lxor_lor, <- Z.lor_assoc, Z.lor_diag, <- Z.lxor_lor, <- Z.add_nocarry_lxor by done. lia. }
  rewrite (nbits_unique x bits Hbits Hx). rewrite Z.eqb_refl. exists x. done.
Qed.

(** [random_zn] gives a number below [n]. *)
Lemma random_zn_spec n rnd x rnd' : 0 < n -> Forall (block_ok (nbits n)) rnd -> random_zn n rnd = Done (x, rnd') ->
  0 <= x < n /\ Forall (block_ok (nbits n)) rnd'.
Proof using HGok.
  intros Hn Hb. unfold random_zn. destruct (Z.ltb_spec 0 n); [|lia]. cbn [assertM mbind outcome_bind].
  induction Hb as [|b rnd Hb Hrnd IH]; [done|]. cbn [random_zn_loop].
  destruct (masked_be (nbits n) b (nbits_pos n Hn) Hb) as (c & b' & m & E1 & E2 & E3 & Hm). rewrite E1. cbn [mbind outcome_bind]. rewrite E2.
  cbn [mbind outcome_bind]. rewrite E3. cbn [mbind outcome_bind]. destruct (Z.leb_spec n (mpz_val m)); [done|]. intros [= <- <-]. split; [lia|done].
Qed.
End random.
