(* ===== verification/Rabin.v ===== *)
(** * The public-key system of Rabin and Williams: [crypt/rabin.C], [crypt/rabin.h]

    [rnd] are the bytes that padding asks for, [blk] the blocks of random bytes
    of [random_bigint], [rsel] the result of [rnd.getword ()]. *)
From Stdlib Require Import ZArith Lia Znumtheory.
From stdpp Require Import prelude.
From S2P Require Import Prelude Mdblock Sha1 Bits Mpz MpzSpec MpzOps MpzRaw Pad NumTheory Bigint Prime PrimeProps.

Record rabin_pub := mkrpub { rw_n : Z; rw_nbits : Z }.
Definition rabin_pub_new (nn : Z) : rabin_pub := mkrpub nn (Z.max (nbits nn - 5) 0).

Record rabin_priv := mkrpriv {
  rw_pub : rabin_pub;
  rw_p : Z;
  rw_q : Z;
  rw_u : Z;
  rw_kp : Z;
  rw_kq : Z
}.

Section rabin.
Context `{HG : !Gmp} `{HN : !GmpNum}.

(** ** The four operations *)
(** The result and the value of [m]. *)
Definition rw_E1 (k : rabin_pub) (inp : Z) : bool * Z :=
  let m := inp * 2 + 1 in
  let j := jacobi m (rw_n k) in
  if j =? 0 then (false, m)
  else
    let m := if j =? 1 then m * 2 ^ 2 else if j =? -1 then m * 2 ^ 1 else m in
    if rw_n k <=? m then (false, m) else (true, m).

Definition rw_D1 (k : rabin_pub) (inp : Z) : Z :=
  let c := getui inp .& 3 in
  if c =? 0 then tdiv_2exp (inp - 4) 3
  else if c =? 1 then tdiv_2exp (rw_n k - inp - 4) 3
  else if c =? 2 then tdiv_2exp (inp - 2) 2
  else tdiv_2exp (rw_n k - inp - 2) 2.

Definition rw_E2 (k : rabin_pub) (inp : Z) : Z := Z.rem (inp * inp) (rw_n k).

Definition rw_D2 (k : rabin_priv) (blk : list (list Z)) (inp rsel : Z) : outcome (Z * list (list Z)) :=
  let n := rw_n (rw_pub k) in
  x ← random_bigint (nbits n - 1) blk;
  let '(r, blk) := x : Z * list (list Z) in
  let ri := Z.rem (r * r) n in
  let r := ri * ri in
  let r := invert r n in
  let r := Z.rem (r * inp) n in
  let op := powm r (rw_kp k) (rw_p k) in
  let oq := powm r (rw_kq k) (rw_q k) in
  let op := if negb (rsel .& 1 =? 0) then rw_p k - op else op in
  let oq := if negb (rsel .& 2 =? 0) then rw_q k - oq else oq in
  let m := (op - oq) * rw_u k in
  let m := m mod rw_p k in
  let m := m * rw_q k + oq in
  Done (Z.rem (m * ri) n, blk).

(** ** Keys *)
Definition rabin_priv_new (n1 n2 : Z) : outcome rabin_priv :=
  assertM (n1 <? n2) ;;
  let u := (invert n2 n1) mod n1 in
  let p1 := n1 - 1 in
  let q1 := n2 - 1 in
  let kp := tdiv_2exp (p1 * q1 + 4) 3 in
  let kq := Z.rem kp q1 in
  let kp := Z.rem kp p1 in
  Done (mkrpriv (rabin_pub_new (n1 * n2)) n1 n2 u kp kq).

Definition rabin_make (n1 n2 : Z) : outcome (option rabin_priv) :=
  if (n1 =? n2) || (n1 <=? 1) || (n2 <=? 1) || negb (probab_prime n1 5) || negb (probab_prime n2 5) then Done None
  else k ← (if n1 <? n2 then rabin_priv_new n1 n2 else rabin_priv_new n2 n1); Done (Some k).

Definition sieve_3_mod_4 : list Z := [3; 2; 1; 4].
Definition sieve_3_mod_8 : list Z := [3; 2; 1; 8; 7; 6; 5; 4].
Definition sieve_7_mod_8 : list Z := [7; 6; 5; 4; 3; 2; 1; 8].

Definition rabin_keygen (bits iter : Z) (tries : list (list (list Z) * list Z)) : outcome rabin_priv :=
  x ← random_prime (bits / 2 + (bits .& 1)) sieve_3_mod_4 iter tries;
  let '(p1, tries) := x : Z * list (list (list Z) * list Z) in
  x ← random_prime (bits / 2 + 1) (if Z.testbit p1 2 then sieve_3_mod_8 else sieve_7_mod_8) iter tries;
  let '(p2, _) := x : Z * list (list (list Z) * list Z) in
  if p2 <? p1 then rabin_priv_new p2 p1 else rabin_priv_new p1 p2.

(** ** Messages *)
Context (junk : Z -> list Z).

Definition rabin_encrypt (k : rabin_pub) (rnd : Z -> list Z) (msg : list Z) : outcome Z :=
  m ← pre_encrypt junk rnd msg (rw_nbits k);
  let m := mpz_val m in
  if m =? 0 then Done 0
  else let '(ok, m) := rw_E1 k m in if negb ok then Done 0 else Done (rw_E2 k m).

Definition rabin_decrypt (k : rabin_priv) (blk : list (list Z)) (msg msglen : Z) : outcome (option (list Z)) :=
  x ← rw_D2 k blk msg 0;
  let m := rw_D1 (rw_pub k) (x.1) in
  post_decrypt junk (mpz_of_Z m) msglen (rw_nbits (rw_pub k)).

Definition rabin_sign (k : rabin_priv) (rnd : Z -> list Z) (blk : list (list Z)) (rsel : Z) (msg : list Z) : outcome Z :=
  sc ← Mdblock.update (sha1ctx_new (junk 64)) msg;
  m ← pre_sign junk rnd sc (rw_nbits (rw_pub k));
  let '(_, m) := rw_E1 (rw_pub k) (mpz_val m) in
  x ← rw_D2 k blk m rsel;
  Done (x.1).

Definition rabin_verify (k : rabin_pub) (msg : list Z) (s : Z) : outcome bool :=
  let m := rw_D1 k (rw_E2 k s) in
  sc ← Mdblock.update (sha1ctx_new (junk 64)) msg;
  post_verify junk sc (mpz_of_Z m) (rw_nbits k).

Definition rabin_sign_r (k : rabin_priv) (rnd : Z -> list Z) (blk : list (list Z)) (rsel : Z) (msg : list Z) : outcome Z :=
  m ← pre_sign_r junk rnd msg (rw_nbits (rw_pub k));
  let '(_, m) := rw_E1 (rw_pub k) (mpz_val m) in
  x ← rw_D2 k blk m rsel;
  Done (x.1).

Definition rabin_verify_r (k : rabin_pub) (s msglen : Z) : outcome (option (list Z)) :=
  let m := rw_D1 k (rw_E2 k s) in
  post_verify_r junk (mpz_of_Z m) msglen (rw_nbits k).
End rabin.

(** * Theorems on the system of Rabin and Williams

    Decryption undoes encryption and verification accepts signatures, for
    keys whose primes are 3 and 7 modulo 8; [rabin_keygen] makes such keys. *)
(** ** Characters *)
Definition chi (a p : Z) : Z := a ^ ((p - 1) / 2).

Lemma half_odd p : Z.odd p = true -> p - 1 = 2 * ((p - 1) / 2).
Proof. intros Ho. apply Z.div_exact; [lia|]. by rewrite Zmod_odd, Z.odd_sub, Ho. Qed.

Lemma chi_sign p a : Z.prime p -> 2 < p -> Z.gcd a p = 1 -> chi a p =[p]= 1 \/ chi a p =[p]= -1.
Proof.
  intros Hp H2 Hg. apply sqrt_one; [done|]. unfold chi. pose proof (half_odd p (prime_odd p Hp H2)) as E.
  rewrite <- Z.pow_2_r, <- Z.pow_mul_r, Z.mul_comm, <- E by (try apply Z.div_pos; lia). by apply fermat.
Qed.
Lemma legendre_chi p a : Z.prime p -> 2 < p -> Z.gcd a p = 1 ->
  (legendre a p = 1 /\ chi a p =[p]= 1) \/ (legendre a p = -1 /\ chi a p =[p]= -1).
Proof.
  intros Hp H2 Hg. unfold legendre. fold (chi a p). destruct (chi_sign p a Hp H2 Hg) as [H|H]; [left|right]; (split; [|done]).
  - apply congr_eq in H; [|lia]. by rewrite H.
  - assert (E : chi a p mod p = p - 1).
    { apply congr_eq; [|lia]. rewrite H. apply congr_divide; [lia|]. exists (-1). lia. }
    rewrite E. destruct (Z.eqb_spec (p - 1) 0), (Z.eqb_spec (p - 1) 1); lia || done.
Qed.
Lemma chi_mul p a b : chi (a * b) p = chi a p * chi b p.
Proof. unfold chi. apply Z.pow_mul_l. Qed.
Lemma chi_square p a : Z.prime p -> 2 < p -> Z.gcd a p = 1 -> chi (a * a) p =[p]= 1.
Proof. intros Hp H2 Hg. rewrite chi_mul. destruct (chi_sign p a Hp H2 Hg) as [-> | ->]; done. Qed.

(** ** Keys *)
Record key_ok (p q : Z) : Prop := {
  ko_p : Z.prime p;
  ko_q : Z.prime q;
  ko_lt : p < q;
  ko_8 : p mod 8 = 3 /\ q mod 8 = 7 \/ p mod 8 = 7 /\ q mod 8 = 3
}.

(** The exponent [k]. *)
Definition rw_k (p q : Z) : Z := ((p - 1) * (q - 1) + 4) / 8.

Lemma key_sizes p q : key_ok p q -> 2 < p /\ 2 < q /\ Z.gcd p q = 1 /\ (p * q) mod 4 = 1 /\ 8 * rw_k p q = (p - 1) * (q - 1) + 4
  /\ (exists a, (p - 1) / 2 = 2 * a + 1 /\ 0 <= a) /\ (exists b, (q - 1) / 2 = 2 * b + 1 /\ 0 <= b).
Proof.
  intros [Hp Hq Hlt H8]. pose proof (Z.prime_ge_2 p Hp). pose proof (Z.prime_ge_2 q Hq).
  pose proof (Z.div_mod p 8 ltac:(lia)) as Ep. pose proof (Z.div_mod q 8 ltac:(lia)) as Eq. set (a := p / 8) in *. set (b := q / 8) in *.
  assert (Ha : 0 <= a) by (apply Z.div_pos; lia). assert (Hb : 0 <= b) by (apply Z.div_pos; lia).
  assert (Hg : Z.gcd p q = 1) by (apply small_unit; [done|lia]).
  assert (H5 : exists c, p * q = c * 4 + 1 /\ exists d, (p - 1) * (q - 1) + 4 = d * 8).
  { destruct H8 as [[F1 F2]|[F1 F2]]; rewrite F1 in Ep; rewrite F2 in Eq.
    - exists (16 * a * b + 14 * a + 6 * b + 5). split; [nia|]. exists (8 * a * b + 6 * a + 2 * b + 2). nia.
    - exists (16 * a * b + 6 * a + 14 * b + 5). split; [nia|]. exists (8 * a * b + 2 * a + 6 * b + 2). nia. }
  destruct H5 as (c & Ec & d & Ed). split; [lia|]. split; [lia|]. split; [done|]. split; [rewrite Ec, Z.add_comm, Z_mod_plus_full; done|].
  split; [unfold rw_k; rewrite Ed, Z.div_mul by lia; lia|]. destruct H8 as [[E1 E2]|[E1 E2]]; rewrite E1 in Ep; rewrite E2 in Eq.
  - split; [exists (2 * a)|exists (2 * b + 1)]; (split; [symmetry; apply Z.div_unique_exact; lia|lia]).
  - split; [exists (2 * a + 1)|exists (2 * b)]; (split; [symmetry; apply Z.div_unique_exact; lia|lia]).
Qed.

(** ** The number theory *)
Lemma odd_power p q k b x : 2 < p -> 0 <= b -> p - 1 = 2 * ((p - 1) / 2) -> q - 1 = 2 * (2 * b + 1) -> 8 * k = (p - 1) * (q - 1) + 4 ->
  chi x p =[p]= 1 \/ chi x p =[p]= -1 -> x ^ (2 * k) =[p]= x * chi x p.
Proof.
  intros Hp Hb E1 E2 Ek Hc. set (h := (p - 1) / 2) in *. assert (0 <= h) by lia.
  assert (E : 2 * k = 1 + h * (1 + 2 * b)) by (rewrite E2, E1 in Ek; lia).
  rewrite E, Z.pow_add_r, Z.pow_1_r, Z.pow_mul_r by (try apply Z.mul_nonneg_nonneg; lia). unfold chi in *. fold h in Hc |- *.
  destruct Hc as [-> | ->]; [by rewrite Z.pow_1_l by lia|]. apply congr_mul_eq. f_equal.
  rewrite Z.pow_add_r, Z.pow_mul_r by lia. change ((-1) ^ 2) with 1. by rewrite Z.pow_1_l by lia.
Qed.

Section key.
Context (p q : Z) (K : key_ok p q).

(** [x^2k] is [x] up to the character. *)
Lemma pow_2k_p x : Z.gcd x p = 1 -> x ^ (2 * rw_k p q) =[p]= x * chi x p.
Proof using K.
  intros Hx. destruct (key_sizes p q K) as (H2 & H2' & _ & _ & Ek & (a & Ea & Ha) & (b & Eb & Hb)). pose proof (ko_p _ _ K) as Hp.
  pose proof (half_odd p (prime_odd p Hp H2)) as E1. pose proof (half_odd q (prime_odd q (ko_q _ _ K) H2')) as E2. rewrite Eb in E2.
  apply (odd_power p q _ b); try done. fold (chi x p). by apply chi_sign.
Qed.
Lemma pow_2k_q x : Z.gcd x q = 1 -> x ^ (2 * rw_k p q) =[q]= x * chi x q.
Proof using K.
  intros Hx. destruct (key_sizes p q K) as (H2 & H2' & _ & _ & Ek & (a & Ea & Ha) & (b & Eb & Hb)). pose proof (ko_q _ _ K) as Hq.
  pose proof (half_odd p (prime_odd p (ko_p _ _ K) H2)) as E1. pose proof (half_odd q (prime_odd q Hq H2')) as E2. rewrite Ea in E1.
  rewrite Z.mul_comm in Ek. apply (odd_power q p _ a); try done; [lia|]. fold (chi x q). by apply chi_sign.
Qed.

Lemma k_nonneg : 0 <= rw_k p q.
Proof using K. destruct (key_sizes p q K) as (? & ? & _ & _ & Ek & _). nia. Qed.

(** A number with the same character modulo both primes is its own power up
    to the sign. *)
Definition balanced (x : Z) : Prop := Z.gcd x (p * q) = 1 /\ exists c, (c = 1 \/ c = -1) /\ chi x p =[p]= c /\ chi x q =[q]= c.

Lemma pow_2k x : balanced x -> x ^ (2 * rw_k p q) =[p * q]= x \/ x ^ (2 * rw_k p q) =[p * q]= p * q - x.
Proof using K.
  intros (Hg & c & Hc & Cp & Cq). destruct (key_sizes p q K) as (H2 & H2' & Hpq & _). apply gcd_mul_r in Hg as [Gp Gq].
  assert (H : x ^ (2 * rw_k p q) =[p * q]= x * c) by (apply crt; [lia|lia|done|rewrite pow_2k_p, Cp by done; done|rewrite pow_2k_q, Cq by done; done]).
  destruct Hc as [-> | ->]; [left|right]; rewrite H; [by rewrite Z.mul_1_r|]. apply congr_divide; [nia|]. exists (-1). lia.
Qed.
End key.

(** ** The operations *)
Section ops.
Context `{HG : !Gmp} `{HGok : !GmpOK} `{HN : !GmpNum} `{HNok : !GmpNumOK}.
Context (p q : Z) (K : key_ok p q).

(** [x] is what [E1] gives for [m]. *)
Definition encodes (m x : Z) : Prop := x = 4 * (2 * m + 1) \/ x = 2 * (2 * m + 1).

Lemma two_chars : chi 2 p =[p]= 1 /\ chi 2 q =[q]= -1 \/ chi 2 p =[p]= -1 /\ chi 2 q =[q]= 1.
Proof using K.
  destruct K as [Hp Hq _ [[E1 E2]|[E1 E2]]]; [right|left].
  - split; [by apply two_3_mod_8|by apply two_7_mod_8].
  - split; [by apply two_7_mod_8|by apply two_3_mod_8].
Qed.

Lemma E1_spec nb m : 0 <= m -> 8 * m + 4 < p * q -> Z.gcd (2 * m + 1) (p * q) = 1 ->
  exists x, rw_E1 (mkrpub (p * q) nb) m = (true, x) /\ encodes m x /\ 0 < x < p * q /\ balanced p q x.
Proof using K HNok.
  intros Hm Hn Hg. destruct (key_sizes p q K) as (H2 & H2' & Hpq & _). pose proof (ko_lt _ _ K). destruct (gcd_mul_r _ _ _ Hg) as [Gp Gq].
  assert (G2 : Z.gcd 2 (p * q) = 1).
  { apply gcd_2_odd. rewrite Z.odd_mul, (prime_odd p), (prime_odd q); try done; apply K. }
  destruct (gcd_mul_r _ _ _ G2) as [G2p G2q].
  assert (Hx : forall t x, t = 1 \/ t = 2 -> x = (2 * m + 1) * (2 * t) -> encodes m x /\ 0 < x < p * q /\ Z.gcd x (p * q) = 1).
  { intros t x Ht ->. split; [unfold encodes; lia|]. split; [lia|]. apply gcd_mul_1; [done|]. apply gcd_mul_1; [done|].
    destruct Ht as [-> | ->]; [apply Z.gcd_1_l|done]. }
  unfold rw_E1. cbn [rw_n]. replace (m * 2 + 1) with (2 * m + 1) by lia. rewrite (jacobi_ok _ p q); try apply K; try lia.
  pose proof (fun x => chi_square p 2 (ko_p _ _ K) H2 x) as Sp. pose proof (fun x => chi_square q 2 (ko_q _ _ K) H2' x) as Sq.
  destruct (legendre_chi p (2 * m + 1) (ko_p _ _ K) H2 Gp) as [[-> Cp]|[-> Cp]];
    destruct (legendre_chi q (2 * m + 1) (ko_q _ _ K) H2' Gq) as [[-> Cq]|[-> Cq]];
    [change (1 * 1) with 1|change (1 * -1) with (-1)|change (-1 * 1) with (-1)|change (-1 * -1) with 1]; lazy beta iota zeta delta [Z.eqb Pos.eqb].
  1,4: destruct (Hx 2 ((2 * m + 1) * 2 ^ 2)) as (X1 & X2 & X3); [by right|lia|]; destruct (Z.leb_spec (p * q) ((2 * m + 1) * 2 ^ 2)); [lia|].
  3,4: destruct (Hx 1 ((2 * m + 1) * 2 ^ 1)) as (X1 & X2 & X3); [by left|lia|]; destruct (Z.leb_spec (p * q) ((2 * m + 1) * 2 ^ 1)); [lia|].
  all: eexists; split; [reflexivity|]; split; [done|]; split; [done|]; split; [done|].
  1,2: change (2 ^ 2) with (2 * 2);
    first [exists 1; split; [lia|]; rewrite (chi_mul p _ (2 * 2)), (chi_mul q _ (2 * 2)), Cp, Cq, Sp, Sq by done; done
          |exists (-1); split; [lia|]; rewrite (chi_mul p _ (2 * 2)), (chi_mul q _ (2 * 2)), Cp, Cq, Sp, Sq by done; done].
  all: change (2 ^ 1) with 2; destruct two_chars as [[Tp Tq]|[Tp Tq]];
    first [exists 1; split; [lia|]; rewrite !chi_mul, Cp, Cq, Tp, Tq; done|exists (-1); split; [lia|]; rewrite !chi_mul, Cp, Cq, Tp, Tq; done].
Qed.

Lemma getui_mod4 x : 0 <= x -> getui x .& 3 = x mod 4.
Proof using.
  intros Hx. unfold getui. rewrite Z.abs_eq by done. change 3 with (Z.ones 2). rewrite Z.land_ones, u64_mod by lia.
  apply Z.mod_mod_divide. by exists (2 ^ 62).
Qed.

Lemma D1_spec nb m x : 0 <= m -> encodes m x -> 0 < x < p * q -> rw_D1 (mkrpub (p * q) nb) x = m /\ rw_D1 (mkrpub (p * q) nb) (p * q - x) = m.
Proof using K.
  intros Hm Hx Hb. destruct (key_sizes p q K) as (_ & _ & _ & H4 & _). unfold rw_D1. cbn [rw_n]. rewrite !getui_mod4 by lia.
  rewrite (Zminus_mod (p * q) x), H4. replace (p * q - (p * q - x)) with x by lia. destruct Hx as [-> | ->].
  - replace (4 * (2 * m + 1)) with ((2 * m + 1) * 4) by lia. rewrite Z_mod_mult. cbn [Z.eqb Z.sub Z.opp Z.add]. change (1 mod 4) with 1. cbn [Z.eqb Pos.eqb].
    replace ((2 * m + 1) * 4 - 4) with (m * 2 ^ 3) by lia. rewrite tdiv_2exp_exact by lia. done.
  - replace (2 * (2 * m + 1)) with (2 + m * 4) by lia. rewrite Z_mod_plus_full. change (2 mod 4) with 2. cbn [Z.eqb Z.sub Z.opp Z.add Pos.eqb Z.pos_sub].
    change (-1 mod 4) with 3. cbn [Z.eqb Pos.eqb]. replace (2 + m * 4 - 2) with (m * 2 ^ 2) by lia. by rewrite tdiv_2exp_exact by lia.
Qed.

Lemma key_new : exists u kp kq, rabin_priv_new p q = Done (mkrpriv (rabin_pub_new (p * q)) p q u kp kq)
  /\ u * q =[p]= 1 /\ kp = rw_k p q mod (p - 1) /\ kq = rw_k p q mod (q - 1).
Proof using K HNok.
  destruct (key_sizes p q K) as (H2 & H2' & Hpq & _ & Ek & _). pose proof (ko_lt _ _ K). pose proof (k_nonneg p q K). unfold rabin_priv_new.
  destruct (Z.ltb_spec p q); [|lia]. cbn [assertM mbind outcome_bind]. rewrite tdiv_2exp_pos by nia. change (2 ^ 3) with 8. fold (rw_k p q).
  rewrite !rem_pos by lia. do 3 eexists. split; [done|]. split; [|done]. rewrite congr_mod, Z.mul_comm. apply invert_congr; [lia|]. by rewrite Z.gcd_comm.
Qed.

(** Recombining the residues. *)
Lemma recombine u op oq : u * q =[p]= 1 ->
  ((op - oq) * u) mod p * q + oq =[p]= op /\ ((op - oq) * u) mod p * q + oq =[q]= oq.
Proof using K.
  intros Hu. split.
  - rewrite congr_mod, <- Z.mul_assoc, Hu. apply congr_mul_eq. lia.
  - rewrite (congr_multiple q). by rewrite Z.add_0_l.
Qed.

(** Taking the random factor in and out again. *)
Lemma blind pr r i inp k : Z.prime pr -> 0 <= k -> Z.gcd r pr = 1 -> (exists j, 4 * k = 2 + (pr - 1) * j /\ 0 <= j) ->
  (r * r) * (r * r) * i =[pr]= 1 -> (i * inp) ^ k * (r * r) =[pr]= inp ^ k.
Proof using.
  intros Hp Hk Hr (j & Ej & Hj) Hi. pose proof (Z.prime_ge_2 pr Hp).
  assert (E : (r * r) ^ (2 * k) =[pr]= r * r).
  { rewrite <- Z.pow_2_r, <- Z.pow_mul_r by lia. replace (2 * (2 * k)) with (2 + (pr - 1) * j) by lia.
    rewrite Z.pow_add_r, (pow_order pr r (pr - 1)), Z.mul_1_r by (try apply Z.mul_nonneg_nonneg; lia || by apply fermat). done. }
  rewrite Z.pow_mul_l. rewrite <- E at 1. rewrite Z.pow_mul_r, Z.pow_2_r by lia.
  transitivity (inp ^ k * ((r * r) * (r * r) * i) ^ k); [apply congr_mul_eq; rewrite !Z.pow_mul_l; ring|]. by rewrite Hi, Z.pow_1_l, Z.mul_1_r by lia.
Qed.

Definition sel (rsel b : Z) : Z := if negb (rsel .& b =? 0) then -1 else 1.

Lemma D2_spec k blk r blk' inp rsel :
  rabin_priv_new p q = Done k -> random_bigint (nbits (p * q) - 1) blk = Done (r, blk') -> Z.gcd r (p * q) = 1 -> 0 <= r ->
  0 <= inp -> Z.gcd inp (p * q) = 1 ->
  exists m, rw_D2 k blk inp rsel = Done (m, blk') /\ 0 <= m < p * q
    /\ m =[p]= sel rsel 1 * inp ^ rw_k p q /\ m =[q]= sel rsel 2 * inp ^ rw_k p q.
Proof using K HNok.
  intros Hk Hr Gr Pr Hi Gi. destruct key_new as (u & kp & kq & E & Hu & Ekp & Ekq). rewrite E in Hk. injection Hk as <-.
  destruct (key_sizes p q K) as (H2 & H2' & Hpq & _ & Ek & _). pose proof (ko_lt _ _ K). pose proof (k_nonneg p q K) as Hkk.
  destruct (gcd_mul_r _ _ _ Gr) as [Grp Grq]. destruct (gcd_mul_r _ _ _ Gi) as [Gip Giq]. assert (Hn : 1 < p * q) by nia.
  unfold rw_D2. cbn [rw_pub rabin_pub_new rw_n rw_kp rw_kq rw_p rw_q rw_u]. rewrite Hr. cbn [mbind outcome_bind].
  set (ri := Z.rem (r * r) (p * q)). set (i := invert (ri * ri) (p * q)). set (R := Z.rem (i * inp) (p * q)).
  assert (Cri : ri =[p * q]= r * r) by (apply rem_congr; lia).
  assert (Pri : 0 <= ri) by (apply Z.rem_nonneg; nia).
  assert (Gri : Z.gcd (ri * ri) (p * q) = 1).
  { rewrite (congr_gcd (p * q) (ri * ri) ((r * r) * (r * r))) by (lia || by rewrite Cri). by repeat apply gcd_mul_1. }
  assert (Hii : (r * r) * (r * r) * i =[p * q]= 1) by (rewrite <- Cri; by apply invert_congr).
  assert (Pi : 0 <= i < p * q) by (by apply invert_bound).
  assert (CR : R =[p * q]= i * inp) by (apply rem_congr; lia).
  assert (GR : Z.gcd R (p * q) = 1).
  { rewrite (congr_gcd (p * q) R (i * inp)) by (done || lia). apply gcd_mul_1; [by apply invert_unit|done]. }
  destruct (gcd_mul_r _ _ _ GR) as [GRp GRq].
  assert (D : forall a b, a =[p * q]= b -> a =[p]= b /\ a =[q]= b).
  { intros a b X. split; (eapply congr_of_divide; [| | |exact X]; [lia|nia|]); [exists q|exists p]; lia. }
  destruct (D _ _ Cri) as [Crip Criq], (D _ _ Hii) as [Hiip Hiiq], (D _ _ CR) as [CRp CRq].
  assert (Op : powm R kp p * ri =[p]= inp ^ rw_k p q).
  { rewrite powm_congr by (rewrite ?Ekp; try apply Z.mod_pos_bound; lia). rewrite Ekp, pow_mod_order, CRp, Crip by (lia || by apply fermat; [apply K|]).
    apply blind; [apply K|done|done|exists ((q - 1) / 2)|done]. rewrite <- (Z.mul_cancel_l _ _ 2) by lia. pose proof (half_odd q (prime_odd q (ko_q _ _ K) H2')). nia. }
  assert (Oq : powm R kq q * ri =[q]= inp ^ rw_k p q).
  { rewrite powm_congr by (rewrite ?Ekq; try apply Z.mod_pos_bound; lia). rewrite Ekq, pow_mod_order, CRq, Criq by (lia || by apply fermat; [apply K|]).
    apply blind; [apply K|done|done|exists ((p - 1) / 2)|done]. pose proof (half_odd p (prime_odd p (ko_p _ _ K) H2)). nia. }
  set (op := if negb (rsel .& 1 =? 0) then p - powm R kp p else powm R kp p). set (oq := if negb (rsel .& 2 =? 0) then q - powm R kq q else powm R kq q).
  assert (Sp : op * ri =[p]= sel rsel 1 * inp ^ rw_k p q).
  { rewrite <- Op. unfold op, sel. destruct (negb (rsel .& 1 =? 0)); [|apply congr_mul_eq; ring]. apply congr_divide; [lia|]. exists ri. ring. }
  assert (Sq : oq * ri =[q]= sel rsel 2 * inp ^ rw_k p q).
  { rewrite <- Oq. unfold oq, sel. destruct (negb (rsel .& 2 =? 0)); [|apply congr_mul_eq; ring]. apply congr_divide; [lia|]. exists ri. ring. }
  destruct (recombine u op oq Hu) as [Rp Rq]. set (m := ((op - oq) * u) mod p * q + oq) in *.
  eexists. split; [done|].
  assert (Pm : 0 <= m).
  { assert (0 <= oq) by (unfold oq; pose proof (powm_bound R kq q); destruct (negb (rsel .& 2 =? 0)); rewrite ?Ekq in *; pose proof (Z.mod_pos_bound (rw_k p q) (q - 1)); lia).
    pose proof (Z.mod_pos_bound ((op - oq) * u) p). unfold m. nia. }
  split; [apply Z.rem_bound_pos; nia|]. destruct (D _ _ (rem_congr (p * q) (m * ri) ltac:(lia))) as [X Y]. split; [by rewrite X, Rp|by rewrite Y, Rq].
Qed.
End ops.

(** ** Padded messages *)
Lemma get_rep buf m x : mpz_rep m x -> mpz_get_rawmag_le buf (mpz_of_Z x) = mpz_get_rawmag_le buf m.
Proof. intros R. by rewrite (get_rawmag_le_spec buf m x R), (get_rawmag_le_spec buf _ x (mpz_of_Z_rep x)). Qed.

Section messages.
Context `{HG : !Gmp} `{HGok : !GmpOK} `{HN : !GmpNum} `{HNok : !GmpNumOK}.
Context (junk : Z -> list Z) (Hjunk : forall n, 0 <= n -> length (junk n) = Z.to_nat n).
Context (rnd : Z -> list Z) (Hrnd : forall n, 0 <= n -> length (rnd n) = Z.to_nat n /\ Forall is_byte (rnd n)).
Context (p q : Z) (K : key_ok p q) (k : rabin_priv) (Hk : rabin_priv_new p q = Done k).

Lemma key_pub : rw_pub k = mkrpub (p * q) (Z.max (nbits (p * q) - 5) 0).
Proof using K Hk HNok. destruct (key_new p q K) as (u & kp & kq & E & _). rewrite E in Hk. by injection Hk as <-. Qed.

Lemma fits m : 0 <= m < 2 ^ (nbits (p * q) - 5) -> 0 <= (nbits (p * q) - 5) -> 8 * m + 4 < p * q.
Proof using K.
  intros Hm Hb. destruct (key_sizes p q K) as (H2 & H2' & _). pose proof (nbits_low (p * q) ltac:(nia)) as L.
  assert (E : 2 ^ (nbits (p * q) - 1) = 16 * 2 ^ (nbits (p * q) - 5)). { change 16 with (2 ^ 4). rewrite <- Z.pow_add_r by lia. f_equal. lia. }
  rewrite E in L. lia.
Qed.

(** What is signed is recovered from the signature by squaring. *)
Lemma sign_core blk r blk' rsel m : random_bigint (nbits (p * q) - 1) blk = Done (r, blk') -> Z.gcd r (p * q) = 1 -> 0 <= r ->
  0 <= m < 2 ^ (nbits (p * q) - 5) -> 0 <= (nbits (p * q) - 5) -> Z.gcd (2 * m + 1) (p * q) = 1 ->
  exists x s, rw_E1 (rw_pub k) m = (true, x) /\ rw_D2 k blk x rsel = Done (s, blk') /\ rw_D1 (rw_pub k) (rw_E2 (rw_pub k) s) = m.
Proof using K Hk HNok.
  intros Hr Gr Pr Hm Hb Gm. rewrite key_pub. destruct (E1_spec p q K (Z.max (nbits (p * q) - 5) 0) m) as (x & E1 & Ex & Bx & Hx); [lia|by apply fits|done|].
  destruct (D2_spec p q K k blk r blk' x rsel Hk Hr Gr Pr ltac:(lia) ltac:(apply Hx)) as (s & D2 & Bs & Cp & Cq).
  exists x, s. split; [done|]. split; [done|]. destruct (key_sizes p q K) as (H2 & H2' & Hpq & _). pose proof (k_nonneg p q K).
  assert (Hsq : forall e, e = sel rsel 1 \/ e = sel rsel 2 -> e * e = 1) by (intros e; unfold sel; repeat destruct (negb _); intros [-> | ->]; done).
  assert (Es : s * s =[p * q]= x ^ (2 * rw_k p q)).
  { replace (x ^ (2 * rw_k p q)) with (x ^ rw_k p q * x ^ rw_k p q) by (rewrite <- Z.pow_add_r by lia; f_equal; lia).
    apply crt; [lia|lia|done| |].
    - rewrite Cp. transitivity (sel rsel 1 * sel rsel 1 * (x ^ rw_k p q * x ^ rw_k p q)); [apply congr_mul_eq; ring|].
      rewrite Hsq by (by left). apply congr_mul_eq. lia.
    - rewrite Cq. transitivity (sel rsel 2 * sel rsel 2 * (x ^ rw_k p q * x ^ rw_k p q)); [apply congr_mul_eq; ring|].
      rewrite Hsq by (by right). apply congr_mul_eq. lia. }
  unfold rw_E2. cbn [rw_n]. rewrite rem_pos by nia. destruct (D1_spec p q K (Z.max (nbits (p * q) - 5) 0) m x) as [D1 D1']; [lia|done|done|].
  destruct (pow_2k p q K x Hx) as [C|C]; (rewrite (congr_eq (p * q) (s * s) _ (transitivity Es C)) by lia); done.
Qed.

(** What is encrypted comes back from the square root. *)
Lemma decrypt_core blk r blk' m : random_bigint (nbits (p * q) - 1) blk = Done (r, blk') -> Z.gcd r (p * q) = 1 -> 0 <= r ->
  0 <= m < 2 ^ (nbits (p * q) - 5) -> 0 <= (nbits (p * q) - 5) -> Z.gcd (2 * m + 1) (p * q) = 1 ->
  exists x s, rw_E1 (rw_pub k) m = (true, x) /\ rw_D2 k blk (rw_E2 (rw_pub k) x) 0 = Done (s, blk') /\ rw_D1 (rw_pub k) s = m.
Proof using K Hk HNok.
  intros Hr Gr Pr Hm Hb Gm. rewrite key_pub. destruct (E1_spec p q K (Z.max (nbits (p * q) - 5) 0) m) as (x & E1 & Ex & Bx & Hx); [lia|by apply fits|done|].
  assert (Ee : forall b, rw_E2 (mkrpub (p * q) b) x = (x * x) mod (p * q)) by (intros b; unfold rw_E2; cbn [rw_n]; by rewrite rem_pos by nia).
  assert (Gx : Z.gcd ((x * x) mod (p * q)) (p * q) = 1).
  { rewrite (congr_gcd (p * q) _ (x * x)) by (lia || apply congr_mod). apply gcd_mul_1; apply Hx. }
  destruct (D2_spec p q K k blk r blk' ((x * x) mod (p * q)) 0 Hk Hr Gr Pr) as (s & D2 & Bs & Cp & Cq); [apply Z.mod_pos_bound; lia|done|].
  exists x, s. rewrite Ee. split; [done|]. split; [done|]. destruct (key_sizes p q K) as (H2 & H2' & Hpq & _). pose proof (k_nonneg p q K).
  change (sel 0 1) with 1 in Cp. change (sel 0 2) with 1 in Cq. rewrite Z.mul_1_l in Cp, Cq.
  assert (Es : s =[p * q]= x ^ (2 * rw_k p q)).
  { rewrite Z.pow_mul_r, Z.pow_2_r by lia. apply crt; [lia|lia|done|rewrite Cp|rewrite Cq];
      (apply congr_pow; [|done]); (eapply congr_of_divide; [| | |apply (congr_mod (p * q))]; [lia|nia|]); [exists q|exists p]; lia. }
  destruct (D1_spec p q K (Z.max (nbits (p * q) - 5) 0) m x) as [D1 D1']; [lia|done|done|].
  destruct (pow_2k p q K x Hx) as [C|C]; pose proof (congr_small (p * q) s _ (transitivity Es C) Bs ltac:(lia)) as E; by rewrite E.
Qed.

Lemma new_ctx msg : Z.of_nat (length msg) + 80 < 2 ^ 64 -> exists sc, Mdblock.update (sha1ctx_new (junk 64)) msg = Done sc /\ ctx_holds sc msg.
Proof using Hjunk.
  intros Hl. destruct (hash_more (sha1ctx_new (junk 64)) [] msg) as (sc & _ & E & H & _); [apply sha1ctx_new_rep; by rewrite Hjunk|cbn [app]; lia|].
  by exists sc.
Qed.

(** C19: Signatures.  For a key whose primes are 3 and 7 modulo 8, the signature
    of a message is verified for it; [verify] accepts it for another message
    exactly if the hashes of the two messages with the random bytes of the
    signature collide.  This for any of the four square roots ([rsel]), and any
    random factor [r] that hides the timing and has an inverse; what is signed must not share
    a factor with the key (which would be found then). *)
Theorem rabin_sign_verify blk r blk' rsel msg m :
  random_bigint (nbits (p * q) - 1) blk = Done (r, blk') -> Z.gcd r (p * q) = 1 -> 0 <= r ->
  52 <= (nbits (p * q) - 5) / 8 -> nbits (p * q) - 5 < 2 ^ 32 -> Z.of_nat (length msg) + 80 < 2 ^ 64 ->
  (sc ← Mdblock.update (sha1ctx_new (junk 64)) msg; pre_sign junk rnd sc (nbits (p * q) - 5)) = Done m ->
  Z.gcd (2 * mpz_val m + 1) (p * q) = 1 ->
  exists s, rabin_sign junk k rnd blk rsel msg = Done s
    /\ forall msg', Z.of_nat (length msg') + 80 < 2 ^ 64 ->
       rabin_verify junk (rw_pub k) msg' s = Done (dec_eqb (fips_sha1 (msg' ++ rnd 16)) (fips_sha1 (msg ++ rnd 16))).
Proof using K Hk HNok HGok Hjunk Hrnd.
  intros Hr Gr Pr Hb Hb' Hl Em Gm. destruct (Hrnd 16 ltac:(lia)) as [R1 R2].
  assert (Hb0 : 0 <= nbits (p * q) - 5) by (pose proof (Z.div_mod (nbits (p * q) - 5) 8 ltac:(lia)); pose proof (Z.mod_pos_bound (nbits (p * q) - 5) 8); lia).
  assert (Ep : rw_pub k = mkrpub (p * q) (nbits (p * q) - 5)) by (rewrite key_pub; f_equal; lia).
  destruct (new_ctx msg Hl) as (sc & Esc & Hsc). rewrite Esc in Em. cbn [mbind outcome_bind] in Em.
  destruct (sign_spec junk Hjunk (nbits (p * q) - 5) ltac:(lia) rnd sc msg Hb Hsc R1 R2 Hl) as (m' & x & Em' & Rx & Bx & V).
  rewrite Em in Em'. injection Em' as <-. rewrite (mpz_val_rep _ _ Rx) in Gm.
  destruct (sign_core blk r blk' rsel x Hr Gr Pr Bx Hb0 Gm) as (e & s & E1 & D2 & D1). exists s. split.
  { unfold rabin_sign. rewrite Esc. cbn [mbind outcome_bind]. rewrite Ep at 1. cbn [rw_nbits]. rewrite Em. cbn [mbind outcome_bind].
    rewrite (mpz_val_rep _ _ Rx), E1, D2. done. }
  intros msg' Hl'. unfold rabin_verify. destruct (new_ctx msg' Hl') as (sc' & -> & Hsc'). cbn [mbind outcome_bind]. rewrite D1, Ep. cbn [rw_nbits].
  rewrite <- (V sc' msg' Hsc' Hl'). unfold post_verify. by rewrite (get_rep _ _ _ Rx).
Qed.

(** Encryption.  With such a key, [decrypt] gives back the message that
    [encrypt] was given. *)
Theorem rabin_decrypt_encrypt blk r blk' msg m :
  random_bigint (nbits (p * q) - 1) blk = Done (r, blk') -> Z.gcd r (p * q) = 1 -> 0 <= r ->
  0 <= nbits (p * q) - 5 < 2 ^ 32 -> Forall is_byte msg -> Z.of_nat (length msg) + 32 <= (nbits (p * q) - 5) / 8 ->
  pre_encrypt junk rnd msg (nbits (p * q) - 5) = Done m -> mpz_val m <> 0 -> Z.gcd (2 * mpz_val m + 1) (p * q) = 1 ->
  exists c, rabin_encrypt junk (rw_pub k) rnd msg = Done c /\ rabin_decrypt junk k blk c (Z.of_nat (length msg)) = Done (Some msg).
Proof using K Hk HNok HGok Hjunk Hrnd.
  intros Hr Gr Pr Hb Bm Hl Em Hm0 Gm. assert (Ep : rw_pub k = mkrpub (p * q) (nbits (p * q) - 5)) by (rewrite key_pub; f_equal; lia).
  destruct (encrypt_spec junk Hjunk (Z.of_nat (length msg)) (nbits (p * q) - 5) ltac:(lia) ltac:(lia) ltac:(lia) rnd msg Hrnd Bm eq_refl)
    as (m' & x & Em' & Rx & Bx & V). rewrite Em in Em'. injection Em' as <-. rewrite (mpz_val_rep _ _ Rx) in Gm, Hm0.
  destruct (decrypt_core blk r blk' x Hr Gr Pr Bx (proj1 Hb) Gm) as (e & s & E1 & D2 & D1). exists (rw_E2 (rw_pub k) e). split.
  { unfold rabin_encrypt. rewrite Ep at 1. cbn [rw_nbits]. rewrite Em. cbn [mbind outcome_bind]. rewrite (mpz_val_rep _ _ Rx).
    destruct (Z.eqb_spec x 0); [done|]. by rewrite E1. }
  unfold rabin_decrypt. rewrite D2. cbn [mbind outcome_bind fst]. rewrite D1, Ep. cbn [rw_nbits]. rewrite <- V. unfold post_decrypt.
  by rewrite (get_rep _ _ _ Rx).
Qed.
End messages.

(** ** Key generation *)
Lemma sieve_for_dec sieve R : 
  (0 <? Z.of_nat (length sieve)) && (Z.of_nat (length sieve) <=? 2 ^ 20) &&
  forallb (fun pos => let L := Z.of_nat (length sieve) in let step := default 0 (sieve !! Z.to_nat pos) in
    (1 <=? step) && (step <=? L) && R ((pos + step) mod L) && forallb (fun d => negb (R ((pos + d) mod L))) (seqZ 1 (step - 1)))
    (seqZ 0 (Z.of_nat (length sieve))) = true -> sieve_for sieve R.
Proof.
  rewrite !andb_true_iff, Z.ltb_lt, Z.leb_le, forallb_forall. intros [[H1 H2] H]. split; [lia|]. intros pos Hpos.
  specialize (H pos). rewrite <- list_elem_of_In, elem_of_seqZ in H. specialize (H ltac:(lia)). cbv zeta in H.
  destruct (lookup_lt_is_Some_2 sieve (Z.to_nat pos)) as [step E]; [lia|]. rewrite E in H. cbn [default] in H. unfold id in H.
  rewrite !andb_true_iff, !Z.leb_le, forallb_forall in H. destruct H as [[[H3 H4] H5] H6]. exists step. unfold rd.
  destruct (Z.leb_spec 0 pos); [|lia]. rewrite E. split_and!; try done. intros d Hd. specialize (H6 d).
  rewrite <- list_elem_of_In, elem_of_seqZ in H6. specialize (H6 ltac:(lia)). by apply negb_true_iff.
Qed.
Lemma sieve_3_4 : sieve_for sieve_3_mod_4 (fun x => x =? 3).
Proof. apply sieve_for_dec. reflexivity. Qed.
Lemma sieve_3_8 : sieve_for sieve_3_mod_8 (fun x => x =? 3).
Proof. apply sieve_for_dec. reflexivity. Qed.
Lemma sieve_7_8 : sieve_for sieve_7_mod_8 (fun x => x =? 7).
Proof. apply sieve_for_dec. reflexivity. Qed.

Section keygen.
Context `{HG : !Gmp} `{HGok : !GmpOK} `{HN : !GmpNum} `{HNok : !GmpNumOK}.

(** A try of [random_prime] has the random bytes and words it may ask for. *)
Definition try_ok (nb range : Z) (t : list (list Z) * list Z) : Prop :=
  (exists b rnd, t.1 = b :: rnd /\ block_ok nb b) /\ range <= Z.of_nat (length (t.2)) /\ Forall (fun w => 0 <= w) (t.2).

Lemma random_prime_spec R nb sieve iter tries p tries' : sieve_for sieve R -> 0 < nb -> 4 * Z.of_nat (length sieve) * nb <= 2 ^ 30 ->
  Forall (try_ok nb (4 * Z.of_nat (length sieve) * nb)) tries -> random_prime nb sieve iter tries = Done (p, tries') ->
  2 ^ (nb - 1) < p /\ R (p mod Z.of_nat (length sieve)) = true /\ passes iter p = true /\ exists pre, tries = pre ++ tries'.
Proof using HGok HNok.
  intros Hs Hnb Hr. induction 1 as [|[rnd words] tries ((b & rnd' & E1 & Hb) & Hw & Hp) Htr IH]; [done|]. cbn [random_prime].
  cbn [fst snd] in *. subst rnd. destruct (random_bigint_spec nb b rnd' Hnb Hb) as (x & -> & Hx). cbn [mbind outcome_bind fst].
  pose proof Hs as [HL _]. rewrite u32_small by nia. assert (0 < 2 ^ (nb - 1)) by (apply Z.pow_pos_nonneg; lia).
  destruct (prime_search_spec R x (4 * Z.of_nat (length sieve) * nb) sieve iter words Hs ltac:(lia) ltac:(nia) Hw Hp) as (y & -> & H1 & _).
  cbn [mbind outcome_bind]. destruct (Z.eqb_spec y 0) as [_|Hy].
  - intros E. destruct (IH E) as (I1 & I2 & I3 & pre & ->). split_and!; try done. by exists ((b :: rnd', words) :: pre).
  - intros [= <- <-]. destruct (H1 Hy) as (I1 & I2 & I3 & _). split_and!; try done; [lia|]. by exists [(b :: rnd', words)].
Qed.

(** [rabin_keygen] makes a key from two numbers that pass the tests for
    primes and are 3 and 7 modulo 8, the smaller one first: if they are prime,
    signatures and encryption work with it. *)
Theorem rabin_keygen_residues bits iter tries k :
  0 < bits <= 2 ^ 24 -> Forall (fun t => forall nb len, nb = bits / 2 + (bits .& 1) \/ nb = bits / 2 + 1 -> len = 4 \/ len = 8 -> try_ok nb (4 * len * nb) t) tries ->
  rabin_keygen bits iter tries = Done k ->
  rabin_priv_new (rw_p k) (rw_q k) = Done k /\ passes iter (rw_p k) = true /\ passes iter (rw_q k) = true
  /\ (Z.prime (rw_p k) -> Z.prime (rw_q k) -> key_ok (rw_p k) (rw_q k)).
Proof using HGok HNok.
  intros Hb Ht. unfold rabin_keygen. assert (H1 : 0 <= bits / 2 <= 2 ^ 23 /\ 0 <= bits .& 1 < 2 /\ bits = 2 * (bits / 2) + (bits .& 1)).
  { pose proof (Z.div_mod bits 2 ltac:(lia)). pose proof (Z.mod_pos_bound bits 2 ltac:(lia)). change 1 with (Z.ones 1). rewrite Z.land_ones by lia. change (2 ^ 1) with 2. lia. }
  destruct (random_prime (bits / 2 + (bits .& 1)) _ _ _) as [[p1 tries']| | |] eqn:E1; try done. cbn [mbind outcome_bind].
  destruct (random_prime_spec (fun x => x =? 3) (bits / 2 + (bits .& 1)) sieve_3_mod_4 iter tries p1 tries' sieve_3_4) as (P1 & R1 & T1 & pre & ->); [lia|cbn [length sieve_3_mod_4]; lia| |exact E1|].
  { eapply Forall_impl; [exact Ht|]. intros t Hok. apply Hok; [by left|by left]. }
  apply Forall_app in Ht as [_ Ht]. destruct (random_prime _ _ _ tries') as [[p2 tries'']| | |] eqn:E2; try done. cbn [mbind outcome_bind].
  assert (X : exists c, p2 mod 8 = c /\ passes iter p2 = true /\ c = (if Z.testbit p1 2 then 3 else 7)).
  { destruct (Z.testbit p1 2).
    - destruct (random_prime_spec (fun x => x =? 3) (bits / 2 + 1) sieve_3_mod_8 iter tries' p2 tries'' sieve_3_8) as (P2 & R2 & T2 & _); [lia|cbn [length sieve_3_mod_8]; lia| |exact E2|].
      { eapply Forall_impl; [exact Ht|]. intros t Hok. apply Hok; [by right|by right]. }
      exists 3. apply Z.eqb_eq in R2. done.
    - destruct (random_prime_spec (fun x => x =? 7) (bits / 2 + 1) sieve_7_mod_8 iter tries' p2 tries'' sieve_7_8) as (P2 & R2 & T2 & _); [lia|cbn [length sieve_7_mod_8]; lia| |exact E2|].
      { eapply Forall_impl; [exact Ht|]. intros t Hok. apply Hok; [by right|by right]. }
      exists 7. apply Z.eqb_eq in R2. done. }
  destruct X as (c & Ec & T2 & Hc). apply Z.eqb_eq in R1. change (Z.of_nat (length sieve_3_mod_4)) with 4 in R1.
  assert (R1' : p1 mod 8 = if Z.testbit p1 2 then 7 else 3).
  { rewrite Z.testbit_eqb by lia. pose proof (Z.rem_mul_r p1 4 2 ltac:(lia) ltac:(lia)) as M. change (4 * 2) with 8 in M. change (2 ^ 2) with 4.
    pose proof (Z.mod_pos_bound (p1 / 4) 2 ltac:(lia)). destruct (Z.eqb_spec ((p1 / 4) mod 2) 1); lia. }
  assert (Hne : p1 <> p2) by (intros ->; destruct (Z.testbit p2 2); lia). unfold rabin_priv_new.
  destruct (Z.ltb_spec p2 p1) as [Hlt|Hge].
  - destruct (Z.ltb_spec p2 p1); [|lia]. cbn [assertM mbind outcome_bind]. intros [= <-]. cbn [rw_p rw_q].
    destruct (Z.ltb_spec p2 p1); [|lia]. split_and!; try done. intros. split; try done. destruct (Z.testbit p1 2); lia.
  - destruct (Z.ltb_spec p1 p2); [|lia]. cbn [assertM mbind outcome_bind]. intros [= <-]. cbn [rw_p rw_q].
    destruct (Z.ltb_spec p1 p2); [|lia]. split_and!; try done. intros. split; try done. destruct (Z.testbit p1 2); lia.
Qed.
End keygen.

(** ** Examples *)
Lemma sample_key : key_ok sample_p sample_q.
Proof. split; [apply sample_p_prime|apply sample_q_prime|reflexivity|left; split; reflexivity]. Qed.

#[local] Existing Instances gmp_model num_model.
Definition sample_priv : rabin_priv := match rabin_priv_new sample_p sample_q with Done k => k | _ => mkrpriv (rabin_pub_new 0) 0 0 0 0 0 end.
Definition sample_blk : list (list Z) := [replicate 54 9].
Definition sample_r : Z := match random_bigint 427 sample_blk with Done (r, _) => r | _ => 0 end.
Definition sample_sign : mpz :=
  match (sc ← Mdblock.update (sha1ctx_new (sample_bytes 64)) [104; 105]; pre_sign sample_bytes sample_bytes sc 423) with Done m => m | _ => bigint_zero end.
Definition sample_enc : mpz := match pre_encrypt sample_bytes sample_bytes [104; 105] 423 with Done m => m | _ => bigint_zero end.
Lemma sample_priv_new : rabin_priv_new sample_p sample_q = Done sample_priv.
Proof. vm_compute. reflexivity. Qed.

Lemma rabin_sign_verify_witness :
  exists s, rabin_sign sample_bytes sample_priv sample_bytes sample_blk 3 [104; 105] = Done s
    /\ rabin_verify sample_bytes (rw_pub sample_priv) [104; 105] s = Done true.
Proof.
  destruct (rabin_sign_verify sample_bytes (fun n H => proj1 (sample_bytes_ok n H)) sample_bytes sample_bytes_ok sample_p sample_q sample_key sample_priv
    sample_priv_new sample_blk sample_r [] 3 [104; 105] sample_sign) as (s & E & V);
    [vm_compute; reflexivity|vm_compute; reflexivity|vm_compute; discriminate|vm_compute; discriminate|vm_compute; reflexivity|vm_compute; reflexivity
    |vm_compute; reflexivity|vm_compute; reflexivity|].
  exists s. split; [exact E|]. rewrite V by (cbn; lia). unfold dec_eqb. rewrite bool_decide_true by reflexivity. reflexivity.
Defined.

Lemma rabin_decrypt_encrypt_witness :
  exists c, rabin_encrypt sample_bytes (rw_pub sample_priv) sample_bytes [104; 105] = Done c
    /\ rabin_decrypt sample_bytes sample_priv sample_blk c 2 = Done (Some [104; 105]).
Proof.
  destruct (rabin_decrypt_encrypt sample_bytes (fun n H => proj1 (sample_bytes_ok n H)) sample_bytes sample_bytes_ok sample_p sample_q sample_key sample_priv
    sample_priv_new sample_blk sample_r [] [104; 105] sample_enc) as (c & E & D);
    [vm_compute; reflexivity|vm_compute; reflexivity|vm_compute; discriminate|split; [vm_compute; discriminate|vm_compute; reflexivity]
    |repeat constructor; unfold is_byte; lia|vm_compute; discriminate|vm_compute; reflexivity|vm_compute; discriminate|vm_compute; reflexivity|].
  exists c. split; [exact E|exact D].
Defined.

(** A key of 35 bits. *)
Definition sample_tries : list (list (list Z) * list Z) := [([[1; 2; 3]], replicate 600 0); ([[4; 5; 6]], replicate 600 0)].

Definition sample_small : rabin_priv := mkrpriv (rabin_pub_new (66067 * 132367)) 66067 132367 45935 49550 33092.
Lemma sample_keygen : rabin_keygen 34 5 sample_tries = Done sample_small.
Proof. vm_compute. reflexivity. Qed.

Lemma rabin_keygen_residues_witness : exists k, rabin_keygen 34 5 sample_tries = Done k /\ rabin_priv_new (rw_p k) (rw_q k) = Done k.
Proof.
  exists sample_small. split; [exact sample_keygen|]. apply (rabin_keygen_residues 34 5 sample_tries sample_small); [lia| |exact sample_keygen].
  repeat apply Forall_cons_2; try apply Forall_nil_2; intros nb len Hnb Hlen; (split; [|split]).
  all: try (cbn [snd]; rewrite length_replicate; destruct Hnb as [-> | ->], Hlen as [-> | ->]; vm_compute; discriminate).
  all: try (cbn [snd]; apply Forall_replicate; lia).
  all: eexists _, _; split; [reflexivity|]; destruct Hnb as [-> | ->]; (split; [reflexivity|repeat constructor; unfold is_byte; lia]).
Defined.
