(* ===== verification/Rsa.v ===== *)
(** * RSA: [crypt/rsa.C], [crypt/rsa.h]

    The exponent is 3; decryption works modulo the two primes. *)
From Stdlib Require Import ZArith Lia Znumtheory.
From stdpp Require Import prelude.
From S2P Require Import Prelude Mdblock Sha1 Bits Mpz MpzSpec MpzRaw Pad NumTheory Bigint Prime PrimeProps.

Record rsa_pub := mkrsapub { rsa_n : Z; rsa_e : Z; rsa_nbits : Z }.
Definition rsa_pub_new (nn : Z) : rsa_pub := mkrsapub nn 3 (Z.max (nbits nn - 1) 0).

Record rsa_priv := mkrsapriv {
  rsa_pub_of : rsa_pub;
  rsa_p : Z;
  rsa_q : Z;
  rsa_phin : Z;
  rsa_d : Z;
  rsa_dp : Z;
  rsa_dq : Z;
  rsa_pinvq : Z
}.

Section rsa.
Context `{HG : !Gmp} `{HN : !GmpNum}.

(** [init] is the assertion. *)
Definition rsa_priv_new (n1 n2 : Z) : outcome rsa_priv :=
  let pub := rsa_pub_new (n1 * n2) in
  let p1 := n1 - 1 in
  let q1 := n2 - 1 in
  let phin := p1 * q1 in
  let d := invert (rsa_e pub) phin mod phin in
  let dp := d mod p1 in
  let dq := d mod q1 in
  let pinvq := invert n1 n2 mod n2 in
  assertM (n1 <? n2) ;;
  Done (mkrsapriv pub n1 n2 phin d dp dq pinvq).

Definition rsa_make (n1 n2 : Z) : outcome (option rsa_priv) :=
  if (n1 =? n2) || (n1 <=? 1) || (n2 <=? 1) || negb (probab_prime n1 5) || negb (probab_prime n2 5) then Done None
  else k ← (if n1 <? n2 then rsa_priv_new n1 n2 else rsa_priv_new n2 n1); Done (Some k).

Definition rsa_keygen (fuel weak : nat) (nb : Z) (rnd1 rnd2 : list (list Z)) : outcome rsa_priv :=
  p1 ← random_srpprime fuel weak (nb / 2 + (nb .& 1)) rnd1;
  p2 ← random_srpprime fuel weak (nb / 2 + (nb .& 1)) rnd2;
  if p2 <? p1 then rsa_priv_new p2 p1 else rsa_priv_new p1 p2.

Definition rsa_encrypt_int (k : rsa_pub) (m : Z) : Z :=
  if (m =? 0) || (rsa_nbits k <? nbits m) then 0 else powm m (rsa_e k) (rsa_n k).

Definition rsa_decrypt_int (k : rsa_priv) (c : Z) : Z :=
  let mp := powm c (rsa_dp k) (rsa_p k) in
  let mq := powm c (rsa_dq k) (rsa_q k) in
  let v := ((mq - mp) * rsa_pinvq k) mod rsa_q k in
  mp + rsa_p k * v.

Context (junk : Z -> list Z).

Definition rsa_encrypt (k : rsa_pub) (rnd : Z -> list Z) (msg : list Z) : outcome Z :=
  m ← pre_encrypt junk rnd msg (rsa_nbits k);
  let m := mpz_val m in
  if m =? 0 then Done 0 else Done (rsa_encrypt_int k m).

Definition rsa_decrypt (k : rsa_priv) (msg msglen : Z) : outcome (option (list Z)) :=
  let m := rsa_decrypt_int k msg in
  post_decrypt junk (mpz_of_Z m) msglen (rsa_nbits (rsa_pub_of k)).
End rsa.

(** ** Correctness *)
Section correct.
Context `{HG : !Gmp} `{HGok : !GmpOK} `{HN : !GmpNum} `{HNok : !GmpNumOK}.
Context (p q : Z) (Hp : Z.prime p) (Hq : Z.prime q) (Hlt : 2 < p < q) (H3 : Z.gcd 3 ((p - 1) * (q - 1)) = 1).

Lemma rsa_new : exists k, rsa_priv_new p q = Done k /\ rsa_pub_of k = mkrsapub (p * q) 3 (nbits (p * q) - 1) /\ rsa_p k = p /\ rsa_q k = q
  /\ 3 * rsa_dp k =[p - 1]= 1 /\ 3 * rsa_dq k =[q - 1]= 1 /\ 0 < rsa_dp k /\ 0 < rsa_dq k /\ rsa_pinvq k * p =[q]= 1.
Proof using Hp Hq Hlt H3 HNok.
  unfold rsa_priv_new. cbv zeta. destruct (Z.ltb_spec p q); [|lia]. cbn [assertM mbind outcome_bind rsa_pub_new rsa_e]. eexists. split; [done|].
  cbn [rsa_pub_of rsa_p rsa_q rsa_dp rsa_dq rsa_pinvq]. pose proof (nbits_pos (p * q) ltac:(nia)).
  split; [unfold rsa_pub_new; f_equal; lia|]. do 2 (split; [done|]). set (phi := (p - 1) * (q - 1)) in *. assert (Hphi : 1 < phi) by nia.
  set (d := invert 3 phi mod phi). assert (Hd : 3 * d =[phi]= 1) by (unfold d; rewrite congr_mod; by apply invert_congr).
  assert (Dp : 3 * (d mod (p - 1)) =[p - 1]= 1).
  { rewrite congr_mod. apply (congr_of_divide (p - 1) phi); [lia|lia|exists (q - 1); unfold phi; lia|done]. }
  assert (Dq : 3 * (d mod (q - 1)) =[q - 1]= 1).
  { rewrite congr_mod. apply (congr_of_divide (q - 1) phi); [lia|lia|exists (p - 1); unfold phi; lia|done]. }
  assert (Pos : forall m, 2 <= m -> 3 * (d mod m) =[m]= 1 -> 0 < d mod m).
  { intros m Hm E. pose proof (Z.mod_pos_bound d m ltac:(lia)). destruct (Z.eq_dec (d mod m) 0) as [Z0|]; [|lia].
    rewrite Z0 in E. unfold congr in E. rewrite Z.mod_0_l, Z.mod_small in E by lia. lia. }
  do 4 (split; [done || apply Pos; (done || lia)|]). rewrite congr_mod, Z.mul_comm. apply invert_congr; [lia|]. by apply small_unit; [|lia].
Qed.

(** Raising to the third power and to its inverse. *)
Lemma rsa_pow pr m d : Z.prime pr -> 2 < pr -> 0 < d -> 3 * d =[pr - 1]= 1 -> m ^ (3 * d) =[pr]= m.
Proof using.
  intros Hpr H2 Hd E. destruct (Z.eq_dec (Z.gcd m pr) 1) as [G|G].
  - transitivity (m ^ 1); [|by rewrite Z.pow_1_r]. apply (pow_congr_order pr m (pr - 1)); [lia|lia|lia|by apply fermat|done].
  - assert (M : m =[pr]= 0).
    { apply congr_divide; [lia|]. rewrite Z.sub_0_r. destruct (Z.eq_dec (m mod pr) 0) as [D|N]; [by apply Z.mod_divide in D; [|lia]|].
      destruct G. apply prime_unit; [done|]. intros D. apply Z.mod_divide in D; [done|lia]. }
    rewrite M. by rewrite Z.pow_0_l by lia.
Qed.

Lemma rsa_core k m : rsa_priv_new p q = Done k -> 0 <= m < p * q -> rsa_decrypt_int k (powm m 3 (p * q)) = m.
Proof using Hp Hq Hlt H3 HNok.
  intros Hk Hm. destruct rsa_new as (k' & E & _ & Ep & Eq & Dp & Dq & Pp & Pq & Ei). rewrite E in Hk. injection Hk as <-.
  unfold rsa_decrypt_int. rewrite Ep, Eq. set (c := powm m 3 (p * q)). assert (Cc : c =[p * q]= m ^ 3) by (apply powm_congr; nia).
  assert (Cp : c =[p]= m ^ 3) by (apply (congr_of_divide p (p * q)); [lia|nia|exists q; lia|done]).
  assert (Cq : c =[q]= m ^ 3) by (apply (congr_of_divide q (p * q)); [lia|nia|exists p; lia|done]).
  assert (Mp : powm c (rsa_dp k') p =[p]= m) by (rewrite powm_congr, Cp, <- Z.pow_mul_r by lia; by apply rsa_pow; [|lia|..]).
  assert (Mq : powm c (rsa_dq k') q =[q]= m) by (rewrite powm_congr, Cq, <- Z.pow_mul_r by lia; by apply rsa_pow; [|lia|..]).
  pose proof (powm_bound c (rsa_dp k') p ltac:(lia) ltac:(lia)) as Bp. set (mp := powm c (rsa_dp k') p) in *. set (mq := powm c (rsa_dq k') q) in *.
  pose proof (Z.mod_pos_bound ((mq - mp) * rsa_pinvq k') q ltac:(lia)) as Bv. set (v := ((mq - mp) * rsa_pinvq k') mod q) in *.
  apply (congr_small (p * q)); [|nia|done]. apply crt; [lia|lia|by apply small_unit; [|lia]| |].
  - rewrite (Z.mul_comm p v), (congr_multiple p), Z.add_0_r. done.
  - unfold v. rewrite congr_mod. transitivity (mp + (mq - mp) * (rsa_pinvq k' * p)); [apply congr_mul_eq; ring|]. rewrite Ei, <- Mq.
    apply congr_mul_eq. ring.
Qed.
End correct.

(** RSA decryption by the Chinese remainder theorem gives back every
    message that was encrypted, for primes [p < q] such that 3 has an inverse
    modulo [(p - 1) * (q - 1)]. *)
Theorem rsa_decrypt_encrypt `{HG : !Gmp} `{HGok : !GmpOK} `{HN : !GmpNum} `{HNok : !GmpNumOK} junk rnd p q k msg m :
  (forall n, 0 <= n -> length (junk n) = Z.to_nat n) -> (forall n, 0 <= n -> length (rnd n) = Z.to_nat n /\ Forall is_byte (rnd n)) ->
  Z.prime p -> Z.prime q -> 2 < p < q -> Z.gcd 3 ((p - 1) * (q - 1)) = 1 -> rsa_priv_new p q = Done k -> nbits (p * q) <= 2 ^ 32 ->
  Forall is_byte msg -> Z.of_nat (length msg) + 32 <= (nbits (p * q) - 1) / 8 ->
  pre_encrypt junk rnd msg (nbits (p * q) - 1) = Done m -> mpz_val m <> 0 ->
  exists c, rsa_encrypt junk (rsa_pub_of k) rnd msg = Done c /\ rsa_decrypt junk k c (Z.of_nat (length msg)) = Done (Some msg).
Proof.
  intros Hj Hr Hp Hq Hlt H3 Hk Hn Bm Hl Em Hm0. pose proof (nbits_pos (p * q) ltac:(nia)).
  destruct (encrypt_spec junk Hj (Z.of_nat (length msg)) (nbits (p * q) - 1) ltac:(lia) ltac:(lia) ltac:(lia) rnd msg Hr Bm eq_refl) as (m' & x & Em' & Rx & Bx & V).
  rewrite Em in Em'. injection Em' as <-. rewrite (mpz_val_rep _ _ Rx) in Hm0.
  destruct (rsa_new p q Hp Hq Hlt H3) as (k' & E & Epub & _). rewrite E in Hk. injection Hk as ->.
  pose proof (nbits_low (p * q) ltac:(nia)) as Lo. assert (Hnb : nbits x <= nbits (p * q) - 1).
  { unfold nbits at 1. destruct (Z.eqb_spec x 0); [lia|]. rewrite Z.abs_eq by lia. assert (Z.log2 x < nbits (p * q) - 1); [|lia]. apply Z.log2_lt_pow2; lia. }
  exists (powm x 3 (p * q)). split.
  - unfold rsa_encrypt, rsa_encrypt_int. rewrite Epub. cbn [rsa_nbits rsa_e rsa_n]. rewrite Em. cbn [mbind outcome_bind]. rewrite (mpz_val_rep _ _ Rx).
    destruct (Z.eqb_spec x 0); [done|]. cbn [orb]. destruct (Z.ltb_spec (nbits (p * q) - 1) (nbits x)); [lia|done].
  - unfold rsa_decrypt. rewrite (rsa_core p q Hp Hq Hlt H3 k x E) by lia. rewrite Epub. cbn [rsa_nbits]. rewrite <- V. unfold post_decrypt.
    by rewrite (get_rawmag_le_spec _ m x Rx), (get_rawmag_le_spec _ _ x (mpz_of_Z_rep x)).
Qed.

(** ** An example *)
#[local] Existing Instances gmp_model num_model.
Definition sample_rsa : rsa_priv := match rsa_priv_new sample_p sample_q with Done k => k | _ => mkrsapriv (rsa_pub_new 0) 0 0 0 0 0 0 0 end.
Lemma sample_rsa_new : rsa_priv_new sample_p sample_q = Done sample_rsa.
Proof. vm_compute. reflexivity. Qed.
Definition sample_rsa_enc : mpz := match pre_encrypt sample_bytes sample_bytes [104; 105] 427 with Done m => m | _ => bigint_zero end.

Lemma rsa_decrypt_encrypt_witness :
  exists c, rsa_encrypt sample_bytes (rsa_pub_of sample_rsa) sample_bytes [104; 105] = Done c
    /\ rsa_decrypt sample_bytes sample_rsa c 2 = Done (Some [104; 105]).
Proof.
  destruct (rsa_decrypt_encrypt sample_bytes sample_bytes sample_p sample_q sample_rsa [104; 105] sample_rsa_enc) as (c & E & D);
    [exact (fun n H => proj1 (sample_bytes_ok n H))|exact sample_bytes_ok|exact sample_p_prime|exact sample_q_prime|split; vm_compute; reflexivity
    |vm_compute; reflexivity|exact sample_rsa_new|vm_compute; discriminate|repeat constructor; unfold is_byte; lia|vm_compute; discriminate
    |vm_compute; reflexivity|vm_compute; discriminate|].
  exists c. split; [exact E|exact D].
Defined.
