(* ===== verification/Homoenc.v ===== *)
(** * Homomorphic encryption: [crypt/homoenc.h]

    The abstract classes [homoenc_pub] and [homoenc_priv] are the class
    [Homoenc] of operations and the class [HomoencOK] of what an
    implementation promises: encryption of numbers that can be added and
    multiplied by constants, and encryption of strings that can be decrypted.
    [paillier_priv] and [elgamal_priv] implement them; private matching
    ([crypt/pm.C]) is proved against them.

    A call of [encrypt] takes the blocks of random bytes it draws. *)
From Stdlib Require Import ZArith Lia.
From stdpp Require Import prelude.
From S2P Require Import Prelude Bits Mpz MpzSpec MpzRaw NumTheory Bigint Prime.

(** ** Ciphertexts *)
Inductive crypt_keytype :=
| CRYPT_NOKEY | CRYPT_RABIN | CRYPT_2SCHNORR | CRYPT_SCHNORR | CRYPT_1SCHNORR | CRYPT_ESIGN | CRYPT_PAILLIER | CRYPT_ELGAMAL.
#[export] Instance crypt_keytype_dec : EqDecision crypt_keytype.
Proof. solve_decision. Defined.

Record elgamal_ctext := mkec { ec_r : Z; ec_m : Z }.
Inductive crypt_ctext :=
| C_rabin (rabin : Z)
| C_paillier (paillier : Z)
| C_elgamal (elgamal : elgamal_ctext)
| C_nokey | C_2schnorr | C_schnorr | C_1schnorr | C_esign.

Definition ctext_new (t : crypt_keytype) : crypt_ctext :=
  match t with
  | CRYPT_NOKEY => C_nokey
  | CRYPT_RABIN => C_rabin 0
  | CRYPT_2SCHNORR => C_2schnorr
  | CRYPT_SCHNORR => C_schnorr
  | CRYPT_1SCHNORR => C_1schnorr
  | CRYPT_ESIGN => C_esign
  | CRYPT_PAILLIER => C_paillier 0
  | CRYPT_ELGAMAL => C_elgamal (mkec 0 0)
  end.
Definition ctype (c : crypt_ctext) : crypt_keytype :=
  match c with
  | C_rabin _ => CRYPT_RABIN
  | C_paillier _ => CRYPT_PAILLIER
  | C_elgamal _ => CRYPT_ELGAMAL
  | C_nokey => CRYPT_NOKEY
  | C_2schnorr => CRYPT_2SCHNORR
  | C_schnorr => CRYPT_SCHNORR
  | C_1schnorr => CRYPT_1SCHNORR
  | C_esign => CRYPT_ESIGN
  end.
Lemma ctype_new t : ctype (ctext_new t) = t.
Proof. by destruct t. Qed.

(** ** The operations *)
Class Homoenc := {
  mod_size : Z;
  ptext_modulus : Z;
  ctext_type : crypt_keytype;
  (** [encrypt (&c, msg, recover)]: the new [c], or false *)
  he_encrypt : list (list Z) -> crypt_ctext -> Z -> bool -> outcome (option crypt_ctext);
  he_add : crypt_ctext -> crypt_ctext -> crypt_ctext -> outcome crypt_ctext;
  he_mult : crypt_ctext -> crypt_ctext -> Z -> outcome crypt_ctext;
  he_decrypt : crypt_ctext -> Z -> bool -> outcome (option (list Z))
}.

Section homoenc.
Context `{HG : !Gmp}.

Definition he_pre_encrypt (size : Z) (msg : list Z) : outcome Z :=
  if size <? Z.of_nat (length msg) then Done 0
  else r ← mpz_set_rawmag_le (mkmpz 0 []) msg; Done (mpz_val r).

Context (junk : Z -> list Z).
Definition he_post_decrypt (size msg msglen : Z) : outcome (option (list Z)) :=
  if (size <? nbits msg) || (size <? msglen) then Done None
  else
    zm ← mpz_get_rawmag_le (junk size) (mpz_of_Z msg);
    Done (Some (take (Z.to_nat msglen) zm)).

Context `{HE : !Homoenc}.
(** [encrypt] of a string *)
Definition he_encrypt_str (rnd : list (list Z)) (c : crypt_ctext) (msg : list Z) (recover : bool) : outcome (option crypt_ctext) :=
  m ← he_pre_encrypt mod_size msg;
  if m =? 0 then Done None else he_encrypt rnd c m recover.
End homoenc.

Section laws.
Context `{HG : !Gmp} `{HGok : !GmpOK} (junk : Z -> list Z) (Hjunk : forall n, 0 <= n -> length (junk n) = Z.to_nat n).

Lemma he_pre_encrypt_spec size msg : Z.of_nat (length msg) <= size -> Forall is_byte msg -> he_pre_encrypt size msg = Done (le_val msg).
Proof using HGok.
  intros Hs Hb. unfold he_pre_encrypt. destruct (Z.ltb_spec size (Z.of_nat (length msg))); [lia|].
  destruct (set_rawmag_le_spec (mkmpz 0 []) msg Hb) as (m & -> & R). cbn. by rewrite (mpz_val_rep _ _ R).
Qed.

(** The bytes that come back are the low ones of the number. *)
Lemma he_post_decrypt_spec size x len : 0 <= x -> nbits x <= size -> 0 <= len <= size ->
  he_post_decrypt junk size x len = Done (Some (bytes x (Z.to_nat len))).
Proof using Hjunk.
  intros Hx Hs Hl. unfold he_post_decrypt. pose proof (nbits_nonneg x). destruct (Z.ltb_spec size (nbits x)); [lia|]. destruct (Z.ltb_spec size len); [lia|].
  cbn [orb]. rewrite (get_rawmag_le_spec _ _ x (mpz_of_Z_rep x)), Hjunk, Z.abs_eq by lia. cbn. do 2 f_equal.
  replace (Z.to_nat size) with (Z.to_nat len + (Z.to_nat size - Z.to_nat len))%nat by lia. rewrite bytes_add. apply take_app_length'. by rewrite bytes_length.
Qed.
End laws.

(** ** What an implementation promises

    [he_opens c m]: [c] is an encryption of the number [m] modulo
    [ptext_modulus] that can be added and multiplied.  [he_holds c x]:
    decrypting [c] gives the bytes of [x].  Adding an encryption of zero
    leaves what is held as it is; adding one of [m] gives [he_mix m x]. *)
Class HomoencOK `{HE : !Homoenc} := {
  he_opens : crypt_ctext -> Z -> Prop;
  he_holds : crypt_ctext -> Z -> Prop;
  he_mix : Z -> Z -> Z;
  he_draws : list (list Z) -> Prop;
  he_size : 1 < ptext_modulus <= 2 ^ mod_size;
  he_size_pos : 0 <= mod_size;
  he_opens_type c m : he_opens c m -> ctype c = ctext_type;
  he_opens_congr c m m' : m =[ptext_modulus]= m' -> he_opens c m -> he_opens c m';
  he_encrypt_opens rnd c m : he_draws rnd -> ctype c = ctext_type -> - ptext_modulus < m < ptext_modulus ->
    exists d, he_encrypt rnd c m false = Done (Some d) /\ he_opens d m;
  he_encrypt_holds rnd c m : he_draws rnd -> ctype c = ctext_type -> 0 <= m < ptext_modulus ->
    exists d, he_encrypt rnd c m true = Done (Some d) /\ he_holds d m;
  he_encrypt_large rnd c m b : ctype c = ctext_type -> ptext_modulus <= m -> he_encrypt rnd c m b = Done None;
  he_add_opens c a b m n : ctype c = ctext_type -> he_opens a m -> he_opens b n -> exists d, he_add c a b = Done d /\ he_opens d (m + n);
  he_mult_opens c a m k : ctype c = ctext_type -> he_opens a m -> 0 <= k -> exists d, he_mult c a k = Done d /\ he_opens d (k * m);
  he_add_holds c a b m n : ctype c = ctext_type -> he_opens a m -> he_holds b n -> 0 <= n < ptext_modulus ->
    exists d, he_add c a b = Done d /\ he_holds d (he_mix m n);
  he_mix_0 m n : m =[ptext_modulus]= 0 -> 0 <= n < ptext_modulus -> he_mix m n = n;
  he_decrypt_holds c n len : he_holds c n -> 0 <= n -> nbits n <= mod_size -> 0 <= len <= mod_size -> he_decrypt c len true = Done (Some (bytes n (Z.to_nat len)));
  he_mix_range m n : 0 <= n < ptext_modulus -> 0 <= he_mix m n < 2 ^ mod_size
}.

Lemma nbits_le x n : 0 <= n -> 0 <= x < 2 ^ n -> nbits x <= n.
Proof.
  intros Hn Hx. unfold nbits. destruct (Z.eqb_spec x 0); [done|]. rewrite Z.abs_eq by lia. pose proof (proj1 (Z.log2_lt_pow2 x n ltac:(lia)) ltac:(lia)). lia.
Qed.

(** ** Strings, for any implementation *)
Section strings.
Context `{HG : !Gmp} `{HGok : !GmpOK} `{HE : !Homoenc} `{HO : !HomoencOK}.

(** A string that is not zero and small enough is encrypted and comes back. *)
Lemma he_string_roundtrip rnd msg : he_draws rnd -> Forall is_byte msg -> Z.of_nat (length msg) <= mod_size -> 0 < le_val msg < ptext_modulus ->
  exists c, he_encrypt_str rnd (ctext_new ctext_type) msg true = Done (Some c) /\ he_decrypt c (Z.of_nat (length msg)) true = Done (Some msg).
Proof using HGok.
  intros Hr Hb Hl Hv. destruct he_size as [H1 H2]. unfold he_encrypt_str. rewrite he_pre_encrypt_spec by done. cbn [mbind outcome_bind].
  destruct (Z.eqb_spec (le_val msg) 0); [lia|]. destruct (he_encrypt_holds rnd (ctext_new ctext_type) (le_val msg) Hr (ctype_new _) ltac:(lia)) as (c & E & H).
  exists c. split; [exact E|]. rewrite (he_decrypt_holds c (le_val msg)); [|done|lia|apply nbits_le; [apply he_size_pos|lia]|lia].
  by rewrite Nat2Z.id, bytes_le_val.
Qed.

Lemma he_string_large rnd msg b : Forall is_byte msg -> Z.of_nat (length msg) <= mod_size -> ptext_modulus <= le_val msg ->
  he_encrypt_str rnd (ctext_new ctext_type) msg b = Done None.
Proof using HGok HO.
  intros Hb Hl Hv. destruct he_size as [H1 H2]. unfold he_encrypt_str. rewrite he_pre_encrypt_spec by done. cbn [mbind outcome_bind].
  destruct (Z.eqb_spec (le_val msg) 0); [lia|]. apply he_encrypt_large; [apply ctype_new|lia].
Qed.
End strings.

(** * Paillier's public-key system: [crypt/paillier.C], [crypt/paillier.h]

    Both variants: the standard one, and the fast one whose basis [g] has an
    order that a small prime [a] divides.  Decryption works modulo the two
    primes ([_PAILLIER_CRT_]). *)
Record paillier_pub := mkplpub { pl_n : Z; pl_g : Z; pl_nbits : Z; pl_fast : bool; pl_nsq : Z; pl_gn : Z }.

Record paillier_priv := mkplpriv {
  pl_pub : paillier_pub;
  pl_p : Z;
  pl_q : Z;
  pl_a : Z;
  pl_p1 : Z;
  pl_q1 : Z;
  pl_k : Z;
  pl_psq : Z;
  pl_qsq : Z;
  pl_rp : Z;
  pl_rq : Z;
  pl_two_p : Z;
  pl_two_q : Z;
  pl_lp : Z;
  pl_lq : Z;
  pl_hp : Z;
  pl_hq : Z
}.

Section paillier.
Context `{HG : !Gmp} `{HN : !GmpNum}.

(** ** The public key *)
(** The two constructors, and [init] *)
Definition paillier_pub_new (nn gg : Z) (fast : bool) : outcome paillier_pub :=
  assertM (negb (nbits nn =? 0)) ;;
  let nsq := nn * nn in
  Done (mkplpub nn gg (nbits nn) fast nsq (if fast then powm gg nn nsq else 0)).

(** [do r = random_zn (n); while (r == 0);] *)
Fixpoint random_zn_pos (fuel : nat) (n : Z) (rnd : list (list Z)) : outcome (Z * list (list Z)) :=
  match fuel with
  | O => Spin
  | S fuel =>
      x ← random_zn n rnd;
      let '(r, rnd) := x : Z * list (list Z) in
      if r =? 0 then random_zn_pos fuel n rnd else Done (r, rnd)
  end.

Definition paillier_encrypt (k : paillier_pub) (rnd : list (list Z)) (c : crypt_ctext) (msg : Z) (recover : bool) : outcome (option crypt_ctext) :=
  match c with
  | C_paillier _ =>
      if pl_n k <=? msg then Done None
      else
        x ← random_zn_pos (length rnd) (pl_n k) rnd;
        let r := x.1 in
        let m := if pl_fast k then powm (pl_gn k) r (pl_nsq k) else powm r (pl_n k) (pl_nsq k) in
        let m := m * powm (pl_g k) msg (pl_nsq k) in
        Done (Some (C_paillier (Z.rem m (pl_nsq k))))
  | _ => Panic
  end.

Definition paillier_add (k : paillier_pub) (c msg1 msg2 : crypt_ctext) : outcome crypt_ctext :=
  match c, msg1, msg2 with
  | C_paillier _, C_paillier m1, C_paillier m2 => Done (C_paillier (Z.rem (m1 * m2) (pl_nsq k)))
  | _, _, _ => Panic
  end.

Definition paillier_mult (k : paillier_pub) (c msg : crypt_ctext) (cons : Z) : outcome crypt_ctext :=
  match c, msg with
  | C_paillier _, C_paillier m => Done (C_paillier (powm m cons (pl_nsq k)))
  | _, _ => Panic
  end.

(** ** The private key *)
Definition lcm_of (p1 q1 : Z) : Z := Z.quot (p1 * q1) (Z.gcd p1 q1).
(** [(x - 1) / p], by multiplication with the inverse modulo a power of two *)
Definition pl_L (x l two : Z) : Z := Z.rem ((x - 1) * l) two.

(** [init], for the constructors' [a] and [k]; [k] is computed if not fast *)
Definition paillier_priv_init (pub : paillier_pub) (p q a k : Z) : outcome paillier_priv :=
  assertM (p <? q) ;;
  let psq := p * p in
  let qsq := q * q in
  let p1 := p - 1 in
  let q1 := q - 1 in
  let k := if negb (pl_fast pub) then lcm_of p1 q1 else k in
  let rp := invert q p in
  let rq := invert p q in
  let two_p := 2 ^ nbits p in
  let two_q := 2 ^ nbits q in
  let lp := invert p two_p in
  let lq := invert q two_q in
  let hp := if pl_fast pub then powm (pl_g pub) a psq else powm (pl_g pub) p1 psq in
  let hq := if pl_fast pub then powm (pl_g pub) a qsq else powm (pl_g pub) q1 qsq in
  let hp := invert (pl_L hp lp two_p) p in
  let hq := invert (pl_L hq lq two_q) q in
  Done (mkplpriv pub p q a p1 q1 k psq qsq rp rq two_p two_q lp lq hp hq).

Definition paillier_priv_fast (pp qq aa gg kk nn : Z) : outcome paillier_priv :=
  pub ← paillier_pub_new nn gg true;
  paillier_priv_init pub pp qq aa kk.

Definition paillier_priv_slow (pp qq : Z) : outcome paillier_priv :=
  pub ← paillier_pub_new (pp * qq) 2 false;
  paillier_priv_init pub pp qq 0 0.

Definition CRT (k : paillier_priv) (mp mq : Z) : Z :=
  let n := pl_n (pl_pub k) in
  let mp := Z.rem (mp * pl_rp k * pl_q k) n in
  let mq := Z.rem (mq * pl_rq k * pl_p k) n in
  let mp := mp + mq in
  if n <=? mp then mp - n else mp.

Definition paillier_D (k : paillier_priv) (msg : Z) : Z :=
  let fast := pl_fast (pl_pub k) in
  let mq := if fast then powm msg (pl_a k) (pl_qsq k) else powm msg (pl_q1 k) (pl_qsq k) in
  let mq := pl_L mq (pl_lq k) (pl_two_q k) in
  let mq := Z.rem (mq * pl_hq k) (pl_q k) in
  let m := if fast then powm msg (pl_a k) (pl_psq k) else powm msg (pl_p1 k) (pl_psq k) in
  let m := pl_L m (pl_lp k) (pl_two_p k) in
  let m := Z.rem m (pl_p k) in
  let m := Z.rem (m * pl_hp k) (pl_p k) in
  CRT k m mq.

Definition paillier_decrypt (junk : Z -> list Z) (k : paillier_priv) (msg : crypt_ctext) (msglen : Z) (recover : bool) : outcome (option (list Z)) :=
  match msg with
  | C_paillier c => he_post_decrypt junk (pl_nbits (pl_pub k)) (paillier_D k c) msglen
  | _ => Panic
  end.

(** ** Key generation *)
(** [g] and [k] *)
Definition paillier_gen (p q n a : Z) : outcome (Z * Z) :=
  let k := lcm_of (p - 1) (q - 1) in
  if negb (probab_prime p 5) || negb (probab_prime q 5) || negb (probab_prime a 5) then Panic
  else if negb (Z.rem k a =? 0) then Panic
  else Done (powm 2 (Z.quot k a) n, k).

Definition paillier_make_fast (p q a : Z) : outcome (option paillier_priv) :=
  if (p =? q) || (p <=? 1) || (q <=? 1) || negb (probab_prime p 5) || negb (probab_prime q 5) || negb (probab_prime a 5) then Done None
  else
    let n := p * q in
    x ← paillier_gen p q n a;
    let '(g, k) := x : Z * Z in
    r ← (if p <? q then paillier_priv_fast p q a g k n else paillier_priv_fast q p a g k n);
    Done (Some r).

Definition paillier_make (p q : Z) : outcome (option paillier_priv) :=
  if (p =? q) || (p <=? 1) || (q <=? 1) || negb (probab_prime p 5) || negb (probab_prime q 5) then Done None
  else r ← (if p <? q then paillier_priv_slow p q else paillier_priv_slow q p); Done (Some r).

Definition paillier_skeygen (nb iter : Z) (tries : list (list (list Z) * list Z)) : outcome paillier_priv :=
  assertM (0 <? nb) ;;
  x ← random_prime (nb / 2 + (nb .& 1)) odd_sieve iter tries;
  let '(p, tries) := x : Z * list (list (list Z) * list Z) in
  x ← random_prime (nb / 2 + 1) odd_sieve iter tries;
  let '(q, _) := x : Z * list (list (list Z) * list Z) in
  if q <? p then paillier_priv_slow q p else paillier_priv_slow p q.

(** [while (!prime_test (p)) p += a;] *)
Fixpoint prime_step (fuel : nat) (p a : Z) (rnd : list (list Z)) : outcome (Z * list (list Z)) :=
  match fuel with
  | O => Spin
  | S fuel =>
      x ← prime_test p 32 rnd;
      let '(b, rnd) := x : bool * list (list Z) in
      if (b : bool) then Done (p, rnd) else prime_step fuel (p + a) a rnd
  end.

(** A turn of the outer loop draws for [random_prime], for the two numbers and for the tests. *)
Fixpoint paillier_loop (fuel : nat) (nb abits iter : Z) (draws : list (list (list (list Z) * list Z) * list (list Z))) : outcome (Z * Z * Z * Z) :=
  match draws with
  | [] => Spin
  | (tries, rnd) :: draws =>
      let sbits := u64 (nb - 2 * abits) in
      x ← random_prime abits odd_sieve iter tries;
      let a := x.1 in
      x ← random_bigint (sbits / 2 + (sbits .& 1)) rnd;
      let '(cp, rnd) := x : Z * list (list Z) in
      x ← random_bigint (sbits / 2 + 1) rnd;
      let '(cq, rnd) := x : Z * list (list Z) in
      x ← prime_step fuel (a * cp + 1) a rnd;
      let '(p, rnd) := x : Z * list (list Z) in
      x ← prime_step fuel (a * cq + 1) a rnd;
      let '(q, rnd) := x : Z * list (list Z) in
      let n := p * q in
      if (negb (nbits n =? nb) && negb (nbits n =? nb + 1)) || (p =? q) then paillier_loop fuel nb abits iter draws
      else Done (n, p, q, a)
  end.

Definition paillier_keygen (fuel : nat) (nb abits iter : Z) (draws : list (list (list (list Z) * list Z) * list (list Z))) : outcome paillier_priv :=
  assertM (0 <? nb) ;;
  assertM (0 <? abits) ;;
  assertM (abits <=? nb) ;;
  x ← paillier_loop fuel nb abits iter draws;
  let '(n, p, q, a) := x : Z * Z * Z * Z in
  x ← paillier_gen p q n a;
  let '(g, k) := x : Z * Z in
  if q <? p then paillier_priv_fast q p a g k n else paillier_priv_fast p q a g k n.

(** The class [homoenc_priv] *)
Definition paillier_homoenc (junk : Z -> list Z) (k : paillier_priv) : Homoenc := {|
  mod_size := pl_nbits (pl_pub k);
  ptext_modulus := pl_n (pl_pub k);
  ctext_type := CRYPT_PAILLIER;
  he_encrypt := paillier_encrypt (pl_pub k);
  he_add := paillier_add (pl_pub k);
  he_mult := paillier_mult (pl_pub k);
  he_decrypt := paillier_decrypt junk k
|}.
End paillier.
