(* ===== verification/PaillierProps.v ===== *)
(** * Paillier's system keeps the promises of [homoenc.h]

    Modulo [r * r] the numbers [1 + r * l] multiply by adding their [l]; a
    ciphertext raised to the secret exponent is such a number, and its [l] is
    the plaintext times a constant.  This holds for encryption and is kept by
    addition and multiplication, and decryption divides by the constant. *)
From Stdlib Require Import ZArith Lia.
From stdpp Require Import prelude.
From S2P Require Import Prelude Bits Mpz MpzSpec MpzRaw NumTheory Bigint Prime Homoenc.

(** ** Numbers that are one modulo [r], modulo [r * r] *)
Section square.
Context (r : Z) (Hr : 1 < r).

Lemma sq_congr l l' : l =[r]= l' -> 1 + r * l =[r * r]= 1 + r * l'.
Proof using Hr. intros H. apply congr_divide in H as [k Hk]; [|lia]. apply congr_divide; [nia|]. exists k. replace l with (l' + k * r) by lia. ring. Qed.
Lemma sq_mul l l' : (1 + r * l) * (1 + r * l') =[r * r]= 1 + r * (l + l').
Proof using Hr. apply congr_divide; [nia|]. exists (l * l'). ring. Qed.
Lemma sq_pow l e : 0 <= e -> (1 + r * l) ^ e =[r * r]= 1 + r * (e * l).
Proof using Hr.
  revert e. apply natlike_ind; [apply congr_mul_eq; rewrite Z.pow_0_r; ring|]. intros e He IH. rewrite Z.pow_succ_r, IH, sq_mul by lia.
  apply congr_mul_eq. ring.
Qed.

(** [c] to the power [e] stands for [m], in units of [l]. *)
Definition res (e l c m : Z) : Prop := c ^ e =[r * r]= 1 + r * (l * m).

Lemma res_congr e l c c' m m' : c =[r * r]= c' -> m =[r]= m' -> res e l c m -> res e l c' m'.
Proof using Hr. unfold res. intros Hc Hm H. rewrite <- Hc, H. apply sq_congr. by rewrite Hm. Qed.
Lemma res_mul e l c d m n : res e l c m -> res e l d n -> res e l (c * d) (m + n).
Proof using Hr. unfold res. intros Hc Hd. rewrite Z.pow_mul_l, Hc, Hd, sq_mul. apply congr_mul_eq. ring. Qed.
Lemma res_pow e l c m k : 0 <= e -> 0 <= k -> res e l c m -> res e l (c ^ k) (k * m).
Proof using Hr. unfold res. intros He Hk Hc. rewrite <- Z.pow_mul_r, (Z.mul_comm k e), Z.pow_mul_r, Hc, sq_pow by lia. apply congr_mul_eq. ring. Qed.
Lemma res_inv e l c d m : 0 <= e -> c * d =[r * r]= 1 -> res e l c m -> res e l d (- m).
Proof using Hr.
  unfold res. intros He Hi Hc. transitivity (d ^ e * ((1 + r * (l * m)) * (1 + r * (l * - m)))).
  - rewrite sq_mul. apply congr_mul_eq. ring.
  - rewrite <- Hc, Z.mul_assoc, <- Z.pow_mul_l, (Z.mul_comm d c), Hi, Z.pow_1_l by lia. apply congr_mul_eq. ring.
Qed.

(** The unit that a basis defines. *)
Lemma res_base e g : g ^ e =[r]= 1 -> 0 <= (g ^ e mod (r * r) - 1) / r < r /\ res e ((g ^ e mod (r * r) - 1) / r) g 1.
Proof using Hr.
  intros Hg. assert (H1 : g ^ e mod (r * r) =[r]= 1).
  { rewrite <- Hg. apply (congr_of_divide r (r * r)); [lia|nia|by exists r|]. apply congr_mod. }
  pose proof (Z.mod_pos_bound (g ^ e) (r * r) ltac:(nia)) as B. apply congr_divide in H1 as [k Hk]; [|lia]. unfold res.
  rewrite Hk, Z.div_mul, Z.mul_1_r by lia. split; [nia|]. rewrite (Z.mul_comm r k), <- Hk. transitivity (g ^ e mod (r * r)); [symmetry; apply congr_mod|apply congr_mul_eq; lia].
Qed.
Lemma res_base_unit e g : Z.prime r -> g ^ e =[r]= 1 -> g ^ e mod (r * r) <> 1 -> Z.gcd ((g ^ e mod (r * r) - 1) / r) r = 1.
Proof using Hr.
  intros Hp Hg Hn. destruct (res_base e g Hg) as [B H]. apply small_unit; [done|]. split; [|lia]. destruct (Z.eq_dec ((g ^ e mod (r * r) - 1) / r) 0) as [E|]; [|lia].
  destruct Hn. unfold res in H. rewrite E in H. apply congr_eq; [|nia]. rewrite H. apply congr_mul_eq. ring.
Qed.
(** An [r]-th power stands for zero. *)
Lemma res_nth l x : Z.prime r -> Z.gcd x r = 1 -> res (r - 1) l (x ^ r) 0.
Proof using Hr.
  intros Hp Hx. pose proof (fermat r x Hp Hx) as F. apply congr_divide in F as [k Hk]; [|lia]. unfold res.
  rewrite <- Z.pow_mul_r, (Z.mul_comm r (r - 1)), Z.pow_mul_r by lia. replace (x ^ (r - 1)) with (1 + r * k) by lia. rewrite sq_pow by lia.
  apply sq_congr. rewrite Z.mul_0_r, Z.mul_comm. apply congr_multiple.
Qed.
End square.

(** ** Decryption modulo one prime *)
Section decrypt.
Context `{HN : !GmpNum} `{HNok : !GmpNumOK} (r : Z) (Hp : Z.prime r) (H2 : 2 < r).

Lemma odd_prime : Z.odd r = true.
Proof using Hp H2.
  rewrite <- Z.negb_even, negb_true_iff. destruct (Z.even r) eqn:E; [|done]. apply Z.even_spec in E as [k Hk].
  assert (D : (2 | r)) by (exists k; lia). apply Z.divide_prime_r in D; [|done]. lia.
Qed.

(** Exact division. *)
Lemma pl_L_exact y : 0 <= y < r -> pl_L (1 + r * y) (invert r (2 ^ nbits r)) (2 ^ nbits r) = y.
Proof using Hp H2 HNok.
  intros Hy. pose proof (nbits_bound r ltac:(lia)) as B. pose proof (nbits_pos r ltac:(lia)). unfold pl_L. set (two := 2 ^ nbits r) in *.
  assert (U : Z.gcd r two = 1).
  { unfold two. rewrite Z.gcd_comm. apply Z.coprime_pow_l; [lia|]. apply gcd_2_odd, odd_prime. }
  pose proof (invert_bound r two ltac:(lia)). rewrite rem_pos by nia. apply congr_eq; [|lia].
  transitivity (y * (r * invert r two)); [apply congr_mul_eq; ring|]. rewrite invert_congr by (done || lia). apply congr_mul_eq. ring.
Qed.

Lemma residue_spec e g c m : 0 <= e -> g ^ e =[r]= 1 -> g ^ e mod (r * r) <> 1 -> res r e ((g ^ e mod (r * r) - 1) / r) c m ->
  let l := invert r (2 ^ nbits r) in let two := 2 ^ nbits r in let h := invert (pl_L (powm g e (r * r)) l two) r in
  pl_L (powm c e (r * r)) l two = pl_L (powm c e (r * r)) l two mod r /\ Z.rem (pl_L (powm c e (r * r)) l two * h) r = m mod r.
Proof using Hp H2 HNok.
  intros He Hg Hn Hc. cbv zeta. destruct (res_base r ltac:(lia) e g Hg) as [Bl Hl]. pose proof (res_base_unit r ltac:(lia) e g Hp Hg Hn) as U.
  set (u := (g ^ e mod (r * r) - 1) / r) in *. assert (E1 : powm g e (r * r) = 1 + r * u).
  { rewrite powm_ok by nia. apply congr_eq; [|nia]. unfold res in Hl. rewrite Hl. apply congr_mul_eq. ring. }
  pose proof (Z.mod_pos_bound (u * m) r ltac:(lia)) as Bm. assert (E2 : powm c e (r * r) = 1 + r * ((u * m) mod r)).
  { rewrite powm_ok by nia. apply congr_eq; [|nia]. unfold res in Hc. rewrite Hc. apply sq_congr; [lia|]. symmetry. apply congr_mod. }
  rewrite E1, E2, !pl_L_exact by lia. split; [by rewrite Z.mod_mod by lia|]. pose proof (invert_bound u r ltac:(lia)). rewrite rem_pos by nia.
  change (((u * m) mod r * invert u r) mod r = m mod r) with ((u * m) mod r * invert u r =[r]= m). rewrite congr_mod.
  transitivity (m * (u * invert u r)); [apply congr_mul_eq; ring|]. rewrite invert_congr by (done || lia). apply congr_mul_eq. ring.
Qed.
End decrypt.

(** ** Keys *)
Definition pl_exp (fast : bool) (a r : Z) : Z := if fast then a else r - 1.

(** The conditions on a key: the basis raised to the secret exponent is one
    modulo the primes, and not modulo their squares. *)
Record pl_key_ok (fast : bool) (p q a g : Z) : Prop := {
  plk_p : Z.prime p;
  plk_q : Z.prime q;
  plk_lt : 2 < p < q;
  plk_a : fast = true -> 0 < a;
  plk_gp : g ^ pl_exp fast a p =[p]= 1;
  plk_gq : g ^ pl_exp fast a q =[q]= 1;
  plk_lp : g ^ pl_exp fast a p mod (p * p) <> 1;
  plk_lq : g ^ pl_exp fast a q mod (q * q) <> 1
}.

Lemma pl_exp_pos fast p q a g : pl_key_ok fast p q a g -> 0 < pl_exp fast a p /\ 0 < pl_exp fast a q.
Proof. intros [Hp Hq Hlt Ha _ _ _ _]. unfold pl_exp. destruct fast; [specialize (Ha eq_refl)|]; lia. Qed.

Lemma exp_if {A} (fast : bool) (f : Z -> A) a r : f (pl_exp fast a r) = if fast then f a else f (r - 1).
Proof. by destruct fast. Qed.

Section key.
Context `{HG : !Gmp} `{HGok : !GmpOK} `{HN : !GmpNum} `{HNok : !GmpNumOK}.
Context (fast : bool) (p q a g kk : Z) (K : pl_key_ok fast p q a g) (pub : paillier_pub) (key : paillier_priv).
Context (Hpub : paillier_pub_new (p * q) g fast = Done pub) (Hkey : paillier_priv_init pub p q a kk = Done key).
Notation n := (p * q).
Notation ep := (pl_exp fast a p).
Notation eqx := (pl_exp fast a q).
Notation lp := ((g ^ ep mod (p * p) - 1) / p).
Notation lq := ((g ^ eqx mod (q * q) - 1) / q).

Lemma pub_eq : pub = mkplpub n g (nbits n) fast (n * n) (if fast then powm g n (n * n) else 0).
Proof using Hpub. generalize Hpub. unfold paillier_pub_new. destruct (negb (nbits n =? 0)); cbn; congruence. Qed.
Lemma pub_of_key : pl_pub key = pub.
Proof using Hkey. generalize Hkey. unfold paillier_priv_init. cbv zeta. destruct (p <? q); cbn; [|done]. intros [= E]. by rewrite <- E. Qed.
Lemma exp_pos : 0 < ep /\ 0 < eqx.
Proof using K. exact (pl_exp_pos _ _ _ _ _ K). Qed.

Lemma moduli : 0 < p * p /\ 0 < q * q /\ 0 < n /\ 0 < n * n.
Proof using K. pose proof (plk_lt _ _ _ _ _ K). assert (0 < n) by nia. split_and!; nia. Qed.

(** What a number stands for. *)
Definition stands (x m : Z) : Prop := res p ep lp x m /\ res q eqx lq x m.

Lemma stands_mul x y m m' : stands x m -> stands y m' -> stands (x * y) (m + m').
Proof using K. pose proof (plk_lt _ _ _ _ _ K) as Lt. intros [H1 H2] [H3 H4]. split; apply res_mul; (done || lia). Qed.
Lemma stands_pow x m e : 0 <= e -> stands x m -> stands (x ^ e) (e * m).
Proof using K. pose proof (plk_lt _ _ _ _ _ K) as Lt. pose proof exp_pos as Ps. intros He [H1 H2]. split; apply res_pow; (done || lia). Qed.
Lemma stands_inv x y m : x * y =[n * n]= 1 -> stands x m -> stands y (- m).
Proof using K.
  pose proof (plk_lt _ _ _ _ _ K) as Lt. pose proof exp_pos as Ps. intros Hi [H1 H2].
  split; [apply (res_inv p ltac:(lia) _ _ x y m); [lia| |done]|apply (res_inv q ltac:(lia) _ _ x y m); [lia| |done]].
  - apply (congr_of_divide (p * p) (n * n)); [apply moduli|apply moduli|exists (q * q); ring|done].
  - apply (congr_of_divide (q * q) (n * n)); [apply moduli|apply moduli|exists (p * p); ring|done].
Qed.
Lemma stands_congr x y m m' : x =[n * n]= y -> m =[n]= m' -> stands x m -> stands y m'.
Proof using K.
  pose proof (plk_lt _ _ _ _ _ K) as Lt. intros Hx Hm [H1 H2].
  split; [apply (res_congr p ltac:(lia) _ _ x y m m'); [| |done]|apply (res_congr q ltac:(lia) _ _ x y m m'); [| |done]].
  - apply (congr_of_divide (p * p) (n * n)); [apply moduli|apply moduli|exists (q * q); ring|done].
  - apply (congr_of_divide p n); [lia|apply moduli|exists q; ring|done].
  - apply (congr_of_divide (q * q) (n * n)); [apply moduli|apply moduli|exists (p * p); ring|done].
  - apply (congr_of_divide q n); [lia|apply moduli|exists p; ring|done].
Qed.
Lemma stands_g : stands g 1.
Proof using K. pose proof (plk_lt _ _ _ _ _ K) as Lt. split; apply res_base; (lia || by apply K). Qed.
Lemma g_unit : Z.gcd g (n * n) = 1.
Proof using K.
  pose proof (plk_lt _ _ _ _ _ K) as Lt. pose proof exp_pos as Ps. assert (U : forall r e, 0 < r -> 0 < e -> g ^ e =[r]= 1 -> Z.gcd g r = 1).
  { intros r e Hr He E. apply (unit_inverse r g (g ^ (e - 1)) Hr). by rewrite <- Z.pow_succ_r, <- Z.add_1_r, Z.sub_add by lia. }
  assert (Gp : Z.gcd g p = 1) by (eapply U, (plk_gp _ _ _ _ _ K); lia). assert (Gq : Z.gcd g q = 1) by (eapply U, (plk_gq _ _ _ _ _ K); lia).
  assert (Gn : Z.gcd g n = 1) by by apply Z.coprime_mul_r. by apply Z.coprime_mul_r.
Qed.

Lemma decrypt_spec x m : stands x m -> paillier_D key x = m mod n.
Proof using K Hkey Hpub HNok.
  intros [Hp Hq]. pose proof (plk_lt _ _ _ _ _ K) as Lt. pose proof exp_pos as Ps. pose proof pub_of_key as Epub. pose proof pub_eq as Ep. generalize Hkey. unfold paillier_priv_init. cbv zeta.
  destruct (Z.ltb_spec p q); [|lia]. cbn [assertM mbind outcome_bind]. intros [= Ek]. rewrite <- Ek. unfold paillier_D, CRT.
  cbn [pl_pub pl_p pl_q pl_a pl_p1 pl_q1 pl_psq pl_qsq pl_rp pl_rq pl_two_p pl_two_q pl_lp pl_lq pl_hp pl_hq]. rewrite Ep. cbn [pl_n pl_fast pl_g].
  rewrite <- (exp_if fast (fun e => powm x e (q * q)) a q).
  rewrite <- (exp_if fast (fun e => powm x e (p * p)) a p).
  rewrite <- (exp_if fast (fun e => powm g e (q * q)) a q).
  rewrite <- (exp_if fast (fun e => powm g e (p * p)) a p).
  destruct (residue_spec p (plk_p _ _ _ _ _ K) ltac:(lia) ep g x m ltac:(lia) (plk_gp _ _ _ _ _ K) (plk_lp _ _ _ _ _ K) Hp) as [P1 P2].
  destruct (residue_spec q (plk_q _ _ _ _ _ K) ltac:(lia) eqx g x m ltac:(lia) (plk_gq _ _ _ _ _ K) (plk_lq _ _ _ _ _ K) Hq) as [_ P3].
  assert (P4 : 0 <= pl_L (powm x ep (p * p)) (invert p (2 ^ nbits p)) (2 ^ nbits p)) by (rewrite P1; apply Z.mod_pos_bound; lia).
  rewrite (rem_pos p (pl_L _ _ _)), <- P1, P2, P3 by lia. clear P1 P2 P3 P4.
  assert (Upq : Z.gcd p q = 1) by (apply small_unit; [apply K|lia]). assert (Uqp : Z.gcd q p = 1) by by rewrite Z.gcd_comm.
  pose proof (invert_bound q p ltac:(lia)). pose proof (invert_bound p q ltac:(lia)). pose proof (Z.mod_pos_bound m p ltac:(lia)). pose proof (Z.mod_pos_bound m q ltac:(lia)).
  rewrite !rem_pos by (apply moduli || (repeat apply Z.mul_nonneg_nonneg; lia)). set (u := _ mod (p * q)). set (v := _ mod (p * q)).
  assert (Bu : 0 <= u < n) by (apply Z.mod_pos_bound, moduli). assert (Bv : 0 <= v < n) by (apply Z.mod_pos_bound, moduli).
  assert (E : u + v =[n]= m).
  { unfold u, v. rewrite (congr_mod n (m mod p * invert q p * q)), (congr_mod n (m mod q * invert p q * p)). apply crt; [lia|lia|done| |].
    - rewrite (congr_multiple p), Z.add_0_r, (congr_mod p m). transitivity (m * (q * invert q p)); [apply congr_mul_eq; ring|].
      rewrite invert_congr by (done || lia). apply congr_mul_eq. ring.
    - rewrite (congr_multiple q), Z.add_0_l, (congr_mod q m). transitivity (m * (p * invert p q)); [apply congr_mul_eq; ring|].
      rewrite invert_congr by (done || lia). apply congr_mul_eq. ring. }
  pose proof (Z.mod_pos_bound m n (proj1 (proj2 (proj2 moduli)))). destruct (Z.leb_spec n (u + v)).
  - apply (congr_small n); [|lia|lia]. rewrite congr_mod, <- E. apply congr_divide; [lia|]. exists (-1). lia.
  - apply (congr_small n); [|lia|lia]. by rewrite congr_mod, <- E.
Qed.

(** What encryption draws: a number that is not zero, and a unit if the key
    is not a fast one. *)
Definition pl_draws (rnd : list (list Z)) : Prop :=
  exists r rnd', random_zn_pos (length rnd) n rnd = Done (r, rnd') /\ 0 <= r /\ (fast = false -> Z.gcd r n = 1).

Lemma stands_gpow m : stands (powm g m (n * n)) m.
Proof using K HNok.
  pose proof moduli as M. pose proof (plk_lt _ _ _ _ _ K) as Lt. destruct (Z.le_gt_cases 0 m).
  - apply (stands_congr (g ^ m) _ (m * 1)); [symmetry; apply powm_congr; lia|apply congr_mul_eq; lia|]. apply stands_pow; [lia|apply stands_g].
  - replace m with (- - m) at 2 by lia. apply (stands_inv (g ^ (- m))).
    + replace m with (- - m) at 2 by lia. apply powm_neg; [lia|nia|apply g_unit].
    + apply (stands_congr (g ^ (- m)) _ (- m * 1)); [done|apply congr_mul_eq; lia|]. apply stands_pow; [lia|apply stands_g].
Qed.

Lemma stands_noise r : 0 <= r -> (fast = false -> Z.gcd r n = 1) -> stands (if fast then powm (pl_gn pub) r (n * n) else powm r n (n * n)) 0.
Proof using K Hpub HNok.
  intros Hr Hu. pose proof moduli as M. pose proof (plk_lt _ _ _ _ _ K) as Lt. destruct (Bool.bool_dec fast true) as [F|F].
  - rewrite pub_eq, F. cbn [pl_gn]. apply (stands_congr ((g ^ n) ^ r) _ (r * (n * 1))).
    + symmetry. rewrite powm_congr by lia. by rewrite powm_congr by lia.
    + rewrite Z.mul_1_r. apply congr_multiple.
    + apply stands_pow; [lia|]. apply stands_pow; [lia|apply stands_g].
  - apply not_true_is_false in F. rewrite F. specialize (Hu F). destruct (gcd_mul_r r p q Hu) as [Up Uq].
    apply (stands_congr (r ^ n) _ 0); [symmetry; apply powm_congr; lia|done|]. unfold stands, pl_exp. rewrite F. split.
    + rewrite (Z.mul_comm p q), Z.pow_mul_r by lia. apply res_nth; [lia|apply K|]. apply Z.coprime_pow_l; [lia|done].
    + rewrite Z.pow_mul_r by lia. apply res_nth; [lia|apply K|]. apply Z.coprime_pow_l; [lia|done].
Qed.

Lemma pl_encrypt_spec rnd y msg b : pl_draws rnd -> msg < n ->
  exists x, paillier_encrypt pub rnd (C_paillier y) msg b = Done (Some (C_paillier x)) /\ stands x msg.
Proof using K Hpub HNok.
  intros (r & rnd' & E & Hr & Hu) Hm. pose proof (stands_noise r Hr Hu) as Sn. pose proof (stands_gpow msg) as Sg. unfold paillier_encrypt.
  pose proof moduli as M. rewrite pub_eq in Sn |- *. cbn [pl_n pl_fast pl_gn pl_nsq pl_g] in Sn |- *.
  destruct (Z.leb_spec n msg); [lia|]. rewrite E. cbn [mbind outcome_bind fst]. eexists. split; [done|].
  eapply stands_congr; [symmetry; apply rem_congr; lia|done|]. apply (stands_mul _ _ 0 msg); done.
Qed.

Context (junk : Z -> list Z) (Hjunk : forall n, 0 <= n -> length (junk n) = Z.to_nat n).
Definition pl_holds (c : crypt_ctext) (x : Z) : Prop := exists y, c = C_paillier y /\ stands y x.

Lemma type_paillier c : ctype c = CRYPT_PAILLIER -> exists y, c = C_paillier y.
Proof using. destruct c; try done. by eexists. Qed.

(** The implementation keeps the promises. *)
Definition paillier_laws : @HomoencOK (paillier_homoenc junk key).
Proof using K Hkey Hpub HNok HGok Hjunk.
  pose proof moduli as M. pose proof (plk_lt _ _ _ _ _ K) as Lt. pose proof pub_of_key as Ek. pose proof pub_eq as Ep.
  assert (En : pl_n (pl_pub key) = n) by by rewrite Ek, Ep. assert (Es : pl_nsq (pl_pub key) = n * n) by by rewrite Ek, Ep.
  assert (Eb : pl_nbits (pl_pub key) = nbits n) by by rewrite Ek, Ep. pose proof (nbits_bound n ltac:(lia)) as Bn.
  apply (@Build_HomoencOK (paillier_homoenc junk key) pl_holds (fun c x => pl_holds c x /\ 0 <= x < n) (fun m x => (m + x) mod n) pl_draws);
    cbn [mod_size ptext_modulus ctext_type he_encrypt he_add he_mult he_decrypt paillier_homoenc]; rewrite ?En, ?Eb.
  - nia.
  - apply nbits_nonneg.
  - by intros c m (y & -> & _).
  - intros c m m' Hm (y & -> & S). exists y. split; [done|]. by apply (stands_congr y y m m').
  - intros rnd c m Hr (y & ->)%type_paillier Hm. rewrite Ek. destruct (pl_encrypt_spec rnd y m false Hr ltac:(lia)) as (x & E & S). eexists. split; [exact E|by exists x].
  - intros rnd c m Hr (y & ->)%type_paillier Hm. rewrite Ek. destruct (pl_encrypt_spec rnd y m true Hr ltac:(lia)) as (x & E & S).
    eexists. split; [exact E|]. split; [by exists x|lia].
  - intros rnd c m b (y & ->)%type_paillier Hm. unfold paillier_encrypt. rewrite En. destruct (Z.leb_spec n m); [done|lia].
  - intros c u v m k (y & ->)%type_paillier (x & -> & Sx) (z & -> & Sz). eexists. split; [reflexivity|]. eexists. split; [done|]. rewrite Es.
    eapply stands_congr; [symmetry; apply rem_congr; lia|done|]. by apply stands_mul.
  - intros c u m k (y & ->)%type_paillier (x & -> & Sx) Hk. eexists. split; [reflexivity|]. eexists. split; [done|]. rewrite Es.
    eapply stands_congr; [symmetry; apply powm_congr; lia|done|]. by apply stands_pow.
  - intros c u v m k (y & ->)%type_paillier (x & -> & Sx) [(z & -> & Sz) _] Hk. eexists. split; [reflexivity|]. split; [|apply Z.mod_pos_bound; lia].
    eexists. split; [done|]. rewrite Es. eapply stands_congr; [symmetry; apply rem_congr; lia|symmetry; apply congr_mod|]. by apply stands_mul.
  - intros m k Hm Hk. apply congr_eq; [|done]. rewrite Hm. done.
  - intros c x len [(y & -> & S) Bx] _ _ Hl. unfold paillier_decrypt. rewrite Eb, (decrypt_spec y x S), Z.mod_small by lia.
    apply he_post_decrypt_spec; [done|lia|apply nbits_le; lia|lia].
  - intros m k Hk. pose proof (Z.mod_pos_bound (m + k) n ltac:(lia)). lia.
Defined.
End key.

(** ** Keys as [make] makes them *)
Section make.
Context `{HG : !Gmp} `{HGok : !GmpOK} `{HN : !GmpNum} `{HNok : !GmpNumOK}.
Context (junk : Z -> list Z) (Hjunk : forall n, 0 <= n -> length (junk n) = Z.to_nat n).

Definition pl_make (fast : bool) (p q a : Z) : outcome (option paillier_priv) := if fast then paillier_make_fast p q a else paillier_make p q.
Definition pl_basis (fast : bool) (p q a : Z) : Z := if fast then powm 2 (Z.quot (lcm_of (p - 1) (q - 1)) a) (p * q) else 2.

Lemma lcm_multiple x y : 0 < x -> 0 < y -> (x | lcm_of x y) /\ (y | lcm_of x y) /\ 0 < lcm_of x y.
Proof using.
  intros Hx Hy. pose proof (Z.gcd_nonneg x y). assert (G : 0 < Z.gcd x y) by (destruct (Z.eq_dec (Z.gcd x y) 0) as [E|]; [apply Z.gcd_eq_0 in E|]; lia).
  destruct (Z.gcd_divide_l x y) as [u Hu], (Z.gcd_divide_r x y) as [v Hv]. unfold lcm_of. set (d := Z.gcd x y) in *. clearbody d.
  assert (E : Z.quot (x * y) d = u * v * d) by (replace (x * y) with (u * v * d * d) by (rewrite Hu, Hv; ring); apply Z.quot_mul; lia).
  rewrite E. split; [exists v; rewrite Hu; ring|]. split; [exists u; rewrite Hv; ring|]. assert (0 < u) by nia. assert (0 < v) by nia. apply Z.mul_pos_pos; [nia|done].
Qed.

Lemma pow_lcm r k : Z.prime r -> 2 < r -> (r - 1 | k) -> 0 <= k -> 2 ^ k =[r]= 1.
Proof using.
  intros Hr H2 [j ->] Hk. rewrite Z.mul_comm. apply pow_order; [lia|nia|]. apply fermat; [done|]. apply gcd_2_odd. by apply odd_prime.
Qed.

(** The key that [make] returns, in the order of the primes. *)
Lemma pl_make_spec fast p q a key : Z.prime p -> Z.prime q -> 2 < p -> 2 < q -> (fast = true -> 0 < a) -> pl_make fast p q a = Done (Some key) ->
  let p' := Z.min p q in let q' := Z.max p q in let g := pl_basis fast p q a in
  (forall r, r = p \/ r = q -> g ^ pl_exp fast a r mod (r * r) <> 1) ->
  exists a' kk pub, pl_key_ok fast p' q' a' g /\ paillier_pub_new (p' * q') g fast = Done pub /\ paillier_priv_init pub p' q' a' kk = Done key
    /\ p' * q' = p * q.
Proof using HNok.
  intros Hp Hq Hp2 Hq2 Ha Hk p' q' g Hw. destruct (lcm_multiple (p - 1) (q - 1)) as (L1 & L2 & L3); [lia|lia|].
  assert (Hne : p <> q) by (unfold pl_make, paillier_make_fast, paillier_make in Hk; intros ->; rewrite Z.eqb_refl in Hk; by destruct fast).
  assert (Ep : p' * q' = p * q) by (unfold p', q'; destruct (Z.min_spec p q) as [[? ->]|[? ->]], (Z.max_spec p q) as [[? ->]|[? ->]]; lia).
  assert (Hg : forall r, r = p \/ r = q -> Z.prime r /\ 2 < r /\ (fast = true -> Z.rem (lcm_of (p - 1) (q - 1)) a = 0 -> g ^ a =[r]= 1) /\ (fast = false -> g ^ (r - 1) =[r]= 1)).
  { intros r Hr. assert (Pr : Z.prime r) by (by destruct Hr as [-> | ->]). assert (R2 : 2 < r) by lia. split_and!; try done; intros F.
    - intros Hd. unfold g, pl_basis. rewrite F. specialize (Ha F). set (k := lcm_of (p - 1) (q - 1)) in *.
      assert (Ek : k = Z.quot k a * a) by (rewrite (Z.quot_rem' k a) at 1; lia). assert (0 <= Z.quot k a) by (apply Z.quot_pos; lia).
      transitivity ((2 ^ Z.quot k a) ^ a).
      + assert (C : powm 2 (Z.quot k a) (p * q) =[r]= 2 ^ Z.quot k a); [|by rewrite C].
        apply (congr_of_divide r (p * q)); [lia|nia|destruct Hr as [-> | ->]; [exists q|exists p]; lia|]. apply powm_congr; [done|nia].
      + rewrite <- Z.pow_mul_r, <- Ek by lia. apply pow_lcm; [done|done|by destruct Hr as [-> | ->]|lia].
    - unfold g, pl_basis. rewrite F. apply pow_lcm; [done|done|done|lia]. }
  assert (Hmin : p' = p \/ p' = q) by lia. assert (Hmax : q' = p \/ q' = q) by lia. assert (Hlt : p' < q') by lia.
  assert (Ord : (if p <? q then (p, q) else (q, p)) = (p', q')) by (unfold p', q'; destruct (Z.ltb_spec p q); f_equal; lia).
  destruct (Hg p' Hmin) as (P1 & P2 & P3 & P4), (Hg q' Hmax) as (Q1 & Q2 & Q3 & Q4). clear Hg. unfold pl_make in Hk. destruct fast.
  - unfold paillier_make_fast in Hk. destruct (_ || _) in Hk; [done|]. unfold paillier_gen in Hk.
    destruct (_ || _) in Hk; [done|]. destruct (Z.eqb_spec (Z.rem (lcm_of (p - 1) (q - 1)) a) 0) as [R|R]; [|done]. cbn [negb mbind outcome_bind] in Hk.
    exists a, (lcm_of (p - 1) (q - 1)). rewrite Ep. assert (Hk' : paillier_priv_fast p' q' a g (lcm_of (p - 1) (q - 1)) (p * q) = Done key).
    { unfold g, pl_basis. destruct (p <? q); injection Ord as <- <-; destruct (paillier_priv_fast _ _ _ _ _ _); try done; cbn in Hk; congruence. }
    unfold paillier_priv_fast in Hk'. destruct (paillier_pub_new (p * q) g true) as [pub| | |]; try done. exists pub. split_and!; try done.
    split; try done; try lia; [apply P3|apply Q3|apply Hw|apply Hw]; done.
  - unfold paillier_make in Hk. destruct (_ || _) in Hk; [done|]. cbn [mbind outcome_bind] in Hk. exists 0, 0. rewrite Ep.
    assert (Hk' : paillier_priv_slow p' q' = Done key).
    { destruct (p <? q); injection Ord as <- <-; destruct (paillier_priv_slow _ _); try done; cbn in Hk; congruence. }
    unfold paillier_priv_slow in Hk'. rewrite Ep in Hk'. change g with 2 in *. destruct (paillier_pub_new (p * q) 2 false) as [pub| | |]; try done.
    exists pub. split_and!; try done. split; try done; try lia; [apply P4|apply Q4|apply Hw|apply Hw]; done.
Qed.

(** C31: with a key that [make] returned, of either variant, for odd primes,
    decrypting [k] times the sum of two encrypted numbers gives
    [k * (m1 + m2)] modulo [n].  The basis must not be one modulo the square
    of a prime when it is raised to the secret exponent (for the standard
    variant: the primes are no Wieferich primes). *)
Theorem paillier_homomorphic fast p q a key rnd1 rnd2 m1 m2 k len :
  Z.prime p -> Z.prime q -> 2 < p -> 2 < q -> (fast = true -> 0 < a) -> pl_make fast p q a = Done (Some key) ->
  (forall r, r = p \/ r = q -> pl_basis fast p q a ^ pl_exp fast a r mod (r * r) <> 1) ->
  pl_draws fast (Z.min p q) (Z.max p q) rnd1 -> pl_draws fast (Z.min p q) (Z.max p q) rnd2 ->
  0 <= m1 < p * q -> 0 <= m2 < p * q -> 0 <= k -> 0 <= len <= nbits (p * q) ->
  exists c1 c2 c3 c4,
    paillier_encrypt (pl_pub key) rnd1 (ctext_new CRYPT_PAILLIER) m1 true = Done (Some c1)
    /\ paillier_encrypt (pl_pub key) rnd2 (ctext_new CRYPT_PAILLIER) m2 true = Done (Some c2)
    /\ paillier_add (pl_pub key) (ctext_new CRYPT_PAILLIER) c1 c2 = Done c3
    /\ paillier_mult (pl_pub key) (ctext_new CRYPT_PAILLIER) c3 k = Done c4
    /\ paillier_decrypt junk key c4 len true = Done (Some (bytes ((k * (m1 + m2)) mod (p * q)) (Z.to_nat len))).
Proof using HNok Hjunk.
  intros Hp Hq Hp2 Hq2 Ha Hm Hw D1 D2 B1 B2 Hk Hl. destruct (pl_make_spec fast p q a key Hp Hq Hp2 Hq2 Ha Hm Hw) as (a' & kk & pub & K & Epub & Ekey & En).
  set (p' := Z.min p q) in *. set (q' := Z.max p q) in *. set (g := pl_basis fast p q a) in *. rewrite <- En in *. clear Hm Hw.
  rewrite (pub_of_key _ _ _ _ _ _ Ekey). pose proof (moduli _ _ _ _ _ K) as M. pose proof (nbits_bound (p' * q') ltac:(lia)) as Bn.
  destruct (pl_encrypt_spec fast p' q' a' g K pub Epub rnd1 0 m1 true D1 ltac:(lia)) as (x1 & E1 & S1).
  destruct (pl_encrypt_spec fast p' q' a' g K pub Epub rnd2 0 m2 true D2 ltac:(lia)) as (x2 & E2 & S2).
  exists (C_paillier x1), (C_paillier x2). eexists _, _. split; [exact E1|]. split; [exact E2|]. split; [reflexivity|]. split; [reflexivity|].
  unfold paillier_decrypt. rewrite (decrypt_spec fast p' q' a' g kk K pub key Epub Ekey _ (k * (m1 + m2))).
  - rewrite (pub_of_key _ _ _ _ _ _ Ekey), (pub_eq _ _ _ _ _ Epub). cbn [pl_nbits]. pose proof (Z.mod_pos_bound (k * (m1 + m2)) (p' * q') ltac:(lia)).
    apply he_post_decrypt_spec; [done|lia|apply nbits_le; [apply nbits_nonneg|lia]|lia].
  - rewrite (pub_eq _ _ _ _ _ Epub). cbn [pl_nsq].
    eapply (stands_congr _ _ _ _ _ K); [symmetry; apply powm_congr; lia|reflexivity|]. apply (stands_pow _ _ _ _ _ K); [done|].
    eapply (stands_congr _ _ _ _ _ K); [symmetry; apply rem_congr; lia|reflexivity|]. by apply (stands_mul _ _ _ _ _ K).
Qed.
End make.

(** ** An example *)
#[local] Existing Instances gmp_model num_model.
Definition sample_paillier : paillier_priv := match pl_make true 1483 2473 13 with Done (Some k) => k | _ => mkplpriv (mkplpub 0 0 0 false 0 0) 0 0 0 0 0 0 0 0 0 0 0 0 0 0 0 0 end.
Lemma paillier_homomorphic_witness : exists c1 c2 c3 c4,
    paillier_encrypt (pl_pub sample_paillier) [[1; 2; 3]] (ctext_new CRYPT_PAILLIER) 1000 true = Done (Some c1)
    /\ paillier_encrypt (pl_pub sample_paillier) [[3; 4; 5]] (ctext_new CRYPT_PAILLIER) 2000 true = Done (Some c2)
    /\ paillier_add (pl_pub sample_paillier) (ctext_new CRYPT_PAILLIER) c1 c2 = Done c3
    /\ paillier_mult (pl_pub sample_paillier) (ctext_new CRYPT_PAILLIER) c3 7 = Done c4
    /\ paillier_decrypt (fun n => replicate (Z.to_nat n) 0) sample_paillier c4 2 true = Done (Some (bytes (7 * (1000 + 2000) mod (1483 * 2473)) 2)).
Proof.
  apply (paillier_homomorphic (fun n => replicate (Z.to_nat n) 0) (fun n _ => length_replicate _ _) true 1483 2473 13 sample_paillier).
  - apply is_prime_spec. vm_compute. reflexivity.
  - apply is_prime_spec. vm_compute. reflexivity.
  - lia.
  - lia.
  - lia.
  - vm_compute. reflexivity.
  - intros r [-> | ->]; vm_compute; discriminate.
  - eexists _, _. split; [vm_compute; reflexivity|]. split; [lia|done].
  - eexists _, _. split; [vm_compute; reflexivity|]. split; [lia|done].
  - lia.
  - lia.
  - lia.
  - vm_compute. split; discriminate.
Defined.
