(* ===== verification/Elgamal.v ===== *)
(** * ElGamal's public-key system: [crypt/elgamal.C], [crypt/elgamal.h]

    With [STRONG_PRIMES]: the modulus is [2 q + 1].  A number is encrypted as
    itself plus one ([recover]) or in the exponent. *)
From Stdlib Require Import ZArith Lia.
From stdpp Require Import prelude.
From S2P Require Import Prelude Bits Mpz MpzSpec MpzRaw NumTheory Bigint Prime Homoenc.

Record elgamal_pub := mkegpub { eg_p : Z; eg_q : Z; eg_g : Z; eg_gr : Z; eg_nbits : Z; eg_abits : Z; eg_p1 : Z; eg_q1 : Z }.
Record elgamal_priv := mkegpriv { eg_pub : elgamal_pub; eg_r : Z; eg_i2 : Z }.

Section elgamal.
Context `{HG : !Gmp} `{HN : !GmpNum}.

Definition elgamal_pub_new (pp qq gg ggr aabits : Z) : outcome elgamal_pub :=
  let nb := nbits pp in
  assertM (negb (nb =? 0)) ;;
  Done (mkegpub pp qq gg ggr nb (Z.min aabits (u64 (nb - 1))) (pp - 1) (qq + 1)).

(** [do rand = random_bigint (abits); while (rand == 0);] *)
Fixpoint random_bigint_pos (fuel : nat) (abits : Z) (rnd : list (list Z)) : outcome (Z * list (list Z)) :=
  match fuel with
  | O => Spin
  | S fuel =>
      x ← random_bigint abits rnd;
      let '(r, rnd) := x : Z * list (list Z) in
      if r =? 0 then random_bigint_pos fuel abits rnd else Done (r, rnd)
  end.

Definition elgamal_encrypt (k : elgamal_pub) (rnd : list (list Z)) (c : crypt_ctext) (msg : Z) (recover : bool) : outcome (option crypt_ctext) :=
  match c with
  | C_elgamal _ =>
      if eg_q k <=? msg then Done None
      else
        x ← random_bigint_pos (length rnd) (eg_abits k) rnd;
        let rand := x.1 in
        let r := powm (eg_g k) rand (eg_p k) in
        let m := powm (eg_gr k) rand (eg_p k) in
        let m := if recover then m * (msg + 1) else m * powm (eg_g k) msg (eg_p k) in
        Done (Some (C_elgamal (mkec r (Z.rem m (eg_p k)))))
  | _ => Panic
  end.

Definition elgamal_add (k : elgamal_pub) (c msg1 msg2 : crypt_ctext) : outcome crypt_ctext :=
  match c, msg1, msg2 with
  | C_elgamal _, C_elgamal ec1, C_elgamal ec2 =>
      Done (C_elgamal (mkec (Z.rem (ec_r ec1 * ec_r ec2) (eg_p k)) (Z.rem (ec_m ec1 * ec_m ec2) (eg_p k))))
  | _, _, _ => Panic
  end.

Definition elgamal_mult (k : elgamal_pub) (c msg : crypt_ctext) (cons : Z) : outcome crypt_ctext :=
  match c, msg with
  | C_elgamal _, C_elgamal mec => Done (C_elgamal (mkec (powm (ec_r mec) cons (eg_p k)) (powm (ec_m mec) cons (eg_p k))))
  | _, _ => Panic
  end.

Definition elgamal_priv_new (pp qq gg rr : Z) : outcome elgamal_priv :=
  pub ← elgamal_pub_new pp qq gg (powm gg rr pp) (nbits rr);
  Done (mkegpriv pub rr (invert 2 qq)).

Definition elgamal_decrypt (junk : Z -> list Z) (k : elgamal_priv) (msg : crypt_ctext) (msglen : Z) (recover : bool) : outcome (option (list Z)) :=
  match msg with
  | C_elgamal ec =>
      let p := eg_p (eg_pub k) in
      let m := powm (ec_r ec) (eg_r k) p in
      let m := invert m p in
      let m := Z.rem (m * ec_m ec) p in
      let m := if recover then m - 1 else m in
      he_post_decrypt junk (eg_nbits (eg_pub k)) m msglen
  | _ => Panic
  end.

Definition elgamal_make (p g r : Z) : outcome (option elgamal_priv) :=
  let q := tdiv_2exp (p - 1) 1 in
  if (p <=? 1) || negb (probab_prime p 5) || (q <=? 1) || negb (probab_prime q 5) || (g <=? 1) || (g <? p) || (r <? 1) || (p - 2 <? r)
  then Done None
  else k ← elgamal_priv_new p q g r; Done (Some k).

(** [do ... while (p.nbits () != nbits || !p.probab_prime (iter));] *)
Fixpoint elgamal_primes (fuel : nat) (nb iter : Z) (tries : list (list (list Z) * list Z)) : outcome (Z * Z) :=
  match fuel with
  | O => Spin
  | S fuel =>
      x ← random_prime (nb - 1) odd_sieve iter tries;
      let '(q, tries) := x : Z * list (list (list Z) * list Z) in
      let p := 2 * q + 1 in
      if negb (nbits p =? nb) || negb (probab_prime p iter) then elgamal_primes fuel nb iter tries else Done (p, q)
  end.
(** [do g = random_zn (p-1); while (g == 0 || g == 1);] *)
Fixpoint elgamal_base (fuel : nat) (p : Z) (rnd : list (list Z)) : outcome (Z * list (list Z)) :=
  match fuel with
  | O => Spin
  | S fuel =>
      x ← random_zn (p - 1) rnd;
      let '(g, rnd) := x : Z * list (list Z) in
      if (g =? 0) || (g =? 1) then elgamal_base fuel p rnd else Done (g, rnd)
  end.

Definition elgamal_keygen (nb abits iter : Z) (tries : list (list (list Z) * list Z)) (rnd : list (list Z)) : outcome elgamal_priv :=
  assertM (0 <? nb) ;;
  assertM (0 <? abits) ;;
  assertM (abits <=? nb) ;;
  x ← elgamal_primes (length tries) nb iter tries;
  let '(p, q) := x : Z * Z in
  x ← elgamal_base (length rnd) p rnd;
  let '(g, rnd) := x : Z * list (list Z) in
  let g := Z.rem (g * g) p in
  x ← random_bigint_pos (length rnd) abits rnd;
  let r := x.1 in
  elgamal_priv_new p q g r.

(** The class [homoenc_priv] *)
Definition elgamal_homoenc (junk : Z -> list Z) (k : elgamal_priv) : Homoenc := {|
  mod_size := eg_nbits (eg_pub k);
  ptext_modulus := eg_q (eg_pub k);
  ctext_type := CRYPT_ELGAMAL;
  he_encrypt := elgamal_encrypt (eg_pub k);
  he_add := elgamal_add (eg_pub k);
  he_mult := elgamal_mult (eg_pub k);
  he_decrypt := elgamal_decrypt junk k
|}.

(** [make] returns no key for a generator below the modulus: the test
    [g < p] rejects it. *)
Lemma elgamal_make_rejects p g r : g < p -> elgamal_make p g r = Done None.
Proof using. intros Hg. unfold elgamal_make. cbv zeta. destruct (Z.ltb_spec g p); [|lia]. by rewrite !orb_true_r. Qed.
End elgamal.

(** ** The promises of [homoenc.h] *)
Section correct.
Context `{HG : !Gmp} `{HGok : !GmpOK} `{HN : !GmpNum} `{HNok : !GmpNumOK}.
Context (p q g r : Z) (Hp : Z.prime p) (Hq : 1 < q < p) (Hg : g ^ q =[p]= 1) (Hr : 0 <= r) (key : elgamal_priv).
Context (Hkey : elgamal_priv_new p q g r = Done key).
Context (junk : Z -> list Z) (Hjunk : forall n, 0 <= n -> length (junk n) = Z.to_nat n).
Notation gr := (powm g r p).

Lemma eg_fields : eg_p (eg_pub key) = p /\ eg_q (eg_pub key) = q /\ eg_g (eg_pub key) = g /\ eg_gr (eg_pub key) = gr
  /\ eg_nbits (eg_pub key) = nbits p /\ eg_r key = r.
Proof using Hkey. generalize Hkey. unfold elgamal_priv_new, elgamal_pub_new. cbv zeta. destruct (negb _); cbn; [|done]. intros [= <-]. done. Qed.
Lemma eg_unit : Z.gcd g p = 1.
Proof using Hq Hg. apply (unit_inverse p g (g ^ (q - 1))); [lia|]. by rewrite <- Z.pow_succ_r, <- Z.add_1_r, Z.sub_add by lia. Qed.
Lemma gr_congr : gr =[p]= g ^ r.
Proof using Hq Hr HNok. apply powm_congr; lia. Qed.

(** The exponent and the value of a ciphertext. *)
Definition eg_carries (c : crypt_ctext) (v : Z) : Prop :=
  exists ec t, c = C_elgamal ec /\ 0 <= t /\ ec_r ec =[p]= g ^ t /\ ec_m ec =[p]= gr ^ t * v /\ 0 <= ec_m ec.

Lemma carries_decrypt c v len : eg_carries c v -> 0 < v < p -> 0 <= len <= nbits p ->
  elgamal_decrypt junk key c len true = Done (Some (bytes (v - 1) (Z.to_nat len)))
  /\ elgamal_decrypt junk key c len false = Done (Some (bytes v (Z.to_nat len))).
Proof using Hp Hq Hg Hr Hkey HNok Hjunk.
  intros (ec & t & -> & Ht & Er & Em & Bm) Hv Hl. destruct eg_fields as (F1 & _ & _ & _ & F5 & F6). unfold elgamal_decrypt. rewrite F1, F5, F6.
  set (x := powm (ec_r ec) r p). assert (Ex : x =[p]= gr ^ t).
  { unfold x. rewrite powm_congr, Er, gr_congr, <- !Z.pow_mul_r by lia. apply congr_mul_eq. f_equal. lia. }
  assert (Ux : Z.gcd x p = 1).
  { rewrite (congr_gcd p x (gr ^ t)) by (done || lia). apply Z.coprime_pow_l; [lia|]. change (Z.gcd gr p = 1). rewrite (congr_gcd p gr (g ^ r)) by (lia || apply gr_congr).
    apply Z.coprime_pow_l; [lia|apply eg_unit]. }
  pose proof (invert_bound x p ltac:(lia)). assert (E : Z.rem (invert x p * ec_m ec) p = v).
  { rewrite rem_pos by nia. apply congr_eq; [|lia]. rewrite Em, <- Ex. transitivity (v * (x * invert x p)); [apply congr_mul_eq; ring|].
    rewrite invert_congr by (done || lia). apply congr_mul_eq. ring. }
  rewrite E. pose proof (nbits_bound p ltac:(lia)). pose proof (nbits_nonneg p). split; apply he_post_decrypt_spec; try done; try lia; apply nbits_le; lia.
Qed.

Lemma carries_add c a b v w : ctype c = CRYPT_ELGAMAL -> eg_carries a v -> eg_carries b w -> exists d, elgamal_add (eg_pub key) c a b = Done d /\ eg_carries d (v * w).
Proof using Hq Hkey.
  intros Hc (e1 & t1 & -> & H1 & R1 & M1 & B1) (e2 & t2 & -> & H2 & R2 & M2 & B2). destruct c; try done. eexists. split; [reflexivity|].
  destruct eg_fields as (F1 & _). rewrite F1. eexists _, (t1 + t2). split; [done|]. cbn [ec_r ec_m]. split_and!; [lia| | |apply Z.rem_nonneg; nia].
  - rewrite rem_congr, R1, R2, Z.pow_add_r by lia. done.
  - rewrite rem_congr, M1, M2, Z.pow_add_r by lia. apply congr_mul_eq. ring.
Qed.
Lemma carries_mult c a v k : ctype c = CRYPT_ELGAMAL -> eg_carries a v -> 0 <= k -> exists d, elgamal_mult (eg_pub key) c a k = Done d /\ eg_carries d (v ^ k).
Proof using Hq Hkey HNok.
  intros Hc (e1 & t1 & -> & H1 & R1 & M1 & B1) Hk. destruct c; try done. eexists. split; [reflexivity|].
  destruct eg_fields as (F1 & _). rewrite F1. eexists _, (t1 * k). split; [done|]. cbn [ec_r ec_m]. split_and!; [nia| | |apply powm_bound; lia].
  - rewrite powm_congr, R1, Z.pow_mul_r by lia. done.
  - rewrite powm_congr, M1, Z.pow_mul_l, Z.pow_mul_r by lia. done.
Qed.
Lemma carries_congr c v w : v =[p]= w -> eg_carries c v -> eg_carries c w.
Proof using. intros H (e & t & -> & Ht & R & M & B). exists e, t. split_and!; try done. by rewrite M, H. Qed.

(** In the exponent. *)
Definition eg_opens (c : crypt_ctext) (m : Z) : Prop := eg_carries c (g ^ (m mod q)).
Definition eg_draws (rnd : list (list Z)) : Prop :=
  exists t rnd', random_bigint_pos (length rnd) (eg_abits (eg_pub key)) rnd = Done (t, rnd') /\ 0 <= t.

Lemma g_powm m : powm g m p =[p]= g ^ (m mod q).
Proof using Hq Hg HNok.
  pose proof (Z.mod_pos_bound m q ltac:(lia)). destruct (Z.le_gt_cases 0 m).
  - rewrite powm_congr by lia. symmetry. apply pow_mod_order; (done || lia).
  - apply (congr_cancel p (g ^ (- m))); [lia|apply Z.coprime_pow_l; [lia|apply eg_unit]|]. replace m with (- - m) at 2 by lia.
    rewrite powm_neg by (lia || apply eg_unit). rewrite <- Z.pow_add_r by lia. rewrite <- (Z.pow_0_r g). apply (pow_congr_order p g q); [lia|lia|lia|done|].
    rewrite congr_mod. apply congr_mul_eq. lia.
Qed.

Lemma carries_encrypt rnd c m b : eg_draws rnd -> ctype c = CRYPT_ELGAMAL -> m < q -> (b = true -> 0 <= m) ->
  exists d, elgamal_encrypt (eg_pub key) rnd c m b = Done (Some d) /\ eg_carries d (if b then m + 1 else g ^ (m mod q)).
Proof using Hq Hg Hkey HNok.
  intros (t & rnd' & E & Ht) Hc Hm Hb. destruct c; try done. unfold elgamal_encrypt. destruct eg_fields as (F1 & F2 & F3 & F4 & _). rewrite F1, F2, F3, F4.
  destruct (Z.leb_spec q m); [lia|]. rewrite E. cbn [mbind outcome_bind fst]. eexists. split; [done|]. eexists _, t. split; [done|]. cbn [ec_r ec_m].
  pose proof (powm_bound gr t p Ht ltac:(lia)). split_and!; [done|by rewrite powm_congr by lia| |].
  - rewrite rem_congr by lia. destruct b; rewrite (powm_congr gr t p) by lia; [done|]. by rewrite (g_powm m).
  - apply Z.rem_nonneg; [lia|]. destruct b; [specialize (Hb eq_refl); nia|]. apply Z.mul_nonneg_nonneg; [lia|]. destruct (Z.le_gt_cases 0 m); [apply powm_bound; lia|].
    replace m with (- - m) by lia. apply powm_neg_bound; [lia|lia|apply eg_unit].
Qed.

Lemma type_elgamal c : ctype c = CRYPT_ELGAMAL -> exists y, c = C_elgamal y.
Proof using. destruct c; try done. by eexists. Qed.

Definition elgamal_laws : @HomoencOK (elgamal_homoenc junk key).
Proof using Hp Hq Hg Hr Hkey HGok HNok Hjunk.
  destruct eg_fields as (F1 & F2 & F3 & F4 & F5 & F6). pose proof (nbits_bound p ltac:(lia)) as Bn.
  assert (Mx : forall m n, 0 <= n < q -> 0 < (g ^ (m mod q) * (n + 1)) mod p < p).
  { intros m n Hn. pose proof (Z.mod_pos_bound (g ^ (m mod q) * (n + 1)) p ltac:(lia)). assert ((g ^ (m mod q) * (n + 1)) mod p <> 0); [|lia].
    apply unit_not_0; [done|]. apply gcd_mul_1; [|apply small_unit; [done|lia]]. apply Z.coprime_pow_l; [apply Z.mod_pos_bound; lia|apply eg_unit]. }
  apply (@Build_HomoencOK (elgamal_homoenc junk key) eg_opens (fun c x => eg_carries c (x + 1) /\ 0 <= x < p - 1) (fun m x => (g ^ (m mod q) * (x + 1)) mod p - 1) eg_draws);
    cbn [mod_size ptext_modulus ctext_type he_encrypt he_add he_mult he_decrypt elgamal_homoenc]; rewrite ?F2, ?F5.
  - lia.
  - apply nbits_nonneg.
  - by intros c m (e & t & -> & _).
  - intros c m m' Hm. unfold eg_opens. unfold congr in Hm. by rewrite Hm.
  - intros rnd c m Hd Hc Hm. apply (carries_encrypt rnd c m false); (done || lia).
  - intros rnd c m Hd Hc Hm. destruct (carries_encrypt rnd c m true Hd Hc ltac:(lia) ltac:(lia)) as (d & E & C). exists d. split; [exact E|]. split; [exact C|lia].
  - intros rnd c m b (y & ->)%type_elgamal Hm. unfold elgamal_encrypt. rewrite F2. destruct (Z.leb_spec q m); [done|lia].
  - intros c a b m n Hc Ha Hb. destruct (carries_add c a b _ _ Hc Ha Hb) as (d & E & C). exists d. split; [exact E|]. eapply carries_congr, C.
    pose proof (Z.mod_pos_bound m q ltac:(lia)). pose proof (Z.mod_pos_bound n q ltac:(lia)). pose proof (Z.mod_pos_bound (m + n) q ltac:(lia)).
    rewrite <- Z.pow_add_r by lia. apply (pow_congr_order p g q); [lia|lia|lia|done|]. by rewrite (congr_mod q m), (congr_mod q n), (congr_mod q (m + n)).
  - intros c a m k Hc Ha Hk. destruct (carries_mult c a _ k Hc Ha Hk) as (d & E & C). exists d. split; [exact E|]. eapply carries_congr, C.
    pose proof (Z.mod_pos_bound m q ltac:(lia)). pose proof (Z.mod_pos_bound (k * m) q ltac:(lia)).
    rewrite <- Z.pow_mul_r by lia. apply (pow_congr_order p g q); [lia|nia|lia|done|]. rewrite (congr_mod q m), (congr_mod q (k * m)). apply congr_mul_eq. ring.
  - intros c a b m n Hc Ha [Hb _] Hn. destruct (carries_add c a b _ _ Hc Ha Hb) as (d & E & C). exists d. split; [exact E|]. pose proof (Mx m n Hn).
    split; [|lia]. eapply carries_congr, C. rewrite Z.sub_add. symmetry. apply congr_mod.
  - intros m n Hm Hn. unfold congr in Hm. rewrite Hm, Z.mod_0_l, Z.pow_0_r, Z.mod_small by lia. lia.
  - intros c n len [Hc Hn] _ _ Hl. destruct (carries_decrypt c (n + 1) len Hc ltac:(lia) Hl) as [E _]. by rewrite Z.add_simpl_r in E.
  - intros m n Hn. pose proof (Mx m n Hn). lia.
Defined.
End correct.
