(* ===== verification/Poly.v ===== *)
(** * Polynomials: [crypt/poly.C], [crypt/poly.h]

    Coefficients in ascending order.  The polynomial with given roots is built
    in place, one root at a time, from the highest coefficient down. *)
From Stdlib Require Import ZArith Lia.
From stdpp Require Import prelude.
From S2P Require Import Prelude NumTheory.

Section generate.
(** The update of a coefficient from it, the one below and the root; the
    update of the constant. *)
Context (updj : Z -> Z -> Z -> Z) (upd0 : Z -> Z -> Z).

(** [for (j = i-1; j; j--)] *)
Fixpoint gen_inner (j : nat) (root : Z) (coeffs : list Z) : outcome (list Z) :=
  match j with
  | O => Done coeffs
  | S j' =>
      c ← rd coeffs (Z.of_nat j);
      d ← rd coeffs (Z.of_nat j');
      coeffs ← wr coeffs (Z.of_nat j) (updj c d root);
      gen_inner j' root coeffs
  end.

Definition gen_root (i : nat) (root : Z) (coeffs : list Z) : outcome (list Z) :=
  c ← rd coeffs (Z.of_nat i - 1);
  coeffs ← wr coeffs (Z.of_nat i) c;
  coeffs ← gen_inner (i - 1) root coeffs;
  c0 ← rd coeffs 0;
  wr coeffs 0 (upd0 c0 root).

(** [for (i = 1; i < deg; i++)], over the roots that are left *)
Fixpoint gen_loop (i : nat) (roots coeffs : list Z) : outcome (list Z) :=
  match roots with
  | [] => Done coeffs
  | root :: roots => coeffs ← gen_root i root coeffs; gen_loop (S i) roots coeffs
  end.

Definition gen_coeffs (roots : list Z) : outcome (list Z) := gen_loop 1 roots (1 :: replicate (length roots) 0).
End generate.

(** [generate_coeffs (roots)] *)
Definition generate_coeffs (roots : list Z) : outcome (list Z) :=
  gen_coeffs (fun c d r => c * r * -1 + d) (fun c r => c * r * -1) roots.
(** [generate_coeffs (roots, modulus)] *)
Definition generate_coeffs_mod (modulus : Z) (roots : list Z) : outcome (list Z) :=
  gen_coeffs (fun c d r => Z.rem (Z.rem (c * r) modulus * -1 + d) modulus) (fun c r => Z.rem (c * r * -1) modulus) roots.

(** Horner's rule, from [y]; [i] counts down to zero. *)
Fixpoint eval_loop (i : nat) (step : Z -> Z -> Z) (coeffs : list Z) (y : Z) : outcome Z :=
  match i with
  | O => Done y
  | S i' => c ← rd coeffs (Z.of_nat i'); eval_loop i' step coeffs (step y c)
  end.
Definition evaluate (coeffs : list Z) (x : Z) : outcome Z :=
  y ← rd coeffs (Z.of_nat (length coeffs));
  eval_loop (length coeffs) (fun y c => y * x + c) coeffs y.
Definition evaluate_mod (coeffs : list Z) (x modulus : Z) : outcome Z :=
  y ← rd coeffs (Z.of_nat (length coeffs));
  y ← eval_loop (length coeffs) (fun y c => Z.rem (y * x) modulus + c) coeffs y;
  Done (Z.rem y modulus).

(** Both start with the element behind the last coefficient. *)
Lemma evaluate_wild coeffs x : evaluate coeffs x = Wild.
Proof. unfold evaluate, rd. destruct (Z.leb_spec 0 (Z.of_nat (length coeffs))); [|lia]. by rewrite Nat2Z.id, lookup_ge_None_2 by lia. Qed.
Lemma evaluate_mod_wild coeffs x m : evaluate_mod coeffs x m = Wild.
Proof. unfold evaluate_mod, rd. destruct (Z.leb_spec 0 (Z.of_nat (length coeffs))); [|lia]. by rewrite Nat2Z.id, lookup_ge_None_2 by lia. Qed.

(** ** The value of a polynomial *)
Definition peval (c : list Z) (x : Z) : Z := foldr (fun a v => a + x * v) 0 c.
Definition proots (roots : list Z) (x : Z) : Z := foldr (fun r v => (x - r) * v) 1 roots.

Lemma peval_zeros n x : peval (replicate n 0) x = 0.
Proof. induction n as [|n IH]; cbn; [done|]. unfold peval in IH. rewrite IH. lia. Qed.
Lemma peval_app c d x : peval (c ++ d) x = peval c x + x ^ Z.of_nat (length c) * peval d x.
Proof.
  induction c as [|a c IH]; cbn [app length]; [change (peval [] x) with 0; rewrite Z.pow_0_r; lia|].
  change (peval (a :: c ++ d) x) with (a + x * peval (c ++ d) x). change (peval (a :: c) x) with (a + x * peval c x).
  rewrite IH, Nat2Z.inj_succ, Z.pow_succ_r by lia. ring.
Qed.
Lemma peval_congr n c d x : Forall2 (congr n) c d -> peval c x =[n]= peval d x.
Proof.
  induction 1 as [|a b c d Hab _ IH]; [done|]. change (a + x * peval c x =[n]= b + x * peval d x). by rewrite Hab, IH.
Qed.
(** Multiplication by [x - root]. *)
Lemma peval_shift root x c a :
  peval (zip_with (fun d b => d - root * b) (a :: c) c) x + x ^ Z.of_nat (length c) * List.last (a :: c) 0 = a + (x - root) * peval c x.
Proof.
  revert a. induction c as [|b c IH]; intros a; [cbn; lia|].
  change (zip_with (fun d b => d - root * b) (a :: b :: c) (b :: c)) with ((a - root * b) :: zip_with (fun d b => d - root * b) (b :: c) c).
  change (peval ((a - root * b) :: zip_with (fun d b => d - root * b) (b :: c) c) x) with (a - root * b + x * peval (zip_with (fun d b => d - root * b) (b :: c) c) x).
  change (List.last (a :: b :: c) 0) with (List.last (b :: c) 0). change (peval (b :: c) x) with (b + x * peval c x). specialize (IH b).
  rewrite length_cons, Nat2Z.inj_succ, Z.pow_succ_r by lia. set (P := peval (zip_with _ _ _) x) in *. set (L := List.last (b :: c) 0) in *. set (E := x ^ Z.of_nat (length c)) in *.
  replace (a - root * b + x * P + x * E * L) with (a - root * b + x * (P + E * L)) by ring. rewrite IH. ring.
Qed.

(** ** The coefficients are those of the product *)
Section correct.
Context (n : Z) (updj : Z -> Z -> Z -> Z) (upd0 : Z -> Z -> Z).
Context (Hj : forall c d r, updj c d r =[n]= d - r * c) (H0 : forall c r, upd0 c r =[n]= - (r * c)).

Lemma rd_at {A} (l : list A) (i : nat) a : l !! i = Some a -> rd l (Z.of_nat i) = Done a.
Proof using. intros E. unfold rd. destruct (Z.leb_spec 0 (Z.of_nat i)); [|lia]. by rewrite Nat2Z.id, E. Qed.
Lemma wr_at {A} (l : list A) (i : nat) a : (i < length l)%nat -> wr l (Z.of_nat i) a = Done (<[i := a]> l).
Proof using. intros H. unfold wr. destruct (Z.leb_spec 0 (Z.of_nat i)), (Z.ltb_spec (Z.of_nat i) (Z.of_nat (length l))); try lia. by rewrite Nat2Z.id. Qed.

(** The entries from 1 to [j] are updated from the old ones. *)
Lemma gen_inner_spec j root c : (j < length c)%nat ->
  exists c', gen_inner updj j root c = Done c' /\ length c' = length c
    /\ (forall k, (1 <= k <= j)%nat -> c' !! k = Some (updj (c !!! k) (c !!! (k - 1)%nat) root))
    /\ (forall k, ~ (1 <= k <= j)%nat -> c' !! k = c !! k).
Proof using.
  revert c. induction j as [|j IH]; intros c Hl; [exists c; split_and!; [done|done|lia|done]|].
  destruct (lookup_lt_is_Some_2 c (S j)) as [a Ea]; [lia|]. destruct (lookup_lt_is_Some_2 c j) as [b Eb]; [lia|]. cbn [gen_inner].
  rewrite (rd_at c (S j) a Ea), (rd_at c j b Eb). cbn [mbind outcome_bind]. rewrite wr_at by lia. cbn [mbind outcome_bind].
  destruct (IH (<[S j := updj a b root]> c)) as (c' & E & L & U & N); [rewrite length_insert; lia|]. exists c'. rewrite length_insert in L. split_and!; try done.
  - intros k Hk. destruct (decide (k = S j)) as [->|].
    + rewrite N, list_lookup_insert_eq by lia. rewrite (list_lookup_total_correct c (S j) a Ea). replace (S j - 1)%nat with j by lia.
      by rewrite (list_lookup_total_correct c j b Eb).
    + rewrite U, !list_lookup_total_insert_ne by lia. done.
  - intros k Hk. rewrite N by lia. apply list_lookup_insert_ne. lia.
Qed.

Lemma list_last_lookup (c : list Z) a : List.last (a :: c) 0 = (a :: c) !!! length c.
Proof using. revert a. induction c as [|b c IH]; intros a; [done|]. change (List.last (a :: b :: c) 0) with (List.last (b :: c) 0). by rewrite IH. Qed.

(** A root more. *)
Lemma gen_root_spec i root c : (1 <= i < length c)%nat -> (forall k, (i <= k < length c)%nat -> c !!! k = 0) ->
  exists c', gen_root updj upd0 i root c = Done c' /\ length c' = length c /\ (forall k, (S i <= k < length c)%nat -> c' !!! k = 0)
    /\ c' !!! i = c !!! (i - 1)%nat /\ (forall k, (k < i)%nat -> c' !! k = Some (if decide (k = O) then upd0 (c !!! O) root else updj (c !!! k) (c !!! (k - 1)%nat) root)).
Proof using.
  intros Hi Hz. destruct (lookup_lt_is_Some_2 c (i - 1)) as [a Ea]; [lia|]. unfold gen_root. replace (Z.of_nat i - 1) with (Z.of_nat (i - 1)) by lia.
  rewrite (rd_at c _ a Ea). cbn [mbind outcome_bind]. rewrite wr_at by lia. cbn [mbind outcome_bind].
  destruct (gen_inner_spec (i - 1) root (<[i := a]> c)) as (d & -> & L & U & N); [rewrite length_insert; lia|]. rewrite length_insert in L. cbn [mbind outcome_bind].
  assert (E0 : d !! O = Some (c !!! O)) by (rewrite N, list_lookup_insert_ne by lia; apply list_lookup_lookup_total_lt; lia).
  change 0 with (Z.of_nat O) at 1 2. rewrite (rd_at d O _ E0). cbn [mbind outcome_bind]. rewrite wr_at by lia. eexists. split; [done|].
  rewrite length_insert. split; [done|]. split_and!.
  - intros k Hk. rewrite list_lookup_total_insert_ne by lia. rewrite list_lookup_total_alt, N, list_lookup_insert_ne, <- list_lookup_total_alt by lia. apply Hz. lia.
  - rewrite list_lookup_total_insert_ne by lia. rewrite list_lookup_total_alt, N, list_lookup_insert_eq by lia. by rewrite (list_lookup_total_correct c _ a Ea).
  - intros k Hk. destruct (decide (k = O)) as [->|]; [by rewrite list_lookup_insert_eq by lia|]. rewrite list_lookup_insert_ne, U by lia.
    by rewrite !list_lookup_total_insert_ne by lia.
Qed.

Lemma gen_root_eval i root c c' : (1 <= i < length c)%nat -> (forall k, (i <= k < length c)%nat -> c !!! k = 0) -> gen_root updj upd0 i root c = Done c' ->
  forall x, peval c' x =[n]= (x - root) * peval c x.
Proof using Hj H0.
  intros Hi Hz E x. destruct (gen_root_spec i root c Hi Hz) as (d & E' & L & Z1 & T & U). rewrite E in E'. injection E' as <-.
  pose proof (peval_shift root x c 0) as P. rewrite list_last_lookup in P. destruct c as [|b c]; [cbn in Hi; lia|].
  change ((0 :: b :: c) !!! length (b :: c)) with ((b :: c) !!! length c) in P. rewrite Hz in P by (rewrite !length_cons in *; lia). rewrite Z.mul_0_r, Z.add_0_r, Z.add_0_l in P.
  rewrite <- P. apply peval_congr. set (cs := b :: c) in *. apply Forall2_same_length_lookup_2; [rewrite length_zip_with, L; unfold cs; rewrite !length_cons; lia|].
  intros k u v Hu (p & q & -> & Hp & Hq)%lookup_zip_with_Some. rewrite <- (list_lookup_total_correct cs k q Hq) in *. clear Hq.
  assert (Hkl : (k < length c')%nat) by (by eapply lookup_lt_Some). destruct k as [|k]; [injection Hp as <-|].
  - rewrite U in Hu by lia. injection Hu as <-. rewrite H0. done.
  - cbn [lookup list_lookup] in Hp. rewrite <- (list_lookup_total_correct cs k p Hp). destruct (Nat.lt_trichotomy (S k) i) as [Hk|[Hk|Hk]].
    + rewrite U in Hu by lia. injection Hu as <-. rewrite Hj || (destruct (decide (S k = O)); [lia|]; rewrite Hj). by rewrite Nat.sub_0_r.
    + rewrite <- (list_lookup_total_correct c' (S k) u Hu), Hk, T, (Hz i), <- Hk by lia. replace (S k - 1)%nat with k by lia. apply congr_mul_eq. lia.
    + rewrite <- (list_lookup_total_correct c' (S k) u Hu), (Z1 (S k)), (Hz k), (Hz (S k)) by lia. apply congr_mul_eq. lia.
Qed.

(** All roots. *)
Lemma gen_loop_spec (P : Z -> Prop) roots i c : (forall c d r, P (updj c d r)) -> (forall c r, P (upd0 c r)) ->
  (1 <= i)%nat -> (i + length roots <= length c)%nat -> (forall k, (i <= k < length c)%nat -> c !!! k = 0) -> (forall k, (k < i - 1)%nat -> P (c !!! k)) ->
  exists c', gen_loop updj upd0 i roots c = Done c' /\ length c' = length c /\ (forall x, peval c' x =[n]= proots roots x * peval c x)
    /\ c' !!! (i + length roots - 1)%nat = c !!! (i - 1)%nat /\ (forall k, (k < i + length roots - 1)%nat -> P (c' !!! k)).
Proof using Hj H0.
  intros Pj P0. revert i c. induction roots as [|root roots IH]; intros i c Hi Hl Hz HP; cbn [gen_loop length].
  - exists c. rewrite Nat.add_0_r. split_and!; try done. intros x. cbn. apply congr_mul_eq. lia.
  - cbn [length] in Hl. destruct (gen_root_spec i root c ltac:(lia) Hz) as (d & E & L & Z1 & T & U). rewrite E. cbn [mbind outcome_bind].
    destruct (IH (S i) d) as (c' & E' & L' & V & T' & B); [lia|lia|by rewrite L| |].
    { intros k Hk. rewrite (list_lookup_total_correct d k _ (U k ltac:(lia))). by destruct (decide (k = O)). }
    exists c'. replace (S i - 1)%nat with i in T' by lia. replace (i + S (length roots) - 1)%nat with (S i + length roots - 1)%nat by lia. split_and!; try done.
    + lia.
    + intros x. rewrite V, (gen_root_eval i root c d) by (done || lia). apply congr_mul_eq. change (proots (root :: roots) x) with ((x - root) * proots roots x). ring.
    + by rewrite T'.
Qed.
End correct.

Lemma gen_start m j : (j < m)%nat -> (1 :: replicate m 0) !!! S j = 0.
Proof. intros H. apply (lookup_total_replicate_2 (A := Z) m 0 j H). Qed.

(** Without a modulus. *)
Lemma generate_coeffs_spec roots : exists c, generate_coeffs roots = Done c /\ length c = S (length roots) /\ (forall x, peval c x = proots roots x).
Proof.
  assert (H : forall n, exists c, generate_coeffs roots = Done c /\ length c = S (length roots) /\ (forall x, peval c x =[n]= proots roots x)).
  { intros n. destruct (gen_loop_spec n (fun c d r => c * r * -1 + d) (fun c r => c * r * -1) ltac:(intros; apply congr_mul_eq; ring) ltac:(intros; apply congr_mul_eq; ring)
      (fun _ => True) roots 1 (1 :: replicate (length roots) 0)) as (c & E & L & V & _); try done; try (cbn; rewrite length_replicate; lia).
    { intros [|k] Hk; [lia|]. apply gen_start. cbn in Hk. rewrite length_replicate in Hk. lia. }
    exists c. split; [exact E|]. split; [rewrite L; cbn; by rewrite length_replicate|]. intros x. rewrite V. apply congr_mul_eq. cbn.
    change (foldr _ 0 (replicate (length roots) 0)) with (peval (replicate (length roots) 0) x). rewrite peval_zeros. lia. }
  destruct (H 0) as (c & E & L & _). exists c. split_and!; try done. intros x. set (B := Z.abs (peval c x) + Z.abs (proots roots x) + 1).
  destruct (H B) as (c' & E' & _ & V). rewrite E in E'. injection E' as <-. specialize (V x). apply congr_divide in V as [k Hk]; [|lia].
  assert (k = 0) by nia. nia.
Qed.

(** With a modulus: the highest coefficient is one, the others are reduced. *)
Lemma generate_coeffs_mod_spec m roots : 1 < m ->
  exists c, generate_coeffs_mod m roots = Done c /\ length c = S (length roots) /\ (forall x, peval c x =[m]= proots roots x)
    /\ c !!! length roots = 1 /\ (forall k, (k < length roots)%nat -> - m < c !!! k < m).
Proof.
  intros Hm. destruct (gen_loop_spec m (fun c d r => Z.rem (Z.rem (c * r) m * -1 + d) m) (fun c r => Z.rem (c * r * -1) m)) with
    (P := fun z => - m < z < m) (roots := roots) (i := 1%nat) (c := 1 :: replicate (length roots) 0) as (c & E & L & V & T & B).
  - intros c d r. rewrite !rem_congr by lia. apply congr_mul_eq. ring.
  - intros c r. rewrite rem_congr by lia. apply congr_mul_eq. ring.
  - intros. pose proof (Z.rem_bound_abs (Z.rem (c * r) m * -1 + d) m ltac:(lia)). lia.
  - intros. pose proof (Z.rem_bound_abs (c * r * -1) m ltac:(lia)). lia.
  - done.
  - cbn. rewrite length_replicate. lia.
  - intros [|k] Hk; [lia|]. apply gen_start. cbn in Hk. rewrite length_replicate in Hk. lia.
  - lia.
  - exists c. split; [exact E|]. split; [rewrite L; cbn; by rewrite length_replicate|]. split_and!.
    + intros x. rewrite V. apply congr_mul_eq. cbn. change (foldr _ 0 (replicate (length roots) 0)) with (peval (replicate (length roots) 0) x). rewrite peval_zeros. lia.
    + replace (length roots) with (1 + length roots - 1)%nat by lia. by rewrite T.
    + intros k Hk. apply B. lia.
Qed.
