(* ===== verification/Pm.v ===== *)
(** * Private matching: [crypt/pm.C], [crypt/pm.h]

    The client encrypts the polynomial whose roots are its inputs; the server
    evaluates it on its own inputs under encryption, multiplies by a random
    number and adds its payload; the client decrypts and keeps what begins
    with the mark [match].  Everything is stated against the interface
    [Homoenc]. *)
From Stdlib Require Import ZArith Lia Permutation.
From stdpp Require Import prelude.
From S2P Require Import Prelude Bits Mpz MpzSpec MpzRaw NumTheory Bigint Prime PrimeProps Homoenc PaillierProps Poly.

Definition pm_match : list Z := [0xff; 0xff; 0xff; 0xff].
Definition matchlen : Z := 4.

Record cpayload := mkcp { cp_ctxt : crypt_ctext; cp_ptsz : Z }.

Section pm.
Context `{HG : !Gmp} `{HE : !Homoenc}.
(** [strbuf () << match] takes [match] as a C string, but it has no NUL: what
    follows it in memory up to the next NUL is taken too. *)
Context (behind : list Z).

(** ** The client *)
(** The coefficients but the highest one, each with its random bytes. *)
Fixpoint encrypt_coeffs (rnds : list (list (list Z))) (pcoeffs : list Z) {struct pcoeffs} : outcome (option (list crypt_ctext)) :=
  match pcoeffs with
  | [] => Done (Some [])
  | p :: pcoeffs =>
      match rnds with
      | [] => Spin
      | rnd :: rnds =>
          x ← he_encrypt rnd (ctext_new ctext_type) p false;
          match x with
          | None => Done None
          | Some c => r ← encrypt_coeffs rnds pcoeffs; Done (option_map (cons c) r)
          end
      end
  end.

(** The result, and the new [coeffs] *)
Definition set_polynomial (rnds : list (list (list Z))) (inputs : list Z) : outcome (bool * list crypt_ctext) :=
  pcoeffs ← generate_coeffs_mod ptext_modulus inputs;
  let kc := Z.of_nat (length pcoeffs) in
  c ← rd pcoeffs (kc - 1);
  assertM (c =? 1) ;;
  x ← encrypt_coeffs rnds (take (Z.to_nat (kc - 1)) pcoeffs);
  match x with
  | None => Done (false, [])
  | Some coeffs => Done (true, coeffs)
  end.

Fixpoint pre_encrypt_all (inputs : list (list Z)) : outcome (list Z) :=
  match inputs with
  | [] => Done []
  | s :: inputs => x ← he_pre_encrypt mod_size s; r ← pre_encrypt_all inputs; Done (x :: r)
  end.
(** For strings; [coeffs] is what it was if there are no inputs *)
Definition set_polynomial_str (rnds : list (list (list Z))) (inputs : list (list Z)) (coeffs : list crypt_ctext) : outcome (bool * list crypt_ctext) :=
  match inputs with
  | [] => Done (false, coeffs)
  | _ => xs ← pre_encrypt_all inputs; set_polynomial rnds xs
  end.

Fixpoint decrypt_intersection (plds : list cpayload) : outcome (list (list Z)) :=
  match plds with
  | [] => Done []
  | pld :: plds =>
      res ← he_decrypt (cp_ctxt pld) (cp_ptsz pld) true;
      r ← decrypt_intersection plds;
      match res with
      | None => Done r
      | Some res =>
          if (Z.of_nat (length res) <=? matchlen) || negb (bool_decide (take 4 res = pm_match)) then Done r
          else Done (drop 4 res :: r)
      end
  end.

(** ** The server *)
(** [while (deg)] *)
Fixpoint horner (deg : nat) (ccoeffs : list crypt_ctext) (px : Z) (cy : crypt_ctext) : outcome crypt_ctext :=
  match deg with
  | O => Done cy
  | S deg =>
      tmp ← he_mult (ctext_new ctext_type) cy px;
      c ← rd ccoeffs (Z.of_nat deg);
      cy ← he_add cy tmp c;
      horner deg ccoeffs px cy
  end.

(** What is added to [res]; [rnd1] is drawn for the factor, [rnd2] for the payload. *)
Definition evaluate_polynomial (ccoeffs : list crypt_ctext) (encone : crypt_ctext) (rnd1 rnd2 : list (list Z)) (x ptxt : list Z) : outcome (list cpayload) :=
  px ← he_pre_encrypt mod_size x;
  if px =? 0 then Done []
  else
    cy ← horner (length ccoeffs) ccoeffs px encone;
    r ← random_zn ptext_modulus rnd1;
    cy ← he_mult cy cy (r.1);
    let buf := pm_match ++ behind ++ ptxt in
    cpay ← he_encrypt_str rnd2 (ctext_new ctext_type) buf true;
    match cpay with
    | None => Done []
    | Some cpay => cy ← he_add cy cy cpay; Done [mkcp cy (Z.of_nat (length buf))]
    end.

(** [inputs.traverse]: the entries of the table in the order it has them, with what is drawn for each *)
Record pm_input := mkpmi { pi_x : list Z; pi_ptxt : list Z; pi_rnd1 : list (list Z); pi_rnd2 : list (list Z) }.
Fixpoint evaluate_all (ccoeffs : list crypt_ctext) (encone : crypt_ctext) (inputs : list pm_input) : outcome (list cpayload) :=
  match inputs with
  | [] => Done []
  | i :: inputs =>
      r ← evaluate_polynomial ccoeffs encone (pi_rnd1 i) (pi_rnd2 i) (pi_x i) (pi_ptxt i);
      rs ← evaluate_all ccoeffs encone inputs;
      Done (r ++ rs)
  end.

(** The shuffle takes from the front or from the back. *)
Fixpoint shuffle (n : nat) (words : list Z) (l : list cpayload) : outcome (list cpayload) :=
  match n with
  | O => Done []
  | S n =>
      match words, l with
      | w :: words, a :: l' =>
          if negb (w mod 2 =? 0) then r ← shuffle n words l'; Done (a :: r)
          else b ← rd l (Z.of_nat (length l) - 1); r ← shuffle n words (take (length l - 1) l); Done (b :: r)
      | [], _ => Spin
      | _, [] => Wild
      end
  end.

Definition evaluate_intersection (ccoeffs : list crypt_ctext) (rnd : list (list Z)) (inputs : list pm_input) (words : list Z) : outcome (list cpayload) :=
  x ← he_encrypt rnd (ctext_new ctext_type) 1 false;
  match x with
  | None => Done []
  | Some encone =>
      u ← evaluate_all ccoeffs encone inputs;
      shuffle (length u) words u
  end.
End pm.

(** ** Correctness *)
Section correct.
Context `{HG : !Gmp} `{HGok : !GmpOK} `{HE : !Homoenc} `{HO : !HomoencOK} (behind : list Z) (Hbehind : Forall is_byte behind).
Notation pm := ptext_modulus.

Lemma encrypt_coeffs_spec cs : forall rnds, Forall he_draws rnds -> (length cs <= length rnds)%nat -> Forall (fun c => - pm < c < pm) cs ->
  exists es, encrypt_coeffs rnds cs = Done (Some es) /\ Forall2 he_opens es cs.
Proof using.
  induction cs as [|c cs IH]; intros rnds Hr Hl Hc; [by exists []; split; [|constructor]|]. destruct rnds as [|rnd rnds]; [cbn in Hl; lia|].
  apply Forall_cons in Hr as [Hr Hrs]. apply Forall_cons in Hc as [Hc Hcs]. cbn [encrypt_coeffs].
  destruct (he_encrypt_opens rnd (ctext_new ctext_type) c Hr (ctype_new _) Hc) as (d & -> & Hd). cbn [mbind outcome_bind].
  destruct (IH rnds Hrs ltac:(cbn in Hl; lia) Hcs) as (es & -> & Hes). exists (d :: es). split; [done|by constructor].
Qed.

(** The encrypted coefficients of the polynomial of the inputs, without the
    highest one, which is one. *)
Lemma set_polynomial_spec rnds inputs : Forall he_draws rnds -> (length inputs <= length rnds)%nat ->
  exists es cs, set_polynomial rnds inputs = Done (true, es) /\ Forall2 he_opens es cs /\ (forall x, peval (cs ++ [1]) x =[pm]= proots inputs x).
Proof using.
  intros Hr Hl. destruct he_size as [Hs _]. destruct (generate_coeffs_mod_spec pm inputs Hs) as (c & E & L & V & T & B). unfold set_polynomial. rewrite E. cbn [mbind outcome_bind].
  assert (Ec : c = take (length inputs) c ++ [1]).
  { rewrite <- (take_drop (length inputs) c) at 1. f_equal. rewrite (drop_S c 1 (length inputs)), drop_ge by (lia || by rewrite <- T; apply list_lookup_lookup_total_lt; lia). done. }
  replace (Z.of_nat (length c) - 1) with (Z.of_nat (length inputs)) by lia. rewrite (rd_at c (length inputs) 1), Nat2Z.id by (rewrite <- T; apply list_lookup_lookup_total_lt; lia).
  cbn [assertM Z.eqb Pos.eqb mbind outcome_bind].
  destruct (encrypt_coeffs_spec (take (length inputs) c) rnds Hr) as (es & -> & Hes).
  - rewrite length_take. lia.
  - apply Forall_lookup_2. intros k x [Hk Hlt]%lookup_take_Some. rewrite <- (list_lookup_total_correct c k x Hk). by apply B.
  - exists es, (take (length inputs) c). split_and!; try done. by rewrite <- Ec.
Qed.

(** Evaluation under encryption. *)
Lemma horner_prefix px es cs k : 0 <= px -> Forall2 he_opens es cs -> (k <= length es)%nat -> forall y cy, he_opens cy y ->
  exists d, horner k es px cy = Done d /\ he_opens d (peval (take k cs ++ [y]) px).
Proof using.
  intros Hp Hes. pose proof (Forall2_length _ _ _ Hes) as Hlen. induction k as [|k IH]; intros Hk y cy Hcy; cbn [horner].
  { exists cy. split; [done|]. eapply he_opens_congr, Hcy. apply congr_mul_eq. change (peval (take 0 cs ++ [y]) px) with (y + px * 0). lia. }
  destruct (he_mult_opens (ctext_new ctext_type) cy y px (ctype_new _) Hcy Hp) as (t & -> & Ht). cbn [mbind outcome_bind].
  destruct (lookup_lt_is_Some_2 es k) as [e He]; [lia|]. destruct (lookup_lt_is_Some_2 cs k) as [c Hc]; [lia|].
  pose proof (Forall2_lookup_lr _ _ _ _ _ _ Hes He Hc) as Hec. rewrite (rd_at es k e He). cbn [mbind outcome_bind].
  destruct (he_add_opens cy t e (px * y) c (he_opens_type _ _ Hcy) Ht Hec) as (d & -> & Hd). cbn [mbind outcome_bind].
  destruct (IH ltac:(lia) (px * y + c) d Hd) as (f & -> & Hf). exists f. split; [done|]. eapply he_opens_congr, Hf. apply congr_mul_eq.
  rewrite (take_S_r cs k c Hc), <- app_assoc, !(peval_app (take k cs)).
  change (peval ([c] ++ [y]) px) with (c + px * (y + px * 0)). change (peval [px * y + c] px) with (px * y + c + px * 0). ring.
Qed.
Lemma horner_spec px es cs cy : 0 <= px -> Forall2 he_opens es cs -> he_opens cy 1 ->
  exists d, horner (length es) es px cy = Done d /\ he_opens d (peval (cs ++ [1]) px).
Proof using.
  intros Hp Hes Hcy. destruct (horner_prefix px es cs (length es) Hp Hes ltac:(lia) 1 cy Hcy) as (d & E & Hd). exists d.
  split; [exact E|]. by rewrite (Forall2_length _ _ _ Hes), firstn_all in Hd.
Qed.

(** ** An input of the server *)
(** The payload with its mark, as it is encrypted. *)
Definition marked (i : pm_input) : list Z := pm_match ++ behind ++ pi_ptxt i.
Record input_ok (i : pm_input) : Prop := {
  io_x : Forall is_byte (pi_x i);
  io_xlen : Z.of_nat (length (pi_x i)) <= mod_size;
  io_x0 : le_val (pi_x i) <> 0;
  io_p : Forall is_byte (pi_ptxt i);
  io_plen : Z.of_nat (length (marked i)) <= mod_size;
  io_pval : le_val (marked i) < pm;
  io_rnd1 : Forall (block_ok (nbits pm)) (pi_rnd1 i) /\ exists r rnd, random_zn pm (pi_rnd1 i) = Done (r, rnd);
  io_rnd2 : he_draws (pi_rnd2 i)
}.
Definition factor (i : pm_input) : Z := match random_zn pm (pi_rnd1 i) with Done (r, _) => r | _ => 0 end.
(** What the client sees of it, for the polynomial with the roots [X]. *)
Definition seen (X : list Z) (i : pm_input) : list Z := bytes (he_mix (factor i * proots X (le_val (pi_x i))) (le_val (marked i))) (length (marked i)).

Lemma le_val_marked i : input_ok i -> 0 < le_val (marked i) < pm /\ Forall is_byte (marked i).
Proof using Hbehind.
  intros [_ _ _ Hp _ Hv _ _]. assert (Hb : Forall is_byte (marked i)).
  { unfold marked. apply Forall_app. split; [repeat constructor; unfold is_byte; lia|]. by apply Forall_app. }
  split; [|done]. split; [|done]. unfold marked, pm_match in *. cbn [app] in *. rewrite le_val_cons. apply Forall_cons in Hb as [_ Hb].
  pose proof (le_val_bound _ Hb). lia.
Qed.

Lemma evaluate_polynomial_spec X es cs one i : Forall2 he_opens es cs -> (forall x, peval (cs ++ [1]) x =[pm]= proots X x) -> he_opens one 1 -> input_ok i ->
  exists c, evaluate_polynomial behind es one (pi_rnd1 i) (pi_rnd2 i) (pi_x i) (pi_ptxt i) = Done [mkcp c (Z.of_nat (length (marked i)))]
    /\ he_decrypt c (Z.of_nat (length (marked i))) true = Done (Some (seen X i)).
Proof using HGok Hbehind.
  intros Hes HX H1 Hi. destruct (le_val_marked i Hi) as [Hv Hb]. destruct he_size as [Hs1 Hs2]. pose proof he_size_pos as Hs0.
  destruct Hi as [Hx Hxl Hx0 Hp Hpl Hpv [Hr1 (r & rnd & Er)] Hr2]. unfold evaluate_polynomial. rewrite he_pre_encrypt_spec by done. cbn [mbind outcome_bind].
  destruct (Z.eqb_spec (le_val (pi_x i)) 0); [done|]. pose proof (le_val_bound _ Hx) as Bx.
  destruct (horner_spec (le_val (pi_x i)) es cs one ltac:(lia) Hes H1) as (d & -> & Hd). cbn [mbind outcome_bind]. rewrite Er. cbn [mbind outcome_bind fst].
  assert (Hpm : 0 < pm) by lia. assert (Hv0 : 0 <= le_val (marked i) < pm) by lia. destruct (random_zn_spec pm (pi_rnd1 i) r rnd Hpm Hr1 Er) as [Br _].
  destruct (he_mult_opens d d _ r (he_opens_type _ _ Hd) Hd ltac:(lia)) as (f & -> & Hf). cbn [mbind outcome_bind]. fold (marked i).
  unfold he_encrypt_str. rewrite he_pre_encrypt_spec by done. cbn [mbind outcome_bind]. destruct (Z.eqb_spec (le_val (marked i)) 0); [lia|].
  destruct (he_encrypt_holds (pi_rnd2 i) (ctext_new ctext_type) (le_val (marked i)) Hr2 (ctype_new _) Hv0) as (g & -> & Hg). cbn [mbind outcome_bind].
  assert (Hf' : he_opens f (factor i * proots X (le_val (pi_x i)))).
  { eapply he_opens_congr, Hf. unfold factor. rewrite Er. by rewrite HX. }
  destruct (he_add_holds f f g _ _ (he_opens_type _ _ Hf) Hf' Hg Hv0) as (h & -> & Hh). cbn [mbind outcome_bind]. exists h. split; [done|].
  pose proof (he_mix_range (factor i * proots X (le_val (pi_x i))) (le_val (marked i)) Hv0) as Hm.
  rewrite (he_decrypt_holds h _ _ Hh); [|lia|apply nbits_le; lia|lia]. unfold seen. by rewrite Nat2Z.id.
Qed.

(** If the input is a root, the client sees the payload with its mark. *)
Lemma seen_root X i : input_ok i -> proots X (le_val (pi_x i)) =[pm]= 0 -> seen X i = marked i.
Proof using Hbehind.
  intros Hi Hx. destruct (le_val_marked i Hi) as [Hv Hb]. unfold seen. rewrite he_mix_0; [by apply bytes_le_val| |lia]. by rewrite Hx, Z.mul_0_r.
Qed.
Lemma proots_in X x y : y ∈ X -> x =[pm]= y -> proots X x =[pm]= 0.
Proof using.
  intros Hin Hxy. induction X as [|z X IH]; [by apply elem_of_nil in Hin|]. change (proots (z :: X) x) with ((x - z) * proots X x).
  apply elem_of_cons in Hin as [->|Hin]; [assert (E : x - z =[pm]= 0) by (by rewrite Hxy, Z.sub_diag); by rewrite E|]. by rewrite (IH Hin), Z.mul_0_r.
Qed.

(** ** All inputs *)
Lemma shuffle_perm (words : list Z) (l : list cpayload) : (length l <= length words)%nat -> exists r, shuffle (length l) words l = Done r /\ r ≡ₚ l.
Proof using.
  remember (length l) as n eqn:Hn. revert words l Hn. induction n as [|n IH]; intros words l Hn Hw; [exists []; by destruct l|].
  destruct words as [|w words]; [cbn in Hw; lia|]. destruct l as [|a l]; [done|]. cbn [shuffle]. cbn [length] in Hn, Hw. destruct (negb _).
  - destruct (IH words l ltac:(lia) ltac:(lia)) as (r & -> & Hr). exists (a :: r). split; [done|by constructor].
  - destruct (exists_last (l := a :: l) ltac:(done)) as (l' & b & E). rewrite E. assert (Hl : length l' = n) by (apply (f_equal length) in E; rewrite length_app in E; cbn in E; lia).
    rewrite length_app. cbn [length]. replace (Z.of_nat (length l' + 1) - 1) with (Z.of_nat (length l')) by lia. rewrite (rd_at (l' ++ [b]) (length l') b) by (by apply list_lookup_middle).
    cbn [mbind outcome_bind]. replace (length l' + 1 - 1)%nat with (length l') by lia. rewrite take_app_length.
    destruct (IH words l' ltac:(lia) ltac:(lia)) as (r & -> & Hr). exists (b :: r). split; [done|]. rewrite Hr. apply Permutation_cons_append.
Qed.

Lemma forall2_perm {A B} (P : A -> B -> Prop) l k k' : Forall2 P l k -> k ≡ₚ k' -> exists l', l ≡ₚ l' /\ Forall2 P l' k'.
Proof using.
  intros H Hp. revert l H. induction Hp as [|b k k' Hp IH|b c k|k1 k2 k3 _ IH1 _ IH2]; intros l H.
  - exists l. done.
  - inversion H as [|a ? l0 ? Ha Hl]; subst. destruct (IH l0 Hl) as (l' & Hl' & HF). exists (a :: l'). split; [by constructor|by constructor].
  - inversion H as [|a1 ? l0 ? Ha1 Hl]; subst. inversion Hl as [|a2 ? l1 ? Ha2 Hl1]; subst. exists (a2 :: a1 :: l1). split; [constructor|by repeat constructor].
  - destruct (IH1 l H) as (l1 & P1 & F1). destruct (IH2 l1 F1) as (l2 & P2 & F2). exists l2. split; [by etrans|done].
Qed.

(** What the client makes of a decrypted payload. *)
Definition unmark (b : list Z) : option (list Z) :=
  if (Z.of_nat (length b) <=? matchlen) || negb (bool_decide (take 4 b = pm_match)) then None else Some (drop 4 b).

Definition delivers (X : list Z) (i : pm_input) (p : cpayload) : Prop := he_decrypt (cp_ctxt p) (cp_ptsz p) true = Done (Some (seen X i)).

Lemma evaluate_all_spec X es cs one inputs : Forall2 he_opens es cs -> (forall x, peval (cs ++ [1]) x =[pm]= proots X x) -> he_opens one 1 -> Forall input_ok inputs ->
  exists ps, evaluate_all behind es one inputs = Done ps /\ Forall2 (delivers X) inputs ps.
Proof using HGok Hbehind.
  intros Hes HX H1. induction 1 as [|i inputs Hi _ IH]; [by exists []; split; [|constructor]|]. cbn [evaluate_all].
  destruct (evaluate_polynomial_spec X es cs one i Hes HX H1 Hi) as (c & -> & Hc). destruct IH as (ps & -> & Hps). cbn [mbind outcome_bind].
  eexists. split; [done|]. constructor; [exact Hc|exact Hps].
Qed.

Lemma decrypt_intersection_spec X inputs ps : Forall2 (delivers X) inputs ps -> decrypt_intersection ps = Done (omap (unmark ∘ seen X) inputs).
Proof using.
  induction 1 as [|i p inputs ps Hp _ IH]; [done|]. cbn [decrypt_intersection]. unfold delivers in Hp. rewrite Hp, IH. cbn [mbind outcome_bind omap list_omap compose].
  unfold unmark. by destruct (_ || _).
Qed.

Lemma pre_encrypt_all_spec Xs : Forall (fun x => Forall is_byte x /\ Z.of_nat (length x) <= mod_size) Xs -> pre_encrypt_all Xs = Done (le_val <$> Xs).
Proof using HGok.
  induction 1 as [|x Xs [Hb Hl] _ IH]; [done|]. cbn [pre_encrypt_all]. rewrite he_pre_encrypt_spec by done. cbn [mbind outcome_bind]. by rewrite IH.
Qed.

(** C32: private matching, with any implementation of the interface: the
    client obtains, in some order, what it can read of the server's payloads;
    that is the payload of every input of the server that is one of the
    client's inputs, and nothing of another one unless [r * P(x)] added to its
    marked payload happens to begin with the mark. *)
Theorem pm_intersection Xs rnds rnd inputs words coeffs :
  Xs <> [] -> Forall (fun x => Forall is_byte x /\ Z.of_nat (length x) <= mod_size) Xs -> Forall he_draws rnds -> (length Xs <= length rnds)%nat ->
  he_draws rnd -> Forall input_ok inputs -> (length inputs <= length words)%nat ->
  exists es res payloads,
    set_polynomial_str rnds Xs coeffs = Done (true, es) /\ evaluate_intersection behind es rnd inputs words = Done res
    /\ decrypt_intersection res = Done payloads /\ payloads ≡ₚ omap (unmark ∘ seen (le_val <$> Xs)) inputs
    /\ (forall i x, i ∈ inputs -> x ∈ Xs -> le_val (pi_x i) = le_val x -> behind ++ pi_ptxt i <> [] -> behind ++ pi_ptxt i ∈ payloads).
Proof using HGok Hbehind.
  intros Hne HXs Hrs Hlr Hr Hin Hw. unfold set_polynomial_str. rewrite (pre_encrypt_all_spec Xs HXs). cbn [mbind outcome_bind].
  destruct (set_polynomial_spec rnds (le_val <$> Xs) Hrs ltac:(by rewrite length_fmap)) as (es & cs & E & Hes & HX). set (X := le_val <$> Xs) in *.
  destruct (he_encrypt_opens rnd (ctext_new ctext_type) 1 Hr (ctype_new _) ltac:(destruct he_size; lia)) as (one & E1 & H1).
  destruct (evaluate_all_spec X es cs one inputs Hes HX H1 Hin) as (ps & Eps & Hps). pose proof (Forall2_length _ _ _ Hps) as Hlen.
  destruct (shuffle_perm words ps ltac:(lia)) as (r & Es & Hperm). symmetry in Hperm.
  destruct (forall2_perm _ _ _ _ Hps Hperm) as (inputs' & Hpi & Hd).
  exists es, r, (omap (unmark ∘ seen X) inputs'). split_and!.
  - destruct Xs; [done|]. exact E.
  - unfold evaluate_intersection. rewrite E1. cbn [mbind outcome_bind]. rewrite Eps. cbn [mbind outcome_bind]. exact Es.
  - by apply decrypt_intersection_spec.
  - by rewrite Hpi.
  - intros i x Hi Hx Hix Hb. apply list_elem_of_omap. exists i. split; [by rewrite <- Hpi|]. cbn [compose].
    rewrite Forall_forall in Hin. rewrite seen_root; [|by apply Hin|]. 2: { apply (proots_in X _ (le_val x)); [|by rewrite Hix]. unfold X. by apply list_elem_of_fmap_2. }
    unfold unmark, marked. rewrite bool_decide_true by done. destruct (Z.leb_spec (Z.of_nat (length (pm_match ++ behind ++ pi_ptxt i))) matchlen) as [H|H]; [|done].
    destruct (behind ++ pi_ptxt i); [done|]. cbn in H. unfold matchlen in H. lia.
Qed.
End correct.

(** ** An example *)
#[local] Existing Instances gmp_model num_model.
Definition pm_p : Z := 2000389.
Definition pm_q : Z := 2001481.
Definition pm_g : Z := pl_basis true pm_p pm_q 13.
Definition pm_pub : paillier_pub := match paillier_pub_new (pm_p * pm_q) pm_g true with Done k => k | _ => mkplpub 0 0 0 false 0 0 end.
Definition pm_key : paillier_priv := match paillier_priv_init pm_pub pm_p pm_q 13 0 with Done k => k | _ => sample_paillier end.
Lemma pm_key_ok : pl_key_ok true pm_p pm_q 13 pm_g.
Proof. split; try (apply is_prime_spec; vm_compute; reflexivity); try (vm_compute; discriminate); try (vm_compute; reflexivity). split; vm_compute; reflexivity. Qed.
Lemma pm_pub_new : paillier_pub_new (pm_p * pm_q) pm_g true = Done pm_pub.
Proof. vm_compute. reflexivity. Qed.
Lemma pm_key_new : paillier_priv_init pm_pub pm_p pm_q 13 0 = Done pm_key.
Proof. vm_compute. reflexivity. Qed.
Definition pm_junk (n : Z) : list Z := replicate (Z.to_nat n) 0.
Definition pm_laws : @HomoencOK (paillier_homoenc pm_junk pm_key) :=
  paillier_laws true pm_p pm_q 13 pm_g 0 pm_key_ok pm_pub pm_key pm_pub_new pm_key_new pm_junk (fun n _ => length_replicate _ _).
Definition pm_rnd : list (list Z) := [[0; 1; 2; 3; 4; 5]].
Definition pm_in (x p : Z) : pm_input := mkpmi [x] [p] pm_rnd pm_rnd.

#[local] Existing Instance pm_laws.
Lemma pm_draws : pl_draws true pm_p pm_q pm_rnd.
Proof. eexists _, _. split; [vm_compute; reflexivity|]. split; [lia|done]. Qed.

Lemma pm_intersection_witness : exists es res payloads,
    @set_polynomial_str gmp_model (paillier_homoenc pm_junk pm_key) [pm_rnd; pm_rnd] [[5]; [9]] [] = Done (true, es)
    /\ @evaluate_intersection gmp_model (paillier_homoenc pm_junk pm_key) [] es pm_rnd [pm_in 5 7; pm_in 6 8] [1; 0] = Done res
    /\ @decrypt_intersection (paillier_homoenc pm_junk pm_key) res = Done payloads /\ [7] ∈ payloads.
Proof.
  destruct (@pm_intersection gmp_model gmp_model_ok (paillier_homoenc pm_junk pm_key) pm_laws [] ltac:(constructor) [[5]; [9]] [pm_rnd; pm_rnd] pm_rnd
    [pm_in 5 7; pm_in 6 8] [1; 0] []) as (es & res & payloads & E1 & E2 & E3 & _ & H).
  - done.
  - repeat constructor; unfold is_byte; try lia; vm_compute; discriminate.
  - repeat constructor; exact pm_draws.
  - cbn. lia.
  - exact pm_draws.
  - assert (O : forall x p, x = 5 \/ x = 6 -> p = 7 \/ p = 8 -> @input_ok gmp_model (paillier_homoenc pm_junk pm_key) pm_laws [] (pm_in x p)).
    { intros x p Hx Hp. split.
      - repeat constructor; unfold is_byte; lia.
      - vm_compute. discriminate.
      - cbn. lia.
      - repeat constructor; unfold is_byte; lia.
      - vm_compute. discriminate.
      - destruct Hp as [-> | ->]; vm_compute; reflexivity.
      - split; [|eexists _, _; vm_compute; reflexivity]. repeat constructor; unfold is_byte; (lia || (vm_compute; reflexivity)).
      - exact pm_draws. }
    apply Forall_cons_2; [apply O; lia|]. apply Forall_cons_2; [apply O; lia|apply Forall_nil_2].
  - cbn. lia.
  - exists es, res, payloads. split; [exact E1|]. split; [exact E2|]. split; [exact E3|].
    apply (H (pm_in 5 7) [5]); [apply list_elem_of_here|apply list_elem_of_here|reflexivity|done].
Defined.
