(* ===== verification/Fips186.v ===== *)
(** * Group parameters: [crypt/fips186.C], [crypt/fips186.h]

    [schnorr_gen] of [crypt/schnorr.C] has the same functions.  The seed is
    hashed as the bytes of its 64-bit words, which are little-endian on the
    machines the model stands for. *)
From Stdlib Require Import ZArith Lia.
From stdpp Require Import prelude.
From S2P Require Import Prelude Mdblock Sha1 Bits Mpz MpzSpec MpzOps MpzRaw NumTheory Bigint Prime PrimeProps.

Definition HASHSIZE : Z := 20.
Definition DIV_ROUNDUP (p q : Z) : Z := p / q + (if p mod q =? 0 then 0 else 1).

Record fips186_gen := mkfips {
  fg_seed : list Z;
  fg_pbits : Z;
  fg_pbytes : Z;
  fg_raw_psize : Z;
  fg_num_p_candidates : Z
}.
Definition seedsize : Z := DIV_ROUNDUP HASHSIZE 8 + 1.
(** The seed is filled with random words. *)
Definition fips186_gen_new (p : Z) (hypers : list Z) : fips186_gen :=
  let pbytes := p .>> 3 in
  mkfips (take (Z.to_nat seedsize) hypers) p pbytes (DIV_ROUNDUP pbytes HASHSIZE * HASHSIZE) (u32 (p .<< 2)).

Section fips.
Context `{HG : !Gmp} `{HN : !GmpNum} (junk : Z -> list Z).

Definition seed_bytes (seed : list Z) : list Z := concat ((fun w => bytes w 8) <$> seed).
(** [seed[i]++] *)
Definition seed_inc (seed : list Z) (i : Z) : outcome (list Z) := w ← rd seed i; wr seed i (u64 (w + 1)).

(** [gen_q]: the number and the new seed *)
Fixpoint gen_q (fuel : nat) (seed : list Z) : outcome (Z * list Z) :=
  match fuel with
  | O => Spin
  | S fuel =>
      digest ← sha1_hash (junk 64) (seed_bytes seed);
      u1 ← mpz_set_rawmag_le (mkmpz 0 []) digest;
      seed ← seed_inc seed 3;
      digest ← sha1_hash (junk 64) (seed_bytes seed);
      u2 ← mpz_set_rawmag_le (mkmpz 0 []) digest;
      q ← mpz_xor (mkmpz 0 []) (Own u1) (Own u2);
      let q := Z.setbit (Z.setbit (mpz_val q) ((HASHSIZE .<< 3) - 1)) 0 in
      if probab_prime q 5 then Done (q, seed) else gen_q fuel seed
  end.

(** [for (off = 0; off < raw_psize; off += HASHSIZE)] *)
Fixpoint raw_loop (n : nat) (seed raw : list Z) : outcome (list Z * list Z) :=
  match n with
  | O => Done (seed, raw)
  | S n =>
      seed ← seed_inc seed 0;
      digest ← sha1_hash (junk 64) (seed_bytes seed);
      raw_loop n seed (raw ++ digest)
  end.

(** [for (i = 0; i < num_p_candidates; i++)] *)
Fixpoint gen_p_loop (n : nat) (g : fips186_gen) (seed : list Z) (q iter : Z) : outcome (option Z * list Z) :=
  match n with
  | O => Done (None, seed)
  | S n =>
      x ← raw_loop (Z.to_nat (fg_raw_psize g / HASHSIZE)) seed [];
      let '(seed, raw_p) := x : list Z * list Z in
      X ← mpz_set_rawmag_le (mkmpz 0 []) (take (Z.to_nat (fg_pbytes g)) raw_p);
      let X := Z.setbit (mpz_val X) (fg_pbits g - 1) in
      let c := X mod (q * 2) in
      let p := X - c + 1 in
      if probab_prime p iter then Done (Some p, seed) else gen_p_loop n g seed q iter
  end.
Definition gen_p (g : fips186_gen) (seed : list Z) (q iter : Z) : outcome (option Z * list Z) :=
  gen_p_loop (Z.to_nat (fg_num_p_candidates g)) g seed q iter.

(** [do h = random_zn (p_3); while] [g = powm (++h, e, p)] is one *)
Fixpoint gen_g_loop (fuel : nat) (p e : Z) (rnd : list (list Z)) : outcome (Z * list (list Z)) :=
  match fuel with
  | O => Spin
  | S fuel =>
      x ← random_zn (p - 3) rnd;
      let '(h, rnd) := x : Z * list (list Z) in
      let g := powm (h + 1) e p in
      if g =? 1 then gen_g_loop fuel p e rnd else Done (g, rnd)
  end.
Definition gen_g (p q : Z) (rnd : list (list Z)) : outcome (Z * list (list Z)) :=
  gen_g_loop (length rnd) p (Z.quot (p - 1) q) rnd.

(** [do gen_q (&q); while (!gen_p (&p, q, iter) || !q.probab_prime (iter));], then [gen_g]: p, q, g *)
Fixpoint gen_pq (fuel qfuel : nat) (g : fips186_gen) (seed : list Z) (iter : Z) : outcome (Z * Z) :=
  match fuel with
  | O => Spin
  | S fuel =>
      x ← gen_q qfuel seed;
      let '(q, seed) := x : Z * list Z in
      x ← gen_p g seed q iter;
      let '(op, seed) := x : option Z * list Z in
      match op with
      | Some p => if probab_prime q iter then Done (p, q) else gen_pq fuel qfuel g seed iter
      | None => gen_pq fuel qfuel g seed iter
      end
  end.
Definition gen_group (fuel qfuel : nat) (g : fips186_gen) (iter : Z) (rnd : list (list Z)) : outcome (Z * Z * Z * list (list Z)) :=
  x ← gen_pq fuel qfuel g (fg_seed g) iter;
  let '(p, q) := x : Z * Z in
  x ← gen_g p q rnd;
  let '(g, rnd) := x : Z * list (list Z) in
  Done (p, q, g, rnd).
End fips.

(** ** What the parameters satisfy *)
Record group_ok (p q g : Z) : Prop := {
  go_p : Z.prime p;
  go_q : Z.prime q;
  go_lt : q < p;
  go_g : 1 < g < p;
  go_order : g ^ q =[p]= 1
}.

Section correct.
Context `{HG : !Gmp} `{HGok : !GmpOK} `{HN : !GmpNum} `{HNok : !GmpNumOK} (junk : Z -> list Z).

Lemma gen_p_divides g seed q iter p seed' : 1 < q -> gen_p junk g seed q iter = Done (Some p, seed') -> (q | p - 1).
Proof using.
  intros Hq. unfold gen_p. generalize (Z.to_nat (fg_num_p_candidates g)) as n. intros n. revert seed. induction n as [|n IH]; intros seed; [done|]. cbn [gen_p_loop].
  destruct (raw_loop _ _ _ _) as [[sd raw]| | |]; try done. cbn [mbind outcome_bind]. destruct (mpz_set_rawmag_le _ _) as [X| | |]; try done. cbn [mbind outcome_bind]. cbv zeta.
  destruct (probab_prime _ _); [|apply IH]. intros [= <- _]. set (Y := Z.setbit _ _). exists (2 * (Y / (q * 2))).
  pose proof (Z.div_mod Y (q * 2) ltac:(lia)). lia.
Qed.

Lemma seed_inc_length seed i s : seed_inc seed i = Done s -> length s = length seed.
Proof using. unfold seed_inc. destruct (rd seed i) as [w| | |]; try done. cbn. unfold wr. destruct (_ && _); [|done]. intros [= <-]. apply length_insert. Qed.
Lemma raw_loop_length n : forall seed raw s r, raw_loop junk n seed raw = Done (s, r) -> length s = length seed.
Proof using.
  induction n as [|n IH]; intros seed raw s r; cbn [raw_loop]; [by intros [= <- _]|]. destruct (seed_inc seed 0) as [s1| | |] eqn:E; try done. cbn [mbind outcome_bind].
  destruct (sha1_hash _ _) as [d| | |]; try done. cbn [mbind outcome_bind]. intros ->%IH. by eapply seed_inc_length.
Qed.
Lemma gen_p_length g seed q iter op s : gen_p junk g seed q iter = Done (op, s) -> length s = length seed.
Proof using.
  unfold gen_p. generalize (Z.to_nat (fg_num_p_candidates g)) as n. intros n. revert seed. induction n as [|n IH]; intros seed; cbn [gen_p_loop]; [by intros [= _ <-]|].
  destruct (raw_loop _ _ _ _) as [[sd raw]| | |] eqn:E; try done. cbn [mbind outcome_bind]. apply raw_loop_length in E. destruct (mpz_set_rawmag_le _ _) as [X| | |]; try done.
  cbn [mbind outcome_bind]. cbv zeta. destruct (probab_prime _ _); [by intros [= _ <-]|]. intros ->%IH. done.
Qed.

Lemma setbit_0_odd x : Z.odd (Z.setbit x 0) = true.
Proof using. rewrite <- Z.bit0_odd. by apply Z.setbit_eq. Qed.

Lemma testbit_large z n : 0 <= z -> 0 <= n -> Z.testbit z n = true -> 2 ^ n <= z.
Proof using. intros Hz Hn B. destruct (Z.le_gt_cases (2 ^ n) z) as [|L]; [done|]. by rewrite (testbit_high z n) in B by lia. Qed.
Lemma setbit_nonneg x n : 0 <= x -> 0 <= Z.setbit x n.
Proof using. intros Hx. unfold Z.setbit. apply Z.lor_nonneg. split; [done|]. apply Z.shiftl_nonneg. lia. Qed.

Context (Hjunk : length (junk 64) = 64%nat).

(** [q] is odd and has the bit 159. *)
Lemma gen_q_large fuel : forall seed q seed', Z.of_nat (length seed) < 2 ^ 32 -> gen_q junk fuel seed = Done (q, seed') ->
  2 ^ 159 <= q /\ Z.odd q = true /\ length seed' = length seed.
Proof using HGok Hjunk.
  assert (HL : forall seed, Z.of_nat (length (seed_bytes seed)) = 8 * Z.of_nat (length seed)).
  { induction seed as [|w s IH]; [done|]. change (seed_bytes (w :: s)) with (bytes w 8 ++ seed_bytes s). rewrite length_app, bytes_length. cbn [length]. lia. }
  induction fuel as [|fuel IH]; intros seed q seed' Hl; [done|]. cbn [gen_q]. rewrite sha1_hash_ok by (done || rewrite HL; lia). cbn [mbind outcome_bind].
  destruct (set_rawmag_le_spec (mkmpz 0 []) (fips_sha1 (seed_bytes seed)) (fips_sha1_bytes _)) as (u1 & -> & R1). cbn [mbind outcome_bind].
  pose proof (proj1 (le_val_bound _ (fips_sha1_bytes (seed_bytes seed)))) as B1. remember (le_val (fips_sha1 (seed_bytes seed))) as v1 eqn:Ev1. clear Ev1.
  destruct (seed_inc seed 3) as [s| | |] eqn:Es; try done. cbn [mbind outcome_bind].
  pose proof (seed_inc_length _ _ _ Es) as Hs.
  rewrite sha1_hash_ok by (done || rewrite HL; lia). cbn [mbind outcome_bind].
  destruct (set_rawmag_le_spec (mkmpz 0 []) (fips_sha1 (seed_bytes s)) (fips_sha1_bytes _)) as (u2 & -> & R2). cbn [mbind outcome_bind].
  pose proof (proj1 (le_val_bound _ (fips_sha1_bytes (seed_bytes s)))) as B2. remember (le_val (fips_sha1 (seed_bytes s))) as v2 eqn:Ev2. clear Ev2.
  destruct (mpz_xor_spec (mkmpz 0 []) (Own u1) (Own u2) _ _ R1 R2) as (m & -> & R). cbn [mbind outcome_bind]. rewrite (mpz_val_rep _ _ R).
  destruct (probab_prime _ _); [|intros X; destruct (IH s q seed' ltac:(lia) X) as (I1 & I2 & I3); split_and!; (done || lia)]. intros [= <- <-].
  set (x := v1 .^ v2). assert (Hx : 0 <= x) by (apply Z.lxor_nonneg; split; intros _; done). split; [|split; [apply setbit_0_odd|lia]].
  change ((HASHSIZE .<< 3) - 1) with 159. apply testbit_large; [by apply setbit_nonneg, setbit_nonneg|lia|]. rewrite Z.setbit_neq by lia. by apply Z.setbit_eq.
Qed.

Lemma gen_pq_spec fuel qfuel g iter p q : forall seed, Z.of_nat (length seed) < 2 ^ 32 -> gen_pq junk fuel qfuel g seed iter = Done (p, q) -> (q | p - 1) /\ 2 ^ 159 <= q.
Proof using HGok Hjunk.
  induction fuel as [|fuel IH]; intros seed Hl; [done|]. cbn [gen_pq]. destruct (gen_q junk qfuel seed) as [[q' s]| | |] eqn:Eq; try done.
  destruct (gen_q_large qfuel seed q' s Hl Eq) as (Hq & _ & Ls). cbn [mbind outcome_bind]. destruct (gen_p junk g s q' iter) as [[op s']| | |] eqn:Ep; try done.
  pose proof (gen_p_length _ _ _ _ _ _ Ep) as Ls'. cbn [mbind outcome_bind].
  destruct op as [p'|]; [|apply IH; lia]. destruct (probab_prime q' iter); [|apply IH; lia]. intros [= <- <-]. split; [|done]. eapply gen_p_divides, Ep. lia.
Qed.

(** The parameters of [gen] form a group of order [q], if the numbers that
    passed the tests are prime. *)
Lemma gen_group_ok fuel qfuel g iter rnd p q b rnd' : Z.of_nat (length (fg_seed g)) < 2 ^ 32 ->
  gen_group junk fuel qfuel g iter rnd = Done (p, q, b, rnd') -> Z.prime p -> Z.prime q -> Forall (block_ok (nbits (p - 3))) rnd -> group_ok p q b.
Proof using HGok HNok Hjunk.
  intros Hs E Hp Hq Hb. unfold gen_group in E. destruct (gen_pq junk fuel qfuel g (fg_seed g) iter) as [[p' q']| | |] eqn:Epq; try done. cbn [mbind outcome_bind] in E.
  destruct (gen_g p' q' rnd) as [[g' r']| | |] eqn:Eg; try done. cbn in E. injection E as -> -> -> ->.
  destruct (gen_pq_spec fuel qfuel g iter p q (fg_seed g) Hs Epq) as [[k Hk] HL]. assert (Hq1 : 1 < q) by lia.
  pose proof (Z.prime_ge_2 p Hp). assert (Hk0 : 0 < k) by nia. assert (Hqp : q < p) by nia. unfold gen_g in Eg.
  assert (Ee : Z.quot (p - 1) q = k) by (rewrite Hk; apply Z.quot_mul; lia). rewrite Ee in Eg. clear Epq.
  revert Eg Hb. generalize (length rnd) as n. intros n. revert rnd. induction n as [|n IH]; intros rnd; [done|]. cbn [gen_g_loop].
  destruct (random_zn (p - 3) rnd) as [[h rnd1]| | |] eqn:Eh; try done. cbn [mbind outcome_bind]. intros Eg Hb.
  destruct (random_zn_spec (p - 3) rnd h rnd1 ltac:(lia) Hb Eh) as [Bh Hb1]. destruct (Z.eqb_spec (powm (h + 1) k p) 1) as [|Hne]; [by eapply IH|].
  injection Eg as <- <-. pose proof (powm_bound (h + 1) k p ltac:(lia) ltac:(lia)). assert (U : Z.gcd (h + 1) p = 1) by (apply small_unit; [done|lia]).
  assert (powm (h + 1) k p <> 0).
  { intros Z0. pose proof (unit_not_0 p ((h + 1) ^ k) Hp) as N. rewrite <- powm_ok in N by lia. apply N; [|done]. apply Z.coprime_pow_l; [lia|done]. }
  split; try done; [lia|]. rewrite powm_congr by lia. rewrite <- Z.pow_mul_r by lia. rewrite <- Hk. by apply fermat.
Qed.
End correct.
