(* ===== verification/Schnorr.v ===== *)
(** * Schnorr signatures, by one party or by two: [crypt/schnorr.C], [crypt/schnorr.h]

    In the variant for two the client and the server hold additive shares of
    the private key, which can be refreshed; both contribute to a signature. *)
From Stdlib Require Import ZArith Lia.
From stdpp Require Import prelude.
From S2P Require Import Prelude Mdblock Sha1 Bits Mpz MpzSpec MpzRaw NumTheory Bigint Prime PrimeProps Fips186.

Record schnorr_pub := mkspub { sp_p : Z; sp_q : Z; sp_g : Z; sp_y : Z }.
Record ephem_key_pair := mkekp { ek_k : Z; ek_r : Z }.
Record schnorr_clnt_priv := mksclnt { sc_pub : schnorr_pub; x_clnt : Z }.
Record schnorr_srv_priv := mkssrv { ss_pub : schnorr_pub; x_srv : Z }.
Record schnorr_priv := mkspriv { sw_pub : schnorr_pub; sw_x : Z; sw_ekp : option ephem_key_pair }.

Section schnorr.
Context `{HG : !Gmp} `{HN : !GmpNum} (junk : Z -> list Z).

(** [bigint::getraw] *)
Definition getraw (x : Z) : outcome (list Z) := size ← mpz_rawsize (mpz_of_Z x); mpz_get_raw (junk size) (mpz_of_Z x).

Definition bind_r_to_m (m : list Z) (r : Z) : outcome Z :=
  sc ← Mdblock.update (sha1ctx_new (junk 64)) m;
  r_as_str ← getraw r;
  sc ← Mdblock.update sc r_as_str;
  d ← final sc;
  e ← mpz_set_rawmag_le (mkmpz 0 []) (d.1);
  Done (mpz_val e).

Definition is_group_elem (k : schnorr_pub) (elem : Z) : bool := powm elem (sp_q k) (sp_p k) =? 1.
Definition check_signature (k : schnorr_pub) (r s e y_v : Z) : bool :=
  let gs := powm (sp_g k) s (sp_p k) in
  let ye := powm y_v e (sp_p k) in
  gs =? Z.rem (r * ye) (sp_p k).

Definition schnorr_verify (k : schnorr_pub) (msg : list Z) (r s : Z) : outcome bool :=
  if is_group_elem k r && (0 <? s) && (s <? sp_q k) then e ← bind_r_to_m msg r; Done (check_signature k r s e (sp_y k))
  else Done false.

Definition make_ephem_key_pair (k : schnorr_pub) (rnd : list (list Z)) : outcome (ephem_key_pair * list (list Z)) :=
  x ← random_bigint (nbits (sp_q k) - 1) rnd;
  let '(log, rnd) := x : Z * list (list Z) in
  Done (mkekp log (powm (sp_g k) log (sp_p k)), rnd).

(** ** One party *)
Definition schnorr_priv_new (pub : schnorr_pub) (xx : Z) (rnd : list (list Z)) : outcome (schnorr_priv * list (list Z)) :=
  e ← make_ephem_key_pair pub rnd;
  Done (mkspriv pub xx (Some (e.1)), e.2).

Definition make_ekp (k : schnorr_priv) (rnd : list (list Z)) : outcome (schnorr_priv * list (list Z)) :=
  match sw_ekp k with
  | Some _ => Done (k, rnd)
  | None => e ← make_ephem_key_pair (sw_pub k) rnd; Done (mkspriv (sw_pub k) (sw_x k) (Some (e.1)), e.2)
  end.

(** The signature if the result is true; [make_ekp] is called again later. *)
Definition schnorr_sign (k : schnorr_priv) (rnd : list (list Z)) (msg : list Z) : outcome (option (Z * Z) * schnorr_priv * list (list Z)) :=
  x ← make_ekp k rnd;
  let '(k, rnd) := x : schnorr_priv * list (list Z) in
  match sw_ekp k with
  | None => Done (None, k, rnd)
  | Some ekp =>
      let q := sp_q (sw_pub k) in
      let r := ek_r ekp in
      e ← bind_r_to_m msg r;
      let t := invert e q in
      let t := if t <? 0 then t + q else t in
      let t := Z.rem (t * ek_k ekp) q in
      let t := (t + sw_x k) * e in
      let s := Z.rem t q in
      assertM (check_signature (sw_pub k) r s e (sp_y (sw_pub k))) ;;
      Done (Some (r, s), mkspriv (sw_pub k) (sw_x k) None, rnd)
  end.

(** ** Two parties *)
(** [((k * (e^-1 mod q) + x) * e) mod q], as both compute it *)
Definition share_of (q e k x : Z) : Z :=
  let s := invert e q in
  let s := Z.rem (s * k) q in
  let s := Z.rem (s + x) q in
  Z.rem (s * e) q.

(** The result, [r] and [s] *)
Definition complete_signature (k : schnorr_clnt_priv) (msg : list Z) (r_clnt k_clnt r_srv s_srv : Z) : outcome (bool * Z * Z) :=
  if is_group_elem (sc_pub k) r_srv then
    let r := Z.rem (r_clnt * r_srv) (sp_p (sc_pub k)) in
    e ← bind_r_to_m msg r;
    let s_clnt := share_of (sp_q (sc_pub k)) e k_clnt (x_clnt k) in
    let s := Z.rem (s_clnt + s_srv) (sp_q (sc_pub k)) in
    Done (check_signature (sc_pub k) r s e (sp_y (sc_pub k)), r, s)
  else Done (false, 0, 0).

Definition endorse_signature (k : schnorr_srv_priv) (rnd : list (list Z)) (msg : list Z) (r_clnt : Z) : outcome (bool * Z * Z) :=
  if is_group_elem (ss_pub k) r_clnt then
    x ← make_ephem_key_pair (ss_pub k) rnd;
    let ekp := x.1 in
    let r := Z.rem (r_clnt * ek_r ekp) (sp_p (ss_pub k)) in
    e ← bind_r_to_m msg r;
    Done (true, ek_r ekp, share_of (sp_q (ss_pub k)) e (ek_k ekp) (x_srv k))
  else Done (false, 0, 0).

(** [update]: the new share and what [*deltap] is then *)
Definition clnt_update (k : schnorr_clnt_priv) (deltap : option Z) (rnd : list (list Z)) : outcome (schnorr_clnt_priv * option Z) :=
  delta ← match deltap with
          | Some d => if 0 <? d then Done d else x ← random_zn (sp_q (sc_pub k)) rnd; Done (x.1)
          | None => x ← random_zn (sp_q (sc_pub k)) rnd; Done (x.1)
          end;
  let nx_c := Z.rem (x_clnt k + sp_q (sc_pub k) - delta) (sp_q (sc_pub k)) in
  Done (mksclnt (sc_pub k) nx_c, (fun _ => delta) <$> deltap).
Definition srv_update (k : schnorr_srv_priv) (dlt : Z) : schnorr_srv_priv :=
  mkssrv (ss_pub k) (Z.rem (x_srv k + dlt) (sp_q (ss_pub k))).

(** [schnorr_gen::gen]; the three keys *)
Definition schnorr_gen (fuel qfuel : nat) (g : fips186_gen) (iter : Z) (rnd rnd1 rnd2 rnd3 : list (list Z)) : outcome (schnorr_clnt_priv * schnorr_srv_priv * schnorr_priv) :=
  x ← gen_group junk fuel qfuel g iter rnd;
  let '(p, q, g, _) := x : Z * Z * Z * list (list Z) in
  x ← random_zn q rnd1;
  let x_c := x.1 in
  x ← random_zn q rnd2;
  let x_s := x.1 in
  let xx := Z.rem (x_c + x_s) q in
  let y := powm g xx p in
  let pub := mkspub p q g y in
  w ← schnorr_priv_new pub xx rnd3;
  Done (mksclnt pub x_c, mkssrv pub x_s, w.1).
End schnorr.

(** ** Correctness *)
Section correct.
Context `{HG : !Gmp} `{HGok : !GmpOK} `{HN : !GmpNum} `{HNok : !GmpNumOK}.
Context (junk : Z -> list Z) (Hjunk : forall n, 0 <= n -> length (junk n) = Z.to_nat n).

(** The hash that binds [r] to the message. *)
Definition raw_of (x : Z) : list Z := if x =? 0 then [] else reverse (bytes x (Z.to_nat (nbits x / 8 + 1))).
Definition bound_hash (m : list Z) (r : Z) : Z := le_val (fips_sha1 (m ++ raw_of r)).

Lemma getraw_spec x : 0 <= x -> nbits x < 2 ^ 60 -> getraw junk x = Done (raw_of x).
Proof using HGok Hjunk.
  intros Hx Hn. unfold getraw, raw_of. rewrite (rawsize_spec _ x (mpz_of_Z_rep x)). cbn [mbind outcome_bind]. unfold nbits in *. pose proof (Z.log2_nonneg (Z.abs x)).
  destruct (Z.eqb_spec x 0) as [->|].
  - rewrite (get_raw_spec _ _ 0 (mpz_of_Z_rep 0)), Hjunk by (rewrite ?Hjunk; lia). done.
  - assert (0 <= (Z.log2 (Z.abs x) + 1) / 8) by (apply Z.div_pos; lia). assert ((Z.log2 (Z.abs x) + 1) / 8 < Z.log2 (Z.abs x) + 1) by (apply Z.div_lt; lia).
    rewrite (get_raw_spec _ _ x (mpz_of_Z_rep x)), Hjunk by (rewrite ?Hjunk; lia). done.
Qed.

Lemma bind_spec m r : 0 <= r -> nbits r < 2 ^ 60 -> Z.of_nat (length m) + 2 ^ 60 < 2 ^ 63 -> bind_r_to_m junk m r = Done (bound_hash m r) /\ 0 <= bound_hash m r.
Proof using HGok Hjunk.
  intros Hr Hn Hm. assert (Hj : length (junk 64) = 64%nat) by (specialize (Hjunk 64); lia).
  assert (HL : Z.of_nat (length (raw_of r)) <= nbits r + 1).
  { unfold raw_of. pose proof (nbits_nonneg r). destruct (r =? 0); [cbn; lia|]. rewrite length_reverse, bytes_length. assert (0 <= nbits r / 8) by (apply Z.div_pos; lia).
    assert (nbits r / 8 <= nbits r) by (apply Z.div_le_upper_bound; lia). lia. }
  split; [|apply le_val_bound, fips_sha1_bytes]. unfold bind_r_to_m.
  destruct (Mdblock.update_spec fips_compress (fun _ => True) newstate _ [] m (sha1ctx_new_rep (junk 64) Hj)) as (c1 & -> & R1); [cbn [app]; lia|by left|].
  cbn [mbind outcome_bind app] in *. rewrite getraw_spec by done. cbn [mbind outcome_bind].
  destruct (Mdblock.update_spec fips_compress (fun _ => True) newstate _ _ (raw_of r) R1) as (c2 & -> & R2); [rewrite length_app; lia|by left|]. cbn [mbind outcome_bind].
  destruct (final_spec c2 _ R2) as (c3 & ->); [rewrite length_app; lia|]. cbn [mbind outcome_bind fst].
  destruct (set_rawmag_le_spec (mkmpz 0 []) _ (fips_sha1_bytes (m ++ raw_of r))) as (e & -> & R). cbn [mbind outcome_bind]. by rewrite (mpz_val_rep _ _ R).
Qed.

Section group.
Context (p q g : Z) (GO : group_ok p q g) (Hsize : nbits p < 2 ^ 60).

Lemma group_facts : 1 < q /\ q < p /\ 1 < g < p /\ g ^ q =[p]= 1.
Proof using GO. destruct GO as [Hp Hq Hlt Hg Ho]. pose proof (Z.prime_ge_2 q Hq). split_and!; (done || lia). Qed.

Lemma nbits_mono x y : 0 <= x <= y -> nbits x <= nbits y.
Proof using.
  intros H. unfold nbits. pose proof (Z.log2_nonneg (Z.abs y)). destruct (Z.eqb_spec x 0), (Z.eqb_spec y 0); try lia. rewrite !Z.abs_eq by lia. pose proof (Z.log2_le_mono x y). lia.
Qed.

Lemma elem_order k : 0 <= k -> is_group_elem (mkspub p q g 0) (powm g k p) = true /\ powm (powm g k p) q p = 1.
Proof using GO HNok.
  intros Hk. destruct group_facts as (H1 & H2 & H3 & H4). assert (E : powm (powm g k p) q p = 1); [|by split; [apply Z.eqb_eq|]].
  apply powm_unique; [lia|lia| |lia]. rewrite powm_congr, <- Z.pow_mul_r, Z.mul_comm by lia. apply pow_order; (done || lia).
Qed.

(** The equation that is checked. *)
Lemma check_ok y r s e k x : 0 <= r -> 0 <= k -> 0 <= x -> 0 <= e -> 0 <= s -> r =[p]= g ^ k -> y =[p]= g ^ x -> s =[q]= k + x * e -> forall y', check_signature (mkspub p q g y') r s e y = true.
Proof using GO HNok.
  intros Hr Hk Hx He Hs Er Ey Es y'. destruct group_facts as (H1 & H2 & H3 & H4). unfold check_signature. cbn [sp_g sp_p]. apply Z.eqb_eq.
  pose proof (powm_bound y e p He ltac:(lia)). rewrite rem_pos by nia. pose proof (Z.mod_pos_bound (r * powm y e p) p ltac:(lia)).
  apply powm_unique; [lia|lia| |lia]. rewrite congr_mod, powm_congr, Er, Ey, <- Z.pow_mul_r, <- Z.pow_add_r by nia.
  apply (pow_congr_order p g q); [lia|lia|nia|done|done].
Qed.

Lemma share_spec e k x : Z.gcd e q = 1 -> 0 <= e -> 0 <= k -> 0 <= x -> 0 <= share_of q e k x < q /\ share_of q e k x =[q]= k + x * e.
Proof using GO HNok.
  intros Hu He Hk Hx. destruct group_facts as (H1 & _). unfold share_of. pose proof (invert_bound e q H1). set (i := invert e q) in *.
  assert (B1 : 0 <= Z.rem (i * k) q) by (apply Z.rem_nonneg; nia). assert (B2 : 0 <= Z.rem (Z.rem (i * k) q + x) q) by (apply Z.rem_nonneg; lia).
  split; [apply Z.rem_bound_pos; nia|]. rewrite !rem_congr by lia. transitivity (k * (e * i) + x * e); [apply congr_mul_eq; ring|].
  unfold i. rewrite invert_congr by done. apply congr_mul_eq. ring.
Qed.

Lemma verify_ok y msg r s : 0 <= r -> r < p -> Z.of_nat (length msg) + 2 ^ 60 < 2 ^ 63 -> powm r q p = 1 -> 0 < s < q ->
  check_signature (mkspub p q g y) r s (bound_hash msg r) y = true -> schnorr_verify junk (mkspub p q g y) msg r s = Done true.
Proof using HGok Hjunk Hsize.
  intros Hr Hrp Hm Eo Hs Ec. unfold schnorr_verify, is_group_elem. cbn [sp_q sp_p sp_y]. rewrite Eo. cbn [Z.eqb Pos.eqb andb].
  destruct (Z.ltb_spec 0 s), (Z.ltb_spec s q); try lia. cbn [andb]. pose proof (nbits_mono r p ltac:(lia)).
  destruct (bind_spec msg r) as [-> _]; [done|lia|done|]. cbn [mbind outcome_bind]. by rewrite Ec.
Qed.

(** An ephemeral key pair is one of the group. *)
Definition ekp_ok (ek : ephem_key_pair) : Prop := 0 <= ek_k ek /\ ek_r ek = powm g (ek_k ek) p.

Lemma ephem_ok y b rnd : block_ok (nbits q - 1) b -> 2 < q -> exists ek, make_ephem_key_pair (mkspub p q g y) (b :: rnd) = Done (ek, rnd) /\ ekp_ok ek.
Proof using HGok.
  intros Hb Hq. unfold make_ephem_key_pair. cbn [sp_q sp_g sp_p]. assert (0 < nbits q - 1).
  { unfold nbits. destruct (Z.eqb_spec q 0); [lia|]. rewrite Z.abs_eq by lia. pose proof (proj1 (Z.log2_le_pow2 q 1 ltac:(lia)) ltac:(lia)). lia. }
  destruct (random_bigint_spec (nbits q - 1) b rnd) as (k & -> & Hk); [done|done|]. cbn [mbind outcome_bind]. eexists. split; [done|]. split; cbn [ek_k ek_r]; [|done].
  assert (0 <= 2 ^ (nbits q - 1 - 1)) by (apply Z.pow_nonneg; lia). lia.
Qed.

Lemma elem_bound k : 0 <= k -> 0 < powm g k p < p.
Proof using GO HNok.
  intros Hk. destruct group_facts as (H1 & H2 & H3 & H4). pose proof (powm_bound g k p Hk ltac:(lia)). assert (powm g k p <> 0); [|lia]. rewrite powm_ok by lia.
  apply unit_not_0; [apply GO|]. apply Z.coprime_pow_l; [lia|]. apply small_unit; [apply GO|lia].
Qed.

(** ** One party *)
(** [sign] uses the ephemeral key that is there, or draws one, and
    forgets it, so that it serves one signature only; the assertion holds and
    [verify] accepts the signature.  The hash must not be zero modulo the
    order, and [verify] rejects a signature that is zero. *)
Theorem schnorr_sign_verify ekp b rnd x y msg :
  2 < q -> 0 <= x -> y = powm g x p -> block_ok (nbits q - 1) b -> Z.of_nat (length msg) + 2 ^ 60 < 2 ^ 63 -> (forall ek, ekp = Some ek -> ekp_ok ek) ->
  exists ek, (ekp = Some ek \/ ekp = None /\ make_ephem_key_pair (mkspub p q g y) (b :: rnd) = Done (ek, rnd))
    /\ (Z.gcd (bound_hash msg (ek_r ek)) q = 1 ->
        exists s rnd', schnorr_sign junk (mkspriv (mkspub p q g y) x ekp) (b :: rnd) msg = Done (Some (ek_r ek, s), mkspriv (mkspub p q g y) x None, rnd')
          /\ (s <> 0 -> schnorr_verify junk (mkspub p q g y) msg (ek_r ek) s = Done true)).
Proof using HGok HNok GO Hsize Hjunk.
  intros Hq2 Hx -> Hb Hm Hek. set (y := powm g x p). destruct group_facts as (H1 & H2 & H3 & H4).
  assert (Hs : exists ek rnd', make_ekp (mkspriv (mkspub p q g y) x ekp) (b :: rnd) = Done (mkspriv (mkspub p q g y) x (Some ek), rnd') /\ ekp_ok ek
     /\ (ekp = Some ek \/ ekp = None /\ make_ephem_key_pair (mkspub p q g y) (b :: rnd) = Done (ek, rnd))).
  { unfold make_ekp. cbn [sw_ekp sw_pub sw_x]. destruct ekp as [ek|]; [exists ek, (b :: rnd); split; [done|]; split; [by apply Hek|by left]|].
    destruct (ephem_ok y b rnd Hb Hq2) as (ek & E & Ho). rewrite E. cbn. exists ek, rnd. split; [done|]. split; [done|by right]. }
  destruct Hs as (ek & rnd' & Em & [Hk Er] & Hor). exists ek. split; [exact Hor|]. intros Hu. unfold schnorr_sign. rewrite Em. cbn [mbind outcome_bind sw_ekp sw_pub sw_x sp_q sp_y].
  pose proof (elem_bound (ek_k ek) Hk) as Br. rewrite <- Er in Br. pose proof (nbits_mono (ek_r ek) p ltac:(lia)).
  destruct (bind_spec msg (ek_r ek)) as [Eb Be]; [lia|lia|done|]. rewrite Eb. cbn [mbind outcome_bind]. set (e := bound_hash msg (ek_r ek)) in *.
  pose proof (invert_bound e q H1). destruct (Z.ltb_spec (invert e q) 0); [lia|]. assert (B1 : 0 <= Z.rem (invert e q * ek_k ek) q) by (apply Z.rem_nonneg; nia).
  set (s := Z.rem ((Z.rem (invert e q * ek_k ek) q + x) * e) q). assert (Bs : 0 <= s < q) by (apply Z.rem_bound_pos; nia).
  assert (Es : s =[q]= ek_k ek + x * e).
  { unfold s. rewrite !rem_congr by lia. transitivity (ek_k ek * (e * invert e q) + x * e); [apply congr_mul_eq; ring|]. rewrite invert_congr by done. apply congr_mul_eq. ring. }
  assert (Ec : check_signature (mkspub p q g y) (ek_r ek) s e y = true).
  { apply (check_ok y (ek_r ek) s e (ek_k ek) x); try lia; [rewrite Er; apply powm_congr; lia|unfold y; apply powm_congr; lia|done]. }
  rewrite Ec. cbn [assertM mbind outcome_bind]. exists s, rnd'. split; [done|]. intros Hs0. apply verify_ok; try lia; [|done]. rewrite Er. by apply elem_order.
Qed.

(** ** Two parties *)
(** Refreshing the shares, by differences that both apply. *)
Definition refresh (shares : Z * Z) (d : Z) : Z * Z := (Z.rem (shares.1 + q - d) q, Z.rem (shares.2 + d) q).
Lemma refresh_updates y xc xs d : 0 < d ->
  clnt_update (mksclnt (mkspub p q g y) xc) (Some d) [] = Done (mksclnt (mkspub p q g y) (refresh (xc, xs) d).1, Some d)
  /\ srv_update (mkssrv (mkspub p q g y) xs) d = mkssrv (mkspub p q g y) (refresh (xc, xs) d).2.
Proof using. intros Hd. unfold clnt_update, srv_update. cbn [x_clnt x_srv sc_pub ss_pub sp_q]. destruct (Z.ltb_spec 0 d); [|lia]. done. Qed.

Lemma refresh_sum ds : forall shares, Forall (fun d => 0 < d < q) ds -> 0 <= shares.1 < q -> 0 <= shares.2 < q ->
  let s' := foldl refresh shares ds in 0 <= s'.1 < q /\ 0 <= s'.2 < q /\ s'.1 + s'.2 =[q]= shares.1 + shares.2.
Proof using GO.
  destruct group_facts as (H1 & _). induction ds as [|d ds IH]; intros [xc xs] Hd Bc Bs; [done|]. apply Forall_cons in Hd as [Hd Hds]. cbn [fst snd] in *. cbn [foldl].
  destruct (IH (refresh (xc, xs) d) Hds) as (I1 & I2 & I3); [apply Z.rem_bound_pos; cbn [fst]; lia|apply Z.rem_bound_pos; cbn [snd]; lia|]. refine (conj I1 (conj I2 _)).
  etrans; [exact I3|]. unfold refresh. cbn [fst snd]. rewrite !rem_congr by lia. apply congr_divide; [lia|]. exists 1. lia.
Qed.

(** with shares of the key, refreshed any number of times, the client's
    and the server's steps give a signature: both accept each other's
    contribution, the client's check succeeds and [verify] accepts the result
    for the key [y] (if it is not zero). *)
Theorem schnorr_two_party xc xs ds b1 b2 msg :
  2 < q -> 0 <= xc < q -> 0 <= xs < q -> Forall (fun d => 0 < d < q) ds -> block_ok (nbits q - 1) b1 -> block_ok (nbits q - 1) b2 ->
  Z.of_nat (length msg) + 2 ^ 60 < 2 ^ 63 ->
  let pub := mkspub p q g (powm g (Z.rem (xc + xs) q) p) in let shares := foldl refresh (xc, xs) ds in
  exists ek ek2 s_srv, make_ephem_key_pair pub [b1] = Done (ek, []) /\ make_ephem_key_pair pub [b2] = Done (ek2, [])
    /\ (Z.gcd (bound_hash msg (Z.rem (ek_r ek * ek_r ek2) p)) q = 1 ->
        endorse_signature junk (mkssrv pub shares.2) [b2] msg (ek_r ek) = Done (true, ek_r ek2, s_srv)
        /\ exists r s, complete_signature junk (mksclnt pub shares.1) msg (ek_r ek) (ek_k ek) (ek_r ek2) s_srv = Done (true, r, s)
            /\ (s <> 0 -> schnorr_verify junk pub msg r s = Done true)).
Proof using HGok HNok GO Hsize Hjunk.
  intros Hq2 Bc Bs Hds Hb1 Hb2 Hm pub. destruct (refresh_sum ds (xc, xs) Hds Bc Bs) as (Bc' & Bs' & Esum). intros shares. cbn [fst snd] in Esum. fold shares in Bc', Bs', Esum.
  set (x := Z.rem (xc + xs) q) in *. subst pub. destruct group_facts as (H1 & H2 & H3 & H4). assert (Bx : 0 <= x < q) by (apply Z.rem_bound_pos; lia).
  destruct (ephem_ok (powm g x p) b1 [] Hb1 Hq2) as (ek & Ek & Hk & Er). destruct (ephem_ok (powm g x p) b2 [] Hb2 Hq2) as (ek2 & Ek2 & Hk2 & Er2).
  set (r := Z.rem (ek_r ek * ek_r ek2) p). set (e := bound_hash msg r). exists ek, ek2, (share_of q e (ek_k ek2) shares.2). split; [exact Ek|]. split; [exact Ek2|]. intros Hu.
  pose proof (elem_bound _ Hk) as B1. pose proof (elem_bound _ Hk2) as B2. rewrite <- Er in B1. rewrite <- Er2 in B2.
  assert (Br : 0 <= r < p) by (apply Z.rem_bound_pos; nia). pose proof (nbits_mono r p ltac:(lia)). destruct (bind_spec msg r) as [Eb Be]; [lia|lia|done|]. fold e in Eb, Be.
  destruct (elem_order _ Hk) as [_ O1]. destruct (elem_order _ Hk2) as [_ O2]. rewrite <- Er in O1. rewrite <- Er2 in O2.
  destruct (share_spec e (ek_k ek) shares.1 Hu Be Hk ltac:(lia)) as [S1 S2]. destruct (share_spec e (ek_k ek2) shares.2 Hu Be Hk2 ltac:(lia)) as [S3 S4]. split.
  - unfold endorse_signature, is_group_elem. cbn [ss_pub sp_q sp_p x_srv]. rewrite O1. cbn [Z.eqb Pos.eqb]. rewrite Ek2. cbn [mbind outcome_bind fst]. fold r. by rewrite Eb.
  - unfold complete_signature, is_group_elem. cbn [sc_pub sp_q sp_p x_clnt sp_y]. rewrite O2. cbn [Z.eqb Pos.eqb]. fold r. rewrite Eb. cbn [mbind outcome_bind].
    set (s := Z.rem (share_of q e (ek_k ek) shares.1 + share_of q e (ek_k ek2) shares.2) q). assert (Bsg : 0 <= s < q) by (apply Z.rem_bound_pos; lia).
    assert (Rr : r =[p]= g ^ (ek_k ek + ek_k ek2)) by (unfold r; rewrite rem_congr, Er, Er2, !powm_congr, <- Z.pow_add_r by lia; done).
    assert (Ec : check_signature (mkspub p q g (powm g x p)) r s e (powm g x p) = true).
    { apply (check_ok (powm g x p) r s e (ek_k ek + ek_k ek2) x); try lia; [done|apply powm_congr; lia|]. unfold s. rewrite rem_congr, S2, S4 by lia.
      unfold x. rewrite rem_congr, <- Esum by lia. apply congr_mul_eq. ring. }
    exists r, s. rewrite Ec. split; [done|]. intros Hs0. apply verify_ok; try lia; [|done].
    apply powm_unique; [lia|lia| |lia]. rewrite Rr, <- Z.pow_mul_r, Z.mul_comm by lia. apply pow_order; (done || lia).
Qed.
End group.
End correct.

(** ** Examples *)
#[local] Existing Instances gmp_model num_model.
Lemma small_group : group_ok 2039 1019 4.
Proof. split; [apply is_prime_spec; vm_compute; reflexivity|apply is_prime_spec; vm_compute; reflexivity|lia|lia|vm_compute; reflexivity]. Qed.
Definition zeros (n : Z) : list Z := replicate (Z.to_nat n) 0.

Lemma schnorr_sign_verify_witness : exists s rnd',
  schnorr_sign zeros (mkspriv (mkspub 2039 1019 4 (powm 4 77 2039)) 77 None) [[0; 5]] [104; 105] = Done (Some (powm 4 261 2039, s), mkspriv (mkspub 2039 1019 4 (powm 4 77 2039)) 77 None, rnd')
  /\ schnorr_verify zeros (mkspub 2039 1019 4 (powm 4 77 2039)) [104; 105] (powm 4 261 2039) s = Done true.
Proof.
  destruct (schnorr_sign_verify zeros (fun n _ => length_replicate _ _) 2039 1019 4 small_group ltac:(vm_compute; reflexivity) None [0; 5] [] 77 (powm 4 77 2039) [104; 105])
    as (ek & [N|[_ E]] & H).
  - lia.
  - lia.
  - reflexivity.
  - split; [vm_compute; reflexivity|]. repeat constructor; unfold is_byte; lia.
  - cbn. lia.
  - done.
  - done.
  - assert (Ek : ek = mkekp 261 (powm 4 261 2039)) by (vm_compute in E; injection E as <-; vm_compute; reflexivity). subst ek.
    destruct H as (s & rnd' & Es & Hv); [vm_compute; reflexivity|]. exists s, rnd'. split; [exact Es|]. apply Hv. intros ->. vm_compute in Es. discriminate.
Defined.

Definition small_pub : schnorr_pub := mkspub 2039 1019 4 (powm 4 (Z.rem (300 + 900) 1019) 2039).
Lemma schnorr_two_party_witness :
  exists s_srv, endorse_signature zeros (mkssrv small_pub (foldl (refresh 1019) (300, 900) [5; 1000]).2) [[1; 9]] [104; 105] (powm 4 261 2039) = Done (true, powm 4 265 2039, s_srv)
    /\ exists r s, complete_signature zeros (mksclnt small_pub (foldl (refresh 1019) (300, 900) [5; 1000]).1) [104; 105] (powm 4 261 2039) 261 (powm 4 265 2039) s_srv = Done (true, r, s)
      /\ (s <> 0 -> schnorr_verify zeros small_pub [104; 105] r s = Done true).
Proof.
  destruct (schnorr_two_party zeros (fun n _ => length_replicate _ _) 2039 1019 4 small_group ltac:(vm_compute; reflexivity) 300 900 [5; 1000] [0; 5] [1; 9] [104; 105])
    as (ek & ek2 & s_srv & E1 & E2 & H).
  - lia.
  - lia.
  - lia.
  - repeat constructor; lia.
  - split; [vm_compute; reflexivity|]. repeat constructor; unfold is_byte; lia.
  - split; [vm_compute; reflexivity|]. repeat constructor; unfold is_byte; lia.
  - cbn. lia.
  - assert (Ek : ek = mkekp 261 (powm 4 261 2039)) by (vm_compute in E1; injection E1 as <-; vm_compute; reflexivity). subst ek.
    assert (Ek2 : ek2 = mkekp 265 (powm 4 265 2039)) by (vm_compute in E2; injection E2 as <-; vm_compute; reflexivity). subst ek2.
    exists s_srv. apply H. vm_compute. reflexivity.
Defined.
