(* ===== verification/Dsa.v ===== *)
(** * DSA: [crypt/dsa.C], [crypt/dsa.h] *)
From Stdlib Require Import ZArith Lia.
From stdpp Require Import prelude.
From S2P Require Import Prelude Mdblock Sha1 Bits Mpz MpzSpec MpzRaw NumTheory Bigint Prime PrimeProps Homoenc Fips186.

Record dsa_pub := mkdpub { ds_p : Z; ds_q : Z; ds_g : Z; ds_y : Z }.
Record dsa_priv := mkdpriv { ds_pub : dsa_pub; ds_x : Z }.

Section dsa.
Context `{HG : !Gmp} `{HN : !GmpNum} (junk : Z -> list Z).

Definition msghash_to_bigint (k : dsa_pub) (msg : list Z) : outcome Z :=
  sc ← Mdblock.update (sha1ctx_new (junk 64)) msg;
  d ← final sc;
  assertM (HASHSIZE <=? nbits (ds_q k)) ;;
  r ← mpz_set_rawmag_le (mkmpz 0 []) (d.1);
  Done (mpz_val r).

(** ** Two powers at once *)
(** [for (j = k - 1; j >= 0; j--)] *)
Fixpoint build_index (j : nat) (exparray : list Z) (bitno idx : Z) : outcome Z :=
  match j with
  | O => Done idx
  | S j =>
      e ← rd exparray (Z.of_nat j);
      let idx := idx .<< 1 in
      build_index j exparray bitno (if Z.testbit e bitno then idx .| 1 else idx)
  end.

(** [for (j = 0; j < k; j++)], over the bases that are left *)
Fixpoint fill_entry (basearray : list Z) (j index v m : Z) : Z :=
  match basearray with
  | [] => v
  | b :: basearray =>
      let v := if negb ((index .& (1 .<< j)) =? 0) then (if v =? 0 then b else Z.rem (v * b) m) else v in
      fill_entry basearray (j + 1) index v m
  end.

(** [for (i = 1; i <= t; i++)], with [n] turns left and the bit number [n - 1] *)
Fixpoint mulpowm_loop (n : nat) (basearray exparray G : list Z) (res m : Z) : outcome Z :=
  match n with
  | O => Done res
  | S n =>
      let tmp := Z.rem (res * res) m in
      index ← build_index 2 exparray (Z.of_nat n) 0;
      assertM ((0 <=? index) && (index <? 4)) ;;
      v ← rd G index;
      let v := if v =? 0 then (if index =? 0 then 1 else fill_entry basearray 0 index v m) else v in
      G ← wr G index v;
      mulpowm_loop n basearray exparray G (Z.rem (tmp * v) m) m
  end.
Definition mulpowm (b1 e1 b2 e2 m : Z) : outcome Z :=
  mulpowm_loop (Z.to_nat (Z.max (nbits e1) (nbits e2))) [b1; b2] [e1; e2] [0; 0; 0; 0] 1 m.

(** ** Signatures *)
Definition dsa_verify (k : dsa_pub) (msg : list Z) (r s : Z) : outcome bool :=
  if (r <=? 0) || (ds_q k <=? r) || (s <=? 0) || (ds_q k <=? s) then Done false
  else
    let w := invert s (ds_q k) in
    u1 ← msghash_to_bigint k msg;
    let u1 := Z.rem (u1 * w) (ds_q k) in
    let u2 := Z.rem (r * w) (ds_q k) in
    let v := powm (ds_g k) u1 (ds_p k) in
    let t := powm (ds_y k) u2 (ds_p k) in
    let v := Z.rem (Z.rem (v * t) (ds_p k)) (ds_q k) in
    Done (v =? r).

Definition dsa_sign (k : dsa_priv) (rnd : list (list Z)) (msg : list Z) : outcome (Z * Z) :=
  let pub := ds_pub k in
  x ← random_zn_pos (length rnd) (ds_q pub) rnd;
  let kk := x.1 in
  let kinv := invert kk (ds_q pub) in
  let r := Z.rem (powm (ds_g pub) kk (ds_p pub)) (ds_q pub) in
  m ← msghash_to_bigint pub msg;
  let s := Z.rem ((ds_x k * r + m) * kinv) (ds_q pub) in
  assertM (negb (r =? 0)) ;;
  assertM (negb (s =? 0)) ;;
  Done (r, s).

(** [dsa_gen::gen] *)
Definition dsa_gen (fuel qfuel : nat) (g : fips186_gen) (iter : Z) (rnd rnd1 : list (list Z)) : outcome dsa_priv :=
  x ← gen_group junk fuel qfuel g iter rnd;
  let '(p, q, g, _) := x : Z * Z * Z * list (list Z) in
  x ← random_zn_pos (length rnd1) q rnd1;
  let xx := x.1 in
  Done (mkdpriv (mkdpub p q g (powm g xx p)) xx).
End dsa.

(** ** [mulpowm] *)
Section mulpowm.
Context (b1 e1 b2 e2 m : Z) (H1 : 0 < b1) (H2 : 0 <= b2) (He1 : 0 <= e1) (He2 : 0 <= e2) (Hm : 1 < m).

Definition bit (e : Z) (n : nat) : Z := Z.b2z (Z.testbit e (Z.of_nat n)).
Definition entry (index : Z) : Z := b1 ^ (index mod 2) * b2 ^ (index / 2).

Lemma index_spec n : build_index 2 [e1; e2] (Z.of_nat n) 0 = Done (2 * bit e2 n + bit e1 n).
Proof using.
  unfold bit. cbn [build_index]. change (rd [e1; e2] (Z.of_nat 1)) with (Done e2). cbn [mbind outcome_bind]. change (rd [e1; e2] (Z.of_nat 0)) with (Done e1). cbn [mbind outcome_bind].
  by destruct (Z.testbit e1 (Z.of_nat n)), (Z.testbit e2 (Z.of_nat n)).
Qed.

Lemma fill_entry_spec i : 1 <= i < 4 -> fill_entry [b1; b2] 0 i 0 m =[m]= entry i /\ 0 <= fill_entry [b1; b2] 0 i 0 m.
Proof using H1 H2 Hm.
  intros Hi. assert (i = 1 \/ i = 2 \/ i = 3) as [->|[-> | ->]] by lia; unfold entry.
  - change (fill_entry [b1; b2] 0 1 0 m) with b1. change (1 mod 2) with 1. change (1 / 2) with 0. rewrite Z.pow_1_r, Z.pow_0_r, Z.mul_1_r. split; [done|lia].
  - change (fill_entry [b1; b2] 0 2 0 m) with b2. change (2 mod 2) with 0. change (2 / 2) with 1. rewrite Z.pow_1_r, Z.pow_0_r, Z.mul_1_l. split; [done|lia].
  - change (fill_entry [b1; b2] 0 3 0 m) with (if b1 =? 0 then b2 else Z.rem (b1 * b2) m). change (3 mod 2) with 1. change (3 / 2) with 1. rewrite !Z.pow_1_r.
    destruct (Z.eqb_spec b1 0); [lia|]. split; [|apply Z.rem_nonneg; nia]. by rewrite rem_congr by lia.
Qed.

(** The table holds zero or the product of the bases of its index. *)
Definition table_ok (G : list Z) : Prop := length G = 4%nat /\ forall i v, G !! i = Some v -> 0 <= v /\ (v = 0 \/ v =[m]= entry (Z.of_nat i)).

Lemma shift_bit e n : 0 <= e -> e / 2 ^ Z.of_nat n = 2 * (e / 2 ^ Z.of_nat (S n)) + bit e n.
Proof using.
  intros He. unfold bit. rewrite Z.testbit_spec' by lia. rewrite Nat2Z.inj_succ, Z.pow_succ_r, (Z.mul_comm 2 (2 ^ Z.of_nat n)), <- Z.div_div by lia. apply Z.div_mod. lia.
Qed.

Lemma loop_spec n : forall G res, table_ok G -> 0 <= res -> res =[m]= b1 ^ (e1 / 2 ^ Z.of_nat n) * b2 ^ (e2 / 2 ^ Z.of_nat n) -> (n = O -> res < m) ->
  exists r, mulpowm_loop n [b1; b2] [e1; e2] G res m = Done r /\ r =[m]= b1 ^ e1 * b2 ^ e2 /\ 0 <= r < m.
Proof using H1 H2 He1 He2 Hm.
  induction n as [|n IH]; intros G res HG Hr E Hn.
  { exists res. split; [done|]. rewrite !Z.div_1_r in E. specialize (Hn eq_refl). done. }
  cbn [mulpowm_loop]. rewrite index_spec. cbn [mbind outcome_bind]. set (i := 2 * bit e2 n + bit e1 n).
  assert (Bb : forall e, 0 <= bit e n < 2) by (intros; unfold bit; destruct (Z.testbit _ _); cbn; lia). pose proof (Bb e1) as B1. pose proof (Bb e2) as B2.
  assert (Bi : 0 <= i < 4) by lia. destruct (Z.leb_spec 0 i), (Z.ltb_spec i 4); try lia. cbn [andb assertM mbind outcome_bind].
  destruct HG as [HL HG]. destruct (lookup_lt_is_Some_2 G (Z.to_nat i)) as [v Hv]; [lia|]. unfold rd. destruct (Z.leb_spec 0 i); [|lia]. rewrite Hv. cbn [mbind outcome_bind].
  destruct (HG _ _ Hv) as [V0 Vo]. rewrite Z2Nat.id in Vo by lia. set (w := if v =? 0 then _ else _). assert (Hw : w =[m]= entry i /\ 0 <= w).
  { unfold w. destruct (Z.eqb_spec v 0) as [->|]; [|destruct Vo; done]. destruct (Z.eqb_spec i 0) as [->|]; [|apply fill_entry_spec; lia]. split; [|lia].
    unfold entry. change (0 mod 2) with 0. change (0 / 2) with 0. by rewrite !Z.pow_0_r. }
  destruct Hw as [Ew Bw]. unfold wr. destruct (Z.ltb_spec i (Z.of_nat (length G))); [|lia]. destruct (Z.leb_spec 0 i); [|lia]. cbn [andb mbind outcome_bind].
  assert (Bt : 0 <= Z.rem (res * res) m) by (apply Z.rem_nonneg; nia). apply IH.
  - split; [by rewrite length_insert|]. intros j u [(<- & <- & _)|[Hne Hj]]%list_lookup_insert_Some; [|by apply HG]. rewrite Z2Nat.id by lia. split; [done|by right].
  - apply Z.rem_nonneg; nia.
  - rewrite !rem_congr, Ew, E by lia. unfold entry. rewrite !(shift_bit _ n) by done. unfold i.
    replace ((2 * bit e2 n + bit e1 n) mod 2) with (bit e1 n) by (rewrite Z.add_comm, Z.mul_comm, Z_mod_plus_full, Z.mod_small by lia; done).
    replace ((2 * bit e2 n + bit e1 n) / 2) with (bit e2 n) by (rewrite Z.add_comm, Z.mul_comm, Z_div_plus_full, Z.div_small by lia; done).
    assert (0 <= e1 / 2 ^ Z.of_nat (S n)) by (apply Z.div_pos; lia). assert (0 <= e2 / 2 ^ Z.of_nat (S n)) by (apply Z.div_pos; lia).
    rewrite !Z.pow_add_r, !Z.pow_mul_r, !Z.pow_2_r, !Z.pow_mul_l by lia. apply congr_mul_eq. ring.
  - intros _. apply Z.rem_bound_pos; nia.
Qed.

(** It computes the product of the powers. *)
Lemma mulpowm_spec : mulpowm b1 e1 b2 e2 m = Done ((b1 ^ e1 * b2 ^ e2) mod m).
Proof using H1 H2 He1 He2 Hm.
  unfold mulpowm. set (t := Z.max (nbits e1) (nbits e2)). pose proof (nbits_nonneg e1). pose proof (nbits_nonneg e2).
  assert (Ht : forall e, 0 <= e -> nbits e <= t -> e / 2 ^ Z.of_nat (Z.to_nat t) = 0).
  { intros e He Hl. apply Z.div_small. split; [done|]. rewrite Z2Nat.id by lia. eapply Z.lt_le_trans; [by apply nbits_bound|]. apply Z.pow_le_mono_r; lia. }
  destruct (loop_spec (Z.to_nat t) [0; 0; 0; 0] 1) as (r & E & Er & Br).
  - split; [done|]. intros i v Hi. do 4 (destruct i as [|i]; [injection Hi as <-; split; [lia|by left]|]). done.
  - lia.
  - rewrite !Ht by lia. done.
  - lia.
  - rewrite E. f_equal. symmetry. by apply congr_eq.
Qed.
End mulpowm.

(** A first base of zero is forgotten where the second one counts. *)
Lemma mulpowm_zero_base : mulpowm 0 1 5 1 7 = Done 5.
Proof. reflexivity. Qed.

(** ** Signatures are accepted *)
Section correct.
Context `{HG : !Gmp} `{HGok : !GmpOK} `{HN : !GmpNum} `{HNok : !GmpNumOK} (junk : Z -> list Z) (Hjunk : length (junk 64) = 64%nat).

Lemma msghash_spec k msg : Z.of_nat (length msg) + 64 < 2 ^ 64 -> 20 <= nbits (ds_q k) -> msghash_to_bigint junk k msg = Done (le_val (fips_sha1 msg)) /\ 0 <= le_val (fips_sha1 msg).
Proof using HGok Hjunk.
  intros Hm Hq. split; [|apply le_val_bound, fips_sha1_bytes]. unfold msghash_to_bigint.
  destruct (Mdblock.update_spec fips_compress (fun _ => True) newstate _ [] msg (sha1ctx_new_rep (junk 64) Hjunk)) as (c & -> & R); [cbn [app]; lia|by left|].
  cbn [mbind outcome_bind app] in *. destruct (final_spec c _ R Hm) as (c' & ->). cbn [mbind outcome_bind fst]. change HASHSIZE with 20. destruct (Z.leb_spec 20 (nbits (ds_q k))); [|lia].
  cbn [assertM mbind outcome_bind]. destruct (set_rawmag_le_spec (mkmpz 0 []) _ (fips_sha1_bytes msg)) as (e & -> & R'). cbn [mbind outcome_bind]. by rewrite (mpz_val_rep _ _ R').
Qed.

(** The signature with the number [k]. *)
Definition dsa_r (p q g k : Z) : Z := powm g k p mod q.
Definition dsa_s (p q g x k : Z) (msg : list Z) : Z := ((x * dsa_r p q g k + le_val (fips_sha1 msg)) * invert k q) mod q.

(** [sign] makes a signature that [verify] accepts, unless one of the two
    numbers is zero: then its assertion fails. *)
Theorem dsa_sign_verify p q g x rnd k rnd' msg :
  group_ok p q g -> 20 <= nbits q -> 0 < x -> random_zn_pos (length rnd) q rnd = Done (k, rnd') -> 0 < k < q -> Z.of_nat (length msg) + 64 < 2 ^ 64 ->
  let pub := mkdpub p q g (powm g x p) in let r := dsa_r p q g k in let s := dsa_s p q g x k msg in
  if (r =? 0) || (s =? 0) then dsa_sign junk (mkdpriv pub x) rnd msg = Panic
  else dsa_sign junk (mkdpriv pub x) rnd msg = Done (r, s) /\ dsa_verify junk pub msg r s = Done true.
Proof using HGok HNok Hjunk.
  intros [Hp Hq Hlt Hg Ho] Hnb Hx Ek Hk Hm pub r s. pose proof (Z.prime_ge_2 q Hq). destruct (msghash_spec pub msg Hm Hnb) as [Eh Bh]. set (h := le_val (fips_sha1 msg)) in *.
  pose proof (powm_bound g k p ltac:(lia) ltac:(lia)) as Bg. pose proof (invert_bound k q ltac:(lia)) as Bi. assert (Uk : Z.gcd k q = 1) by (apply small_unit; [done|lia]).
  assert (Br : 0 <= r < q) by (apply Z.mod_pos_bound; lia). assert (Bs : 0 <= s < q) by (apply Z.mod_pos_bound; lia).
  assert (Es : dsa_sign junk (mkdpriv pub x) rnd msg = (assertM (negb (r =? 0)) ;; assertM (negb (s =? 0)) ;; Done (r, s))).
  { unfold dsa_sign. cbn [ds_pub ds_x]. change (ds_q pub) with q. change (ds_g pub) with g. change (ds_p pub) with p. rewrite Ek. cbn [mbind outcome_bind fst]. rewrite Eh.
    cbn [mbind outcome_bind]. rewrite (rem_pos q (powm g k p)) by lia. fold (dsa_r p q g k). fold r. rewrite rem_pos by nia. done. }
  rewrite Es. destruct (Z.eqb_spec r 0) as [|Hr0]; [done|]. destruct (Z.eqb_spec s 0) as [|Hs0]; [done|]. cbn [orb negb assertM mbind outcome_bind]. split; [done|].
  unfold dsa_verify. change (ds_q pub) with q. change (ds_g pub) with g. change (ds_p pub) with p. change (ds_y pub) with (powm g x p).
  destruct (Z.leb_spec r 0), (Z.leb_spec q r), (Z.leb_spec s 0), (Z.leb_spec q s); try lia. cbn [orb]. rewrite Eh. cbn [mbind outcome_bind].
  pose proof (invert_bound s q ltac:(lia)) as Bw. assert (Us : Z.gcd s q = 1) by (apply small_unit; [done|lia]). pose proof (invert_congr s q ltac:(lia) Us) as Ew. set (w := invert s q) in *.
  assert (B1 : 0 <= Z.rem (h * w) q) by (apply Z.rem_nonneg; nia). assert (B2 : 0 <= Z.rem (r * w) q) by (apply Z.rem_nonneg; nia).
  pose proof (powm_bound g (Z.rem (h * w) q) p B1 ltac:(lia)). pose proof (powm_bound (powm g x p) (Z.rem (r * w) q) p B2 ltac:(lia)).
  rewrite (rem_pos p) by nia. rewrite (rem_pos q) by (lia || apply Z.mod_pos_bound; lia). do 2 f_equal. apply Z.eqb_eq. 
  enough (E : g ^ k =[p]= powm g (Z.rem (h * w) q) p * powm (powm g x p) (Z.rem (r * w) q) p) by (unfold congr in E; rewrite <- E, <- powm_ok by lia; done).
  rewrite !powm_congr, <- Z.pow_mul_r, <- Z.pow_add_r by nia.
  apply (pow_congr_order p g q); [lia|lia|nia|done|]. rewrite !rem_congr by lia.
  assert (Ek' : s * k =[q]= x * r + h).
  { unfold s, dsa_s. fold r. fold h. rewrite congr_mod. transitivity ((x * r + h) * (k * invert k q)); [apply congr_mul_eq; ring|]. rewrite invert_congr by (done || lia). apply congr_mul_eq. ring. }
  transitivity (k * (s * w)); [by rewrite Ew, Z.mul_1_r|]. transitivity (w * (s * k)); [apply congr_mul_eq; ring|]. rewrite Ek'. apply congr_mul_eq. ring.
Qed.
End correct.

(** ** An example *)
#[local] Existing Instances gmp_model num_model.
Lemma dsa_sign_verify_witness : exists r s,
  dsa_sign (fun n => replicate (Z.to_nat n) 0) (mkdpriv (mkdpub 2097779 1048889 4 (powm 4 777 2097779)) 777) [[1; 2; 3]] [104; 105] = Done (r, s)
  /\ dsa_verify (fun n => replicate (Z.to_nat n) 0) (mkdpub 2097779 1048889 4 (powm 4 777 2097779)) [104; 105] r s = Done true.
Proof.
  assert (G : group_ok 2097779 1048889 4).
  { split; [apply is_prime_spec; vm_compute; reflexivity|apply is_prime_spec; vm_compute; reflexivity|lia|lia|unfold congr; rewrite <- (powm_ok 4 1048889 2097779) by lia; vm_compute; reflexivity]. }
  pose proof (dsa_sign_verify (fun n => replicate (Z.to_nat n) 0) ltac:(reflexivity) 2097779 1048889 4 777 [[1; 2; 3]] 66051 [] [104; 105] G) as H.
  specialize (H ltac:(vm_compute; discriminate) ltac:(lia) ltac:(vm_compute; reflexivity) ltac:(lia) ltac:(cbn; lia)). cbv zeta in H.
  assert (B : (dsa_r 2097779 1048889 4 66051 =? 0) || (dsa_s 2097779 1048889 4 777 66051 [104; 105] =? 0) = false) by (vm_compute; reflexivity).
  rewrite B in H. exists (dsa_r 2097779 1048889 4 66051), (dsa_s 2097779 1048889 4 777 66051 [104; 105]). exact H.
Defined.
