(* ===== verification/Esign.v ===== *)
(** * ESIGN: [crypt/esign.C], [crypt/esign.h]

    The modulus is [p * p * q]; a signature's [k]-th power is the message,
    but for its low bits. *)
From Stdlib Require Import ZArith Lia.
From stdpp Require Import prelude.
From S2P Require Import Prelude Mdblock Sha1 Sha1oracle Bits Mpz MpzSpec MpzRaw Pad NumTheory Bigint Prime PrimeProps.

Record esign_pub := mkepub { es_n : Z; es_k : Z; es_log2k : Z; es_t : Z }.
Record precomp := mkprc { prc_x : Z; prc_xk : Z; prc_x_over_kxk : Z }.
Record esign_priv := mkepriv { es_pub : esign_pub; es_p : Z; es_q : Z; es_pq : Z; es_prevec : list precomp }.

Section esign.
Context `{HG : !Gmp} `{HN : !GmpNum} (junk : Z -> list Z).

Definition msg2bigint (msg : list Z) (bits : Z) : outcome Z :=
  assertM (negb (bits =? 0)) ;;
  let bits := bits - 1 in
  let bytes := (bits + 7) .>> 3 in
  buf ← sha1oracle_lookup junk 1 bytes msg;
  buf ← mask_last buf (msbmask bits);
  r ← mpz_set_rawmag_le (mkmpz 0 []) buf;
  Done (mpz_val r).

Definition calc_log2k (k : Z) : outcome Z :=
  assertM (4 <? k) ;;
  let l := log2c64 k in
  Done (if k =? u64 (1 .<< l) then l else -1).

Definition esign_pub_new (nn kk : Z) : outcome esign_pub :=
  l ← calc_log2k kk;
  let nb := (2 * nbits nn + 2) / 3 in
  Done (mkepub nn kk l (Z.setbit 0 nb)).

Definition kpow (k : esign_pub) (x : Z) : Z := powm x (es_k k) (es_n k).

Definition raw_verify (k : esign_pub) (z sig : Z) : bool :=
  let u := kpow k sig in
  if u <? z then false else u - es_t k <=? z.

Definition esign_verify (k : esign_pub) (msg : list Z) (sig : Z) : outcome bool :=
  z ← msg2bigint msg (nbits (es_n k));
  Done (raw_verify k z sig).

Definition esign_priv_new (p q kk : Z) : outcome esign_priv :=
  pub ← esign_pub_new (p * p * q) kk;
  assertM (q <? p) ;;
  Done (mkepriv pub p q (p * q) []).

Definition set_prevec (k : esign_priv) (v : list precomp) : esign_priv := mkepriv (es_pub k) (es_p k) (es_q k) (es_pq k) v.
Definition precompute (k : esign_priv) (rnd : list (list Z)) : outcome esign_priv :=
  x ← random_zn (es_p k) rnd;
  let x := x.1 in
  let xk := kpow (es_pub k) x in
  let o := invert (xk * es_k (es_pub k)) (es_p k) in
  Done (set_prevec k (es_prevec k ++ [mkprc x xk (o * x)])).

(** [mpz_cdiv_q] *)
Definition cdiv (a b : Z) : Z := - ((- a) / b).

Definition raw_sign (k : esign_priv) (rnd : list (list Z)) (v : Z) : outcome (Z * esign_priv) :=
  let n := es_n (es_pub k) in
  match es_prevec k with
  | [] =>
      x ← random_zn (es_p k) rnd;
      let x := x.1 in
      let xk := kpow (es_pub k) x in
      let w := v - xk in
      let w := if w <? 0 then w + n else w in
      let w := cdiv w (es_pq k) in
      assertM (0 <? w) ;;
      let xk := xk * es_k (es_pub k) in
      let xk := invert xk (es_p k) in
      let xk := (xk * x * w) mod es_p k in
      Done ((x + xk * es_pq k) mod n, k)
  | prc :: rest =>
      let w := v - prc_xk prc in
      let w := if w <? 0 then w + n else w in
      let w := cdiv w (es_pq k) in
      assertM (0 <? w) ;;
      let w := (w * prc_x_over_kxk prc) mod es_p k in
      Done ((w * es_pq k + prc_x prc) mod n, set_prevec k rest)
  end.

Definition esign_sign (k : esign_priv) (rnd : list (list Z)) (msg : list Z) : outcome (Z * esign_priv) :=
  z ← msg2bigint msg (nbits (es_n (es_pub k)));
  raw_sign k rnd z.

(** [random_prime (nbits)] uses the odd sieve and 32 rounds *)
Definition esign_keygen (nb k : Z) (tries : list (list (list Z) * list Z)) : outcome esign_priv :=
  let nb := (nb + 1) / 3 in
  x ← random_prime nb odd_sieve 32 tries;
  let '(p, tries) := x : Z * list (list (list Z) * list Z) in
  x ← random_prime nb odd_sieve 32 tries;
  let q := x.1 in
  if p <? q then esign_priv_new q p k else esign_priv_new p q k.
End esign.

(** ** A power of a sum *)
Lemma pow_sum x d k : 0 <= k -> exists c, (x + d) ^ Z.succ k = x ^ Z.succ k + Z.succ k * x ^ k * d + c * (d * d).
Proof.
  revert k. apply natlike_ind; [exists 0; rewrite !Z.pow_succ_r, !Z.pow_0_r by lia; ring|]. intros k Hk (c & IH).
  exists (c * (x + d) + Z.succ k * x ^ k). rewrite (Z.pow_succ_r (x + d) (Z.succ k)), IH, (Z.pow_succ_r x (Z.succ k)), (Z.pow_succ_r x k) by lia.
  unfold Z.succ. ring.
Qed.

(** Division rounds up. *)
Lemma cdiv_spec a b : 0 < b -> 0 <= cdiv a b * b - a < b.
Proof. intros Hb. unfold cdiv. pose proof (Z.div_mod (- a) b ltac:(lia)). pose proof (Z.mod_pos_bound (- a) b Hb). lia. Qed.

Section correct.
Context `{HN : !GmpNum} `{HNok : !GmpNumOK} (p q : Z) (Hp : Z.prime p) (Hq : 0 < q < p).
Notation n := (p * p * q).
Notation pq := (p * q).

Lemma n_pos : 0 < pq /\ 0 < n /\ pq < n.
Proof using Hp Hq. pose proof (Z.prime_ge_2 p Hp). split_and!; nia. Qed.

(** The bound of [verify] is above [pq]. *)
Lemma t_bound : pq <= Z.setbit 0 ((2 * nbits n + 2) / 3).
Proof using Hp Hq.
  destruct n_pos as (P1 & P2 & _). pose proof (nbits_bound n ltac:(lia)) as B. pose proof (nbits_nonneg n) as N0. unfold Z.setbit. rewrite Z.lor_0_l, Z.shiftl_1_l.
  set (nb := (2 * nbits n + 2) / 3). assert (H3 : 2 * nbits n <= 3 * nb) by (unfold nb; pose proof (Z.div_mod (2 * nbits n + 2) 3 ltac:(lia)); pose proof (Z.mod_pos_bound (2 * nbits n + 2) 3 ltac:(lia)); lia).
  assert (0 <= nb) by (apply Z.div_pos; lia). destruct (Z.le_gt_cases pq (2 ^ nb)) as [|C]; [done|]. exfalso.
  assert (C1 : (2 ^ nb) ^ 3 <= pq ^ 3) by (apply Z.pow_le_mono_l; split; [apply Z.pow_nonneg; lia|lia]).
  assert (C2 : pq ^ 3 <= n * n) by (replace (pq ^ 3) with (n * (p * q * q)) by ring; nia).
  assert (C3 : n * n < 2 ^ (3 * nb)).
  { apply Z.lt_le_trans with (2 ^ nbits n * 2 ^ nbits n); [nia|]. rewrite <- Z.pow_add_r by lia. apply Z.pow_le_mono_r; lia. }
  rewrite <- Z.pow_mul_r in C1 by lia. replace (nb * 3) with (3 * nb) in C1 by lia. lia.
Qed.

Context (k : Z) (Hk : 4 < k) (Hu : Z.gcd k p = 1).

(** What is added to [x] puts [w] into the power. *)
Lemma esign_power x w y : 0 < x < p -> y =[p]= invert (powm x k n * k) p * x * w -> (x + y * pq) ^ k =[n]= powm x k n + w * pq.
Proof using Hp Hq Hk Hu HNok.
  intros Hx Hy. destruct n_pos as (P1 & P2 & _). destruct (pow_sum x (y * pq) (k - 1) ltac:(lia)) as (c & E). replace (Z.succ (k - 1)) with k in E by lia.
  assert (Ex : powm x k n =[n]= x ^ k) by (apply powm_congr; lia). rewrite E, Ex.
  assert (Exp : powm x k n =[p]= x ^ k) by (apply (congr_of_divide p n); [lia|lia|exists (p * q); ring|done]).
  assert (Ui : Z.gcd (powm x k n * k) p = 1).
  { apply gcd_mul_1; [|done]. rewrite (congr_gcd p _ (x ^ k)) by (done || lia). apply Z.coprime_pow_l; [lia|]. by apply small_unit. }
  pose proof (invert_congr (powm x k n * k) p ltac:(pose proof (Z.prime_ge_2 p Hp); lia) Ui) as Ei. set (i := invert (powm x k n * k) p) in *.
  assert (Ew : k * x ^ (k - 1) * y =[p]= w).
  { rewrite Hy. transitivity (w * (x ^ k * k * i)).
    - apply congr_mul_eq. replace (x ^ k) with (x * x ^ (k - 1)) by (rewrite <- Z.pow_succ_r by lia; f_equal; lia). ring.
    - rewrite <- Exp, Ei. apply congr_mul_eq. ring. }
  apply congr_divide in Ew as [j Hj]; [|lia]. apply congr_divide; [lia|]. exists (j + c * y * y * q).
  replace (k * x ^ (k - 1) * (y * pq)) with ((k * x ^ (k - 1) * y) * pq) by ring. replace (k * x ^ (k - 1) * y) with (w + j * p) by lia. ring.
Qed.

(** The two ways to sign give a signature. *)
Lemma esign_accept x v y l : 0 < x < p -> 0 <= v -> v + pq <= n ->
  let xk := powm x k n in let w := cdiv (if v - xk <? 0 then v - xk + n else v - xk) pq in
  y =[p]= invert (xk * k) p * x * w -> raw_verify (mkepub n k l (Z.setbit 0 ((2 * nbits n + 2) / 3))) v ((x + y * pq) mod n) = true.
Proof using Hp Hq Hk Hu HNok.
  intros Hx Hv Hvn xk w Hy. destruct n_pos as (P1 & P2 & P3). unfold raw_verify, kpow. cbn [es_n es_k es_t]. pose proof t_bound as T.
  pose proof (cdiv_spec (if v - xk <? 0 then v - xk + n else v - xk) pq P1) as W. fold w in W.
  set (dl := w * pq - (if v - xk <? 0 then v - xk + n else v - xk)) in *.
  assert (E : powm ((x + y * pq) mod n) k n = v + dl).
  { apply powm_unique; [lia|lia| |lia]. rewrite congr_mod. rewrite (esign_power x w y Hx Hy). fold xk. unfold dl. destruct (v - xk <? 0); apply congr_divide; try lia.
    - exists 1. lia.
    - exists 0. lia. }
  rewrite E. destruct (Z.ltb_spec (v + dl) v); [lia|]. apply Z.leb_le. lia.
Qed.
End correct.

(** A value of the list is what [precompute] puts there. *)
Definition prec_ok `{!GmpNum} (p q k : Z) (c : precomp) : Prop :=
  0 < prc_x c < p /\ prc_xk c = powm (prc_x c) k (p * p * q) /\ prc_x_over_kxk c = invert (prc_xk c * k) p * prc_x c.

Section whole.
Context `{HG : !Gmp} `{HGok : !GmpOK} `{HN : !GmpNum} `{HNok : !GmpNumOK} (junk : Z -> list Z) (Hjunk : forall n, 0 <= n -> length (junk n) = Z.to_nat n).
Context (p q k : Z) (Hp : Z.prime p) (Hq : 0 < q < p) (Hk : 4 < k) (Hu : Z.gcd k p = 1) (key : esign_priv) (Hkey : esign_priv_new p q k = Done key).
Notation n := (p * p * q).

Lemma key_eq : exists l, key = mkepriv (mkepub n k l (Z.setbit 0 ((2 * nbits n + 2) / 3))) p q (p * q) [].
Proof using Hkey.
  generalize Hkey. unfold esign_priv_new, esign_pub_new, calc_log2k. destruct (4 <? k); [|done]. cbn [assertM mbind outcome_bind]. destruct (q <? p); [|done]. cbn [assertM mbind outcome_bind].
  intros [= E]. eexists. symmetry. exact E.
Qed.

Lemma precompute_ok v rnd x rnd' : random_zn p rnd = Done (x, rnd') -> 0 < x < p ->
  exists c, precompute (set_prevec key v) rnd = Done (set_prevec key (v ++ [c])) /\ prec_ok p q k c /\ prc_x c = x.
Proof using Hkey.
  intros Er Hx. destruct key_eq as (l & ->). unfold precompute, set_prevec. cbn [es_p es_pub es_prevec es_q es_pq]. rewrite Er. cbn [mbind outcome_bind fst].
  eexists. split; [reflexivity|]. split; [|done]. split; [done|]. done.
Qed.

(** The number that stands for a message. *)
Definition hashed (msg : list Z) : Z := le_val (maskl (O 1 ((nbits n - 1 + 7) .>> 3) msg) (msbmask (nbits n - 1))).

Lemma msg2bigint_spec msg : nbits n < 2 ^ 60 -> Z.of_nat (length msg) + 80 < 2 ^ 64 -> msg2bigint junk msg (nbits n) = Done (hashed msg) /\ 0 <= hashed msg < 2 ^ (nbits n - 1).
Proof using HGok Hjunk Hp Hq.
  intros Hn Hm. pose proof (Z.prime_ge_2 p Hp). assert (N2 : 1 < nbits n).
  { unfold nbits. destruct (Z.eqb_spec n 0) as [|_]; [nia|]. rewrite Z.abs_eq by nia. pose proof (proj1 (Z.log2_le_pow2 n 1 ltac:(nia)) ltac:(nia)). lia. }
  unfold msg2bigint. destruct (Z.eqb_spec (nbits n) 0) as [|_]; [lia|]. cbn [negb assertM mbind outcome_bind]. unfold hashed. set (bits := nbits n - 1) in *. rewrite Z.shiftr_div_pow2 by lia. change (2 ^ 3) with 8.
  set (sz := (bits + 7) / 8). assert (Bsz : 0 < sz < 2 ^ 63).
  { unfold sz. pose proof (Z.div_mod (bits + 7) 8 ltac:(lia)). pose proof (Z.mod_pos_bound (bits + 7) 8 ltac:(lia)). lia. }
  rewrite (lookup_spec junk Hjunk) by lia. cbn [mbind outcome_bind]. pose proof (O_length 1 sz msg ltac:(lia)) as OL. rewrite mask_last_spec by lia. cbn [mbind outcome_bind].
  destruct (set_rawmag_le_spec (mkmpz 0 []) (maskl (O 1 sz msg) (msbmask bits)) (maskl_bytes _ _ (O_bytes _ _ _))) as (m & -> & R). cbn [mbind outcome_bind]. rewrite (mpz_val_rep _ _ R).
  split; [done|]. apply masked_bound; [lia|apply O_bytes|lia|lia].
Qed.

(** [sign], with precomputed values or without, gives a signature that
    [verify] accepts.  The message's number must not come within [pq] of the
    modulus, and it must not be the power of the random number, on which the
    assertion of [raw_sign] fails. *)
Theorem esign_sign_verify v rnd x rnd' msg :
  Forall (prec_ok p q k) v -> match v with [] => random_zn p rnd = Done (x, rnd') /\ 0 < x < p | c :: _ => prc_x c = x end ->
  nbits n < 2 ^ 60 -> Z.of_nat (length msg) + 80 < 2 ^ 64 -> hashed msg + p * q <= n ->
  if hashed msg =? powm x k n then esign_sign junk (set_prevec key v) rnd msg = Panic
  else exists s, esign_sign junk (set_prevec key v) rnd msg = Done (s, set_prevec key (tail v)) /\ esign_verify junk (es_pub key) msg s = Done true.
Proof using HGok HNok Hjunk Hp Hq Hk Hu Hkey.
  intros Hv Hx Hn Hm Hz. destruct (msg2bigint_spec msg Hn Hm) as [Ez Bz]. set (z := hashed msg) in *. destruct key_eq as (l & Ek). destruct (n_pos p q Hp Hq) as (P1 & P2 & P3).
  assert (Bx : 0 < x < p) by (destruct v as [|c v]; [apply Hx|apply Forall_cons in Hv as [[Hc _] _]; by rewrite <- Hx]).
  set (xk := powm x k n). pose proof (powm_bound x k n ltac:(lia) ltac:(lia)) as Bk. fold xk in Bk.
  set (w := cdiv (if z - xk <? 0 then z - xk + n else z - xk) (p * q)).
  assert (Es : esign_sign junk (set_prevec key v) rnd msg
    = (assertM (0 <? w) ;; Done ((x + ((invert (xk * k) p * x * w) mod p) * (p * q)) mod n, set_prevec key (tail v)))).
  { unfold esign_sign. rewrite Ek. cbn [set_prevec es_pub es_n]. rewrite Ez. cbn [mbind outcome_bind]. unfold raw_sign. cbn [set_prevec es_prevec es_p es_q es_pq es_pub es_n es_k].
    destruct v as [|c v].
    - destruct Hx as [Er _]. rewrite Er. cbn [mbind outcome_bind fst]. unfold kpow. cbn [es_k es_n]. done.
    - apply Forall_cons in Hv as [(_ & C2 & C3) _]. rewrite C3, C2, Hx. fold xk. cbn [tail]. fold w. rewrite (Z.mul_comm w (invert (xk * k) p * x)).
      rewrite (Z.add_comm x). done. }
  pose proof (cdiv_spec (if z - xk <? 0 then z - xk + n else z - xk) (p * q) P1) as W. fold w in W. rewrite Es. destruct (Z.eqb_spec z xk) as [E|E].
  - assert (w = 0) by (revert W; destruct (Z.ltb_spec (z - xk) 0); nia). by destruct (Z.ltb_spec 0 w); [lia|].
  - assert (0 < w) by (revert W; destruct (Z.ltb_spec (z - xk) 0); nia). destruct (Z.ltb_spec 0 w); [|lia]. cbn [assertM mbind outcome_bind]. eexists. split; [done|].
    unfold esign_verify. rewrite Ek. cbn [es_pub es_n]. rewrite Ez. cbn [mbind outcome_bind]. f_equal. apply (esign_accept p q Hp Hq k Hk Hu); [lia|lia|lia|]. apply congr_mod.
Qed.
End whole.

(** ** An example *)
#[local] Existing Instances gmp_model num_model.
Definition es_key : esign_priv := match esign_priv_new 1019 1013 8 with Done k => k | _ => mkepriv (mkepub 0 0 0 0) 0 0 0 [] end.
Lemma esign_sign_verify_witness : exists s,
  esign_sign (fun n => replicate (Z.to_nat n) 0) (set_prevec es_key []) [[1; 2]] [104; 105] = Done (s, set_prevec es_key [])
  /\ esign_verify (fun n => replicate (Z.to_nat n) 0) (es_pub es_key) [104; 105] s = Done true.
Proof.
  pose proof (esign_sign_verify (fun n => replicate (Z.to_nat n) 0) (fun n _ => length_replicate _ _) 1019 1013 8 ltac:(apply is_prime_spec; vm_compute; reflexivity) ltac:(lia) ltac:(lia)
    ltac:(vm_compute; reflexivity) es_key ltac:(vm_compute; reflexivity) [] [[1; 2]] 258 [] [104; 105]) as H.
  assert (B : (hashed 1019 1013 [104; 105] =? powm 258 8 (1019 * 1019 * 1013)) = false) by (vm_compute; reflexivity). rewrite B in H.
  apply H; [constructor|split; [vm_compute; reflexivity|lia]|vm_compute; reflexivity|cbn; lia|vm_compute; discriminate].
Defined.
