(* ===== verification/Srp.v ===== *)
(** * Authentication with passwords: [crypt/srp.C], [crypt/srp.h]

    The client and the server of the SRP protocol, version 3 and 6, as state
    machines that are driven by messages.  The coding of messages
    ([xdr2bytes], [bytes2xdr], [datasink_catxdr]) is generated code and the
    XDR library's, the class [SrpXdr]; numbers as text are GMP's, the class
    [GmpStr]. *)
From Stdlib Require Import ZArith Lia.
From stdpp Require Import prelude strings.
From S2P Require Import Prelude Mdblock Sha1 Bits Mpz MpzSpec MpzRaw Convertint Blowfish Password NumTheory Bigint Prime.

Class SrpXdr := {
  xdr_bigint : Z -> option (list Z);
  unxdr_bigint : list Z -> option Z;
  xdr_hash : list Z -> option (list Z);
  unxdr_hash : list Z -> option (list Z);
  xdr_string : list Z -> option (list Z);
  xdr_msg1 : list Z -> Z -> Z -> option (list Z);
  unxdr_msg1 : list Z -> option (list Z * Z * Z);
  xdr_msg3 : Z -> Z -> option (list Z);
  unxdr_msg3 : list Z -> option (Z * Z)
}.

Class GmpStr := {
  (** [bigint::getstr (16)] *)
  getstr16 : Z -> list Z;
  (** [bigint (str)], for text that begins with [0x] *)
  setstr : list Z -> Z
}.

Inductive srpres := SRP_FAIL | SRP_NEXT | SRP_SETPWD | SRP_LAST | SRP_DONE.
#[export] Instance srpres_dec : EqDecision srpres.
Proof. solve_decision. Defined.

(** ** Static members *)
Record paramcache := mkpc { pc_N : Z; pc_iter : Z }.
Record srp_static := mkstatic { minprimsize : Z; sr_cache : list paramcache; lastpos : Z }.
Definition cachesize : Z := 2.
Definition srp_static_init : srp_static := mkstatic 0 [mkpc 0 0; mkpc 0 0] 0.

Record srp_base := mkbase {
  b_salt : list Z;
  b_A : Z;
  b_B : Z;
  b_M : list Z;
  b_H : list Z;
  b_k : Z;
  b_sessid : list Z;
  b_user : list Z;
  b_S : Z;
  b_N : Z;
  b_g : Z
}.

Section srp.
Context `{HG : !Gmp} `{HN : !GmpNum} `{HX : !SrpXdr} `{HS : !GmpStr} (junk : Z -> list Z).

Definition pw_getint (pwd salt : list Z) (nb : Z) : outcome Z :=
  raw ← pw_crypt (junk 64) junk pwd salt ((nb + 7) .>> 3);
  match raw with
  | None => Done 0
  | Some raw => res ← mpz_set_rawmag_le (mkmpz 0 []) raw; Done (Z.rem (mpz_val res) (2 ^ nb))
  end.

(** [datasink_catxdr] on each value in turn; false if one cannot be coded *)
Fixpoint catxdr (sc : sha1ctx) (vals : list (option (list Z))) : outcome (option sha1ctx) :=
  match vals with
  | [] => Done (Some sc)
  | None :: _ => Done None
  | Some b :: vals => sc ← Mdblock.update sc b; catxdr sc vals
  end.

Definition setS (b : srp_base) (SS : Z) : outcome (bool * srp_base) :=
  let b := mkbase (b_salt b) (b_A b) (b_B b) (b_M b) (b_H b) (b_k b) (b_sessid b) (b_user b) SS (b_N b) (b_g b) in
  x ← catxdr (sha1ctx_new (junk 64)) [xdr_hash (b_sessid b); xdr_bigint (b_N b); xdr_bigint (b_g b); xdr_string (b_user b); xdr_string (b_salt b);
                                      xdr_bigint (b_A b); xdr_bigint (b_B b); xdr_bigint (b_S b)];
  match x with
  | None => Done (false, b)
  | Some sc =>
      d ← final sc;
      let b := mkbase (b_salt b) (b_A b) (b_B b) (d.1) (b_H b) (b_k b) (b_sessid b) (b_user b) (b_S b) (b_N b) (b_g b) in
      x ← catxdr (Sha1.reset (d.2)) [xdr_hash (b_sessid b); xdr_bigint (b_A b); xdr_hash (b_M b); xdr_bigint (b_S b)];
      match x with
      | None => Done (false, b)
      | Some sc =>
          d ← final sc;
          Done (true, mkbase (b_salt b) (b_A b) (b_B b) (b_M b) (d.1) (b_k b) (b_sessid b) (b_user b) (b_S b) (b_N b) (b_g b))
      end
  end.

(** ** Parameters *)
(** [for (i = 0; i < cachesize; i++)]: the place of the entry *)
Fixpoint cache_find (cache : list paramcache) (i N iter : Z) : option Z :=
  match cache with
  | [] => None
  | c :: cache => if (pc_N c =? N) && (iter <=? pc_iter c) && negb (N =? 0) then Some i else cache_find cache (i + 1) N iter
  end.

(** A remainder modulo zero is an arithmetic exception. *)
Definition checkparam (st : srp_static) (N g iter : Z) (rnd : list (list Z)) : outcome (bool * srp_static) :=
  let N1 := N - 1 in
  if nbits N <? minprimsize st then Done (false, st)
  else
    assertM (negb (N =? 0)) ;;
    if negb (g =? Z.rem g N) || (g =? N1) || negb (powm g (tdiv_2exp N 1) N =? N1) then Done (false, st)
    else match cache_find (sr_cache st) 0 N iter with
         | Some i => Done (true, mkstatic (minprimsize st) (sr_cache st) i)
         | None =>
             x ← srpprime_test N iter rnd;
             if negb (x.1) then Done (false, st)
             else
               let lp := (lastpos st + 1) mod cachesize in
               c ← wr (sr_cache st) lp (mkpc N iter);
               Done (true, mkstatic (minprimsize st) c lp)
         end.

Definition seedparam (st : srp_static) (N g iter : Z) (rnd : list (list Z)) : outcome (bool * srp_static) :=
  x ← checkparam st N g iter rnd;
  let '(ok, st) := x : bool * srp_static in
  if negb ok then Done (false, st)
  else
    c ← rd (sr_cache st) (lastpos st);
    c' ← wr (sr_cache st) (lastpos st) (mkpc (pc_N c) 0x10000);
    Done (true, mkstatic (minprimsize st) c' (lastpos st)).

(** [for (gp = 2;; gp++)] *)
Fixpoint gen_loop_g (fuel : nat) (g q N : Z) : outcome Z :=
  match fuel with
  | O => Spin
  | S fuel => if negb (powm g q N =? 1) then Done g else gen_loop_g fuel (g + 1) q N
  end.
Definition genparam (fuel weak : nat) (nb : Z) (rnd : list (list Z)) : outcome (Z * Z) :=
  N ← random_srpprime fuel weak nb rnd;
  g ← gen_loop_g (Z.to_nat N) 2 (tdiv_2exp (N - 1) 1) N;
  Done (N, g).

(** ** The client *)
Record srp_client := mkclient {
  cl_base : srp_base;
  cl_phase : Z;
  cl_x : Z;
  cl_a : Z;
  cl_pwd : option (list Z);
  cl_host : option (list Z);
  cl_host_ok : bool;
  cl_cost : Z
}.
Definition k_of (version : Z) : Z := if version <? 6 then 1 else 3.

(** [init]; the message out is empty *)
Definition client_init (c : srp_client) (sid user : list Z) (pwd : option (list Z)) (version : Z) : srpres * list Z * srp_client :=
  let b := cl_base c in
  let b := mkbase (b_salt b) (b_A b) (b_B b) (b_M b) (b_H b) (k_of version) sid user (b_S b) (b_N b) (b_g b) in
  (SRP_NEXT, [], mkclient b 1 (cl_x c) (cl_a c) pwd None false (cl_cost c)).

Definition set_phase (c : srp_client) (p : Z) : srp_client := mkclient (cl_base c) p (cl_x c) (cl_a c) (cl_pwd c) (cl_host c) (cl_host_ok c) (cl_cost c).
Definition set_srp_base (c : srp_client) (b : srp_base) : srp_client := mkclient b (cl_phase c) (cl_x c) (cl_a c) (cl_pwd c) (cl_host c) (cl_host_ok c) (cl_cost c).
Definition setpwd (c : srp_client) (p : list Z) : srp_client := mkclient (cl_base c) (cl_phase c) (cl_x c) (cl_a c) (Some p) (cl_host c) (cl_host_ok c) (cl_cost c).

Definition phase1b (c : srp_client) (rnd : list (list Z)) : outcome (srpres * list Z * srp_client) :=
  let b := cl_base c in
  pwd ← match cl_pwd c with Some p => Done p | None => Wild end;
  x ← pw_getint pwd (b_salt b) (nbits (b_N b) - 1);
  r ← random_zn (b_N b) rnd;
  let a := r.1 in
  let A := powm (b_g b) a (b_N b) in
  let b := mkbase (b_salt b) A (b_B b) (b_M b) (b_H b) (b_k b) (b_sessid b) (b_user b) (b_S b) (b_N b) (b_g b) in
  let c := mkclient b (cl_phase c) x a None (cl_host c) (cl_host_ok c) (cl_cost c) in
  match xdr_bigint A with
  | None => Done (SRP_FAIL, [], c)
  | Some m => Done (SRP_NEXT, m, set_phase c 3)
  end.

(** [iter] is 32 where [checkparam] is called without it; [rnd1] is for the test, [rnd2] for [phase1b] *)
Definition phase1a (st : srp_static) (c : srp_client) (msgin : list Z) (rnd1 rnd2 : list (list Z)) : outcome (srpres * list Z * srp_client * srp_static) :=
  match unxdr_msg1 msgin with
  | None => Done (SRP_FAIL, [], c, st)
  | Some (msalt, mN, mg) =>
      let b := cl_base c in
      x ← (if negb (mN =? b_N b) || negb (mg =? b_g b) then checkparam st mN mg 32 rnd1 else Done (true, st));
      let '(ok, st) := x : bool * srp_static in
      if negb ok then
        Done (SRP_FAIL, [], set_srp_base c (mkbase (b_salt b) (b_A b) (b_B b) (b_M b) (b_H b) (b_k b) (b_sessid b) (b_user b) (b_S b) 0 0), st)
      else
        let b := mkbase msalt (b_A b) (b_B b) (b_M b) (b_H b) (b_k b) (b_sessid b) (b_user b) (b_S b) mN mg in
        r ← pw_dearmorsalt msalt;
        match r with
        | None => Done (SRP_FAIL, [], set_srp_base c b, st)
        | Some (cost, _, host) =>
            let c := mkclient b (cl_phase c) (cl_x c) (cl_a c) (cl_pwd c) (Some host) (cl_host_ok c) cost in
            match cl_pwd c with
            | None => Done (SRP_SETPWD, [], set_phase c 0x1b, st)
            | Some _ => r ← phase1b c rnd2; Done (r, st)
            end
        end
  end.

Definition phase3 (c : srp_client) (msgin : list Z) : outcome (srpres * list Z * srp_client) :=
  match unxdr_msg3 msgin with
  | None => Done (SRP_FAIL, [], c)
  | Some (mB, mu) =>
      if (mB =? 0) || (mu =? 0) then Done (SRP_FAIL, [], c)
      else
        let b := cl_base c in
        let b := mkbase (b_salt b) (b_A b) mB (b_M b) (b_H b) (b_k b) (b_sessid b) (b_user b) (b_S b) (b_N b) (b_g b) in
        x ← setS b (powm (mB - b_k b * powm (b_g b) (cl_x c) (b_N b)) (cl_a c + mu * cl_x c) (b_N b));
        let '(ok, b) := x : bool * srp_base in
        let c := set_srp_base c b in
        if negb ok then Done (SRP_FAIL, [], c)
        else match xdr_hash (b_M b) with
             | None => Done (SRP_FAIL, [], c)
             | Some m => Done (SRP_NEXT, m, set_phase c 5)
             end
  end.

Definition phase5 (c : srp_client) (msgin : list Z) : srpres * list Z * srp_client :=
  match unxdr_hash msgin with
  | Some m => if bool_decide (m = b_H (cl_base c)) then (SRP_DONE, [], mkclient (cl_base c) (cl_phase c) (cl_x c) (cl_a c) (cl_pwd c) (cl_host c) true (cl_cost c))
              else (SRP_FAIL, [], c)
  | None => (SRP_FAIL, [], c)
  end.

Definition client_next (st : srp_static) (c : srp_client) (msgin : list Z) (rnd1 rnd2 : list (list Z)) : outcome (srpres * list Z * srp_client * srp_static) :=
  let ophase := cl_phase c in
  let c := set_phase c (-1) in
  if ophase =? 1 then phase1a st c msgin rnd1 rnd2
  else if ophase =? 0x1b then r ← phase1b c rnd2; Done (r, st)
  else if ophase =? 3 then r ← phase3 c msgin; Done (r, st)
  else if ophase =? 5 then Done (phase5 c msgin, st)
  else Done (SRP_FAIL, [], c, st).

(** ** What the server stores *)
Definition is_hex (c : Z) : bool := isdigit c || ((97 <=? c) && (c <=? 102)).
Definition is_word (c : Z) : bool := isalpha c || isdigit c || (c =? 95).
Definition is_host (c : Z) : bool := is_word c || (c =? 46) || (c =? 45).
(** The rest after a literal prefix *)
Fixpoint lit (p s : list Z) : option (list Z) :=
  match p, s with
  | [], s => Some s
  | a :: p, b :: s => if a =? b then lit p s else None
  | _ :: _, [] => None
  end.
(** [$] matches at the end and before a newline there. *)
Definition at_end (s : list Z) : bool := bool_decide (s = []) || bool_decide (s = [10]).
Definition hostrx (s : list Z) : bool := at_end (snd (span is_host s)).

(** One or more characters *)
Definition span1 (f : Z -> bool) (s : list Z) : option (list Z * list Z) :=
  let '(a, r) := span f s in if bool_decide (a = []) then None else Some (a, r).
(** The literal parts *)
Definition lit_N : list Z := chars "SRP,N=0x".
Definition lit_g : list Z := chars ",g=0x".
Definition lit_s : list Z := chars ",s=".
Definition lit_v : list Z := chars ",v=0x".
(** The text that a number begins with *)
Definition hex0x : list Z := [48; 120].
(** The four groups of [srpinforx] *)
Definition srpinforx (s : list Z) : option (list Z * list Z * list Z * list Z) :=
  s ← lit lit_N s;
  '(n, s) ← span1 is_hex s;
  s ← lit lit_g s;
  '(g, s) ← span1 is_hex s;
  s ← lit lit_s s;
  '(d, s) ← span1 isdigit s;
  s ← lit [dollar] s;
  '(a, s) ← span1 is_a64 s;
  let '(e, s) := span_eq 2 s in
  s ← lit [dollar] s;
  let '(h, s) := span is_host s in
  s ← lit lit_v s;
  '(v, s) ← span1 is_hex s;
  if at_end s then Some (hex0x ++ n, hex0x ++ g, d ++ [dollar] ++ a ++ e ++ [dollar] ++ h, hex0x ++ v) else None.

(** [srp_client::create]; the text, or [NULL] *)
Definition create (c : srp_client) (st : srp_static) (NN gg : Z) (pp hh : list Z) (cost iter : Z) (rnd : list (list Z)) (saltrnd : list Z) :
    outcome (option (list Z) * srp_client * srp_static) :=
  let c := set_phase c (-1) in
  let b := cl_base c in
  x ← checkparam st NN gg iter rnd;
  let '(ok, st) := x : bool * srp_static in
  if negb ok then Done (None, set_srp_base c (mkbase (b_salt b) (b_A b) (b_B b) (b_M b) (b_H b) (b_k b) (b_sessid b) (b_user b) (b_S b) 0 0), st)
  else
    let b := mkbase (b_salt b) (b_A b) (b_B b) (b_M b) (b_H b) (b_k b) (b_sessid b) (b_user b) (b_S b) NN gg in
    if negb (hostrx hh) then Done (None, set_srp_base c b, st)
    else
      salt ← pw_gensalt saltrnd cost hh;
      let b := mkbase salt (b_A b) (b_B b) (b_M b) (b_H b) (b_k b) (b_sessid b) (b_user b) (b_S b) NN gg in
      let c := mkclient b (cl_phase c) (cl_x c) (cl_a c) None (Some hh) (cl_host_ok c) (cl_cost c) in
      x ← pw_getint pp salt (nbits NN - 1);
      if x =? 0 then Done (None, c, st)
      else
        let v := powm gg x NN in
        Done (Some (lit_N ++ getstr16 NN ++ lit_g ++ getstr16 gg ++ lit_s ++ salt ++ lit_v ++ getstr16 v), c, st).

(** ** The server *)
Record srp_server := mkserver { sv_base : srp_base; sv_phase : Z; sv_v : Z; sv_b : Z; sv_u : Z }.

Definition sane (st : srp_static) (info : list Z) (rnd : list (list Z)) : outcome (bool * srp_static) :=
  match srpinforx info with
  | None => Done (false, st)
  | Some (n, g, _, _) => checkparam st (setstr n) (setstr g) 0 rnd
  end.

Definition server_init (st : srp_static) (s : srp_server) (msgin sid uu info : list Z) (version : Z) (rnd : list (list Z)) : outcome (srpres * list Z * srp_server * srp_static) :=
  let b := sv_base s in
  let b := mkbase (b_salt b) (b_A b) (b_B b) (b_M b) (b_H b) (k_of version) (b_sessid b) (b_user b) (b_S b) (b_N b) (b_g b) in
  let s := mkserver b (sv_phase s) (sv_v s) (sv_b s) (sv_u s) in
  if negb (bool_decide (msgin = [])) || bool_decide (info = []) then Done (SRP_FAIL, [], s, st)
  else match srpinforx info with
       | None => Done (SRP_FAIL, [], s, st)
       | Some (tn, tg, tsalt, tv) =>
           let N := setstr tn in
           let g := setstr tg in
           x ← checkparam st N g 1 rnd;
           let '(ok, st) := x : bool * srp_static in
           if negb ok then
             Done (SRP_FAIL, [], mkserver (mkbase (b_salt b) (b_A b) (b_B b) (b_M b) (b_H b) (b_k b) (b_sessid b) (b_user b) (b_S b) 0 0) (sv_phase s) (sv_v s) (sv_b s) (sv_u s), st)
           else
             let b := mkbase tsalt (b_A b) (b_B b) (b_M b) (b_H b) (b_k b) sid uu (b_S b) N g in
             match xdr_msg1 tsalt N g with
             | None => Done (SRP_FAIL, [], mkserver b (sv_phase s) (setstr tv) (sv_b s) (sv_u s), st)
             | Some m => Done (SRP_NEXT, m, mkserver b 2 (setstr tv) (sv_b s) (sv_u s), st)
             end
       end.

Definition phase2 (s : srp_server) (msgin : list Z) (rnd1 rnd2 : list (list Z)) : outcome (srpres * list Z * srp_server) :=
  match unxdr_bigint msgin with
  | None => Done (SRP_FAIL, [], s)
  | Some A =>
      let b := sv_base s in
      let b := mkbase (b_salt b) A (b_B b) (b_M b) (b_H b) (b_k b) (b_sessid b) (b_user b) (b_S b) (b_N b) (b_g b) in
      let s := mkserver b (sv_phase s) (sv_v s) (sv_b s) (sv_u s) in
      if A =? 0 then Done (SRP_FAIL, [], s)
      else
        r ← random_zn (b_N b) rnd1;
        let bb := r.1 in
        let B := Z.rem (b_k b * sv_v s + powm (b_g b) bb (b_N b)) (b_N b) in
        r ← random_zn (b_N b) rnd2;
        let u := r.1 in
        let b := mkbase (b_salt b) A B (b_M b) (b_H b) (b_k b) (b_sessid b) (b_user b) (b_S b) (b_N b) (b_g b) in
        match xdr_msg3 B u with
        | None => Done (SRP_FAIL, [], mkserver b (sv_phase s) (sv_v s) bb u)
        | Some m => Done (SRP_NEXT, m, mkserver b 4 (sv_v s) bb u)
        end
  end.

Definition phase4 (s : srp_server) (msgin : list Z) : outcome (srpres * list Z * srp_server) :=
  match unxdr_hash msgin with
  | None => Done (SRP_FAIL, [], s)
  | Some m =>
      let b := sv_base s in
      x ← setS b (powm (b_A b * powm (sv_v s) (sv_u s) (b_N b)) (sv_b s) (b_N b));
      let '(ok, b) := x : bool * srp_base in
      let s := mkserver b (sv_phase s) (sv_v s) (sv_b s) (sv_u s) in
      if negb ok || negb (bool_decide (m = b_M b)) then Done (SRP_FAIL, [], s)
      else match xdr_hash (b_H b) with
           | None => Done (SRP_FAIL, [], s)
           | Some m => Done (SRP_LAST, m, s)
           end
  end.

Definition server_next (s : srp_server) (msgin : list Z) (rnd1 rnd2 : list (list Z)) : outcome (srpres * list Z * srp_server) :=
  let ophase := sv_phase s in
  let s := mkserver (sv_base s) (-1) (sv_v s) (sv_b s) (sv_u s) in
  if ophase =? 2 then phase2 s msgin rnd1 rnd2
  else if ophase =? 4 then phase4 s msgin
  else Done (SRP_FAIL, [], s).
End srp.
