(* ===== verification/SrpProps.v ===== *)
(** * The SRP protocol: both ends agree *)
From Stdlib Require Import ZArith Lia.
From stdpp Require Import prelude strings.
From S2P Require Import Prelude Mdblock Sha1 Armor Bits Mpz MpzSpec MpzRaw Serial Convertint Blowfish Password NumTheory Bigint Prime PrimeProps Srp.

(** What is relied on: coding and decoding are inverse for values that are not
    too large. *)
Definition small_num (x : Z) : Prop := 0 <= x /\ nbits x < 2 ^ 20.
Class SrpXdrOK `{!SrpXdr} : Prop := {
  xdr_bigint_ok x : small_num x -> exists b, xdr_bigint x = Some b /\ unxdr_bigint b = Some x /\ Z.of_nat (length b) < 2 ^ 32;
  xdr_hash_ok h : length h = 20%nat -> exists b, xdr_hash h = Some b /\ unxdr_hash b = Some h /\ Z.of_nat (length b) < 2 ^ 32;
  xdr_string_ok s : Z.of_nat (length s) < 2 ^ 20 -> exists b, xdr_string s = Some b /\ Z.of_nat (length b) < 2 ^ 32;
  xdr_msg1_ok s N g : Z.of_nat (length s) < 2 ^ 20 -> small_num N -> small_num g -> exists b, xdr_msg1 s N g = Some b /\ unxdr_msg1 b = Some (s, N, g);
  xdr_msg3_ok B u : small_num B -> small_num u -> exists b, xdr_msg3 B u = Some b /\ unxdr_msg3 b = Some (B, u)
}.
Class GmpStrOK `{!GmpStr} : Prop := {
  getstr16_hex x : 0 <= x -> Forall (fun c => is_hex c = true) (getstr16 x);
  getstr16_nonempty x : 0 <= x -> getstr16 x <> [];
  setstr_getstr x : 0 <= x -> setstr (hex0x ++ getstr16 x) = x
}.

(** ** The stored text *)
Lemma lit_app p s : lit p (p ++ s) = Some s.
Proof. induction p as [|a p IH]; [by destruct s|]. cbn [lit app]. by rewrite Z.eqb_refl. Qed.
Lemma span1_stop f l c r : Forall (fun x => f x = true) l -> l <> [] -> f c = false -> span1 f (l ++ c :: r) = Some (l, c :: r).
Proof. intros H Hne Hc. unfold span1. rewrite span_stop by done. by rewrite bool_decide_false. Qed.
Lemma span1_all f l : Forall (fun x => f x = true) l -> l <> [] -> span1 f l = Some (l, []).
Proof. intros H Hne. unfold span1. rewrite span_all by done. by rewrite bool_decide_false. Qed.

Definition salt_text (cost : Z) (bsalt host : list Z) : list Z :=
  decimal cost ++ [dollar] ++ (armor64_chars b2a64 bsalt ++ armor64_pad (Z.of_nat (length bsalt))) ++ [dollar] ++ host.
Definition info_text (n g salt v : list Z) : list Z := lit_N ++ n ++ lit_g ++ g ++ lit_s ++ salt ++ lit_v ++ v.

Lemma srpinforx_text n g v cost bsalt host :
  Forall (fun c => is_hex c = true) n -> Forall (fun c => is_hex c = true) g -> Forall (fun c => is_hex c = true) v -> n <> [] -> g <> [] -> v <> [] ->
  0 <= cost < 2 ^ 63 -> Forall is_byte bsalt -> bsalt <> [] -> Forall (fun c => is_host c = true) host ->
  srpinforx (info_text n g (salt_text cost bsalt host) v) = Some (hex0x ++ n, hex0x ++ g, salt_text cost bsalt host, hex0x ++ v).
Proof.
  intros Hn Hg Hv Nn Ng Nv Hc Hb Nb Hh. destruct (decimal_spec cost Hc) as [Hd Nd]. unfold srpinforx, info_text, salt_text.
  rewrite lit_app. cbn [mbind option_bind].
  change (n ++ lit_g ++ ?r) with (n ++ 44 :: drop 1 lit_g ++ r). rewrite span1_stop by done. cbn [mbind option_bind].
  change (44 :: drop 1 lit_g ++ ?r) with (lit_g ++ r). rewrite lit_app. cbn [mbind option_bind].
  change (g ++ lit_s ++ ?r) with (g ++ 44 :: drop 1 lit_s ++ r). rewrite span1_stop by done. cbn [mbind option_bind].
  change (44 :: drop 1 lit_s ++ ?r) with (lit_s ++ r). rewrite lit_app. cbn [mbind option_bind]. rewrite <- !app_assoc.
  change (decimal cost ++ [dollar] ++ ?r) with (decimal cost ++ dollar :: r). rewrite span1_stop by (done || by apply digits_isdigit). cbn [mbind option_bind].
  change (lit [dollar] (dollar :: ?r)) with (Some r). cbn [mbind option_bind].
  assert (Ha : forall q r, span1 is_a64 (armor64_chars b2a64 bsalt ++ armor64_pad q ++ dollar :: r) = Some (armor64_chars b2a64 bsalt, armor64_pad q ++ dollar :: r)).
  { intros q r. unfold armor64_pad. destruct (q mod 3 =? 1); [|destruct (q mod 3 =? 2)]; cbn [app]; by apply span1_stop; [apply chars_a64|apply chars_nonempty|]. }
  change ([dollar] ++ ?r) with (dollar :: r). rewrite Ha. cbn [mbind option_bind]. rewrite span_pad. change (lit [dollar] (dollar :: ?r)) with (Some r). cbn [mbind option_bind].
  change (host ++ lit_v ++ v) with (host ++ 44 :: drop 1 lit_v ++ v). rewrite span_stop by done. change (44 :: drop 1 lit_v ++ v) with (lit_v ++ v). rewrite lit_app. cbn [mbind option_bind].
  rewrite span1_all by done. cbn [mbind option_bind]. unfold at_end. rewrite bool_decide_true by done. cbn [orb]. done.
Qed.

Section agree.
Context `{HG : !Gmp} `{HGok : !GmpOK} `{HN : !GmpNum} `{HNok : !GmpNumOK} `{HX : !SrpXdr} `{HXok : !SrpXdrOK} `{HS : !GmpStr} `{HSok : !GmpStrOK}.
Context (junk : Z -> list Z) (Hjunk : forall n, 0 <= n -> length (junk n) = Z.to_nat n).

(** ** The hashes *)
Lemma catxdr_spec vals : forall sc msg bs, md_rep fips_compress newstate sc msg -> vals = Some <$> bs -> Z.of_nat (length (msg ++ concat bs)) + 64 < 2 ^ 64 ->
  exists sc', catxdr sc vals = Done (Some sc') /\ md_rep fips_compress newstate sc' (msg ++ concat bs).
Proof using.
  induction vals as [|o vals IH]; intros sc msg bs R E Hl; destruct bs as [|b bs]; try done; [exists sc; by rewrite app_nil_r|]. injection E as -> E. cbn [catxdr].
  cbn [concat] in Hl. rewrite !length_app in Hl. destruct (Mdblock.update_spec fips_compress (fun _ => True) newstate sc msg b R) as (sc1 & -> & R1); [rewrite length_app; lia|by left|].
  cbn [mbind outcome_bind]. destruct (IH sc1 (msg ++ b) bs R1 E) as (sc' & -> & R'); [rewrite !length_app; lia|]. exists sc'. split; [done|]. cbn [concat]. by rewrite app_assoc.
Qed.

Lemma final_reset c msg : md_rep fips_compress newstate c msg -> Z.of_nat (length msg) + 64 < 2 ^ 64 ->
  exists c', final c = Done (fips_sha1 msg, c') /\ md_rep fips_compress newstate (Sha1.reset c') [].
Proof using.
  intros Hr Hsm. unfold final, finish_be. destruct (finish_spec fips_compress _ newstate c msg 0x80 count_bytes_be Hr Hsm count_bytes_be_length) as (c' & -> & Hs & Hb).
  eexists. cbn [mbind outcome_bind]. split; [unfold fips_sha1, fips_pad; by rewrite Hs|]. split; cbn; done.
Qed.

Definition enc (o : option (list Z)) : list Z := default [] o.
Definition M_of (sessid user salt : list Z) (N g A B S : Z) : list Z :=
  fips_sha1 (concat (enc <$> [xdr_hash sessid; xdr_bigint N; xdr_bigint g; xdr_string user; xdr_string salt; xdr_bigint A; xdr_bigint B; xdr_bigint S])).
Definition H_of (sessid : list Z) (A : Z) (M : list Z) (S : Z) : list Z := fips_sha1 (concat (enc <$> [xdr_hash sessid; xdr_bigint A; xdr_hash M; xdr_bigint S])).

Record base_ok (b : srp_base) : Prop := {
  bo_sessid : length (b_sessid b) = 20%nat;
  bo_user : Z.of_nat (length (b_user b)) < 2 ^ 20;
  bo_salt : Z.of_nat (length (b_salt b)) < 2 ^ 20;
  bo_A : small_num (b_A b);
  bo_B : small_num (b_B b);
  bo_N : small_num (b_N b);
  bo_g : small_num (b_g b)
}.

Lemma setS_spec b SS : base_ok b -> small_num SS ->
  let M := M_of (b_sessid b) (b_user b) (b_salt b) (b_N b) (b_g b) (b_A b) (b_B b) SS in
  setS junk b SS = Done (true, mkbase (b_salt b) (b_A b) (b_B b) M (H_of (b_sessid b) (b_A b) M SS) (b_k b) (b_sessid b) (b_user b) SS (b_N b) (b_g b)).
Proof using HXok Hjunk.
  intros [O1 O2 O3 O4 O5 O6 O7] OS M. assert (Hj : length (junk 64) = 64%nat) by (specialize (Hjunk 64); lia). unfold setS. cbv zeta.
  cbn [b_salt b_A b_B b_M b_H b_k b_sessid b_user b_S b_N b_g]. unfold M, M_of, H_of.
  destruct (xdr_hash_ok _ O1) as (e1 & E1 & _ & L1). destruct (xdr_bigint_ok _ O6) as (e2 & E2 & _ & L2). destruct (xdr_bigint_ok _ O7) as (e3 & E3 & _ & L3).
  destruct (xdr_string_ok _ O2) as (e4 & E4 & L4). destruct (xdr_string_ok _ O3) as (e5 & E5 & L5). destruct (xdr_bigint_ok _ O4) as (e6 & E6 & _ & L6).
  destruct (xdr_bigint_ok _ O5) as (e7 & E7 & _ & L7). destruct (xdr_bigint_ok _ OS) as (e8 & E8 & _ & L8). rewrite E1, E2, E3, E4, E5, E6, E7, E8.
  destruct (catxdr_spec _ (sha1ctx_new (junk 64)) [] [e1; e2; e3; e4; e5; e6; e7; e8] (sha1ctx_new_rep (junk 64) Hj) eq_refl) as (sc & Ec & R).
  { cbn [concat app]. rewrite !length_app. cbn [length]. lia. }
  cbn [fmap list_fmap] in Ec. rewrite Ec. cbn [mbind outcome_bind app] in *. destruct (final_reset sc _ R) as (sc' & Ef & R0).
  { cbn [concat app]. rewrite !length_app. cbn [length]. lia. }
  rewrite Ef. cbn [mbind outcome_bind fst snd]. cbn [fmap list_fmap enc default]. unfold id. set (Mv := fips_sha1 _).
  destruct (xdr_hash_ok Mv (fips_sha1_length _)) as (e9 & E9 & _ & L9). rewrite E9.
  destruct (catxdr_spec _ (Sha1.reset sc') [] [e1; e6; e9; e8] R0 eq_refl) as (sc2 & Ec2 & R2); [cbn [concat app]; rewrite !length_app; cbn [length]; lia|].
  cbn [fmap list_fmap] in Ec2. rewrite Ec2. cbn [mbind outcome_bind app] in *.
  destruct (final_spec sc2 _ R2) as (sc3 & Ef2); [cbn [concat app]; rewrite !length_app; cbn [length]; lia|]. rewrite Ef2. done.
Qed.

(** ** Parameters *)
(** [checkparam] accepts a generator of a unit of even order only. *)
Lemma checkparam_true st N g iter rnd st' : 0 <= N -> 0 <= g -> checkparam st N g iter rnd = Done (true, st') -> 1 < N /\ g < N /\ powm g (tdiv_2exp N 1) N = N - 1.
Proof using.
  intros H0 Hg. unfold checkparam. cbv zeta. destruct (nbits N <? minprimsize st); [done|]. destruct (Z.eqb_spec N 0); [done|]. cbn [negb assertM mbind outcome_bind].
  destruct (Z.eqb_spec g (Z.rem g N)) as [E|]; [|done]. destruct (Z.eqb_spec g (N - 1)); [done|]. destruct (Z.eqb_spec (powm g (tdiv_2exp N 1) N) (N - 1)) as [E2|]; [|done]. intros _.
  pose proof (Z.rem_bound_pos g N Hg ltac:(lia)). split_and!; [|lia|done]. destruct (Z.eq_dec N 1) as [->|]; [|lia]. lia.
Qed.

Lemma gen_unit N g : 1 < N -> powm g (tdiv_2exp N 1) N = N - 1 -> 0 <= g -> Z.gcd g N = 1.
Proof using HNok.
  intros HN1 E Hg. rewrite tdiv_2exp_pos in E by lia. change (2 ^ 1) with 2 in E. assert (0 <= N / 2) by (apply Z.div_pos; lia). rewrite powm_ok in E by lia.
  assert (0 < N / 2) by (apply Z.div_str_pos; lia).
  apply (unit_inverse N g (- g ^ (N / 2 - 1))); [lia|]. transitivity (- g ^ (N / 2)).
  - apply congr_mul_eq. replace (g ^ (N / 2)) with (g * g ^ (N / 2 - 1)) by (rewrite <- Z.pow_succ_r by lia; f_equal; lia). ring.
  - rewrite <- congr_mod with (a := g ^ (N / 2)). rewrite E. apply congr_divide; [lia|]. exists (-1). lia.
Qed.

(** Both sides raise to the same power. *)
Lemma srp_key N g k x a b u : 1 < N -> 0 <= x -> 0 <= a -> 0 <= b -> 0 <= u -> 0 <= k ->
  let v := powm g x N in let A := powm g a N in let B := Z.rem (k * v + powm g b N) N in
  powm (B - k * powm g x N) (a + u * x) N = powm (A * powm v u N) b N.
Proof using HNok.
  intros H1 Hx Ha Hb Hu Hk v A B. rewrite (powm_ok _ (a + u * x)), (powm_ok _ b) by nia. change ((B - k * powm g x N) ^ (a + u * x) =[N]= (A * powm v u N) ^ b).
  assert (E : B - k * powm g x N =[N]= g ^ b). { unfold B. fold v. rewrite rem_congr, (powm_congr g b N) by lia. apply congr_mul_eq. ring. }
  rewrite E. unfold A, v. rewrite !powm_congr by lia. rewrite <- !Z.pow_mul_r by nia. rewrite <- Z.pow_add_r by nia. rewrite <- Z.pow_mul_r by nia. apply congr_mul_eq. f_equal. ring.
Qed.

Lemma small_below x N : small_num N -> 0 <= x < N -> small_num x.
Proof using.
  intros [H1 H2] Hx. split; [lia|]. unfold nbits in *. destruct (Z.eqb_spec x 0); [lia|]. destruct (Z.eqb_spec N 0); [lia|]. rewrite !Z.abs_eq in * by lia.
  pose proof (Z.log2_le_mono x N ltac:(lia)). lia.
Qed.

Lemma pow_small N g e : small_num N -> 1 < N -> 0 <= e -> small_num (powm g e N).
Proof using HNok. intros HNs H1 He. apply (small_below _ N HNs). apply powm_bound; lia. Qed.

(** ** A run of the protocol *)
Context (N g x : Z) (pwd salt host : list Z) (cost : Z) (bsalt user sid : list Z).
Context (HNs : small_num N) (Hgs : small_num g) (HN1 : 1 < N) (HgN : g < N) (Hx : 0 <= x).
Context (Hsid : length sid = 20%nat) (Huser : Z.of_nat (length user) < 2 ^ 20) (Hsalt : Z.of_nat (length salt) < 2 ^ 20).
Context (Hdearmor : pw_dearmorsalt salt = Done (Some (cost, bsalt, host))) (Hint : pw_getint junk pwd salt (nbits N - 1) = Done x).
Notation v := (powm g x N).

(** The client's answer to the parameters. *)
Lemma client_step1 st st' c version ra a ra' rnd :
  checkparam st N g 32 rnd = Done (true, st') -> random_zn N ra = Done (a, ra') -> 0 <= a ->
  exists m1 mA c2 st2, xdr_msg1 salt N g = Some m1 /\ client_next junk st ((client_init c sid user (Some pwd) version).2) m1 rnd ra = Done (SRP_NEXT, mA, c2, st2)
    /\ unxdr_bigint mA = Some (powm g a N) /\ cl_phase c2 = 3 /\ cl_x c2 = x /\ cl_a c2 = a
    /\ cl_base c2 = mkbase salt (powm g a N) (b_B (cl_base c)) (b_M (cl_base c)) (b_H (cl_base c)) (k_of version) sid user (b_S (cl_base c)) N g.
Proof using Type*.
  intros Ec Er Ha. destruct (xdr_msg1_ok salt N g Hsalt HNs Hgs) as (m1 & Em & Eu). destruct (xdr_bigint_ok _ (pow_small N g a HNs HN1 Ha)) as (mA & EA & UA & _).
  exists m1, mA. unfold client_next, client_init. cbn [snd cl_phase Z.eqb Pos.eqb]. unfold phase1a. rewrite Eu. unfold set_phase. cbn [cl_base b_N b_g].
  assert (Hck : exists st2, (if negb (N =? b_N (cl_base c)) || negb (g =? b_g (cl_base c)) then checkparam st N g 32 rnd else Done (true, st)) = Done (true, st2)).
  { destruct (_ || _); eauto. }
  destruct Hck as (st2 & ->). cbn [mbind outcome_bind negb]. rewrite Hdearmor. cbn [mbind outcome_bind cl_pwd]. unfold phase1b. cbn [cl_base cl_pwd b_salt b_N b_g mbind outcome_bind].
  rewrite Hint. cbn [mbind outcome_bind]. rewrite Er. cbn [mbind outcome_bind fst]. rewrite EA. cbn [mbind outcome_bind]. eexists _, _. split; [done|]. split; [reflexivity|].
  unfold set_phase. cbn. done.
Qed.

(** The server's challenge. *)
Lemma server_step2 s version a b u rb rb' ru ru' mA :
  sv_phase s = 2 -> sv_v s = v -> b_k (sv_base s) = k_of version -> b_N (sv_base s) = N -> b_g (sv_base s) = g -> b_salt (sv_base s) = salt ->
  b_sessid (sv_base s) = sid -> b_user (sv_base s) = user ->
  unxdr_bigint mA = Some (powm g a N) -> powm g a N <> 0 -> random_zn N rb = Done (b, rb') -> random_zn N ru = Done (u, ru') -> 0 <= b < N -> 0 <= u < N ->
  let B := Z.rem (k_of version * v + powm g b N) N in
  exists m3 s2, server_next junk s mA rb ru = Done (SRP_NEXT, m3, s2) /\ unxdr_msg3 m3 = Some (B, u) /\ sv_phase s2 = 4 /\ sv_v s2 = v /\ sv_b s2 = b /\ sv_u s2 = u
    /\ exists M H S, sv_base s2 = mkbase salt (powm g a N) B M H (k_of version) sid user S N g.
Proof using Type*.
  intros P V K EN Eg Es Ei Eu UA Hne Eb Eru Hb Hu B. assert (SB : small_num B).
  { apply (small_below _ N HNs). pose proof (powm_bound g x N Hx ltac:(lia)). pose proof (powm_bound g b N ltac:(lia) ltac:(lia)). apply Z.rem_bound_pos; [|lia].
    unfold k_of. destruct (version <? 6); lia. }
  destruct (xdr_msg3_ok B u SB (small_below u N HNs Hu)) as (m3 & E3 & U3). exists m3. unfold server_next. rewrite P. cbn [Z.eqb Pos.eqb]. unfold phase2. rewrite UA.
  destruct (Z.eqb_spec (powm g a N) 0); [done|]. cbn [sv_base sv_v b_N b_k b_g]. rewrite EN, Eg, K, V. rewrite Eb. cbn [mbind outcome_bind fst]. rewrite Eru. cbn [mbind outcome_bind fst].
  fold B. rewrite E3. eexists. split; [reflexivity|]. cbn [sv_phase sv_v sv_b sv_u sv_base b_salt b_M b_H b_sessid b_user b_S]. rewrite Es, Ei, Eu. split_and!; try done. eexists _, _, _. done.
Qed.

Definition server_after (s : srp_server) (version a b u : Z) : Prop :=
  sv_phase s = 4 /\ sv_v s = v /\ sv_b s = b /\ sv_u s = u
  /\ exists M H S, sv_base s = mkbase salt (powm g a N) (Z.rem (k_of version * v + powm g b N) N) M H (k_of version) sid user S N g.
Definition client_after (c : srp_client) (version a : Z) : Prop :=
  cl_phase c = 3 /\ cl_x c = x /\ cl_a c = a /\ exists B M H S, cl_base c = mkbase salt (powm g a N) B M H (k_of version) sid user S N g.

(** The client's proof, the server's check and proof, and the client's check. *)
Lemma srp_finish st c s version a b u m3 :
  client_after c version a -> server_after s version a b u -> 0 <= a -> 0 <= b < N -> 0 < u < N ->
  let B := Z.rem (k_of version * v + powm g b N) N in unxdr_msg3 m3 = Some (B, u) -> B <> 0 ->
  exists mM c3 mH s3 c4, client_next junk st c m3 [] [] = Done (SRP_NEXT, mM, c3, st) /\ server_next junk s mM [] [] = Done (SRP_LAST, mH, s3)
    /\ client_next junk st c3 mH [] [] = Done (SRP_DONE, [], c4, st) /\ b_S (cl_base c4) = b_S (sv_base s3) /\ cl_host_ok c4 = true.
Proof using Type*.
  intros (P & X & Aa & B0 & M0 & H0 & S0 & Eb) (Q & V & Bb & U & M1 & H1 & S1 & Es) Ha Hb Hu B U3 HB. set (k := k_of version) in *. assert (Hk : 0 <= k) by (unfold k, k_of; destruct (version <? 6); lia).
  set (S := powm (B - k * v) (a + u * x) N). assert (ES : S = powm (powm g a N * powm v u N) b N) by (apply srp_key; lia).
  assert (SS : small_num S) by (apply (small_below _ N HNs), powm_bound; nia). assert (SB : small_num B).
  { apply (small_below _ N HNs). pose proof (powm_bound g x N Hx ltac:(lia)). pose proof (powm_bound g b N ltac:(lia) ltac:(lia)). apply Z.rem_bound_pos; nia. }
  assert (OK : forall M H S, base_ok (mkbase salt (powm g a N) B M H k sid user S N g)) by (intros; split; cbn; try done; by apply pow_small).
  pose proof (fun M H S' => setS_spec _ S (OK M H S') SS) as SetS. cbn [b_sessid b_user b_salt b_N b_g b_A b_B b_k] in SetS. cbv zeta in SetS.
  set (M := M_of sid user salt N g (powm g a N) B S) in *. set (H := H_of sid (powm g a N) M S) in *. assert (LM : length M = 20%nat) by reflexivity. assert (LH : length H = 20%nat) by reflexivity.
  clearbody M H. destruct (xdr_hash_ok M LM) as (mM & EM & UM & _). destruct (xdr_hash_ok H LH) as (mH & EH & UH & _).
  unfold client_next at 1. rewrite P. cbn [Z.eqb Pos.eqb]. unfold phase3. rewrite U3. destruct (Z.eqb_spec B 0); [done|]. destruct (Z.eqb_spec u 0); [lia|]. cbn [orb]. 
  change (cl_base (set_phase c (-1))) with (cl_base c). change (cl_x (set_phase c (-1))) with (cl_x c). change (cl_a (set_phase c (-1))) with (cl_a c). rewrite Eb, X, Aa. cbn [b_salt b_A b_B b_M b_H b_k b_sessid b_user b_S b_N b_g]. fold S. rewrite SetS. cbn [mbind outcome_bind negb b_M]. rewrite EM. cbn [mbind outcome_bind].
  exists mM. eexists _, mH. eexists _, _. split; [reflexivity|]. split.
  { unfold server_next. rewrite Q. cbn [Z.eqb Pos.eqb]. unfold phase4. rewrite UM. cbn [sv_base sv_v sv_b sv_u]. rewrite Es, V, Bb, U. cbn [b_A b_N]. fold B. rewrite <- ES, SetS.
    cbn [mbind outcome_bind negb b_M b_H]. rewrite bool_decide_true by done. cbn [orb negb]. rewrite EH. reflexivity. }
  unfold client_next, set_phase, set_srp_base. cbn [cl_phase Z.eqb Pos.eqb cl_base]. unfold phase5. rewrite UH. cbn [cl_base b_H]. rewrite bool_decide_true by done.
  split; [reflexivity|]. cbn. done.
Qed.
End agree.

(** C12: the SRP protocol between a client that knows the password and a server
    that holds what [create] made from it: all six steps succeed, in version 3
    and in version 6, both ends have the same key, and the client knows that
    the server is the right one.  The server's random numbers must not make
    [B] or [u] zero, which the client rejects. *)
Theorem srp_agreement `{HG : !Gmp} `{HGok : !GmpOK} `{HN : !GmpNum} `{HNok : !GmpNumOK} `{HX : !SrpXdr} `{HXok : !SrpXdrOK} `{HS : !GmpStr} `{HSok : !GmpStrOK}
    junk N g pwd host cost bsalt user sid version info c0 c0' st0 st0' iter rnd0 sts sts' rnd1 stc stc' rnd2 c s ra a ra' rb b rb' ru u ru' x :
  (forall n, 0 <= n -> length (junk n) = Z.to_nat n) -> small_num N -> small_num g ->
  create junk c0 st0 N g pwd host cost iter rnd0 bsalt = Done (Some info, c0', st0') -> 0 <= cost < 2 ^ 31 -> Forall is_byte bsalt -> bsalt <> [] ->
  Forall (fun h => is_host h = true) host -> length sid = 20%nat -> Z.of_nat (length user) < 2 ^ 20 -> Z.of_nat (length (salt_text cost bsalt host)) < 2 ^ 20 ->
  checkparam sts N g 1 rnd1 = Done (true, sts') -> checkparam stc N g 32 rnd2 = Done (true, stc') ->
  pw_getint junk pwd (salt_text cost bsalt host) (nbits N - 1) = Done x -> 0 <= x ->
  random_zn N ra = Done (a, ra') -> random_zn N rb = Done (b, rb') -> random_zn N ru = Done (u, ru') -> 0 <= a -> 0 <= b < N -> 0 < u < N ->
  Z.rem (k_of version * powm g x N + powm g b N) N <> 0 ->
  exists m1 s1 sts2 mA c2 stc2 m3 s2 mM c3 mH s3 c4,
    server_init sts s [] sid user info version rnd1 = Done (SRP_NEXT, m1, s1, sts2)
    /\ client_next junk stc ((client_init c sid user (Some pwd) version).2) m1 rnd2 ra = Done (SRP_NEXT, mA, c2, stc2)
    /\ server_next junk s1 mA rb ru = Done (SRP_NEXT, m3, s2)
    /\ client_next junk stc2 c2 m3 [] [] = Done (SRP_NEXT, mM, c3, stc2)
    /\ server_next junk s2 mM [] [] = Done (SRP_LAST, mH, s3)
    /\ client_next junk stc2 c3 mH [] [] = Done (SRP_DONE, [], c4, stc2)
    /\ b_S (cl_base c4) = b_S (sv_base s3) /\ cl_host_ok c4 = true.
Proof.
  intros Hjunk HNs Hgs Ec Hcost Hbs Nbs Hhost Hsid Huser Hsalt Ck1 Ck2 Hint Hx Ea Eb Eu Ha Hb Hu HB. set (salt := salt_text cost bsalt host) in *.
  destruct (checkparam_true _ _ _ _ _ _ (proj1 HNs) (proj1 Hgs) Ck1) as (HN1 & HgN & Hpow). pose proof (gen_unit N g HN1 Hpow (proj1 Hgs)) as Ug.
  assert (Hline : Forall (fun ch => ch <> 10) host) by (eapply Forall_impl; [exact Hhost|]; intros ch Hch ->; done).
  destruct (dearmorsalt_armorsalt cost bsalt host Hcost Hbs Nbs Hline) as (sl & Esl & Hde).
  assert (Esalt : sl = salt).
  { revert Esl. unfold pw_armorsalt. rewrite armor64_text by done. cbn [mbind outcome_bind]. intros [= <-]. unfold salt, salt_text, print_int. destruct (Z.ltb_spec cost (2 ^ 31)); [done|lia]. }
  subst sl. assert (Einfo : info = info_text (getstr16 N) (getstr16 g) salt (getstr16 (powm g x N))).
  { revert Ec. unfold create. destruct (checkparam st0 N g iter rnd0) as [[ok st]| | |]; try done. cbn [mbind outcome_bind]. destruct (negb ok); [done|]. destruct (negb _); [done|].
    unfold pw_gensalt. rewrite Esl. cbn [mbind outcome_bind]. rewrite Hint. cbn [mbind outcome_bind]. destruct (x =? 0); [done|]. by intros [= <- _ _]. }
  pose proof (powm_bound g x N Hx ltac:(lia)) as Bv. assert (Erx : srpinforx info = Some (hex0x ++ getstr16 N, hex0x ++ getstr16 g, salt, hex0x ++ getstr16 (powm g x N))).
  { rewrite Einfo. destruct HNs, Hgs. apply srpinforx_text; try done; try (by apply getstr16_hex; lia); try (by apply getstr16_nonempty; lia). lia. }
  destruct (client_step1 junk Hjunk N g x pwd salt host cost bsalt user sid HNs Hgs HN1 HgN Hx Hsid Huser Hsalt Hde Hint stc stc' c version ra a ra' rnd2 Ck2 Ea Ha)
    as (m1 & mA & c2 & stc2 & E1 & E2 & UA & P3 & X3 & A3 & B3).
  assert (HA : powm g a N <> 0).
  { rewrite powm_ok by lia. intros Z0. assert (U0 : Z.gcd (g ^ a) N = 1) by (apply Z.coprime_pow_l; [lia|exact Ug]). rewrite (congr_gcd N (g ^ a) 0) in U0; [|lia|].
    - rewrite Z.gcd_0_l, Z.abs_eq in U0 by lia. lia.
    - unfold congr. by rewrite Z0, Z.mod_0_l by lia. }
  set (s1 := mkserver (mkbase salt (b_A (sv_base s)) (b_B (sv_base s)) (b_M (sv_base s)) (b_H (sv_base s)) (k_of version) sid user (b_S (sv_base s)) N g) 2 (powm g x N) (sv_b s) (sv_u s)).
  assert (E0 : server_init sts s [] sid user info version rnd1 = Done (SRP_NEXT, m1, s1, sts')).
  { unfold server_init. rewrite bool_decide_true by done. assert (info <> []) by (rewrite Einfo; done). rewrite bool_decide_false by done. cbn [negb orb]. rewrite Erx.
    destruct HNs, Hgs. rewrite !setstr_getstr by lia. rewrite Ck1. cbn [mbind outcome_bind negb]. rewrite E1. done. }
  destruct (server_step2 junk Hjunk N g x pwd salt host cost bsalt user sid HNs Hgs HN1 HgN Hx Hsid Huser Hsalt Hde Hint s1 version a b u rb rb' ru ru' mA) as (m3 & s2 & E3 & U3 & S2); try done; [lia|].
  destruct (srp_finish junk Hjunk N g x pwd salt host cost bsalt user sid HNs Hgs HN1 HgN Hx Hsid Huser Hsalt Hde Hint stc2 c2 s2 version a b u m3) as (mM & c3 & mH & s3 & c4 & F); try done.
  { split_and!; try done. eexists _, _, _, _. exact B3. }
  exists m1, s1, sts', mA, c2, stc2, m3, s2, mM, c3, mH, s3, c4. split; [exact E0|]. split; [exact E2|]. split; [exact E3|]. exact F.
Qed.

(** C35: the server takes every [A] but zero.  A client that sends [N] makes
    the key zero whatever the password is: it can compute the proof from the
    salt, the parameters and the server's challenge alone, and the server
    accepts it. *)
Theorem srp_zero_key `{HG : !Gmp} `{HN : !GmpNum} `{HNok : !GmpNumOK} `{HX : !SrpXdr} `{HXok : !SrpXdrOK} junk s mA version rb b rb' ru u ru' :
  let N := b_N (sv_base s) in let g := b_g (sv_base s) in
  (forall n, 0 <= n -> length (junk n) = Z.to_nat n) -> sv_phase s = 2 -> base_ok (sv_base s) -> b_k (sv_base s) = k_of version -> 1 < N -> 0 <= sv_v s ->
  unxdr_bigint mA = Some N -> random_zn N rb = Done (b, rb') -> random_zn N ru = Done (u, ru') -> 0 < b < N -> 0 <= u < N ->
  exists m3 s2 B, server_next junk s mA rb ru = Done (SRP_NEXT, m3, s2) /\ unxdr_msg3 m3 = Some (B, u)
    /\ exists mM mH s3, xdr_hash (M_of (b_sessid (sv_base s)) (b_user (sv_base s)) (b_salt (sv_base s)) N g N B 0) = Some mM
      /\ server_next junk s2 mM [] [] = Done (SRP_LAST, mH, s3) /\ b_S (sv_base s3) = 0.
Proof.
  intros N g Hjunk P [O1 O2 O3 O4 O5 O6 O7] K HN1 Hv UA Eb Eu Hb Hu. fold N in O6. fold g in O7. set (B := Z.rem (k_of version * sv_v s + powm g b N) N).
  assert (SB : small_num B).
  { apply (small_below _ N O6). pose proof (powm_bound g b N ltac:(lia) ltac:(lia)). apply Z.rem_bound_pos; [|lia]. unfold k_of. destruct (version <? 6); lia. }
  destruct (xdr_msg3_ok B u SB (small_below u N O6 Hu)) as (m3 & E3 & U3). unfold server_next at 1. rewrite P. cbn [Z.eqb Pos.eqb]. unfold phase2. rewrite UA. destruct (Z.eqb_spec N 0); [lia|].
  cbn [sv_base sv_v sv_phase b_N b_k b_g]. fold N g. rewrite K, Eb. cbn [mbind outcome_bind fst]. rewrite Eu. cbn [mbind outcome_bind fst]. fold B. rewrite E3.
  exists m3. eexists _, B. split; [reflexivity|]. split; [done|]. set (b2 := mkbase _ _ _ _ _ _ _ _ _ _ _).
  assert (OK : base_ok b2) by (split; cbn; done). pose proof (setS_spec junk Hjunk b2 0 OK ltac:(split; [lia|reflexivity])) as ES. cbn [b2 b_sessid b_user b_salt b_N b_g b_A b_B b_k] in ES. cbv zeta in ES.
  set (M := M_of _ _ _ _ _ _ _ _) in *. set (H := H_of _ _ _ _) in *. assert (LM : length M = 20%nat) by reflexivity. assert (LH : length H = 20%nat) by reflexivity. clearbody M H.
  destruct (xdr_hash_ok M LM) as (mM & EM & UM & _). destruct (xdr_hash_ok H LH) as (mH & EH & _). exists mM, mH. eexists. split; [done|].
  assert (Z0 : powm (N * powm (sv_v s) u N) b N = 0).
  { rewrite powm_ok by lia. replace b with (Z.succ (b - 1)) by lia. rewrite Z.pow_succ_r by lia. rewrite <- Z.mul_assoc, Z.mul_comm. apply Z.mod_mul. lia. }
  unfold server_next. cbn [sv_phase Z.eqb Pos.eqb]. unfold phase4. rewrite UM. cbn [sv_base sv_v sv_b sv_u]. change (b_A b2) with N. change (b_N b2) with N. rewrite Z0, ES.
  cbn [mbind outcome_bind negb b_M b_H]. rewrite bool_decide_true by done. cbn [orb negb]. rewrite EH. split; [reflexivity|]. done.
Qed.

(** ** After the end *)
(** A failure is final: the machine is left in the phase -1, in which every
    message fails. *)
Lemma client_stopped `{!Gmp} `{!GmpNum} `{!SrpXdr} junk st c m r1 r2 : cl_phase c = -1 -> client_next junk st c m r1 r2 = Done (SRP_FAIL, [], set_phase c (-1), st).
Proof. intros P. unfold client_next. by rewrite P. Qed.
Lemma server_stopped `{!Gmp} `{!GmpNum} `{!SrpXdr} junk s m r1 r2 : sv_phase s = -1 -> exists s', server_next junk s m r1 r2 = Done (SRP_FAIL, [], s') /\ sv_phase s' = -1.
Proof. intros P. unfold server_next. rewrite P. cbn [Z.eqb]. by eexists. Qed.

(** The server accepts only the hash of the key it has computed, in phase 4, and only once. *)
Lemma server_accepts `{!Gmp} `{!GmpNum} `{!SrpXdr} junk s m r1 r2 o s' : server_next junk s m r1 r2 = Done (SRP_LAST, o, s') ->
  sv_phase s = 4 /\ unxdr_hash m = Some (b_M (sv_base s')) /\ sv_phase s' = -1
  /\ exists b, setS junk (sv_base s) (powm (b_A (sv_base s) * powm (sv_v s) (sv_u s) (b_N (sv_base s))) (sv_b s) (b_N (sv_base s))) = Done (true, b) /\ sv_base s' = b.
Proof.
  unfold server_next. destruct (Z.eqb_spec (sv_phase s) 2) as [_|_].
  - unfold phase2. destruct (unxdr_bigint m) as [A|]; [|done]. destruct (A =? 0); [done|]. destruct (random_zn _ r1) as [[b ?]| | |]; try done. cbn [mbind outcome_bind].
    destruct (random_zn _ r2) as [[u ?]| | |]; try done. cbn [mbind outcome_bind]. by destruct (xdr_msg3 _ _).
  - destruct (Z.eqb_spec (sv_phase s) 4) as [P|_]; [|done]. unfold phase4. cbn [sv_base sv_v sv_u sv_b]. destruct (unxdr_hash m) as [h|]; [|done].
    destruct (setS _ _ _) as [[ok b]| | |]; try done. cbn [mbind outcome_bind]. destruct ok; cbn [negb orb]; [|done]. case_bool_decide as Eh; [|done]. cbn [negb].
    destruct (xdr_hash (b_H b)); [|done]. intros [= _ <-]. cbn [sv_base sv_phase]. split_and!; [done|by rewrite <- Eh|done|by exists b].
Qed.

(** ** An example *)
Definition num_bytes (x : Z) : list Z := bytes x (Z.to_nat (nbits x / 8 + 1)).
Definition pair_bytes (a b : list Z) : list Z := bytes (Z.of_nat (length a)) 8 ++ a ++ b.
Definition unpair (l : list Z) : list Z * list Z := let n := Z.to_nat (le_val (take 8 l)) in (take n (drop 8 l), drop n (drop 8 l)).
Definition xdr_model : SrpXdr := {|
  xdr_bigint x := Some (num_bytes x);
  unxdr_bigint b := Some (le_val b);
  xdr_hash h := Some h;
  unxdr_hash b := if bool_decide (length b = 20%nat) then Some b else None;
  xdr_string s := Some s;
  xdr_msg1 s N g := Some (pair_bytes s (pair_bytes (num_bytes N) (num_bytes g)));
  unxdr_msg1 l := let '(s, r) := unpair l in let '(N, g) := unpair r in Some (s, le_val N, le_val g);
  xdr_msg3 B u := Some (pair_bytes (num_bytes B) (num_bytes u));
  unxdr_msg3 l := let '(B, u) := unpair l in Some (le_val B, le_val u)
|}.
Lemma unpair_pair a b : Z.of_nat (length a) < 2 ^ 60 -> unpair (pair_bytes a b) = (a, b).
Proof.
  intros Ha. unfold unpair, pair_bytes. rewrite take_app_length', drop_app_length' by (by rewrite bytes_length). rewrite le_val_bytes, Z.mod_small by lia.
  rewrite Nat2Z.id. by rewrite take_app_length, drop_app_length.
Qed.
Lemma num_bytes_length x : 0 <= x -> Z.of_nat (length (num_bytes x)) <= nbits x + 1.
Proof.
  intros Hx. unfold num_bytes. rewrite bytes_length. pose proof (nbits_nonneg x). assert (0 <= nbits x / 8) by (apply Z.div_pos; lia).
  assert (nbits x / 8 <= nbits x) by (apply Z.div_le_upper_bound; lia). lia.
Qed.
Lemma num_bytes_val x : 0 <= x -> le_val (num_bytes x) = x.
Proof.
  intros Hx. unfold num_bytes. pose proof (nbits_nonneg x). assert (0 <= nbits x / 8) by (apply Z.div_pos; lia). rewrite le_val_bytes. apply Z.mod_small. split; [done|].
  eapply Z.lt_le_trans; [by apply nbits_bound|]. apply Z.pow_le_mono_r; [lia|]. pose proof (Z.div_mod (nbits x) 8 ltac:(lia)). pose proof (Z.mod_pos_bound (nbits x) 8 ltac:(lia)). lia.
Qed.
#[export] Instance xdr_model_ok : @SrpXdrOK xdr_model.
Proof.
  split; cbn [xdr_bigint unxdr_bigint xdr_hash unxdr_hash xdr_string xdr_msg1 unxdr_msg1 xdr_msg3 unxdr_msg3 xdr_model].
  - intros x [H1 H2]. eexists. split; [done|]. pose proof (num_bytes_length x H1). rewrite num_bytes_val by done. split; [done|lia].
  - intros h Hh. exists h. rewrite bool_decide_true by done. split; [done|]. split; [done|lia].
  - intros s Hs. exists s. split; [done|lia].
  - intros s N g Hs [N1 N2] [G1 G2]. eexists. split; [done|]. rewrite unpair_pair by lia. pose proof (num_bytes_length N N1). rewrite unpair_pair by lia. by rewrite !num_bytes_val.
  - intros B u [B1 B2] [U1 U2]. eexists. split; [done|]. pose proof (num_bytes_length B B1). rewrite unpair_pair by lia. by rewrite !num_bytes_val.
Qed.

Definition hex_char (d : Z) : Z := if d <? 10 then 48 + d else 87 + d.
Definition hex_val (c : Z) : Z := if c <? 58 then c - 48 else c - 87.
Fixpoint hex_digits (n : nat) (x : Z) : list Z := match n with O => [] | S n => hex_digits n (x / 16) ++ [hex_char (x mod 16)] end.
Definition str_model : GmpStr := {|
  getstr16 x := hex_digits (Z.to_nat (nbits x / 4 + 1)) x;
  setstr s := foldl (fun v c => 16 * v + hex_val c) 0 (drop 2 s)
|}.
Lemma hex_digits_val n : forall x, 0 <= x -> foldl (fun v c => 16 * v + hex_val c) 0 (hex_digits n x) = x mod 16 ^ Z.of_nat n.
Proof.
  induction n as [|n IH]; intros x Hx; [cbn; by rewrite Z.mod_1_r|]. cbn [hex_digits]. rewrite foldl_app, IH by (apply Z.div_pos; lia). cbn [foldl].
  pose proof (Z.mod_pos_bound x 16 ltac:(lia)). assert (E : hex_val (hex_char (x mod 16)) = x mod 16) by (unfold hex_val, hex_char; destruct (Z.ltb_spec (x mod 16) 10); [destruct (Z.ltb_spec (48 + x mod 16) 58)|destruct (Z.ltb_spec (87 + x mod 16) 58)]; lia).
  rewrite E, Nat2Z.inj_succ, Z.pow_succ_r, Z.rem_mul_r by lia. lia.
Qed.
Lemma hex_digits_hex n : forall x, Forall (fun c => is_hex c = true) (hex_digits n x).
Proof.
  induction n as [|n IH]; intros x; [constructor|]. cbn [hex_digits]. apply Forall_app. split; [apply IH|]. constructor; [|constructor]. pose proof (Z.mod_pos_bound x 16 ltac:(lia)).
  unfold is_hex, isdigit, hex_char. destruct (Z.ltb_spec (x mod 16) 10).
  - apply orb_true_iff. left. apply andb_true_iff. split; apply Z.leb_le; lia.
  - apply orb_true_iff. right. apply andb_true_iff. split; apply Z.leb_le; lia.
Qed.
#[export] Instance str_model_ok : @GmpStrOK str_model.
Proof.
  split; cbn [getstr16 setstr str_model].
  - intros. apply hex_digits_hex.
  - intros x Hx. pose proof (nbits_nonneg x). assert (0 <= nbits x / 4) by (apply Z.div_pos; lia). replace (Z.to_nat (nbits x / 4 + 1)) with (S (Z.to_nat (nbits x / 4))) by lia.
    cbn [hex_digits]. by destruct (hex_digits _ _).
  - intros x Hx. change (drop 2 (hex0x ++ ?r)) with r. pose proof (nbits_nonneg x). assert (0 <= nbits x / 4) by (apply Z.div_pos; lia). rewrite hex_digits_val by done. apply Z.mod_small.
    split; [done|]. change 16 with (2 ^ 4). rewrite <- Z.pow_mul_r by lia. eapply Z.lt_le_trans; [by apply nbits_bound|]. apply Z.pow_le_mono_r; [lia|].
    pose proof (Z.div_mod (nbits x) 4 ltac:(lia)). pose proof (Z.mod_pos_bound (nbits x) 4 ltac:(lia)). lia.
Qed.

#[local] Existing Instances gmp_model num_model xdr_model str_model.
Definition srp_zeros (n : Z) : list Z := replicate (Z.to_nat n) 0.
Definition srp_tests : list (list Z) := replicate 32 [7; 1; 0; 0; 0; 0; 0; 0].
Definition srp_static1 : srp_static := mkstatic 0 [mkpc 0 0; mkpc 35879 32] 1.
Definition srp_pwd : list Z := [112; 119].
Definition srp_host : list Z := [104].
Definition no_base : srp_base := mkbase [] 0 0 [] [] 0 [] [] 0 0 0.
Definition no_client : srp_client := mkclient no_base 0 0 0 None None false 0.
Definition srp_info : list Z := match create srp_zeros no_client srp_static_init 35879 7 srp_pwd srp_host 0 32 srp_tests (seqZ 0 16) with Done (Some i, _, _) => i | _ => [] end.

Definition srp_client1 : srp_client := mkclient (mkbase (salt_text 0 (seqZ 0 16) srp_host) 0 0 [] [] 0 [] [] 0 35879 7) (-1) 0 0 None (Some srp_host) false 0.
Lemma srp_info_ok : create srp_zeros no_client srp_static_init 35879 7 srp_pwd srp_host 0 32 srp_tests (seqZ 0 16) = Done (Some srp_info, srp_client1, srp_static1).
Proof. vm_compute. reflexivity. Qed.
Lemma srp_x_ok : pw_getint srp_zeros srp_pwd (salt_text 0 (seqZ 0 16) srp_host) (nbits 35879 - 1) = Done 18044.
Proof. vm_compute. reflexivity. Qed.
Lemma srp_param_ok : checkparam srp_static_init 35879 7 32 srp_tests = Done (true, srp_static1).
Proof. vm_compute. reflexivity. Qed.

(** The server has the parameters in its cache already. *)
Lemma srp_agreement_witness :
  exists m1 s1 sts2 mA c2 stc2 m3 s2 mM c3 mH s3 c4,
    server_init srp_static1 (mkserver no_base 0 0 0 0) [] (replicate 20 1) [117] srp_info 6 [] = Done (SRP_NEXT, m1, s1, sts2)
    /\ client_next srp_zeros srp_static_init ((client_init no_client (replicate 20 1) [117] (Some srp_pwd) 6).2) m1 srp_tests [[0; 5]]
       = Done (SRP_NEXT, mA, c2, stc2)
    /\ server_next srp_zeros s1 mA [[1; 9]] [[2; 4]] = Done (SRP_NEXT, m3, s2)
    /\ client_next srp_zeros stc2 c2 m3 [] [] = Done (SRP_NEXT, mM, c3, stc2)
    /\ server_next srp_zeros s2 mM [] [] = Done (SRP_LAST, mH, s3)
    /\ client_next srp_zeros stc2 c3 mH [] [] = Done (SRP_DONE, [], c4, stc2)
    /\ b_S (cl_base c4) = b_S (sv_base s3) /\ cl_host_ok c4 = true.
Proof.
  apply (srp_agreement srp_zeros 35879 7 srp_pwd srp_host 0 (seqZ 0 16) [117] (replicate 20 1) 6 srp_info no_client srp_client1 srp_static_init srp_static1 32 srp_tests
           srp_static1 srp_static1 [] srp_static_init srp_static1 srp_tests _ _ [[0; 5]] 5 [] [[1; 9]] 265 [] [[2; 4]] 516 [] 18044).
  - intros n _. apply length_replicate.
  - split; [lia|reflexivity].
  - split; [lia|reflexivity].
  - exact srp_info_ok.
  - lia.
  - apply Forall_seqZ. unfold is_byte. lia.
  - discriminate.
  - repeat constructor.
  - reflexivity.
  - reflexivity.
  - vm_compute. reflexivity.
  - vm_compute. reflexivity.
  - exact srp_param_ok.
  - exact srp_x_ok.
  - lia.
  - vm_compute. reflexivity.
  - vm_compute. reflexivity.
  - vm_compute. reflexivity.
  - lia.
  - lia.
  - lia.
  - vm_compute. discriminate.
Defined.

(** A client that does not know the password: the verifier is any number. *)
Definition srp_base1 : srp_base := mkbase [53] 0 0 [] [] (k_of 6) (replicate 20 1) [117] 0 35879 7.
Lemma srp_zero_key_witness :
  exists m3 s2 B, server_next srp_zeros (mkserver srp_base1 2 1234 0 0) (num_bytes 35879) [[1; 9]] [[2; 4]] = Done (SRP_NEXT, m3, s2) /\ unxdr_msg3 m3 = Some (B, 516)
    /\ exists mM mH s3, xdr_hash (M_of (replicate 20 1) [117] [53] 35879 7 35879 B 0) = Some mM /\ server_next srp_zeros s2 mM [] [] = Done (SRP_LAST, mH, s3) /\ b_S (sv_base s3) = 0.
Proof.
  apply (srp_zero_key srp_zeros (mkserver srp_base1 2 1234 0 0) (num_bytes 35879) 6 [[1; 9]] 265 [] [[2; 4]] 516 []).
  - intros n _. apply length_replicate.
  - reflexivity.
  - split; cbn [sv_base srp_base1 b_sessid b_user b_salt b_A b_B b_N b_g]; try reflexivity; split; try lia; reflexivity.
  - reflexivity.
  - cbn. lia.
  - cbn. lia.
  - vm_compute. reflexivity.
  - vm_compute. reflexivity.
  - vm_compute. reflexivity.
  - cbn. lia.
  - cbn. lia.
Defined.
