(* ===== verification/Links.v ===== *)
(** * Linked lists: [async/list.h]

    The intrusive lists [list] and [tailq] on an explicit memory.  An element
    is identified by its address; its link holds the address of the next
    element and, in [pprev], the address of the pointer that points to it: the
    link of the element before, or a cell of an array (the head of a list is an
    array of one, the slots of a hash table are one of many).  Access to an
    element or an array that is not allocated is [Wild].

    [chain] says which elements a pointer leads to; what an insertion or a
    removal does to all chains of a memory follows from what it writes
    ([pushed], [unlinked]), for the lists here and for the hash table of
    [Ihash.v]. *)
From Stdlib Require Import ZArith Lia.
From stdpp Require Import prelude gmap.
From S2P Require Import Prelude.

Abbreviation elt := (option positive).
(** The address of a pointer to an element *)
Inductive loc := Cell (a : positive) (i : nat) | Next (e : positive).
#[export] Instance loc_dec : EqDecision loc.
Proof. solve_decision. Defined.

Record list_entry := mkle { le_next : elt; le_pprev : loc }.
Record links := mklk { lk_arr : gmap positive (list elt); lk_ent : gmap positive list_entry }.

(** ** Memory *)
Definition get (m : links) (l : loc) : option elt :=
  match l with
  | Cell a i => lk_arr m !! a ≫= (.!! i)
  | Next e => le_next <$> lk_ent m !! e
  end.
Definition put (m : links) (l : loc) (v : elt) : links :=
  match l with
  | Cell a i => mklk (alter (<[i := v]>) a (lk_arr m)) (lk_ent m)
  | Next e => mklk (lk_arr m) (alter (fun x => mkle v (le_pprev x)) e (lk_ent m))
  end.
Definition getp (m : links) (e : positive) : option loc := le_pprev <$> lk_ent m !! e.
Definition putp (m : links) (e : positive) (l : loc) : links := mklk (lk_arr m) (alter (fun x => mkle (le_next x) l) e (lk_ent m)).

Definition rd_loc (m : links) (l : loc) : outcome elt := match get m l with Some v => Done v | None => Wild end.
Definition wr_loc (m : links) (l : loc) (v : elt) : outcome links := match get m l with Some _ => Done (put m l v) | None => Wild end.
Definition rd_pprev (m : links) (e : positive) : outcome loc := match getp m e with Some l => Done l | None => Wild end.
Definition wr_pprev (m : links) (e : positive) (l : loc) : outcome links := match getp m e with Some _ => Done (putp m e l) | None => Wild end.
(** [if (e) e->pprev = l] *)
Definition wr_pprev_opt (m : links) (e : elt) (l : loc) : outcome links := match e with Some e => wr_pprev m e l | None => Done m end.

(** ** [list]; the list is the address of its [first] *)
Section list.
Implicit Types (m : links) (a elm : positive).
Abbreviation first_of a := (Cell a 0).

(** [list ()], in memory that is allocated *)
Definition list_new m a : outcome links := wr_loc m (first_of a) None.

Definition list_insert_head m a elm : outcome links :=
  f ← rd_loc m (first_of a);
  m ← wr_loc m (Next elm) f;
  m ← wr_pprev_opt m f (Next elm);
  m ← wr_loc m (first_of a) (Some elm);
  wr_pprev m elm (first_of a).

Definition list_remove m elm : outcome links :=
  n ← rd_loc m (Next elm);
  p ← rd_pprev m elm;
  m ← wr_pprev_opt m n p;
  p ← rd_pprev m elm;
  n ← rd_loc m (Next elm);
  wr_loc m p n.

Definition list_next m elm : outcome elt := rd_loc m (Next elm).

Definition list_swap m a b : outcome links :=
  tp ← rd_loc m (first_of a);
  bf ← rd_loc m (first_of b);
  m ← wr_loc m (first_of a) bf;
  m ← wr_pprev_opt m bf (first_of a);
  m ← wr_loc m (first_of b) tp;
  wr_pprev_opt m tp (first_of b).

(** [traverse]: the callback gets the memory and an element; the next one is
    read before it is called.  [n] bounds the number of calls. *)
Fixpoint list_walk (n : nat) {S} (lk : S -> links) (cb : S -> positive -> outcome S) (s : S) (p : elt) : outcome S :=
  match n, p with
  | _, None => Done s
  | O, Some _ => Spin
  | S n, Some x =>
      np ← rd_loc (lk s) (Next x);
      s ← cb s x;
      list_walk n lk cb s np
  end.
Definition list_traverse {S} (lk : S -> links) (cb : S -> positive -> outcome S) (s : S) a : outcome S :=
  p ← rd_loc (lk s) (first_of a);
  list_walk (size (lk_ent (lk s))) lk cb s p.

(** ** [tailq] *)
Record tailq := mktq { tq_head : positive; tq_plast : loc }.
Definition tailq_new m a : outcome (links * tailq) :=
  m ← wr_loc m (first_of a) None;
  Done (m, mktq a (first_of a)).

Definition tailq_insert_head m (q : tailq) elm : outcome (links * tailq) :=
  f ← rd_loc m (first_of (tq_head q));
  m ← wr_loc m (Next elm) f;
  m ← wr_pprev_opt m f (Next elm);
  let q := match f with Some _ => q | None => mktq (tq_head q) (Next elm) end in
  m ← wr_loc m (first_of (tq_head q)) (Some elm);
  m ← wr_pprev m elm (first_of (tq_head q));
  Done (m, q).

Definition tailq_insert_tail m (q : tailq) elm : outcome (links * tailq) :=
  m ← wr_loc m (Next elm) None;
  m ← wr_pprev m elm (tq_plast q);
  m ← wr_loc m (tq_plast q) (Some elm);
  Done (m, mktq (tq_head q) (Next elm)).

Definition tailq_remove m (q : tailq) elm : outcome (links * tailq) :=
  n ← rd_loc m (Next elm);
  p ← rd_pprev m elm;
  m ← wr_pprev_opt m n p;
  let q := match n with Some _ => q | None => mktq (tq_head q) p end in
  p ← rd_pprev m elm;
  n ← rd_loc m (Next elm);
  m ← wr_loc m p n;
  Done (m, q).
End list.

(** ** What is written and what is read *)
Section memory.
Implicit Types (m : links) (l : loc) (e x : positive).

Lemma get_put m l v l' : is_Some (get m l) -> get (put m l v) l' = if decide (l = l') then Some v else get m l'.
Proof.
  destruct l as [a i|e], l' as [a' i'|e']; cbn [get put lk_arr lk_ent]; intros [w Hw].
  - destruct (decide (a = a')) as [<-|Ha].
    + rewrite lookup_alter_eq. destruct (lk_arr m !! a) as [L|] eqn:E; [|done]. cbn in *. destruct (decide (i = i')) as [<-|Hi].
      * rewrite decide_True by done. apply list_lookup_insert_eq. by apply lookup_lt_Some in Hw.
      * rewrite decide_False by congruence. by apply list_lookup_insert_ne.
    + rewrite lookup_alter_ne by done. by rewrite decide_False by congruence.
  - by rewrite decide_False by done.
  - by rewrite decide_False by done.
  - destruct (decide (e = e')) as [<-|He].
    + rewrite lookup_alter_eq. destruct (lk_ent m !! e); [|done]. by rewrite decide_True.
    + rewrite lookup_alter_ne by done. by rewrite decide_False by congruence.
Qed.
Lemma getp_put m l v e : getp (put m l v) e = getp m e.
Proof.
  destruct l as [a i|e']; unfold getp; cbn [put lk_ent]; [done|]. destruct (decide (e' = e)) as [<-|]; [|by rewrite lookup_alter_ne].
  rewrite lookup_alter_eq. by destruct (lk_ent m !! e').
Qed.
Lemma get_putp m e p l : get (putp m e p) l = get m l.
Proof.
  destruct l as [a i|e']; cbn [get putp lk_arr lk_ent]; [done|]. destruct (decide (e = e')) as [<-|]; [|by rewrite lookup_alter_ne].
  rewrite lookup_alter_eq. by destruct (lk_ent m !! e).
Qed.
Lemma getp_putp m e p e' : is_Some (getp m e) -> getp (putp m e p) e' = if decide (e = e') then Some p else getp m e'.
Proof.
  unfold getp, putp. cbn [lk_ent]. intros [w Hw]. destruct (decide (e = e')) as [<-|]; [|by rewrite lookup_alter_ne].
  rewrite lookup_alter_eq. by destruct (lk_ent m !! e).
Qed.
Lemma getp_get m e : is_Some (getp m e) <-> is_Some (get m (Next e)).
Proof. unfold getp. cbn [get]. by rewrite !fmap_is_Some. Qed.

(** [m'] differs from [m] in the pointers [W] and the [pprev] of [P] at most;
    the same things are allocated. *)
Record frame (W : loc -> Prop) (P : positive -> Prop) m m' : Prop := {
  fr_get l : ~ W l -> get m' l = get m l;
  fr_getp e : ~ P e -> getp m' e = getp m e;
  fr_dom : dom (lk_ent m') = dom (lk_ent m);
  fr_arr a : length <$> lk_arr m' !! a = length <$> lk_arr m !! a
}.
Lemma frame_put W P m l v : is_Some (get m l) -> W l -> frame W P m (put m l v).
Proof.
  intros Hl Wl. split.
  - intros l' Hn. rewrite get_put by done. case_decide; [by subst|done].
  - intros. apply getp_put.
  - destruct l; cbn [put lk_ent]; [done|]. apply dom_alter_L.
  - intros a. destruct l as [b i|]; cbn [put lk_arr]; [|done]. destruct (decide (b = a)) as [<-|]; [|by rewrite lookup_alter_ne].
    rewrite lookup_alter_eq. destruct (lk_arr m !! b); [|done]. cbn. by rewrite length_insert.
Qed.
Lemma frame_putp W (P : positive -> Prop) m e p : is_Some (getp m e) -> P e -> frame W P m (putp m e p).
Proof.
  intros He Pe. split.
  - intros. apply get_putp.
  - intros e' Hn. rewrite getp_putp by done. case_decide; [by subst|done].
  - cbn [putp lk_ent]. apply dom_alter_L.
  - done.
Qed.
Lemma frame_refl W P m : frame W P m m.
Proof. by split. Qed.
Lemma frame_trans W P m1 m2 m3 : frame W P m1 m2 -> frame W P m2 m3 -> frame W P m1 m3.
Proof.
  intros F1 F2. split.
  - intros. by rewrite (fr_get _ _ _ _ F2), (fr_get _ _ _ _ F1).
  - intros. by rewrite (fr_getp _ _ _ _ F2), (fr_getp _ _ _ _ F1).
  - by rewrite (fr_dom _ _ _ _ F2), (fr_dom _ _ _ _ F1).
  - intros. by rewrite (fr_arr _ _ _ _ F2), (fr_arr _ _ _ _ F1).
Qed.
Lemma frame_weaken (W W' : loc -> Prop) (P P' : positive -> Prop) m m' : (forall l, W l -> W' l) -> (forall e, P e -> P' e) -> frame W P m m' -> frame W' P' m m'.
Proof. intros HW HP []. split; eauto. Qed.

(** ** Chains *)
Fixpoint chain m l (xs : list positive) : Prop :=
  match xs with
  | [] => get m l = Some None
  | x :: xs => get m l = Some (Some x) /\ getp m x = Some l /\ chain m (Next x) xs
  end.

Lemma chain_frame W (P : positive -> Prop) m m' xs : forall l, frame W P m m' -> ~ W l -> Forall (fun x => ~ W (Next x) /\ ~ P x) xs -> chain m l xs -> chain m' l xs.
Proof.
  induction xs as [|x xs IH]; intros l F Hl Hx; cbn [chain]; [by rewrite (fr_get _ _ _ _ F)|]. apply Forall_cons in Hx as [[H1 H2] Hx]. intros (E1 & E2 & C).
  rewrite (fr_get _ _ _ _ F), (fr_getp _ _ _ _ F) by done. split_and!; [done|done|]. by apply IH.
Qed.
Lemma chain_alloc m xs : forall l, chain m l xs -> Forall (fun x => is_Some (getp m x)) xs.
Proof. induction xs as [|x xs IH]; intros l; [constructor|]. cbn [chain]. intros (_ & E & C). constructor; [by rewrite E|by eapply IH]. Qed.
Lemma chain_get m l xs : chain m l xs -> get m l = Some (head xs).
Proof. destruct xs; [done|]. by intros [E _]. Qed.
(** A chain leads to one list of elements. *)
Lemma chain_fun m xs : forall ys l, chain m l xs -> chain m l ys -> xs = ys.
Proof.
  induction xs as [|x xs IH]; intros [|y ys] l; cbn [chain]; [done|intros E (E' & _); congruence|intros (E' & _) E; congruence|].
  intros (E1 & _ & C1) (E2 & _ & C2). assert (x = y) by congruence. subst y. f_equal. by eapply IH.
Qed.
(** The pointer behind a prefix of a chain *)
Definition last_loc l (xs : list positive) : loc := match last xs with Some x => Next x | None => l end.
Lemma last_loc_cons l x xs : last_loc l (x :: xs) = last_loc (Next x) xs.
Proof. unfold last_loc. destruct xs as [|y xs]; [done|]. change (last (x :: y :: xs)) with (last (y :: xs)). by destruct (last (y :: xs)) eqn:E; [|apply last_None in E]. Qed.
Lemma chain_app m xs ys : forall l, chain m l (xs ++ ys) <-> chain (m) l (xs ++ ys) /\ chain m (last_loc l xs) ys.
Proof.
  induction xs as [|x xs IH]; intros l; cbn [app]; [cbn; tauto|]. rewrite last_loc_cons. cbn [chain]. rewrite (IH (Next x)). tauto.
Qed.

(** ** Insertion *)
(** [x] has become the first element of what [l] pointed to. *)
Record pushed m m' l x (f : elt) : Prop := {
  pu_l : get m' l = Some (Some x);
  pu_x : get m' (Next x) = Some f;
  pu_p : getp m' x = Some l;
  pu_f y : f = Some y -> getp m' y = Some (Next x);
  pu_frame : frame (fun l' => l' = l \/ l' = Next x) (fun z => z = x \/ f = Some z) m m'
}.
Lemma chain_pushed m m' l x xs : pushed m m' l x (head xs) -> chain m l xs -> NoDup (x :: xs) -> l <> Next x -> Forall (fun y => l <> Next y) xs -> chain m' l (x :: xs).
Proof.
  intros [H1 H2 H3 H4 F] C ND Hl Hls. cbn [chain]. split_and!; [done|done|]. destruct xs as [|y xs]; [done|]. cbn [chain head] in *. destruct C as (_ & _ & C).
  apply NoDup_cons in ND as [Nx ND]. apply NoDup_cons in ND as [Ny ND]. split_and!; [done|by apply H4|]. apply Forall_cons in Hls as [Hy Hls]. eapply chain_frame; [exact F| | |exact C].
  - intros [<-|[= ->]]; [done|]. by apply Nx; left.
  - rewrite Forall_forall in Hls |- *. intros z Hz. split; [intros [E|[= ->]]; [by apply (Hls z Hz)|apply Nx; by right]|intros [->|[= ->]]; [apply Nx; by right|done]].
Qed.
Lemma chain_pushed_other m m' l x f l' xs : pushed m m' l x f -> chain m l' xs -> l' <> l -> l' <> Next x -> x ∉ xs -> Forall (fun y => l <> Next y /\ f <> Some y) xs -> chain m' l' xs.
Proof.
  intros H C Hl Hx Nx Hf. eapply chain_frame; [exact (pu_frame _ _ _ _ _ H)| | |exact C]; [by intros [?|?]|]. rewrite Forall_forall in Hf |- *. intros y Hy. destruct (Hf y Hy). split.
  - intros [E|[= ->]]; [by apply H0|done].
  - intros [->|E]; [done|by apply H1].
Qed.

(** ** Removal *)
Record unlinked m m' x l (n : elt) : Prop := {
  un_l : get m' l = Some n;
  un_n y : n = Some y -> getp m' y = Some l;
  un_frame : frame (fun l' => l' = l) (fun z => n = Some z) m m'
}.
Lemma chain_unlinked m m' x ys xs : forall l, unlinked m m' x (last_loc l xs) (head ys) -> chain m l (xs ++ x :: ys) -> NoDup (xs ++ x :: ys) -> (forall y, y ∈ xs ++ x :: ys -> l <> Next y) -> chain m' l (xs ++ ys).
Proof.
  induction xs as [|y xs IH]; intros l H C ND Hl; cbn [app] in *.
  - destruct H as [H1 H2 F]. change (last_loc l []) with l in *. destruct ys as [|z ys]; [done|]. cbn [chain] in *. destruct C as (_ & _ & _ & _ & C). split_and!; [done|by apply H2|].
    apply NoDup_cons in ND as [Nx ND]. apply NoDup_cons in ND as [Ny ND]. eapply chain_frame; [exact F| | |exact C].
    + intros E. apply (Hl z); [right; left|by symmetry].
    + rewrite Forall_forall. intros w Hw. split; [|intros [= ->]; done]. intros E. apply (Hl w); [right; by right|by symmetry].
  - rewrite last_loc_cons in H. cbn [chain] in *. destruct C as (E1 & E2 & C). apply NoDup_cons in ND as [Ny ND].
    assert (Hll : last_loc (Next y) xs <> l).
    { unfold last_loc. destruct (last xs) as [w|] eqn:E; [|intros <-; apply (Hl y); [left|done]]. intros <-. apply (Hl w); [|done]. apply last_Some_elem_of in E. right. apply elem_of_app. by left. }
    split_and!.
    + rewrite (fr_get _ _ _ _ (un_frame _ _ _ _ _ H)); [done|]. by intros ->.
    + rewrite (fr_getp _ _ _ _ (un_frame _ _ _ _ _ H)); [done|]. destruct ys as [|z ys]; [done|]. intros [= ->]. apply Ny, elem_of_app. right. right. left.
    + apply IH; [done|done|done|]. intros w Hw [= ->]. done.
Qed.
Lemma chain_unlinked_other m m' x l n l' xs : unlinked m m' x l n -> chain m l' xs -> l' <> l -> Forall (fun y => l <> Next y /\ n <> Some y) xs -> chain m' l' xs.
Proof.
  intros H C Hl Hf. eapply chain_frame; [exact (un_frame _ _ _ _ _ H)|done| |exact C]. rewrite Forall_forall in Hf |- *. intros y Hy. destruct (Hf y Hy). split; [|done]. by intros <-.
Qed.
End memory.

(** ** The operations *)
Lemma rd_loc_ok m l v : get m l = Some v -> rd_loc m l = Done v.
Proof. unfold rd_loc. by intros ->. Qed.
Lemma wr_loc_ok m l v : is_Some (get m l) -> wr_loc m l v = Done (put m l v).
Proof. unfold wr_loc. by intros [? ->]. Qed.
Lemma rd_pprev_ok m e l : getp m e = Some l -> rd_pprev m e = Done l.
Proof. unfold rd_pprev. by intros ->. Qed.
Lemma wr_pprev_ok m e l : is_Some (getp m e) -> wr_pprev m e l = Done (putp m e l).
Proof. unfold wr_pprev. by intros [? ->]. Qed.

(** Reads of a memory after writes *)
Ltac mem_alloc := solve [eauto | apply getp_get; eauto | by (rewrite getp_get; eauto)].
Ltac mem_some := first [mem_alloc | rewrite get_putp; mem_some | rewrite getp_put; mem_some
  | (rewrite get_put by mem_some); case_decide; [eauto|mem_some] | (rewrite getp_putp by mem_some); case_decide; [eauto|mem_some]].
Ltac mem_read := repeat first [rewrite get_putp | rewrite getp_put | rewrite get_put by mem_some | rewrite getp_putp by mem_some].
Ltac mem_eq := mem_read; repeat first [rewrite decide_True by congruence | rewrite decide_False by congruence]; try congruence.
Ltac mem_step := first
  [ rewrite wr_loc_ok by mem_some | rewrite wr_pprev_ok by mem_some
  | erewrite rd_loc_ok by (mem_eq; eauto) | erewrite rd_pprev_ok by (mem_eq; eauto)]; cbn [mbind outcome_bind].
(** The frame of a few writes *)
Ltac mem_frame := repeat first
  [ apply frame_refl
  | match goal with
    | |- frame _ _ _ (put _ _ _) => eapply frame_trans; [|apply frame_put; [mem_some|naive_solver]]
    | |- frame _ _ _ (putp _ _ _) => eapply frame_trans; [|apply frame_putp; [mem_some|naive_solver]]
    end ].

Section ops.
Implicit Types (m : links) (l : loc) (a b e x : positive).

Lemma list_insert_head_ok m a x f : get m (Cell a 0) = Some f -> is_Some (getp m x) -> (forall y, f = Some y -> y <> x /\ is_Some (getp m y)) ->
  exists m', list_insert_head m a x = Done m' /\ pushed m m' (Cell a 0) x f.
Proof.
  intros Ef Hx Hf. pose proof (proj1 (getp_get m x) Hx) as Hx'. unfold list_insert_head. mem_step. mem_step. destruct f as [y|]; cbn [wr_pprev_opt].
  - destruct (Hf y eq_refl) as [Hyx Hy]. do 3 mem_step. eexists. split; [reflexivity|]. split; try mem_eq.
    + intros z [= <-]. mem_eq.
    + mem_frame.
  - cbn [mbind outcome_bind]. do 2 mem_step. eexists. split; [reflexivity|]. split; try mem_eq. mem_frame.
Qed.
Lemma list_remove_ok m x l n : getp m x = Some l -> get m (Next x) = Some n -> is_Some (get m l) -> l <> Next x -> (forall y, n = Some y -> y <> x /\ is_Some (getp m y)) ->
  exists m', list_remove m x = Done m' /\ unlinked m m' x l n.
Proof.
  intros Ep En Hl Hlx Hn. unfold list_remove. do 2 mem_step. destruct n as [y|]; cbn [wr_pprev_opt].
  - destruct (Hn y eq_refl) as [Hyx Hy]. do 4 mem_step. eexists. split; [reflexivity|]. split; try mem_eq.
    + intros z [= <-]. mem_eq.
    + mem_frame.
  - cbn [mbind outcome_bind]. do 3 mem_step. eexists. split; [reflexivity|]. split; try mem_eq. mem_frame.
Qed.
End ops.

(** ** Lists *)
(** The heads and the elements of all lists; no element is in two of them. *)
Record lists_ok (m : links) (L : gmap positive (list positive)) : Prop := {
  lo_chain a xs : L !! a = Some xs -> chain m (Cell a 0) xs;
  lo_nodup a xs : L !! a = Some xs -> NoDup xs;
  lo_disj a b xs ys x : L !! a = Some xs -> L !! b = Some ys -> x ∈ xs -> x ∈ ys -> a = b
}.

Lemma head_elem {A} (xs : list A) y : head xs = Some y -> y ∈ xs.
Proof. destruct xs; [done|]. intros [= ->]. left. Qed.
Lemma cell_next a i xs : Forall (fun y => Cell a i <> Next y) xs.
Proof. by apply Forall_true. Qed.

(** Insertion puts the element at the front, and leaves the other lists alone. *)
Theorem list_insert_head_spec m L a x xs : lists_ok m L -> L !! a = Some xs -> is_Some (getp m x) -> (forall b ys, L !! b = Some ys -> x ∉ ys) ->
  exists m', list_insert_head m a x = Done m' /\ lists_ok m' (<[a := x :: xs]> L).
Proof.
  intros [HC HN HD] Ha Hx Hn. pose proof (HC a xs Ha) as C. pose proof (chain_alloc _ _ _ C) as Al. rewrite Forall_forall in Al.
  destruct (list_insert_head_ok m a x (head xs)) as (m' & -> & Hp); [by apply chain_get|done| |].
  { intros y Hy%head_elem. split; [intros ->; by apply (Hn a xs Ha)|by apply Al]. }
  exists m'. split; [done|]. split.
  - intros b ys. rewrite lookup_insert_Some. intros [[<- <-]|[Hb Hys]].
    + eapply chain_pushed; [done|done| |done|apply cell_next]. constructor; [by apply (Hn a)|by apply (HN a)].
    + eapply chain_pushed_other; [done|by apply HC|congruence|done|by apply (Hn b)|]. rewrite Forall_forall. intros y Hy. split; [done|]. intros E%head_elem. apply Hb. by eapply HD.
  - intros b ys. rewrite lookup_insert_Some. intros [[<- <-]|[Hb Hys]]; [|by apply (HN b)]. constructor; [by apply (Hn a)|by apply (HN a)].
  - intros b c ys zs y. rewrite !lookup_insert_Some. intros [[<- <-]|[Hb Hys]] [[<- <-]|[Hc Hzs]]; try done.
    + intros [->|Hy]%elem_of_cons; [intros Hz; by destruct (Hn c zs Hzs)|]. intros Hz. by eapply HD.
    + intros Hy [->|Hz]%elem_of_cons; [by destruct (Hn b ys Hys)|]. by eapply HD.
    + by apply HD.
Qed.

(** Removal takes the element out of the list it is in. *)
Theorem list_remove_spec m L a x xs ys : lists_ok m L -> L !! a = Some (xs ++ x :: ys) ->
  exists m', list_remove m x = Done m' /\ lists_ok m' (<[a := xs ++ ys]> L).
Proof.
  intros [HC HN HD] Ha. pose proof (HC _ _ Ha) as C. pose proof (HN _ _ Ha) as ND. pose proof (chain_alloc _ _ _ C) as Al. rewrite Forall_forall in Al.
  pose proof (proj1 (chain_app _ _ _ _) C) as [_ (El & Ep & Cy)]. assert (Hne : last_loc (Cell a 0) xs <> Next x).
  { unfold last_loc. destruct (last xs) eqn:E; [|done]. intros [= ->]. apply last_Some_elem_of in E. apply NoDup_app in ND as (_ & ND & _). apply (ND x E). left. }
  destruct (list_remove_ok m x (last_loc (Cell a 0) xs) (head ys)) as (m' & -> & Hu); [done|by apply chain_get|by rewrite El|done| |].
  { intros y Hy%head_elem. apply NoDup_app in ND as (_ & _ & ND). apply NoDup_cons in ND as [N _]. split; [by intros ->|]. apply Al, elem_of_app. right. by right. }
  exists m'. split; [done|]. split.
  - intros b zs. rewrite lookup_insert_Some. intros [[<- <-]|[Hb Hzs]].
    + by eapply chain_unlinked.
    + eapply chain_unlinked_other; [done|by apply HC| |].
      * unfold last_loc. destruct (last xs); congruence.
      * rewrite Forall_forall. intros y Hy. split.
        -- unfold last_loc. destruct (last xs) as [w|] eqn:E; [|done]. intros [= ->]. apply last_Some_elem_of in E. apply Hb. eapply HD; [done|done| |done]. apply elem_of_app. by left.
        -- intros E%head_elem. apply Hb. eapply HD; [done|done| |done]. apply elem_of_app. right. by right.
  - intros b zs. rewrite lookup_insert_Some. intros [[<- <-]|[Hb Hzs]]; [|by apply (HN b)]. rewrite NoDup_app in ND |- *. destruct ND as (N1 & N2 & N3).
    apply NoDup_cons in N3 as [_ N3]. split_and!; [done| |done]. intros z Hz Hz'. apply (N2 z Hz). by right.
  - assert (Sub : forall z, z ∈ xs ++ ys -> z ∈ xs ++ x :: ys) by (intros z; rewrite !elem_of_app, elem_of_cons; tauto).
    intros b c zs ws y. rewrite !lookup_insert_Some. intros [[<- <-]|[Hb Hys]] [[<- <-]|[Hc Hzs]]; try done; intros H1 H2; eapply HD; eauto.
Qed.

(** Exchange of two lists *)
Theorem list_swap_spec m L a b xs ys : lists_ok m L -> L !! a = Some xs -> L !! b = Some ys -> a <> b ->
  exists m', list_swap m a b = Done m' /\ lists_ok m' (<[a := ys]> (<[b := xs]> L)).
Proof.
  intros [HC HN HD] Ha Hb Hab. pose proof (HC a xs Ha) as Ca. pose proof (HC b ys Hb) as Cb. pose proof (chain_get _ _ _ Ca) as Ga. pose proof (chain_get _ _ _ Cb) as Gb.
  unfold list_swap. mem_step. mem_step. mem_step.
  assert (Pa : forall y, head ys = Some y -> is_Some (getp m y)) by (intros y E; destruct ys; [done|]; injection E as ->; destruct Cb as (_ & E & _); by rewrite E).
  assert (Pb : forall y, head xs = Some y -> is_Some (getp m y)) by (intros y E; destruct xs; [done|]; injection E as ->; destruct Ca as (_ & E & _); by rewrite E).
  assert (Dj : forall y, y ∈ xs -> y ∈ ys -> False) by (intros y H1 H2; apply Hab; by eapply HD).
  assert (exists m', (m0 ← wr_pprev_opt (put m (Cell a 0) (head ys)) (head ys) (Cell a 0); m0 ← wr_loc m0 (Cell b 0) (head xs); wr_pprev_opt m0 (head xs) (Cell b 0)) = Done m'
    /\ get m' (Cell a 0) = Some (head ys) /\ get m' (Cell b 0) = Some (head xs) /\ (forall y, head ys = Some y -> getp m' y = Some (Cell a 0)) /\ (forall y, head xs = Some y -> getp m' y = Some (Cell b 0))
    /\ frame (fun l => l = Cell a 0 \/ l = Cell b 0) (fun z => head ys = Some z \/ head xs = Some z) m m') as (m' & -> & G1 & G2 & G3 & G4 & F).
  { destruct xs as [|x xs], ys as [|y ys]; cbn [head wr_pprev_opt mbind outcome_bind] in *.
    - mem_step. eexists. split; [reflexivity|]. split_and!; try mem_eq; try done. mem_frame.
    - specialize (Pa y eq_refl). do 2 mem_step. eexists. split; [reflexivity|]. split_and!; try mem_eq; try done; [intros z [= <-]; mem_eq|]. mem_frame.
    - specialize (Pb x eq_refl). do 2 mem_step. eexists. split; [reflexivity|]. split_and!; try mem_eq; try done; [intros z [= <-]; mem_eq|]. mem_frame.
    - specialize (Pa y eq_refl). specialize (Pb x eq_refl). assert (x <> y) by (intros ->; apply (Dj y); left). do 3 mem_step. eexists. split; [reflexivity|].
      split_and!; try mem_eq; try done; try (intros z [= <-]; mem_eq). mem_frame. }
  exists m'. split; [done|].
  assert (Rest : forall (l : loc) (zs : list positive), match zs with [] => True | z :: zs' => chain m (Next z) zs' /\ NoDup zs /\ (forall w, w ∈ zs' -> head xs <> Some w /\ head ys <> Some w) end ->
    get m' l = Some (head zs) -> (forall z, head zs = Some z -> getp m' z = Some l) -> chain m' l zs).
  { intros l [|z zs]; cbn [chain head]; [done|]. intros (C & ND & Hh) G Gp. split_and!; [done|by apply Gp|]. eapply chain_frame; [exact F|by intros [?|?]| |exact C].
    rewrite Forall_forall. intros w Hw. destruct (Hh w Hw). split; [by intros [?|?]|tauto]. }
  split.
  - intros c zs. rewrite !lookup_insert_Some. intros [[<- <-]|[Hc [[<- <-]|[Hc' Hzs]]]].
    + apply Rest; [|done|done]. destruct ys as [|y ys]; [done|]. pose proof (HN _ _ Hb) as ND. split_and!; [apply Cb|done|]. intros w Hw. split.
      * intros E%head_elem. apply (Dj w E). by right.
      * intros [= ->]. by apply NoDup_cons in ND as [? _].
    + apply Rest; [|done|done]. destruct xs as [|x xs]; [done|]. pose proof (HN _ _ Ha) as ND. split_and!; [apply Ca|done|]. intros w Hw. split.
      * intros [= ->]. by apply NoDup_cons in ND as [? _].
      * intros E%head_elem. apply (Dj w); [by right|done].
    + eapply chain_frame; [exact F|intros [?|?]; congruence| |by apply HC]. rewrite Forall_forall. intros w Hw. split; [by intros [?|?]|]. intros [E|E]; apply head_elem in E; [apply Hc'|apply Hc]; by eapply HD.
  - intros c zs. rewrite !lookup_insert_Some. intros [[<- <-]|[Hc [[<- <-]|[Hc' Hzs]]]]; eauto.
  - intros c d zs ws y. rewrite !lookup_insert_Some. intros [[<- <-]|[Hc [[<- <-]|[Hc' Hzs]]]] [[<- <-]|[Hd [[<- <-]|[Hd' Hws]]]] H1 H2; try done; try (exfalso; by eapply Dj).
    + exfalso. apply Hd'. by eapply HD.
    + exfalso. apply Hd. by eapply HD.
    + exfalso. apply Hc'. by eapply HD.
    + exfalso. apply Hc. by eapply HD.
    + by eapply HD.
Qed.

(** ** Traversal *)
(** Elements of a chain are allocated, so there are not more than that. *)
Lemma alloc_length m xs : NoDup xs -> Forall (fun x => is_Some (getp m x)) xs -> (length xs <= size (lk_ent m))%nat.
Proof.
  intros ND Al. rewrite <- size_dom, <- (size_list_to_set (C := gset positive) xs ND). apply subseteq_size. intros x Hx. apply elem_of_list_to_set in Hx.
  rewrite Forall_forall in Al. apply Al in Hx. unfold getp in Hx. rewrite fmap_is_Some in Hx. by apply elem_of_dom.
Qed.

(** A walk calls back for each element in turn.  [I s xs]: the state before the
    elements [xs] are visited; the callback may take its element away. *)
Lemma list_walk_spec {S} (lk : S -> links) cb (I : S -> list positive -> Prop) :
  (forall s x xs, I s (x :: xs) -> get (lk s) (Next x) = Some (head xs) /\ exists s', cb s x = Done s' /\ I s' xs) ->
  forall xs n s, I s xs -> (length xs <= n)%nat -> exists s', list_walk n lk cb s (head xs) = Done s' /\ I s' [].
Proof.
  intros Hcb xs. induction xs as [|x xs IH]; intros n s Hs Hn; [exists s; by destruct n|]. destruct n as [|n]; [cbn in Hn; lia|]. cbn [list_walk head].
  destruct (Hcb s x xs Hs) as (Hg & s' & E & Hs'). rewrite (rd_loc_ok _ _ _ Hg). cbn [mbind outcome_bind]. rewrite E. cbn [mbind outcome_bind]. apply IH; [done|]. cbn in Hn. lia.
Qed.

(** A callback that removes its element from the list and keeps it: every
    element is seen once, in order, and the list is empty afterwards. *)
Theorem list_traverse_remove m L a xs : lists_ok m L -> L !! a = Some xs ->
  exists m', list_traverse fst (fun '(m, seen) x => m ← list_remove m x; Done (m, seen ++ [x])) (m, []) a = Done (m', xs) /\ lists_ok m' (<[a := []]> L).
Proof.
  intros HL Ha. pose proof (lo_chain _ _ HL _ _ Ha) as C. unfold list_traverse. cbn [fst]. rewrite (rd_loc_ok _ _ _ (chain_get _ _ _ C)). cbn [mbind outcome_bind].
  set (I := fun (s : links * list positive) (ys : list positive) => lists_ok s.1 (<[a := ys]> L) /\ s.2 ++ ys = xs).
  destruct (list_walk_spec fst (fun '(m, seen) x => m ← list_remove m x; Done (m, seen ++ [x])) I) with (xs := xs) (n := size (lk_ent m)) (s := (m, @nil positive)) as ([m' seen] & E & [H1 H2]).
  - intros [m0 seen] x ys [H1 H2]. cbn [fst snd] in *. assert (Hx : <[a := x :: ys]> L !! a = Some ([] ++ x :: ys)) by apply lookup_insert_eq.
    split; [|].
    + pose proof (lo_chain _ _ H1 _ _ Hx) as (_ & _ & C'). by apply chain_get.
    + destruct (list_remove_spec m0 _ a x [] ys H1 Hx) as (m1 & E1 & H1'). exists (m1, seen ++ [x]). rewrite E1. split; [done|]. cbn [app] in H1'. rewrite insert_insert_eq in H1'. split; [done|].
      cbn [snd]. by rewrite <- app_assoc.
  - split; [|done]. cbn [fst]. by rewrite insert_id.
  - apply alloc_length; [by eapply lo_nodup|by eapply chain_alloc].
  - exists m'. cbn [fst snd] in *. rewrite app_nil_r in H2. subst seen. done.
Qed.

(** ** Queues *)
Record tailq_ok (m : links) (q : tailq) (xs : list positive) : Prop := {
  tk_chain : chain m (Cell (tq_head q) 0) xs;
  tk_nodup : NoDup xs;
  tk_plast : tq_plast q = last_loc (Cell (tq_head q) 0) xs
}.

Lemma last_loc_snoc l xs x : last_loc l (xs ++ [x]) = Next x.
Proof. unfold last_loc. by rewrite last_snoc. Qed.
Lemma chain_snoc m m' x xs : forall l, chain m l xs -> get m' (last_loc l xs) = Some (Some x) -> get m' (Next x) = Some None -> getp m' x = Some (last_loc l xs) ->
  frame (fun l' => l' = last_loc l xs \/ l' = Next x) (fun z => z = x) m m' -> NoDup (xs ++ [x]) -> l <> Next x -> (forall y, y ∈ xs -> l <> Next y) -> chain m' l (xs ++ [x]).
Proof.
  induction xs as [|y xs IH]; intros l C G1 G2 G3 F ND Hl Hls; cbn [app chain] in *; [done|]. destruct C as (E1 & E2 & C). rewrite last_loc_cons in *. apply NoDup_cons in ND as [Ny ND].
  assert (Hll : last_loc (Next y) xs <> l).
  { unfold last_loc. destruct (last xs) as [w|] eqn:E; [apply last_Some_elem_of in E; intros <-; apply (Hls w); [by right|done]|]. intros <-. apply (Hls y); [left|done]. }
  split_and!.
  - rewrite (fr_get _ _ _ _ F); [done|]. by intros [-> | ->].
  - rewrite (fr_getp _ _ _ _ F); [done|]. intros ->. apply Ny, elem_of_app. right. left.
  - apply IH; try done; [|by intros w Hw [= ->]; apply Ny, elem_of_app; left]. intros [= ->]. apply Ny, elem_of_app. right. left.
Qed.

(** Insertion at both ends and removal keep the queue and the pointer to its end. *)
Lemma tailq_insert_head_spec m q xs x : tailq_ok m q xs -> is_Some (getp m x) -> x ∉ xs ->
  exists m' q', tailq_insert_head m q x = Done (m', q') /\ tailq_ok m' q' (x :: xs).
Proof.
  intros [C ND Pl]. destruct q as [h pl]. cbn [tq_head tq_plast] in *. pose proof (chain_alloc _ _ _ C) as Al. rewrite Forall_forall in Al. intros Hx Nx.
  destruct (list_insert_head_ok m h x (head xs)) as (m' & E & Hp); [by apply chain_get|done|by intros y Hy%head_elem; split; [intros ->|apply Al]|].
  assert (C' : chain m' (Cell h 0) (x :: xs)) by (eapply chain_pushed; [done|done|by constructor|done|apply cell_next]).
  unfold list_insert_head in E. unfold tailq_insert_head. cbn [tq_head]. revert E. destruct (rd_loc m _) as [f| | |] eqn:Ef; try done. cbn [mbind outcome_bind].
  rewrite (rd_loc_ok _ _ _ (chain_get _ _ _ C)) in Ef. injection Ef as <-. destruct (wr_loc m _ _) as [m1| | |]; try done. cbn [mbind outcome_bind].
  destruct (wr_pprev_opt _ _ _) as [m2| | |]; try done. cbn [mbind outcome_bind]. replace (tq_head (match head xs with Some _ => mktq h pl | None => mktq h (Next x) end)) with h by (by destruct (head xs)).
  destruct (wr_loc m2 _ _) as [m3| | |]; try done. cbn [mbind outcome_bind]. intros ->. cbn [mbind outcome_bind]. exists m'. eexists. split; [reflexivity|].
  destruct xs as [|y xs]; cbn [head]; (split; cbn [tq_head tq_plast]; [done|by constructor|]); [done|]. by rewrite last_loc_cons, Pl, !last_loc_cons.
Qed.
Lemma tailq_insert_tail_spec m q xs x : tailq_ok m q xs -> is_Some (getp m x) -> x ∉ xs ->
  exists m' q', tailq_insert_tail m q x = Done (m', q') /\ tailq_ok m' q' (xs ++ [x]).
Proof.
  intros [C ND Pl]. destruct q as [h pl]. cbn [tq_head tq_plast] in *. pose proof (chain_alloc _ _ _ C) as Al. rewrite Forall_forall in Al. intros Hx Nx.
  pose proof (proj1 (getp_get m x) Hx) as Hx'. assert (Hl : is_Some (get m pl)).
  { pose proof (proj1 (chain_app m xs [] (Cell h 0)) ltac:(by rewrite app_nil_r)) as [_ G]. rewrite Pl. cbn [chain] in G. by rewrite G. }
  assert (Hpx : pl <> Next x) by (rewrite Pl; unfold last_loc; destruct (last xs) eqn:E; [|done]; intros [= ->]; by apply Nx, last_Some_elem_of).
  unfold tailq_insert_tail. cbn [tq_plast tq_head]. do 3 mem_step. eexists _, _. split; [reflexivity|]. split; cbn [tq_head tq_plast].
  - apply (chain_snoc m); rewrite <- ?Pl; try done; try mem_eq; [mem_frame|].
    apply NoDup_app. split_and!; [done| |apply NoDup_singleton]. intros y Hy ->%list_elem_of_singleton. done.
  - apply NoDup_app. split_and!; [done| |apply NoDup_singleton]. intros y Hy ->%list_elem_of_singleton. done.
  - by rewrite last_loc_snoc.
Qed.
Lemma tailq_remove_spec m q x ys zs : tailq_ok m q (ys ++ x :: zs) ->
  exists m' q', tailq_remove m q x = Done (m', q') /\ tailq_ok m' q' (ys ++ zs).
Proof.
  intros [C ND Pl]. destruct q as [h pl]. cbn [tq_head tq_plast] in *. pose proof (chain_alloc _ _ _ C) as Al. rewrite Forall_forall in Al.
  pose proof (proj1 (chain_app _ _ _ _) C) as [_ (El & Ep & Cy)]. assert (Hne : last_loc (Cell h 0) ys <> Next x).
  { unfold last_loc. destruct (last ys) eqn:E; [|done]. intros [= ->]. apply last_Some_elem_of in E. apply NoDup_app in ND as (_ & N & _). apply (N x E). left. }
  destruct (list_remove_ok m x (last_loc (Cell h 0) ys) (head zs)) as (m' & E & Hu); [done|by apply chain_get|by rewrite El|done| |].
  { intros y Hy%head_elem. pose proof (proj1 (NoDup_app _ _) ND) as (_ & _ & N). apply NoDup_cons in N as [N _]. split; [by intros ->|]. apply Al, elem_of_app. right. by right. }
  assert (C' : chain m' (Cell h 0) (ys ++ zs)) by (by eapply chain_unlinked).
  unfold list_remove in E. unfold tailq_remove. rewrite (rd_loc_ok _ _ _ (chain_get _ _ _ Cy)), (rd_pprev_ok _ _ _ Ep) in E |- *. cbn [mbind outcome_bind] in *.
  destruct (wr_pprev_opt _ _ _) as [m1| | |]; try done. cbn [mbind outcome_bind] in *. destruct (rd_pprev m1 x) as [p| | |]; try done. cbn [mbind outcome_bind] in *.
  destruct (rd_loc m1 (Next x)) as [n| | |]; try done. cbn [mbind outcome_bind] in *. rewrite E. cbn [mbind outcome_bind]. exists m'. eexists. split; [reflexivity|].
  assert (ND' : NoDup (ys ++ zs)).
  { rewrite NoDup_app in ND |- *. destruct ND as (N1 & N2 & N3). apply NoDup_cons in N3 as [_ N3]. split_and!; [done| |done]. intros z Hz Hz'. apply (N2 z Hz). by right. }
  destruct zs as [|z zs]; cbn [head]; (split; cbn [tq_head tq_plast]; [done|done|]); [by rewrite app_nil_r|]. rewrite Pl. unfold last_loc. rewrite !last_app. by rewrite !last_cons_cons.
Qed.
