(* ===== verification/Ihash.v ===== *)
(** * Intrusive hash tables: [async/ihash.h], [async/ihash.C], [async/keyfunc.h]

    The table is an array of chains of elements, on the memory of [Links.v]; the
    third field of the link, the hash value, is in a map of its own.  [New]
    gives an address that is not in use.  The checks under [IHASH_DEBUG] are
    compiled only with the debugging allocator and are not modelled. *)
From Stdlib Require Import ZArith Lia.
From stdpp Require Import prelude gmap.
From S2P Require Import Prelude Bits Links.

(** ** Keys: [keyfunc.h] *)
(** [hashfn<K>] and [equals<K>] *)
Class HashKey (K : Type) := {
  hash : K -> Z;
  eqk : K -> K -> bool
}.
(** What a table relies on *)
Class HashKeyOK (K : Type) `{!HashKey K} : Prop := {
  hash_range k : 0 <= hash k < 2 ^ 32;
  eqk_refl k : eqk k k = true;
  eqk_sym k k' : eqk k k' = true -> eqk k' k = true;
  eqk_trans k1 k2 k3 : eqk k1 k2 = true -> eqk k2 k3 = true -> eqk k1 k3 = true;
  eqk_hash k k' : eqk k k' = true -> hash k = hash k'
}.

Definition HASHSEED : Z := 5381.
Definition hash_bytes (key : list Z) (seed : Z) : Z := foldl (fun seed b => u32 ((u32 (seed .<< 5) + seed) .^ b)) seed key.
(** up to the terminating NUL, which is outside of [p] *)
Fixpoint hash_string (p : list Z) (v : Z) : Z := match p with [] => v | c :: p => if c =? 0 then v else hash_string p (u32 ((33 * v) .^ c)) end.
(** A shift by the width of the word is undefined. *)
Definition hash_rotate (val rot : Z) : outcome Z :=
  let rot := rot mod 32 in
  if rot =? 0 then Wild else Done (u32 (val .<< rot) .| (val .>> (32 - rot))).
Definition hash2fn (h1 h2 : Z) : Z := u32 (h1 .^ h2).

(** Integers, strings and pairs of keys *)
#[export] Instance int_key : HashKey Z := {| hash := u32; eqk := Z.eqb |}.
#[export] Instance str_key : HashKey (list Z) := {| hash s := hash_bytes s HASHSEED; eqk a b := bool_decide (a = b) |}.
#[export] Instance pair_key {K1 K2} `{!HashKey K1} `{!HashKey K2} : HashKey (K1 * K2) :=
  {| hash k := hash2fn (hash k.1) (hash k.2); eqk a b := eqk a.1 b.1 && eqk a.2 b.2 |}.

(** ** Tables *)
Record ihash_table := mkht { buckets : Z; entries : Z; tab : option positive }.
Record hmem := mkhm { hm_links : links; hm_val : gmap positive Z }.

Definition exp2primes : list Z :=
  [0x1; 0x2; 0x3; 0x7; 0xd; 0x1f; 0x3d; 0x7f; 0xfb; 0x1fd; 0x3fd; 0x7f7; 0xffd; 0x1fff; 0x3ffd; 0x7fed; 0xfff1;
   0x1ffff; 0x3fffb; 0x7ffff; 0xffffd; 0x1ffff7; 0x3ffffd; 0x7ffff1; 0xfffffd; 0x1ffffd9; 0x3fffffb; 0x7ffffd9; 0xfffffc7;
   0x1ffffffd; 0x3fffffdd; 0x7fffffff; 0xfffffffb].

Section table.
Context (New : gset positive -> positive).
Implicit Types (m : hmem) (t : ihash_table) (elm : positive).

Definition rd_val m elm : outcome Z := match hm_val m !! elm with Some v => Done v | None => Wild end.
Definition set_links m (l : links) : hmem := mkhm l (hm_val m).
(** [t.tab[i]] *)
Definition slot t (i : Z) : outcome loc := match tab t with Some a => Done (Cell a (Z.to_nat i)) | None => Wild end.

(** The body of the loop of [_ihash_grow]: [p] becomes the first of [ntab[ni]]. *)
Definition grow_link (l : links) (ni : loc) (p : positive) : outcome links :=
  c ← rd_loc l ni;
  l ← wr_loc l (Next p) c;
  l ← wr_pprev l p ni;
  c ← rd_loc l ni;
  l ← wr_pprev_opt l c (Next p);
  wr_loc l ni (Some p).
(** [for (p = htp->tab[i]; p; p = np)] *)
Fixpoint grow_chain (n : nat) m (ntab : positive) (nbuckets : Z) (p : elt) : outcome hmem :=
  match n, p with
  | _, None => Done m
  | O, Some _ => Spin
  | S n, Some x =>
      v ← rd_val m x;
      let ni := Cell ntab (Z.to_nat (v mod nbuckets)) in
      np ← rd_loc (hm_links m) (Next x);
      l ← grow_link (hm_links m) ni x;
      grow_chain n (set_links m l) ntab nbuckets np
  end.
(** [for (i = 0; i < htp->buckets; i++)], [k] buckets from [i] on *)
Fixpoint grow_buckets (k i : nat) m (otab ntab : positive) (nbuckets : Z) : outcome hmem :=
  match k with
  | O => Done m
  | S k =>
      p ← rd_loc (hm_links m) (Cell otab i);
      m ← grow_chain (size (lk_ent (hm_links m))) m ntab nbuckets p;
      grow_buckets k (S i) m otab ntab nbuckets
  end.
Definition delete_arr m (a : option positive) : hmem :=
  match a with
  | Some a => set_links m (mklk (delete a (lk_arr (hm_links m))) (lk_ent (hm_links m)))
  | None => m
  end.
Definition _ihash_grow m t : outcome (hmem * ihash_table) :=
  nb ← rd exp2primes (log2c64 (buckets t) + 1);
  let nbuckets := if nb <? 3 then 3 else nb in
  let ntab := New (dom (lk_arr (hm_links m))) in
  let m := set_links m (mklk (<[ntab := replicate (Z.to_nat nbuckets) None]> (lk_arr (hm_links m))) (lk_ent (hm_links m))) in
  m ← match tab t with Some otab => grow_buckets (Z.to_nat (buckets t)) 0 m otab ntab nbuckets | None => if buckets t =? 0 then Done m else Wild end;
  Done (delete_arr m (tab t), mkht nbuckets (entries t) (Some ntab)).

Definition ihash_init m : outcome (hmem * ihash_table) := _ihash_grow m (mkht 0 0 None).

(** The end of [insert_val]: [elm] becomes the first of [t.tab[bn]]. *)
Definition insert_link (l : links) (bn : loc) elm : outcome links :=
  np ← rd_loc l bn;
  l ← wr_pprev_opt l np (Next elm);
  l ← wr_loc l (Next elm) np;
  l ← wr_pprev l elm bn;
  wr_loc l bn (Some elm).
(** A remainder modulo zero is an arithmetic exception. *)
Definition insert_val m t elm (hval : Z) : outcome (hmem * ihash_table) :=
  let t := mkht (buckets t) (u64 (entries t + 1)) (tab t) in
  x ← (if buckets t <=? entries t then _ihash_grow m t else Done (m, t));
  let '(m, t) := x : hmem * ihash_table in
  let m := mkhm (hm_links m) (<[elm := hval]> (hm_val m)) in
  assertM (negb (buckets t =? 0)) ;;
  bn ← slot t (hval mod buckets t);
  l ← insert_link (hm_links m) bn elm;
  Done (set_links m l, t).

(** [elm && elm->val != hval; elm = elm->next] *)
Fixpoint lookup_from (n : nat) m (hval : Z) (p : elt) : outcome elt :=
  match n, p with
  | _, None => Done None
  | O, Some _ => Spin
  | S n, Some x =>
      v ← rd_val m x;
      if v =? hval then Done (Some x)
      else np ← rd_loc (hm_links m) (Next x); lookup_from n m hval np
  end.
Definition turns m : nat := S (size (lk_ent (hm_links m))).
Definition lookup_val m t (hval : Z) : outcome elt :=
  assertM (negb (buckets t =? 0)) ;;
  bn ← slot t (hval mod buckets t);
  p ← rd_loc (hm_links m) bn;
  lookup_from (turns m) m hval p.
Definition next_val m elm : outcome elt :=
  hval ← rd_val m elm;
  p ← rd_loc (hm_links m) (Next elm);
  lookup_from (turns m) m hval p.

(** [for (e = lookup_val (val); e; e = next_val (e)) if (e == elm)] *)
Fixpoint present_from (n : nat) m (elm : positive) (e : elt) : outcome bool :=
  match n, e with
  | _, None => Done false
  | O, Some _ => Spin
  | S n, Some x => if bool_decide (x = elm) then Done true else e ← next_val m x; present_from n m elm e
  end.
Definition present m t elm : outcome bool :=
  v ← rd_val m elm;
  e ← lookup_val m t v;
  present_from (turns m) m elm e.

Definition ihash_remove m t elm : outcome (hmem * ihash_table) :=
  let t := mkht (buckets t) (u64 (entries t - 1)) (tab t) in
  l ← list_remove (hm_links m) elm;
  Done (set_links m l, t).

(** [for (; i < t.buckets; i++) if (t.tab[i])], [k] buckets from [i] on *)
Fixpoint first_from (k : nat) (i : Z) m t : outcome elt :=
  match k with
  | O => Done None
  | S k =>
      l ← slot t i;
      p ← rd_loc (hm_links m) l;
      match p with Some x => Done (Some x) | None => first_from k (i + 1) m t end
  end.
Definition ihash_first m t : outcome elt := if entries t =? 0 then Done None else first_from (Z.to_nat (buckets t)) 0 m t.
Definition ihash_next m t (n : positive) : outcome elt :=
  p ← rd_loc (hm_links m) (Next n);
  match p with
  | Some x => Done (Some x)
  | None =>
      v ← rd_val m n;
      assertM (negb (buckets t =? 0)) ;;
      let i := v mod buckets t in
      first_from (Z.to_nat (buckets t - (i + 1))) (i + 1) m t
  end.

(** [traverse]: memory and table are read again after each callback, which may
    change them.  The budget is enough if the number of buckets stays the
    same. *)
Section traverse.
Context {S : Type} (mem : S -> hmem) (tbl : S -> ihash_table) (cb : S -> positive -> outcome S).
Fixpoint traverse_buckets (k : nat) (i : Z) (s : S) : outcome S :=
  if i <? buckets (tbl s) then
    match k with
    | O => Spin
    | Datatypes.S k =>
        l ← slot (tbl s) i;
        p ← rd_loc (hm_links (mem s)) l;
        s ← list_walk (size (lk_ent (hm_links (mem s)))) (fun s => hm_links (mem s)) cb s p;
        traverse_buckets k (i + 1) s
    end
  else Done s.
Definition ihash_traverse (s : S) : outcome S := traverse_buckets (Z.to_nat (buckets (tbl s))) 0 s.
End traverse.

(** [delete n] *)
Definition delete_elm m elm : outcome hmem :=
  match lk_ent (hm_links m) !! elm with
  | Some _ => Done (mkhm (mklk (lk_arr (hm_links m)) (delete elm (lk_ent (hm_links m)))) (delete elm (hm_val m)))
  | None => Wild
  end.
Definition ihash_clear m t : outcome (hmem * ihash_table) := ihash_init (delete_arr m (tab t)).
Definition ihash_deleteall m t : outcome (hmem * ihash_table) :=
  m ← ihash_traverse (fun m => m) (fun _ => t) delete_elm m;
  ihash_clear m t.

(** ** Keyed tables: [ihash], and with other ways to the key [ihash2], [shash] and [fhash] *)
Section keyed.
Context {K : Type} `{HK : !HashKey K} (key : positive -> K).

Definition ihash_insert m t elm : outcome (hmem * ihash_table) := insert_val m t elm (hash (key elm)).
(** [v && !eq (k, v->key); v = next_val (v)] *)
Fixpoint find_key (n : nat) m (k : K) (v : elt) : outcome elt :=
  match n, v with
  | _, None => Done None
  | O, Some _ => Spin
  | S n, Some x => if eqk k (key x) then Done (Some x) else v ← next_val m x; find_key n m k v
  end.
Definition ihash_lookup m t (k : K) : outcome elt :=
  v ← lookup_val m t (hash k);
  find_key (turns m) m k v.
Definition nextkeq m (v : positive) : outcome elt :=
  n ← next_val m v;
  find_key (turns m) m (key v) n.
End keyed.
End table.
