(* ===== verification/IhashProps.v ===== *)
(** * Hash tables: invariant, operations, refinement *)
From Stdlib Require Import ZArith Lia.
From stdpp Require Import prelude gmap.
From S2P Require Import Prelude Bits Links Ihash.

(** ** Lists of lists *)
Section concat.
Context {A : Type}.
Implicit Types (B : list (list A)) (xs : list A).

Lemma elem_of_concat B x : x ∈ concat B <-> exists i xs, B !! i = Some xs /\ x ∈ xs.
Proof.
  induction B as [|ys B IH]; cbn [concat]; [split; [by intros ?%elem_of_nil|by intros (i & xs & E & _)]|]. rewrite elem_of_app, IH. split.
  - intros [H|(i & xs & E & H)]; [by exists 0%nat, ys|by exists (S i), xs].
  - intros ([|i] & xs & E & H); cbn in E; [injection E as ->; by left|right; eauto].
Qed.
Lemma concat_update B : forall i xs ys, B !! i = Some xs -> concat (<[i := ys]> B) ++ xs ≡ₚ concat B ++ ys.
Proof.
  induction B as [|zs B IH]; intros [|i] xs ys E; cbn in E; try done.
  - injection E as ->. cbn [insert list_insert concat]. rewrite <- !app_assoc. rewrite (Permutation_app_comm ys). rewrite <- app_assoc. rewrite (Permutation_app_comm (concat B)), <- app_assoc.
    apply Permutation_app_head. apply Permutation_app_comm.
  - cbn [insert list_insert concat]. rewrite <- !app_assoc. apply Permutation_app_head. by apply IH.
Qed.
Lemma concat_push B i xs x : B !! i = Some xs -> concat (<[i := x :: xs]> B) ≡ₚ x :: concat B.
Proof. intros E. apply (Permutation_app_inv_r xs). rewrite concat_update by done. cbn. by rewrite <- Permutation_middle. Qed.
Lemma concat_pull B i xs ys x : B !! i = Some (xs ++ x :: ys) -> concat B ≡ₚ x :: concat (<[i := xs ++ ys]> B).
Proof.
  intros E. apply (Permutation_app_inv_r (xs ++ ys)). rewrite <- (concat_update B i _ _ E). rewrite <- Permutation_middle. cbn. by rewrite <- Permutation_middle.
Qed.
Lemma concat_disj B : NoDup (concat B) -> forall i j xs ys x, B !! i = Some xs -> B !! j = Some ys -> x ∈ xs -> x ∈ ys -> i = j.
Proof.
  induction B as [|zs B IH]; intros ND [|i] [|j] xs ys x Hi Hj Hx Hy; cbn in *; try done; apply NoDup_app in ND as (N1 & N2 & N3).
  - injection Hi as ->. destruct (N2 x Hx). apply elem_of_concat. eauto.
  - injection Hj as ->. destruct (N2 x Hy). apply elem_of_concat. eauto.
  - f_equal. by eapply IH.
Qed.
Lemma concat_nodup B : NoDup (concat B) -> forall i xs, B !! i = Some xs -> NoDup xs.
Proof. induction B as [|zs B IH]; intros ND [|i] xs Hi; cbn in *; try done; apply NoDup_app in ND as (N1 & N2 & N3); [by injection Hi as ->|by eapply IH]. Qed.
Lemma concat_nil n : concat (replicate n (@nil A)) = [].
Proof. by induction n. Qed.
Lemma concat_nil_inv B : concat B = [] -> forall i xs, B !! i = Some xs -> xs = [].
Proof. induction B as [|zs B IH]; intros E [|i] xs Hi; cbn in *; try done; apply app_eq_nil in E as [E1 E2]; [by injection Hi as ->|by eapply IH]. Qed.
Lemma concat_split B : forall pre x post, concat B = pre ++ x :: post -> exists i xs ys, B !! i = Some (xs ++ x :: ys) /\ post = ys ++ concat (drop (S i) B).
Proof.
  induction B as [|zs B IH]; intros pre x post E; cbn [concat] in E; [by destruct pre|]. apply app_eq_app in E as (l & [[-> E]|[-> E]]).
  - destruct l as [|y l].
    + cbn in E. destruct (IH [] x post) as (i & xs & ys & Hi & Hp); [by symmetry|]. exists (S i), xs, ys. done.
    + injection E as <- ->. exists 0%nat, pre, l. done.
  - destruct (IH l x post) as (i & xs & ys & Hi & Hp); [done|]. exists (S i), xs, ys. done.
Qed.
End concat.

(** ** Arrays of chains *)
Definition chains (m : links) (a : positive) (B : list (list positive)) : Prop := forall i xs, B !! i = Some xs -> chain m (Cell a i) xs.

Lemma chains_pushed m m' a B i xs x : chains m a B -> NoDup (concat B) -> B !! i = Some xs -> x ∉ concat B -> pushed m m' (Cell a i) x (head xs) -> chains m' a (<[i := x :: xs]> B).
Proof.
  intros C ND Hi Nx Hp j ys. assert (Nxx : forall j ys, B !! j = Some ys -> x ∉ ys) by (intros j' ys' Hj Hx; apply Nx, elem_of_concat; eauto). destruct (decide (i = j)) as [<-|Hij].
  - rewrite list_lookup_insert_eq by (by eapply lookup_lt_Some). intros [= <-]. eapply chain_pushed; [done|by apply C| |done|apply cell_next]. constructor; [by eapply Nxx|by eapply concat_nodup].
  - rewrite list_lookup_insert_ne by done. intros Hj. eapply chain_pushed_other; [done|by apply C|congruence|done|by eapply Nxx|]. rewrite Forall_forall. intros y Hy. split; [done|].
    intros E%head_elem. apply Hij. by eapply concat_disj.
Qed.
Lemma chains_unlinked m m' a B i xs ys x : chains m a B -> NoDup (concat B) -> B !! i = Some (xs ++ x :: ys) -> unlinked m m' x (last_loc (Cell a i) xs) (head ys) -> chains m' a (<[i := xs ++ ys]> B).
Proof.
  intros C ND Hi Hu j zs. destruct (decide (i = j)) as [<-|Hij].
  - rewrite list_lookup_insert_eq by (by eapply lookup_lt_Some). intros [= <-]. eapply chain_unlinked; [done|by apply C|by eapply concat_nodup|done].
  - rewrite list_lookup_insert_ne by done. intros Hj. assert (Dj : forall y, y ∈ xs ++ x :: ys -> y ∈ zs -> False) by (intros y H1 H2; apply Hij; by eapply concat_disj).
    eapply chain_unlinked_other; [done|by apply C| |].
    + unfold last_loc. destruct (last xs); congruence.
    + rewrite Forall_forall. intros y Hy. split.
      * unfold last_loc. destruct (last xs) as [w|] eqn:E; [|done]. intros [= ->]. apply last_Some_elem_of in E. apply (Dj y); [apply elem_of_app; by left|done].
      * intros E%head_elem. apply (Dj y); [apply elem_of_app; right; by right|done].
Qed.

(** ** The invariant *)
Section props.
Context (New : gset positive -> positive) (HNew : forall X, New X ∉ X).
Implicit Types (m : hmem) (t : ihash_table) (B : list (list positive)) (x elm : positive).

(** The chains of the table; [ihash_ok] adds the number of entries. *)
Record table_ok m t B : Prop := {
  ih_tab : exists a L, tab t = Some a /\ lk_arr (hm_links m) !! a = Some L /\ Z.of_nat (length L) = buckets t /\ chains (hm_links m) a B;
  ih_len : Z.of_nat (length B) = buckets t;
  ih_nodup : NoDup (concat B);
  ih_val i xs x : B !! i = Some xs -> x ∈ xs -> exists v, hm_val m !! x = Some v /\ 0 <= v < 2 ^ 32 /\ v mod buckets t = Z.of_nat i;
  ih_prime : exists k, 2 <= k <= 32 /\ exp2primes !! Z.to_nat k = Some (buckets t)
}.
Record ihash_ok m t B : Prop := {
  ih_table : table_ok m t B;
  ih_entries : entries t = Z.of_nat (length (concat B));
  ih_load : entries t < buckets t
}.

(** Sizes *)
Lemma grow_size k b : 2 <= k <= 31 -> exp2primes !! Z.to_nat k = Some b -> exists b', rd exp2primes (log2c64 b + 1) = Done b' /\ exp2primes !! Z.to_nat (k + 1) = Some b' /\ b < b' /\ 3 <= b'.
Proof using.
  intros Hk Hb. assert (T : forallb (fun k => match exp2primes !! Z.to_nat k with Some b => match exp2primes !! Z.to_nat (k + 1) with
    | Some b' => bool_decide (exp2primes !! Z.to_nat (log2c64 b + 1) = Some b') && (0 <=? log2c64 b + 1) && (b <? b') && (3 <=? b') | None => false end | None => false end) (seqZ 2 30) = true) by (vm_compute; reflexivity).
  rewrite forallb_forall in T. specialize (T k). rewrite Hb in T. destruct (exp2primes !! Z.to_nat (k + 1)) as [b'|]; [|discriminate T; apply list_elem_of_In, elem_of_seqZ; lia].
  exists b'. assert (H : (bool_decide (exp2primes !! Z.to_nat (log2c64 b + 1) = Some b') && (0 <=? log2c64 b + 1) && (b <? b') && (3 <=? b')) = true) by (apply T, list_elem_of_In, elem_of_seqZ; lia).
  rewrite !andb_true_iff, bool_decide_eq_true, Z.ltb_lt, !Z.leb_le in H. destruct H as [[[H1 H2] H3] H4]. split_and!; [unfold rd; destruct (Z.leb_spec 0 (log2c64 b + 1)); [by rewrite H1|lia]|done|done|done].
Qed.
Lemma prime_size k b : 2 <= k <= 32 -> exp2primes !! Z.to_nat k = Some b -> 3 <= b < 2 ^ 32.
Proof using.
  intros Hk Hb. assert (T : forallb (fun k => match exp2primes !! Z.to_nat k with Some b => (3 <=? b) && (b <? 2 ^ 32) | None => false end) (seqZ 2 31) = true) by (vm_compute; reflexivity).
  rewrite forallb_forall in T. specialize (T k). rewrite Hb in T. rewrite andb_true_iff, Z.leb_le, Z.ltb_lt in T. apply T, list_elem_of_In, elem_of_seqZ. lia.
Qed.
Lemma ih_pos m t B : table_ok m t B -> 3 <= buckets t < 2 ^ 32.
Proof using. intros H. destruct (ih_prime _ _ _ H) as (k & Hk & E). by apply (prime_size k). Qed.

(** *** Growing *)
Lemma grow_link_ok l ni x f : get l ni = Some f -> is_Some (getp l x) -> ni <> Next x -> (forall y, f = Some y -> y <> x /\ is_Some (getp l y)) ->
  exists l', grow_link l ni x = Done l' /\ pushed l l' ni x f.
Proof using.
  intros Ef Hx Hn Hf. pose proof (proj1 (getp_get l x) Hx) as Hx'. unfold grow_link. do 4 mem_step. destruct f as [y|]; cbn [wr_pprev_opt].
  - destruct (Hf y eq_refl) as [Hyx Hy]. do 2 mem_step. eexists. split; [reflexivity|]. split; try mem_eq; [intros z [= <-]; mem_eq|]. mem_frame.
  - cbn [mbind outcome_bind]. mem_step. eexists. split; [reflexivity|]. split; try mem_eq. mem_frame.
Qed.
Lemma insert_link_ok l bn x f : get l bn = Some f -> is_Some (getp l x) -> bn <> Next x -> (forall y, f = Some y -> y <> x /\ is_Some (getp l y)) ->
  exists l', insert_link l bn x = Done l' /\ pushed l l' bn x f.
Proof using.
  intros Ef Hx Hn Hf. pose proof (proj1 (getp_get l x) Hx) as Hx'. unfold insert_link. mem_step. destruct f as [y|]; cbn [wr_pprev_opt].
  - destruct (Hf y eq_refl) as [Hyx Hy]. do 4 mem_step. eexists. split; [reflexivity|]. split; try mem_eq; [intros z [= <-]; mem_eq|]. mem_frame.
  - cbn [mbind outcome_bind]. do 3 mem_step. eexists. split; [reflexivity|]. split; try mem_eq. mem_frame.
Qed.

(** The state while the elements [todo] are still to be moved: the new array
    holds [B], the old cells and the elements to be moved are as at the start. *)
Record growing (l0 l : links) (vals : gmap positive Z) (nt : positive) (nb : Z) B (todo : list positive) : Prop := {
  gr_arr L : lk_arr l !! nt = Some L -> Z.of_nat (length L) = nb;
  gr_chains : chains l nt B;
  gr_len : Z.of_nat (length B) = nb;
  gr_nodup : NoDup (concat B ++ todo);
  gr_val x : x ∈ concat B ++ todo -> exists v, vals !! x = Some v /\ 0 <= v < 2 ^ 32;
  gr_place i xs x : B !! i = Some xs -> x ∈ xs -> exists v, vals !! x = Some v /\ v mod nb = Z.of_nat i;
  gr_alloc x : x ∈ concat B ++ todo -> is_Some (getp l x);
  gr_todo x : x ∈ todo -> get l (Next x) = get l0 (Next x);
  gr_old a i : a <> nt -> get l (Cell a i) = get l0 (Cell a i);
  gr_dom : dom (lk_ent l) = dom (lk_ent l0);
  gr_shape a : length <$> lk_arr l !! a = length <$> lk_arr l0 !! a
}.

Lemma grow_step l0 l vals nt nb B x todo : growing l0 l vals nt nb B (x :: todo) -> 0 < nb ->
  exists v l' B', vals !! x = Some v /\ grow_link l (Cell nt (Z.to_nat (v mod nb))) x = Done l' /\ growing l0 l' vals nt nb B' todo /\ concat B' ++ todo ≡ₚ concat B ++ x :: todo.
Proof using.
  intros G Hnb. pose proof (gr_nodup _ _ _ _ _ _ _ G) as ND. destruct (gr_val _ _ _ _ _ _ _ G x) as (v & Ev & Hv); [apply elem_of_app; right; left|].
  pose proof (Z.mod_pos_bound v nb Hnb) as Hm. pose proof (gr_len _ _ _ _ _ _ _ G) as HL. destruct (lookup_lt_is_Some_2 B (Z.to_nat (v mod nb))) as [xs Hxs]; [lia|].
  pose proof (gr_chains _ _ _ _ _ _ _ G _ _ Hxs) as C. pose proof (proj1 (NoDup_app _ _) ND) as (NB & NX & NT). apply NoDup_cons in NT as [Nxt NT].
  assert (Nx : x ∉ concat B) by (intros H; apply (NX x H); left).
  destruct (grow_link_ok l (Cell nt (Z.to_nat (v mod nb))) x (head xs)) as (l' & E & Hp); [by apply chain_get|apply (gr_alloc _ _ _ _ _ _ _ G), elem_of_app; right; left|done| |].
  { intros y Hy%head_elem. assert (y ∈ concat B) by (apply elem_of_concat; eauto). split; [by intros ->|]. apply (gr_alloc _ _ _ _ _ _ _ G), elem_of_app. by left. }
  exists v, l', (<[Z.to_nat (v mod nb) := x :: xs]> B). pose proof (concat_push B _ xs x Hxs) as Pm. assert (Pm' : concat (<[Z.to_nat (v mod nb) := x :: xs]> B) ++ todo ≡ₚ concat B ++ x :: todo).
  { rewrite Pm. cbn. apply Permutation_middle. }
  split_and!; [done|done| |done]. pose proof (pu_frame _ _ _ _ _ Hp) as F. split.
  - intros L HL'. pose proof (fr_arr _ _ _ _ F nt) as Ha. rewrite HL' in Ha. destruct (lk_arr l !! nt) as [L0|] eqn:E0; [|done]. injection Ha as ->. by eapply (gr_arr _ _ _ _ _ _ _ G).
  - eapply chains_pushed; [by eapply gr_chains|done|done|done|done].
  - by rewrite length_insert.
  - by rewrite Pm'.
  - intros y. rewrite Pm'. apply (gr_val _ _ _ _ _ _ _ G).
  - intros i ys y Hi Hy. destruct (decide (Z.to_nat (v mod nb) = i)) as [<-|Hne].
    + rewrite list_lookup_insert_eq in Hi by (by eapply lookup_lt_Some). injection Hi as <-. apply elem_of_cons in Hy as [->|Hy]; [exists v; split; [done|lia]|]. by eapply (gr_place _ _ _ _ _ _ _ G).
    + rewrite list_lookup_insert_ne in Hi by done. by eapply (gr_place _ _ _ _ _ _ _ G).
  - intros y. rewrite Pm'. intros Hy. apply (gr_alloc _ _ _ _ _ _ _ G) in Hy. apply getp_get in Hy. apply getp_get. unfold get in *. rewrite fmap_is_Some in *.
    apply elem_of_dom. rewrite (fr_dom _ _ _ _ F). by apply elem_of_dom.
  - intros y Hy. rewrite (fr_get _ _ _ _ F); [apply (gr_todo _ _ _ _ _ _ _ G); by right|]. intros [?|[= ->]]; [done|by apply Nxt].
  - intros a i Ha. rewrite (fr_get _ _ _ _ F); [by apply (gr_old _ _ _ _ _ _ _ G)|]. intros [?|?]; congruence.
  - rewrite (fr_dom _ _ _ _ F). by eapply gr_dom.
  - intros a. rewrite (fr_arr _ _ _ _ F). by eapply gr_shape.
Qed.

Lemma grow_chain_ok l0 vals nt nb : 0 < nb -> forall xs n l B rest, growing l0 l vals nt nb B (xs ++ rest) -> (exists l1, chain l0 l1 xs) -> (length xs <= n)%nat ->
  exists l' B', grow_chain n (mkhm l vals) nt nb (head xs) = Done (mkhm l' vals) /\ growing l0 l' vals nt nb B' rest /\ concat B' ++ rest ≡ₚ concat B ++ xs ++ rest.
Proof using.
  intros Hnb xs. induction xs as [|x xs IH]; intros n l B rest G [l1 C] Hn; [exists l, B; by destruct n|]. destruct n as [|n]; [cbn in Hn; lia|]. cbn [app] in G.
  destruct (grow_step _ _ _ _ _ _ _ _ G Hnb) as (v & l' & B1 & Ev & E & G1 & P1). cbn [grow_chain head]. unfold rd_val. cbn [hm_val hm_links]. rewrite Ev. cbn [mbind outcome_bind].
  destruct C as (_ & _ & C). assert (Hg : get l (Next x) = Some (head xs)) by (rewrite (gr_todo _ _ _ _ _ _ _ G) by left; by apply chain_get). rewrite (rd_loc_ok _ _ _ Hg). cbn [mbind outcome_bind].
  rewrite E. cbn [mbind outcome_bind]. unfold set_links. cbn [hm_val]. destruct (IH n l' B1 rest G1) as (l2 & B2 & E2 & G2 & P2); [eauto|cbn in Hn; lia|]. exists l2, B2. split_and!; [done|done|]. by rewrite P2, P1.
Qed.

Lemma grow_buckets_ok l0 vals ot nt nb B0 : 0 < nb -> ot <> nt -> chains l0 ot B0 -> forall k i l B, growing l0 l vals nt nb B (concat (drop i B0)) -> (k = length B0 - i)%nat -> 
  exists l' B', grow_buckets k i (mkhm l vals) ot nt nb = Done (mkhm l' vals) /\ growing l0 l' vals nt nb B' [] /\ concat B' ≡ₚ concat B ++ concat (drop i B0).
Proof using.
  intros Hnb Ho C k. induction k as [|k IH]; intros i l B G Hk.
  - exists l, B. rewrite drop_ge in * by lia. split_and!; [done|done|]. cbn. by rewrite app_nil_r.
  - destruct (lookup_lt_is_Some_2 B0 i) as [xs Hxs]; [lia|]. rewrite (drop_S _ _ _ Hxs) in *. cbn [concat] in *. cbn [grow_buckets hm_links].
    assert (Hg : get l (Cell ot i) = Some (head xs)) by (rewrite (gr_old _ _ _ _ _ _ _ G) by done; by apply chain_get, C). rewrite (rd_loc_ok _ _ _ Hg). cbn [mbind outcome_bind].
    destruct (grow_chain_ok l0 vals nt nb Hnb xs (size (lk_ent l)) l B (concat (drop (S i) B0)) G) as (l1 & B1 & E1 & G1 & P1); [eauto| |].
    { apply alloc_length; [|rewrite Forall_forall; intros x Hx; apply (gr_alloc _ _ _ _ _ _ _ G); rewrite !elem_of_app; tauto].
      pose proof (gr_nodup _ _ _ _ _ _ _ G) as (_ & _ & N)%NoDup_app. by apply NoDup_app in N as (? & _ & _). }
    rewrite E1. cbn [mbind outcome_bind]. destruct (IH (S i) l1 B1 G1) as (l2 & B2 & E2 & G2 & P2); [lia|]. exists l2, B2. split_and!; [done|done|]. by rewrite P2, P1.
Qed.

Lemma table_alloc m t B x : table_ok m t B -> x ∈ concat B -> is_Some (getp (hm_links m) x).
Proof using.
  intros H. destruct (ih_tab _ _ _ H) as (a & L & _ & _ & _ & C). intros (i & xs & Hi & Hx)%elem_of_concat. pose proof (chain_alloc _ _ _ (C i xs Hi)) as Al. rewrite Forall_forall in Al. by apply Al.
Qed.

Lemma chains_delete l a b B : a <> b -> chains l b B -> chains (mklk (delete a (lk_arr l)) (lk_ent l)) b B.
Proof using.
  intros Hab C i xs Hi. assert (Ext : forall ys lc, chain l lc ys -> (forall i, lc <> Cell a i) -> chain (mklk (delete a (lk_arr l)) (lk_ent l)) lc ys).
  { assert (Hg : forall lc, (forall i, lc <> Cell a i) -> get (mklk (delete a (lk_arr l)) (lk_ent l)) lc = get l lc).
    { intros [c j|e] Hlc; [|done]. cbn [get lk_arr]. rewrite lookup_delete_ne; [done|]. intros ->. by apply (Hlc j). }
    induction ys as [|y ys IH]; intros lc Hc Hlc; cbn [chain] in *; [by rewrite Hg|]. destruct Hc as (H1 & H2 & H3). rewrite Hg by done. split_and!; [done|done|]. by apply IH. }
  apply Ext; [by apply C|]. intros j [= ->]. done.
Qed.

Lemma growing_start l nt nb B vals : nb = Z.of_nat (Z.to_nat nb) -> lk_arr l !! nt = None -> NoDup (concat B) -> (forall x, x ∈ concat B -> is_Some (getp l x) /\ exists v, vals !! x = Some v /\ 0 <= v < 2 ^ 32) ->
  let l0 := mklk (<[nt := replicate (Z.to_nat nb) None]> (lk_arr l)) (lk_ent l) in growing l0 l0 vals nt nb (replicate (Z.to_nat nb) []) (concat B).
Proof using.
  intros Hnb Hnt ND Hx l0. split.
  - intros L. cbn [lk_arr l0]. rewrite lookup_insert_eq. intros [= <-]. rewrite length_replicate. lia.
  - intros i xs Hi. apply lookup_replicate in Hi as [-> Hi]. cbn [chain get lk_arr l0]. rewrite lookup_insert_eq. cbn. by rewrite lookup_replicate_2.
  - rewrite length_replicate. lia.
  - by rewrite concat_nil.
  - rewrite concat_nil. intros x Hx'. by apply Hx.
  - intros i xs x Hi Hx'. apply lookup_replicate in Hi as [-> _]. by apply elem_of_nil in Hx'.
  - rewrite concat_nil. intros x Hx'. by apply Hx.
  - done.
  - done.
  - done.
  - done.
Qed.

Lemma growing_end l0 l vals nt nb B L n k : growing l0 l vals nt nb B [] -> lk_arr l !! nt = Some L -> 2 <= k <= 32 -> exp2primes !! Z.to_nat k = Some nb -> table_ok (mkhm l vals) (mkht nb n (Some nt)) B.
Proof using.
  intros G HL Hk Hp. pose proof (gr_nodup _ _ _ _ _ _ _ G) as ND. rewrite app_nil_r in ND. split; cbn [tab buckets hm_links hm_val].
  - exists nt, L. split_and!; [done|done|by eapply gr_arr|by eapply gr_chains].
  - by eapply gr_len.
  - done.
  - intros i xs x Hi Hx. destruct (gr_place _ _ _ _ _ _ _ G i xs x Hi Hx) as (v & Ev & Hm). destruct (gr_val _ _ _ _ _ _ _ G x) as (v' & Ev' & Hv); [rewrite app_nil_r; apply elem_of_concat; eauto|].
    simplify_eq. eauto.
  - eauto.
Qed.

Lemma lk_eta l : mklk (lk_arr l) (lk_ent l) = l.
Proof using. by destruct l. Qed.
Lemma table_delete m t B ot : table_ok m t B -> tab t <> Some ot -> table_ok (delete_arr m (Some ot)) t B.
Proof using.
  intros [H1 H2 H3 H4 H5] Ho. destruct H1 as (a & L & Ha & HL & Hb & C). split; cbn [delete_arr set_links hm_links hm_val]; try done.
  exists a, L. assert (ot <> a) by congruence. cbn [lk_arr]. rewrite lookup_delete_ne by done. split_and!; try done. by apply chains_delete.
Qed.

Lemma grow_ok m t B : table_ok m t B -> buckets t < 0xfffffffb ->
  exists m' t' B', _ihash_grow New m t = Done (m', t') /\ table_ok m' t' B' /\ concat B' ≡ₚ concat B /\ buckets t < buckets t' /\ entries t' = entries t
    /\ dom (lk_ent (hm_links m')) = dom (lk_ent (hm_links m)) /\ hm_val m' = hm_val m.
Proof using HNew.
  intros H Hlt. destruct (ih_prime _ _ _ H) as (k & Hk & Ep). assert (k <> 32). { intros ->. injection Ep as Ep. lia. }
  destruct (grow_size k (buckets t)) as (nb & Er & Ep' & Hnb & H3); [lia|done|]. destruct (ih_tab _ _ _ H) as (ot & L & Et & HL & Hb & C). unfold _ihash_grow. rewrite Er. cbn [mbind outcome_bind].
  destruct (Z.ltb_spec nb 3); [lia|]. set (nt := New (dom (lk_arr (hm_links m)))). assert (Hnt : lk_arr (hm_links m) !! nt = None) by (apply not_elem_of_dom, HNew).
  rewrite Et. assert (Hne : ot <> nt) by (intros ->; congruence). set (l0 := mklk (<[nt := replicate (Z.to_nat nb) None]> (lk_arr (hm_links m))) (lk_ent (hm_links m))).
  assert (C0 : chains l0 ot B).
  { intros i xs Hi. specialize (C i xs Hi). clear -C Hne Hnt. revert C. generalize (Cell ot i) as lc. intros lc C.
    assert (Hg : forall lc v, get (hm_links m) lc = Some v -> get l0 lc = Some v).
    { intros [c j|e] v; [|done]. cbn [get lk_arr l0]. destruct (decide (c = nt)) as [->|]; [by rewrite Hnt|by rewrite lookup_insert_ne]. }
    revert lc C. induction xs as [|x xs IH]; intros lc C; cbn [chain] in *; [by apply Hg|]. destruct C as (H1 & H2 & H3). split_and!; [by apply Hg|done|by apply IH]. }
  destruct (grow_buckets_ok l0 (hm_val m) ot nt nb B ltac:(lia) Hne C0 (Z.to_nat (buckets t)) 0 l0 (replicate (Z.to_nat nb) [])) as (l' & B' & E & G & P).
  { rewrite drop_0. apply growing_start; [lia|done|by eapply ih_nodup|]. intros x Hx. split; [by eapply table_alloc|]. apply elem_of_concat in Hx as (i & xs & Hi & Hx).
    destruct (ih_val _ _ _ H i xs x Hi Hx) as (v & ? & ? & _). eauto. }
  { pose proof (ih_len _ _ _ H). lia. }
  unfold set_links at 1. fold l0. rewrite E. cbn [mbind outcome_bind]. eexists _, _, B'. split; [reflexivity|]. rewrite concat_nil, drop_0 in P. cbn [app] in P.
  destruct (lk_arr l' !! nt) as [L'|] eqn:EL'.
  - split_and!; [|done|done|done| |done].
    + apply table_delete; [apply (growing_end l0 _ _ _ _ _ L' _ (k + 1)); try done; lia|]. cbn [tab]. congruence.
    + cbn [delete_arr set_links hm_links lk_ent]. by rewrite (gr_dom _ _ _ _ _ _ _ G).
  - pose proof (gr_shape _ _ _ _ _ _ _ G nt) as Hs. rewrite EL' in Hs. cbn [lk_arr l0] in Hs. by rewrite lookup_insert_eq in Hs.
Qed.

Lemma init_ok m : exists m' t', ihash_init New m = Done (m', t') /\ ihash_ok m' t' [[]; []; []] /\ dom (lk_ent (hm_links m')) = dom (lk_ent (hm_links m)).
Proof using HNew.
  unfold ihash_init, _ihash_grow. cbn [buckets tab entries]. change (rd exp2primes (log2c64 0 + 1)) with (Done 1). cbn [mbind outcome_bind]. set (nt := New (dom (lk_arr (hm_links m)))).
  change (if 1 <? 3 then 3 else 1) with 3. eexists _, _. split; [reflexivity|]. split; [|done]. split; cbn [entries buckets]; [|done|lia].
  pose proof (growing_start (hm_links m) nt 3 [] (hm_val m) eq_refl) as G. cbv zeta in G. eapply (growing_end _ _ _ _ 3 _ _ 0 2); [apply G| |lia|done].
  - apply not_elem_of_dom, HNew.
  - constructor.
  - by intros x ?%elem_of_nil.
  - cbn [lk_arr]. by rewrite lookup_insert_eq.
Qed.

(** *** Insertion and removal *)
Lemma slot_ok m t B i : table_ok m t B -> exists a, slot t i = Done (Cell a (Z.to_nat i)) /\ tab t = Some a /\ chains (hm_links m) a B.
Proof using. intros H. destruct (ih_tab _ _ _ H) as (a & L & Et & _ & _ & C). exists a. unfold slot. by rewrite Et. Qed.
Lemma bucket_ok m t B h : table_ok m t B -> exists xs, B !! Z.to_nat (h mod buckets t) = Some xs.
Proof using. intros H. pose proof (ih_pos _ _ _ H). pose proof (Z.mod_pos_bound h (buckets t) ltac:(lia)). pose proof (ih_len _ _ _ H). apply lookup_lt_is_Some_2. lia. Qed.

Lemma frame_alloc W P l l' x : frame W P l l' -> is_Some (getp l' x) <-> is_Some (getp l x).
Proof using. intros F. unfold getp. rewrite !fmap_is_Some, <- !elem_of_dom. by rewrite (fr_dom _ _ _ _ F). Qed.

(** The end of [insert_val] *)
Lemma link_ok m t B x h : table_ok m t B -> x ∉ concat B -> is_Some (getp (hm_links m) x) -> 0 <= h < 2 ^ 32 ->
  exists l' B', (bn ← slot t (h mod buckets t); l ← insert_link (hm_links m) bn x; Done (mkhm l (<[x := h]> (hm_val m)), t)) = Done (mkhm l' (<[x := h]> (hm_val m)), t)
    /\ table_ok (mkhm l' (<[x := h]> (hm_val m))) t B' /\ concat B' ≡ₚ x :: concat B /\ dom (lk_ent l') = dom (lk_ent (hm_links m)).
Proof using.
  intros H Nx Hx Hh. pose proof (ih_pos _ _ _ H) as Hpos. destruct (bucket_ok m t B h H) as [xs Hxs]. destruct (slot_ok m t B (h mod buckets t) H) as (a & -> & Et & C). cbn [mbind outcome_bind].
  destruct (insert_link_ok (hm_links m) (Cell a (Z.to_nat (h mod buckets t))) x (head xs)) as (l' & -> & Hp); [by apply chain_get, C|done|done| |].
  { intros y Hy%head_elem. assert (Hyc : y ∈ concat B) by (apply elem_of_concat; eauto). split; [by intros ->|by eapply table_alloc]. }
  cbn [mbind outcome_bind]. pose proof (pu_frame _ _ _ _ _ Hp) as F. pose proof (concat_push B _ xs x Hxs) as Pm. eexists _, _. split; [reflexivity|]. split_and!; [|exact Pm|exact (fr_dom _ _ _ _ F)].
  destruct H as [H1 H2 H3 H4 H5]. split; cbn [hm_links hm_val].
  - destruct H1 as (a' & L & Et' & HL & Hb & _). assert (a' = a) by congruence. subst a'. pose proof (fr_arr _ _ _ _ F a) as Ha. rewrite HL in Ha. destruct (lk_arr l' !! a) as [L'|] eqn:E'; [|done].
    exists a, L'. injection Ha as Ha. split_and!; [done|done|by rewrite Ha|]. by eapply chains_pushed.
  - by rewrite length_insert.
  - rewrite Pm. by constructor.
  - intros i ys y Hi Hy. assert (Old : forall ys', B !! i = Some ys' -> y ∈ ys' -> exists v, <[x := h]> (hm_val m) !! y = Some v /\ 0 <= v < 2 ^ 32 /\ v mod buckets t = Z.of_nat i).
    { intros ys' Hi' Hy'. rewrite lookup_insert_ne; [by eapply H4|]. intros ->. apply Nx, elem_of_concat. eauto. }
    destruct (decide (Z.to_nat (h mod buckets t) = i)) as [<-|Hne].
    + rewrite list_lookup_insert_eq in Hi by (by eapply lookup_lt_Some). injection Hi as <-. apply elem_of_cons in Hy as [->|Hy]; [|by eapply Old]. exists h. rewrite lookup_insert_eq.
      pose proof (Z.mod_pos_bound h (buckets t) ltac:(lia)). split_and!; [done|lia|lia|lia].
    + rewrite list_lookup_insert_ne in Hi by done. by eapply Old.
  - done.
Qed.

Lemma table_entries m b n n' a B : table_ok m (mkht b n a) B -> table_ok m (mkht b n' a) B.
Proof using. intros [H1 H2 H3 H4 H5]. by split. Qed.

Lemma insert_ok m t B x h : ihash_ok m t B -> x ∉ concat B -> is_Some (getp (hm_links m) x) -> 0 <= h < 2 ^ 32 -> Z.of_nat (length (concat B)) + 1 < 0xfffffffb ->
  exists m' t' B', insert_val New m t x h = Done (m', t') /\ ihash_ok m' t' B' /\ concat B' ≡ₚ x :: concat B /\ dom (lk_ent (hm_links m')) = dom (lk_ent (hm_links m)) /\ hm_val m' = <[x := h]> (hm_val m).
Proof using HNew.
  intros [H He Hl] Nx Hx Hh Hsz. pose proof (ih_pos _ _ _ H) as Hpos. destruct t as [b n a]. cbn [buckets entries tab] in *. unfold insert_val. cbn [buckets entries tab].
  assert (Eu : u64 (n + 1) = n + 1) by (apply u64_small; lia). rewrite Eu. apply (table_entries _ _ _ (n + 1)) in H.
  assert (Hg : exists m1 t1 B1, (if b <=? n + 1 then _ihash_grow New m (mkht b (n + 1) a) else Done (m, mkht b (n + 1) a)) = Done (m1, t1) /\ table_ok m1 t1 B1 /\ concat B1 ≡ₚ concat B
    /\ n + 1 < buckets t1 /\ entries t1 = n + 1 /\ dom (lk_ent (hm_links m1)) = dom (lk_ent (hm_links m)) /\ hm_val m1 = hm_val m).
  { destruct (Z.leb_spec b (n + 1)) as [Hb|Hb]; [|by exists m, (mkht b (n + 1) a), B]. destruct (grow_ok m (mkht b (n + 1) a) B H) as (m1 & t1 & B1 & E & T1 & P1 & Hlt & E1 & D1 & V1); [cbn; lia|].
    cbn [buckets entries] in *. exists m1, t1, B1. split_and!; try done. lia. }
  destruct Hg as (m1 & t1 & B1 & -> & T1 & P1 & Hlt & E1 & D1 & V1). cbn [mbind outcome_bind]. pose proof (ih_pos _ _ _ T1) as Hpos1. destruct (Z.eqb_spec (buckets t1) 0); [lia|]. cbn [negb assertM mbind outcome_bind].
  destruct (link_ok m1 t1 B1 x h T1) as (l' & B2 & E2 & T2 & P2 & D2); [by rewrite P1| |done|].
  { unfold getp. rewrite fmap_is_Some, <- elem_of_dom, D1, elem_of_dom. unfold getp in Hx. by rewrite fmap_is_Some in Hx. }
  unfold set_links. cbn [hm_links hm_val]. rewrite E2. eexists _, _, B2. split; [reflexivity|]. cbn [hm_links hm_val]. rewrite P2, P1, D2, D1, V1. split_and!; try done.
  rewrite V1 in T2. split; [done| |by rewrite E1]. rewrite E1, P2, P1. cbn [length]. lia.
Qed.

Lemma remove_at m t B i xs x ys : ihash_ok m t B -> B !! i = Some (xs ++ x :: ys) ->
  exists m' t', ihash_remove m t x = Done (m', t') /\ ihash_ok m' t' (<[i := xs ++ ys]> B) /\ buckets t' = buckets t /\ tab t' = tab t
    /\ dom (lk_ent (hm_links m')) = dom (lk_ent (hm_links m)) /\ hm_val m' = hm_val m.
Proof using.
  intros [H He Hl] Hi. pose proof (ih_pos _ _ _ H) as Hpos. destruct (ih_tab _ _ _ H) as (a & L & Et & HL & Hb & C).
  pose proof (C _ _ Hi) as Ci. pose proof (concat_nodup _ (ih_nodup _ _ _ H) _ _ Hi) as ND.
  pose proof (proj1 (chain_app _ _ _ _) Ci) as [_ (El & Ep & Cy)]. assert (Hne : last_loc (Cell a i) xs <> Next x).
  { unfold last_loc. destruct (last xs) eqn:E; [|done]. intros [= ->]. apply last_Some_elem_of in E. apply NoDup_app in ND as (_ & ND & _). apply (ND x E). left. }
  destruct (list_remove_ok (hm_links m) x (last_loc (Cell a i) xs) (head ys)) as (l' & E & Hu); [done|by apply chain_get|by rewrite El|done| |].
  { intros y Hy%head_elem. apply NoDup_app in ND as (_ & _ & ND). apply NoDup_cons in ND as [N _]. split; [by intros ->|]. eapply table_alloc; [done|]. apply elem_of_concat. eexists _, _.
    split; [done|]. apply elem_of_app. right. by right. }
  pose proof (concat_pull B i xs ys x Hi) as Pm. pose proof (un_frame _ _ _ _ _ Hu) as F. unfold ihash_remove. rewrite E. cbn [mbind outcome_bind]. destruct t as [b n ta]. cbn [buckets entries tab] in *.
  assert (Eu : u64 (n - 1) = n - 1) by (apply u64_small; pose proof He as He2; rewrite Pm in He2; cbn [length] in He2; lia). rewrite Eu.
  eexists _, _. split; [reflexivity|]. cbn [set_links hm_links hm_val buckets tab]. split_and!; [|done|done|exact (fr_dom _ _ _ _ F)|done]. rewrite Pm in He. cbn [length] in He.
  split; cbn [entries buckets]; [|lia|lia]. destruct H as [H1 H2 H3 H4 H5]. split; cbn [hm_links hm_val buckets tab set_links] in *.
  - pose proof (fr_arr _ _ _ _ F a) as Ha. rewrite HL in Ha. destruct (lk_arr l' !! a) as [L'|] eqn:E'; [|done]. exists a, L'. injection Ha as Ha. split_and!; [done|done|by rewrite Ha|]. by eapply chains_unlinked.
  - by rewrite length_insert.
  - rewrite Pm in H3. by apply NoDup_cons in H3 as [_ ?].
  - intros j zs y Hj Hy. destruct (decide (i = j)) as [<-|Hij].
    + rewrite list_lookup_insert_eq in Hj by (by eapply lookup_lt_Some). injection Hj as <-. eapply H4; [done|]. rewrite elem_of_app, elem_of_cons. apply elem_of_app in Hy. tauto.
    + rewrite list_lookup_insert_ne in Hj by done. by eapply H4.
  - done.
Qed.
Lemma remove_ok m t B x : ihash_ok m t B -> x ∈ concat B ->
  exists m' t' B', ihash_remove m t x = Done (m', t') /\ ihash_ok m' t' B' /\ concat B ≡ₚ x :: concat B' /\ dom (lk_ent (hm_links m')) = dom (lk_ent (hm_links m)) /\ hm_val m' = hm_val m.
Proof using.
  intros H Hx. apply elem_of_concat in Hx as (i & zs & Hi & Hx). apply list_elem_of_split in Hx as (xs & ys & ->). destruct (remove_at m t B i xs x ys H Hi) as (m' & t' & E & H' & _ & _ & D & V).
  exists m', t', (<[i := xs ++ ys]> B). split_and!; try done. by apply concat_pull.
Qed.

(** *** Search *)
Definition has_val m (h : Z) x : Prop := hm_val m !! x = Some h.
#[local] Instance has_val_dec m h x : Decision (has_val m h x).
Proof using. unfold has_val. apply _. Defined.

Lemma lookup_from_ok m h xs : forall n lc, chain (hm_links m) lc xs -> (forall x, x ∈ xs -> is_Some (hm_val m !! x)) -> (length xs < n)%nat -> lookup_from n m h (head xs) = Done (head (filter (has_val m h) xs)).
Proof using.
  induction xs as [|x xs IH]; intros n lc C Hv Hn; [by destruct n|]. destruct n as [|n]; [lia|]. cbn [lookup_from head]. destruct C as (_ & _ & C). destruct (Hv x) as [v Ev]; [left|].
  unfold rd_val. rewrite Ev. cbn [mbind outcome_bind]. destruct (Z.eqb_spec v h) as [->|Hne].
  - rewrite filter_cons_True by done. done.
  - rewrite filter_cons_False by (unfold has_val; congruence). rewrite (rd_loc_ok _ _ _ (chain_get _ _ _ C)). cbn [mbind outcome_bind]. eapply IH; [done|intros y Hy; apply Hv; by right|cbn in Hn; lia].
Qed.

Lemma bucket_turns m t B i xs : table_ok m t B -> B !! i = Some xs -> (length xs < turns m)%nat.
Proof using.
  intros H Hi. unfold turns. apply le_n_S, alloc_length; [eapply concat_nodup; [by eapply ih_nodup|done]|]. rewrite Forall_forall. intros x Hx. eapply table_alloc; [done|]. apply elem_of_concat. eauto.
Qed.
Lemma bucket_vals m t B i xs : table_ok m t B -> B !! i = Some xs -> forall x, x ∈ xs -> is_Some (hm_val m !! x).
Proof using. intros H Hi x Hx. destruct (ih_val _ _ _ H i xs x Hi Hx) as (v & E & _). by rewrite E. Qed.

Lemma lookup_val_ok m t B h xs : table_ok m t B -> B !! Z.to_nat (h mod buckets t) = Some xs -> lookup_val m t h = Done (head (filter (has_val m h) xs)).
Proof using.
  intros H Hi. pose proof (ih_pos _ _ _ H). unfold lookup_val. destruct (Z.eqb_spec (buckets t) 0); [lia|]. cbn [negb assertM mbind outcome_bind].
  destruct (slot_ok m t B (h mod buckets t) H) as (a & -> & Et & C). cbn [mbind outcome_bind]. pose proof (C _ _ Hi) as Ci. rewrite (rd_loc_ok _ _ _ (chain_get _ _ _ Ci)). cbn [mbind outcome_bind].
  eapply lookup_from_ok; [done|by eapply bucket_vals|by eapply bucket_turns].
Qed.
Lemma next_val_ok m t B i xs x ys h : table_ok m t B -> B !! i = Some (xs ++ x :: ys) -> has_val m h x -> next_val m x = Done (head (filter (has_val m h) ys)).
Proof using.
  intros H Hi Hx. unfold next_val, rd_val. unfold has_val in Hx. rewrite Hx. cbn [mbind outcome_bind]. destruct (ih_tab _ _ _ H) as (a & L & Et & HL & Hb & C).
  pose proof (proj1 (chain_app _ _ _ _) (C _ _ Hi)) as [_ (_ & _ & Cy)]. rewrite (rd_loc_ok _ _ _ (chain_get _ _ _ Cy)). cbn [mbind outcome_bind].
  eapply lookup_from_ok; [done| |].
  - intros y Hy. eapply bucket_vals; [done|done|]. apply elem_of_app. right. by right.
  - pose proof (bucket_turns _ _ _ _ _ H Hi) as Ht. rewrite length_app in Ht. cbn in Ht. lia.
Qed.

(** *** Iteration *)
Lemma first_from_ok m t B : table_ok m t B -> forall k i, (k = length B - i)%nat -> first_from k (Z.of_nat i) m t = Done (head (concat (drop i B))).
Proof using.
  intros H k. induction k as [|k IH]; intros i Hk; [by rewrite drop_ge by lia|]. destruct (lookup_lt_is_Some_2 B i) as [xs Hxs]; [lia|]. rewrite (drop_S _ _ _ Hxs). cbn [first_from concat].
  destruct (slot_ok m t B (Z.of_nat i) H) as (a & -> & Et & C). cbn [mbind outcome_bind]. rewrite Nat2Z.id. rewrite (rd_loc_ok _ _ _ (chain_get _ _ _ (C _ _ Hxs))). cbn [mbind outcome_bind].
  destruct xs as [|x xs]; cbn [head app]; [|done]. replace (Z.of_nat i + 1) with (Z.of_nat (S i)) by lia. apply IH. lia.
Qed.
Lemma first_ok m t B : ihash_ok m t B -> ihash_first m t = Done (head (concat B)).
Proof using.
  intros [H He _]. unfold ihash_first. rewrite He. destruct (Z.eqb_spec (Z.of_nat (length (concat B))) 0) as [E|].
  - destruct (concat B); [done|cbn in E; lia].
  - pose proof (ih_len _ _ _ H). rewrite <- H0, Nat2Z.id. apply (first_from_ok m t B H (length B) 0). lia.
Qed.
Lemma next_ok m t B pre x post : ihash_ok m t B -> concat B = pre ++ x :: post -> ihash_next m t x = Done (head post).
Proof using.
  intros [H _ _] E. pose proof (ih_pos _ _ _ H) as Hpos. apply concat_split in E as (i & xs & ys & Hi & ->). destruct (ih_tab _ _ _ H) as (a & L & Et & HL & Hb & C).
  pose proof (proj1 (chain_app _ _ _ _) (C _ _ Hi)) as [_ (_ & _ & Cy)]. unfold ihash_next. rewrite (rd_loc_ok _ _ _ (chain_get _ _ _ Cy)). cbn [mbind outcome_bind].
  destruct ys as [|y ys]; cbn [head app]; [|done]. destruct (ih_val _ _ _ H i _ x Hi) as (v & Ev & Hv & Hm); [apply elem_of_app; right; left|]. unfold rd_val. rewrite Ev. cbn [mbind outcome_bind].
  destruct (Z.eqb_spec (buckets t) 0); [lia|]. cbn [negb assertM mbind outcome_bind]. rewrite Hm. pose proof (ih_len _ _ _ H). replace (Z.of_nat i + 1) with (Z.of_nat (S i)) by lia.
  apply first_from_ok; [done|]. lia.
Qed.

(** [for (p = first (); p; p = next (p))] *)
Fixpoint iterate (n : nat) m t (p : elt) : outcome (list positive) :=
  match n, p with
  | _, None => Done []
  | O, Some _ => Spin
  | S n, Some x => p ← ihash_next m t x; l ← iterate n m t p; Done (x :: l)
  end.
Definition elements m t : outcome (list positive) := p ← ihash_first m t; iterate (turns m) m t p.
Lemma elements_ok m t B : ihash_ok m t B -> elements m t = Done (concat B).
Proof using.
  intros H. unfold elements. rewrite (first_ok _ _ _ H). cbn [mbind outcome_bind].
  assert (It : forall post pre n, concat B = pre ++ post -> (length post < n)%nat -> iterate n m t (head post) = Done post).
  { induction post as [|x post IH]; intros pre n E Hn; [by destruct n|]. destruct n as [|n]; [lia|]. cbn [iterate head]. rewrite (next_ok _ _ _ _ _ _ H E). cbn [mbind outcome_bind].
    rewrite (IH (pre ++ [x]) n); [done| |cbn in Hn; lia]. by rewrite <- app_assoc. }
  apply (It _ []); [done|]. unfold turns. apply le_n_S, alloc_length; [by apply (ih_nodup _ _ _ (ih_table _ _ _ H))|]. rewrite Forall_forall. intros x Hx. by eapply table_alloc, Hx; apply H.
Qed.
End props.

(** ** Walks over all elements *)
Section traverse.
Context {S : Type} (mem : S -> hmem) (tbl : S -> ihash_table) (cb : S -> positive -> outcome S).
(** [st dn] is the state after the callbacks on [dn]: the array and the elements
    that are still to come are as they were. *)
Lemma traverse_ok m t B (st : list positive -> S) : table_ok m t B ->
  (forall dn, tbl (st dn) = t) -> (forall dn, lk_arr (hm_links (mem (st dn))) = lk_arr (hm_links m)) ->
  (forall dn x, x ∉ dn -> lk_ent (hm_links (mem (st dn))) !! x = lk_ent (hm_links m) !! x) ->
  (forall dn x, x ∈ concat B -> x ∉ dn -> cb (st dn) x = Done (st (dn ++ [x]))) ->
  ihash_traverse mem tbl cb (st []) = Done (st (concat B)).
Proof.
  intros H Ht Ha He Hcb. pose proof (ih_nodup _ _ _ H) as ND. destruct (ih_tab _ _ _ H) as (a & L & Et & HL & Hb & C). pose proof (ih_len _ _ _ H) as Hlen.
  assert (Hnew : forall dn xs rest x, concat B = dn ++ xs ++ rest -> x ∈ xs -> x ∈ concat B /\ x ∉ dn).
  { intros dn xs rest x E Hx. rewrite E in ND. apply NoDup_app in ND as (_ & N & _). split; [rewrite E, !elem_of_app; by right; left|]. intros Hd. apply (N x Hd), elem_of_app. by left. }
  assert (Walk : forall xs dn rest n lc, concat B = dn ++ xs ++ rest -> chain (hm_links m) lc xs -> (length xs <= n)%nat -> list_walk n (fun s => hm_links (mem s)) cb (st dn) (head xs) = Done (st (dn ++ xs))).
  { induction xs as [|x xs IH]; intros dn rest n lc E Cx Hn; [rewrite app_nil_r; by destruct n|]. destruct n as [|n]; [cbn in Hn; lia|]. cbn [list_walk head]. destruct Cx as (_ & Ex & Cx).
    destruct (Hnew dn (x :: xs) rest x E ltac:(left)) as [Hx Nx].
    assert (Hg : get (hm_links (mem (st dn))) (Next x) = Some (head xs)) by (pose proof (chain_get _ _ _ Cx) as G; unfold get in *; by rewrite He).
    rewrite (rd_loc_ok _ _ _ Hg). cbn [mbind outcome_bind]. rewrite Hcb by done. cbn [mbind outcome_bind]. rewrite (IH (dn ++ [x]) rest n (Next x)); [by rewrite <- app_assoc|by rewrite <- app_assoc|done|cbn in Hn; lia]. }
  assert (Tr : forall k i dn, (k = length B - i)%nat -> concat B = dn ++ concat (drop i B) -> traverse_buckets mem tbl cb k (Z.of_nat i) (st dn) = Done (st (concat B))).
  { induction k as [|k IH]; intros i dn Hk E; cbn [traverse_buckets]; rewrite Ht; destruct (Z.ltb_spec (Z.of_nat i) (buckets t)); try lia; [rewrite drop_ge in E by lia; cbn in E; rewrite app_nil_r in E; by rewrite E|]. destruct (lookup_lt_is_Some_2 B i) as [xs Hxs]; [lia|]. rewrite (drop_S _ _ _ Hxs) in E. cbn [concat] in E.
    unfold slot. rewrite Et. cbn [mbind outcome_bind]. rewrite Nat2Z.id. pose proof (C _ _ Hxs) as Cx.
    assert (Hg : get (hm_links (mem (st dn))) (Cell a i) = Some (head xs)) by (pose proof (chain_get _ _ _ Cx) as G; unfold get in *; by rewrite Ha). rewrite (rd_loc_ok _ _ _ Hg). cbn [mbind outcome_bind].
    rewrite (Walk xs dn (concat (drop (Datatypes.S i) B)) _ (Cell a i)); [|done|done|].
    - cbn [mbind outcome_bind]. replace (Z.of_nat i + 1) with (Z.of_nat (Datatypes.S i)) by lia. apply IH; [lia|]. by rewrite <- app_assoc.
    - apply alloc_length; [by eapply concat_nodup|]. rewrite Forall_forall. intros x Hx. destruct (Hnew _ _ _ _ E Hx) as [HxB Nx]. unfold getp. rewrite He by done. by eapply (table_alloc m). }
  unfold ihash_traverse. rewrite Ht, <- Hlen, Nat2Z.id. by apply (Tr (length B) 0%nat []); [lia|].
Qed.
End traverse.
(** A callback that only looks sees every element once. *)
Definition see (s : hmem * list positive) (x : positive) : outcome (hmem * list positive) := Done (s.1, s.2 ++ [x]).
Lemma traverse_see m t B : table_ok m t B -> ihash_traverse fst (fun _ => t) see (m, []) = Done (m, concat B).
Proof. intros H. by apply (traverse_ok fst (fun _ => t) see m t B (fun dn => (m, dn)) H). Qed.

(** *** Deletion of all elements *)
Section deleteall.
Context (New : gset positive -> positive) (HNew : forall X, New X ∉ X).
Implicit Types (m : hmem) (t : ihash_table) (B : list (list positive)) (x : positive).

Definition del1 m x : hmem := mkhm (mklk (lk_arr (hm_links m)) (delete x (lk_ent (hm_links m)))) (delete x (hm_val m)).
Definition dels m (xs : list positive) : hmem := foldl del1 m xs.
Lemma dels_arr xs : forall m, lk_arr (hm_links (dels m xs)) = lk_arr (hm_links m).
Proof using. induction xs as [|x xs IH]; intros m; [done|]. change (dels m (x :: xs)) with (dels (del1 m x) xs). by rewrite IH. Qed.
Lemma dels_ent xs : forall m x, x ∉ xs -> lk_ent (hm_links (dels m xs)) !! x = lk_ent (hm_links m) !! x.
Proof using.
  induction xs as [|y xs IH]; intros m x Hx; [done|]. apply not_elem_of_cons in Hx as [Hne Hx]. change (dels m (y :: xs)) with (dels (del1 m y) xs). rewrite IH by done. cbn. by rewrite lookup_delete_ne.
Qed.
Lemma dels_dom xs : forall m, dom (lk_ent (hm_links (dels m xs))) = dom (lk_ent (hm_links m)) ∖ list_to_set xs.
Proof using.
  clear HNew New. induction xs as [|y xs IH]; intros m; cbn [list_to_set]; [by rewrite difference_empty_L|]. change (dels m (y :: xs)) with (dels (del1 m y) xs). rewrite IH. cbn [del1 hm_links lk_ent]. rewrite dom_delete_L. set_solver.
Qed.

(** [clear] forgets the elements and keeps them. *)
Lemma clear_ok m t B : table_ok m t B -> exists m' t', ihash_clear New m t = Done (m', t') /\ ihash_ok m' t' [[]; []; []] /\ dom (lk_ent (hm_links m')) = dom (lk_ent (hm_links m)).
Proof using HNew.
  intros H. destruct (ih_tab _ _ _ H) as (a & L & Et & _). unfold ihash_clear. rewrite Et. destruct (init_ok New HNew (delete_arr m (Some a))) as (m' & t' & E & H' & D). by exists m', t'.
Qed.
(** [deleteall] frees every element once, reads nothing that is freed, and
    leaves an empty table. *)
Lemma deleteall_ok m t B : ihash_ok m t B ->
  exists m' t', ihash_deleteall New m t = Done (m', t') /\ ihash_ok m' t' [[]; []; []] /\ dom (lk_ent (hm_links m')) = dom (lk_ent (hm_links m)) ∖ list_to_set (concat B).
Proof using HNew.
  intros [H _ _]. unfold ihash_deleteall. change m with (dels m []) at 1. rewrite (traverse_ok (fun m => m) (fun _ => t) delete_elm m t B (dels m) H); [|done|intros; apply dels_arr|intros; by apply dels_ent|].
  - cbn [mbind outcome_bind]. destruct (ih_tab _ _ _ H) as (a & L & Et & _). unfold ihash_clear. rewrite Et.
    destruct (init_ok New HNew (delete_arr (dels m (concat B)) (Some a))) as (m' & t' & E & H' & D). exists m', t'. split_and!; [done|done|]. rewrite D. cbn [delete_arr set_links hm_links lk_ent]. by rewrite dels_dom.
  - intros dn x Hx Nx. pose proof (table_alloc m t B x H Hx) as Ex. unfold delete_elm. unfold getp in Ex. rewrite dels_ent by done. destruct (lk_ent (hm_links m) !! x); [|by destruct Ex]. unfold dels. by rewrite foldl_app.
Qed.
End deleteall.

(** ** Keyed tables *)
Section keyed.
Context (New : gset positive -> positive) (HNew : forall X, New X ∉ X).
Context {K : Type} `{HK : !HashKey K} `{HKok : !HashKeyOK K} (key : positive -> K).
Implicit Types (m : hmem) (t : ihash_table) (B : list (list positive)) (x : positive) (k : K).

(** Each element has the hash value of its key. *)
Definition hashed m B : Prop := forall x, x ∈ concat B -> hm_val m !! x = Some (hash (key x)).
Definition matches k x : Prop := eqk k (key x) = true.
#[local] Instance matches_dec k x : Decision (matches k x).
Proof. unfold matches. apply _. Defined.
#[local] Existing Instance has_val_dec.

Lemma find_key_ok m t B i k : table_ok m t B -> hashed m B -> forall ys xs n, B !! i = Some (xs ++ ys) -> (length ys <= n)%nat ->
  find_key key n m k (head (filter (has_val m (hash k)) ys)) = Done (head (filter (matches k) ys)).
Proof.
  intros H Hh ys. induction ys as [|y ys IH]; intros xs n Hi Hn; [by destruct n|]. assert (Hy : y ∈ concat B) by (apply elem_of_concat; eexists _, _; split; [done|]; apply elem_of_app; right; left).
  assert (Hi' : B !! i = Some ((xs ++ [y]) ++ ys)) by (by rewrite <- app_assoc). pose proof (Hh y Hy) as Ev. destruct (decide (hash (key y) = hash k)) as [E|E].
  - rewrite filter_cons_True by (unfold has_val; congruence). destruct n as [|n]; [cbn in Hn; lia|]. cbn [head find_key]. destruct (eqk k (key y)) eqn:Ek; [by rewrite filter_cons_True|].
    rewrite (filter_cons_False (matches k)) by (unfold matches; congruence). rewrite (next_val_ok m t B i xs y ys (hash k)) by (done || by unfold has_val; congruence). cbn [mbind outcome_bind].
    eapply IH; [done|cbn in Hn; lia].
  - rewrite filter_cons_False by (unfold has_val; congruence). rewrite (filter_cons_False (matches k)) by (intros Em; apply E; symmetry; by apply eqk_hash). eapply IH; [done|cbn in Hn; lia].
Qed.

(** The elements with a key that is equal to [k] are all in its bucket. *)
Lemma bucket_matches m t B k x : table_ok m t B -> hashed m B -> x ∈ concat B -> matches k x -> exists xs, B !! Z.to_nat (hash k mod buckets t) = Some xs /\ x ∈ xs.
Proof.
  intros H Hh Hx Hm. pose proof (Hh x Hx) as Ev. apply elem_of_concat in Hx as (i & xs & Hi & Hx). destruct (ih_val _ _ _ H i xs x Hi Hx) as (v & Ev' & _ & Hv). assert (v = hash (key x)) by congruence. subst v.
  apply eqk_hash in Hm. exists xs. rewrite Hm, Hv, Nat2Z.id. done.
Qed.

Lemma lookup_ok m t B k xs : ihash_ok m t B -> hashed m B -> B !! Z.to_nat (hash k mod buckets t) = Some xs -> ihash_lookup key m t k = Done (head (filter (matches k) xs)).
Proof.
  intros [H _ _] Hh Hi. unfold ihash_lookup. rewrite (lookup_val_ok _ _ _ _ _ H Hi). cbn [mbind outcome_bind]. eapply (find_key_ok _ _ _ _ _ H Hh xs []); [done|]. pose proof (bucket_turns _ _ _ _ _ H Hi). lia.
Qed.
Lemma nextkeq_ok m t B i xs x ys : ihash_ok m t B -> hashed m B -> B !! i = Some (xs ++ x :: ys) -> nextkeq key m x = Done (head (filter (matches (key x)) ys)).
Proof.
  intros [H _ _] Hh Hi. unfold nextkeq. assert (Hx : x ∈ concat B) by (apply elem_of_concat; eexists _, _; split; [done|]; apply elem_of_app; right; left).
  rewrite (next_val_ok m t B i xs x ys (hash (key x)) H Hi (Hh x Hx)). cbn [mbind outcome_bind]. eapply (find_key_ok _ _ _ _ _ H Hh ys (xs ++ [x])); [by rewrite <- app_assoc|].
  pose proof (bucket_turns _ _ _ _ _ H Hi) as Ht. rewrite length_app in Ht. cbn in Ht. lia.
Qed.

(** What a search finds has an equal key; if there is such an element, one is
    found. *)
Lemma ihash_lookup_spec m t B k : ihash_ok m t B -> hashed m B ->
  exists r, ihash_lookup key m t k = Done r /\ match r with Some x => x ∈ concat B /\ matches k x | None => forall x, x ∈ concat B -> ~ matches k x end.
Proof.
  intros H Hh. destruct (bucket_ok m t B (hash k) (ih_table _ _ _ H)) as [xs Hxs]. rewrite (lookup_ok _ _ _ _ _ H Hh Hxs). eexists. split; [reflexivity|]. destruct (filter (matches k) xs) as [|y F] eqn:EF; cbn [head].
  - intros x Hx Hm. destruct (bucket_matches m t B k x (ih_table _ _ _ H) Hh Hx Hm) as (xs' & Hi & Hx'). assert (xs' = xs) by congruence. subst xs'.
    assert (Hf : x ∈ filter (matches k) xs) by (by apply list_elem_of_filter). rewrite EF in Hf. by apply elem_of_nil in Hf.
  - assert (Hf : y ∈ filter (matches k) xs) by (rewrite EF; left). apply list_elem_of_filter in Hf as [Hm Hy]. split; [|done]. apply elem_of_concat. eauto.
Qed.

(** [for (v = tab[k]; v; v = nextkeq (v))] *)
Fixpoint iterate_keq (n : nat) m (p : elt) : outcome (list positive) :=
  match n, p with
  | _, None => Done []
  | O, Some _ => Spin
  | S n, Some x => p ← nextkeq key m x; l ← iterate_keq n m p; Done (x :: l)
  end.
Lemma iterate_keq_ok m t B i k : ihash_ok m t B -> hashed m B -> forall ys xs n, B !! i = Some (xs ++ ys) -> (length ys <= n)%nat -> iterate_keq n m (head (filter (matches k) ys)) = Done (filter (matches k) ys).
Proof.
  intros H Hh ys. induction ys as [|y ys IH]; intros xs n Hi Hn; [by destruct n|]. assert (Hi' : B !! i = Some ((xs ++ [y]) ++ ys)) by (by rewrite <- app_assoc). destruct (decide (matches k y)) as [Em|Em].
  - rewrite filter_cons_True by done. destruct n as [|n]; [cbn in Hn; lia|]. cbn [head iterate_keq]. rewrite (nextkeq_ok _ _ _ _ _ _ _ H Hh Hi). cbn [mbind outcome_bind].
    assert (Ef : filter (matches (key y)) ys = filter (matches k) ys).
    { apply list_filter_iff. intros z. unfold matches in *. split; intros Hz; [by eapply eqk_trans|]. apply eqk_sym in Em. by eapply eqk_trans. }
    rewrite Ef, (IH _ n Hi'); [done|cbn in Hn; lia].
  - rewrite filter_cons_False by done. eapply IH; [done|cbn in Hn; lia].
Qed.

(** *** Refinement *)
(** What the user of a table does; the table is a set of elements. *)
Inductive ihop := IInsert (x : positive) | IRemove (x : positive) | ILookup (k : K) | IAllEqual (k : K) | IElements | ITraverse | ISize | IClear | IDeleteAll.
Inductive ihres := RUnit | RElt (r : elt) | RElts (l : list positive) | RSize (n : Z).
Definition ih_step m t (o : ihop) : outcome (hmem * ihash_table * ihres) :=
  match o with
  | IInsert x => r ← ihash_insert New key m t x; Done (r, RUnit)
  | IRemove x => r ← ihash_remove m t x; Done (r, RUnit)
  | ILookup k => r ← ihash_lookup key m t k; Done (m, t, RElt r)
  | IAllEqual k => p ← ihash_lookup key m t k; l ← iterate_keq (turns m) m p; Done (m, t, RElts l)
  | IElements => l ← elements m t; Done (m, t, RElts l)
  | ITraverse => s ← ihash_traverse fst (fun _ => t) see (m, []); Done (s.1, t, RElts s.2)
  | ISize => Done (m, t, RSize (entries t))
  | IClear => r ← ihash_clear New m t; Done (r, RUnit)
  | IDeleteAll => r ← ihash_deleteall New m t; Done (r, RUnit)
  end.
(** [X] are the elements of the table. *)
Inductive set_step (X : gset positive) : ihop -> ihres -> gset positive -> Prop :=
| ss_insert x : x ∉ X -> set_step X (IInsert x) RUnit ({[x]} ∪ X)
| ss_remove x : x ∈ X -> set_step X (IRemove x) RUnit (X ∖ {[x]})
| ss_found k x : x ∈ X -> matches k x -> set_step X (ILookup k) (RElt (Some x)) X
| ss_none k : (forall x, x ∈ X -> ~ matches k x) -> set_step X (ILookup k) (RElt None) X
| ss_equal k l : NoDup l -> (forall x, x ∈ l <-> x ∈ X /\ matches k x) -> set_step X (IAllEqual k) (RElts l) X
| ss_elements l : NoDup l -> (forall x, x ∈ l <-> x ∈ X) -> set_step X IElements (RElts l) X
| ss_traverse l : NoDup l -> (forall x, x ∈ l <-> x ∈ X) -> set_step X ITraverse (RElts l) X
| ss_size : set_step X ISize (RSize (Z.of_nat (size X))) X
| ss_clear : set_step X IClear RUnit ∅
| ss_deleteall : set_step X IDeleteAll RUnit ∅.
(** [deleteall] frees the elements; nothing else changes what is allocated. *)
Definition dom_after (D X : gset positive) (o : ihop) : gset positive := match o with IDeleteAll => D ∖ X | _ => D end.
(** What the code relies on: what is inserted is allocated and not in the table,
    what is removed is in the table, and there are not too many elements. *)
Definition allowed (D X : gset positive) (o : ihop) : Prop :=
  match o with
  | IInsert x => (x ∈ D) /\ (x ∉ X) /\ Z.of_nat (size X) + 1 < 0xfffffffb
  | IRemove x => x ∈ X
  | _ => True
  end.

Definition represents m t (X : gset positive) : Prop := exists B, ihash_ok m t B /\ hashed m B /\ X = list_to_set (concat B).

Lemma ih_step_ok m t X o : represents m t X -> allowed (dom (lk_ent (hm_links m))) X o ->
  exists m' t' r X', ih_step m t o = Done (m', t', r) /\ set_step X o r X' /\ represents m' t' X' /\ dom (lk_ent (hm_links m')) = dom_after (dom (lk_ent (hm_links m))) X o.
Proof.
  intros (B & H & Hh & ->) Ho. pose proof (ih_nodup _ _ _ (ih_table _ _ _ H)) as ND. destruct o as [x|x|k|k| | | | |]; cbn [ih_step allowed dom_after] in *.
  - destruct Ho as (Hx & Nx & Hsz). rewrite size_list_to_set in Hsz by done. rewrite elem_of_list_to_set in Nx. destruct (insert_ok New HNew m t B x (hash (key x)) H Nx) as (m' & t' & B' & E & H' & P & D & V).
    { unfold getp. rewrite fmap_is_Some. by apply elem_of_dom. }
    { apply hash_range. }
    { done. }
    unfold ihash_insert. rewrite E. eexists _, _, _, _. split; [reflexivity|]. split; [apply ss_insert; by rewrite elem_of_list_to_set|]. split; [|done]. exists B'. split_and!; [done| |].
    + intros y. rewrite P, elem_of_cons, V. intros [->|Hy]; [apply lookup_insert_eq|]. rewrite lookup_insert_ne by (by intros ->). by apply Hh.
    + rewrite P. done.
  - apply elem_of_list_to_set in Ho. destruct (remove_ok m t B x H Ho) as (m' & t' & B' & E & H' & P & D & V). rewrite E. eexists _, _, _, _. split; [reflexivity|].
    split; [apply ss_remove; by rewrite elem_of_list_to_set|]. split; [|done]. exists B'. split_and!; [done| |].
    + intros y Hy. rewrite V. apply Hh. rewrite P. by right.
    + rewrite P. rewrite P in ND. apply NoDup_cons in ND as [Nx _]. cbn [list_to_set]. apply set_eq. intros y. rewrite elem_of_difference, elem_of_union, elem_of_singleton, elem_of_list_to_set. naive_solver.
  - destruct (ihash_lookup_spec m t B k H Hh) as ([x|] & -> & Hr); eexists _, _, _, _; (split; [reflexivity|]); (split; [|split; [by exists B|done]]).
    + apply ss_found; [apply elem_of_list_to_set, Hr|apply Hr].
    + apply ss_none. intros x Hx%elem_of_list_to_set. by apply Hr.
  - destruct (bucket_ok m t B (hash k) (ih_table _ _ _ H)) as [xs Hxs]. rewrite (lookup_ok _ _ _ _ _ H Hh Hxs). cbn [mbind outcome_bind].
    rewrite (iterate_keq_ok m t B _ k H Hh xs [] (turns m) Hxs) by (pose proof (bucket_turns _ _ _ _ _ (ih_table _ _ _ H) Hxs); lia). eexists _, _, _, _. split; [reflexivity|]. split; [|split; [by exists B|done]].
    apply ss_equal; [apply NoDup_filter; by eapply concat_nodup|]. intros x. rewrite list_elem_of_filter, elem_of_list_to_set. split; [intros [Hm Hx]; split; [apply elem_of_concat; eauto|done]|].
    intros [Hx Hm]. split; [done|]. destruct (bucket_matches m t B k x (ih_table _ _ _ H) Hh Hx Hm) as (xs' & Hi & Hx'). by assert (xs' = xs) as -> by congruence.
  - rewrite (elements_ok _ _ _ H). eexists _, _, _, _. split; [reflexivity|]. split; [|split; [by exists B|done]]. apply ss_elements; [done|]. intros x. by rewrite elem_of_list_to_set.
  - rewrite (traverse_see m t B (ih_table _ _ _ H)). eexists _, _, _, _. split; [reflexivity|]. split; [|split; [by exists B|done]]. apply ss_traverse; [done|]. intros x. by rewrite elem_of_list_to_set.
  - eexists _, _, _, _. split; [reflexivity|]. split; [|split; [by exists B|done]]. rewrite (ih_entries _ _ _ H). rewrite <- (size_list_to_set (C := gset positive)) by done. apply ss_size.
  - destruct (clear_ok New HNew m t B (ih_table _ _ _ H)) as (m' & t' & -> & H' & D). eexists _, _, _, _. split; [reflexivity|]. split; [apply ss_clear|]. split; [|done]. exists [[]; []; []]. split_and!; [done|by intros x ?%elem_of_nil|done].
  - destruct (deleteall_ok New HNew m t B H) as (m' & t' & -> & H' & D). eexists _, _, _, _. split; [reflexivity|]. split; [apply ss_deleteall|]. split; [|done]. exists [[]; []; []]. split_and!; [done|by intros x ?%elem_of_nil|done].
Qed.
End keyed.

(** *** Runs *)
Section runs.
Context {K : Type} `{HK : !HashKey K} `{HKok : !HashKeyOK K} (key : positive -> K).

Fixpoint ih_run (New : gset positive -> positive) (m : hmem) (t : ihash_table) (ops : list (ihop (K := K))) : outcome (hmem * ihash_table * list ihres) :=
  match ops with
  | [] => Done (m, t, [])
  | o :: ops =>
      x ← ih_step New key m t o;
      let '(m, t, r) := x : hmem * ihash_table * ihres in
      y ← ih_run New m t ops;
      let '(m, t, rs) := y : hmem * ihash_table * list ihres in
      Done (m, t, r :: rs)
  end.
(** What is allocated, and which of it is in the table *)
Inductive set_run : gset positive -> gset positive -> list (ihop (K := K)) -> list ihres -> gset positive -> gset positive -> Prop :=
| sr_nil D X : set_run D X [] [] D X
| sr_cons D X o r X1 ops rs D2 X2 : set_step key X o r X1 -> set_run (dom_after D X o) X1 ops rs D2 X2 -> set_run D X (o :: ops) (r :: rs) D2 X2.
(** The set after an operation, and the scripts that are allowed *)
Definition set_after (X : gset positive) (o : ihop (K := K)) : gset positive :=
  match o with IInsert x => {[x]} ∪ X | IRemove x => X ∖ {[x]} | IClear | IDeleteAll => ∅ | _ => X end.
Fixpoint all_allowed (D X : gset positive) (ops : list (ihop (K := K))) : Prop :=
  match ops with [] => True | o :: ops => allowed D X o /\ all_allowed (dom_after D X o) (set_after X o) ops end.
Lemma set_step_after X o r X' : set_step key X o r X' -> X' = set_after X o.
Proof using. by destruct 1. Qed.
End runs.

(** C6: a hash table behaves as a set of elements with keys under every
    sequence of insertions, removals, searches, walks over all elements (by
    [first] and [next] and by [traverse]) and over the elements of a key, [clear] and
    [deleteall]: no access is out of bounds or to freed memory, a search finds an
    element with an equal key if there is one and nothing else, each walk gives
    every element once, [deleteall] frees each element of the table once and no
    other, and nothing else is freed; whatever the hash function and through all growing of
    the table. *)
Theorem ihash_refines_set {K} `{HK : !HashKey K} `{HKok : !HashKeyOK K} (key : positive -> K) (New : gset positive -> positive) (m : hmem) (ops : list ihop) :
  (forall X, New X ∉ X) -> all_allowed (dom (lk_ent (hm_links m))) ∅ ops ->
  exists m0 t0 m' t' rs X, ihash_init New m = Done (m0, t0) /\ ih_run key New m0 t0 ops = Done (m', t', rs) /\
    set_run key (dom (lk_ent (hm_links m))) ∅ ops rs (dom (lk_ent (hm_links m'))) X /\ represents key m' t' X.
Proof.
  intros HNew Hops. destruct (init_ok New HNew m) as (m0 & t0 & E0 & H0 & D0). exists m0, t0.
  assert (Run : forall ops m t X, represents key m t X -> all_allowed (dom (lk_ent (hm_links m))) X ops ->
    exists m' t' rs X', ih_run key New m t ops = Done (m', t', rs) /\ set_run key (dom (lk_ent (hm_links m))) X ops rs (dom (lk_ent (hm_links m'))) X' /\ represents key m' t' X').
  { clear - HNew HKok. induction ops as [|o ops IH]; intros m t X HR Ha; [exists m, t, [], X; split; [done|]; split; [constructor|done]|]. destruct Ha as [Ho Ha].
    destruct (ih_step_ok New HNew key m t X o HR Ho) as (m1 & t1 & r & X1 & E1 & S1 & R1 & D1). pose proof (set_step_after key _ _ _ _ S1). subst X1. rewrite <- D1 in Ha.
    destruct (IH m1 t1 _ R1 Ha) as (m' & t' & rs & X' & E & S & R). exists m', t', (r :: rs), X'. cbn [ih_run]. rewrite E1. cbn [mbind outcome_bind]. rewrite E. cbn [mbind outcome_bind].
    split; [done|]. split; [|done]. rewrite D1 in S. by econstructor. }
  destruct (Run ops m0 t0 ∅) as (m' & t' & rs & X & E & S & R).
  - exists [[]; []; []]. split_and!; [done| |done]. by intros x ?%elem_of_nil.
  - by rewrite D0.
  - rewrite D0 in S. exists m', t', rs, X. done.
Qed.

(** ** Keys *)
Lemma u32_bound x : 0 <= u32 x < 2 ^ 32.
Proof. rewrite u32_mod. apply Z.mod_pos_bound. lia. Qed.
#[export] Instance int_key_ok : HashKeyOK Z.
Proof.
  split; cbn [hash eqk int_key]; intros *; rewrite ?Z.eqb_eq; [apply u32_bound|done|done|congruence|congruence].
Qed.
#[export] Instance str_key_ok : HashKeyOK (list Z).
Proof.
  split; cbn [hash eqk str_key]; intros *; rewrite ?bool_decide_eq_true; [|done|done|congruence|congruence].
  unfold hash_bytes. assert (Hr : forall s v, 0 <= v < 2 ^ 32 -> 0 <= foldl (fun seed b => u32 ((u32 (seed .<< 5) + seed) .^ b)) v s < 2 ^ 32); [|by apply Hr].
  induction s as [|b s IH]; intros v Hv; [done|]. cbn [foldl]. apply IH, u32_bound.
Qed.
#[export] Instance pair_key_ok {K1 K2} `{!HashKey K1} `{!HashKeyOK K1} `{!HashKey K2} `{!HashKeyOK K2} : HashKeyOK (K1 * K2).
Proof.
  split; cbn [hash eqk pair_key]; intros *; rewrite ?andb_true_iff.
  - apply u32_bound.
  - by rewrite !eqk_refl.
  - intros [H1 H2]. split; by apply eqk_sym.
  - intros [H1 H2] [H3 H4]. split; by eapply eqk_trans.
  - intros [H1 H2]. by rewrite (eqk_hash _ _ H1), (eqk_hash _ _ H2).
Qed.
(** The two hash functions for strings agree on strings of C. *)
Lemma hash_string_bytes s : forall v, Forall (fun c => c <> 0) s -> 0 <= v < 2 ^ 32 -> hash_string s v = hash_bytes s v.
Proof.
  induction s as [|c s IH]; intros v Hs Hv; [done|]. apply Forall_cons in Hs as [Hc Hs]. cbn [hash_string]. destruct (Z.eqb_spec c 0); [done|]. change (hash_bytes (c :: s) v) with (hash_bytes s (u32 ((u32 (v .<< 5) + v) .^ c))).
  rewrite IH by (done || apply u32_bound). f_equal. assert (E : forall x, u32 (x .^ c) = u32 x .^ u32 c) by (intros x; unfold u32; apply Z.bits_inj'; intros i Hi; autorewrite with bits; by destruct (Z.testbit x i), (Z.testbit c i), (Z.testbit 4294967295 i)).
  rewrite !E. f_equal. rewrite !u32_mod, Z.shiftl_mul_pow2 by lia. rewrite Z.add_mod_idemp_l by lia. f_equal. lia.
Qed.

(** *** An example: growing from 3 over 7 to 13 buckets *)
Definition new_addr (X : gset positive) : positive := fresh X.
Lemma new_addr_fresh X : new_addr X ∉ X.
Proof. apply is_fresh. Qed.
Definition some_elts : hmem := mkhm (mklk ∅ (list_to_map ((fun p => (p, mkle None (Next p))) <$> [1; 2; 3; 4; 5; 6; 7; 8]%positive))) ∅.
Definition some_ops : list (ihop (K := Z)) :=
  (IInsert <$> [1; 2; 3; 4; 5; 6; 7; 8]%positive) ++ [IRemove 3%positive; ILookup 2; ILookup 5; ISize; IAllEqual 0; IElements; ITraverse; IDeleteAll; IInsert 3%positive; IClear; IElements].
Lemma ihash_refines_set_witness :
  exists m0 t0 m' t' rs X, ihash_init new_addr some_elts = Done (m0, t0) /\ ih_run (fun p => Zpos p mod 3) new_addr m0 t0 some_ops = Done (m', t', rs)
    /\ set_run (fun p => Zpos p mod 3) (dom (lk_ent (hm_links some_elts))) ∅ some_ops rs (dom (lk_ent (hm_links m'))) X /\ represents (fun p => Zpos p mod 3) m' t' X.
Proof.
  apply (ihash_refines_set (fun p => Zpos p mod 3) new_addr some_elts some_ops new_addr_fresh). cbn [all_allowed some_ops app fmap list_fmap allowed set_after dom_after]. split_and!; try done; vm_compute; try reflexivity; try (intros; discriminate); eauto.
Defined.
