(* ===== verification/Qhash.v ===== *)
(** * Maps on hash tables: [async/qhash.h]

    [qhash] keeps its slots itself: a slot is allocated when a new key is
    inserted and freed when it is removed.  [bhash] is the same without
    values.  The table implements a finite map: every sequence of operations
    has the results of the map's, and all slots that are allocated are in the
    table. *)
From Stdlib Require Import ZArith Lia.
From stdpp Require Import prelude gmap.
From S2P Require Import Prelude Bits Links Ihash IhashProps.

Section qhash.
Context (New : gset positive -> positive) (raw : list_entry).
Context {K V : Type} `{HK : !HashKey K} (V0 : V).

(** The memory of the links and of the keys and values of the slots *)
Record qhash := mkq { q_mem : hmem; q_slots : gmap positive (K * V); q_tab : ihash_table }.
Implicit Types (q : qhash) (k : K) (v : V).

Definition q_slot q (s : positive) : outcome (K * V) := match q_slots q !! s with Some kv => Done kv | None => Wild end.

(** [s && !eq (s->key, k); s = next_val (s)] *)
Fixpoint find_slot (n : nat) q k (s : elt) : outcome elt :=
  match n, s with
  | _, None => Done None
  | O, Some _ => Spin
  | S n, Some x =>
      kv ← q_slot q x;
      if eqk kv.1 k then Done (Some x) else s ← next_val (q_mem q) x; find_slot n q k s
  end.
Definition getslot q k : outcome elt :=
  s ← lookup_val (q_mem q) (q_tab q) (hash k);
  find_slot (turns (q_mem q)) q k s.
(** [New slot (k, v)] *)
Definition new_slot q k v : positive * qhash :=
  let l := hm_links (q_mem q) in
  let s := New (dom (lk_ent l)) in
  (s, mkq (mkhm (mklk (lk_arr l) (<[s := raw]> (lk_ent l))) (hm_val (q_mem q))) (<[s := (k, v)]> (q_slots q)) (q_tab q)).
Definition delslot q (s : positive) : outcome qhash :=
  x ← ihash_remove (q_mem q) (q_tab q) s;
  m ← delete_elm x.1 s;
  Done (mkq m (delete s (q_slots q)) x.2).

(** [qhash ()] *)
Definition qhash_new (m : hmem) : outcome qhash := x ← ihash_init New m; Done (mkq x.1 ∅ x.2).
Definition qhash_clear q : outcome qhash :=
  q ← ihash_traverse q_mem q_tab delslot q;
  x ← ihash_clear New (q_mem q) (q_tab q);
  Done (mkq x.1 (q_slots q) x.2).

Definition qhash_insert q k v : outcome qhash :=
  s ← getslot q k;
  match s with
  | Some s => kv ← q_slot q s; Done (mkq (q_mem q) (<[s := (kv.1, v)]> (q_slots q)) (q_tab q))
  | None =>
      let '(s, q) := new_slot q k v in
      x ← insert_val New (q_mem q) (q_tab q) s (hash k);
      Done (mkq x.1 (q_slots q) x.2)
  end.
(** [insert (k)]: the value is [V ()] *)
Definition qhash_insert1 q k : outcome qhash := qhash_insert q k V0.
Definition qhash_remove q k : outcome qhash :=
  s ← getslot q k;
  match s with Some s => delslot q s | None => Done q end.
(** [operator[]]: the value, or [NULL] *)
Definition qhash_lookup q k : outcome (option V) :=
  s ← getslot q k;
  match s with Some s => kv ← q_slot q s; Done (Some kv.2) | None => Done None end.
(** [traverse], with a callback that leaves the table alone *)
Definition qhash_traverse {A} (cb : A -> K -> V -> A) q (a : A) : outcome A :=
  ihash_traverse (fun _ => q_mem q) (fun _ => q_tab q) (fun a s => kv ← q_slot q s; Done (cb a kv.1 kv.2)) a.
End qhash.

(** ** [bhash] *)
Section bhash.
Context (New : gset positive -> positive) (raw : list_entry).
Context {K : Type} `{HK : !HashKey K}.

Definition bhash_clear (q : qhash (K := K) (V := unit)) : outcome (qhash (K := K) (V := unit)) :=
  x ← ihash_deleteall New (q_mem q) (q_tab q);
  Done (mkq x.1 ∅ x.2).
Definition bhash_insert (q : qhash (K := K) (V := unit)) (k : K) : outcome (bool * qhash (K := K) (V := unit)) :=
  s ← getslot q k;
  match s with
  | Some _ => Done (false, q)
  | None =>
      let '(s, q) := new_slot New raw q k tt in
      x ← insert_val New (q_mem q) (q_tab q) s (hash k);
      Done (true, mkq x.1 (q_slots q) x.2)
  end.
Definition bhash_remove (q : qhash (K := K) (V := unit)) (k : K) : outcome (qhash (K := K) (V := unit)) :=
  s ← getslot q k;
  match s with Some s => delslot q s | None => Done q end.
Definition bhash_lookup (q : qhash (K := K) (V := unit)) (k : K) : outcome bool := s ← getslot q k; Done (bool_decide (is_Some s)).
End bhash.

(** ** The map *)
Section props.
Context (New : gset positive -> positive) (HNew : forall X, New X ∉ X) (raw : list_entry).
Context {K V : Type} `{HK : !HashKey K} `{HKok : !HashKeyOK K} `{!EqDecision K} `{!Countable K} (eqk_eq : forall a b : K, eqk a b = true <-> a = b).
Implicit Types (q : qhash (K := K) (V := V)) (k : K) (v : V) (M : gmap K V) (B : list (list positive)).

(** The slots of the table, all of them, have the keys and values of the map. *)
Record qhash_ok q M B : Prop := {
  qo_table : ihash_ok (q_mem q) (q_tab q) B;
  qo_alloc : dom (lk_ent (hm_links (q_mem q))) = list_to_set (concat B);
  qo_slots : dom (q_slots q) = list_to_set (concat B);
  qo_val x k v : x ∈ concat B -> q_slots q !! x = Some (k, v) -> hm_val (q_mem q) !! x = Some (hash k);
  qo_map x k v : x ∈ concat B -> q_slots q !! x = Some (k, v) -> M !! k = Some v;
  qo_has k v : M !! k = Some v -> exists x, x ∈ concat B /\ q_slots q !! x = Some (k, v);
  qo_inj x y k v v' : x ∈ concat B -> y ∈ concat B -> q_slots q !! x = Some (k, v) -> q_slots q !! y = Some (k, v') -> x = y
}.

Lemma slot_of q M B x : qhash_ok q M B -> x ∈ concat B -> exists k v, q_slots q !! x = Some (k, v) /\ M !! k = Some v.
Proof using.
  intros H Hx. assert (Hd : x ∈ dom (q_slots q)) by (rewrite (qo_slots _ _ _ H); by apply elem_of_list_to_set). apply elem_of_dom in Hd as [[k v] E]. exists k, v. split; [done|]. by eapply qo_map.
Qed.

(** A search gives the slot of the key. *)
Lemma getslot_ok q M B k : qhash_ok q M B ->
  exists r, getslot q k = Done r /\ match r with Some x => x ∈ concat B /\ exists v, q_slots q !! x = Some (k, v) | None => M !! k = None end.
Proof using eqk_eq HKok.
  intros H. pose (key := fun x => from_option fst k (q_slots q !! x)). assert (Hh : hashed key (q_mem q) B).
  { intros x Hx. destruct (slot_of q M B x H Hx) as (k' & v' & E & _). unfold key. rewrite E. cbn. by eapply qo_val. }
  assert (Ef : forall n p, (forall x, p = Some x -> x ∈ concat B) -> (forall x y, x ∈ concat B -> next_val (q_mem q) x = Done (Some y) -> y ∈ concat B) -> find_slot n q k p = find_key key n (q_mem q) k p).
  { induction n as [|n IH]; intros [x|] Hp Hn; try done. cbn [find_slot find_key]. unfold q_slot. destruct (slot_of q M B x H (Hp x eq_refl)) as (k' & v' & E & _). rewrite E. cbn [mbind outcome_bind fst].
    assert (Ek : key x = k') by (unfold key; by rewrite E). rewrite Ek. assert (Es : eqk k' k = eqk k k'). { apply eq_true_iff_eq. rewrite !eqk_eq. done. } rewrite Es. destruct (eqk k k'); [done|].
    destruct (next_val (q_mem q) x) as [p| | |] eqn:En; try done. cbn [mbind outcome_bind]. apply IH; [|done]. intros y ->. by eapply Hn, En; apply Hp. }
  pose proof (qo_table _ _ _ H) as HT. destruct (bucket_ok _ _ B (hash k) (ih_table _ _ _ HT)) as [xs Hxs]. assert (Hsub : forall y i zs, B !! i = Some zs -> y ∈ zs -> y ∈ concat B) by (intros; apply elem_of_concat; eauto).
  destruct (ihash_lookup_spec key (q_mem q) (q_tab q) B k HT Hh) as (r & El & Hr). unfold ihash_lookup in El. unfold getslot. pose proof (lookup_val_ok _ _ _ _ _ (ih_table _ _ _ HT) Hxs) as E1. rewrite E1 in El |- *.
  cbn [mbind outcome_bind] in *. rewrite Ef, El.
  - exists r. split; [done|]. destruct r as [x|].
    + destruct Hr as [Hx Hm]. split; [done|]. destruct (slot_of q M B x H Hx) as (k' & v' & E & _). unfold matches, key in Hm. rewrite E in Hm. cbn in Hm. apply eqk_eq in Hm. subst k'. eauto.
    + destruct (M !! k) as [v|] eqn:E; [|done]. exfalso. destruct (qo_has _ _ _ H k v E) as (x & Hx & Ex). apply (Hr x Hx). unfold matches, key. rewrite Ex. cbn. by apply eqk_eq.
  - intros x E%head_elem. apply list_elem_of_filter in E as [_ E]. by eapply Hsub.
  - intros x y Hx En. pose proof (Hh x Hx) as Hv. apply elem_of_concat in Hx as (i & zs & Hi & Hx). apply list_elem_of_split in Hx as (l1 & l2 & ->).
    rewrite (next_val_ok _ _ _ _ _ _ _ _ (ih_table _ _ _ HT) Hi Hv) in En. injection En as En%head_elem. apply list_elem_of_filter in En as [_ En]. eapply Hsub; [done|]. apply elem_of_app. right. by right.
Qed.

(** The invariant of a table depends on its array and its elements only. *)
Lemma ihash_ext m m' t B : ihash_ok m t B -> lk_arr (hm_links m') = lk_arr (hm_links m) ->
  (forall x, x ∈ concat B -> lk_ent (hm_links m') !! x = lk_ent (hm_links m) !! x /\ hm_val m' !! x = hm_val m !! x) -> ihash_ok m' t B.
Proof using.
  intros [[H1 H2 H3 H4 H5] He Hl] Ha Hx. split; [|done|done]. split; try done.
  - destruct H1 as (a & L & Et & HL & Hb & C). exists a, L. rewrite Ha. split_and!; try done. intros i xs Hi. specialize (C i xs Hi).
    assert (Hsub : forall y, y ∈ xs -> y ∈ concat B) by (intros y Hy; apply elem_of_concat; eauto). clear Hi. assert (Hc : get (hm_links m') (Cell a i) = get (hm_links m) (Cell a i)) by (cbn [get]; by rewrite Ha).
    revert Hc C. generalize (Cell a i) as lc. induction xs as [|x xs IH]; intros lc Hc C; cbn [chain] in *; [by rewrite Hc|]. destruct C as (C1 & C2 & C3). destruct (Hx x (Hsub x ltac:(left))) as [Hx1 _].
    rewrite Hc. unfold getp in *. rewrite Hx1. split_and!; [done|done|]. apply IH; [intros y Hy; apply Hsub; by right| |done]. cbn [get]. by rewrite Hx1.
  - intros i xs x Hi Hx'. destruct (Hx x) as [_ ->]; [apply elem_of_concat; eauto|]. by eapply H4.
Qed.

(** *** Insertion *)
Lemma insert_old q M B k v x v0 : qhash_ok q M B -> x ∈ concat B -> q_slots q !! x = Some (k, v0) -> qhash_ok (mkq (q_mem q) (<[x := (k, v)]> (q_slots q)) (q_tab q)) (<[k := v]> M) B.
Proof using.
  intros [H1 H2 H3 H4 H5 H6 H7] Hx Ex. assert (Hk : forall y k' v', y ∈ concat B -> y <> x -> q_slots q !! y = Some (k', v') -> k' <> k) by (intros y k' v' Hy Hne Ey ->; apply Hne; by eapply H7).
  split; cbn [q_mem q_slots q_tab]; try done.
  - rewrite dom_insert_L, H3. assert (Hx' : x ∈ (list_to_set (concat B) : gset positive)) by (by apply elem_of_list_to_set). clear - Hx'. set_solver.
  - intros y k' v' Hy. rewrite lookup_insert_Some. intros [[<- [= <- <-]]|[Hne Ey]]; by eapply H4.
  - intros y k' v' Hy. rewrite lookup_insert_Some. intros [[<- [= <- <-]]|[Hne Ey]]; [by rewrite lookup_insert_eq|]. rewrite lookup_insert_ne by (apply not_eq_sym; eapply Hk; [exact Hy|congruence|exact Ey]). by eapply H5.
  - intros k' v'. rewrite lookup_insert_Some. intros [[<- <-]|[Hne Em]]; [exists x; by rewrite lookup_insert_eq|]. destruct (H6 k' v' Em) as (y & Hy & Ey). exists y. split; [done|].
    rewrite lookup_insert_ne; [done|]. intros ->. congruence.
  - intros y z k' v1 v2 Hy Hz. rewrite !lookup_insert_Some. intros [[<- [= <- <-]]|[Hne Ey]] [[<- [= <-]]|[Hne' Ez]]; try done; try (by eapply H7).
Qed.

Lemma insert_new q M B k v : qhash_ok q M B -> M !! k = None -> Z.of_nat (size M) + 1 < 0xfffffffb -> Z.of_nat (length (concat B)) = Z.of_nat (size M) ->
  exists q' B', (let '(s, q1) := new_slot New raw q k v in x ← insert_val New (q_mem q1) (q_tab q1) s (hash k); Done (mkq x.1 (q_slots q1) x.2)) = Done q' /\ qhash_ok q' (<[k := v]> M) B' /\ length (concat B') = S (length (concat B)).
Proof using HNew HKok.
  intros H Hk Hsz Hlen. unfold new_slot. set (s := New (dom (lk_ent (hm_links (q_mem q))))). assert (Ns : s ∉ concat B).
  { intros Hs. apply (HNew (dom (lk_ent (hm_links (q_mem q))))). fold s. rewrite (qo_alloc _ _ _ H). by apply elem_of_list_to_set. }
  set (m1 := mkhm _ _). assert (T1 : ihash_ok m1 (q_tab q) B).
  { eapply ihash_ext; [by eapply qo_table|done|]. intros x Hx. split; [|done]. cbn. rewrite lookup_insert_ne; [done|]. by intros ->. }
  cbn [q_mem q_tab q_slots]. destruct (insert_ok New HNew m1 (q_tab q) B s (hash k) T1 Ns) as (m' & t' & B' & E & T' & P & D & Vv).
  { unfold getp, m1. cbn. by rewrite lookup_insert_eq. }
  { apply hash_range. }
  { lia. }
  rewrite E. cbn [mbind outcome_bind fst snd]. eexists _, B'. split; [reflexivity|]. split; [|by rewrite P]. destruct H as [H1 H2 H3 H4 H5 H6 H7].
  assert (Hks : forall y k' v', y ∈ concat B -> q_slots q !! y = Some (k', v') -> k' <> k) by (intros y k' v' Hy Ey ->; assert (M !! k = Some v') by (by eapply H5); congruence).
  split; cbn [q_mem q_slots q_tab]; [done| | | | | |].
  - rewrite D. unfold m1. cbn [hm_links lk_ent]. rewrite dom_insert_L, H2, P. done.
  - rewrite dom_insert_L, H3, P. done.
  - intros x k' v' Hx. rewrite Vv. rewrite P in Hx. rewrite lookup_insert_Some. intros [[<- [= <- <-]]|[Hne Ex]]; [by rewrite lookup_insert_eq|]. rewrite lookup_insert_ne by done.
    apply elem_of_cons in Hx as [->|Hx]; [done|]. by eapply H4.
  - intros x k' v' Hx. rewrite P in Hx. rewrite lookup_insert_Some. intros [[<- [= <- <-]]|[Hne Ex]]; [by rewrite lookup_insert_eq|]. apply elem_of_cons in Hx as [->|Hx]; [done|].
    rewrite lookup_insert_ne by (apply not_eq_sym; eapply Hks; [exact Hx|exact Ex]). by eapply H5.
  - intros k' v'. rewrite lookup_insert_Some. intros [[<- <-]|[Hne Em]].
    + exists s. rewrite P, lookup_insert_eq. split; [left|done].
    + destruct (H6 k' v' Em) as (y & Hy & Ey). exists y. rewrite P. split; [by right|]. rewrite lookup_insert_ne; [done|]. by intros ->.
  - intros x y k' v1 v2 Hx Hy. rewrite P in Hx, Hy. rewrite !lookup_insert_Some. apply elem_of_cons in Hx as [->|Hx], Hy as [->|Hy]; try done.
    + intros [[_ [= <- <-]]|[? _]] [[<- _]|[_ Ey]]; try done. by destruct (Hks y k v2 Hy Ey).
    + intros [[<- _]|[_ Ex]] [[_ [= <- <-]]|[? _]]; try done. by destruct (Hks x k v1 Hx Ex).
    + intros [[<- _]|[_ Ex]] [[<- _]|[_ Ey]]; try done. by eapply H7.
Qed.

Lemma size_map q M B : qhash_ok q M B -> length (concat B) = size M.
Proof using.
  intros H. pose proof (ih_nodup _ _ _ (ih_table _ _ _ (qo_table _ _ _ H))) as ND. rewrite <- (size_list_to_set (C := gset positive)) by done. rewrite <- (qo_slots _ _ _ H), size_dom.
  rewrite <- (length_map_to_list (q_slots q)), <- (length_map_to_list M). assert (Hin : forall x, is_Some (q_slots q !! x) <-> x ∈ concat B).
  { intros x. rewrite <- elem_of_dom, (qo_slots _ _ _ H). apply elem_of_list_to_set. }
  assert (P : (map_to_list (q_slots q)).*2 ≡ₚ map_to_list M); [|by rewrite <- P, length_fmap]. apply NoDup_Permutation.
  - apply NoDup_fmap_2_strong; [|apply NoDup_map_to_list]. intros [x [k v]] [y [k' v']] Hx%elem_of_map_to_list Hy%elem_of_map_to_list. cbn. intros [= <- <-].
    assert (x = y) as -> by (eapply (qo_inj _ _ _ H); [apply Hin|apply Hin|exact Hx|exact Hy]; by rewrite ?Hx, ?Hy). done.
  - apply NoDup_map_to_list.
  - intros [k v]. rewrite elem_of_map_to_list, list_elem_of_fmap. split.
    + intros ([x kv] & E & Hx%elem_of_map_to_list). cbn in E. subst kv. eapply (qo_map _ _ _ H); [apply Hin; by rewrite Hx|by rewrite Hx].
    + intros Hk. destruct (qo_has _ _ _ H k v Hk) as (x & Hx & Ex). exists (x, (k, v)). split; [done|]. by apply elem_of_map_to_list.
Qed.

Lemma qhash_insert_spec q M B k v : qhash_ok q M B -> Z.of_nat (size M) + 1 < 0xfffffffb -> exists q' B', qhash_insert New raw q k v = Done q' /\ qhash_ok q' (<[k := v]> M) B'.
Proof using HNew HKok eqk_eq.
  intros H Hsz. unfold qhash_insert. destruct (getslot_ok q M B k H) as ([x|] & -> & Hr); cbn [mbind outcome_bind].
  - destruct Hr as (Hx & v0 & Ex). unfold q_slot. rewrite Ex. cbn [mbind outcome_bind fst]. eexists _, B. split; [reflexivity|]. by eapply insert_old.
  - destruct (insert_new q M B k v H Hr Hsz) as (q' & B' & E & H' & _); [by rewrite (size_map _ _ _ H)|]. exists q', B'. done.
Qed.

(** *** Removal *)
Lemma delslot_at q M B i xs x ys k v : qhash_ok q M B -> B !! i = Some (xs ++ x :: ys) -> q_slots q !! x = Some (k, v) ->
  exists q', delslot q x = Done q' /\ qhash_ok q' (delete k M) (<[i := xs ++ ys]> B) /\ buckets (q_tab q') = buckets (q_tab q) /\ tab (q_tab q') = tab (q_tab q).
Proof using.
  clear eqk_eq. intros H Hi Ex. pose proof (concat_pull B i xs ys x Hi) as P. pose proof (ih_nodup _ _ _ (ih_table _ _ _ (qo_table _ _ _ H))) as ND. rewrite P in ND. apply NoDup_cons in ND as [Nx ND].
  destruct (remove_at _ _ _ _ _ _ _ (qo_table _ _ _ H) Hi) as (m' & t' & E & T' & Hb & Ht & D & Vv). unfold delslot. rewrite E. cbn [mbind outcome_bind fst snd]. set (B' := <[i := xs ++ ys]> B) in *.
  assert (Hxd : x ∈ dom (lk_ent (hm_links m'))) by (rewrite D, (qo_alloc _ _ _ H), elem_of_list_to_set, P; left). unfold delete_elm. apply elem_of_dom in Hxd as [e Ee]. rewrite Ee. cbn [mbind outcome_bind].
  eexists. split; [reflexivity|]. cbn [q_tab]. split; [|done]. destruct H as [H1 H2 H3 H4 H5 H6 H7]. assert (Sub : forall y, y ∈ concat B' -> y ∈ concat B /\ y <> x) by (intros y Hy; rewrite P; split; [by right|by intros ->]).
  assert (Hx : x ∈ concat B) by (rewrite P; left).
  split; cbn [q_mem q_slots q_tab].
  - eapply ihash_ext; [done|done|]. cbn. intros y Hy. rewrite !lookup_delete_ne by (intros ->; by apply Nx). done.
  - cbn [hm_links lk_ent]. rewrite dom_delete_L, D, H2, P. cbn [list_to_set]. apply set_eq. intros y. rewrite elem_of_difference, elem_of_union, elem_of_singleton, elem_of_list_to_set. naive_solver.
  - rewrite dom_delete_L, H3, P. cbn [list_to_set]. apply set_eq. intros y. rewrite elem_of_difference, elem_of_union, elem_of_singleton, elem_of_list_to_set. naive_solver.
  - intros y k' v' Hy. destruct (Sub y Hy) as [Hy1 Hy2]. cbn [hm_val]. rewrite !lookup_delete_ne, Vv by congruence. by apply H4.
  - intros y k' v' Hy. destruct (Sub y Hy) as [Hy1 Hy2]. rewrite lookup_delete_ne by congruence. intros Ey. rewrite lookup_delete_ne; [by eapply H5|]. intros <-. apply Hy2. by eapply H7.
  - intros k' v'. rewrite lookup_delete_Some. intros [Hne Em]. destruct (H6 k' v' Em) as (y & Hy & Ey). exists y. rewrite P in Hy. apply elem_of_cons in Hy as [->|Hy]; [congruence|]. split; [done|].
    rewrite lookup_delete_ne; [done|]. intros ->. by apply Nx.
  - intros y z k' v1 v2 Hy Hz. destruct (Sub y Hy) as [Hy1 Hy2]. destruct (Sub z Hz) as [Hz1 Hz2]. rewrite !lookup_delete_ne by congruence. by apply H7.
Qed.

Lemma remove_spec q M B k : qhash_ok q M B -> exists q' B', qhash_remove q k = Done q' /\ qhash_ok q' (delete k M) B'.
Proof using HKok eqk_eq.
  intros H. unfold qhash_remove. destruct (getslot_ok q M B k H) as ([x|] & -> & Hr); cbn [mbind outcome_bind].
  - destruct Hr as (Hx & v & Ex). apply elem_of_concat in Hx as (i & zs & Hi & Hx). apply list_elem_of_split in Hx as (xs & ys & ->).
    destruct (delslot_at q M B i xs x ys k v H Hi Ex) as (q' & E & H' & _). eauto.
  - exists q, B. split; [done|]. by rewrite delete_id.
Qed.
Lemma qlookup_spec q M B k : qhash_ok q M B -> qhash_lookup q k = Done (M !! k).
Proof using HKok eqk_eq.
  intros H. unfold qhash_lookup. destruct (getslot_ok q M B k H) as ([x|] & -> & Hr); cbn [mbind outcome_bind]; [|by rewrite Hr]. destruct Hr as (Hx & v & Ex). unfold q_slot. rewrite Ex. cbn.
  by rewrite (qo_map _ _ _ H x k v Hx Ex).
Qed.

(** *** Clearing: every slot is taken out and freed *)
Lemma clear_bucket xs : forall n q M B i, qhash_ok q M B -> B !! i = Some xs -> (length xs <= n)%nat ->
  exists q' M', list_walk n (fun q => hm_links (q_mem q)) delslot q (head xs) = Done q' /\ qhash_ok q' M' (<[i := []]> B) /\ buckets (q_tab q') = buckets (q_tab q) /\ tab (q_tab q') = tab (q_tab q).
Proof using.
  induction xs as [|x xs IH]; intros n q M B i H Hi Hn; [exists q, M; rewrite list_insert_id by done; by destruct n|]. destruct n as [|n]; [cbn in Hn; lia|]. cbn [list_walk head].
  destruct (ih_tab _ _ _ (ih_table _ _ _ (qo_table _ _ _ H))) as (a & L & Et & HL & Hb & C). destruct (C _ _ Hi) as (_ & _ & Cx). rewrite (rd_loc_ok _ _ _ (chain_get _ _ _ Cx)). cbn [mbind outcome_bind].
  destruct (slot_of q M B x H) as (k & v & Ex & _); [apply elem_of_concat; eexists _, _; split; [done|left]|]. destruct (delslot_at q M B i [] x xs k v H Hi Ex) as (q1 & E1 & H1 & B1 & T1). rewrite E1. cbn [mbind outcome_bind].
  cbn [app] in H1. destruct (IH n q1 _ _ i H1) as (q' & M' & E & H' & B' & T'); [rewrite list_lookup_insert_eq by (by eapply lookup_lt_Some); done|cbn in Hn; lia|].
  exists q', M'. rewrite list_insert_insert_eq in H'. split_and!; [done|done|by rewrite B', B1|by rewrite T', T1].
Qed.
Lemma qo_drop_walk q M B i xs : qhash_ok q M B -> B !! i = Some xs -> (length xs <= size (lk_ent (hm_links (q_mem q))))%nat.
Proof using. intros H Hi. pose proof (bucket_turns _ _ _ _ _ (ih_table _ _ _ (qo_table _ _ _ H)) Hi) as Ht. unfold turns in Ht. lia. Qed.

Lemma qhash_clear_spec q M B : qhash_ok q M B -> exists q', qhash_clear New q = Done q' /\ qhash_ok q' ∅ [[]; []; []].
Proof using HNew.
  intros H. unfold qhash_clear, ihash_traverse.
  assert (Tr : forall n i q M B, qhash_ok q M B -> (n = length B - i)%nat -> (forall j xs, (j < i)%nat -> B !! j = Some xs -> xs = []) ->
    exists q' M' B', traverse_buckets q_mem q_tab delslot n (Z.of_nat i) q = Done q' /\ qhash_ok q' M' B' /\ concat B' = []).
  { clear. induction n as [|n IH]; intros i q M B H Hk Hi; cbn [traverse_buckets]; pose proof (ih_len _ _ _ (ih_table _ _ _ (qo_table _ _ _ H))) as Hlen; destruct (Z.ltb_spec (Z.of_nat i) (buckets (q_tab q))); try lia.
    - exists q, M, B. split_and!; [done|done|]. assert (Hall : forall x, x ∉ concat B) by (intros x (j & xs & Hj & Hx)%elem_of_concat; pose proof (lookup_lt_Some _ _ _ Hj); rewrite (Hi j xs) in Hx by (lia || done); by apply elem_of_nil in Hx).
      destruct (concat B) as [|x l]; [done|]. destruct (Hall x). left.
    - destruct (lookup_lt_is_Some_2 B i) as [xs Hxs]; [lia|]. destruct (slot_ok _ _ _ (Z.of_nat i) (ih_table _ _ _ (qo_table _ _ _ H))) as (a & -> & Et & C). cbn [mbind outcome_bind]. rewrite Nat2Z.id.
      rewrite (rd_loc_ok _ _ _ (chain_get _ _ _ (C _ _ Hxs))). cbn [mbind outcome_bind]. destruct (clear_bucket xs _ q M B i H Hxs (qo_drop_walk _ _ _ _ _ H Hxs)) as (q1 & M1 & -> & H1 & _). cbn [mbind outcome_bind].
      replace (Z.of_nat i + 1) with (Z.of_nat (S i)) by lia. eapply IH; [exact H1|rewrite length_insert; lia|]. intros j ys Hj Hy. destruct (decide (i = j)) as [<-|Hne].
      + rewrite list_lookup_insert_eq in Hy by lia. by injection Hy as <-.
      + rewrite list_lookup_insert_ne in Hy by done. eapply Hi, Hy. lia. }
  pose proof (ih_len _ _ _ (ih_table _ _ _ (qo_table _ _ _ H))) as Hlen. destruct (Tr (Z.to_nat (buckets (q_tab q))) 0%nat q M B H) as (q1 & M1 & B1 & E1 & H1 & Ec); [lia|lia|]. change (Z.of_nat 0) with 0 in E1. rewrite E1.
  cbn [mbind outcome_bind]. unfold ihash_clear. destruct (init_ok New HNew (delete_arr (q_mem q1) (tab (q_tab q1)))) as (m' & t' & -> & T' & D). cbn [mbind outcome_bind fst snd]. eexists. split; [reflexivity|].
  destruct H1 as [_ H2 H3 _ _ _ _]. rewrite Ec in H2, H3. assert (Ds : dom (lk_ent (hm_links (delete_arr (q_mem q1) (tab (q_tab q1))))) = dom (lk_ent (hm_links (q_mem q1)))) by (by destruct (tab (q_tab q1))).
  split; cbn [q_mem q_slots q_tab concat app]; try done.
  - by rewrite D, Ds, H2.
  - by intros x k v ?%elem_of_nil.
  - by intros x k v ?%elem_of_nil.
  - by intros x y k v v' ?%elem_of_nil.
Qed.

(** *** Traversal: every key once *)
Lemma qhash_traverse_spec {A} (cb : A -> K -> V -> A) q M B a : qhash_ok q M B -> exists l, l ≡ₚ map_to_list M /\ qhash_traverse cb q a = Done (foldl (fun a kv => cb a kv.1 kv.2) a l).
Proof using.
  intros H. pose (kv := fun x => match q_slots q !! x with Some p => [p] | None => [] end). set (f := fun a (p : K * V) => cb a p.1 p.2).
  assert (Walk : forall xs n lc a, chain (hm_links (q_mem q)) lc xs -> (forall x, x ∈ xs -> x ∈ concat B) -> (length xs <= n)%nat ->
    list_walk n (fun _ : A => hm_links (q_mem q)) (fun a s => p ← q_slot q s; Done (cb a p.1 p.2)) a (head xs) = Done (foldl f a (xs ≫= kv))).
  { induction xs as [|x xs IH]; intros n lc a0 C Hs Hn; [by destruct n|]. destruct n as [|n]; [cbn in Hn; lia|]. cbn [list_walk head]. destruct C as (_ & _ & C). rewrite (rd_loc_ok _ _ _ (chain_get _ _ _ C)). cbn [mbind outcome_bind].
    destruct (slot_of q M B x H) as (k & v & Ex & _); [apply Hs; left|]. assert (Eq : q_slot q x = Done (k, v)) by (unfold q_slot; by rewrite Ex). rewrite Eq. cbn [mbind outcome_bind]. rewrite (IH n (Next x)); [|done|intros y Hy; apply Hs; by right|cbn in Hn; lia].
    assert (Ekv : kv x = [(k, v)]) by (unfold kv; by rewrite Ex). transitivity (Done (foldl f a0 (kv x ++ (xs ≫= kv)))); [by rewrite Ekv|done]. }
  pose proof (ih_table _ _ _ (qo_table _ _ _ H)) as HT. pose proof (ih_len _ _ _ HT) as Hlen.
  assert (Tr : forall n i a, (n = length B - i)%nat -> traverse_buckets (fun _ => q_mem q) (fun _ => q_tab q) (fun a s => p ← q_slot q s; Done (cb a p.1 p.2)) n (Z.of_nat i) a = Done (foldl f a (concat (drop i B) ≫= kv))).
  { induction n as [|n IH]; intros i a0 Hk; cbn [traverse_buckets]; destruct (Z.ltb_spec (Z.of_nat i) (buckets (q_tab q))); try lia; [by rewrite drop_ge by lia|]. destruct (lookup_lt_is_Some_2 B i) as [xs Hxs]; [lia|].
    destruct (slot_ok _ _ _ (Z.of_nat i) HT) as (ad & -> & Et & C). cbn [mbind outcome_bind]. rewrite Nat2Z.id, (rd_loc_ok _ _ _ (chain_get _ _ _ (C _ _ Hxs))). cbn [mbind outcome_bind].
    rewrite (Walk xs _ (Cell ad i)); [|by apply C|intros x Hx; apply elem_of_concat; eauto|by eapply qo_drop_walk]. cbn [mbind outcome_bind]. replace (Z.of_nat i + 1) with (Z.of_nat (S i)) by lia.
    rewrite IH by lia. rewrite (drop_S _ _ _ Hxs). cbn [concat]. by rewrite bind_app, foldl_app. }
  exists (concat B ≫= kv). unfold qhash_traverse, ihash_traverse. pose proof (Tr (Z.to_nat (buckets (q_tab q))) 0%nat a ltac:(lia)) as Tr0. change (Z.of_nat 0) with 0 in Tr0. rewrite Tr0, drop_0. split; [|done].
  pose proof (ih_nodup _ _ _ HT) as ND. assert (Hin : forall l, (forall x, x ∈ l -> x ∈ concat B) -> forall k v, (k, v) ∈ l ≫= kv <-> exists x, x ∈ l /\ q_slots q !! x = Some (k, v)).
  { intros l Hl k v. rewrite list_elem_of_bind. split.
    - intros (x & Hx & Hxl). unfold kv in Hx. destruct (q_slots q !! x) eqn:E; [|by apply elem_of_nil in Hx]. apply list_elem_of_singleton in Hx. subst. eauto.
    - intros (x & Hxl & Ex). exists x. split; [|done]. unfold kv. rewrite Ex. left. }
  apply NoDup_Permutation; [|apply NoDup_map_to_list|].
  - assert (Sub : forall x, x ∈ concat B -> x ∈ concat B) by done. revert ND Sub. generalize (concat B) at 1 2 4 as l. induction l as [|x l IH]; intros ND Sub; [constructor|]. apply NoDup_cons in ND as [Nx ND].
    destruct (slot_of q M B x H) as (k & v & Ex & _); [apply Sub; left|]. assert (Ekv : kv x = [(k, v)]) by (unfold kv; by rewrite Ex). change ((x :: l) ≫= kv) with (kv x ++ (l ≫= kv)). rewrite Ekv. cbn [app]. constructor; [|apply IH; [done|intros y Hy; apply Sub; by right]].
    intros (y & Hy & Ey)%Hin; [|intros y Hy; apply Sub; by right]. assert (x = y) as -> by (eapply (qo_inj _ _ _ H); [apply Sub; left|apply Sub; by right|done|done]). done.
  - intros [k v]. rewrite Hin by done. rewrite elem_of_map_to_list. split; [intros (x & Hx & Ex); by eapply qo_map|]. intros Hk. by eapply qo_has.
Qed.
End props.

(** ** Runs *)
Section runs.
Context (New : gset positive -> positive) (raw : list_entry).
Context {K V : Type} `{HK : !HashKey K} `{!EqDecision K} `{!Countable K}.

Inductive qop := QInsert (k : K) (v : V) | QRemove (k : K) | QLookup (k : K) | QTraverse | QSize | QClear.
Inductive qres := QUnit | QVal (r : option V) | QAll (l : list (K * V)) | QNum (n : Z).
Definition q_step (q : qhash) (o : qop) : outcome (qhash * qres) :=
  match o with
  | QInsert k v => q ← qhash_insert New raw q k v; Done (q, QUnit)
  | QRemove k => q ← qhash_remove q k; Done (q, QUnit)
  | QLookup k => r ← qhash_lookup q k; Done (q, QVal r)
  | QTraverse => l ← qhash_traverse (fun l k v => l ++ [(k, v)]) q []; Done (q, QAll l)
  | QSize => Done (q, QNum (entries (q_tab q)))
  | QClear => q ← qhash_clear New q; Done (q, QUnit)
  end.
Fixpoint q_run (q : qhash) (ops : list qop) : outcome (qhash * list qres) :=
  match ops with
  | [] => Done (q, [])
  | o :: ops =>
      x ← q_step q o;
      y ← q_run x.1 ops;
      Done (y.1, x.2 :: y.2)
  end.

(** The same on a finite map; the order of a traversal is not specified. *)
Definition map_after (M : gmap K V) (o : qop) : gmap K V :=
  match o with QInsert k v => <[k := v]> M | QRemove k => delete k M | QClear => ∅ | _ => M end.
Definition map_result (M : gmap K V) (o : qop) (r : qres) : Prop :=
  match o with
  | QInsert _ _ | QRemove _ | QClear => r = QUnit
  | QLookup k => r = QVal (M !! k)
  | QTraverse => exists l, r = QAll l /\ l ≡ₚ map_to_list M
  | QSize => r = QNum (Z.of_nat (size M))
  end.
Inductive map_run : gmap K V -> list qop -> list qres -> gmap K V -> Prop :=
| mr_nil M : map_run M [] [] M
| mr_cons M o r ops rs M' : map_result M o r -> map_run (map_after M o) ops rs M' -> map_run M (o :: ops) (r :: rs) M'.
End runs.

(** C11: [qhash] implements a finite map: any sequence of insertions,
    removals, searches, traversals and clearings, from the empty table on,
    succeeds and has the results it has on the map, and at every end each slot
    that is allocated belongs to one key of the map. *)
Theorem qhash_refines_map {K V} `{HK : !HashKey K} `{HKok : !HashKeyOK K} `{!EqDecision K} `{!Countable K} (New : gset positive -> positive) (raw : list_entry) (arr : gmap positive (list elt)) (vals : gmap positive Z) (ops : list (qop (K := K) (V := V))) :
  (forall X, New X ∉ X) -> (forall a b : K, eqk a b = true <-> a = b) -> Z.of_nat (length ops) < 0xfffffffa ->
  exists q0 q rs M, qhash_new (V := V) New (mkhm (mklk arr ∅) vals) = Done q0 /\ q_run New raw q0 ops = Done (q, rs) /\ map_run ∅ ops rs M /\ exists B, qhash_ok q M B.
Proof.
  intros HNew Heq Hlen. destruct (init_ok New HNew (mkhm (mklk arr ∅) vals)) as (m0 & t0 & E0 & T0 & D0). unfold qhash_new. rewrite E0. cbn [mbind outcome_bind fst snd]. eexists.
  assert (Run : forall ops (q : qhash (K := K) (V := V)) M B, qhash_ok q M B -> Z.of_nat (size M) + Z.of_nat (length ops) < 0xfffffffa -> exists q' rs M', q_run New raw q ops = Done (q', rs) /\ map_run M ops rs M' /\ exists B, qhash_ok q' M' B).
  { clear - HNew Heq HKok. induction ops as [|o ops IH]; intros q M B H Hs; [exists q, [], M; split; [done|]; split; [constructor|eauto]|].
    assert (Step : exists q' r B', q_step New raw q o = Done (q', r) /\ map_result M o r /\ qhash_ok q' (map_after M o) B').
    { destruct o as [k v|k|k| | |]; cbn [q_step map_result map_after length] in *.
      - destruct (qhash_insert_spec New HNew raw Heq q M B k v H) as (q' & B' & -> & H'); [lia|]. eexists _, _, B'. done.
      - destruct (remove_spec Heq q M B k H) as (q' & B' & -> & H'). eexists _, _, B'. done.
      - rewrite (qlookup_spec Heq q M B k H). eexists _, _, B. done.
      - destruct (qhash_traverse_spec (fun l k v => l ++ [(k, v)]) q M B [] H) as (l & Pl & ->). eexists _, _, B. split; [reflexivity|]. split; [|done]. eexists. split; [reflexivity|]. rewrite <- Pl.
        assert (Ef : forall l acc, foldl (fun (l : list (K * V)) kv => l ++ [(kv.1, kv.2)]) acc l = acc ++ l); [|by rewrite Ef]. clear. induction l as [|[k v] l IH]; intros acc; [by rewrite app_nil_r|]. cbn. rewrite IH. by rewrite <- app_assoc.
      - eexists _, _, B. split; [reflexivity|]. split; [|done]. f_equal. rewrite (ih_entries _ _ _ (qo_table _ _ _ H)). by rewrite (size_map _ _ _ H).
      - destruct (qhash_clear_spec New HNew q M B H) as (q' & -> & H'). eexists _, _, _. done. }
    destruct Step as (q' & r & B' & E & Hr & H'). cbn [q_run]. rewrite E. cbn [mbind outcome_bind fst snd]. destruct (IH q' _ B' H') as (q2 & rs & M2 & E2 & R2 & B2 & O2).
    { assert (size (map_after M o) <= S (size M))%nat; [|cbn [length] in Hs; lia]. destruct o; cbn [map_after]; try lia; [|rewrite map_size_delete; destruct (M !! k); cbn; lia|rewrite map_size_empty; lia]. rewrite map_size_insert. destruct (M !! k); cbn; lia. }
    rewrite E2. eexists _, _, M2. split; [reflexivity|]. split; [by econstructor|eauto]. }
  destruct (Run ops (mkq m0 ∅ t0) ∅ [[]; []; []]) as (q & rs & M & E & R & O); [|rewrite map_size_empty; lia|eauto 10].
  split; cbn [q_mem q_slots q_tab concat app]; try done; try (by intros ???%elem_of_nil); by intros x y k v v' ?%elem_of_nil.
Qed.

(** ** [bhash] is a set *)
Section bprops.
Context (New : gset positive -> positive) (HNew : forall X, New X ∉ X) (raw : list_entry).
Context {K : Type} `{HK : !HashKey K} `{HKok : !HashKeyOK K} `{!EqDecision K} `{!Countable K} (eqk_eq : forall a b : K, eqk a b = true <-> a = b).
Implicit Types (q : qhash (K := K) (V := unit)) (k : K) (M : gmap K unit) (B : list (list positive)).

Lemma bhash_insert_spec q M B k : qhash_ok q M B -> Z.of_nat (size M) + 1 < 0xfffffffb ->
  exists q' B', bhash_insert New raw q k = Done (bool_decide (M !! k = None), q') /\ qhash_ok q' (<[k := tt]> M) B'.
Proof using HNew HKok eqk_eq.
  intros H Hsz. unfold bhash_insert. destruct (getslot_ok eqk_eq q M B k H) as ([x|] & -> & Hr); cbn [mbind outcome_bind].
  - destruct Hr as (Hx & [] & Ex). pose proof (qo_map _ _ _ H x k tt Hx Ex) as Ek. exists q, B. rewrite bool_decide_false by (by rewrite Ek). split; [done|]. by rewrite insert_id.
  - destruct (insert_new New HNew raw q M B k tt H Hr Hsz) as (q' & B' & E & H' & _); [by rewrite (size_map _ _ _ H)|]. exists q', B'. rewrite bool_decide_true by done. split; [|done]. revert E.
    unfold new_slot. cbn [q_mem q_tab q_slots]. destruct (insert_val _ _ _ _ _) as [x| | |]; try done. cbn [mbind outcome_bind]. by intros [= <-].
Qed.
Lemma bhash_lookup_spec q M B k : qhash_ok q M B -> bhash_lookup q k = Done (bool_decide (is_Some (M !! k))).
Proof using HKok eqk_eq.
  intros H. unfold bhash_lookup. destruct (getslot_ok eqk_eq q M B k H) as ([x|] & -> & Hr); cbn [mbind outcome_bind]; f_equal; apply bool_decide_ext.
  - destruct Hr as (Hx & v & Ex). rewrite (qo_map _ _ _ H x k v Hx Ex). split; eauto.
  - rewrite Hr. split; by intros [? ?].
Qed.
Lemma bhash_remove_spec q M B k : qhash_ok q M B -> exists q' B', bhash_remove q k = Done q' /\ qhash_ok q' (delete k M) B'.
Proof using HKok eqk_eq. intros H. exact (remove_spec eqk_eq q M B k H). Qed.
(** [deleteall] frees the slots without taking them out one by one. *)
Lemma bhash_clear_spec q M B : qhash_ok q M B -> exists q', bhash_clear New q = Done q' /\ qhash_ok q' ∅ [[]; []; []].
Proof using HNew.
  intros H. unfold bhash_clear. destruct (deleteall_ok New HNew _ _ _ (qo_table _ _ _ H)) as (m' & t' & -> & T' & D'). cbn [mbind outcome_bind fst snd]. eexists. split; [reflexivity|].
  split; cbn [q_mem q_slots q_tab concat app]; try done.
  by rewrite D', (qo_alloc _ _ _ H), difference_diag_L.
Qed.
End bprops.

Definition q_ops : list (qop (K := Z) (V := Z)) :=
  [QInsert 5 50; QInsert 7 70; QInsert 5 51; QLookup 5; QInsert 12 1; QInsert 19 2; QInsert 26 3; QSize; QRemove 7; QLookup 7; QTraverse; QClear; QLookup 5].
Lemma qhash_refines_map_witness :
  exists q0 q rs M, qhash_new (K := Z) (V := Z) new_addr (mkhm (mklk ∅ ∅) ∅) = Done q0 /\ q_run new_addr (mkle None (Next 1)) q0 q_ops = Done (q, rs) /\ map_run ∅ q_ops rs M /\ exists B, qhash_ok q M B.
Proof.
  apply (qhash_refines_map new_addr (mkle None (Next 1)) ∅ ∅ q_ops new_addr_fresh); [intros a b; apply Z.eqb_eq|cbn; lia].
Defined.
