(* ===== verification/Cbuf.v ===== *)
(** * Circular buffers: [async/cbuf.C], [async/cbuf.h]

    The bytes of the buffer are the [size] bytes from [start] on, around the
    end.  The writer puts bytes into the areas [iniov] and calls [addbytes]; the
    reader takes them from [outiov] or with [copyout].  [layout] says which
    queue of bytes the buffer holds. *)
From Stdlib Require Import ZArith Lia.
From stdpp Require Import prelude.
From S2P Require Import Prelude.

Record cbuf := mkcb { cb_buf : list Z; cb_empty : bool; cb_start : Z; cb_end : Z }.
Definition buflen (c : cbuf) : Z := Z.of_nat (length (cb_buf c)).

(** A piece of the buffer: where it begins ([NULL] is [None]) and how long it is *)
Abbreviation piece := (option Z * Z)%type.

Section cbuf.
Implicit Types (c : cbuf).

(** [cbuf (n)]: the memory has any contents *)
Definition cbuf_new (mem : list Z) : cbuf := mkcb mem true 0 0.
Definition cb_clear c : cbuf := mkcb (cb_buf c) false 0 0.

(** sizes are of type [size_t] *)
Definition cb_size c : Z := u64 ((if cb_empty c || (cb_start c <? cb_end c) then 0 else buflen c) + cb_end c - cb_start c).
Definition cb_space c : Z := u64 ((if cb_empty c || (cb_start c <? cb_end c) then buflen c else 0) + cb_start c - cb_end c).
Definition cb_bytes c : Z := u64 (buflen c - cb_space c).

Definition iniov c : list piece :=
  if cb_empty c || (cb_start c <? cb_end c) then [(Some (cb_end c), u64 (buflen c - cb_end c)); (Some 0, cb_start c)]
  else [(Some (cb_end c), u64 (cb_start c - cb_end c)); (None, 0)].
Definition iniovcnt c : Z :=
  if cb_empty c || (cb_start c <? cb_end c) then 1 + Z.b2z (negb (cb_start c =? 0)) else Z.b2z (negb (cb_start c =? cb_end c)).
Definition addbytes c (n : Z) : outcome cbuf :=
  if n =? 0 then Done c
  else
    assertM (n <=? cb_space c) ;;
    let e := u64 (cb_end c + n) in
    Done (mkcb (cb_buf c) false (cb_start c) (if buflen c <=? e then u64 (e - buflen c) else e)).

(** [memchr (buf + from, ch, n)], from the beginning of the piece *)
Definition memchr (buf : list Z) (from n ch : Z) : option Z :=
  (fun p => Z.of_nat p.1) <$> list_find (eq ch) (take (Z.to_nat n) (drop (Z.to_nat from) buf)).
Definition cb_find c (ch : Z) : Z :=
  if cb_empty c then -1
  else if cb_start c <? cb_end c then default (-1) (memchr (cb_buf c) (cb_start c) (cb_end c - cb_start c) ch)
  else match memchr (cb_buf c) (cb_start c) (buflen c - cb_start c) ch with
       | Some p => p
       | None => match memchr (cb_buf c) 0 (cb_end c) ch with Some p => p + buflen c - cb_start c | None => -1 end
       end.

Definition outiov c : list piece :=
  if (cb_end c <=? cb_start c) && negb (cb_empty c) then [(Some (cb_start c), u64 (buflen c - cb_start c)); (Some 0, cb_end c)]
  else [(Some (cb_start c), u64 (cb_end c - cb_start c)); (None, 0)].
Definition outiovcnt c : Z :=
  if cb_empty c then 0 else if cb_start c <? cb_end c then 1 else 1 + Z.b2z (negb (cb_end c =? 0)).

(** A remainder modulo zero is an arithmetic exception. *)
Definition rembytes c (n : Z) : outcome cbuf :=
  if n =? 0 then Done c
  else
    assertM (n <=? cb_size c) ;;
    assertM (negb (buflen c =? 0)) ;;
    let s := u64 (cb_start c + n) mod buflen c in
    Done (mkcb (cb_buf c) (s =? cb_end c) s (cb_end c)).
Definition unrembytes c (n : Z) : outcome cbuf :=
  if n =? 0 then Done c
  else
    assertM (n <=? cb_space c) ;;
    Done (mkcb (cb_buf c) false (u64 ((if n <=? cb_start c then 0 else buflen c) + cb_start c - n)) (cb_end c)).
Definition cb_at c (n : Z) : outcome Z :=
  assertM (n <? cb_size c) ;;
  assertM (negb (buflen c =? 0)) ;;
  rd (cb_buf c) (u64 (n + cb_start c) mod buflen c).

(** [memcpy (dst, buf + from, n)]: the bytes, if they are inside of the buffer *)
Definition cb_read c (from n : Z) : outcome (list Z) :=
  if (0 <=? from) && (from + n <=? buflen c) then Done (take (Z.to_nat n) (drop (Z.to_nat from) (cb_buf c))) else Wild.
Definition copyout c (len : Z) : outcome (list Z * cbuf) :=
  assertM (len <=? cb_size c) ;;
  x ← (if cb_empty c || (cb_start c <? cb_end c) then cb_read c (cb_start c) (Z.min len (u64 (cb_end c - cb_start c)))
       else
         let n := Z.min len (u64 (buflen c - cb_start c)) in
         a ← cb_read c (cb_start c) n;
         if n <? len then b ← cb_read c 0 (len - n); Done (a ++ b) else Done a);
  c ← rembytes c len;
  Done (x, c).

(** [resize (n)]: [mem] is the new memory; copying more than [n] bytes into it is wild *)
Definition cb_resize c (mem : list Z) : outcome cbuf :=
  let nend := cb_size c in
  x ← copyout c nend;
  if Z.of_nat (length mem) <? Z.of_nat (length x.1) then Wild
  else Done (mkcb (x.1 ++ drop (length x.1) mem) (negb (nend =? 0)) 0 nend).
End cbuf.

(** ** Writing through [iniov] *)
Definition blit (buf : list Z) (off : Z) (data : list Z) : list Z := take (Z.to_nat off) buf ++ data ++ drop (Z.to_nat off + length data) buf.
(** [data] goes into the first area and what is left into the second; then [addbytes]. *)
Definition cb_fill (c : cbuf) (data : list Z) : outcome cbuf :=
  match iniov c with
  | [(Some o1, l1); (o2, l2)] =>
      let d1 := take (Z.to_nat l1) data in
      let d2 := drop (Z.to_nat l1) data in
      if Z.of_nat (length d2) <=? l2 then
        addbytes (mkcb (blit (blit (cb_buf c) o1 d1) (default 0 o2) d2) (cb_empty c) (cb_start c) (cb_end c)) (Z.of_nat (length data))
      else Wild
  | _ => Wild
  end.

(** ** The queue *)
(** The bytes lie in one piece, before a free byte, or around the end. *)
Inductive layout : cbuf -> list Z -> Prop :=
| lay_plain A C F e : F <> [] -> e = bool_decide (C = []) -> Z.of_nat (length (A ++ C ++ F)) < 2 ^ 62 ->
    layout (mkcb (A ++ C ++ F) e (Z.of_nat (length A)) (Z.of_nat (length A + length C))) C
| lay_wrap C1 C2 F : C1 <> [] -> Z.of_nat (length (C2 ++ F ++ C1)) < 2 ^ 62 ->
    layout (mkcb (C2 ++ F ++ C1) false (Z.of_nat (length C2 + length F)) (Z.of_nat (length C2))) (C1 ++ C2).

Ltac cb_lens := rewrite ?length_app in *; cbn [length] in *.
Lemma plain_cond (A C : list Z) e : e = bool_decide (C = []) -> (e || (Z.of_nat (length A) <? Z.of_nat (length A + length C))) = true.
Proof. intros ->. case_bool_decide as E; [done|]. cbn [orb]. apply Z.ltb_lt. destruct C; [done|]. cbn [length]. lia. Qed.
Lemma wrap_cond (C2 F : list Z) : (false || (Z.of_nat (length C2 + length F) <? Z.of_nat (length C2))) = false.
Proof. cbn [orb]. apply Z.ltb_ge. lia. Qed.

Lemma layout_sizes c q : layout c q -> cb_size c = Z.of_nat (length q) /\ cb_space c = buflen c - Z.of_nat (length q) /\ cb_bytes c = Z.of_nat (length q) /\ Z.of_nat (length q) <= buflen c.
Proof.
  destruct 1 as [A C F e HF He Hl|C1 C2 F HC Hl]; unfold cb_size, cb_bytes, cb_space, buflen; cbn [cb_buf cb_empty cb_start cb_end]; [rewrite (plain_cond A C) by done|rewrite wrap_cond]; cb_lens;
    rewrite !u64_small by lia; rewrite ?u64_small by lia; lia.
Qed.

Lemma blit_split (X Y D Z0 : list Z) off : off = Z.of_nat (length X) -> length Y = length D -> blit (X ++ Y ++ Z0) off D = X ++ D ++ Z0.
Proof.
  intros -> HY. unfold blit. rewrite Nat2Z.id, take_app_length. rewrite <- HY. f_equal. f_equal. rewrite app_assoc. rewrite drop_app_length' by (by rewrite length_app). done.
Qed.
Lemma list_split (F : list Z) n : (n <= length F)%nat -> exists F1 F2, F = F1 ++ F2 /\ length F1 = n.
Proof. intros H. exists (take n F), (drop n F). rewrite take_drop, length_take. split; [done|lia]. Qed.

Lemma blit_nil buf off : blit buf off [] = buf.
Proof. unfold blit. cbn [app length]. rewrite Nat.add_0_r. apply take_drop. Qed.

Lemma layout_eq c q A C F e s en : c = mkcb (A ++ C ++ F) e s en -> F <> [] -> e = bool_decide (C = []) -> Z.of_nat (length (A ++ C ++ F)) < 2 ^ 62 -> s = Z.of_nat (length A) -> en = Z.of_nat (length A + length C) -> q = C -> layout c q.
Proof. intros -> ? ? ? -> -> ->. by constructor. Qed.
Lemma layout_weq c q C1 C2 F s en : c = mkcb (C2 ++ F ++ C1) false s en -> C1 <> [] -> Z.of_nat (length (C2 ++ F ++ C1)) < 2 ^ 62 -> s = Z.of_nat (length C2 + length F) -> en = Z.of_nat (length C2) -> q = C1 ++ C2 -> layout c q.
Proof. intros -> ? ? -> -> ->. by constructor. Qed.

Lemma addbytes_eq b e s en n : 0 <= s < 2 ^ 62 -> 0 <= en < 2 ^ 62 -> 0 < n < 2 ^ 62 -> Z.of_nat (length b) < 2 ^ 62 -> 0 <= (if e || (s <? en) then Z.of_nat (length b) else 0) + s - en ->
  n <= (if e || (s <? en) then Z.of_nat (length b) else 0) + s - en ->
  addbytes (mkcb b e s en) n = Done (mkcb b false s (if Z.of_nat (length b) <=? en + n then en + n - Z.of_nat (length b) else en + n)).
Proof.
  intros Hs He Hn Hb H0 H1. unfold addbytes. destruct (Z.eqb_spec n 0); [lia|]. unfold cb_space, buflen. cbn [cb_buf cb_empty cb_start cb_end]. rewrite (u64_small (en + n)) by lia.
  set (sp := if e || (s <? en) then Z.of_nat (length b) else 0) in *. assert (0 <= sp < 2 ^ 62) by (unfold sp; destruct (e || _); lia). rewrite (u64_small (sp + s - en)) by lia.
  destruct (Z.leb_spec n (sp + s - en)); [|lia]. cbn [assertM mbind outcome_bind]. destruct (Z.leb_spec (Z.of_nat (length b)) (en + n)); [|done]. by rewrite u64_small by lia.
Qed.

Lemma fill_plain A C F e data : F <> [] -> e = bool_decide (C = []) -> Z.of_nat (length (A ++ C ++ F)) < 2 ^ 62 -> data <> [] -> (length data <= length F + length A)%nat ->
  exists c', cb_fill (mkcb (A ++ C ++ F) e (Z.of_nat (length A)) (Z.of_nat (length A + length C))) data = Done c' /\ layout c' (C ++ data).
Proof.
  intros HF He Hl Hd Hn. unfold cb_fill, iniov, buflen. cbn [cb_buf cb_empty cb_start cb_end]. rewrite (plain_cond A C) by done. cb_lens. rewrite u64_small by lia.
  replace (Z.to_nat (Z.of_nat (length A + (length C + length F)) - Z.of_nat (length A + length C))) with (length F) by lia. cbn [default]. rewrite length_drop.
  destruct (Z.leb_spec (Z.of_nat (length data - length F)) (Z.of_nat (length A))) as [_|]; [|lia]. assert (Ld : (0 < length data)%nat) by (destruct data; [done|cbn; lia]).
  destruct (decide (length data < length F)%nat) as [Hlt|Hge].
  - destruct (list_split F (length data)) as (F1 & F2 & -> & L1); [lia|]. rewrite (take_ge data), (drop_ge data) by lia. rewrite blit_nil. rewrite (app_assoc A C), <- !app_assoc, (app_assoc A C), blit_split by (rewrite ?length_app; lia).
    rewrite <- !app_assoc. rewrite addbytes_eq; rewrite ?(plain_cond A C e He); cb_lens; try lia.
    destruct (Z.leb_spec (Z.of_nat (length A + (length C + (length data + length F2)))) (Z.of_nat (length A + length C) + Z.of_nat (length data))) as [|_]; [lia|].
    eexists. split; [reflexivity|]. eapply (layout_eq _ _ A (C ++ data) F2); [by rewrite <- !app_assoc| | | |done| |done].
    + intros ->. cbn in Hlt. lia.
    + symmetry. apply bool_decide_eq_false. intros [_ ->]%app_eq_nil. done.
    + rewrite !length_app. lia.
    + rewrite length_app. lia.
  - destruct (list_split data (length F)) as (d1 & d2 & -> & L1); [lia|]. rewrite take_app_length', drop_app_length' by done. destruct (list_split A (length d2)) as (A1 & A2 & -> & L2); [cb_lens; lia|].
    rewrite <- (app_nil_r F), (app_assoc (A1 ++ A2) C), blit_split by (rewrite ?length_app; lia). rewrite app_nil_r, <- !app_assoc.
    pose proof (blit_split [] A1 d2 (A2 ++ C ++ d1) 0 eq_refl ltac:(done)) as Eb. cbn [app] in Eb. change (id 0) with 0. rewrite Eb. rewrite addbytes_eq; rewrite <- ?(length_app A1 A2), ?(plain_cond (A1 ++ A2) C e He); cb_lens; try lia.
    destruct (Z.leb_spec (Z.of_nat (length d2 + (length A2 + (length C + length d1)))) (Z.of_nat (length A1 + length A2 + length C) + Z.of_nat (length d1 + length d2))) as [_|]; [|lia].
    eexists. split; [reflexivity|]. eapply (layout_weq _ _ (C ++ d1) d2 A2); [done| | | | |by rewrite app_assoc].
    + intros [_ ->]%app_eq_nil. destruct F; [done|]. cbn in L1. lia.
    + rewrite !length_app. lia.
    + lia.
    + lia.
Qed.

Lemma fill_wrap C1 C2 F data : C1 <> [] -> Z.of_nat (length (C2 ++ F ++ C1)) < 2 ^ 62 -> data <> [] -> (length data <= length F)%nat ->
  exists c', cb_fill (mkcb (C2 ++ F ++ C1) false (Z.of_nat (length C2 + length F)) (Z.of_nat (length C2))) data = Done c' /\ layout c' ((C1 ++ C2) ++ data).
Proof.
  intros HC Hl Hd Hn. unfold cb_fill, iniov, buflen. cbn [cb_buf cb_empty cb_start cb_end]. rewrite wrap_cond. cb_lens. rewrite u64_small by lia.
  replace (Z.to_nat (Z.of_nat (length C2 + length F) - Z.of_nat (length C2))) with (length F) by lia. cbn [default]. rewrite take_ge, drop_ge by done. cbn [length]. change (Z.of_nat 0 <=? 0) with true.
  destruct (list_split F (length data)) as (F1 & F2 & -> & L1); [lia|]. rewrite blit_nil, <- !app_assoc, blit_split by (rewrite ?length_app; lia). assert (Ld : (0 < length data)%nat) by (destruct data; [done|cbn; lia]).
  assert (Lc : (0 < length C1)%nat) by (destruct C1; [done|cbn; lia]). rewrite addbytes_eq; destruct (Z.ltb_spec (Z.of_nat (length C2 + length (F1 ++ F2))) (Z.of_nat (length C2))); cbn [orb]; cb_lens; try lia.
  destruct (Z.leb_spec (Z.of_nat (length C2 + (length data + (length F2 + length C1)))) (Z.of_nat (length C2) + Z.of_nat (length data))) as [|_]; [lia|]. eexists. split; [reflexivity|].
  eapply (layout_weq _ _ C1 (C2 ++ data) F2); [by rewrite <- !app_assoc|done| | | |by rewrite app_assoc].
  - rewrite ?length_app. lia.
  - rewrite ?length_app. lia.
  - rewrite ?length_app. lia.
Qed.

(** What is written into the areas of [iniov] is appended. *)
Lemma cb_fill_spec c q data : layout c q -> Z.of_nat (length data) <= cb_space c -> exists c', cb_fill c data = Done c' /\ layout c' (q ++ data).
Proof.
  intros Hl Hs. destruct (layout_sizes c q Hl) as (_ & Hsp & _ & Hle). rewrite Hsp in Hs. destruct (decide (data = [])) as [->|Hd].
  - exists c. rewrite app_nil_r. split; [|done]. unfold cb_fill. destruct Hl as [A C F e HF He Hb|C1 C2 F HC Hb]; unfold iniov; cbn [cb_buf cb_empty cb_start cb_end]; [rewrite (plain_cond A C) by done|rewrite wrap_cond];
      rewrite take_nil, drop_nil, !blit_nil; cbn [length]; [|done]. destruct (Z.leb_spec (Z.of_nat 0) (Z.of_nat (length A))); [done|lia].
  - destruct Hl as [A C F e HF He Hb|C1 C2 F HC Hb]; unfold buflen in *; cbn [cb_buf] in *; cb_lens; [apply fill_plain|apply fill_wrap]; rewrite ?length_app; try done; lia.
Qed.

(** What is removed is the beginning. *)
Lemma cb_rembytes_spec c q n : layout c q -> 0 <= n <= Z.of_nat (length q) -> exists c', rembytes c n = Done c' /\ layout c' (drop (Z.to_nat n) q).
Proof.
  intros Hl Hn. destruct (layout_sizes c q Hl) as (Hsz & _). unfold rembytes. destruct (Z.eqb_spec n 0) as [->|Hn0]; [by exists c|]. rewrite Hsz. destruct (Z.leb_spec n (Z.of_nat (length q))) as [_|]; [|lia]. cbn [assertM mbind outcome_bind].
  destruct Hl as [A C F e HF He Hb|C1 C2 F HC Hb]; unfold buflen; cbn [cb_buf cb_empty cb_start cb_end].
  - assert (LF : (0 < length F)%nat) by (destruct F; [done|cbn; lia]). destruct (list_split C (Z.to_nat n)) as (Ca & Cb & -> & L1); [lia|]. cb_lens. destruct (Z.eqb_spec (Z.of_nat (length A + (length Ca + length Cb + length F))) 0); [lia|].
    cbn [negb assertM mbind outcome_bind]. rewrite u64_small by lia. rewrite Z.mod_small by lia. eexists. split; [reflexivity|]. rewrite drop_app_length' by done. eapply (layout_eq _ _ (A ++ Ca) Cb F); [by rewrite <- !app_assoc|done| | | | |done].
    + rewrite bool_decide_decide. destruct (Z.eqb_spec (Z.of_nat (length A) + n) (Z.of_nat (length A + (length Ca + length Cb)))) as [E|E]; destruct (decide (Cb = [])) as [->|Hne]; try done.
      * destruct Cb; [done|]. cbn in E. lia.
      * cbn in E. lia.
    + rewrite ?length_app. lia.
    + rewrite ?length_app. lia.
    + rewrite ?length_app. lia.
  - assert (LC : (0 < length C1)%nat) by (destruct C1; [done|cbn; lia]). cb_lens. destruct (Z.eqb_spec (Z.of_nat (length C2 + (length F + length C1))) 0); [lia|]. cbn [negb assertM mbind outcome_bind]. rewrite u64_small by lia.
    destruct (decide (Z.to_nat n < length C1)%nat) as [Hlt|Hge].
    + destruct (list_split C1 (Z.to_nat n)) as (Ca & Cb & -> & L1); [lia|]. cb_lens. rewrite Z.mod_small by lia. destruct (Z.eqb_spec (Z.of_nat (length C2 + length F) + n) (Z.of_nat (length C2))) as [|_]; [lia|]. eexists. split; [reflexivity|].
      rewrite <- app_assoc, drop_app_length' by done. eapply (layout_weq _ _ Cb C2 (F ++ Ca)); [by rewrite <- !app_assoc| | | |done|done].
      * intros ->. cbn in Hlt. lia.
      * rewrite ?length_app. lia.
      * rewrite ?length_app. lia.
    + destruct (list_split C2 (Z.to_nat n - length C1)) as (Ca & Cb & -> & L1); [lia|]. cb_lens. replace (Z.of_nat (length Ca + length Cb + length F) + n) with (Z.of_nat (length Ca) + 1 * Z.of_nat (length Ca + length Cb + (length F + length C1))) by lia.
      rewrite Z.mod_add by lia. rewrite Z.mod_small by lia. eexists. split; [reflexivity|]. rewrite (app_assoc C1 Ca Cb), drop_app_length' by (rewrite length_app; lia).
      eapply (layout_eq _ _ Ca Cb (F ++ C1)); [by rewrite <- !app_assoc| | | |done|by rewrite Nat2Z.inj_add|done].
      * intros [_ ->]%app_eq_nil. done.
      * rewrite bool_decide_decide. destruct (Z.eqb_spec (Z.of_nat (length Ca)) (Z.of_nat (length Ca + length Cb))) as [E|E]; destruct (decide (Cb = [])) as [->|Hne]; try done.
        -- destruct Cb; [done|]. cbn in E. lia.
        -- cbn in E. lia.
      * rewrite ?length_app. lia.
Qed.

(** [copyout] gives the beginning and removes it. *)
Lemma cb_read_mid (X Y Z0 : list Z) e s en from n : from = Z.of_nat (length X) -> n = Z.of_nat (length Y) -> cb_read (mkcb (X ++ Y ++ Z0) e s en) from n = Done Y.
Proof.
  intros -> ->. unfold cb_read, buflen. cbn [cb_buf]. rewrite !length_app. destruct (Z.leb_spec 0 (Z.of_nat (length X))); [|lia].
  destruct (Z.leb_spec (Z.of_nat (length X) + Z.of_nat (length Y)) (Z.of_nat (length X + (length Y + length Z0)))); [|lia]. cbn [andb]. by rewrite !Nat2Z.id, drop_app_length, take_app_length.
Qed.
Lemma cb_copyout_spec c q n : layout c q -> 0 <= n <= Z.of_nat (length q) -> exists c', copyout c n = Done (take (Z.to_nat n) q, c') /\ layout c' (drop (Z.to_nat n) q).
Proof.
  intros Hl Hn. destruct (layout_sizes c q Hl) as (Hsz & _). destruct (cb_rembytes_spec c q n Hl Hn) as (c' & Er & Hl'). exists c'. split; [|done]. unfold copyout. rewrite Hsz.
  destruct (Z.leb_spec n (Z.of_nat (length q))) as [_|]; [|lia]. cbn [assertM mbind outcome_bind]. rewrite Er.
  destruct Hl as [A C F e HF He Hb|C1 C2 F HC Hb]; cbn [cb_empty cb_start cb_end]; unfold buflen; cbn [cb_buf].
  - rewrite (plain_cond A C) by done. cb_lens. rewrite u64_small by lia. destruct (list_split C (Z.to_nat n)) as (Ca & Cb & -> & L1); [lia|]. rewrite <- (app_assoc Ca). rewrite (cb_read_mid A Ca (Cb ++ F)); [|done|cb_lens; lia].
    cbn [mbind outcome_bind]. by rewrite take_app_length' by done.
  - rewrite wrap_cond. cb_lens. rewrite u64_small by lia. replace (Z.of_nat (length C2 + (length F + length C1)) - Z.of_nat (length C2 + length F)) with (Z.of_nat (length C1)) by lia.
    destruct (decide (Z.to_nat n <= length C1)%nat) as [Hle|Hgt].
    + destruct (list_split C1 (Z.to_nat n)) as (Ca & Cb & -> & L1); [lia|]. rewrite Z.min_l by lia. rewrite (app_assoc C2 F).
      rewrite (cb_read_mid (C2 ++ F) Ca Cb _ _ _ (Z.of_nat (length C2 + length F))); [|rewrite length_app; lia|lia]. cbn [mbind outcome_bind].
      destruct (Z.ltb_spec n n); [lia|]. cbn [mbind outcome_bind]. by rewrite <- app_assoc, take_app_length' by done.
    + rewrite Z.min_r by lia. destruct (Z.ltb_spec (Z.of_nat (length C1)) n); [|lia]. destruct (list_split C2 (Z.to_nat n - length C1)) as (Ca & Cb & -> & L1); [lia|].
      pose proof (cb_read_mid ((Ca ++ Cb) ++ F) C1 [] false (Z.of_nat (length (Ca ++ Cb) + length F)) (Z.of_nat (length (Ca ++ Cb))) (Z.of_nat (length (Ca ++ Cb) + length F)) (Z.of_nat (length C1))) as R1.
      rewrite app_nil_r, <- (app_assoc _ F C1) in R1. rewrite R1; [|cb_lens; lia|done]. cbn [mbind outcome_bind]. rewrite <- (app_assoc Ca Cb). pose proof (cb_read_mid [] Ca (Cb ++ F ++ C1)) as R2. cbn [app length] in R2.
      rewrite R2; [|done|lia]. cbn [mbind outcome_bind]. by rewrite (app_assoc C1 Ca), take_app_length' by (rewrite length_app; lia).
Qed.

(** [find] gives the first position of the byte. *)
Lemma list_find_app_pos (ch : Z) (l1 l2 : list Z) : list_find (eq ch) (l1 ++ l2) = match list_find (eq ch) l1 with Some p => Some p | None => (fun p => (length l1 + p.1, p.2)%nat) <$> list_find (eq ch) l2 end.
Proof.
  induction l1 as [|x l1 IH]; cbn [app list_find length]; [destruct (list_find (eq ch) l2) as [[i y]|]; done|]. case_decide; [done|]. rewrite IH. destruct (list_find (eq ch) l1) as [[i y]|]; [done|].
  by destruct (list_find (eq ch) l2) as [[i y]|].
Qed.
Lemma find_spec c q ch : layout c q -> cb_find c ch = default (-1) ((fun p => Z.of_nat p.1) <$> list_find (eq ch) q).
Proof.
  destruct 1 as [A C F e HF He Hb|C1 C2 F HC Hb]; unfold cb_find, memchr, buflen; cbn [cb_buf cb_empty cb_start cb_end].
  - subst e. case_bool_decide as EC; [by subst C|]. assert (LC : (0 < length C)%nat) by (destruct C; [done|cbn; lia]). destruct (Z.ltb_spec (Z.of_nat (length A)) (Z.of_nat (length A + length C))); [|lia].
    rewrite Nat2Z.id, drop_app_length. replace (Z.to_nat (Z.of_nat (length A + length C) - Z.of_nat (length A))) with (length C) by lia. by rewrite take_app_length.
  - destruct (Z.ltb_spec (Z.of_nat (length C2 + length F)) (Z.of_nat (length C2))); [lia|]. cb_lens. rewrite (app_assoc C2 F C1) at 1. rewrite drop_app_length' by (rewrite length_app; lia). rewrite take_ge by lia.
    rewrite list_find_app_pos. destruct (list_find (eq ch) C1) as [[i y]|]; [done|]. cbn [fmap option_fmap option_map]. change (Z.to_nat 0) with 0%nat. rewrite drop_0, Nat2Z.id, take_app_length.
    destruct (list_find (eq ch) C2) as [[i y]|]; [|done]. cbn. unfold id. lia.
Qed.
Lemma cb_at_spec c q n x : layout c q -> q !! Z.to_nat n = Some x -> 0 <= n -> cb_at c n = Done x.
Proof.
  intros Hl Hx Hn. pose proof (lookup_lt_Some _ _ _ Hx) as Hlt. destruct (layout_sizes c q Hl) as (Hsz & _). unfold cb_at. rewrite Hsz. destruct (Z.ltb_spec n (Z.of_nat (length q))); [|lia]. cbn [assertM mbind outcome_bind].
  assert (Rd : forall (l : list Z) i y, 0 <= i -> l !! Z.to_nat i = Some y -> rd l i = Done y) by (intros l i y Hi Hy; unfold rd; destruct (Z.leb_spec 0 i); [by rewrite Hy|lia]).
  destruct Hl as [A C F e HF He Hb|C1 C2 F HC Hb]; unfold buflen; cbn [cb_buf cb_empty cb_start cb_end]; cb_lens.
  - destruct (Z.eqb_spec (Z.of_nat (length A + (length C + length F))) 0); [lia|]. cbn [negb assertM mbind outcome_bind]. rewrite u64_small by lia. rewrite Z.mod_small by lia. apply Rd; [lia|].
    replace (Z.to_nat (n + Z.of_nat (length A))) with (length A + Z.to_nat n)%nat by lia. rewrite lookup_app_r by lia. rewrite lookup_app_l by lia. rewrite <- Hx. f_equal. lia.
  - destruct (Z.eqb_spec (Z.of_nat (length C2 + (length F + length C1))) 0); [lia|]. cbn [negb assertM mbind outcome_bind]. rewrite u64_small by lia. destruct (decide (Z.to_nat n < length C1)%nat) as [Hl1|Hl1].
    + rewrite Z.mod_small by lia. apply Rd; [lia|]. rewrite lookup_app_l in Hx by lia. rewrite !lookup_app_r by lia. rewrite <- Hx. f_equal. lia.
    + replace (n + Z.of_nat (length C2 + length F)) with ((n - Z.of_nat (length C1)) + 1 * Z.of_nat (length C2 + (length F + length C1))) by lia. rewrite Z.mod_add by lia. rewrite Z.mod_small by lia. apply Rd; [lia|].
      rewrite lookup_app_r in Hx by lia. rewrite lookup_app_l by lia. rewrite <- Hx. f_equal. lia.
Qed.

(** The bytes of [outiov] are the queue. *)
Definition pieces (c : cbuf) (l : list piece) : list Z := concat ((fun p => match p.1 with Some o => take (Z.to_nat p.2) (drop (Z.to_nat o) (cb_buf c)) | None => [] end) <$> l).
Lemma outiov_spec c q : layout c q -> pieces c (take (Z.to_nat (outiovcnt c)) (outiov c)) = q.
Proof.
  destruct 1 as [A C F e HF He Hb|C1 C2 F HC Hb]; unfold outiov, outiovcnt, buflen; cbn [cb_buf cb_empty cb_start cb_end].
  - subst e. case_bool_decide as EC; [subst C; rewrite andb_false_r; done|]. assert (LC : (0 < length C)%nat) by (destruct C; [done|cbn; lia]). destruct (Z.ltb_spec (Z.of_nat (length A)) (Z.of_nat (length A + length C))); [|lia].
    destruct (Z.leb_spec (Z.of_nat (length A + length C)) (Z.of_nat (length A))); [lia|]. cbn [andb]. rewrite u64_small by (cb_lens; lia). unfold pieces. change (Z.to_nat 1) with 1%nat. cbn [take fmap list_fmap concat fst snd cb_buf]. rewrite app_nil_r, Nat2Z.id, drop_app_length.
    replace (Z.to_nat (Z.of_nat (length A + length C) - Z.of_nat (length A))) with (length C) by lia. apply take_app_length.
  - destruct (Z.ltb_spec (Z.of_nat (length C2 + length F)) (Z.of_nat (length C2))); [lia|]. destruct (Z.leb_spec (Z.of_nat (length C2)) (Z.of_nat (length C2 + length F))); [|lia]. cbn [andb negb]. cb_lens. rewrite u64_small by lia.
    assert (E1 : take (Z.to_nat (Z.of_nat (length C2 + (length F + length C1)) - Z.of_nat (length C2 + length F))) (drop (length C2 + length F) (C2 ++ F ++ C1)) = C1).
    { rewrite (app_assoc C2 F C1), drop_app_length' by (rewrite length_app; lia). apply take_ge. lia. }
    unfold pieces. destruct (Z.eqb_spec (Z.of_nat (length C2)) 0) as [E|E]; cbn [negb Z.b2z].
    + destruct C2; [|cbn in E; lia]. change (Z.to_nat (1 + 0)) with 1%nat. cbn [take fmap list_fmap concat fst snd cb_buf]. rewrite Nat2Z.id, E1. done.
    + change (Z.to_nat (1 + 1)) with 2%nat. cbn [take fmap list_fmap concat fst snd cb_buf]. rewrite !Nat2Z.id, E1. change (Z.to_nat 0) with 0%nat. rewrite drop_0, take_app_length, app_nil_r. done.
Qed.

(** [unrembytes] takes a removal back. *)
Lemma unrembytes_spec c q n c' : layout c q -> 0 <= n <= Z.of_nat (length q) -> rembytes c n = Done c' -> unrembytes c' n = Done c.
Proof.
  intros Hl Hn Er. destruct (cb_rembytes_spec c q n Hl Hn) as (c1 & Er1 & Hl1). assert (c1 = c') by congruence. subst c1. destruct (layout_sizes _ _ Hl1) as (_ & Hsp & _). rewrite length_drop in Hsp.
  unfold rembytes in Er. unfold unrembytes. destruct (Z.eqb_spec n 0); [congruence|]. destruct (layout_sizes _ _ Hl) as (Hsz & _ & _ & Hle).
  assert (Hbl : buflen c' = buflen c). { revert Er. destruct (n <=? cb_size c); [|done]. cbn [assertM mbind outcome_bind]. destruct (buflen c =? 0); [done|]. cbn [negb assertM mbind outcome_bind]. by intros [= <-]. }
  destruct (Z.leb_spec n (cb_space c')) as [_|]; [|lia]. cbn [assertM mbind outcome_bind]. f_equal. revert Er. rewrite Hsz. destruct (Z.leb_spec n (Z.of_nat (length q))); [|lia]. cbn [assertM mbind outcome_bind].
  assert (Hb0 : 0 <= cb_start c < buflen c /\ buflen c < 2 ^ 62 /\ cb_empty c = false).
  { destruct Hl as [A C F e HF He Hb|C1 C2 F HC Hb]; unfold buflen in *; cbn [cb_buf cb_start cb_empty] in *; cb_lens.
    - assert (0 < length F)%nat by (destruct F; [done|cbn; lia]). split_and!; try lia. subst e. apply bool_decide_eq_false. intros ->. cbn in *. lia.
    - assert (0 < length C1)%nat by (destruct C1; [done|cbn; lia]). split_and!; (lia || done). }
  destruct Hb0 as (Hs & Hbb & He). destruct (Z.eqb_spec (buflen c) 0); [lia|]. cbn [negb assertM mbind outcome_bind]. rewrite u64_small by lia. intros [= <-]. cbn [cb_buf cb_empty cb_start cb_end] in *. rewrite Hbl.
  assert (Es : u64 ((if n <=? (cb_start c + n) mod buflen c then 0 else buflen c) + (cb_start c + n) mod buflen c - n) = cb_start c).
  { destruct (decide (cb_start c + n < buflen c)).
    - rewrite Z.mod_small by lia. destruct (Z.leb_spec n (cb_start c + n)); [|lia]. rewrite u64_small by lia. lia.
    - replace (cb_start c + n) with ((cb_start c + n - buflen c) + 1 * buflen c) by lia. rewrite Z.mod_add by lia. rewrite Z.mod_small by lia. destruct (Z.leb_spec n (cb_start c + n - buflen c)); [lia|]. rewrite u64_small by lia. lia. }
  rewrite Es. destruct c as [b e s en]. cbn [cb_buf cb_empty cb_start cb_end] in *. by subst e.
Qed.

Lemma cbuf_new_spec mem : mem <> [] -> Z.of_nat (length mem) < 2 ^ 62 -> layout (cbuf_new mem) [].
Proof. intros Hm Hl. by apply (layout_eq _ _ [] [] mem true 0 0). Qed.

(** ** Where it goes wrong *)
(** [clear] leaves a buffer that is full. *)
Lemma clear_full c : 0 < buflen c < 2 ^ 62 -> cb_size (cb_clear c) = buflen c /\ cb_space (cb_clear c) = 0.
Proof. intros Hb. unfold cb_size, cb_space, cb_clear, buflen in *. cbn [cb_buf cb_empty cb_start cb_end orb]. cbn. rewrite !u64_small by lia. lia. Qed.
(** After [resize] nothing is found in a buffer that holds bytes, and nothing
    is to be written from it; an empty one is taken for full. *)
Lemma resize_forgets c q mem : layout c q -> mem <> [] -> (length q <= length mem)%nat -> Z.of_nat (length mem) < 2 ^ 62 ->
  exists c', cb_resize c mem = Done c' /\ (q <> [] -> outiovcnt c' = 0 /\ forall ch, cb_find c' ch = -1) /\ (q = [] -> cb_size c' = Z.of_nat (length mem)).
Proof.
  intros Hl Hm Hle Hb. destruct (layout_sizes c q Hl) as (Hsz & _). destruct (cb_copyout_spec c q (Z.of_nat (length q)) Hl ltac:(lia)) as (c1 & E & _). unfold cb_resize. rewrite Hsz, E. cbn [mbind outcome_bind fst].
  rewrite Nat2Z.id, take_ge by lia. destruct (Z.ltb_spec (Z.of_nat (length mem)) (Z.of_nat (length q))); [lia|]. eexists. split; [reflexivity|]. split.
  - intros Hq. destruct (Z.eqb_spec (Z.of_nat (length q)) 0) as [E0|]; [destruct q; [done|cbn in E0; lia]|]. done.
  - intros ->. unfold cb_size, buflen. cbn [cb_buf cb_empty cb_start cb_end length app]. rewrite drop_0. change (Z.of_nat 0) with 0. change (negb (0 =? 0) || (0 <? 0)) with false. rewrite u64_small by lia. lia.
Qed.
