(* ===== verification/Dnsparse.v ===== *)
(** * DNS messages: [async/dnsparse.C], [async/dnsparse.h]

    Parsing of messages from name servers.  A message is a list of bytes,
    pointers into it are positions; reading outside of the message is [Wild].
    [dn_skipname] and [dn_expand] are functions of the system's resolver
    library, the class [DnLib]; [qsort] is the C library's.  The hash table of
    [nameset] is the finite map it implements ([Qhash.v]).  A name is the list
    of its characters, without the NUL behind it. *)
From Stdlib Require Import ZArith Lia.
From stdpp Require Import prelude gmap sorting.
From S2P Require Import Prelude.

Class DnLib := {
  (** [dn_skipname (cp, eom)]: the size of the name at [cp] *)
  dn_skipname : list Z -> Z -> option Z;
  (** [dn_expand (buf, eom, cp, dst, size)]: the size and the text *)
  dn_expand : list Z -> Z -> Z -> option (Z * list Z)
}.
(** What the manual of the resolver library says: sizes stay inside of the message, the text with its NUL fits, both functions agree on the size of a name *)
Class DnLibOK `{!DnLib} : Prop := {
  dn_skipname_bound msg cp n : 0 <= cp <= Z.of_nat (length msg) -> dn_skipname msg cp = Some n -> 0 <= n /\ cp + n <= Z.of_nat (length msg);
  dn_expand_bound msg cp size n s : dn_expand msg cp size = Some (n, s) -> 0 < n /\ 0 <= cp /\ cp + n <= Z.of_nat (length msg) /\ Z.of_nat (length s) < size /\ Forall (fun c => 0 < c < 256) s;
  dn_expand_skip msg cp size n s : dn_expand msg cp size = Some (n, s) -> dn_skipname msg cp = Some n
}.
(** [qsort], with a comparison; on a total preorder it sorts *)
Class Qsort := qsort : forall {A : Type}, (A -> A -> Z) -> list A -> list A.
Definition cmp_preorder {A} (cmp : A -> A -> Z) : Prop := (forall a b, cmp a b <= 0 \/ cmp b a <= 0) /\ (forall a b c, cmp a b <= 0 -> cmp b c <= 0 -> cmp a c <= 0).
Class QsortOK `{!Qsort} : Prop := {
  qsort_perm {A} (cmp : A -> A -> Z) l : cmp_preorder cmp -> qsort cmp l ≡ₚ l;
  qsort_sorted {A} (cmp : A -> A -> Z) l : cmp_preorder cmp -> Sorted (fun a b => cmp a b <= 0) (qsort cmp l)
}.

Definition T_A : Z := 1.
Definition T_NS : Z := 2.
Definition T_CNAME : Z := 5.
Definition T_SOA : Z := 6.
Definition T_PTR : Z := 12.
Definition T_MX : Z := 15.
Definition T_TXT : Z := 16.
Definition T_AFSDB : Z := 18.
Definition T_SRV : Z := 33.
Definition T_DNAME : Z := 39.
Definition C_IN : Z := 1.
Definition MAXDNAME : Z := 1025.
(** two names, padding, five words *)
Definition sizeof_rd_soa : Z := 2072.
Definition sizeof_HEADER : Z := 12.
Definition ARERR_NXREC : Z := 0x101.
Definition ARERR_BADRESP : Z := 0x104.

(** ** Packets on TCP connections *)
Record dnstcppkt := mktp { tp_size : Z; tp_pos : Z; tp_used : Z; tp_buf : list Z; tp_out : list Z }.
Definition getshort (buf : list Z) (p : Z) : outcome Z := a ← rd buf p; b ← rd buf (p + 1); Done (256 * a + b).
Definition getlong (buf : list Z) (p : Z) : outcome Z := a ← getshort buf p; b ← getshort buf (p + 2); Done (65536 * a + b).

Section tcp.
Implicit Types (t : dnstcppkt).
(** [xmalloc (n)] gives memory with any contents. *)
Context (junk : Z -> list Z).
Definition MALLOCRESV : Z := 16.
Definition dnstcppkt_new : dnstcppkt := mktp (2048 - MALLOCRESV) 0 0 (junk (2048 - MALLOCRESV)) [].
Definition tcp_compact t : dnstcppkt :=
  if 0 <? tp_used t then
    let n := tp_pos t - tp_used t in
    let buf := if tp_used t <? tp_pos t then take (Z.to_nat n) (drop (Z.to_nat (tp_used t)) (tp_buf t)) ++ drop (Z.to_nat n) (tp_buf t) else tp_buf t in
    mktp (tp_size t) (u32 n) 0 buf (tp_out t)
  else t.
Definition tcp_reset t : dnstcppkt := mktp (tp_size t) 0 0 (tp_buf t) [].
Definition tcp_pktsize t : outcome Z :=
  if tp_pos t <? u32 (tp_used t + 2) then Done 2 else n ← getshort (tp_buf t) (tp_used t); Done (n + 2).
(** What [read] answers: bytes, at most as many as there is room for; the end of the stream or an error; or that there is nothing yet *)
Inductive rd_answer := RdBytes (b : list Z) | RdEnd | RdAgain.
Definition tcp_input t (ans : rd_answer) : outcome (Z * dnstcppkt) :=
  let t := tcp_compact t in
  sz ← tcp_pktsize t;
  let t := if tp_size t <? sz then mktp sz (tp_pos t) (tp_used t) (tp_buf t ++ junk (sz - tp_size t)) (tp_out t) else t in
  if tp_pos t <? sz then
    match ans with
    | RdBytes [] | RdEnd => Done (-1, t)
    | RdAgain => sz ← tcp_pktsize t; Done (Z.b2z (sz <=? tp_pos t), t)
    | RdBytes b =>
        let b := take (Z.to_nat (tp_size t - tp_pos t)) b in
        let buf := take (Z.to_nat (tp_pos t)) (tp_buf t) ++ b ++ drop (Z.to_nat (tp_pos t) + length b) (tp_buf t) in
        let t := mktp (tp_size t) (tp_pos t + Z.of_nat (length b)) (tp_used t) buf (tp_out t) in
        sz ← tcp_pktsize t;
        Done (Z.b2z (sz <=? tp_pos t), t)
    end
  else
    sz ← tcp_pktsize t;
    Done (Z.b2z (sz <=? tp_pos t), t).
(** [getpkt]: the bytes at [*pp] *)
Definition tcp_getpkt t : outcome (option (list Z) * dnstcppkt) :=
  sz ← tcp_pktsize t;
  if u32 (tp_pos t - tp_used t) <? sz then Done (None, t)
  else Done (Some (take (Z.to_nat (sz - 2)) (drop (Z.to_nat (tp_used t + 2)) (tp_buf t))), mktp (tp_size t) (tp_pos t) (u32 (tp_used t + sz)) (tp_buf t) (tp_out t)).
Definition tcp_putpkt t (pkt : list Z) : outcome dnstcppkt :=
  let size := Z.of_nat (length pkt) in
  assertM (size <? 0x10000) ;;
  Done (mktp (tp_size t) (tp_pos t) (tp_used t) (tp_buf t) (tp_out t ++ [size / 256; size mod 256] ++ pkt)).
End tcp.

(** ** Sets of names *)
Record nameset := mkns { ns_pos : Z; ns_map : gmap (list Z) Z }.
Definition nameset_new : nameset := mkns 0 ∅.
Definition ns_store (ns : nameset) (s : list Z) : Z * nameset :=
  match ns_map ns !! s with
  | Some p => (p, ns)
  | None => (ns_pos ns, mkns (u32 (ns_pos ns + Z.of_nat (length s) + 1)) (<[s := ns_pos ns]> (ns_map ns)))
  end.
Definition ns_lookup (ns : nameset) (s : list Z) : outcome Z := match ns_map ns !! s with Some p => Done p | None => Panic end.
Definition ns_present (ns : nameset) (s : list Z) : bool := bool_decide (is_Some (ns_map ns !! s)).
(** [memcpy] and [strcpy] into an object: the bytes [s] at offset [p] *)
Definition blit {A} (dst : list A) (p : Z) (s : list A) : outcome (list A) :=
  if (0 <=? p) && (p + Z.of_nat (length s) <=? Z.of_nat (length dst))
  then Done (take (Z.to_nat p) dst ++ s ++ drop (Z.to_nat p + length s) dst) else Wild.
Definition bytes_at {A} (l : list A) (p n : Z) : outcome (list A) :=
  if (0 <=? p) && (0 <=? n) && (p + n <=? Z.of_nat (length l)) then Done (take (Z.to_nat n) (drop (Z.to_nat p) l)) else Wild.
(** [put] walks the slots [l] of the table *)
Fixpoint ns_put_slots (dst : list Z) (l : list (list Z * Z)) : outcome (list Z) :=
  match l with [] => Done dst | (s, p) :: l => dst ← blit dst p (s ++ [0]); ns_put_slots dst l end.
Definition ns_put (ns : nameset) (dst : list Z) : outcome (list Z) := ns_put_slots dst (map_to_list (ns_map ns)).

(** ** Records *)
Inductive rdata :=
| RdA (a : list Z)
| RdName (s : list Z)
| RdMx (mx_pref : Z) (mx_exch : list Z)
| RdTxt (txt : list Z)
| RdSoa (soa_mname soa_rname : list Z) (soa_serial soa_refresh soa_retry soa_expire soa_minimum : Z)
| RdSrv (srv_prio srv_weight srv_port : Z) (srv_target : list Z)
| RdOther.
Record resrec := mkrr { rr_name : list Z; rr_type : Z; rr_class : Z; rr_ttl : Z; rr_rdlen : Z; rr_rd : rdata }.
Record question := mkqu { q_name : list Z; q_type : Z; q_class : Z }.
Record dnsparse := mkdp { dp_buf : list Z; dp_anp : option Z; dp_error : Z; dp_hdr : bool; dp_ancount : Z; dp_nscount : Z; dp_arcount : Z }.

Section parse.
Context `{DL : !DnLib}.

(** The loop of the constructor over the questions *)
Fixpoint skip_questions (buf : list Z) (l : nat) (cp : Z) : option Z :=
  match l with
  | O => Some cp
  | S l => match dn_skipname buf cp with
           | None => None
           | Some n => let cp := cp + n + 4 in if Z.of_nat (length buf) <? cp then None else skip_questions buf l cp
           end
  end.
Definition dnsparse_new (buf : list Z) (answer : bool) : outcome dnsparse :=
  if sizeof_HEADER <? Z.of_nat (length buf) then
    b2 ← rd buf 2; b3 ← rd buf 3;
    qdcount ← getshort buf 4; ancount ← getshort buf 6; nscount ← getshort buf 8; arcount ← getshort buf 10;
    let mk anp error := mkdp buf anp error true ancount nscount arcount in
    let qr := Z.testbit b2 7 in
    let rcode := b3 .& 15 in
    if negb (rcode =? 0) then Done (mk None rcode)
    else if (negb qr && answer) || (qr && negb answer) then Done (mk None ARERR_BADRESP)
    else if qdcount =? 0 then Done (mk None ARERR_BADRESP)
    else match skip_questions buf (Z.to_nat qdcount) sizeof_HEADER with
         | None => Done (mk None ARERR_BADRESP)
         | Some cp => Done (mk (Some cp) 0)
         end
  else Done (mkdp buf None ARERR_BADRESP false 0 0 0).
Definition getqp (d : dnsparse) : option Z := if dp_hdr d then Some sizeof_HEADER else None.

Definition qparse_at (buf : list Z) (cp : Z) : outcome (option (Z * question)) :=
  match dn_expand buf cp MAXDNAME with
  | None => Done None
  | Some (n, q_name) =>
      if (MAXDNAME <=? n) || (Z.of_nat (length buf) <? cp + n + 4) then Done None
      else let cp := cp + n in
        t ← getshort buf cp; c ← getshort buf (cp + 2); Done (Some (cp + 4, mkqu q_name t c))
  end.
Definition qparse (d : dnsparse) : outcome (option question) :=
  match getqp d with None => Done None | Some cp => r ← qparse_at (dp_buf d) cp; Done (option_map snd r) end.

(** The character strings of a [T_TXT] record *)
Fixpoint txt_loop (buf : list Z) (fuel : nat) (cp rdlen : Z) (dp : list Z) : outcome (option (Z * list Z)) :=
  match fuel with
  | O => Spin
  | S fuel =>
      if 0 <? rdlen then
        c ← rd buf cp;
        if rdlen <? c + 1 then Done None
        else b ← bytes_at buf (cp + 1) c; txt_loop buf fuel (cp + (c + 1)) (u16 (rdlen - (c + 1))) (dp ++ b)
      else Done (Some (cp + rdlen, dp))
  end.
(** The [switch] of [rrparse]: the end of what it read and the data *)
Definition rdata_parse (buf : list Z) (type cp rdlen : Z) : outcome (option (Z * rdata)) :=
  let eom := Z.of_nat (length buf) in
  if type =? T_A then a ← bytes_at buf cp 4; Done (Some (cp + 4, RdA a))
  else if (type =? T_NS) || (type =? T_CNAME) || (type =? T_DNAME) || (type =? T_PTR) then
    match dn_expand buf cp MAXDNAME with None => Done None | Some (n, s) => Done (Some (cp + n, RdName s)) end
  else if (type =? T_MX) || (type =? T_AFSDB) then
    if rdlen <? 2 then Done None
    else pref ← getshort buf cp;
      match dn_expand buf (cp + 2) MAXDNAME with None => Done None | Some (n, s) => Done (Some (cp + 2 + n, RdMx pref s)) end
  else if type =? T_TXT then
    if (sizeof_rd_soa <=? rdlen) || (rdlen <? 1) then Done None
    else r ← txt_loop buf (S (Z.to_nat rdlen)) cp rdlen []; Done (option_map (fun x => (x.1, RdTxt x.2)) r)
  else if type =? T_SOA then
    match dn_expand buf cp MAXDNAME with
    | None => Done None
    | Some (n, mname) =>
        let cp := cp + n in
        match dn_expand buf cp MAXDNAME with
        | None => Done None
        | Some (n, rname) =>
            let cp := cp + n in
            if eom <? cp + 20 then Done None
            else serial ← getlong buf cp; refresh ← getlong buf (cp + 4); retry ← getlong buf (cp + 8);
              expire ← getlong buf (cp + 12); minimum ← getlong buf (cp + 16);
              Done (Some (cp + 20, RdSoa mname rname serial refresh retry expire minimum))
        end
    end
  else if type =? T_SRV then
    if rdlen <? 7 then Done None
    else prio ← getshort buf cp; weight ← getshort buf (cp + 2); port ← getshort buf (cp + 4);
      match dn_expand buf (cp + 6) MAXDNAME with None => Done None | Some (n, s) => Done (Some (cp + 6 + n, RdSrv prio weight port s)) end
  else Done (Some (cp + rdlen, RdOther)).
Definition rrparse (buf : list Z) (cp : Z) : outcome (option (Z * resrec)) :=
  let eom := Z.of_nat (length buf) in
  match dn_expand buf cp MAXDNAME with
  | None => Done None
  | Some (n, name) =>
      if eom <? cp + n + 10 then Done None
      else let cp := cp + n in
        type ← getshort buf cp; class ← getshort buf (cp + 2); ttl ← getlong buf (cp + 4); rdlen ← getshort buf (cp + 8);
        let cp := cp + 10 in
        let e := cp + rdlen in
        if eom <? e then Done None
        else r ← rdata_parse buf type cp rdlen;
          match r with
          | None => Done None
          | Some (cp, d) => assertM (cp =? e) ;; Done (Some (cp, mkrr name type class ttl rdlen d))
          end
  end.
(** [cp] moves to [cp - 1] when [dn_skipname] fails, but is not used then. *)
Fixpoint skipnrecs (buf : list Z) (nrec : nat) (cp : Z) : outcome (option Z) :=
  let eom := Z.of_nat (length buf) in
  match nrec with
  | O => Done (Some cp)
  | S nrec =>
      match dn_skipname buf cp with
      | None => Done None
      | Some n =>
          let cp := cp + n in
          if eom <? cp + 10 then Done None
          else rdlen ← getshort buf (cp + 8);
            let cp := cp + 10 in
            if eom - cp <? rdlen then Done None else skipnrecs buf nrec (cp + rdlen)
      end
  end.
End parse.

(** ** Results *)
(** [strcasecmp] in the C locale *)
Definition tolower (c : Z) : Z := if (65 <=? c) && (c <=? 90) then c + 32 else c.
Fixpoint strcasecmp (s t : list Z) : Z :=
  match s, t with
  | [], [] => 0
  | [], c :: _ => - tolower c
  | c :: _, [] => tolower c
  | c :: s, d :: t => if tolower c =? tolower d then strcasecmp s t else tolower c - tolower d
  end.
(** The C string that begins with the first byte: up to its NUL *)
Fixpoint cstr (l : list Z) : list Z := match l with [] => [] | c :: l => if c =? 0 then [] else c :: cstr l end.
Definition cstr_at (blk : list Z) (p : Z) : list Z := cstr (drop (Z.to_nat p) blk).

Definition AF_INET : Z := 2.
Record addrhint := mkah { h_name : Z; h_addrtype : Z; h_length : Z; h_address : list Z }.
Record mxrec := mkmx { pref : Z; mx_name : Z }.
Record srvrec := mksrv { prio : Z; weight : Z; port : Z; srv_name : Z }.
(** The results; names are offsets from [namebase] into the block of names behind the records and hints. *)
Record mxlist := mkmxl { m_names : list Z; m_name : Z; m_hints : list addrhint; m_mxes : list mxrec }.
Record srvlist := mksrvl { s_names : list Z; s_name : Z; s_hints : list addrhint; s_srvs : list srvrec }.

Definition sizeof_ptr : Z := 8.
Definition sizeof_addrhint : Z := 32.
Definition hintsize (nhints : Z) : Z := nhints * sizeof_addrhint + (nhints + 1) * sizeof_ptr.
(** [puthints]: [hintp] and [namebase] are offsets in the result; the hints with their names moved to [namebase] are the result, here relative to it. *)
Definition puthints (hintp : Z) (hv : list addrhint) (namebase : Z) : outcome (list addrhint) :=
  let n := Z.of_nat (length hv) in
  let hvp := hintp + (n + 1) * sizeof_ptr in
  assertM (hvp + n * sizeof_addrhint =? namebase) ;; Done hv.

Definition mxrec_cmp (names : list Z) (a b : mxrec) : Z :=
  let d := pref a - pref b in
  if negb (d =? 0) then d else strcasecmp (cstr_at names (mx_name a)) (cstr_at names (mx_name b)).
Definition srvrec_cmp (a b : srvrec) : Z :=
  let d := prio a - prio b in
  if negb (d =? 0) then d else weight b - weight a.

(** Members of the union of [resrec]; reading another one than was written is [Wild] *)
Definition rr_a (rr : resrec) : outcome (list Z) := match rr_rd rr with RdA a => Done a | _ => Wild end.
Definition rr_mx (rr : resrec) : outcome (Z * list Z) := match rr_rd rr with RdMx p s => Done (p, s) | _ => Wild end.
Definition rr_srv (rr : resrec) : outcome (Z * Z * Z * list Z) := match rr_rd rr with RdSrv p w q s => Done (p, w, q, s) | _ => Wild end.
Definition rr_txt (rr : resrec) : outcome (list Z) := match rr_rd rr with RdTxt s => Done s | _ => Wild end.

(** *** [srvrec_randomize]; [rnd k] is the [k]-th result of [arandom] *)
Section randomize.
Context (rnd : nat -> Z).
(** [u_int] remainder; by zero it is undefined *)
Definition umod (a b : Z) : outcome Z := if b =? 0 then Wild else Done (a mod b).
Definition swap (recs : list srvrec) (i j : Z) : outcome (list srvrec) :=
  a ← rd recs i; b ← rd recs j; recs ← wr recs i b; wr recs j a.
Fixpoint scan_zero (fuel : nat) (recs : list srvrec) (p lastprio totweight : Z) : outcome (Z * Z) :=
  match fuel with
  | O => Spin
  | S fuel =>
      let lastprio := lastprio + 1 in
      if lastprio <? Z.of_nat (length recs) then
        r ← rd recs lastprio;
        if prio r =? p then scan_zero fuel recs p lastprio (u32 (totweight + 1)) else Done (lastprio, totweight)
      else Done (lastprio, totweight)
  end.
Fixpoint scan_weight (fuel : nat) (recs : list srvrec) (p lastprio totweight : Z) : outcome (Z * Z) :=
  match fuel with
  | O => Spin
  | S fuel =>
      let lastprio := lastprio + 1 in
      if lastprio <? Z.of_nat (length recs) then
        r ← rd recs lastprio;
        if negb (weight r =? 0) && (prio r =? p) then scan_weight fuel recs p lastprio (u32 (totweight + weight r)) else Done (lastprio, totweight)
      else Done (lastprio, totweight)
  end.
Fixpoint shuffle_zero (fuel : nat) (recs : list srvrec) (k : nat) (base lastprio totweight : Z) : outcome (list srvrec * nat * Z) :=
  match fuel with
  | O => Spin
  | S fuel =>
      if base + 1 <? lastprio then
        which ← umod (rnd k) totweight;
        recs ← (if negb (which =? 0) then swap recs (base + which) base else Done recs);
        shuffle_zero fuel recs (S k) (base + 1) lastprio (u32 (totweight - 1))
      else Done (recs, k, base)
  end.
Fixpoint pick (fuel : nat) (recs : list srvrec) (nextrec rndweight : Z) : outcome Z :=
  match fuel with
  | O => Spin
  | S fuel =>
      r ← rd recs nextrec;
      if weight r <? rndweight then pick fuel recs (nextrec + 1) (u32 (rndweight - weight r)) else Done nextrec
  end.
Fixpoint shuffle_weight (fuel : nat) (recs : list srvrec) (k : nat) (base lastprio totweight : Z) : outcome (list srvrec * nat * Z * Z) :=
  match fuel with
  | O => Spin
  | S fuel =>
      if base + 1 <? lastprio then
        r ← umod (rnd k) totweight;
        nextrec ← pick (S (length recs)) recs base (u32 (r + 1));
        recs ← swap recs base nextrec;
        b ← rd recs base;
        shuffle_weight fuel recs (S k) (base + 1) lastprio (u32 (totweight - weight b))
      else Done (recs, k, base, totweight)
  end.
Fixpoint randomize_loop (fuel : nat) (recs : list srvrec) (k : nat) (base : Z) : outcome (list srvrec) :=
  match fuel with
  | O => Spin
  | S fuel =>
      if base <? Z.of_nat (length recs) then
        b ← rd recs base;
        let n := S (length recs) in
        if weight b =? 0 then
          x ← scan_zero n recs (prio b) base 1;
          y ← shuffle_zero n recs k base x.1 x.2;
          let '(recs, k, base) := y in
          randomize_loop fuel recs k (base + 1)
        else
          x ← scan_weight n recs (prio b) base (weight b);
          y ← shuffle_weight n recs k base x.1 x.2;
          let '(recs, k, base, totweight) := y in
          b ← rd recs base;
          assertM (totweight =? weight b) ;;
          randomize_loop fuel recs k (base + 1)
      else Done recs
  end.
Definition srvrec_randomize `{QS : !Qsort} (recs : list srvrec) : outcome (list srvrec) :=
  let recs := qsort srvrec_cmp recs in
  randomize_loop (S (length recs)) recs 0 0.
End randomize.

Section results.
Context `{DL : !DnLib} `{QS : !Qsort}.
(** contents of new memory *)
Context (junk : Z -> list Z).

(** The loops over records; [f] is the body *)
Fixpoint each_rr {A} (buf : list Z) (f : A -> resrec -> outcome A) (n : nat) (cp : Z) (a : A) : outcome (option (Z * A)) :=
  match n with
  | O => Done (Some (cp, a))
  | S n => r ← rrparse buf cp;
      match r with None => Done None | Some (cp, rr) => a ← f a rr; each_rr buf f n cp a end
  end.

Definition set_error (d : dnsparse) (e : Z) : dnsparse :=
  mkdp (dp_buf d) (dp_anp d) e (dp_hdr d) (dp_ancount d) (dp_nscount d) (dp_arcount d).

Definition hint_step (nset : nameset) (hv : list addrhint) (rr : resrec) : outcome (list addrhint) :=
  if negb (rr_class rr =? C_IN) || negb (ns_present nset (rr_name rr)) then Done hv
  else if rr_type rr =? T_A then
    name ← ns_lookup nset (rr_name rr); a ← rr_a rr;
    Done (hv ++ [mkah name AF_INET 4 (a ++ replicate (16 - length a) 0)])
  else Done hv.
Definition gethints (d : dnsparse) (nset : nameset) : outcome (option (list addrhint) * dnsparse) :=
  match dp_anp d with
  | None => Done (None, set_error d ARERR_BADRESP)
  | Some cp =>
      r ← skipnrecs (dp_buf d) (Z.to_nat (u32 (dp_ancount d + dp_nscount d))) cp;
      match r with
      | None => Done (None, set_error d ARERR_BADRESP)
      | Some cp =>
          r ← each_rr (dp_buf d) (hint_step nset) (Z.to_nat (dp_arcount d)) cp [];
          match r with
          | None => Done (None, set_error d ARERR_BADRESP)
          | Some (_, hv) => Done (Some hv, d)
          end
      end
  end.

(** The answers of [d], or what [d] becomes without them *)
Definition answers {A} (d : dnsparse) (f : A -> resrec -> outcome A) (a : A) : outcome (option A * dnsparse) :=
  match dp_anp d with
  | None => Done (None, d)
  | Some cp =>
      r ← each_rr (dp_buf d) f (Z.to_nat (dp_ancount d)) cp a;
      match r with
      | None => Done (None, set_error d ARERR_BADRESP)
      | Some (_, a) => Done (Some a, d)
      end
  end.

(** *** [tomxlist] *)
Record mxstate := mkms { ms_nset : nameset; ms_name : option (list Z); ms_nameptr : Z; ms_mxes : list mxrec }.
Fixpoint mx_update (pr xp : Z) (mxes : list mxrec) : list mxrec :=
  match mxes with
  | [] => [mkmx pr xp]
  | m :: mxes => if mx_name m =? xp then (if pr <? pref m then mkmx pr xp else m) :: mxes else m :: mx_update pr xp mxes
  end.
Definition mx_step (st : mxstate) (rr : resrec) : outcome mxstate :=
  if (rr_class rr =? C_IN) && (rr_type rr =? T_MX) then
    mx ← rr_mx rr;
    let '(pr, exch) := mx in
    let add nset name nameptr :=
      let '(xp, nset) := ns_store nset exch in mkms nset name nameptr (mx_update pr xp (ms_mxes st)) in
    match ms_name st with
    | None => let '(nameptr, nset) := ns_store (ms_nset st) (rr_name rr) in Done (add nset (Some (rr_name rr)) nameptr)
    | Some name => if negb (strcasecmp name (rr_name rr) =? 0) then Done st else Done (add (ms_nset st) (Some name) (ms_nameptr st))
    end
  else Done st.
Definition tomxlist (d : dnsparse) : outcome (option mxlist * dnsparse) :=
  x ← answers d mx_step (mkms nameset_new None 0 []);
  match x with
  | (None, d) => Done (None, d)
  | (Some st, d) =>
      let mxes := ms_mxes st in
      if bool_decide (mxes = []) then Done (None, set_error d ARERR_NXREC)
      else
        h ← gethints d (ms_nset st);
        match h with
        | (None, d) => Done (None, d)
        | (Some hints, d) =>
            let n := Z.of_nat (length mxes) in
            let hintp := 24 + n * 16 in
            let namebase := hintp + hintsize (Z.of_nat (length hints)) in
            names ← ns_put (ms_nset st) (junk (ns_pos (ms_nset st)));
            hints ← puthints hintp hints namebase;
            let nmx := u16 n in
            let mxes := take (Z.to_nat nmx) mxes in
            Done (Some (mkmxl names (ms_nameptr st) hints (if 1 <? nmx then qsort (mxrec_cmp names) mxes else mxes)), d)
        end
  end.

(** *** [tosrvlist] *)
Record srvstate := mkss { ss_nset : nameset; ss_name : option (list Z); ss_nameptr : Z; ss_recs : list srvrec }.
Definition srv_step (st : srvstate) (rr : resrec) : outcome srvstate :=
  if negb (rr_class rr =? C_IN) || negb (rr_type rr =? T_SRV) then Done st
  else
    s ← rr_srv rr;
    let '(p, w, q, target) := s in
    let add nset name nameptr :=
      let '(tp, nset) := ns_store nset target in
      let w := foldl (fun w r => if (prio r =? p) && (port r =? q) && (tp =? srv_name r) then u16 (w + weight r) else w) w (reverse (ss_recs st)) in
      mkss nset name nameptr (ss_recs st ++ [mksrv p w q tp]) in
    match ss_name st with
    | None => let '(nameptr, nset) := ns_store (ss_nset st) (rr_name rr) in Done (add nset (Some (rr_name rr)) nameptr)
    | Some name => if negb (strcasecmp name (rr_name rr) =? 0) then Done st else Done (add (ss_nset st) (Some name) (ss_nameptr st))
    end.
Definition tosrvlist (rnd : nat -> Z) (d : dnsparse) : outcome (option srvlist * dnsparse) :=
  x ← answers d srv_step (mkss nameset_new None 0 []);
  match x with
  | (None, d) => Done (None, d)
  | (Some st, d) =>
      match ss_name st with
      | None => Done (None, set_error d ARERR_NXREC)
      | Some _ =>
          h ← gethints d (ss_nset st);
          match h with
          | (None, d) => Done (None, d)
          | (Some hints, d) =>
              recs ← srvrec_randomize rnd (ss_recs st);
              let n := Z.of_nat (length recs) in
              let hintp := 24 + n * 16 in
              let namebase := hintp + hintsize (Z.of_nat (length hints)) in
              names ← ns_put (ss_nset st) (junk (ns_pos (ss_nset st)));
              hints ← puthints hintp hints namebase;
              Done (Some (mksrvl names (ss_nameptr st) hints (take (Z.to_nat (u16 n)) recs)), d)
          end
      end
  end.
End results.

(** *** [tohostent], [totxtlist]: results in one block of memory, a list of cells; pointers are offsets into it *)
Inductive cell := CRaw | CByte (b : Z) | CPtr (p : option Z) (k : nat).
Definition ptr_cells (p : option Z) : list cell := CPtr p <$> seq 0 8.
Definition str_cells (s : list Z) : list cell := CByte <$> (s ++ [0]).
(** [he_mem] begins with the [hostent] itself, whose fields are the others here *)
Record hostent := mkhe { he_addrtype : Z; he_length : Z; he_name : Z; he_aliases : Z; he_addr_list : Z; he_mem : list cell }.
Definition sizeof_hostent : Z := 32.
Record txtlist := mktl { t_name : Z; t_ntxt : Z; t_mem : list cell }.
Definition offsetof_t_txts : Z := 16.

(** The loop that stores the addresses *)
Fixpoint put_addrs (mem : list cell) (addr_list dst : Z) (i : Z) (av : list (list Z)) : outcome (list cell) :=
  match av with
  | [] => Done mem
  | a :: av =>
      mem ← blit mem (addr_list + i * 8) (ptr_cells (Some (dst + i * 4)));
      mem ← blit mem (dst + i * 4) (CByte <$> a);
      put_addrs mem addr_list dst (i + 1) av
  end.
Fixpoint put_txts (mem : list cell) (i dp : Z) (txtv : list (list Z)) : outcome (list cell) :=
  match txtv with
  | [] => Done mem
  | s :: txtv =>
      mem ← blit mem (offsetof_t_txts + i * 8) (ptr_cells (Some dp));
      mem ← blit mem dp (str_cells s);
      put_txts mem (i + 1) (dp + Z.of_nat (length s) + 1) txtv
  end.

Section blocks.
Context `{DL : !DnLib}.

Record hoststate := mkhs { hs_name : option (list Z); hs_cname : option (list Z); hs_av : list (list Z) }.
Definition host_step (st : hoststate) (rr : resrec) : outcome hoststate :=
  if rr_class rr =? C_IN then
    if rr_type rr =? T_A then
      a ← rr_a rr; Done (mkhs (match hs_name st with None => Some (rr_name rr) | n => n end) (hs_cname st) (hs_av st ++ [a]))
    else if rr_type rr =? T_CNAME then Done (mkhs (hs_name st) (match hs_cname st with None => Some (rr_name rr) | n => n end) (hs_av st))
    else Done st
  else Done st.
Definition put_hostent (name : list Z) (cname : option (list Z)) (av : list (list Z)) : outcome hostent :=
  let n := Z.of_nat (length av) in
  let c := Z.b2z (bool_decide (is_Some cname)) in
  let size := sizeof_hostent + (c + 2 + n) * 8 + n * 4 + Z.of_nat (length name) + 1
              + match cname with Some s => Z.of_nat (length s) + 1 | None => 0 end in
  let mem := replicate (Z.to_nat size) CRaw in
  let aliases := sizeof_hostent in
  let addr_list := aliases + (1 + c) * 8 in
  let dst := addr_list + (1 + n) * 8 in
  mem ← put_addrs mem addr_list dst 0 av;
  mem ← blit mem (addr_list + n * 8) (ptr_cells None);
  let h_name := dst + n * 4 in
  mem ← blit mem h_name (str_cells name);
  mem ← match cname with
        | Some s =>
            let a0 := h_name + Z.of_nat (length name) + 1 in
            mem ← blit mem aliases (ptr_cells (Some a0));
            mem ← blit mem (aliases + 8) (ptr_cells None);
            blit mem a0 (str_cells s)
        | None => blit mem aliases (ptr_cells None)
        end;
  Done (mkhe AF_INET 4 h_name aliases addr_list mem).
Definition tohostent (d : dnsparse) : outcome (option hostent * dnsparse) :=
  x ← answers d host_step (mkhs None None []);
  match x with
  | (None, d) => Done (None, d)
  | (Some st, d) =>
      match hs_name st with
      | None => Done (None, set_error d ARERR_NXREC)
      | Some name => h ← put_hostent name (hs_cname st) (hs_av st); Done (Some h, d)
      end
  end.

Record txtstate := mkts { tx_name : option (list Z); tx_txtv : list (list Z); tx_nchars : Z }.
(** [strdup (rr.rr_txt)] ends at the first NUL *)
Definition txt_step (st : txtstate) (rr : resrec) : outcome txtstate :=
  if (rr_class rr =? C_IN) && (rr_type rr =? T_TXT) then
    t ← rr_txt rr;
    let '(name, nchars) := match tx_name st with
                           | None => (Some (rr_name rr), u32 (tx_nchars st + Z.of_nat (length (rr_name rr)) + 1))
                           | n => (n, tx_nchars st) end in
    let s := cstr t in
    Done (mkts name (tx_txtv st ++ [s]) (u32 (nchars + Z.of_nat (length s) + 1)))
  else Done st.
Definition put_txtlist (name : list Z) (txtv : list (list Z)) (nchars : Z) : outcome txtlist :=
  let n := Z.of_nat (length txtv) in
  let mem := replicate (Z.to_nat (offsetof_t_txts + n * 8 + nchars)) CRaw in
  let dp := offsetof_t_txts + n * 8 in
  mem ← blit mem dp (str_cells name);
  let ntxt := u16 n in
  mem ← put_txts mem 0 (dp + Z.of_nat (length name) + 1) (take (Z.to_nat ntxt) txtv);
  Done (mktl dp ntxt mem).
Definition totxtlist (d : dnsparse) : outcome (option txtlist * dnsparse) :=
  x ← answers d txt_step (mkts None [] 0);
  match x with
  | (None, d) => Done (None, d)
  | (Some st, d) =>
      match tx_name st with
      | None => Done (None, set_error d ARERR_NXREC)
      | Some name => t ← put_txtlist name (tx_txtv st) (tx_nchars st); Done (Some t, d)
      end
  end.
End blocks.
