(* ===== verification/DnsProps.v ===== *)
(** * Theorems on DNS messages *)
From Stdlib Require Import ZArith Lia.
From stdpp Require Import prelude gmap sorting.
From S2P Require Import Prelude Dnsparse.

(** ** Reading *)
Lemma rd_some {A} (l : list A) i : 0 <= i < Z.of_nat (length l) -> exists a, rd l i = Done a /\ l !! Z.to_nat i = Some a.
Proof.
  intros Hi. unfold rd. destruct (Z.leb_spec 0 i); [|lia]. destruct (lookup_lt_is_Some_2 l (Z.to_nat i) ltac:(lia)) as [a E]. rewrite E. by exists a.
Qed.
Definition short_at (l : list Z) (p x : Z) : Prop := exists a b, l !! Z.to_nat p = Some a /\ l !! Z.to_nat (p + 1) = Some b /\ x = 256 * a + b.
Definition long_at (l : list Z) (p x : Z) : Prop := exists a b, short_at l p a /\ short_at l (p + 2) b /\ x = 65536 * a + b.
Lemma getshort_some l p : 0 <= p -> p + 2 <= Z.of_nat (length l) -> exists x, getshort l p = Done x /\ short_at l p x.
Proof.
  intros H1 H2. unfold getshort. destruct (rd_some l p) as (a & -> & Ea); [lia|]. destruct (rd_some l (p + 1)) as (b & -> & Eb); [lia|].
  cbn. eexists. split; [done|]. by exists a, b.
Qed.
Lemma getlong_some l p : 0 <= p -> p + 4 <= Z.of_nat (length l) -> exists x, getlong l p = Done x /\ long_at l p x.
Proof.
  intros H1 H2. unfold getlong. destruct (getshort_some l p) as (a & -> & Ea); [lia..|]. destruct (getshort_some l (p + 2)) as (b & -> & Eb); [lia..|].
  cbn. eexists. split; [done|]. by exists a, b.
Qed.
Lemma short_at_fun l p x y : short_at l p x -> short_at l p y -> x = y.
Proof. intros (a & b & ? & ? & ->) (a' & b' & ? & ? & ->). by simplify_eq. Qed.
Lemma long_at_fun l p x y : long_at l p x -> long_at l p y -> x = y.
Proof. intros (a & b & H1 & H2 & ->) (a' & b' & H3 & H4 & ->). by rewrite (short_at_fun _ _ _ _ H1 H3), (short_at_fun _ _ _ _ H2 H4). Qed.

(** The bytes from [p] to [e] *)
Definition slice {A} (l : list A) (p e : Z) : list A := take (Z.to_nat (e - p)) (drop (Z.to_nat p) l).
Lemma length_slice {A} (l : list A) p e : 0 <= p <= e -> e <= Z.of_nat (length l) -> Z.of_nat (length (slice l p e)) = e - p.
Proof. intros H1 H2. unfold slice. rewrite length_take, length_drop. lia. Qed.
Lemma bytes_at_slice {A} (l : list A) p n : 0 <= p -> 0 <= n -> p + n <= Z.of_nat (length l) -> bytes_at l p n = Done (slice l p (p + n)).
Proof. intros H1 H2 H3. unfold bytes_at, slice. repeat case_match; try lia. by rewrite Z.add_simpl_l. Qed.
Lemma slice_cons {A} (l : list A) p e a : 0 <= p < e -> l !! Z.to_nat p = Some a -> slice l p e = a :: slice l (p + 1) e.
Proof.
  intros H E. unfold slice. rewrite (drop_S l a) by done. replace (Z.to_nat (e - p)) with (S (Z.to_nat (e - (p + 1)))) by lia.
  replace (Z.to_nat (p + 1)) with (S (Z.to_nat p)) by lia. done.
Qed.
Lemma slice_app {A} (l : list A) p m e : 0 <= p <= m -> m <= e -> slice l p e = slice l p m ++ slice l m e.
Proof.
  intros H1 H2. unfold slice. replace (Z.to_nat (e - p)) with (Z.to_nat (m - p) + Z.to_nat (e - m))%nat by lia.
  rewrite <- take_take_drop, drop_drop. do 3 f_equal. lia.
Qed.
Lemma slice_nil {A} (l : list A) p : slice l p p = [].
Proof. unfold slice. by rewrite Z.sub_diag. Qed.

(** ** The format of a record (RFC 1035, RFC 2782) *)
Section wire.
Context `{DL : !DnLib}.
Definition name_at (msg : list Z) (p : Z) (s : list Z) (e : Z) : Prop := exists n, dn_expand msg p MAXDNAME = Some (n, s) /\ e = p + n.
(** Strings, each behind a byte with its length *)
Definition charstring (s : list Z) : list Z := Z.of_nat (length s) :: s.
Inductive rdata_at (msg : list Z) (type p e : Z) : rdata -> Prop :=
| at_a : type = T_A -> e = p + 4 -> rdata_at msg type p e (RdA (slice msg p e))
| at_name s : type ∈ [T_NS; T_CNAME; T_DNAME; T_PTR] -> name_at msg p s e -> rdata_at msg type p e (RdName s)
| at_mx x s : type ∈ [T_MX; T_AFSDB] -> short_at msg p x -> name_at msg (p + 2) s e -> rdata_at msg type p e (RdMx x s)
| at_txt ss : type = T_TXT -> 0 < e - p < sizeof_rd_soa -> slice msg p e = concat (charstring <$> ss) -> rdata_at msg type p e (RdTxt (concat ss))
| at_soa m r a b c d x p1 p2 : type = T_SOA -> name_at msg p m p1 -> name_at msg p1 r p2 ->
    long_at msg p2 a -> long_at msg (p2 + 4) b -> long_at msg (p2 + 8) c -> long_at msg (p2 + 12) d -> long_at msg (p2 + 16) x -> e = p2 + 20 ->
    rdata_at msg type p e (RdSoa m r a b c d x)
| at_srv x w q s : type = T_SRV -> short_at msg p x -> short_at msg (p + 2) w -> short_at msg (p + 4) q -> name_at msg (p + 6) s e -> rdata_at msg type p e (RdSrv x w q s)
| at_other : type ∉ [T_A; T_NS; T_CNAME; T_DNAME; T_PTR; T_MX; T_AFSDB; T_TXT; T_SOA; T_SRV] -> rdata_at msg type p e RdOther.
(** [rr_at msg cp rr e]: the bytes from [cp] to [e] are the record [rr]. *)
Inductive rr_at (msg : list Z) (cp : Z) (rr : resrec) (e : Z) : Prop :=
| rr_at_intro p : name_at msg cp (rr_name rr) p ->
    short_at msg p (rr_type rr) -> short_at msg (p + 2) (rr_class rr) -> long_at msg (p + 4) (rr_ttl rr) -> short_at msg (p + 8) (rr_rdlen rr) ->
    e = p + 10 + rr_rdlen rr -> e <= Z.of_nat (length msg) -> rdata_at msg (rr_type rr) (p + 10) e (rr_rd rr) -> rr_at msg cp rr e.
End wire.

Lemma getshort_iff l p x : 0 <= p -> getshort l p = Done x <-> short_at l p x.
Proof.
  intros Hp. unfold getshort, rd. destruct (Z.leb_spec 0 p); [|lia]. destruct (Z.leb_spec 0 (p + 1)); [|lia]. unfold short_at.
  destruct (l !! Z.to_nat p) as [a|]; cbn; [|split; [done|naive_solver]]. destruct (l !! Z.to_nat (p + 1)) as [b|]; cbn; [|split; [done|naive_solver]]. split.
  - intros [= <-]. by exists a, b.
  - intros (? & ? & [= <-] & [= <-] & ->). done.
Qed.
Lemma getlong_iff l p x : 0 <= p -> getlong l p = Done x <-> long_at l p x.
Proof.
  intros Hp. unfold getlong, long_at. split.
  - destruct (getshort l p) as [a| | |] eqn:Ea; cbn; [|done..]. destruct (getshort l (p + 2)) as [b| | |] eqn:Eb; cbn; [|done..]. intros [= <-].
    apply getshort_iff in Ea, Eb; [|lia..]. by exists a, b.
  - intros (a & b & Ha & Hb & ->). apply getshort_iff in Ha as ->; [|lia]. apply getshort_iff in Hb as ->; [|lia]. done.
Qed.
Lemma short_at_bound l p x : Forall is_byte l -> short_at l p x -> 0 <= x < 65536.
Proof. intros Hl (a & b & Ha & Hb & ->). pose proof (Forall_lookup_1 _ _ _ _ Hl Ha). pose proof (Forall_lookup_1 _ _ _ _ Hl Hb). unfold is_byte in *. lia. Qed.

(** Compares types of records *)
Ltac types := rewrite ?elem_of_cons, ?elem_of_nil in *; unfold T_A, T_NS, T_CNAME, T_SOA, T_PTR, T_MX, T_TXT, T_AFSDB, T_SRV, T_DNAME in *.

Section rrparse.
Context `{DL : !DnLib} `{DLok : !DnLibOK}.
Context (msg : list Z) (Hmsg : Forall is_byte msg).
Notation eom := (Z.of_nat (length msg)).

Lemma name_at_bound p s e : name_at msg p s e -> 0 <= p < e /\ e <= eom.
Proof using DLok. intros (n & E & ->). destruct (dn_expand_bound _ _ _ _ _ E). lia. Qed.

(** The loop over the strings of a [T_TXT] record accepts exactly the sequences of strings. *)
Lemma txt_loop_spec fuel : forall cp rdlen dp, (Z.to_nat rdlen < fuel)%nat -> 0 <= rdlen < 65536 -> 0 <= cp -> cp + rdlen <= eom ->
  exists r, txt_loop msg fuel cp rdlen dp = Done r /\
    forall cp' t, r = Some (cp', t) <-> cp' = cp + rdlen /\ exists ss, slice msg cp (cp + rdlen) = concat (charstring <$> ss) /\ t = dp ++ concat ss.
Proof using Hmsg.
  induction fuel as [|fuel IH]; intros cp rdlen dp Hf Hr Hcp He; [lia|]. cbn [txt_loop]. destruct (Z.ltb_spec 0 rdlen).
  - destruct (rd_some msg cp) as (c & -> & Ec); [lia|]. cbn [mbind outcome_bind]. pose proof (Forall_lookup_1 _ _ _ _ Hmsg Ec) as Hc. unfold is_byte in Hc.
    assert (Es := slice_cons msg cp (cp + rdlen) c ltac:(lia) Ec). destruct (Z.ltb_spec rdlen (c + 1)).
    + exists None. split; [done|]. intros cp' t. split; [done|]. intros (_ & ss & E & _). rewrite Es in E. destruct ss as [|s ss]; [done|]. cbn in E.
      injection E as Ec' E. assert (L := f_equal length E). rewrite length_app in L. assert (L2 := length_slice msg (cp + 1) (cp + rdlen) ltac:(lia) ltac:(lia)). lia.
    + rewrite bytes_at_slice by lia. cbn [mbind outcome_bind].
      assert (Eu : u16 (rdlen - (c + 1)) = rdlen - (c + 1)). { rewrite u16_mod. apply Z.mod_small. lia. }
      rewrite Eu. destruct (IH (cp + (c + 1)) (rdlen - (c + 1)) (dp ++ slice msg (cp + 1) (cp + 1 + c))) as (r & -> & Hspec); [lia..|].
      exists r. split; [done|]. intros cp' t. rewrite Hspec. clear Hspec. replace (cp + (c + 1) + (rdlen - (c + 1))) with (cp + rdlen) by lia.
      replace (cp + (c + 1)) with (cp + 1 + c) by lia. rewrite Es, (slice_app msg (cp + 1) (cp + 1 + c) (cp + rdlen)) by lia.
      assert (L2 := length_slice msg (cp + 1) (cp + 1 + c) ltac:(lia) ltac:(lia)).
      apply and_iff_compat_l. split.
      * intros (ss & E & ->). rewrite E. exists (slice msg (cp + 1) (cp + 1 + c) :: ss). split; [cbn [fmap list_fmap concat charstring app]; f_equal; lia|by rewrite <- app_assoc].
      * intros (ss & E & ->). destruct ss as [|s ss]; [done|]. cbn in E. injection E as Ec' E. apply app_inj_1 in E as [-> E]; [|lia].
        exists ss. split; [done|]. cbn. by rewrite <- app_assoc.
  - replace rdlen with 0 by lia. rewrite Z.add_0_r, slice_nil. eexists. split; [done|]. intros cp' t. split.
    + intros [= <- <-]. split; [done|]. exists []. by rewrite app_nil_r.
    + intros (-> & ss & E & ->). destruct ss; [by rewrite app_nil_r|done].
Qed.

Lemma name_at_iff p s e (X : Type) (f : Z -> list Z -> X) (x : X) : (forall n s' m s, f n s' = f m s -> n = m /\ s' = s) -> x = f e s ->
  (match dn_expand msg p MAXDNAME with None => Done None | Some (n, s) => Done (Some (f (p + n) s)) end = Done (Some x)) <-> name_at msg p s e.
Proof using.
  intros Hf ->. unfold name_at. destruct (dn_expand msg p MAXDNAME) as [[n s']|]; [|split; [done|naive_solver]]. split.
  - intros [= E]. apply Hf in E as [<- <-]. eauto.
  - intros (m & [= <- <-] & ->). done.
Qed.

Section rdata.
Context (p rdlen e : Z) (Hp : 0 <= p) (Hr : 0 <= rdlen < 65536) (He : e = p + rdlen) (Hlim : e <= eom).

Lemma parse_a d : rdata_parse msg T_A p rdlen = Done (Some (e, d)) <-> rdata_at msg T_A p e d.
Proof.
  unfold rdata_parse. rewrite Z.eqb_refl. split.
  - unfold bytes_at. case_match; [|done]. intros [= <- <-]. assert (take _ _ = slice msg p (p + 4)) as ->; [|by constructor]. unfold slice. f_equal. f_equal. lia.
  - intros X. inversion X as [_ E| | | | | |]; try (types; lia). rewrite bytes_at_slice by lia. by rewrite E.
Qed.
Lemma parse_name type d : type ∈ [T_NS; T_CNAME; T_DNAME; T_PTR] -> rdata_parse msg type p rdlen = Done (Some (e, d)) <-> rdata_at msg type p e d.
Proof.
  intros Ht. assert (E : rdata_parse msg type p rdlen = match dn_expand msg p MAXDNAME with None => Done None | Some (n, s) => Done (Some (p + n, RdName s)) end).
  { rewrite !elem_of_cons, elem_of_nil in Ht. by destruct Ht as [->|[->|[->|[->|[]]]]]. }
  rewrite E. split.
  - intros R. assert (exists s, d = RdName s) as [s ->]. { destruct (dn_expand _ _ _) as [[??]|]; naive_solver. }
    apply (name_at_iff p s e _ (fun n s => (n, RdName s))) in R; [by constructor|naive_solver|done].
  - intros X. inversion X; try (types; lia). apply (name_at_iff p s e _ (fun n s => (n, RdName s))); [naive_solver|done|done].
Qed.
Lemma parse_mx type d : type ∈ [T_MX; T_AFSDB] -> rdata_parse msg type p rdlen = Done (Some (e, d)) <-> rdata_at msg type p e d.
Proof.
  intros Ht. assert (E : rdata_parse msg type p rdlen = if rdlen <? 2 then Done None else x ← getshort msg p;
      match dn_expand msg (p + 2) MAXDNAME with None => Done None | Some (n, s) => Done (Some (p + 2 + n, RdMx x s)) end).
  { rewrite !elem_of_cons, elem_of_nil in Ht. by destruct Ht as [->|[->|[]]]. }
  rewrite E. destruct (Z.ltb_spec rdlen 2).
  { split; [done|]. intros X. inversion X; try (types; lia). destruct (name_at_bound _ _ _ ltac:(eassumption)). lia. }
  destruct (getshort_some msg p) as (x & Ex & Hx); [lia..|]. rewrite Ex. cbn [mbind outcome_bind]. split.
  - intros R. assert (exists s, d = RdMx x s) as [s ->]. { destruct (dn_expand _ _ _) as [[??]|]; naive_solver. }
    apply (name_at_iff (p + 2) s e _ (fun n s => (n, RdMx x s))) in R; [by constructor|naive_solver|done].
  - intros X. inversion X as [| |x' s ? Hx'| | | |]; try (types; lia). rewrite (short_at_fun _ _ _ _ Hx' Hx). apply (name_at_iff (p + 2) s e _ (fun n s => (n, RdMx x s))); [naive_solver|done|done].
Qed.
Lemma parse_txt d : rdata_parse msg T_TXT p rdlen = Done (Some (e, d)) <-> rdata_at msg T_TXT p e d.
Proof.
  change (rdata_parse msg T_TXT p rdlen) with (if (sizeof_rd_soa <=? rdlen) || (rdlen <? 1) then Done None
    else r ← txt_loop msg (S (Z.to_nat rdlen)) p rdlen []; Done (option_map (fun x => (x.1, RdTxt x.2)) r)).
  destruct (_ || _) eqn:El.
  { split; [done|]. intros X. inversion X; try (types; lia). }
  destruct (txt_loop_spec (S (Z.to_nat rdlen)) p rdlen [] ltac:(lia) Hr Hp ltac:(lia)) as (r & -> & Hspec). cbn [mbind outcome_bind]. rewrite <- He in Hspec. split.
  - destruct r as [[cp' t]|]; [|done]. intros [= _ <-]. destruct (Hspec cp' t) as [Hs _]. destruct (Hs eq_refl) as (_ & ss & E & ->). cbn [app]. constructor; [done|lia|done].
  - intros X. inversion X as [| | |ss ? ? E| | |]; try (types; lia). destruct (Hspec e (concat ss)) as [_ Hs]. rewrite Hs; [done|]. split; [done|]. by exists ss.
Qed.
Lemma parse_soa d : rdata_parse msg T_SOA p rdlen = Done (Some (e, d)) <-> rdata_at msg T_SOA p e d.
Proof.
  unfold rdata_parse. cbn [Z.eqb T_A T_NS T_CNAME T_DNAME T_PTR T_MX T_AFSDB T_TXT T_SOA orb Pos.eqb]. split.
  - destruct (dn_expand msg p MAXDNAME) as [[n m]|] eqn:E1; [|done]. destruct (dn_expand msg (p + n) MAXDNAME) as [[k r]|] eqn:E2; [|done].
    destruct (Z.ltb_spec eom (p + n + k + 20)); [done|]. destruct (dn_expand_bound _ _ _ _ _ E1), (dn_expand_bound _ _ _ _ _ E2).
    destruct (getlong_some msg (p + n + k)) as (x1 & -> & K1); [lia..|]. destruct (getlong_some msg (p + n + k + 4)) as (x2 & -> & K2); [lia..|].
    destruct (getlong_some msg (p + n + k + 8)) as (x3 & -> & K3); [lia..|]. destruct (getlong_some msg (p + n + k + 12)) as (x4 & -> & K4); [lia..|].
    destruct (getlong_some msg (p + n + k + 16)) as (x5 & -> & K5); [lia..|]. cbn [mbind outcome_bind]. intros [= <- <-].
    apply (at_soa _ _ _ _ _ _ _ _ _ _ _ (p + n) (p + n + k)); try done; eexists; split; done.
  - intros X. inversion X as [| | | |m r a b c g x p1 p2 _ N1 N2 L1 L2 L3 L4 L5 E| |]; try (types; lia). destruct (name_at_bound _ _ _ N1), (name_at_bound _ _ _ N2).
    destruct N1 as (n & -> & ->), N2 as (k & -> & ->). destruct (Z.ltb_spec eom (p + n + k + 20)); [lia|].
    apply getlong_iff in L1 as ->, L2 as ->, L3 as ->, L4 as ->, L5 as ->; [|lia..]. cbn [mbind outcome_bind]. by rewrite E.
Qed.
Lemma parse_srv d : rdata_parse msg T_SRV p rdlen = Done (Some (e, d)) <-> rdata_at msg T_SRV p e d.
Proof.
  unfold rdata_parse. cbn [Z.eqb T_A T_NS T_CNAME T_DNAME T_PTR T_MX T_AFSDB T_TXT T_SOA T_SRV orb Pos.eqb]. destruct (Z.ltb_spec rdlen 7).
  { split; [done|]. intros X. inversion X; try (types; lia). destruct (name_at_bound _ _ _ ltac:(eassumption)). lia. }
  destruct (getshort_some msg p) as (x & -> & Hx); [lia..|]. destruct (getshort_some msg (p + 2)) as (w & -> & Hw); [lia..|].
  destruct (getshort_some msg (p + 4)) as (q & -> & Hq); [lia..|]. cbn [mbind outcome_bind]. split.
  - intros R. assert (exists s, d = RdSrv x w q s) as [s ->]. { destruct (dn_expand _ _ _) as [[??]|]; naive_solver. }
    apply (name_at_iff (p + 6) s e _ (fun n s => (n, RdSrv x w q s))) in R; [by constructor|naive_solver|done].
  - intros X. inversion X as [| | | | |x' w' q' s ? Hx' Hw' Hq'|]; try (types; lia). rewrite (short_at_fun _ _ _ _ Hx' Hx), (short_at_fun _ _ _ _ Hw' Hw), (short_at_fun _ _ _ _ Hq' Hq).
    apply (name_at_iff (p + 6) s e _ (fun n s => (n, RdSrv x w q s))); [naive_solver|done|done].
Qed.
Lemma parse_other type d : type ∉ [T_A; T_NS; T_CNAME; T_DNAME; T_PTR; T_MX; T_AFSDB; T_TXT; T_SOA; T_SRV] ->
  rdata_parse msg type p rdlen = Done (Some (e, d)) <-> rdata_at msg type p e d.
Proof.
  intros Ht. assert (rdata_parse msg type p rdlen = Done (Some (p + rdlen, RdOther))) as ->.
  { unfold rdata_parse. types. repeat (case_match; [lia|]). done. }
  split; [intros [= <- <-]; by constructor|]. intros X. inversion X; try (exfalso; types; lia). by rewrite He.
Qed.
Lemma rdata_parse_iff type d : rdata_parse msg type p rdlen = Done (Some (e, d)) <-> rdata_at msg type p e d.
Proof.
  destruct (decide (type ∈ [T_A; T_NS; T_CNAME; T_DNAME; T_PTR; T_MX; T_AFSDB; T_TXT; T_SOA; T_SRV])) as [H|H]; [|by apply parse_other].
  repeat (apply elem_of_cons in H as [->|H]; [first [apply parse_a|apply parse_name; set_solver|apply parse_mx; set_solver|apply parse_txt|apply parse_soa|apply parse_srv]|]).
  by apply elem_of_nil in H.
Qed.
End rdata.

(** What [rrparse] reads before the data *)
Lemma rrparse_fixed cp p name : name_at msg cp name p -> p + 10 <= eom ->
  exists type class ttl rdlen, short_at msg p type /\ short_at msg (p + 2) class /\ long_at msg (p + 4) ttl /\ short_at msg (p + 8) rdlen /\
    rrparse msg cp = if eom <? p + 10 + rdlen then Done None
      else r ← rdata_parse msg type (p + 10) rdlen;
        match r with None => Done None | Some (e, d) => assertM (e =? p + 10 + rdlen) ;; Done (Some (e, mkrr name type class ttl rdlen d)) end.
Proof.
  intros Hn Hl. pose proof (name_at_bound _ _ _ Hn). destruct Hn as (n & E & ->).
  destruct (getshort_some msg (cp + n)) as (type & E1 & H1); [lia..|]. destruct (getshort_some msg (cp + n + 2)) as (class & E2 & H2); [lia..|].
  destruct (getlong_some msg (cp + n + 4)) as (ttl & E3 & H3); [lia..|]. destruct (getshort_some msg (cp + n + 8)) as (rdlen & E4 & H4); [lia..|].
  exists type, class, ttl, rdlen. do 4 (split; [done|]). unfold rrparse. rewrite E. destruct (Z.ltb_spec eom (cp + n + 10)); [lia|].
  rewrite E1, E2, E3, E4. done.
Qed.
Lemma rrparse_spec cp rr e : rrparse msg cp = Done (Some (e, rr)) <-> rr_at msg cp rr e.
Proof.
  destruct (dn_expand msg cp MAXDNAME) as [[n name]|] eqn:En.
  2:{ unfold rrparse. rewrite En. split; [done|]. intros [p (? & E & _)]. congruence. }
  destruct (Z.ltb_spec eom (cp + n + 10)) as [Hl|Hl].
  { unfold rrparse. rewrite En. destruct (Z.ltb_spec eom (cp + n + 10)); [|lia]. split; [done|]. intros [p (m & E & ->) ? ? ? R ? ?].
    pose proof (short_at_bound _ _ _ Hmsg R). rewrite En in E. simplify_eq. lia. }
  assert (Hn : name_at msg cp name (cp + n)) by (by exists n). pose proof (name_at_bound _ _ _ Hn).
  destruct (rrparse_fixed cp (cp + n) name Hn Hl) as (type & class & ttl & rdlen & H1 & H2 & H3 & H4 & ->). pose proof (short_at_bound _ _ _ Hmsg H4).
  destruct (Z.ltb_spec eom (cp + n + 10 + rdlen)).
  { split; [done|]. intros [p (m & E & ->) ? ? ? R ? ?]. rewrite En in E. simplify_eq. pose proof (short_at_fun _ _ _ _ R H4). lia. }
  pose proof (rdata_parse_iff (cp + n + 10) rdlen (cp + n + 10 + rdlen) ltac:(lia) ltac:(lia) eq_refl ltac:(lia) type) as Hd. split.
  - destruct (rdata_parse msg type (cp + n + 10) rdlen) as [[[e' d]|]| | |]; cbn [mbind outcome_bind]; try done.
    destruct (Z.eqb_spec e' (cp + n + 10 + rdlen)) as [->|]; [|done]. cbn [assertM]. intros [= <- <-]. apply (rr_at_intro _ _ _ _ (cp + n)); cbn; try done. by apply Hd.
  - intros [p (m & E & ->) R1 R2 R3 R4 -> Hlim D]. rewrite En in E. destruct rr as [name' type' class' ttl' rdlen' d]. cbn in *. simplify_eq.
    pose proof (short_at_fun _ _ _ _ R4 H4) as ->. pose proof (short_at_fun _ _ _ _ R1 H1) as ->. pose proof (short_at_fun _ _ _ _ R2 H2) as ->. pose proof (long_at_fun _ _ _ _ R3 H3) as ->.
    apply Hd in D as ->. cbn [mbind outcome_bind]. by rewrite Z.eqb_refl.
Qed.

(** An address record of the wrong length is not refused. *)
Lemma rrparse_bad_a cp p name rdlen : name_at msg cp name p -> short_at msg p T_A -> short_at msg (p + 8) rdlen -> p + 10 + rdlen <= eom -> rdlen <> 4 ->
  rrparse msg cp = if p + 14 <=? eom then Panic else Wild.
Proof.
  intros Hn Ht Hr Hl H4. pose proof (name_at_bound _ _ _ Hn). pose proof (short_at_bound _ _ _ Hmsg Hr).
  destruct (rrparse_fixed cp p name Hn ltac:(lia)) as (type & class & ttl & rdlen' & R1 & _ & _ & R4 & ->).
  pose proof (short_at_fun _ _ _ _ R4 Hr) as ->. pose proof (short_at_fun _ _ _ _ R1 Ht) as ->. destruct (Z.ltb_spec eom (p + 10 + rdlen)); [lia|].
  unfold rdata_parse. rewrite Z.eqb_refl. unfold bytes_at. destruct (Z.leb_spec (p + 14) eom); repeat case_match; try lia; cbn [mbind outcome_bind]; try done.
  destruct (Z.eqb_spec (p + 10 + 4) (p + 10 + rdlen)); [lia|done].
Qed.

(** Records one after the other *)
Inductive rrs_at (cp : Z) : list resrec -> Z -> Prop :=
| rrs_nil : rrs_at cp [] cp
| rrs_cons rr m rrs e : rr_at msg cp rr m -> rrs_at m rrs e -> rrs_at cp (rr :: rrs) e.
Lemma skipnrecs_spec cp rrs e : rrs_at cp rrs e -> skipnrecs msg (length rrs) cp = Done (Some e).
Proof.
  induction 1 as [cp|cp rr m rrs e H _ IH]; [done|]. destruct H as [p Hn R1 R2 R3 R4 -> Hl _]. pose proof (name_at_bound _ _ _ Hn). destruct Hn as (n & E & ->).
  cbn [length skipnrecs]. rewrite (dn_expand_skip _ _ _ _ _ E). pose proof (short_at_bound _ _ _ Hmsg R4). apply getshort_iff in R4; [|lia].
  destruct (Z.ltb_spec eom (cp + n + 10)); [lia|]. rewrite R4. cbn [mbind outcome_bind]. destruct (Z.ltb_spec (eom - (cp + n + 10)) (rr_rdlen rr)); [lia|]. done.
Qed.
Lemma each_rr_spec {A} (f : A -> resrec -> outcome A) cp rrs e : rrs_at cp rrs e -> forall a a',
  foldl (fun x rr => x ≫= fun a => f a rr) (Done a) rrs = Done a' -> each_rr msg f (length rrs) cp a = Done (Some (e, a')).
Proof.
  induction 1 as [cp|cp rr m rrs e H _ IH]; intros a a' Hf; cbn in *; [by simplify_eq|]. apply rrparse_spec in H as ->. cbn.
  destruct (f a rr) as [b| | |]; cbn in *; [by apply IH| | |]; exfalso; clear -Hf; induction rrs as [|x rrs IH]; cbn in Hf; try done; auto.
Qed.
End rrparse.


(** an address record whose length is not 4 is not refused as malformed:
    the assertion at the end of [rrparse] fails, or, at the end of the
    message, four bytes are read that are not all part of it. *)
Theorem rrparse_bad_address `{DL : !DnLib} `{DLok : !DnLibOK} msg cp p name rdlen : Forall is_byte msg ->
  name_at msg cp name p -> short_at msg p T_A -> short_at msg (p + 8) rdlen -> p + 10 + rdlen <= Z.of_nat (length msg) -> rdlen <> 4 ->
  rrparse msg cp = if p + 14 <=? Z.of_nat (length msg) then Panic else Wild.
Proof. intros H. by apply rrparse_bad_a. Qed.

(** ** A resolver library for examples: labels and compression as in RFC 1035, without escapes *)
Fixpoint skip_labels (fuel : nat) (msg : list Z) (cp : Z) : option Z :=
  match fuel with
  | O => None
  | S fuel =>
      match msg !! Z.to_nat cp with
      | None => None
      | Some c => if c =? 0 then Some (cp + 1) else if c <? 64 then skip_labels fuel msg (cp + 1 + c) else if 192 <=? c then Some (cp + 2) else None
      end
  end.
Fixpoint expand_labels (fuel : nat) (msg : list Z) (cp : Z) (acc : list Z) : option (list Z) :=
  match fuel with
  | O => None
  | S fuel =>
      match msg !! Z.to_nat cp with
      | None => None
      | Some c =>
          if c =? 0 then Some acc
          else if c <? 64 then expand_labels fuel msg (cp + 1 + c) (acc ++ (if bool_decide (acc = []) then [] else [46]) ++ slice msg (cp + 1) (cp + 1 + c))
          else match msg !! Z.to_nat (cp + 1) with Some d => expand_labels fuel msg (256 * (c .& 63) + d) acc | None => None end
      end
  end.
Definition sample_skip (msg : list Z) (cp : Z) : option Z :=
  match skip_labels (length msg) msg cp with
  | Some e => if (0 <=? cp) && (cp <? e) && (e <=? Z.of_nat (length msg)) then Some (e - cp) else None
  | None => None
  end.
Definition sample_expand (msg : list Z) (cp size : Z) : option (Z * list Z) :=
  match sample_skip msg cp, expand_labels (length msg) msg cp [] with
  | Some n, Some s => if forallb (fun c => (0 <? c) && (c <? 256)) s && (Z.of_nat (length s) <? size) then Some (n, s) else None
  | _, _ => None
  end.
#[export] Instance sample_dn : DnLib := {| dn_skipname := sample_skip; dn_expand := sample_expand |}.
#[export] Instance sample_dn_ok : DnLibOK.
Proof.
  assert (B : forall msg cp n, sample_skip msg cp = Some n -> 0 < n /\ 0 <= cp /\ cp + n <= Z.of_nat (length msg)).
  { intros msg cp n. unfold sample_skip. destruct (skip_labels _ _ _); [|done]. case_match; [|done]. intros [= <-]. lia. }
  split; cbn; unfold sample_expand.
  - intros msg cp n _ H. destruct (B _ _ _ H). lia.
  - intros msg cp size n s. destruct (sample_skip msg cp) as [k|] eqn:E; [|done]. destruct (expand_labels _ _ _ _) as [t|]; [|done].
    destruct (forallb _ t) eqn:Ef; [|done]. destruct (Z.ltb_spec (Z.of_nat (length t)) size); [|done]. intros [= <- <-]. destruct (B _ _ _ E) as (? & ? & ?).
    do 4 (split; [done|]). apply Forall_forall. intros c Hc. rewrite forallb_forall in Ef. specialize (Ef c (proj1 (list_elem_of_In _ _) Hc)). cbn. lia.
  - intros msg cp size n s. destruct (sample_skip msg cp) as [k|]; [|done]. destruct (expand_labels _ _ _ _); [|done]. case_match; [|done]. by intros [= <- _].
Qed.

(** A response: the question for the exchangers of [a.b], three answers, an address *)
Definition sample_msg : list Z :=
  [0; 7; 0x80; 0; 0; 1; 0; 3; 0; 0; 0; 1]
  ++ [1; 97; 1; 98; 0; 0; 15; 0; 1]
  ++ [0xc0; 12; 0; 15; 0; 1; 0; 0; 0; 60; 0; 6; 0; 20; 1; 120; 0xc0; 14]
  ++ [0xc0; 12; 0; 15; 0; 1; 0; 0; 0; 60; 0; 6; 0; 10; 1; 121; 0xc0; 14]
  ++ [0xc0; 12; 0; 15; 0; 1; 0; 0; 0; 60; 0; 4; 0; 5; 0xc0; 35]
  ++ [0xc0; 53; 0; 1; 0; 1; 0; 0; 0; 60; 0; 4; 10; 0; 0; 1].
Lemma sample_msg_bytes : Forall is_byte sample_msg.
Proof. unfold is_byte. apply Forall_forall. intros c Hc. apply list_elem_of_In in Hc. revert c Hc. apply List.Forall_forall. repeat constructor; lia. Qed.
Lemma rrparse_bad_address_witness : rrparse ([0] ++ [0; 1; 0; 1; 0; 0; 0; 60; 0; 2; 10; 0]) 0 = Wild /\ rrparse ([0] ++ [0; 1; 0; 1; 0; 0; 0; 60; 0; 5; 10; 0; 0; 1; 9]) 0 = Panic.
Proof.
  split.
  - rewrite (rrparse_bad_address _ 0 1 [] 2); [reflexivity|unfold is_byte; repeat constructor; lia|by exists 1|by exists 0, 1|by exists 0, 2|cbn; lia|lia].
  - rewrite (rrparse_bad_address _ 0 1 [] 5); [reflexivity|unfold is_byte; repeat constructor; lia|by exists 1|by exists 0, 1|by exists 0, 5|cbn; lia|lia].
Defined.

(** ** Packets on TCP connections *)
Record tcp_ok (t : dnstcppkt) : Prop := {
  tc_used : 0 <= tp_used t <= tp_pos t;
  tc_pos : tp_pos t <= tp_size t;
  tc_size : 0 <= tp_size t < 2 ^ 31;
  tc_buf : Z.of_nat (length (tp_buf t)) = tp_size t;
  tc_bytes : Forall is_byte (tp_buf t)
}.
(** The bytes that were received and not taken *)
Definition pending (t : dnstcppkt) : list Z := slice (tp_buf t) (tp_used t) (tp_pos t).
Definition frame (pkt : list Z) : list Z := [Z.of_nat (length pkt) / 256; Z.of_nat (length pkt) mod 256] ++ pkt.
Definition next_size (q : list Z) : Z := match q with a :: b :: _ => 256 * a + b + 2 | _ => 2 end.

Lemma tcp_pktsize_spec t : tcp_ok t -> tcp_pktsize t = Done (next_size (pending t)) /\ 2 <= next_size (pending t) <= 65537.
Proof.
  intros [H1 H2 H3 H4 H5]. unfold tcp_pktsize, pending. rewrite u32_small by lia. destruct (Z.ltb_spec (tp_pos t) (tp_used t + 2)).
  - destruct (Z.eq_dec (tp_pos t) (tp_used t)) as [->|]; [rewrite slice_nil; split; [done|cbn; lia]|]. destruct (rd_some (tp_buf t) (tp_used t)) as (a & _ & Ea); [lia|].
    rewrite (slice_cons _ _ _ a) by (done || lia). replace (tp_pos t) with (tp_used t + 1) by lia. rewrite slice_nil. split; [done|cbn; lia].
  - destruct (getshort_some (tp_buf t) (tp_used t)) as (x & -> & Hx); [lia..|]. pose proof (short_at_bound _ _ _ H5 Hx). destruct Hx as (a & b & Ea & Eb & ->).
    rewrite (slice_cons _ _ _ a) by (done || lia). rewrite (slice_cons _ _ _ b) by (done || lia). cbn. split; [done|lia].
Qed.
Lemma length_pending t : tcp_ok t -> Z.of_nat (length (pending t)) = tp_pos t - tp_used t.
Proof. intros [H1 H2 H3 H4 H5]. apply length_slice; lia. Qed.

(** [getpkt] takes the first frame once it is complete. *)
Lemma tcp_getpkt_frame t pkt rest : tcp_ok t -> Z.of_nat (length pkt) < 65536 -> pending t = frame pkt ++ rest ->
  exists t', tcp_getpkt t = Done (Some pkt, t') /\ tcp_ok t' /\ pending t' = rest.
Proof.
  intros Ht Hp E. destruct (tcp_pktsize_spec t Ht) as [Es _]. pose proof (length_pending t Ht) as L. rewrite E in Es, L. cbn [frame app next_size] in Es.
  replace (256 * (Z.of_nat (length pkt) / 256) + Z.of_nat (length pkt) mod 256 + 2) with (Z.of_nat (length pkt) + 2) in Es by (pose proof (Z.div_mod (Z.of_nat (length pkt)) 256); lia).
  rewrite length_app in L. cbn [frame length app] in L. unfold tcp_getpkt. rewrite Es. cbn [mbind outcome_bind]. destruct Ht as [H1 H2 H3 H4 H5]. rewrite !u32_small by lia.
  destruct (Z.ltb_spec (tp_pos t - tp_used t) (Z.of_nat (length pkt) + 2)); [lia|].
  assert (Ep : pending t = slice (tp_buf t) (tp_used t) (tp_used t + 2) ++ slice (tp_buf t) (tp_used t + 2) (tp_used t + (Z.of_nat (length pkt) + 2)) ++ slice (tp_buf t) (tp_used t + (Z.of_nat (length pkt) + 2)) (tp_pos t)).
  { unfold pending. rewrite <- (slice_app _ (tp_used t + 2)) by lia. by rewrite <- (slice_app _ (tp_used t)) by lia. }
  rewrite E in Ep. unfold frame in Ep. rewrite <- app_assoc in Ep. apply app_inj_1 in Ep as [_ Ep]; [|rewrite <- (Nat2Z.inj_iff), length_slice by lia; cbn; lia].
  apply app_inj_1 in Ep as [Ep Er]; [|rewrite <- (Nat2Z.inj_iff), length_slice by lia; lia].
  eexists. split; [|split].
  - do 3 f_equal. rewrite Z.add_simpl_r. rewrite Ep at 2. unfold slice. f_equal. lia.
  - split; cbn; (done || lia).
  - unfold pending. cbn. by rewrite <- Er.
Qed.
Lemma tcp_getpkt_incomplete t : tcp_ok t -> Z.of_nat (length (pending t)) < next_size (pending t) -> tcp_getpkt t = Done (None, t).
Proof.
  intros Ht Hl. destruct (tcp_pktsize_spec t Ht) as [Es _]. unfold tcp_getpkt. rewrite Es. cbn [mbind outcome_bind]. rewrite (length_pending t Ht) in Hl. destruct Ht. rewrite u32_small by lia.
  by destruct (Z.ltb_spec (tp_pos t - tp_used t) (next_size (pending t))); [|lia].
Qed.
Lemma tcp_putpkt_frame t pkt : Z.of_nat (length pkt) < 65536 -> exists t', tcp_putpkt t pkt = Done t' /\ tp_out t' = tp_out t ++ frame pkt /\ pending t' = pending t.
Proof. intros H. unfold tcp_putpkt. destruct (Z.ltb_spec (Z.of_nat (length pkt)) 0x10000); [|lia]. cbn. by eexists. Qed.
Lemma tcp_compact_spec t : tcp_ok t -> tcp_ok (tcp_compact t) /\ pending (tcp_compact t) = pending t /\ tp_used (tcp_compact t) = 0 /\ tp_size (tcp_compact t) = tp_size t.
Proof.
  intros [H1 H2 H3 H4 H5]. unfold tcp_compact. destruct (Z.ltb_spec 0 (tp_used t)); [|by assert (tp_used t = 0) by lia; split].
  rewrite u32_small by lia. set (n := tp_pos t - tp_used t). set (buf := if tp_used t <? tp_pos t then _ else _).
  assert (Lb : length buf = length (tp_buf t)). { unfold buf. case_match; [|done]. rewrite length_app, length_take, !length_drop. lia. }
  assert (Hb : Forall is_byte buf). { unfold buf. case_match; [|done]. apply Forall_app. split; [by apply Forall_take, Forall_drop|by apply Forall_drop]. }
  split; [split; cbn; (done || lia)|]. split; [|done]. unfold pending, buf. cbn. destruct (Z.ltb_spec (tp_used t) (tp_pos t)).
  - unfold slice. rewrite Z.sub_0_r. change (Z.to_nat 0) with 0%nat. rewrite drop_0. fold n. apply take_app_length'. rewrite length_take, length_drop. lia.
  - replace (tp_pos t) with (tp_used t) by lia. rewrite slice_nil. unfold n. replace (tp_pos t - tp_used t) with 0 by lia. apply slice_nil.
Qed.
(** [input] appends what was read, at least one byte of it, unless a packet is complete, and says if one is. *)
Lemma tcp_input_spec (junk : Z -> list Z) t b : (forall n, 0 <= n -> Z.of_nat (length (junk n)) = n /\ Forall is_byte (junk n)) -> tcp_ok t -> b <> [] -> Forall is_byte b ->
  exists k t', tcp_input junk t (RdBytes b) = Done (Z.b2z (next_size (pending t') <=? Z.of_nat (length (pending t'))), t') /\ tcp_ok t'
    /\ pending t' = pending t ++ take k b /\ (Z.of_nat (length (pending t)) < next_size (pending t) -> (0 < k)%nat).
Proof.
  intros Hj Ht Hb Hbytes. destruct (tcp_compact_spec t Ht) as (Hc & Ep & Eu & Es). unfold tcp_input. destruct (tcp_pktsize_spec _ Hc) as [-> Hn]. cbn [mbind outcome_bind].
  rewrite Ep in Hn |- *. set (n := next_size (pending t)) in *. set (t1 := tcp_compact t) in *.
  set (t2 := if tp_size t1 <? n then _ else t1).
  assert (H2 : tcp_ok t2 /\ pending t2 = pending t /\ tp_used t2 = 0 /\ n <= tp_size t2 /\ tp_pos t2 = tp_pos t1).
  { unfold t2. pose proof Hc as [C1 C2 C3 C4 C5]. destruct (Z.ltb_spec (tp_size t1) n); [|repeat split; try done; lia]. destruct (Hj (n - tp_size t1)) as [J1 J2]; [lia|].
    split; [split; cbn; [lia|lia|lia|rewrite length_app; lia|by apply Forall_app]|]. split; [|cbn; split; [done|lia]]. rewrite <- Ep. unfold pending, slice. cbn. rewrite drop_app_le, take_app_le by (rewrite ?length_drop; lia). done. }
  destruct H2 as (Hok & Ep2 & Eu2 & Hsz & Epos). clearbody t2. clear Epos. pose proof (length_pending t2 Hok) as L. rewrite Eu2, Ep2, Z.sub_0_r in L.
  destruct (Z.ltb_spec (tp_pos t2) n).
  - destruct b as [|b0 b]; [done|]. set (bs := b0 :: b) in *. set (k := Z.to_nat (tp_size t2 - tp_pos t2)). set (t3 := mktp _ _ _ _ _). pose proof Hok as [C1 C2 C3 C4 C5].
    assert (Lk : (length (take k bs) <= k)%nat) by (rewrite length_take; lia). assert (Hbuf : Z.of_nat (length (tp_buf t3)) = tp_size t2).
    { unfold t3. cbn. rewrite !length_app, length_take, length_drop. lia. }
    assert (H3 : tcp_ok t3). { split; unfold t3; cbn; [lia|lia|lia|exact Hbuf|]. apply Forall_app. split; [by apply Forall_take|]. apply Forall_app. split; [by apply Forall_take|by apply Forall_drop]. }
    assert (E3 : pending t3 = pending t ++ take k bs).
    { rewrite <- Ep2. unfold pending, t3. cbn. rewrite Eu2. unfold slice. change (Z.to_nat 0) with 0%nat. rewrite !drop_0, !Z.sub_0_r, app_assoc. apply take_app_length'. rewrite length_app, !length_take. lia. }
    destruct (tcp_pktsize_spec t3 H3) as [E _]. rewrite E. cbn [mbind outcome_bind]. exists k, t3. split; [|split; [done|split; [done|intros _; unfold k; lia]]].
    rewrite (length_pending t3 H3). assert (E0 : tp_used t3 = 0) by exact Eu2. by rewrite E0, Z.sub_0_r.
  - destruct (tcp_pktsize_spec t2 Hok) as [E _]. rewrite E. cbn [mbind outcome_bind]. exists 0%nat, t2. rewrite Ep2, take_0, app_nil_r. rewrite <- L. split; [done|]. split; [done|]. split; [done|]. fold n. lia.
Qed.
