(* ===== verification/DnsSrv.v ===== *)
(** * The order of [SRV] records: [srvrec_randomize] of [async/dnsparse.C]

    Records are in the order of their priorities; inside of a priority those
    with a weight come first, and of the ones that are left the next is
    chosen with a probability proportional to its weight (RFC 2782). *)
From Stdlib Require Import ZArith Lia.
From stdpp Require Import prelude gmap sorting.
From S2P Require Import Prelude Dnsparse DnsProps.

Notation len l := (Z.of_nat (length l)) (only parsing).

Lemma rd_mid {A} (l : list A) a r i : i = len l -> rd (l ++ a :: r) i = Done a.
Proof. intros ->. unfold rd. destruct (Z.leb_spec 0 (len l)); [|lia]. rewrite Nat2Z.id. by rewrite list_lookup_middle. Qed.
Lemma wr_mid {A} (l : list A) a r i b : i = len l -> wr (l ++ a :: r) i b = Done (l ++ b :: r).
Proof.
  intros ->. unfold wr. rewrite length_app. cbn [length]. destruct (Z.leb_spec 0 (len l)); [|lia]. destruct (Z.ltb_spec (len l) (Z.of_nat (length l + S (length r)))); [|lia].
  cbn. f_equal. by rewrite Nat2Z.id, insert_app_r_alt, Nat.sub_diag by lia.
Qed.

(** The first record of a segment changes places with the one at [k]. *)
Lemma swap_head pre x seg post k y : (x :: seg) !! k = Some y ->
  exists seg', swap (pre ++ (x :: seg) ++ post) (len pre) (len pre + Z.of_nat k) = Done (pre ++ (y :: seg') ++ post)
    /\ swap (pre ++ (x :: seg) ++ post) (len pre + Z.of_nat k) (len pre) = Done (pre ++ (y :: seg') ++ post) /\ y :: seg' ≡ₚ x :: seg.
Proof.
  destruct k as [|k]; cbn [lookup list_lookup]; intros E.
  - injection E as ->. exists seg. rewrite Z.add_0_r. unfold swap. cbn [app].
    repeat (rewrite ?rd_mid, ?wr_mid by done; cbn [mbind outcome_bind]). done.
  - apply list_elem_of_split_length in E as (s1 & s2 & -> & ->). exists (s1 ++ x :: s2).
    assert (E1 : pre ++ (x :: s1 ++ y :: s2) ++ post = (pre ++ x :: s1) ++ y :: s2 ++ post) by (cbn; by rewrite <- !app_assoc).
    assert (E2 : forall z, (pre ++ z :: s1) ++ x :: s2 ++ post = pre ++ (z :: s1 ++ x :: s2) ++ post) by (intros; cbn; by rewrite <- !app_assoc).
    assert (E3 : forall z, (pre ++ z :: s1) ++ y :: s2 ++ post = pre ++ z :: (s1 ++ y :: s2) ++ post) by (intros; cbn; by rewrite <- !app_assoc).
    assert (L : forall z, len pre + Z.of_nat (S (length s1)) = len (pre ++ z :: s1)) by (intros; rewrite length_app; cbn; lia).
    assert (R0 : rd (pre ++ (x :: s1 ++ y :: s2) ++ post) (len pre) = Done x) by (by apply rd_mid).
    assert (R1 : rd (pre ++ (x :: s1 ++ y :: s2) ++ post) (len pre + Z.of_nat (S (length s1))) = Done y) by (rewrite E1; by apply rd_mid).
    unfold swap. rewrite R0, R1. cbn [mbind outcome_bind]. rewrite ?R0, ?R1. cbn [mbind outcome_bind]. cbn [app]. rewrite wr_mid by done. cbn [mbind outcome_bind].
    split; [|split].
    + rewrite <- E3, (wr_mid _ y _ _ x (L y)). by rewrite E2.
    + rewrite <- E3, (wr_mid _ y _ _ x (L x)). cbn [mbind outcome_bind]. rewrite E2. cbn [app]. by rewrite wr_mid by done.
    + rewrite <- (Permutation_middle s1 s2 x), <- (Permutation_middle s1 s2 y). apply perm_swap.
Qed.

Definition wsum (l : list srvrec) : Z := foldr (fun r s => weight r + s) 0 l.
Arguments wsum : simpl never.
Lemma wsum_cons r l : wsum (r :: l) = weight r + wsum l.
Proof. done. Qed.
Lemma wsum_perm l k : l ≡ₚ k -> wsum l = wsum k.
Proof. induction 1; rewrite ?wsum_cons; lia. Qed.
Lemma wsum_nonneg l : Forall (fun r => 0 <= weight r) l -> 0 <= wsum l.
Proof. induction 1; rewrite ?wsum_cons; [done|lia]. Qed.
Lemma wsum_bound l m : Forall (fun r => 0 <= weight r <= m) l -> 0 <= wsum l <= m * len l.
Proof. induction 1; rewrite ?wsum_cons; cbn [length]; [change (wsum []) with 0; lia|]. nia. Qed.

(** [pick] gives the record at [j] for the [weight] numbers above the weights before it. *)
Lemma pick_spec seg : forall fuel pre post rw, Forall (fun r => 0 <= weight r) seg -> 1 <= rw <= wsum seg -> rw < 2 ^ 32 -> (length seg < fuel)%nat ->
  exists j y, pick fuel (pre ++ seg ++ post) (len pre) rw = Done (len pre + Z.of_nat j) /\ seg !! j = Some y /\ wsum (take j seg) < rw <= wsum (take (S j) seg).
Proof.
  induction seg as [|r seg IH]; intros fuel pre post rw Hw Hrw Hlt Hf; [change (wsum []) with 0 in Hrw; lia|]. destruct fuel as [|fuel]; [cbn in Hf; lia|]. apply Forall_cons in Hw as [Hr Hw].
  cbn [pick app]. rewrite rd_mid by done. cbn [mbind outcome_bind]. rewrite wsum_cons in Hrw. destruct (Z.ltb_spec (weight r) rw).
  - rewrite u32_small by lia. destruct (IH fuel (pre ++ [r]) post (rw - weight r)) as (j & y & Ep & Ey & Hj); [done|lia|lia|cbn in Hf; lia|].
    rewrite <- app_assoc, length_app in Ep. cbn [app length] in Ep. replace (Z.of_nat (length pre + 1)) with (len pre + 1) in Ep by lia. rewrite Ep.
    exists (S j), y. split; [f_equal; lia|]. split; [done|]. rewrite !firstn_cons, !wsum_cons. lia.
  - exists 0%nat, r. split; [f_equal; lia|]. split; [done|]. rewrite firstn_cons, wsum_cons. change (wsum (take 0 seg)) with 0. change (wsum (take 0 (r :: seg))) with 0. lia.
Qed.

Section shuffles.
Context (rnd : nat -> Z).
Lemma shuffle_zero_spec fuel : forall pre seg post k, seg <> [] -> len seg < 2 ^ 32 -> (length seg <= fuel)%nat ->
  exists seg' k', shuffle_zero rnd fuel (pre ++ seg ++ post) k (len pre) (len pre + len seg) (len seg) = Done (pre ++ seg' ++ post, k', len pre + len seg - 1) /\ seg' ≡ₚ seg.
Proof.
  induction fuel as [|fuel IH]; intros pre seg post k Hne Hl Hf; [destruct seg; cbn in *; [done|lia]|]. cbn [shuffle_zero].
  destruct (Z.ltb_spec (len pre + 1) (len pre + len seg)).
  - unfold umod. destruct (Z.eqb_spec (len seg) 0); [lia|]. cbn [mbind outcome_bind]. pose proof (Z.mod_pos_bound (rnd k) (len seg) ltac:(lia)).
    destruct seg as [|x seg]; [done|]. set (w := rnd k mod len (x :: seg)) in *. destruct (lookup_lt_is_Some_2 (x :: seg) (Z.to_nat w) ltac:(lia)) as [y Ey].
    destruct (swap_head pre x seg post (Z.to_nat w) y Ey) as (seg' & _ & Es & Hp). rewrite Z2Nat.id in Es by lia.
    assert (E : (if negb (w =? 0) then swap (pre ++ (x :: seg) ++ post) (len pre + w) (len pre) else Done (pre ++ (x :: seg) ++ post)) = Done (pre ++ (if w =? 0 then x :: seg else y :: seg') ++ post)).
    { destruct (Z.eqb_spec w 0); cbn [negb]; [done|]. exact Es. }
    rewrite E. clear E. cbn [mbind outcome_bind]. set (z := if w =? 0 then x else y). set (s := if w =? 0 then seg else seg').
    assert (Hz : (if w =? 0 then x :: seg else y :: seg') = z :: s) by (unfold z, s; by destruct (w =? 0)). rewrite Hz.
    assert (Hzs : z :: s ≡ₚ x :: seg) by (unfold z, s; by destruct (w =? 0)). assert (Ls := Permutation_length Hzs). cbn [length] in Ls, Hf, Hl, H |- *.
    destruct (IH (pre ++ [z]) s post (S k)) as (s' & k' & E & P); [destruct s; [cbn in *; lia|done]|lia|lia|]. rewrite u32_small by lia.
    rewrite <- app_assoc, length_app in E. cbn [app length] in E. replace (Z.of_nat (length pre + 1)) with (len pre + 1) in E by lia.
    replace (len pre + Z.of_nat (S (length seg))) with (len pre + 1 + len s) by lia. replace (Z.of_nat (S (length seg)) - 1) with (len s) by lia.
    cbn [app]. rewrite E. exists (z :: s'), k'. split; [rewrite <- app_assoc; done|]. by rewrite P.
  - exists seg, k. assert (length seg = 1%nat) by (destruct seg as [|? [|]]; cbn in *; [done|done|lia]). split; [do 2 f_equal; lia|done].
Qed.
Lemma shuffle_weight_spec fuel : forall pre seg post k, seg <> [] -> Forall (fun r => 0 < weight r) seg -> wsum seg < 2 ^ 32 -> (length seg <= fuel)%nat ->
  exists seg' z k', shuffle_weight rnd fuel (pre ++ seg ++ post) k (len pre) (len pre + len seg) (wsum seg) = Done (pre ++ (seg' ++ [z]) ++ post, k', len pre + len seg - 1, weight z) /\ seg' ++ [z] ≡ₚ seg.
Proof.
  induction fuel as [|fuel IH]; intros pre seg post k Hne Hw Hl Hf; [destruct seg; cbn in *; [done|lia]|]. cbn [shuffle_weight].
  assert (Hw0 : Forall (fun r => 0 <= weight r) seg) by (eapply Forall_impl; [done|]; cbn; lia).
  destruct seg as [|x seg]; [done|]. destruct (Z.ltb_spec (len pre + 1) (len pre + len (x :: seg))).
  - assert (Hpos : 0 < wsum (x :: seg)). { apply Forall_cons in Hw as [Hx Hw]. apply Forall_cons in Hw0 as [_ Hw0]. rewrite wsum_cons. pose proof (wsum_nonneg _ Hw0). lia. }
    unfold umod. destruct (Z.eqb_spec (wsum (x :: seg)) 0); [lia|]. cbn [mbind outcome_bind]. pose proof (Z.mod_pos_bound (rnd k) (wsum (x :: seg)) ltac:(lia)).
    rewrite u32_small by lia. destruct (pick_spec (x :: seg) (S (length (pre ++ (x :: seg) ++ post))) pre post (rnd k mod wsum (x :: seg) + 1)) as (j & y & -> & Ey & _); [done|lia|lia|rewrite !length_app; lia|].
    cbn [mbind outcome_bind]. destruct (swap_head pre x seg post j y Ey) as (s & -> & _ & Hp). cbn [mbind outcome_bind]. cbn [app]. rewrite rd_mid by done. cbn [mbind outcome_bind].
    assert (Ls := Permutation_length Hp). assert (Ws := wsum_perm _ _ Hp). assert (Hw' : Forall (fun r => 0 < weight r) (y :: s)) by (by rewrite Hp).
    apply Forall_cons in Hw' as [Hy Hs]. rewrite !wsum_cons in Ws. rewrite wsum_cons in Hl, Hpos |- *. cbn [length] in Ls, Hf, H |- *.
    destruct (IH (pre ++ [y]) s post (S k)) as (s' & z & k' & E & P); [destruct s; [cbn in *; lia|done]|done|lia|lia|].
    pose proof (wsum_nonneg s ltac:(eapply Forall_impl; [exact Hs|]; cbn; lia)).
    rewrite u32_small by lia. rewrite <- app_assoc, length_app in E. cbn [app length] in E. replace (Z.of_nat (length pre + 1)) with (len pre + 1) in E by lia.
    replace (len pre + Z.of_nat (S (length seg))) with (len pre + 1 + len s) by lia. replace (weight x + wsum seg - weight y) with (wsum s) by lia.
    rewrite E. exists (y :: s'), z, k'. split; [rewrite <- app_assoc; done|]. cbn [app]. by rewrite P.
  - exists [], x, k. assert (seg = []) as -> by (destruct seg; [done|cbn in *; lia]). split; [|done]. rewrite wsum_cons. cbn [length app]. change (wsum []) with 0. repeat f_equal; lia.
Qed.
End shuffles.

(** The scans find a segment behind the record at [pre]. *)
Lemma scan_zero_spec rest : forall fuel pre x p tot, 0 <= tot -> tot + len rest < 2 ^ 32 -> (length rest < fuel)%nat ->
  exists seg post, rest = seg ++ post /\ Forall (fun r => prio r = p) seg
    /\ scan_zero fuel (pre ++ x :: rest) p (len pre) tot = Done (len pre + 1 + len seg, tot + len seg).
Proof.
  induction rest as [|r rest IH]; intros fuel pre x p tot Ht Hl Hf; (destruct fuel as [|fuel]; [cbn in Hf; lia|]); cbn [scan_zero]; rewrite length_app; cbn [length].
  - exists [], []. repeat split; [done|]. destruct (Z.ltb_spec (len pre + 1) (Z.of_nat (length pre + 1))); [lia|]. cbn. do 2 f_equal; lia.
  - destruct (Z.ltb_spec (len pre + 1) (Z.of_nat (length pre + S (S (length rest))))); [|lia].
    assert (E : pre ++ x :: r :: rest = (pre ++ [x]) ++ r :: rest) by (by rewrite <- app_assoc). assert (L : len pre + 1 = len (pre ++ [x])) by (rewrite length_app; cbn; lia).
    rewrite E, rd_mid by done. cbn [mbind outcome_bind]. destruct (Z.eqb_spec (prio r) p).
    + rewrite u32_small by (cbn in Hl; lia). rewrite L. destruct (IH fuel (pre ++ [x]) r p (tot + 1)) as (seg & post & -> & Hs & ->); [lia|cbn in Hl; lia|cbn in Hf; lia|].
      exists (r :: seg), post. repeat split; [by constructor|]. cbn [length]. do 2 f_equal; lia.
    + exists [], (r :: rest). repeat split; [done|]. cbn. do 2 f_equal; lia.
Qed.
Lemma scan_weight_spec rest : forall fuel pre x p tot, 0 <= tot -> Forall (fun r => 0 <= weight r) rest -> tot + wsum rest < 2 ^ 32 -> (length rest < fuel)%nat ->
  exists seg post, rest = seg ++ post /\ Forall (fun r => prio r = p /\ 0 < weight r) seg
    /\ scan_weight fuel (pre ++ x :: rest) p (len pre) tot = Done (len pre + 1 + len seg, tot + wsum seg).
Proof.
  induction rest as [|r rest IH]; intros fuel pre x p tot Ht Hw Hl Hf; (destruct fuel as [|fuel]; [cbn in Hf; lia|]); cbn [scan_weight]; rewrite length_app; cbn [length].
  - exists [], []. repeat split; [done|]. destruct (Z.ltb_spec (len pre + 1) (Z.of_nat (length pre + 1))); [lia|]. change (wsum []) with 0. cbn. do 2 f_equal; lia.
  - destruct (Z.ltb_spec (len pre + 1) (Z.of_nat (length pre + S (S (length rest))))); [|lia]. apply Forall_cons in Hw as [Hr Hw].
    assert (E : pre ++ x :: r :: rest = (pre ++ [x]) ++ r :: rest) by (by rewrite <- app_assoc). assert (L : len pre + 1 = len (pre ++ [x])) by (rewrite length_app; cbn; lia).
    rewrite wsum_cons in Hl. pose proof (wsum_nonneg _ Hw). rewrite E, rd_mid by done. cbn [mbind outcome_bind]. destruct (negb (weight r =? 0) && (prio r =? p)) eqn:Ec.
    + rewrite u32_small by lia. rewrite L. destruct (IH fuel (pre ++ [x]) r p (tot + weight r)) as (seg & post & -> & Hs & ->); [lia|done|lia|cbn in Hf; lia|].
      exists (r :: seg), post. repeat split; [constructor; [lia|done]|]. rewrite wsum_cons. cbn [length]. do 2 f_equal; lia.
    + exists [], (r :: rest). repeat split; [done|]. change (wsum []) with 0. cbn. do 2 f_equal; lia.
Qed.

(** Priorities ascend; inside of one, records without a weight come last. *)
Definition srv_le (a b : srvrec) : Prop := prio a < prio b \/ prio a = prio b /\ (weight a = 0 -> weight b = 0).
Definition srv_ok (r : srvrec) : Prop := 0 <= weight r < 65536.
Lemma srvrec_cmp_preorder : cmp_preorder srvrec_cmp.
Proof. unfold srvrec_cmp. split; intros; repeat case_match; lia. Qed.
Lemma cmp_srv_le a b : srv_ok b -> srvrec_cmp a b <= 0 -> srv_le a b.
Proof. unfold srvrec_cmp, srv_le, srv_ok. intros. case_match; lia. Qed.
Lemma StronglySorted_const {A} (R : A -> A -> Prop) (P : A -> Prop) l : (forall a b, P a -> P b -> R a b) -> Forall P l -> StronglySorted R l.
Proof. intros HR. induction 1 as [|a l Ha Hl IH]; constructor; [done|]. eapply Forall_impl; [done|]. eauto. Qed.

Section loop.
Context (rnd : nat -> Z).
Lemma randomize_loop_spec fuel : forall pre rest k, Forall srv_ok rest -> StronglySorted (fun a b => srvrec_cmp a b <= 0) rest -> len rest <= 65535 -> (length rest < fuel)%nat ->
  exists out, randomize_loop rnd fuel (pre ++ rest) k (len pre) = Done (pre ++ out) /\ out ≡ₚ rest /\ StronglySorted srv_le out.
Proof.
  induction fuel as [|fuel IH]; intros pre rest k Hok Hs Hl Hf; [lia|]. cbn [randomize_loop]. rewrite length_app.
  destruct rest as [|r rest].
  { destruct (Z.ltb_spec (len pre) (Z.of_nat (length pre + length (A := srvrec) []))); [cbn in *; lia|]. exists []. repeat split; [done|constructor]. }
  destruct (Z.ltb_spec (len pre) (Z.of_nat (length pre + length (r :: rest)))); [|cbn in *; lia]. rewrite rd_mid by done. cbn [mbind outcome_bind].
  (* the step on a segment, whatever its order *)
  assert (Hstep : forall seg post seg' k' (P : srvrec -> Prop), rest = seg ++ post -> seg' ≡ₚ r :: seg -> (forall a b, P a -> P b -> srv_le a b) -> Forall P (r :: seg) ->
    exists out, randomize_loop rnd fuel (pre ++ seg' ++ post) k' (len pre + len (r :: seg)) = Done (pre ++ out) /\ out ≡ₚ r :: rest /\ StronglySorted srv_le out).
  { intros seg post seg' k' P -> Hp HP HF. assert (Lp := Permutation_length Hp). cbn [length] in Hl, Hf. rewrite length_app in Hl, Hf. change (r :: seg ++ post) with ((r :: seg) ++ post) in *.
    apply Forall_app in Hok as [Hok1 Hok2]. apply StronglySorted_app in Hs as (Hs12 & _ & Hs2).
    destruct (IH (pre ++ seg') post k' Hok2 Hs2 ltac:(lia) ltac:(lia)) as (out & E & Po & So).
    rewrite <- app_assoc, length_app, Lp in E. replace (Z.of_nat (length pre + length (r :: seg))) with (len pre + len (r :: seg)) in E by lia. rewrite E.
    exists (seg' ++ out). split; [by rewrite app_assoc|]. split; [by rewrite Po, Hp|]. apply StronglySorted_app. split; [|split; [|done]].
    - intros a b Ha Hb. rewrite Hp in Ha. rewrite Po in Hb. apply cmp_srv_le; [|by apply Hs12]. rewrite Forall_forall in Hok2. auto.
    - apply (StronglySorted_const _ P); [done|]. by rewrite Hp. }
  pose proof Hok as Hok0. apply Forall_cons in Hok0 as [Hr Hrest]. cbn [length] in Hl, Hf. assert (Hw0 : Forall (fun r => 0 <= weight r) rest) by (eapply Forall_impl; [done|]; unfold srv_ok; lia).
  destruct (Z.eqb_spec (weight r) 0) as [Hz|Hz].
  - destruct (scan_zero_spec rest (S (length pre + length (r :: rest))) pre r (prio r) 1) as (seg & post & E & Hseg & ->); [lia|lia|cbn; lia|]. cbn [mbind outcome_bind fst snd].
    assert (Lr : len rest = len seg + len post) by (rewrite E, length_app; lia).
    destruct (shuffle_zero_spec rnd (S (length pre + length (r :: rest))) pre (r :: seg) post k) as (seg' & k' & Es & P); [done|cbn; lia|cbn; lia|].
    replace (pre ++ r :: rest) with (pre ++ (r :: seg) ++ post) by (by rewrite E). cbn [length] in Es |- *. replace (len pre + 1 + len seg) with (len pre + Z.of_nat (S (length seg))) by lia.
    replace (1 + len seg) with (Z.of_nat (S (length seg))) by lia. rewrite Es. cbn [mbind outcome_bind]. rewrite Z.sub_add.
    apply (Hstep seg post seg' k' (fun a => prio a = prio r /\ weight a = 0) E P); [unfold srv_le; lia|].
    constructor; [done|]. rewrite Forall_forall in Hseg. apply Forall_forall. intros a Ha. split; [by apply Hseg|].
    apply StronglySorted_inv in Hs as [_ Hs]. rewrite Forall_forall in Hs, Hrest. assert (Ha' : a ∈ rest) by (rewrite E; set_solver).
    specialize (Hs a Ha'). specialize (Hrest a Ha'). specialize (Hseg a Ha). unfold srvrec_cmp, srv_ok in *. case_match; lia.
  - pose proof (wsum_bound (r :: rest) 65535 ltac:(eapply Forall_impl; [exact Hok|]; unfold srv_ok; lia)) as Hsum. rewrite wsum_cons in Hsum. cbn [length] in Hsum. unfold srv_ok in Hr.
    destruct (scan_weight_spec rest (S (length pre + length (r :: rest))) pre r (prio r) (weight r)) as (seg & post & E & Hseg & ->); [lia|done|lia|cbn; lia|]. cbn [mbind outcome_bind fst snd].
    assert (Lr : len rest = len seg + len post) by (rewrite E, length_app; lia). assert (Hpos : Forall (fun a => prio a = prio r /\ 0 < weight a) (r :: seg)) by (constructor; [lia|done]).
    assert (Wr : wsum rest = wsum seg + wsum post). { rewrite E. clear. induction seg; cbn [app]; rewrite ?wsum_cons; [change (wsum []) with 0|]; lia. }
    assert (Hw1 := Hw0). rewrite E, Forall_app in Hw1. destruct Hw1 as [_ Hw1]. pose proof (wsum_nonneg _ Hw1).
    destruct (shuffle_weight_spec rnd (S (length pre + length (r :: rest))) pre (r :: seg) post k) as (seg' & z & k' & Es & P); [done|eapply Forall_impl; [exact Hpos|]; cbn; lia|rewrite wsum_cons; lia|cbn; lia|].
    replace (pre ++ r :: rest) with (pre ++ (r :: seg) ++ post) by (by rewrite E). rewrite wsum_cons in Es. cbn [length] in Es |- *. replace (len pre + 1 + len seg) with (len pre + Z.of_nat (S (length seg))) by lia.
    rewrite Es. cbn [mbind outcome_bind]. assert (Lz := Permutation_length P). rewrite length_app in Lz. cbn [length] in Lz.
    replace (pre ++ (seg' ++ [z]) ++ post) with ((pre ++ seg') ++ z :: post) by (by rewrite <- !app_assoc). rewrite rd_mid by (rewrite length_app; lia). cbn [mbind outcome_bind]. rewrite Z.eqb_refl. cbn [assertM mbind outcome_bind].
    rewrite Z.sub_add. replace ((pre ++ seg') ++ z :: post) with (pre ++ (seg' ++ [z]) ++ post) by (by rewrite <- !app_assoc).
    apply (Hstep seg post (seg' ++ [z]) k' (fun a => prio a = prio r /\ 0 < weight a) E P); [unfold srv_le; lia|done].
Qed.
End loop.

(** C23: for any random numbers [srvrec_randomize] ends without a failed
    assertion, a division by zero or an access outside of the records; the
    result is a permutation of the records in which priorities ascend and,
    inside of a priority, the records without a weight are last. *)
Theorem srvrec_randomize_correct `{QS : !Qsort} `{QSok : !QsortOK} rnd recs : Forall srv_ok recs -> len recs <= 65535 ->
  exists out, srvrec_randomize rnd recs = Done out /\ out ≡ₚ recs /\ StronglySorted srv_le out.
Proof.
  intros Hok Hl. pose proof (qsort_perm srvrec_cmp recs srvrec_cmp_preorder) as P. pose proof (qsort_sorted srvrec_cmp recs srvrec_cmp_preorder) as S.
  assert (Tr : Transitive (fun a b => srvrec_cmp a b <= 0)) by (intros a b c; apply srvrec_cmp_preorder).
  destruct (randomize_loop_spec rnd (Datatypes.S (length (qsort srvrec_cmp recs))) [] (qsort srvrec_cmp recs) 0) as (out & E & Po & So).
  - by rewrite P.
  - by apply Sorted_StronglySorted.
  - by rewrite P.
  - lia.
  - exists out. split; [exact E|]. split; [by rewrite Po|done].
Qed.

(** A sorting function for examples *)
#[export] Instance cmp_le_dec {A} (cmp : A -> A -> Z) : RelDecision (fun a b => cmp a b <= 0).
Proof. intros a b. apply _. Defined.
Definition sample_qsort : Qsort := fun A cmp l => merge_sort (fun a b => cmp a b <= 0) l.
Lemma sample_qsort_ok : @QsortOK sample_qsort.
Proof.
  constructor; intros A cmp l [Htot Htr].
  - apply merge_sort_Permutation.
  - assert (Total (fun a b => cmp a b <= 0)) by exact Htot. apply (Sorted_merge_sort (fun a b => cmp a b <= 0)).
Qed.
Definition sample_srvs : list srvrec := [mksrv 10 0 80 1; mksrv 5 3 81 2; mksrv 10 4 82 3; mksrv 5 2 83 4; mksrv 10 0 84 5; mksrv 10 6 85 6].
Lemma srvrec_randomize_correct_witness : exists out, @srvrec_randomize (fun k => Z.of_nat (7 * k + 3)) sample_qsort sample_srvs = Done out /\ out ≡ₚ sample_srvs /\ StronglySorted srv_le out.
Proof.
  apply (@srvrec_randomize_correct sample_qsort sample_qsort_ok).
  - repeat constructor; unfold srv_ok; cbn; lia.
  - cbn. lia.
Defined.
