(* ===== verification/DnsResults.v ===== *)
(** * Results of DNS queries: names, hints, hosts, mail exchangers

    The block of names of a result, what the loops over the answers compute,
    and the layout of a [hostent]. *)
From Stdlib Require Import ZArith Lia.
From stdpp Require Import prelude gmap sorting.
From S2P Require Import Prelude Dnsparse DnsProps DnsSrv.

(** ** Copying into a block *)
Lemma blit_spec {A} (dst : list A) p s : 0 <= p -> p + len s <= len dst ->
  exists dst', blit dst p s = Done dst' /\ length dst' = length dst /\ slice dst' p (p + len s) = s
    /\ (forall a b, 0 <= a -> (b <= p \/ p + len s <= a) -> slice dst' a b = slice dst a b).
Proof.
  intros H1 H2. unfold blit. destruct (Z.leb_spec 0 p); [|lia]. destruct (Z.leb_spec (p + len s) (len dst)); [|lia]. cbn.
  set (l1 := take (Z.to_nat p) dst). set (l2 := drop (Z.to_nat p + length s) dst). assert (L1 : length l1 = Z.to_nat p) by (unfold l1; rewrite length_take; lia).
  eexists. split; [done|]. split; [rewrite !length_app, L1; unfold l2; rewrite length_drop; lia|]. split.
  - unfold slice. rewrite drop_app_length' by lia. rewrite Z.add_simpl_l, take_app_length' by lia. done.
  - intros a b Ha Hab. assert (E : dst = l1 ++ take (length s) (drop (Z.to_nat p) dst) ++ l2).
    { unfold l1, l2. rewrite <- drop_drop, take_drop. by rewrite take_drop. }
    assert (Lm : length (take (length s) (drop (Z.to_nat p) dst)) = length s) by (rewrite length_take, length_drop; lia).
    rewrite E. generalize dependent (take (length s) (drop (Z.to_nat p) dst)). intros m E Lm. clear E. unfold slice. destruct Hab.
    + destruct (Z.le_gt_cases a b); [|by replace (Z.to_nat (b - a)) with 0%nat by lia]. rewrite !drop_app_le, !take_app_le by (rewrite ?length_drop; lia). done.
    + f_equal. rewrite !(drop_app_ge l1), !drop_app_ge by lia. do 2 f_equal. lia.
Qed.

Lemma cstr_spec s l : Forall (fun c => 0 < c < 256) s -> cstr (s ++ 0 :: l) = s.
Proof. induction 1 as [|c s Hc _ IH]; [done|]. cbn. destruct (Z.eqb_spec c 0); [lia|]. by rewrite IH. Qed.
Lemma cstr_at_slice blk p s : 0 <= p -> Forall (fun c => 0 < c < 256) s -> slice blk p (p + len s + 1) = s ++ [0] -> cstr_at blk p = s.
Proof.
  intros Hp Hs E. unfold cstr_at, slice in *. rewrite <- (take_drop (Z.to_nat (p + len s + 1 - p)) (drop (Z.to_nat p) blk)), E, <- app_assoc. by apply cstr_spec.
Qed.

(** ** [nameset] *)
Definition text (s : list Z) : Prop := Forall (fun c => 0 < c < 256) s /\ len s < MAXDNAME.
Record nameset_ok (ns : nameset) : Prop := {
  nso_text s p : ns_map ns !! s = Some p -> text s;
  nso_range s p : ns_map ns !! s = Some p -> 0 <= p /\ p + len s + 1 <= ns_pos ns;
  nso_disjoint s p t q : ns_map ns !! s = Some p -> ns_map ns !! t = Some q -> s <> t -> p + len s + 1 <= q \/ q + len t + 1 <= p;
  nso_pos : 0 <= ns_pos ns <= MAXDNAME * Z.of_nat (size (ns_map ns))
}.
Lemma nameset_new_ok : nameset_ok nameset_new.
Proof. split; cbn; try (intros *; by rewrite lookup_empty). rewrite map_size_empty. lia. Qed.
(** [store] answers the place of the name, the old one if it has one. *)
Lemma ns_store_spec ns s : nameset_ok ns -> text s -> MAXDNAME * (Z.of_nat (size (ns_map ns)) + 1) < 2 ^ 32 ->
  exists p ns', ns_store ns s = (p, ns') /\ nameset_ok ns' /\ ns_map ns' !! s = Some p /\ ns_map ns ⊆ ns_map ns'
    /\ (size (ns_map ns') <= S (size (ns_map ns)))%nat /\ dom (ns_map ns') = {[s]} ∪ dom (ns_map ns).
Proof.
  intros [T R D P] [Hs Hl] Hsz. unfold ns_store. destruct (ns_map ns !! s) as [p|] eqn:E.
  { exists p, ns. split; [done|]. split; [by split|]. split; [done|]. split; [done|]. split; [lia|]. apply elem_of_dom_2 in E. set_solver. }
  assert (0 <= ns_pos ns + len s + 1 <= MAXDNAME * (Z.of_nat (size (ns_map ns)) + 1)) by (unfold MAXDNAME in *; lia).
  exists (ns_pos ns). eexists. split; [done|]. cbn. rewrite u32_small by lia. split; [|split; [by rewrite lookup_insert_eq|split; [by apply insert_subseteq|]]].
  - split; cbn.
    + intros t q. rewrite lookup_insert_Some. intros [[<- _]|[_ Ht]]; [by split|by apply (T t q)].
    + intros t q. rewrite lookup_insert_Some. intros [[<- <-]|[_ Ht]]; [lia|]. specialize (R t q Ht). lia.
    + intros t q u r. rewrite !lookup_insert_Some. intros [[<- <-]|[_ Ht]] [[<- <-]|[_ Hu]] Hne; [done| | |by apply D].
      * specialize (R u r Hu). lia.
      * specialize (R t q Ht). lia.
    + rewrite map_size_insert_None by done. lia.
  - rewrite map_size_insert_None by done. split; [lia|]. by rewrite dom_insert_L.
Qed.
(** [put] leaves each name with its NUL at its place. *)
Lemma ns_put_slots_spec l : forall dst, NoDup l.*1 ->
  (forall s p, (s, p) ∈ l -> 0 <= p /\ p + len s + 1 <= len dst) ->
  (forall s p t q, (s, p) ∈ l -> (t, q) ∈ l -> s <> t -> p + len s + 1 <= q \/ q + len t + 1 <= p) ->
  exists dst', ns_put_slots dst l = Done dst' /\ length dst' = length dst
    /\ (forall s p, (s, p) ∈ l -> slice dst' p (p + len s + 1) = s ++ [0])
    /\ (forall a b, 0 <= a -> (forall s p, (s, p) ∈ l -> b <= p \/ p + len s + 1 <= a) -> slice dst' a b = slice dst a b).
Proof.
  induction l as [|[s p] l IH]; intros dst Hnd Hr Hd.
  { exists dst. split; [done|]. split; [done|]. split; [|done]. intros s p H. by apply elem_of_nil in H. }
  cbn [ns_put_slots]. assert (Lx : len (s ++ [0]) = len s + 1) by (rewrite length_app; cbn; lia).
  destruct (Hr s p) as [Hp1 Hp2]; [by left|]. destruct (blit_spec dst p (s ++ [0])) as (d1 & -> & L1 & E1 & F1); [lia..|]. cbn [mbind outcome_bind].
  rewrite fmap_cons in Hnd. apply NoDup_cons in Hnd as [Hs Hnd]. cbn in Hs.
  destruct (IH d1 Hnd) as (d2 & -> & L2 & E2 & F2).
  - intros t q Ht. rewrite L1. apply Hr. by right.
  - intros t q u r Ht Hu. apply Hd; by right.
  - exists d2. split; [done|]. split; [lia|]. split.
    + intros t q Ht. apply elem_of_cons in Ht as [[= -> ->]|Ht]; [|by apply E2]. rewrite F2; [by rewrite <- Z.add_assoc, <- Lx|done|].
      intros u r Hu. assert (s <> u) by (intros <-; apply Hs, list_elem_of_fmap; by exists (s, r)). destruct (Hd s p u r); [by left|by right|done|lia|lia].
    + intros a b Ha H. rewrite F2; [|done|intros; apply H; by right]. apply F1; [done|]. rewrite Lx. destruct (H s p); [by left|lia|lia].
Qed.
Lemma ns_put_spec ns dst : nameset_ok ns -> len dst = ns_pos ns ->
  exists names, ns_put ns dst = Done names /\ forall s p, ns_map ns !! s = Some p -> cstr_at names p = s.
Proof.
  intros [T R D P] Hl. unfold ns_put. destruct (ns_put_slots_spec (map_to_list (ns_map ns)) dst) as (d & -> & _ & E & _).
  - apply NoDup_fst_map_to_list.
  - intros s p H. apply elem_of_map_to_list in H. specialize (R s p H). lia.
  - intros s p t q H1 H2 Hne. apply elem_of_map_to_list in H1, H2. by apply D.
  - exists d. split; [done|]. intros s p H. destruct (T s p H) as [Ht _]. destruct (R s p H). apply cstr_at_slice; [done|done|]. apply E. by apply elem_of_map_to_list.
Qed.

(** ** Comparison of names *)
Lemma tolower_pos c : 0 < c -> 0 < tolower c.
Proof. unfold tolower. case_match; lia. Qed.
Lemma strcasecmp_anti s t : Forall (fun c => 0 < c) s -> Forall (fun c => 0 < c) t -> strcasecmp s t = - strcasecmp t s.
Proof.
  intros Hs. revert t. induction Hs as [|c s Hc _ IH]; intros t Ht; destruct Ht as [|d t Hd Ht]; cbn; try lia.
  destruct (Z.eqb_spec (tolower c) (tolower d)), (Z.eqb_spec (tolower d) (tolower c)); [by apply IH|lia..].
Qed.
Lemma strcasecmp_trans s t u : Forall (fun c => 0 < c) s -> Forall (fun c => 0 < c) t -> Forall (fun c => 0 < c) u -> strcasecmp s t <= 0 -> strcasecmp t u <= 0 -> strcasecmp s u <= 0.
Proof.
  intros Hs. revert t u. induction Hs as [|c s Hc _ IH]; intros t u Ht Hu.
  - intros _ _. destruct Hu as [|d u Hd _]; cbn; [lia|]. pose proof (tolower_pos d Hd). lia.
  - pose proof (tolower_pos c Hc). destruct Ht as [|d t Hd Ht]; cbn [strcasecmp]; [lia|]. pose proof (tolower_pos d Hd).
    destruct Hu as [|e u He Hu]; [intros; lia|]. pose proof (tolower_pos e He).
    destruct (Z.eqb_spec (tolower c) (tolower d)), (Z.eqb_spec (tolower d) (tolower e)), (Z.eqb_spec (tolower c) (tolower e)); intros; try lia. by apply (IH t u).
Qed.
Lemma cstr_at_pos blk p : Forall is_byte blk -> Forall (fun c => 0 < c) (cstr_at blk p).
Proof.
  intros Hb. unfold cstr_at. assert (H : Forall is_byte (drop (Z.to_nat p) blk)) by (by apply Forall_drop). induction H as [|c l Hc _ IH]; cbn; [done|].
  unfold is_byte in Hc. destruct (Z.eqb_spec c 0); [done|]. constructor; [lia|done].
Qed.
Lemma mxrec_cmp_preorder names : Forall is_byte names -> cmp_preorder (mxrec_cmp names).
Proof.
  intros Hn. unfold mxrec_cmp. split.
  - intros a b. rewrite (strcasecmp_anti (cstr_at names (mx_name b))) by (by apply cstr_at_pos). repeat case_match; lia.
  - intros a b c. pose proof (strcasecmp_trans _ _ _ (cstr_at_pos names (mx_name a) Hn) (cstr_at_pos names (mx_name b) Hn) (cstr_at_pos names (mx_name c) Hn)). repeat case_match; lia.
Qed.

(** ** Records *)
Section records.
Context `{DL : !DnLib} `{DLok : !DnLibOK}.
Context (msg : list Z) (Hmsg : Forall is_byte msg).

(** The member of the union that is set is that of the type, and the names are texts *)
Definition rr_ok (rr : resrec) : Prop := text (rr_name rr) /\
  (rr_type rr = T_A -> exists a, rr_rd rr = RdA a /\ length a = 4%nat) /\ (rr_type rr = T_MX -> exists p s, rr_rd rr = RdMx p s /\ text s).
Lemma name_at_text p s e : name_at msg p s e -> text s.
Proof. intros (n & E & _). destruct (dn_expand_bound _ _ _ _ _ E) as (? & ? & ? & ? & ?). by split. Qed.
Lemma rr_at_ok cp rr e : rr_at msg cp rr e -> rr_ok rr.
Proof.
  intros [p Hn _ _ _ R -> Hl D]. pose proof (name_at_bound msg _ _ _ Hn). pose proof (short_at_bound _ _ _ Hmsg R). split; [by apply name_at_text in Hn|]. split; intros E; rewrite E in D.
  - inversion D as [_ E4 Ed| | | | | |]; try (exfalso; types; lia). eexists. split; [done|]. pose proof (length_slice msg (p + 10) (p + 10 + rr_rdlen rr) ltac:(lia) Hl). lia.
  - inversion D as [| |x s ? ? Hs Ed| | | |]; try (exfalso; types; lia). exists x, s. split; [done|]. by apply name_at_text in Hs.
Qed.
Lemma rrs_at_ok cp rrs e : rrs_at msg cp rrs e -> Forall rr_ok rrs.
Proof. induction 1; constructor; [by eapply rr_at_ok|done]. Qed.
Lemma rrs_at_app cp l m k e : rrs_at msg cp l m -> rrs_at msg m k e -> rrs_at msg cp (l ++ k) e.
Proof. induction 1; intros Hk; [done|]. econstructor; eauto. Qed.
End records.

Lemma foldl_done {A} (f : A -> resrec -> outcome A) (g : A -> resrec -> A) rrs : Forall (fun rr => forall a, f a rr = Done (g a rr)) rrs ->
  forall a, foldl (fun x rr => x ≫= fun a => f a rr) (Done a) rrs = Done (foldl g a rrs).
Proof. induction 1 as [|rr rrs H _ IH]; intros a; [done|]. cbn. rewrite H. by apply IH. Qed.

(** ** Hints: the addresses of names in [D] *)
Definition is_hint (D : gset (list Z)) (rr : resrec) : option (list Z * list Z) :=
  if bool_decide (rr_class rr = C_IN /\ rr_type rr = T_A /\ rr_name rr ∈ D) then match rr_rd rr with RdA a => Some (rr_name rr, a ++ replicate 12 0) | _ => None end else None.
Definition add_hint (nset : nameset) (hv : list addrhint) (rr : resrec) : list addrhint :=
  match is_hint (dom (ns_map nset)) rr with
  | Some (s, a) => match ns_map nset !! s with Some p => hv ++ [mkah p AF_INET 4 a] | None => hv end
  | None => hv
  end.
Lemma hint_step_spec nset rr : rr_ok rr -> forall hv, hint_step nset hv rr = Done (add_hint nset hv rr).
Proof.
  intros (Ht & Ha & _) hv. unfold hint_step, add_hint, is_hint, ns_present, ns_lookup. destruct (Z.eqb_spec (rr_class rr) C_IN).
  2:{ cbn. rewrite bool_decide_eq_false_2 by tauto. done. }
  destruct (ns_map nset !! rr_name rr) as [p|] eqn:E; cbn.
  2:{ rewrite bool_decide_eq_false_2; [done|]. rewrite elem_of_dom, E. intros (_ & _ & [??]). done. }
  destruct (Z.eqb_spec (rr_type rr) T_A) as [Et|Et].
  - rewrite bool_decide_eq_true_2 by (split; [done|split; [done|by apply elem_of_dom_2 in E]]). destruct (Ha Et) as (a & Er & La). unfold rr_a. rewrite Er. cbn. by rewrite E, La.
  - rewrite bool_decide_eq_false_2 by tauto. done.
Qed.
Lemma add_hints_names nset names rrs : (forall s p, ns_map nset !! s = Some p -> cstr_at names p = s) -> forall hv,
  (fun h => (cstr_at names (h_name h), h_address h)) <$> foldl (add_hint nset) hv rrs = ((fun h => (cstr_at names (h_name h), h_address h)) <$> hv) ++ omap (is_hint (dom (ns_map nset))) rrs.
Proof.
  intros Hn. induction rrs as [|rr rrs IH]; intros hv; [by rewrite app_nil_r|]. cbn [foldl omap list_omap]. rewrite IH. unfold add_hint.
  destruct (is_hint (dom (ns_map nset)) rr) as [[s a]|] eqn:E; [|done]. assert (Hs : s ∈ dom (ns_map nset)).
  { unfold is_hint in E. case_bool_decide as Hb; [|done]. destruct (rr_rd rr); naive_solver. }
  apply elem_of_dom in Hs as [p Hp]. rewrite Hp, fmap_app, <- app_assoc. cbn. by rewrite (Hn s p Hp).
Qed.

(** ** Mail exchangers *)
(** What [tomxlist] should find: the name of the first [MX] record, and for each exchanger of that name its smallest preference *)
Definition mx_spec_step (a : option (list Z * gmap (list Z) Z)) (rr : resrec) : option (list Z * gmap (list Z) Z) :=
  if bool_decide (rr_class rr = C_IN /\ rr_type rr = T_MX) then
    match rr_rd rr with
    | RdMx p s =>
        match a with
        | None => Some (rr_name rr, {[s := p]})
        | Some (name, M) => if strcasecmp name (rr_name rr) =? 0 then Some (name, <[s := default p (Z.min p <$> M !! s)]> M) else a
        end
    | _ => a
    end
  else a.
Definition mx_spec (rrs : list resrec) : option (list Z * gmap (list Z) Z) := foldl mx_spec_step None rrs.

(** [L] are the exchangers in the order of [mxes] *)
Definition mxes_rel (nset : nameset) (mxes : list mxrec) (M : gmap (list Z) Z) : Prop :=
  exists L, L ≡ₚ map_to_list M /\ Forall2 (fun m x => pref m = x.2 /\ ns_map nset !! x.1 = Some (mx_name m)) mxes L.
Lemma ns_inj nset s t p : nameset_ok nset -> ns_map nset !! s = Some p -> ns_map nset !! t = Some p -> s = t.
Proof. intros [_ R D _] Hs Ht. destruct (decide (s = t)); [done|]. destruct (R s p Hs), (R t p Ht). destruct (D s p t p); [done..|lia|lia]. Qed.
Lemma mx_update_rel nset s xp pr mxes L : nameset_ok nset -> ns_map nset !! s = Some xp ->
  Forall2 (fun m x => pref m = x.2 /\ ns_map nset !! x.1 = Some (mx_name m)) mxes L -> NoDup L.*1 ->
  ((s ∉ L.*1) /\ mx_update pr xp mxes = mxes ++ [mkmx pr xp]) \/
  (exists mx1 m mx2 L1 L2, mxes = mx1 ++ m :: mx2 /\ L = L1 ++ (s, pref m) :: L2 /\ mx_update pr xp mxes = mx1 ++ mkmx (Z.min pr (pref m)) xp :: mx2 /\ length mx1 = length L1).
Proof.
  intros Hok Hs HF. induction HF as [|m [t q] mxes L [Hq Hm] HF IH]; intros Hnd; [left; split; [apply not_elem_of_nil|done]|]. cbn in Hq, Hm. rewrite fmap_cons in Hnd |- *. apply NoDup_cons in Hnd as [Ht Hnd].
  cbn [mx_update]. destruct (Z.eqb_spec (mx_name m) xp) as [E|E].
  - right. exists [], m, mxes, [], L. rewrite E in Hm. pose proof (ns_inj _ _ _ _ Hok Hs Hm) as ->. cbn. rewrite Hq. split; [done|]. split; [done|]. split; [|done]. f_equal.
    destruct (Z.ltb_spec pr q); [by rewrite Z.min_l by lia|]. rewrite Z.min_r by lia. destruct m. cbn in *. by subst.
  - destruct (IH Hnd) as [[Hn Ei]|(mx1 & m' & mx2 & L1 & L2 & -> & -> & Ei & El)].
    + left. rewrite Ei. split; [|done]. cbn. rewrite not_elem_of_cons. split; [|done]. intros ->. congruence.
    + right. exists (m :: mx1), m', mx2, ((t, q) :: L1), L2. rewrite Ei. cbn. by rewrite El.
Qed.
Lemma mxes_rel_update nset s xp pr mxes M : nameset_ok nset -> ns_map nset !! s = Some xp -> mxes_rel nset mxes M ->
  mxes_rel nset (mx_update pr xp mxes) (<[s := default pr (Z.min pr <$> M !! s)]> M).
Proof.
  intros Hok Hs (L & P & HF). assert (Hnd : NoDup L.*1) by (rewrite P; apply NoDup_fst_map_to_list).
  destruct (mx_update_rel nset s xp pr mxes L Hok Hs HF Hnd) as [[Hn ->]|(mx1 & m & mx2 & L1 & L2 & -> & -> & -> & El)].
  - assert (E : M !! s = None). { destruct (M !! s) as [q|] eqn:E; [|done]. exfalso. apply Hn. apply list_elem_of_fmap. exists (s, q). split; [done|]. rewrite P. by apply elem_of_map_to_list. }
    rewrite E. cbn. exists (L ++ [(s, pr)]). split; [|apply Forall2_app; [done|by repeat constructor]]. rewrite map_to_list_insert by done. rewrite <- P. symmetry. apply Permutation_cons_append.
  - assert (E : M !! s = Some (pref m)). { apply elem_of_map_to_list. rewrite <- P. set_solver. }
    rewrite E. cbn. exists (L1 ++ (s, Z.min pr (pref m)) :: L2). split.
    + rewrite <- (insert_delete_eq M), map_to_list_insert by apply lookup_delete_eq. rewrite <- Permutation_middle. constructor.
      assert (P2 : (s, pref m) :: (L1 ++ L2) ≡ₚ (s, pref m) :: map_to_list (delete s M)) by (rewrite Permutation_middle, P; symmetry; by apply map_to_list_delete). by apply Permutation_cons_inv in P2.
    + apply Forall2_app_inv in HF as [HF1 HF2]; [|done]. apply Forall2_cons in HF2 as [_ HF2]. apply Forall2_app; [done|]. constructor; [done|done].
Qed.
Lemma mxes_rel_mono nset nset' mxes M : ns_map nset ⊆ ns_map nset' -> mxes_rel nset mxes M -> mxes_rel nset' mxes M.
Proof. intros Hs (L & P & HF). exists L. split; [done|]. eapply Forall2_impl; [done|]. intros m x [? ?]. split; [done|]. by eapply lookup_weaken. Qed.

Definition mx_inv (k : nat) (st : mxstate) (a : option (list Z * gmap (list Z) Z)) : Prop :=
  nameset_ok (ms_nset st) /\ (size (ns_map (ms_nset st)) <= S k)%nat /\ (length (ms_mxes st) <= k)%nat /\
  match a with
  | None => st = mkms nameset_new None 0 []
  | Some (name, M) => ms_name st = Some name /\ ns_map (ms_nset st) !! name = Some (ms_nameptr st) /\ mxes_rel (ms_nset st) (ms_mxes st) M
      /\ dom (ns_map (ms_nset st)) = {[name]} ∪ dom M /\ ms_mxes st <> []
  end.
Lemma mx_update_length pr xp l : (length l <= length (mx_update pr xp l) <= S (length l))%nat /\ mx_update pr xp l <> [].
Proof. induction l as [|m l [IH _]]; cbn; [split; [lia|done]|]. destruct (mx_name m =? xp); cbn; split; try done; lia. Qed.
Lemma mx_inv_S k st a : mx_inv k st a -> mx_inv (S k) st a.
Proof. intros (H1 & H2 & H3 & H4). split; [done|]. split; [lia|]. split; [lia|done]. Qed.
(** An exchanger of a known name is added *)
Lemma mx_add_inv k st name M s pr nset nameptr : nameset_ok nset -> (size (ns_map nset) <= S k)%nat -> (length (ms_mxes st) <= k)%nat -> Z.of_nat k < 65535 -> text s ->
  ns_map nset !! name = Some nameptr -> mxes_rel nset (ms_mxes st) M -> dom (ns_map nset) = {[name]} ∪ dom M ->
  mx_inv (S k) (let '(xp, nset) := ns_store nset s in mkms nset (Some name) nameptr (mx_update pr xp (ms_mxes st))) (Some (name, <[s := default pr (Z.min pr <$> M !! s)]> M)).
Proof.
  intros Hok Hsz Hlen Hk Ht Hn Hrel Hdom. destruct (ns_store_spec nset s Hok Ht) as (xp & nset' & -> & Hok' & Hs & Hsub & Hsz' & Hdom'); [unfold MAXDNAME; lia|].
  destruct (mx_update_length pr xp (ms_mxes st)). unfold mx_inv. cbn. split; [done|]. split; [lia|]. split; [lia|]. split; [done|]. split; [by eapply lookup_weaken|]. split.
  - apply mxes_rel_update; [done|done|]. by eapply mxes_rel_mono.
  - split; [|done]. rewrite Hdom', Hdom, dom_insert_L. set_solver.
Qed.
Lemma mx_step_spec k st a rr : rr_ok rr -> Z.of_nat k + 1 < 65536 -> mx_inv k st a -> exists st', mx_step st rr = Done st' /\ mx_inv (S k) st' (mx_spec_step a rr).
Proof.
  intros (Hname & _ & Hmx) Hk Hinv. unfold mx_step, mx_spec_step. destruct (Z.eqb_spec (rr_class rr) C_IN) as [Ec|], (Z.eqb_spec (rr_type rr) T_MX) as [Et|]; cbn [andb].
  2-4: rewrite bool_decide_eq_false_2 by tauto; exists st; split; [done|by apply mx_inv_S].
  rewrite bool_decide_eq_true_2 by done. destruct (Hmx Et) as (pr & s & Er & Hs). unfold rr_mx. rewrite Er. cbn [mbind outcome_bind].
  pose proof Hinv as (Hok & Hsz & Hlen & Ha). destruct a as [[name M]|].
  - destruct Ha as (-> & Hn & Hrel & Hdom & Hne). destruct (Z.eqb_spec (strcasecmp name (rr_name rr)) 0); cbn [negb].
    + eexists. split; [done|]. by apply mx_add_inv; [..|lia| | | |].
    + exists st. split; [done|]. by apply mx_inv_S.
  - subst st. cbn [ms_name ms_nset ms_mxes]. destruct (ns_store_spec nameset_new (rr_name rr) nameset_new_ok Hname) as (p & nset & -> & Hok' & Hs' & _ & Hsz' & Hdom').
    { cbn. rewrite map_size_empty. unfold MAXDNAME. lia. }
    eexists. split; [done|]. cbn in Hsz', Hdom'. rewrite map_size_empty in Hsz'. rewrite dom_empty_L, union_empty_r_L in Hdom'.
    pose proof (mx_add_inv k (mkms nameset_new None 0 []) (rr_name rr) ∅ s pr nset p Hok') as HI. rewrite lookup_empty, insert_empty in HI. cbn in HI. apply HI; [lia|lia|lia|done|done|by exists []|]. rewrite Hdom'. set_solver.
Qed.
Lemma mx_fold rrs : Forall rr_ok rrs -> forall k st a, mx_inv k st a -> Z.of_nat k + Z.of_nat (length rrs) < 65536 ->
  exists st', foldl (fun x rr => x ≫= fun a => mx_step a rr) (Done st) rrs = Done st' /\ mx_inv (k + length rrs) st' (foldl mx_spec_step a rrs).
Proof.
  induction 1 as [|rr rrs Hrr _ IH]; intros k st a Hinv Hk; [exists st; by rewrite Nat.add_0_r|]. cbn [length] in Hk.
  destruct (mx_step_spec k st a rr Hrr ltac:(lia) Hinv) as (st1 & E1 & Hinv1). cbn [foldl mbind outcome_bind]. rewrite E1. destruct (IH (S k) st1 _ Hinv1 ltac:(lia)) as (st2 & -> & Hinv2).
  exists st2. split; [done|]. cbn [length]. by rewrite Nat.add_succ_r.
Qed.
Lemma blit_bytes dst p s d : blit dst p s = Done d -> Forall is_byte dst -> Forall is_byte s -> Forall is_byte d.
Proof. unfold blit. case_match; [|done]. intros [= <-] Hd Hs. apply Forall_app. split; [by apply Forall_take|]. apply Forall_app. split; [done|by apply Forall_drop]. Qed.
Lemma ns_put_bytes l : forall dst d, ns_put_slots dst l = Done d -> Forall is_byte dst -> Forall (fun x => text x.1) l -> Forall is_byte d.
Proof.
  induction l as [|[s p] l IH]; intros dst d E Hd Hl; cbn in E; [by injection E as <-|]. apply Forall_cons in Hl as [[Hs _] Hl].
  destruct (blit dst p (s ++ [0])) as [d1| | |] eqn:E1; try done. apply (IH d1 d E); [|done]. apply (blit_bytes _ _ _ _ E1 Hd). apply Forall_app. split; [|by repeat constructor].
  eapply Forall_impl; [exact Hs|]. unfold is_byte. cbn. lia.
Qed.

(** A message with the records [ans], [auth] and [adds] *)
Record message `{DL : !DnLib} (d : dnsparse) (ans auth adds : list resrec) : Prop := {
  ms_bytes : Forall is_byte (dp_buf d);
  ms_recs : exists cp m1 m2 m3, dp_anp d = Some cp /\ rrs_at (dp_buf d) cp ans m1 /\ rrs_at (dp_buf d) m1 auth m2 /\ rrs_at (dp_buf d) m2 adds m3;
  ms_ancount : dp_ancount d = len ans;
  ms_nscount : dp_nscount d = len auth;
  ms_arcount : dp_arcount d = len adds;
  ms_16 : len ans < 65536 /\ len auth < 65536 /\ len adds < 65536
}.

Section mx.
Context `{DL : !DnLib} `{DLok : !DnLibOK} `{QS : !Qsort} `{QSok : !QsortOK}.
Context (junk : Z -> list Z).
Definition memory_ok : Prop := forall n, 0 <= n -> len (junk n) = n /\ Forall is_byte (junk n).

Lemma message_ok d ans auth adds : message d ans auth adds -> Forall rr_ok ans /\ Forall rr_ok adds.
Proof. intros [Hb (cp & m1 & m2 & m3 & _ & H1 & H2 & H3)]. split; by eapply rrs_at_ok. Qed.
Lemma answers_spec {A} (f : A -> resrec -> outcome A) a a' d ans auth adds : message d ans auth adds ->
  foldl (fun x rr => x ≫= fun a => f a rr) (Done a) ans = Done a' -> answers d f a = Done (Some a', d).
Proof.
  intros [Hb (cp & m1 & m2 & m3 & Ea & H1 & _ & _) En _ _ _] Hf. unfold answers. rewrite Ea, En, Nat2Z.id.
  by rewrite (each_rr_spec (dp_buf d) Hb f cp ans m1 H1 a a' Hf).
Qed.
Lemma gethints_spec d nset ans auth adds : message d ans auth adds -> gethints d nset = Done (Some (foldl (add_hint nset) [] adds), d).
Proof.
  intros [Hb (cp & m1 & m2 & m3 & Ea & H1 & H2 & H3) En Es Er H16]. unfold gethints. rewrite Ea, En, Es, Er, Nat2Z.id, u32_small by lia.
  replace (Z.to_nat (len ans + len auth)) with (length (ans ++ auth)) by (rewrite length_app; lia).
  rewrite (skipnrecs_spec (dp_buf d) Hb cp (ans ++ auth) m2 (rrs_at_app _ _ _ _ _ _ H1 H2)). cbn [mbind outcome_bind].
  rewrite (each_rr_spec (dp_buf d) Hb _ m2 adds m3 H3 [] (foldl (add_hint nset) [] adds)); [done|].
  apply foldl_done. eapply Forall_impl; [exact (rrs_at_ok _ Hb _ _ _ H3)|]. intros rr Hrr hv. by apply hint_step_spec.
Qed.

(** C24: [tomxlist] on the message of a name server.  If an answer is a mail
    exchanger, the result names the host of the first one, has for each of
    its exchangers one record with the smallest preference that was given,
    sorted by preference and then by name, and as hints the addresses that the
    message has for these names; all names can be read from the
    block at the end of the result.  Else the error is [ARERR_NXREC]. *)
Theorem tomxlist_correct d ans auth adds : memory_ok -> message d ans auth adds ->
  match mx_spec ans with
  | None => tomxlist junk d = Done (None, set_error d ARERR_NXREC)
  | Some (name, M) => exists r, tomxlist junk d = Done (Some r, d) /\
      cstr_at (m_names r) (m_name r) = name /\
      ((fun m => (cstr_at (m_names r) (mx_name m), pref m)) <$> m_mxes r) ≡ₚ map_to_list M /\
      Sorted (fun a b => mxrec_cmp (m_names r) a b <= 0) (m_mxes r) /\
      (fun h => (cstr_at (m_names r) (h_name h), h_address h)) <$> m_hints r = omap (is_hint ({[name]} ∪ dom M)) adds
  end.
Proof.
  intros Hj Hm. destruct (message_ok d ans auth adds Hm) as [Hans Hadds]. pose proof (ms_16 _ _ _ _ Hm) as (H16 & _ & _).
  destruct (mx_fold ans Hans 0 (mkms nameset_new None 0 []) None) as (st & Ef & Hinv).
  { split; [apply nameset_new_ok|]. cbn. rewrite map_size_empty. split; [lia|]. by split. }
  { cbn. lia. }
  fold (mx_spec ans) in Hinv. unfold tomxlist. rewrite (answers_spec mx_step _ st d ans auth adds Hm Ef). cbn [mbind outcome_bind]. destruct Hinv as (Hok & Hsz & Hlen & Ha).
  destruct (mx_spec ans) as [[name M]|]; [|by rewrite Ha]. destruct Ha as (Hname & Hn & (L & P & HF) & Hdom & Hne).
  rewrite bool_decide_eq_false_2 by done. rewrite (gethints_spec d (ms_nset st) ans auth adds Hm). cbn [mbind outcome_bind].
  destruct (Hj (ns_pos (ms_nset st))) as [Hj1 Hj2]; [apply (nso_pos _ Hok)|]. destruct (ns_put_spec (ms_nset st) (junk (ns_pos (ms_nset st))) Hok Hj1) as (names & Ep & Hnames).
  assert (Hb : Forall is_byte names). { eapply ns_put_bytes; [exact Ep|done|]. apply Forall_forall. intros [s p] Hs. apply elem_of_map_to_list in Hs. by apply (nso_text _ Hok s p). }
  rewrite Ep. cbn [mbind outcome_bind]. set (hv := foldl _ _ adds). unfold puthints, hintsize.
  assert (Eq : (24 + len (ms_mxes st) * 16 + (len hv + 1) * sizeof_ptr + len hv * sizeof_addrhint =? 24 + len (ms_mxes st) * 16 + (len hv * sizeof_addrhint + (len hv + 1) * sizeof_ptr)) = true) by (apply Z.eqb_eq; lia).
  rewrite Eq. cbn [assertM mbind outcome_bind]. cbn [Nat.add] in Hlen. assert (Eu : u16 (len (ms_mxes st)) = len (ms_mxes st)) by (rewrite u16_mod; apply Z.mod_small; lia). rewrite Eu, Nat2Z.id, take_ge by lia.
  pose proof (mxrec_cmp_preorder names Hb) as Hpre. set (sorted := if 1 <? len (ms_mxes st) then _ else _).
  assert (HP : sorted ≡ₚ ms_mxes st) by (unfold sorted; case_match; [by apply qsort_perm|done]).
  eexists. split; [done|]. cbn. split; [by apply Hnames|]. split; [|split].
  - rewrite HP, <- P. clear -HF Hnames. induction HF as [|m [s q] mxes L [Hq Hs] _ IH]; [done|]. cbn in *. by rewrite IH, (Hnames _ _ Hs), Hq.
  - unfold sorted. destruct (Z.ltb_spec 1 (len (ms_mxes st))); [by apply qsort_sorted|]. destruct (ms_mxes st) as [|m [|]]; [done|by repeat constructor|cbn in *; lia].
  - unfold hv. rewrite (add_hints_names (ms_nset st) names adds Hnames []). cbn. by rewrite Hdom.
Qed.
End mx.

(** ** Hosts *)
Definition ptr_at (mem : list cell) (off : Z) (p : option Z) : Prop := slice mem off (off + 8) = ptr_cells p.
Definition str_at (mem : list cell) (off : Z) (s : list Z) : Prop := slice mem off (off + (len s + 1)) = str_cells s.
Definition addr_at (mem : list cell) (off : Z) (a : list Z) : Prop := slice mem off (off + 4) = CByte <$> a.
Lemma blit_ptr mem off p : 0 <= off -> off + 8 <= len mem -> exists mem', blit mem off (ptr_cells p) = Done mem' /\ length mem' = length mem /\ ptr_at mem' off p
  /\ (forall a b, 0 <= a -> (b <= off \/ off + 8 <= a) -> slice mem' a b = slice mem a b).
Proof. apply (blit_spec mem off (ptr_cells p)). Qed.
Lemma blit_str mem off s : 0 <= off -> off + (len s + 1) <= len mem -> exists mem', blit mem off (str_cells s) = Done mem' /\ length mem' = length mem /\ str_at mem' off s
  /\ (forall a b, 0 <= a -> (b <= off \/ off + (len s + 1) <= a) -> slice mem' a b = slice mem a b).
Proof.
  intros H1 H2. assert (L : len (str_cells s) = len s + 1) by (unfold str_cells; rewrite length_fmap, length_app; cbn; lia).
  destruct (blit_spec mem off (str_cells s)) as (m & E); [done|by rewrite L|]. rewrite L in E. by exists m.
Qed.
Lemma put_addrs_spec av : forall mem al dst i, 0 <= al -> 0 <= i -> Forall (fun a => length a = 4%nat) av -> al + (i + len av) * 8 <= dst -> dst + (i + len av) * 4 <= len mem ->
  exists mem', put_addrs mem al dst i av = Done mem' /\ length mem' = length mem
    /\ (forall k a, av !! k = Some a -> ptr_at mem' (al + (i + Z.of_nat k) * 8) (Some (dst + (i + Z.of_nat k) * 4)) /\ addr_at mem' (dst + (i + Z.of_nat k) * 4) a)
    /\ (forall a b, 0 <= a -> (b <= al + i * 8 \/ al + (i + len av) * 8 <= a) -> (b <= dst + i * 4 \/ dst + (i + len av) * 4 <= a) -> slice mem' a b = slice mem a b).
Proof.
  induction av as [|a av IH]; intros mem al dst i Hal Hi Hav H1 H2; cbn [put_addrs length] in *.
  { exists mem. split; [done|]. split; [done|]. split; [intros k a H; by rewrite lookup_nil in H|done]. }
  apply Forall_cons in Hav as [Ha Hav]. destruct (blit_ptr mem (al + i * 8) (Some (dst + i * 4))) as (m1 & -> & L1 & P1 & F1); [lia..|]. cbn [mbind outcome_bind].
  assert (La : len (CByte <$> a) = 4) by (rewrite length_fmap; lia). destruct (blit_spec m1 (dst + i * 4) (CByte <$> a)) as (m2 & -> & L2 & P2 & F2); [lia..|]. cbn [mbind outcome_bind]. rewrite La in P2, F2.
  destruct (IH m2 al dst (i + 1) Hal ltac:(lia) Hav) as (m3 & -> & L3 & P3 & F3); [lia..|]. exists m3. split; [done|]. split; [lia|]. split.
  - intros [|k] b Hb; cbn in Hb.
    + injection Hb as <-. rewrite Z.add_0_r. unfold ptr_at, addr_at in *. split; [rewrite F3, F2 by lia; done|rewrite F3 by lia; done].
    + replace (i + Z.of_nat (S k)) with (i + 1 + Z.of_nat k) by lia. by apply P3.
  - intros b e Hb Hc1 Hc2. rewrite F3, F2, F1 by lia. done.
Qed.
(** [hostent_at]: what a caller finds through the pointers of [h] *)
Record hostent_at (h : hostent) (name : list Z) (cname : option (list Z)) (av : list (list Z)) : Prop := {
  ha_type : he_addrtype h = AF_INET /\ he_length h = 4;
  ha_name : str_at (he_mem h) (he_name h) name;
  ha_aliases : match cname with
               | Some s => exists q, ptr_at (he_mem h) (he_aliases h) (Some q) /\ str_at (he_mem h) q s /\ ptr_at (he_mem h) (he_aliases h + 8) None
               | None => ptr_at (he_mem h) (he_aliases h) None
               end;
  ha_addrs : forall k a, av !! k = Some a -> exists q, ptr_at (he_mem h) (he_addr_list h + Z.of_nat k * 8) (Some q) /\ addr_at (he_mem h) q a;
  ha_end : ptr_at (he_mem h) (he_addr_list h + len av * 8) None
}.
(** The block of [tohostent] has room for all that is stored in it, and nothing is overwritten. *)
Lemma put_hostent_spec name cname av : Forall (fun a => length a = 4%nat) av -> exists h, put_hostent name cname av = Done h /\ hostent_at h name cname av.
Proof.
  intros Hav. unfold put_hostent, sizeof_hostent. set (c := Z.b2z _). set (cl := match cname with Some s => len s + 1 | None => 0 end).
  assert (Hc : c = match cname with Some _ => 1 | None => 0 end) by (unfold c; destruct cname; [by rewrite bool_decide_eq_true_2 by done|by rewrite bool_decide_eq_false_2 by (by intros [??])]).
  set (size := 32 + (c + 2 + len av) * 8 + len av * 4 + len name + 1 + cl). assert (Hs : len (replicate (Z.to_nat size) CRaw) = size).
  { rewrite length_replicate. unfold size, cl. destruct cname; lia. }
  set (al := 32 + (1 + c) * 8). set (dst := al + (1 + len av) * 8). assert (Hal : 32 < al) by (unfold al; destruct cname; lia).
  destruct (put_addrs_spec av (replicate (Z.to_nat size) CRaw) al dst 0) as (m1 & -> & L1 & P1 & F1); [lia|lia|done|unfold dst; lia|rewrite Hs; unfold dst, al, size, cl; destruct cname; lia|]. cbn [mbind outcome_bind]. rewrite !Z.add_0_l in F1.
  assert (Lm1 : len m1 = size) by lia.
  destruct (blit_ptr m1 (al + len av * 8) None) as (m2 & -> & L2 & P2 & F2); [lia|rewrite Lm1; unfold size, dst, al, cl; destruct cname; lia|]. cbn [mbind outcome_bind].
  destruct (blit_str m2 (dst + len av * 4) name) as (m3 & -> & L3 & P3 & F3); [lia|rewrite L2, Lm1; unfold size, dst, al, cl; destruct cname; lia|]. cbn [mbind outcome_bind].
  unfold size, dst, al, cl in *. clear size cl al dst. destruct cname as [s|]; rewrite Hc in *.
  - destruct (blit_ptr m3 32 (Some (32 + (1 + 1) * 8 + (1 + len av) * 8 + len av * 4 + len name + 1))) as (m4 & -> & L4 & P4 & F4); [lia..|]. cbn [mbind outcome_bind].
    destruct (blit_ptr m4 (32 + 8) None) as (m5 & -> & L5 & P5 & F5); [lia..|]. cbn [mbind outcome_bind].
    destruct (blit_str m5 (32 + (1 + 1) * 8 + (1 + len av) * 8 + len av * 4 + len name + 1) s) as (m6 & -> & L6 & P6 & F6); [lia..|]. cbn [mbind outcome_bind].
    eexists. split; [done|]. split; unfold ptr_at, str_at, addr_at in *; cbn [he_addrtype he_length he_name he_aliases he_addr_list he_mem].
    + done.
    + rewrite F6, F5, F4 by lia. done.
    + exists (32 + (1 + 1) * 8 + (1 + len av) * 8 + len av * 4 + len name + 1). split; [rewrite F6, F5 by lia; done|]. split; [done|]. rewrite F6 by lia. done.
    + intros k a Hk. pose proof (lookup_lt_Some _ _ _ Hk). destruct (P1 k a Hk) as [Q1 Q2]. rewrite Z.add_0_l in Q1, Q2. eexists. split; [rewrite F6, F5, F4, F3, F2 by lia; exact Q1|]. rewrite F6, F5, F4, F3, F2 by lia. exact Q2.
    + rewrite F6, F5, F4, F3 by lia. done.
  - destruct (blit_ptr m3 32 None) as (m4 & -> & L4 & P4 & F4); [lia..|]. cbn [mbind outcome_bind].
    eexists. split; [done|]. split; unfold ptr_at, str_at, addr_at in *; cbn [he_addrtype he_length he_name he_aliases he_addr_list he_mem].
    + done.
    + rewrite F4 by lia. done.
    + done.
    + intros k a Hk. pose proof (lookup_lt_Some _ _ _ Hk). destruct (P1 k a Hk) as [Q1 Q2]. rewrite Z.add_0_l in Q1, Q2. eexists. split; [rewrite F4, F3, F2 by lia; exact Q1|]. rewrite F4, F3, F2 by lia. exact Q2.
    + rewrite F4, F3 by lia. done.
Qed.

Definition in_type (t : Z) (rr : resrec) : bool := bool_decide (rr_class rr = C_IN /\ rr_type rr = t).
Definition owner (t : Z) (rr : resrec) : option (list Z) := if in_type t rr then Some (rr_name rr) else None.
Definition address (rr : resrec) : option (list Z) := if in_type T_A rr then match rr_rd rr with RdA a => Some a | _ => None end else None.
Definition host_pure (st : hoststate) (rr : resrec) : hoststate :=
  mkhs (match hs_name st with None => owner T_A rr | n => n end) (match hs_cname st with None => owner T_CNAME rr | n => n end) (hs_av st ++ omap address [rr]).
Lemma host_step_pure rr : rr_ok rr -> forall st, host_step st rr = Done (host_pure st rr).
Proof.
  intros (_ & Ha & _) [n c av]. unfold host_step, host_pure, owner, address, in_type. cbn [hs_name hs_cname hs_av omap list_omap]. destruct (Z.eqb_spec (rr_class rr) C_IN) as [Ec|Ec].
  2:{ rewrite !bool_decide_eq_false_2 by tauto. rewrite app_nil_r. by destruct n, c. }
  destruct (Z.eqb_spec (rr_type rr) T_A) as [Et|Et].
  - destruct (Ha Et) as (a & Er & _). unfold rr_a. rewrite Er, Et. cbn. rewrite bool_decide_eq_true_2 by done. rewrite bool_decide_eq_false_2 by (types; lia). by destruct n, c.
  - rewrite (bool_decide_eq_false_2 (_ /\ rr_type rr = T_A)) by tauto. rewrite app_nil_r. destruct (Z.eqb_spec (rr_type rr) T_CNAME) as [E|E]; [rewrite bool_decide_eq_true_2 by done|rewrite bool_decide_eq_false_2 by tauto]; by destruct n, c.
Qed.
Lemma host_pure_fold rrs : forall st, foldl host_pure st rrs =
  mkhs (match hs_name st with None => head (omap (owner T_A) rrs) | n => n end) (match hs_cname st with None => head (omap (owner T_CNAME) rrs) | n => n end) (hs_av st ++ omap address rrs).
Proof.
  induction rrs as [|rr rrs IH]; intros [n c av]; cbn; [rewrite app_nil_r; by destruct n, c|]. rewrite IH. cbn. f_equal; [destruct n; [done|]; by destruct (owner T_A rr)|destruct c; [done|]; by destruct (owner T_CNAME rr)|].
  rewrite <- app_assoc. f_equal. by destruct (address rr).
Qed.
(** C27: [tohostent] on the message of a name server gives the host that owns
    the first address, the owner of the first [CNAME] as alias and all addresses
    in order; all pointers of the result lead to them inside of its block.
    Without an address the error is [ARERR_NXREC]. *)
Theorem tohostent_correct `{DL : !DnLib} `{DLok : !DnLibOK} d ans auth adds : message d ans auth adds ->
  match head (omap (owner T_A) ans) with
  | None => tohostent d = Done (None, set_error d ARERR_NXREC)
  | Some name => exists h, tohostent d = Done (Some h, d) /\ hostent_at h name (head (omap (owner T_CNAME) ans)) (omap address ans)
  end.
Proof.
  intros Hm. destruct (message_ok d ans auth adds Hm) as [Hans _]. unfold tohostent.
  rewrite (answers_spec host_step _ (foldl host_pure (mkhs None None []) ans) d ans auth adds Hm).
  2:{ apply foldl_done. eapply Forall_impl; [exact Hans|]. exact host_step_pure. }
  rewrite host_pure_fold. cbn [mbind outcome_bind hs_name hs_cname hs_av app]. destruct (head (omap (owner T_A) ans)) as [name|]; [|done].
  destruct (put_hostent_spec name (head (omap (owner T_CNAME) ans)) (omap address ans)) as (h & -> & Hh); [|by exists h].
  clear -Hans. induction Hans as [|rr rrs (_ & Ha & _) _ IH]; [constructor|]. cbn. unfold address at 1, in_type. case_bool_decide as E; [|done]. destruct (Ha (proj2 E)) as (a & -> & La). by constructor.
Qed.

(** ** Examples *)
Definition sample_d : dnsparse := mkdp sample_msg (Some 21) 0 true 3 0 1.
Lemma sample_d_new : dnsparse_new sample_msg true = Done sample_d.
Proof. vm_compute. reflexivity. Qed.
Definition sample_ans : list resrec := [
  mkrr [97; 46; 98] 15 1 60 6 (RdMx 20 [120; 46; 98]); mkrr [97; 46; 98] 15 1 60 6 (RdMx 10 [121; 46; 98]); mkrr [97; 46; 98] 15 1 60 4 (RdMx 5 [120; 46; 98])].
Definition sample_adds : list resrec := [mkrr [121; 46; 98] 1 1 60 4 (RdA [10; 0; 0; 1])].
Lemma sample_message : message sample_d sample_ans [] sample_adds.
Proof.
  split; try done; [exact sample_msg_bytes|]. exists 21, 73, 73, 89. split; [done|]. split; [|split; [constructor|]].
  - apply (rrs_cons _ _ _ 39); [|apply (rrs_cons _ _ _ 57); [|apply (rrs_cons _ _ _ 73); [|constructor]]]; apply rrparse_spec; try exact sample_msg_bytes; vm_compute; reflexivity.
  - apply (rrs_cons _ _ _ 89); [|constructor]. apply rrparse_spec; [exact sample_msg_bytes|]. vm_compute. reflexivity.
Qed.
Definition sample_junk (n : Z) : list Z := replicate (Z.to_nat n) 0xaa.
Lemma sample_junk_ok : memory_ok sample_junk.
Proof. intros n Hn. unfold sample_junk. split; [rewrite length_replicate; lia|]. apply Forall_replicate. unfold is_byte. lia. Qed.
Lemma tomxlist_correct_witness : exists r, @tomxlist _ sample_qsort sample_junk sample_d = Done (Some r, sample_d) /\ cstr_at (m_names r) (m_name r) = [97; 46; 98] /\
  ((fun m => (cstr_at (m_names r) (mx_name m), pref m)) <$> m_mxes r) ≡ₚ map_to_list (<[[120; 46; 98] := 5]> (<[[121; 46; 98] := 10]> {[[120; 46; 98] := 20]}) : gmap (list Z) Z) /\
  Sorted (fun a b => mxrec_cmp (m_names r) a b <= 0) (m_mxes r) /\
  (fun h => (cstr_at (m_names r) (h_name h), h_address h)) <$> m_hints r = [([121; 46; 98], [10; 0; 0; 1; 0; 0; 0; 0; 0; 0; 0; 0; 0; 0; 0; 0])].
Proof.
  pose proof (@tomxlist_correct _ _ sample_qsort sample_qsort_ok sample_junk sample_d sample_ans [] sample_adds sample_junk_ok sample_message) as (r & E & Hn & Hm & Hs & Hh).
  exists r. split; [exact E|]. split; [exact Hn|]. split; [exact Hm|]. split; [exact Hs|]. rewrite Hh. vm_compute. reflexivity.
Defined.
Lemma sample_tomxlist : @tomxlist _ sample_qsort sample_junk sample_d =
  Done (Some (mkmxl [97; 46; 98; 0; 120; 46; 98; 0; 121; 46; 98; 0] 0 [mkah 8 AF_INET 4 [10; 0; 0; 1; 0; 0; 0; 0; 0; 0; 0; 0; 0; 0; 0; 0]] [mkmx 5 4; mkmx 10 8]), sample_d).
Proof. vm_compute. reflexivity. Qed.
Definition sample_host_msg : list Z :=
  [0; 7; 0x80; 0; 0; 1; 0; 3; 0; 0; 0; 0] ++ [1; 97; 0; 0; 1; 0; 1] ++ [0xc0; 12; 0; 5; 0; 1; 0; 0; 0; 60; 0; 3; 1; 98; 0]
  ++ [0xc0; 31; 0; 1; 0; 1; 0; 0; 0; 60; 0; 4; 10; 0; 0; 1] ++ [0xc0; 31; 0; 1; 0; 1; 0; 0; 0; 60; 0; 4; 10; 0; 0; 2].
Definition sample_host_d : dnsparse := mkdp sample_host_msg (Some 19) 0 true 3 0 0.
Lemma sample_host_bytes : Forall is_byte sample_host_msg.
Proof. apply List.Forall_forall. apply List.Forall_forall. unfold is_byte. repeat constructor; lia. Qed.
Lemma tohostent_correct_witness : exists h, tohostent sample_host_d = Done (Some h, sample_host_d) /\ hostent_at h [98] (Some [97]) [[10; 0; 0; 1]; [10; 0; 0; 2]].
Proof.
  apply (tohostent_correct sample_host_d [mkrr [97] 5 1 60 3 (RdName [98]); mkrr [98] 1 1 60 4 (RdA [10; 0; 0; 1]); mkrr [98] 1 1 60 4 (RdA [10; 0; 0; 2])] [] []).
  split; try done; [exact sample_host_bytes|]. exists 19, 66, 66, 66. split; [done|]. split; [|split; constructor].
  apply (rrs_cons _ _ _ 34); [|apply (rrs_cons _ _ _ 50); [|apply (rrs_cons _ _ _ 66); [|constructor]]]; apply rrparse_spec; try exact sample_host_bytes; vm_compute; reflexivity.
Defined.

(** Two records that differ in the weight alone: the second stays beside the first, with the sum of the weights. *)
Lemma srv_step_duplicates ns n p q w1 w2 a : 0 <= w1 + w2 < 65536 -> strcasecmp n n = 0 ->
  forall st, srv_step (mkss ns (Some n) a []) (mkrr n T_SRV C_IN 0 0 (RdSrv p w1 q n)) = Done st ->
  exists tp st', srv_step st (mkrr n T_SRV C_IN 0 0 (RdSrv p w2 q n)) = Done st' /\ ss_recs st' = [mksrv p w1 q tp; mksrv p (w2 + w1) q tp].
Proof.
  intros Hw He st. unfold srv_step. cbn [rr_class rr_type rr_rd rr_srv rr_name ss_name ss_nset ss_recs ss_nameptr mbind outcome_bind Z.eqb Pos.eqb C_IN T_SRV negb orb]. rewrite He. cbn [Z.eqb negb].
  destruct (ns_store ns n) as [tp ns'] eqn:E1. intros [= <-]. cbn [rr_class rr_type rr_rd rr_srv rr_name ss_name ss_nset ss_recs ss_nameptr mbind outcome_bind app]. rewrite He. cbn [Z.eqb negb].
  assert (E2 : ns_store ns' n = (tp, ns')).
  { revert E1. unfold ns_store at 1. destruct (ns_map ns !! n) as [x|] eqn:Ex; intros [= <- <-]; unfold ns_store; cbn; [by rewrite Ex|by rewrite lookup_insert_eq]. }
  rewrite E2. cbn. rewrite !Z.eqb_refl. cbn. eexists tp, _. split; [done|]. cbn. do 3 f_equal. rewrite u16_mod. apply Z.mod_small. lia.
Qed.
