(* ===== verification/Hashcash.v ===== *)
(** * Hash cash: [crypt/hashcash.C]

    A payment is a block for SHA-1 whose compression, from the state
    [inithash], begins with the first [bitcost] bits of the target.  [transform]
    only reads the block. *)
From Stdlib Require Import ZArith Lia.
From stdpp Require Import prelude.
From S2P Require Import Prelude Serial Mdblock Sha1.

Definition hashwords : nat := 5.

(** [addone]: the bytes from the last; the carry of the loop that goes on *)
Fixpoint addone_loop (n : nat) (p : list Z) : outcome (list Z) :=
  match n with
  | O => Done p
  | S i =>
      b ← rd p (Z.of_nat i);
      let b := u8 (b + 1) in
      p ← wr p (Z.of_nat i) b;
      if negb (b =? 0) then Done p else addone_loop i p
  end.
Definition addone (p : list Z) : outcome (list Z) := addone_loop (length p) p.

Fixpoint check_words (i : nat) (nword : nat) (l r : list Z) : outcome bool :=
  match nword with
  | O => Done true
  | S nword =>
      a ← rd l (Z.of_nat i); b ← rd r (Z.of_nat i);
      if negb (a =? b) then Done false else check_words (S i) nword l r
  end.
(** [1 << 31] of [int] is taken as the machine computes it. *)
Definition hc_check (l r : list Z) (n : Z) : outcome bool :=
  let nword := n / 32 in
  let nbits := n mod 32 in
  ok ← check_words 0 (Z.to_nat nword) l r;
  if negb ok then Done false
  else if 0 <? nbits then
    let mask := u32 (Z.lnot (u32 (u32 (1 .<< (32 - nbits)) - 1))) in
    a ← rd l nword; b ← rd r nword;
    Done ((a .& mask) =? (b .& mask))
  else Done true.

(** The words of a hash *)
Fixpoint get_words (n : nat) (p : list Z) : outcome (list Z) :=
  match n with O => Done [] | S n => w ← getint p; l ← get_words n (drop 4 p); Done (w :: l) end.
Definition words_of (s : sha1state) : list Z := [h0 s; h1 s; h2 s; h3 s; h4 s].
Definition of_words (l : list Z) : sha1state := match l with [a; b; c; d; e] => mks1 a b c d e | _ => mks1 0 0 0 0 0 end.

(** The loop of [hashcash_pay] does not count its turns; [fuel] bounds them. *)
Fixpoint pay_loop (fuel : nat) (j : Z) (s t pay : list Z) (bitcost : Z) : outcome (Z * list Z) :=
  match fuel with
  | O => Spin
  | S fuel =>
      state ← transform (of_words s) pay;
      ok ← hc_check (words_of state) t bitcost;
      if (ok : bool) then Done (j, pay) else pay ← addone pay; pay_loop fuel (u64 (j + 1)) s t pay bitcost
  end.
(** [random] are the bytes [rnd.getbytes] stores. *)
Definition hashcash_pay (fuel : nat) (random inithash target : list Z) (bitcost : Z) : outcome (Z * list Z) :=
  s ← get_words hashwords inithash;
  t ← get_words hashwords target;
  pay_loop fuel 0 s t random bitcost.
Definition hashcash_check (payment inithash target : list Z) (bitcost : Z) : outcome bool :=
  s ← get_words hashwords inithash;
  t ← get_words hashwords target;
  state ← transform (of_words s) payment;
  hc_check (words_of state) t bitcost.

(** ** The first bits *)
Definition is_word (w : Z) : Prop := 0 <= w < 2 ^ 32.
(** A list of words as a number, the first word most significant *)
Definition words_val (l : list Z) : Z := fold_left (fun v w => v * 2 ^ 32 + w) l 0.
Definition first_bits (n : Z) (l : list Z) : Z := words_val l / 2 ^ (160 - n).
(** A block as a number *)
Definition block_val (l : list Z) : Z := fold_left (fun v w => v * 2 ^ 8 + w) l 0.

Lemma fold_val_app m l k : fold_left (fun v w => v * m + w) (l ++ k) 0 = fold_left (fun v w => v * m + w) l 0 * m ^ Z.of_nat (length k) + fold_left (fun v w => v * m + w) k 0.
Proof.
  rewrite fold_left_app. generalize (fold_left (fun v w => v * m + w) l 0). intros a.
  assert (H : forall k a, fold_left (fun v w => v * m + w) k a = a * m ^ Z.of_nat (length k) + fold_left (fun v w => v * m + w) k 0).
  { clear. intros k. induction k as [|w k IH]; intros a; [cbn; lia|]. cbn [fold_left length]. rewrite (IH (a * m + w)), (IH (0 * m + w)), Nat2Z.inj_succ, Z.pow_succ_r by lia. lia. }
  apply H.
Qed.
Lemma fold_val_bound n l : 0 < n -> Forall (fun w => 0 <= w < 2 ^ n) l -> 0 <= fold_left (fun v w => v * 2 ^ n + w) l 0 < (2 ^ n) ^ Z.of_nat (length l).
Proof.
  intros Hn. induction l as [|w l IH] using rev_ind; [intros _; cbn; lia|]. intros H. apply Forall_app in H as [Hl Hw]. apply Forall_cons in Hw as [Hw _]. specialize (IH Hl).
  rewrite fold_val_app, length_app. cbn [length fold_left]. rewrite Nat2Z.inj_add, Z.pow_add_r by lia. change (Z.of_nat 1) with 1. rewrite !Z.pow_1_r. revert IH Hw. generalize (fold_left (fun v w0 => v * 2 ^ n + w0) l 0). generalize ((2 ^ n) ^ Z.of_nat (length l)). generalize (2 ^ n). intros N P F IH Hw. assert ((F + 1) * N <= P * N) by (apply Z.mul_le_mono_nonneg_r; lia). assert (0 <= F * N) by (apply Z.mul_nonneg_nonneg; lia). lia.
Qed.
Lemma fold_val_inj n l : 0 < n -> forall k, length l = length k -> Forall (fun w => 0 <= w < 2 ^ n) l -> Forall (fun w => 0 <= w < 2 ^ n) k ->
  fold_left (fun v w => v * 2 ^ n + w) l 0 = fold_left (fun v w => v * 2 ^ n + w) k 0 -> l = k.
Proof.
  intros Hn. induction l as [|w l IH] using rev_ind; intros k Hl HF HK E; [by destruct k|]. destruct k as [|x k _] using rev_ind; [rewrite length_app in Hl; cbn in Hl; lia|].
  rewrite !length_app in Hl. cbn in Hl. rewrite !fold_val_app in E. cbn [length fold_left] in E. change (Z.of_nat 1) with 1 in E. rewrite !Z.pow_1_r, Z.mul_0_l, !Z.add_0_l in E.
  apply Forall_app in HF as [HF Hw]. apply Forall_app in HK as [HK Hx]. apply Forall_cons in Hw as [Hw _]. apply Forall_cons in Hx as [Hx _].
  assert (w = x /\ fold_left (fun v w => v * 2 ^ n + w) l 0 = fold_left (fun v w => v * 2 ^ n + w) k 0) as [-> E']; [|by rewrite (IH k ltac:(lia) HF HK E')].
  set (a := fold_left _ l 0) in *. set (b := fold_left _ k 0) in *. clearbody a b. revert E Hw Hx. generalize (2 ^ n). intros N E Hw Hx.
  assert (a = b) as -> by (destruct (Z.lt_trichotomy a b) as [H|[H|H]]; [nia|done|nia]). split; [lia|done].
Qed.

(** Comparing the words and the masked word compares the first [n] bits. *)
Lemma check_words_spec k : forall i l r, (i + k <= length l)%nat -> (i + k <= length r)%nat ->
  check_words i k l r = Done (bool_decide (take k (drop i l) = take k (drop i r))).
Proof.
  induction k as [|k IH]; intros i l r Hl Hr; [by rewrite bool_decide_eq_true_2|]. cbn [check_words].
  destruct (lookup_lt_is_Some_2 l i ltac:(lia)) as [a Ea], (lookup_lt_is_Some_2 r i ltac:(lia)) as [b Eb].
  assert (R : forall (m : list Z) x, m !! i = Some x -> rd m (Z.of_nat i) = Done x) by (intros m x E; unfold rd; destruct (Z.leb_spec 0 (Z.of_nat i)); [|lia]; by rewrite Nat2Z.id, E).
  rewrite (R l a Ea), (R r b Eb). cbn [mbind outcome_bind]. rewrite (drop_S l a i Ea), (drop_S r b i Eb). cbn [take firstn]. destruct (Z.eqb_spec a b) as [->|Hne]; cbn [negb].
  - rewrite IH by lia. f_equal. apply bool_decide_ext. split; [by intros ->|by intros [= ->]].
  - rewrite bool_decide_eq_false_2; [done|]. by intros [= ? _].
Qed.
Lemma mask_div w n : is_word w -> 0 < n < 32 -> w .& u32 (Z.lnot (u32 (u32 (1 .<< (32 - n)) - 1))) = 2 ^ (32 - n) * (w / 2 ^ (32 - n)).
Proof.
  intros Hw Hn. assert (P : 0 < 2 ^ (32 - n) < 2 ^ 32) by (split; [apply Z.pow_pos_nonneg; lia|apply Z.pow_lt_mono_r; lia]).
  assert (E : u32 (u32 (1 .<< (32 - n)) - 1) = Z.ones (32 - n)). { rewrite Z.shiftl_1_l, (u32_small (2 ^ (32 - n))), u32_small by lia. rewrite Z.ones_equiv. lia. }
  rewrite E. apply Z.bits_inj'. intros i Hi. unfold u32. rewrite !Z.land_spec, Z.lnot_spec by lia. rewrite (Z.mul_comm (2 ^ _)), <- Z.shiftl_mul_pow2, <- Z.shiftr_div_pow2 by lia. rewrite Z.shiftl_spec by lia.
  change 4294967295 with (Z.ones 32). rewrite !Z.testbit_ones by lia. destruct (Z.lt_ge_cases i (32 - n)).
  - rewrite (Z.testbit_neg_r (_ .>> _)) by lia. destruct (Z.leb_spec 0 i), (Z.ltb_spec i (32 - n)); try lia.
  - rewrite Z.shiftr_spec, Z.sub_add by lia. destruct (Z.ltb_spec i (32 - n)); [lia|]. rewrite andb_false_r. cbn [negb]. destruct (Z.ltb_spec i 32).
    + destruct (Z.leb_spec 0 i); [|lia]. by rewrite andb_true_r.
    + unfold is_word in Hw. by rewrite (testbit_high w 32 i) by lia.
Qed.
Lemma hc_check_spec l r n : Forall is_word l -> Forall is_word r -> length l = 5%nat -> length r = 5%nat -> 0 <= n <= 160 -> hc_check l r n = Done (first_bits n l =? first_bits n r).
Proof.
  intros Hl Hr Ll Lr Hn. unfold hc_check. pose proof (Z.div_mod n 32 ltac:(lia)) as Hd. pose proof (Z.mod_pos_bound n 32 ltac:(lia)) as Hm.
  set (q := n / 32) in *. set (k := n mod 32) in *. rewrite check_words_spec by lia. cbn [mbind outcome_bind]. rewrite !drop_0. unfold first_bits, words_val.
  assert (Hq : (Z.to_nat q <= 5)%nat) by lia.
  assert (S : forall m, Forall is_word m -> length m = 5%nat -> exists a b, m = a ++ b /\ a = take (Z.to_nat q) m /\ length a = Z.to_nat q /\ Forall is_word a /\ Forall is_word b /\ Z.of_nat (length b) = 5 - q).
  { intros m Fm Lm. exists (take (Z.to_nat q) m), (drop (Z.to_nat q) m). rewrite take_drop, length_take, length_drop. repeat split; try (by apply Forall_take) || (by apply Forall_drop) || lia. }
  destruct (S l Hl Ll) as (a & b & -> & <- & La & Fa & Fb & Lb). destruct (S r Hr Lr) as (c & d & -> & <- & Lc & Fc & Fd & Ld). clear S.
  rewrite !fold_val_app, Lb, Ld. set (A := fold_left _ a 0). set (C := fold_left _ c 0). pose proof (fold_val_bound 32 b ltac:(lia) Fb) as Bb. pose proof (fold_val_bound 32 d ltac:(lia) Fd) as Bd.
  assert (HAC : A = C <-> a = c). { split; [|by intros ->]. apply (fold_val_inj 32); [lia|lia|done|done]. }
  destruct (Z.ltb_spec 0 k).
  - destruct b as [|w b]; [cbn in Lb; lia|]. destruct d as [|x d]; [cbn in Ld; lia|]. apply Forall_cons in Fb as [Hw Fb]. apply Forall_cons in Fd as [Hx Fd].
    assert (R : forall (u : list Z) y v, length u = Z.to_nat q -> rd (u ++ y :: v) q = Done y). { intros u y v Lu. unfold rd. destruct (Z.leb_spec 0 q); [|lia]. by rewrite <- Lu, list_lookup_middle. }
    rewrite (R a w b La), (R c x d Lc). cbn [mbind outcome_bind]. rewrite !mask_div by (done || lia).
    assert (V : forall A y v, Forall is_word v -> Z.of_nat (length v) = 4 - q -> (A * (2 ^ 32) ^ (5 - q) + fold_left (fun v w => v * 2 ^ 32 + w) (y :: v) 0) / 2 ^ (160 - n) = A * 2 ^ k + y / 2 ^ (32 - k)).
    { intros A' y v Fv Lv. change (y :: v) with ([y] ++ v). rewrite fold_val_app, Lv. cbn [fold_left]. pose proof (fold_val_bound 32 v ltac:(lia) Fv) as B. rewrite Lv in B. rewrite <- !Z.pow_mul_r in * by lia.
      replace (160 - n) with (32 * (4 - q) + (32 - k)) by lia. rewrite Z.pow_add_r, <- Z.div_div by (lia || apply Z.pow_pos_nonneg; lia).
      replace (32 * (5 - q)) with (32 * (4 - q) + (32 - k) + k) by lia. rewrite !Z.pow_add_r by lia. set (P := 2 ^ (32 * (4 - q))) in *. assert (0 < P) by (apply Z.pow_pos_nonneg; lia).
      replace (A' * (P * 2 ^ (32 - k) * 2 ^ k) + ((0 * 2 ^ 32 + y) * P + fold_left (fun v0 w0 => v0 * 2 ^ 32 + w0) v 0)) with (fold_left (fun v0 w0 => v0 * 2 ^ 32 + w0) v 0 + (A' * 2 ^ k * 2 ^ (32 - k) + y) * P) by ring.
      rewrite Z.div_add, (Z.div_small (fold_left _ v 0)), Z.add_0_l by lia. rewrite Z.add_comm, Z.div_add by (apply Z.pow_nonzero; lia). lia. }
    rewrite !V by (done || (cbn [length] in *; lia)). assert (Pk : 2 ^ 32 = 2 ^ k * 2 ^ (32 - k)) by (rewrite <- Z.pow_add_r by lia; f_equal; lia).
    assert (Pp : 0 < 2 ^ (32 - k)) by (apply Z.pow_pos_nonneg; lia). unfold is_word in Hw, Hx.
    assert (Bw : 0 <= w / 2 ^ (32 - k) < 2 ^ k) by (split; [apply Z.div_pos; lia|apply Z.div_lt_upper_bound; lia]).
    assert (Bx : 0 <= x / 2 ^ (32 - k) < 2 ^ k) by (split; [apply Z.div_pos; lia|apply Z.div_lt_upper_bound; lia]).
    case_bool_decide as E; cbn [negb].
    + apply HAC in E. rewrite E. f_equal. destruct (Z.eqb_spec (2 ^ (32 - k) * (w / 2 ^ (32 - k))) (2 ^ (32 - k) * (x / 2 ^ (32 - k)))), (Z.eqb_spec (C * 2 ^ k + w / 2 ^ (32 - k)) (C * 2 ^ k + x / 2 ^ (32 - k))); try done; nia.
    + f_equal. symmetry. apply Z.eqb_neq. intros E2. apply E, HAC. nia.
  - assert (k = 0) by lia. replace (160 - n) with (32 * (5 - q)) by lia. rewrite <- !Z.pow_mul_r in * by lia. rewrite Lb in Bb. rewrite Ld in Bd.
    rewrite !(Z.add_comm (_ * _)), !Z.div_add, !Z.div_small, !Z.add_0_l by lia. case_bool_decide as E; cbn [negb]; f_equal; symmetry; [apply Z.eqb_eq, HAC, E|apply Z.eqb_neq; intros F; by apply E, HAC].
Qed.

(** ** The payments one after the other *)
Definition is_block (p : list Z) : Prop := length p = 64%nat /\ Forall is_byte p.
Lemma rd_snoc (l : list Z) x r : rd (l ++ x :: r) (Z.of_nat (length l)) = Done x.
Proof. unfold rd. destruct (Z.leb_spec 0 (Z.of_nat (length l))); [|lia]. by rewrite Nat2Z.id, list_lookup_middle. Qed.
Lemma wr_snoc (l : list Z) x r y : wr (l ++ x :: r) (Z.of_nat (length l)) y = Done (l ++ y :: r).
Proof.
  unfold wr. rewrite length_app. cbn [length]. destruct (Z.leb_spec 0 (Z.of_nat (length l))); [|lia]. destruct (Z.ltb_spec (Z.of_nat (length l)) (Z.of_nat (length l + S (length r)))); [|lia].
  cbn [andb]. f_equal. by rewrite Nat2Z.id, insert_app_r_alt, Nat.sub_diag by lia.
Qed.
Lemma addone_loop_spec l : forall r, Forall is_byte l -> exists l', addone_loop (length l) (l ++ r) = Done (l' ++ r) /\ length l' = length l /\ Forall is_byte l'
  /\ block_val l' = (block_val l + 1) mod (2 ^ 8) ^ Z.of_nat (length l).
Proof.
  induction l as [|b l IH] using rev_ind; intros r Hb; [exists []; by rewrite Z.mod_1_r|]. apply Forall_app in Hb as [Hl Hb]. apply Forall_cons in Hb as [Hb _].
  rewrite length_app, Nat.add_comm. cbn [length Nat.add addone_loop]. rewrite <- app_assoc. cbn [app]. rewrite rd_snoc. cbn [mbind outcome_bind]. rewrite wr_snoc. cbn [mbind outcome_bind].
  assert (Hbound := fold_val_bound 8 l ltac:(lia) Hl). fold (block_val l) in Hbound. unfold is_byte in Hb.
  assert (V : forall l b, block_val (l ++ [b]) = block_val l * 2 ^ 8 + b) by (intros; unfold block_val; rewrite fold_val_app; cbn [length fold_left]; change (Z.of_nat 1) with 1; rewrite Z.pow_1_r; lia).
  rewrite Nat2Z.inj_succ, Z.pow_succ_r, V by lia. set (P := (2 ^ 8) ^ Z.of_nat (length l)) in *. destruct (Z.eqb_spec (u8 (b + 1)) 0) as [E|E]; cbn [negb]; rewrite u8_mod in E |- *.
  - destruct (IH ((b + 1) mod 2 ^ 8 :: r) Hl) as (l' & -> & L & F & Ev). exists (l' ++ [(b + 1) mod 2 ^ 8]). rewrite E in *. rewrite <- app_assoc, length_app, L. split; [done|]. split; [cbn; lia|]. split.
    + apply Forall_app. split; [done|]. by repeat constructor.
    + rewrite V, Ev. assert (b = 255) as -> by (pose proof (Z.div_mod (b + 1) (2 ^ 8)); lia). replace (block_val l * 2 ^ 8 + 255 + 1) with (2 ^ 8 * (block_val l + 1)) by ring. rewrite Z.mul_mod_distr_l by lia. ring.
  - exists (l ++ [(b + 1) mod 2 ^ 8]). rewrite <- app_assoc, length_app. split; [done|]. split; [cbn; lia|].
    assert (b <> 255) by (intros ->; by apply E). rewrite Z.mod_small by lia. split; [apply Forall_app; split; [done|]; constructor; [unfold is_byte; lia|done]|].
    rewrite V. rewrite Z.mod_small; [lia|]. assert (block_val l * 2 ^ 8 <= (P - 1) * 2 ^ 8) by (apply Z.mul_le_mono_nonneg_r; lia). lia.
Qed.
Lemma addone_spec p : is_block p -> exists p', addone p = Done p' /\ is_block p' /\ block_val p' = (block_val p + 1) mod 2 ^ 512.
Proof.
  intros [Hl Hb]. unfold addone. destruct (addone_loop_spec p [] Hb) as (p' & E & L & F & V). rewrite !app_nil_r in E. exists p'. split; [done|]. split; [split; [lia|done]|]. rewrite V, Hl. done.
Qed.
Lemma block_inj p q : is_block p -> is_block q -> block_val p = block_val q -> p = q.
Proof. intros [Lp Hp] [Lq Hq]. apply (fold_val_inj 8); [lia|lia|exact Hp|exact Hq]. Qed.
Lemma transform_total s p : is_block p -> exists s', transform s p = Done s'.
Proof. intros [L _]. exists (fips_compress s p). by apply transform_fips. Qed.

Lemma u32_word x : is_word (u32 x).
Proof. unfold is_word. rewrite u32_mod. apply Z.mod_pos_bound. lia. Qed.
Lemma compress_words s b : Forall is_word (words_of (fips_compress s b)).
Proof. unfold fips_compress. destruct (foldl _ _ _). unfold words_of. cbn. repeat constructor; apply u32_word. Qed.

Lemma get_words_spec n : forall p, length p = (4 * n)%nat -> Forall is_byte p -> exists l, get_words n p = Done l /\ length l = n /\ Forall is_word l.
Proof.
  induction n as [|n IH]; intros p Hl Hb; [by exists []|]. cbn [get_words]. rewrite getint_be32 by lia. cbn [mbind outcome_bind].
  destruct (IH (drop 4 p)) as (l & -> & Ll & Hw); [rewrite length_drop; lia|by apply Forall_drop|]. eexists. split; [done|]. split; [cbn; lia|]. constructor; [|done].
  destruct p as [|a [|b [|c [|d p]]]]; cbn in Hl; try lia. unfold is_word. cbn [take firstn be32]. apply u32_word.
Qed.

(** The payment [k] steps behind [p] is accepted. *)
Definition accepted (inithash target : list Z) (bitcost : Z) (p : list Z) (k : nat) : Prop :=
  exists q, is_block q /\ block_val q = (block_val p + Z.of_nat k) mod 2 ^ 512 /\ hashcash_check q inithash target bitcost = Done true.
Section pay.
Context (inithash target : list Z) (bitcost : Z) (s t : list Z).
Context (Hs : get_words hashwords inithash = Done s) (Ht : get_words hashwords target = Done t) (Lt : length t = 5%nat) (Wt : Forall is_word t) (Hbit : 0 <= bitcost <= 160).
Lemma check_eq p : hashcash_check p inithash target bitcost = (state ← transform (of_words s) p; hc_check (words_of state) t bitcost).
Proof. unfold hashcash_check. by rewrite Hs, Ht. Qed.
Lemma accepted_S p p' k : is_block p -> block_val p' = (block_val p + 1) mod 2 ^ 512 -> accepted inithash target bitcost p (S k) <-> accepted inithash target bitcost p' k.
Proof.
  intros Hp Ev. unfold accepted. setoid_rewrite Ev. replace (block_val p + Z.of_nat (S k)) with (block_val p + 1 + Z.of_nat k) by lia. by setoid_rewrite Z.add_mod_idemp_l.
Qed.
Lemma hc_check_total l : length l = 5%nat -> exists b, hc_check l t bitcost = Done b.
Proof.
  intros Ll. unfold hc_check. pose proof (Z.div_mod bitcost 32 ltac:(lia)). pose proof (Z.mod_pos_bound bitcost 32 ltac:(lia)). rewrite check_words_spec by lia. cbn [mbind outcome_bind].
  destruct (negb _); [eauto|]. destruct (Z.ltb_spec 0 (bitcost mod 32)); [|eauto].
  assert (R : forall m : list Z, length m = 5%nat -> exists a, rd m (bitcost / 32) = Done a).
  { intros m Lm. unfold rd. destruct (Z.leb_spec 0 (bitcost / 32)); [|lia]. destruct (lookup_lt_is_Some_2 m (Z.to_nat (bitcost / 32)) ltac:(lia)) as [a ->]. eauto. }
  destruct (R l Ll) as [a ->], (R t Lt) as [b ->]. cbn. eauto.
Qed.
Lemma pay_loop_spec k : forall p fuel j, is_block p -> 0 <= j < 2 ^ 64 -> accepted inithash target bitcost p k -> (forall i, (i < k)%nat -> ~ accepted inithash target bitcost p i) -> (k < fuel)%nat ->
  exists q, pay_loop fuel j s t p bitcost = Done (u64 (j + Z.of_nat k), q) /\ is_block q /\ block_val q = (block_val p + Z.of_nat k) mod 2 ^ 512 /\ hashcash_check q inithash target bitcost = Done true.
Proof.
  induction k as [|k IH]; intros p fuel j Hp Hj Hacc Hmin Hf; (destruct fuel as [|fuel]; [lia|]); cbn [pay_loop]; destruct (transform_total (of_words s) p Hp) as [st Est]; rewrite Est; cbn [mbind outcome_bind].
  - destruct Hacc as (q & Hq & Ev & Ec). assert (Bp := fold_val_bound 8 p ltac:(lia) (proj2 Hp)). fold (block_val p) in Bp. destruct Hp as [Lp Hp]. rewrite Lp in Bp. rewrite Z.add_0_r, Z.mod_small in Ev by exact Bp.
    apply (block_inj q p Hq (conj Lp Hp)) in Ev as ->. pose proof Ec as Ec2. rewrite check_eq, Est in Ec2. cbn [mbind outcome_bind] in Ec2. rewrite Ec2. cbn [mbind outcome_bind].
    exists p. rewrite Z.add_0_r, u64_small by lia. split; [done|]. split; [done|]. split; [|done]. by rewrite Z.add_0_r, Z.mod_small.
  - destruct (hc_check_total (words_of st) eq_refl) as [b Eb]. rewrite Eb. cbn [mbind outcome_bind]. destruct b.
    { exfalso. apply (Hmin 0%nat ltac:(lia)). exists p. split; [done|]. split; [|rewrite check_eq, Est; exact Eb]. assert (Bp := fold_val_bound 8 p ltac:(lia) (proj2 Hp)). fold (block_val p) in Bp. rewrite (proj1 Hp) in Bp. by rewrite Z.add_0_r, Z.mod_small. }
    destruct (addone_spec p Hp) as (p' & -> & Hp' & Ev). cbn [mbind outcome_bind].
    destruct (IH p' fuel (u64 (j + 1)) Hp') as (q & Eq & Hq & Evq & Ecq).
    + rewrite u64_mod. apply Z.mod_pos_bound. lia.
    + by apply (accepted_S p p').
    + intros i Hi Ha. apply (Hmin (S i)); [lia|]. by apply (accepted_S p p').
    + lia.
    + exists q. rewrite Eq. split; [do 2 f_equal; rewrite !u64_mod, Z.add_mod_idemp_l by lia; f_equal; lia|]. split; [done|]. split; [|done].
      rewrite Evq, Ev, Z.add_mod_idemp_l by lia. f_equal. lia.
Qed.
End pay.

(** C33: [hashcash_pay] ends as soon as one of the blocks that follow the
    random one is a payment: it returns the first of these and the number of blocks
    it has left out.  [hashcash_check] accepts the blocks for which the first
    [bitcost] bits of SHA-1's compression are those of the target. *)
Theorem hashcash_pay_correct random inithash target bitcost k fuel : is_block random -> length inithash = 20%nat -> Forall is_byte inithash -> length target = 20%nat -> Forall is_byte target ->
  0 <= bitcost <= 160 -> accepted inithash target bitcost random k -> (forall i, (i < k)%nat -> ~ accepted inithash target bitcost random i) -> (k < fuel)%nat ->
  exists q s t, hashcash_pay fuel random inithash target bitcost = Done (u64 (Z.of_nat k), q) /\ block_val q = (block_val random + Z.of_nat k) mod 2 ^ 512 /\ hashcash_check q inithash target bitcost = Done true
    /\ get_words 5 inithash = Done s /\ get_words 5 target = Done t
    /\ forall p, is_block p -> hashcash_check p inithash target bitcost = Done (first_bits bitcost (words_of (fips_compress (of_words s) p)) =? first_bits bitcost t).
Proof.
  intros Hr Li Hi Lt Ht Hbit Hacc Hmin Hf. unfold hashcash_pay. destruct (get_words_spec 5 inithash Li Hi) as (s & Es & Ls & _). destruct (get_words_spec 5 target Lt Ht) as (t & Et & Ltt & Wt).
  unfold hashwords. rewrite Es, Et. cbn [mbind outcome_bind].
  destruct (pay_loop_spec inithash target bitcost s t Es Et Ltt Hbit k random fuel 0 Hr ltac:(lia) Hacc Hmin Hf) as (q & E & Hq & Ev & Ec). exists q, s, t. rewrite E. do 5 (split; [done|]).
  intros p [Lp _]. rewrite (check_eq inithash target bitcost s t Es Et). assert (E2 : transform (of_words s) p = Done (fips_compress (of_words s) p)) by (by apply transform_fips). rewrite E2. cbn [mbind outcome_bind]. apply hc_check_spec; [apply compress_words|done..].
Qed.

Definition sample_random : list Z := replicate 63 7 ++ [255].
Definition sample_inithash : list Z := replicate 20 1.
Definition sample_target : list Z := replicate 20 0x5a.
Definition sample_pay (k : nat) : list Z := replicate 62 7 ++ (if decide (k = 0%nat) then [7; 255] else [8; Z.of_nat k - 1]).
Lemma sample_pay_block k : (k < 6)%nat -> is_block (sample_pay k) /\ block_val (sample_pay k) = (block_val sample_random + Z.of_nat k) mod 2 ^ 512.
Proof.
  intros Hk. split.
  - split; [unfold sample_pay; rewrite length_app, length_replicate; by case_decide|]. unfold sample_pay. apply Forall_app. split; [apply Forall_replicate; unfold is_byte; lia|]. case_decide; unfold is_byte; repeat constructor; lia.
  - do 6 (destruct k as [|k]; [vm_compute; reflexivity|]). lia.
Qed.
Lemma sample_rejected i : (i < 5)%nat -> ~ accepted sample_inithash sample_target 3 sample_random i.
Proof.
  intros Hi (q & Hq & Ev & Ec). destruct (sample_pay_block i ltac:(lia)) as [Hb Eb]. assert (q = sample_pay i) as -> by (apply block_inj; [done|done|congruence]).
  revert Ec. do 5 (destruct i as [|i]; [vm_compute; discriminate|]). lia.
Qed.
Lemma hashcash_pay_correct_witness : exists q s t, hashcash_pay 6 sample_random sample_inithash sample_target 3 = Done (u64 (Z.of_nat 5), q) /\ block_val q = (block_val sample_random + Z.of_nat 5) mod 2 ^ 512 /\ hashcash_check q sample_inithash sample_target 3 = Done true
    /\ get_words 5 sample_inithash = Done s /\ get_words 5 sample_target = Done t
    /\ forall p, is_block p -> hashcash_check p sample_inithash sample_target 3 = Done (first_bits 3 (words_of (fips_compress (of_words s) p)) =? first_bits 3 t).
Proof.
  apply hashcash_pay_correct.
  - split; [reflexivity|]. apply Forall_app. split; [apply Forall_replicate|repeat constructor]; unfold is_byte; lia.
  - reflexivity.
  - apply Forall_replicate. unfold is_byte. lia.
  - reflexivity.
  - apply Forall_replicate. unfold is_byte. lia.
  - lia.
  - exists (sample_pay 5). destruct (sample_pay_block 5 ltac:(lia)) as [H1 H2]. split; [exact H1|]. split; [exact H2|]. vm_compute. reflexivity.
  - exact sample_rejected.
  - lia.
Defined.
