(* ===== verification/Sfspath.v ===== *)
(** * Self-certifying paths: [sfsmisc/sfspath.C]

    A path names a server by its host name, an optional port and the hash of
    its public key, in base 32.  Version 1 is [port@host:hash], version 2
    is [@host%port,hash].  A string is the list of its characters; a pointer into it is
    the rest of the characters with the NUL behind them. *)
From Stdlib Require Import ZArith Lia.
From stdpp Require Import prelude strings.
From S2P Require Import Prelude Armor Convertint.

Definition sizeof_sfs_hash : Z := 20.
Definition ascii_hostid_len : Z := (sizeof_sfs_hash * 8 + 4) / 5.

Definition deref (p : list Z) : outcome Z := match p with c :: _ => Done c | [] => Wild end.
Definition sfs_ascii2hostid (p : list Z) : outcome (option (list Z)) :=
  n ← armor32len p;
  if negb (n =? ascii_hostid_len) then Done None
  else c ← rd p ascii_hostid_len;
    if negb (c =? 0) then Done None else dearmor32 p ascii_hostid_len.

Definition label_char (c : Z) : bool := ((97 <=? c) && (c <=? 122)) || ((48 <=? c) && (c <=? 57)) || (c =? 45).
Fixpoint label_loop (s : list Z) (n : Z) : outcome (Z * list Z) :=
  match s with
  | [] => Wild
  | c :: s' => if label_char c then label_loop s' (n + 1) else Done (n, s)
  end.
Definition sfsgethost_label (p : list Z) : outcome (option (list Z)) :=
  x ← label_loop p 0;
  let '(n, s) := x : Z * list Z in
  if (n =? 0) || (63 <? n) then Done None else Done (Some s).
Definition sfsgethost_dotlabel (p : list Z) : outcome (option (list Z)) :=
  match p with
  | [] => Wild
  | c :: s => if negb (c =? 46) then Done None else sfsgethost_label s
  end.
Fixpoint dotlabels (fuel : nat) (s : list Z) : outcome (list Z) :=
  match fuel with
  | O => Spin
  | S fuel => r ← sfsgethost_dotlabel s; match r with Some s => dotlabels fuel s | None => Done s end
  end.
Definition sfsgethost (p : list Z) (qualified : bool) : outcome (option (list Z * list Z)) :=
  r ← sfsgethost_label p;
  match r with
  | None => Done None
  | Some s =>
      r ← (if qualified then sfsgethost_dotlabel s else Done (Some s));
      match r with
      | None => Done None
      | Some s =>
          s ← dotlabels (length s) s;
          let n := Z.of_nat (length p) - Z.of_nat (length s) in
          if 255 <? n then Done None else Done (Some (take (Z.to_nat n) p, s))
      end
  end.

(** The host, the port and the rest *)
Definition sfsgetlocation (pp : list Z) (qualified : bool) : outcome (option (list Z * Z * list Z)) :=
  r ← sfsgethost pp qualified;
  match r with
  | None => Done None
  | Some (host, p) =>
      c ← deref p;
      if c =? 37 then
        x ← strtoi64 (drop 1 p) 10;
        let '(port, p) := x : Z * list Z in
        c ← deref p;
        if (port <=? 0) || (0xffff <=? port) || isdigit c then Done None else Done (Some (host, u16 port, p))
      else Done (Some (host, 0, p))
  end.
Definition sfsgetatlocation (pp : list Z) (qualified : bool) : outcome (option (list Z * Z * list Z)) :=
  c ← deref pp;
  if negb (c =? 64) then Done None else sfsgetlocation (drop 1 pp) qualified.

(** Host, hash and port *)
Definition sfs_parsepath_v2 (path : list Z) : outcome (option (list Z * list Z * Z)) :=
  r ← sfsgetatlocation (path ++ [0]) true;
  match r with
  | None => Done None
  | Some (host, port, p) =>
      c ← deref p;
      if negb (c =? 44) then Done None
      else h ← sfs_ascii2hostid (drop 1 p); Done (match h with Some hostid => Some (host, hostid, port) | None => None end)
  end.
Definition sfs_parsepath_v1 (path : list Z) : outcome (option (list Z * list Z * Z)) :=
  c ← deref (path ++ [0]);
  x ← (if isdigit c then
         y ← strtoi64 (path ++ [0]) 10;
         let '(atno, p) := y : Z * list Z in
         c ← deref p;
         if (c =? 64) && (0 <? atno) && (atno <? 0x10000) then
           Done (drop (length path + 1 - length p + 1) path, u16 atno)
         else Done (path, 0)
       else Done (path, 0));
  let '(path, port) := x : list Z * Z in
  r ← sfsgethost (path ++ [0]) true;
  match r with
  | None => Done None
  | Some (_, p) =>
      let host := take (length path + 1 - length p) path in
      c ← deref p;
      if negb (c =? 58) then Done None
      else h ← sfs_ascii2hostid (drop 1 p); Done (match h with Some hostid => Some (host, hostid, port) | None => None end)
  end.
(** [strchr (p, ':')]: looks as far as the first NUL *)
Fixpoint strchr (s : list Z) (c : Z) : bool := match s with [] => false | x :: s => if x =? c then true else if x =? 0 then false else strchr s c end.
Definition sfs_parsepath (path : list Z) : outcome (option (list Z * list Z * Z) * Z) :=
  if strchr (path ++ [0]) 58 then r ← sfs_parsepath_v1 path; Done (r, 1) else r ← sfs_parsepath_v2 path; Done (r, 2).

(** [<<] of an [int] to a [strbuf] *)
Definition int_text (n : Z) : list Z := if n <? 0 then 45 :: decimal (- n) else decimal n.
(** What a server tells of itself; the hash of its key in both versions comes from the public-key code. *)
Record servinfo := mksi { si_hostname : list Z; si_port : Z; si_mkhostid : Z -> option (list Z) }.
Definition mkhostid (si : servinfo) (vers : Z) : option (list Z) := if (vers =? 2) || (vers =? 1) then si_mkhostid si vers else None.
Definition mkpath (si : servinfo) (vers port : Z) : outcome (list Z) :=
  match mkhostid si vers with
  | None => Done (chars ":ERROR: Could not make hostid"%string)
  | Some hostid =>
      a ← armor32 hostid;
      if vers =? 1 then Done ((if negb (port =? 0) then int_text port ++ [64] else []) ++ si_hostname si ++ [58] ++ a)
      else let port := if port =? -1 then si_port si else port in
        Done ([64] ++ si_hostname si ++ (if negb (port =? 0) then [37] ++ int_text port else []) ++ [44] ++ a)
  end.
Definition ckhostid (si : servinfo) (id : list Z) (vers : Z) : bool := match mkhostid si vers with Some rid => bool_decide (rid = id) | None => false end.
Definition ckpath (si : servinfo) (sname : list Z) : outcome bool :=
  r ← sfs_parsepath sname;
  match r with
  | (None, _) => Done false
  | (Some (location, hid, _), vers) =>
      if negb (bool_decide (location = si_hostname si)) then Done false
      else Done (ckhostid si hid vers)
  end.

(** ** Host names *)
Definition label (l : list Z) : Prop := Forall (fun c => label_char c = true) l /\ (1 <= length l <= 63)%nat.
Definition dotted (ls : list (list Z)) : list Z := concat ((fun l => 46 :: l) <$> ls).
(** Two or more labels with dots between them *)
Definition host_name (h : list Z) : Prop := exists l1 l2 ls, h = l1 ++ dotted (l2 :: ls) /\ label l1 /\ Forall label (l2 :: ls) /\ (length h <= 255)%nat.
(** A character behind a host name *)
Definition host_end (c : Z) : Prop := label_char c = false /\ c <> 46.

Lemma label_loop_spec l : forall n c rest, Forall (fun c => label_char c = true) l -> label_char c = false -> label_loop (l ++ c :: rest) n = Done (n + Z.of_nat (length l), c :: rest).
Proof.
  induction l as [|a l IH]; intros n c rest Hl Hc; cbn [app label_loop]; [rewrite Hc; by rewrite Z.add_0_r|]. apply Forall_cons in Hl as [Ha Hl]. rewrite Ha, IH by done.
  do 2 f_equal. cbn [length]. lia.
Qed.
Lemma label_spec l c rest : label l -> label_char c = false -> sfsgethost_label (l ++ c :: rest) = Done (Some (c :: rest)).
Proof.
  intros [Hl Hn] Hc. unfold sfsgethost_label. rewrite label_loop_spec by done. cbn [mbind outcome_bind]. destruct (Z.eqb_spec (0 + Z.of_nat (length l)) 0), (Z.ltb_spec 63 (0 + Z.of_nat (length l))); cbn; try lia. done.
Qed.
Lemma dotted_next ls c rest : Forall label ls -> label_char c = false -> exists d r, dotted ls ++ c :: rest = d :: r /\ label_char d = false.
Proof. intros _ Hc. destruct ls as [|l ls]; [by exists c, rest|]. by eexists _, _. Qed.
Lemma dotlabel_spec l ls c rest : Forall label (l :: ls) -> label_char c = false -> sfsgethost_dotlabel (dotted (l :: ls) ++ c :: rest) = Done (Some (dotted ls ++ c :: rest)).
Proof.
  intros HF Hc. apply Forall_cons in HF as [Hl HF]. destruct (dotted_next ls c rest HF Hc) as (d & r & E & Hd).
  unfold dotted. cbn [fmap list_fmap concat app sfsgethost_dotlabel Z.eqb Pos.eqb negb]. rewrite <- app_assoc. fold (dotted ls). rewrite E. by apply label_spec.
Qed.
Lemma dotlabels_spec ls : forall fuel c rest, Forall label ls -> host_end c -> (length ls < fuel)%nat -> dotlabels fuel (dotted ls ++ c :: rest) = Done (c :: rest).
Proof.
  induction ls as [|l ls IH]; intros fuel c rest HF [Hc Hd] Hf; (destruct fuel as [|fuel]; [lia|]); cbn [dotlabels].
  - cbn. destruct (Z.eqb_spec c 46); [done|]. done.
  - rewrite dotlabel_spec by done. cbn [mbind outcome_bind]. apply Forall_cons in HF as [_ HF]. apply IH; [done|done|cbn in Hf; lia].
Qed.
Lemma dotted_length ls : (length ls <= length (dotted ls))%nat.
Proof. induction ls as [|l ls IH]; [done|]. unfold dotted. cbn [fmap list_fmap concat]. rewrite length_app. fold (dotted ls). cbn [length]. lia. Qed.
Lemma sfsgethost_spec h c rest : host_name h -> host_end c -> sfsgethost (h ++ c :: rest) true = Done (Some (h, c :: rest)).
Proof.
  intros (l1 & l2 & ls & -> & H1 & HF & Hlen) Hc. pose proof Hc as [Hc1 _]. unfold sfsgethost. rewrite <- app_assoc.
  assert (E : dotted (l2 :: ls) ++ c :: rest = 46 :: (l2 ++ dotted ls ++ c :: rest)) by (unfold dotted; cbn [fmap list_fmap concat app]; by rewrite <- app_assoc).
  rewrite E at 1. rewrite label_spec by done. cbn [mbind outcome_bind]. rewrite <- E, dotlabel_spec by done. cbn [mbind outcome_bind]. pose proof (dotted_length ls).
  rewrite dotlabels_spec; [|by apply Forall_cons in HF as [_ HF]|done|rewrite length_app; cbn [length]; lia]. cbn [mbind outcome_bind].
  rewrite !length_app in *. cbn [length] in *. destruct (Z.ltb_spec 255 (Z.of_nat (length l1 + (length (dotted (l2 :: ls)) + S (length rest))) - Z.of_nat (S (length rest)))); [lia|].
  do 3 f_equal. rewrite app_assoc. apply take_app_length'. rewrite length_app. lia.
Qed.

(** ** Hashes and ports *)
Lemma ascii2hostid_spec id a : armor32 id = Done a -> Forall is_byte id -> length id = 20%nat -> sfs_ascii2hostid (a ++ [0]) = Done (Some id).
Proof.
  intros Ea Hb Hl. rewrite armor32_done in Ea. injection Ea as <-. pose proof (armor32_loop_length id) as L. rewrite Hl in L. change (Z.of_nat 20 / 5 * 8 + tbl b2a32rem (Z.of_nat 20 mod 5)) with 32 in L.
  unfold sfs_ascii2hostid, armor32len. rewrite armorlen_app by (done || by apply armor32_loop_valid). cbn [mbind outcome_bind]. rewrite L. cbn [Z.eqb Pos.eqb negb].
  assert (R : rd (armor32_loop id ++ [0]) 32 = Done 0). { unfold rd. cbn [Z.leb Z.compare]. replace (Z.to_nat 32) with (length (armor32_loop id)) by lia. by rewrite list_lookup_middle. }
  change ascii_hostid_len with 32. cbn [Z.eqb Pos.eqb negb]. rewrite R. cbn [mbind outcome_bind Z.eqb negb]. rewrite <- L. by apply dearmor32_armor32.
Qed.
Lemma port_text n c rest : 0 < n <= 0x10000 -> ends 10 c -> strtoi64 (decimal n ++ c :: rest) 10 = Done (n, c :: rest).
Proof.
  intros Hn Hc. destruct (decimal_loop_spec 20 n []) as (D1 & D2 & D3 & _); [cbn; lia|constructor|]. fold (decimal n) in *.
  pose proof (strtoi64_digits [] [] false (decimal n) c rest 10 10 ltac:(constructor) ltac:(by left) D3 ltac:(lia)) as E. cbn [app] in E. rewrite E; [|by left|done|done].
  rewrite D2. cbn [value fold_left]. do 2 f_equal. unfold clamp64, max64. lia.
Qed.
Lemma decimal_digits n : 0 < n <= 0x10000 -> Forall (fun c => isdigit c = true) (decimal n) /\ decimal n <> [].
Proof.
  intros Hn. destruct (decimal_loop_spec 20 n []) as (D1 & D2 & D3 & _); [cbn; lia|constructor|]. fold (decimal n) in *. split; [|done].
  eapply Forall_impl; [exact D1|]. cbn. intros c (d & E & Hd). unfold digit, isdigit, isalpha, isupper in *. destruct (Z.leb_spec 48 c), (Z.leb_spec c 57); cbn in *; try done; repeat case_match; simplify_eq; lia.
Qed.

Definition host_char (c : Z) : Prop := label_char c = true \/ c = 46.
Lemma host_chars h : host_name h -> Forall host_char h.
Proof.
  assert (L : forall l, label l -> Forall host_char l) by (intros l [Hl _]; eapply Forall_impl; [exact Hl|]; by left).
  intros (l1 & l2 & ls & -> & H1 & HF & _). apply Forall_app. split; [by apply L|]. induction HF as [|l ls' Hl _ IH]; [done|]. unfold dotted. cbn [fmap list_fmap concat app]. constructor; [by right|]. apply Forall_app. split; [by apply L|done].
Qed.
Lemma host_char_not c : host_char c -> c <> 58 /\ c <> 0 /\ c <> 64.
Proof. unfold host_char, label_char. intros [H| ->]; [|lia]. split_and!; intros ->; cbn in H; done. Qed.
Lemma armor_not a c : 0 <= tbl a2b32 a -> tbl a2b32 c < 0 -> a <> c.
Proof. intros H1 H2 ->. lia. Qed.
Lemma strchr_false s c : Forall (fun x => x <> c) s -> c <> 0 -> strchr (s ++ [0]) c = false.
Proof.
  intros H Hc. induction H as [|x s Hx _ IH]; cbn [app strchr]; [destruct (Z.eqb_spec 0 c); [congruence|done]|]. destruct (Z.eqb_spec x c); [done|]. by destruct (x =? 0).
Qed.
Lemma strchr_true s c r : Forall (fun x => x <> 0) s -> strchr (s ++ c :: r) c = true.
Proof. induction 1 as [|x s Hx _ IH]; cbn [app strchr]; [by rewrite Z.eqb_refl|]. destruct (x =? c); [done|]. by destruct (Z.eqb_spec x 0). Qed.
Lemma digit_char_not c : isdigit c = true -> c <> 58 /\ c <> 0 /\ c <> 64.
Proof. intros H. split_and!; intros ->; done. Qed.

Lemma int_text_pos q : 0 <= q -> int_text q = decimal q.
Proof. intros Hq. unfold int_text. by destruct (Z.ltb_spec q 0); [lia|]. Qed.
(** The digits at the front of a list *)
Lemma digits_split s c r : isdigit c = false -> exists cs x r', s ++ c :: r = cs ++ x :: r' /\ Forall (fun y => isdigit y = true) cs /\ isdigit x = false /\ (x ∈ s \/ x = c) /\ (match s with d :: _ => isdigit d = true -> cs <> [] | [] => True end).
Proof.
  intros Hc. induction s as [|d s IH]; [exists [], c, r; split_and!; [done|done|done|by right|done]|]. destruct (isdigit d) eqn:Ed.
  - destruct IH as (cs & x & r' & E & F & Hx & Hin & _). exists (d :: cs), x, r'. cbn. rewrite E. split_and!; [done|by constructor|done|set_solver|done].
  - exists [], d, (s ++ c :: r). split_and!; [done|done|done|left; by left|done].
Qed.
Lemma isdigit_digit c : isdigit c = true -> exists d, digit c = Some d /\ 0 <= d < 10.
Proof. intros H. unfold digit. rewrite H. exists (c - 48). unfold isdigit in H. split; [done|lia]. Qed.
Lemma nondigit_ends c : isdigit c = false -> ends 10 c.
Proof. intros H. unfold ends, digit. rewrite H. unfold isalpha, isupper. destruct (Z.leb_spec 65 c), (Z.leb_spec c 90), (Z.leb_spec 97 c), (Z.leb_spec c 122); cbn; lia || done. Qed.

Section paths.
Context (host id a : list Z) (Hh : host_name host) (Ea : armor32 id = Done a) (Hid : Forall is_byte id) (Lid : length id = 20%nat).
Definition port_part (q : Z) : list Z := if negb (q =? 0) then [37] ++ int_text q else [].
Definition path_v2 (q : Z) : list Z := [64] ++ host ++ port_part q ++ [44] ++ a.
Definition path_v1 (q : Z) : list Z := (if negb (q =? 0) then int_text q ++ [64] else []) ++ host ++ [58] ++ a.

Lemma armored_chars c : tbl a2b32 c < 0 -> Forall (fun x => x <> c) a.
Proof.
  intros Hc. rewrite armor32_done in Ea. injection Ea as <-. eapply Forall_impl; [by apply armor32_loop_valid|]. cbn. intros x Hx. by apply (armor_not x c).
Qed.
Lemma path_v2_no_colon q : 0 <= q < 0x10000 -> Forall (fun x => x <> 58) (path_v2 q).
Proof.
  intros Hq. unfold path_v2, port_part. apply Forall_app. split; [by repeat constructor|]. apply Forall_app. split; [eapply Forall_impl; [by apply host_chars|]; intros x Hx; by apply host_char_not|].
  apply Forall_app. split; [|apply Forall_app; split; [by repeat constructor|by apply armored_chars]].
  destruct (Z.eqb_spec q 0); cbn [negb]; [done|]. rewrite int_text_pos by lia. constructor; [done|]. eapply Forall_impl; [apply (decimal_digits q); lia|]. intros x Hx. by apply digit_char_not.
Qed.
Lemma parse_v2 q : 0 <= q < 0x10000 -> sfs_parsepath_v2 (path_v2 q) = Done (if q =? 0xffff then None else Some (host, id, q)).
Proof.
  intros Hq. unfold sfs_parsepath_v2, path_v2, sfsgetatlocation, sfsgetlocation. rewrite <- !app_assoc. cbn [app deref mbind outcome_bind drop skipn Z.eqb Pos.eqb negb]; rewrite ?drop_0.
  unfold port_part. destruct (Z.eqb_spec q 0) as [->|Hne]; cbn [negb app].
  - rewrite sfsgethost_spec by done. cbn [mbind outcome_bind deref Z.eqb Pos.eqb]. cbn [mbind outcome_bind deref Z.eqb Pos.eqb negb drop skipn]; rewrite ?drop_0. rewrite (ascii2hostid_spec id a) by done. done.
  - rewrite sfsgethost_spec by done. cbn [mbind outcome_bind deref Z.eqb Pos.eqb drop skipn]; rewrite ?drop_0. rewrite int_text_pos, port_text by (done || lia). cbn [mbind outcome_bind deref].
    destruct (Z.leb_spec q 0); [lia|]. cbn [orb]. destruct (Z.eqb_spec q 0xffff) as [->|]; [done|]. destruct (Z.leb_spec 0xffff q); [lia|]. change (isdigit 44) with false. cbn [orb deref mbind outcome_bind Z.eqb Pos.eqb negb drop skipn]; rewrite ?drop_0.
    rewrite (ascii2hostid_spec id a) by done. cbn. do 3 f_equal. rewrite u16_mod. apply Z.mod_small. lia.
Qed.
Lemma parse_v1 q : 0 <= q < 0x10000 -> sfs_parsepath_v1 (path_v1 q) = Done (Some (host, id, q)).
Proof.
  intros Hq. assert (Htail : forall port : Z, (r ← sfsgethost ((host ++ [58] ++ a) ++ [0]) true;
    match r with
    | None => Done None
    | Some (_, p) =>
        let h := take (length (host ++ [58] ++ a) + 1 - length p) (host ++ [58] ++ a) in
        c ← deref p;
        if negb (c =? 58) then Done None
        else x ← sfs_ascii2hostid (drop 1 p); Done (match x with Some hostid => Some (h, hostid, port) | None => None end)
    end) = Done (Some (host, id, port))).
  { intros port. rewrite <- !app_assoc. cbn [app]. rewrite sfsgethost_spec by done. cbn [mbind outcome_bind deref Z.eqb Pos.eqb negb drop skipn]; rewrite ?drop_0. rewrite (ascii2hostid_spec id a) by done. cbn [mbind outcome_bind].
    do 4 f_equal. apply take_app_length'. rewrite !length_app. cbn [length]. rewrite length_app. cbn [length]. lia. }
  unfold sfs_parsepath_v1, path_v1. destruct (Z.eqb_spec q 0) as [->|Hne]; cbn [negb app].
  - assert (E : (x ← (c ← deref ((host ++ 58 :: a) ++ [0]);
       if isdigit c then y ← strtoi64 ((host ++ 58 :: a) ++ [0]) 10;
         let '(atno, p) := y : Z * list Z in
         c ← deref p;
         if (c =? 64) && (0 <? atno) && (atno <? 0x10000) then Done (drop (length (host ++ 58 :: a) + 1 - length p + 1) (host ++ 58 :: a), u16 atno) else Done (host ++ 58 :: a, 0)
       else Done (host ++ 58 :: a, 0)); Done x) = Done (host ++ 58 :: a, 0)).
    { rewrite <- app_assoc. cbn [app]. destruct (digits_split host 58 (a ++ [0]) eq_refl) as (cs & x & r' & E & F & Hx & Hin & Hne).
      destruct host as [|d h] eqn:Ehost; [cbn; done|]. cbn [app deref mbind outcome_bind]. destruct (isdigit d) eqn:Ed; [|done].
      cbn [app] in E. rewrite E. specialize (Hne eq_refl).
      pose proof (strtoi64_digits [] [] false cs x r' 10 10 ltac:(constructor) ltac:(by left) Hne ltac:(lia)) as S. cbn [app] in S. rewrite S; [|by left|eapply Forall_impl; [exact F|]; exact isdigit_digit|by apply nondigit_ends].
      cbn [mbind outcome_bind deref]. destruct (Z.eqb_spec x 64) as [->|]; [|done]. exfalso. destruct Hin as [Hin|]; [|lia]. pose proof (host_chars _ Hh) as Hc. rewrite Forall_forall in Hc. destruct (host_char_not 64 (Hc 64 Hin)) as (_ & _ & ?). done. }
    destruct (deref ((host ++ 58 :: a) ++ [0])) as [c| | |]; cbn [mbind outcome_bind] in E |- *; try done.
    destruct (if isdigit c then _ else _) as [x| | |]; cbn [mbind outcome_bind] in E |- *; try done. injection E as ->. exact (Htail 0).
  - rewrite int_text_pos by lia. destruct (decimal_digits q ltac:(lia)) as [Hd Hn]. destruct (decimal q) as [|d ds] eqn:Edec; [done|]. pose proof Hd as Hd2. apply Forall_cons in Hd2 as [Hd2 _].
    rewrite <- !app_assoc. cbn [app deref mbind outcome_bind]. rewrite Hd2.
    pose proof (port_text q 64 (host ++ 58 :: a ++ [0]) ltac:(lia) ltac:(done)) as P. rewrite Edec in P. cbn [app] in P |- *. rewrite P. cbn [mbind outcome_bind deref Z.eqb Pos.eqb].
    destruct (Z.ltb_spec 0 q); [|lia]. destruct (Z.ltb_spec q 0x10000); [|lia]. cbn [andb mbind outcome_bind].
    assert (Ed : drop (length (d :: ds ++ 64 :: host ++ 58 :: a) + 1 - length (64 :: host ++ 58 :: a ++ [0]) + 1) (d :: ds ++ 64 :: host ++ 58 :: a) = host ++ [58] ++ a).
    { replace (length (d :: ds ++ 64%Z :: host ++ 58%Z :: a) + 1 - length (64%Z :: host ++ 58%Z :: a ++ [0%Z]) + 1)%nat with (length ((d :: ds) ++ [64])) by (repeat (progress (rewrite ?length_app; cbn [length])); lia).
      replace (d :: ds ++ 64 :: host ++ 58 :: a) with (((d :: ds) ++ [64]) ++ host ++ [58] ++ a) by (by rewrite <- !app_assoc). apply drop_app_length. }
    cbn [app] in Ed. rewrite Ed. refine (eq_trans (Htail (u16 q)) _). do 3 f_equal. rewrite u16_mod. apply Z.mod_small. lia.
Qed.
End paths.

(** The port that a path of a server gets *)
Definition path_port (si : servinfo) (vers port : Z) : Z := if vers =? 1 then port else if port =? -1 then si_port si else port.
Lemma parse_path si vers port id : vers = 1 \/ vers = 2 -> host_name (si_hostname si) -> mkhostid si vers = Some id -> Forall is_byte id -> length id = 20%nat -> 0 <= path_port si vers port < 0x10000 ->
  exists path, mkpath si vers port = Done path
    /\ sfs_parsepath path = Done (if (vers =? 2) && (path_port si vers port =? 0xffff) then None else Some (si_hostname si, id, path_port si vers port), vers).
Proof.
  intros Hv Hh Hid Hb Hl Hp. unfold mkpath. rewrite Hid, armor32_done. cbn [mbind outcome_bind]. assert (Ea : armor32 id = Done (armor32_loop id)) by apply armor32_done. destruct Hv as [-> | ->]; cbn [Z.eqb Pos.eqb andb path_port] in Hp |- *.
  - exists (path_v1 (si_hostname si) (armor32_loop id) port). split; [done|]. unfold sfs_parsepath.
    assert (E : strchr (path_v1 (si_hostname si) (armor32_loop id) port ++ [0]) 58 = true).
    { unfold path_v1. set (f := if negb (port =? 0) then int_text port ++ [64] else []). replace ((f ++ si_hostname si ++ [58] ++ armor32_loop id) ++ [0]) with ((f ++ si_hostname si) ++ 58 :: armor32_loop id ++ [0]) by (by rewrite <- !app_assoc).
      apply strchr_true. apply Forall_app. split; [|eapply Forall_impl; [by apply host_chars|]; intros x Hx; by apply host_char_not]. unfold f. destruct (Z.eqb_spec port 0); cbn [negb]; [done|]. rewrite int_text_pos by lia.
      apply Forall_app. split; [|by repeat constructor]. eapply Forall_impl; [apply (decimal_digits port); lia|]. intros x Hx. by apply digit_char_not. }
    rewrite E. rewrite (parse_v1 _ id) by done. done.
  - unfold path_port in Hp. cbn [Z.eqb Pos.eqb] in Hp. set (q := if port =? -1 then si_port si else port) in *.
    exists (path_v2 (si_hostname si) (armor32_loop id) q). split; [done|]. unfold sfs_parsepath.
    rewrite strchr_false by (done || by apply (path_v2_no_colon _ id)). rewrite (parse_v2 _ id) by done. cbn [mbind outcome_bind]. unfold path_port. cbn [Z.eqb Pos.eqb]. fold q. done.
Qed.

(** C28: the path that [mkpath] makes for a server, in either version, is read
    back by [sfs_parsepath] as the server's host name, the hash of its key, the
    port and the version, and [ckpath] accepts it for this server and for no
    server with another host name or another hash.  The one exception is port
    65535 in version 2, which the parser refuses. *)
Theorem path_roundtrip si vers port id : vers = 1 \/ vers = 2 -> host_name (si_hostname si) -> mkhostid si vers = Some id -> Forall is_byte id -> length id = 20%nat -> 0 <= path_port si vers port < 0x10000 ->
  exists path, mkpath si vers port = Done path /\
    if (vers =? 2) && (path_port si vers port =? 0xffff) then sfs_parsepath path = Done (None, vers)
    else sfs_parsepath path = Done (Some (si_hostname si, id, path_port si vers port), vers)
      /\ forall si', ckpath si' path = Done (bool_decide (si_hostname si = si_hostname si') && bool_decide (mkhostid si' vers = Some id)).
Proof.
  intros Hv Hh Hid Hb Hl Hp. destruct (parse_path si vers port id Hv Hh Hid Hb Hl Hp) as (path & E1 & E2). exists path. split; [done|].
  destruct (_ && _); [done|]. split; [done|]. intros si'. unfold ckpath. rewrite E2. cbn [mbind outcome_bind]. case_bool_decide as Hn; cbn [negb andb]; [|done]. f_equal. unfold ckhostid.
  destruct (mkhostid si' vers) as [rid|]; [|by rewrite bool_decide_eq_false_2]. apply bool_decide_ext. naive_solver.
Qed.

Definition sample_si : servinfo := mksi (chars "sfs.example-1.net"%string) 4 (fun _ => Some (replicate 20 77)).
Lemma path_roundtrip_witness : exists path, mkpath sample_si 2 (-1) = Done path /\
  if (2 =? 2) && (path_port sample_si 2 (-1) =? 0xffff) then sfs_parsepath path = Done (None, 2)
  else sfs_parsepath path = Done (Some (si_hostname sample_si, replicate 20 77, path_port sample_si 2 (-1)), 2)
    /\ forall si', ckpath si' path = Done (bool_decide (si_hostname sample_si = si_hostname si') && bool_decide (mkhostid si' 2 = Some (replicate 20 77))).
Proof.
  apply path_roundtrip.
  - by right.
  - exists (chars "sfs"%string), (chars "example-1"%string), [chars "net"%string]. split; [reflexivity|]. unfold label. split_and!; repeat constructor; cbn; lia.
  - reflexivity.
  - apply Forall_replicate. unfold is_byte. lia.
  - reflexivity.
  - cbn. lia.
Defined.
(** A port with spaces and a sign is read as well. *)
Lemma parse_other_text : sfs_parsepath_v2 (chars "@a.b% +5,abcdefghijkmnpqrstuvwxyz23456789"%string) = sfs_parsepath_v2 (chars "@a.b%5,abcdefghijkmnpqrstuvwxyz23456789"%string)
  /\ exists r, sfs_parsepath_v2 (chars "@a.b%5,abcdefghijkmnpqrstuvwxyz23456789"%string) = Done (Some r).
Proof. split; [vm_compute; reflexivity|]. eexists. vm_compute. reflexivity. Qed.
