(* ===== verification/Asrv.v ===== *)
(** * RPC servers: [arpc/asrv.C], [arpc/asrv.h] and [arpc/xhinfo.C]

    A transport ([axprt]) has one [xhinfo], which gives the packets that arrive
    to the servers ([asrv]) registered for their program and version.  A server
    hands a call ([svccb]) to its callback and gets it back with the answer.
    [asrv_unreliable] and [asrv_resumable] keep answers to repeat them when the
    client repeats a call.

    Objects are in maps from addresses; what is not in its map is not allocated
    and may not be used ([Wild]).  Counts of references are not kept: the objects
    that the callers hold stay.  What the user's callbacks do is a later
    operation; the calls of callbacks and the packets sent are logged in order as
    [event]s.  The lists and hash tables hold addresses here; [Links.v] and
    [Ihash.v] have their memory.  The coding of messages comes with the system and
    with generated code and is the class [RpcXdr]. *)
From Stdlib Require Import ZArith Lia.
From stdpp Require Import prelude gmap.
From S2P Require Import Prelude Serial Links Ihash.

(** ** Messages *)
Record callmsg := mkcall { rm_xid : Z; cb_rpcvers : Z; cb_prog : Z; cb_vers : Z; cb_proc : Z; cb_cred : Z * list Z }.
Inductive accept_stat := SUCCESS | PROG_UNAVAIL | PROG_MISMATCH | PROC_UNAVAIL | GARBAGE_ARGS | SYSTEM_ERR.
Inductive reply_body :=
| Accepted_success (res : list Z)
| Accepted_mismatch (low high : Z)
| Accepted_error (stat : accept_stat)
| Denied_mismatch (low high : Z)
| Denied_auth (why : Z).
Definition RPC_MSG_VERSION : Z := 2.
Definition CALL : Z := 0.
Definition REPLY : Z := 1.
Definition AUTH_OK : Z := 0.
Definition AUTH_UINT : Z := 10.

(** [val] are arguments and results; [xdr_arg] and [xdr_res] are those of the
    table of a program and version. *)
Class RpcXdr (val : Type) := {
  xdr_callmsg : list Z -> option (callmsg * list Z);
  xdr_replymsg : Z -> reply_body -> option (list Z);
  xdr_arg : Z -> Z -> Z -> list Z -> option val;
  xdr_res : Z -> Z -> Z -> val -> option (list Z)
}.

(** ** Objects *)
Record axprt := mkax { ax_reliable : bool; ax_connected : bool; ax_socksize : Z; ax_ateof : bool; ax_sent : Z; ax_sndbuf : Z }.
Record xhinfo := mkxi { xi_eof : bool; xi_nsvc : Z; xi_stab : list positive; xi_clients : bool; xi_rcb : bool; xi_max_acked : Z }.

(** [res] and [reslen] are one list of bytes; [addrlen] is the length of [addr]. *)
Record svccb (val : Type) := mksc {
  sc_msg : callmsg; sc_arg : option val; sc_srv : option positive; sc_addr : option (list Z);
  sc_resdat : bool; sc_res : option (list Z); sc_offset : Z
}.
Arguments mksc {val}.
Arguments sc_msg {val}. Arguments sc_arg {val}. Arguments sc_srv {val}. Arguments sc_addr {val}.
Arguments sc_resdat {val}. Arguments sc_res {val}. Arguments sc_offset {val}.
Inductive asrv_class := Base | Unreliable (maxrsize : Z) | Resumable | DelayedEof.
Record asrv := mkasrv {
  sv_class : asrv_class; sv_prog : Z; sv_vers : Z; sv_nproc : Z; sv_cb : bool; sv_recv_hook : bool; sv_xi : positive;
  sv_rsize : Z; sv_rq : list positive; sv_rtab : list positive;
  sv_count : Z; sv_eof : bool; sv_eofcb : bool
}.

Inductive event :=
| Sent (x : positive) (data : list Z) (dest : option (list Z))
| Serve (s : positive) (sbp : option positive)
| EofCallback (s : positive)
| RecvHook (s : positive)
| ToClients (x : positive) (msg : option (list Z)) (src : option (list Z)).

Record world (val : Type) := mkw { w_heap : gmap positive (svccb val); w_srvs : gmap positive asrv; w_axs : gmap positive axprt; w_xis : gmap positive xhinfo; w_log : list event }.
Arguments mkw {val}.
Arguments w_heap {val}. Arguments w_srvs {val}. Arguments w_axs {val}. Arguments w_xis {val}. Arguments w_log {val}.

(** A computation on the world. *)
Definition M (val A : Type) : Type := world val -> outcome (A * world val).
#[export] Instance M_ret {val} : MRet (M val) := fun A a w => Done (a, w).
#[export] Instance M_bind {val} : MBind (M val) := fun A B k m w => match m w with Done (a, w) => k a w | Panic => Panic | Wild => Wild | Spin => Spin end.

(** ** Addresses: [socket.C] (struct sockaddr of an x86 Linux system) *)
Definition AF_INET : Z := 2.
Definition sizeof_sockaddr_in : Z := 16.
Definition sa_family (a : list Z) : outcome Z := b0 ← rd a 0; b1 ← rd a 1; Done (b0 .| (b1 .<< 8)).
Definition sin_port (a : list Z) : outcome (list Z) := b2 ← rd a 2; b3 ← rd a 3; Done [b2; b3].
Definition sin_addr (a : list Z) : outcome (list Z) := b4 ← rd a 4; b5 ← rd a 5; b6 ← rd a 6; b7 ← rd a 7; Done [b4; b5; b6; b7].
Definition addreq (a b : option (list Z)) (size : Z) : outcome bool :=
  match a, b with
  | Some a, Some b =>
      fa ← sa_family a; fb ← sa_family b;
      if negb (fa =? fb) then Done false
      else if fa =? AF_INET then
        if sizeof_sockaddr_in <=? size then
          aa ← sin_addr a; ab ← sin_addr b;
          if bool_decide (aa = ab) then pa ← sin_port a; pb ← sin_port b; Done (bool_decide (pa = pb)) else Done false
        else Done false
      else Done false
  | _, _ => Wild
  end.

Section asrv.
Context {val : Type} `{!RpcXdr val}.
Implicit Types (w : world val).
Notation M := (M val).

Definition lift {A} (o : outcome A) : M A := fun w => match o with Done a => Done (a, w) | Panic => Panic | Wild => Wild | Spin => Spin end.
Definition load {A} (f : world val -> gmap positive A) (p : positive) : M A := fun w => match f w !! p with Some a => Done (a, w) | None => Wild end.
Definition get_sbp (p : positive) : M (svccb val) := load w_heap p.
Definition get_srv (p : positive) : M asrv := load w_srvs p.
Definition get_ax (p : positive) : M axprt := load w_axs p.
Definition get_xi (p : positive) : M xhinfo := load w_xis p.
Definition set_sbp (p : positive) (s : svccb val) : M unit := fun w => Done (tt, mkw (<[p := s]> (w_heap w)) (w_srvs w) (w_axs w) (w_xis w) (w_log w)).
Definition set_srv (p : positive) (s : asrv) : M unit := fun w => Done (tt, mkw (w_heap w) (<[p := s]> (w_srvs w)) (w_axs w) (w_xis w) (w_log w)).
Definition set_ax (p : positive) (x : axprt) : M unit := fun w => Done (tt, mkw (w_heap w) (w_srvs w) (<[p := x]> (w_axs w)) (w_xis w) (w_log w)).
Definition set_xi (p : positive) (x : xhinfo) : M unit := fun w => Done (tt, mkw (w_heap w) (w_srvs w) (w_axs w) (<[p := x]> (w_xis w)) (w_log w)).
Definition free_sbp (p : positive) : M unit := fun w => Done (tt, mkw (delete p (w_heap w)) (w_srvs w) (w_axs w) (w_xis w) (w_log w)).
Definition emit (e : event) : M unit := fun w => Done (tt, mkw (w_heap w) (w_srvs w) (w_axs w) (w_xis w) (w_log w ++ [e])).

(** ** [xhinfo] and the transport *)
Definition svcadd (x : positive) : M unit :=
  xi ← get_xi x; set_xi x (mkxi (xi_eof xi) (u32 (xi_nsvc xi + 1)) (xi_stab xi) (xi_clients xi) (xi_rcb xi) (xi_max_acked xi)).
Definition svcdel (x : positive) : M unit :=
  xi ← get_xi x; lift (assertM (negb (xi_nsvc xi =? 0))) ;;
  set_xi x (mkxi (xi_eof xi) (u32 (xi_nsvc xi - 1)) (xi_stab xi) (xi_clients xi) (xi_rcb xi) (xi_max_acked xi)).
Definition ateof (x : positive) : M bool := xi ← get_xi x; mret (xi_eof xi).
Definition set_stab (x : positive) (l : list positive) : M unit :=
  xi ← get_xi x; set_xi x (mkxi (xi_eof xi) (xi_nsvc xi) l (xi_clients xi) (xi_rcb xi) (xi_max_acked xi)).

(** [sendv] of streams, which count the bytes, and of datagrams. *)
Definition ax_send (x : positive) (data : list Z) (dest : option (list Z)) : M unit :=
  ax ← get_ax x;
  lift (assertM (ax_reliable ax || Bool.eqb (ax_connected ax) (bool_decide (dest = None)))) ;;
  emit (Sent x data dest) ;;
  if ax_reliable ax then set_ax x (mkax (ax_reliable ax) (ax_connected ax) (ax_socksize ax) (ax_ateof ax) (u64 (ax_sent ax + Z.of_nat (length data) + 4)) (ax_sndbuf ax)) else mret tt.

Definition xhinfo_new (x : positive) : M unit := set_xi x (mkxi false 0 [] false true 0).
Definition xhinfo_lookup (x : positive) : M (option positive) := fun w =>
  match w_xis w !! x with
  | Some xip => if xi_eof xip then Done (None, w) else Done (Some x, w)
  | None => (ax ← get_ax x; if ax_ateof ax then mret None else xhinfo_new x ;; mret (Some x)) w
  end.

(** ** Calls *)
Definition xid (s : svccb val) : Z := rm_xid (sc_msg s).
Definition prog (s : svccb val) : Z := cb_prog (sc_msg s).
Definition vers (s : svccb val) : Z := cb_vers (sc_msg s).
Definition proc (s : svccb val) : Z := cb_proc (sc_msg s).
Definition addrlen (s : svccb val) : Z := match sc_addr s with Some a => Z.of_nat (length a) | None => 0 end.

Definition svccb_new (m : callmsg) : svccb val := mksc m None None None false None 0.
(** [delete]; the arguments and results are freed with it, by routines that are looked up through [srv]. *)
Definition svccb_del (p : positive) : M unit :=
  sbp ← get_sbp p;
  match sc_srv sbp with
  | Some s => sv ← get_srv s; svcdel (sv_xi sv)
  | None => match sc_arg sbp with Some _ => lift Wild | None => if sc_resdat sbp then lift Wild else mret tt end
  end ;;
  free_sbp p.
Definition svccb_eq (s a : svccb val) : outcome bool :=
  if (xid s =? xid a) && (prog s =? prog a) && (vers s =? vers a) && (proc s =? proc a) && (addrlen s =? addrlen a) then addreq (sc_addr s) (sc_addr a) (addrlen s) else Done false.
Definition hash_value (s : svccb val) : Z := xid s .^ hash_bytes (default [] (sc_addr s)) HASHSEED.

Definition set_arg (s : svccb val) (v : option val) : svccb val := mksc (sc_msg s) v (sc_srv s) (sc_addr s) (sc_resdat s) (sc_res s) (sc_offset s).
Definition set_server (s : svccb val) (v : option positive) : svccb val := mksc (sc_msg s) (sc_arg s) v (sc_addr s) (sc_resdat s) (sc_res s) (sc_offset s).
Definition set_resdat (s : svccb val) (b : bool) : svccb val := mksc (sc_msg s) (sc_arg s) (sc_srv s) (sc_addr s) b (sc_res s) (sc_offset s).
Definition set_res (s : svccb val) (r : list Z) : svccb val := mksc (sc_msg s) (sc_arg s) (sc_srv s) (sc_addr s) (sc_resdat s) (Some r) (sc_offset s).
Definition set_offset (s : svccb val) (o : Z) : svccb val := mksc (sc_msg s) (sc_arg s) (sc_srv s) (sc_addr s) (sc_resdat s) (sc_res s) o.

Definition svccb_init (p s : positive) (src : option (list Z)) : M unit :=
  sbp ← get_sbp p; sv ← get_srv s;
  svcadd (sv_xi sv) ;;
  ax ← get_ax (sv_xi sv);
  if negb (ax_connected ax) then
    match src with
    | Some a => if ax_socksize ax <=? Z.of_nat (length a) then set_sbp p (mksc (sc_msg sbp) (sc_arg sbp) (Some s) (Some (take (Z.to_nat (ax_socksize ax)) a)) (sc_resdat sbp) (sc_res sbp) (sc_offset sbp)) else lift Wild
    | None => lift Wild
    end
  else set_sbp p (set_server sbp (Some s)).
Definition getvoidres (p : positive) : M unit := sbp ← get_sbp p; set_sbp p (set_resdat sbp true).
Definition getaui (s : svccb val) : outcome Z :=
  let '(flavor, body) := cb_cred (sc_msg s) in
  if negb (flavor =? AUTH_UINT) || negb (Z.of_nat (length body) =? 4) then Done 0 else getint body.

(** ** Answers of errors *)
Definition send_reply (x : positive) (addr : option (list Z)) (xid : Z) (b : reply_body) : M unit :=
  match xdr_replymsg xid b with Some data => ax_send x data addr | None => mret tt end.
Definition asrv_rpc_mismatch (x : positive) (addr : option (list Z)) (xid : Z) : M unit := send_reply x addr xid (Denied_mismatch RPC_MSG_VERSION RPC_MSG_VERSION).
Definition asrv_auth_reject (x : positive) (addr : option (list Z)) (xid stat : Z) : M unit :=
  lift (assertM (negb (stat =? AUTH_OK))) ;; send_reply x addr xid (Denied_auth stat).
(** The loop over the servers: [None] is [PROG_UNAVAIL], [Some] the range of versions. *)
Fixpoint version_range (l : list positive) (prog vers : Z) (acc : option (Z * Z)) : M (option (Z * Z)) :=
  match l with
  | [] => mret acc
  | a :: l =>
      sv ← get_srv a;
      if sv_cb sv && (sv_prog sv =? prog) then
        if sv_vers sv =? vers then lift Panic
        else
          let '(low, high) := default (0xffffffff, 0) acc in
          version_range l prog vers (Some (if sv_vers sv <? low then sv_vers sv else low, if high <? sv_vers sv then sv_vers sv else high))
      else version_range l prog vers acc
  end.
Definition asrv_accepterr (x : positive) (addr : option (list Z)) (stat : accept_stat) (m : callmsg) : M unit :=
  match stat with
  | PROG_UNAVAIL | PROG_MISMATCH =>
      xi ← get_xi x;
      r ← version_range (xi_stab xi) (cb_prog m) (cb_vers m) None;
      send_reply x addr (rm_xid m) (match r with None => Accepted_error PROG_UNAVAIL | Some (low, high) => Accepted_mismatch low high end)
  | PROC_UNAVAIL | GARBAGE_ARGS | SYSTEM_ERR => send_reply x addr (rm_xid m) (Accepted_error stat)
  | SUCCESS => lift Panic
  end.

(** ** [asrv] *)
Definition set_cb (sv : asrv) (b : bool) : asrv := mkasrv (sv_class sv) (sv_prog sv) (sv_vers sv) (sv_nproc sv) b (sv_recv_hook sv) (sv_xi sv) (sv_rsize sv) (sv_rq sv) (sv_rtab sv) (sv_count sv) (sv_eof sv) (sv_eofcb sv).
Definition set_transport (sv : asrv) (x : positive) : asrv := mkasrv (sv_class sv) (sv_prog sv) (sv_vers sv) (sv_nproc sv) (sv_cb sv) (sv_recv_hook sv) x (sv_rsize sv) (sv_rq sv) (sv_rtab sv) (sv_count sv) (sv_eof sv) (sv_eofcb sv).
Definition set_queue (sv : asrv) (rsize : Z) (rq rtab : list positive) : asrv := mkasrv (sv_class sv) (sv_prog sv) (sv_vers sv) (sv_nproc sv) (sv_cb sv) (sv_recv_hook sv) (sv_xi sv) rsize rq rtab (sv_count sv) (sv_eof sv) (sv_eofcb sv).
Definition set_delayed (sv : asrv) (count : Z) (eof eofcb : bool) : asrv := mkasrv (sv_class sv) (sv_prog sv) (sv_vers sv) (sv_nproc sv) (sv_cb sv) (sv_recv_hook sv) (sv_xi sv) (sv_rsize sv) (sv_rq sv) (sv_rtab sv) count eof eofcb.

Fixpoint stab_lookup (l : list positive) (prog vers : Z) : M (option positive) :=
  match l with
  | [] => mret None
  | a :: l => sv ← get_srv a; if (sv_prog sv =? prog) && (sv_vers sv =? vers) then mret (Some a) else stab_lookup l prog vers
  end.
Definition asrv_start (s : positive) : M unit :=
  sv ← get_srv s; xi ← get_xi (sv_xi sv);
  o ← stab_lookup (xi_stab xi) (sv_prog sv) (sv_vers sv);
  match o with Some _ => lift Panic | None => set_stab (sv_xi sv) (s :: xi_stab xi) end.
Definition asrv_stop (s : positive) : M unit :=
  sv ← get_srv s; xi ← get_xi (sv_xi sv);
  o ← stab_lookup (xi_stab xi) (sv_prog sv) (sv_vers sv);
  if bool_decide (o = Some s) then set_stab (sv_xi sv) (filter (fun a => a <> s) (xi_stab xi)) else mret tt.
Definition asrv_new (s x : positive) (c : asrv_class) (prog vers nproc : Z) (cb : bool) : M unit :=
  set_srv s (mkasrv c prog vers nproc cb false x 0 [] [] 0 false false) ;; asrv_start s.
Definition asrv_alloc (s x : positive) (prog vers nproc : Z) (cb : bool) : M bool :=
  o ← xhinfo_lookup x;
  match o with
  | None => mret false
  | Some x => ax ← get_ax x; asrv_new s x (if ax_reliable ax then Base else Unreliable 16) prog vers nproc cb ;; mret true
  end.
Definition resumable_alloc (s x : positive) (prog vers nproc : Z) (cb : bool) : M bool :=
  o ← xhinfo_lookup x;
  match o with
  | None => mret false
  | Some x => ax ← get_ax x; lift (assertM (ax_reliable ax)) ;; asrv_new s x Resumable prog vers nproc cb ;; mret true
  end.
Definition delayed_eof_alloc (s x : positive) (prog vers nproc : Z) (eofcb : bool) : M bool :=
  o ← xhinfo_lookup x;
  match o with
  | None => mret false
  | Some x =>
      ax ← get_ax x;
      if negb (ax_reliable ax) then mret false
      else asrv_new s x DelayedEof prog vers nproc true ;; sv ← get_srv s; set_srv s (set_delayed sv 0 false eofcb) ;; mret true
  end.

(** *** Virtual functions *)
Definition delayed_dispatch (s : positive) (sbp : option positive) : M unit :=
  sv ← get_srv s;
  match sbp with
  | None =>
      let c := sv_eofcb sv in
      set_srv s (set_delayed sv (sv_count sv) true false) ;;
      if sv_count sv =? 0 then emit (Serve s None) else if c then emit (EofCallback s) else mret tt
  | Some _ => emit (Serve s sbp)
  end.
Definition dec_svccb_count (s : positive) : M unit :=
  sv ← get_srv s;
  match sv_class sv with
  | DelayedEof =>
      lift (assertM (0 <=? sv_count sv - 1)) ;;
      set_srv s (set_delayed sv (sv_count sv - 1) (sv_eof sv) (sv_eofcb sv)) ;;
      if (sv_count sv - 1 =? 0) && sv_eof sv then emit (Serve s None) else mret tt
  | _ => mret tt
  end.
Definition inc_svccb_count (s : positive) : M unit :=
  sv ← get_srv s;
  match sv_class sv with DelayedEof => set_srv s (set_delayed sv (sv_count sv + 1) (sv_eof sv) (sv_eofcb sv)) | _ => mret tt end.
(** The call of [s->cb] *)
Definition call_cb (s : positive) (sbp : option positive) : M unit :=
  sv ← get_srv s;
  match sv_class sv with DelayedEof => delayed_dispatch s sbp | _ => emit (Serve s sbp) end.
Definition set_recv_hook (s : positive) (cb : bool) : M unit :=
  sv ← get_srv s; set_srv s (mkasrv (sv_class sv) (sv_prog sv) (sv_vers sv) (sv_nproc sv) (sv_cb sv) cb (sv_xi sv) (sv_rsize sv) (sv_rq sv) (sv_rtab sv) (sv_count sv) (sv_eof sv) (sv_eofcb sv)).
Definition setcb (s : positive) (c : bool) : M unit :=
  sv ← get_srv s; set_srv s (set_cb sv c) ;;
  e ← ateof (sv_xi sv); if c && e then call_cb s None else mret tt.
Fixpoint seteof_loop (l : list positive) : M unit :=
  match l with [] => mret tt | s :: l => sv ← get_srv s; (if sv_cb sv then call_cb s None else mret tt) ;; seteof_loop l end.
Definition asrv_seteof (x : positive) (src : option (list Z)) (force : bool) : M unit :=
  ax ← get_ax x; if force || ax_connected ax then xi ← get_xi x; seteof_loop (xi_stab xi) else mret tt.

(** [asrv::sendreply]; [x] is the coded answer. *)
Definition base_sendreply (s p : positive) (x : option (list Z)) : M unit :=
  dec_svccb_count s ;;
  sv ← get_srv s; sbp ← get_sbp p; e ← ateof (sv_xi sv);
  (if negb e then match x with Some data => ax_send (sv_xi sv) data (sc_addr sbp) | None => mret tt end else mret tt) ;;
  (if sc_resdat sbp then match x with Some _ => mret tt | None => lift Wild end else mret tt) ;;
  svccb_del p.
Definition delayed_sendreply (s p : positive) (x : option (list Z)) : M unit :=
  sv ← get_srv s; if sv_eof sv then dec_svccb_count s else base_sendreply s p x.

(** *** [asrv_replay] *)
(** The first element that [equals] finds equal, of those with the same hash value *)
Fixpoint rtab_find (l : list positive) (k : svccb val) : M (option positive) :=
  match l with
  | [] => mret None
  | p :: l =>
      a ← get_sbp p;
      if hash_value k =? hash_value a then b ← lift (svccb_eq k a); if b : bool then mret (Some p) else rtab_find l k
      else rtab_find l k
  end.
Definition rtab_remove (s p : positive) : M unit :=
  sv ← get_srv s; if bool_decide (p ∈ sv_rtab sv) then set_srv s (set_queue sv (sv_rsize sv) (sv_rq sv) (filter (fun a => a <> p) (sv_rtab sv))) else lift Wild.
Definition rq_remove (s p : positive) : M unit :=
  sv ← get_srv s; if bool_decide (p ∈ sv_rq sv) then set_srv s (set_queue sv (sv_rsize sv) (filter (fun a => a <> p) (sv_rq sv)) (sv_rtab sv)) else lift Wild.
Definition rq_insert_tail (s p : positive) : M unit := sv ← get_srv s; set_srv s (set_queue sv (sv_rsize sv) (sv_rq sv ++ [p]) (sv_rtab sv)).
Definition add_rsize (s : positive) (d : Z) : M unit := sv ← get_srv s; set_srv s (set_queue sv (u32 (sv_rsize sv + d)) (sv_rq sv) (sv_rtab sv)).

Definition replay_lookup (s p : positive) : M (option positive) :=
  sv ← get_srv s; sbp ← get_sbp p;
  o ← rtab_find (sv_rtab sv) sbp;
  match o with Some _ => mret o | None => set_srv s (set_queue sv (sv_rsize sv) (sv_rq sv) (p :: sv_rtab sv)) ;; mret None end.
Definition delsbp (s p : positive) : M unit := rtab_remove s p ;; rq_remove s p ;; svccb_del p.
Fixpoint delsbp_all (s : positive) (l : list positive) : M unit := match l with [] => mret tt | p :: l => delsbp s p ;; delsbp_all s l end.
(** The destructor *)
Definition asrv_del (s : positive) : M unit :=
  sv ← get_srv s;
  match sv_class sv with Unreliable _ | Resumable => delsbp_all s (sv_rtab sv) | _ => mret tt end ;;
  asrv_stop s.
Definition replay_sendreply (s p : positive) (x : option (list Z)) (nocache : bool) : M unit :=
  match x with
  | None => rtab_remove s p ;; svccb_del p
  | Some data =>
      sv ← get_srv s; sbp ← get_sbp p;
      set_sbp p (set_res (set_arg sbp None) data) ;;
      e ← ateof (sv_xi sv);
      (if negb e then ax_send (sv_xi sv) data (sc_addr sbp) else mret tt) ;;
      sbp ← get_sbp p;
      set_sbp p (set_resdat sbp false) ;;
      if nocache then rtab_remove s p ;; svccb_del p else mret tt
  end.

(** *** [asrv_unreliable] *)
Definition resend (s p : positive) (data : list Z) : M unit := sv ← get_srv s; o ← get_sbp p; ax_send (sv_xi sv) data (sc_addr o).
Definition unreliable_isreplay (s p : positive) : M bool :=
  o ← replay_lookup s p;
  match o with
  | None => mret false
  | Some osbp => a ← get_sbp osbp; match sc_res a with Some data => resend s osbp data | None => mret tt end ;; mret true
  end.
Fixpoint evict (fuel : nat) (s : positive) (maxrsize : Z) : M unit :=
  sv ← get_srv s;
  if maxrsize <? sv_rsize sv then
    match fuel, sv_rq sv with
    | O, _ => lift Spin
    | S _, [] => lift Wild
    | S fuel, p :: _ => delsbp s p ;; add_rsize s (-1) ;; evict fuel s maxrsize
    end
  else mret tt.
Definition unreliable_sendreply (s p : positive) (maxrsize : Z) (x : option (list Z)) (nocache : bool) : M unit :=
  replay_sendreply s p x nocache ;;
  match x with
  | None => mret tt
  | Some _ =>
      if nocache then mret tt
      else
        sbp ← get_sbp p; set_sbp p (set_server sbp None) ;;
        add_rsize s 1 ;; rq_insert_tail s p ;;
        sv ← get_srv s; evict (S (length (sv_rq sv))) s maxrsize
  end.

(** *** [asrv_resumable] *)
(** Answers at the head of the queue that satisfy [f] are dropped. *)
Fixpoint drop_while (fuel : nat) (f : Z -> bool) (s : positive) : M unit :=
  sv ← get_srv s;
  match sv_rq sv with
  | [] => mret tt
  | p :: _ =>
      sbp ← get_sbp p;
      if f (sc_offset sbp) then match fuel with O => lift Spin | S fuel => delsbp s p ;; drop_while fuel f s end else mret tt
  end.
Definition resumable_isreplay (s p : positive) : M bool :=
  o ← replay_lookup s p;
  match o with
  | None => sv ← get_srv s; drop_while (length (sv_rq sv)) (fun o => o =? 0) s ;; mret false
  | Some osbp =>
      a ← get_sbp osbp;
      match sc_res a with
      | Some data =>
          resend s osbp data ;;
          sv ← get_srv s; ax ← get_ax (sv_xi sv); a ← get_sbp osbp;
          set_sbp osbp (set_offset a (ax_sent ax)) ;; rq_remove s osbp ;; rq_insert_tail s osbp
      | None => mret tt
      end ;; mret true
  end.
Definition known_received (ax : axprt) (xi : xhinfo) : Z :=
  Z.max (if 0 <? ax_sndbuf ax then if ax_sndbuf ax <? ax_sent ax then ax_sent ax - ax_sndbuf ax else 0 else 0) (xi_max_acked xi).
Definition resumable_sendreply (s p : positive) (x : option (list Z)) (nocache : bool) : M unit :=
  lift (assertM (negb (bool_decide (is_Some x) && nocache))) ;;
  replay_sendreply s p x nocache ;;
  match x with
  | None => mret tt
  | Some _ =>
      sv ← get_srv s; ax ← get_ax (sv_xi sv); sbp ← get_sbp p;
      set_sbp p (set_server (set_offset sbp (ax_sent ax)) None) ;;
      rq_insert_tail s p ;;
      ax ← get_ax (sv_xi sv); xi ← get_xi (sv_xi sv); sv ← get_srv s;
      let known := known_received ax xi in
      drop_while (length (sv_rq sv)) (fun o => negb (o =? 0) && (o <? known)) s
  end.
Fixpoint resume_loop (l : list positive) (x : positive) : M unit :=
  match l with [] => mret tt | p :: l => sbp ← get_sbp p; set_sbp p (set_offset sbp 0) ;; svcadd x ;; resume_loop l x end.
Definition resumable_resume (s newx : positive) : M bool :=
  ax ← get_ax newx; lift (assertM (ax_reliable ax)) ;;
  o ← xhinfo_lookup newx;
  match o with
  | None => mret false
  | Some x =>
      asrv_stop s ;;
      sv ← get_srv s; set_srv s (set_transport sv x) ;;
      asrv_start s ;;
      sv ← get_srv s; resume_loop (sv_rtab sv) x ;; mret true
  end.

(** *** The functions of a call *)
Definition isreplay (s p : positive) : M bool :=
  sv ← get_srv s;
  match sv_class sv with Unreliable _ => unreliable_isreplay s p | Resumable => resumable_isreplay s p | Base | DelayedEof => mret false end.
Definition sendreply (s p : positive) (x : option (list Z)) (nocache : bool) : M unit :=
  sv ← get_srv s;
  match sv_class sv with
  | Unreliable maxrsize => unreliable_sendreply s p maxrsize x nocache
  | Resumable => resumable_sendreply s p x nocache
  | DelayedEof => delayed_sendreply s p x
  | Base => base_sendreply s p x
  end.
Definition server_of (s : svccb val) : M positive := match sc_srv s with Some p => mret p | None => lift Wild end.
Definition svccb_reply (p : positive) (res : val) (xdr : option (val -> option (list Z))) (nocache : bool) : M unit :=
  sbp ← get_sbp p; s ← server_of sbp; sv ← get_srv s;
  let coded := default (xdr_res (sv_prog sv) (sv_vers sv) (proc sbp)) xdr res in
  match data ← coded; xdr_replymsg (xid sbp) (Accepted_success data) with
  | None => svccb_del p
  | Some x => sendreply s p (Some x) nocache
  end.
Definition reject_auth (p : positive) (stat : Z) : M unit :=
  sbp ← get_sbp p; s ← server_of sbp; sv ← get_srv s; e ← ateof (sv_xi sv);
  (if negb e then asrv_auth_reject (sv_xi sv) (sc_addr sbp) (xid sbp) stat else mret tt) ;;
  sendreply s p None true.
Definition reject_accept (p : positive) (stat : accept_stat) : M unit :=
  sbp ← get_sbp p; s ← server_of sbp; sv ← get_srv s; e ← ateof (sv_xi sv);
  (if negb e then asrv_accepterr (sv_xi sv) (sc_addr sbp) stat (sc_msg sbp) else mret tt) ;;
  sendreply s p None true.
Definition svccb_ignore (p : positive) : M unit := sbp ← get_sbp p; s ← server_of sbp; sendreply s p None true.

(** ** Packets *)
Definition alloc_sbp (m : callmsg) : M positive := fun w => let p := fresh (dom (w_heap w)) in Done (p, mkw (<[p := svccb_new m]> (w_heap w)) (w_srvs w) (w_axs w) (w_xis w) (w_log w)).
(** [asrv::dispatch] from the lookup of the server on; [auto_ptr] frees the call when the function returns early. *)
Definition serve_call (x s p : positive) (src : option (list Z)) (m : callmsg) (args : list Z) : M unit :=
  sv ← get_srv s;
  (if sv_recv_hook sv then emit (RecvHook s) else mret tt) ;;
  svccb_init p s src ;;
  if negb (cb_proc m <? sv_nproc sv) then asrv_accepterr x src PROC_UNAVAIL m ;; svccb_del p
  else
    r ← isreplay s p;
    if r : bool then svccb_del p
    else
      match xdr_arg (sv_prog sv) (sv_vers sv) (cb_proc m) args with
      | None => asrv_accepterr x src GARBAGE_ARGS m ;; inc_svccb_count s ;; sendreply s p None true
      | Some a => sbp ← get_sbp p; set_sbp p (set_arg sbp (Some a)) ;; inc_svccb_count s ;; call_cb s (Some p)
      end.
Definition asrv_dispatch (x : positive) (msg : option (list Z)) (len : Z) (src : option (list Z)) : M unit :=
  match msg with
  | None => asrv_seteof x src (len <? 0)
  | Some bytes =>
      if len <? 8 then asrv_seteof x src (len <? 0)
      else
        dir ← lift (getint (drop 4 bytes));
        if negb (dir =? CALL) then asrv_seteof x src (len <? 0)
        else
          match xdr_callmsg bytes with
          | None => asrv_seteof x src false
          | Some (m, args) =>
              if negb (cb_rpcvers m =? RPC_MSG_VERSION) then asrv_rpc_mismatch x src (rm_xid m)
              else
                p ← alloc_sbp m;
                xi ← get_xi x;
                o ← stab_lookup (xi_stab xi) (cb_prog m) (cb_vers m);
                match o with
                | None => asrv_accepterr x src PROG_UNAVAIL m ;; svccb_del p
                | Some s => sv ← get_srv s; if negb (sv_cb sv) then asrv_accepterr x src PROG_UNAVAIL m ;; svccb_del p else serve_call x s p src m args
                end
          end
  end.
Definition xhinfo_seteof (x : positive) (src : option (list Z)) : M unit :=
  ax ← get_ax x;
  if ax_connected ax then
    xi ← get_xi x; set_xi x (mkxi true (xi_nsvc xi) (xi_stab xi) (xi_clients xi) false (xi_max_acked xi)) ;;
    (if xi_clients xi then emit (ToClients x None src) else mret tt) ;;
    match xi_stab xi with [] => mret tt | _ => asrv_dispatch x None 0 src end
  else mret tt.
(** The packet is [bytes], of length [len]; [len] is negative at the end of a connection. *)
Definition xhinfo_dispatch (x : positive) (bytes : list Z) (len : Z) (src : option (list Z)) : M unit :=
  if len <? 8 then xhinfo_seteof x src
  else if negb (len .& 3 =? 0) then xhinfo_seteof x src
  else
    dir ← lift (getint (drop 4 bytes));
    xi ← get_xi x;
    if dir =? CALL then match xi_stab xi with [] => xhinfo_seteof x src | _ => asrv_dispatch x (Some bytes) len src end
    else if dir =? REPLY then if xi_clients xi then emit (ToClients x (Some bytes) src) else xhinfo_seteof x src
    else xhinfo_seteof x src.
Definition xhinfo_xon (x : positive) (receive : bool) : M unit :=
  o ← xhinfo_lookup x; lift (assertM (bool_decide (is_Some o))) ;;
  xi ← get_xi x;
  if negb receive then set_xi x (mkxi (xi_eof xi) (xi_nsvc xi) (xi_stab xi) (xi_clients xi) false (xi_max_acked xi))
  else if negb (xi_eof xi) then set_xi x (mkxi (xi_eof xi) (xi_nsvc xi) (xi_stab xi) (xi_clients xi) true (xi_max_acked xi)) else mret tt.
End asrv.
