(* ===== verification/AsrvProps.v ===== *)
(** * The cache of replies: theorems on [Asrv.v]

    [cache] is what a server on datagrams promises: the calls in the hands of the
    program, and the last answers in order.  [asrv_refines_cache] shows that
    [asrv_unreliable] keeps that promise for any sequence of packets and answers. *)
From Stdlib Require Import ZArith Lia.
From stdpp Require Import prelude gmap.
From S2P Require Import Prelude Serial Links Ihash Asrv.

(** ** RPC messages of RFC 5531 with arguments and results that are bytes *)
Definition word_at (l : list Z) (i : nat) : option Z := match getint (drop (4 * i) l) with Done v => Some v | _ => None end.
Definition skip_auth (l : list Z) : option (Z * list Z * list Z) :=
  f ← word_at l 0; n ← word_at l 1; let n := Z.to_nat n in
  if (n <=? 400)%nat && (n + 8 <=? length l)%nat then Some (f, take n (drop 8 l), drop (n + 8) l) else None.
#[export] Instance bytes_rpc : RpcXdr (list Z) := {|
  xdr_callmsg l :=
    i ← word_at l 0; d ← word_at l 1; r ← word_at l 2; p ← word_at l 3; v ← word_at l 4; c ← word_at l 5;
    cred ← skip_auth (drop 24 l); verf ← skip_auth cred.2;
    if d =? CALL then Some (mkcall i r p v c cred.1, verf.2) else None;
  xdr_replymsg i b :=
    Some (putint i ++ putint REPLY ++
      match b with
      | Accepted_success res => putint 0 ++ putint 0 ++ putint 0 ++ putint 0 ++ res
      | Accepted_mismatch low high => putint 0 ++ putint 0 ++ putint 0 ++ putint 2 ++ putint low ++ putint high
      | Accepted_error st => putint 0 ++ putint 0 ++ putint 0 ++ putint (match st with SUCCESS => 0 | PROG_UNAVAIL => 1 | PROG_MISMATCH => 2 | PROC_UNAVAIL => 3 | GARBAGE_ARGS => 4 | SYSTEM_ERR => 5 end)
      | Denied_mismatch low high => putint 1 ++ putint 0 ++ putint low ++ putint high
      | Denied_auth why => putint 1 ++ putint 1 ++ putint why
      end);
  xdr_arg _ _ proc l := if Z.of_nat (length l) =? 4 * proc then Some l else None;
  xdr_res _ _ _ v := if Z.of_nat (length v) .& 3 =? 0 then Some v else None
|}.

(** ** The promise *)
(** A call is known by its transaction number, its procedure and its sender. *)
Definition key : Type := Z * Z * list Z.
Record cache := mkcache { entries : gmap positive (key * option (list Z)); order : list positive }.
Definition cached_call (c : cache) (k : key) : option (positive * (key * option (list Z))) := list_find (fun e => e.2.1 = k) (map_to_list (entries c)) ≫= fun r => Some r.2.

Inductive op (val : Type) :=
| Packet (bytes src : list Z)
| Getres (p : positive)
| Answer (p : positive) (res : val) (xdr : option (val -> option (list Z))) (nocache : bool)
| RejectAuth (p : positive) (why : Z)
| RejectAccept (p : positive) (stat : accept_stat)
| Ignore (p : positive).
Arguments Packet {val}. Arguments Getres {val}. Arguments Answer {val}. Arguments RejectAuth {val}. Arguments RejectAccept {val}. Arguments Ignore {val}.

(** An Internet address as the system writes it *)
Definition inet (a : list Z) : Prop := exists port ip, a = [2; 0] ++ port ++ ip ++ replicate 8 0 /\ length port = 2%nat /\ length ip = 4%nat.

Section spec.
Context {val : Type} `{!RpcXdr val}.
Variables (x s : positive) (P V nproc : Z) (hook clients : bool) (maxr : nat).

Definition answer_error (src : list Z) (i : Z) (b : reply_body) : list event := match xdr_replymsg i b with Some d => [Sent x d (Some src)] | None => [] end.
Definition hook_events : list event := if hook then [RecvHook s] else [].
(** The server [s] is called with a handle that no other call has. *)
Definition cache_call (c : cache) (m : callmsg) (args src : list Z) : list event * cache :=
  if nproc <=? cb_proc m then (answer_error src (rm_xid m) (Accepted_error PROC_UNAVAIL), c)
  else
    match cached_call c (rm_xid m, cb_proc m, src) with
    | Some (_, (_, Some d)) => ([Sent x d (Some src)], c)
    | Some (_, (_, None)) => ([], c)
    | None =>
        match xdr_arg P V (cb_proc m) args with
        | None => (answer_error src (rm_xid m) (Accepted_error GARBAGE_ARGS), c)
        | Some _ => let p := fresh (dom (entries c)) in ([Serve s (Some p)], mkcache (<[p := (rm_xid m, cb_proc m, src, None)]> (entries c)) (order c))
        end
    end.
Definition cache_packet (c : cache) (bytes src : list Z) : list event * cache :=
  let len := Z.of_nat (length bytes) in
  if (len <? 8) || negb (len .& 3 =? 0) then ([], c)
  else
    match getint (drop 4 bytes) with
    | Done dir =>
        if dir =? CALL then
          match xdr_callmsg bytes with
          | None => ([], c)
          | Some (m, args) =>
              if negb (cb_rpcvers m =? 2) then (answer_error src (rm_xid m) (Denied_mismatch 2 2), c)
              else if negb (cb_prog m =? P) then (answer_error src (rm_xid m) (Accepted_error PROG_UNAVAIL), c)
              else if negb (cb_vers m =? V) then (answer_error src (rm_xid m) (Accepted_mismatch V V), c)
              else let '(es, c) := cache_call c m args src in (hook_events ++ es, c)
          end
        else if (dir =? REPLY) && clients then ([ToClients x (Some bytes) (Some src)], c) else ([], c)
    | _ => ([], c)
    end.
Definition drop_entry (c : cache) (p : positive) : cache := mkcache (delete p (entries c)) (order c).
(** The oldest answers over [maxr] are forgotten. *)
Definition keep_newest (c : cache) : cache :=
  let n := (length (order c) - maxr)%nat in
  mkcache (foldr delete (entries c) (take n (order c))) (drop n (order c)).
Definition in_hand (c : cache) (p : positive) : option key := e ← entries c !! p; match e.2 with None => Some e.1 | Some _ => None end.
(** [None] if the program may not do this: the handle is not in its hands, or the answer cannot be coded. *)
Definition cache_op (c : cache) (o : op val) : option (list event * cache) :=
  match o with
  | Packet bytes src => Some (cache_packet c bytes src)
  | Getres p => _ ← in_hand c p; Some ([], c)
  | Answer p res xdr nocache =>
      k ← in_hand c p;
      coded ← default (xdr_res P V k.1.2) xdr res;
      d ← xdr_replymsg k.1.1 (Accepted_success coded);
      Some ([Sent x d (Some k.2)], if nocache : bool then drop_entry c p else keep_newest (mkcache (<[p := (k, Some d)]> (entries c)) (order c ++ [p])))
  | RejectAuth p why => k ← in_hand c p; if why =? AUTH_OK then None else Some (answer_error k.2 k.1.1 (Denied_auth why), drop_entry c p)
  | RejectAccept p stat => k ← in_hand c p; match stat with SUCCESS | PROG_UNAVAIL | PROG_MISMATCH => None | _ => Some (answer_error k.2 k.1.1 (Accepted_error stat), drop_entry c p) end
  | Ignore p => _ ← in_hand c p; Some ([], drop_entry c p)
  end.
Fixpoint cache_run (c : cache) (ops : list (op val)) : option (list event * cache) :=
  match ops with
  | [] => Some ([], c)
  | o :: ops => r ← cache_op c o; r' ← cache_run r.2 ops; Some (r.1 ++ r'.1, r'.2)
  end.

(** The same on the program *)
Definition do_op (o : op val) : M val unit :=
  match o with
  | Packet bytes src => xhinfo_dispatch x bytes (Z.of_nat (length bytes)) (Some src)
  | Getres p => getvoidres p
  | Answer p res xdr nocache => svccb_reply p res xdr nocache
  | RejectAuth p why => reject_auth p why
  | RejectAccept p stat => reject_accept p stat
  | Ignore p => svccb_ignore p
  end.
Fixpoint do_ops (ops : list (op val)) : M val unit := match ops with [] => mret tt | o :: ops => do_op o ;; do_ops ops end.
End spec.

(** ** Addresses and keys *)
Lemma inet_length a : inet a -> length a = 16%nat.
Proof. intros (port & ip & -> & H1 & H2). rewrite !length_app, length_replicate, H1, H2. done. Qed.
Lemma inet_fields p0 p1 i0 i1 i2 i3 l : let a := 2 :: 0 :: p0 :: p1 :: i0 :: i1 :: i2 :: i3 :: l in sa_family a = Done 2 /\ sin_port a = Done [p0; p1] /\ sin_addr a = Done [i0; i1; i2; i3].
Proof. done. Qed.
Lemma addreq_inet a b : inet a -> inet b -> addreq (Some a) (Some b) 16 = Done (bool_decide (a = b)).
Proof.
  intros (port & ip & -> & H1 & H2) (port' & ip' & -> & H1' & H2').
  destruct port as [|p0 [|p1 [|]]]; try done. destruct port' as [|p0' [|p1' [|]]]; try done.
  destruct ip as [|i0 [|i1 [|i2 [|i3 [|]]]]]; try done. destruct ip' as [|i0' [|i1' [|i2' [|i3' [|]]]]]; try done.
  unfold addreq. cbn [app]. destruct (inet_fields p0 p1 i0 i1 i2 i3 (replicate 8 0)) as (-> & -> & ->). destruct (inet_fields p0' p1' i0' i1' i2' i3' (replicate 8 0)) as (-> & -> & ->).
  cbn [mbind outcome_bind]. change (2 =? 2) with true. change (2 =? AF_INET) with true. change (sizeof_sockaddr_in <=? 16) with true. cbn [negb].
  case_bool_decide as Hi; [|rewrite bool_decide_eq_false_2; [done|]; intros E; apply Hi; by injection E as -> -> -> -> -> ->].
  injection Hi as -> -> -> ->. f_equal. apply bool_decide_ext. split; [by intros [= -> ->]|by intros [= -> ->]].
Qed.

(** One evaluates the operations on the world and looks the objects up. *)
Ltac mstep := cbv beta iota zeta delta [mbind M_bind mret M_ret get_sbp get_srv get_ax get_xi load lift set_sbp set_srv set_ax set_xi emit free_sbp ateof set_stab]; cbn [w_heap w_srvs w_axs w_xis w_log].
Ltac mrun := repeat (mstep; first [rewrite lookup_insert_eq | rewrite lookup_insert_ne by done | match goal with H : _ !! ?p = Some _ |- context [_ !! ?p] => rewrite H end]); mstep.

Lemma in_hand_Some c p k : in_hand c p = Some k <-> entries c !! p = Some (k, None).
Proof. unfold in_hand. destruct (entries c !! p) as [[k' [d|]]|]; cbn; naive_solver. Qed.
Section proofs.
Context {val : Type} `{!RpcXdr val}.
Variables (x s : positive) (P V nproc : Z) (hook clients : bool) (maxr : nat).
Hypothesis HV : 0 <= V < 2 ^ 32.
Hypothesis Hmax : Z.of_nat maxr < 2 ^ 32 - 1.
Implicit Types (c : cache) (w : world val).
Notation cache_op := (cache_op x s P V nproc hook clients maxr).
Notation cache_run := (cache_run x s P V nproc hook clients maxr).
Notation do_op := (do_op x).
Notation keep_newest := (keep_newest maxr).

(** ** The relation *)
Definition sbp_of (k : key) (r : option (list Z)) (sbp : svccb val) : Prop :=
  xid sbp = k.1.1 /\ prog sbp = P /\ vers sbp = V /\ proc sbp = k.1.2 /\ sc_addr sbp = Some k.2 /\ sc_res sbp = r /\ match r with None => sc_srv sbp = Some s | Some _ => sc_srv sbp = None /\ sc_arg sbp = None /\ sc_resdat sbp = false end.
Definition pending c : nat := size (filter (fun e : positive * (key * option (list Z)) => e.2.2 = None) (entries c)).
Record wf c : Prop := {
  wf_order : NoDup (order c);
  wf_answered p : p ∈ order c <-> exists k d, entries c !! p = Some (k, Some d);
  wf_keys p q k r r' : entries c !! p = Some (k, r) -> entries c !! q = Some (k, r') -> p = q;
  wf_inet p k r : entries c !! p = Some (k, r) -> inet k.2
}.
Definition srv_of c (rt : list positive) (cnt : Z) (e ec : bool) : asrv := mkasrv (Unreliable (Z.of_nat maxr)) P V nproc true hook x (Z.of_nat (length (order c))) (order c) rt cnt e ec.
Record R c (n : Z) w : Prop := {
  R_wf : wf c;
  R_srv : exists rt cnt e ec, w_srvs w !! s = Some (srv_of c rt cnt e ec) /\ NoDup rt /\ forall p, p ∈ rt <-> is_Some (entries c !! p);
  R_ax : exists e sent buf, w_axs w !! x = Some (mkax false false 16 e sent buf);
  R_xi : exists nsvc rcb acked, w_xis w !! x = Some (mkxi false nsvc [s] clients rcb acked) /\ Z.of_nat (pending c) <= nsvc <= n;
  R_heap p k r : entries c !! p = Some (k, r) -> exists sbp, w_heap w !! p = Some sbp /\ sbp_of k r sbp;
  R_free p : entries c !! p = None -> w_heap w !! p = None
}.

Lemma R_dom c n w : R c n w -> dom (w_heap w) = dom (entries c).
Proof.
  intros HR. apply set_eq. intros p. rewrite !elem_of_dom. split; intros [a Ha].
  - destruct (entries c !! p) eqn:E; [done|]. rewrite (R_free _ _ _ HR _ E) in Ha. done.
  - destruct a as [k r]. destruct (R_heap _ _ _ HR _ _ _ Ha) as (sbp & -> & _). done.
Qed.
Lemma cached_call_spec c k p r : wf c -> cached_call c k = Some (p, r) <-> entries c !! p = Some r /\ r.1 = k.
Proof.
  intros W. unfold cached_call. split.
  - intros H. apply bind_Some in H as ([i e] & H & E). cbn in E. injection E as ->. apply list_find_Some in H as (H & Hk & _). apply list_elem_of_lookup_2, elem_of_map_to_list in H. done.
  - intros [H Hk]. destruct r as [k' r]. cbn in Hk. subst k'. apply elem_of_map_to_list in H as H'.
    destruct (list_find_elem_of (fun e : positive * (key * option (list Z)) => e.2.1 = k) _ _ H' eq_refl) as [[i [q [k' r']]] E]. rewrite E. cbn.
    apply list_find_Some in E as (E & Hk & _). cbn in Hk. subst k'. apply list_elem_of_lookup_2, elem_of_map_to_list in E.
    assert (q = p) as -> by (by eapply wf_keys). rewrite H in E. by injection E as ->.
Qed.
Lemma cached_call_None c k p r : cached_call c k = None -> entries c !! p = Some r -> r.1 <> k.
Proof.
  intros H Hp Hk. apply elem_of_map_to_list in Hp. unfold cached_call in H.
  destruct (list_find_elem_of (fun e : positive * (key * option (list Z)) => e.2.1 = k) _ _ Hp Hk) as [y E]. rewrite E in H. done.
Qed.

(** ** Looking a call up *)
Lemma svccb_eq_spec (a b : svccb val) k r k' r' : sbp_of k r a -> sbp_of k' r' b -> inet k.2 -> inet k'.2 -> svccb_eq a b = Done (bool_decide (k = k')).
Proof.
  intros (Ax & Ap & Av & Ac & Aa & _) (Bx & Bp & Bv & Bc & Ba & _) Hi Hi'. unfold svccb_eq, addrlen. rewrite Ax, Ap, Av, Ac, Aa, Bx, Bp, Bv, Bc, Ba, !Z.eqb_refl, !inet_length by done. cbn [andb].
  rewrite !andb_true_r. destruct k as [[kx kc] ka], k' as [[kx' kc'] ka']. cbn [fst snd] in *.
  destruct (Z.eqb_spec kx kx') as [->|]; cbn [andb]; [|rewrite bool_decide_eq_false_2; [done|congruence]].
  destruct (Z.eqb_spec kc kc') as [->|]; cbn [andb]; [|rewrite bool_decide_eq_false_2; [done|congruence]].
  change (Z.of_nat 16) with 16. rewrite addreq_inet by done. f_equal. apply bool_decide_ext. naive_solver.
Qed.
Lemma hash_value_eq (a b : svccb val) k r r' : sbp_of k r a -> sbp_of k r' b -> hash_value a = hash_value b.
Proof. intros (Ax & _ & _ & _ & Aa & _) (Bx & _ & _ & _ & Ba & _). unfold hash_value. by rewrite Ax, Aa, Bx, Ba. Qed.
Lemma rtab_find_spec c w a k r0 : wf c -> (forall p k r, entries c !! p = Some (k, r) -> exists sbp, w_heap w !! p = Some sbp /\ sbp_of k r sbp) -> sbp_of k r0 a -> inet k.2 -> forall l, (forall p, p ∈ l -> is_Some (entries c !! p)) ->
  exists o, rtab_find l a w = Done (o, w) /\ match o with Some p => p ∈ l /\ exists r, entries c !! p = Some (k, r) | None => forall p r, p ∈ l -> entries c !! p <> Some (k, r) end.
Proof.
  intros W HR Ha Hk. induction l as [|p l IH]; intros Hl; cbn [rtab_find].
  { exists None. split; [done|]. by intros ?? ?%elem_of_nil. }
  destruct (Hl p ltac:(by left)) as [[k' r] Hp]. destruct (HR _ _ _ Hp) as (b & Eb & Hb).
  destruct IH as (o & Eo & Ho). { intros q Hq. apply Hl. by right. }
  mstep. rewrite Eb.
  assert (Hrec : k' <> k -> exists o, rtab_find l a w = Done (o, w) /\ match o with Some q => q ∈ p :: l /\ exists r, entries c !! q = Some (k, r) | None => forall q r, q ∈ p :: l -> entries c !! q <> Some (k, r) end).
  { intros Hne. exists o. split; [done|]. destruct o as [q|]; [split; [right|]; naive_solver|]. intros q r' [->|Hq]%elem_of_cons; [congruence|by apply Ho]. }
  destruct (Z.eqb_spec (hash_value a) (hash_value b)) as [|Hne].
  - unfold lift. rewrite (svccb_eq_spec a b k r0 k' r) by (done || by eapply wf_inet, Hp). case_bool_decide as E.
    + subst k'. exists (Some p). split; [done|]. split; [by left|by eexists].
    + apply Hrec. congruence.
  - apply Hrec. intros ->. apply Hne. by eapply hash_value_eq.
Qed.

(** ** The number of calls in hand *)
Lemma pending_new c p k : entries c !! p = None -> pending (mkcache (<[p := (k, None)]> (entries c)) (order c)) = S (pending c).
Proof. intros H. unfold pending. cbn [entries]. rewrite map_filter_insert_True by done. apply map_size_insert_None. rewrite map_lookup_filter_None. by left. Qed.
Lemma pending_in_hand c p k : entries c !! p = Some (k, None) -> filter (fun e : positive * (key * option (list Z)) => e.2.2 = None) (entries c) !! p = Some (k, None).
Proof. intros H. by apply map_lookup_filter_Some. Qed.
Lemma pending_drop c p k : entries c !! p = Some (k, None) -> pending c = S (pending (drop_entry c p)).
Proof.
  intros H. unfold pending. cbn [entries drop_entry]. rewrite map_filter_delete. apply pending_in_hand in H as Hf.
  rewrite <- (insert_delete_id _ p (k, None) Hf) at 1. apply map_size_insert_None, lookup_delete_eq.
Qed.
Lemma pending_answer c p k d o : entries c !! p = Some (k, None) -> pending c = S (pending (mkcache (<[p := (k, Some d)]> (entries c)) o)).
Proof. intros H. rewrite (pending_drop c p k) by done. f_equal. unfold pending. cbn [entries drop_entry]. rewrite map_filter_insert_False by done. done. Qed.
Lemma pending_forget c p k d o : entries c !! p = Some (k, Some d) -> pending (mkcache (delete p (entries c)) o) = pending c.
Proof. intros H. unfold pending. cbn [entries]. rewrite map_filter_delete, delete_id; [done|]. rewrite map_lookup_filter_None. right. intros e He. rewrite H in He. by injection He as <-. Qed.

(** ** Worlds *)
Definition addlog w (es : list event) : world val := mkw (w_heap w) (w_srvs w) (w_axs w) (w_xis w) (w_log w ++ es).
Definition upd w p sbp : world val := mkw (<[p := sbp]> (w_heap w)) (w_srvs w) (w_axs w) (w_xis w) (w_log w).
Lemma bind_run {A B} (m : M val A) (k : A -> M val B) w a w' : m w = Done (a, w') -> (m ≫= k) w = k a w'.
Proof. intros E. mstep. by rewrite E. Qed.
Lemma bind_assoc {A B C} (m : M val A) (k : A -> M val B) (h : B -> M val C) w : ((m ≫= k) ≫= h) w = (m ≫= (fun a => k a ≫= h)) w.
Proof. mstep. by destruct (m w) as [[]| | |]. Qed.
Lemma addlog_nil w : addlog w [] = w.
Proof. destruct w. unfold addlog. cbn. by rewrite app_nil_r. Qed.
Lemma addlog_app w a b : addlog (addlog w a) b = addlog w (a ++ b).
Proof. unfold addlog. cbn. by rewrite app_assoc. Qed.
Lemma R_addlog c n w es : R c n w -> R c n (addlog w es).
Proof. intros []. by constructor. Qed.
Lemma R_mono c n n' w : R c n w -> n <= n' -> R c n' w.
Proof. intros [W HS HA (nsvc & rcb & acked & HX & Hn) HH HF] Hle. constructor; try done. exists nsvc, rcb, acked. split; [done|lia]. Qed.
Lemma R_upd c n w p k r sbp : R c n w -> entries c !! p = Some (k, r) -> sbp_of k r sbp -> R c n (upd w p sbp).
Proof.
  intros [W HS HA HX HH HF] Hp Hs. constructor; try done.
  - intros q k' r' Hq. cbn. destruct (decide (p = q)) as [->|Hne]; [rewrite lookup_insert_eq; naive_solver|rewrite lookup_insert_ne by done; by apply HH].
  - intros q Hq. cbn. rewrite lookup_insert_ne by congruence. by apply HF.
Qed.
Definition ax_ok w : Prop := exists e sent buf, w_axs w !! x = Some (mkax false false 16 e sent buf).
Lemma ax_send_ok w d src : ax_ok w -> ax_send x d (Some src) w = Done (tt, addlog w [Sent x d (Some src)]).
Proof. intros (e & sent & buf & HA). unfold ax_send. mrun. cbn [ax_reliable ax_connected orb]. rewrite bool_decide_eq_false_2 by done. done. Qed.
Lemma send_reply_ok w src i b : ax_ok w -> send_reply x (Some src) i b w = Done (tt, addlog w (answer_error x src i b)).
Proof. intros HA. unfold send_reply, answer_error. destruct (xdr_replymsg i b); [by apply ax_send_ok|]. by rewrite addlog_nil. Qed.
Lemma send_reply_spec c n w src i b : R c n w -> send_reply x (Some src) i b w = Done (tt, addlog w (answer_error x src i b)).
Proof. intros HR. apply send_reply_ok, HR. Qed.

(** ** Leaving the cache *)
Lemma wf_forget c p o : wf c -> NoDup o -> (forall q, q ∈ o <-> q ∈ order c /\ q <> p) -> wf (mkcache (delete p (entries c)) o).
Proof.
  intros [Wo Wa Wk Wi] Ho Hq. constructor; cbn [entries order]; [done| | |].
  - intros q. rewrite Hq, Wa. setoid_rewrite lookup_delete_Some. naive_solver.
  - intros q q' k r r' [_ H]%lookup_delete_Some [_ H']%lookup_delete_Some. by eapply Wk.
  - intros q k r [_ H]%lookup_delete_Some. by eapply Wi.
Qed.
Lemma rtab_forget (rt : list positive) (m : gmap positive (key * option (list Z))) p : NoDup rt -> (forall q, q ∈ rt <-> is_Some (m !! q)) ->
  NoDup (filter (fun a => a <> p) rt) /\ forall q, q ∈ filter (fun a => a <> p) rt <-> is_Some (delete p m !! q).
Proof. intros H1 H2. split; [by apply NoDup_filter|]. intros q. rewrite list_elem_of_filter, H2, lookup_delete_is_Some. naive_solver. Qed.
Lemma filter_out (l : list positive) p : p ∉ l -> filter (fun a => a <> p) l = l.
Proof. induction l as [|q l IH]; [done|]. intros [Hq Hl]%not_elem_of_cons. rewrite filter_cons_True by done. by rewrite IH. Qed.
Lemma evict_one c n w p rest : R c n w -> order c = p :: rest -> Z.of_nat (length (order c)) < 2 ^ 32 ->
  exists w', (delsbp s p ;; add_rsize s (-1)) w = Done (tt, w') /\ R (mkcache (delete p (entries c)) rest) n w' /\ w_log w' = w_log w.
Proof.
  intros HR Ho Hlen. assert (W := R_wf _ _ _ HR). destruct (proj1 (wf_answered _ W p)) as (k & d & Hp); [rewrite Ho; by left|].
  destruct HR as [_ (rt & cnt & e & ec & HS & Hnd & Hrt) HA (nsvc & rcb & acked & HX & Hn) HH HF]. destruct (HH _ _ _ Hp) as (sbp & Hb & Hsbp).
  assert (Hin : p ∈ rt) by (rewrite Hrt, Hp; done). assert (Hdo := wf_order _ W). rewrite Ho in Hdo. apply NoDup_cons in Hdo as [Hnr Hdr].
  unfold delsbp, rtab_remove, rq_remove, add_rsize, svccb_del. mrun. unfold srv_of. cbn [sv_rtab]. rewrite bool_decide_eq_true_2 by done. mrun.
  cbn [sv_rq set_queue]. rewrite (bool_decide_eq_true_2 (p ∈ order c)) by (rewrite Ho; by left). mrun.
  destruct (proj2 (proj2 (proj2 (proj2 (proj2 (proj2 Hsbp)))))) as (-> & -> & ->). mrun. eexists. split; [reflexivity|]. cbn [w_log]. split; [|done].
  constructor; cbn [w_heap w_srvs w_axs w_xis entries order]; try done.
  - apply wf_forget; [done..|]. intros q. rewrite Ho, elem_of_cons. split; [intros Hq; split; [by right|by intros ->]|naive_solver].
  - exists (filter (fun a => a <> p) rt), cnt, e, ec. rewrite lookup_insert_eq. split; [|by apply rtab_forget]. f_equal. unfold srv_of, set_queue. cbn [sv_rsize sv_rq sv_rtab sv_class sv_prog sv_vers sv_nproc sv_cb sv_recv_hook sv_xi sv_count sv_eof sv_eofcb order]. f_equal.
    + rewrite Ho in *. cbn [length] in *. rewrite u32_small; lia.
    + rewrite Ho. rewrite filter_cons_False by (by intros []). by rewrite filter_out.
  - exists nsvc, rcb, acked. split; [done|]. by rewrite (pending_forget c p k d).
  - intros q k' r [Hne Hq]%lookup_delete_Some. rewrite lookup_delete_ne by done. by apply HH.
  - intros q Hq. destruct (decide (p = q)) as [->|Hne]; [apply lookup_delete_eq|]. rewrite lookup_delete_ne in Hq by done. rewrite lookup_delete_ne by done. by apply HF.
Qed.
Lemma evict_spec c n w : R c n w -> (length (order c) <= S maxr)%nat ->
  exists w', evict (S (length (order c))) s (Z.of_nat maxr) w = Done (tt, w') /\ R (keep_newest c) n w' /\ w_log w' = w_log w /\ (length (order (keep_newest c)) <= maxr)%nat.
Proof.
  intros HR Hlen. assert (HS := R_srv _ _ _ HR). destruct HS as (rt & cnt & e & ec & HS & _). unfold AsrvProps.keep_newest.
  cbn [evict]. rewrite (bind_run _ _ w (srv_of c rt cnt e ec) w) by (by mrun). cbn [srv_of sv_rsize sv_rq]. destruct (Z.ltb_spec (Z.of_nat maxr) (Z.of_nat (length (order c)))) as [Hl|Hl].
  - destruct (order c) as [|p rest] eqn:Ho; [cbn in Hl; lia|]. cbn [length] in *. replace (S (length rest) - maxr)%nat with 1%nat by lia. cbn [take drop foldr].
    rewrite <- bind_assoc. destruct (evict_one c n w p rest HR Ho) as (w' & E & HR' & Hlog); [rewrite Ho; cbn [length]; lia|].
    rewrite (bind_run _ _ w tt w' E). exists w'. rewrite drop_0. split; [|cbn [order]; split; [done|split; [done|lia]]].
    destruct (R_srv _ _ _ HR') as (rt' & cnt' & e' & ec' & HS' & _). cbn [evict]. rewrite (bind_run _ _ w' (srv_of (mkcache (delete p (entries c)) rest) rt' cnt' e' ec') w') by (by mrun). cbn [srv_of sv_rsize order].
    destruct (Z.ltb_spec (Z.of_nat maxr) (Z.of_nat (length rest))); [lia|done].
  - replace (length (order c) - maxr)%nat with 0%nat by lia. exists w. rewrite drop_0. cbn [take foldr order]. destruct c as [en od]. cbn [entries order] in *. split; [done|]. split; [done|]. split; [done|lia].
Qed.
(** An answer that is not kept *)
Lemma drop_spec c n w p k sbp : R c n w -> in_hand c p = Some k -> n < 2 ^ 32 -> sc_srv sbp = Some s ->
  exists w', (rtab_remove s p ;; svccb_del p) (upd w p sbp) = Done (tt, w') /\ R (drop_entry c p) n w' /\ w_log w' = w_log w.
Proof.
  intros HR Hk Hn32 Hs. apply in_hand_Some in Hk as Hp. assert (W := R_wf _ _ _ HR).
  destruct HR as [_ (rt & cnt & e & ec & HS & Hnd & Hrt) HA (nsvc & rcb & acked & HX & Hn) HH HF].
  assert (Hin : p ∈ rt) by (rewrite Hrt, Hp; done). assert (Hpend := pending_drop c p k Hp).
  unfold rtab_remove, svccb_del, upd, svcdel. mrun. unfold srv_of. cbn [sv_rtab]. rewrite bool_decide_eq_true_2 by done. mrun. rewrite Hs. mrun. cbn [sv_xi set_queue]. mrun. cbn [xi_nsvc].
  destruct (Z.eqb_spec nsvc 0); [lia|]. cbn [negb assertM]. mrun. eexists. split; [reflexivity|]. cbn [w_log]. split; [|done].
  constructor; cbn [w_heap w_srvs w_axs w_xis]; try done.
  - apply wf_forget; [done|by apply W|]. intros q. split; [|naive_solver]. intros Hq. split; [done|]. intros ->. apply (wf_answered _ W) in Hq as (? & ? & Hq). congruence.
  - exists (filter (fun a => a <> p) rt), cnt, e, ec. rewrite lookup_insert_eq. split; [done|]. by apply rtab_forget.
  - exists (u32 (nsvc - 1)), rcb, acked. rewrite lookup_insert_eq. split; [done|]. rewrite u32_small by lia. lia.
  - intros q k' r; cbn [entries drop_entry]; intros [Hne Hq]%lookup_delete_Some. rewrite lookup_delete_ne, lookup_insert_ne by done. by apply HH.
  - intros q Hq. destruct (decide (p = q)) as [->|Hne]; [apply lookup_delete_eq|]. cbn in Hq. rewrite lookup_delete_ne in Hq by done. rewrite lookup_delete_ne, lookup_insert_ne by done. by apply HF.
Qed.

(** ** Answers *)
Lemma upd_id w p sbp : w_heap w !! p = Some sbp -> upd w p sbp = w.
Proof. destruct w. unfold upd. cbn. intros H. by rewrite insert_id. Qed.
Lemma hand_sbp c n w p k : R c n w -> in_hand c p = Some k -> exists sbp rt cnt e ec, w_heap w !! p = Some sbp /\ sbp_of k None sbp /\ w_srvs w !! s = Some (srv_of c rt cnt e ec) /\ entries c !! p = Some (k, None).
Proof.
  intros HR Hk. apply in_hand_Some in Hk. destruct (R_heap _ _ _ HR _ _ _ Hk) as (sbp & Hb & Hs). destruct (R_srv _ _ _ HR) as (rt & cnt & e & ec & HS & _). by exists sbp, rt, cnt, e, ec.
Qed.
Lemma sendreply_none c n w p k : R c n w -> in_hand c p = Some k -> n < 2 ^ 32 ->
  exists w', sendreply s p None true w = Done (tt, w') /\ R (drop_entry c p) n w' /\ w_log w' = w_log w.
Proof.
  intros HR Hk Hn. destruct (hand_sbp _ _ _ _ _ HR Hk) as (sbp & rt & cnt & e & ec & Hb & Hs & HS & Hp).
  destruct (drop_spec c n w p k sbp HR Hk Hn ltac:(apply Hs)) as (w' & E & HR' & Hlog). rewrite upd_id in E by done. exists w'. split; [|done].
  unfold sendreply. rewrite (bind_run _ _ w (srv_of c rt cnt e ec) w) by (by mrun). cbn [srv_of sv_class]. unfold unreliable_sendreply, replay_sendreply. by rewrite (bind_run _ _ w tt w').
Qed.
Lemma drop_length c p : length (order (drop_entry c p)) = length (order c).
Proof. done. Qed.
Lemma wf_answer c p k d : wf c -> entries c !! p = Some (k, None) -> wf (mkcache (<[p := (k, Some d)]> (entries c)) (order c ++ [p])).
Proof.
  intros W Hp. assert (Hno : p ∉ order c) by (intros Hq; apply (wf_answered _ W) in Hq as (? & ? & ?); congruence). destruct W as [Wo Wa Wk Wi].
  assert (Hex : forall q k' r, <[p := (k, Some d)]> (entries c) !! q = Some (k', r) -> exists r', entries c !! q = Some (k', r')).
  { intros q k' r [[<- [= <- <-]]|[_ H]]%lookup_insert_Some; by eexists. }
  constructor; cbn [entries order].
  - apply NoDup_app. split; [done|]. split; [|apply NoDup_singleton]. by intros q Hq ->%list_elem_of_singleton.
  - intros q. rewrite elem_of_app, list_elem_of_singleton, Wa. setoid_rewrite lookup_insert_Some. split.
    + intros [(k' & d' & Hq)| ->]; [|naive_solver]. exists k', d'. right. split; [congruence|done].
    + intros (k' & d' & [[-> _]|[_ Hq]]); naive_solver.
  - intros q q' k' r r' [r1 H1]%Hex [r2 H2]%Hex. by eapply Wk.
  - intros q k' r [r1 H1]%Hex. by eapply Wi.
Qed.
(** An answer is coded and sent; then it is kept. *)
Lemma replay_spec c n w p k d : R c n w -> in_hand c p = Some k -> exists sbp', replay_sendreply s p (Some d) false w = Done (tt, addlog (upd w p sbp') [Sent x d (Some k.2)]) /\ sbp_of k (Some d) (set_server sbp' None) /\ sc_srv sbp' = Some s.
Proof.
  intros HR Hk. destruct (hand_sbp _ _ _ _ _ HR Hk) as (sbp & rt & cnt & e & ec & Hb & Hs & HS & Hp). destruct (R_xi _ _ _ HR) as (nsvc & rcb & acked & HX & _). destruct (R_ax _ _ _ HR) as (ae & sent & buf & HA).
  unfold replay_sendreply. mrun. cbn [srv_of sv_xi]. mrun. cbn [xi_eof negb]. unfold ax_send. mrun. cbn [ax_reliable ax_connected orb].
  rewrite (proj1 (proj2 (proj2 (proj2 (proj2 Hs))))). rewrite bool_decide_eq_false_2 by done. cbn [Bool.eqb assertM]. mrun. eexists. split; [unfold addlog, upd; cbn; by rewrite insert_insert_eq|].
  destruct Hs as (A1 & A2 & A3 & A4 & A5 & A6 & A7). done.
Qed.
Lemma keep_spec c n w p k d sbp : R c n w -> in_hand c p = Some k -> (length (order c) <= maxr)%nat -> sbp_of k (Some d) (set_server sbp None) ->
  exists w', (sbp ← get_sbp p; set_sbp p (set_server sbp None) ;; add_rsize s 1 ;; rq_insert_tail s p ;; sv ← get_srv s; evict (S (length (sv_rq sv))) s (Z.of_nat maxr)) (upd w p sbp) = Done (tt, w')
    /\ R (keep_newest (mkcache (<[p := (k, Some d)]> (entries c)) (order c ++ [p]))) n w' /\ w_log w' = w_log w
    /\ (length (order (keep_newest (mkcache (<[p := (k, Some d)]> (entries c)) (order c ++ [p])))) <= maxr)%nat.
Proof.
  intros HR Hk Hlen Hs. apply in_hand_Some in Hk as Hp. set (c' := mkcache (<[p := (k, Some d)]> (entries c)) (order c ++ [p])). assert (W := R_wf _ _ _ HR). assert (Hpend := pending_answer c p k d (order c ++ [p]) Hp).
  destruct HR as [_ (rt & cnt & e & ec & HS & Hnd & Hrt) HA (nsvc & rcb & acked & HX & Hn) HH HF].
  set (w1 := mkw (<[p := set_server sbp None]> (w_heap w)) (<[s := srv_of c' rt cnt e ec]> (w_srvs w)) (w_axs w) (w_xis w) (w_log w)).
  assert (HR1 : R c' n w1).
  { constructor; cbn [w1 w_heap w_srvs w_axs w_xis]; try done.
    - by apply wf_answer.
    - exists rt, cnt, e, ec. rewrite lookup_insert_eq. split; [done|]. split; [done|]. intros q. rewrite Hrt. cbn [c' entries]. rewrite lookup_insert_is_Some. destruct (decide (p = q)) as [<-|]; [|naive_solver]. rewrite Hp. naive_solver.
    - exists nsvc, rcb, acked. split; [done|]. subst c'. lia.
    - intros q k' r. cbn [c' entries]. intros [[<- [= <- <-]]|[Hne Hq]]%lookup_insert_Some; [rewrite lookup_insert_eq; by eexists|]. rewrite lookup_insert_ne by done. by apply HH.
    - intros q. cbn [c' entries]. intros [Hq Hne]%lookup_insert_None. rewrite lookup_insert_ne by done. by apply HF. }
  destruct (evict_spec c' n w1 HR1) as (w' & E & HR' & Hlog & Hl); [cbn [c' order]; rewrite length_app; cbn [length]; lia|].
  exists w'. split; [|split; [done|]; split; [done|done]]. rewrite <- E. unfold add_rsize, rq_insert_tail, upd. mrun. unfold srv_of, set_queue. cbn [sv_rsize sv_rq sv_rtab sv_class sv_prog sv_vers sv_nproc sv_cb sv_recv_hook sv_xi sv_count sv_eof sv_eofcb].
  rewrite !insert_insert_eq. subst w1. replace (u32 (Z.of_nat (length (order c)) + 1)) with (Z.of_nat (length (order c ++ [p]))) by (rewrite length_app, u32_small; cbn [length]; lia). done.
Qed.

Lemma answer_spec c n w p res xdr nocache es c' : R c n w -> n < 2 ^ 32 -> (length (order c) <= maxr)%nat -> cache_op c (Answer p res xdr nocache) = Some (es, c') ->
  exists w', svccb_reply p res xdr nocache w = Done (tt, w') /\ R c' n w' /\ w_log w' = w_log w ++ es /\ (length (order c') <= maxr)%nat.
Proof.
  intros HR Hn Hlen E. cbn [AsrvProps.cache_op] in E. destruct (in_hand c p) as [k|] eqn:Hk; [|done]. cbn [mbind option_bind] in E.
  destruct (hand_sbp _ _ _ _ _ HR Hk) as (sbp & rt & cnt & e & ec & Hb & Hs & HS & Hp). destruct (default (xdr_res P V k.1.2) xdr res) as [coded|] eqn:Hco; [|done]. cbn [mbind option_bind] in E.
  destruct (xdr_replymsg k.1.1 (Accepted_success coded)) as [d|] eqn:Hd; [|done]. injection E as <- <-.
  destruct (replay_spec c n w p k d HR Hk) as (sbp' & E & Hs' & Hss). destruct Hs as (A1 & A2 & A3 & A4 & A5 & A6 & A7).
  unfold svccb_reply, server_of. mrun. rewrite A7. mrun. cbn [srv_of sv_prog sv_vers]. rewrite A4, Hco. cbn [mbind option_bind]. rewrite A1, Hd. unfold sendreply. mrun. cbn [srv_of sv_class]. unfold unreliable_sendreply.
  assert (HRl : R c n (addlog w [Sent x d (Some k.2)])) by by apply R_addlog.
  destruct nocache.
  - (* the call goes *)
    destruct (drop_spec c n _ p k (set_resdat (set_res (set_arg sbp None) d) false) HRl Hk Hn A7) as (w' & E' & HR' & Hlog). exists w'. split; [|split; [done|]; split; [done|by rewrite drop_length]].
    assert (E2 : replay_sendreply s p (Some d) true w = Done (tt, w')).
    { rewrite <- E'. destruct (R_xi _ _ _ HR) as (nsvc & rcb & acked & HX & _). destruct (R_ax _ _ _ HR) as (ae & sent & buf & HA). unfold replay_sendreply. mrun. cbn [srv_of sv_xi]. mrun. cbn [xi_eof negb]. unfold ax_send. mrun. cbn [ax_reliable ax_connected orb].
      rewrite A5. rewrite bool_decide_eq_false_2 by done. cbn [Bool.eqb assertM]. mrun. unfold upd, addlog. cbn [w_heap w_srvs w_axs w_xis w_log]. by rewrite insert_insert_eq. }
    mstep. by rewrite E2.
  - destruct (keep_spec c n _ p k d sbp' HRl Hk Hlen Hs') as (w' & E' & HR' & Hlog & Hl). exists w'. split; [|split; [done|]; split; [done|done]].
    rewrite (bind_run _ _ w tt (addlog (upd w p sbp') [Sent x d (Some k.2)])) by done. exact E'.
Qed.
Lemma reject_spec c n w p k (m : M val unit) es : R c n w -> n < 2 ^ 32 -> in_hand c p = Some k -> (forall sbp, sbp_of k None sbp -> m w = Done (tt, addlog w es)) ->
  exists w', (m ;; sendreply s p None true) w = Done (tt, w') /\ R (drop_entry c p) n w' /\ w_log w' = w_log w ++ es.
Proof.
  intros HR Hn Hk Hm. destruct (hand_sbp _ _ _ _ _ HR Hk) as (sbp & rt & cnt & e & ec & Hb & Hs & HS & Hp).
  destruct (sendreply_none c n (addlog w es) p k) as (w' & E & HR' & Hlog); [by apply R_addlog|done..|]. exists w'. split; [|done]. by rewrite (bind_run _ _ w tt (addlog w es)) by (by eapply Hm).
Qed.
Lemma user_spec c n w o es c' : R c n w -> n < 2 ^ 32 -> (length (order c) <= maxr)%nat -> (forall b src, o <> Packet b src) -> cache_op c o = Some (es, c') ->
  exists w', do_op o w = Done (tt, w') /\ R c' n w' /\ w_log w' = w_log w ++ es /\ (length (order c') <= maxr)%nat.
Proof.
  intros HR Hn Hlen Ho E. destruct o as [b src|p|p res xdr nocache|p why|p stat|p]; [by destruct (Ho b src)|..]; cbn [AsrvProps.do_op].
  - cbn [AsrvProps.cache_op] in E. destruct (in_hand c p) as [k|] eqn:Hk; [|done]. injection E as <- <-. destruct (hand_sbp _ _ _ _ _ HR Hk) as (sbp & rt & cnt & e & ec & Hb & Hs & HS & Hp).
    exists (upd w p (set_resdat sbp true)). rewrite app_nil_r. unfold getvoidres. mrun. split; [done|]. split; [by eapply R_upd|done].
  - by eapply answer_spec.
  - cbn [AsrvProps.cache_op] in E. destruct (in_hand c p) as [k|] eqn:Hk; [|done]. cbn [mbind option_bind] in E. destruct (Z.eqb_spec why AUTH_OK) as [|Hne]; [done|]. injection E as <- <-.
    destruct (hand_sbp _ _ _ _ _ HR Hk) as (sbp & rt & cnt & e & ec & Hb & Hs & HS & Hp). destruct (R_xi _ _ _ HR) as (nsvc & rcb & acked & HX & _).
    destruct (reject_spec c n w p k (asrv_auth_reject x (Some k.2) k.1.1 why) (answer_error x k.2 k.1.1 (Denied_auth why)) HR Hn Hk) as (w' & E & HR' & Hlog).
    { intros _ _. unfold asrv_auth_reject. destruct (Z.eqb_spec why AUTH_OK); [done|]. cbn [negb assertM]. mstep. by eapply send_reply_spec. }
    exists w'. split; [|done]. rewrite <- E. destruct Hs as (A1 & A2 & A3 & A4 & A5 & A6 & A7). unfold reject_auth, server_of. mrun. rewrite A7. mrun. cbn [srv_of sv_xi]. mrun. cbn [xi_eof negb]. by rewrite A5, A1.
  - cbn [AsrvProps.cache_op] in E. destruct (in_hand c p) as [k|] eqn:Hk; [|done]. cbn [mbind option_bind] in E. assert (Hst : (stat = PROC_UNAVAIL \/ stat = GARBAGE_ARGS \/ stat = SYSTEM_ERR) /\ es = answer_error x k.2 k.1.1 (Accepted_error stat) /\ c' = drop_entry c p) by (destruct stat; naive_solver). clear E. destruct Hst as (Hst & -> & ->).
    destruct (hand_sbp _ _ _ _ _ HR Hk) as (sbp & rt & cnt & e & ec & Hb & Hs & HS & Hp). destruct (R_xi _ _ _ HR) as (nsvc & rcb & acked & HX & _). destruct Hs as (A1 & A2 & A3 & A4 & A5 & A6 & A7).
    destruct (reject_spec c n w p k (asrv_accepterr x (Some k.2) stat (sc_msg sbp)) (answer_error x k.2 k.1.1 (Accepted_error stat)) HR Hn Hk) as (w' & E & HR' & Hlog).
    { intros _ _. unfold asrv_accepterr. change (rm_xid (sc_msg sbp)) with (xid sbp). rewrite A1. destruct Hst as [->|[->| ->]]; by eapply send_reply_spec. }
    exists w'. split; [|done]. rewrite <- E. unfold reject_accept, server_of. mrun. rewrite A7. mrun. cbn [srv_of sv_xi]. mrun. cbn [xi_eof negb]. by rewrite A5.
  - cbn [AsrvProps.cache_op] in E. destruct (in_hand c p) as [k|] eqn:Hk; [|done]. injection E as <- <-. destruct (sendreply_none c n w p k HR Hk Hn) as (w' & E & HR' & Hlog). exists w'. rewrite app_nil_r. split; [|done].
    rewrite <- E. destruct (hand_sbp _ _ _ _ _ HR Hk) as (sbp & rt & cnt & e & ec & Hb & Hs & HS & Hp). unfold svccb_ignore, server_of. mrun. rewrite (proj2 (proj2 (proj2 (proj2 (proj2 (proj2 Hs)))))). by mrun.
Qed.

(** ** Packets *)
Definition new_sbp (m : callmsg) (src : list Z) : svccb val := mksc m None (Some s) (Some src) false None 0.
(** The world while a call is looked at *)
Definition during w p (sbp : svccb val) (nsvc : Z) (rcb : bool) (acked : Z) (es : list event) : world val :=
  mkw (<[p := sbp]> (w_heap w)) (w_srvs w) (w_axs w) (<[x := mkxi false (nsvc + 1) [s] clients rcb acked]> (w_xis w)) (w_log w ++ es).
Lemma during_del c w p m src nsvc rcb acked es rt cnt e ec : w_heap w !! p = None -> w_srvs w !! s = Some (srv_of c rt cnt e ec) -> w_xis w !! x = Some (mkxi false nsvc [s] clients rcb acked) -> 0 <= nsvc -> nsvc + 1 < 2 ^ 32 ->
  svccb_del p (during w p (new_sbp m src) nsvc rcb acked es) = Done (tt, addlog w es).
Proof.
  intros HH HS HX H0 Hn. unfold svccb_del, during, svcdel. mrun. cbn [new_sbp sc_srv]. mrun. cbn [srv_of sv_xi]. mrun. cbn [xi_nsvc]. destruct (Z.eqb_spec (nsvc + 1) 0); [lia|]. cbn [negb assertM]. mrun.
  cbn [xi_eof xi_stab xi_clients xi_rcb xi_max_acked]. rewrite u32_small by lia. replace (nsvc + 1 - 1) with nsvc by lia. rewrite delete_insert_id, insert_insert_eq, insert_id by done. done.
Qed.
Lemma during_addlog w p sbp nsvc rcb acked es es' : addlog (during w p sbp nsvc rcb acked es) es' = during w p sbp nsvc rcb acked (es ++ es').
Proof. unfold addlog, during. cbn. by rewrite app_assoc. Qed.
Lemma during_ax w p sbp nsvc rcb acked es : ax_ok w -> ax_ok (during w p sbp nsvc rcb acked es).
Proof. done. Qed.
Lemma serve_start c w p m src args nsvc rcb acked rt cnt e ec : inet src -> w_srvs w !! s = Some (srv_of c rt cnt e ec) -> w_xis w !! x = Some (mkxi false nsvc [s] clients rcb acked) -> ax_ok w -> 0 <= nsvc -> nsvc + 1 < 2 ^ 32 ->
  serve_call x s p (Some src) m args (upd w p (svccb_new m)) =
  (if negb (cb_proc m <? nproc) then asrv_accepterr x (Some src) PROC_UNAVAIL m ;; svccb_del p
   else r ← isreplay s p;
     if r : bool then svccb_del p
     else match xdr_arg P V (cb_proc m) args with
      | None => asrv_accepterr x (Some src) GARBAGE_ARGS m ;; inc_svccb_count s ;; sendreply s p None true
      | Some a => sbp ← get_sbp p; set_sbp p (set_arg sbp (Some a)) ;; inc_svccb_count s ;; call_cb s (Some p)
      end) (during w p (new_sbp m src) nsvc rcb acked (hook_events s hook)).
Proof.
  intros Hi HS HX (ae & sent & buf & HA) H0 Hn. unfold serve_call. rewrite (bind_run _ _ _ (srv_of c rt cnt e ec) (upd w p (svccb_new m))) by (by unfold upd; mrun). cbn [srv_of sv_recv_hook sv_nproc sv_prog sv_vers].
  rewrite (bind_run _ _ _ tt (addlog (upd w p (svccb_new m)) (hook_events s hook))) by (unfold hook_events; destruct hook; [done|by rewrite addlog_nil]).
  rewrite (bind_run _ _ _ tt (during w p (new_sbp m src) nsvc rcb acked (hook_events s hook))); [done|].
  unfold svccb_init, svcadd, upd, addlog, during. mrun. cbn [srv_of sv_xi]. mrun. cbn [ax_connected negb ax_socksize]. rewrite inet_length by done. change (16 <=? Z.of_nat 16) with true. mrun.
  rewrite insert_insert_eq. cbn [xi_eof xi_nsvc xi_stab xi_clients xi_rcb xi_max_acked svccb_new sc_msg sc_arg sc_resdat sc_res sc_offset]. rewrite u32_small by lia. change (Z.to_nat 16) with 16%nat. rewrite take_ge by (rewrite inet_length; done). done.
Qed.

Lemma fresh_handle c n w : R c n w -> let p := fresh (dom (entries c)) in entries c !! p = None /\ w_heap w !! p = None.
Proof. intros HR p. assert (H : entries c !! p = None) by (apply not_elem_of_dom, is_fresh). split; [done|by eapply R_free]. Qed.
Lemma new_sbp_of m src : cb_prog m = P -> cb_vers m = V -> sbp_of (rm_xid m, cb_proc m, src) None (new_sbp m src).
Proof. done. Qed.
(** A new call enters the table. *)
Lemma enter_spec c n w p m src nsvc rcb acked rt cnt e ec es a : R c n w -> entries c !! p = None -> w_heap w !! p = None -> inet src -> cb_prog m = P -> cb_vers m = V -> cached_call c (rm_xid m, cb_proc m, src) = None ->
  w_srvs w !! s = Some (srv_of c rt cnt e ec) -> NoDup rt -> (forall q, q ∈ rt <-> is_Some (entries c !! q)) -> Z.of_nat (pending c) <= nsvc <= n ->
  R (mkcache (<[p := (rm_xid m, cb_proc m, src, None)]> (entries c)) (order c)) (n + 1)
    (mkw (<[p := set_arg (new_sbp m src) a]> (w_heap w)) (<[s := srv_of c (p :: rt) cnt e ec]> (w_srvs w)) (w_axs w) (<[x := mkxi false (nsvc + 1) [s] clients rcb acked]> (w_xis w)) (w_log w ++ es)).
Proof.
  intros HR Hp Hh Hi HP HV' Hf HS Hnd Hrt Hn. assert (Hpn := pending_new c p (rm_xid m, cb_proc m, src) Hp). destruct HR as [[Wo Wa Wk Wi] _ HA _ HH HF]. constructor; cbn [w_heap w_srvs w_axs w_xis]; try done.
  - constructor; cbn [entries order]; [done| | |].
    + intros q. rewrite Wa. setoid_rewrite lookup_insert_Some. split; [intros (k & d & Hq); exists k, d; right; split; [congruence|done]|]. intros (k & d & [[_ Hq]|[_ Hq]]); [done|by exists k, d].
    + assert (Hno : forall q (k : key) (r r' : option (list Z)), entries c !! q = Some (k, r) -> (rm_xid m, cb_proc m, src, None) = (k, r') -> False).
      { intros q k r r' Hq E. apply (cached_call_None c (rm_xid m, cb_proc m, src) q (k, r) Hf Hq). by injection E as <-. }
      intros q q' k r r' [[<- H1]|[_ H1]]%lookup_insert_Some [[<- H2]|[_ H2]]%lookup_insert_Some; [done|by destruct (Hno _ _ _ _ H2 H1)|by destruct (Hno _ _ _ _ H1 H2)|by eapply Wk].
    + intros q k r [[_ H1]|[_ H1]]%lookup_insert_Some; [by injection H1 as <- _|by eapply Wi].
  - exists (p :: rt), cnt, e, ec. rewrite lookup_insert_eq. split; [done|]. split; [constructor; [rewrite Hrt, Hp; by intros []|done]|]. intros q. cbn [entries]. rewrite elem_of_cons, Hrt, lookup_insert_is_Some. destruct (decide (p = q)); naive_solver.
  - exists (nsvc + 1), rcb, acked. rewrite lookup_insert_eq. split; [done|]. fold key; rewrite Hpn; lia.
  - intros q k r. cbn [entries]. intros [[<- H1]|[Hne Hq]]%lookup_insert_Some; [injection H1 as <- <-; rewrite lookup_insert_eq; by eexists|]. rewrite lookup_insert_ne by done. by apply HH.
  - intros q. cbn [entries]. intros [Hq Hne]%lookup_insert_None. rewrite lookup_insert_ne by done. by apply HF.
Qed.
Lemma replay_lookup_spec c n w p m src nsvc rcb acked rt cnt e ec es : R c n w -> w_heap w !! p = None -> inet src -> cb_prog m = P -> cb_vers m = V -> w_srvs w !! s = Some (srv_of c rt cnt e ec) -> (forall q, q ∈ rt <-> is_Some (entries c !! q)) ->
  replay_lookup s p (during w p (new_sbp m src) nsvc rcb acked es) =
  match cached_call c (rm_xid m, cb_proc m, src) with
  | Some (q, _) => Done (Some q, during w p (new_sbp m src) nsvc rcb acked es)
  | None => Done (None, mkw (<[p := new_sbp m src]> (w_heap w)) (<[s := srv_of c (p :: rt) cnt e ec]> (w_srvs w)) (w_axs w) (<[x := mkxi false (nsvc + 1) [s] clients rcb acked]> (w_xis w)) (w_log w ++ es))
  end.
Proof.
  intros HR Hh Hi HP HV' HS Hrt. assert (W := R_wf _ _ _ HR). unfold replay_lookup. set (w1 := during w p (new_sbp m src) nsvc rcb acked es).
  destruct (rtab_find_spec c w1 (new_sbp m src) (rm_xid m, cb_proc m, src) None W) with (l := rt) as (o & Eo & Ho); [|done..|by intros q Hq; apply Hrt|].
  { intros q k r Hq. destruct (R_heap _ _ _ HR _ _ _ Hq) as (sbp & Hb & Hsb). exists sbp. split; [|done]. unfold w1, during. cbn. rewrite lookup_insert_ne; [done|]. intros ->. congruence. }
  rewrite (bind_run _ _ w1 (srv_of c rt cnt e ec) w1) by (unfold w1, during; by mrun). rewrite (bind_run _ _ w1 (new_sbp m src) w1) by (unfold w1, during; by mrun). rewrite (bind_run _ _ w1 o w1) by done.
  destruct o as [q|].
  - destruct Ho as (Hq & r & Hr). assert (Hf : cached_call c (rm_xid m, cb_proc m, src) = Some (q, (rm_xid m, cb_proc m, src, r))) by by apply cached_call_spec. by rewrite Hf.
  - destruct (cached_call c (rm_xid m, cb_proc m, src)) as [[q [k' r]]|] eqn:Hf.
    + apply cached_call_spec in Hf as [Hq Hk]; [|done]. cbn in Hk. subst k'. exfalso. eapply (Ho q r); [apply Hrt; by rewrite Hq|done].
    + by unfold w1, during.
Qed.
Lemma call_spec c n w m args src es c' : R c n w -> n + 1 < 2 ^ 32 -> (length (order c) <= maxr)%nat -> inet src -> cb_prog m = P -> cb_vers m = V -> cache_call x s P V nproc c m args src = (es, c') ->
  exists w', serve_call x s (fresh (dom (entries c))) (Some src) m args (upd w (fresh (dom (entries c))) (svccb_new m)) = Done (tt, w') /\ R c' (n + 1) w' /\ w_log w' = w_log w ++ hook_events s hook ++ es /\ (length (order c') <= maxr)%nat.
Proof.
  intros HR Hn Hlen Hi HP HV' E. destruct (fresh_handle _ _ _ HR) as [Hp Hh]. set (p := fresh (dom (entries c))) in *.
  destruct (R_srv _ _ _ HR) as (rt & cnt & e & ec & HS & Hnd & Hrt). destruct (R_xi _ _ _ HR) as (nsvc & rcb & acked & HX & Hns). assert (HA : ax_ok w) by apply HR.
  rewrite (serve_start c w p m src args nsvc rcb acked rt cnt e ec) by (done || lia). unfold cache_call in E.
  assert (Hback : forall es', svccb_del p (during w p (new_sbp m src) nsvc rcb acked es') = Done (tt, addlog w es')) by (intros es'; eapply during_del; [done|exact HS|done|lia..]).
  assert (HRl : forall es', R c (n + 1) (addlog w es')) by (intros es'; apply R_addlog; eapply R_mono; [done|lia]).
  destruct (Z.leb_spec nproc (cb_proc m)) as [Hc|Hc].
  { destruct (Z.ltb_spec (cb_proc m) nproc); [lia|]. cbn [negb]. injection E as <- <-. exists (addlog w (hook_events s hook ++ answer_error x src (rm_xid m) (Accepted_error PROC_UNAVAIL))). split; [|by split; [|split]].
    unfold asrv_accepterr. rewrite (bind_run _ _ _ tt _ (send_reply_ok _ src _ _ ltac:(by apply during_ax))), during_addlog. apply Hback. }
  destruct (Z.ltb_spec (cb_proc m) nproc); [|lia]. cbn [negb]. unfold isreplay. rewrite bind_assoc, (bind_run _ _ _ (srv_of c rt cnt e ec) (during w p (new_sbp m src) nsvc rcb acked (hook_events s hook))) by (unfold during; by mrun). cbn [srv_of sv_class].
  unfold unreliable_isreplay. rewrite bind_assoc. assert (El := replay_lookup_spec c n w p m src nsvc rcb acked rt cnt e ec (hook_events s hook) HR Hh Hi HP HV' HS Hrt).
  destruct (cached_call c (rm_xid m, cb_proc m, src)) as [[q [k [d|]]]|] eqn:Hf.
  - injection E as <- <-. apply cached_call_spec in Hf as [Hq Hk]; [|apply HR]. cbn in Hk. subst k. destruct (R_heap _ _ _ HR _ _ _ Hq) as (sbp & Hb & Hsb). assert (p <> q) by congruence.
    exists (addlog w (hook_events s hook ++ [Sent x d (Some src)])). split; [|by split; [|split]]. rewrite (bind_run _ _ _ _ _ El).
    rewrite bind_assoc, (bind_run _ _ _ sbp (during w p (new_sbp m src) nsvc rcb acked (hook_events s hook))) by (unfold during; by mrun). destruct Hsb as (A1 & A2 & A3 & A4 & A5 & A6 & A7). rewrite A6.
    rewrite bind_assoc. rewrite (bind_run _ _ _ tt (during w p (new_sbp m src) nsvc rcb acked (hook_events s hook ++ [Sent x d (Some src)]))); [by apply Hback|].
    unfold resend. rewrite (bind_run _ _ _ (srv_of c rt cnt e ec) (during w p (new_sbp m src) nsvc rcb acked (hook_events s hook))) by (unfold during; by mrun). rewrite (bind_run _ _ _ sbp (during w p (new_sbp m src) nsvc rcb acked (hook_events s hook))) by (unfold during; by mrun).
    rewrite A5. cbn [srv_of sv_xi]. rewrite ax_send_ok by by apply during_ax. by rewrite during_addlog.
  - injection E as <- <-. apply cached_call_spec in Hf as [Hq Hk]; [|apply HR]. cbn in Hk. subst k. destruct (R_heap _ _ _ HR _ _ _ Hq) as (sbp & Hb & Hsb). assert (p <> q) by congruence.
    exists (addlog w (hook_events s hook)). rewrite app_nil_r. split; [|by split; [|split]]. rewrite (bind_run _ _ _ _ _ El).
    rewrite bind_assoc, (bind_run _ _ _ sbp (during w p (new_sbp m src) nsvc rcb acked (hook_events s hook))) by (unfold during; by mrun). destruct Hsb as (A1 & A2 & A3 & A4 & A5 & A6 & A7). rewrite A6. apply Hback.
  - rewrite (bind_run _ _ _ _ _ El). destruct (xdr_arg P V (cb_proc m) args) as [a|]; injection E as <- <-.
    + assert (HR' := enter_spec c n w p m src nsvc rcb acked rt cnt e ec (hook_events s hook ++ [Serve s (Some p)]) (Some a) HR Hp Hh Hi HP HV' Hf HS Hnd Hrt Hns).
      eexists. split; [|split; [exact HR'|by split]]. unfold inc_svccb_count, call_cb. mrun. cbn [srv_of sv_class]. mrun. cbn [srv_of sv_class]. mrun. by rewrite insert_insert_eq, <- app_assoc.
    + assert (HR' := enter_spec c n w p m src nsvc rcb acked rt cnt e ec (hook_events s hook ++ answer_error x src (rm_xid m) (Accepted_error GARBAGE_ARGS)) None HR Hp Hh Hi HP HV' Hf HS Hnd Hrt Hns).
      destruct (sendreply_none _ _ _ p (rm_xid m, cb_proc m, src) HR') as (w' & E' & HR2 & Hlog); [by apply in_hand_Some, lookup_insert_eq|done|].
      exists w'. assert (Ec : drop_entry (mkcache (<[p:=(rm_xid m, cb_proc m, src, None)]> (entries c)) (order c)) p = c) by (unfold drop_entry; cbn [entries order]; rewrite delete_insert_id by done; by destruct c). rewrite Ec in HR2. split; [|by split; [|split]].
      rewrite <- E'. cbn [mret M_ret]. unfold asrv_accepterr. match goal with |- (_ ≫= _) ?w1 = _ => rewrite (bind_run _ _ w1 false w1) by done; rewrite (bind_run _ _ w1 tt _ (send_reply_ok w1 src _ _ HA)) end.
      unfold inc_svccb_count. rewrite bind_assoc. unfold addlog. cbn [w_heap w_srvs w_axs w_xis w_log]. rewrite <- app_assoc. match goal with |- (_ ≫= _) ?w1 = _ => rewrite (bind_run _ _ w1 (srv_of c (p :: rt) cnt e ec) w1) by (by mrun); cbn [srv_of sv_class]; rewrite (bind_run _ _ w1 tt w1) by done end. done.
Qed.

Lemma getint_total l : (4 <= length l)%nat -> exists v, getint l = Done v.
Proof. destruct l as [|a [|b [|d [|e l]]]]; cbn [length]; try lia. intros _. by eexists. Qed.
Lemma stab_spec c w rt cnt e ec pr ve : w_srvs w !! s = Some (srv_of c rt cnt e ec) -> stab_lookup [s] pr ve w = Done (if (P =? pr) && (V =? ve) then Some s else None, w).
Proof. intros HS. cbn [stab_lookup]. mrun. cbn [srv_of sv_prog sv_vers]. destruct (_ && _); done. Qed.
(** There is no server for the program or the version. *)
Lemma unavail_spec c w rt cnt e ec nsvc rcb acked m src : w_srvs w !! s = Some (srv_of c rt cnt e ec) -> w_xis w !! x = Some (mkxi false nsvc [s] clients rcb acked) -> ax_ok w -> (P =? cb_prog m) && (V =? cb_vers m) = false ->
  asrv_accepterr x (Some src) PROG_UNAVAIL m w = Done (tt, addlog w (answer_error x src (rm_xid m) (if cb_prog m =? P then Accepted_mismatch V V else Accepted_error PROG_UNAVAIL))).
Proof.
  intros HS HX HA Hne. unfold asrv_accepterr. rewrite (bind_run _ _ w (mkxi false nsvc [s] clients rcb acked) w) by (by mrun). cbn [xi_stab].
  rewrite (bind_run _ _ w (if cb_prog m =? P then Some (V, V) else None) w).
  - rewrite send_reply_ok by done. by destruct (cb_prog m =? P).
  - cbn [version_range]. mrun. cbn [srv_of sv_cb sv_prog sv_vers andb]. rewrite (Z.eqb_sym P). rewrite (Z.eqb_sym P) in Hne. destruct (cb_prog m =? P); [|done]. cbn [andb] in Hne. rewrite Hne. cbn [default].
    mstep. cbn [default from_option id]. do 3 f_equal. f_equal; [destruct (Z.ltb_spec V 0xffffffff); lia|destruct (Z.ltb_spec 0 V); lia].
Qed.
Lemma packet_spec c n w bytes src es c' : R c n w -> n + 1 < 2 ^ 32 -> (length (order c) <= maxr)%nat -> inet src -> cache_packet x s P V nproc hook clients c bytes src = (es, c') ->
  exists w', xhinfo_dispatch x bytes (Z.of_nat (length bytes)) (Some src) w = Done (tt, w') /\ R c' (n + 1) w' /\ w_log w' = w_log w ++ es /\ (length (order c') <= maxr)%nat.
Proof.
  intros HR Hn Hlen Hi E. destruct (R_srv _ _ _ HR) as (rt & cnt & e & ec & HS & _). destruct (R_xi _ _ _ HR) as (nsvc & rcb & acked & HX & Hns). assert (HA : ax_ok w) by apply HR. destruct HA as (ae & sent & buf & HA).
  assert (Hquiet : exists w', Done (tt, w) = Done (tt, w') /\ R c (n + 1) w' /\ w_log w' = w_log w ++ [] /\ (length (order c) <= maxr)%nat).
  { exists w. rewrite app_nil_r. split; [done|]. split; [eapply R_mono; [done|lia]|done]. }
  assert (Hsay : forall es', exists w', Done (tt, addlog w es') = Done (tt, w') /\ R c (n + 1) w' /\ w_log w' = w_log w ++ es' /\ (length (order c) <= maxr)%nat).
  { intros es'. exists (addlog w es'). split; [done|]. split; [apply R_addlog; eapply R_mono; [done|lia]|done]. }
  assert (Hseteof : xhinfo_seteof x (Some src) w = Done (tt, w)) by (unfold xhinfo_seteof; by mrun).
  unfold xhinfo_dispatch. unfold cache_packet in E. destruct (Z.ltb_spec (Z.of_nat (length bytes)) 8) as [|Hlen8]; cbn [orb] in E; [injection E as <- <-; by rewrite Hseteof|].
  destruct (_ .& 3 =? 0); cbn [negb] in *; [|injection E as <- <-; by rewrite Hseteof].
  destruct (getint_total (drop 4 bytes)) as [dir Hdir]; [rewrite length_drop; lia|]. rewrite Hdir in E |- *. rewrite (bind_run _ _ w dir w) by done. rewrite (bind_run _ _ w (mkxi false nsvc [s] clients rcb acked) w) by (by mrun). cbn [xi_stab xi_clients].
  destruct (Z.eqb_spec dir CALL) as [Hcall|Hcall].
  - rewrite Hcall in Hdir. unfold asrv_dispatch. destruct (Z.ltb_spec (Z.of_nat (length bytes)) 8); [lia|]. rewrite Hdir, (bind_run _ _ w CALL w) by done. cbn [Z.eqb CALL negb].
    destruct (xdr_callmsg bytes) as [[m args]|]; [|injection E as <- <-; unfold asrv_seteof; by mrun].
    change RPC_MSG_VERSION with 2. destruct (cb_rpcvers m =? 2); cbn [negb] in *; [|injection E as <- <-; unfold asrv_rpc_mismatch; by rewrite (send_reply_spec _ _ _ _ _ _ HR)].
    destruct (fresh_handle _ _ _ HR) as [Hp Hh]. assert (Hal : alloc_sbp m w = Done (fresh (dom (entries c)), upd w (fresh (dom (entries c))) (svccb_new m))) by (unfold alloc_sbp; by rewrite (R_dom _ _ _ HR)).
    rewrite (bind_run _ _ w _ _ Hal). set (p := fresh (dom (entries c))) in *. set (w1 := upd w p (svccb_new m)). rewrite (bind_run _ _ w1 (mkxi false nsvc [s] clients rcb acked) w1) by (unfold w1, upd; by mrun). cbn [xi_stab].
    rewrite (bind_run _ _ w1 _ w1 (stab_spec c w1 rt cnt e ec (cb_prog m) (cb_vers m) HS)). destruct ((P =? cb_prog m) && (V =? cb_vers m)) eqn:Hpv.
    + apply andb_prop in Hpv as [HP%Z.eqb_eq HV'%Z.eqb_eq]. rewrite <- HP, <- HV', !Z.eqb_refl in E. cbn [negb] in E. destruct (cache_call x s P V nproc c m args src) as [es1 c1] eqn:Ec. injection E as <- <-.
      rewrite (bind_run _ _ w1 (srv_of c rt cnt e ec) w1) by (unfold w1, upd; by mrun). cbn [srv_of sv_cb negb]. by eapply call_spec.
    + assert (Hes : es = answer_error x src (rm_xid m) (if cb_prog m =? P then Accepted_mismatch V V else Accepted_error PROG_UNAVAIL) /\ c' = c).
      { rewrite (Z.eqb_sym P), (Z.eqb_sym V) in Hpv. destruct (cb_prog m =? P); cbn [negb andb] in *; [|by injection E as <- <-]. rewrite Hpv in E. cbn [negb] in E. by injection E as <- <-. }
      destruct Hes as [-> ->]. rewrite (bind_run _ _ w1 tt _ (unavail_spec c w1 rt cnt e ec nsvc rcb acked m src HS HX ltac:(apply HR) Hpv)).
      set (es := answer_error _ _ _ _). assert (Hd : svccb_del p (addlog w1 es) = Done (tt, addlog w es)). { unfold svccb_del, w1, upd, addlog. mrun. cbn [svccb_new sc_srv sc_arg sc_resdat]. mrun. by rewrite delete_insert_id. }
      rewrite Hd. apply Hsay.
  - destruct (dir =? REPLY); cbn [andb] in *; [|injection E as <- <-; by rewrite Hseteof]. destruct clients; injection E as <- <-; [|by rewrite Hseteof]. apply Hsay.
Qed.
(** One operation of the program does what the cache does. *)
Lemma op_spec c n w o es c' : R c n w -> n + 1 < 2 ^ 32 -> (length (order c) <= maxr)%nat -> (forall b src, o = Packet b src -> inet src) -> cache_op c o = Some (es, c') ->
  exists w', do_op o w = Done (tt, w') /\ R c' (n + 1) w' /\ w_log w' = w_log w ++ es /\ (length (order c') <= maxr)%nat.
Proof.
  intros HR Hn Hlen Hi E. destruct o as [b src|p|p res xdr nocache|p why|p stat|p] eqn:Ho.
  1: { cbn in E. injection E as E. eapply packet_spec; eauto. }
  all: destruct (user_spec c n w o es c' HR ltac:(lia) Hlen) as (w' & Ew & HR' & Hlog & Hl); [by subst o|by subst o|]; subst o; exists w'; split; [done|]; split; [eapply R_mono; [done|lia]|done].
Qed.
Definition inet_op (o : op val) : Prop := match o with Packet _ src => inet src | _ => True end.
Lemma ops_spec ops : forall c n w es c', R c n w -> n + Z.of_nat (length ops) < 2 ^ 32 -> (length (order c) <= maxr)%nat -> Forall inet_op ops -> cache_run c ops = Some (es, c') ->
  exists w', do_ops x ops w = Done (tt, w') /\ R c' (n + Z.of_nat (length ops)) w' /\ w_log w' = w_log w ++ es /\ (length (order c') <= maxr)%nat.
Proof.
  induction ops as [|o ops IH]; intros c n w es c' HR Hn Hlen Hi E.
  { cbn in E. injection E as <- <-. exists w. rewrite app_nil_r. split; [done|]. split; [|done]. by rewrite Z.add_0_r. }
  cbn [AsrvProps.cache_run] in E. destruct (cache_op c o) as [[es1 c1]|] eqn:E1; [|done]. cbn [mbind option_bind fst snd] in E. destruct (cache_run c1 ops) as [[es2 c2]|] eqn:E2; [|done]. injection E as <- <-.
  apply Forall_cons in Hi as [Hio Hi]. cbn [length] in Hn. destruct (op_spec c n w o es1 c1 HR ltac:(lia) Hlen) as (w1 & Ew1 & HR1 & Hlog1 & Hl1); [|done|].
  { intros b src ->. exact Hio. }
  destruct (IH c1 (n + 1) w1 es2 c2 HR1 ltac:(lia) Hl1 Hi E2) as (w2 & Ew2 & HR2 & Hlog2 & Hl2). exists w2. cbn [do_ops]. rewrite (bind_run _ _ w tt w1 Ew1). split; [done|]. split; [eapply R_mono; [done|cbn [length]; lia]|].
  split; [|done]. cbn [fst snd]. by rewrite Hlog2, Hlog1, app_assoc.
Qed.

(** ** The start *)
Definition empty_cache : cache := mkcache ∅ [].
Definition fresh_world w : Prop := w_heap w = ∅ /\ w_xis w !! x = None /\ exists sent buf, w_axs w !! x = Some (mkax false false 16 false sent buf).
(** ** A call that is repeated *)
Definition call_of (bytes src : list Z) : option key :=
  if (Z.of_nat (length bytes) <? 8) || negb (Z.of_nat (length bytes) .& 3 =? 0) then None
  else
    match getint (drop 4 bytes), xdr_callmsg bytes with
    | Done dir, Some (m, _) => if (dir =? CALL) && (cb_rpcvers m =? 2) && (cb_prog m =? P) && (cb_vers m =? V) && (cb_proc m <? nproc) then Some (rm_xid m, cb_proc m, src) else None
    | _, _ => None
    end.
Lemma repeated_call c k p r bytes src : wf c -> call_of bytes src = Some k -> entries c !! p = Some (k, r) ->
  cache_packet x s P V nproc hook clients c bytes src = (hook_events s hook ++ match r with Some d => [Sent x d (Some src)] | None => [] end, c) /\ k.2 = src.
Proof.
  intros W E Hp. unfold call_of in E. unfold cache_packet. destruct (_ || _); [done|]. destruct (getint _) as [dir| | |]; try done. destruct (xdr_callmsg bytes) as [[m args]|]; [|done].
  destruct (dir =? CALL); [|done]. destruct (cb_rpcvers m =? 2); [|done]. destruct (cb_prog m =? P); [|done]. destruct (cb_vers m =? V); [|done]. destruct (Z.ltb_spec (cb_proc m) nproc) as [Hc|]; [|done]. cbn [andb negb] in *. injection E as <-. split; [|done].
  unfold cache_call. destruct (Z.leb_spec nproc (cb_proc m)); [lia|]. rewrite (proj2 (cached_call_spec c _ p (_, r) W)) by done. by destruct r.
Qed.
(** The operations that do not let go of the call [p] without an answer that is kept *)
Definition keeps (p : positive) (o : op val) : Prop := match o with RejectAuth q _ | RejectAccept q _ | Ignore q => q <> p | Answer q _ _ nocache => nocache = true -> q <> p | _ => True end.
Definition is_answer (o : op val) : bool := match o with Answer _ _ _ nocache => negb nocache | _ => false end.
Definition answers_kept (ops : list (op val)) : nat := length (filter (fun o => is_answer o = true) ops).
(** Less than [j] answers were given after that to [p]. *)
Definition kept c p (r : option (list Z)) (j : nat) : Prop := match r with None => True | Some _ => exists l1 l2, order c = l1 ++ p :: l2 /\ (length l2 < j)%nat end.
Lemma kept_newest c p k d l1 l2 : NoDup (order c) -> entries c !! p = Some (k, Some d) -> order c = l1 ++ p :: l2 -> (length l2 < maxr)%nat ->
  entries (keep_newest c) !! p = Some (k, Some d) /\ exists l1', order (keep_newest c) = l1' ++ p :: l2.
Proof.
  intros Hnd Hp Ho Hl. unfold AsrvProps.keep_newest. cbn [entries order]. set (n := (length (order c) - maxr)%nat). assert (Hn : (n <= length l1)%nat) by (unfold n; rewrite Ho, length_app; cbn [length]; lia).
  rewrite Ho in *. split.
  - rewrite lookup_foldr_delete_not_elem_of; [done|]. rewrite take_app_le by done. intros Hq. apply list_elem_of_In in Hq. apply NoDup_app in Hnd as (_ & Hnd & _). apply (Hnd p); [|by left]. apply list_elem_of_In in Hq. by eapply elem_of_take_inv || (apply (subseteq_take n) in Hq; done).
  - exists (drop n l1). by rewrite drop_app_le.
Qed.
Lemma answers_cons o ops : answers_kept (o :: ops) = ((if is_answer o then 1 else 0) + answers_kept ops)%nat.
Proof. unfold answers_kept. rewrite filter_cons. destruct (is_answer o); [|done]. by rewrite decide_True. Qed.
(** What one operation does to a call that is in the hands of the program or among the newest answers *)
Lemma kept_op c o es c' p k r j : wf c -> cache_op c o = Some (es, c') -> keeps p o -> entries c !! p = Some (k, r) -> kept c p r j -> (j + (if is_answer o then 1 else 0) <= maxr)%nat ->
  exists r', entries c' !! p = Some (k, r') /\ kept c' p r' (j + (if is_answer o then 1 else 0)) /\ (r' = r \/ exists d, r = None /\ r' = Some d /\ Sent x d (Some k.2) ∈ es).
Proof.
  intros W E Hk Hp Hj Hle. assert (Hmono : kept c p r (j + (if is_answer o then 1 else 0))) by (destruct r; [|done]; destruct Hj as (l1 & l2 & ? & ?); exists l1, l2; split; [done|lia]).
  destruct o as [b src|q|q res xdr nocache|q why|q stat|q]; cbn [AsrvProps.cache_op is_answer] in *.
  - injection E as E. exists r. split; [|split; [|by left]].
    + unfold cache_packet, cache_call in E. repeat case_match; injection E as <- <-; try done; cbn [entries]. all: match goal with H : ([Serve _ _], _) = _ |- _ => injection H as <- <- | H : (_, _) = _ |- _ => injection H as <- <- | _ => idtac end; cbn [entries]; try done.
      rewrite lookup_insert_ne; [done|]. intros Hq. apply (is_fresh (dom (entries c))). rewrite Hq. by apply elem_of_dom_2 in Hp.
    + replace c' with (mkcache (entries c') (order c)); [by destruct r|]. unfold cache_packet, cache_call in E. repeat case_match; injection E as <- <-; try (by destruct c); match goal with H : (_, _) = _ |- _ => injection H as <- <- end; by destruct c.
  - destruct (in_hand c q); [|done]. injection E as <- <-. exists r. split; [done|]. split; [done|by left].
  - destruct (in_hand c q) as [kq|] eqn:Hq; [|done]. cbn [mbind option_bind] in E. destruct (default _ _ _); [|done]. cbn [mbind option_bind] in E. destruct (xdr_replymsg _ _) as [d|]; [|done]. injection E as <- <-. apply in_hand_Some in Hq.
    destruct nocache; cbn [negb] in *.
    { exists r. cbn [entries drop_entry]. rewrite lookup_delete_ne by by apply Hk. split; [done|]. split; [done|by left]. }
    set (c1 := mkcache (<[q := (kq, Some d)]> (entries c)) (order c ++ [q])). assert (W1 : wf c1) by by apply wf_answer.
    destruct (decide (q = p)) as [Heq|Hne].
    + subst q. assert (Hkq : kq = k /\ r = None) by (assert (Hs : Some (kq, None) = Some (k, r)) by (rewrite <- Hq; exact Hp); by injection Hs as -> ->). destruct Hkq as [-> ->]. destruct (kept_newest c1 p k d (order c) []) as (He & l1' & Ho); [apply W1|apply lookup_insert_eq|done|cbn [length]; lia|].
      exists (Some d). split; [done|]. split; [exists l1', []; split; [done|cbn [length]; lia]|]. right. exists d. split; [done|]. split; [done|by left].
    + assert (Hp1 : entries c1 !! p = Some (k, r)) by (cbn [c1 entries]; by rewrite lookup_insert_ne). exists r. destruct r as [d'|].
      * destruct Hj as (l1 & l2 & Ho & Hl2). destruct (kept_newest c1 p k d' l1 (l2 ++ [q])) as (He & l1' & Ho'); [apply W1|done|cbn [c1 order]; by rewrite Ho, <- app_assoc|rewrite length_app; cbn [length]; lia|].
        split; [done|]. split; [|by left]. exists l1', (l2 ++ [q]). split; [done|]. rewrite length_app. cbn [length]. lia.
      * split; [|split; [done|by left]]. unfold AsrvProps.keep_newest. cbn [entries]. rewrite lookup_foldr_delete_not_elem_of; [done|]. intros Hin. apply (subseteq_take (length (order c1) - maxr)) in Hin. apply (wf_answered _ W1) in Hin as (? & ? & Hin). assert (Hs := eq_trans (eq_sym Hp1) Hin). by injection Hs.
  - destruct (in_hand c q); [|done]. cbn [mbind option_bind] in E. destruct (_ =? _); [done|]. injection E as <- <-. exists r. cbn [entries drop_entry]. rewrite lookup_delete_ne by done. split; [done|]. split; [done|by left].
  - destruct (in_hand c q); [|done]. cbn [mbind option_bind] in E. assert (c' = drop_entry c q) as -> by (destruct stat; congruence). exists r. cbn [entries drop_entry]. rewrite lookup_delete_ne by done. split; [done|]. split; [done|by left].
  - destruct (in_hand c q); [|done]. injection E as <- <-. exists r. cbn [entries drop_entry]. rewrite lookup_delete_ne by done. split; [done|]. split; [done|by left].
Qed.
Lemma kept_run p k ops : forall c n w es c' r j, R c n w -> n + Z.of_nat (length ops) < 2 ^ 32 -> (length (order c) <= maxr)%nat -> Forall inet_op ops -> Forall (keeps p) ops -> cache_run c ops = Some (es, c') ->
  entries c !! p = Some (k, r) -> kept c p r j -> (j + answers_kept ops <= maxr)%nat ->
  exists r', entries c' !! p = Some (k, r') /\ (r' = r \/ exists d, r = None /\ r' = Some d /\ Sent x d (Some k.2) ∈ es).
Proof.
  induction ops as [|o ops IH]; intros c n w es c' r j HR Hn Hlen Hi Hk E Hp Hj Hle.
  { cbn in E. injection E as <- <-. exists r. split; [done|by left]. }
  cbn [AsrvProps.cache_run] in E. destruct (cache_op c o) as [[es1 c1]|] eqn:E1; [|done]. cbn [mbind option_bind fst snd] in E. destruct (cache_run c1 ops) as [[es2 c2]|] eqn:E2; [|done]. injection E as <- <-. cbn [fst snd].
  apply Forall_cons in Hi as [Hio Hi]. apply Forall_cons in Hk as [Hko Hk]. cbn [length] in Hn. rewrite answers_cons in Hle.
  destruct (op_spec c n w o es1 c1 HR ltac:(lia) Hlen) as (w1 & Ew1 & HR1 & Hlog1 & Hl1); [by intros b src ->|done|].
  destruct (kept_op c o es1 c1 p k r j (R_wf _ _ _ HR) E1 Hko Hp Hj ltac:(lia)) as (r1 & Hp1 & Hj1 & Hr1).
  destruct (IH c1 (n + 1) w1 es2 c2 r1 _ HR1 ltac:(lia) Hl1 Hi Hk E2 Hp1 Hj1 ltac:(lia)) as (r2 & Hp2 & Hr2). exists r2. split; [done|].
  destruct Hr2 as [->|(d & -> & -> & Hd)]; [destruct Hr1 as [->|(d & -> & -> & Hd)]; [by left|]|].
  - right. exists d. split; [done|]. split; [done|]. apply elem_of_app. by left.
  - destruct Hr1 as [<-|(d' & _ & ? & _)]; [|done]. right. exists d. split; [done|]. split; [done|]. apply elem_of_app. by right.
Qed.
End proofs.
Section start.
Context {val : Type} `{!RpcXdr val}.
Variables (x s : positive) (P V nproc : Z) (hook : bool).
Definition start_server : M val unit := asrv_alloc s x P V nproc true ;; set_recv_hook s hook.
Lemma start_spec (w : world val) : fresh_world x w -> exists w', start_server w = Done (tt, w') /\ R x s P V nproc hook false 16 empty_cache 0 w' /\ w_log w' = w_log w.
Proof.
  intros (HH & HX & sent & buf & HA). unfold start_server, asrv_alloc, xhinfo_lookup. mstep. rewrite HX. mrun. cbn [ax_ateof]. unfold xhinfo_new. mrun. cbn [ax_reliable]. unfold asrv_new, asrv_start. mrun. cbn [sv_xi sv_prog sv_vers]. mrun.
  cbn [xi_stab stab_lookup xi_eof xi_nsvc xi_clients xi_rcb xi_max_acked]. unfold set_recv_hook. mrun. cbn [sv_class sv_prog sv_vers sv_nproc sv_cb sv_xi sv_rsize sv_rq sv_rtab sv_count sv_eof sv_eofcb].
  eexists. split; [reflexivity|]. split; [|done]. constructor; cbn [w_heap w_srvs w_axs w_xis].
  - constructor; cbn [empty_cache entries order].
    + constructor.
    + intros p. split; [by intros ?%elem_of_nil|]. by intros (? & ? & ?).
    + done.
    + done.
  - exists [], 0, false, false. rewrite lookup_insert_eq. split; [done|]. split; [constructor|]. intros p. split; [by intros ?%elem_of_nil|]. by intros [? ?].
  - by exists false, sent, buf.
  - exists 0, true, 0. rewrite !lookup_insert_eq. done.
  - done.
  - intros p _. by rewrite HH.
Qed.
Notation cache_run := (cache_run x s P V nproc hook false 16).
(** C4: any sequence of packets from Internet addresses and of answers to a
    server on datagrams runs without failed assertions and accesses to memory that
    is not valid, and calls callbacks and sends packets exactly as the cache of
    replies promises: a call that the program has in its hands is not served again,
    one that is among the last 16 answered gets the same bytes again, and the
    others are served once.  This for fewer than [2 ^ 32] operations and answers that the
    XDR routine of the results can code; the cache ([cache_run]) has no result where one
    cannot be coded. *)
Theorem asrv_refines_cache (w : world val) ops es c : fresh_world x w -> 0 <= V < 2 ^ 32 -> Z.of_nat (length ops) < 2 ^ 32 -> Forall (inet_op (val := val)) ops -> cache_run empty_cache ops = Some (es, c) ->
  exists w', (start_server ;; do_ops x ops) w = Done (tt, w') /\ w_log w' = w_log w ++ es.
Proof.
  intros Hw HV Hn Hi E. destruct (start_spec w Hw) as (w1 & E1 & HR & Hlog). destruct (ops_spec x s P V nproc hook false 16 HV ltac:(done) ops _ 0 w1 es c HR ltac:(lia) ltac:(cbn; lia) Hi E) as (w2 & E2 & _ & Hlog2 & _).
  exists w2. rewrite (bind_run _ _ w tt w1 E1). split; [done|]. by rewrite Hlog2, Hlog.
Qed.

Lemma cache_run_app ops1 : forall c ops2, cache_run c (ops1 ++ ops2) = r ← cache_run c ops1; r' ← cache_run r.2 ops2; Some (r.1 ++ r'.1, r'.2).
Proof.
  induction ops1 as [|o ops1 IH]; intros c ops2; cbn [app AsrvProps.cache_run]; [cbn; by destruct (cache_run c ops2) as [[]|]|].
  destruct (cache_op x s P V nproc hook false 16 c o) as [[es1 c1]|]; cbn [mbind option_bind fst snd]; [|done]. rewrite IH. destruct (cache_run c1 ops1) as [[es2 c2]|]; cbn [mbind option_bind fst snd]; [|done]. destruct (cache_run c2 ops2) as [[es3 c3]|]; cbn [mbind option_bind fst snd]; [|done]. by rewrite app_assoc.
Qed.
(** C5: a call that the program has in its hands, or has answered with an answer to
    keep, is not executed a second time, whatever comes in between, as long as at
    most 16 answers have been given since: a packet that repeats it is answered with
    nothing, or with the bytes sent before. *)
Theorem asrv_at_most_once (w : world val) pre mid p k es1 c1 es2 c2 bytes src : fresh_world x w -> 0 <= V < 2 ^ 32 -> Z.of_nat (length (pre ++ mid)) + 1 < 2 ^ 32 -> Forall (inet_op (val := val)) (pre ++ mid) -> inet src ->
  cache_run empty_cache pre = Some (es1, c1) -> in_hand c1 p = Some k -> cache_run c1 mid = Some (es2, c2) -> Forall (keeps p) mid -> (answers_kept mid <= 16)%nat -> call_of P V nproc bytes src = Some k ->
  exists w1 w2 r, (start_server ;; do_ops x (pre ++ mid)) w = Done (tt, w1) /\ xhinfo_dispatch x bytes (Z.of_nat (length bytes)) (Some src) w1 = Done (tt, w2)
    /\ w_log w2 = w_log w1 ++ hook_events s hook ++ r /\ (r = [] \/ exists d, r = [Sent x d (Some src)] /\ Sent x d (Some src) ∈ w_log w1).
Proof.
  intros Hw HV Hn Hi Hsrc E1 Hk E2 Hkp Ha Hcall. destruct (start_spec w Hw) as (w0 & E0 & HR0 & Hlog0). apply Forall_app in Hi as [Hi1 Hi2]. rewrite length_app in Hn.
  destruct (ops_spec x s P V nproc hook false 16 HV ltac:(done) pre _ 0 w0 es1 c1 HR0 ltac:(lia) ltac:(cbn; lia) Hi1 E1) as (wa & Ea & HRa & Hloga & Hla).
  destruct (kept_run x s P V nproc hook false 16 HV ltac:(done) p k mid c1 _ wa es2 c2 None 0%nat HRa ltac:(lia) Hla Hi2 Hkp E2 (proj1 (in_hand_Some c1 p k) Hk)) as (r & Hp & Hr); [done|lia|].
  destruct (ops_spec x s P V nproc hook false 16 HV ltac:(done) mid c1 _ wa es2 c2 HRa ltac:(lia) Hla Hi2 E2) as (wb & Eb & HRb & Hlogb & Hlb).
  destruct (repeated_call x s P V nproc hook false 16 c2 k p r bytes src (R_wf _ _ _ _ _ _ _ _ _ _ _ HRb) Hcall Hp) as [Ec Hks].
  destruct (packet_spec x s P V nproc hook false 16 HV c2 _ wb bytes src _ _ HRb ltac:(lia) Hlb Hsrc Ec) as (wc & Ecw & _ & Hlogc & _).
  assert (Happ : do_ops x (pre ++ mid) w0 = Done (tt, wb)).
  { rewrite <- Eb. clear -Ea. revert w0 Ea. induction pre as [|o ops IH]; intros w0 Ea; cbn [do_ops app] in *; [by injection Ea as ->|]. mstep. cbv beta iota zeta delta [mbind M_bind] in Ea. destruct (do_op x o w0) as [[[] w0']| | |]; try done. by apply IH. }
  exists wb, wc, (match r with Some d => [Sent x d (Some src)] | None => [] end). rewrite (bind_run _ _ w tt w0 E0). split; [done|]. split; [done|]. split; [done|].
  destruct Hr as [->|(d & _ & -> & Hd)]; [by left|]. right. exists d. split; [done|]. rewrite Hlogb. apply elem_of_app. right. by rewrite <- Hks.
Qed.
End start.
Definition sample_call (i prog vers proc : Z) (args : list Z) : list Z :=
  putint i ++ putint CALL ++ putint 2 ++ putint prog ++ putint vers ++ putint proc ++ putint 0 ++ putint 0 ++ putint 0 ++ putint 0 ++ args.
Definition sample_addr (port : Z) : list Z := [2; 0; 0; port; 10; 0; 0; 1] ++ replicate 8 0.
Definition sample_world (reliable connected : bool) : world (list Z) :=
  mkw ∅ ∅ {[1%positive := mkax reliable connected (if connected then 0 else 16) false 0 8192]} ∅ [].
Definition pk (b : list Z) (src : option (list Z)) : M (list Z) unit := xhinfo_dispatch 1 b (Z.of_nat (length b)) src.
Definition log_of {A} (o : outcome (A * world (list Z))) : outcome (list event) := match o with Done (_, w) => Done (w_log w) | Panic => Panic | Wild => Wild | Spin => Spin end.


Definition sample_ops : list (op (list Z)) :=
  [Packet (sample_call 9 7 3 1 [1; 2; 3; 4]) (sample_addr 5); Packet (sample_call 9 7 3 1 [1; 2; 3; 4]) (sample_addr 5); Packet (sample_call 9 7 3 1 [1; 2; 3; 4]) (sample_addr 6);
   Answer 1 [5; 6; 7; 8] None false; Packet (sample_call 9 7 3 1 [1; 2; 3; 4]) (sample_addr 5); RejectAccept 2 SYSTEM_ERR; Packet (sample_call 9 7 3 1 [1; 2; 3; 4]) (sample_addr 6)].
Lemma sample_inet port : inet (sample_addr port).
Proof. by exists [0; port], [10; 0; 0; 1]. Qed.
Lemma sample_ops_inet : Forall inet_op sample_ops.
Proof. repeat constructor; apply sample_inet. Qed.
Lemma asrv_refines_cache_witness : exists es c w', cache_run 1 1 7 3 5 true false 16 empty_cache sample_ops = Some (es, c) /\ (start_server 1 1 7 3 5 true ;; do_ops 1 sample_ops) (sample_world false false) = Done (tt, w') /\ w_log w' = es.
Proof.
  destruct (cache_run 1 1 7 3 5 true false 16 empty_cache sample_ops) as [[es c]|] eqn:E; [|exfalso; vm_compute in E; discriminate].
  destruct (asrv_refines_cache 1 1 7 3 5 true (sample_world false false) sample_ops es c) as (w' & E1 & E2); [split; [done|]; split; [done|]; by exists 0, 8192|lia|cbn; lia|apply sample_ops_inet|exact E|].
  exists es, c, w'. split; [reflexivity|]. split; [exact E1|exact E2].
Defined.

Lemma asrv_at_most_once_witness : exists w1 w2 r, (start_server 1 1 7 3 5 true ;; do_ops 1 ([Packet (sample_call 9 7 3 1 [1; 2; 3; 4]) (sample_addr 5)] ++ [Answer 1 [5; 6; 7; 8] None false; Packet (sample_call 9 7 3 2 (replicate 8 0)) (sample_addr 5)])) (sample_world false false) = Done (tt, w1)
  /\ xhinfo_dispatch 1 (sample_call 9 7 3 1 [1; 2; 3; 4]) 44 (Some (sample_addr 5)) w1 = Done (tt, w2) /\ w_log w2 = w_log w1 ++ [RecvHook 1] ++ r /\ (r = [] \/ exists d, r = [Sent 1 d (Some (sample_addr 5))] /\ Sent 1 d (Some (sample_addr 5)) ∈ w_log w1).
Proof.
  set (pre := [Packet (val := list Z) (sample_call 9 7 3 1 [1; 2; 3; 4]) (sample_addr 5)]). set (mid := [Answer 1 [5; 6; 7; 8] None false; Packet (val := list Z) (sample_call 9 7 3 2 (replicate 8 0)) (sample_addr 5)]).
  destruct (cache_run 1 1 7 3 5 true false 16 empty_cache pre) as [[es1 c1]|] eqn:E1; [|exfalso; vm_compute in E1; discriminate].
  assert (E1' := E1). vm_compute in E1'. injection E1' as Hes1 Hc1.
  destruct (cache_run 1 1 7 3 5 true false 16 c1 mid) as [[es2 c2]|] eqn:E2; [|exfalso; rewrite <- Hc1 in E2; vm_compute in E2; discriminate].
  apply (asrv_at_most_once 1 1 7 3 5 true (sample_world false false) pre mid 1 (9, 1, sample_addr 5) es1 c1 es2 c2 (sample_call 9 7 3 1 [1; 2; 3; 4]) (sample_addr 5)).
  - split; [reflexivity|]. split; [reflexivity|]. exists 0, 8192. reflexivity.
  - lia.
  - cbn. lia.
  - repeat constructor; apply sample_inet.
  - apply sample_inet.
  - exact E1.
  - rewrite <- Hc1. vm_compute. reflexivity.
  - exact E2.
  - repeat constructor. cbn. discriminate.
  - apply Nat.leb_le. vm_compute. reflexivity.
  - vm_compute. reflexivity.
Defined.

(** ** Connections *)
Section connection.
Context {val : Type} `{!RpcXdr val}.
Variables (x s : positive) (w : world val) (ax : axprt) (xi : xhinfo) (sv : asrv).
Hypothesis Hax : w_axs w !! x = Some ax.
Hypothesis Hconn : ax_connected ax = true.
Hypothesis Hxi : w_xis w !! x = Some xi.
Hypothesis Hstab : xi_stab xi = [s].
Hypothesis Hsv : w_srvs w !! s = Some sv.
Hypothesis Hcb : sv_cb sv = true.
Hypothesis Hsx : sv_xi sv = x.
Hypothesis Hcalls : forall q, q ∈ sv_rtab sv -> exists a, w_heap w !! q = Some a /\ sc_addr a = None.

Lemma rtab_find_null (w' : world val) k p a l : (forall q, q ∈ l -> exists a, w_heap w' !! q = Some a /\ sc_addr a = None) -> sc_addr k = None -> p ∈ l -> w_heap w' !! p = Some a -> xid k = xid a -> prog k = prog a -> vers k = vers a -> proc k = proc a -> rtab_find l k w' = Wild.
Proof.
  intros Hl Hk Hp Ha Ex Ep Ev Ec. induction l as [|q l IH]; [by apply elem_of_nil in Hp|]. cbn [rtab_find]. destruct (Hl q ltac:(by left)) as (b & Hb & Hnull). mstep. rewrite Hb.
  assert (Hrec : p <> q -> rtab_find l k w' = Wild). { intros Hne. apply IH; [intros q' Hq'; apply Hl; by right|]. apply elem_of_cons in Hp as [|]; [done|done]. }
  destruct (decide (p = q)) as [->|Hne].
  - rewrite Ha in Hb. injection Hb as ->. unfold hash_value. rewrite Hk, Hnull, Ex, Z.eqb_refl. unfold svccb_eq, addrlen. rewrite Ex, Ep, Ev, Ec, Hk, Hnull, !Z.eqb_refl. done.
  - specialize (Hrec Hne). destruct (hash_value k =? hash_value b); [|done]. unfold svccb_eq. destruct (_ && _); [|done]. rewrite Hk. done.
Qed.
(** C34: on a connection, calls have no address, and the comparison of a call with
    the one that it repeats reads through the null pointer: a packet that repeats a
    call of a resumable server (or of one on a connected datagram socket) ends the
    process, whether the call has been answered or not. *)
Theorem replay_on_connection_crashes p sbp bytes m args src : (sv_class sv = Resumable \/ exists n, sv_class sv = Unreliable n) -> p ∈ sv_rtab sv -> w_heap w !! p = Some sbp -> prog sbp = sv_prog sv -> vers sbp = sv_vers sv ->
  8 <= Z.of_nat (length bytes) -> Z.of_nat (length bytes) .& 3 = 0 -> getint (drop 4 bytes) = Done CALL -> xdr_callmsg bytes = Some (m, args) -> cb_rpcvers m = 2 ->
  rm_xid m = xid sbp -> cb_prog m = prog sbp -> cb_vers m = vers sbp -> cb_proc m = proc sbp -> proc sbp < sv_nproc sv ->
  xhinfo_dispatch x bytes (Z.of_nat (length bytes)) src w = Wild.
Proof.
  intros Hclass Hp Hb HP HV Hlen Hal Hdir Hdec Hrv Ex Ep Ev Ec Hproc. unfold xhinfo_dispatch. destruct (Z.ltb_spec (Z.of_nat (length bytes)) 8); [lia|]. rewrite Hal, Hdir. cbn [Z.eqb negb]. mrun. rewrite Hstab. change (CALL =? CALL) with true. cbv beta iota.
  unfold asrv_dispatch. destruct (Z.ltb_spec (Z.of_nat (length bytes)) 8); [lia|]. rewrite Hdir, Hdec, Hrv. mstep. change (CALL =? CALL) with true. change (2 =? RPC_MSG_VERSION) with true. cbn [negb]. unfold alloc_sbp. set (q := fresh (dom (w_heap w))). assert (Hq : w_heap w !! q = None) by apply not_elem_of_dom, is_fresh. mrun. rewrite Hstab. cbn [stab_lookup]. mrun.
  rewrite Ep, HP, Ev, HV, !Z.eqb_refl. cbn [andb]. mrun. rewrite Hcb. cbn [negb]. unfold serve_call. mrun.
  assert (Hinit : forall log, exists sbp' xi', svccb_init q s src (mkw (<[q := svccb_new m]> (w_heap w)) (w_srvs w) (w_axs w) (w_xis w) log) = Done (tt, mkw (<[q := sbp']> (w_heap w)) (w_srvs w) (w_axs w) (<[x := xi']> (w_xis w)) log) /\ sc_addr sbp' = None /\ sc_msg sbp' = m).
  { intros log. unfold svccb_init, svcadd. mrun. rewrite Hsx. mrun. rewrite Hconn. cbn [negb]. mrun. rewrite insert_insert_eq. by do 2 eexists. }
  assert (Hgo : forall sbp' xi' log, sc_addr sbp' = None -> sc_msg sbp' = m -> isreplay s q (mkw (<[q := sbp']> (w_heap w)) (w_srvs w) (w_axs w) (<[x := xi']> (w_xis w)) log) = Wild).
  { intros sbp' xi' log Hn Hm. assert (Hne : forall q', q' ∈ sv_rtab sv -> q <> q') by (intros q' Hq' <-; destruct (Hcalls q Hq') as (? & ? & _); congruence).
    assert (Hf : replay_lookup s q (mkw (<[q := sbp']> (w_heap w)) (w_srvs w) (w_axs w) (<[x := xi']> (w_xis w)) log) = Wild).
    { unfold replay_lookup. mrun. rewrite (rtab_find_null _ sbp' p sbp (sv_rtab sv)); [done| |done|done| |unfold xid, prog, vers, proc in *; rewrite Hm; congruence..].
      - intros q' Hq'. cbn [w_heap]. rewrite lookup_insert_ne by by apply Hne. by apply Hcalls.
      - cbn [w_heap]. rewrite lookup_insert_ne by by apply Hne. done. }
    unfold isreplay. mrun. destruct Hclass as [->|[n ->]]; [unfold resumable_isreplay|unfold unreliable_isreplay]; mstep; by rewrite Hf. }
  rewrite Ec. destruct (Z.ltb_spec (proc sbp) (sv_nproc sv)); [|lia]. cbn [negb].
  destruct (sv_recv_hook sv); mrun; match goal with |- context [svccb_init q s src (mkw _ _ _ _ ?log)] => destruct (Hinit log) as (sbp' & xi' & -> & Hn & Hm); by rewrite Hgo end.
Qed.
End connection.

Definition world_of {A} (o : outcome (A * world (list Z))) : world (list Z) := match o with Done (_, w) => w | _ => sample_world false false end.
Definition sample_conn : M (list Z) unit := resumable_alloc 1 1 7 3 5 true ;; pk (sample_call 9 7 3 1 [1; 2; 3; 4]) None ;; svccb_reply 1 [5; 6; 7; 8] None false.
Definition sample_conn_world : world (list Z) := world_of (sample_conn (sample_world true true)).
Definition repeated : list Z := sample_call 9 7 3 1 [1; 2; 3; 4].
Lemma replay_on_connection_crashes_witness : sample_conn (sample_world true true) = Done (tt, sample_conn_world) /\ xhinfo_dispatch 1 repeated (Z.of_nat (length repeated)) None sample_conn_world = Wild.
Proof.
  split; [vm_compute; reflexivity|].
  assert (H : exists ax xi sv sbp, w_axs sample_conn_world !! 1%positive = Some ax /\ w_xis sample_conn_world !! 1%positive = Some xi /\ w_srvs sample_conn_world !! 1%positive = Some sv /\ w_heap sample_conn_world !! 1%positive = Some sbp
    /\ ax_connected ax = true /\ xi_stab xi = [1%positive] /\ sv_cb sv = true /\ sv_xi sv = 1%positive /\ sv_rtab sv = [1%positive] /\ sv_class sv = Resumable /\ sv_prog sv = 7 /\ sv_vers sv = 3 /\ sv_nproc sv = 5
    /\ sc_addr sbp = None /\ xid sbp = 9 /\ prog sbp = 7 /\ vers sbp = 3 /\ proc sbp = 1) by (do 4 eexists; vm_compute; repeat split).
  destruct H as (ax & xi & sv & sbp & Hax & Hxi & Hsv & Hb & H1 & H2 & H3 & H4 & H5 & H6 & H7 & H8 & H9 & H10 & H11 & H12 & H13 & H14). revert Hax Hxi Hsv Hb. generalize sample_conn_world as w. intros w Hax Hxi Hsv Hb.
  eapply (replay_on_connection_crashes 1 1 w ax xi sv Hax H1 Hxi H2 Hsv H3 H4) with (p := 1%positive) (m := mkcall 9 2 7 3 1 (0, [])) (args := [1; 2; 3; 4]).
  - intros q Hq. rewrite H5 in Hq. apply elem_of_cons in Hq as [->|Hq]; [exists sbp; split; [exact Hb|exact H10]|by apply elem_of_nil in Hq].
  - left. exact H6.
  - rewrite H5. by left.
  - exact Hb.
  - by rewrite H7, H12.
  - by rewrite H8, H13.
  - vm_compute. discriminate.
  - reflexivity.
  - reflexivity.
  - reflexivity.
  - reflexivity.
  - by rewrite H11.
  - by rewrite H12.
  - by rewrite H13.
  - by rewrite H14.
  - rewrite H9, H14. lia.
Defined.

(** A call whose result was asked for may not be rejected: [xsuio (x)] with [x] null. *)
Lemma reject_after_getres : (asrv_alloc 1 1 7 3 5 true ;; pk repeated None ;; getvoidres 1 ;; reject_auth 1 5) (sample_world true true) = Wild.
Proof. vm_compute. reflexivity. Qed.
(** An answer that cannot be coded is freed but stays in the table: the next call, at the same address, is taken for its own repetition and never served. *)
Lemma failed_reply_dangles : log_of ((asrv_alloc 1 1 7 3 5 true ;; pk repeated (Some (sample_addr 5)) ;; svccb_reply 1 [1] None false ;; pk (sample_call 10 7 3 0 []) (Some (sample_addr 6))) (sample_world false false)) = Done [Serve 1 (Some 1%positive)].
Proof. vm_compute. reflexivity. Qed.
(** The count of calls being served is not decreased for answers that are kept, so that [encrypt] refuses the connection ever after. *)
Lemma services_leak : exists xi, w_xis sample_conn_world !! 1%positive = Some xi /\ xi_nsvc xi = 1.
Proof. eexists. split; vm_compute; reflexivity. Qed.
(** After the end of a connection, answered calls are not freed. *)
Lemma delayed_eof_leaks : exists w sbp, (delayed_eof_alloc 1 1 7 3 5 true ;; pk repeated None ;; xhinfo_dispatch 1 [] (-1) None ;; svccb_reply 1 [] None false) (sample_world true true) = Done (tt, w) /\ w_heap w !! 1%positive = Some sbp /\ w_log w = [Serve 1 (Some 1%positive); EofCallback 1; Serve 1 None].
Proof. do 2 eexists. split; [|split]; vm_compute; reflexivity. Qed.
