(* ===== verification/Core.v ===== *)
(** * The event loop: [async/core.C] (and the times of [async/amisc.h])

    Programs register callbacks for times, descriptors, signals, children and for
    idle moments; [amain] calls them.  A callback may register and remove others while
    the loop walks over its own data, so callbacks run inside of the loop here:
    [behave] says what the program's callback number [n] does after a log of what
    has happened so far.  The kernel is a list of answers: times, what [select]
    reports, children that have ended, and the signals that arrive at each point where one may
    be caught ([interrupt]).

    Timers and idle callbacks are in maps from addresses; what is not in its map
    is not allocated.  The tree of timers is the sequence of its nodes in order
    ([ItreeProps.v] shows that [itree] is such a sequence, that equal keys keep the order of
    insertion and that a look-up finds the first), the table of children is a
    map ([IhashProps.v]). *)
From Stdlib Require Import ZArith Lia.
From stdpp Require Import prelude gmap.
From S2P Require Import Prelude.

(** ** Times *)
Record timespec := mkts { tv_sec : Z; tv_nsec : Z }.
Definition tscmp (a b : timespec) : Z :=
  if tv_sec a <? tv_sec b then -1
  else if tv_sec b <? tv_sec a then 1
  else if tv_nsec a <? tv_nsec b then -1
  else if tv_nsec b <? tv_nsec a then 1 else 0.
Definition ts_lt (a b : timespec) : bool := tscmp a b <? 0.
Definition ts_le (a b : timespec) : bool := tscmp a b <=? 0.
Definition ts_eq (a b : timespec) : bool := (tv_nsec a =? tv_nsec b) && (tv_sec a =? tv_sec b).
Definition ts_add (a b : timespec) : timespec :=
  let ts := mkts (tv_sec a + tv_sec b) (tv_nsec a + tv_nsec b) in
  if 1000000000 <? tv_nsec ts then mkts (tv_sec ts + 1) (tv_nsec ts - 1000000000) else ts.
Definition ts_sub (a b : timespec) : timespec :=
  if tv_nsec b <? tv_nsec a then mkts (tv_sec a - tv_sec b) (tv_nsec a - tv_nsec b)
  else mkts (tv_sec a - tv_sec b - 1) (tv_nsec a + 1000000000 - tv_nsec b).

(** ** The state *)
Inductive cb := CbNull | CbChldCheck | CbUser (n : Z).
#[export] Instance cb_eq_dec : EqDecision cb.
Proof. solve_decision. Defined.
Definition selread : Z := 0.
Definition selwrite : Z := 1.
Definition fdsn : Z := 2.
Definition nsig : Z := 65.
Definition SIGCHLD : Z := 17.
(** [sigaction] refuses [SIGKILL] and [SIGSTOP], and [sigcb] panics then. *)
Definition sigaction_ok (sig : Z) : bool := negb ((sig =? 9) || (sig =? 19)).

Inductive origin := OTimer (p : positive) | OFd (fd op : Z) | OSig (sig : Z) | OChld (pid status : Z) | OLazy (p : positive).
(** What happened: a callback was registered, removed or called. *)
Inductive event := NewTimer (p : positive) (ts : timespec) (c : cb) | OldTimer (p : positive) | NewLazy (p : positive) (c : cb) | OldLazy (p : positive)
| SetFd (fd op : Z) (c : option cb) | SetSig (sig : Z) (c : option cb) | SetChld (pid : Z) (c : option cb) | Call (o : origin) (c : cb) (now : timespec).
Inductive action :=
| Timecb (ts : timespec) (c : cb)
| Delaycb (sec nsec : Z) (c : cb)
| TimecbRemove (p : option positive)
| Fdcb (fd op : Z) (c : option cb)
| Sigcb (sig : Z) (c : option cb)
| Lazycb (interval : Z) (c : cb)
| LazycbRemove (p : positive)
| Chldcb (pid : Z) (c : option cb)
| Acheck.
Inductive select_answer := SelReady (l : list (Z * Z)) | SelIntr | SelError.
Record kernel := mkkernel { k_clock : list timespec; k_select : list select_answer; k_wait : list (Z * Z); k_signals : list (list Z) }.
Record lazycb_t := mklazy { lz_interval : Z; lz_next : Z; lz_cb : cb }.
Record world := mkw {
  tsnow : timespec; selwait : Z * Z;
  timers : gmap positive (timespec * cb); timecbs : list positive; timecbs_altered : bool;
  lazies : gmap positive lazycb_t; lazylist : list positive; lazycb_removed : bool;
  fdcbs : gmap (Z * Z) cb; fdsp : gset (Z * Z); fdspt : gset (Z * Z); nselfd : Z; maxfd : Z;
  sigpipe : Z; sigdocheck : bool; sigcaught : gset Z; sighandler : gmap Z cb;
  chldcbs : gmap Z cb; sigpipes_made : bool; amain_panic : bool; amain_called : bool;
  kern : kernel; next_addr : positive; log : list event
}.
Definition set_now (w : world) x := mkw x (selwait w) (timers w) (timecbs w) (timecbs_altered w) (lazies w) (lazylist w) (lazycb_removed w) (fdcbs w) (fdsp w) (fdspt w) (nselfd w) (maxfd w) (sigpipe w) (sigdocheck w) (sigcaught w) (sighandler w) (chldcbs w) (sigpipes_made w) (amain_panic w) (amain_called w) (kern w) (next_addr w) (log w).
Definition set_selwait (w : world) x := mkw (tsnow w) x (timers w) (timecbs w) (timecbs_altered w) (lazies w) (lazylist w) (lazycb_removed w) (fdcbs w) (fdsp w) (fdspt w) (nselfd w) (maxfd w) (sigpipe w) (sigdocheck w) (sigcaught w) (sighandler w) (chldcbs w) (sigpipes_made w) (amain_panic w) (amain_called w) (kern w) (next_addr w) (log w).
Definition set_timers (w : world) m l a := mkw (tsnow w) (selwait w) m l a (lazies w) (lazylist w) (lazycb_removed w) (fdcbs w) (fdsp w) (fdspt w) (nselfd w) (maxfd w) (sigpipe w) (sigdocheck w) (sigcaught w) (sighandler w) (chldcbs w) (sigpipes_made w) (amain_panic w) (amain_called w) (kern w) (next_addr w) (log w).
Definition set_lazies (w : world) m l r := mkw (tsnow w) (selwait w) (timers w) (timecbs w) (timecbs_altered w) m l r (fdcbs w) (fdsp w) (fdspt w) (nselfd w) (maxfd w) (sigpipe w) (sigdocheck w) (sigcaught w) (sighandler w) (chldcbs w) (sigpipes_made w) (amain_panic w) (amain_called w) (kern w) (next_addr w) (log w).
Definition set_fds (w : world) c s t n := mkw (tsnow w) (selwait w) (timers w) (timecbs w) (timecbs_altered w) (lazies w) (lazylist w) (lazycb_removed w) c s t n (maxfd w) (sigpipe w) (sigdocheck w) (sigcaught w) (sighandler w) (chldcbs w) (sigpipes_made w) (amain_panic w) (amain_called w) (kern w) (next_addr w) (log w).
Definition set_sigs (w : world) p d c h := mkw (tsnow w) (selwait w) (timers w) (timecbs w) (timecbs_altered w) (lazies w) (lazylist w) (lazycb_removed w) (fdcbs w) (fdsp w) (fdspt w) (nselfd w) (maxfd w) p d c h (chldcbs w) (sigpipes_made w) (amain_panic w) (amain_called w) (kern w) (next_addr w) (log w).
Definition set_chldcbs (w : world) x := mkw (tsnow w) (selwait w) (timers w) (timecbs w) (timecbs_altered w) (lazies w) (lazylist w) (lazycb_removed w) (fdcbs w) (fdsp w) (fdspt w) (nselfd w) (maxfd w) (sigpipe w) (sigdocheck w) (sigcaught w) (sighandler w) x (sigpipes_made w) (amain_panic w) (amain_called w) (kern w) (next_addr w) (log w).
Definition set_flags (w : world) a b := mkw (tsnow w) (selwait w) (timers w) (timecbs w) (timecbs_altered w) (lazies w) (lazylist w) (lazycb_removed w) (fdcbs w) (fdsp w) (fdspt w) (nselfd w) (maxfd w) (sigpipe w) (sigdocheck w) (sigcaught w) (sighandler w) (chldcbs w) a (amain_panic w) b (kern w) (next_addr w) (log w).
Definition set_kern (w : world) x := mkw (tsnow w) (selwait w) (timers w) (timecbs w) (timecbs_altered w) (lazies w) (lazylist w) (lazycb_removed w) (fdcbs w) (fdsp w) (fdspt w) (nselfd w) (maxfd w) (sigpipe w) (sigdocheck w) (sigcaught w) (sighandler w) (chldcbs w) (sigpipes_made w) (amain_panic w) (amain_called w) x (next_addr w) (log w).
Definition set_next_addr (w : world) x := mkw (tsnow w) (selwait w) (timers w) (timecbs w) (timecbs_altered w) (lazies w) (lazylist w) (lazycb_removed w) (fdcbs w) (fdsp w) (fdspt w) (nselfd w) (maxfd w) (sigpipe w) (sigdocheck w) (sigcaught w) (sighandler w) (chldcbs w) (sigpipes_made w) (amain_panic w) (amain_called w) (kern w) x (log w).
Definition add_log (w : world) e := mkw (tsnow w) (selwait w) (timers w) (timecbs w) (timecbs_altered w) (lazies w) (lazylist w) (lazycb_removed w) (fdcbs w) (fdsp w) (fdspt w) (nselfd w) (maxfd w) (sigpipe w) (sigdocheck w) (sigcaught w) (sighandler w) (chldcbs w) (sigpipes_made w) (amain_panic w) (amain_called w) (kern w) (next_addr w) (log w ++ [e]).

Definition E (A : Type) : Type := world -> outcome (A * world).
#[export] Instance E_ret : MRet E := fun A a w => Done (a, w).
#[export] Instance E_bind : MBind E := fun A B k m w => match m w with Done (a, w) => k a w | Panic => Panic | Wild => Wild | Spin => Spin end.
Definition lift {A} (o : outcome A) : E A := fun w => match o with Done a => Done (a, w) | Panic => Panic | Wild => Wild | Spin => Spin end.
Definition get : E world := fun w => Done (w, w).
Definition modify (f : world -> world) : E unit := fun w => Done (tt, f w).

(** ** The kernel *)
Definition clock_gettime : E timespec := fun w =>
  match k_clock (kern w) with
  | [] => Done (tsnow w, w)
  | t :: ts => Done (t, set_kern w (mkkernel ts (k_select (kern w)) (k_wait (kern w)) (k_signals (kern w))))
  end.
Definition get_tsnow : E unit := t ← clock_gettime; modify (fun w => set_now w t).
Definition waitpid : E (Z * Z) := fun w =>
  match k_wait (kern w) with
  | [] => Done ((0, 0), w)
  | r :: rs => Done (r, set_kern w (mkkernel (k_clock (kern w)) (k_select (kern w)) rs (k_signals (kern w))))
  end.
(** The sets of [select] are cut to those asked for, of descriptors below [nselfd]. *)
Definition select : E (option Z) := fun w =>
  match k_select (kern w) with
  | [] => Done (Some 0, set_fds w (fdcbs w) (fdsp w) ∅ (nselfd w))
  | a :: l =>
      let w := set_kern w (mkkernel (k_clock (kern w)) l (k_wait (kern w)) (k_signals (kern w))) in
      match a with
      | SelReady r => let s := filter (fun f => f ∈ r /\ f.1 < nselfd w) (fdspt w) in Done (Some (Z.of_nat (size s)), set_fds w (fdcbs w) (fdsp w) s (nselfd w))
      | SelIntr => Done (Some (-1), w)
      | SelError => Done (None, w)
      end
  end.
(** The handler of signals, and the arrival of those that it is installed for; [sigpipe] counts the bytes
    in the pipe, and before [ainit] there is none to write to. *)
Definition sigcatch (sig : Z) : E unit :=
  modify (fun w => set_selwait (set_sigs w (if sigpipes_made w then sigpipe w + 1 else sigpipe w) true ({[sig]} ∪ sigcaught w) (sighandler w)) (0, 0)).
Fixpoint deliver (l : list Z) : E unit :=
  match l with [] => mret tt | s :: l => w ← get; (if bool_decide (is_Some (sighandler w !! s)) then sigcatch s else mret tt) ;; deliver l end.
Definition interrupt : E unit := fun w =>
  match k_signals (kern w) with
  | [] => Done (tt, w)
  | l :: ls => deliver l (set_kern w (mkkernel (k_clock (kern w)) (k_select (kern w)) (k_wait (kern w)) ls))
  end.

(** ** Registration *)
Definition new_addr : E positive := fun w => Done (next_addr w, set_next_addr w (Pos.succ (next_addr w))).
Definition emit (e : event) : E unit := modify (fun w => add_log w e).
Definition load_timer (w : world) (p : positive) : outcome (timespec * cb) := match timers w !! p with Some t => Done t | None => Wild end.

Definition chldcb (pid : Z) (c : option cb) : E unit :=
  modify (fun w => set_chldcbs w (delete pid (chldcbs w))) ;;
  match c with Some c => modify (fun w => set_chldcbs w (<[pid := c]> (chldcbs w))) | None => mret tt end ;;
  emit (SetChld pid c).

Definition free_timer (p : positive) : E unit :=
  w ← get; _ ← lift (load_timer w p); modify (fun w => set_timers w (delete p (timers w)) (timecbs w) (timecbs_altered w)).
(** A timer goes behind those that are not later. *)
Fixpoint tree_insert (w : world) (l : list positive) (p : positive) (ts : timespec) : outcome (list positive) :=
  match l with
  | [] => Done [p]
  | q :: l' => t ← load_timer w q; if ts_lt ts t.1 then Done (p :: l) else r ← tree_insert w l' p ts; Done (q :: r)
  end.
Definition timecb (ts : timespec) (c : cb) : E positive :=
  p ← new_addr;
  w ← get; l ← lift (tree_insert w (timecbs w) p ts);
  modify (fun w => set_timers w (<[p := (ts, c)]> (timers w)) l (timecbs_altered w)) ;;
  emit (NewTimer p ts c) ;; mret p.
Definition delaycb (sec nsec : Z) (c : cb) : E positive :=
  t ← clock_gettime;
  let ts := mkts (tv_sec t + sec) (tv_nsec t + nsec) in
  timecb (if 1000000000 <=? tv_nsec ts then mkts (tv_sec ts + 1) (tv_nsec ts - 1000000000) else ts) c.
(** [timecbs[ts]]: the sequence from the first timer of that time on *)
Fixpoint tree_from (w : world) (l : list positive) (ts : timespec) : outcome (list positive) :=
  match l with
  | [] => Done []
  | q :: l' => t ← load_timer w q; if tscmp ts t.1 =? 0 then Done l else tree_from w l' ts
  end.
Fixpoint remove_walk (w : world) (l : list positive) (ts : timespec) (to : positive) : outcome unit :=
  match l with
  | [] => Panic
  | tp :: l => if decide (tp = to) then Done tt else t ← load_timer w tp; if negb (ts_eq t.1 ts) then Panic else remove_walk w l ts to
  end.
Definition timecb_remove (to : option positive) : E unit :=
  match to with
  | None => mret tt
  | Some to =>
      w ← get; t ← lift (load_timer w to);
      l ← lift (tree_from w (timecbs w) t.1); lift (remove_walk w l t.1 to) ;;
      modify (fun w => set_timers w (delete to (timers w)) (filter (fun q => q <> to) (timecbs w)) true) ;;
      emit (OldTimer to)
  end.

Definition fdcb (fd op : Z) (c : option cb) : E unit :=
  w ← get; lift (assertM (0 <=? fd)) ;; lift (assertM (fd <? maxfd w)) ;;
  match c with
  | Some c => modify (fun w => set_fds w (<[(fd, op) := c]> (fdcbs w)) ({[(fd, op)]} ∪ fdsp w) (fdspt w) (if nselfd w <=? fd then fd + 1 else nselfd w))
  | None => modify (fun w => set_fds w (delete (fd, op) (fdcbs w)) (fdsp w ∖ {[(fd, op)]}) (fdspt w) (nselfd w))
  end ;;
  emit (SetFd fd op c).
Definition sigcb (sig : Z) (c : option cb) : E (option cb) :=
  lift (assertM ((0 <? sig) && (sig <? nsig))) ;; lift (assertM (sigaction_ok sig)) ;;
  w ← get; let ocb := sighandler w !! sig in
  modify (fun w => set_sigs w (sigpipe w) (sigdocheck w) (sigcaught w) (match c with Some c => <[sig := c]> (sighandler w) | None => delete sig (sighandler w) end)) ;;
  emit (SetSig sig c) ;; mret ocb.
Definition lazycb (interval : Z) (c : cb) : E positive :=
  p ← new_addr;
  modify (fun w => set_lazies w (<[p := mklazy interval (tv_sec (tsnow w) + interval) c]> (lazies w)) (p :: lazylist w) (lazycb_removed w)) ;;
  emit (NewLazy p c) ;; mret p.
Definition lazycb_remove (p : positive) : E unit :=
  modify (fun w => set_lazies w (lazies w) (lazylist w) true) ;;
  w ← get; (if bool_decide (is_Some (lazies w !! p)) then mret tt else lift Wild) ;;
  modify (fun w => set_lazies w (delete p (lazies w)) (filter (fun q => q <> p) (lazylist w)) (lazycb_removed w)) ;;
  emit (OldLazy p).

(** ** The checks *)
(** The element behind [p] *)
Fixpoint next_of (l : list positive) (p : positive) : outcome (option positive) :=
  match l with [] => Wild | q :: l => if decide (q = p) then Done (head l) else next_of l p end.

Section checks.
(** [call o c] calls the callback [c]; [budget] bounds the turns of the two loops that callbacks may extend;
    [sigpipe0] is the descriptor that [pipe] gives for [sigpipes[0]]. *)
Variable call : origin -> cb -> E unit.
Variable budget : nat.
Variable sigpipe0 : Z.

Fixpoint chldcb_loop (n : nat) : E unit :=
  r ← waitpid;
  if (r.1 =? 0) || (r.1 =? -1) then mret tt
  else
    w ← get;
    match chldcbs w !! r.1 with
    | Some c => modify (fun w => set_chldcbs w (delete r.1 (chldcbs w))) ;; call (OChld r.1 r.2) c
    | None => mret tt
    end ;;
    match n with O => lift Spin | S n => chldcb_loop n end.
Definition chldcb_check : E unit := w ← get; chldcb_loop (length (k_wait (kern w))).

(** One turn of the loop of [timecb_check]: [None] leaves the loop, [Some] is the next [tp]. *)
Definition timecb_turn (tp : positive) : E (option (option positive)) :=
  w ← get; t ← lift (load_timer w tp);
  if ts_le t.1 (tsnow w) then
    ntp ← lift (next_of (timecbs w) tp);
    modify (fun w => set_timers w (timers w) (filter (fun q => q <> tp) (timecbs w)) false) ;;
    call (OTimer tp) t.2 ;;
    free_timer tp ;;
    w ← get; mret (Some (if timecbs_altered w then head (timecbs w) else ntp))
  else mret None.
Fixpoint timecb_loop (n : nat) (tp : option positive) : E unit :=
  match tp with
  | None => mret tt
  | Some tp => r ← timecb_turn tp; match r with None => mret tt | Some tp => match n with O => lift Spin | S n => timecb_loop n tp end end
  end.
Definition wait_for (ts now : timespec) : Z * Z :=
  if ts_lt ts now then (0, 0)
  else if tv_nsec now <=? tv_nsec ts then (tv_sec ts - tv_sec now, (tv_nsec ts - tv_nsec now) ÷ 1000)
  else (tv_sec ts - tv_sec now - 1, (1000000000 + tv_nsec ts - tv_nsec now) ÷ 1000).
Definition timecb_check : E unit :=
  get_tsnow ;;
  w ← get; timecb_loop budget (head (timecbs w)) ;;
  w ← get;
  match head (timecbs w) with
  | None => modify (fun w => set_selwait w (86400, 0))
  | Some tp => get_tsnow ;; w ← get; t ← lift (load_timer w tp); modify (fun w => set_selwait w (wait_for t.1 (tsnow w)))
  end ;;
  interrupt ;;
  w ← get; if sigdocheck w then modify (fun w => set_selwait w (0, 0)) else mret tt.

(** The loop over the signals, with arrivals before and after a signal is reset *)
Fixpoint sig_loop (n : nat) (i : Z) : E unit :=
  match n with
  | O => mret tt
  | S n =>
      interrupt ;;
      w ← get;
      (if bool_decide (i ∈ sigcaught w) then
         modify (fun w => set_sigs w (sigpipe w) (sigdocheck w) (sigcaught w ∖ {[i]}) (sighandler w)) ;;
         interrupt ;;
         w ← get; match sighandler w !! i with Some c => call (OSig i) c | None => mret tt end
       else mret tt) ;;
      sig_loop n (i + 1)
  end.
Definition sigcb_check : E unit :=
  w ← get;
  if sigdocheck w then
    modify (fun w => set_sigs w 0 (sigdocheck w) (sigcaught w) (sighandler w)) ;;
    interrupt ;;
    modify (fun w => set_sigs w (sigpipe w) false (sigcaught w) (sighandler w)) ;;
    sig_loop (Z.to_nat (nsig - 1)) 1
  else mret tt.

Definition fd_one (fd op n : Z) : E Z :=
  w ← get;
  if bool_decide ((fd, op) ∈ fdspt w) then
    (if bool_decide ((fd, op) ∈ fdsp w) then match fdcbs w !! (fd, op) with Some c => call (OFd fd op) c | None => lift Wild end else mret tt) ;;
    mret (n - 1)
  else mret n.
Fixpoint fd_loop (k : nat) (fd n : Z) : E unit :=
  match k with
  | O => mret tt
  | S k => if 0 <? n then n ← fd_one fd selread n; n ← fd_one fd selwrite n; fd_loop k (fd + 1) n else mret tt
  end.
Definition fdcb_check : E unit :=
  modify (fun w => set_fds w (fdcbs w) (fdsp w) (fdsp w) (nselfd w)) ;;
  interrupt ;;
  n ← select;
  match n with
  | None => lift Panic
  | Some n =>
      interrupt ;;
      get_tsnow ;;
      w ← get; (if sigdocheck w then sigcb_check else mret tt) ;;
      w ← get; fd_loop (Z.to_nat (maxfd w)) 0 n
  end.

(** One turn of the loop of [lazycb_check]; after a removal it starts again. *)
Definition lazy_turn (p : positive) : E (option positive) :=
  w ← get;
  match lazies w !! p with
  | None => lift Wild
  | Some lz =>
      if tv_sec (tsnow w) <? lz_next lz then lift (next_of (lazylist w) p)
      else
        modify (fun w => set_lazies w (<[p := mklazy (lz_interval lz) (tv_sec (tsnow w) + lz_interval lz) (lz_cb lz)]> (lazies w)) (lazylist w) (lazycb_removed w)) ;;
        call (OLazy p) (lz_cb lz) ;;
        w ← get;
        if lazycb_removed w then modify (fun w => set_lazies w (lazies w) (lazylist w) false) ;; mret (head (lazylist w))
        else lift (next_of (lazylist w) p)
  end.
Fixpoint lazy_loop (n : nat) (lazy : option positive) : E unit :=
  match lazy with None => mret tt | Some p => o ← lazy_turn p; match n with O => lift Spin | S n => lazy_loop n o end end.
Definition lazycb_check : E unit :=
  get_tsnow ;;
  modify (fun w => set_lazies w (lazies w) (lazylist w) false) ;;
  w ← get; lazy_loop budget (head (lazylist w)).

(** ** The loop *)
Definition ainit : E unit :=
  w ← get;
  if sigpipes_made w then mret tt
  else
    modify (fun w => set_flags w true (amain_called w)) ;;
    fdcb sigpipe0 selread (Some CbNull) ;;
    _ ← sigcb SIGCHLD (Some CbChldCheck);
    sigcatch SIGCHLD.
Definition _acheck : E unit :=
  w ← get; lift (assertM (negb (amain_panic w))) ;;
  lazycb_check ;; fdcb_check ;; sigcb_check ;; timecb_check.
Definition acheck : E unit := timecb_check ;; ainit ;; _acheck.
Fixpoint rounds (n : nat) : E unit := match n with O => mret tt | S n => _acheck ;; rounds n end.
(** The first [n] rounds of [amain] *)
Definition amain (n : nat) : E unit :=
  w ← get; lift (assertM (negb (amain_called w))) ;;
  modify (fun w => set_flags w (sigpipes_made w) true) ;;
  ainit ;; timecb_check ;; rounds n.
End checks.

(** ** Callbacks *)
Section callbacks.
Variable behave : list event -> Z -> list action.
Variable budget : nat.
Variable sigpipe0 : Z.

Section actions.
Variable call : origin -> cb -> E unit.
Definition do_action (a : action) : E unit :=
  match a with
  | Timecb ts c => _ ← timecb ts c; mret tt
  | Delaycb sec nsec c => _ ← delaycb sec nsec c; mret tt
  | TimecbRemove p => timecb_remove p
  | Fdcb fd op c => fdcb fd op c
  | Sigcb sig c => _ ← sigcb sig c; mret tt
  | Lazycb i c => _ ← lazycb i c; mret tt
  | LazycbRemove p => lazycb_remove p
  | Chldcb pid c => chldcb pid c
  | Acheck => acheck call budget sigpipe0
  end.
Fixpoint do_actions (l : list action) : E unit := match l with [] => mret tt | a :: l => do_action a ;; do_actions l end.
End actions.
(** [depth] bounds the nesting of callbacks that call [acheck]. *)
Fixpoint call_cb (depth : nat) (o : origin) (c : cb) : E unit :=
  match depth with
  | O => lift Spin
  | S depth =>
      w ← get; emit (Call o c (tsnow w)) ;;
      match c with
      | CbNull => mret tt
      | CbChldCheck => chldcb_check (call_cb depth)
      | CbUser n => w ← get; do_actions (call_cb depth) (behave (log w) n)
      end
  end.
End callbacks.

(** The state that [async_init::start] leaves *)
Definition start_world (maxfd : Z) (k : kernel) : world :=
  mkw (mkts 0 0) (0, 0) ∅ [] false ∅ [] false ∅ ∅ ∅ 0 maxfd 0 false ∅ ∅ ∅ false false false k 1 [].
