(* ===== verification/CoreProps.v ===== *)
(** * The event loop: theorems on [Core.v]

    The log says which callbacks are registered ([reg_of]).  For any program whose
    callbacks remove only what is registered and do not call [acheck] themselves, and for any
    kernel, the loop calls only what is registered, and timers not before their
    time; it follows no pointer that is not valid, and no signal is lost. *)
From Stdlib Require Import ZArith Lia.
From stdpp Require Import prelude gmap sorting.
From S2P Require Import Prelude Core.

(** ** Times *)
Lemma tscmp_spec a b : (tscmp a b < 0 <-> tv_sec a < tv_sec b \/ (tv_sec a = tv_sec b /\ tv_nsec a < tv_nsec b)) /\ (tscmp a b = 0 <-> a = b) /\ (tscmp a b <= 0 <-> tv_sec a < tv_sec b \/ (tv_sec a = tv_sec b /\ tv_nsec a <= tv_nsec b)).
Proof.
  destruct a as [s n], b as [s' n']. unfold tscmp. cbn [tv_sec tv_nsec]. split; [|split].
  - repeat case_match; lia.
  - split; [|intros [= -> ->]; repeat case_match; lia]. repeat case_match; intros; try lia. f_equal; lia.
  - repeat case_match; lia.
Qed.
Lemma ts_lt_false a b : ts_lt a b = false -> tscmp b a <= 0.
Proof. unfold ts_lt. intros H%Z.ltb_ge. destruct (tscmp_spec a b) as (H1 & H2 & H3), (tscmp_spec b a) as (H4 & H5 & H6). lia. Qed.
Lemma ts_lt_true a b : ts_lt a b = true -> tscmp a b <= 0.
Proof. unfold ts_lt. intros H%Z.ltb_lt. lia. Qed.
Lemma tscmp_trans a b c : tscmp a b <= 0 -> tscmp b c <= 0 -> tscmp a c <= 0.
Proof. destruct (tscmp_spec a b) as (_ & _ & H1), (tscmp_spec b c) as (_ & _ & H2), (tscmp_spec a c) as (_ & _ & H3). lia. Qed.
Lemma tscmp_antisym a b : tscmp a b <= 0 -> tscmp b a <= 0 -> a = b.
Proof. destruct (tscmp_spec a b) as (_ & _ & H1), (tscmp_spec b a) as (_ & _ & H2). destruct a, b. cbn in *. intros. f_equal; lia. Qed.
Lemma tscmp_refl a : tscmp a a = 0.
Proof. by apply tscmp_spec. Qed.
Lemma ts_eq_spec a b : ts_eq a b = true <-> a = b.
Proof. unfold ts_eq. rewrite andb_true_iff, !Z.eqb_eq. destruct a, b. cbn. naive_solver. Qed.

(** ** What is registered *)
Record registry := mkreg { rg_timers : gmap positive (timespec * cb); rg_lazies : gmap positive cb; rg_fds : gmap (Z * Z) cb; rg_sigs : gmap Z cb; rg_chlds : gmap Z cb; rg_next : positive }.
Definition reg_step (r : registry) (e : event) : registry :=
  match e with
  | NewTimer p ts c => mkreg (<[p := (ts, c)]> (rg_timers r)) (rg_lazies r) (rg_fds r) (rg_sigs r) (rg_chlds r) (Pos.succ p)
  | OldTimer p | Call (OTimer p) _ _ => mkreg (delete p (rg_timers r)) (rg_lazies r) (rg_fds r) (rg_sigs r) (rg_chlds r) (rg_next r)
  | NewLazy p c => mkreg (rg_timers r) (<[p := c]> (rg_lazies r)) (rg_fds r) (rg_sigs r) (rg_chlds r) (Pos.succ p)
  | OldLazy p => mkreg (rg_timers r) (delete p (rg_lazies r)) (rg_fds r) (rg_sigs r) (rg_chlds r) (rg_next r)
  | SetFd fd op c => mkreg (rg_timers r) (rg_lazies r) (partial_alter (fun _ => c) (fd, op) (rg_fds r)) (rg_sigs r) (rg_chlds r) (rg_next r)
  | SetSig s c => mkreg (rg_timers r) (rg_lazies r) (rg_fds r) (partial_alter (fun _ => c) s (rg_sigs r)) (rg_chlds r) (rg_next r)
  | SetChld pid c => mkreg (rg_timers r) (rg_lazies r) (rg_fds r) (rg_sigs r) (partial_alter (fun _ => c) pid (rg_chlds r)) (rg_next r)
  | Call (OChld pid _) _ _ => mkreg (rg_timers r) (rg_lazies r) (rg_fds r) (rg_sigs r) (delete pid (rg_chlds r)) (rg_next r)
  | Call _ _ _ => r
  end.
Definition reg_of (l : list event) : registry := foldl reg_step (mkreg ∅ ∅ ∅ ∅ ∅ 1) l.
(** A call is of what is registered, a timer's when its time has come; addresses are new. *)
Definition called_ok (r : registry) (e : event) : Prop :=
  match e with
  | Call (OTimer p) c now => exists ts, rg_timers r !! p = Some (ts, c) /\ ts_le ts now = true
  | Call (OFd fd op) c _ => rg_fds r !! (fd, op) = Some c
  | Call (OSig s) c _ => rg_sigs r !! s = Some c
  | Call (OChld pid _) c _ => rg_chlds r !! pid = Some c
  | Call (OLazy p) c _ => rg_lazies r !! p = Some c
  | NewTimer p _ _ | NewLazy p _ => p = rg_next r
  | _ => True
  end.
Definition log_ok (l : list event) : Prop := forall l1 e l2, l = l1 ++ e :: l2 -> called_ok (reg_of l1) e.
Lemma reg_of_snoc l e : reg_of (l ++ [e]) = reg_step (reg_of l) e.
Proof. unfold reg_of. by rewrite foldl_app. Qed.
Lemma log_ok_snoc l e : log_ok l -> called_ok (reg_of l) e -> log_ok (l ++ [e]).
Proof.
  intros Hl He l1 e' l2 E. destruct l2 as [|x l2' _] using rev_ind.
  - apply app_inj_tail in E as [-> ->]. done.
  - rewrite app_comm_cons, app_assoc in E. apply app_inj_tail in E as [-> ->]. by eapply Hl.
Qed.
Lemma log_ok_nil : log_ok [].
Proof. by intros [] ? ?. Qed.

(** ** Programs *)
(** [maxfd] descriptors with [fdsn] operations, signals that may be caught; a callback removes only what is registered. *)
Definition act_ok (maxfd : Z) (r : registry) (a : action) : Prop :=
  match a with
  | TimecbRemove (Some p) => is_Some (rg_timers r !! p)
  | Fdcb fd op _ => 0 <= fd < maxfd /\ 0 <= op < fdsn
  | Sigcb s _ => 0 < s < nsig /\ sigaction_ok s = true
  | LazycbRemove p => is_Some (rg_lazies r !! p)
  | Acheck => False
  | _ => True
  end.
Fixpoint acts_ok (maxfd : Z) (r : registry) (l : list action) : Prop :=
  match l with
  | [] => True
  | a :: l => act_ok maxfd r a /\
      match a with
      | Timecb ts c => acts_ok maxfd (reg_step r (NewTimer (rg_next r) ts c)) l
      | Delaycb _ _ c => forall ts, acts_ok maxfd (reg_step r (NewTimer (rg_next r) ts c)) l
      | TimecbRemove (Some p) => acts_ok maxfd (reg_step r (OldTimer p)) l
      | Fdcb fd op c => acts_ok maxfd (reg_step r (SetFd fd op c)) l
      | Sigcb s c => acts_ok maxfd (reg_step r (SetSig s c)) l
      | Lazycb _ c => acts_ok maxfd (reg_step r (NewLazy (rg_next r) c)) l
      | LazycbRemove p => acts_ok maxfd (reg_step r (OldLazy p)) l
      | Chldcb pid c => acts_ok maxfd (reg_step r (SetChld pid c)) l
      | TimecbRemove None | Acheck => acts_ok maxfd r l
      end
  end.
Definition polite (maxfd : Z) (behave : list event -> Z -> list action) : Prop := forall l n, acts_ok maxfd (reg_of l) (behave l n).

(** ** The invariant *)
(** [X] are timers whose callbacks run, and signals below [i] that were caught have been seen. *)
Record inv (X : list positive) (i : Z) (w : world) : Prop := {
  iv_log : log_ok (log w);
  iv_next : rg_next (reg_of (log w)) = next_addr w;
  iv_in p : p ∈ timecbs w -> is_Some (timers w !! p) /\ rg_timers (reg_of (log w)) !! p = timers w !! p;
  iv_out p : p ∉ timecbs w -> rg_timers (reg_of (log w)) !! p = None;
  iv_nodup : NoDup (timecbs w);
  iv_sorted : StronglySorted (fun p q => forall a b, timers w !! p = Some a -> timers w !! q = Some b -> tscmp a.1 b.1 <= 0) (timecbs w);
  iv_running p : p ∈ X -> is_Some (timers w !! p) /\ p ∉ timecbs w;
  iv_alloc p : is_Some (timers w !! p) -> p ∈ timecbs w \/ p ∈ X;
  iv_fresh p : is_Some (timers w !! p) -> (p < next_addr w)%positive;
  iv_lazies : rg_lazies (reg_of (log w)) = lz_cb <$> lazies w;
  iv_lazylist p : p ∈ lazylist w <-> is_Some (lazies w !! p);
  iv_lnodup : NoDup (lazylist w);
  iv_lfresh p : is_Some (lazies w !! p) -> (p < next_addr w)%positive;
  iv_fds : rg_fds (reg_of (log w)) = fdcbs w;
  iv_set f : f ∈ fdsp w <-> is_Some (fdcbs w !! f);
  iv_nsel f : f ∈ fdsp w -> 0 <= f.1 < nselfd w /\ f.1 < maxfd w;
  iv_sigs : rg_sigs (reg_of (log w)) = sighandler w;
  iv_sigrange s : is_Some (sighandler w !! s) -> 0 < s < nsig;
  iv_caught s : s ∈ sigcaught w -> 0 < s < nsig /\ (sigdocheck w = true \/ i <= s);
  iv_pipe : sigpipes_made w = true -> sigdocheck w = true -> 0 < sigpipe w;
  iv_pipe0 : 0 <= sigpipe w;
  iv_chlds : rg_chlds (reg_of (log w)) = chldcbs w
}.
(** The clock does not run backwards and idle callbacks have an interval. *)
Definition live (w : world) : Prop := StronglySorted (fun a b => tscmp a b <= 0) (tsnow w :: k_clock (kern w)) /\ forall p lz, lazies w !! p = Some lz -> 0 < lz_interval lz.
(** What is due in [w'] was due in [w]. *)
Definition quiet (w w' : world) : Prop :=
  (forall p t, p ∈ timecbs w' -> timers w' !! p = Some t -> ts_le t.1 (tsnow w) = true -> p ∈ timecbs w /\ timers w !! p = Some t) /\
  (forall p lz, lazies w' !! p = Some lz -> lz_next lz <= tv_sec (tsnow w) -> lazies w !! p = Some lz).
Lemma quiet_refl w : quiet w w.
Proof. done. Qed.
Lemma quiet_trans w1 w2 w3 : tsnow w2 = tsnow w1 -> quiet w1 w2 -> quiet w2 w3 -> quiet w1 w3.
Proof.
  intros E [A1 A2] [B1 B2]. rewrite E in B1, B2. split.
  - intros p t Hp Ht Hd. destruct (B1 p t Hp Ht Hd) as [Hp2 Ht2]. by apply A1.
  - intros p lz Hp Hd. exact (A2 p lz (B2 p lz Hp Hd) Hd).
Qed.
Lemma ss_suffix {A} (Q : A -> A -> Prop) a k l : StronglySorted Q (a :: k ++ l) -> StronglySorted Q (a :: l).
Proof.
  intros [Hs Ha]%StronglySorted_inv. constructor; [by eapply StronglySorted_app_1_r|]. by apply Forall_app in Ha as [_ Ha].
Qed.
Lemma live_same w w' : tsnow w' = tsnow w -> (exists k, k_clock (kern w) = k ++ k_clock (kern w')) -> lazies w' = lazies w -> live w -> live w'.
Proof. intros E1 (k & E2) E3 [H1 H2]. unfold live. rewrite E1, E3. split; [|done]. rewrite E2 in H1. by eapply ss_suffix. Qed.
Lemma calm_same (w w' : world) : tsnow w' = tsnow w -> (exists k, k_clock (kern w) = k ++ k_clock (kern w')) -> lazies w' = lazies w -> timers w' = timers w -> timecbs w' = timecbs w -> live w -> live w' /\ quiet w w'.
Proof. intros E1 E2 E3 E4 E5 H. split; [by eapply live_same|]. unfold quiet. by rewrite E3, E4, E5. Qed.

Section runs.
(** [sp] says whether fuel may run out, [cal] whether the program registers only what comes later;
    [pipe] is the descriptor of [sigpipes[0]]. *)
Context (sp cal : Prop) (pipe : Z).
(** What callbacks leave to the loops *)
Record step (w w' : world) : Prop := {
  st_timers : timecbs_altered w' = false -> timecbs_altered w = false /\ timecbs w `sublist_of` timecbs w';
  st_lazies : lazycb_removed w' = false -> lazycb_removed w = false /\ forall q, q ∈ lazylist w -> q ∈ lazylist w';
  st_wait : (length (k_wait (kern w')) <= length (k_wait (kern w)))%nat;
  st_maxfd : maxfd w' = maxfd w;
  st_flags : sigpipes_made w' = sigpipes_made w /\ amain_panic w' = amain_panic w /\ amain_called w' = amain_called w;
  st_select : k_select (kern w') = k_select (kern w);
  st_now : tsnow w' = tsnow w;
  st_caught : sigcaught w ⊆ sigcaught w';
  st_docheck : sigdocheck w' = sigdocheck w;
  st_calm : cal -> live w -> live w' /\ quiet w w';
  st_log : exists l, log w' = log w ++ l /\ forall s, sighandler w' !! s = None -> sighandler w !! s = None \/ SetSig s None ∈ l
}.
Lemma step_refl w : step w w.
Proof. constructor; try done. exists []. rewrite app_nil_r. split; [done|]. by left. Qed.
Lemma step_trans w1 w2 w3 : step w1 w2 -> step w2 w3 -> step w1 w3.
Proof.
  intros [A1 A2 A3 A4 A5 A6 An Ac Ad Al (l & A7 & A8)] [B1 B2 B3 B4 B5 B6 Bn Bc Bd Bl (l' & B7 & B8)]. constructor.
  - intros H. apply B1 in H as [H Hs]. apply A1 in H as [H Hs']. split; [done|by etrans].
  - intros H. apply B2 in H as [H Hs]. apply A2 in H as [H Hs']. naive_solver.
  - lia.
  - congruence.
  - destruct A5 as (? & ? & ?), B5 as (? & ? & ?). split; [congruence|split; congruence].
  - congruence.
  - congruence.
  - by etrans.
  - congruence.
  - intros Hc Hl. destruct (Al Hc Hl) as [Hl2 Q2], (Bl Hc Hl2) as [Hl3 Q3]. split; [done|by eapply quiet_trans].
  - exists (l ++ l'). rewrite B7, A7, app_assoc. split; [done|]. intros s Hs. rewrite elem_of_app. destruct (B8 s Hs) as [Hs'|]; [destruct (A8 s Hs')|]; naive_solver.
Qed.

(** ** Runs *)
(** Neither a failed assertion nor an invalid pointer; [Q] holds afterwards. *)
Definition ok {A} (m : E A) (w : world) (Q : A -> world -> Prop) : Prop := match m w with Done (a, w') => Q a w' | Spin => sp | Panic | Wild => False end.
Lemma ok_bind {A B} (m : E A) (k : A -> E B) w Q : ok m w (fun a w' => ok (k a) w' Q) -> ok (m ≫= k) w Q.
Proof. unfold ok, mbind, E_bind. by destruct (m w) as [[]| | |]. Qed.
Lemma ok_weaken {A} (m : E A) w (Q Q' : A -> world -> Prop) : ok m w Q -> (forall a w', Q a w' -> Q' a w') -> ok m w Q'.
Proof. unfold ok. destruct (m w) as [[]| | |]; naive_solver. Qed.
Lemma ok_lift {A} (o : outcome A) w Q : (exists a, o = Done a /\ Q a w) -> ok (lift o) w Q.
Proof. intros (a & -> & H). done. Qed.
(** [m] keeps the invariant. *)
Definition keeps {A} (X : list positive) (i : Z) (m : E A) (w : world) : Prop := ok m w (fun _ w' => inv X i w' /\ step w w').

(** ** Registration keeps the invariant *)
Ltac wcbn := cbn [tsnow selwait timers timecbs timecbs_altered lazies lazylist lazycb_removed fdcbs fdsp fdspt nselfd maxfd sigpipe sigdocheck sigcaught sighandler chldcbs sigpipes_made amain_panic amain_called kern next_addr log
  set_now set_selwait set_timers set_lazies set_fds set_sigs set_chldcbs set_flags set_kern set_next_addr add_log rg_timers rg_lazies rg_fds rg_sigs rg_chlds rg_next reg_step].
Ltac inv_now := constructor; wcbn; rewrite ?reg_of_snoc; wcbn; try done; try (by apply log_ok_snoc).
Ltac estep := cbv beta iota zeta delta [mbind E_bind mret E_ret get modify lift emit new_addr]; wcbn.
Lemma step_log w w' e : log w' = log w ++ [e] -> timecbs_altered w' = timecbs_altered w -> timecbs w' = timecbs w -> lazycb_removed w' = lazycb_removed w -> lazylist w' = lazylist w -> k_wait (kern w') = k_wait (kern w) -> maxfd w' = maxfd w -> sigpipes_made w' = sigpipes_made w -> amain_panic w' = amain_panic w -> amain_called w' = amain_called w -> k_select (kern w') = k_select (kern w) -> tsnow w' = tsnow w -> sigcaught w' = sigcaught w -> k_clock (kern w') = k_clock (kern w) -> lazies w' = lazies w -> timers w' = timers w -> sigdocheck w' = sigdocheck w -> (forall s, sighandler w' !! s = None -> sighandler w !! s = None \/ e = SetSig s None) -> step w w'.
Proof.
  intros E1 E2 E3 E4 E5 E6 E7 E8 E9 E10 E11 E12 E13 E14 E15 E16 E17 Hs. constructor; rewrite ?E2, ?E3, ?E4, ?E5, ?E6, ?E13; try done; [intros _; apply calm_same; try done; exists []; by rewrite E14|].
  exists [e]. split; [done|]. intros s Hn. destruct (Hs s Hn) as [| ->]; [by left|right; by left].
Qed.
Lemma chldcb_keeps X i pid c w : inv X i w -> keeps X i (chldcb pid c) w.
Proof.
  intros []. unfold keeps, chldcb, ok. destruct c as [c|]; cbn [mbind E_bind modify mret E_ret emit]; (split; [inv_now; rewrite iv_chlds0|eapply step_log; try done; by left]).
  - by rewrite insert_delete_eq.
  - done.
Qed.
Lemma sigcb_keeps X i s c w : inv X i w -> 0 < s < nsig -> sigaction_ok s = true -> keeps X i (sigcb s c) w.
Proof.
  intros [] Hs Hok. unfold keeps, sigcb, ok. rewrite Hok. destruct (Z.ltb_spec 0 s), (Z.ltb_spec s nsig); try lia. cbn [andb assertM lift mbind E_bind get modify emit mret E_ret]. split.
  - inv_now.
    + rewrite iv_sigs0. by destruct c.
    + intros s' Hs'. destruct (decide (s = s')) as [->|Hne]; [lia|]. apply iv_sigrange0. destruct c; [by rewrite lookup_insert_ne in Hs'|by rewrite lookup_delete_ne in Hs'].
  - eapply step_log; try done. wcbn. intros s' Hn. destruct c as [c|].
    + apply lookup_insert_None in Hn as [Hn _]. by left.
    + destruct (decide (s = s')) as [->|Hne]; [by right|]. rewrite lookup_delete_ne in Hn by done. by left.
Qed.
Lemma fdcb_keeps X i fd op c w : inv X i w -> 0 <= fd < maxfd w -> keeps X i (fdcb fd op c) w.
Proof.
  intros [] Hfd. unfold keeps, fdcb, ok. estep. destruct (Z.leb_spec 0 fd), (Z.ltb_spec fd (maxfd w)); try lia. cbn [assertM]. estep.
  destruct c as [c|]; (split; [inv_now|eapply step_log; try done; by left]).
  - by rewrite iv_fds0.
  - intros f. rewrite elem_of_union, elem_of_singleton, lookup_insert_is_Some, iv_set0. destruct (decide ((fd, op) = f)); naive_solver.
  - intros f Hf. apply elem_of_union in Hf as [Hf|Hf]; [apply elem_of_singleton in Hf as ->; cbn [fst]|apply iv_nsel0 in Hf]; destruct (Z.leb_spec (nselfd w) fd); lia.
  - by rewrite iv_fds0.
  - intros f. rewrite elem_of_difference, elem_of_singleton, lookup_delete_is_Some, iv_set0. naive_solver.
  - intros f [Hf _]%elem_of_difference. by apply iv_nsel0.
Qed.
Lemma lazycb_keeps X i iv c w : inv X i w -> (cal -> 0 < iv) -> keeps X i (lazycb iv c) w.
Proof.
  intros [] Hiv. unfold keeps, lazycb, ok. cbn [new_addr mbind E_bind modify emit mret E_ret]. assert (Hno : lazies w !! next_addr w = None).
  { destruct (lazies w !! next_addr w) eqn:E; [|done]. specialize (iv_lfresh0 (next_addr w)). rewrite E in iv_lfresh0. specialize (iv_lfresh0 ltac:(done)). lia. }
  split.
  - inv_now.
    + intros p Hp. specialize (iv_fresh0 p Hp). lia.
    + rewrite iv_lazies0, fmap_insert. done.
    + intros p. rewrite elem_of_cons, lookup_insert_is_Some, iv_lazylist0. destruct (decide (next_addr w = p)); naive_solver.
    + constructor; [|done]. rewrite iv_lazylist0, Hno. by intros [].
    + intros p [->|[Hne Hp]]%lookup_insert_is_Some; [lia|]. specialize (iv_lfresh0 p Hp). lia.
  - constructor; wcbn; try done.
    + intros ->. split; [done|]. intros q Hq. by right.
    + intros Hc [Hl1 Hl2]. specialize (Hiv Hc). split; split; wcbn; try done.
      * intros p lz [[<- <-]|[_ Hp]]%lookup_insert_Some; [done|by apply Hl2 in Hp].
      * intros p lz [[<- <-]|[_ Hp]]%lookup_insert_Some; cbn [lz_next]; [lia|done].
    + eexists. split; [done|]. by left.
Qed.
Lemma lazycb_remove_keeps X i p w : inv X i w -> is_Some (rg_lazies (reg_of (log w)) !! p) -> keeps X i (lazycb_remove p) w.
Proof.
  intros [] Hp. unfold keeps, lazycb_remove, ok. estep. rewrite iv_lazies0, lookup_fmap, fmap_is_Some in Hp. rewrite bool_decide_eq_true_2 by done. estep. split.
  - inv_now.
    + by rewrite iv_lazies0, fmap_delete.
    + intros q. rewrite list_elem_of_filter, iv_lazylist0, lookup_delete_is_Some. naive_solver.
    + by apply NoDup_filter.
    + intros q [_ Hq]%lookup_delete_is_Some. by apply iv_lfresh0.
  - constructor; wcbn; try done; [|eexists; split; [done|]; by left]. intros Hc [Hl1 Hl2]. split; split; wcbn; try done.
    + intros q lz [_ Hq]%lookup_delete_Some. by apply Hl2 in Hq.
    + by intros q lz [_ Hq]%lookup_delete_Some.
Qed.

(** ** Timers *)
Definition before (m : gmap positive (timespec * cb)) (p q : positive) : Prop := forall a b, m !! p = Some a -> m !! q = Some b -> tscmp a.1 b.1 <= 0.
Lemma ss_filter {A} (Q : A -> A -> Prop) (P : A -> Prop) `{!forall x, Decision (P x)} l : StronglySorted Q l -> StronglySorted Q (filter P l).
Proof.
  induction 1 as [|x l _ IH Hx]; [constructor|]. rewrite filter_cons. destruct (decide (P x)); [|done]. constructor; [done|]. apply Forall_forall. intros y [_ Hy]%list_elem_of_filter. rewrite Forall_forall in Hx. by apply Hx.
Qed.
Lemma ss_map {A} (Q Q' : A -> A -> Prop) l : StronglySorted Q l -> (forall x y, x ∈ l -> y ∈ l -> Q x y -> Q' x y) -> StronglySorted Q' l.
Proof.
  intros H. induction H as [|x l _ IH Hx]; intros Hq; constructor.
  - apply IH. intros y z Hy Hz. apply Hq; by right.
  - apply Forall_forall. intros y Hy. rewrite Forall_forall in Hx. apply Hq; [left|by right|by apply Hx].
Qed.
Lemma tree_insert_spec w p ts : forall l, (forall q, q ∈ l -> is_Some (timers w !! q)) -> StronglySorted (before (timers w)) l ->
  exists l1 l2, tree_insert w l p ts = Done (l1 ++ p :: l2) /\ l = l1 ++ l2 /\ (forall q t, q ∈ l1 -> timers w !! q = Some t -> tscmp t.1 ts <= 0) /\ (forall q t, q ∈ l2 -> timers w !! q = Some t -> tscmp ts t.1 <= 0).
Proof.
  induction l as [|q l IH]; intros Hl Hs; cbn [tree_insert].
  { exists [], []. split; [done|]. split; [done|]. split; by intros ?? ?%elem_of_nil. }
  destruct (Hl q ltac:(left)) as [tq Eq]. unfold load_timer. rewrite Eq. cbn [mbind outcome_bind]. apply StronglySorted_inv in Hs as [Hs Hq]. destruct (ts_lt ts tq.1) eqn:Elt.
  - exists [], (q :: l). split; [done|]. split; [done|]. split; [by intros ?? ?%elem_of_nil|]. apply ts_lt_true in Elt. intros q' t [->|Hq']%elem_of_cons Et; [by rewrite Eq in Et; injection Et as <-|].
    rewrite Forall_forall in Hq. eapply tscmp_trans; [exact Elt|]. by apply (Hq q' Hq').
  - destruct IH as (l1 & l2 & -> & -> & H1 & H2); [intros; apply Hl; by right|done|]. apply ts_lt_false in Elt. exists (q :: l1), l2. split; [done|]. split; [done|]. split; [|done]. intros q' t [->|Hq']%elem_of_cons Et; [by rewrite Eq in Et; injection Et as <-|by eapply H1].
Qed.
Lemma timecb_keeps X i ts c w : inv X i w -> (cal -> ts_le ts (tsnow w) = false) -> keeps X i (timecb ts c) w /\ ok (timecb ts c) w (fun p w' => p = next_addr w /\ log w' = log w ++ [NewTimer p ts c] /\ exists l1 l2, timecbs w = l1 ++ l2 /\ timecbs w' = l1 ++ p :: l2 /\ timers w' = <[p := (ts, c)]> (timers w) /\ (forall q t, q ∈ l1 -> timers w !! q = Some t -> tscmp t.1 ts <= 0) /\ (forall q t, q ∈ l2 -> timers w !! q = Some t -> tscmp ts t.1 <= 0)).
Proof.
  intros Hinv Hlate. assert (Hinv' := Hinv). destruct Hinv. unfold keeps, timecb, ok. estep. set (p := next_addr w) in *.
  assert (Hno : timers w !! p = None) by (destruct (timers w !! p) eqn:E; [|done]; assert (Hp : (p < next_addr w)%positive) by (apply iv_fresh0; by rewrite E); subst p; lia).
  assert (Hnt : p ∉ timecbs w) by (intros Hp; apply iv_in0 in Hp as [Hp _]; rewrite Hno in Hp; by destruct Hp).
  destruct (tree_insert_spec (set_next_addr w (Pos.succ p)) p ts (timecbs w)) as (l1 & l2 & -> & El & H1 & H2); [intros q Hq; by apply iv_in0|done|]. wcbn. cbn [timers set_next_addr] in *.
  assert (Hins : forall q, q ∈ l1 ++ p :: l2 <-> q = p \/ q ∈ timecbs w) by (intros q; rewrite El, !elem_of_app, elem_of_cons; naive_solver).
  split; [split|].
  - assert (Hne : forall q, q ∈ timecbs w -> p <> q) by (intros q Hq ->; done). inv_now.
    + intros q Hq. apply Hins in Hq as [->|Hq]; [by rewrite !lookup_insert_eq|]. rewrite !lookup_insert_ne by by apply Hne. by apply iv_in0.
    + intros q Hq. rewrite Hins in Hq. rewrite lookup_insert_ne by (intros ->; apply Hq; by left). apply iv_out0. intros Hq'. apply Hq. by right.
    + rewrite El in iv_nodup0, Hnt. apply NoDup_app in iv_nodup0 as (Hn1 & Hn2 & Hn3). rewrite elem_of_app in Hnt. apply NoDup_app. split; [done|]. split; [|constructor; naive_solver]. intros q Hq [->|Hq']%elem_of_cons; [naive_solver|by eapply Hn2].
    + assert (Hold : StronglySorted (before (<[p:=(ts, c)]> (timers w))) (l1 ++ l2)). { rewrite <- El. eapply ss_map; [exact iv_sorted0|]. intros x y Hx Hy Hxy a b. rewrite !lookup_insert_ne by by apply Hne. apply Hxy. }
      apply StronglySorted_app_2; [|by eapply StronglySorted_app_1_l|constructor; [by eapply StronglySorted_app_1_r|]].
      2: { apply Forall_forall. intros q Hq a b. rewrite lookup_insert_eq, lookup_insert_ne by (apply Hne; rewrite El; apply elem_of_app; by right). intros Ea Hb. injection Ea as <-. exact (H2 q b Hq Hb). }
      intros x y Hx [->|Hy]%elem_of_cons; [|by apply (StronglySorted_app_1_elem_of _ l1 l2 x y Hold Hx Hy)]. intros a b. rewrite lookup_insert_eq, lookup_insert_ne by (apply Hne; rewrite El; apply elem_of_app; by left). intros Ha Eb. injection Eb as <-. exact (H1 x a Hx Ha).
    + intros q Hq. destruct (iv_running0 q Hq) as [Hs Hn]. rewrite lookup_insert_ne by (intros <-; rewrite Hno in Hs; by destruct Hs). split; [done|]. rewrite Hins. intros [->|Hq']; [rewrite Hno in Hs; by destruct Hs|done].
    + intros q [<-|[_ Hq]]%lookup_insert_is_Some; [left; apply Hins; by left|]. destruct (iv_alloc0 q Hq); [left; apply Hins; by right|by right].
    + intros q [<-|[_ Hq]]%lookup_insert_is_Some; [lia|]. specialize (iv_fresh0 q Hq). lia.
    + intros q Hq. specialize (iv_lfresh0 q Hq). lia.
  - constructor; wcbn; try done.
    + intros ->. split; [done|]. rewrite El. apply sublist_app; [done|]. by apply sublist_cons.
    + intros Hc [Hl1 Hl2]. split; [done|]. split; wcbn; [|done]. intros q t Hq [[<- <-]|[Hne Ht]]%lookup_insert_Some Hd; [cbn [fst] in Hd; by rewrite Hlate in Hd|]. apply Hins in Hq as [->|Hq]; done.
    + eexists. split; [done|]. by left.
  - split; [done|]. split; [done|]. exists l1, l2. done.
Qed.
Lemma inv_kern X i w k : inv X i w -> inv X i (set_kern w k).
Proof. by intros []. Qed.
Lemma inv_now_set X i w t : inv X i w -> inv X i (set_now w t).
Proof. by intros []. Qed.
Lemma inv_selwait X i w t : inv X i w -> inv X i (set_selwait w t).
Proof. by intros []. Qed.
Lemma inv_fdspt X i w t : inv X i w -> inv X i (set_fds w (fdcbs w) (fdsp w) t (nselfd w)).
Proof. by intros []. Qed.
Lemma step_kern w k : (length (k_wait k) <= length (k_wait (kern w)))%nat -> k_select k = k_select (kern w) -> (exists l, k_clock (kern w) = l ++ k_clock k) -> step w (set_kern w k).
Proof. intros H1 H2 H3. constructor; wcbn; try done; [intros _; by apply calm_same|]. exists []. rewrite app_nil_r. split; [done|]. by left. Qed.
Lemma step_selwait w t : step w (set_selwait w t).
Proof. constructor; wcbn; try done. exists []. rewrite app_nil_r. split; [done|]. by left. Qed.
Lemma step_fdspt w t : step w (set_fds w (fdcbs w) (fdsp w) t (nselfd w)).
Proof. constructor; wcbn; try done. exists []. rewrite app_nil_r. split; [done|]. by left. Qed.
Lemma clock_keeps X i w : inv X i w -> exists t w', clock_gettime w = Done (t, w') /\ inv X i w' /\ step w w' /\ timers w' = timers w /\ timecbs w' = timecbs w /\ log w' = log w /\ tsnow w' = tsnow w /\ timecbs_altered w' = timecbs_altered w /\ (live w -> tscmp (tsnow w) t <= 0).
Proof.
  intros H. unfold clock_gettime. destruct (k_clock (kern w)) as [|t ts] eqn:E; do 2 eexists; (split; [reflexivity|]).
  - split; [done|]. split; [apply step_refl|]. do 5 (split; [done|]). intros _. by rewrite tscmp_refl.
  - split; [by apply inv_kern|]. split; [apply step_kern; [done|done|by exists [t]]|]. do 5 (split; [done|]). intros [[_ Hl]%StronglySorted_inv _]. rewrite E in Hl. by apply Forall_cons in Hl as [Hl _].
Qed.
Definition calm_act (now : timespec) (a : action) : Prop :=
  match a with
  | Timecb ts _ => ts_le ts now = false
  | Delaycb sec nsec _ => 0 <= sec /\ 0 <= nsec /\ 0 < sec + nsec
  | Lazycb iv _ => 0 < iv
  | _ => True
  end.
Lemma delay_later sec nsec (t now : timespec) : 0 <= sec -> 0 <= nsec -> 0 < sec + nsec -> tscmp now t <= 0 ->
  ts_le (let ts := mkts (tv_sec t + sec) (tv_nsec t + nsec) in if 1000000000 <=? tv_nsec ts then mkts (tv_sec ts + 1) (tv_nsec ts - 1000000000) else ts) now = false.
Proof.
  intros H1 H2 H3 H4. apply tscmp_spec in H4. unfold ts_le. apply Z.leb_gt, Z.lt_nge. intros H5%tscmp_spec. revert H5. cbn [tv_sec tv_nsec]. destruct (Z.leb_spec 1000000000 (tv_nsec t + nsec)); cbn [tv_sec tv_nsec]; lia.
Qed.
Lemma delaycb_keeps X i sec nsec c w : inv X i w -> (cal -> live w) -> (cal -> calm_act (tsnow w) (Delaycb sec nsec c)) -> ok (delaycb sec nsec c) w (fun _ w' => inv X i w' /\ step w w' /\ exists ts, reg_of (log w') = reg_step (reg_of (log w)) (NewTimer (rg_next (reg_of (log w))) ts c)).
Proof.
  intros H Hlv Hcalm. destruct (clock_keeps X i w H) as (t & w1 & E & H1 & S1 & _ & _ & El & Enow & _ & Et). unfold delaycb. apply ok_bind. unfold ok at 1. rewrite E.
  match goal with |- ok (timecb ?ts c) w1 _ => destruct (timecb_keeps X i ts c w1 H1) as [H2 Hreg] end.
  { intros Hc. destruct (Hcalm Hc) as (Hd1 & Hd2 & Hd3). rewrite Enow. apply delay_later; [done|done|done|]. apply Et, Hlv, Hc. }
  unfold keeps, ok in *. destruct (timecb _ c w1) as [[p w2]| | |]; try done. destruct H2 as [H2 S2], Hreg as (-> & Hreg & _). split; [done|]. split; [by eapply step_trans|].
  eexists. rewrite Hreg, reg_of_snoc, El. f_equal. f_equal. rewrite <- (iv_next _ _ _ H1), El. done.
Qed.
Lemma tree_from_spec w ts to : forall l, (forall q, q ∈ l -> is_Some (timers w !! q)) -> StronglySorted (before (timers w)) l -> to ∈ l -> (exists c, timers w !! to = Some (ts, c)) ->
  exists l', tree_from w l ts = Done l' /\ remove_walk w l' ts to = Done tt.
Proof.
  intros l Hl Hs Hto (c & Et). induction l as [|q l IH]; cbn [tree_from]; [by apply elem_of_nil in Hto|].
  destruct (Hl q ltac:(left)) as [tq Eq]. unfold load_timer at 1. rewrite Eq. cbn [mbind outcome_bind]. assert (Hs' := Hs). apply StronglySorted_inv in Hs' as [Hsl Hq].
  destruct (Z.eqb_spec (tscmp ts tq.1) 0) as [He|Hne].
  - eexists. split; [reflexivity|]. apply tscmp_spec in He. clear IH. revert q tq Eq He Hl Hs Hto Hsl Hq. induction l as [|q' l IH]; intros q tq Eq He Hl Hs Hto Hsl Hq; cbn [remove_walk]; destruct (decide (q = to)) as [->|Hn]; try done.
    + apply elem_of_cons in Hto as [->|Hto]; [done|by apply elem_of_nil in Hto].
    + unfold load_timer; rewrite Eq; fold (load_timer w q'). cbn [mbind outcome_bind]. rewrite (proj2 (ts_eq_spec tq.1 ts)) by done. cbn [negb]. apply elem_of_cons in Hto as [->|Hto]; [done|].
      destruct (Hl q' ltac:(right; left)) as [tq' Eq']. assert (Hs' := Hsl). apply StronglySorted_inv in Hs' as [Hsl' Hq'].
      apply (IH q' tq'); try done; [|intros; apply Hl; by right]. apply Forall_cons in Hq as [Hqq' _]. specialize (Hqq' tq tq' Eq Eq'). rewrite <- He in Hqq'.
      apply tscmp_antisym; [done|]. apply elem_of_cons in Hto as [->|Hto]; [rewrite Et in Eq'; injection Eq' as <-; cbn; by rewrite tscmp_refl|]. rewrite Forall_forall in Hq'. exact (Hq' to Hto tq' (ts, c) Eq' Et).
  - apply elem_of_cons in Hto as [->|Hto]; [rewrite Et in Eq; injection Eq as <-; cbn in Hne; by rewrite tscmp_refl in Hne|]. apply IH; [intros; apply Hl; by right|done|done].
Qed.
Lemma timecb_remove_keeps X i to w : inv X i w -> is_Some (rg_timers (reg_of (log w)) !! to) -> keeps X i (timecb_remove (Some to)) w.
Proof.
  intros [] Hto. assert (Hin : to ∈ timecbs w) by (destruct (decide (to ∈ timecbs w)); [done|]; rewrite iv_out0 in Hto by done; by destruct Hto).
  destruct (iv_in0 to Hin) as [[[ts c] Et] Er]. unfold keeps, timecb_remove, ok. estep. unfold load_timer at 1. rewrite Et. cbn [fst]. destruct (tree_from_spec w ts to (timecbs w)) as (l' & E1 & E2); [intros q Hq; by apply iv_in0|done|done|by exists c|].
  rewrite E1, E2. estep. assert (Hdel : forall q, q ∈ filter (fun q => q <> to) (timecbs w) <-> q <> to /\ q ∈ timecbs w) by (intros q; by rewrite list_elem_of_filter). split.
  - inv_now.
    + intros q [Hne Hq]%Hdel. rewrite !lookup_delete_ne by done. by apply iv_in0.
    + intros q Hq. destruct (decide (to = q)) as [->|Hne]; [apply lookup_delete_eq|]. rewrite lookup_delete_ne by done. apply iv_out0. intros Hq'. apply Hq, Hdel. done.
    + by apply NoDup_filter.
    + apply ss_filter. eapply ss_map; [exact iv_sorted0|]. intros x y Hx Hy Hxy a b [_ Ha]%lookup_delete_Some [_ Hb]%lookup_delete_Some. by apply Hxy.
    + intros q Hq. destruct (iv_running0 q Hq) as [Hs Hn]. assert (to <> q) by (intros ->; done). rewrite lookup_delete_ne by done. split; [done|]. rewrite Hdel. naive_solver.
    + intros q [Hne Hq]%lookup_delete_is_Some. rewrite Hdel. destruct (iv_alloc0 q Hq); [left; naive_solver|by right].
    + intros q [_ Hq]%lookup_delete_is_Some. by apply iv_fresh0.
  - constructor; wcbn; try done; [|eexists; split; [done|]; by left]. intros Hc Hl. split; [done|]. split; [|done]. wcbn. by intros q t [_ Hq]%Hdel [_ Ht]%lookup_delete_Some _.
Qed.

(** ** What a callback does *)
Lemma ok_log {A} X i (m : E A) w e : keeps X i m w -> (forall a w', m w = Done (a, w') -> log w' = log w ++ [e]) -> ok m w (fun _ w' => inv X i w' /\ step w w' /\ reg_of (log w') = reg_step (reg_of (log w)) e).
Proof. unfold keeps, ok. destruct (m w) as [[a w']| | |]; try done. intros [H1 H2] H. split; [done|]. split; [done|]. by rewrite (H a w'), reg_of_snoc. Qed.
Lemma ok_unit {A} (m : E A) w (Q : world -> Prop) : ok m w (fun _ w' => Q w') -> ok (_ ← m; mret tt) w (fun _ w' => Q w').
Proof. intros H. apply ok_bind. eapply ok_weaken; [exact H|]. done. Qed.
Lemma do_action_keeps budget call X i a l w : inv X i w -> (cal -> live w) -> (cal -> calm_act (tsnow w) a) -> acts_ok (maxfd w) (reg_of (log w)) (a :: l) ->
  ok (do_action budget pipe call a) w (fun _ w' => inv X i w' /\ step w w' /\ acts_ok (maxfd w') (reg_of (log w')) l).
Proof.
  intros H Hlv Hcalm [Ha Hl].
  assert (Hnext : forall (m : E unit) e, keeps X i m w -> (forall a w', m w = Done (a, w') -> log w' = log w ++ [e]) -> acts_ok (maxfd w) (reg_step (reg_of (log w)) e) l -> ok m w (fun _ w' => inv X i w' /\ step w w' /\ acts_ok (maxfd w') (reg_of (log w')) l)).
  { intros m e Hk He Hacts. eapply ok_weaken; [by apply (ok_log X i m w e)|]. intros _ w' (H1 & H2 & ->). split; [done|]. split; [done|]. by rewrite (st_maxfd _ _ H2). }
  destruct a as [ts c|sec nsec c|[to|]|fd op c|s c|iv c|p|pid c|]; cbn [do_action act_ok] in *.
  - destruct (timecb_keeps X i ts c w H Hcalm) as [H1 H2]. apply ok_unit. unfold keeps, ok in *. destruct (timecb ts c w) as [[p w']| | |]; try done. destruct H1 as [H1 S1], H2 as (-> & El & _). split; [done|]. split; [done|].
    rewrite (st_maxfd _ _ S1), El, reg_of_snoc, <- (iv_next _ _ _ H). done.
  - apply ok_unit. eapply ok_weaken; [by apply delaycb_keeps|]. intros _ w' (H1 & S1 & ts & ->). split; [done|]. split; [done|]. rewrite (st_maxfd _ _ S1). apply Hl.
  - apply (Hnext _ (OldTimer to)); [by apply timecb_remove_keeps| |done]. intros a w'. unfold timecb_remove. estep. destruct (load_timer w to); try done. destruct (tree_from _ _ _); try done. destruct (remove_walk _ _ _ _); try done. by intros [= <- <-].
  - unfold ok. cbn. split; [done|]. split; [apply step_refl|done].
  - apply (Hnext _ (SetFd fd op c)); [by apply fdcb_keeps; [|apply Ha]| |done]. intros a w'. unfold fdcb. estep. destruct (assertM (0 <=? fd)); try done. destruct (assertM (fd <? maxfd w)); try done. destruct c; by intros [= <- <-].
  - apply ok_unit. eapply ok_weaken; [apply (ok_log X i _ w (SetSig s c)); [by apply sigcb_keeps; [|apply Ha|apply Ha]|]|].
    + intros a w'. unfold sigcb. estep. do 2 (destruct (assertM _); try done). by intros [= <- <-].
    + intros _ w' (H1 & H2 & ->). split; [done|]. split; [done|]. by rewrite (st_maxfd _ _ H2).
  - apply ok_unit. eapply ok_weaken; [apply (ok_log X i _ w (NewLazy (next_addr w) c)); [by apply lazycb_keeps|]|].
    + intros a w'. unfold lazycb. estep. by intros [= <- <-].
    + intros _ w' (H1 & H2 & ->). split; [done|]. split; [done|]. rewrite (st_maxfd _ _ H2), <- (iv_next _ _ _ H). done.
  - apply (Hnext _ (OldLazy p)); [by apply lazycb_remove_keeps| |done]. intros a w'. unfold lazycb_remove. estep. destruct (bool_decide _); [|done]. by intros [= <- <-].
  - apply (Hnext _ (SetChld pid c)); [by apply chldcb_keeps| |done]. intros a w'. unfold chldcb. estep. destruct c; by intros [= <- <-].
  - done.
Qed.
Lemma do_actions_keeps budget call X i : forall l w, inv X i w -> (cal -> live w) -> (cal -> Forall (calm_act (tsnow w)) l) -> acts_ok (maxfd w) (reg_of (log w)) l -> keeps X i (do_actions budget pipe call l) w.
Proof.
  induction l as [|a l IH]; intros w H Hlv Hcalm Hl; cbn [do_actions]; [unfold keeps, ok; cbn; split; [done|apply step_refl]|].
  assert (Hca : cal -> calm_act (tsnow w) a /\ Forall (calm_act (tsnow w)) l) by (intros Hc; by apply Forall_cons, Hcalm).
  unfold keeps. apply ok_bind. eapply ok_weaken; [apply do_action_keeps; [done|done|intros Hc; by apply Hca|done]|]. intros _ w1 (H1 & S1 & Hl1). eapply ok_weaken; [apply IH; [done|intros Hc; by apply (st_calm _ _ S1), Hlv|rewrite (st_now _ _ S1); intros Hc; by apply Hca|done]|]. intros _ w2 [H2 S2]. split; [done|]. by eapply step_trans.
Qed.

(** ** Calls *)
(** A call that the registry allows *)
Definition call_ok (mx : Z) (dp : nat) (call : origin -> cb -> E unit) : Prop := forall X i o c w, maxfd w = mx -> (cal -> live w) -> sp \/ (length (k_wait (kern w)) < dp)%nat -> inv X i (add_log w (Call o c (tsnow w))) -> ok (call o c) w (fun _ w' => inv X i w' /\ step w w' /\ exists l, log w' = log w ++ Call o c (tsnow w) :: l).
Lemma keeps_refl {A} X i (a : A) w : inv X i w -> keeps X i (mret a) w.
Proof. intros H. split; [done|apply step_refl]. Qed.
Lemma keeps_bind {A B} X i (m : E A) (k : A -> E B) w : keeps X i m w -> (forall a w', inv X i w' -> step w w' -> keeps X i (k a) w') -> keeps X i (m ≫= k) w.
Proof.
  intros Hm Hk. apply ok_bind. eapply ok_weaken; [exact Hm|]. intros a w' [H1 S1]. eapply ok_weaken; [by apply Hk|]. intros b w'' [H2 S2]. split; [done|]. by eapply step_trans.
Qed.
Lemma inv_chldcbs X i w pid c now st : inv X i w -> chldcbs w !! pid = Some c -> inv X i (add_log (set_chldcbs w (delete pid (chldcbs w))) (Call (OChld pid st) c now)).
Proof. intros [] Hc. inv_now; [|by rewrite iv_chlds0]. apply log_ok_snoc; [done|]. cbn. by rewrite iv_chlds0. Qed.
Lemma step_chldcbs w m : step w (set_chldcbs w m).
Proof. constructor; wcbn; try done. exists []. rewrite app_nil_r. split; [done|]. by left. Qed.
Lemma waitpid_keeps X i w : inv X i w -> ok waitpid w (fun r w' => inv X i w' /\ step w w' /\ (r = (0, 0) \/ S (length (k_wait (kern w'))) = length (k_wait (kern w)))).
Proof.
  intros H. unfold waitpid, ok. destruct (k_wait (kern w)) as [|r rs] eqn:E; [split; [done|]; split; [apply step_refl|by left]|]. split; [by apply inv_kern|]. split; [apply step_kern; [rewrite E; cbn; lia|done|by exists []]|]. right. done.
Qed.
Lemma chldcb_loop_keeps mx dp call X i n : call_ok mx dp call -> forall w, maxfd w = mx -> (cal -> live w) -> sp \/ (length (k_wait (kern w)) <= dp)%nat -> inv X i w -> (length (k_wait (kern w)) <= n)%nat -> keeps X i (chldcb_loop call n) w.
Proof.
  intros Hcall. induction n as [|n IH]; intros w Hmx Hlv Hdp H Hn; cbn [chldcb_loop]; unfold keeps; apply ok_bind; (eapply ok_weaken; [by apply waitpid_keeps|]); intros r w1 (H1 & S1 & Hr).
  1: destruct Hr as [->|Hr]; [cbn; by split|lia].
  destruct ((r.1 =? 0) || (r.1 =? -1)) eqn:Eq; [by split|]. destruct Hr as [->|Hr]; [done|]. apply ok_bind. unfold ok at 1. cbn [get].
  assert (Hlv1 : cal -> live w1) by (intros Hc; by apply (st_calm _ _ S1), Hlv).
  assert (Hgo : forall w2, inv X i w2 -> step w1 w2 -> ok (chldcb_loop call n) w2 (fun _ w' => inv X i w' /\ step w w')).
  { intros w2 H2 S2. assert (H3 := st_wait _ _ S2). eapply ok_weaken; [apply IH; [by rewrite (st_maxfd _ _ S2), (st_maxfd _ _ S1)|intros Hc; by apply (st_calm _ _ S2), Hlv1|destruct Hdp; [by left|right; lia]|done|lia]|]. intros _ w3 [H3' S3]. split; [done|]. eapply step_trans; [done|]. by eapply step_trans. }
  destruct (chldcbs w1 !! r.1) as [c|] eqn:Ec; apply ok_bind; [|apply Hgo; [done|apply step_refl]].
  apply ok_bind. unfold ok at 1. cbn [modify]. eapply ok_weaken; [apply (Hcall X i); [wcbn; by rewrite (st_maxfd _ _ S1)|done|destruct Hdp; [by left|right; wcbn; lia]|]|].
  - wcbn. by apply inv_chldcbs.
  - intros _ w2 (H2 & S2 & _). apply Hgo; [done|]. eapply step_trans; [apply step_chldcbs|done].
Qed.
(** A callback registers only what is later than its own call. *)
Definition calm (behave : list event -> Z -> list action) : Prop := forall l o c now n, Forall (calm_act now) (behave (l ++ [Call o c now]) n).
Lemma call_cb_ok behave budget mx : polite mx behave -> (cal -> calm behave) -> forall depth, call_ok mx depth (call_cb behave budget pipe depth).
Proof.
  intros Hp Hcalm. induction depth as [|d IH]; intros X i o c w Hmx Hlv Hdp H; [destruct Hdp as [Hs|]; [exact Hs|lia]|]. cbn [call_cb]. apply ok_bind. unfold ok at 1. cbn [get]. apply ok_bind. unfold ok at 1. cbn [emit modify]. set (w1 := add_log w (Call o c (tsnow w))) in *.
  assert (Hgo : forall m, keeps X i m w1 -> ok m w1 (fun (_ : unit) w' => inv X i w' /\ step w w' /\ exists l, log w' = log w ++ Call o c (tsnow w) :: l)).
  { intros m Hm. eapply ok_weaken; [exact Hm|]. intros _ w' [H' S']. destruct (st_log _ _ S') as (l & El & Hl). split; [done|]. assert (El' : log w' = log w ++ Call o c (tsnow w) :: l) by (rewrite El; cbn; by rewrite <- app_assoc). split; [|by exists l].
    assert (Hcs := st_calm _ _ S'). destruct S'. constructor; try done. exists (Call o c (tsnow w) :: l). split; [done|]. intros s Hs. destruct (Hl s Hs) as [|]; [by left|right; by right]. }
  destruct c as [| |n].
  - apply Hgo. by apply keeps_refl.
  - apply Hgo. unfold chldcb_check, keeps. apply ok_bind. unfold ok at 1. cbn [get]. apply (chldcb_loop_keeps mx d); [done|done|done|destruct Hdp; [by left|right; unfold w1; wcbn; lia]|done|done].
  - apply Hgo. unfold keeps. apply ok_bind. unfold ok at 1. cbn [get]. assert (Hw1 : maxfd w1 = mx) by done. apply do_actions_keeps; [done|done|intros Hc; by apply Hcalm|rewrite Hw1; apply Hp].
Qed.

(** ** Frames of the checks *)
Record frame (w w' : world) : Prop := {
  fr_maxfd : maxfd w' = maxfd w;
  fr_flags : sigpipes_made w' = sigpipes_made w /\ amain_panic w' = amain_panic w /\ amain_called w' = amain_called w;
  fr_select : exists k, k_select (kern w) = k ++ k_select (kern w');
  fr_wait : (length (k_wait (kern w')) <= length (k_wait (kern w)))%nat;
  fr_live : cal -> live w -> live w';
  fr_log : exists l, log w' = log w ++ l /\ forall s, sighandler w' !! s = None -> sighandler w !! s = None \/ SetSig s None ∈ l
}.
Lemma fr_refl w : frame w w.
Proof. constructor; try done; [by exists []|]. exists []. rewrite app_nil_r. split; [done|]. by left. Qed.
Lemma fr_trans w1 w2 w3 : frame w1 w2 -> frame w2 w3 -> frame w1 w3.
Proof.
  intros [A4 A5 (k & A6) Aw Al (l & A7 & A8)] [B4 B5 (k' & B6) Bw Bl (l' & B7 & B8)]. constructor.
  - congruence.
  - destruct A5 as (? & ? & ?), B5 as (? & ? & ?). split; [congruence|split; congruence].
  - exists (k ++ k'). by rewrite A6, B6, app_assoc.
  - lia.
  - intros Hc Hl. by apply Bl, Al.
  - exists (l ++ l'). rewrite B7, A7, app_assoc. split; [done|]. intros s Hs. rewrite elem_of_app. destruct (B8 s Hs) as [Hs'|]; [destruct (A8 s Hs')|]; naive_solver.
Qed.
Lemma step_frame w w' : step w w' -> frame w w'.
Proof. intros []. constructor; try done; [exists []; by rewrite st_select0|]. intros Hc Hl. by apply st_calm0. Qed.
Lemma same_frame w w' : maxfd w' = maxfd w -> sigpipes_made w' = sigpipes_made w -> amain_panic w' = amain_panic w -> amain_called w' = amain_called w -> k_select (kern w') = k_select (kern w) -> log w' = log w -> sighandler w' = sighandler w -> k_wait (kern w') = k_wait (kern w) -> k_clock (kern w') = k_clock (kern w) -> tsnow w' = tsnow w -> lazies w' = lazies w -> frame w w'.
Proof. intros E1 E2 E3 E4 E5 E6 E7 E8 E9 E10 E11. constructor; [done|done|exists []; by rewrite E5|by rewrite E8|intros _; apply live_same; try done; exists []; by rewrite E9|]. exists []. rewrite E6, E7, app_nil_r. split; [done|]. by left. Qed.
Definition fkeeps {A} (X : list positive) (i : Z) (m : E A) (w : world) : Prop := ok m w (fun _ w' => inv X i w' /\ frame w w').
Lemma fkeeps_bind {A B} X i (m : E A) (k : A -> E B) w : fkeeps X i m w -> (forall a w', inv X i w' -> frame w w' -> fkeeps X i (k a) w') -> fkeeps X i (m ≫= k) w.
Proof. intros Hm Hk. apply ok_bind. eapply ok_weaken; [exact Hm|]. intros a w' [H1 S1]. eapply ok_weaken; [by apply Hk|]. intros b w'' [H2 S2]. split; [done|]. by eapply fr_trans. Qed.
Lemma fkeeps_refl {A} X i (a : A) w : inv X i w -> fkeeps X i (mret a) w.
Proof. intros H. split; [done|apply fr_refl]. Qed.
Lemma fkeeps_get {B} X i (k : world -> E B) w : fkeeps X i (k w) w -> fkeeps X i (get ≫= k) w.
Proof. done. Qed.
Lemma fkeeps_modify X i f w : inv X i (f w) -> frame w (f w) -> fkeeps X i (modify f) w.
Proof. done. Qed.
Lemma fkeeps_lift {A} X i (o : outcome A) a w : o = Done a -> inv X i w -> fkeeps X i (lift o) w.
Proof. intros -> H. split; [done|apply fr_refl]. Qed.
Lemma keeps_fkeeps {A} X i (m : E A) w : keeps X i m w -> fkeeps X i m w.
Proof. intros H. eapply ok_weaken; [exact H|]. intros a w' [H1 S1]. split; [done|by apply step_frame]. Qed.
(** The clock is read: the new time is not earlier. *)
Lemma clock_now w t w' : clock_gettime w = Done (t, w') -> frame w (set_now w' t).
Proof.
  intros E. assert (Hl : live w -> live (set_now w' t)).
  { intros Hl. unfold clock_gettime in E. destruct (k_clock (kern w)) as [|t' ts] eqn:Et; injection E as <- <-; [by destruct w|]. destruct Hl as [Hl Hz]. split; [|done]. rewrite Et in Hl. wcbn. by apply StronglySorted_inv in Hl as [Hl _]. }
  unfold clock_gettime in E. destruct (k_clock (kern w)) as [|t' ts] eqn:Et; injection E as <- <-; (constructor; try done; [by exists []|]; exists []; rewrite app_nil_r; split; [done|]; by left).
Qed.
Lemma get_tsnow_keeps X i w : inv X i w -> fkeeps X i get_tsnow w.
Proof.
  intros H. unfold fkeeps, get_tsnow. destruct (clock_keeps X i w H) as (t & w' & E & H' & S' & _). apply ok_bind. unfold ok at 1. rewrite E. unfold ok. cbn [modify]. split; [by apply inv_now_set|]. by apply clock_now.
Qed.
Lemma sigcatch_keeps X i s w : inv X i w -> is_Some (sighandler w !! s) -> fkeeps X i (sigcatch s) w.
Proof.
  intros [] Hs. unfold fkeeps, sigcatch, ok. cbn [modify]. split; [|by apply same_frame]. inv_now.
  - intros s' [->%elem_of_singleton|Hs']%elem_of_union; [split; [by apply iv_sigrange0|by left]|]. split; [by apply iv_caught0|by left].
  - intros Hm _. rewrite Hm. lia.
  - destruct (sigpipes_made w); lia.
Qed.
Lemma deliver_keeps X i l : forall w, inv X i w -> fkeeps X i (deliver l) w.
Proof.
  induction l as [|s l IH]; intros w H; cbn [deliver]; [by apply fkeeps_refl|]. apply fkeeps_get, fkeeps_bind; [|by intros; apply IH]. case_bool_decide; [by apply sigcatch_keeps|by apply fkeeps_refl].
Qed.
Lemma interrupt_keeps X i w : inv X i w -> fkeeps X i interrupt w.
Proof.
  intros H. unfold interrupt, fkeeps, ok. destruct (k_signals (kern w)) as [|l ls]; [by split; [|apply fr_refl]|]. match goal with |- context [deliver l ?w1] => assert (Hd := deliver_keeps X i l w1 ltac:(by apply inv_kern)); unfold fkeeps, ok in Hd; destruct (deliver l w1) as [[[] w2]| | |]; try done end.
  destruct Hd as [H2 F2]. split; [done|]. eapply fr_trans; [|exact F2]. by apply same_frame.
Qed.

(** ** The checks keep the invariant *)
Lemma next_of_spec l p : p ∈ l -> NoDup l -> exists o, next_of l p = Done o /\ forall q, o = Some q -> q ∈ l /\ q <> p.
Proof.
  induction l as [|x l IH]; [by intros ?%elem_of_nil|]. intros Hp [Hx Hnd]%NoDup_cons. cbn [next_of]. destruct (decide (x = p)) as [->|Hne].
  - exists (head l). split; [done|]. destruct l as [|y l]; [done|]. intros q [= ->]. split; [right; left|]. intros ->. apply Hx. left.
  - apply elem_of_cons in Hp as [->|Hp]; [done|]. destruct (IH Hp Hnd) as (o & E & Ho). exists o. split; [done|]. intros q Hq. destruct (Ho q Hq). split; [by right|done].
Qed.
Section checks.
Variable mx : Z.
Variable call : origin -> cb -> E unit.
Variables dp kw : nat.
Hypothesis Hcall0 : call_ok mx dp call.
(** What the checks need and keep *)
Definition good (w : world) : Prop := maxfd w = mx /\ (cal -> live w) /\ (sp \/ (length (k_wait (kern w)) < dp)%nat) /\ (length (k_wait (kern w)) <= kw)%nat.
Lemma frame_good w w' : frame w w' -> good w -> good w'.
Proof. intros F (H1 & H2 & H3 & H4). assert (Hw := fr_wait _ _ F). split; [by rewrite (fr_maxfd _ _ F)|]. split; [intros Hc; by apply (fr_live _ _ F), H2|]. split; [|lia]. destruct H3 as [|H3]; [by left|right; lia]. Qed.
Lemma Hcall X i o c w : good w -> inv X i (add_log w (Call o c (tsnow w))) -> ok (call o c) w (fun _ w' => inv X i w' /\ step w w' /\ exists l, log w' = log w ++ Call o c (tsnow w) :: l).
Proof. intros (H1 & H2 & H3 & _). by apply Hcall0. Qed.

(** The first timer leaves the tree and is called. *)
Lemma timer_called X i w p ts c : inv X i w -> p ∈ timecbs w -> timers w !! p = Some (ts, c) -> ts_le ts (tsnow w) = true ->
  inv (p :: X) i (add_log (set_timers w (timers w) (filter (fun q => q <> p) (timecbs w)) false) (Call (OTimer p) c (tsnow w))).
Proof.
  intros [] Hp Et Hle. assert (Hdel : forall q, q ∈ filter (fun q => q <> p) (timecbs w) <-> q <> p /\ q ∈ timecbs w) by (intros q; by rewrite list_elem_of_filter).
  inv_now.
  - apply log_ok_snoc; [done|]. cbn. exists ts. split; [|done]. by rewrite (proj2 (iv_in0 p Hp)).
  - intros q [Hne Hq]%Hdel. rewrite lookup_delete_ne by done. by apply iv_in0.
  - intros q Hq. destruct (decide (p = q)) as [->|Hne]; [apply lookup_delete_eq|]. rewrite lookup_delete_ne by done. apply iv_out0. intros Hq'. apply Hq, Hdel. done.
  - by apply NoDup_filter.
  - by apply ss_filter.
  - intros q [->|Hq]%elem_of_cons; [split; [by rewrite Et|rewrite Hdel; naive_solver]|]. destruct (iv_running0 q Hq). split; [done|]. rewrite Hdel. naive_solver.
  - intros q Hq. rewrite Hdel, elem_of_cons. destruct (decide (q = p)); [naive_solver|]. destruct (iv_alloc0 q Hq); naive_solver.
Qed.
Lemma free_timer_keeps X i w p : inv (p :: X) i w -> p ∉ X -> exists w', free_timer p w = Done (tt, w') /\ inv X i w' /\ frame w w' /\ timecbs w' = timecbs w /\ timecbs_altered w' = timecbs_altered w /\ tsnow w' = tsnow w /\ timers w' = delete p (timers w) /\ log w' = log w.
Proof.
  intros [] HpX. destruct (iv_running0 p ltac:(left)) as [[t Et] Hn]. unfold free_timer. estep. unfold load_timer. rewrite Et. eexists. split; [reflexivity|]. split; [|split; [by apply same_frame|done]].
  assert (Hne : forall q, q ∈ timecbs w -> p <> q) by (intros q Hq ->; done). inv_now.
  - intros q Hq. rewrite lookup_delete_ne by by apply Hne. by apply iv_in0.
  - eapply ss_map; [exact iv_sorted0|]. intros x y Hx Hy Hxy a b [_ Ha]%lookup_delete_Some [_ Hb]%lookup_delete_Some. by apply Hxy.
  - intros q Hq. assert (p <> q) by (intros ->; done). rewrite lookup_delete_ne by done. apply iv_running0. by right.
  - intros q [Hne' Hq]%lookup_delete_is_Some. destruct (iv_alloc0 q Hq) as [|[->|]%elem_of_cons]; [by left|done|by right].
  - intros q [_ Hq]%lookup_delete_is_Some. by apply iv_fresh0.
Qed.
Lemma fkeeps_done {A B} X i (o : outcome A) a (k : A -> E B) w : o = Done a -> fkeeps X i (k a) w -> fkeeps X i (lift o ≫= k) w.
Proof. by intros ->. Qed.
Lemma fkeeps_mod {B} X i f (k : unit -> E B) w : inv X i (f w) -> frame w (f w) -> fkeeps X i (k tt) (f w) -> fkeeps X i (modify f ≫= k) w.
Proof. intros H1 H2 H. eapply ok_weaken; [exact H|]. intros a w' [H3 H4]. split; [done|]. by eapply fr_trans. Qed.
(** The timers of the tree whose time has come; if there are any, the loop is at the first. *)
Definition dueb (w : world) (p : positive) : bool := match timers w !! p with Some t => ts_le t.1 (tsnow w) | None => false end.
Definition dues (w : world) : list positive := filter (fun p => dueb w p = true) (timecbs w).
Definition at_first (w : world) (tp : option positive) : Prop := forall q, q ∈ dues w -> tp = head (timecbs w).
Lemma head_due X i w p q : inv X i w -> head (timecbs w) = Some p -> q ∈ dues w -> p ∈ dues w.
Proof.
  intros [] Hh Hq. unfold dues in *. apply list_elem_of_filter in Hq as [Hd Hq]. destruct (timecbs w) as [|p' l]; [done|]. injection Hh as ->. apply list_elem_of_filter. split; [|left].
  destruct (iv_in0 p ltac:(left)) as [[tp Ep] _], (iv_in0 q Hq) as [[tq Eq] _]. unfold dueb in *. rewrite Ep. rewrite Eq in Hd. apply elem_of_cons in Hq as [->|Hq]; [congruence|].
  apply StronglySorted_inv in iv_sorted0 as [_ Hs]. rewrite Forall_forall in Hs. specialize (Hs q Hq tp tq Ep Eq). unfold ts_le in *. apply Z.leb_le in Hd. apply Z.leb_le. by eapply tscmp_trans.
Qed.
Lemma sublist_head {A} (x : A) l l' : l `sublist_of` x :: l' -> x ∈ l -> NoDup (x :: l') -> head l = Some x.
Proof.
  intros Hs Hx [Hn _]%NoDup_cons. apply sublist_cons_r in Hs as [Hs|(l0 & -> & _)]; [|done]. destruct Hn. by eapply elem_of_sublist.
Qed.
Lemma filter_id {A} (P : A -> Prop) `{!forall x, Decision (P x)} (l : list A) : (forall x, x ∈ l -> P x) -> filter P l = l.
Proof. induction l as [|x l IH]; [done|]. intros Hl. rewrite filter_cons, decide_True by (apply Hl; left). f_equal. apply IH. intros y Hy. apply Hl. by right. Qed.
Lemma dues_less w w' p : NoDup (timecbs w') -> p ∈ dues w -> (forall q, q ∈ dues w' -> q <> p /\ q ∈ dues w) -> (length (dues w') < length (dues w))%nat.
Proof.
  intros Hn Hp Hq. assert (Hs : p :: dues w' ⊆+ dues w).
  { apply NoDup_submseteq; [|intros q [->|Hq']%elem_of_cons; [done|by apply Hq]]. constructor; [|by apply NoDup_filter]. intros Hp'. by destruct (Hq p Hp'). }
  apply submseteq_length in Hs. cbn in Hs. lia.
Qed.
(** One turn: the timer is called and freed, and the next one is in the tree. *)
Lemma timer_turn_keeps X i w p : good w -> inv X i w -> p ∈ timecbs w ->
  ok (timecb_turn call p) w (fun r w' => inv X i w' /\ frame w w' /\ tsnow w' = tsnow w /\ (forall o q, r = Some o -> o = Some q -> q ∈ timecbs w') /\
    match r with None => w' = w /\ dueb w p = false | Some o => cal -> (length (dues w') < length (dues w))%nat /\ (at_first w (Some p) -> at_first w' o) end).
Proof.
  intros Hg H Hp. destruct (iv_in _ _ _ H p Hp) as [[[ts c] Et] _]. assert (HpX : p ∉ X) by (intros HX; by destruct (iv_running _ _ _ H p HX)). destruct (next_of_spec (timecbs w) p Hp (iv_nodup _ _ _ H)) as (ntp & En & Hn).
  unfold ok, timecb_turn. estep. unfold load_timer at 1. rewrite Et. cbn [fst snd]. destruct (ts_le ts (tsnow w)) eqn:Hle; [|split; [done|]; split; [apply fr_refl|]; split; [done|]; split; [done|]; split; [done|by unfold dueb; rewrite Et]].
  rewrite En. set (w1 := set_timers w (timers w) (filter (fun q => q <> p) (timecbs w)) false). assert (Hc := Hcall (p :: X) i (OTimer p) c w1 Hg (timer_called X i w p ts c H Hp Et Hle)).
  unfold ok in Hc. destruct (call _ _ _) as [[[] w2]| | |] eqn:Ecall; try done. destruct Hc as (H2 & S2 & _). destruct (free_timer_keeps X i w2 p H2 HpX) as (w3 & -> & H3 & F3 & E3 & A3 & N3 & M3 & _).
  split; [done|]. split; [eapply fr_trans; [|exact F3]; eapply fr_trans; [|apply step_frame, S2]; by apply same_frame|]. split; [by rewrite N3, (st_now _ _ S2)|]. split.
  { intros o q Ho Hq. destruct (timecbs_altered w3) eqn:Ealt.
    + injection Ho as <-. destruct (timecbs w3) as [|q' l]; [done|]. injection Hq as ->. left.
    + injection Ho as <-. rewrite E3. destruct (st_timers _ _ S2) as [_ Hin]; [by rewrite <- A3|]. eapply elem_of_sublist; [|exact Hin]. unfold w1. wcbn. destruct (Hn q Hq). by apply list_elem_of_filter. }
  intros Hc. assert (Hpd : p ∈ dues w) by (apply list_elem_of_filter; split; [by unfold dueb; rewrite Et|done]).
  assert (Hq : forall q, q ∈ dues w3 -> q <> p /\ q ∈ dues w /\ q ∈ timecbs w1).
  { intros q Hq. unfold dues in Hq. rewrite E3 in Hq. apply list_elem_of_filter in Hq as [Hd Hq]. unfold dueb in Hd. rewrite M3, N3, (st_now _ _ S2) in Hd. destruct (delete p (timers w2) !! q) as [t|] eqn:Eq; [|done]. apply lookup_delete_Some in Eq as [Hne Eq].
    destruct (st_calm _ _ S2 Hc) as [_ [Hqt _]]; [by apply Hg|]. destruct (Hqt q t Hq Eq Hd) as [Hq1 Eq1]. split; [done|]. split; [|done]. apply list_elem_of_filter in Hq1 as [_ Hq1]. apply list_elem_of_filter. split; [|done]. unfold dueb. cbn in Eq1. by rewrite Eq1. }
  split; [eapply dues_less; [apply (iv_nodup _ _ _ H3)|done|]; intros q Hd; by destruct (Hq q Hd) as (? & ? & _)|].
  intros Hfirst q Hd. destruct (timecbs_altered w3) eqn:Ealt; [done|]. destruct (st_timers _ _ S2) as [_ Hin]; [by rewrite <- A3|]. specialize (Hfirst p Hpd). assert (Ew1 : timecbs w1 = filter (fun q => q <> p) (timecbs w)) by done.
  destruct (timecbs w) as [|p' l0] eqn:El; [done|]. injection Hfirst as ->. assert (Hnd := iv_nodup _ _ _ H). rewrite El in Hnd. cbn [next_of] in En. destruct (decide (p' = p')); [|done]. injection En as <-.
  assert (Ef : filter (fun q => q <> p') (p' :: l0) = l0).
  { rewrite filter_cons, decide_False by tauto. apply NoDup_cons in Hnd as [Hnp _]. apply filter_id. intros x Hx ->. done. }
  assert (Hw3 : timecbs w3 <> []) by (intros E0; unfold dues in Hd; rewrite E0 in Hd; by apply elem_of_nil in Hd). destruct (timecbs w3) as [|h l'] eqn:E3'; [done|]. cbn [head].
  assert (Hh : h ∈ dues w3) by (eapply head_due; [exact H3|by rewrite E3'|exact Hd]). destruct (Hq h Hh) as (_ & _ & Hh1). rewrite Ef in Ew1. rewrite Ew1 in Hh1, Hin.
  assert (Hn3 := iv_nodup _ _ _ H3). rewrite E3' in Hn3. rewrite <- E3 in Hin.
  f_equal. by eapply sublist_head.
Qed.
Lemma timecb_loop_keeps X i n (Hsp : sp) : forall w tp, good w -> inv X i w -> (forall p, tp = Some p -> p ∈ timecbs w) -> fkeeps X i (timecb_loop call n tp) w.
Proof.
  induction n as [|n IH]; intros w [p|] Hg H Htp; try by apply fkeeps_refl.
  all: cbn [timecb_loop]; apply ok_bind; (eapply ok_weaken; [apply (timer_turn_keeps X i w p Hg H (Htp p eq_refl))|]); intros [o|] w1 (H1 & F1 & _ & Hr & _); [|by split].
  1: done. eapply ok_weaken; [apply IH; [by eapply frame_good|done|intros q Hq; by eapply Hr]|]. intros _ w2 [H2 F2]. split; [done|by eapply fr_trans].
Qed.
(** If callbacks register only what is later, the loop ends when no timer is due any more. *)
Lemma timecb_loop_done X i (Hns : ~ sp) (Hcal : cal) n : forall w tp, good w -> inv X i w -> (forall p, tp = Some p -> p ∈ timecbs w) -> at_first w tp -> (length (dues w) <= n)%nat ->
  exists w', (forall b, (n <= b)%nat -> timecb_loop call b tp w = Done (tt, w')) /\ inv X i w' /\ frame w w' /\ tsnow w' = tsnow w /\ dues w' = [].
Proof.
  induction n as [|n IH]; intros w [p|] Hg H Htp Hf Hn.
  all: try (exists w; split; [by intros []|]; split; [done|]; split; [apply fr_refl|]; split; [done|]; destruct (dues w) as [|q l] eqn:Ed; [done|]; assert (Hq : q ∈ dues w) by (rewrite Ed; left); specialize (Hf q Hq); apply list_elem_of_filter in Hq as [_ Hq]; destruct (timecbs w); [by apply elem_of_nil in Hq|done]).
  all: assert (Ht := timer_turn_keeps X i w p Hg H (Htp p eq_refl)); unfold ok in Ht; destruct (timecb_turn call p w) as [[r w1]| | |] eqn:E; try done; destruct Ht as (H1 & F1 & N1 & Hr & Hd).
  all: destruct r as [o|]; [destruct (Hd Hcal) as [Hlt Hfo]|destruct Hd as [-> Hd]; exists w; split; [intros [|b] _; cbn [timecb_loop]; unfold mbind, E_bind; by rewrite E|]; split; [done|]; split; [done|]; split; [done|]].
  2,4: destruct (dues w) as [|q l] eqn:Ed; [done|]; assert (Hq : q ∈ dues w) by (rewrite Ed; left); assert (Hp : p ∈ dues w) by (eapply head_due; [exact H|by rewrite <- (Hf q Hq)|exact Hq]); apply list_elem_of_filter in Hp as [Hp _]; congruence.
  1: lia.
  destruct (IH w1 o) as (w2 & E2 & H2 & F2 & N2 & D2); [by eapply frame_good|done|intros q Hq; by eapply Hr|by apply Hfo|lia|].
  exists w2. split; [|split; [done|split; [by eapply fr_trans|split; [congruence|done]]]]. intros [|b] Hb; [lia|]. cbn [timecb_loop]. unfold mbind, E_bind. rewrite E. apply E2. lia.
Qed.

(** The end of [timecb_check]: how long [select] may wait *)
Definition timecb_wait : E unit :=
  w ← get;
  match head (timecbs w) with
  | None => modify (fun w => set_selwait w (86400, 0))
  | Some tp => get_tsnow ;; w ← get; t ← lift (load_timer w tp); modify (fun w => set_selwait w (wait_for t.1 (tsnow w)))
  end ;;
  interrupt ;;
  w ← get; if sigdocheck w then modify (fun w => set_selwait w (0, 0)) else mret tt.
Lemma deliver_log l : forall w, exists w', deliver l w = Done (tt, w') /\ log w' = log w.
Proof.
  induction l as [|s l IH]; intros w; cbn [deliver]; [by exists w|]. estep. case_bool_decide; [|apply IH]. unfold sigcatch. estep. match goal with |- context [deliver l ?w1] => destruct (IH w1) as (w' & -> & E) end. by exists w'.
Qed.
Lemma interrupt_log w : exists w', interrupt w = Done (tt, w') /\ log w' = log w.
Proof. unfold interrupt. destruct (k_signals (kern w)) as [|l ls]; [by exists w|]. match goal with |- context [deliver l ?w1] => destruct (deliver_log l w1) as (w' & -> & E) end. by exists w'. Qed.
Lemma timecb_wait_keeps X i w : inv X i w -> exists w', timecb_wait w = Done (tt, w') /\ inv X i w' /\ frame w w' /\ log w' = log w.
Proof.
  intros H. assert (Hk : exists w3, (match head (timecbs w) with None => modify (fun w => set_selwait w (86400, 0)) | Some tp => get_tsnow ;; w ← get; t ← lift (load_timer w tp); modify (fun w => set_selwait w (wait_for t.1 (tsnow w))) end) w = Done (tt, w3) /\ inv X i w3 /\ frame w w3 /\ log w3 = log w).
  { destruct (timecbs w) as [|p l] eqn:El; cbn [head].
    - eexists. split; [reflexivity|]. split; [by apply inv_selwait|split; [apply step_frame, step_selwait|done]].
    - assert (Hp : is_Some (timers w !! p)) by (apply (iv_in _ _ _ H); rewrite El; left). unfold get_tsnow. destruct (clock_keeps X i w H) as (t & w3 & E & H3 & S3 & Et & _ & Elog & _).
      estep. rewrite E. unfold load_timer. wcbn. rewrite Et. destruct Hp as [[ts c] Hp]. rewrite Hp. eexists. split; [reflexivity|]. split; [by apply inv_selwait, inv_now_set|]. split; [|done]. eapply fr_trans; [by apply (clock_now w t w3)|]. apply step_frame, step_selwait. }
  destruct Hk as (w3 & E3 & H3 & F3 & L3). assert (H4 := interrupt_keeps X i w3 H3). destruct (interrupt_log w3) as (w4 & E4 & L4). unfold fkeeps, ok in H4. rewrite E4 in H4. destruct H4 as [H4 F4].
  unfold timecb_wait. unfold mbind at 1, E_bind at 1. cbn [get]. unfold mbind at 1, E_bind at 1. rewrite E3. unfold mbind at 1, E_bind at 1. rewrite E4. estep. destruct (sigdocheck w4); eexists; (split; [reflexivity|]).
  - split; [by apply inv_selwait|]. split; [|by rewrite <- L3, <- L4]. eapply fr_trans; [exact F3|]. eapply fr_trans; [exact F4|apply step_frame, step_selwait].
  - split; [done|]. split; [by eapply fr_trans|congruence].
Qed.
Lemma timecb_check_keeps X i budget w : sp -> good w -> inv X i w -> fkeeps X i (timecb_check call budget) w.
Proof.
  intros Hsp Hg H. unfold timecb_check. fold timecb_wait. apply fkeeps_bind; [by apply get_tsnow_keeps|]. intros _ w1 H1 F1. apply fkeeps_get, fkeeps_bind.
  { apply timecb_loop_keeps; [done|by eapply frame_good|done|]. intros p Hp. destruct (timecbs w1); [done|]. injection Hp as ->. left. }
  intros _ w2 H2 F2. destruct (timecb_wait_keeps X i w2 H2) as (w3 & E & H3 & F3 & _). unfold fkeeps, ok. by rewrite E.
Qed.
(** With fuel for the timers that are there, the check ends, and what was due is not registered any more. *)
Lemma timecb_check_done X i w (Hns : ~ sp) (Hcal : cal) : good w -> inv X i w ->
  exists w', (forall b, (length (timecbs w) <= b)%nat -> timecb_check call b w = Done (tt, w')) /\ inv X i w' /\ frame w w' /\
    forall p ts c, rg_timers (reg_of (log w')) !! p = Some (ts, c) -> ts_le ts (hd (tsnow w) (k_clock (kern w))) = false.
Proof.
  intros Hg H. set (now := hd _ _). assert (Hk : exists w1, get_tsnow w = Done (tt, w1) /\ inv X i w1 /\ frame w w1 /\ tsnow w1 = now /\ timecbs w1 = timecbs w).
  { assert (Hk := get_tsnow_keeps X i w H). revert Hk. unfold fkeeps, ok, get_tsnow, clock_gettime, now. estep. destruct (k_clock (kern w)) as [|t ts]; intros [Hi Hf]; eexists; (split; [reflexivity|]); done. }
  destruct Hk as (w1 & E1 & H1 & F1 & N1 & T1).
  destruct (timecb_loop_done X i Hns Hcal (length (timecbs w)) w1 (head (timecbs w1))) as (w2 & E2 & H2 & F2 & N2 & D2).
  { by eapply frame_good. }
  { done. }
  { intros p Hp. destruct (timecbs w1); [done|]. injection Hp as ->. left. }
  { done. }
  { unfold dues. rewrite <- T1. apply length_filter. }
  destruct (timecb_wait_keeps X i w2 H2) as (w3 & E3 & H3 & F3 & L3). exists w3. split; [|split; [done|split]].
  - intros b Hb. unfold timecb_check. fold timecb_wait. unfold mbind at 1, E_bind at 1. rewrite E1. unfold mbind at 1, E_bind at 1. cbn [get]. unfold mbind at 1, E_bind at 1. rewrite (E2 b Hb). exact E3.
  - eapply fr_trans; [exact F1|]. by eapply fr_trans.
  - intros p ts c Hp. rewrite L3 in Hp. destruct (ts_le ts now) eqn:Hle; [|done]. destruct (decide (p ∈ timecbs w2)) as [Hin|Hn]; [|by rewrite (iv_out _ _ _ H2 p Hn) in Hp].
    rewrite (proj2 (iv_in _ _ _ H2 p Hin)) in Hp. assert (Hd : p ∈ dues w2) by (apply list_elem_of_filter; split; [unfold dueb; by rewrite Hp, N2, N1|done]). rewrite D2 in Hd. by apply elem_of_nil in Hd.
Qed.
(** A caught signal is seen before its callback is called. *)
Lemma sig_seen X i w s : inv X i w -> i = s -> inv X (s + 1) (set_sigs w (sigpipe w) (sigdocheck w) (sigcaught w ∖ {[s]}) (sighandler w)).
Proof.
  intros [] ->. inv_now. intros s' [Hs' Hne]%elem_of_difference. rewrite elem_of_singleton in Hne. apply iv_caught0 in Hs' as [Hr Hd]. split; [done|]. destruct Hd; [by left|right; lia].
Qed.
Lemma inv_weaken X i j w : inv X i w -> (forall s, s ∈ sigcaught w -> sigdocheck w = true \/ j <= s) -> inv X j w.
Proof. intros [] Hj. constructor; try done. intros s Hs. split; [by apply iv_caught0|by apply Hj]. Qed.
Lemma sig_called X i w s c : inv X i w -> sighandler w !! s = Some c -> inv X i (add_log w (Call (OSig s) c (tsnow w))).
Proof. intros [] Hs. inv_now. apply log_ok_snoc; [done|]. cbn. by rewrite iv_sigs0. Qed.
Lemma sig_loop_keeps X n : forall i w, i + Z.of_nat n = nsig -> good w -> inv X i w -> ok (sig_loop call n i) w (fun _ w' => inv X nsig w' /\ frame w w').
Proof.
  induction n as [|n IH]; intros i w Hi Hmx H; cbn [sig_loop].
  { rewrite Z.add_0_r in Hi. subst i. by split; [|apply fr_refl]. }
  apply ok_bind. eapply ok_weaken; [by apply interrupt_keeps|]. intros _ w1 [H1 F1]. apply ok_bind. unfold ok at 1. cbn [get]. apply ok_bind.
  assert (Hgo : forall w2, inv X (i + 1) w2 -> frame w1 w2 -> ok (sig_loop call n (i + 1)) w2 (fun _ w' => inv X nsig w' /\ frame w w')).
  { intros w2 H2 F2. eapply ok_weaken; [apply IH; [lia|eapply frame_good; [exact F2|]; by eapply frame_good|done]|]. intros _ w3 [H3 F3]. split; [done|]. eapply fr_trans; [done|]. by eapply fr_trans. }
  case_bool_decide as Hc.
  - apply ok_bind. unfold ok at 1. cbn [modify]. assert (H2 := sig_seen X i w1 i H1 eq_refl). apply ok_bind. eapply ok_weaken; [by apply interrupt_keeps|]. intros _ w3 [H3 F3]. apply ok_bind. unfold ok at 1. cbn [get].
    assert (F13 : frame w1 w3) by (eapply fr_trans; [|exact F3]; by apply same_frame). destruct (sighandler w3 !! i) as [c|] eqn:Ec; [|by apply Hgo].
    eapply ok_weaken; [apply (Hcall X (i + 1)); [eapply frame_good; [exact F13|]; by eapply frame_good|by apply sig_called]|]. intros _ w4 (H4 & S4 & _). apply Hgo; [done|]. eapply fr_trans; [done|by apply step_frame].
  - apply Hgo; [|apply fr_refl]. eapply inv_weaken; [done|]. intros s Hs. destruct (iv_caught _ _ _ H1 s Hs) as [_ [|Hle]]; [by left|]. destruct (decide (s = i)) as [->|]; [done|right; lia].
Qed.
Lemma deliver_effect l : forall w, exists p d c sw, deliver l w = Done (tt, set_selwait (set_sigs w p d c (sighandler w)) sw) /\ sigpipe w <= p /\ (forall s, s ∈ c -> s ∈ sigcaught w \/ is_Some (sighandler w !! s)) /\ (forall s, s ∈ sigcaught w -> s ∈ c).
Proof.
  induction l as [|s l IH]; intros w; cbn [deliver].
  { exists (sigpipe w), (sigdocheck w), (sigcaught w), (selwait w). split; [by destruct w|]. split; [lia|]. split; [by left|done]. }
  estep. case_bool_decide as Hs.
  - destruct (IH (set_selwait (set_sigs w (if sigpipes_made w then sigpipe w + 1 else sigpipe w) true ({[s]} ∪ sigcaught w) (sighandler w)) (0, 0))) as (p & d & c & sw & E & Hp & Hc & Hm). unfold sigcatch. estep. exists p, d, c, sw. rewrite E. split; [done|]. cbn in Hp, Hc, Hm. split; [destruct (sigpipes_made w); lia|].
    split; [intros s' [[->%elem_of_singleton|Hs']%elem_of_union|Hs']%Hc; naive_solver|]. intros s' Hs'. apply Hm, elem_of_union. by right.
  - apply IH.
Qed.
Lemma interrupt_effect w : exists p d c sw k, interrupt w = Done (tt, set_selwait (set_sigs (set_kern w k) p d c (sighandler w)) sw) /\ (k_select k = k_select (kern w) /\ k_wait k = k_wait (kern w) /\ k_clock k = k_clock (kern w)) /\ sigpipe w <= p /\ (forall s, s ∈ c -> s ∈ sigcaught w \/ is_Some (sighandler w !! s)) /\ (forall s, s ∈ sigcaught w -> s ∈ c).
Proof.
  unfold interrupt. destruct (k_signals (kern w)) as [|l ls].
  - exists (sigpipe w), (sigdocheck w), (sigcaught w), (selwait w), (kern w). split; [by destruct w|]. split; [done|]. split; [lia|]. split; [by left|done].
  - match goal with |- context [deliver l ?w1] => destruct (deliver_effect l w1) as (p & d & c & sw & -> & H) end. by eexists p, d, c, sw, _.
Qed.
(** The pipe is emptied and the flag reset; what was caught before or in between is still marked. *)
Definition sig_start : E unit :=
  modify (fun w => set_sigs w 0 (sigdocheck w) (sigcaught w) (sighandler w)) ;; interrupt ;; modify (fun w => set_sigs w (sigpipe w) false (sigcaught w) (sighandler w)).
Lemma sig_start_spec X w : inv X nsig w -> exists w', sig_start w = Done (tt, w') /\ inv X 1 w' /\ frame w w' /\ (forall s, s ∈ sigcaught w -> s ∈ sigcaught w') /\ log w' = log w /\ sighandler w' = sighandler w.
Proof.
  intros []. unfold sig_start. estep. match goal with |- context [interrupt ?w1] => destruct (interrupt_effect w1) as (p & d & c & sw & k & -> & (Hk & Hk2 & Hk3) & Hp & Hc & Hm) end. estep. cbn in Hp, Hc, Hm, Hk, Hk2, Hk3. eexists. split; [reflexivity|]. split; [|split; [by apply same_frame|done]]. inv_now.
  intros s Hs. destruct (Hc s Hs) as [Hs'|Hs']; [apply iv_caught0 in Hs' as [? _]|apply iv_sigrange0 in Hs']; (split; [done|right; lia]).
Qed.
Lemma sigcb_check_start w : sigdocheck w = true -> sigcb_check call w = (sig_start ;; sig_loop call (Z.to_nat (nsig - 1)) 1) w.
Proof. intros E. unfold sigcb_check, sig_start. estep. rewrite E, ?E. by destruct (interrupt _) as [[[] w']| | |]. Qed.
Lemma sigcb_check_keeps X w : good w -> inv X nsig w -> fkeeps X nsig (sigcb_check call) w.
Proof.
  intros Hmx H. destruct (sigdocheck w) eqn:Ed; [|unfold sigcb_check; apply fkeeps_get; rewrite Ed; by apply fkeeps_refl]. unfold fkeeps, ok. rewrite (sigcb_check_start w Ed). destruct (sig_start_spec X w H) as (w1 & E1 & H1 & F1 & _).
  change (ok (sig_start ;; sig_loop call (Z.to_nat (nsig - 1)) 1) w (fun _ w' => inv X nsig w' /\ frame w w')). apply ok_bind. unfold ok at 1. rewrite E1.
  eapply ok_weaken; [apply (sig_loop_keeps X (Z.to_nat (nsig - 1)) 1); [done|by eapply frame_good|done]|]. intros _ w2 [H2 F2]. split; [done|by eapply fr_trans].
Qed.

(** *** Descriptors *)
Lemma fd_called X i w fd op c : inv X i w -> fdcbs w !! (fd, op) = Some c -> inv X i (add_log w (Call (OFd fd op) c (tsnow w))).
Proof. intros [] Hs. inv_now. apply log_ok_snoc; [done|]. cbn. by rewrite iv_fds0. Qed.
Lemma fd_one_keeps X i fd op n w : good w -> inv X i w -> fkeeps X i (fd_one call fd op n) w.
Proof.
  intros Hmx H. unfold fd_one. apply fkeeps_get. case_bool_decide; [|by apply fkeeps_refl]. apply fkeeps_bind; [|by intros; apply fkeeps_refl]. case_bool_decide as Hs; [|by apply fkeeps_refl].
  apply (iv_set _ _ _ H) in Hs as [c Hc]. rewrite Hc. eapply ok_weaken; [by apply (Hcall X i); [|apply fd_called]|]. intros _ w' (H' & S' & _). split; [done|by apply step_frame].
Qed.
Lemma fd_loop_keeps X i k : forall fd n w, good w -> inv X i w -> fkeeps X i (fd_loop call k fd n) w.
Proof.
  induction k as [|k IH]; intros fd n w Hmx H; cbn [fd_loop]; [by apply fkeeps_refl|]. destruct (0 <? n); [|by apply fkeeps_refl].
  apply fkeeps_bind; [by apply fd_one_keeps|]. intros n1 w1 H1 F1. assert (E1 : good w1) by (by eapply frame_good). apply fkeeps_bind; [by apply fd_one_keeps|]. intros n2 w2 H2 F2. apply IH; [by eapply frame_good|done].
Qed.
Definition no_error (w : world) : Prop := Forall (fun a => a <> SelError) (k_select (kern w)).
Lemma frame_no_error w w' : frame w w' -> no_error w -> no_error w'.
Proof. intros F H. destruct (fr_select _ _ F) as (k & E). unfold no_error in *. rewrite E in H. by apply Forall_app in H as [_ H]. Qed.
Lemma select_keeps X i w : inv X i w -> no_error w -> ok select w (fun r w' => inv X i w' /\ frame w w' /\ is_Some r).
Proof.
  intros H Hne. unfold select, ok, no_error in *. destruct (k_select (kern w)) as [|a l] eqn:E.
  - split; [by apply inv_fdspt|]. split; [apply step_frame, step_fdspt|done].
  - apply Forall_cons in Hne as [Ha _]. assert (F : frame w (set_kern w (mkkernel (k_clock (kern w)) l (k_wait (kern w)) (k_signals (kern w))))).
    { constructor; try done; [exists [a]; by rewrite E|]. exists []. rewrite app_nil_r. split; [done|]. by left. }
    destruct a; [|split; [by apply inv_kern|done]|done]. split; [by apply inv_fdspt, inv_kern|]. split; [|done]. eapply fr_trans; [exact F|apply step_frame, step_fdspt].
Qed.
Lemma fdcb_check_keeps X w : good w -> inv X nsig w -> no_error w -> fkeeps X nsig (fdcb_check call) w.
Proof.
  intros Hmx H Hne. unfold fdcb_check. apply fkeeps_mod; [by apply inv_fdspt|apply step_frame, step_fdspt|]. set (w1 := set_fds _ _ _ _ _).
  apply fkeeps_bind; [by apply interrupt_keeps, inv_fdspt|]. intros _ w2 H2 F2. apply ok_bind. eapply ok_weaken; [apply (select_keeps X nsig w2 H2); by eapply frame_no_error|].
  intros [n|] w3 (H3 & F3 & Hn); [|by destruct Hn]. clear Hn. eapply ok_weaken with (Q := fun _ w' => inv X nsig w' /\ frame w3 w'); [|intros _ w' [H' F']; split; [done|by eapply fr_trans]].
  apply fkeeps_bind; [by apply interrupt_keeps|]. intros _ w4 H4 F4. apply fkeeps_bind; [by apply get_tsnow_keeps|]. intros _ w5 H5 F5. apply fkeeps_get.
  assert (E5 : good w5) by (eapply frame_good; [exact F5|]; eapply frame_good; [exact F4|]; eapply frame_good; [exact F3|]; by eapply frame_good; [exact F2|]).
  apply fkeeps_bind; [destruct (sigdocheck w5); [by apply sigcb_check_keeps|by apply fkeeps_refl]|]. intros _ w6 H6 F6. apply fkeeps_get, fd_loop_keeps; [by eapply frame_good|done].
Qed.

(** *** Idle callbacks *)
Lemma lazy_called X i w p lz nx : inv X i w -> lazies w !! p = Some lz ->
  inv X i (add_log (set_lazies w (<[p := mklazy (lz_interval lz) nx (lz_cb lz)]> (lazies w)) (lazylist w) (lazycb_removed w)) (Call (OLazy p) (lz_cb lz) (tsnow w))).
Proof.
  intros [] Hp. assert (Hd : forall q, is_Some (<[p := mklazy (lz_interval lz) nx (lz_cb lz)]> (lazies w) !! q) <-> is_Some (lazies w !! q)).
  { intros q. rewrite lookup_insert_is_Some. destruct (decide (p = q)) as [->|]; [rewrite Hp|]; naive_solver. }
  inv_now.
  - apply log_ok_snoc; [done|]. cbn. by rewrite iv_lazies0, lookup_fmap, Hp.
  - rewrite iv_lazies0, fmap_insert. cbn [lz_cb]. rewrite insert_id; [done|]. by rewrite lookup_fmap, Hp.
  - intros q. by rewrite Hd.
  - intros q. rewrite Hd. apply iv_lfresh0.
Qed.
(** The idle callbacks whose time has come *)
Definition ldueb (w : world) (p : positive) : bool := match lazies w !! p with Some lz => lz_next lz <=? tv_sec (tsnow w) | None => false end.
Definition ldues (w : world) : list positive := filter (fun p => ldueb w p = true) (lazylist w).
Lemma rearm_frame w p lz nx : lazies w !! p = Some lz -> frame w (set_lazies w (<[p := mklazy (lz_interval lz) nx (lz_cb lz)]> (lazies w)) (lazylist w) (lazycb_removed w)).
Proof.
  intros Hp. constructor; wcbn; try done; [by exists []|intros _ [Hl1 Hl2]; split; wcbn; [done|]|exists []; rewrite app_nil_r; split; [done|]; by left].
  intros q lz' [[<- <-]|[_ Hq]]%lookup_insert_Some; [by apply Hl2 in Hp|by apply Hl2 in Hq].
Qed.
Lemma lazy_turn_keeps X i w p : good w -> inv X i w -> p ∈ lazylist w ->
  ok (lazy_turn call p) w (fun r w' => inv X i w' /\ frame w w' /\ (forall q, r = Some q -> q ∈ lazylist w') /\ (cal -> (w' = w /\ next_of (lazylist w) p = Done r) \/ (length (ldues w') < length (ldues w))%nat)).
Proof.
  intros Hg H Hp. unfold lazy_turn. apply ok_bind. unfold ok at 1. cbn [get]. destruct (proj1 (iv_lazylist _ _ _ H p) Hp) as [lz Ez]. rewrite Ez. destruct (Z.ltb_spec (tv_sec (tsnow w)) (lz_next lz)) as [Hlt|Hge].
  { destruct (next_of_spec (lazylist w) p Hp (iv_lnodup _ _ _ H)) as (o & -> & Ho). unfold ok. cbn [lift]. split; [done|]. split; [apply fr_refl|]. split; [intros q Hq; by apply (Ho q Hq)|]. by left. }
  apply ok_bind. unfold ok at 1. cbn [modify]. set (w1 := set_lazies w _ _ _). assert (F1 : frame w w1) by (by apply rearm_frame). assert (Hg1 : good w1) by (by eapply frame_good).
  apply ok_bind. eapply ok_weaken; [exact (Hcall X i (OLazy p) (lz_cb lz) w1 Hg1 (lazy_called X i w p lz _ H Ez))|]. intros _ w2 (H2 & S2 & _).
  assert (F2 : frame w w2) by (eapply fr_trans; [exact F1|by apply step_frame]).
  assert (Hless : cal -> (length (ldues w2) < length (ldues w))%nat).
  { intros Hc. destruct Hg as (_ & Hlv & _). destruct (Hlv Hc) as [_ Hiv]. specialize (Hiv p lz Ez). destruct (st_calm _ _ S2 Hc) as [_ [_ Hq]]; [by apply Hg1|].
    assert (Hd : forall q, q ∈ ldues w2 -> q <> p /\ q ∈ ldues w).
    { intros q [Hd Hl]%list_elem_of_filter. unfold ldueb in Hd. rewrite (st_now _ _ S2) in Hd. destruct (lazies w2 !! q) as [lq|] eqn:Eq; [|done]. apply Z.leb_le in Hd. specialize (Hq q lq Eq Hd). unfold w1 in Hq, Hd. cbn in Hq, Hd.
      apply lookup_insert_Some in Hq as [[<- <-]|[Hne Hq]]; [cbn in Hd; lia|]. split; [done|]. apply list_elem_of_filter. split; [unfold ldueb; rewrite Hq; by apply Z.leb_le|]. apply (iv_lazylist _ _ _ H). by rewrite Hq. }
    assert (Hs : p :: ldues w2 ⊆+ ldues w); [|apply submseteq_length in Hs; cbn in Hs; lia]. apply NoDup_submseteq.
    - constructor; [intros Hp2; by destruct (Hd p Hp2)|]. apply NoDup_filter, (iv_lnodup _ _ _ H2).
    - intros q [->|Hq']%elem_of_cons; [|by apply Hd]. apply list_elem_of_filter. split; [unfold ldueb; rewrite Ez; by apply Z.leb_le|done]. }
  apply ok_bind. unfold ok at 1. cbn [get]. destruct (lazycb_removed w2) eqn:Er.
  - unfold ok. estep. split; [by destruct H2|]. split; [eapply fr_trans; [exact F2|by apply same_frame]|]. split; [|intros Hc; right; by apply Hless]. intros q Hq. destruct (lazylist w2); [done|]. injection Hq as ->. left.
  - destruct (st_lazies _ _ S2 Er) as [_ Hin]. destruct (next_of_spec (lazylist w2) p (Hin p Hp) (iv_lnodup _ _ _ H2)) as (o & -> & Ho). unfold ok. cbn [lift]. split; [done|]. split; [done|]. split; [intros q Hq; by apply (Ho q Hq)|]. intros Hc. right. by apply Hless.
Qed.
Lemma lazy_loop_keeps X i n (Hsp : sp) : forall w o, good w -> inv X i w -> (forall p, o = Some p -> p ∈ lazylist w) -> fkeeps X i (lazy_loop call n o) w.
Proof.
  induction n as [|n IH]; intros w [p|] Hg H Ho; try by apply fkeeps_refl.
  all: cbn [lazy_loop]; apply ok_bind; (eapply ok_weaken; [apply (lazy_turn_keeps X i w p Hg H (Ho p eq_refl))|]); intros o w1 (H1 & F1 & Hr & _).
  1: done. eapply ok_weaken; [apply IH; [by eapply frame_good|done|done]|]. intros _ w2 [H2 F2]. split; [done|by eapply fr_trans].
Qed.
(** The turns until the list is at its end: those that call shorten [ldues], the others the rest of the list. *)
Lemma next_of_app pre p suf : p ∉ pre -> next_of (pre ++ p :: suf) p = Done (head suf).
Proof. induction pre as [|q pre IH]; intros Hp; cbn [app next_of]; [by rewrite decide_True|]. apply not_elem_of_cons in Hp as [Hne Hp]. rewrite decide_False by done. by apply IH. Qed.
Lemma lazy_loop_done X i (Hns : ~ sp) (Hcal : cal) : forall d k w o, good w -> inv X i w -> (length (ldues w) <= d)%nat ->
  (forall p, o = Some p -> exists pre suf, lazylist w = pre ++ p :: suf /\ (length suf <= k)%nat) ->
  exists N w', (forall b, (N <= b)%nat -> lazy_loop call b o w = Done (tt, w')) /\ inv X i w' /\ frame w w'.
Proof.
  induction d as [d IHd] using lt_wf_ind. induction k as [k IHk] using lt_wf_ind. intros w [p|] Hg H Hd Ho; [|exists 0%nat, w; split; [by intros []|split; [done|apply fr_refl]]].
  destruct (Ho p eq_refl) as (pre & suf & El & Hk). assert (Hp : p ∈ lazylist w) by (rewrite El; apply elem_of_app; right; left).
  assert (Ht := lazy_turn_keeps X i w p Hg H Hp). unfold ok in Ht. destruct (lazy_turn call p w) as [[r w1]| | |] eqn:E; try done. destruct Ht as (H1 & F1 & Hr & Hc).
  assert (Hrec : exists N w', (forall b, (N <= b)%nat -> lazy_loop call b r w1 = Done (tt, w')) /\ inv X i w' /\ frame w1 w').
  { destruct (Hc Hcal) as [[-> En]|Hlt].
    - assert (Hnd := iv_lnodup _ _ _ H). rewrite El in Hnd, En. apply NoDup_app in Hnd as (_ & Hnd & _). rewrite next_of_app in En by (intros Hx; apply (Hnd p Hx); left). injection En as <-.
      destruct suf as [|q suf]; [exists 0%nat, w; split; [by intros []|split; [done|apply fr_refl]]|]. cbn in Hk. apply (IHk (length suf)); [lia|done|done|done|]. intros q' [= <-]. exists (pre ++ [p]), suf. rewrite El, <- app_assoc. done.
    - apply (IHd (length (ldues w1)) ltac:(lia) (length (lazylist w1))); [by eapply frame_good|done|done|]. intros q Hq. destruct (list_elem_of_split _ _ (Hr q Hq)) as (l1 & l2 & E1). exists l1, l2. split; [done|]. rewrite E1, length_app. cbn. lia. }
  destruct Hrec as (N & w' & EN & H' & F'). exists (S N), w'. split; [|split; [done|by eapply fr_trans]]. intros [|b] Hb; [lia|]. cbn [lazy_loop]. unfold mbind, E_bind. rewrite E. apply EN. lia.
Qed.
Lemma lazycb_check_keeps X i budget w : sp -> good w -> inv X i w -> fkeeps X i (lazycb_check call budget) w.
Proof.
  intros Hsp Hg H. unfold lazycb_check. apply fkeeps_bind; [by apply get_tsnow_keeps|]. intros _ w1 H1 F1. apply fkeeps_mod; [by destruct H1|by apply same_frame|]. apply fkeeps_get, lazy_loop_keeps; [done|eapply (frame_good w1); [by apply same_frame|by eapply frame_good]|by destruct H1|].
  intros p. wcbn. destruct (lazylist w1); [done|]. intros [= ->]. left.
Qed.
Lemma lazycb_check_done X i w (Hns : ~ sp) (Hcal : cal) : good w -> inv X i w -> exists N w', (forall b, (N <= b)%nat -> lazycb_check call b w = Done (tt, w')) /\ inv X i w' /\ frame w w'.
Proof.
  intros Hg H. assert (Hk := get_tsnow_keeps X i w H). unfold fkeeps, ok in Hk. destruct (get_tsnow w) as [[[] w1]| | |] eqn:E1; try done. destruct Hk as [H1 F1]. set (w2 := set_lazies w1 (lazies w1) (lazylist w1) false).
  assert (F2 : frame w w2) by (eapply fr_trans; [exact F1|by apply same_frame]).
  destruct (lazy_loop_done X i Hns Hcal (length (ldues w2)) (length (lazylist w2)) w2 (head (lazylist w2))) as (N & w' & EN & H' & F'); [by eapply frame_good|by destruct H1|done| |].
  { intros p Hp. destruct (lazylist w2) as [|q l]; [done|]. injection Hp as ->. exists [], l. split; [done|]. cbn. lia. }
  exists N, w'. split; [|split; [done|by eapply fr_trans]]. intros b Hb. unfold lazycb_check. unfold mbind at 1, E_bind at 1. rewrite E1. estep. by apply EN.
Qed.

(** *** No signal is lost *)
Definition answered (s : Z) (l : list event) : Prop := (exists c now, Call (OSig s) c now ∈ l) \/ SetSig s None ∈ l.
Lemma interrupt_caught X i w : inv X i w -> exists w', interrupt w = Done (tt, w') /\ inv X i w' /\ frame w w' /\ log w' = log w /\ sighandler w' = sighandler w /\ sigcaught w ⊆ sigcaught w'.
Proof.
  intros H. assert (Hk := interrupt_keeps X i w H). destruct (interrupt_effect w) as (p & d & c & sw & k & E & _ & _ & _ & Hm). unfold fkeeps, ok in Hk. rewrite E in Hk. destruct Hk as [Hk1 Hk2]. eexists. split; [exact E|]. by split_and!.
Qed.
Lemma sig_loop_calls X s n : forall i w, i + Z.of_nat n = nsig -> good w -> inv X i w -> i <= s < nsig -> s ∈ sigcaught w -> is_Some (sighandler w !! s) ->
  ok (sig_loop call n i) w (fun _ w' => exists l, log w' = log w ++ l /\ answered s l).
Proof.
  induction n as [|n IH]; intros i w Hi Hg H Hs Hc Hh; cbn [sig_loop]; [lia|]. destruct (interrupt_caught X i w H) as (w1 & E1 & H1 & F1 & L1 & h1 & C1). apply ok_bind. unfold ok at 1. rewrite E1. apply ok_bind. unfold ok at 1. cbn [get].
  assert (Hg1 : good w1) by (by eapply frame_good). specialize (C1 s Hc). rewrite <- L1. rewrite <- h1 in Hh. clear w E1 H F1 L1 h1 Hc Hg.
  assert (Hrest : forall w2, inv X (i + 1) w2 -> frame w1 w2 -> (exists l, log w2 = log w1 ++ l /\ answered s l) -> ok (sig_loop call n (i + 1)) w2 (fun _ w' => exists l, log w' = log w1 ++ l /\ answered s l)).
  { intros w2 H2 F2 (l & El & Hl). eapply ok_weaken; [apply (sig_loop_keeps X n (i + 1) w2); [lia|by eapply frame_good|done]|]. intros _ w3 [_ F3]. destruct (fr_log _ _ F3) as (l' & El' & _). exists (l ++ l'). rewrite El', El, app_assoc. split; [done|].
    destruct Hl as [(c & now & Hl)|Hl]; [left; exists c, now|right]; apply elem_of_app; by left. }
  assert (Hgo : forall w2, inv X (i + 1) w2 -> frame w1 w2 -> (exists l, log w2 = log w1 ++ l /\ (is_Some (sighandler w2 !! s) \/ SetSig s None ∈ l)) -> i < s -> s ∈ sigcaught w2 -> ok (sig_loop call n (i + 1)) w2 (fun _ w' => exists l, log w' = log w1 ++ l /\ answered s l)).
  { intros w2 H2 F2 (l & El & [Hh2|Hl]) Hlt Hc2; [|apply Hrest; [done|done|]; exists l; split; [done|by right]]. eapply ok_weaken; [apply IH; [lia|by eapply frame_good|done|lia|done|done]|]. intros _ w3 (l' & El' & Hl'). exists (l ++ l'). rewrite El', El, app_assoc. split; [done|].
    destruct Hl' as [(c & now & Hl)|Hl]; [left; exists c, now|right]; apply elem_of_app; by right. }
  case_bool_decide as Hi1.
  - apply ok_bind, ok_bind. unfold ok at 1. cbn [modify]. assert (H2 := sig_seen X i w1 i H1 eq_refl). set (w2 := set_sigs w1 _ _ _ _) in *. destruct (interrupt_caught X (i + 1) w2 H2) as (w3 & E3 & H3 & F3 & L3 & h3 & C3). change (sighandler w2) with (sighandler w1) in h3. change (log w2) with (log w1) in L3.
    apply ok_bind. unfold ok at 1. rewrite E3. apply ok_bind. unfold ok at 1. cbn [get]. assert (F13 : frame w1 w3) by (eapply fr_trans; [|exact F3]; by apply same_frame). assert (Hg3 : good w3) by (by eapply frame_good).
    assert (C3' : i <> s -> s ∈ sigcaught w3) by (intros Hne; apply C3; unfold w2; wcbn; set_solver).
    destruct (sighandler w3 !! i) as [c|] eqn:Ec.
    + eapply ok_weaken; [apply (Hcall X (i + 1)); [done|by apply sig_called]|]. intros _ w4 (H4 & S4 & l & L4). assert (F14 : frame w1 w4) by (eapply fr_trans; [exact F13|by apply step_frame]). destruct (decide (i = s)) as [->|Hne].
      * apply Hrest; [done|done|]. eexists. rewrite L4, L3. split; [done|]. left. exists c, (tsnow w3). left.
      * destruct (st_log _ _ S4) as (l' & L4' & Hl'). apply Hgo; [done|done| |lia|by apply (st_caught _ _ S4), C3']. exists l'. rewrite L4', L3. split; [done|]. destruct (sighandler w4 !! s) eqn:Es; [by left|]. destruct (Hl' s Es) as [Hn|]; [|by right]. rewrite h3 in Hn. rewrite Hn in Hh. by destruct Hh.
    + assert (Hne : i <> s) by (intros ->; rewrite h3 in Ec; rewrite Ec in Hh; by destruct Hh). unfold ok at 1. cbn [mret E_ret]. apply Hgo; [done|done| |lia|by apply C3']. exists []. rewrite L3, app_nil_r. split; [done|]. left. by rewrite h3.
  - assert (Hne : i <> s) by (intros ->; done). apply ok_bind. unfold ok at 1. cbn [mret E_ret]. apply Hgo; [|apply fr_refl| |lia|done]; [|exists []; rewrite app_nil_r; split; [done|by left]].
    eapply inv_weaken; [done|]. intros s' Hs'. destruct (iv_caught _ _ _ H1 s' Hs') as [_ [|Hle]]; [by left|]. destruct (decide (s' = i)) as [->|]; [done|right; lia].
Qed.
Lemma sigcb_check_calls X w s : good w -> inv X nsig w -> s ∈ sigcaught w -> is_Some (sighandler w !! s) -> ok (sigcb_check call) w (fun _ w' => exists l, log w' = log w ++ l /\ answered s l).
Proof.
  intros Hg H Hs Hh. destruct (iv_caught _ _ _ H s Hs) as [Hr [Ed|]]; [|lia]. unfold ok. rewrite (sigcb_check_start w Ed). destruct (sig_start_spec X w H) as (w1 & E1 & H1 & F1 & C1 & L1 & h1). unfold mbind, E_bind. rewrite E1, <- L1.
  apply (sig_loop_calls X s _ 1); [done|by eapply frame_good|done|lia|by apply C1|by rewrite h1].
Qed.

(** *** Rounds *)
(** With [sp] for every budget, else for every budget that is large enough *)
Definition does {A} (m : nat -> E A) (w : world) (Q : A -> world -> Prop) : Prop :=
  (sp -> forall b, ok (m b) w Q) /\ (~ sp -> cal -> exists N a w', (forall b, (N <= b)%nat -> m b w = Done (a, w')) /\ Q a w').
Lemma does_bind {A B} (m : nat -> E A) (k : nat -> A -> E B) w Q : does m w (fun a w' => does (fun b => k b a) w' Q) -> does (fun b => m b ≫= k b) w Q.
Proof.
  intros [H1 H2]. split.
  - intros Hsp b. apply ok_bind. eapply ok_weaken; [by apply H1|]. intros a w' [H _]. by apply H.
  - intros Hns Hc. destruct (H2 Hns Hc) as (N & a & w1 & E & [_ H]). destruct (H Hns Hc) as (N' & a' & w2 & E' & HQ). exists (N `max` N')%nat, a', w2. split; [|done]. intros b Hb. unfold mbind, E_bind. rewrite E by lia. apply E'. lia.
Qed.
Lemma does_ok {A} (m : E A) w Q : ok m w Q -> does (fun _ => m) w Q.
Proof. intros H. split; [done|]. intros Hns _. unfold ok in H. destruct (m w) as [[a w']| | |] eqn:E; try done. by exists 0%nat, a, w'. Qed.
Lemma does_weaken {A} (m : nat -> E A) w (Q Q' : A -> world -> Prop) : does m w Q -> (forall a w', Q a w' -> Q' a w') -> does m w Q'.
Proof. intros [H1 H2] HQ. split; [intros Hsp b; eapply ok_weaken; [by apply H1|done]|]. intros Hns Hc. destruct (H2 Hns Hc) as (N & a & w1 & E & H). exists N, a, w1. split; [done|by apply HQ]. Qed.
Lemma timecb_check_does X i w : good w -> inv X i w -> does (timecb_check call) w (fun _ w' => inv X i w' /\ frame w w').
Proof.
  intros Hg H. split; [intros Hsp b; by apply timecb_check_keeps|]. intros Hns Hc. destruct (timecb_check_done X i w Hns Hc Hg H) as (w' & E & H' & F' & _). by exists (length (timecbs w)), tt, w'.
Qed.
Lemma lazycb_check_does X i w : good w -> inv X i w -> does (lazycb_check call) w (fun _ w' => inv X i w' /\ frame w w').
Proof.
  intros Hg H. split; [intros Hsp b; by apply lazycb_check_keeps|]. intros Hns Hc. destruct (lazycb_check_done X i w Hns Hc Hg H) as (N & w' & E & H' & F'). by exists N, tt, w'.
Qed.
Definition ready (made : bool) (w : world) : Prop := good w /\ inv [] nsig w /\ no_error w /\ amain_panic w = false /\ sigpipes_made w = made.
Lemma frame_ready made w w' : ready made w -> inv [] nsig w' -> frame w w' -> ready made w'.
Proof. intros (E & H & Hn & Hp & Hm) H' F. split; [by eapply frame_good|]. split; [done|]. split; [by eapply frame_no_error|]. destruct (fr_flags _ _ F) as (-> & -> & _). done. Qed.
Lemma ready_bind {A B} made (m : nat -> E A) (k : nat -> A -> E B) w Q : ready made w -> (good w -> inv [] nsig w -> no_error w -> does m w (fun _ w' => inv [] nsig w' /\ frame w w')) -> (forall a w', ready made w' -> does (fun b => k b a) w' Q) -> does (fun b => m b ≫= k b) w Q.
Proof. intros Hr Hm Hk. apply does_bind. destruct Hr as (E & H & Hn & Hp & Hd). eapply does_weaken; [by apply Hm|]. intros a w' [H' F]. apply Hk. by eapply (frame_ready made w). Qed.
Lemma acheck_does made w : ready made w -> does (_acheck call) w (fun _ w' => ready made w').
Proof.
  intros Hr. unfold _acheck. apply (does_bind (fun _ => get)), does_ok. unfold ok. cbn [get]. assert (Ep : amain_panic w = false) by apply Hr. rewrite Ep. apply (does_bind (fun _ => lift (assertM (negb false)))), does_ok. unfold ok. cbn [negb assertM lift].
  apply (ready_bind made (lazycb_check call)); [done|intros; by apply lazycb_check_does|]. intros _ w1 Hr1. apply (ready_bind made (fun _ => fdcb_check call)); [done|intros; by apply does_ok, fdcb_check_keeps|]. intros _ w2 Hr2.
  apply (ready_bind made (fun _ => sigcb_check call)); [done|intros; by apply does_ok, sigcb_check_keeps|]. intros _ w3 Hr3. eapply does_weaken; [apply (timecb_check_does [] nsig w3); apply Hr3|]. intros _ w4 [H4 F4]. by eapply frame_ready.
Qed.
Lemma rounds_does made n : forall w, ready made w -> does (fun b => rounds call b n) w (fun _ w' => ready made w').
Proof. induction n as [|n IH]; intros w Hr; [by apply does_ok|]. cbn [rounds]. apply (does_bind (_acheck call)). eapply does_weaken; [by apply acheck_does|]. intros [] w'. apply IH. Qed.
Lemma ok_ready_bind {A B} made (m : E A) (k : A -> E B) w Q : ready made w -> fkeeps [] nsig m w -> (forall a w', ready made w' -> ok (k a) w' Q) -> ok (m ≫= k) w Q.
Proof. intros Hr Hm Hk. apply ok_bind. eapply ok_weaken; [exact Hm|]. intros a w' [H' F]. apply Hk. by eapply frame_ready. Qed.
(** The pipe is empty and no signal waits for it. *)
Lemma ainit_ready w : 0 <= pipe < mx -> ready (sigpipes_made w) w -> (sigpipes_made w = false -> sigdocheck w = false) -> ok (ainit pipe) w (fun _ w' => ready true w').
Proof.
  intros Hmx Hr Hd. unfold ainit. apply ok_bind. unfold ok at 1. cbn [get]. destruct (sigpipes_made w) eqn:Em; [done|]. specialize (Hd eq_refl). apply ok_bind. unfold ok at 1. cbn [modify].
  assert (Hr1 : ready true (set_flags w true (amain_called w))) by (destruct Hr as (? & [] & ? & ? & _); split; [done|]; split; [constructor; wcbn; try done; intros _ Hx; by rewrite Hd in Hx|done]).
  revert Hr1. generalize (set_flags w true (amain_called w)). clear w Hr Em Hd. intros w Hr.
  apply (ok_ready_bind true); [done|apply keeps_fkeeps, fdcb_keeps; [apply Hr|destruct Hr as ((-> & _) & _); lia]|]. intros _ w1 Hr1. apply ok_bind. assert (H1 : inv [] nsig w1) by apply Hr1.
  assert (Hk : ok (sigcb SIGCHLD (Some CbChldCheck)) w1 (fun _ w' => ready true w' /\ is_Some (sighandler w' !! SIGCHLD))).
  { assert (Hs := sigcb_keeps [] nsig SIGCHLD (Some CbChldCheck) w1 H1 ltac:(unfold SIGCHLD, nsig; lia) eq_refl). revert Hs. unfold keeps, sigcb, ok. change ((0 <? SIGCHLD) && (SIGCHLD <? nsig)) with true. change (sigaction_ok SIGCHLD) with true. cbn [assertM]. estep. intros [Hs S]. split; [eapply frame_ready; [exact Hr1|done|by apply step_frame]|]. rewrite lookup_insert_eq. done. }
  eapply ok_weaken; [exact Hk|]. intros _ w2 [Hr2 Hs]. eapply ok_weaken; [apply (sigcatch_keeps [] nsig SIGCHLD w2); [apply Hr2|done]|]. intros _ w3 [H3 F3]. by eapply frame_ready.
Qed.
Lemma amain_does n w : 0 <= pipe < mx -> amain_called w = false -> ready (sigpipes_made w) w -> (sigpipes_made w = false -> sigdocheck w = false) -> does (fun b => amain call b pipe n) w (fun _ w' => ready true w').
Proof.
  intros Hmx Ha Hr Hd. unfold amain. apply (does_bind (fun _ => get)), does_ok. unfold ok. cbn [get]. rewrite Ha. apply (does_bind (fun _ => lift (assertM (negb false)))), does_ok. unfold ok. cbn [negb assertM lift]. apply (does_bind (fun _ => modify _)), does_ok. unfold ok. cbn [modify].
  assert (Hr1 : ready (sigpipes_made w) (set_flags w (sigpipes_made w) true)) by (destruct Hr as (? & [] & ? & ? & ?); done). set (w1 := set_flags w (sigpipes_made w) true) in *. change (sigpipes_made w) with (sigpipes_made w1) in Hr1, Hd. change (sigdocheck w) with (sigdocheck w1) in Hd. clearbody w1. clear w Ha Hr. rename w1 into w, Hr1 into Hr.
  apply (does_bind (fun _ => ainit pipe)), does_ok. eapply ok_weaken; [by apply ainit_ready|]. intros [] w1 Hr1. apply (ready_bind true (timecb_check call)); [done|intros; by apply timecb_check_does|]. intros _ w2 Hr2. by apply rounds_does.
Qed.
End checks.
End runs.
Lemma start_inv m k : inv [] nsig (start_world m k).
Proof. constructor; cbn; try done; try (by intros ? [? ?%lookup_empty_Some]); try (by intros ? ?%elem_of_nil); try set_solver. apply log_ok_nil. all: try (intros ?; rewrite lookup_empty; split; [set_solver|by intros []]). all: constructor. Qed.

(** ** Programs from the start *)
(** The state between two rounds: the structures of the loop hold what the log says, each timer in
    memory is in the tree, the tree is in order, and a signal that was caught makes the next round look for it. *)
Record consistent (w : world) : Prop := {
  co_log : log_ok (log w);
  co_timers p t : rg_timers (reg_of (log w)) !! p = Some t <-> p ∈ timecbs w /\ timers w !! p = Some t;
  co_memory : dom (timers w) = list_to_set (timecbs w);
  co_order : NoDup (timecbs w) /\ StronglySorted (before (timers w)) (timecbs w);
  co_lazies : rg_lazies (reg_of (log w)) = lz_cb <$> lazies w /\ dom (lazies w) = list_to_set (lazylist w) /\ NoDup (lazylist w);
  co_fds : rg_fds (reg_of (log w)) = fdcbs w /\ dom (fdcbs w) = fdsp w /\ forall f, f ∈ fdsp w -> 0 <= f.1 < nselfd w;
  co_sigs : rg_sigs (reg_of (log w)) = sighandler w;
  co_chlds : rg_chlds (reg_of (log w)) = chldcbs w;
  co_caught s : s ∈ sigcaught w -> 0 < s < nsig /\ sigdocheck w = true /\ 0 < sigpipe w
}.
Lemma inv_consistent w : inv [] nsig w -> sigpipes_made w = true -> consistent w.
Proof.
  intros H Hm. assert (Hpipe := iv_pipe _ _ _ H). destruct H. constructor; try done.
  - intros p t. destruct (decide (p ∈ timecbs w)) as [Hp|Hp]; [rewrite (proj2 (iv_in0 p Hp)); naive_solver|rewrite iv_out0 by done; naive_solver].
  - apply set_eq. intros p. rewrite elem_of_dom, elem_of_list_to_set. split; [intros Hp; by destruct (iv_alloc0 p Hp) as [|?%elem_of_nil]|intros Hp; by apply iv_in0].
  - split; [done|]. split; [|done]. apply set_eq. intros p. rewrite elem_of_dom, elem_of_list_to_set. by rewrite iv_lazylist0.
  - split; [done|]. split; [|intros f Hf; by apply iv_nsel0]. apply set_eq. intros f. by rewrite elem_of_dom, iv_set0.
  - intros s Hs. destruct (iv_caught0 s Hs) as [Hr [Hd|]]; [|lia]. split; [done|]. split; [done|by apply Hpipe].
Qed.
(** A program registers its first callbacks and calls [amain]. *)
Section programs.
Context (behave : list event -> Z -> list action) (setup : list action) (pipe mx : Z) (k : kernel).
Definition program (nested depth n budget : nat) : E unit := do_actions nested pipe (call_cb behave nested pipe depth) setup ;; amain (call_cb behave nested pipe depth) budget pipe n.
(** What the programs and the kernel may not do *)
Definition fair : Prop := polite mx behave /\ acts_ok mx (reg_of []) setup /\ 0 <= pipe < mx /\ Forall (fun a => a <> SelError) (k_select k).
(** Callbacks register only what is later, and the clock does not run backwards. *)
Definition later : Prop := calm behave /\ Forall (calm_act (mkts 0 0)) setup /\ StronglySorted (fun a b => tscmp a b <= 0) (mkts 0 0 :: k_clock k).
Lemma program_does sp cal nested depth n : fair -> (cal -> later) -> sp \/ (length (k_wait k) < depth)%nat ->
  does sp cal (program nested depth n) (start_world mx k) (fun _ w => ready sp cal mx depth (length (k_wait k)) true w).
Proof.
  intros (Hp & Hs & Hmx & He) Hl Hd. set (w0 := start_world mx k). assert (Hg : good sp cal mx depth (length (k_wait k)) w0).
  { split; [done|]. split; [|done]. intros Hc. split; [by apply Hl|]. intros p lz Hz. change (lazies w0) with (∅ : gmap positive lazycb_t) in Hz. by rewrite lookup_empty in Hz. }
  assert (Hcall : call_ok sp cal mx depth (call_cb behave nested pipe depth)) by (apply call_cb_ok; [done|intros Hc; by apply Hl]).
  unfold program. apply (does_bind sp cal (fun _ => do_actions nested pipe (call_cb behave nested pipe depth) setup)), does_ok. eapply ok_weaken.
  { apply (do_actions_keeps sp cal pipe nested (call_cb behave nested pipe depth) [] nsig setup w0); [apply start_inv|apply Hg|intros Hc; by apply Hl|done]. }
  intros _ w1 [H1 S1]. destruct (st_flags _ _ _ S1) as (Em & Ep & Ea). apply amain_does; [done|done|by rewrite Ea| |by rewrite (st_docheck _ _ _ S1)].
  rewrite Em. eapply frame_ready; [|exact H1|by apply step_frame]. split; [done|]. split; [apply start_inv|done].
Qed.
End programs.

(** What is registered and is not called or removed stays registered. *)
Lemma rg_next_mono l1 l2 : log_ok (l1 ++ l2) -> (rg_next (reg_of l1) <= rg_next (reg_of (l1 ++ l2)))%positive.
Proof.
  induction l2 as [|e l2 IH] using rev_ind; intros Hl; [rewrite app_nil_r; lia|]. rewrite app_assoc in *. assert (He := Hl (l1 ++ l2) e [] eq_refl). assert (IH' : log_ok (l1 ++ l2)) by (intros a x b E; apply (Hl a x (b ++ [e])); by rewrite E, <- app_assoc).
  specialize (IH IH'). rewrite reg_of_snoc. destruct e; cbn [reg_step rg_next called_ok] in *; try lia. destruct o; cbn [rg_next]; lia.
Qed.
Lemma timer_kept p t l1 l2 : log_ok (l1 ++ l2) -> (p < rg_next (reg_of l1))%positive -> rg_timers (reg_of l1) !! p = Some t ->
  rg_timers (reg_of (l1 ++ l2)) !! p = Some t \/ (exists c now, Call (OTimer p) c now ∈ l2) \/ OldTimer p ∈ l2.
Proof.
  intros Hl Hp Ht. induction l2 as [|e l2 IH] using rev_ind; [rewrite app_nil_r; by left|]. rewrite app_assoc in *. assert (He := Hl (l1 ++ l2) e [] eq_refl). assert (Hl' : log_ok (l1 ++ l2)) by (intros a x b E; apply (Hl a x (b ++ [e])); by rewrite E, <- app_assoc).
  assert (Hn := rg_next_mono l1 l2 Hl'). destruct (IH Hl') as [IHt|[(c & now & H)|H]]; [|right; left; exists c, now; apply elem_of_app; by left|right; right; apply elem_of_app; by left].
  rewrite reg_of_snoc. assert (Hin : e ∈ l2 ++ [e]) by (apply elem_of_app; right; left). destruct e; cbn [reg_step rg_timers called_ok] in *; try (by left).
  - left. rewrite lookup_insert_ne; [done|]. lia.
  - destruct (decide (p0 = p)) as [->|Hne]; [right; by right|left; by rewrite lookup_delete_ne].
  - destruct o; cbn [rg_timers]; try (by left). destruct (decide (p0 = p)) as [->|Hne]; [right; left; eauto|left; by rewrite lookup_delete_ne].
Qed.
Lemma false_ns : ~ False.
Proof. tauto. Qed.

(** C2: whatever the program does in its callbacks (it may register and remove
    anything at any time, also timers that are due at once) and whatever the kernel
    answers (signals at any of the points where they may come, children, readiness
    of descriptors, times), the loop of [amain] never follows an invalid pointer
    and fails no assertion, as long as callbacks remove only what is registered, use valid descriptors
    and signal numbers and do not call [acheck], and [select] does not fail.  Every
    call is of a callback that is registered at that time for that timer, descriptor, signal,
    child or idle callback, and a timer's not before its time.  Between rounds the tree, the sets, the tables and
    the lists hold what is registered, no timer is left in memory outside of the tree, and a
    signal that was caught and not answered sets [sigdocheck] and leaves a byte in the pipe. *)
Theorem amain_safe behave setup pipe mx k nested depth n budget : fair behave setup pipe mx k ->
  match program behave setup pipe nested depth n budget (start_world mx k) with
  | Done (_, w) => consistent w
  | Spin => True
  | Panic | Wild => False
  end.
Proof.
  intros Hf. destruct (program_does behave setup pipe mx k True False nested depth n Hf) as [H _]; [done|by left|]. specialize (H I budget). unfold ok in H. destruct (program _ _ _ _ _ _ _) as [[[] w]| | |]; try done. apply inv_consistent; apply H.
Qed.
(** C3: if callbacks register only timers that are later than the time of their
    call and idle callbacks with a positive interval, and the clock does not run
    backwards, then the loop comes to an end in every round: any number of rounds of
    [amain] is completed, with the result the same for every budget from some
    bound on.  Callbacks for children nest at most as deep as there are children. *)
Theorem amain_completes behave setup pipe mx k nested depth n : fair behave setup pipe mx k -> later behave setup k -> (length (k_wait k) < depth)%nat ->
  exists enough w, consistent w /\ forall budget, (enough <= budget)%nat -> program behave setup pipe nested depth n budget (start_world mx k) = Done (tt, w).
Proof.
  intros Hf Hl Hd. destruct (program_does behave setup pipe mx k False True nested depth n Hf) as [_ H]; [done|by right|]. destruct (H false_ns I) as (N & [] & w & E & Hr). exists N, w. split; [apply inv_consistent; apply Hr|done].
Qed.
(** C8: after any number of rounds of such a program, the next [timecb_check] completes with a
    budget of the number of timers, and every timer that is registered and due at
    the time that it reads is called, if another callback does not remove it first. *)
Theorem timecb_check_calls_due behave setup pipe mx k nested depth n budget w : fair behave setup pipe mx k -> later behave setup k -> (length (k_wait k) < depth)%nat ->
  program behave setup pipe nested depth n budget (start_world mx k) = Done (tt, w) ->
  exists w' l, (forall b, (length (timecbs w) <= b)%nat -> timecb_check (call_cb behave nested pipe depth) b w = Done (tt, w')) /\ consistent w' /\ log w' = log w ++ l /\
    forall p ts c, rg_timers (reg_of (log w)) !! p = Some (ts, c) -> ts_le ts (hd (tsnow w) (k_clock (kern w))) = true ->
      (exists c now, Call (OTimer p) c now ∈ l) \/ OldTimer p ∈ l.
Proof.
  intros Hf Hl Hd E. destruct (program_does behave setup pipe mx k True True nested depth n Hf) as [H _]; [done|by left|]. specialize (H I budget). unfold ok in H. rewrite E in H. destruct H as (Hg & Hi & _ & _ & Hm).
  assert (Hw : (length (k_wait (kern w)) < depth)%nat) by (destruct Hg as (_ & _ & _ & Hw); lia).
  destruct (timecb_check_done False True mx (call_cb behave nested pipe depth) depth (length (k_wait k)) (call_cb_ok False True pipe behave nested mx (proj1 Hf) (fun _ => proj1 Hl) depth) [] nsig w false_ns I) as (w' & E' & H' & F' & Hdue).
  { destruct Hg as (G1 & G2 & _ & G4). split; [done|]. split; [done|]. split; [by right|done]. }
  { done. }
  destruct (fr_log _ _ _ F') as (l & El & _). exists w', l. split; [done|]. split; [apply inv_consistent; [done|by destruct (fr_flags _ _ _ F') as (-> & _)]|]. split; [done|]. intros p ts c Hp Hle.
  assert (Hin : p ∈ timecbs w) by (destruct (decide (p ∈ timecbs w)); [done|]; by rewrite (iv_out _ _ _ Hi) in Hp).
  destruct (timer_kept p (ts, c) (log w) l) as [Hk|Hk]; [rewrite <- El; apply (iv_log _ _ _ H')|rewrite (iv_next _ _ _ Hi); apply (iv_fresh _ _ _ Hi), (iv_in _ _ _ Hi p Hin)|done| |done].
  rewrite <- El in Hk. apply Hdue in Hk. congruence.
Qed.
(** C9: after any number of rounds of any program that is [fair], a signal that was caught and has a
    handler is not lost: the next [sigcb_check] completes and calls the handler that the signal has
    then, or another callback has removed the handler meanwhile.  The signals that arrive
    before, between and after the steps of [sigcb_check] are arbitrary. *)
Theorem sigcb_check_answers behave setup pipe mx k nested depth n budget w s : fair behave setup pipe mx k -> (length (k_wait k) < depth)%nat ->
  program behave setup pipe nested depth n budget (start_world mx k) = Done (tt, w) -> s ∈ sigcaught w -> is_Some (sighandler w !! s) ->
  exists w' l, sigcb_check (call_cb behave nested pipe depth) w = Done (tt, w') /\ consistent w' /\ log w' = log w ++ l /\ answered s l.
Proof.
  intros Hf Hd E Hs Hh. destruct (program_does behave setup pipe mx k True False nested depth n Hf) as [H _]; [done|by left|]. specialize (H I budget). unfold ok in H. rewrite E in H. destruct H as ((G1 & G2 & _ & G4) & Hi & _ & _ & Hm).
  assert (Hcall := call_cb_ok False False pipe behave nested mx (proj1 Hf) (fun F => False_ind _ F) depth).
  assert (Hg : good False False mx depth (length (k_wait k)) w) by (split; [done|]; split; [done|]; split; [right; lia|done]).
  assert (H1 := sigcb_check_calls False False mx _ depth _ Hcall [] w s Hg Hi Hs Hh). assert (H2 := sigcb_check_keeps False False mx _ depth _ Hcall [] w Hg Hi).
  unfold fkeeps, ok in *. destruct (sigcb_check _ w) as [[[] w']| | |]; try done. destruct H1 as (l & El & Hl), H2 as [H2 F2]. exists w', l. split; [done|]. split; [apply inv_consistent; [done|by destruct (fr_flags _ _ _ F2) as (-> & _)]|done].
Qed.
(** ** An example *)
(** Timers, an idle callback, a descriptor, a signal and a child *)
Definition demo_behave (l : list event) (n : Z) : list action :=
  if n =? 1 then [Delaycb 2 0 (CbUser 1); TimecbRemove None]
  else if n =? 2 then [Fdcb 4 selread None; Sigcb 10 None]
  else if n =? 3 then match rg_lazies (reg_of l) !! 2%positive with Some _ => [LazycbRemove 2; Lazycb 60 (CbUser 0)] | None => [] end
  else if n =? 4 then match rg_timers (reg_of l) !! 3%positive with Some _ => [TimecbRemove (Some 3%positive)] | None => [] end
  else [].
Definition demo_setup : list action :=
  [Timecb (mkts 5 0) (CbUser 1); Lazycb 3 (CbUser 3); Fdcb 4 selread (Some (CbUser 2)); Sigcb 10 (Some (CbUser 0)); Chldcb 7 (Some (CbUser 4)); Timecb (mkts 30 0) (CbUser 0); Timecb (mkts 5 0) (CbUser 0)].
Definition demo_kernel : kernel :=
  mkkernel [mkts 1 0; mkts 4 0; mkts 4 0; mkts 5 7; mkts 6 0; mkts 6 0; mkts 8 0; mkts 9 0; mkts 9 0; mkts 9 0; mkts 9 0] [SelReady [(4, 0); (9, 1)]; SelIntr] [(7, 256)] [[]; [10; 12]; [10]].
Lemma demo_fair : fair demo_behave demo_setup 3 64 demo_kernel.
Proof.
  split; [|split; [|split; [lia|by repeat constructor]]].
  - intros l n. unfold demo_behave. repeat case_match; cbn; unfold fdsn, selread, nsig; repeat split; try lia; try (by eexists); done.
  - cbn. unfold fdsn, selread, nsig. repeat split; try lia; done.
Qed.
Lemma demo_later : later demo_behave demo_setup demo_kernel.
Proof.
  split; [|split].
  - intros l o c now n. unfold demo_behave. repeat case_match; repeat constructor; cbn; lia.
  - repeat constructor; cbn; lia.
  - unfold demo_kernel. cbn [k_clock]. repeat (constructor; [|repeat constructor; vm_compute; discriminate]). constructor.
Qed.
Definition demo (n : nat) : world := match program demo_behave demo_setup 3 1 2 n 9 (start_world 64 demo_kernel) with Done (_, w) => w | _ => start_world 64 demo_kernel end.
(** The calls of two rounds, with their times *)
Definition calls (w : world) : list (origin * Z) := omap (fun e => match e with Call o _ now => Some (o, tv_sec now) | _ => None end) (log w).
Example demo_calls : calls (demo 2) =
  [(OLazy 2, 4); (OSig 10, 5); (OSig 17, 5); (OChld 7 256, 5); (OFd 4 0, 5); (OTimer 1, 6); (OTimer 4, 6); (OTimer 6, 9)].
Proof. vm_compute. reflexivity. Qed.
Lemma amain_safe_witness : fair demo_behave demo_setup 3 64 demo_kernel /\
  match program demo_behave demo_setup 3 1 2 2 9 (start_world 64 demo_kernel) with Done (_, w) => consistent w | Spin => True | Panic | Wild => False end.
Proof. split; [exact demo_fair|]. exact (amain_safe demo_behave demo_setup 3 64 demo_kernel 1 2 2 9 demo_fair). Defined.
Lemma amain_completes_witness : later demo_behave demo_setup demo_kernel /\
  exists enough w, consistent w /\ forall budget, (enough <= budget)%nat -> program demo_behave demo_setup 3 1 2 2 budget (start_world 64 demo_kernel) = Done (tt, w).
Proof. split; [exact demo_later|]. apply (amain_completes demo_behave demo_setup 3 64 demo_kernel 1 2 2 demo_fair demo_later). cbn. lia. Defined.
(** After the first call of [timecb_check] timers 1 and 4 are due at the next reading of the clock. *)
Definition late_kernel : kernel := mkkernel [mkts 1 0; mkts 1 0; mkts 5 0; mkts 6 0] [] [] [].
Lemma late_later : later demo_behave demo_setup late_kernel.
Proof.
  split; [apply demo_later|]. split; [apply demo_later|]. unfold late_kernel. cbn [k_clock]. repeat (constructor; [|repeat constructor; vm_compute; discriminate]). constructor.
Qed.
Definition late_world : world := match program demo_behave demo_setup 3 1 1 0 9 (start_world 64 late_kernel) with Done (_, w) => w | _ => start_world 64 late_kernel end.
Lemma timecb_check_calls_due_witness :
  (rg_timers (reg_of (log late_world)) !! 1%positive = Some (mkts 5 0, CbUser 1) /\ ts_le (mkts 5 0) (hd (tsnow late_world) (k_clock (kern late_world))) = true) /\
  exists w' l, (forall b, (length (timecbs late_world) <= b)%nat -> timecb_check (call_cb demo_behave 1 3 1) b late_world = Done (tt, w')) /\ consistent w' /\ log w' = log late_world ++ l /\
    forall p ts c, rg_timers (reg_of (log late_world)) !! p = Some (ts, c) -> ts_le ts (hd (tsnow late_world) (k_clock (kern late_world))) = true ->
      (exists c now, Call (OTimer p) c now ∈ l) \/ OldTimer p ∈ l.
Proof.
  split; [split; vm_compute; reflexivity|]. apply (timecb_check_calls_due demo_behave demo_setup 3 64 late_kernel 1 1 0 9 late_world).
  - destruct demo_fair as (H1 & H2 & H3 & _). split; [exact H1|]. split; [exact H2|]. split; [exact H3|constructor].
  - exact late_later.
  - cbn. lia.
  - vm_compute. reflexivity.
Defined.
(** [ainit] marks [SIGCHLD] as caught. *)
Lemma sigcb_check_answers_witness : exists w' l, sigcb_check (call_cb demo_behave 1 3 2) (demo 0) = Done (tt, w') /\ consistent w' /\ log w' = log (demo 0) ++ l /\ answered SIGCHLD l.
Proof.
  apply (sigcb_check_answers demo_behave demo_setup 3 64 demo_kernel 1 2 0 9 (demo 0) SIGCHLD demo_fair).
  - cbn. lia.
  - vm_compute. reflexivity.
  - vm_compute. reflexivity.
  - vm_compute. eauto.
Defined.

(** ** What the loop and the times do not do *)
(** A callback of a timer that calls [acheck] makes the outer loop follow the timer after it, which the
    inner loop has freed. *)
Definition nested_behave (l : list event) (n : Z) : list action := if n =? 1 then [Acheck] else [].
Definition nested_setup : list action := [Timecb (mkts 5 0) (CbUser 1); Timecb (mkts 6 0) (CbUser 2)].
Lemma acheck_in_timer_wild : program nested_behave nested_setup 3 9 9 1 9 (start_world 64 (mkkernel [mkts 8 0] [] [] [])) = Wild.
Proof. vm_compute. reflexivity. Qed.
(** [operator+] and [operator-] give 10^9 nanoseconds when the sum is a whole second or the nanoseconds are equal. *)
Lemma ts_add_second a b : tv_nsec a + tv_nsec b = 1000000000 -> ts_add a b = mkts (tv_sec a + tv_sec b) 1000000000.
Proof. intros E. unfold ts_add. cbn [tv_sec tv_nsec]. by rewrite E. Qed.
Lemma ts_sub_equal a b : tv_nsec a = tv_nsec b -> ts_sub a b = mkts (tv_sec a - tv_sec b - 1) 1000000000.
Proof. intros E. unfold ts_sub. destruct (Z.ltb_spec (tv_nsec b) (tv_nsec a)); [lia|]. f_equal. lia. Qed.
Definition normal (t : timespec) : Prop := 0 <= tv_nsec t < 1000000000.
Definition nanoseconds (t : timespec) : Z := tv_sec t * 1000000000 + tv_nsec t.
(** They are right otherwise. *)
Lemma ts_add_sub_ok a b : normal a -> normal b ->
  nanoseconds (ts_add a b) = nanoseconds a + nanoseconds b /\ nanoseconds (ts_sub a b) = nanoseconds a - nanoseconds b /\
  (tv_nsec a + tv_nsec b <> 1000000000 -> normal (ts_add a b)) /\ (tv_nsec a <> tv_nsec b -> normal (ts_sub a b)).
Proof.
  unfold normal, nanoseconds, ts_add, ts_sub. cbn [tv_sec tv_nsec]. intros Ha Hb. destruct (Z.ltb_spec 1000000000 (tv_nsec a + tv_nsec b)), (Z.ltb_spec (tv_nsec b) (tv_nsec a)); cbn [tv_sec tv_nsec]; lia.
Qed.
(** The time that [select] may wait is one that [select] takes, does not go beyond the first timer and ends less than a microsecond before it. *)
Lemma wait_for_bounds ts now : normal ts -> normal now ->
  let '(s, us) := wait_for ts now in
  0 <= s /\ 0 <= us < 1000000 /\ nanoseconds now + s * 1000000000 + us * 1000 <= Z.max (nanoseconds ts) (nanoseconds now) < nanoseconds now + s * 1000000000 + (us + 1) * 1000.
Proof.
  unfold normal, nanoseconds, wait_for. intros Ht Hn. destruct (ts_lt ts now) eqn:E.
  - apply Z.ltb_lt in E. apply tscmp_spec in E. lia.
  - apply ts_lt_false, tscmp_spec in E. destruct (Z.leb_spec (tv_nsec now) (tv_nsec ts)).
    + assert (D := Z.quot_div_nonneg (tv_nsec ts - tv_nsec now) 1000 ltac:(lia) ltac:(lia)). rewrite D. assert (M := Z.div_mod (tv_nsec ts - tv_nsec now) 1000 ltac:(lia)). assert (B := Z.mod_pos_bound (tv_nsec ts - tv_nsec now) 1000 ltac:(lia)). lia.
    + assert (D := Z.quot_div_nonneg (1000000000 + tv_nsec ts - tv_nsec now) 1000 ltac:(lia) ltac:(lia)). rewrite D. assert (M := Z.div_mod (1000000000 + tv_nsec ts - tv_nsec now) 1000 ltac:(lia)). assert (B := Z.mod_pos_bound (1000000000 + tv_nsec ts - tv_nsec now) 1000 ltac:(lia)). lia.
Qed.
